(* ===== verification/_CoqProject ===== *)
-Q . S2P
Prelude.v
Shmem.v
Epoch.v
SharedSlab.v
LockfreeHtab.v
Tuple.v
Dedup.v
Versions.v
VersionStore.v
StoreParts.v
Double.v
Walker.v
Page.v
Search.v
Truncate.v
SplitLoc.v
Btree.v
Insert.v
Quals.v
ArrayKeys.v
Start.v
Sample.v
Draw.v
Range.v
Scan.v
ScanMatches.v
FixPath.v
PathSums.v
Build.v
BuildTree.v
BuildOk.v
BuildLoad.v
BuildSort.v
BuildIndex.v
BuildScan.v
Float8.v
Pagg.v
Unbiased.v
Budget.v
PaggStats.v
