(* ===== verification/Prelude.v ===== *)
(** * pgAQP: the aggregate B-tree and its estimates, modelled and verified

    pgAQP is a PostgreSQL 13.1 server with an aggregate B-tree index (AB-tree,
    src/pg13_abtree) and an extension for approximate query processing on top of it
    (src/aqp_pgext).  An AB-tree is a B-link tree in which every pivot tuple also has
    the aggregate of the subtree below it, so that samples can be drawn by descending
    with probabilities proportional to the aggregates.  Readers run under MVCC
    snapshots: for every child page a version store keeps the recent changes to its
    aggregate per transaction, and a reader subtracts what its snapshot must not see.
    The version store is shared by all backends without locks.  It is built from an
    epoch manager, a slab allocator and a hash table, all lock-free.

    *** The files, and the code they model (paths under src/pg13_abtree/src)

    - Prelude (this file): machine integers with their wrap-around written out, bit and
      list lemmas, tactics.
    - Shmem: a C function on shared memory as a tree of atomic accesses ([prog]), its
      sequential meaning [run], its interleaved meaning [cstep] / [exec], a
      rely/guarantee judgement with its soundness proof, and [plift], which uses a
      component's programs inside a larger memory.
    - Epoch: include/utils/epoch.h, backend/utils/mmgr/epoch.c.  Shared words are [eloc]
      (global epoch, safe epoch, one local epoch per slot), the backend's statics are
      [epoch_local].
    - SharedSlab: include/utils/shared_slab.h, backend/utils/mmgr/shared_slab.c.  Shared
      words are [sloc], constants of the header are [header], the backend's object with
      its deallocation lists is [slab].
    - LockfreeHtab: include/utils/lockfree_htab.h, backend/utils/hash/lockfree_htab.c and
      the hash functions of common/hashfn.c.  What the table needs of its allocator is
      the classes [NodeAlloc] and [NodeFree]; the slab provides both.
    - Tuple: the tuple format of include/access/abtree.h and the routines of
      backend/access/abtree/abtutils.c that lay out the space behind the key.
    - Dedup: backend/access/abtree/abtdedup.c, the whole deduplication pass and the
      operations on posting lists.
    - Versions: the parts of backend/access/abtree/abtversionstore.c without shared
      state (snapshots, keys, the heap-based merge that computes a page's aggregate and
      version chain, reading a chain under a snapshot) and the order of transaction ids
      of access/transam.
    - VersionStore: the shared chains of abtversionstore.c: lookup, insertion,
      replacement, reading and garbage collection.  The hash table and the node slab are
      behind the classes [ChainIndex] and [NodePool].
    - StoreParts: the hash table and the slab as instances of those classes in one
      memory with one epoch manager, a concrete store, and the interleavings of
      insertion and garbage collection.
    - Double: IEEE binary64 as the code uses it (random numbers, inverse probabilities).
    - Walker: include/utils/walker.h, backend/utils/walker.c, the alias structure.
    - Page: pages of tuples with their flags, insertion scan keys and their comparison
      with a tuple (_abt_compare of abtsearch.c, _abt_mkscankey_extended of abtutils.c).
    - Search: the three binary searches of abtsearch.c.
    - Btree: finding the root (abtpage.c), moving right, descending by key and to the
      ends of a level (abtsearch.c).  A [bstate] has the buffers that are locked and the
      cached meta page; a function on pages is an error-state computation [M].
    - Quals: search keys of abtutils.c: _abt_preprocess_keys with its helpers, and
      _abt_checkkeys.  What it needs of the operators is the class [OpFamily].
    - ArrayKeys: array keys of abtutils.c, and the loop over their elements (abtree.c).
      The sort and the elements' order are the classes [ArraySort] and [ElemProcs].
    - Start: _abt_build_start_inskey of abtsearch.c, the insertion key at which a scan
      with given search keys starts.  The order functions are the class [OrderProcs].
    - Sample: _abt_sample_extended and _abt_total_weight of abtsearch.c.
    - Draw: sampling with the aggregates read through the version store.
    - Range: the preparation of a sampling scan's keys (abtree.c) and sampling by them.
    - Scan: ordinary index scans: _abt_first, _abt_next, _abt_readpage, _abt_steppage,
      _abt_walk_left and _abt_endpoint of abtsearch.c, abtgettuple, abtgetbitmap and the
      marks of abtree.c.  The position of a scan is [ABTScanPosData], the scan
      [ABTScanOpaque].  ScanMatches has the theorems on whole scans.
    - Truncate: suffix truncation, the check of a tuple's attributes against its place
      and the size limit of tuples (abtutils.c).
    - SplitLoc: abtsplitloc.c, the choice of the split point of a full page.  qsort is
      behind the class [SplitSort].
    - Insert: the page level of abtinsert.c: _abt_pgaddtup, _abt_split and
      _abt_insertonpg up to the insertion into the parent.
    - FixPath: _abt_fix_path_aggregation_itup of abtinsert.c with the functions it calls:
      the walk back up the stack of a descent that adds the value of a new entry to every
      pivot above it.  The state has the pages, the version store and the changes other
      backends make between the locks.  PathSums has the specification and the invariant.
    - Build: abtsort.c, the serial build of an index: the spools of live and dead heap
      tuples, comparetup_index_btree of tuplesort.c, the merge of the spools, the posting
      lists, _abt_buildadd with one page under construction per level ([ABTPageState]) and
      _abt_uppershutdown.  The file is a list of blocks ([ABTWriteState]).  The sort is
      behind the class [TupleSort]; BuildSort has an instance.  BuildTree has the invariant
      of the construction, BuildOk what it gives the other operations, BuildLoad the order
      and the posting lists, BuildIndex and BuildScan the theorems on whole builds.

    The extension (src/aqp_pgext) estimates sums and counts from the samples:

    - Float8: the arithmetic of the estimates as the class [Float8], with binary64 and the
      exact rational numbers as instances; sum, mean and variance of a list.
    - Pagg: the transition functions and the statistics of aqp_pagg.c (state
      [AQPApproxAggTransState], control node [AQPPSWRControlState], what the scan and the
      aggregate share [AQPPSWRCtlInfoData]), aqp_math.c, aqp_math.h and float8_accum of
      backend/utils/adt/float.c.  PaggStats has the theorems on the intervals of the
      recorded samples.
    - Budget: aqp_pswr_cap_allocation_to_remaining_budget of aqp_pagg.c and the budget
      functions of aqp_pswrctl_node.c, with binary64 shares.
    - Unbiased: the sampling scan of one table (aqp_swr_scan_exec_new of aqp_swrscan.c, the
      path without partition keys and batches), which draws from the index (Sample), composed
      with the transition functions.  The heap tuple of a TID with its quals is a parameter.

    *** What the theorems show

    - Epoch: the order of epochs is the ring order modulo 2^63; under every interleaving
      of atomic accesses the epochs never move backwards; an epoch obtained from a bump
      is declared safe only after every backend inside has announced a later one, when the
      operations run as a whole.
    - SharedSlab: successive allocations by one backend, from any free list and while the
      directories have room, return disjoint, aligned items; a list of freed items is
      reclaimed exactly when the epoch it was stamped with is safe.
    - LockfreeHtab: find, enter and remove by one backend at a time implement a map from
      keys to elements, except for elements that hold the sentinel value.
    - Tuple: the bits of a tuple's header are read back as written; arrays behind the
      key do not overlap; reserving and purging aggregate space is a round trip.
    - Dedup: a pass keeps exactly the entries of the page, in order; posting list splits
      and vacuum keep the right entries.
    - Versions: the merge of a page's chains terminates, sums the page and gives a
      sorted chain with the same deltas per transaction; on a whole tree, reading the
      root under a snapshot gives exactly the sum of the visible entries.
    - VersionStore: each operation keeps the store's invariant and has the stated effect
      on the versions of its key; an insertion becomes visible to exactly the readers
      whose snapshots see its transaction; garbage collection frees exactly the old nodes.

    - Walker: the alias table distributes every weight exactly; every random number
      selects an item; how often each item is selected.
    - Search: each binary search finds what a linear search would.
    - Btree: in an ordered B-link tree, unfinished splits included, a search ends on the
      page its key belongs to, with exactly one buffer locked.
    - Quals: preprocessing keeps the meaning of the quals; a scan is stopped only when
      nothing that follows can match.
    - Start: every tuple that satisfies the quals lies on the side of the start key that
      the scan visits.
    - Draw: a draw decided on an internal page, or on a leaf page of plain tuples, chooses
      among the entries the snapshot sees, each with probability proportional to its weight,
      and reports the total weight over the stored weight.  Left out are the cases where the
      code does otherwise: a posting list on the leaf page where the draw is decided,
      posting lists with stored weights and hidden entries, and weightless leaf pages;
      examples run them.  Without stored weights the total is reported undivided.
    - ArrayKeys: the scans for the elements of arrays together accept exactly the tuples
      that satisfy the array quals, each once; the sets of elements come in the order of
      the index; marks can be restored.
    - Range: from the quals of a query to the draws: every visible entry that satisfies
      them has its share of the cutoffs, and a draw with a cutoff in it returns its TID.
    - ScanMatches: from the quals of a query to the TIDs an ordinary scan returns, in both
      directions, one by one or as a bitmap; a restored mark continues where it was.
    - Truncate: a truncated pivot separates the tuples around a split point, fits the
      page when the tuples did and has the attributes its place requires.
    - SplitLoc: for a full page of items of at most a third of a page there is always a
      split point, and the one chosen fits and has the lowest penalty in its interval.
    - Insert: a leaf split keeps the items in order and separates them by the new high
      key; an internal split keeps downlinks and aggregates; an insertion at the place
      the binary search returns keeps the page in order.
    - PathSums: after an insertion, undisturbed by other backends, the aggregate of every
      pivot is again the sum of the subtree below it, and the version chains are the sums of
      the chains below.
    - BuildIndex: a build over rows of allowed size with values the aggregate's type can sum
      gives an index of exactly the heap's tuples that has the invariants of Btree,
      ScanMatches and PathSums, with exact aggregates; a unique build fails exactly on
      duplicates among the live tuples; a row that is too large is rejected.  The fuel is the number of heap
      tuples, which bounds the levels.
    - BuildScan: a scan of an index that was just built returns exactly the heap tuples that
      satisfy the quals.
    - Unbiased: averaged over all sequences of draws the estimate is the sum of the rows,
      each weighted with its probability times the inverse probability the index reports,
      which is the exact sum if the inverse probabilities are exact; the variance the code
      computes is the mean square error of the estimate.
    - Pagg: the two implementations of the approximate sum give the same estimate and the
      same confidence interval; the estimate of a stratified phase is the combination of the
      unstratified samples and the strata, weighted with the share of the former.  The
      theorems of Unbiased, Pagg and PaggStats are about the code on rational numbers (the
      index draws of Unbiased are on doubles): they show what it computes up to rounding,
      where nothing overflows; an example has the overflow of doubles.
    - PaggStats: the intervals the recorded samples are divided into have at least two
      samples each, and the mean and variance of every prefix.
    - Budget: a capped allocation succeeds and stays within the budget.

    Some theorems state behaviour the authors did not intend: a race of the epoch scan,
    the free list that keeps only one item of a reclaimed list, a double allocation, the
    chunk directory outside its block, the sentinel that lookups ignore, pointers that
    are dereferenced while marked or after a failed exchange, an insertion that spins, a
    posting list split that takes the wrong transaction id, deduplication that makes a
    page larger, an alias table that favours its own items by one unit and loses wide
    weights, item indexes that lose the posting offset, draws that give up on a split page,
    return the wrong entry of a posting list or read behind an array when nothing has weight,
    included columns that truncation keeps, a split heuristic that never applies,
    update ids that reach the invalid id or restart at a split, a value added twice to
    the aggregates at the root, a single sample that is dropped or accumulated outside its
    array, and float8 arguments read as integers.  They are proved with the definitions used by all other
    theorems.

    *** Conventions

    A function on shared memory returns a [prog]; [Err] stands for a failed assertion
    ([AssertFailed]), elog(ERROR) ([ElogError]), the use of a NULL, marked or misaligned
    pointer ([BadPointer]) or exhausted fuel ([OutOfFuel]).  Retry loops and list
    traversals recurse on a fuel argument; theorems that say an operation returns prove
    that fuel beyond the length of the lists involved is enough when the operation runs
    alone.  Pure code is Rocq functions on lists and records, with [option] where the C
    code raises an error or would read outside an array.  Some Asserts of
    SharedSlab and the one on a new node's value in LockfreeHtab are part of the
    definitions; the others are left out, as in a build without assertions.
    SQL addition on aggregates is addition with the type's overflow error.
    Pointers are 64-bit slab pointers; a node's words are addressed by pointer plus byte
    offset.  Transaction ids are compared on the ring; theorems assume that the ids
    involved lie in a window of 2^31.

    In Btree and Sample the pages do not change during an operation: [pages] maps block
    numbers to pages, and releasing a buffer that is not held is the error [BadBuffer].
    Fuel bounds the pages visited; the theorems say how much is enough (height and width
    of the tree).  Datums are integers, the order of a column is a comparison function
    with the class [BtreeOrder]; cross-type operators are looked up with a function.
    Random numbers are doubles in [0, 1); floor of a product out of range of the integer
    type is an error of the model ([None]), which the theorems exclude.  Code for
    write access (creating the root, finishing splits) is left out of the functions of
    Btree, which model read access, and reaching it is the error [Unmodelled].

    Parameters: dsa_allocate_extended (the pointer it returns is an argument of the
    allocation functions), the values of ShutdownRequestPending, the key columns of
    tuples with their comparison, the operator family of an index (get_opfamily_member),
    the size of a tuple formed from given values (index_form_tuple), qsort and tuplesort,
    the mapping function of an index's aggregation, log and sqrt of the C library, the
    conversion of a Datum in Pagg, and in Sample the reader of a pivot's aggregate ([read_agg], in Draw the version
    store's).

    ** Not modelled

    Of insertion (abtinsert.c) the unique checks, the search for the page, the insertion
    into the parent and new roots; page deletion and vacuum
    (abtpage.c, abtree.c), parallel workers of a build (abtsort.c), write-ahead log replay (abtxlog.c),
    operator class checks (abtvalidate.c), the aggregate support functions
    (abtaggfuncs.c), parallel scans, killed items, the tuple copies of index-only scans
    and the locked paths of fast sampling in abtsearch.c, options in abtutils.c, shared
    memory start-up, the extension's planner, rewriter and executor nodes,
    its allocation optimizers and confidence tests (aqp_pagg.c), and PostgreSQL itself beyond the
    helpers named above.

    ** Plan

    Next: the rewriting of queries with approximate aggregates, the allocation optimizers,
    the insertion into the parent, the locked paths of fast sampling, page deletion,
    and concurrent (rely/guarantee) specifications of the hash table and the version store. *)

From stdpp Require Import base list numbers option sorting.
From Stdlib Require Import ZArith Lia.

Declare Scope cint_scope.
Delimit Scope cint_scope with cint.
#[global] Open Scope Z_scope.

(** ** Machine integers *)

Definition u16 (z : Z) : Z := z mod 2 ^ 16.
Definition u32 (z : Z) : Z := z mod 2 ^ 32.
Definition u64 (z : Z) : Z := z mod 2 ^ 64.

Definition sign_extend (w : Z) (z : Z) : Z :=
  let r := z mod 2 ^ w in if r <? 2 ^ (w - 1) then r else r - 2 ^ w.
Definition i16 (z : Z) : Z := sign_extend 16 z.
Definition i32 (z : Z) : Z := sign_extend 32 z.
Definition i64 (z : Z) : Z := sign_extend 64 z.

Notation "x +64 y" := (u64 (x + y)) (at level 50, left associativity) : cint_scope.
Notation "x -64 y" := (u64 (x - y)) (at level 50, left associativity) : cint_scope.
Notation "x +32 y" := (u32 (x + y)) (at level 50, left associativity) : cint_scope.
Notation "x -32 y" := (u32 (x - y)) (at level 50, left associativity) : cint_scope.

(** [MAXALIGN]: round up to the platform's maximal alignment, 8 bytes
    (TYPEALIGN of c.h). *)
Definition TYPEALIGN (a len : Z) : Z := Z.land (len + (a - 1)) (Z.lnot (a - 1)).
Definition MAXALIGN (len : Z) : Z := TYPEALIGN 8 len.

(** ** Tactics *)

(** Turn boolean integer tests of the context and the goal into propositions. *)
Ltac zbool :=
  repeat match goal with
  | H : (_ =? _) = true |- _ => apply Z.eqb_eq in H
  | H : (_ =? _) = false |- _ => apply Z.eqb_neq in H
  | H : (_ <? _) = true |- _ => apply Z.ltb_lt in H
  | H : (_ <? _) = false |- _ => apply Z.ltb_ge in H
  | H : (_ <=? _) = true |- _ => apply Z.leb_le in H
  | H : (_ <=? _) = false |- _ => apply Z.leb_gt in H
  | H : negb _ = true |- _ => apply negb_true_iff in H
  | H : negb _ = false |- _ => apply negb_false_iff in H
  | H : (_ && _)%bool = true |- _ => apply andb_true_iff in H as [? ?]
  | H : (_ || _)%bool = false |- _ => apply orb_false_iff in H as [? ?]
  | |- (_ =? _) = true => apply Z.eqb_eq
  | |- (_ =? _) = false => apply Z.eqb_neq
  | |- (_ <? _) = true => apply Z.ltb_lt
  | |- (_ <? _) = false => apply Z.ltb_ge
  | |- (_ <=? _) = true => apply Z.leb_le
  | |- (_ <=? _) = false => apply Z.leb_gt
  | |- negb _ = true => apply negb_true_iff
  | |- negb _ = false => apply negb_false_iff
  end.

(** Case on the test of the first [if] of the goal, then clean up. *)
Ltac if_case :=
  match goal with
  | |- context [if ?b then _ else _] =>
      lazymatch type of b with
      | bool => destruct b eqn:?
      | _ => destruct b
      end
  end; zbool.

(** Arithmetic with division and modulo. *)
Ltac divlia := Z.div_mod_to_equations; lia.

Create HintDb cint.

(** ** Integer lemmas *)

Lemma u64_small z : 0 <= z < 2 ^ 64 -> u64 z = z.
Proof. apply Z.mod_small. Qed.
Lemma u64_range z : 0 <= u64 z < 2 ^ 64.
Proof. apply Z.mod_pos_bound; lia. Qed.
Lemma u32_small z : 0 <= z < 2 ^ 32 -> u32 z = z.
Proof. apply Z.mod_small. Qed.
Lemma u32_range z : 0 <= u32 z < 2 ^ 32.
Proof. apply Z.mod_pos_bound; lia. Qed.
#[export] Hint Resolve u64_range u32_range : cint.

Lemma land_mask a n : 0 <= n -> Z.land a (2 ^ n - 1) = a mod 2 ^ n.
Proof.
  intros. replace (2 ^ n - 1) with (Z.ones n) by (rewrite Z.ones_equiv; lia).
  by apply Z.land_ones.
Qed.

(** Masking with the complement of a low mask clears the low bits. *)
Lemma land_lnot_mask a n : 0 <= n -> Z.land a (Z.lnot (2 ^ n - 1)) = a - a mod 2 ^ n.
Proof.
  intros. rewrite <- land_mask by done.
  replace (2 ^ n - 1) with (Z.ones n) by (rewrite Z.ones_equiv; lia).
  rewrite <- Z.ldiff_land, Z.ldiff_ones_r by done.
  rewrite Z.land_ones, Z.shiftl_mul_pow2, Z.shiftr_div_pow2 by done.
  pose proof (Z.div_mod a (2 ^ n)). lia.
Qed.

Lemma TYPEALIGN_pow2 n len :
  0 <= n -> TYPEALIGN (2 ^ n) len = (len + (2 ^ n - 1)) / 2 ^ n * 2 ^ n.
Proof.
  intros. unfold TYPEALIGN. rewrite land_lnot_mask by done.
  pose proof (Z.div_mod (len + (2 ^ n - 1)) (2 ^ n)). lia.
Qed.

Lemma MAXALIGN_eq len : MAXALIGN len = (len + 7) / 8 * 8.
Proof. exact (TYPEALIGN_pow2 3 len ltac:(lia)). Qed.

Lemma MAXALIGN_spec len :
  len <= MAXALIGN len < len + 8 /\ MAXALIGN len mod 8 = 0.
Proof. rewrite MAXALIGN_eq. split; [divlia|]. apply Z.mod_mul. lia. Qed.

Lemma MAXALIGN_id len : len mod 8 = 0 -> MAXALIGN len = len.
Proof. rewrite MAXALIGN_eq. intros. divlia. Qed.

Lemma MAXALIGN_add len a : len mod 8 = 0 -> MAXALIGN (len + a) = len + MAXALIGN a.
Proof. rewrite !MAXALIGN_eq. intros. divlia. Qed.

Lemma MAXALIGN_mono a b : a <= b -> MAXALIGN a <= MAXALIGN b.
Proof. rewrite !MAXALIGN_eq. intros. divlia. Qed.

(** Testing, setting, clearing and flipping one bit. *)
Lemma land_bit_eq0 a k : 0 <= k -> Z.land a (2 ^ k) = 0 <-> Z.testbit a k = false.
Proof.
  intros Hk. split.
  - intros H. apply (f_equal (fun z => Z.testbit z k)) in H.
    rewrite Z.land_spec, Z.pow2_bits_true, andb_true_r, Z.bits_0 in H by done. done.
  - intros H. apply Z.bits_inj'. intros i Hi.
    rewrite Z.land_spec, Z.bits_0, Z.pow2_bits_eqb by done.
    destruct (Z.eqb_spec k i) as [->|]; [by rewrite H|by rewrite andb_false_r].
Qed.

Lemma testbit_top a k : 0 <= k -> 0 <= a < 2 ^ (k + 1) -> Z.testbit a k = (2 ^ k <=? a).
Proof.
  intros Hk Ha. rewrite Z.testbit_eqb by done.
  rewrite Z.pow_add_r in Ha by lia.
  destruct (Z.leb_spec (2 ^ k) a).
  - replace (a / 2 ^ k) with 1; [done|].
    apply Z.div_unique with (a - 2 ^ k); lia.
  - rewrite Z.div_small by lia. done.
Qed.

Lemma lxor_bit_involutive a b : Z.lxor (Z.lxor a b) b = a.
Proof. rewrite Z.lxor_assoc, Z.lxor_nilpotent. apply Z.lxor_0_r. Qed.

(** ** Lists *)

(** Sum of a list of integers. *)
Fixpoint sumZ (l : list Z) : Z :=
  match l with [] => 0 | x :: l' => x + sumZ l' end.

Lemma sumZ_app l k : sumZ (l ++ k) = sumZ l + sumZ k.
Proof. induction l; simpl; lia. Qed.

Lemma sumZ_perm l k : Permutation l k -> sumZ l = sumZ k.
Proof. induction 1; simpl; lia. Qed.

#[export] Instance sumZ_Proper : Proper (Permutation ==> eq) sumZ.
Proof. intros l k. apply sumZ_perm. Qed.

Lemma sumZ_nonneg l : Forall (fun z => 0 <= z) l -> 0 <= sumZ l.
Proof. induction 1; simpl; lia. Qed.

Lemma filter_id {A} (P : A -> Prop) `{forall x, Decision (P x)} (l : list A) :
  Forall P l -> filter P l = l.
Proof. induction 1 as [|x l Hx _ IH]; [done|]. rewrite filter_cons_True by done. by rewrite IH. Qed.

Lemma StronglySorted_lookup {A} (R : relation A) (l : list A) (i j : nat) x y :
  StronglySorted R l -> (i < j)%nat -> l !! i = Some x -> l !! j = Some y -> R x y.
Proof.
  intros Hs. revert i j x. induction Hs as [|a l _ IH Ha]; intros i j x Hij Hi Hj; [done|].
  destruct j as [|j]; [lia|]. simpl in Hj. destruct i as [|i]; simpl in Hi.
  - injection Hi as <-. rewrite Forall_forall in Ha. apply Ha. by eapply list_elem_of_lookup_2.
  - apply (IH i j x); [lia|done|done].
Qed.

Lemma StronglySorted_intro {A} (R : relation A) (l : list A) :
  (forall i j x y, (i < j)%nat -> l !! i = Some x -> l !! j = Some y -> R x y) -> StronglySorted R l.
Proof.
  induction l as [|a l IH]; intros H; constructor.
  - apply IH. intros i j x y Hij Hi Hj. by apply (H (S i) (S j)); [lia|..].
  - apply Forall_lookup. intros i x Hx. by apply (H 0%nat (S i)); [lia|..].
Qed.

Lemma StronglySorted_insert {A} (R : relation A) (l : list A) (n : nat) (x : A) :
  StronglySorted R l -> (forall y, y ∈ take n l -> R y x) -> (forall y, y ∈ drop n l -> R x y) -> StronglySorted R (take n l ++ x :: drop n l).
Proof.
  intros Hs Hl Hr. rewrite <- (take_drop n l) in Hs. apply StronglySorted_app in Hs as (Hc & H1 & H2).
  apply StronglySorted_app_2; [|done|].
  - intros y z Hy [->|Hz]%elem_of_cons; [by apply Hl|by apply Hc].
  - constructor; [done|]. by apply Forall_forall.
Qed.
