(* ===== verification/Shmem.v ===== *)
(** * Shared memory and interleaving

    The lock-free parts of the program (epoch manager, slab allocator, hash
    table, version chains) are C functions whose only effects on shared memory
    are atomic reads, writes, compare-and-exchanges and fetch-and-adds.  Such a
    function is a [prog]: a tree with one node per atomic access, so that the
    sequential meaning ([run]) and the interleaved meaning ([cstep], and the
    executable [exec]) are read off the same definition.

    A location type [L] is chosen by each component; a memory is a total map
    from locations to machine words.  [Err] is a failed assertion, an elog(ERROR), a wild pointer
    or a loop whose fuel ran out.

    [rg] is a rely/guarantee judgement on programs; [csteps_rg] is its
    soundness for any number of concurrent programs. *)

From stdpp Require Import base list option.
From S2P Require Import Prelude.

Inductive perr := AssertFailed | ElogError | BadPointer | OutOfFuel.

#[export] Instance perr_eq_dec : EqDecision perr.
Proof. solve_decision. Defined.

Section Shmem.
Context {L : Type} `{EqDecision L}.

Definition mem := L -> Z.

Definition upd (m : mem) (l : L) (v : Z) : mem :=
  fun l' => if decide (l = l') then v else m l'.

Lemma upd_eq m l v : upd m l v l = v.
Proof. unfold upd. by rewrite decide_True. Qed.
Lemma upd_ne m l l' v : l <> l' -> upd m l v l' = m l'.
Proof. intros. unfold upd. by rewrite decide_False. Qed.

Lemma upd_comm m l1 l2 v1 v2 l :
  l1 <> l2 -> upd (upd m l1 v1) l2 v2 l = upd (upd m l2 v2) l1 v1 l.
Proof. intros Hne. unfold upd. repeat case_decide; congruence. Qed.

(** ** Programs *)

Definition fadd (w old d : Z) : Z := old - old mod 2 ^ w + (old + d) mod 2 ^ w.

Inductive prog (A : Type) : Type :=
  | Ret (a : A)
  | Read (l : L) (k : Z -> prog A)
  | Write (l : L) (v : Z) (k : prog A)
  | CAS (l : L) (old new : Z) (k : bool -> Z -> prog A)
  | FAdd (w : Z) (l : L) (d : Z) (k : Z -> prog A)
  | Err (e : perr).
Arguments Ret {A}. Arguments Read {A}. Arguments Write {A}.
Arguments CAS {A}. Arguments FAdd {A}. Arguments Err {A}.

Fixpoint pbind {A B} (f : A -> prog B) (p : prog A) : prog B :=
  match p with
  | Ret a => f a
  | Read l k => Read l (fun v => pbind f (k v))
  | Write l v k => Write l v (pbind f k)
  | CAS l o n k => CAS l o n (fun b v => pbind f (k b v))
  | FAdd w l d k => FAdd w l d (fun v => pbind f (k v))
  | Err e => Err e
  end.

Inductive outcome (A : Type) := Done (a : A) | Failed (e : perr).
Arguments Done {A}. Arguments Failed {A}.

(** ** Sequential meaning: the program runs alone.

    A compare-and-exchange passes its continuation whether it succeeded and the
    value observed, which is what pg_atomic_compare_exchange leaves in
    [*expected]; a fetch-and-add on the low [w] bits of a word passes their old
    value, wraps at [w] bits and keeps the other bits. *)
Fixpoint run {A} (p : prog A) (m : mem) : outcome A * mem :=
  match p with
  | Ret a => (Done a, m)
  | Read l k => run (k (m l)) m
  | Write l v k => run k (upd m l v)
  | CAS l o n k =>
      if m l =? o then run (k true o) (upd m l n) else run (k false (m l)) m
  | FAdd w l d k => run (k (m l mod 2 ^ w)) (upd m l (fadd w (m l) d))
  | Err e => (Failed e, m)
  end.

Lemma run_bind {A B} (f : A -> prog B) (p : prog A) (m : mem) :
  run (pbind f p) m =
  match run p m with
  | (Done a, m') => run (f a) m'
  | (Failed e, m') => (Failed e, m')
  end.
Proof.
  revert m. induction p; intros m; simpl; try done.
  by destruct (m l =? old).
Qed.

(** ** Interleaved meaning *)

(** One atomic action; [None] when the program has returned or failed. *)
Definition pstep {A} (p : prog A) (m : mem) : option (prog A * mem) :=
  match p with
  | Ret _ | Err _ => None
  | Read l k => Some (k (m l), m)
  | Write l v k => Some (k, upd m l v)
  | CAS l o n k =>
      if m l =? o then Some (k true o, upd m l n) else Some (k false (m l), m)
  | FAdd w l d k => Some (k (m l mod 2 ^ w), upd m l (fadd w (m l) d))
  end.

Definition config A : Type := list (prog A) * mem.

(** Some thread performs one action. *)
Inductive cstep {A} : config A -> config A -> Prop :=
  | cstep_thread ps i p p' m m' :
      ps !! i = Some p -> pstep p m = Some (p', m') ->
      cstep (ps, m) (<[i := p']> ps, m').

(** Finite runs all of whose memories satisfy [P]. *)
Inductive csteps {A} (P : mem -> Prop) : config A -> config A -> Prop :=
  | csteps_refl c : csteps P c c
  | csteps_step c1 c2 c3 :
      cstep c1 c2 -> P (snd c2) -> csteps P c2 c3 -> csteps P c1 c3.

(** Follow a schedule, a list of thread indices; a thread that cannot move is
    skipped. *)
Fixpoint exec {A} (sched : list nat) (c : config A) : config A :=
  match sched with
  | [] => c
  | i :: sched' =>
      let '(ps, m) := c in
      match ps !! i with
      | Some p =>
          match pstep p m with
          | Some (p', m') => exec sched' (<[i := p']> ps, m')
          | None => exec sched' c
          end
      | None => exec sched' c
      end
  end.

Lemma exec_csteps {A} sched (c : config A) : csteps (fun _ => True) c (exec sched c).
Proof.
  revert c. induction sched as [|i sched IH]; intros [ps m]; simpl; [constructor|].
  destruct (ps !! i) as [p|] eqn:Hp; [|apply IH].
  destruct (pstep p m) as [[p' m']|] eqn:Hs; [|apply IH].
  econstructor; [by econstructor|done|apply IH].
Qed.

(** Whether every memory along a schedule passes a test. *)
Fixpoint exec_all {A} (test : mem -> bool) (sched : list nat) (c : config A) : bool :=
  match sched with
  | [] => true
  | i :: sched' => let c' := exec [i] c in test (snd c') && exec_all test sched' c'
  end.

Lemma exec_cons {A} i sched (c : config A) : exec (i :: sched) c = exec sched (exec [i] c).
Proof. destruct c as [ps m]. simpl. by repeat case_match. Qed.

Lemma exec_all_csteps {A} (P : mem -> Prop) test sched (c : config A) :
  (forall m, test m = true -> P m) -> exec_all test sched c = true ->
  csteps P c (exec sched c).
Proof.
  intros Ht. revert c. induction sched as [|i sched IH]; intros c Hall; [constructor|].
  rewrite exec_cons. simpl in Hall. apply andb_true_iff in Hall as [H1 H2].
  specialize (IH _ H2). destruct c as [ps m]; simpl in *.
  destruct (ps !! i) as [p|] eqn:Hp; [|done].
  destruct (pstep p m) as [[p' m']|] eqn:Hs; [|done].
  econstructor; [by econstructor|by apply Ht|done].
Qed.

Lemma csteps_trans {A} P (c1 c2 c3 : config A) :
  csteps P c1 c2 -> csteps P c2 c3 -> csteps P c1 c3.
Proof. induction 1; eauto using csteps. Qed.

(** ** Rely/guarantee

    [rg P R Q p m]: started in [m], with other threads changing memory by [R]
    between any two actions, every action of [p] is itself an [R] step (the
    guarantee is the rely: all threads run code of the same component), no
    error other than running out of retry fuel is reached, and [p] returns only
    in states satisfying [Q].  Only memories satisfying [P] are considered.
    This is a safety judgement: that a routine does return is stated with
    [run], where the fuel is shown to be enough. *)
Section RelyGuarantee.
Context (P : mem -> Prop) (R : mem -> mem -> Prop).

Fixpoint rg {A} (Q : A -> mem -> Prop) (p : prog A) (m : mem) : Prop :=
  match p with
  | Ret a => forall m', R m m' -> P m' -> Q a m'
  | Read l k => forall m', R m m' -> P m' -> rg Q (k (m' l)) m'
  | Write l v k => forall m', R m m' -> P m' ->
      P (upd m' l v) -> R m' (upd m' l v) /\ rg Q k (upd m' l v)
  | CAS l o n k => forall m', R m m' -> P m' ->
      (m' l = o -> P (upd m' l n) -> R m' (upd m' l n) /\ rg Q (k true o) (upd m' l n)) /\
      (m' l <> o -> rg Q (k false (m' l)) m')
  | FAdd w l d k => forall m', R m m' -> P m' ->
      let m'' := upd m' l (fadd w (m' l) d) in
      P m'' -> R m' m'' /\ rg Q (k (m' l mod 2 ^ w)) m''
  | Err e => e = OutOfFuel
  end.

Context `{HR : !PreOrder R}.

Local Hint Extern 0 (R ?m ?m) => reflexivity : core.

(** The judgement is closed under steps of the environment. *)
Lemma rg_env {A} (Q : A -> mem -> Prop) p m m' : R m m' -> rg Q p m -> rg Q p m'.
Proof.
  intros Hm Hp. destruct p; simpl in *; [| | | | |done];
    intros m2 H2; apply Hp; by trans m'.
Qed.

Lemma rg_weaken {A} (Q Q' : A -> mem -> Prop) p m :
  (forall a m', P m' -> Q a m' -> Q' a m') -> rg Q p m -> rg Q' p m.
Proof.
  intros HQ. revert m.
  induction p as [a|l k IH|l v k IH|l o n k IH|w l d k IH|e]; intros m Hp; simpl in *; [..|done].
  - eauto.
  - eauto.
  - intros m' H1 H2 H3. destruct (Hp m' H1 H2 H3). eauto.
  - intros m' H1 H2. destruct (Hp m' H1 H2) as [Ht Hf].
    split; [|by eauto]. intros He HP. destruct (Ht He HP). eauto.
  - intros m' H1 H2 H3. destruct (Hp m' H1 H2 H3). eauto.
Qed.

Lemma rg_bind {A B} (Q : A -> mem -> Prop) (Q' : B -> mem -> Prop) f p m :
  P m ->
  rg Q p m -> (forall a m', P m' -> Q a m' -> rg Q' (f a) m') -> rg Q' (pbind f p) m.
Proof.
  intros HP Hp Hf. revert m HP Hp.
  induction p as [a|l k IH|l v k IH|l o n k IH|w l d k IH|e];
    intros m HP Hp; simpl in Hp |- *; [..|done].
  - by apply Hf; [|apply Hp].
  - eauto.
  - intros m' H1 H2 H3. destruct (Hp m' H1 H2 H3). eauto.
  - intros m' H1 H2. destruct (Hp m' H1 H2) as [Ht Hff].
    split; [|by eauto]. intros He HP'. destruct (Ht He HP'). eauto.
  - intros m' H1 H2 H3. destruct (Hp m' H1 H2 H3). eauto.
Qed.

(** A step of a judged program is an [R] step and leaves a judged program. *)
Lemma rg_pstep {A} (Q : A -> mem -> Prop) p m p' m' :
  P m -> P m' -> rg Q p m -> pstep p m = Some (p', m') -> R m m' /\ rg Q p' m'.
Proof.
  intros HPm HPm' Hp Hs.
  destruct p as [a|l k|l v k|l o n k|w l d k|e]; simpl in *; simplify_eq; eauto.
  destruct (Hp m (reflexivity m) HPm) as [H1 H2].
  destruct (Z.eqb_spec (m l) o); simplify_eq; eauto.
Qed.

(** Soundness: any interleaving of judged programs is a sequence of [R] steps
    and ends in judged programs. *)
Lemma csteps_rg {A} (Q : nat -> A -> mem -> Prop) (c c' : config A) :
  csteps P c c' -> P (snd c) ->
  (forall i p, fst c !! i = Some p -> rg (Q i) p (snd c)) ->
  R (snd c) (snd c') /\ (forall i p, fst c' !! i = Some p -> rg (Q i) p (snd c')).
Proof.
  induction 1 as [c|c1 c2 c3 Hstep HP2 _ IH]; intros HP Hall; [by eauto|].
  destruct Hstep as [ps i p p' m m' Hi Hs]; simpl in *.
  destruct (rg_pstep (Q i) p m p' m' HP HP2 (Hall _ _ Hi) Hs) as [Hm Hp'].
  assert (Hall' : forall j q, (<[i:=p']> ps) !! j = Some q -> rg (Q j) q m').
  { intros j q Hj. apply list_lookup_insert_Some in Hj as [(-> & -> & _)|[_ Hj]]; [done|].
    by eapply rg_env, Hall. }
  destruct (IH HP2 Hall') as [HR' Hfin]. split; [by trans m'|done].
Qed.

End RelyGuarantee.
End Shmem.

Arguments mem : clear implicits.
Arguments prog : clear implicits.
Arguments outcome : clear implicits.
Arguments config : clear implicits.
Arguments Ret {L A}. Arguments Read {L A}. Arguments Write {L A}.
Arguments CAS {L A}. Arguments FAdd {L A}. Arguments Err {L A}.
Arguments Done {A}. Arguments Failed {A}.

(** ** Using a component's programs inside a larger memory *)

Fixpoint plift {L1 L2 A} (f : L1 -> L2) (p : prog L1 A) : prog L2 A :=
  match p with
  | Ret a => Ret a
  | Read l k => Read (f l) (fun v => plift f (k v))
  | Write l v k => Write (f l) v (plift f k)
  | CAS l o n k => CAS (f l) o n (fun b v => plift f (k b v))
  | FAdd w l d k => FAdd w (f l) d (fun v => plift f (k v))
  | Err e => Err e
  end.

(** A lifted program computes as the original on the embedded part and leaves
    the rest of the memory alone. *)
Lemma run_plift {L1 L2 A} `{EqDecision L1, EqDecision L2} (f : L1 -> L2) (Hf : Inj (=) (=) f)
    (p : prog L1 A) (m : mem L2) (m1 : mem L1) :
  (forall l, m1 l = m (f l)) ->
  fst (run (plift f p) m) = fst (run p m1) /\
  (forall l, snd (run (plift f p) m) (f l) = snd (run p m1) l) /\
  (forall l2, (forall l, l2 <> f l) -> snd (run (plift f p) m) l2 = m l2).
Proof.
  assert (Hupd : forall m m1 l v, (forall l, m1 l = m (f l)) ->
    forall l', upd m1 l v l' = upd m (f l) v (f l')).
  { clear -Hf. intros m m1 l v Hm l'. destruct (decide (l = l')) as [->|Hne].
    - by rewrite !upd_eq.
    - rewrite !upd_ne; auto. }
  revert m m1. induction p as [a|l k IH|l v k IH|l o n k IH|w l d k IH|e]; intros m m1 Hm; simpl.
  - auto.
  - rewrite (Hm l). auto.
  - destruct (IH (upd m (f l) v) (upd m1 l v)) as (H1 & H2 & H3); [by apply Hupd|].
    split; [done|]. split; [done|]. intros l2 Hl2. rewrite H3, upd_ne by eauto. done.
  - rewrite (Hm l). destruct (m (f l) =? o); [|auto].
    destruct (IH true o (upd m (f l) n) (upd m1 l n)) as (H1 & H2 & H3); [by apply Hupd|].
    split; [done|]. split; [done|]. intros l2 Hl2. rewrite H3, upd_ne by eauto. done.
  - rewrite (Hm l).
    destruct (IH (m (f l) mod 2 ^ w) (upd m (f l) (fadd w (m (f l)) d)) (upd m1 l (fadd w (m (f l)) d)))
      as (H1 & H2 & H3); [by apply Hupd|].
    split; [done|]. split; [done|]. intros l2 Hl2. rewrite H3, upd_ne by eauto. done.
  - auto.
Qed.

Declare Scope prog_scope.
Delimit Scope prog_scope with prog.
Notation "'let*' x := p 'in' q" := (pbind (fun x => q) p)
  (at level 10, x pattern, p at level 100, q at level 200) : prog_scope.
Notation "'assert*' b ; q" := (if (b : bool) then q else Err AssertFailed)
  (at level 10, b at level 99, q at level 200) : prog_scope.
#[global] Open Scope prog_scope.
