(* ===== verification/Epoch.v ===== *)
(** * The epoch manager (utils/epoch.h, utils/mmgr/epoch.c)

    Shared state: a global epoch counter, a safe epoch and one local epoch per
    backend slot.  A backend announces the epoch it runs in with
    [epoch_acquire]; memory retired at epoch [e] may be reused once the safe
    epoch has reached [e].

    Epoch numbers are the low 63 bits of a 64-bit word; bit 63 of a slot says
    that it is not in use.  The per-backend statics MyEpochEntryId and
    epoch_refresh_count are the record [epoch_local].  Condition-variable
    traffic and LOG messages carry no state and are left out; Assert is the
    production build's no-op. *)

From stdpp Require Import base list numbers option.
From S2P Require Import Prelude Shmem.

Module Epoch.

(** ** epoch.h *)

Definition EpochEntryNotInUseMask : Z := Z.shiftl 1 63.
Definition EpochEntryNumberMask : Z := EpochEntryNotInUseMask - 1.
Definition InvalidEpochEntryId : Z := -1.
Definition InvalidEpoch : Z := u64 (Z.lnot 0).
Definition EPOCH_REFRESH_INTERVAL : Z := 5000.

Definition EpochEntryInUse (a : Z) : bool := Z.land a EpochEntryNotInUseMask =? 0.

Definition EpochPreceedsOrEqualsTo (a b : Z) : bool :=
  Z.land (u64 (b - a)) EpochEntryNumberMask <? Z.shiftl 1 62.

Definition EpochPreceeds (a b : Z) : bool := negb (EpochPreceedsOrEqualsTo b a).

Definition EpochIncrement (a : Z) : Z := Z.land (u64 (a + 1)) EpochEntryNumberMask.
Definition EpochDecrement (a : Z) : Z := Z.land (u64 (a - 1)) EpochEntryNumberMask.

(** ** The shared EpochManager and the backend's statics *)

Inductive eloc := GlobalEpoch | SafeEpoch | LocalEpochs (i : Z).

#[export] Instance eloc_eq_dec : EqDecision eloc.
Proof. solve_decision. Defined.

Record epoch_local := mk_local {
  MyEpochEntryId : Z;
  epoch_refresh_count : Z
}.

Definition local_init : epoch_local := mk_local InvalidEpochEntryId 0.

(** sizeof(EpochManager) up to LocalEpochs, then one Epoch per backend. *)
Definition EpochShmemSize (sizeof_manager MaxBackends : Z) : Z :=
  MAXALIGN (0 + (sizeof_manager + 8 * MaxBackends)).

(** The memory after the postmaster ran EpochShmemInit. *)
Definition EpochShmemInit (NumEpochEntries : Z) (m : mem eloc) : mem eloc :=
  fun l => match l with
           | GlobalEpoch => 1
           | SafeEpoch => 0
           | LocalEpochs i =>
               if (0 <=? i) && (i <? NumEpochEntries)
               then EpochEntryNotInUseMask else m l
           end.

Section Operations.
(** [NumEpochEntries] is MaxBackends; [fuel] bounds the retries of the
    compare-and-exchange loops. *)
Context (NumEpochEntries : Z) (fuel : nat).

(** The scan of epoch_refresh_safe_epoch over slots [i ..], keeping the smallest
    epoch seen ([None] while [first]). *)
Fixpoint scan_epochs (n : nat) (i : Z) (first : bool) (new_safe_epoch : Z) : prog eloc Z :=
  match n with
  | O => Ret new_safe_epoch
  | S n' =>
      Read (LocalEpochs i) (fun epoch =>
        if EpochEntryInUse epoch && (first || EpochPreceeds epoch new_safe_epoch)
        then scan_epochs n' (i + 1) false epoch
        else scan_epochs n' (i + 1) first new_safe_epoch)
  end.

Definition epoch_refresh_safe_epoch : prog eloc Z :=
  let* scanned := scan_epochs (Z.to_nat NumEpochEntries) 0 true 0 in
  let new_safe_epoch := EpochDecrement scanned in
  Read SafeEpoch (fun cur_safe_epoch =>
    if EpochPreceeds cur_safe_epoch new_safe_epoch
    then CAS SafeEpoch cur_safe_epoch new_safe_epoch (fun ok seen =>
           Ret (if ok then new_safe_epoch else seen))
    else Ret cur_safe_epoch).

(** The do/while of epoch_acquire from slot [i] whose value was read as
    [value]; [None] when the scan came back to [first]. *)
Fixpoint acquire_slot (fuel : nat) (first i value global_epoch : Z) : prog eloc (option Z) :=
  match fuel with
  | O => Err OutOfFuel
  | S f =>
      if EpochEntryInUse value then
        let i' := Z.rem (i + 1) NumEpochEntries in
        if i' =? first then Ret None
        else Read (LocalEpochs i') (fun value' => acquire_slot f first i' value' global_epoch)
      else
        CAS (LocalEpochs i) value global_epoch (fun ok seen =>
          if ok then Ret (Some i) else acquire_slot f first i seen global_epoch)
  end.

Definition epoch_acquire (MyBackendId : Z) (st : epoch_local) : prog eloc (epoch_local * bool) :=
  if negb (MyEpochEntryId st =? InvalidEpochEntryId) then Ret (st, true)
  else
    let first := Z.rem MyBackendId NumEpochEntries in
    Read GlobalEpoch (fun global_epoch =>
    Read (LocalEpochs first) (fun value =>
    let* r := acquire_slot fuel first first value global_epoch in
    match r with
    | Some i => Ret (mk_local i 0, true)
    | None => Ret (mk_local InvalidEpochEntryId (epoch_refresh_count st), false)
    end)).

Definition epoch_release (st : epoch_local) : prog eloc epoch_local :=
  if MyEpochEntryId st =? InvalidEpochEntryId then Ret st
  else
    Write (LocalEpochs (MyEpochEntryId st)) EpochEntryNotInUseMask (
    let* _ := epoch_refresh_safe_epoch in
    Ret (mk_local InvalidEpochEntryId (epoch_refresh_count st))).

Definition epoch_get (st : epoch_local) : prog eloc Z :=
  Read (LocalEpochs (MyEpochEntryId st)) Ret.

Definition epoch_refresh (st : epoch_local) : prog eloc Z :=
  Read GlobalEpoch (fun global_epoch =>
  let* mine := epoch_get st in
  if mine =? global_epoch then epoch_get st
  else
    Write (LocalEpochs (MyEpochEntryId st)) global_epoch (
    let* _ := epoch_refresh_safe_epoch in
    Ret global_epoch)).

Definition epoch_maybe_refresh (st : epoch_local) : prog eloc (epoch_local * Z) :=
  if MyEpochEntryId st =? InvalidEpochEntryId then Ret (st, InvalidEpoch)
  else
    let count := u64 (epoch_refresh_count st + 1) in
    if count =? EPOCH_REFRESH_INTERVAL then
      let st' := mk_local (MyEpochEntryId st) 0 in
      let* e := epoch_refresh st' in Ret (st', e)
    else
      let st' := mk_local (MyEpochEntryId st) count in
      let* e := epoch_get st' in Ret (st', e).

(** The retry loop of epoch_bump: returns the old and the new global epoch. *)
Fixpoint bump_global (fuel : nat) (global_epoch : Z) : prog eloc (Z * Z) :=
  match fuel with
  | O => Err OutOfFuel
  | S f =>
      let new_global_epoch := EpochIncrement global_epoch in
      CAS GlobalEpoch global_epoch new_global_epoch (fun ok seen =>
        if ok then Ret (global_epoch, new_global_epoch) else bump_global f seen)
  end.

Definition epoch_bump (st : epoch_local) : prog eloc Z :=
  Read GlobalEpoch (fun global_epoch =>
  let* (old_global_epoch, new_global_epoch) := bump_global fuel global_epoch in
  Write (LocalEpochs (MyEpochEntryId st)) new_global_epoch (Ret old_global_epoch)).

Definition epoch_get_safe_epoch : prog eloc Z := Read SafeEpoch Ret.

(** Sleeping on the condition variable is re-reading the safe epoch. *)
Fixpoint epoch_wait_until_safe (fuel : nat) (target_epoch : Z) : prog eloc Z :=
  match fuel with
  | O => Err OutOfFuel
  | S f =>
      let* safe_epoch := epoch_get_safe_epoch in
      if EpochPreceeds safe_epoch target_epoch
      then epoch_wait_until_safe f target_epoch
      else Ret safe_epoch
  end.

(** The exit hook; it only acts in a backend of a postmaster environment. *)
Definition epoch_shmem_exit (IsPostmasterEnvironment IsUnderPostmaster : bool)
    (st : epoch_local) : prog eloc epoch_local :=
  if IsPostmasterEnvironment && IsUnderPostmaster then epoch_release st else Ret st.

End Operations.

(** ** Epoch arithmetic *)

Lemma land_number_mask x : Z.land (u64 x) EpochEntryNumberMask = x mod 2 ^ 63.
Proof.
  change EpochEntryNumberMask with (2 ^ 63 - 1). rewrite land_mask by lia.
  unfold u64. divlia.
Qed.

Lemma EpochEntryInUse_spec a : 0 <= a < 2 ^ 64 -> EpochEntryInUse a = (a <? 2 ^ 63).
Proof.
  intros Ha. unfold EpochEntryInUse. change EpochEntryNotInUseMask with (2 ^ 63).
  pose proof (land_bit_eq0 a 63 ltac:(lia)) as Hb.
  rewrite (testbit_top a 63) in Hb by lia.
  destruct (Z.ltb_spec a (2 ^ 63)), (Z.eqb_spec (Z.land a (2 ^ 63)) 0) as [e|e]; try done.
  - destruct e. apply Hb. zbool. lia.
  - apply Hb in e. zbool. lia.
Qed.

Lemma EpochPreceedsOrEqualsTo_near a b :
  - 2 ^ 62 < b - a < 2 ^ 62 -> EpochPreceedsOrEqualsTo a b = (a <=? b).
Proof.
  intros H. unfold EpochPreceedsOrEqualsTo. rewrite land_number_mask.
  change (Z.shiftl 1 62) with (2 ^ 62).
  destruct (Z.leb_spec a b); zbool; divlia.
Qed.

Lemma EpochPreceeds_near a b :
  - 2 ^ 62 < b - a < 2 ^ 62 -> EpochPreceeds a b = (a <? b).
Proof.
  intros H. unfold EpochPreceeds. rewrite EpochPreceedsOrEqualsTo_near by lia.
  destruct (Z.leb_spec b a), (Z.ltb_spec a b); simpl; lia.
Qed.

Lemma EpochIncrement_eq a : EpochIncrement a = (a + 1) mod 2 ^ 63.
Proof. apply land_number_mask. Qed.

Lemma EpochDecrement_eq a : EpochDecrement a = (a - 1) mod 2 ^ 63.
Proof. apply land_number_mask. Qed.

Lemma EpochIncrement_small a : 0 <= a < 2 ^ 62 -> EpochIncrement a = a + 1.
Proof. intros. rewrite EpochIncrement_eq. apply Z.mod_small. lia. Qed.

(** An unused slot, and one whose epoch number has not passed the window. *)
Lemma not_in_use_mask : EpochEntryInUse EpochEntryNotInUseMask = false.
Proof. reflexivity. Qed.

Lemma in_use_small a : 0 <= a < 2 ^ 62 -> EpochEntryInUse a = true.
Proof. intros. rewrite EpochEntryInUse_spec by lia. zbool. lia. Qed.


(** ** The safe epoch, sequentially *)

(** The smallest of the epochs in use among [l]. *)
Fixpoint min_in_use (l : list Z) : option Z :=
  match l with
  | [] => None
  | e :: l' =>
      if EpochEntryInUse e
      then match min_in_use l' with Some e' => Some (Z.min e e') | None => Some e end
      else min_in_use l'
  end.

Definition slots (m : mem eloc) (i : Z) (n : nat) : list Z :=
  (fun j => m (LocalEpochs j)) <$> seqZ i (Z.of_nat n).

(** A slot value: the unused mark, or an epoch number not past [hi]. *)
Definition slot_ok (hi e : Z) : Prop := e = EpochEntryNotInUseMask \/ 0 <= e <= hi.

Lemma min_in_use_bounds hi l e :
  Forall (slot_ok hi) l -> hi < 2 ^ 62 -> min_in_use l = Some e ->
  0 <= e <= hi /\ Forall (fun x => EpochEntryInUse x = true -> e <= x) l.
Proof.
  intros Hl Hhi. revert e. induction Hl as [|x l Hx Hl IH]; intros e; simpl; [done|].
  destruct Hx as [->|Hx].
  - rewrite not_in_use_mask. intros He. destruct (IH e He). by split; [|constructor].
  - rewrite in_use_small by lia.
    destruct (min_in_use l) as [e'|] eqn:E; intros [= <-].
    + destruct (IH e' eq_refl) as [? Hall]. split; [lia|]. constructor; [lia|].
      eapply List.Forall_impl; [|exact Hall]. simpl. intros y Hy Hin. specialize (Hy Hin). lia.
    + split; [lia|]. constructor; [lia|].
      clear -E Hl. revert E. induction Hl as [|y l Hy Hl IHl]; intros E; [constructor|].
      simpl in E. destruct (EpochEntryInUse y) eqn:Ey.
      * by destruct (min_in_use l).
      * constructor; [congruence|by apply IHl].
Qed.

Lemma scan_epochs_run n i first acc m hi :
  Forall (slot_ok hi) (slots m i n) -> hi < 2 ^ 62 -> 0 <= acc <= hi ->
  run (scan_epochs n i first acc) m =
  (Done (match min_in_use (slots m i n) with
         | Some e => if first then e else Z.min acc e
         | None => acc end), m).
Proof.
  intros Hs Hhi. revert i first acc Hs. induction n as [|n IH]; intros i first acc Hs Hacc; [done|].
  unfold slots in *. replace (Z.of_nat (S n)) with (Z.succ (Z.of_nat n)) in * by lia.
  rewrite seqZ_cons in * by lia. rewrite Z.pred_succ in *.
  replace (Z.succ i) with (i + 1) in * by lia.
  rewrite fmap_cons in *. apply Forall_cons_1 in Hs as [Hx Hs]. simpl.
  destruct Hx as [Hx|Hx].
  { rewrite Hx, not_in_use_mask. simpl. rewrite IH by done. reflexivity. }
  rewrite in_use_small by lia. simpl.
  rewrite EpochPreceeds_near by lia.
  pose proof (fun e => min_in_use_bounds hi _ e Hs Hhi) as Hmin.
  destruct (first || (m (LocalEpochs i) <? acc)) eqn:Hcase; rewrite IH by (done || lia);
    destruct (min_in_use _) as [e|]; try destruct first; simpl in Hcase; zbool; f_equal; f_equal; lia.
Qed.

(** ** The manager as a state machine of whole operations *)

(** [upd_backend]: backend [b]'s statics. *)
Definition upd_backend (loc : nat -> epoch_local) (b : nat) (st : epoch_local) :=
  fun b' => if decide (b = b') then st else loc b'.

Section System.
Context (N : Z) (fuel : nat).

Record sys := mk_sys { shm : mem eloc; loc : nat -> epoch_local }.

(** Each rule runs one operation of one backend to completion.  Refreshing and
    bumping are done by a backend that holds a slot, as the callers do. *)
Inductive estep : sys -> sys -> Prop :=
  | step_acquire m loc b st ok m' :
      run (epoch_acquire N fuel (Z.of_nat b) (loc b)) m = (Done (st, ok), m') ->
      estep (mk_sys m loc) (mk_sys m' (upd_backend loc b st))
  | step_release m loc b st m' :
      run (epoch_release N (loc b)) m = (Done st, m') ->
      estep (mk_sys m loc) (mk_sys m' (upd_backend loc b st))
  | step_refresh m loc b e m' :
      MyEpochEntryId (loc b) <> InvalidEpochEntryId ->
      run (epoch_refresh N (loc b)) m = (Done e, m') ->
      estep (mk_sys m loc) (mk_sys m' loc)
  | step_maybe_refresh m loc b st e m' :
      run (epoch_maybe_refresh N (loc b)) m = (Done (st, e), m') ->
      estep (mk_sys m loc) (mk_sys m' (upd_backend loc b st))
  | step_bump m loc b e m' :
      MyEpochEntryId (loc b) <> InvalidEpochEntryId ->
      run (epoch_bump fuel (loc b)) m = (Done e, m') ->
      estep (mk_sys m loc) (mk_sys m' loc)
  | step_refresh_safe m loc e m' :
      run (epoch_refresh_safe_epoch N) m = (Done e, m') ->
      estep (mk_sys m loc) (mk_sys m' loc).

(** The memory invariant: the safe epoch lies below the global epoch and below
    every epoch in use, and no slot is ahead of the global epoch. *)
Record mem_inv (m : mem eloc) : Prop := {
  mi_safe : 0 <= m SafeEpoch < m GlobalEpoch;
  mi_slot : forall i, 0 <= i < N -> slot_ok (m GlobalEpoch) (m (LocalEpochs i));
  mi_active : forall i, 0 <= i < N -> EpochEntryInUse (m (LocalEpochs i)) = true ->
    m SafeEpoch < m (LocalEpochs i)
}.

(** The ownership invariant: a backend's slot is in range and in use, and no two
    backends share one. *)
Record own_inv (s : sys) : Prop := {
  oi_slot : forall b, MyEpochEntryId (loc s b) <> InvalidEpochEntryId ->
    0 <= MyEpochEntryId (loc s b) < N /\
    EpochEntryInUse (shm s (LocalEpochs (MyEpochEntryId (loc s b)))) = true;
  oi_excl : forall b b', MyEpochEntryId (loc s b) <> InvalidEpochEntryId ->
    MyEpochEntryId (loc s b) = MyEpochEntryId (loc s b') -> b = b'
}.

(** Runs in which fewer than 2^62 epochs have been started. *)
Inductive reach (s0 : sys) : sys -> Prop :=
  | reach_refl : reach s0 s0
  | reach_step s1 s2 :
      reach s0 s1 -> estep s1 s2 -> shm s2 GlobalEpoch < 2 ^ 62 - 1 -> reach s0 s2.

Definition sys_init (m : mem eloc) : sys :=
  mk_sys (EpochShmemInit N m) (fun _ => local_init).

End System.

Section SystemFacts.
Context (N : Z) (fuel : nat).

(** What epoch_refresh_safe_epoch leaves in SafeEpoch. *)
Definition safe_after (m : mem eloc) : Z :=
  match min_in_use (slots m 0 (Z.to_nat N)) with
  | Some e => Z.max (m SafeEpoch) (e - 1)
  | None => m SafeEpoch
  end.

Lemma slots_Forall (P : Z -> Prop) m :
  Forall P (slots m 0 (Z.to_nat N)) <-> forall i, 0 <= i < N -> P (m (LocalEpochs i)).
Proof.
  unfold slots. rewrite Forall_fmap, list.Forall_forall. simpl.
  split; intros H i Hi; apply H; [apply elem_of_seqZ|apply elem_of_seqZ in Hi]; lia.
Qed.

Lemma refresh_safe_run m :
  mem_inv N m -> m GlobalEpoch < 2 ^ 62 - 1 ->
  exists m', run (epoch_refresh_safe_epoch N) m = (Done (safe_after m), m') /\
    m' SafeEpoch = safe_after m /\ (forall l, l <> SafeEpoch -> m' l = m l).
Proof.
  intros [Hsafe Hslot _] HG. unfold epoch_refresh_safe_epoch, safe_after.
  apply (proj2 (slots_Forall _ m)) in Hslot.
  rewrite run_bind, (scan_epochs_run _ _ _ _ m (m GlobalEpoch)) by (done || lia). simpl.
  pose proof (fun e => min_in_use_bounds _ _ e Hslot ltac:(lia)) as Hmin.
  destruct (min_in_use _) as [e|].
  - destruct (Hmin e eq_refl) as [He _]. rewrite EpochDecrement_eq.
    destruct (Z.eq_dec e 0) as [->|He0].
    + replace ((0 - 1) mod 2 ^ 63) with (2 ^ 63 - 1) by reflexivity.
      replace (EpochPreceeds (m SafeEpoch) (2 ^ 63 - 1)) with false; [exists m; simpl; split; [|split]; [do 2 f_equal|..]; lia || done|].
      symmetry. unfold EpochPreceeds, EpochPreceedsOrEqualsTo. rewrite land_number_mask.
      change (Z.shiftl 1 62) with (2 ^ 62). zbool. divlia.
    + rewrite Z.mod_small by lia. rewrite EpochPreceeds_near by lia.
      destruct (Z.ltb_spec (m SafeEpoch) (e - 1)); simpl.
      * rewrite Z.eqb_refl. eexists; split; [do 2 f_equal; lia|].
        rewrite upd_eq. split; [lia|]. intros. by apply upd_ne.
      * exists m. split; [do 2 f_equal|split]; lia || done.
  - replace (EpochPreceeds _ _) with false; [by exists m|].
    symmetry. unfold EpochPreceeds, EpochPreceedsOrEqualsTo. rewrite land_number_mask.
    rewrite EpochDecrement_eq.
    change (Z.shiftl 1 62) with (2 ^ 62). change ((0 - 1) mod 2 ^ 63) with (2 ^ 63 - 1).
    zbool. divlia.
Qed.

Lemma safe_after_bounds m :
  mem_inv N m -> m GlobalEpoch < 2 ^ 62 - 1 ->
  m SafeEpoch <= safe_after m < m GlobalEpoch /\
  (forall i, 0 <= i < N -> EpochEntryInUse (m (LocalEpochs i)) = true ->
     safe_after m < m (LocalEpochs i)).
Proof.
  intros [Hsafe Hslot Hact] HG. unfold safe_after.
  apply (proj2 (slots_Forall _ m)) in Hslot.
  destruct (min_in_use _) as [e|] eqn:E; [|split; [lia|done]].
  destruct (min_in_use_bounds _ _ e Hslot ltac:(lia) E) as [He Hall].
  pose proof (proj1 (slots_Forall _ m) Hall) as Hle; simpl in Hle.
  split; [lia|]. intros i Hi Hin. specialize (Hle i Hi Hin). specialize (Hact i Hi Hin). lia.
Qed.

(** Memories that agree on the global epoch and the slots, with the safe epoch
    moved to [safe_after]. *)
Lemma mem_inv_refresh_safe m m' :
  mem_inv N m -> m GlobalEpoch < 2 ^ 62 - 1 ->
  m' SafeEpoch = safe_after m -> (forall l, l <> SafeEpoch -> m' l = m l) -> mem_inv N m'.
Proof.
  intros Hinv HG Hs Hfr. destruct (safe_after_bounds m Hinv HG) as [Hb Hact].
  destruct Hinv. constructor; rewrite ?Hs, ?(Hfr GlobalEpoch) by done; [lia| |].
  - intros i Hi. rewrite Hfr by done. auto.
  - intros i Hi. rewrite Hfr by done. auto.
Qed.

(** Writing a slot with the unused mark or with the global epoch. *)
Lemma mem_inv_write_slot m i v :
  mem_inv N m -> v = EpochEntryNotInUseMask \/ v = m GlobalEpoch ->
  mem_inv N (upd m (LocalEpochs i) v).
Proof.
  intros [Hsafe Hslot Hact] Hv.
  constructor; rewrite ?(upd_ne _ _ SafeEpoch), ?(upd_ne _ _ GlobalEpoch) by done; [done|..];
    intros j Hj; destruct (Z.eq_dec i j) as [->|]; rewrite ?upd_eq, ?upd_ne by congruence; auto.
  - destruct Hv as [->| ->]; [by left|right; lia].
  - destruct Hv as [->| ->]; [by rewrite not_in_use_mask|lia].
Qed.

(** The scan of epoch_acquire: it stops at a slot that was free. *)
Lemma acquire_slot_run f first i g m r m' :
  0 < N -> 0 <= i < N ->
  run (acquire_slot N f first i (m (LocalEpochs i)) g) m = (Done r, m') ->
  match r with
  | Some j => 0 <= j < N /\ EpochEntryInUse (m (LocalEpochs j)) = false /\
              m' = upd m (LocalEpochs j) g
  | None => m' = m
  end.
Proof.
  intros HN. revert i. induction f as [|f IH]; intros i Hi; simpl; [done|].
  destruct (EpochEntryInUse (m (LocalEpochs i))) eqn:Hu.
  - destruct (Z.rem (i + 1) N =? first); [by intros [= <- <-]|].
    apply IH. rewrite Z.rem_mod_nonneg by lia. apply Z.mod_pos_bound. lia.
  - simpl. rewrite Z.eqb_refl. simpl. by intros [= <- <-].
Qed.

End SystemFacts.

Section Invariants.
Context (N : Z) (fuel : nat).

Definition sys_ok (s : sys) : Prop :=
  mem_inv N (shm s) /\ own_inv N s /\ shm s GlobalEpoch < 2 ^ 62 - 1.

(** A step of backend [b]: slots it does not hold stay in use, and its new slot,
    if any, is the old one or one that was free. *)
Lemma own_inv_step m m' l l' b :
  own_inv N (mk_sys m l) ->
  (forall b', b' <> b -> l' b' = l b') ->
  (forall j, j <> MyEpochEntryId (l b) -> EpochEntryInUse (m (LocalEpochs j)) = true ->
     EpochEntryInUse (m' (LocalEpochs j)) = true) ->
  (MyEpochEntryId (l' b) <> InvalidEpochEntryId ->
     0 <= MyEpochEntryId (l' b) < N /\
     EpochEntryInUse (m' (LocalEpochs (MyEpochEntryId (l' b)))) = true /\
     (MyEpochEntryId (l' b) = MyEpochEntryId (l b) \/
      EpochEntryInUse (m (LocalEpochs (MyEpochEntryId (l' b)))) = false)) ->
  own_inv N (mk_sys m' l').
Proof.
  intros [Hslot Hexcl] Hl Hm Hb; simpl in *.
  assert (Hother : forall b', b' <> b -> MyEpochEntryId (l b') <> InvalidEpochEntryId ->
    MyEpochEntryId (l b') <> MyEpochEntryId (l b)).
  { intros b' Hne Hv Heq. by apply Hne, Hexcl. }
  assert (Hclash : forall b', b' <> b -> MyEpochEntryId (l b') <> InvalidEpochEntryId ->
    MyEpochEntryId (l b') <> MyEpochEntryId (l' b)).
  { intros b' Hne Hv Heq. destruct Hb as (_ & _ & [Hsame|Hfree]); [congruence|..].
    - apply (Hother b' Hne Hv). congruence.
    - destruct (Hslot b' Hv) as [_ Hu]. congruence. }
  constructor; simpl.
  - intros b' Hv. destruct (decide (b' = b)) as [->|Hne]; [by destruct (Hb Hv) as (? & ? & _)|].
    rewrite Hl in * by done. destruct (Hslot b' Hv) as [Hr Hu]. auto.
  - intros b1 b2 Hv Heq.
    destruct (decide (b1 = b)) as [->|H1], (decide (b2 = b)) as [->|H2]; auto.
    + rewrite (Hl b2) in * by done. destruct (Hclash b2); congruence.
    + rewrite (Hl b1) in * by done. destruct (Hclash b1); congruence.
    + rewrite (Hl b1), (Hl b2) in * by done. auto.
Qed.

Lemma upd_backend_eq l b st : upd_backend l b st b = st.
Proof. unfold upd_backend. by rewrite decide_True. Qed.
Lemma upd_backend_ne l b b' st : b' <> b -> upd_backend l b st b' = l b'.
Proof. intros. unfold upd_backend. by rewrite decide_False. Qed.

(** Every run of epoch_refresh_safe_epoch, and what it keeps. *)
Lemma refresh_safe_keeps m r m' :
  mem_inv N m -> m GlobalEpoch < 2 ^ 62 - 1 ->
  run (epoch_refresh_safe_epoch N) m = (r, m') ->
  mem_inv N m' /\ (forall l, l <> SafeEpoch -> m' l = m l) /\ r = Done (m' SafeEpoch).
Proof.
  intros Hinv HG Hrun. destruct (refresh_safe_run N m Hinv HG) as (m1 & Hr & Hs & Hfr).
  rewrite Hr in Hrun. injection Hrun as <- <-.
  split; [by eapply mem_inv_refresh_safe|]. by rewrite Hs.
Qed.

Lemma epoch_refresh_keeps m st r m' :
  mem_inv N m -> m GlobalEpoch < 2 ^ 62 - 1 ->
  EpochEntryInUse (m (LocalEpochs (MyEpochEntryId st))) = true ->
  run (epoch_refresh N st) m = (r, m') ->
  mem_inv N m' /\ m' GlobalEpoch = m GlobalEpoch /\
  m' (LocalEpochs (MyEpochEntryId st)) = m GlobalEpoch /\
  (forall j, j <> MyEpochEntryId st -> m' (LocalEpochs j) = m (LocalEpochs j)).
Proof.
  intros Hinv HG Hu. unfold epoch_refresh. cbn [run pbind epoch_get].
  destruct (Z.eqb_spec (m (LocalEpochs (MyEpochEntryId st))) (m GlobalEpoch)) as [Heq|Hne].
  - simpl. intros [= <- <-]. auto.
  - cbn [run]. rewrite run_bind.
    set (m1 := upd m (LocalEpochs (MyEpochEntryId st)) (m GlobalEpoch)).
    assert (Hinv1 : mem_inv N m1) by (apply mem_inv_write_slot; auto).
    assert (HG1 : m1 GlobalEpoch = m GlobalEpoch) by (unfold m1; by rewrite upd_ne).
    destruct (run (epoch_refresh_safe_epoch N) m1) as [r1 m2] eqn:Hr.
    destruct (refresh_safe_keeps _ _ _ Hinv1 ltac:(lia) Hr) as (Hinv2 & Hfr & ->).
    intros [= <- <-]. rewrite !Hfr by done. split; [done|]. split; [done|].
    split; [apply upd_eq|]. intros j Hj. rewrite Hfr by done. apply upd_ne. congruence.
Qed.

Lemma bump_global_run f m r m' :
  0 <= m GlobalEpoch < 2 ^ 62 -> (0 < f)%nat ->
  run (bump_global f (m GlobalEpoch)) m = (r, m') ->
  r = Done (m GlobalEpoch, m GlobalEpoch + 1) /\ m' = upd m GlobalEpoch (m GlobalEpoch + 1).
Proof.
  intros HG Hf. destruct f as [|f]; [lia|]. simpl. rewrite Z.eqb_refl. simpl.
  rewrite EpochIncrement_small by lia. by intros [= <- <-].
Qed.

Lemma epoch_bump_keeps m st r m' :
  mem_inv N m -> 0 <= m GlobalEpoch < 2 ^ 62 - 1 -> (0 < fuel)%nat ->
  run (epoch_bump fuel st) m = (r, m') ->
  r = Done (m GlobalEpoch) /\
  mem_inv N m' /\ m' GlobalEpoch = m GlobalEpoch + 1 /\ m' SafeEpoch = m SafeEpoch /\
  m' (LocalEpochs (MyEpochEntryId st)) = m GlobalEpoch + 1 /\
  (forall j, j <> MyEpochEntryId st -> m' (LocalEpochs j) = m (LocalEpochs j)).
Proof.
  intros Hinv HG Hf. unfold epoch_bump. cbn [run]. rewrite run_bind.
  destruct (run (bump_global fuel (m GlobalEpoch)) m) as [r1 m1] eqn:Hr.
  destruct (bump_global_run fuel m _ _ ltac:(lia) Hf Hr) as [-> ->].
  simpl. intros [= <- <-].
  set (m1 := upd m GlobalEpoch (m GlobalEpoch + 1)).
  assert (Hg : m1 GlobalEpoch = m GlobalEpoch + 1) by apply upd_eq.
  assert (Hinv1 : mem_inv N m1).
  { destruct Hinv as [Hsafe Hslot Hact]. constructor; rewrite ?Hg; unfold m1; rewrite ?upd_ne by done.
    - lia.
    - intros i Hi. rewrite upd_ne by done. destruct (Hslot i Hi) as [?|?]; [by left|right; lia].
    - intros i Hi. rewrite upd_ne by done. auto. }
  split; [done|]. split; [apply mem_inv_write_slot; auto|].
  rewrite ?(upd_ne _ _ GlobalEpoch), ?(upd_ne _ _ SafeEpoch), upd_eq by done.
  split; [done|]. split; [unfold m1; by rewrite upd_ne|]. split; [done|].
  intros j Hj. unfold m1. rewrite !upd_ne by congruence. done.
Qed.

(** The two sequential helpers of a step: the caller's own slot, and the others. *)
Lemma acquire_ok m l b st ok m' :
  0 < N -> sys_ok (mk_sys m l) ->
  run (epoch_acquire N fuel (Z.of_nat b) (l b)) m = (Done (st, ok), m') ->
  sys_ok (mk_sys m' (upd_backend l b st)).
Proof.
  intros HN (Hinv & Hown & HG); simpl in *. unfold epoch_acquire.
  destruct (Z.eqb_spec (MyEpochEntryId (l b)) InvalidEpochEntryId) as [He|He]; simpl.
  - rewrite run_bind.
    destruct (run (acquire_slot N fuel _ _ _ _) m) as [[r|e] m1] eqn:Hr; [|done].
    apply acquire_slot_run in Hr; [|done|rewrite Z.rem_mod_nonneg by lia; apply Z.mod_pos_bound; lia].
    destruct r as [i|]; simpl.
    + destruct Hr as (Hi & Hfree & ->). intros [= <- <- <-].
      split; [apply mem_inv_write_slot; auto|].
      split; [|simpl; rewrite upd_ne; done || lia].
      eapply own_inv_step with (b := b); [exact Hown|by intros; apply upd_backend_ne|..].
      * intros j _ Hj. rewrite upd_ne; [done|]. intros [= ->]. congruence.
      * rewrite upd_backend_eq. simpl. intros _. rewrite upd_eq.
        destruct Hinv. rewrite in_use_small by lia. auto.
    + subst m1. intros [= <- <- <-]. split; [done|]. split; [|done].
      eapply own_inv_step with (b := b); [exact Hown|by intros; apply upd_backend_ne|auto|].
      by rewrite upd_backend_eq.
  - intros [= <- <- <-]. split; [done|]. split; [|done].
    eapply own_inv_step with (b := b); [exact Hown|by intros; apply upd_backend_ne|auto|].
    rewrite upd_backend_eq. intros Hv. destruct (oi_slot _ _ Hown b Hv). auto.
Qed.

Lemma release_ok m l b st m' :
  sys_ok (mk_sys m l) -> run (epoch_release N (l b)) m = (Done st, m') ->
  sys_ok (mk_sys m' (upd_backend l b st)).
Proof.
  intros (Hinv & Hown & HG); simpl in *. unfold epoch_release.
  destruct (Z.eqb_spec (MyEpochEntryId (l b)) InvalidEpochEntryId) as [He|He].
  - simpl. intros [= <- <-]. split; [done|]. split; [|done].
    eapply own_inv_step with (b := b); [exact Hown|by intros; apply upd_backend_ne|auto|].
    by rewrite upd_backend_eq.
  - cbn [run]. rewrite run_bind.
    set (m1 := upd m (LocalEpochs (MyEpochEntryId (l b))) EpochEntryNotInUseMask).
    assert (Hinv1 : mem_inv N m1) by (apply mem_inv_write_slot; auto).
    assert (HG1 : m1 GlobalEpoch = m GlobalEpoch) by (unfold m1; by rewrite upd_ne).
    destruct (run (epoch_refresh_safe_epoch N) m1) as [r1 m2] eqn:Hr.
    destruct (refresh_safe_keeps _ _ _ Hinv1 ltac:(lia) Hr) as (Hinv2 & Hfr & ->).
    intros [= <- <-]. split; [done|]. split; [|simpl; rewrite Hfr by done; lia].
    eapply own_inv_step with (b := b); [exact Hown|by intros; apply upd_backend_ne|..].
    + intros j Hj Hu. rewrite Hfr by done. unfold m1. rewrite upd_ne by congruence. done.
    + by rewrite upd_backend_eq.
Qed.

(** A step after which backend [b] still holds its slot, now at the global epoch. *)
Lemma keep_slot_ok m m' l l' b :
  sys_ok (mk_sys m l) -> mem_inv N m' -> m' GlobalEpoch < 2 ^ 62 - 1 ->
  (forall b', b' <> b -> l' b' = l b') -> MyEpochEntryId (l' b) = MyEpochEntryId (l b) ->
  (MyEpochEntryId (l b) <> InvalidEpochEntryId ->
     EpochEntryInUse (m' (LocalEpochs (MyEpochEntryId (l b)))) = true) ->
  (forall j, j <> MyEpochEntryId (l b) -> m' (LocalEpochs j) = m (LocalEpochs j)) ->
  sys_ok (mk_sys m' l').
Proof.
  intros (_ & Hown & _) Hinv' HG' Hl Hb Hu Hfr. split; [done|]. split; [|done].
  eapply own_inv_step with (b := b); [exact Hown|done|..].
  - intros j Hj. by rewrite Hfr.
  - rewrite Hb. intros Hv. destruct (oi_slot _ _ Hown b Hv). auto.
Qed.

Lemma refresh_ok m l b st e m' :
  sys_ok (mk_sys m l) -> MyEpochEntryId (l b) <> InvalidEpochEntryId ->
  MyEpochEntryId st = MyEpochEntryId (l b) ->
  run (epoch_refresh N st) m = (Done e, m') ->
  forall l', (forall b', b' <> b -> l' b' = l b') -> MyEpochEntryId (l' b) = MyEpochEntryId (l b) ->
  sys_ok (mk_sys m' l').
Proof.
  intros Hok Hv Hst Hr l' Hl Hb. pose proof Hok as (Hinv & Hown & HG); simpl in *.
  destruct (oi_slot _ _ Hown b Hv) as [Hrange Hu]; simpl in *.
  destruct (epoch_refresh_keeps m st _ m' Hinv HG ltac:(by rewrite Hst) Hr) as (Hinv' & HG' & Hmine & Hfr).
  rewrite Hst in *.
  eapply keep_slot_ok; [exact Hok|done|lia|done|done| |done].
  intros _. destruct Hinv. rewrite Hmine. apply in_use_small. lia.
Qed.

Lemma maybe_refresh_ok m l b st e m' :
  sys_ok (mk_sys m l) -> run (epoch_maybe_refresh N (l b)) m = (Done (st, e), m') ->
  sys_ok (mk_sys m' (upd_backend l b st)).
Proof.
  intros Hok. unfold epoch_maybe_refresh.
  assert (Hsame : forall c, sys_ok (mk_sys m (upd_backend l b (mk_local (MyEpochEntryId (l b)) c)))).
  { intros c. pose proof Hok as (Hinv & Hown & HG).
    eapply keep_slot_ok with (b := b); [exact Hok|done|done|by intros; apply upd_backend_ne|by rewrite upd_backend_eq| |done].
    intros Hv. by destruct (oi_slot _ _ Hown b Hv). }
  destruct (Z.eqb_spec (MyEpochEntryId (l b)) InvalidEpochEntryId) as [He|He].
  - simpl. intros [= <- <- <-]. specialize (Hsame (epoch_refresh_count (l b))).
    by destruct (l b).
  - destruct (_ =? EPOCH_REFRESH_INTERVAL).
    + rewrite run_bind. destruct (run _ _) as [[r|err] m1] eqn:Hr; [|done].
      simpl. intros [= <- <- <-].
      eapply refresh_ok; [exact Hok|done| |exact Hr|by intros; apply upd_backend_ne|by rewrite upd_backend_eq].
      done.
    + simpl. intros [= <- <- <-]. apply Hsame.
Qed.

Lemma estep_ok s s' :
  0 < N -> (0 < fuel)%nat -> sys_ok s -> estep N fuel s s' ->
  shm s' GlobalEpoch < 2 ^ 62 - 1 -> sys_ok s'.
Proof.
  intros HN Hf Hok Hstep HG'. destruct Hstep as [m l b st ok m' Hr|m l b st m' Hr|
    m l b e m' Hv Hr|m l b st e m' Hr|m l b e m' Hv Hr|m l e m' Hr].
  - by eapply acquire_ok.
  - by eapply release_ok.
  - by eapply refresh_ok.
  - by eapply maybe_refresh_ok.
  - pose proof Hok as (Hinv & Hown & HG); simpl in *.
    destruct (epoch_bump_keeps m (l b) _ m' Hinv ltac:(destruct Hinv; lia) Hf Hr)
      as (_ & Hinv' & HGb & _ & Hmine & Hfr).
    eapply keep_slot_ok; [exact Hok|done|done|done|done| |done].
    intros _. destruct Hinv. rewrite Hmine. apply in_use_small. lia.
  - pose proof Hok as (Hinv & Hown & HG); simpl in *.
    destruct (refresh_safe_keeps m _ m' Hinv HG Hr) as (Hinv' & Hfr & _).
    eapply keep_slot_ok with (b := 0%nat); [exact Hok|done|done|done|done|..].
    + intros Hv. rewrite Hfr by done. by destruct (oi_slot _ _ Hown 0%nat Hv).
    + intros j _. by rewrite Hfr.
Qed.

Lemma sys_init_ok m : sys_ok (sys_init N m).
Proof.
  assert (Hslot : forall i, 0 <= i < N ->
    EpochShmemInit N m (LocalEpochs i) = EpochEntryNotInUseMask).
  { intros i Hi. unfold EpochShmemInit. replace ((0 <=? i) && (i <? N)) with true; [done|].
    symmetry. apply andb_true_iff. split; zbool; lia. }
  split; [|split; [by constructor|simpl; lia]].
  constructor; [simpl; lia|..]; intros i Hi; cbn [shm sys_init]; rewrite (Hslot i Hi);
    [by left|by rewrite not_in_use_mask].
Qed.

Lemma reach_ok s0 s :
  0 < N -> (0 < fuel)%nat -> sys_ok s0 -> reach N fuel s0 s -> sys_ok s.
Proof. intros HN Hf H0. induction 1; [done|]. by eapply estep_ok. Qed.

End Invariants.

(** ** Completeness of the slot search *)

Section Acquire.
Context (N : Z) (HN : 0 < N).

Lemma cyc_dist first i : 0 <= first < N -> 0 <= i < N ->
  (first - i - 1) mod N = if i <? first then first - i - 1 else first - i - 1 + N.
Proof.
  intros. destruct (Z.ltb_spec i first).
  - apply Z.mod_small. lia.
  - symmetry. apply Z.mod_unique with (-1); lia.
Qed.

Lemma cyc_succ i : 0 <= i < N -> (i + 1) mod N = if i + 1 =? N then 0 else i + 1.
Proof.
  intros. destruct (Z.eqb_spec (i + 1) N) as [->|].
  - apply Z.mod_same. lia.
  - apply Z.mod_small. lia.
Qed.

(** The scan visits the slots i, i+1, ... cyclically up to the one before
    [first]; [d] of them remain after [i]. *)
Lemma acquire_slot_total d f first i g m :
  0 <= first < N -> 0 <= i < N -> Z.of_nat d = (first - i - 1) mod N -> (d < f)%nat ->
  exists r m', run (acquire_slot N f first i (m (LocalEpochs i)) g) m = (Done r, m') /\
    (r = None -> forall k, 0 <= k <= Z.of_nat d ->
       EpochEntryInUse (m (LocalEpochs ((i + k) mod N))) = true).
Proof.
  intros Hfirst. revert f i. induction d as [|d IH]; intros f i Hi Hd Hf;
    destruct f as [|f]; try lia; simpl; rewrite cyc_dist in Hd by lia.
  all: destruct (EpochEntryInUse (m (LocalEpochs i))) eqn:Hu;
    [|simpl; rewrite Z.eqb_refl; eexists _, _; by split].
  all: rewrite Z.rem_mod_nonneg by lia.
  - replace ((i + 1) mod N) with first by (rewrite cyc_succ by lia; repeat case_match; zbool; lia).
    rewrite Z.eqb_refl. eexists _, _. split; [done|]. intros _ k Hk.
    replace k with 0 by lia. rewrite Z.add_0_r, Z.mod_small; done.
  - assert (Hi' : 0 <= (i + 1) mod N < N) by (apply Z.mod_pos_bound; lia).
    destruct (Z.eqb_spec ((i + 1) mod N) first) as [He|He].
    { rewrite cyc_succ in He by lia. repeat case_match; zbool; lia. }
    assert (Hd' : Z.of_nat d = (first - (i + 1) mod N - 1) mod N).
    { rewrite cyc_dist by lia. rewrite cyc_succ in * by lia. repeat case_match; zbool; lia. }
    simpl. destruct (IH f ((i + 1) mod N) Hi' Hd' ltac:(lia)) as (r & m' & Hr & Hall).
    exists r, m'. split; [done|]. intros Hnone k Hk.
    destruct (Z.eq_dec k 0) as [->|]; [by rewrite Z.add_0_r, Z.mod_small|].
    specialize (Hall Hnone (k - 1) ltac:(lia)).
    rewrite Z.add_mod_idemp_l in Hall by lia. by replace (i + 1 + (k - 1)) with (i + k) in Hall by lia.
Qed.

(** Epoch_acquire by a backend without a slot always returns when it may
    visit every slot; it succeeds exactly when some slot is free, and then the
    only change to shared memory is that one free slot now announces the global
    epoch. *)
Theorem epoch_acquire_complete (fuel : nat) (b : Z) (st : epoch_local) (m : mem eloc) :
  0 <= b -> (Z.to_nat N < fuel)%nat -> MyEpochEntryId st = InvalidEpochEntryId ->
  exists st' ok m', run (epoch_acquire N fuel b st) m = (Done (st', ok), m') /\
    (ok = true <-> exists i, 0 <= i < N /\ EpochEntryInUse (m (LocalEpochs i)) = false) /\
    (if ok then 0 <= MyEpochEntryId st' < N /\
                EpochEntryInUse (m (LocalEpochs (MyEpochEntryId st'))) = false /\
                m' = upd m (LocalEpochs (MyEpochEntryId st')) (m GlobalEpoch)
     else MyEpochEntryId st' = InvalidEpochEntryId /\ m' = m).
Proof.
  intros Hb Hfuel Hst. unfold epoch_acquire. rewrite Hst, Z.rem_mod_nonneg by lia.
  cbn [negb Z.eqb InvalidEpochEntryId Pos.eqb run]. rewrite run_bind.
  set (first := b mod N). assert (Hfirst : 0 <= first < N) by (apply Z.mod_pos_bound; lia).
  destruct (acquire_slot_total (Z.to_nat ((first - first - 1) mod N)) fuel first first
    (m GlobalEpoch) m) as (r & m' & Hr & Hall); try lia.
  { pose proof (Z.mod_pos_bound (first - first - 1) N). lia. }
  { pose proof (Z.mod_pos_bound (first - first - 1) N). lia. }
  rewrite Hr. apply acquire_slot_run in Hr; [|lia|lia].
  destruct r as [i|]; simpl.
  - destruct Hr as (Hi & Hfree & ->). exists (mk_local i 0), true, (upd m (LocalEpochs i) (m GlobalEpoch)). split; [done|]. simpl.
    split; [|done]. split; [eauto|done].
  - subst m'. exists (mk_local InvalidEpochEntryId (epoch_refresh_count st)), false, m. split; [done|].
    split; [|done]. split; [done|]. intros (i & Hi & Hfree).
    rewrite cyc_dist, Z.ltb_irrefl in Hall by lia.
    pose proof (Z.mod_pos_bound (i - first) N).
    specialize (Hall eq_refl ((i - first) mod N) ltac:(lia)).
    rewrite Z.add_mod_idemp_r in Hall by lia.
    replace (first + (i - first)) with i in Hall by lia.
    rewrite Z.mod_small in Hall by lia. congruence.
Qed.

End Acquire.

Lemma epoch_acquire_complete_witness :
  exists st' ok m', run (epoch_acquire 3 5 4 local_init)
    (upd (EpochShmemInit 3 (fun _ => 0)) (LocalEpochs 1) 1) = (Done (st', ok), m') /\
    ok = true /\ MyEpochEntryId st' = 2.
Proof.
  destruct (epoch_acquire_complete 3 ltac:(lia) 5 4 local_init
    (upd (EpochShmemInit 3 (fun _ => 0)) (LocalEpochs 1) 1) ltac:(lia) ltac:(lia) eq_refl)
    as (st' & ok & m' & Hr & Hok & _).
  exists st', ok, m'. split; [exact Hr|]. vm_compute in Hr. by injection Hr as <- <- _.
Defined.

(** ** Any interleaving of backends *)

(** The calls a backend makes on the manager, in sequence. *)
Inductive eop := OpAcquire | OpRelease | OpRefresh | OpMaybeRefresh | OpBump | OpRefreshSafe.

Section Client.
Context (N : Z) (fuel : nat).

Fixpoint client (b : Z) (ops : list eop) (st : epoch_local) : prog eloc epoch_local :=
  match ops with
  | [] => Ret st
  | OpAcquire :: ops' => let* (st', _) := epoch_acquire N fuel b st in client b ops' st'
  | OpRelease :: ops' => let* st' := epoch_release N st in client b ops' st'
  | OpRefresh :: ops' => let* _ := epoch_refresh N st in client b ops' st
  | OpMaybeRefresh :: ops' => let* (st', _) := epoch_maybe_refresh N st in client b ops' st'
  | OpBump :: ops' => let* _ := epoch_bump fuel st in client b ops' st
  | OpRefreshSafe :: ops' => let* _ := epoch_refresh_safe_epoch N in client b ops' st
  end.

(** What survives arbitrary interleaving: ranges and the safe/global order. *)
Record cinv (m : mem eloc) : Prop := {
  ci_safe : 0 <= m SafeEpoch < m GlobalEpoch;
  ci_slot : forall i, slot_ok (m GlobalEpoch) (m (LocalEpochs i))
}.

Definition no_wrap (m : mem eloc) : Prop := m GlobalEpoch < 2 ^ 62 - 1.

Definition erel (m m' : mem eloc) : Prop :=
  cinv m -> cinv m' /\ m GlobalEpoch <= m' GlobalEpoch /\ m SafeEpoch <= m' SafeEpoch.

#[local] Instance erel_preorder : PreOrder erel.
Proof.
  split.
  - intros m Hc. split; [done|lia].
  - intros m1 m2 m3 H1 H2 H. destruct (H1 H) as (H' & ? & ?). destruct (H2 H') as (? & ? & ?).
    split; [done|lia].
Qed.

(** The facts a backend may keep across other backends' steps. *)
Definition known (e : Z) (m : mem eloc) : Prop := cinv m /\ 0 <= e <= m GlobalEpoch.

Lemma known_stable e m m' : erel m m' -> known e m -> known e m'.
Proof. intros HR [Hc He]. destruct (HR Hc) as (? & ? & ?). split; [done|lia]. Qed.

Lemma known_slot m i : cinv m -> no_wrap m -> EpochEntryInUse (m (LocalEpochs i)) = true ->
  known (m (LocalEpochs i)) m.
Proof.
  intros Hc _ Hu. split; [done|]. destruct (ci_slot m Hc i) as [He|He]; [|done].
  rewrite He, not_in_use_mask in Hu. done.
Qed.

(** Writing a slot with the unused mark or a known epoch. *)
Lemma erel_write_slot m i v :
  v = EpochEntryNotInUseMask \/ 0 <= v <= m GlobalEpoch -> erel m (upd m (LocalEpochs i) v).
Proof.
  intros Hv [Hs Hslot]. rewrite !upd_ne by done. split; [|lia].
  constructor; rewrite ?(upd_ne _ _ SafeEpoch), ?(upd_ne _ _ GlobalEpoch) by done; [done|].
  intros j. destruct (Z.eq_dec i j) as [->|]; [rewrite upd_eq|rewrite upd_ne by congruence]; done.
Qed.

Abbreviation rgE := (rg no_wrap erel).

Lemma rg_scan n i first acc m :
  no_wrap m -> known acc m -> rgE (fun a m' => known a m') (scan_epochs n i first acc) m.
Proof.
  revert i first acc m. induction n as [|n IH]; intros i first acc m HP Hk; simpl.
  - intros m' HR HP'. by eapply known_stable.
  - intros m' HR HP'. pose proof (known_stable _ _ _ HR Hk) as Hk'.
    destruct (EpochEntryInUse (m' (LocalEpochs i))) eqn:Hu; simpl; [|by apply IH].
    destruct (first || _); apply IH; try done. apply known_slot; [apply Hk'|done|done].
Qed.

Lemma rg_refresh_safe m :
  no_wrap m -> cinv m -> rgE (fun _ m' => cinv m') (epoch_refresh_safe_epoch N) m.
Proof.
  intros HP Hc. unfold epoch_refresh_safe_epoch.
  eapply (rg_bind no_wrap erel); [exact HP|apply rg_scan; [done|destruct Hc as [? ?]; split; [done|lia]]|].
  intros a m1 HP1 Ha. cbn [rg]. intros m2 HR12 HP2.
  pose proof (known_stable _ _ _ HR12 Ha) as [Hc2 Ha2].
  destruct (EpochPreceeds (m2 SafeEpoch) (EpochDecrement a)) eqn:Hlt; cbn [rg].
  2: { intros m3 HR _. by apply HR. }
  assert (Hnew : EpochDecrement a = a - 1 /\ m2 SafeEpoch < a - 1).
  { destruct Hc2 as [Hs2 _]. unfold no_wrap in HP2. rewrite EpochDecrement_eq in *.
    destruct (Z.eq_dec a 0) as [->|Ha0].
    - change ((0 - 1) mod 2 ^ 63) with (2 ^ 63 - 1) in Hlt. exfalso.
      unfold EpochPreceeds, EpochPreceedsOrEqualsTo in Hlt. rewrite land_number_mask in Hlt.
      change (Z.shiftl 1 62) with (2 ^ 62) in Hlt. zbool.
      rewrite <- (Z.mod_add _ 1 (2 ^ 63)) in Hlt by lia. rewrite Z.mod_small in Hlt; lia.
    - rewrite Z.mod_small in * by lia. rewrite EpochPreceeds_near in Hlt by lia. zbool. lia. }
  destruct Hnew as [-> Hlt']. intros m3 HR23 HP3.
  pose proof (known_stable _ _ _ HR23 (conj Hc2 Ha2)) as [Hc3 Ha3]. split.
  - intros Heq _.
    assert (HR34 : erel m3 (upd m3 SafeEpoch (a - 1))).
    { intros [Hs Hslot]. split; [|rewrite upd_eq, upd_ne by done; lia].
      constructor; rewrite ?upd_eq, ?upd_ne by done; [lia|]. intros j. by rewrite upd_ne. }
    split; [done|]. intros m4 HR45 _. by apply HR45, HR34.
  - intros _ m4 HR34 _. by apply HR34.
Qed.

Lemma rg_acquire_slot f first i value g m :
  no_wrap m -> known g m ->
  rgE (fun _ m' => cinv m') (acquire_slot N f first i value g) m.
Proof.
  revert i value m. induction f as [|f IH]; intros i value m HP Hk; simpl; [done|].
  destruct (EpochEntryInUse value).
  - destruct (_ =? first); cbn [rg].
    + intros m' HR _. apply HR, Hk.
    + intros m' HR HP'. apply IH; [done|by eapply known_stable].
  - cbn [rg]. intros m' HR HP'. pose proof (known_stable _ _ _ HR Hk) as Hk'. split.
    + intros _ HP''. assert (Hw : erel m' (upd m' (LocalEpochs i) g)).
      { apply erel_write_slot. right. apply Hk'. }
      split; [done|]. cbn [rg]. intros m'' HR'' _. by apply HR'', Hw, Hk'.
    + intros _. by apply IH.
Qed.

Lemma rg_bump_global f g m :
  no_wrap m -> known g m ->
  rgE (fun r m' => known (snd r) m') (bump_global f g) m.
Proof.
  revert g m. induction f as [|f IH]; intros g m HP Hk; simpl; [done|].
  intros m' HR HP'. pose proof (known_stable _ _ _ HR Hk) as Hk'. destruct Hk' as [Hc' Hg']. split.
  - intros Heq HP''. unfold no_wrap in *. rewrite upd_eq in HP''.
    rewrite EpochIncrement_small in * by lia.
    assert (Hw : erel m' (upd m' GlobalEpoch (g + 1))).
    { intros [Hs Hslot]. rewrite upd_eq, upd_ne by done. split; [|lia].
      constructor; rewrite ?upd_eq, ?upd_ne by done; [lia|]. intros j. rewrite upd_ne by done.
      destruct (Hslot j) as [?|?]; [by left|right; lia]. }
    split; [done|]. intros m'' HR'' HP2. destruct (HR'' (proj1 (Hw Hc'))) as (? & Hle & _).
    rewrite upd_eq in Hle. split; simpl; [done|lia].
  - intros _. apply IH; [done|]. split; [done|]. destruct Hc'. lia.
Qed.

Lemma known_global m : cinv m -> known (m GlobalEpoch) m.
Proof. intros Hc. split; [done|]. destruct Hc. lia. Qed.

(** Sequencing operations that only promise the invariant. *)
Lemma rg_seq {A B} (p : prog eloc A) (f : A -> prog eloc B) m :
  no_wrap m -> rgE (fun _ m' => cinv m') p m ->
  (forall a m', no_wrap m' -> cinv m' -> rgE (fun _ m'' => cinv m'') (f a) m') ->
  rgE (fun _ m' => cinv m') (pbind f p) m.
Proof. intros HP Hp Hf. eapply (rg_bind no_wrap erel); eauto. Qed.

Lemma rg_ret {A} (a : A) m : cinv m -> rgE (fun _ m' => cinv m') (Ret a) m.
Proof. intros Hc m' HR _. by apply HR. Qed.

Lemma rg_acquire b st m :
  no_wrap m -> cinv m -> rgE (fun _ m' => cinv m') (epoch_acquire N fuel b st) m.
Proof.
  intros HP Hc. unfold epoch_acquire. destruct (negb _); [by apply rg_ret|]. cbn [rg].
  intros m1 HR1 HP1 m2 HR2 HP2.
  pose proof (known_stable _ _ _ HR2 (known_global m1 (proj1 (HR1 Hc)))) as Hk.
  apply rg_seq; [done|by apply rg_acquire_slot|].
  intros [i|] m3 HP3 Hc3; by apply rg_ret.
Qed.

Lemma rg_write_slot {A} i v (k : prog eloc A) m :
  known v m \/ (cinv m /\ v = EpochEntryNotInUseMask) ->
  (forall m', no_wrap m' -> cinv m' -> rgE (fun _ m'' => cinv m'') k m') ->
  rgE (fun _ m' => cinv m') (Write (LocalEpochs i) v k) m.
Proof.
  intros Hv Hk. cbn [rg]. intros m' HR HP' HP''.
  assert (Hw : cinv m' /\ erel m' (upd m' (LocalEpochs i) v)).
  { destruct Hv as [Hv|[Hc ->]].
    - apply (known_stable _ _ _ HR) in Hv as [? ?]. split; [done|]. apply erel_write_slot. auto.
    - split; [by apply HR|]. apply erel_write_slot. auto. }
  destruct Hw as [Hc' Hw]. split; [done|]. apply Hk; [done|]. by apply Hw.
Qed.

Lemma rg_release st m :
  no_wrap m -> cinv m -> rgE (fun _ m' => cinv m') (epoch_release N st) m.
Proof.
  intros HP Hc. unfold epoch_release. destruct (_ =? _); [by apply rg_ret|].
  apply rg_write_slot; [auto|]. intros m1 HP1 Hc1.
  apply rg_seq; [done|by apply rg_refresh_safe|]. intros. by apply rg_ret.
Qed.

Lemma rg_refresh st m :
  no_wrap m -> cinv m -> rgE (fun _ m' => cinv m') (epoch_refresh N st) m.
Proof.
  intros HP Hc. unfold epoch_refresh, epoch_get. cbn [rg pbind].
  intros m1 HR1 HP1 m2 HR2 HP2.
  pose proof (known_stable _ _ _ HR2 (known_global m1 (proj1 (HR1 Hc)))) as Hk.
  destruct (_ =? _).
  - intros m3 HR3 HP3. apply rg_ret. apply HR3, Hk.
  - apply rg_write_slot; [auto|]. intros m3 HP3 Hc3.
    apply rg_seq; [done|by apply rg_refresh_safe|]. intros. by apply rg_ret.
Qed.

Lemma rg_maybe_refresh st m :
  no_wrap m -> cinv m -> rgE (fun _ m' => cinv m') (epoch_maybe_refresh N st) m.
Proof.
  intros HP Hc. unfold epoch_maybe_refresh. destruct (_ =? _); [by apply rg_ret|].
  destruct (_ =? _).
  - apply rg_seq; [done|by apply rg_refresh|]. intros. by apply rg_ret.
  - intros m' HR HP'. apply rg_ret. by apply HR.
Qed.

Lemma rg_bump st m :
  no_wrap m -> cinv m -> rgE (fun _ m' => cinv m') (epoch_bump fuel st) m.
Proof.
  intros HP Hc. unfold epoch_bump. cbn [rg]. intros m1 HR1 HP1.
  pose proof (known_global m1 (proj1 (HR1 Hc))) as Hk.
  eapply (rg_bind no_wrap erel); [exact HP1|by apply rg_bump_global|].
  intros [old new] m2 HP2 Hk2. apply rg_write_slot; [auto|]. intros. by apply rg_ret.
Qed.

Lemma rg_client b ops st m :
  no_wrap m -> cinv m -> rgE (fun _ m' => cinv m') (client b ops st) m.
Proof.
  revert st m. induction ops as [|op ops IH]; intros st m HP Hc; [by apply rg_ret|].
  destruct op; cbn [client]; apply rg_seq; try done;
    auto using rg_acquire, rg_release, rg_refresh, rg_maybe_refresh, rg_bump, rg_refresh_safe;
    intros; repeat case_match; by apply IH.
Qed.

(** However the steps of any number of backends running the epoch operations
    are interleaved, the safe epoch and the global epoch never move backwards,
    the safe epoch stays below the global epoch and no slot runs ahead of it, as
    long as fewer than 2^62 epochs have been started. *)
Theorem epoch_interleaving_monotone (backends : list (Z * list eop)) (m : mem eloc)
    (ps : list (prog eloc epoch_local)) (m' : mem eloc) :
  cinv m -> no_wrap m ->
  csteps no_wrap ((fun '(b, ops) => client b ops local_init) <$> backends, m) (ps, m') ->
  m SafeEpoch <= m' SafeEpoch /\ m GlobalEpoch <= m' GlobalEpoch /\ cinv m'.
Proof.
  intros Hc HP Hsteps.
  destruct (csteps_rg no_wrap erel (fun _ _ m' => cinv m') _ _ Hsteps HP) as [HR _].
  - simpl. intros i p Hp. apply list_lookup_fmap_Some in Hp as ([b ops] & -> & _).
    by apply rg_client.
  - destruct (HR Hc) as (? & ? & ?). auto.
Qed.

End Client.
(** A schedule of two backends from the initial memory: each acquires a slot,
    then the first one bumps the epoch. *)
Definition demo_config : config eloc epoch_local :=
  ((fun '(b, ops) => client 2 4 b ops local_init) <$> [(0, [OpAcquire; OpBump]); (1, [OpAcquire])],
   EpochShmemInit 2 (fun _ => EpochEntryNotInUseMask)).

Lemma demo_cinv : cinv (snd demo_config).
Proof. constructor; simpl; [lia|]. intros i. case_match; by left. Qed.

(** No state of the demonstration run wraps. *)
Lemma demo_csteps : csteps no_wrap demo_config (exec (repeat 0%nat 9) demo_config).
Proof.
  apply (exec_all_csteps _ (fun m => m GlobalEpoch <? 2 ^ 62 - 1)).
  - intros m Hm. unfold no_wrap. zbool. done.
  - vm_compute. reflexivity.
Qed.

Lemma epoch_interleaving_monotone_witness :
  cinv (snd demo_config) /\
  snd demo_config GlobalEpoch < snd (exec (repeat 0%nat 9) demo_config) GlobalEpoch /\
  cinv (snd (exec (repeat 0%nat 9) demo_config)).
Proof.
  split; [apply demo_cinv|]. split; [vm_compute; reflexivity|].
  apply (epoch_interleaving_monotone 2 4 [(0, [OpAcquire; OpBump]); (1, [OpAcquire])]
    (snd demo_config) (fst (exec (repeat 0%nat 9) demo_config))
    (snd (exec (repeat 0%nat 9) demo_config)) demo_cinv ltac:(vm_compute; reflexivity)).
  rewrite <- surjective_pairing. exact demo_csteps.
Defined.

(** ** Epoch numbers across the wrap-around *)

(** On epoch counters taken modulo 2^63, EpochPreceedsOrEqualsTo,
    EpochPreceeds, EpochIncrement and EpochDecrement are order, strict order,
    successor and predecessor of the unbounded counters, whenever the counters
    compared are less than 2^62 apart. *)
Theorem epoch_order_modular (a b : Z) :
  - 2 ^ 62 < b - a < 2 ^ 62 ->
  EpochPreceedsOrEqualsTo (a mod 2 ^ 63) (b mod 2 ^ 63) = (a <=? b) /\
  EpochPreceeds (a mod 2 ^ 63) (b mod 2 ^ 63) = (a <? b) /\
  EpochIncrement (a mod 2 ^ 63) = (a + 1) mod 2 ^ 63 /\
  EpochDecrement (a mod 2 ^ 63) = (a - 1) mod 2 ^ 63 /\
  EpochEntryInUse (a mod 2 ^ 63) = true.
Proof.
  intros H.
  assert (Hle : forall a b, - 2 ^ 62 < b - a < 2 ^ 62 ->
    EpochPreceedsOrEqualsTo (a mod 2 ^ 63) (b mod 2 ^ 63) = (a <=? b)).
  { clear. intros a b H. rewrite <- EpochPreceedsOrEqualsTo_near by lia.
    unfold EpochPreceedsOrEqualsTo. rewrite !land_number_mask. f_equal. divlia. }
  split; [by apply Hle|]. split.
  - unfold EpochPreceeds. rewrite Hle by lia.
    destruct (Z.leb_spec b a), (Z.ltb_spec a b); simpl; lia.
  - rewrite EpochIncrement_eq, EpochDecrement_eq. split; [divlia|]. split; [divlia|].
    rewrite EpochEntryInUse_spec by divlia. zbool. apply Z.mod_pos_bound. lia.
Qed.

Lemma epoch_order_modular_witness :
  EpochPreceeds ((2 ^ 63 - 1) mod 2 ^ 63) ((2 ^ 63 + 1) mod 2 ^ 63) = true.
Proof. exact (proj1 (proj2 (epoch_order_modular (2 ^ 63 - 1) (2 ^ 63 + 1) ltac:(lia)))). Defined.

(** Epoch_refresh_safe_epoch returns, and leaves in SafeEpoch, the larger of
    the old safe epoch and the epoch before the oldest one in use; with no slot
    in use the safe epoch stays.  Nothing else in shared memory changes. *)
Theorem epoch_refresh_safe_epoch_spec (N : Z) (m : mem eloc) :
  mem_inv N m -> m GlobalEpoch < 2 ^ 62 - 1 ->
  exists m', run (epoch_refresh_safe_epoch N) m = (Done (m' SafeEpoch), m') /\
    m' SafeEpoch = match min_in_use ((fun i => m (LocalEpochs i)) <$> seqZ 0 (Z.of_nat (Z.to_nat N))) with
                   | Some e => Z.max (m SafeEpoch) (e - 1)
                   | None => m SafeEpoch
                   end /\
    (forall l, l <> SafeEpoch -> m' l = m l).
Proof.
  intros Hinv HG. destruct (refresh_safe_run N m Hinv HG) as (m' & Hr & Hs & Hfr).
  exists m'. by rewrite Hr, Hs.
Qed.

Lemma epoch_refresh_safe_epoch_spec_witness :
  exists m', run (epoch_refresh_safe_epoch 2) (EpochShmemInit 2 (fun _ => 0)) = (Done 0, m').
Proof.
  destruct (epoch_refresh_safe_epoch_spec 2 (EpochShmemInit 2 (fun _ => 0))) as (m' & Hr & Hs & _).
  - apply (sys_init_ok 2 (fun _ => 0)).
  - vm_compute. reflexivity.
  - exists m'. rewrite Hr, Hs. reflexivity.
Defined.

(** From initialization, every sequence of acquire, release, refresh,
    maybe-refresh, bump and safe-epoch refresh operations keeps the manager's
    invariant: the safe epoch is below the global epoch and below every epoch in
    use, no slot is ahead of the global epoch, a backend's slot is in range and
    in use, and no two backends hold the same slot. *)
Theorem epoch_reachable_invariant (N : Z) (fuel : nat) (m : mem eloc) (s : sys) :
  0 < N -> (0 < fuel)%nat -> reach N fuel (sys_init N m) s ->
  mem_inv N (shm s) /\ own_inv N s.
Proof.
  intros HN Hf Hr. destruct (reach_ok N fuel _ s HN Hf (sys_init_ok N m) Hr) as (? & ? & ?). auto.
Qed.

(** The system after backend 0 acquired a slot. *)
Definition demo_sys : sys :=
  let r := run (epoch_acquire 2 4 0 local_init) (EpochShmemInit 2 (fun _ => 0)) in
  mk_sys (snd r) (upd_backend (fun _ => local_init) 0 (mk_local 0 0)).

Lemma demo_reach : reach 2 4 (sys_init 2 (fun _ => 0)) demo_sys.
Proof.
  eapply reach_step; [apply reach_refl| |vm_compute; reflexivity].
  apply (step_acquire 2 4 _ (fun _ => local_init) 0 (mk_local 0 0) true). reflexivity.
Qed.

Lemma epoch_reachable_invariant_witness :
  mem_inv 2 (shm demo_sys) /\ MyEpochEntryId (loc demo_sys 0) = 0.
Proof.
  split; [|reflexivity].
  exact (proj1 (epoch_reachable_invariant 2 4 (fun _ => 0) demo_sys ltac:(lia) ltac:(lia) demo_reach)).
Defined.

(** C12: the grace period, for operations that run as a whole.  In every state reached from
    initialization, a backend that holds a slot can bump the epoch: the bump returns an
    epoch [e], the epoch at which the backend retires memory; no backend had announced a
    later one, and [e] is not safe yet.  Whatever whole operations follow, once [e] precedes
    or equals the safe epoch (the memory may be reclaimed), every backend then in the
    manager has announced an epoch later than [e], so it entered or refreshed after the
    bump.  Interleaved with a scan of the slots this fails ([epoch_scan_race]). *)
Theorem epoch_grace_period (N : Z) (fuel : nat) (m : mem eloc) (s : sys) (b : nat) :
  0 < N -> (0 < fuel)%nat -> reach N fuel (sys_init N m) s ->
  MyEpochEntryId (loc s b) <> InvalidEpochEntryId -> shm s GlobalEpoch + 1 < 2 ^ 62 - 1 ->
  exists e m1, run (epoch_bump fuel (loc s b)) (shm s) = (Done e, m1) /\
    (forall i, 0 <= i < N -> EpochEntryInUse (shm s (LocalEpochs i)) = true ->
      EpochPreceedsOrEqualsTo (shm s (LocalEpochs i)) e = true) /\
    EpochPreceeds (m1 SafeEpoch) e = true /\
    forall s2 i, reach N fuel (mk_sys m1 (loc s)) s2 -> EpochPreceedsOrEqualsTo e (shm s2 SafeEpoch) = true ->
      0 <= i < N -> EpochEntryInUse (shm s2 (LocalEpochs i)) = true -> EpochPreceeds e (shm s2 (LocalEpochs i)) = true.
Proof.
  intros HN Hf Hr Hb HG. pose proof (reach_ok N fuel _ s HN Hf (sys_init_ok N m) Hr) as Hok.
  destruct s as [ms l]. pose proof Hok as ([Hs Hslot Hact] & _ & _). cbn [shm loc] in *.
  destruct (run (epoch_bump fuel (l b)) ms) as [r m1] eqn:Hbump.
  destruct (epoch_bump_keeps N fuel ms (l b) r m1 (proj1 Hok) ltac:(lia) Hf Hbump) as (-> & _ & HG1 & Hs1 & _).
  exists (ms GlobalEpoch), m1. split; [done|]. split; [|split].
  - intros i Hi Hu. destruct (Hslot i Hi) as [Hm|Hri]; [by rewrite Hm, not_in_use_mask in Hu|].
    rewrite EpochPreceedsOrEqualsTo_near by lia. zbool. lia.
  - rewrite Hs1, EpochPreceeds_near by lia. zbool. lia.
  - intros s2 i Hr2 Hsafe Hi Hu.
    assert (Hok1 : sys_ok N (mk_sys m1 l)) by (eapply (estep_ok N fuel); [done|done|exact Hok|by eapply step_bump|cbn [shm]; lia]).
    destruct (reach_ok N fuel _ s2 HN Hf Hok1 Hr2) as ([Hs2 Hslot2 Hact2] & _ & HG2).
    specialize (Hact2 i Hi Hu). rewrite EpochPreceedsOrEqualsTo_near in Hsafe by lia. zbool.
    destruct (Hslot2 i Hi) as [Hm|Hri]; [by rewrite Hm, not_in_use_mask in Hu|].
    rewrite EpochPreceeds_near by lia. zbool. lia.
Qed.

(** The backend bumps the epoch and refreshes: the retired epoch 1 becomes safe. *)
Definition demo_bumped : mem eloc := snd (run (epoch_bump 4 (loc demo_sys 0)) (shm demo_sys)).
Definition demo_later : sys := mk_sys (snd (run (epoch_refresh_safe_epoch 2) demo_bumped)) (loc demo_sys).

Lemma epoch_grace_period_witness :
  EpochPreceedsOrEqualsTo 1 (shm demo_later SafeEpoch) = true /\ EpochPreceeds 1 (shm demo_later (LocalEpochs 0)) = true.
Proof.
  split; [vm_compute; reflexivity|].
  destruct (epoch_grace_period 2 4 (fun _ => 0) demo_sys 0 ltac:(lia) ltac:(lia) demo_reach ltac:(vm_compute; congruence) ltac:(vm_compute; reflexivity))
    as (e & m1 & Hrun & _ & _ & H).
  vm_compute in Hrun. injection Hrun as <- <-. apply H.
  - eapply reach_step; [apply reach_refl| |vm_compute; reflexivity].
    apply (step_refresh_safe 2 4 _ _ 1). reflexivity.
  - vm_compute. reflexivity.
  - lia.
  - vm_compute. reflexivity.
Defined.

(** ** The scan can miss a backend that enters while it runs *)

(** Slots 0 and 1 are held at epoch 1, the global epoch; the holder of slot 0 is
    about to release it, another backend to acquire a slot, and the holder of
    slot 1 to bump the epoch (retiring memory at epoch 1). *)
Definition race_config : config eloc epoch_local :=
  ([ client 2 4 0 [OpRelease] (mk_local 0 0);
     client 2 4 0 [OpAcquire] local_init;
     client 2 4 1 [OpBump] (mk_local 1 0) ],
   upd (upd (EpochShmemInit 2 (fun _ => 0)) (LocalEpochs 0) 1) (LocalEpochs 1) 1).

Definition race_schedule : list nat :=
  ([0; 0] ++ repeat 1 3 ++ repeat 2 3 ++ repeat 0 3)%nat.

(** The grace period does not survive interleaving.  A backend that acquires
    the slot after a concurrent scan passed it, and before another backend bumps
    the epoch, is active at the retired epoch 1 although the safe epoch has
    already reached it. *)
Theorem epoch_scan_race :
  let c := exec race_schedule race_config in
  fst c = [Ret (mk_local (-1) 0); Ret (mk_local 0 0); Ret (mk_local 1 0)] /\
  EpochEntryInUse (snd c (LocalEpochs 0)) = true /\ snd c (LocalEpochs 0) = 1 /\
  EpochPreceedsOrEqualsTo 1 (snd c SafeEpoch) = true /\
  EpochPreceeds 1 (snd c (LocalEpochs 0)) = false.
Proof. vm_compute. repeat split. Qed.

End Epoch.
