(* ===== verification/SharedSlab.v ===== *)
(** * The shared slab allocator (utils/shared_slab.h, utils/mmgr/shared_slab.c)

    A shared slab hands out fixed-size items carved from large chunks.  A slab
    pointer is a chunk number and an offset packed in one word.  Freed items are
    parked in per-backend deallocation lists stamped with an epoch and pushed on
    the shared free list once that epoch is safe; the first word of a free item
    links to the next one.

    Shared words are the locations [sloc]: the two list/chunk heads, the bump
    offset, the chunk directory, the words of the items (addressed by slab
    pointer plus byte offset) and the epoch manager's words.  The constants
    computed by shared_slab_init are the record [header].  The dsa area is the
    caller's: the pointer dsa_allocate_extended returns is an argument. *)

From stdpp Require Import base numbers option sorting sets list.
From S2P Require Import Prelude Shmem Epoch.

Module Slab.
Import Epoch.

Inductive sloc :=
  | freelist_head | new_chunk | unallocated_offset
  | chunks (n : Z) | Word (addr : Z) | Ep (l : eloc).

#[export] Instance sloc_eq_dec : EqDecision sloc.
Proof. solve_decision. Defined.

#[export] Instance Ep_inj : Inj (=) (=) Ep.
Proof. by intros ?? [=]. Qed.

(** ** Constants and the shared header *)

Definition SHARED_SLAB_MAGIC : Z := 0xefca7345.
Definition SHARED_SLAB_NULL : Z := 0.
Definition SHARED_SLAB_CHUNK_MODIFYING_MASK : Z := 1.
Definition SHARED_SLAB_SEGMENT_NUM_BITS : Z := 40.
Definition SHARED_SLAB_SEGMENT_MAX_ALLOCSIZE : Z := Z.shiftl 1 SHARED_SLAB_SEGMENT_NUM_BITS.
Definition SHARED_SLAB_MAX_ITEMSZ : Z := 1024.
Definition SHARED_SLAB_DEFAULT_CHUNK_SIZE : Z := 1 * 1024 * 1024 * 1024.
Definition SHARED_SLAB_MAX_NUM_CHUNKS : Z := 64.

Definition shared_slab_chunk_is_marked (ptr : Z) : bool :=
  negb (Z.land ptr SHARED_SLAB_CHUNK_MODIFYING_MASK =? 0).
Definition shared_slab_chunk_get_unmarked (ptr : Z) : Z :=
  Z.land ptr (u64 (Z.lnot SHARED_SLAB_CHUNK_MODIFYING_MASK)).
Definition shared_slab_chunk_get_marked (ptr : Z) : Z :=
  Z.lor ptr SHARED_SLAB_CHUNK_MODIFYING_MASK.

Record header := mk_header {
  magic : Z;
  itemsz : Z;
  chunk_alloc_size : Z;
  address_offset_num_bits : Z;
  address_offset_mask : Z
}.

(** my_log2 of dynahash.c: the ceiling of the binary logarithm. *)
Definition my_log2 (num : Z) : Z :=
  let num := if (2 ^ 63 - 1) / 2 <? num then (2 ^ 63 - 1) / 2 else num in Z.log2_up num.

(** The header and the shared words set by shared_slab_init; [None] is the
    elog(ERROR) for an oversized item. *)
Definition shared_slab_init (sz : Z) (m : mem sloc) : option (header * mem sloc) :=
  if SHARED_SLAB_MAX_ITEMSZ <=? sz then None
  else
    let size := Z.min SHARED_SLAB_DEFAULT_CHUNK_SIZE SHARED_SLAB_SEGMENT_MAX_ALLOCSIZE in
    let bits := my_log2 size in
    let h := mk_header SHARED_SLAB_MAGIC (MAXALIGN sz) size bits (Z.shiftl 1 bits - 1) in
    Some (h, upd (upd (upd m freelist_head SHARED_SLAB_NULL)
                          new_chunk SHARED_SLAB_NULL)
                          unallocated_offset size).

(** ** Slab pointers *)

Definition SHARED_SLAB_PTR_GET_CHUNK_NUM (h : header) (ptr : Z) : Z :=
  u64 (Z.shiftr ptr (address_offset_num_bits h) - 1).
Definition SHARED_SLAB_PTR_GET_OFFSET (h : header) (ptr : Z) : Z :=
  Z.land ptr (address_offset_mask h).
Definition SHARED_SLAB_CHUNK_NUM_OFFSET_GET_PTR (h : header) (chunk_num offset : Z) : Z :=
  u64 (u64 (Z.shiftl (u64 (chunk_num + 1)) (address_offset_num_bits h)) + offset).

(** ** The backend's slab object *)

(** A deallocation list; its size is the length of [pointers]. *)
Record dealloc := mk_dealloc {
  dl_epoch : Z;
  dl_capacity : Z;
  dl_pointers : list Z
}.

(** [dealloc_lists] runs from dealloc_list to last_dealloc_list along next_list. *)
Record slab := mk_slab {
  dealloc_nowait : bool;
  dealloc_list_capacity : Z;
  dealloc_lists : list dealloc
}.

Definition shared_slab_create (h : header) (capacity : Z) (nowait : bool) : option slab :=
  if negb (magic h =? SHARED_SLAB_MAGIC) then None else Some (mk_slab nowait capacity []).

(** Byte layout (LP64) of the slab object and of the shared header: the array
    that follows each struct is placed [8 * SHARED_SLAB_MAX_NUM_CHUNKS] bytes
    after the start of the block. *)
Definition sizeof_shared_slab : Z := 64.
Definition sizeof_shared_slab_shared_header : Z := 72.
Definition slab_block_size : Z := sizeof_shared_slab + 8 * SHARED_SLAB_MAX_NUM_CHUNKS.
Definition chunk_local_ptrs_off : Z := 8 * SHARED_SLAB_MAX_NUM_CHUNKS.
Definition shared_slab_shmem_size : Z :=
  sizeof_shared_slab_shared_header + 8 * SHARED_SLAB_MAX_NUM_CHUNKS.
Definition chunks_off : Z := 8 * SHARED_SLAB_MAX_NUM_CHUNKS.

Section Alloc.
Context (h : header).

(** Room for one more item at [offset]. *)
Definition fits (offset : Z) : bool := u64 (offset + itemsz h) <=? chunk_alloc_size h.

(** while (!CAS(&new_chunk, &cur, f(cur))); *)
Fixpoint set_new_chunk (fuel : nat) (cur : Z) (f : Z -> Z) : prog sloc unit :=
  match fuel with
  | O => Err OutOfFuel
  | S n => CAS new_chunk cur (f cur) (fun ok seen =>
             if ok then Ret tt else set_new_chunk n seen f)
  end.

Fixpoint shared_slab_allocate_new_chunk (fuel : nat) (dsa_new_chunk : Z) : prog sloc unit :=
  match fuel with
  | O => Err OutOfFuel
  | S n =>
      Read new_chunk (fun cur =>
      if shared_slab_chunk_is_marked cur then
        Read unallocated_offset (fun offset =>
          if fits offset then Ret tt else shared_slab_allocate_new_chunk n dsa_new_chunk)
      else
        CAS new_chunk cur (shared_slab_chunk_get_marked cur) (fun ok _ =>
        if negb ok then
          Read unallocated_offset (fun offset =>
            if fits offset then Ret tt else shared_slab_allocate_new_chunk n dsa_new_chunk)
        else
          Read unallocated_offset (fun offset =>
          if fits offset then
            set_new_chunk n (shared_slab_chunk_get_marked cur) shared_slab_chunk_get_unmarked
          else
            let old_chunk_num := SHARED_SLAB_PTR_GET_CHUNK_NUM h cur in
            let new_chunk_num := u64 (old_chunk_num + 1) in
            let new_chunk_addr := SHARED_SLAB_CHUNK_NUM_OFFSET_GET_PTR h new_chunk_num 0 in
            Write (chunks new_chunk_num) dsa_new_chunk (
            Write unallocated_offset 0 (
            set_new_chunk n (shared_slab_chunk_get_marked cur) (fun _ => new_chunk_addr))))))
  end.

Fixpoint try_freelist_from (fuel : nat) (head : Z) : prog sloc Z :=
  if head =? SHARED_SLAB_NULL then Ret SHARED_SLAB_NULL
  else
    match fuel with
    | O => Err OutOfFuel
    | S n => Read (Word head) (fun next =>
             CAS freelist_head head next (fun ok seen =>
               if ok then Ret head else try_freelist_from n seen))
    end.

Definition shared_slab_try_allocate_from_freelist (fuel : nat) : prog sloc Z :=
  Read freelist_head (fun head => try_freelist_from fuel head).

(** The inner while of shared_slab_allocate_extended; [None] when the chunk is
    full, [Some None] for goto retry_chunk. *)
Fixpoint bump_offset (fuel : nat) (offset : Z) : prog sloc (option (option Z)) :=
  match fuel with
  | O => Err OutOfFuel
  | S n =>
      let e := u64 (offset + itemsz h) in
      if e <=? chunk_alloc_size h then
        Read new_chunk (fun chunk_head =>
        if shared_slab_chunk_is_marked chunk_head then Ret (Some None)
        else
          CAS unallocated_offset offset e (fun ok seen =>
            if ok then Ret (Some (Some (u64 (chunk_head + offset)))) else bump_offset n seen))
      else Ret None
  end.

Fixpoint shared_slab_allocate_extended (fuel : nat) (dsa_new_chunk : Z) : prog sloc Z :=
  match fuel with
  | O => Err OutOfFuel
  | S n =>
      Read unallocated_offset (fun offset =>
      let* r := bump_offset n offset in
      match r with
      | Some (Some ptr) => Ret ptr
      | Some None => shared_slab_allocate_extended n dsa_new_chunk
      | None =>
          let* _ := shared_slab_allocate_new_chunk n dsa_new_chunk in
          let* chunk_head := shared_slab_try_allocate_from_freelist n in
          if negb (chunk_head =? SHARED_SLAB_NULL) then Ret chunk_head
          else shared_slab_allocate_extended n dsa_new_chunk
      end)
  end.

Definition shared_slab_allocate (fuel : nat) (dsa_new_chunk : Z) : prog sloc Z :=
  let* ptr := shared_slab_try_allocate_from_freelist fuel in
  if negb (ptr =? SHARED_SLAB_NULL) then Ret ptr
  else shared_slab_allocate_extended fuel dsa_new_chunk.

(** memset(mem, 0, itemsz), one word at a time. *)
Fixpoint zero_words (n : nat) (addr : Z) : prog sloc unit :=
  match n with
  | O => Ret tt
  | S n' => Write (Word addr) 0 (zero_words n' (u64 (addr + 8)))
  end.

Definition shared_slab_allocate0 (fuel : nat) (dsa_new_chunk : Z) : prog sloc Z :=
  let* ptr := shared_slab_allocate fuel dsa_new_chunk in
  let* _ := zero_words (Z.to_nat (itemsz h / 8)) ptr in
  Ret ptr.

End Alloc.

(** ** Deferred deallocation *)

Section Dealloc.
(** [N] is the number of epoch slots, [fuel] bounds retry loops and waits. *)
Context (N : Z) (fuel : nat).

(** *p_next of each pointer is the following pointer. *)
Fixpoint link_pointers (ps : list Z) : prog sloc unit :=
  match ps with
  | p :: (q :: _) as rest => Write (Word p) q (link_pointers rest)
  | _ => Ret tt
  end.

(** while (!CAS(&freelist_head, p_next, tail)); the expected value lives in the
    tail's first word, which a failed exchange overwrites. *)
Fixpoint push_freelist (fuel : nat) (tail expected : Z) : prog sloc unit :=
  match fuel with
  | O => Err OutOfFuel
  | S n => CAS freelist_head expected tail (fun ok seen =>
             if ok then Ret tt else Write (Word tail) seen (push_freelist n tail seen))
  end.

Definition shared_slab_reclaim_first_dealloc_list (d : dealloc) : prog sloc dealloc :=
  match last (dl_pointers d) with
  | None => Err AssertFailed
  | Some tail =>
      let* _ := link_pointers (dl_pointers d) in
      Read freelist_head (fun head =>
      Write (Word tail) head (
      let* _ := push_freelist fuel tail head in
      Ret (mk_dealloc InvalidEpoch (dl_capacity d) [])))
  end.

(** The while loop of shared_slab_reclaim_internal on the lists from
    dealloc_list on. *)
Fixpoint reclaim_loop (safe_epoch : Z) (wait : bool) (ls : list dealloc) : prog sloc (list dealloc) :=
  match ls with
  | [] => Err AssertFailed
  | d :: rest =>
      if dl_epoch d =? InvalidEpoch then Ret ls
      else
        let reclaim :=
          let* d' := shared_slab_reclaim_first_dealloc_list d in
          match rest with
          | [] => Ret [d']
          | _ :: _ => reclaim_loop safe_epoch wait rest
          end in
        if negb (EpochPreceedsOrEqualsTo (dl_epoch d) safe_epoch) then
          if wait then
            let* _ := plift Ep (epoch_wait_until_safe fuel (dl_epoch d)) in reclaim
          else Ret ls
        else reclaim
  end.

Definition shared_slab_reclaim_internal (ls : list dealloc) (wait : bool) : prog sloc (list dealloc) :=
  let* safe_epoch := plift Ep (epoch_refresh_safe_epoch N) in
  reclaim_loop safe_epoch wait ls.

(** Update last_dealloc_list. *)
Fixpoint upd_last (f : dealloc -> dealloc) (ls : list dealloc) : list dealloc :=
  match ls with
  | [] => []
  | [d] => [f d]
  | d :: rest => d :: upd_last f rest
  end.

Definition set_epoch (e : Z) (d : dealloc) : dealloc :=
  mk_dealloc e (dl_capacity d) (dl_pointers d).
Definition add_pointer (ptr : Z) (d : dealloc) : dealloc :=
  mk_dealloc (dl_epoch d) (dl_capacity d) (dl_pointers d ++ [ptr]).
Definition dl_size (d : dealloc) : Z := Z.of_nat (length (dl_pointers d)).

Definition shared_slab_reclaim (st : epoch_local) (s : slab) (wait : bool) : prog sloc slab :=
  match dealloc_lists s, last (dealloc_lists s) with
  | d :: _, Some l =>
      if dl_size d =? 0 then Ret s
      else
        let go ls :=
          let* ls' := shared_slab_reclaim_internal ls wait in
          Ret (mk_slab (dealloc_nowait s) (dealloc_list_capacity s) ls') in
        if negb (dl_size l =? 0) && (dl_epoch l =? InvalidEpoch) then
          let* e := plift Ep (epoch_bump fuel st) in
          go (upd_last (set_epoch e) (dealloc_lists s))
        else go (dealloc_lists s)
  | _, _ => Ret s
  end.

Definition shared_slab_free (st : epoch_local) (s : slab) (ptr : Z) : prog sloc slab :=
  let fresh := mk_dealloc InvalidEpoch (dealloc_list_capacity s) [] in
  let finish (alloc_new_list : bool) (ls : list dealloc) :=
    let ls := if alloc_new_list then ls ++ [fresh] else ls in
    Ret (mk_slab (dealloc_nowait s) (dealloc_list_capacity s) (upd_last (add_pointer ptr) ls)) in
  match last (dealloc_lists s) with
  | None => finish true (dealloc_lists s)
  | Some l =>
      if dl_size l =? dl_capacity l then
        let* cur_epoch := plift Ep (epoch_bump fuel st) in
        let ls := upd_last (set_epoch cur_epoch) (dealloc_lists s) in
        let* ls' := shared_slab_reclaim_internal ls (negb (dealloc_nowait s)) in
        if dealloc_nowait s then
          match last ls' with
          | Some l' => finish (negb (dl_epoch l' =? InvalidEpoch)) ls'
          | None => Err AssertFailed
          end
        else finish false ls'
      else finish false (dealloc_lists s)
  end.

End Dealloc.

(** ** Slab pointers pack a chunk number and an offset *)

(** What shared_slab_init establishes of the header. *)
Record header_ok (h : header) : Prop := {
  ho_item : 0 < itemsz h /\ itemsz h mod 8 = 0 /\ itemsz h <= chunk_alloc_size h;
  ho_bits : 3 <= address_offset_num_bits h < 62;
  ho_size : chunk_alloc_size h = 2 ^ address_offset_num_bits h;
  ho_mask : address_offset_mask h = 2 ^ address_offset_num_bits h - 1
}.

Lemma shared_slab_init_ok sz m h m' :
  0 < sz -> shared_slab_init sz m = Some (h, m') -> header_ok h.
Proof.
  intros Hsz. unfold shared_slab_init. destruct (Z.leb_spec SHARED_SLAB_MAX_ITEMSZ sz); [done|].
  intros [= <- _]. destruct (MAXALIGN_spec sz) as [[? ?] ?]. unfold SHARED_SLAB_MAX_ITEMSZ in *.
  constructor; simpl.
  - assert (MAXALIGN sz <= MAXALIGN 1024) by (apply MAXALIGN_mono; lia).
    change (MAXALIGN 1024) with 1024 in *. split; [lia|]. split; [done|].
    change (Z.min _ _) with (2 ^ 30). lia.
  - vm_compute. split; congruence.
  - reflexivity.
  - reflexivity.
Qed.

Section Pointers.
Context (h : header) (Hh : header_ok h).
Abbreviation bits := (address_offset_num_bits h).

Lemma pow_bits_range : 8 <= 2 ^ bits < 2 ^ 62.
Proof.
  destruct Hh as [_ [Hb1 Hb2] _ _]. split.
  - change 8 with (2 ^ 3). apply Z.pow_le_mono_r; lia.
  - apply Z.pow_lt_mono_r; lia.
Qed.

Lemma get_ptr_eq c off :
  0 <= c -> 0 <= off < 2 ^ bits -> (c + 2) * 2 ^ bits <= 2 ^ 64 ->
  SHARED_SLAB_CHUNK_NUM_OFFSET_GET_PTR h c off = (c + 1) * 2 ^ bits + off.
Proof.
  intros Hc Ho Hr. pose proof pow_bits_range. pose proof (ho_bits h Hh).
  unfold SHARED_SLAB_CHUNK_NUM_OFFSET_GET_PTR.
  rewrite Z.shiftl_mul_pow2 by lia.
  assert (c + 1 < 2 ^ 64) by nia.
  rewrite (u64_small (c + 1)) by lia.
  rewrite (u64_small ((c + 1) * 2 ^ bits)) by nia.
  rewrite u64_small by nia. done.
Qed.

(** Packing a chunk number and an offset and unpacking them again gives them
    back, and a packed pointer is never SHARED_SLAB_NULL, for every chunk whose
    end fits in a word. *)
Theorem slab_pointer_roundtrip (c off : Z) :
  0 <= c -> 0 <= off < 2 ^ bits -> (c + 2) * 2 ^ bits <= 2 ^ 64 ->
  let ptr := SHARED_SLAB_CHUNK_NUM_OFFSET_GET_PTR h c off in
  SHARED_SLAB_PTR_GET_CHUNK_NUM h ptr = c /\ SHARED_SLAB_PTR_GET_OFFSET h ptr = off /\
  ptr <> SHARED_SLAB_NULL.
Proof.
  intros Hc Ho Hr ptr. unfold ptr. rewrite get_ptr_eq by done.
  pose proof pow_bits_range. pose proof (ho_bits h Hh).
  unfold SHARED_SLAB_PTR_GET_CHUNK_NUM, SHARED_SLAB_PTR_GET_OFFSET.
  rewrite (ho_mask h Hh), land_mask, Z.shiftr_div_pow2 by lia.
  rewrite Z.div_add_l, (Z.div_small off) by lia.
  rewrite (Z.add_comm _ off), Z.mod_add, Z.mod_small by lia.
  split; [|split; [done|unfold SHARED_SLAB_NULL; nia]].
  rewrite u64_small by nia. lia.
Qed.

End Pointers.

Definition demo_header : header := mk_header SHARED_SLAB_MAGIC 32 64 6 63.

Lemma demo_header_ok : header_ok demo_header.
Proof. constructor; vm_compute; repeat split; congruence. Qed.

Lemma slab_pointer_roundtrip_witness :
  SHARED_SLAB_PTR_GET_CHUNK_NUM demo_header (SHARED_SLAB_CHUNK_NUM_OFFSET_GET_PTR demo_header 5 32) = 5.
Proof.
  exact (proj1 (slab_pointer_roundtrip demo_header demo_header_ok 5 32
    ltac:(lia) ltac:(simpl; lia) ltac:(simpl; lia))).
Defined.

(** ** Allocation *)

(** Repeated allocation by one backend; [ds] are the pointers dsa_allocate_extended returns
    to the allocations that call it. *)
Fixpoint allocate_many (h : header) (fuel : nat) (ds : list Z) : prog sloc (list Z) :=
  match ds with
  | [] => Ret []
  | d :: ds' =>
      let* p := shared_slab_allocate h fuel d in
      let* ps := allocate_many h fuel ds' in
      Ret (p :: ps)
  end.

(** The first address never handed out from the chunks. *)
Definition frontier (m : mem sloc) : Z := m new_chunk + m unallocated_offset.

(** The items left in the current chunk [c] and in the chunks up to [C]. *)
Definition room (h : header) (m : mem sloc) (c C : Z) : Z :=
  (chunk_alloc_size h - m unallocated_offset) / itemsz h + (C - c) * (chunk_alloc_size h / itemsz h).

Lemma div_sub_one a b : 0 < b -> (a - b) / b = a / b - 1.
Proof. intros Hb. replace (a - b) with (a + -1 * b) by lia. rewrite Z.div_add by lia. lia. Qed.

Section Allocation.
Context (h : header) (Hh : header_ok h).
Abbreviation bits := (address_offset_num_bits h).

(** The current chunk is chunk [c], or none has been allocated yet (c = -1) and
    the offset says "full". *)
Record alloc_ok (m : mem sloc) (c : Z) : Prop := {
  ao_chunk : -1 <= c /\ m new_chunk = (c + 1) * 2 ^ bits;
  ao_off : 0 <= m unallocated_offset <= 2 ^ bits /\ m unallocated_offset mod 8 = 0;
  ao_first : c = -1 -> m unallocated_offset = 2 ^ bits
}.

Lemma chunk_unmarked c : shared_slab_chunk_is_marked ((c + 1) * 2 ^ bits) = false.
Proof.
  unfold shared_slab_chunk_is_marked, SHARED_SLAB_CHUNK_MODIFYING_MASK.
  change 1 with (2 ^ 1 - 1) at 2. rewrite land_mask by lia.
  pose proof (ho_bits h Hh).
  replace bits with (1 + (bits - 1)) by lia. rewrite Z.pow_add_r by lia.
  replace ((c + 1) * (2 ^ 1 * 2 ^ (bits - 1))) with ((c + 1) * 2 ^ (bits - 1) * 2 ^ 1) by ring.
  by rewrite Z.mod_mul.
Qed.

Lemma fits_spec off : 0 <= off <= 2 ^ bits -> fits h off = (off + itemsz h <=? 2 ^ bits).
Proof.
  intros. unfold fits. pose proof (pow_bits_range h Hh). destruct Hh as [? _ Hs _].
  rewrite Hs in *. rewrite u64_small by lia. done.
Qed.

(** Taking the next item of the current chunk. *)
Lemma bump_offset_run m c n :
  alloc_ok m c -> (c + 2) * 2 ^ bits <= 2 ^ 64 ->
  run (bump_offset h (S n) (m unallocated_offset)) m =
  if m unallocated_offset + itemsz h <=? 2 ^ bits
  then (Done (Some (Some (frontier m))),
        upd m unallocated_offset (m unallocated_offset + itemsz h))
  else (Done None, m).
Proof.
  intros [[Hc Hch] [Hoff Hal] _] Hr. simpl. pose proof (pow_bits_range h Hh).
  pose proof Hh as [Hit _ Hs _]. rewrite Hs in *.
  rewrite (u64_small (_ + itemsz h)) by lia.
  destruct (_ <=? 2 ^ bits) eqn:Hle; [|done]. zbool. cbn [run].
  rewrite Hch, chunk_unmarked. cbn [run]. rewrite Z.eqb_refl. cbn [run]. unfold frontier.
  rewrite <- Hch, u64_small; [done|]. nia.
Qed.

(** Moving to the next chunk when the current one is full. *)
Lemma allocate_new_chunk_run m c n d :
  alloc_ok m c -> fits h (m unallocated_offset) = false -> (c + 3) * 2 ^ bits <= 2 ^ 64 ->
  exists m', run (shared_slab_allocate_new_chunk h (S (S n)) d) m = (Done tt, m') /\
    alloc_ok m' (c + 1) /\ m' unallocated_offset = 0 /\ m' (chunks (c + 1)) = d /\
    (forall l, l <> new_chunk -> l <> unallocated_offset -> l <> chunks (c + 1) -> m' l = m l).
Proof.
  intros [[Hc Hch] [Hoff Hal] Hfirst] Hfull Hr. pose proof (pow_bits_range h Hh).
  cbn [shared_slab_allocate_new_chunk run]. rewrite Hch, chunk_unmarked. cbn [run].
  rewrite <- Hch, Z.eqb_refl. cbn [negb run]. rewrite (upd_ne _ new_chunk unallocated_offset) by done.
  rewrite Hfull. cbn [run set_new_chunk].
  rewrite (upd_ne _ unallocated_offset new_chunk), (upd_ne _ (chunks _) new_chunk), upd_eq by done.
  rewrite Z.eqb_refl. cbn [run].
  assert (Hnum : u64 (SHARED_SLAB_PTR_GET_CHUNK_NUM h (m new_chunk) + 1) = c + 1).
  { unfold SHARED_SLAB_PTR_GET_CHUNK_NUM. pose proof (ho_bits h Hh).
    rewrite Hch, Z.shiftr_div_pow2, Z.div_mul by lia. unfold u64.
    rewrite Zplus_mod_idemp_l. replace (c + 1 - 1 + 1) with (c + 1) by lia.
    apply Z.mod_small. nia. }
  rewrite Hnum, get_ptr_eq by (done || lia).
  eexists. split; [done|].
  split; [|split; [by rewrite !(upd_ne _ _ unallocated_offset), upd_eq by done|split; [by rewrite !(upd_ne _ _ (chunks _)), upd_eq by done|]]].
  - constructor.
    + rewrite upd_eq. lia.
    + rewrite upd_ne, upd_eq by done. split; [lia|done].
    + lia.
  - intros l H1 H2 H3. by rewrite !upd_ne by congruence.
Qed.

(** With an empty free list, allocation hands out an address at or after the
    frontier, inside one chunk, and moves the frontier just past the item. *)
Lemma allocate_run m c n d :
  alloc_ok m c -> m freelist_head = SHARED_SLAB_NULL -> (c + 3) * 2 ^ bits <= 2 ^ 64 ->
  exists p m' c', run (shared_slab_allocate h (S (S (S (S n)))) d) m = (Done p, m') /\
    alloc_ok m' c' /\ m' freelist_head = SHARED_SLAB_NULL /\ c <= c' <= c + 1 /\
    frontier m <= p /\ frontier m' = p + itemsz h /\ p mod 8 = 0 /\
    p mod 2 ^ bits + itemsz h <= 2 ^ bits /\ (forall a, m' (Word a) = m (Word a)) /\
    itemsz h <= m' unallocated_offset /\ (forall C, room h m' c' C = room h m c C - 1) /\
    (forall j, m' (chunks j) = m (chunks j) \/ (j = c + 1 /\ c' = c + 1 /\ m' (chunks j) = d)).
Proof.
  intros Hok Hfl Hr. pose proof (pow_bits_range h Hh). pose proof (ho_bits h Hh).
  unfold shared_slab_allocate, shared_slab_try_allocate_from_freelist.
  assert (Htry : forall f, try_freelist_from f SHARED_SLAB_NULL = Ret SHARED_SLAB_NULL)
    by (by intros []).
  rewrite run_bind. cbn [run]. rewrite Hfl, Htry. cbn [run].
  cbn [negb Z.eqb SHARED_SLAB_NULL shared_slab_allocate_extended run]. rewrite run_bind.
  rewrite (bump_offset_run m c) by (done || lia).
  destruct (_ <=? 2 ^ bits) eqn:Hfit; zbool.
  - destruct Hok as [[Hc Hch] [Hoff Hal] Hfirst]. destruct Hh as [(Hi1 & Hi2 & Hi3) _ _ _].
    cbn [run]. do 2 eexists. exists c. split; [reflexivity|].
    assert (Hc0 : 0 <= c) by lia.
    split; [|split; [by rewrite upd_ne|split; [lia|]]].
    + constructor; rewrite ?upd_eq, ?upd_ne by done; [lia| |lia].
      split; [lia|]. divlia.
    + unfold frontier. rewrite upd_eq, upd_ne by done. split; [lia|]. split; [lia|]. rewrite Hch.
      assert (H8 : (2 ^ bits) mod 8 = 0).
      { replace bits with (bits - 3 + 3) by lia. rewrite Z.pow_add_r by lia.
        change (2 ^ 3) with 8. by rewrite Z.mod_mul. }
      split.
      * rewrite Z.add_mod, Z.mul_mod, H8, Hal, Z.mul_0_r by lia. done.
      * rewrite (Z.add_comm (_ * _)), Z.mod_add, Z.mod_small by lia. split; [lia|].
        split; [intros a; by rewrite upd_ne|]. split; [lia|]. split; [|intros j; left; by rewrite upd_ne].
        intros C. unfold room. rewrite upd_eq, Z.sub_add_distr.
        rewrite (div_sub_one (_ - m unallocated_offset) (itemsz h)) by lia. lia.
  - cbn [run]. rewrite run_bind.
    pose proof Hok as [[Hc Hch] [Hoff Hal] Hfirst].
    destruct (allocate_new_chunk_run m c (S n) d Hok) as (m1 & Hm1 & Hok1 & Hoff1 & Hdir1 & Hfr1); [|done|].
    { rewrite fits_spec by lia. zbool. lia. }
    rewrite Hm1, run_bind. unfold shared_slab_try_allocate_from_freelist. cbn [run]. rewrite (Hfr1 freelist_head) by done.
    rewrite Hfl, Htry. cbn [run negb Z.eqb SHARED_SLAB_NULL shared_slab_allocate_extended].
    rewrite run_bind, (bump_offset_run m1 (c + 1)) by (done || lia).
    pose proof Hok1 as [[_ Hch1] _ _].
    destruct Hh as [(Hi1 & Hi2 & Hi3) _ Hs _]. rewrite Hoff1, Hs in *.
    destruct (_ <=? 2 ^ bits) eqn:Hfit1; zbool; [|lia]. cbn [run].
    do 2 eexists. exists (c + 1). split; [reflexivity|].
    split; [|split; [rewrite upd_ne by done; by rewrite Hfr1|split; [lia|]]].
    + constructor; rewrite ?upd_eq, ?upd_ne by done; [by split; [lia|]| |lia].
      split; [lia|]. by rewrite Z.add_0_l.
    + unfold frontier. rewrite upd_eq, upd_ne, Hoff1, Hch1, Hch by done.
      split; [nia|]. split; [lia|]. rewrite Z.add_0_r.
      rewrite Z.mod_mul by lia. split; [|split; [lia|split; [intros a; rewrite upd_ne by done; by apply Hfr1|split; [lia|split]]]].
      2: { intros C. unfold room. rewrite upd_eq, Hs, Z.add_0_l, (div_sub_one (2 ^ bits) (itemsz h)) by lia.
        rewrite (Z.div_small (2 ^ bits - m unallocated_offset)) by lia. lia. }
      2: { intros j. rewrite upd_ne by done. destruct (Z.eq_dec j (c + 1)) as [->|Hj]; [by right|left]. apply Hfr1; congruence. }
      replace bits with (bits - 3 + 3) by lia. rewrite Z.pow_add_r by lia.
      change (2 ^ 3) with 8. by rewrite Z.mul_assoc, Z.mod_mul.
Qed.

Lemma zero_words_run n a m :
  0 <= a -> a + 8 * Z.of_nat n <= 2 ^ 64 ->
  exists m', run (zero_words n a) m = (Done tt, m') /\
    (forall i, 0 <= i < Z.of_nat n -> m' (Word (a + 8 * i)) = 0) /\
    (forall l, (forall i, 0 <= i < Z.of_nat n -> l <> Word (a + 8 * i)) -> m' l = m l).
Proof.
  revert a m. induction n as [|n IH]; intros a m Ha Hr; [exists m; repeat split; auto; lia|].
  cbn [zero_words run]. destruct n as [|n].
  { exists (upd m (Word a) 0). split; [done|]. split.
    - intros i Hi. replace (a + 8 * i) with a by lia. apply upd_eq.
    - intros l Hl. apply upd_ne. intros <-. apply (Hl 0); [lia|f_equal; lia]. }
  rewrite u64_small by lia.
  destruct (IH (a + 8) (upd m (Word a) 0)) as (m' & Hm & Hz & Hfr); [lia..|].
  exists m'. split; [done|]. split.
  - intros i Hi. destruct (Z.eq_dec i 0) as [->|].
    + rewrite Hfr; [replace (a + 8 * 0) with a by lia; apply upd_eq|]. intros j Hj [=]. lia.
    + replace (a + 8 * i) with (a + 8 + 8 * (i - 1)) by lia. apply Hz. lia.
  - intros l Hl. rewrite Hfr.
    + apply upd_ne. intros <-. apply (Hl 0); [lia|f_equal; lia].
    + intros i Hi. replace (a + 8 + 8 * i) with (a + 8 * (i + 1)) by lia. apply Hl. lia.
Qed.

(** The zeroing allocator: the item is zeroed and no other item word changes. *)
Lemma allocate0_run m c n d :
  alloc_ok m c -> m freelist_head = SHARED_SLAB_NULL -> (c + 3) * 2 ^ bits <= 2 ^ 64 ->
  exists p m' c', run (shared_slab_allocate0 h (S (S (S (S n)))) d) m = (Done p, m') /\
    alloc_ok m' c' /\ m' freelist_head = SHARED_SLAB_NULL /\ c <= c' <= c + 1 /\
    frontier m <= p /\ frontier m' = p + itemsz h /\ p mod 8 = 0 /\ 2 ^ bits <= p /\
    (forall i, 0 <= 8 * i < itemsz h -> m' (Word (p + 8 * i)) = 0) /\
    (forall a, ~ (p <= a < p + itemsz h) -> m' (Word a) = m (Word a)).
Proof.
  intros Hok Hfl Hr. pose proof (pow_bits_range h Hh).
  destruct (allocate_run m c n d Hok Hfl Hr)
    as (p & m1 & c' & Hp & Hok1 & Hfl1 & Hc1 & Hfp & Hfm & Hal & Hin & Hw & _).
  assert (Hp0 : 2 ^ bits <= p).
  { unfold frontier in Hfp. destruct Hok as [[Hc Hch] [Ho _] Hf]. rewrite Hch in Hfp.
    destruct (Z.eq_dec c (-1)) as [->|]; [rewrite Hf in Hfp by done; lia|nia]. }
  pose proof Hh as [(Hi1 & Hi2 & Hi3) _ Hs _].
  assert (Hp1 : p + itemsz h <= 2 ^ 64).
  { unfold frontier in Hfm. destruct Hok1 as [[Hc' Hch'] [Ho' _] _]. rewrite Hch' in Hfm. nia. }
  assert (Hn : Z.of_nat (Z.to_nat (itemsz h / 8)) = itemsz h / 8) by (rewrite Z2Nat.id; divlia).
  assert (Hit : itemsz h = 8 * (itemsz h / 8)) by divlia.
  destruct (zero_words_run (Z.to_nat (itemsz h / 8)) p m1) as (m' & Hm & Hz & Hfr); [lia..|].
  exists p, m', c'. unfold shared_slab_allocate0. rewrite run_bind, Hp, run_bind, Hm.
  rewrite Hn in *. split; [done|].
  assert (Hch : forall l, (forall a, l <> Word a) -> m' l = m1 l) by (intros l Hl; apply Hfr; intros; apply Hl).
  split; [|split; [by rewrite Hch|split; [done|split; [done|split; [|split; [done|split; [done|split]]]]]]].
  - destruct Hok1. by constructor; rewrite ?Hch.
  - unfold frontier in *. by rewrite !Hch.
  - intros i Hi. apply Hz. lia.
  - intros a Ha. rewrite Hfr; [apply Hw|]. intros i Hi [=]. lia.
Qed.

End Allocation.

Definition demo_slab_mem : mem sloc :=
  fun l => match l with unallocated_offset => 64 | _ => 0 end.

Lemma demo_alloc_ok : alloc_ok demo_header demo_slab_mem (-1).
Proof. constructor; vm_compute; repeat split; congruence. Qed.

(** ** The free list *)

(** The items linked from [head] through their first words. *)
Fixpoint freelist (m : mem sloc) (head : Z) (l : list Z) : Prop :=
  match l with
  | [] => head = SHARED_SLAB_NULL
  | p :: l' => head = p /\ p <> SHARED_SLAB_NULL /\ freelist m (m (Word p)) l'
  end.

Lemma freelist_frame m m' head l :
  (forall p, p ∈ l -> m' (Word p) = m (Word p)) -> freelist m head l -> freelist m' head l.
Proof.
  revert head. induction l as [|p l IH]; intros head Hfr; simpl; [done|].
  intros (-> & Hp & Hl). split; [done|]. split; [done|].
  rewrite Hfr by set_solver. apply IH; [|done]. intros q Hq. apply Hfr. set_solver.
Qed.

(** Popping from a non-empty free list returns its first item and leaves the
    list of the others; popping from an empty one returns SHARED_SLAB_NULL and
    changes nothing. *)
Theorem slab_freelist_pop (fuel : nat) (m : mem sloc) (l : list Z) :
  (0 < fuel)%nat -> freelist m (m freelist_head) l ->
  match l with
  | [] => run (shared_slab_try_allocate_from_freelist fuel) m = (Done SHARED_SLAB_NULL, m)
  | p :: l' => exists m', run (shared_slab_try_allocate_from_freelist fuel) m = (Done p, m') /\
      freelist m' (m' freelist_head) l' /\ (forall a, m' (Word a) = m (Word a))
  end.
Proof.
  intros Hf. unfold shared_slab_try_allocate_from_freelist. cbn [run].
  destruct l as [|p l']; simpl.
  - intros ->. by destruct fuel.
  - intros (Hp & Hnz & Hl). destruct fuel as [|n]; [lia|]. rewrite Hp. cbn [try_freelist_from].
    destruct (Z.eqb_spec p SHARED_SLAB_NULL) as [e|_]; [done|]. cbn [run].
    rewrite Hp, Z.eqb_refl. cbn [run]. eexists. split; [done|].
    split; [|intros a; by rewrite upd_ne].
    rewrite upd_eq. eapply freelist_frame; [|exact Hl]. intros q _. by rewrite upd_ne.
Qed.

(** Two free items, 96 then 64. *)
Definition demo_free_mem : mem sloc := upd (upd (fun _ => 0) freelist_head 96) (Word 96) 64.

Lemma slab_freelist_pop_witness :
  exists m', run (shared_slab_try_allocate_from_freelist 3) demo_free_mem = (Done 96, m') /\
    freelist m' (m' freelist_head) [64].
Proof.
  destruct (slab_freelist_pop 3 demo_free_mem [96; 64] ltac:(lia)) as (m' & Hr & Hl & _).
  - vm_compute. repeat split; congruence.
  - exists m'. split; [exact Hr|exact Hl].
Defined.

Lemma link_pointers_run ps m :
  exists m', run (link_pointers ps) m = (Done tt, m') /\
    (forall l, (forall p, p ∈ ps -> l <> Word p) -> m' l = m l).
Proof.
  revert m. induction ps as [|p [|q ps] IH]; intros m; simpl; [by exists m..|].
  destruct (IH (upd m (Word p) q)) as (m' & Hr & Hfr). exists m'. split; [exact Hr|].
  intros l Hl. rewrite Hfr by (intros r Hr'; apply Hl; by right).
  apply upd_ne. intros <-. by apply (Hl p); [left|].
Qed.

(** What one reclamation does: everything but the items' first words and the
    free-list head is kept, and the head becomes the last pointer. *)
Lemma reclaim_first_run fuel d m tail :
  last (dl_pointers d) = Some tail -> (0 < fuel)%nat ->
  exists m', run (shared_slab_reclaim_first_dealloc_list fuel d) m =
      (Done (mk_dealloc InvalidEpoch (dl_capacity d) []), m') /\
    m' freelist_head = tail /\ m' (Word tail) = m freelist_head /\
    (forall l, l <> freelist_head -> (forall p, p ∈ dl_pointers d -> l <> Word p) -> m' l = m l).
Proof.
  intros Hlast Hf. unfold shared_slab_reclaim_first_dealloc_list. rewrite Hlast, run_bind.
  destruct (link_pointers_run (dl_pointers d) m) as (m1 & Hr & Hfr). rewrite Hr. cbn [run].
  rewrite (Hfr freelist_head) by done. rewrite run_bind.
  destruct fuel as [|n]; [lia|]. cbn [push_freelist run].
  rewrite (upd_ne _ (Word tail) freelist_head), (Hfr freelist_head), Z.eqb_refl by done.
  cbn [run]. eexists. split; [done|]. rewrite upd_eq, (upd_ne _ freelist_head), upd_eq by done.
  split; [done|]. split; [done|]. intros l Hl Hp. rewrite upd_ne by done.
  apply last_Some_elem_of in Hlast. rewrite upd_ne by (intros <-; by eapply Hp).
  by apply Hfr.
Qed.

(** Reclaiming a deallocation list pushes only its last pointer on the free
    list: whatever the list held before, the free list afterwards is that last
    pointer followed by the old free list, and every other pointer of the list is
    on no list any more. *)
Theorem slab_reclaim_keeps_only_last (fuel : nat) (d : dealloc) (m : mem sloc) (tail : Z) (l : list Z) :
  last (dl_pointers d) = Some tail -> tail <> SHARED_SLAB_NULL -> (0 < fuel)%nat ->
  freelist m (m freelist_head) l -> (forall p, p ∈ dl_pointers d -> p ∉ l) ->
  exists m', run (shared_slab_reclaim_first_dealloc_list fuel d) m =
      (Done (mk_dealloc InvalidEpoch (dl_capacity d) []), m') /\
    freelist m' (m' freelist_head) (tail :: l) /\
    (forall p, p ∈ dl_pointers d -> p <> tail -> p ∉ tail :: l).
Proof.
  intros Hlast Htail Hf Hl Hdisj.
  destruct (reclaim_first_run fuel d m tail Hlast Hf) as (m' & Hr & Hh & Ht & Hfr).
  exists m'. split; [done|]. split.
  - simpl. split; [done|]. split; [done|]. rewrite Ht. eapply freelist_frame; [|exact Hl].
    intros p Hp. apply Hfr; [done|]. intros q Hq [= ->]. by apply (Hdisj q).
  - intros p Hp Hne. rewrite list.not_elem_of_cons. auto.
Qed.

(** A list of three freed items. *)
Definition demo_dealloc : dealloc := mk_dealloc 1 3 [64; 96; 128].

Lemma slab_reclaim_keeps_only_last_witness :
  exists m', run (shared_slab_reclaim_first_dealloc_list 2 demo_dealloc) demo_slab_mem =
      (Done (mk_dealloc InvalidEpoch 3 []), m') /\
    freelist m' (m' freelist_head) [128] /\ 64 ∉ [128].
Proof.
  destruct (slab_reclaim_keeps_only_last 2 demo_dealloc demo_slab_mem 128 []) as (m' & Hr & Hl & Hn);
    [reflexivity|done|lia|reflexivity|set_solver|].
  exists m'. split; [exact Hr|]. split; [exact Hl|]. apply Hn; [set_solver|done].
Defined.

(** ** Any number of allocations *)

(** Items that do not overlap. *)
Definition disjoint_items (h : header) (ps : list Z) : Prop :=
  forall i j p q, ps !! i = Some p -> ps !! j = Some q -> i <> j -> p + itemsz h <= q \/ q + itemsz h <= p.

Section AllocateMany.
Context (h : header) (Hh : header_ok h) (n : nat) (C : Z).
Abbreviation bits := (address_offset_num_bits h).
Hypothesis (HC : (C + 3) * 2 ^ bits <= 2 ^ 64).

(** A chunk in use lies below [C] as long as there is room. *)
Lemma room_chunk m c : alloc_ok h m c -> 0 <= room h m c C -> (itemsz h <= m unallocated_offset \/ 0 < room h m c C) -> c <= C.
Proof.
  intros [_ [Hoff _] _] Hr Hor. pose proof Hh as [(Hi1 & Hi2 & Hi3) _ Hs _]. unfold room in *. rewrite Hs in *.
  assert (Hle : (2 ^ bits - m unallocated_offset) / itemsz h <= 2 ^ bits / itemsz h) by (apply Z.div_le_mono; lia).
  assert (Hlt : itemsz h <= m unallocated_offset -> (2 ^ bits - m unallocated_offset) / itemsz h <= 2 ^ bits / itemsz h - 1).
  { intros H. rewrite <- div_sub_one by lia. apply Z.div_le_mono; lia. }
  assert (0 < 2 ^ bits / itemsz h) by (apply Z.div_str_pos; lia). destruct Hor as [Ho|Ho]; [specialize (Hlt Ho)|]; nia.
Qed.

(** From the chunks, when the free list is empty. *)
Lemma allocate_fresh ds : forall m c, alloc_ok h m c -> m freelist_head = SHARED_SLAB_NULL -> Z.of_nat (length ds) <= room h m c C ->
  exists ps m', run (allocate_many h (4 + n) ds) m = (Done ps, m') /\ length ps = length ds /\ m' freelist_head = SHARED_SLAB_NULL /\
    StronglySorted (fun p q => p + itemsz h <= q) ps /\
    Forall (fun p => frontier m <= p /\ p mod 8 = 0 /\ p mod 2 ^ bits + itemsz h <= 2 ^ bits /\ p + itemsz h <= (C + 2) * 2 ^ bits) ps /\
    (forall a, m' (Word a) = m (Word a)) /\ (forall j, m' (chunks j) = m (chunks j) \/ (c < j <= C /\ m' (chunks j) ∈ ds)).
Proof.
  pose proof (ho_item h Hh). pose proof (pow_bits_range h Hh). induction ds as [|d ds IH]; intros m c Hok Hfl Hr.
  { exists [], m. repeat split; auto; constructor. }
  cbn [length] in Hr. assert (Hc : c <= C) by (eapply room_chunk; [done|lia|right; lia]).
  destruct (allocate_run h Hh m c n d Hok Hfl ltac:(nia)) as (p & m1 & c1 & Hp & Hok1 & Hfl1 & Hc1 & Hfp & Hfm1 & Hal & Hin & Hw1 & Hoff1 & Hroom & Hdir).
  specialize (Hroom C). assert (Hc1' : c1 <= C) by (eapply room_chunk; [done|lia|left; lia]).
  destruct (IH m1 c1 Hok1 Hfl1 ltac:(lia)) as (ps & m2 & Hps & Hlen & Hfl2 & Hsort & Hall & Hw2 & Hdir2).
  exists (p :: ps), m2. cbn [allocate_many]. change (4 + n)%nat with (S (S (S (S n)))) in *. rewrite run_bind, Hp, run_bind, Hps.
  split; [done|]. split; [by simpl; rewrite Hlen|]. split; [done|]. split; [|split; [|split]].
  - constructor; [done|]. eapply List.Forall_impl; [|exact Hall]. simpl. intros q (Hq & _). lia.
  - constructor.
    + split; [done|]. split; [done|]. split; [done|]. rewrite <- Hfm1. unfold frontier. destruct Hok1 as [[_ ->] [? _] _]. nia.
    + eapply List.Forall_impl; [|exact Hall]. simpl. intros q (Hq & ?). split; [lia|done].
  - intros a. by rewrite Hw2, Hw1.
  - intros j. destruct (Hdir2 j) as [->|[Hj1 Hj2]]; [|right; split; [lia|set_solver]].
    destruct (Hdir j) as [->|(-> & -> & ->)]; [by left|right; split; [lia|set_solver]].
Qed.

(** Taking an item off the free list. *)
Lemma allocate_pop m p l d : freelist m (m freelist_head) (p :: l) ->
  exists m', run (shared_slab_allocate h (4 + n) d) m = (Done p, m') /\ freelist m' (m' freelist_head) l /\ (forall a, a <> freelist_head -> m' a = m a).
Proof.
  intros (Hp & Hnz & Hl). unfold shared_slab_allocate, shared_slab_try_allocate_from_freelist. rewrite run_bind. cbn [run Nat.add].
  rewrite Hp. cbn [try_freelist_from]. destruct (Z.eqb_spec p SHARED_SLAB_NULL) as [e|_]; [done|]. cbn [run]. rewrite Hp, Z.eqb_refl. cbn [run].
  destruct (Z.eqb_spec p SHARED_SLAB_NULL) as [e|_]; [done|]. cbn [negb run]. eexists. split; [done|]. split; [|intros a Ha; by rewrite upd_ne].
  rewrite upd_eq. eapply freelist_frame; [|exact Hl]. intros q _. by rewrite upd_ne.
Qed.

End AllocateMany.

Lemma sorted_disjoint h ps : StronglySorted (fun p q => p + itemsz h <= q) ps -> disjoint_items h ps.
Proof.
  intros Hs i j p q Hi Hj Hne. destruct (decide (i < j)%nat) as [Hlt|Hge].
  - left. eapply (StronglySorted_lookup (fun p q => p + itemsz h <= q)); [exact Hs|exact Hlt|exact Hi|exact Hj].
  - right. eapply (StronglySorted_lookup (fun p q => p + itemsz h <= q)); [exact Hs| |exact Hj|exact Hi]; lia.
Qed.

Lemma disjoint_app h ps qs b : disjoint_items h ps -> disjoint_items h qs -> Forall (fun p => p + itemsz h <= b) ps -> Forall (fun q => b <= q) qs -> disjoint_items h (ps ++ qs).
Proof.
  intros H1 H2 Hb1 Hb2 i j p q Hi Hj Hne. rewrite Forall_lookup in Hb1. rewrite Forall_lookup in Hb2.
  apply lookup_app_Some in Hi as [Hi|[Hil Hi]]; apply lookup_app_Some in Hj as [Hj|[Hjl Hj]].
  - by eapply H1.
  - left. specialize (Hb1 _ _ Hi). specialize (Hb2 _ _ Hj). lia.
  - right. specialize (Hb1 _ _ Hj). specialize (Hb2 _ _ Hi). lia.
  - eapply H2; [exact Hi|exact Hj|lia].
Qed.

Lemma disjoint_take h k ps : disjoint_items h ps -> disjoint_items h (take k ps).
Proof. intros H i j p q [Hi _]%lookup_take_Some [Hj _]%lookup_take_Some. by apply H. Qed.

(** C23: allocation by one backend, while no other works on the slab.  From a state whose
    free list holds non-overlapping items that were handed out before, any number of
    allocations succeeds as long as the chunks up to [C] have room, where the entry of
    chunk [C] lies inside the blocks reserved for the two pointer directories.  The items
    of the free list are handed out first, in order; the others are new, 8-byte aligned,
    each inside one chunk.  All items returned are pairwise disjoint, no item is written
    to, and no directory entry but those of the chunks opened is written. *)
Theorem slab_allocations_disjoint (h : header) (n : nat) (ds l : list Z) (c C : Z) (m : mem sloc) :
  header_ok h -> alloc_ok h m c -> freelist m (m freelist_head) l -> disjoint_items h l -> Forall (fun p => p + itemsz h <= frontier m) l ->
  (C + 3) * 2 ^ address_offset_num_bits h <= 2 ^ 64 -> chunks_off + 8 * C + 8 <= shared_slab_shmem_size -> chunk_local_ptrs_off + 8 * C + 8 <= slab_block_size ->
  Z.of_nat (length ds) <= Z.of_nat (length l) + room h m c C -> c <= C ->
  exists new m', run (allocate_many h (4 + n) ds) m = (Done (take (length ds) l ++ new), m') /\ length new = (length ds - length l)%nat /\
    disjoint_items h (take (length ds) l ++ new) /\
    Forall (fun p => frontier m <= p /\ p mod 8 = 0 /\ p mod 2 ^ address_offset_num_bits h + itemsz h <= chunk_alloc_size h /\ p + itemsz h <= (C + 2) * chunk_alloc_size h) new /\
    freelist m' (m' freelist_head) (drop (length ds) l) /\ (forall a, m' (Word a) = m (Word a)) /\
    (forall j, m' (chunks j) = m (chunks j) \/ (c < j <= C /\ m' (chunks j) ∈ ds)).
Proof.
  intros Hh. rewrite (ho_size h Hh). intros Hok Hl Hdis Hbelow HC _ _ Hroom Hc.
  assert (Hmain : exists new m', run (allocate_many h (4 + n) ds) m = (Done (take (length ds) l ++ new), m') /\ length new = (length ds - length l)%nat /\
    StronglySorted (fun p q => p + itemsz h <= q) new /\
    Forall (fun p => frontier m <= p /\ p mod 8 = 0 /\ p mod 2 ^ address_offset_num_bits h + itemsz h <= 2 ^ address_offset_num_bits h /\ p + itemsz h <= (C + 2) * 2 ^ address_offset_num_bits h) new /\
    freelist m' (m' freelist_head) (drop (length ds) l) /\ (forall a, m' (Word a) = m (Word a)) /\ (forall j, m' (chunks j) = m (chunks j) \/ (c < j <= C /\ m' (chunks j) ∈ ds))).
  { clear Hdis Hbelow. revert m l Hok Hl Hroom. induction ds as [|d ds IH]; intros m l Hok Hl Hroom.
    - exists [], m. repeat split; auto; constructor.
    - destruct l as [|p l].
      + destruct (allocate_fresh h Hh n C HC (d :: ds) m c Hok Hl ltac:(cbn [length] in *; lia)) as (ps & m' & Hrun & Hlen & Hfl & Hs & Hall & Hw & Hdir).
        exists ps, m'. rewrite take_nil, drop_nil. split; [done|]. split; [by rewrite Hlen|]. done.
      + destruct (allocate_pop h n m p l d Hl) as (m1 & Hrun & Hl1 & Hfr).
        assert (Hok1 : alloc_ok h m1 c) by (destruct Hok; by split; rewrite ?Hfr).
        destruct (IH m1 l Hok1 Hl1) as (new & m2 & Hrun2 & Hlen & Hs & Hall & Hfl & Hw & Hdir).
        { unfold room in *. rewrite Hfr by done. cbn [length] in Hroom. lia. }
        exists new, m2. cbn [allocate_many length]. rewrite run_bind, Hrun, run_bind, Hrun2. split; [done|]. split; [cbn [length]; lia|]. split; [done|].
        split; [unfold frontier in *; by rewrite !Hfr in Hall by done|]. split; [done|]. split; [intros a; by rewrite Hw, Hfr|].
        intros j. destruct (Hdir j) as [->|[Hj1 Hj2]]; [left; by rewrite Hfr|right; split; [lia|set_solver]]. }
  destruct Hmain as (new & m' & Hrun & Hlen & Hs & Hall & Hfl & Hw & Hdir). exists new, m'. split; [done|]. split; [done|]. split; [|done].
  apply (disjoint_app h _ _ (frontier m)); [by apply disjoint_take|by apply sorted_disjoint|by apply Forall_take|]. eapply Forall_impl; [exact Hall|]. by intros p [? _].
Qed.

(** A slab with chunk 0 used up and one free item in it. *)
Definition demo_reuse_mem : mem sloc :=
  fun l => match l with unallocated_offset => 64 | new_chunk => 64 | freelist_head => 96 | _ => 0 end.

Lemma slab_allocations_disjoint_witness :
  exists new m', run (allocate_many demo_header 6 [7; 8; 9]) demo_reuse_mem = (Done (96 :: new), m') /\ new = [128; 160].
Proof.
  destruct (slab_allocations_disjoint demo_header 2 [7; 8; 9] [96] 0 7 demo_reuse_mem demo_header_ok) as (new & m' & Hr & _).
  - constructor; vm_compute; repeat split; congruence.
  - vm_compute. repeat split; congruence.
  - intros [|i] [|j] p q; simpl; by rewrite ?lookup_nil.
  - constructor; [vm_compute; congruence|constructor].
  - vm_compute. congruence.
  - vm_compute. congruence.
  - vm_compute. congruence.
  - vm_compute. congruence.
  - lia.
  - exists new, m'. split; [exact Hr|]. vm_compute in Hr. by injection Hr.
Defined.

(** ** Two allocations can return the same item *)

(** A chunk of two items of which one is taken.  Thread 0 starts to allocate;
    thread 1 allocates two items: the first fills the chunk, the second maps the
    next one (chunk 1, at address 128) and takes its first item. *)
Definition aba_config : config sloc (list Z) :=
  ([ allocate_many demo_header 9 [7]; allocate_many demo_header 9 [7; 8] ],
   upd (upd (fun _ => 0) new_chunk 64) unallocated_offset 32).

Definition aba_schedule : list nat :=
  ([0; 0; 0] ++ repeat 1 17 ++ [0])%nat.

(** Shared_slab_allocate_extended pairs a chunk address with an offset read
    separately, and the offset of a later chunk can come to equal the one read
    before: in this interleaving thread 1 was given address 96 and then 128, the
    first item of the next chunk, and thread 0's exchange then succeeds and gives
    it 96 again. *)
Theorem slab_double_allocation :
  fst (exec aba_schedule aba_config) = [Ret [96]; Ret [96; 128]].
Proof. vm_compute. reflexivity. Qed.

(** ** The pointer directories overrun their blocks *)

(** Although SHARED_SLAB_MAX_NUM_CHUNKS entries are meant to fit, the entry of
    chunk_local_ptrs for a chunk lies inside the palloc'd block of the slab object
    exactly for the first 8 chunks, and the entry of the shared chunks directory
    lies inside the shared block exactly for the first 9. *)
Theorem slab_directory_overrun (j : Z) :
  0 <= j ->
  (chunk_local_ptrs_off + 8 * j + 8 <= slab_block_size <-> j < 8) /\
  (chunks_off + 8 * j + 8 <= shared_slab_shmem_size <-> j < 9) /\
  8 < SHARED_SLAB_MAX_NUM_CHUNKS.
Proof.
  intros Hj. unfold chunk_local_ptrs_off, slab_block_size, chunks_off, shared_slab_shmem_size,
    sizeof_shared_slab, sizeof_shared_slab_shared_header, SHARED_SLAB_MAX_NUM_CHUNKS. lia.
Qed.

Lemma slab_directory_overrun_witness :
  ~ (chunk_local_ptrs_off + 8 * 8 + 8 <= slab_block_size).
Proof. intros H. apply (proj1 (slab_directory_overrun 8 ltac:(lia))) in H. lia. Defined.

(** ** A freed pointer waits for its epoch *)

(** The pointers parked in the backend's lists. *)
Definition pending (ls : list dealloc) : list Z := ls ≫= dl_pointers.

(** Lists before the last are stamped and non-empty; the last one is open. *)
Fixpoint lists_ok (ls : list dealloc) : Prop :=
  match ls with
  | [] => True
  | [d] => dl_epoch d = InvalidEpoch /\ dl_size d <= dl_capacity d /\ 0 < dl_capacity d
  | d :: rest =>
      (dl_epoch d <> InvalidEpoch /\ dl_pointers d <> [] /\ 0 < dl_capacity d) /\ lists_ok rest
  end.

(** All lists stamped, as during a reclamation. *)
Definition stamped (ls : list dealloc) : Prop :=
  Forall (fun d => dl_epoch d <> InvalidEpoch /\ dl_pointers d <> [] /\ 0 < dl_capacity d) ls.

(** Alone, a wait for an epoch that is not safe never ends. *)
Lemma wait_run f e m : EpochPreceedsOrEqualsTo e (m SafeEpoch) = false -> run (epoch_wait_until_safe f e) m = (Failed OutOfFuel, m).
Proof.
  intros He. induction f as [|f IH]; cbn [epoch_wait_until_safe]; [done|]. unfold epoch_get_safe_epoch. cbn [pbind run].
  unfold EpochPreceeds at 1. rewrite He. exact IH.
Qed.

(** The last pointers of the lists. *)
Definition tails (ls : list dealloc) : list Z := omap (fun d => last (dl_pointers d)) ls.

(** Reclaiming a list puts its last pointer on the free list. *)
Lemma reclaim_first_free fuel d m tail l :
  last (dl_pointers d) = Some tail -> (0 < fuel)%nat -> tail <> SHARED_SLAB_NULL -> freelist m (m freelist_head) l -> (forall p, p ∈ dl_pointers d -> p ∉ l) ->
  exists m', run (shared_slab_reclaim_first_dealloc_list fuel d) m = (Done (mk_dealloc InvalidEpoch (dl_capacity d) []), m') /\
    freelist m' (m' freelist_head) (tail :: l) /\ (forall a, m' (Ep a) = m (Ep a)).
Proof.
  intros Hlast Hf Htail Hl Hdisj. destruct (reclaim_first_run fuel d m tail Hlast Hf) as (m' & Hr & Hh & Ht & Hfr).
  exists m'. split; [done|]. split; [|intros a; by apply Hfr]. split; [done|]. split; [done|]. rewrite Ht. eapply freelist_frame; [|exact Hl].
  intros p Hp. apply Hfr; [done|]. intros q Hq [= ->]. by apply (Hdisj q).
Qed.

(** The loop reclaims the lists up to the first one whose epoch is not safe; there it stops,
    or waits.  Of each list reclaimed the last pointer goes to the free list. *)
Lemma reclaim_loop_run fuel wait ls : forall m l, (0 < fuel)%nat -> stamped ls -> ls <> [] ->
  freelist m (m freelist_head) l -> NoDup (pending ls) -> (forall p, p ∈ pending ls -> p <> SHARED_SLAB_NULL /\ p ∉ l) ->
  exists dropped rest m', ls = dropped ++ rest /\ Forall (fun d => EpochPreceedsOrEqualsTo (dl_epoch d) (m (Ep SafeEpoch)) = true) dropped /\
    freelist m' (m' freelist_head) (reverse (tails dropped) ++ l) /\ (forall a, m' (Ep a) = m (Ep a)) /\
    match rest with
    | [] => exists d, last ls = Some d /\ run (reclaim_loop fuel (m (Ep SafeEpoch)) wait ls) m = (Done [mk_dealloc InvalidEpoch (dl_capacity d) []], m')
    | d :: _ => EpochPreceedsOrEqualsTo (dl_epoch d) (m (Ep SafeEpoch)) = false /\
        run (reclaim_loop fuel (m (Ep SafeEpoch)) wait ls) m = (if wait then Failed OutOfFuel else Done rest, m')
    end.
Proof.
  induction ls as [|d ls IH]; intros m l Hf Hst Hne Hl Hnd Hp; [done|]. apply list.Forall_cons in Hst as [(Hep & Hdne & Hcap) Hst].
  cbn [reclaim_loop]. destruct (Z.eqb_spec (dl_epoch d) InvalidEpoch) as [e|_]; [by destruct (Hep e)|].
  destruct (EpochPreceedsOrEqualsTo (dl_epoch d) (m (Ep SafeEpoch))) eqn:Hle; cbn [negb].
  - destruct (last (dl_pointers d)) as [tail|] eqn:Htail; [|by apply last_None in Htail].
    pose proof (last_Some_elem_of _ _ Htail) as Htl. unfold pending in Hnd, Hp. rewrite bind_cons in Hnd, Hp. apply NoDup_app in Hnd as (_ & Hnd1 & Hnd2).
    destruct (reclaim_first_free fuel d m tail l Htail Hf) as (m1 & Hr1 & Hl1 & Hep1); [apply Hp; set_solver|done|intros p Hpd; apply Hp; set_solver|].
    rewrite run_bind, Hr1. destruct ls as [|d2 ls].
    + exists [d], [], m1. split; [done|]. split; [by constructor|]. unfold tails. cbn [omap list_omap]. rewrite Htail. split; [done|]. split; [done|]. by exists d.
    + destruct (IH m1 (tail :: l) Hf Hst ltac:(done) Hl1 Hnd2) as (dropped & rest & m' & Heq & Hsafe & Hl' & Hep' & Hend).
      { intros p Hpp. split; [apply Hp; set_solver|]. apply list.not_elem_of_cons. split; [|apply Hp; set_solver]. intros ->. by apply (Hnd1 tail). }
      rewrite Hep1 in Hsafe, Hend. exists (d :: dropped), rest, m'. split; [by rewrite Heq|]. split; [by constructor|].
      split; [unfold tails; cbn [omap list_omap]; rewrite Htail, reverse_cons, <- app_assoc; exact Hl'|]. split; [intros a; by rewrite Hep', Hep1|]. exact Hend.
  - destruct wait; [|by exists [], (d :: ls), m]. rewrite run_bind.
    destruct (run_plift Ep _ (epoch_wait_until_safe fuel (dl_epoch d)) m (fun l => m (Ep l))) as (H1 & H2 & H3); [done|]. rewrite wait_run in H1, H2 by done. cbn [fst snd] in H1, H2.
    destruct (run (plift Ep (epoch_wait_until_safe fuel (dl_epoch d))) m) as [r m1]. cbn [fst snd] in *. subst r. exists [], (d :: ls), m1.
    split; [done|]. split; [constructor|]. split; [|done]. rewrite H3 by done. eapply freelist_frame; [|exact Hl]. intros p _. by apply H3.
Qed.

(** An epoch operation inside the slab's memory. *)
Lemma lift_run {A} (p : prog eloc A) (m : mem sloc) r m' :
  run (plift Ep p) m = (r, m') ->
  exists m1, run p (fun l => m (Ep l)) = (r, m1) /\ forall l, m' (Ep l) = m1 l.
Proof.
  intros Hr. destruct (run_plift Ep _ p m (fun l => m (Ep l))) as (H1 & H2 & _); [done|].
  rewrite Hr in *. destruct (run p _) as [r1 m1]. simpl in *. subst. eauto.
Qed.

Lemma mem_inv_ext N m m' : (forall l, m l = m' l) -> mem_inv N m -> mem_inv N m'.
Proof.
  intros He [Hs Hslot Hact]. rewrite !He in Hs. constructor; [done|..]; intros i Hi;
    rewrite <- !He; auto.
Qed.

(** What is not an epoch word is left alone by an epoch operation. *)
Lemma lift_frame {A} (p : prog eloc A) (m : mem sloc) l : freelist m (m freelist_head) l ->
  freelist (snd (run (plift Ep p) m)) (snd (run (plift Ep p) m) freelist_head) l.
Proof.
  destruct (run_plift Ep _ p m (fun l => m (Ep l))) as (_ & _ & H3); [done|]. intros Hl. rewrite H3 by done. eapply freelist_frame; [|exact Hl]. intros q _. by apply H3.
Qed.

(** What shared_slab_reclaim_internal does to the lists [ls] and the free list [l]. *)
Definition reclaimed (wait : bool) (ls : list dealloc) (l : list Z) (r : outcome (list dealloc)) (m' : mem sloc) : Prop :=
  exists dropped rest, ls = dropped ++ rest /\ Forall (fun d => EpochPreceedsOrEqualsTo (dl_epoch d) (m' (Ep SafeEpoch)) = true) dropped /\
    freelist m' (m' freelist_head) (reverse (tails dropped) ++ l) /\
    match rest with
    | [] => exists d, last ls = Some d /\ r = Done [mk_dealloc InvalidEpoch (dl_capacity d) []]
    | d :: _ => EpochPreceedsOrEqualsTo (dl_epoch d) (m' (Ep SafeEpoch)) = false /\ r = (if wait then Failed OutOfFuel else Done rest)
    end.

Lemma reclaim_internal_run N fuel wait ls (m : mem sloc) l :
  (0 < fuel)%nat -> stamped ls -> ls <> [] -> mem_inv N (fun l => m (Ep l)) -> m (Ep GlobalEpoch) < 2 ^ 62 - 1 ->
  freelist m (m freelist_head) l -> NoDup (pending ls) -> (forall p, p ∈ pending ls -> p <> SHARED_SLAB_NULL /\ p ∉ l) ->
  exists r m', run (shared_slab_reclaim_internal N fuel ls wait) m = (r, m') /\ reclaimed wait ls l r m' /\ mem_inv N (fun l => m' (Ep l)).
Proof.
  intros Hf Hst Hne Hinv HG Hl Hnd Hp. unfold shared_slab_reclaim_internal. rewrite run_bind. pose proof (lift_frame (epoch_refresh_safe_epoch N) m l Hl) as Hl1.
  destruct (run (plift Ep (epoch_refresh_safe_epoch N)) m) as [r m1] eqn:Hr. cbn [snd] in Hl1. apply lift_run in Hr as (m2 & Hr2 & Heq).
  destruct (refresh_safe_keeps N _ _ _ Hinv HG Hr2) as (Hinv2 & _ & ->). rewrite <- Heq.
  destruct (reclaim_loop_run fuel wait ls m1 l Hf Hst Hne Hl1 Hnd Hp) as (dropped & rest & m' & Hls & Hsafe & Hfree & Hep & Hend).
  assert (Hinv' : mem_inv N (fun l => m' (Ep l))) by (eapply mem_inv_ext; [|exact Hinv2]; intros a; by rewrite Hep, Heq).
  rewrite <- Hep in Hsafe. destruct rest as [|d rest].
  - destruct Hend as (d & Hd & ->). do 2 eexists. split; [done|]. split; [|done]. exists dropped, []. split; [done|]. split; [done|]. split; [done|]. by exists d.
  - destruct Hend as (Hd & ->). do 2 eexists. split; [done|]. split; [|done]. exists dropped, (d :: rest). rewrite <- Hep in Hd. done.
Qed.

(** The last list: removing, stamping and filling it. *)
Lemma upd_last_app f ls d : upd_last f (ls ++ [d]) = ls ++ [f d].
Proof.
  induction ls as [|a ls IH]; [done|].
  rewrite <- !app_comm_cons, <- IH. by destruct ls.
Qed.

Lemma lists_ok_app ls d :
  lists_ok (ls ++ [d]) <->
  stamped ls /\ dl_epoch d = InvalidEpoch /\ dl_size d <= dl_capacity d /\ 0 < dl_capacity d.
Proof.
  unfold stamped. induction ls as [|a ls IH]; simpl; [naive_solver|].
  rewrite list.Forall_cons. destruct (ls ++ [d]) as [|b rest] eqn:E; [by destruct ls|].
  rewrite IH. tauto.
Qed.

Lemma pending_app ls ls' : pending (ls ++ ls') = pending ls ++ pending ls'.
Proof. apply bind_app. Qed.

(** A full list is stamped with a new epoch, then the lists whose epoch is safe are
    reclaimed. *)
Lemma stamp_and_reclaim N fuel st wait pre d (m : mem sloc) l :
  (0 < fuel)%nat -> lists_ok (pre ++ [d]) -> dl_size d = dl_capacity d -> mem_inv N (fun l => m (Ep l)) -> m (Ep GlobalEpoch) < 2 ^ 62 - 2 ->
  freelist m (m freelist_head) l -> NoDup (pending (pre ++ [d])) -> (forall p, p ∈ pending (pre ++ [d]) -> p <> SHARED_SLAB_NULL /\ p ∉ l) ->
  let e := m (Ep GlobalEpoch) in let ls := pre ++ [set_epoch e d] in
  stamped ls /\ exists m1 r m', run (plift Ep (epoch_bump fuel st)) m = (Done e, m1) /\ run (shared_slab_reclaim_internal N fuel ls wait) m1 = (r, m') /\
    reclaimed wait ls l r m' /\ mem_inv N (fun l => m' (Ep l)).
Proof.
  intros Hf Hok Hfull Hinv HG Hl Hnd Hp e ls. apply lists_ok_app in Hok as (Hpre & Hinvl & Hsz & Hcapl). pose proof (lift_frame (epoch_bump fuel st) m l Hl) as Hl1.
  destruct (run (plift Ep (epoch_bump fuel st)) m) as [r m1] eqn:Hb. cbn [snd] in Hl1. apply lift_run in Hb as (m2 & Hb & Heq).
  destruct (epoch_bump_keeps N fuel _ st _ _ Hinv ltac:(destruct Hinv; lia) Hf Hb) as (-> & Hinv2 & HG2 & _).
  assert (He : e <> InvalidEpoch). { unfold e. destruct Hinv as [? _ _]. change InvalidEpoch with (2 ^ 64 - 1). lia. }
  assert (Hst : stamped ls).
  { apply Forall_app. split; [done|]. constructor; [|constructor]. split; [done|]. split; [|done]. intros Hnil. unfold dl_size in Hfull. cbn [set_epoch dl_pointers] in Hnil. rewrite Hnil in Hfull. simpl in Hfull. lia. }
  split; [done|]. assert (Hpend : pending ls = pending (pre ++ [d])) by (unfold ls; by rewrite !pending_app).
  destruct (reclaim_internal_run N fuel wait ls m1 l Hf Hst) as (r & m' & Hr & Hrec & Hinv').
  - unfold ls. by destruct pre.
  - by eapply mem_inv_ext; [|exact Hinv2].
  - rewrite Heq. lia.
  - done.
  - by rewrite Hpend.
  - by rewrite Hpend.
  - by exists m1, r, m'.
Qed.

(** The list that shared_slab_free opens. *)
Definition fresh_list (cap ptr : Z) : dealloc := mk_dealloc InvalidEpoch cap [ptr].

(** The last list of the backend is full. *)
Definition last_full (ls : list dealloc) : bool := match last ls with Some d => dl_size d =? dl_capacity d | None => false end.

(** C35: the deallocation protocol, one backend at a time.  While the last list of the
    backend has room, shared_slab_free adds the pointer to it (or to a first list) and
    touches no shared memory.  When it is full, it is stamped with the epoch that the bump
    returned, and exactly the longest prefix of the lists whose stamps precede or equal the
    safe epoch is reclaimed; of every list reclaimed the last pointer alone comes on the
    free list.  The remaining lists keep their stamps and pointers, and the pointer goes to
    a new list behind them, or to the emptied last list.  In the mode without waiting the
    call always returns; in the other it does not return while a list is not safe.  The
    lists stay well formed. *)
Theorem slab_free_waits_for_epoch (N : Z) (fuel : nat) (st : epoch_local) (s : slab) (ptr : Z) (m : mem sloc) (l : list Z) :
  (0 < fuel)%nat -> lists_ok (dealloc_lists s) -> 0 < dealloc_list_capacity s -> mem_inv N (fun l => m (Ep l)) -> m (Ep GlobalEpoch) < 2 ^ 62 - 2 ->
  freelist m (m freelist_head) l -> NoDup (pending (dealloc_lists s)) -> (forall p, p ∈ pending (dealloc_lists s) -> p <> SHARED_SLAB_NULL /\ p ∉ l) ->
  exists r m', run (shared_slab_free N fuel st s ptr) m = (r, m') /\
    (forall s', r = Done s' -> lists_ok (dealloc_lists s') /\ dealloc_nowait s' = dealloc_nowait s /\ dealloc_list_capacity s' = dealloc_list_capacity s) /\
    if last_full (dealloc_lists s) then
      mem_inv N (fun l => m' (Ep l)) /\
      exists dropped rest, upd_last (set_epoch (m (Ep GlobalEpoch))) (dealloc_lists s) = dropped ++ rest /\
        Forall (fun d => EpochPreceedsOrEqualsTo (dl_epoch d) (m' (Ep SafeEpoch)) = true) dropped /\
        freelist m' (m' freelist_head) (reverse (tails dropped) ++ l) /\
        match rest with
        | [] => exists s' cap, r = Done s' /\ dealloc_lists s' = [fresh_list cap ptr]
        | d :: _ => EpochPreceedsOrEqualsTo (dl_epoch d) (m' (Ep SafeEpoch)) = false /\
            if dealloc_nowait s then exists s', r = Done s' /\ dealloc_lists s' = rest ++ [fresh_list (dealloc_list_capacity s) ptr] else r = Failed OutOfFuel
        end
    else m' = m /\ exists s', r = Done s' /\
      dealloc_lists s' = match dealloc_lists s with [] => [fresh_list (dealloc_list_capacity s) ptr] | ls => upd_last (add_pointer ptr) ls end.
Proof.
  intros Hf Hok Hcap Hinv HG Hl Hnd Hp. unfold shared_slab_free, last_full. destruct (last (dealloc_lists s)) as [d|] eqn:Hlast.
  2: { apply last_None in Hlast. rewrite Hlast. cbn [run app upd_last]. do 2 eexists. split; [done|]. split; [|split; [done|by eexists]].
    intros s' [= <-]. cbn. unfold dl_size. cbn. split_and!; first [done|lia]. }
  apply last_Some in Hlast as (pre & Hls). rewrite Hls in *. pose proof Hok as (Hpre & Hinvl & Hsz & Hcapl)%lists_ok_app.
  destruct (Z.eqb_spec (dl_size d) (dl_capacity d)) as [Hfull|Hroom].
  - destruct (stamp_and_reclaim N fuel st (negb (dealloc_nowait s)) pre d m l Hf Hok Hfull Hinv HG Hl Hnd Hp) as (Hst & m1 & r & m' & Hb & Hr & (dropped & rest & Hsplit & Hsafe & Hfree & Hend) & Hinv').
    rewrite run_bind, Hb, !upd_last_app, run_bind. cbn zeta in Hr. rewrite Hr. rewrite Hsplit in Hst. unfold stamped in Hst. rewrite Forall_app in Hst. destruct Hst as [_ Hst].
    destruct rest as [|d1 rest].
    + destruct Hend as (d0 & Hd0 & ->). rewrite last_snoc in Hd0. injection Hd0 as <-. cbn [set_epoch dl_capacity]. exists (Done (mk_slab (dealloc_nowait s) (dealloc_list_capacity s) [fresh_list (dl_capacity d) ptr])), m'.
      split; [by destruct (dealloc_nowait s)|]. split; [intros s' [= <-]; cbn; unfold dl_size; cbn; split_and!; first [done|lia]|]. split; [done|]. exists dropped, []. split; [done|]. split; [done|]. split; [done|]. by do 2 eexists.
    + destruct Hend as (Hd & ->). destruct (dealloc_nowait s) eqn:Hnw; cbn [negb].
      * assert (exists pre' d', d1 :: rest = pre' ++ [d']) as (pre' & d' & Hrest) by (destruct (exists_last (l := d1 :: rest) ltac:(done)) as (? & ? & ?); eauto).
        rewrite Hrest in *. rewrite last_snoc. apply Forall_app in Hst as Hst2. destruct Hst2 as [_ [(Hd' & _) _]%list.Forall_cons].
        destruct (Z.eqb_spec (dl_epoch d') InvalidEpoch) as [?|_]; [done|]. cbn [negb run]. rewrite upd_last_app. do 2 eexists. split; [done|]. split.
        { intros s' [= <-]. cbn [dealloc_lists dealloc_nowait dealloc_list_capacity]. split; [|done]. apply lists_ok_app. unfold dl_size. simpl. split; [done|]. lia. }
        split; [done|]. exists dropped, (d1 :: rest). rewrite Hrest. split; [done|]. split; [done|]. split; [done|]. rewrite <- Hrest. split; [done|]. rewrite Hrest. by eexists.
      * do 2 eexists. split; [done|]. split; [done|]. split; [done|]. by exists dropped, (d1 :: rest).
  - cbn [run]. rewrite upd_last_app. do 2 eexists. split; [done|]. split.
    + intros s' [= <-]. cbn [dealloc_lists dealloc_nowait dealloc_list_capacity]. split; [|done]. apply lists_ok_app. unfold dl_size in *. simpl. rewrite length_app. simpl. split; [done|]. split; [done|]. split; lia.
    + split; [done|]. eexists. split; [done|]. cbn [dealloc_lists]. rewrite <- upd_last_app. by destruct pre.
Qed.

(** A backend in slot 0 at epoch 1, freeing into a full list of one pointer. *)
Definition demo_free_slab : slab := mk_slab true 1 [mk_dealloc InvalidEpoch 1 [64]].
Definition demo_epoch_mem : mem sloc :=
  fun l => match l with
           | Ep (LocalEpochs i) => if i =? 0 then 1 else EpochEntryNotInUseMask
           | Ep GlobalEpoch => 1
           | _ => 0
           end.

Lemma slab_free_waits_for_epoch_witness :
  exists s' m', run (shared_slab_free 2 3 (mk_local 0 0) demo_free_slab 96) demo_epoch_mem = (Done s', m') /\
    dealloc_lists s' = [mk_dealloc InvalidEpoch 1 [96]] /\ freelist m' (m' freelist_head) [64].
Proof.
  destruct (slab_free_waits_for_epoch 2 3 (mk_local 0 0) demo_free_slab 96 demo_epoch_mem []) as (r & m' & Hr & _ & H).
  - lia.
  - vm_compute. repeat split; congruence.
  - vm_compute. congruence.
  - constructor; [vm_compute; split; congruence|..]; intros i Hi;
      assert (Hi' : i = 0 \/ i = 1) by lia; destruct Hi' as [->| ->]; vm_compute.
    all: try (right; split; congruence); try (left; congruence); congruence.
  - vm_compute. congruence.
  - done.
  - vm_compute. repeat constructor. by intros ?%elem_of_nil.
  - vm_compute pending. intros p ->%list_elem_of_singleton. split; [done|]. by intros ?%elem_of_nil.
  - destruct r as [s'|e]; [|exfalso; vm_compute in Hr; congruence]. exists s', m'. split; [exact Hr|]. vm_compute in Hr. injection Hr as <- <-.
    split; [done|]. vm_compute. repeat split; congruence.
Defined.

End Slab.
