(* ===== verification/LockfreeHtab.v ===== *)
(** * The lock-free hash table (utils/lockfree_htab.h, utils/hash/lockfree_htab.c)

    Each bucket is a linked list of elements sorted by key.  Deleting an element
    first marks (bit 0) its next link, then unlinks it; an inserter waits for a
    marked element to disappear.

    An element is four words of a slab item: key, value, next and padding.
    lockfree_htab_find, the one routine behind find, enter and remove, is
    translated with its three exits and both retry labels; dereferencing a NULL
    or misaligned element pointer is the error [BadPointer].

    The element allocator is the parameter of section [Find]; the laws that
    insertion needs of it are the class [NodeAlloc]. *)

From stdpp Require Import base numbers option sorting sets list.
From S2P Require Import Prelude Shmem Epoch SharedSlab.

Module Htab.
Import Slab.

Inductive hloc := Bucket (i : Z) | Shared (l : sloc).

#[export] Instance hloc_eq_dec : EqDecision hloc.
Proof. solve_decision. Defined.

(** ** Pointers with a mark in bit 0 *)

Definition LFHTAB_NULL : Z := SHARED_SLAB_NULL.
Definition lfhtab_ptr_is_marked (ptr : Z) : bool := negb (Z.land ptr 1 =? 0).
Definition lfhtab_ptr_mark (ptr : Z) : Z := Z.lxor ptr 1.
Definition lfhtab_ptr_unmark (ptr : Z) : Z := Z.lxor ptr 1.
Definition lfhtab_ptr_get_unmarked (ptr : Z) : Z := Z.land ptr (u64 (Z.lnot 1)).

(** struct lfhtab_elem *)
Definition elem_key (p : Z) : hloc := Shared (Word p).
Definition elem_value (p : Z) : hloc := Shared (Word (p + 8)).
Definition elem_next (p : Z) : hloc := Shared (Word (p + 16)).
Definition lockfree_htab_get_elem_size : Z := 32.

(** lfhtab_rawptr: what makes an address usable as an element. *)
Definition rawptr_ok (p : Z) : bool := negb (p =? LFHTAB_NULL) && (p mod 8 =? 0).

Record lfhtab_header := mk_hheader {
  hashval_mask : Z;
  has_sentinel_value : bool;
  sentinel_value : Z
}.

Definition lockfree_htab_get_hashval_mask (num_buckets : Z) : Z :=
  let num_buckets := if (2 ^ 32 - 1) / 2 <? num_buckets then (2 ^ 32 - 1) / 2 else num_buckets in
  u32 (u32 (Z.shiftl 1 (my_log2 num_buckets)) - 1).

Definition lockfree_htab_get_num_buckets (h : lfhtab_header) : Z := u32 (hashval_mask h + 1).

(** The header set by lockfree_htab_init; the buckets are zeroed by memset. *)
Definition lockfree_htab_init (num_buckets : Z) (has_sentinel : bool) (sentinel : Z)
    (m : mem hloc) : lfhtab_header * mem hloc :=
  let n := u32 (lockfree_htab_get_hashval_mask num_buckets + 1) in
  (mk_hheader (u32 (n - 1)) has_sentinel (if has_sentinel then sentinel else 0),
   fun l => match l with
            | Bucket i => if (0 <=? i) && (i <? n) then LFHTAB_NULL else m l
            | _ => m l
            end).

(** ** Hashing of 64-bit keys *)

Definition rot (x k : Z) : Z := Z.lor (u32 (Z.shiftl x k)) (Z.shiftr x (32 - k)).

(** One "x ^= y; x -= rot(y, k)" of the final() macro. *)
Definition final_step (x y k : Z) : Z := u32 (Z.lxor x y - rot y k).

Definition hash_bytes_uint32 (k : Z) : Z :=
  let i := u32 (0x9e3779b9 + 4 + 3923095) in
  let a := u32 (i + k) in
  let c := final_step i i 14 in
  let a := final_step a c 11 in
  let b := final_step i a 25 in
  let c := final_step c b 16 in
  let a := final_step a c 4 in
  let b := final_step b a 14 in
  final_step c b 24.

Definition hash_combine (a b : Z) : Z :=
  Z.lxor a (u32 (b + 0x9e3779b9 + u32 (Z.shiftl a 6) + Z.shiftr a 2)).

Definition lockfree_htab_hash_uint64 (key : Z) : Z :=
  hash_combine (hash_bytes_uint32 (u32 key)) (hash_bytes_uint32 (u32 (Z.shiftr key 32))).

(** ** lockfree_htab_find *)

Inductive hashaction := HASH_FIND | HASH_ENTER | HASH_REMOVE.

(** What the call gives back: an element (its value field is the pointer
    returned), nothing, or "removed" with the old value. *)
Inductive found := Found (p : Z) | NotFound | Removed (old_val : Z).

(** Where the search loop stopped. *)
Record position := mk_pos {
  left_node_next_ptr : hloc;
  left_node_next : Z;
  cur : Z;
  cur_key : Z;
  next : Z
}.

Section Find.
Context {MS : Type} (alloc0 : MS -> prog hloc (MS * Z)) (free_node : MS -> Z -> prog hloc MS).
Context (h : lfhtab_header).

(** The backend's lockfree_htab object. *)
Record lfhtab := mk_lfhtab { cached_new_node : Z; mcxt : MS }.

(** The search loop entered at try_again_fastpath. *)
Fixpoint search (fuel : nat) (action : hashaction) (key : Z)
    (lptr : hloc) (lnext cur0 next0 : Z) : prog hloc position :=
  if cur0 =? LFHTAB_NULL then Ret (mk_pos lptr lnext cur0 0 next0)
  else if negb (rawptr_ok cur0) then Err BadPointer
  else
    match fuel with
    | O => Err OutOfFuel
    | S n =>
        Read (elem_next cur0) (fun nx =>
        Read (elem_key cur0) (fun k =>
        let stop := (key <=? k) &&
          match action with
          | HASH_FIND | HASH_ENTER => true
          | HASH_REMOVE => negb (lfhtab_ptr_is_marked nx)
          end in
        if stop then Ret (mk_pos lptr lnext cur0 k nx)
        else if lfhtab_ptr_is_marked nx
        then search n action key lptr lnext (lfhtab_ptr_unmark nx) nx
        else search n action key (elem_next cur0) nx nx nx))
    end.

(** try_again: start from the bucket head, whose link is never marked. *)
Definition search_bucket (fuel : nat) (action : hashaction) (key hashval : Z) : prog hloc position :=
  Read (Bucket hashval) (fun nx => search fuel action key (Bucket hashval) nx nx nx).

(** lockfree_htab_free_nodes *)
Fixpoint free_nodes_from (fuel : nat) (ms : MS) (b e : Z) : prog hloc MS :=
  if b =? e then Ret ms
  else if negb (rawptr_ok b) then Err BadPointer
  else
    match fuel with
    | O => Err OutOfFuel
    | S n => Read (elem_next b) (fun nx =>
             let* ms' := free_node ms b in
             free_nodes_from n ms' (lfhtab_ptr_unmark nx) e)
    end.

Definition lockfree_htab_free_nodes (fuel : nat) (ms : MS) (b e : Z) : prog hloc MS :=
  if b =? LFHTAB_NULL then Ret ms else free_nodes_from fuel ms (lfhtab_ptr_unmark b) e.

(** The test "not the sentinel" of HASH_FIND and HASH_ENTER: the source reads the
    element's key field here. *)
Definition not_sentinel (p : Z) (k : bool -> prog hloc (lfhtab * found)) : prog hloc (lfhtab * found) :=
  if negb (has_sentinel_value h) then k true
  else Read (elem_key p) (fun v => k (negb (v =? sentinel_value h))).

(** while (!marked(next)) CAS(&cur->next, &next, mark(next)) *)
Fixpoint mark_next (fuel : nat) (p nx : Z) : prog hloc Z :=
  if lfhtab_ptr_is_marked nx then Ret nx
  else
    match fuel with
    | O => Err OutOfFuel
    | S n => CAS (elem_next p) nx (lfhtab_ptr_mark nx) (fun ok seen =>
               if ok then Ret nx else mark_next n p seen)
    end.

(** How one attempt at an update ends: with a result, or with the exchange on the
    left link failing having observed a value there. *)
Inductive attempt := Finish (r : lfhtab * found) | Retry (ms : lfhtab) (removed : option Z)
  (lptr : hloc) (seen : Z) | TryAgain.

(** The while loop of HASH_ENTER at position [p], then the insertion. *)
Fixpoint enter_at (fuel : nat) (ht : lfhtab) (key new_node : Z) (p : position) : prog hloc attempt :=
  let insert :=
    Write (elem_next new_node) (cur p) (
    CAS (left_node_next_ptr p) (left_node_next p) new_node (fun ok seen =>
      if ok then Ret (Finish (mk_lfhtab LFHTAB_NULL (mcxt ht), Found new_node))
      else Ret (Retry ht None (left_node_next_ptr p) seen))) in
  if negb (cur p =? LFHTAB_NULL) && (cur_key p =? key) then
    let* t := not_sentinel (cur p) (fun ok =>
      Ret (ht, if negb (lfhtab_ptr_is_marked (next p)) && ok then Found (cur p) else NotFound)) in
    match snd t with
    | Found q => Ret (Finish (mk_lfhtab new_node (mcxt ht), Found q))
    | _ =>
        match fuel with
        | O => Err OutOfFuel
        | S n =>
            Read (left_node_next_ptr p) (fun c =>
            if lfhtab_ptr_is_marked c then Ret TryAgain
            else if negb (rawptr_ok c) then Err BadPointer
            else
              Read (elem_next c) (fun nx =>
              Read (elem_key c) (fun k =>
                enter_at n ht key new_node (mk_pos (left_node_next_ptr p) c c k nx))))
        end
    end
  else insert.

(** The end of HASH_REMOVE, the element at [p] being the one to delete: mark it,
    unlink it, free what was unlinked. *)
Definition delete_at (fuel : nat) (ht : lfhtab) (p : position) (removed_begin removed_end lnext : Z)
    : prog hloc attempt :=
  Read (elem_next (cur p)) (fun nx0 =>
  let* nx := mark_next fuel (cur p) nx0 in
  let nx := lfhtab_ptr_get_unmarked nx in
  CAS (left_node_next_ptr p) lnext nx (fun ok seen =>
    let* ms := lockfree_htab_free_nodes fuel (mcxt ht) removed_begin removed_end in
    Read (elem_value (cur p)) (fun old =>
    if negb ok
    then Ret (Retry (mk_lfhtab (cached_new_node ht) ms) (Some old) (left_node_next_ptr p) seen)
    else
      let* ms' := free_node ms (cur p) in
      Ret (Finish (mk_lfhtab (cached_new_node ht) ms', Removed old))))).

(** One HASH_REMOVE attempt at position [p]; [removed] is the old value once this
    call has marked an element. *)
Definition remove_at (fuel : nat) (ht : lfhtab) (key : Z) (removed : option Z) (p : position)
    : prog hloc attempt :=
  let continue (removed_begin removed_end lnext : Z) : prog hloc attempt :=
    let finish (r : found) : prog hloc attempt :=
      let* ms := lockfree_htab_free_nodes fuel (mcxt ht) removed_begin removed_end in
      Ret (Finish (mk_lfhtab (cached_new_node ht) ms, r)) in
    match removed with
    | Some old => finish (Removed old)
    | None =>
        if (cur p =? LFHTAB_NULL) || negb (cur_key p =? key) then finish NotFound
        else if has_sentinel_value h then
          Read (elem_value (cur p)) (fun v =>
            if negb (v =? sentinel_value h) then finish NotFound
            else delete_at fuel ht p removed_begin removed_end lnext)
        else delete_at fuel ht p removed_begin removed_end lnext
    end in
  if negb (left_node_next p =? cur p) then
    CAS (left_node_next_ptr p) (left_node_next p) (cur p) (fun ok seen =>
      if ok then continue (left_node_next p) (cur p) (cur p)
      else Ret (Retry ht removed (left_node_next_ptr p) seen))
  else continue LFHTAB_NULL LFHTAB_NULL (left_node_next p).

(** The body of lockfree_htab_find from a known position on, with the retries:
    after a failed exchange the search resumes at the left node unless that was
    deleted meanwhile. *)
Fixpoint find_loop (fuel : nat) (ht : lfhtab) (action : hashaction) (key hashval new_node : Z)
    (removed : option Z) (p : position) : prog hloc (lfhtab * found) :=
  match fuel with
  | O => Err OutOfFuel
  | S n =>
      match action with
      | HASH_FIND =>
          if negb (cur p =? LFHTAB_NULL) && (cur_key p =? key) && negb (lfhtab_ptr_is_marked (next p))
          then not_sentinel (cur p) (fun ok => Ret (ht, if ok then Found (cur p) else NotFound))
          else Ret (ht, NotFound)
      | _ =>
          let* a := match action with
                    | HASH_REMOVE => remove_at n ht key removed p
                    | _ => enter_at n ht key new_node p
                    end in
          match a with
          | Finish r => Ret r
          | TryAgain =>
              let* p' := search_bucket n action key hashval in
              find_loop n ht action key hashval new_node removed p'
          | Retry ht' removed' lptr seen =>
              let* p' := (if lfhtab_ptr_is_marked seen
                          then search_bucket n action key hashval
                          else search n action key lptr seen seen seen) in
              find_loop n ht' action key hashval new_node removed' p'
          end
      end
  end.

(** The node HASH_ENTER prepares: the cached one, or a zeroed new one. *)
Definition take_new_node (ht : lfhtab) : prog hloc (lfhtab * Z) :=
  if negb (cached_new_node ht =? LFHTAB_NULL)
  then Ret (mk_lfhtab LFHTAB_NULL (mcxt ht), cached_new_node ht)
  else let* (ms, p) := alloc0 (mcxt ht) in
       Ret (mk_lfhtab LFHTAB_NULL ms, p).

Definition lockfree_htab_find (fuel : nat) (ht : lfhtab) (hashval key : Z) (action : hashaction)
    : prog hloc (lfhtab * found) :=
  let hashval := Z.land hashval (hashval_mask h) in
  match action with
  | HASH_ENTER =>
      let* (ht', new_node) := take_new_node ht in
      Write (elem_key new_node) key (
      Read (elem_value new_node) (fun v =>
      assert* v =? 0;
      let* p := search_bucket fuel action key hashval in
      find_loop fuel ht' action key hashval new_node None p))
  | _ =>
      let* p := search_bucket fuel action key hashval in
      find_loop fuel ht action key hashval LFHTAB_NULL None p
  end.

Definition lockfree_htab_find_u64 (fuel : nat) (ht : lfhtab) (key : Z) (action : hashaction)
    : prog hloc (lfhtab * found) :=
  lockfree_htab_find fuel ht (lockfree_htab_hash_uint64 key) key action.

(** ** Iteration *)

Record iter_status := mk_iter { next_bucket : Z; max_bucket : Z; next_ptr : Z }.

Definition lockfree_htab_iter_init : iter_status := mk_iter 0 (hashval_mask h) LFHTAB_NULL.

(** The scan for the next non-empty bucket. *)
Fixpoint next_nonempty (fuel : nat) (it : iter_status) : prog hloc iter_status :=
  match fuel with
  | O => Err OutOfFuel
  | S n =>
      if next_bucket it <=? max_bucket it then
        Read (Bucket (next_bucket it)) (fun p =>
          let it' := mk_iter (u32 (next_bucket it + 1)) (max_bucket it) p in
          if negb (p =? LFHTAB_NULL) then Ret it' else next_nonempty n it')
      else Ret it
  end.

Definition lockfree_htab_iter_next (fuel : nat) (it : iter_status) : prog hloc (iter_status * option Z) :=
  let return_entry (it : iter_status) : prog hloc (iter_status * option Z) :=
    if negb (rawptr_ok (next_ptr it)) then Err BadPointer
    else Read (elem_next (next_ptr it)) (fun nx =>
           Ret (mk_iter (next_bucket it) (max_bucket it) nx, Some (next_ptr it))) in
  if next_ptr it =? LFHTAB_NULL then
    let* it' := next_nonempty fuel it in
    if next_ptr it' =? LFHTAB_NULL then Ret (it', None) else return_entry it'
  else return_entry it.

Definition lockfree_htab_value_ptr_get_key (p : Z) : prog hloc Z := Read (elem_key p) Ret.

End Find.

(** ** The bucket lists as the sequential state *)

(** The elements (pointer, key) linked from the link value [v], no link marked. *)
Fixpoint chain (m : mem hloc) (v : Z) (l : list (Z * Z)) : Prop :=
  match l with
  | [] => v = LFHTAB_NULL
  | (p, k) :: l' =>
      v = p /\ rawptr_ok p = true /\ m (elem_key p) = k /\ chain m (m (elem_next p)) l'
  end.

(** The part of a list the search passes, and the part it stops at. *)
Fixpoint below (key : Z) (l : list (Z * Z)) : list (Z * Z) :=
  match l with
  | (p, k) :: l' => if k <? key then (p, k) :: below key l' else []
  | [] => []
  end.
Fixpoint above (key : Z) (l : list (Z * Z)) : list (Z * Z) :=
  match l with
  | (p, k) :: l' => if k <? key then above key l' else l
  | [] => []
  end.

(** Looking a key up in, inserting it into and deleting it from a sorted list. *)
Definition lookup_key (key : Z) (l : list (Z * Z)) : option Z :=
  match above key l with
  | (p, k) :: _ => if k =? key then Some p else None
  | [] => None
  end.
Definition insert_key (key p : Z) (l : list (Z * Z)) : list (Z * Z) :=
  below key l ++ (p, key) :: above key l.
Definition delete_key (key : Z) (l : list (Z * Z)) : list (Z * Z) :=
  below key l ++ tail (above key l).

(** The link that points just after the elements [l1]. *)
Definition link_after (lptr : hloc) (l1 : list (Z * Z)) : hloc :=
  match last l1 with Some (p, _) => elem_next p | None => lptr end.

(** Two elements of 32 bytes that do not overlap. *)
Definition apart (p q : Z) : Prop := p + 32 <= q \/ q + 32 <= p.

(** [T b] is bucket [b]'s list: keys strictly increase, every key hashes to its
    bucket, and no two elements overlap. *)
Record table_ok (h : lfhtab_header) (hash : Z -> Z) (m : mem hloc) (T : Z -> list (Z * Z)) : Prop := {
  to_chain : forall b, chain m (m (Bucket b)) (T b);
  to_sorted : forall b, StronglySorted (fun x y => snd x < snd y) (T b);
  to_hash : forall b p k, (p, k) ∈ T b -> Z.land (hash k) (hashval_mask h) = b;
  to_apart : forall b b' p k p' k', (p, k) ∈ T b -> (p', k') ∈ T b' -> (p, k) <> (p', k') -> apart p p'
}.

(** The table as a map from keys to elements. *)
Definition tlookup (h : lfhtab_header) (hash : Z -> Z) (T : Z -> list (Z * Z)) (key : Z) : option Z :=
  lookup_key key (T (Z.land (hash key) (hashval_mask h))).

Definition upd_bucket (T : Z -> list (Z * Z)) (b : Z) (l : list (Z * Z)) : Z -> list (Z * Z) :=
  fun b' => if b =? b' then l else T b'.

(** ** Interfaces to the element allocator *)

(** Allocation: elements come from beyond a frontier, zeroed, and what lies
    before the frontier is left alone. *)
Class NodeAlloc {MS} (alloc0 : MS -> prog hloc (MS * Z)) (inv room : MS -> mem hloc -> Prop)
    (bound : mem hloc -> Z) : Prop := {
  na_run : forall ms m, inv ms m -> room ms m ->
    exists ms' p m', run (alloc0 ms) m = (Done (ms', p), m') /\
      inv ms' m' /\ rawptr_ok p = true /\ bound m <= p /\ p + 32 <= bound m' /\
      m' (elem_value p) = 0 /\ (forall b, m' (Bucket b) = m (Bucket b)) /\
      (forall a, a < bound m -> m' (Shared (Word a)) = m (Shared (Word a)));
  (** The allocator's own state is not in the buckets or the elements. *)
  na_frame : forall ms m m', inv ms m ->
    (forall l, (forall b, l <> Bucket b) -> (forall a, l <> Shared (Word a)) ->
      (forall e, l <> Shared (Ep e)) -> m' l = m l) ->
    inv ms m' /\ bound m' = bound m
}.

(** Freeing: the element is parked; only words of elements parked before may be
    overwritten. *)
Class NodeFree {MS} (free_node : MS -> Z -> prog hloc MS) (inv : MS -> mem hloc -> Prop)
    (parked : MS -> list Z) : Prop := {
  nf_run : forall ms p m, inv ms m ->
    exists ms' m', run (free_node ms p) m = (Done ms', m') /\
      (forall b, m' (Bucket b) = m (Bucket b)) /\
      (forall a, a ∉ parked ms -> m' (Shared (Word a)) = m (Shared (Word a)));
  (** The allocator's own state is not in the buckets or the other elements. *)
  nf_frame : forall ms m m', inv ms m ->
    (forall l, (forall b, l <> Bucket b) -> (forall a, a ∉ parked ms -> l <> Shared (Word a)) -> m' l = m l) ->
    inv ms m'
}.

(** ** Sorted lists *)

Lemma below_above key l : l = below key l ++ above key l.
Proof. induction l as [|[p k] l IH]; simpl; [done|]. case_match; simpl; [by f_equal|done]. Qed.

Lemma below_lt key l : Forall (fun x => snd x < key) (below key l).
Proof. induction l as [|[p k] l IH]; simpl; [done|]. case_match; zbool; by constructor. Qed.

Lemma above_ge key l : StronglySorted (fun x y => snd x < snd y) l ->
  Forall (fun x => key <= snd x) (above key l).
Proof.
  induction 1 as [|[p k] l Hs IH Hall]; simpl; [done|]. case_match; zbool; [done|].
  constructor; [done|]. eapply List.Forall_impl; [|exact Hall]. simpl. lia.
Qed.

Lemma lookup_key_spec key l p : StronglySorted (fun x y => snd x < snd y) l ->
  lookup_key key l = Some p <-> (p, key) ∈ l.
Proof.
  intros Hs. unfold lookup_key. rewrite (below_above key l) at 2.
  pose proof (below_lt key l) as Hb. pose proof (above_ge key l Hs) as Ha.
  assert (Hs' : StronglySorted (fun x y => snd x < snd y) (above key l)).
  { rewrite (below_above key l) in Hs. by apply StronglySorted_app_1_r in Hs. }
  assert (Hnb : (p, key) ∉ below key l).
  { intros Hin. rewrite list.Forall_forall in Hb. apply Hb in Hin. simpl in Hin. lia. }
  rewrite list.elem_of_app. destruct (above key l) as [|[q k] rest].
  - split; [done|]. intros [?|Hin]; [done|]. by apply elem_of_nil in Hin.
  - apply StronglySorted_inv in Hs' as [_ Hgt]. rewrite list.elem_of_cons.
    destruct (Z.eqb_spec k key) as [->|Hne].
    + split; [intros [= ->]; auto|]. intros [?|[[= ->]|Hin]]; [done|done|].
      rewrite list.Forall_forall in Hgt. apply Hgt in Hin. simpl in Hin. lia.
    + split; [done|]. intros [?|[[= -> ->]|Hin]]; [done|done|].
      apply list.Forall_cons in Ha as [Hk _].
      rewrite list.Forall_forall in Hgt. apply Hgt in Hin. simpl in *. lia.
Qed.

Lemma lookup_key_None key l : StronglySorted (fun x y => snd x < snd y) l ->
  lookup_key key l = None <-> forall p, (p, key) ∉ l.
Proof.
  intros Hs. split.
  - intros Hn p Hin. apply (lookup_key_spec key l p Hs) in Hin. congruence.
  - intros Hall. destruct (lookup_key key l) as [p|] eqn:E; [|done].
    apply (lookup_key_spec key l p Hs) in E. by destruct (Hall p).
Qed.

(** Inserting an absent key and deleting a present one keep the list sorted and
    change the membership of that key only. *)
Lemma insert_key_sorted key p l :
  StronglySorted (fun x y => snd x < snd y) l -> lookup_key key l = None ->
  StronglySorted (fun x y => snd x < snd y) (insert_key key p l).
Proof.
  intros Hs Hn. unfold insert_key. pose proof (below_lt key l) as Hb.
  pose proof (above_ge key l Hs) as Ha. rewrite (lookup_key_None key l Hs) in Hn.
  rewrite (below_above key l) in Hs at 1. apply StronglySorted_app in Hs as (Hx & Hs1 & Hs2).
  assert (Hgt : Forall (fun x => key < snd x) (above key l)).
  { rewrite list.Forall_forall in Ha |- *. intros [q k] Hin. specialize (Ha _ Hin). simpl in *.
    destruct (Z.eq_dec k key) as [->|]; [|lia].
    destruct (Hn q). rewrite (below_above key l). apply list.elem_of_app. by right. }
  apply StronglySorted_app. split; [|split; [done|by constructor]].
  intros x y Hxin Hyin. rewrite list.Forall_forall in Hb. specialize (Hb _ Hxin).
  apply list.elem_of_cons in Hyin as [->|Hyin]; [done|]. auto.
Qed.

Lemma elem_of_insert_key key p l x :
  x ∈ insert_key key p l <-> x = (p, key) \/ x ∈ l.
Proof.
  unfold insert_key. rewrite (below_above key l) at 3.
  rewrite !list.elem_of_app, list.elem_of_cons. tauto.
Qed.

Lemma length_insert_key key p l : length (insert_key key p l) = S (length l).
Proof.
  pose proof (f_equal length (below_above key l)) as E. unfold insert_key. rewrite length_app in *. simpl. lia.
Qed.

Lemma delete_key_sorted key l :
  StronglySorted (fun x y => snd x < snd y) l ->
  StronglySorted (fun x y => snd x < snd y) (delete_key key l).
Proof.
  intros Hs. unfold delete_key. rewrite (below_above key l) in Hs at 1.
  apply StronglySorted_app in Hs as (Hx & Hs1 & Hs2).
  destruct (above key l) as [|a rest]; simpl; [by rewrite app_nil_r|].
  apply StronglySorted_inv in Hs2 as [Hs2 _]. apply StronglySorted_app.
  split; [|done]. intros x y Hxin Hyin. apply Hx; [done|]. by right.
Qed.

Lemma elem_of_delete_key key l p x :
  StronglySorted (fun x y => snd x < snd y) l -> lookup_key key l = Some p ->
  x ∈ delete_key key l <-> x ∈ l /\ snd x <> key.
Proof.
  intros Hs Hp. unfold delete_key, lookup_key in *. pose proof (below_lt key l) as Hb.
  rewrite (below_above key l) in Hs at 1. apply StronglySorted_app in Hs as (_ & _ & Hs2).
  rewrite (below_above key l) at 3. destruct (above key l) as [|[q k] rest]; [done|].
  destruct (Z.eqb_spec k key) as [->|]; [|done]. simpl.
  apply StronglySorted_inv in Hs2 as [_ Hgt].
  rewrite !list.elem_of_app, list.elem_of_cons. rewrite list.Forall_forall in Hb, Hgt. split.
  - intros [Hin|Hin]; [specialize (Hb _ Hin)|specialize (Hgt _ Hin)]; simpl in *; split; auto; lia.
  - intros [[Hin|[->|Hin]] Hne]; auto. by destruct Hne.
Qed.

(** ** Running the search on a list without marks *)

Lemma aligned_unmarked p : p mod 8 = 0 -> lfhtab_ptr_is_marked p = false.
Proof.
  intros Hp. unfold lfhtab_ptr_is_marked. change 1 with (2 ^ 1 - 1). rewrite land_mask by lia.
  replace (p mod 2 ^ 1) with 0; [done|]. change (2 ^ 1) with 2. divlia.
Qed.

Lemma get_unmarked_id p : p mod 8 = 0 -> 0 <= p < 2 ^ 64 -> lfhtab_ptr_get_unmarked p = p.
Proof.
  intros Hal Hr. unfold lfhtab_ptr_get_unmarked.
  replace (u64 (Z.lnot 1)) with (Z.land (Z.ones 64) (Z.lnot (2 ^ 1 - 1))) by reflexivity.
  rewrite Z.land_assoc, Z.land_ones, Z.mod_small, land_lnot_mask by lia.
  change (2 ^ 1) with 2. divlia.
Qed.

Lemma rawptr_ok_spec p : rawptr_ok p = true <-> p <> LFHTAB_NULL /\ p mod 8 = 0.
Proof.
  unfold rawptr_ok. destruct (Z.eqb_spec p LFHTAB_NULL), (Z.eqb_spec (p mod 8) 0); simpl; naive_solver.
Qed.

Lemma chain_head m v l : chain m v l ->
  lfhtab_ptr_is_marked v = false /\
  v = match l with (p, _) :: _ => p | [] => LFHTAB_NULL end.
Proof.
  destruct l as [|[p k] l]; simpl; [by intros ->|]. intros (-> & Hp & _).
  apply rawptr_ok_spec in Hp as [_ Hp]. by rewrite aligned_unmarked.
Qed.

Lemma link_after_cons lptr p k l1 : link_after lptr ((p, k) :: l1) = link_after (elem_next p) l1.
Proof. unfold link_after. destruct l1 as [|[q j] l1]; [done|]. rewrite last_cons_cons.
  destruct (last _) as [[??]|] eqn:E; [done|]. by apply last_None in E.
Qed.

(** The search stops at the first element whose key is not below the one sought,
    with the link that leads to it. *)
Lemma search_run fuel action key lptr v m l nx0 :
  chain m v l -> (length l < fuel)%nat ->
  exists pos, run (search fuel action key lptr v v nx0) m = (Done pos, m) /\
    left_node_next_ptr pos = link_after lptr (below key l) /\
    left_node_next pos = cur pos /\
    match above key l with
    | (p, k) :: l2 => cur pos = p /\ cur_key pos = k /\ next pos = m (elem_next p) /\
                      lfhtab_ptr_is_marked (next pos) = false /\ chain m p (above key l)
    | [] => cur pos = LFHTAB_NULL
    end.
Proof.
  revert fuel lptr v nx0. induction l as [|[p k] l IH]; intros fuel lptr v nx0 Hc Hf.
  - simpl in Hc. subst v. destruct fuel as [|n]; [simpl in Hf; lia|]. simpl. eexists. split; [done|]. done.
  - simpl in Hc. destruct Hc as (-> & Hp & Hk & Hc). destruct fuel as [|n]; [simpl in Hf; lia|].
    cbn [search]. rewrite Hp. apply rawptr_ok_spec in Hp as [Hnz Hal].
    destruct (Z.eqb_spec p LFHTAB_NULL) as [e|_]; [by destruct (Hnz e)|]. cbn [negb run].
    rewrite Hk. destruct (chain_head _ _ _ Hc) as [Hum _]. rewrite Hum. simpl below. simpl above.
    destruct (Z.ltb_spec k key) as [Hlt|Hge].
    + destruct (Z.leb_spec key k) as [?|_]; [lia|]. cbn [andb].
      destruct (IH n (elem_next p) (m (elem_next p)) (m (elem_next p)) Hc ltac:(simpl in Hf; lia))
        as (pos & Hr & H1 & H2). exists pos. rewrite link_after_cons. by rewrite Hr.
    + destruct (Z.leb_spec key k) as [_|?]; [|lia]. cbn [negb andb].
      replace (match action with HASH_REMOVE => true | _ => true end) with true by (by destruct action).
      cbn [run]. eexists. split; [done|]. simpl. repeat split; try done.
      by apply rawptr_ok_spec.
Qed.

(** ** Finding *)

Section FindFacts.
Context {MS : Type} (alloc0 : MS -> prog hloc (MS * Z)) (free_node : MS -> Z -> prog hloc MS).
Context (h : lfhtab_header).

Lemma search_bucket_run fuel action key b m l :
  chain m (m (Bucket b)) l -> (length l < fuel)%nat ->
  exists pos, run (search_bucket fuel action key b) m = (Done pos, m) /\
    left_node_next_ptr pos = link_after (Bucket b) (below key l) /\
    left_node_next pos = cur pos /\
    match above key l with
    | (p, k) :: l2 => cur pos = p /\ cur_key pos = k /\ next pos = m (elem_next p) /\
                      lfhtab_ptr_is_marked (next pos) = false /\ chain m p (above key l)
    | [] => cur pos = LFHTAB_NULL
    end.
Proof. intros Hc Hf. unfold search_bucket. cbn [run]. by apply search_run. Qed.

Lemma find_run fuel (ht : lfhtab (MS := MS)) hash m T key :
  table_ok h hash m T ->
  (length (T (Z.land (hash key) (hashval_mask h))) < fuel)%nat ->
  run (lockfree_htab_find alloc0 free_node h fuel ht (hash key) key HASH_FIND) m =
  (Done (ht, match tlookup h hash T key with
             | Some p => if has_sentinel_value h && (key =? sentinel_value h)
                         then NotFound else Found p
             | None => NotFound
             end), m).
Proof.
  intros Hok Hf. unfold lockfree_htab_find, tlookup, lookup_key.
  set (b := Z.land (hash key) (hashval_mask h)) in *.
  destruct (search_bucket_run fuel HASH_FIND key b m (T b) (to_chain _ _ _ _ Hok b) Hf)
    as (pos & Hr & _ & _ & Hpos).
  rewrite run_bind, Hr. destruct fuel as [|n]; [lia|]. cbn [find_loop].
  destruct (above key (T b)) as [|[p k] rest].
  - rewrite Hpos. by rewrite Z.eqb_refl.
  - destruct Hpos as (Hcur & Hk & Hnx & Hum & Hchain). rewrite Hcur, Hk, Hum.
    simpl in Hchain. destruct Hchain as (_ & Hp & Hkey & _). apply rawptr_ok_spec in Hp as [Hnz _].
    destruct (Z.eqb_spec p LFHTAB_NULL) as [e|_]; [by destruct (Hnz e)|]. cbn [negb andb].
    destruct (Z.eqb_spec k key) as [->|]; [|done]. cbn [andb]. unfold not_sentinel.
    destruct (has_sentinel_value h); cbn [negb andb run]; [|done].
    rewrite Hkey. by destruct (key =? sentinel_value h).
Qed.

End FindFacts.

(** ** Changing one link *)

Lemma chain_frame m m' v l :
  (forall p k, (p, k) ∈ l -> m' (elem_key p) = m (elem_key p) /\ m' (elem_next p) = m (elem_next p)) ->
  chain m v l -> chain m' v l.
Proof.
  revert v. induction l as [|[p k] l IH]; intros v Hfr; simpl; [done|].
  intros (-> & Hp & Hk & Hc). destruct (Hfr p k) as [-> ->]; [by left|].
  split; [done|]. split; [done|]. split; [done|]. apply IH; [|done]. intros. eapply Hfr. by right.
Qed.

Lemma chain_app_r m v l1 l2 lptr :
  m lptr = v -> chain m v (l1 ++ l2) -> chain m (m (link_after lptr l1)) l2.
Proof.
  revert v lptr. induction l1 as [|[p k] l1 IH]; intros v lptr <-; simpl; [done|].
  intros (_ & _ & _ & Hc). rewrite link_after_cons. by eapply IH.
Qed.

(** Redirecting the link after [l1] to another list. *)
Lemma chain_splice m m' lptr l1 l2 l2' :
  chain m (m lptr) (l1 ++ l2) -> chain m' (m' (link_after lptr l1)) l2' ->
  NoDup (elem_next ∘ fst <$> l1) -> lptr ∉ (elem_next ∘ fst <$> l1) ->
  (forall p k, (p, k) ∈ l1 -> m' (elem_key p) = m (elem_key p)) ->
  (forall l, l ∈ lptr :: (elem_next ∘ fst <$> l1) -> l <> link_after lptr l1 -> m' l = m l) ->
  chain m' (m' lptr) (l1 ++ l2').
Proof.
  revert lptr. induction l1 as [|[p k] l1 IH]; intros lptr Hc Hc' Hnd Hni Hk Hl; [done|].
  rewrite link_after_cons in *. simpl in *. destruct Hc as (Hv & Hp & Hkey & Hc).
  apply NoDup_cons in Hnd as [Hnp Hnd].
  assert (Hne : lptr <> link_after (elem_next p) l1).
  { unfold link_after. destruct (last l1) as [[q j]|] eqn:E; [|set_solver].
    apply last_Some_elem_of in E. intros ->. apply Hni. right.
    apply list_elem_of_fmap. by exists (q, j). }
  rewrite (Hl lptr), Hv by (done || by left). split; [done|]. split; [done|].
  split; [rewrite (Hk p k) by (by left); done|].
  apply IH; [done|done|done|done|..].
  - intros q j Hq. apply (Hk q j). by right.
  - intros l Hin Hne'. apply Hl; [by right|done].
Qed.

Section TableFacts.
Context (h : lfhtab_header) (hash : Z -> Z).

Lemma table_NoDup m T b l l' :
  table_ok h hash m T -> T b = l ++ l' -> NoDup (elem_next ∘ fst <$> l).
Proof.
  intros Hok Hsub. cut (NoDup (elem_next ∘ fst <$> T b)).
  { rewrite Hsub, fmap_app. intros Hnd. by apply NoDup_app in Hnd as (? & _). }
  pose proof (to_sorted _ _ _ _ Hok b) as Hs.
  assert (Hap : forall p k p' k', (p, k) ∈ T b -> (p', k') ∈ T b -> (p, k) <> (p', k') -> apart p p')
    by (intros; by eapply (to_apart _ _ _ _ Hok)).
  clear -Hs Hap. induction Hs as [|[p k] l Hs IH Hall]; [constructor|]. simpl. constructor.
  - intros Hin. apply list_elem_of_fmap in Hin as ([q j] & Heq & Hin). simpl in Heq.
    rewrite list.Forall_forall in Hall. specialize (Hall _ Hin). simpl in Hall.
    destruct (Hap p k q j) as [?|?]; [by left|by right|intros [= -> ->]; lia|injection Heq; lia..].
  - apply IH. intros. eapply Hap; [by right|by right|done].
Qed.

(** What stays when the words of one new element and one link of bucket [b] are
    written. *)
Lemma table_update m m' T b l2' :
  table_ok h hash m T ->
  (forall b', b' <> b -> m' (Bucket b') = m (Bucket b')) ->
  forall key, let l1 := below key (T b) in let link := link_after (Bucket b) l1 in
  chain m' (m' link) l2' ->
  (forall b' p k, (p, k) ∈ T b' -> m' (elem_key p) = m (elem_key p) /\
     (elem_next p <> link -> m' (elem_next p) = m (elem_next p))) ->
  (Bucket b <> link -> m' (Bucket b) = m (Bucket b)) ->
  forall b', chain m' (m' (Bucket b')) (upd_bucket T b (l1 ++ l2') b').
Proof.
  intros Hok Hbk key l1 link Hc' Hn Hb b'. unfold upd_bucket.
  assert (Hsub : forall x, x ∈ l1 -> x ∈ T b).
  { intros x Hx. rewrite (below_above key (T b)). apply list.elem_of_app. by left. }
  destruct (Z.eqb_spec b b') as [->|Hne].
  - eapply (chain_splice m) with (l2 := above key (T b')); [|exact Hc'|by eapply table_NoDup, below_above| | |].
    + unfold l1. rewrite <- below_above. apply (to_chain _ _ _ _ Hok).
    + intros Hin. by apply list_elem_of_fmap in Hin as (? & ? & _).
    + intros p k Hin. eapply Hn, Hsub, Hin.
    + intros l Hin Hnl. apply list.elem_of_cons in Hin as [->|Hin]; [auto|].
      apply list_elem_of_fmap in Hin as ([p k] & -> & Hin). eapply Hn; [|done].
      by apply Hsub, Hin.
  - rewrite Hbk by done. eapply chain_frame; [|apply (to_chain _ _ _ _ Hok)].
    intros p k Hin. destruct (Hn b' p k Hin) as [Hk Hnx]. split; [done|]. apply Hnx.
    unfold link, link_after. destruct (last l1) as [[q j]|] eqn:E; [|done].
    apply last_Some_elem_of in E. apply Hsub in E.
    assert (Hdiff : (p, k) <> (q, j)).
    { intros [= -> ->]. apply Hne. rewrite <- (to_hash _ _ _ _ Hok b q j E).
      by apply (to_hash _ _ _ _ Hok b' q j). }
    intros [= Heq]. destruct (to_apart _ _ _ _ Hok _ _ _ _ _ _ Hin E Hdiff); lia.
Qed.

End TableFacts.

(** ** Entering *)

Section EnterFacts.
Context {MS : Type} (alloc0 : MS -> prog hloc (MS * Z)) (free_node : MS -> Z -> prog hloc MS).
Context (h : lfhtab_header) (hash : Z -> Z).

(** An element that is not part of the table. *)
Definition fresh_node (T : Z -> list (Z * Z)) (p : Z) : Prop :=
  rawptr_ok p = true /\ forall b q k, (q, k) ∈ T b -> apart p q.

(** The value word of an element is not the link of another one. *)
Lemma value_not_next m T p q r : table_ok h hash m T -> fresh_node T p ->
  q = p \/ (exists b k, (q, k) ∈ T b) -> r = p \/ (exists b k, (r, k) ∈ T b) -> elem_value q <> elem_next r.
Proof.
  intros Hok [_ Hap] Hq Hr [= Heq]. destruct Hq as [->|(b1 & k1 & Hq)], Hr as [->|(b2 & k2 & Hr)]; try lia.
  - specialize (Hap _ _ _ Hr). unfold apart in Hap. lia.
  - specialize (Hap _ _ _ Hq). unfold apart in Hap. lia.
  - destruct (decide ((q, k1) = (r, k2))) as [[= -> ->]|Hne]; [lia|].
    destruct (to_apart _ _ _ _ Hok _ _ _ _ _ _ Hq Hr Hne); lia.
Qed.

Lemma table_ok_write_fresh m T p i v :
  table_ok h hash m T -> fresh_node T p -> 0 <= i < 32 ->
  table_ok h hash (upd m (Shared (Word (p + i))) v) T.
Proof.
  intros Hok [_ Hp] Hi. constructor; try apply Hok.
  intros b. rewrite upd_ne by done. eapply chain_frame; [|apply (to_chain _ _ _ _ Hok)].
  intros q k Hin. specialize (Hp b q k Hin). unfold apart in Hp.
  split; apply upd_ne; intros [=]; lia.
Qed.

(** The link after a prefix of a bucket is the bucket head or belongs to one of
    its elements. *)
Lemma link_after_cases b key l :
  link_after (Bucket b) (below key l) = Bucket b \/
  exists q j, (q, j) ∈ l /\ link_after (Bucket b) (below key l) = elem_next q.
Proof.
  unfold link_after. destruct (last (below key l)) as [[q j]|] eqn:E; [right|by left].
  apply last_Some_elem_of in E. exists q, j. split; [|done].
  rewrite (below_above key l). apply list.elem_of_app. by left.
Qed.

Lemma insert_apart m T b key p : table_ok h hash m T -> (forall b' q k, (q, k) ∈ T b' -> apart p q) ->
  forall b1 b2 q k q' k', (q, k) ∈ upd_bucket T b (insert_key key p (T b)) b1 ->
    (q', k') ∈ upd_bucket T b (insert_key key p (T b)) b2 -> (q, k) <> (q', k') -> apart q q'.
Proof.
  intros Hok Hap.
  assert (Hin : forall b' x, x ∈ upd_bucket T b (insert_key key p (T b)) b' -> x = (p, key) \/ exists b'', x ∈ T b'').
  { intros b' x. unfold upd_bucket. destruct (Z.eqb_spec b b') as [->|]; [|by eauto].
    rewrite elem_of_insert_key. intros [?|?]; eauto. }
  intros b1 b2 q k q' k' H1 H2 Hne.
  destruct (Hin _ _ H1) as [[= -> ->]|[b1' H1']], (Hin _ _ H2) as [[= -> ->]|[b2' H2']].
  - done.
  - by eapply Hap.
  - specialize (Hap _ _ _ H1'). unfold apart in *. lia.
  - by eapply (to_apart _ _ _ _ Hok).
Qed.

(** The link behind the smaller keys is no link of the larger ones. *)
Lemma link_not_above m T b key q j : table_ok h hash m T -> (q, j) ∈ above key (T b) ->
  elem_next q <> link_after (Bucket b) (below key (T b)).
Proof.
  intros Hok Hin. unfold link_after. destruct (last _) as [[q' j']|] eqn:E; [|done]. apply last_Some_elem_of in E.
  assert (Hin' : (q, j) ∈ T b) by (rewrite (below_above key (T b)); apply list.elem_of_app; by right).
  assert (HinE : (q', j') ∈ T b) by (rewrite (below_above key (T b)); apply list.elem_of_app; by left).
  assert (Hne : (q, j) <> (q', j')).
  { intros [= -> ->]. pose proof (below_lt key (T b)) as Hb.
    pose proof (above_ge key (T b) (to_sorted _ _ _ _ Hok b)) as Ha.
    rewrite list.Forall_forall in Hb, Ha. specialize (Hb _ E). specialize (Ha _ Hin). lia. }
  intros [=]. destruct (to_apart _ _ _ _ Hok _ _ _ _ _ _ Hin' HinE Hne); lia.
Qed.

(** Linking a fresh element in at the place the search found. *)
Lemma table_insert m T key p v :
  let b := Z.land (hash key) (hashval_mask h) in
  let link := link_after (Bucket b) (below key (T b)) in
  table_ok h hash m T -> fresh_node T p -> tlookup h hash T key = None ->
  m (elem_key p) = key -> chain m v (above key (T b)) ->
  table_ok h hash (upd (upd m (elem_next p) v) link p) (upd_bucket T b (insert_key key p (T b))).
Proof.
  intros b link Hok [Hp Hap] Hn Hk Hv.
  set (m1 := upd m (elem_next p) v). set (m' := upd m1 link p).
  assert (Hlink : link <> elem_next p /\ (forall i, 0 <= i < 16 -> link <> Shared (Word (p + i))) /\
    forall q j b', (q, j) ∈ T b' -> link <> elem_key q).
  { destruct (link_after_cases b key (T b)) as [Hc|(q & j & Hin & Hc)]; fold link in Hc; rewrite Hc; [done|].
    pose proof (Hap b q j Hin) as Hq. unfold apart in Hq. repeat split.
    - intros [=]. lia.
    - intros i Hi [=]. lia.
    - intros q' j' b' Hin' [=]. destruct (decide ((q, j) = (q', j'))) as [[= -> ->]|Hne]; [lia|].
      destruct (to_apart _ _ _ _ Hok _ _ _ _ _ _ Hin Hin' Hne); lia. }
  destruct Hlink as (Hl1 & Hl2 & Hl3).
  assert (Hkeys : forall b' q j, (q, j) ∈ T b' -> m' (elem_key q) = m (elem_key q) /\
    (elem_next q <> link -> m' (elem_next q) = m (elem_next q))).
  { intros b' q j Hin. pose proof (Hap b' q j Hin) as Hq. unfold apart in Hq. split.
    - unfold m', m1. rewrite !upd_ne; [done|intros [=]; lia|by eapply Hl3].
    - intros Hne. unfold m', m1. rewrite !upd_ne; [done|intros [=]; lia|done]. }
  constructor.
  - intros b'. eapply (table_update h hash m m' T b); [done| | | |].
    + intros b'' Hne. unfold m', m1. rewrite !upd_ne; [done|done|].
      destruct (link_after_cases b key (T b)) as [Hc|(q & j & _ & Hc)];
        unfold link; rewrite Hc; [intros [=]; by apply Hne|done].
    + fold link. replace (m' link) with p by (symmetry; apply upd_eq). simpl.
      split; [done|]. split; [done|]. split.
      * assert (link <> elem_key p).
        { unfold elem_key. replace p with (p + 0) by lia. apply Hl2. lia. }
        unfold m', m1. rewrite (upd_ne _ link) by done. rewrite upd_ne; [done|]. intros [=]. lia.
      * replace (m' (elem_next p)) with v by (unfold m', m1; rewrite upd_ne, upd_eq by done; done).
        eapply chain_frame; [|exact Hv]. intros q j Hin.
        assert (Hin' : (q, j) ∈ T b) by (rewrite (below_above key (T b)); apply list.elem_of_app; by right).
        destruct (Hkeys b q j Hin') as [? Hnx]. split; [done|]. apply Hnx. by eapply link_not_above.
    + done.
    + intros Hne. unfold m', m1. by rewrite !upd_ne.
  - intros b'. unfold upd_bucket. destruct (Z.eqb_spec b b') as [<-|]; [|apply Hok].
    apply insert_key_sorted; [apply Hok|exact Hn].
  - intros b' q k. unfold upd_bucket. destruct (Z.eqb_spec b b') as [<-|]; [|apply Hok].
    rewrite elem_of_insert_key. intros [[= -> ->]|Hin]; [done|]. by apply (to_hash _ _ _ _ Hok) in Hin.
  - by apply (insert_apart m).
Qed.

Lemma tlookup_insert m T key p :
  let b := Z.land (hash key) (hashval_mask h) in
  let T' := upd_bucket T b (insert_key key p (T b)) in
  table_ok h hash m T -> tlookup h hash T key = None ->
  tlookup h hash T' key = Some p /\ forall k, k <> key -> tlookup h hash T' k = tlookup h hash T k.
Proof.
  intros b T' Hok Hn. pose proof (to_sorted _ _ _ _ Hok) as Hs.
  pose proof (insert_key_sorted key p (T b) (Hs b) Hn) as Hs'. split.
  - unfold tlookup, T', upd_bucket. fold b. rewrite Z.eqb_refl. apply lookup_key_spec; [done|].
    apply elem_of_insert_key. by left.
  - intros k Hk. unfold tlookup, T', upd_bucket.
    destruct (Z.eqb_spec b (Z.land (hash k) (hashval_mask h))) as [<-|]; [|done].
    apply option_eq. intros q. rewrite !lookup_key_spec, elem_of_insert_key by done.
    split; [intros [[= _ ?]|?]; done|by right].
Qed.

(** HASH_ENTER from a prepared node: an existing element is returned and the node
    is cached; otherwise the node is linked in. *)
Lemma enter_node_run fuel (ht : lfhtab (MS := MS)) m T key p :
  let b := Z.land (hash key) (hashval_mask h) in
  table_ok h hash m T -> fresh_node T p -> m (elem_key p) = key ->
  (has_sentinel_value h = true -> key <> sentinel_value h) ->
  (length (T b) + 1 < fuel)%nat ->
  exists m' T', table_ok h hash m' T' /\
    run (let* pos := search_bucket fuel HASH_ENTER key b in
         find_loop free_node h fuel ht HASH_ENTER key b p None pos) m =
    match tlookup h hash T key with
    | Some q => (Done (mk_lfhtab p (mcxt ht), Found q), m')
    | None => (Done (mk_lfhtab LFHTAB_NULL (mcxt ht), Found p), m')
    end /\
    match tlookup h hash T key with
    | Some _ => T' = T /\ m' = m
    | None => T' = upd_bucket T b (insert_key key p (T b)) /\
        (forall l, (forall b', l <> Bucket b') -> (forall q, q = p \/ (exists b' k, (q, k) ∈ T b') -> l <> elem_next q) ->
                   m' l = m l)
    end.
Proof.
  intros b Hok Hfr Hkey Hsent Hf.
  destruct (search_bucket_run fuel HASH_ENTER key b m (T b) (to_chain _ _ _ _ Hok b) ltac:(lia))
    as (pos & Hr & Hl & Hln & Hpos).
  rewrite run_bind, Hr. destruct fuel as [|[|n]]; [lia|lia|]. cbn [find_loop]. rewrite run_bind.
  pose proof (chain_app_r m _ (below key (T b)) (above key (T b)) (Bucket b) eq_refl) as Hup.
  rewrite <- below_above in Hup. specialize (Hup (to_chain _ _ _ _ Hok b)).
  destruct (tlookup h hash T key) as [q|] eqn:Hq.
  - exists m, T. split; [done|]. split; [|done]. unfold tlookup, lookup_key in Hq. fold b in Hq.
    destruct (above key (T b)) as [|[p' k] rest]; [done|].
    destruct (Z.eqb_spec k key) as [->|]; [|done]. injection Hq as ->.
    destruct Hpos as (Hcur & Hk & Hnx & Hum & Hc). destruct Hc as (_ & Hp' & Hkey' & _).
    apply rawptr_ok_spec in Hp' as [Hnz _]. cbn [enter_at]. rewrite Hcur, Hk, Hum, Z.eqb_refl.
    destruct (Z.eqb_spec q LFHTAB_NULL) as [e|_]; [done|]. cbn [negb andb]. unfold not_sentinel.
    destruct (has_sentinel_value h); cbn [negb run pbind]; [|done].
    rewrite Hkey'. destruct (Z.eqb_spec key (sentinel_value h)); [by destruct Hsent|done].
  - exists (upd (upd m (elem_next p) (cur pos)) (link_after (Bucket b) (below key (T b))) p).
    exists (upd_bucket T b (insert_key key p (T b))).
    assert (Hlv : m (link_after (Bucket b) (below key (T b))) = cur pos).
    { destruct (chain_head _ _ _ Hup) as [_ ->]. destruct (above key (T b)) as [|[p' k] rest]; [done|].
      by destruct Hpos as [-> _]. }
    split; [|split; [|split; [done|]]].
    + apply table_insert; try done. by rewrite <- Hlv.
    + cbn [enter_at]. replace (negb _ && _) with false.
      * cbn [run]. rewrite Hl, Hln, upd_ne, Hlv, Z.eqb_refl; [done|].
        destruct (link_after_cases b key (T b)) as [->|(q & j & Hin & ->)]; [done|].
        destruct Hfr as [_ Hap]. pose proof (Hap _ _ _ Hin) as [?|?]; intros [=]; lia.
      * unfold tlookup, lookup_key in Hq. fold b in Hq. symmetry.
        destruct (above key (T b)) as [|[p' k] rest]; [by rewrite Hpos|].
        destruct Hpos as (_ & -> & _). destruct (Z.eqb_spec k key); [done|]. by rewrite andb_false_r.
    + intros l Hb Hl'. rewrite !upd_ne; [done| |].
      * intros <-. apply (Hl' p); auto.
      * destruct (link_after_cases b key (T b)) as [->|(q & j & Hin & ->)]; [by intros <-; eapply Hb|].
        intros <-. apply (Hl' q); eauto.
Qed.

End EnterFacts.

(** ** Removing *)

Section RemoveFacts.
Context (h : lfhtab_header) (hash : Z -> Z).

Lemma table_ok_frame m m' T :
  (forall b, m' (Bucket b) = m (Bucket b)) ->
  (forall b p k, (p, k) ∈ T b -> m' (elem_key p) = m (elem_key p) /\ m' (elem_next p) = m (elem_next p)) ->
  table_ok h hash m T -> table_ok h hash m' T.
Proof.
  intros Hb Hn Hok. constructor; try apply Hok. intros b. rewrite Hb.
  eapply chain_frame; [|apply Hok]. eauto.
Qed.

Lemma tlookup_above T key p :
  tlookup h hash T key = Some p ->
  exists rest, above key (T (Z.land (hash key) (hashval_mask h))) = (p, key) :: rest.
Proof.
  unfold tlookup, lookup_key. destruct (above _ _) as [|[q k] rest]; [done|].
  destruct (Z.eqb_spec k key) as [->|]; [|done]. intros [= ->]. by exists rest.
Qed.

Lemma delete_sub T key b' x :
  let b := Z.land (hash key) (hashval_mask h) in
  x ∈ upd_bucket T b (delete_key key (T b)) b' -> x ∈ T b'.
Proof.
  intros b. unfold upd_bucket. destruct (Z.eqb_spec b b') as [<-|]; [|done].
  unfold delete_key. rewrite (below_above key (T b)) at 3. rewrite !list.elem_of_app.
  intros [?|Hin]; [by left|right]. destruct (above key (T b)); [done|by right].
Qed.

Lemma delete_apart m T key p b' q k :
  let b := Z.land (hash key) (hashval_mask h) in
  table_ok h hash m T -> tlookup h hash T key = Some p ->
  (q, k) ∈ upd_bucket T b (delete_key key (T b)) b' -> apart p q.
Proof.
  intros b Hok Hp Hin. pose proof (delete_sub _ _ _ _ Hin) as Hin'.
  apply lookup_key_spec in Hp as Hpin; [|apply Hok].
  eapply (to_apart _ _ _ _ Hok); [exact Hpin|exact Hin'|]. intros [= <- <-].
  apply (to_hash _ _ _ _ Hok) in Hin'. subst b'. unfold upd_bucket in Hin.
  rewrite Z.eqb_refl in Hin. eapply elem_of_delete_key in Hin as [_ Hne]; [done|apply Hok|done].
Qed.

(** Redirecting the link to the removed element past it. *)
Lemma table_unlink m T key p :
  let b := Z.land (hash key) (hashval_mask h) in
  let link := link_after (Bucket b) (below key (T b)) in
  table_ok h hash m T -> tlookup h hash T key = Some p ->
  link <> elem_next p /\ m link = p /\
  table_ok h hash (upd m link (m (elem_next p))) (upd_bucket T b (delete_key key (T b))).
Proof.
  intros b link Hok Hp. pose proof (tlookup_above _ _ _ Hp) as [rest Hab]. fold b in Hab.
  pose proof (chain_app_r m _ (below key (T b)) (above key (T b)) (Bucket b) eq_refl) as Hup.
  rewrite <- below_above in Hup. specialize (Hup (to_chain _ _ _ _ Hok b)). fold link in Hup.
  rewrite Hab in Hup. simpl in Hup. destruct Hup as (Hl & _ & _ & Hrest).
  assert (Hlinks : forall q k, (q, k) ∈ above key (T b) -> link <> elem_next q).
  { intros q k Hin. unfold link, link_after. destruct (last _) as [[r j]|] eqn:E; [|done].
    apply last_Some_elem_of in E. intros [= Heq].
    pose proof (below_lt key (T b)) as Hb. pose proof (above_ge key (T b) (to_sorted _ _ _ _ Hok b)) as Ha.
    rewrite list.Forall_forall in Hb, Ha. specialize (Hb _ E). specialize (Ha _ Hin). simpl in *.
    destruct (to_apart _ _ _ _ Hok b b r j q k); [| |intros [= -> ->]|..]; try lia;
      rewrite (below_above key (T b)); apply list.elem_of_app; auto. }
  assert (Hkeys : forall b' q k, (q, k) ∈ T b' -> link <> elem_key q).
  { intros b' q k Hin. destruct (link_after_cases b key (T b)) as [Hc|(r & j & Hin' & Hc)];
      fold link in Hc; rewrite Hc; [done|]. intros [= Heq].
    destruct (decide ((r, j) = (q, k))) as [[= -> ->]|Hne]; [lia|].
    destruct (to_apart _ _ _ _ Hok _ _ _ _ _ _ Hin' Hin Hne); lia. }
  split; [apply (Hlinks p key); rewrite Hab; by left|]. split; [done|]. constructor.
  - intros b'. unfold delete_key. eapply (table_update h hash m _ T b); [done| | | |].
    + intros b'' Hne. apply upd_ne. destruct (link_after_cases b key (T b)) as [Hc|(r & j & _ & Hc)];
        unfold link; rewrite Hc; [intros [=]; by apply Hne|done].
    + fold link. rewrite upd_eq, Hab. simpl. eapply chain_frame; [|exact Hrest].
      intros q k Hin. split; apply upd_ne.
      * apply (Hkeys b q k). rewrite (below_above key (T b)), Hab. set_solver.
      * apply (Hlinks q k). rewrite Hab. by right.
    + intros b'' q k Hin. split; [by eapply upd_ne, Hkeys|]. intros Hne. by apply upd_ne.
    + intros Hne. apply upd_ne. intros Heq. by apply Hne.
  - intros b'. unfold upd_bucket. case_match; [apply delete_key_sorted|]; apply Hok.
  - intros b' q k Hin. by eapply (to_hash _ _ _ _ Hok), delete_sub.
  - intros b1 b2 q k q' k' H1 H2. eapply (to_apart _ _ _ _ Hok); by eapply delete_sub.
Qed.

Lemma tlookup_delete m T key p :
  let b := Z.land (hash key) (hashval_mask h) in
  let T' := upd_bucket T b (delete_key key (T b)) in
  table_ok h hash m T -> tlookup h hash T key = Some p ->
  tlookup h hash T' key = None /\ forall k, k <> key -> tlookup h hash T' k = tlookup h hash T k.
Proof.
  intros b T' Hok Hp. pose proof (to_sorted _ _ _ _ Hok) as Hs.
  pose proof (delete_key_sorted key (T b) (Hs b)) as Hs'. split.
  - unfold tlookup, T', upd_bucket. fold b. rewrite Z.eqb_refl. apply lookup_key_None; [done|].
    intros q Hin. by eapply elem_of_delete_key in Hin as [_ ?].
  - intros k Hk. unfold tlookup, T', upd_bucket.
    destruct (Z.eqb_spec b (Z.land (hash k) (hashval_mask h))) as [<-|]; [|done].
    apply option_eq. intros q. rewrite !lookup_key_spec, elem_of_delete_key by done. naive_solver.
Qed.

End RemoveFacts.

(** ** The table with its allocator *)

Section Table.
Context {MS : Type} (alloc0 : MS -> prog hloc (MS * Z)) (free_node : MS -> Z -> prog hloc MS).
Context (h : lfhtab_header) (hash : Z -> Z).
Context (ainv room : MS -> mem hloc -> Prop) (bound : mem hloc -> Z).

(** The state between two calls: the buckets hold [T], every element came from
    the allocator, and the cached node is a zeroed element of no bucket. *)
Record htab_inv (ht : lfhtab (MS := MS)) (m : mem hloc) (T : Z -> list (Z * Z)) : Prop := {
  hi_table : table_ok h hash m T;
  hi_alloc : ainv (mcxt ht) m;
  hi_bound : forall b p k, (p, k) ∈ T b -> p + 32 <= bound m;
  hi_cached : cached_new_node ht = LFHTAB_NULL \/
    (fresh_node T (cached_new_node ht) /\ m (elem_value (cached_new_node ht)) = 0 /\
     cached_new_node ht + 32 <= bound m)
}.

Context `{HA : !NodeAlloc alloc0 ainv room bound}.

(** The value words of the elements belong to the table's user. *)
Lemma htab_inv_values ht m m' T : htab_inv ht m T ->
  (forall l, (forall b p k, (p, k) ∈ T b -> l <> elem_value p) -> (forall e, l <> Shared (Ep e)) -> m' l = m l) ->
  htab_inv ht m' T.
Proof.
  intros [Hok Ha Hb Hc] Hfr.
  assert (Hother : forall l, (forall a, l <> Shared (Word a)) -> (forall e, l <> Shared (Ep e)) -> m' l = m l).
  { intros l Hl He. apply Hfr; [|done]. intros b p k _ ->. by eapply Hl. }
  destruct (na_frame (mcxt ht) m m' Ha) as [Ha' Hb']; [by intros; apply Hother|].
  assert (Hw : forall b p k i, (p, k) ∈ T b -> 0 <= i < 32 -> i <> 8 -> m' (Shared (Word (p + i))) = m (Shared (Word (p + i)))).
  { intros b p k i Hin Hi H8. apply Hfr; [|done]. intros b' q k' Hq [=].
    destruct (decide ((p, k) = (q, k'))) as [[= -> ->]|Hne]; [lia|].
    pose proof (to_apart _ _ _ _ Hok _ _ _ _ _ _ Hin Hq Hne). unfold apart in *. lia. }
  split; [|done| |].
  - split; try apply Hok. intros b. rewrite Hother by done. eapply chain_frame; [|apply Hok].
    intros p k Hin. pose proof (Hw b p k 0 Hin ltac:(lia) ltac:(lia)) as H0. rewrite Z.add_0_r in H0.
    split; [done|]. apply (Hw b p k); [done|lia|lia].
  - intros b p k Hin. rewrite Hb'. by eapply Hb.
  - destruct Hc as [?|(Hf & Hv & Hhi)]; [by left|]. right. rewrite Hb'. split; [done|]. split; [|done].
    rewrite Hfr; [done| |done]. intros b p k Hin [=]. destruct Hf as [_ Hf]. specialize (Hf b p k Hin). unfold apart in *. lia.
Qed.

(** The memory determines the lists. *)
Lemma chain_unique m v l l' : chain m v l -> chain m v l' -> l = l'.
Proof.
  revert v l'. induction l as [|[p k] l IH]; intros v [|[q j] l']; cbn [chain]; [done| | |].
  - intros -> (<- & Hq & _). by apply rawptr_ok_spec in Hq as [? _].
  - intros (-> & Hp & _) ->. by apply rawptr_ok_spec in Hp as [? _].
  - intros (-> & _ & Hk & Hc) (-> & _ & Hj & Hc'). f_equal; [congruence|by eapply IH].
Qed.

Lemma take_new_node_run ht m T :
  htab_inv ht m T -> room (mcxt ht) m ->
  exists ht' p m', run (take_new_node alloc0 ht) m = (Done (ht', p), m') /\
    cached_new_node ht' = LFHTAB_NULL /\ table_ok h hash m' T /\ ainv (mcxt ht') m' /\
    fresh_node T p /\ m' (elem_value p) = 0 /\ p + 32 <= bound m' /\
    (forall b q k, (q, k) ∈ T b -> q + 32 <= bound m' /\ m' (elem_value q) = m (elem_value q)).
Proof.
  intros [Hok Ha Hb Hc] Hroom. unfold take_new_node.
  destruct (Z.eqb_spec (cached_new_node ht) LFHTAB_NULL) as [E|E]; cbn [negb].
  - destruct (na_run (mcxt ht) m Ha Hroom) as (ms & p & m' & Hr & Hi & Hp & Hlo & Hhi & Hv & Hbk & Hw).
    rewrite run_bind, Hr. exists (mk_lfhtab LFHTAB_NULL ms), p, m'. split; [done|].
    split; [done|]. split; [|split; [done|split; [|split; [done|split; [done|]]]]].
    + constructor; try apply Hok. intros b. rewrite Hbk. eapply chain_frame; [|apply Hok].
      intros q k Hin. specialize (Hb _ _ _ Hin). split; apply Hw; lia.
    + split; [done|]. intros b q k Hin. specialize (Hb _ _ _ Hin). right. lia.
    + intros b q k Hin. specialize (Hb _ _ _ Hin). split; [lia|]. apply Hw. lia.
  - destruct Hc as [?|(Hf & Hv & Hhi)]; [done|]. do 3 eexists. split; [done|].
    do 6 (split; [done|]). split; [by eapply Hb|done].
Qed.

Lemma enter_run (fuel : nat) (ht : lfhtab (MS := MS)) (m : mem hloc) (T : Z -> list (Z * Z)) (key : Z) :
  htab_inv ht m T -> room (mcxt ht) m ->
  (has_sentinel_value h = true -> key <> sentinel_value h) ->
  (length (T (Z.land (hash key) (hashval_mask h))) + 1 < fuel)%nat ->
  exists ht' p m' T',
    run (lockfree_htab_find alloc0 free_node h fuel ht (hash key) key HASH_ENTER) m =
      (Done (ht', Found p), m') /\
    htab_inv ht' m' T' /\ tlookup h hash T' key = Some p /\
    (forall k, k <> key -> tlookup h hash T' k = tlookup h hash T k) /\
    (forall k q, tlookup h hash T k = Some q -> m' (elem_value q) = m (elem_value q)) /\
    match tlookup h hash T key with Some q => p = q | None => m' (elem_value p) = 0 end /\
    (forall b', (length (T' b') <= S (length (T b')))%nat).
Proof.
  intros Hinv Hroom Hsent Hf. unfold lockfree_htab_find. rewrite run_bind.
  set (b := Z.land (hash key) (hashval_mask h)) in *.
  destruct (take_new_node_run ht m T Hinv Hroom)
    as (ht1 & p & m1 & Hr & Hc1 & Hok1 & Ha1 & Hfr & Hv & Hpb & Hold). rewrite Hr. cbn [run].
  set (m2 := upd m1 (elem_key p) key).
  assert (Hok2 : table_ok h hash m2 T).
  { unfold m2, elem_key. replace p with (p + 0) by lia. apply table_ok_write_fresh; [done|done|lia]. }
  assert (Hk2 : m2 (elem_key p) = key) by apply upd_eq.
  assert (Hval2 : forall q, m2 (elem_value q) = m1 (elem_value q) \/ p = q + 8).
  { intros q. destruct (Z.eq_dec p (q + 8)); [by right|left]. apply upd_ne. by intros [=]. }
  assert (Hmem : forall k q, tlookup h hash T k = Some q -> (q, k) ∈ T (Z.land (hash k) (hashval_mask h))).
  { intros k q. apply lookup_key_spec, Hok1. }
  destruct (enter_node_run free_node h hash fuel ht1 m2 T key p Hok2 Hfr Hk2 Hsent Hf)
    as (m' & T' & Hok' & Hrun & Hcase). fold b in Hrun.
  assert (Hv2 : m2 (elem_value p) = 0) by (destruct (Hval2 p) as [->|]; [done|lia]).
  rewrite Hv2. cbn [Z.eqb]. rewrite Hrun.
  assert (Hframe : forall l, (forall b', l <> Bucket b') -> (forall a, l <> Shared (Word a)) -> m' l = m1 l).
  { intros l H1 H2. transitivity (m2 l); [|apply upd_ne; intros <-; by eapply H2].
    destruct (tlookup h hash T key); destruct Hcase as [_ Hcase]; [by rewrite Hcase|].
    apply Hcase; [done|]. intros q _ ->. by eapply H2. }
  destruct (na_frame (mcxt ht1) m1 m' Ha1 (fun l H1 H2 _ => Hframe l H1 H2)) as [Ha' Hb'].
  assert (Hvals : forall q, q = p \/ (exists b' k, (q, k) ∈ T b') -> m' (elem_value q) = m1 (elem_value q)).
  { intros q Hq. transitivity (m2 (elem_value q)).
    - destruct (tlookup h hash T key); destruct Hcase as [_ Hcase]; [by rewrite Hcase|].
      apply Hcase; [done|]. intros r Hr'. by apply (value_not_next h hash m1 T p).
    - destruct (Hval2 q) as [?|Hpq]; [done|]. destruct Hq as [?|(b1 & k1 & Hq)]; [lia|].
      destruct Hfr as [_ Hap]. specialize (Hap _ _ _ Hq). unfold apart in Hap. lia. }
  exists (mk_lfhtab (match tlookup h hash T key with Some _ => p | None => LFHTAB_NULL end) (mcxt ht1)).
  exists (match tlookup h hash T key with Some q => q | None => p end), m', T'.
  split; [by destruct (tlookup h hash T key)|].
  assert (Hpres : forall k q, tlookup h hash T k = Some q -> m' (elem_value q) = m (elem_value q)).
  { intros k q Hq. apply Hmem in Hq. rewrite Hvals by eauto. by eapply Hold. }
  assert (Hlen : forall b', (length (T' b') <= S (length (T b')))%nat).
  { intros b'. destruct (tlookup h hash T key); destruct Hcase as [-> _]; [lia|].
    unfold upd_bucket. fold b. destruct (Z.eqb_spec b b') as [<-|]; [|lia]. by rewrite length_insert_key. }
  destruct (tlookup h hash T key) as [q|] eqn:Hq; destruct Hcase as [-> Hm'].
  - split; [|by auto 10]. constructor; simpl; [done|done| |].
    + intros b' r k Hin. rewrite Hb'. by eapply Hold.
    + right. rewrite Hb', Hvals by auto. auto.
  - destruct (tlookup_insert h hash m2 T key p Hok2 Hq) as [Hl1 Hl2]. fold b in Hl1, Hl2.
    split; [|split; [done|split; [done|split; [done|split; [by rewrite Hvals by auto|done]]]]].
    constructor; simpl; [done|done| |by left].
    intros b' r k. rewrite Hb'. unfold upd_bucket. fold b.
    destruct (Z.eqb_spec b b') as [<-|].
    + rewrite elem_of_insert_key. intros [[= -> ->]|Hin]; [done|]. by eapply Hold.
    + intros Hin. by eapply Hold.
Qed.

(** C24: HASH_ENTER by one backend at a time, for a key that is not the table's sentinel and
    whose element, if it has one, does not hold the sentinel value (such an element is
    returned too, see [htab_enter_returns_sentinel]).  The call always returns the key's
    element: the one it already has, unchanged, or a new one with value zero; afterwards
    the key is mapped to that element, every other key is mapped as before, the values of
    the other elements are kept, and the table's invariant holds again. *)
Theorem htab_enter (fuel : nat) (ht : lfhtab (MS := MS)) (m : mem hloc) (T : Z -> list (Z * Z)) (key : Z) :
  htab_inv ht m T -> room (mcxt ht) m ->
  (has_sentinel_value h = true -> key <> sentinel_value h /\ forall q, tlookup h hash T key = Some q -> m (elem_value q) <> sentinel_value h) ->
  (length (T (Z.land (hash key) (hashval_mask h))) + 1 < fuel)%nat ->
  exists ht' p m' T',
    run (lockfree_htab_find alloc0 free_node h fuel ht (hash key) key HASH_ENTER) m =
      (Done (ht', Found p), m') /\
    htab_inv ht' m' T' /\ tlookup h hash T' key = Some p /\
    (forall k, k <> key -> tlookup h hash T' k = tlookup h hash T k) /\
    (forall k q, tlookup h hash T k = Some q -> m' (elem_value q) = m (elem_value q)) /\
    match tlookup h hash T key with Some q => p = q | None => m' (elem_value p) = 0 end.
Proof.
  intros Hi Hr Hs Hf. destruct (enter_run fuel ht m T key Hi Hr (fun H => proj1 (Hs H)) Hf) as (ht' & p & m' & T' & H1 & H2 & H3 & H4 & H5 & H6 & _).
  by exists ht', p, m', T'.
Qed.

(** HASH_ENTER returns an element that holds the sentinel value, although the comment of
    lockfree_htab_init says that it inserts a new one behind it. *)
Lemma htab_enter_returns_sentinel (fuel : nat) (ht : lfhtab (MS := MS)) (m : mem hloc) (T : Z -> list (Z * Z)) (key q : Z) :
  htab_inv ht m T -> room (mcxt ht) m -> has_sentinel_value h = true -> key <> sentinel_value h ->
  tlookup h hash T key = Some q -> m (elem_value q) = sentinel_value h ->
  (length (T (Z.land (hash key) (hashval_mask h))) + 1 < fuel)%nat ->
  exists ht' m', run (lockfree_htab_find alloc0 free_node h fuel ht (hash key) key HASH_ENTER) m = (Done (ht', Found q), m') /\ m' (elem_value q) = sentinel_value h.
Proof.
  intros Hi Hr _ Hk Hq Hv Hf. destruct (enter_run fuel ht m T key Hi Hr (fun _ => Hk) Hf) as (ht' & p & m' & T' & H1 & _ & _ & _ & H5 & H6 & _).
  rewrite Hq in H6. subst p. exists ht', m'. split; [done|]. by rewrite (H5 key q Hq).
Qed.

(** Looking a key up changes nothing and returns the element the key is mapped
    to; nothing is found for an unmapped key, nor for a key equal to the sentinel. *)
Theorem htab_find (fuel : nat) (ht : lfhtab (MS := MS)) (m : mem hloc) (T : Z -> list (Z * Z)) (key : Z) :
  htab_inv ht m T ->
  (length (T (Z.land (hash key) (hashval_mask h))) < fuel)%nat ->
  run (lockfree_htab_find alloc0 free_node h fuel ht (hash key) key HASH_FIND) m =
  (Done (ht, match tlookup h hash T key with
             | Some p => if has_sentinel_value h && (key =? sentinel_value h)
                         then NotFound else Found p
             | None => NotFound
             end), m).
Proof. intros [Hok _ _ _]. by apply find_run. Qed.

End Table.

Section Remove.
Context {MS : Type} (alloc0 : MS -> prog hloc (MS * Z)) (free_node : MS -> Z -> prog hloc MS).
Context (h : lfhtab_header) (hash : Z -> Z).
Context (finv : MS -> mem hloc -> Prop) (parked : MS -> list Z).
Context `{HF : !NodeFree free_node finv parked}.

(** The words of [T]'s elements are not parked, and pointers are 64-bit words. *)
Definition not_parked (ms : MS) (T : Z -> list (Z * Z)) : Prop :=
  forall b p k, (p, k) ∈ T b -> 0 <= p < 2 ^ 64 /\ forall i, 0 <= i < 32 -> p + i ∉ parked ms.

(** The memory after an element was marked and its predecessor linked to its successor. *)
Definition unlinked (m : mem hloc) (T : Z -> list (Z * Z)) (key p : Z) : mem hloc :=
  let b := Z.land (hash key) (hashval_mask h) in
  upd (upd m (elem_next p) (lfhtab_ptr_mark (m (elem_next p)))) (link_after (Bucket b) (below key (T b))) (m (elem_next p)).

(** The table without the key. *)
Definition without (T : Z -> list (Z * Z)) (key : Z) : Z -> list (Z * Z) :=
  let b := Z.land (hash key) (hashval_mask h) in upd_bucket T b (delete_key key (T b)).

(** Marking, unlinking and freeing a mapped element. *)
Lemma delete_run fuel (ht : lfhtab (MS := MS)) m T key p pos :
  let b := Z.land (hash key) (hashval_mask h) in
  table_ok h hash m T -> finv (mcxt ht) m -> not_parked (mcxt ht) T ->
  tlookup h hash T key = Some p -> cur pos = p ->
  left_node_next_ptr pos = link_after (Bucket b) (below key (T b)) -> (0 < fuel)%nat ->
  exists ms' m',
    run (delete_at free_node fuel ht pos LFHTAB_NULL LFHTAB_NULL p) m =
      (Done (Finish (mk_lfhtab (cached_new_node ht) ms', Removed (m (elem_value p)))), m') /\
    run (free_node (mcxt ht) p) (unlinked m T key p) = (Done ms', m') /\
    table_ok h hash m' (without T key) /\ tlookup h hash (without T key) key = None /\
    (forall k, k <> key -> tlookup h hash (without T key) k = tlookup h hash T k) /\
    (forall k q, k <> key -> tlookup h hash T k = Some q -> m' (elem_value q) = m (elem_value q)).
Proof.
  intros b Hok Hfi Hnp Hp Hcur Hl Hf. destruct fuel as [|n]; [lia|]. unfold delete_at. cbn [run].
  rewrite Hcur, Hl. set (link := link_after (Bucket b) (below key (T b))). set (nx := m (elem_next p)).
  pose proof (tlookup_above h hash T key p Hp) as [rest Hab]. fold b in Hab.
  pose proof (chain_app_r m _ (below key (T b)) (above key (T b)) (Bucket b) eq_refl) as Hup.
  rewrite <- below_above in Hup. specialize (Hup (to_chain _ _ _ _ Hok b)). rewrite Hab in Hup.
  destruct Hup as (_ & Hraw & Hkey & Hrest). fold nx in Hrest.
  destruct (chain_head _ _ _ Hrest) as [Hum Hnx].
  assert (Hinb : forall x, x ∈ (p, key) :: rest -> x ∈ T b).
  { intros x Hx. rewrite (below_above key (T b)), Hab. apply list.elem_of_app. by right. }
  assert (Hgu : lfhtab_ptr_get_unmarked nx = nx).
  { rewrite Hnx. destruct rest as [|[q k] rest']; [done|]. destruct Hrest as (_ & Hq & _).
    apply rawptr_ok_spec in Hq as [_ Hq]. apply get_unmarked_id; [done|].
    eapply Hnp, Hinb. right. by left. }
  destruct (table_unlink h hash m T key p Hok Hp) as (Hne & Hlp & Hok'). fold b link in Hne, Hlp, Hok'.
  set (T' := upd_bucket T b (delete_key key (T b))) in *.
  rewrite run_bind. cbn [mark_next]. rewrite Hum. cbn [run]. rewrite Z.eqb_refl. cbn [run].
  rewrite Hgu, upd_ne, Hlp, Z.eqb_refl by congruence. cbn [run pbind negb lockfree_htab_free_nodes Z.eqb LFHTAB_NULL SHARED_SLAB_NULL].
  set (m2 := upd (upd m (elem_next p) (lfhtab_ptr_mark nx)) link nx).
  assert (Hpin : (p, key) ∈ T b) by (apply Hinb; by left).
  assert (Hval : forall b' r k, (r, k) ∈ T b' -> m2 (elem_value r) = m (elem_value r)).
  { intros b' r k Hr. assert (Hnot : forall b'' q j, (q, j) ∈ T b'' -> elem_next q <> elem_value r).
    { intros b'' q j Hin [=]. destruct (decide ((q, j) = (r, k))) as [[= -> ->]|Hd]; [lia|]. destruct (to_apart _ _ _ _ Hok _ _ _ _ _ _ Hin Hr Hd); lia. }
    unfold m2. rewrite (upd_ne _ link), upd_ne; [done|by eapply Hnot|].
    destruct (link_after_cases b key (T b)) as [Hc|(q & j & Hin & Hc)]; fold link in Hc; rewrite Hc; [done|by eapply Hnot]. }
  pose proof (Hval _ _ _ Hpin) as Hv.
  assert (Hfi2 : finv (mcxt ht) m2).
  { eapply nf_frame; [exact Hfi|]. intros l Hb Hw. unfold m2. rewrite !upd_ne; [done| |].
    - intros <-. eapply Hw; [|reflexivity]. eapply Hnp; [exact Hpin|lia].
    - destruct (link_after_cases b key (T b)) as [Hc|(q & j & Hin & Hc)]; fold link in Hc; rewrite Hc.
      + intros <-. by eapply Hb.
      + intros <-. eapply Hw; [|reflexivity]. eapply Hnp; [exact Hin|lia]. }
  rewrite run_bind. destruct (nf_run (mcxt ht) p m2 Hfi2) as (ms' & m' & Hrun & Hb & Hw).
  rewrite Hrun. exists ms', m'. rewrite Hv. split; [done|]. split; [exact Hrun|].
  destruct (tlookup_delete h hash m T key p Hok Hp) as [Hd1 Hd2]. split; [|split; [done|split; [done|]]].
  2: { intros k q Hk Hq. apply lookup_key_spec in Hq; [|apply Hok]. rewrite <- (Hval _ _ _ Hq). apply Hw. eapply Hnp; [exact Hq|lia]. }
  apply (table_ok_frame h hash m2); [done| |].
  { intros b' q k Hin. apply delete_sub in Hin. destruct (Hnp _ _ _ Hin) as [_ Hq].
    split; apply Hw; [replace q with (q + 0) by lia|]; apply Hq; lia. }
  apply (table_ok_frame h hash (upd (upd m link nx) (elem_next p) (lfhtab_ptr_mark nx))).
  { intros b'. unfold m2. rewrite (upd_ne _ (elem_next p)) by done.
    destruct (decide (link = Bucket b')) as [<-|]; [by rewrite !upd_eq|by rewrite !upd_ne]. }
  { intros b' q k Hin.
    assert (Hcomm : forall l, m2 l = upd (upd m link nx) (elem_next p) (lfhtab_ptr_mark nx) l).
    { intros l. apply upd_comm. congruence. }
    by rewrite !Hcomm. }
  apply table_ok_write_fresh; [done| |lia]. split; [done|]. intros b' q k Hin. exact (delete_apart h hash m T key p b' q k Hok Hp Hin).
Qed.

(** C32: HASH_REMOVE by one backend at a time.  Removing a key that is not mapped, or, in a
    table with a sentinel, whose value is not the sentinel, changes nothing.  Otherwise (in
    a table without a sentinel: whatever the value) exactly the key's element is marked,
    unlinked from its predecessor and handed to the allocator's free function, the value it
    had is returned, the key is no longer mapped, every other key is mapped as before and
    its value is kept.  The allocator is assumed to write to no element of the table. *)
Theorem htab_remove (fuel : nat) (ht : lfhtab (MS := MS)) (m : mem hloc) (T : Z -> list (Z * Z)) (key : Z) :
  table_ok h hash m T -> finv (mcxt ht) m -> not_parked (mcxt ht) T ->
  (length (T (Z.land (hash key) (hashval_mask h))) + 2 < fuel)%nat ->
  let res := run (lockfree_htab_find alloc0 free_node h fuel ht (hash key) key HASH_REMOVE) m in
  match tlookup h hash T key with
  | None => res = (Done (ht, NotFound), m)
  | Some p =>
      if has_sentinel_value h && negb (m (elem_value p) =? sentinel_value h)
      then res = (Done (ht, NotFound), m)
      else exists ms' m',
        res = (Done (mk_lfhtab (cached_new_node ht) ms', Removed (m (elem_value p))), m') /\
        run (free_node (mcxt ht) p) (unlinked m T key p) = (Done ms', m') /\
        table_ok h hash m' (without T key) /\ tlookup h hash (without T key) key = None /\
        (forall k, k <> key -> tlookup h hash (without T key) k = tlookup h hash T k) /\
        (forall k q, k <> key -> tlookup h hash T k = Some q -> m' (elem_value q) = m (elem_value q))
  end.
Proof.
  intros Hok Hfi Hnp Hf. unfold lockfree_htab_find.
  set (b := Z.land (hash key) (hashval_mask h)) in *. cbv zeta.
  destruct (search_bucket_run fuel HASH_REMOVE key b m (T b) (to_chain _ _ _ _ Hok b) ltac:(lia))
    as (pos & Hr & Hl & Hln & Hpos).
  rewrite run_bind, Hr. destruct fuel as [|[|[|n]]]; [lia..|]. cbn [find_loop]. rewrite run_bind.
  unfold remove_at. rewrite Hln, Z.eqb_refl. cbn [negb].
  assert (Hnil : forall f ms, lockfree_htab_free_nodes free_node f ms LFHTAB_NULL LFHTAB_NULL = Ret ms) by done.
  destruct (tlookup h hash T key) as [p|] eqn:Hp; cycle 1.
  { unfold tlookup, lookup_key in Hp. fold b in Hp. rewrite Hnil.
    replace ((cur pos =? LFHTAB_NULL) || negb (cur_key pos =? key)) with true; [by destruct ht|].
    destruct (above key (T b)) as [|[p k] rest]; [by rewrite Hpos|].
    destruct Hpos as (_ & -> & _). destruct (Z.eqb_spec k key); [done|]. by rewrite orb_true_r. }
  pose proof (tlookup_above h hash T key p Hp) as [rest Hab]. fold b in Hab. rewrite Hab in Hpos.
  destruct Hpos as (Hcur & Hk & Hnx & Hum & (_ & Hraw & Hkey & Hrest)).
  apply rawptr_ok_spec in Hraw as Hraw'. destruct Hraw' as [Hnz Hal].
  rewrite Hcur, Hk, Z.eqb_refl, !Hnil. destruct (Z.eqb_spec p LFHTAB_NULL) as [|_]; [done|]. cbn [orb negb pbind run].
  assert (Hdel := delete_run (S (S n)) ht m T key p pos Hok Hfi Hnp Hp Hcur Hl ltac:(lia)).
  destruct (has_sentinel_value h) eqn:Hs; cbn [run andb pbind].
  - destruct (negb _); [by destruct ht|]. destruct Hdel as (ms' & m' & Hrun & HT).
    rewrite Hrun. by exists ms', m'.
  - destruct Hdel as (ms' & m' & Hrun & HT). rewrite Hrun. by exists ms', m'.
Qed.

End Remove.

(** ** The slab as the element allocator *)

Section SlabNodes.
Context (sh : header) (n : nat) (d : Z).

(** lfhtab_alloc0 and lfhtab_free, the macros for the slab's operations. *)
Definition lfhtab_alloc0 (s : slab) : prog hloc (slab * Z) :=
  let* p := plift Shared (shared_slab_allocate0 sh (4 + n) d) in Ret (s, p).
Definition lfhtab_free (N : Z) (st : Epoch.epoch_local) (s : slab) (p : Z) : prog hloc slab :=
  plift Shared (shared_slab_free N (4 + n) st s p).

Definition slab_part (m : mem hloc) : mem sloc := fun l => m (Shared l).

Definition alloc_inv (s : slab) (m : mem hloc) : Prop :=
  (exists c, alloc_ok sh (slab_part m) c) /\ slab_part m freelist_head = SHARED_SLAB_NULL.
Definition alloc_room (s : slab) (m : mem hloc) : Prop :=
  frontier (slab_part m) + 2 * 2 ^ address_offset_num_bits sh <= 2 ^ 64.

Lemma slab_NodeAlloc : header_ok sh -> itemsz sh = 32 ->
  NodeAlloc lfhtab_alloc0 alloc_inv alloc_room (fun m => frontier (slab_part m)).
Proof.
  intros Hsh Hsz. pose proof (pow_bits_range sh Hsh). constructor.
  - intros s m [[c Hc] Hfl] Hroom. unfold alloc_room, frontier in Hroom.
    pose proof Hc as [[Hc1 Hc2] [Ho _] _]. rewrite Hc2 in Hroom.
    destruct (allocate0_run sh Hsh (slab_part m) c n d Hc Hfl ltac:(nia))
      as (p & m1 & c' & Hr & Hok & Hfl' & _ & Hlo & Hhi & Hal & Hp0 & Hz & Hw).
    destruct (run_plift Shared ltac:(by intros ?? [=]) (shared_slab_allocate0 sh (4 + n) d) m (slab_part m))
      as (H1 & H2 & H3); [done|].
    change (4 + n)%nat with (S (S (S (S n)))) in *. rewrite Hr in H1, H2. cbn [fst snd] in H1, H2.
    destruct (run (plift Shared _) m) as [r m'] eqn:E. cbn [fst snd] in H1, H2, H3. subst r.
    exists s, p, m'. unfold lfhtab_alloc0. change (4 + n)%nat with (S (S (S (S n)))).
    rewrite run_bind, E. split; [done|].
    assert (Hext : forall l, slab_part m' l = m1 l) by (intros l; apply H2).
    split; [|split; [apply rawptr_ok_spec; unfold LFHTAB_NULL, SHARED_SLAB_NULL; lia|split; [done|split]]].
    + split; [|by rewrite Hext]. exists c'. destruct Hok. by constructor; rewrite ?Hext.
    + unfold frontier in *. rewrite !Hext, <- Hsz. lia.
    + split; [|split].
      * change (m' (elem_value p)) with (slab_part m' (Word (p + 8 * 1))). rewrite Hext. apply Hz. lia.
      * intros b. apply H3. done.
      * intros a Ha. change (slab_part m' (Word a) = slab_part m (Word a)). rewrite Hext. apply Hw. lia.
  - intros s m m' [[c [? ? ?]] Hfl] Hfr.
    assert (Hext : forall l, (forall a, l <> Word a) -> (forall e, l <> Ep e) -> slab_part m' l = slab_part m l).
    { intros l Hl He. apply Hfr; [done| |]; [intros a [= ->]; by apply (Hl a)|intros e [= ->]; by apply (He e)]. }
    unfold alloc_inv, frontier. rewrite !Hext by done. split; [|done]. split; [|done].
    exists c. by constructor; rewrite ?Hext.
Qed.

(** Freeing with room in the last deallocation list only records the pointer. *)
Definition free_inv (s : slab) (m : mem hloc) : Prop :=
  match last (dealloc_lists s) with Some l => dl_size l <> dl_capacity l | None => True end.
Definition slab_parked (s : slab) : list Z := concat (dl_pointers <$> dealloc_lists s).

Lemma slab_NodeFree N st : NodeFree (lfhtab_free N st) free_inv slab_parked.
Proof.
  constructor; [|done]. intros s p m. unfold free_inv, lfhtab_free, shared_slab_free.
  destruct (last (dealloc_lists s)) as [l|]; intros Hl.
  - destruct (Z.eqb_spec (dl_size l) (dl_capacity l)); [done|]. simpl. by do 2 eexists.
  - simpl. by do 2 eexists.
Qed.

End SlabNodes.

(** ** Concrete tables *)

(** One bucket, sentinel value 2; the slab hands out elements from address 96. *)
Definition demo_hheader : lfhtab_header := mk_hheader 0 true 2.
Definition demo_slab : slab := mk_slab true 4 [].
Definition demo_ht : lfhtab := mk_lfhtab LFHTAB_NULL demo_slab.
Definition demo_hash := lockfree_htab_hash_uint64.
Definition demo_find := lockfree_htab_find (lfhtab_alloc0 demo_header 0 7) (lfhtab_free 0 2 (Epoch.mk_local 0 0)) demo_hheader.

(** The bucket holds one element, at address 64, with key 5 and value [v]. *)
Definition demo_mem (v : Z) : mem hloc := fun l =>
  match l with
  | Bucket 0 => 64
  | Shared (Word 64) => 5
  | Shared (Word 72) => v
  | Shared new_chunk => 64
  | Shared unallocated_offset => 32
  | _ => 0
  end.
Definition demo_T : Z -> list (Z * Z) := fun b => if b =? 0 then [(64, 5)] else [].

Lemma demo_elem b p k : (p, k) ∈ demo_T b -> b = 0 /\ p = 64 /\ k = 5.
Proof. unfold demo_T. destruct (Z.eqb_spec b 0); [|set_solver]. intros ?%list_elem_of_singleton. naive_solver. Qed.

Lemma demo_table_ok v : table_ok demo_hheader demo_hash (demo_mem v) demo_T.
Proof.
  constructor.
  - intros b. unfold demo_T. destruct (Z.eqb_spec b 0) as [->|]; simpl; [done|]. by destruct b.
  - intros b. unfold demo_T. case_match; repeat constructor.
  - intros b p k Hin. apply demo_elem in Hin as (-> & -> & ->). apply Z.land_0_r.
  - intros b b' p k p' k' H1 H2 Hne. apply demo_elem in H1 as (-> & -> & ->).
    apply demo_elem in H2 as (-> & -> & ->). done.
Qed.

Lemma demo_htab_inv v :
  htab_inv demo_hheader demo_hash (alloc_inv demo_header) (fun m => frontier (slab_part m)) demo_ht (demo_mem v) demo_T.
Proof.
  constructor; [apply demo_table_ok| | |by left].
  - split; [|done]. exists 0. constructor; vm_compute; repeat split; congruence.
  - intros b p k (-> & -> & ->)%demo_elem. vm_compute. congruence.
Qed.

Lemma htab_enter_witness :
  exists ht' p m' T', run (demo_find 6 demo_ht (demo_hash 3) 3 HASH_ENTER) (demo_mem 9) = (Done (ht', Found p), m') /\
    tlookup demo_hheader demo_hash T' 3 = Some p /\ m' (elem_value p) = 0.
Proof.
  destruct (htab_enter (lfhtab_alloc0 demo_header 0 7) (lfhtab_free 0 2 (Epoch.mk_local 0 0)) demo_hheader demo_hash
    (alloc_inv demo_header) (alloc_room demo_header) (fun m => frontier (slab_part m))
    (HA := slab_NodeAlloc demo_header 0 7 demo_header_ok eq_refl) 6 demo_ht (demo_mem 9) demo_T 3)
    as (ht' & p & m' & T' & Hr & _ & Hl & _ & _ & Hv);
    [apply demo_htab_inv|vm_compute; congruence|intros _; split; [done|]; vm_compute; congruence|vm_compute; lia|].
  exists ht', p, m', T'. split; [exact Hr|]. split; [exact Hl|exact Hv].
Defined.

Lemma htab_find_witness :
  run (demo_find 6 demo_ht (demo_hash 5) 5 HASH_FIND) (demo_mem 9) = (Done (demo_ht, Found 64), demo_mem 9).
Proof.
  unfold demo_find.
  rewrite (htab_find (lfhtab_alloc0 demo_header 0 7) (lfhtab_free 0 2 (Epoch.mk_local 0 0)) demo_hheader demo_hash
    (alloc_inv demo_header) (fun m => frontier (slab_part m)) 6 demo_ht (demo_mem 9) demo_T 5
    (demo_htab_inv 9) ltac:(vm_compute; lia)).
  replace (tlookup demo_hheader demo_hash demo_T 5) with (Some 64) by (vm_compute; reflexivity). reflexivity.
Defined.

Lemma demo_not_parked : not_parked slab_parked demo_slab demo_T.
Proof.
  intros b p k (-> & -> & ->)%demo_elem. split; [lia|]. intros i _. apply not_elem_of_nil.
Qed.

Lemma htab_remove_witness :
  exists ms' m', run (demo_find 6 demo_ht (demo_hash 5) 5 HASH_REMOVE) (demo_mem 2) =
      (Done (mk_lfhtab LFHTAB_NULL ms', Removed 2), m') /\
    run (lfhtab_free 0 2 (Epoch.mk_local 0 0) demo_slab 64) (unlinked demo_hheader demo_hash (demo_mem 2) demo_T 5 64) = (Done ms', m') /\
    tlookup demo_hheader demo_hash (without demo_hheader demo_hash demo_T 5) 5 = None.
Proof.
  unfold demo_find.
  pose proof (htab_remove (lfhtab_alloc0 demo_header 0 7) (lfhtab_free 0 2 (Epoch.mk_local 0 0)) demo_hheader demo_hash
    free_inv slab_parked (HF := slab_NodeFree 0 2 (Epoch.mk_local 0 0)) 6 demo_ht (demo_mem 2) demo_T 5
    (demo_table_ok 2) I demo_not_parked ltac:(vm_compute; lia)) as H.
  replace (tlookup demo_hheader demo_hash demo_T 5) with (Some 64) in H by (vm_compute; reflexivity).
  destruct H as (ms' & m' & Hr & Hfree & _ & Hl & _).
  exists ms', m'. split; [exact Hr|]. split; [exact Hfree|exact Hl].
Defined.

(** ** Where the table does not do what its comments say *)

(** The sentinel is not honoured by lookups: whenever an element's value is the
    sentinel (and its key is not), HASH_FIND still returns the element, while the
    documentation of lockfree_htab_init says it returns NULL; the code compares the
    element's key with the sentinel. *)
Theorem htab_find_returns_sentinel {MS} (alloc0 : MS -> prog hloc (MS * Z)) (free_node : MS -> Z -> prog hloc MS)
    (h : lfhtab_header) (hash : Z -> Z) (fuel : nat) (ht : lfhtab (MS := MS)) (m : mem hloc)
    (T : Z -> list (Z * Z)) (key p : Z) :
  table_ok h hash m T -> (length (T (Z.land (hash key) (hashval_mask h))) < fuel)%nat ->
  has_sentinel_value h = true -> key <> sentinel_value h ->
  tlookup h hash T key = Some p -> m (elem_value p) = sentinel_value h ->
  run (lockfree_htab_find alloc0 free_node h fuel ht (hash key) key HASH_FIND) m = (Done (ht, Found p), m).
Proof.
  intros Hok Hf Hs Hk Hp _. rewrite (find_run alloc0 free_node h fuel ht hash m T key Hok Hf), Hp, Hs.
  by destruct (Z.eqb_spec key (sentinel_value h)).
Qed.

Lemma htab_find_returns_sentinel_witness :
  run (demo_find 6 demo_ht (demo_hash 5) 5 HASH_FIND) (demo_mem 2) = (Done (demo_ht, Found 64), demo_mem 2).
Proof.
  exact (htab_find_returns_sentinel (lfhtab_alloc0 demo_header 0 7) (lfhtab_free 0 2 (Epoch.mk_local 0 0))
    demo_hheader demo_hash 6 demo_ht (demo_mem 2) demo_T 5 64 (demo_table_ok 2)
    ltac:(vm_compute; lia) eq_refl ltac:(discriminate) eq_refl eq_refl).
Defined.

(** Two backends on the one-element table whose value is the sentinel. *)
Definition two_backends (a1 a2 : hashaction) (k1 k2 : Z) : config hloc (lfhtab * found) :=
  ([demo_find 8 demo_ht (demo_hash k1) k1 a1; demo_find 8 demo_ht (demo_hash k2) k2 a2], demo_mem 2).

(** There is a schedule of a removal of key 5 and an insertion of key 3 in which
    the remover fails: the insertion lands between marking and unlinking, and when the
    remover then unlinks the marked element it starts freeing at the element's
    unmarked pointer with bit 0 flipped, a misaligned address. *)
Theorem htab_remove_wild_pointer :
  exists sched, match fst (exec sched (two_backends HASH_REMOVE HASH_ENTER 5 3)) with
                | [Err BadPointer; Ret (_, Found _)] => True
                | _ => False
                end.
Proof. exists (replicate 6 0%nat ++ replicate 20 1%nat ++ replicate 20 0%nat). vm_compute. exact I. Qed.

(** There is a schedule of an insertion and a removal of the same key in which the
    inserter dereferences a NULL pointer: it waits for the marked element to
    disappear, and when the bucket has become empty it takes the NULL link for an
    element. *)
Theorem htab_enter_null_pointer :
  exists sched, match fst (exec sched (two_backends HASH_REMOVE HASH_ENTER 5 5)) with
                | [Ret (_, Removed 2); Err BadPointer] => True
                | _ => False
                end.
Proof.
  exists (replicate 6 0%nat ++ replicate 14 1%nat ++ replicate 20 0%nat ++ replicate 20 1%nat).
  vm_compute. exact I.
Qed.

End Htab.
