(* ===== verification/Tuple.v ===== *)
(** * Index tuple format (access/abtree.h, abtutils.c)

    The header of an index tuple is a TID (block and offset number) and the
    16-bit t_info whose low 13 bits are the tuple's size.  Aggregate B-trees keep
    three kinds of tuples apart by bit 13 of t_info and the status bits of the
    offset number: plain leaf tuples, posting-list tuples (several heap TIDs) and
    pivot tuples.  Behind the key come the aggregate values and transaction ids
    (leaf) or the aggregate value and the last-update id (pivot); the macros that
    locate them are byte offsets from the start of the tuple.

    Asserts are not part of the definitions: the theorems state when they hold. *)

From stdpp Require Import base numbers option list.
From S2P Require Import Prelude.

Module Tuple.

Definition SHORTALIGN (len : Z) : Z := TYPEALIGN 2 len.
Definition INTALIGN (len : Z) : Z := TYPEALIGN 4 len.
Definition MAXALIGN_DOWN (len : Z) : Z := Z.land len (Z.lnot 7).

Definition sizeof_ItemPointerData : Z := 6.
Definition sizeof_TransactionId : Z := 4.
Definition sizeof_ABTLastUpdateId : Z := 2.
Definition sizeof_IndexTupleData : Z := 8.

(** ** Bits of the header *)

Definition INDEX_SIZE_MASK : Z := 0x1FFF.
Definition ABT_INDEX_ALT_TID_MASK : Z := 0x2000.
Definition ABT_OFFSET_MASK : Z := 0x0FFF.
Definition ABT_STATUS_OFFSET_MASK : Z := 0xF000.
Definition ABT_PIVOT_HEAP_TID_ATTR : Z := 0x1000.
Definition ABT_IS_POSTING : Z := 0x2000.

(** An index tuple: its header and the bytes behind the header. *)
Record IndexTupleData := mk_tup {
  t_blkno : Z;
  t_posid : Z;
  t_info : Z;
  t_body : list Z
}.

Definition IndexTupleSize (itup : IndexTupleData) : Z := Z.land (t_info itup) INDEX_SIZE_MASK.

Definition alt_tid (itup : IndexTupleData) : bool := negb (Z.land (t_info itup) ABT_INDEX_ALT_TID_MASK =? 0).

Definition ABTreeTupleIsPivot (itup : IndexTupleData) : bool :=
  if negb (alt_tid itup) then false
  else if negb (Z.land (t_posid itup) ABT_IS_POSTING =? 0) then false
  else true.

Definition ABTreeTupleIsPosting (itup : IndexTupleData) : bool :=
  if negb (alt_tid itup) then false
  else if Z.land (t_posid itup) ABT_IS_POSTING =? 0 then false
  else true.

(** BlockNumber is 32 bits wide, OffsetNumber and t_info 16. *)
Definition ABTreeTupleSetPosting (itup : IndexTupleData) (nhtids postingoffset : Z) : IndexTupleData :=
  mk_tup (u32 postingoffset) (u16 (Z.lor (u16 nhtids) ABT_IS_POSTING))
    (Z.lor (t_info itup) ABT_INDEX_ALT_TID_MASK) (t_body itup).

Definition ABTreeTupleGetNPosting (posting : IndexTupleData) : Z := Z.land (t_posid posting) ABT_OFFSET_MASK.
Definition ABTreeTupleGetPostingOffset (posting : IndexTupleData) : Z := t_blkno posting.
Definition ABTreeTupleGetDownLink (pivot : IndexTupleData) : Z := t_blkno pivot.
Definition ABTreeTupleSetDownLink (pivot : IndexTupleData) (blkno : Z) : IndexTupleData :=
  mk_tup (u32 blkno) (t_posid pivot) (t_info pivot) (t_body pivot).

Definition ABTreeTupleGetNAtts (itup : IndexTupleData) (rel_natts : Z) : Z :=
  if ABTreeTupleIsPivot itup then Z.land (t_posid itup) ABT_OFFSET_MASK else rel_natts.

Definition ABTreeTupleSetNAtts (itup : IndexTupleData) (nkeyatts : Z) (heaptid : bool) : IndexTupleData :=
  let nkeyatts := u16 nkeyatts in
  mk_tup (t_blkno itup) (if heaptid then Z.lor nkeyatts ABT_PIVOT_HEAP_TID_ATTR else nkeyatts)
    (Z.lor (t_info itup) ABT_INDEX_ALT_TID_MASK) (t_body itup).

Definition ABTreeTupleGetTopParent (leafhikey : IndexTupleData) : Z := t_blkno leafhikey.
Definition ABTreeTupleSetTopParent (leafhikey : IndexTupleData) (blkno : Z) : IndexTupleData :=
  ABTreeTupleSetNAtts (ABTreeTupleSetDownLink leafhikey blkno) 0 false.

Definition ABTPivotTupleHasHeapTID (itup : IndexTupleData) : bool :=
  negb (Z.land (t_posid itup) ABT_PIVOT_HEAP_TID_ATTR =? 0).

(** ** Space reserved behind the key *)

Record agg_info := mk_agg {
  agg_typlen : Z;
  agg_stride : Z;
  leaf_has_agg : bool;
  extra_space_for_nonpivot_tuple : Z;
  extra_space_when_tid_missing : Z;
  extra_space_when_tid_present : Z
}.

Definition _abt_compute_tuple_offsets (ai : agg_info) : agg_info :=
  let ext_space_wo_tid := MAXALIGN (INTALIGN (agg_typlen ai) + sizeof_ABTLastUpdateId) in
  let ext_space_w_tid := MAXALIGN (INTALIGN (agg_typlen ai) +
    SHORTALIGN sizeof_ABTLastUpdateId + sizeof_ItemPointerData) in
  let ext_space_nonpivot :=
    if leaf_has_agg ai then MAXALIGN (INTALIGN (agg_typlen ai) + sizeof_TransactionId)
    else MAXALIGN sizeof_TransactionId in
  mk_agg (agg_typlen ai) (agg_stride ai) (leaf_has_agg ai)
    ext_space_nonpivot ext_space_wo_tid ext_space_w_tid.

(** Where the parts lie, as byte offsets from the start of the tuple. *)
Section Offsets.
Context (ai : agg_info).

Definition ABTreeNonPivotTupleGetAggPtr (itup : IndexTupleData) : Z :=
  IndexTupleSize itup - extra_space_for_nonpivot_tuple ai.
Definition ABTreePostingTupleGetAggPtr (itup : IndexTupleData) : Z :=
  MAXALIGN (ABTreeTupleGetPostingOffset itup + ABTreeTupleGetNPosting itup * sizeof_ItemPointerData).
Definition ABTreePivotTupleGetAggPtr (itup : IndexTupleData) : Z :=
  if ABTPivotTupleHasHeapTID itup
  then IndexTupleSize itup - extra_space_when_tid_present ai
  else IndexTupleSize itup - extra_space_when_tid_missing ai.

Definition ABTreeTupleGetAggPtr (itup : IndexTupleData) : Z :=
  if negb (alt_tid itup) then ABTreeNonPivotTupleGetAggPtr itup
  else if negb (Z.land (t_posid itup) ABT_IS_POSTING =? 0) then ABTreePostingTupleGetAggPtr itup
  else ABTreePivotTupleGetAggPtr itup.

Definition ABTreeNonPivotTupleGetXminPtr (itup : IndexTupleData) : Z :=
  IndexTupleSize itup - sizeof_TransactionId.
Definition ABTreePostingTupleGetXminPtr (itup : IndexTupleData) : Z :=
  IndexTupleSize itup - sizeof_TransactionId * ABTreeTupleGetNPosting itup.
Definition ABTreeTupleGetXminPtr (itup : IndexTupleData) : Z :=
  if ABTreeTupleIsPosting itup then ABTreePostingTupleGetXminPtr itup
  else ABTreeNonPivotTupleGetXminPtr itup.

Definition ABTreeTupleGetLastUpdateIdPtr (itup : IndexTupleData) : Z :=
  if ABTPivotTupleHasHeapTID itup
  then IndexTupleSize itup - sizeof_ABTLastUpdateId - SHORTALIGN sizeof_ItemPointerData
  else IndexTupleSize itup - sizeof_ABTLastUpdateId.

(** The size of a posting-list tuple (computed in _abt_form_posting and
    _abt_update_posting). *)
Definition posting_size (keysize nhtids : Z) : Z :=
  let newsize := MAXALIGN (keysize + nhtids * sizeof_ItemPointerData) in
  let newsize := if leaf_has_agg ai then newsize + MAXALIGN (agg_stride ai * nhtids) else newsize in
  newsize + MAXALIGN (sizeof_TransactionId * nhtids).

(** The heap TID: [None] when it was truncated away; for a posting list the first
    one. *)
Definition ABTreeTupleGetHeapTID (itup : IndexTupleData) : option Z :=
  if ABTreeTupleIsPivot itup then
    if ABTPivotTupleHasHeapTID itup then Some (IndexTupleSize itup - sizeof_ItemPointerData) else None
  else if ABTreeTupleIsPosting itup then Some (ABTreeTupleGetPostingOffset itup)
  else Some 0.

Definition ABTreeTupleGetMaxHeapTID (itup : IndexTupleData) : Z :=
  if ABTreeTupleIsPosting itup
  then ABTreeTupleGetPostingOffset itup + (ABTreeTupleGetNPosting itup - 1) * sizeof_ItemPointerData
  else 0.

(** ** Adding and dropping a pivot tuple's aggregate *)

Definition set_size (sz : Z) (itup : IndexTupleData) : Z :=
  Z.lor (Z.land (t_info itup) (u16 (Z.lnot INDEX_SIZE_MASK))) sz.

(** The body of an [n]-byte tuple whose first [k] bytes are copied from [itup];
    [after] is what follows [itup] in memory. *)
Definition copy_body (itup : IndexTupleData) (after : list Z) (k n : Z) : list Z :=
  let src := take (Z.to_nat (k - sizeof_IndexTupleData)) (t_body itup ++ after) in
  take (Z.to_nat (n - sizeof_IndexTupleData)) (src ++ replicate (Z.to_nat n) 0).

(** The last six bytes: a pivot tuple's heap TID. *)
Definition tid_bytes (itup : IndexTupleData) : list Z :=
  drop (Z.to_nat (IndexTupleSize itup - sizeof_IndexTupleData - sizeof_ItemPointerData)) (t_body itup).
Definition set_tid_bytes (tid body : list Z) : list Z :=
  take (length body - 6) body ++ tid.

Definition _abt_pivot_tuple_purge_agg_space (itup : IndexTupleData) : IndexTupleData :=
  if ABTPivotTupleHasHeapTID itup then
    let new_size_excluding_tid := IndexTupleSize itup - extra_space_when_tid_present ai in
    let new_size := MAXALIGN (new_size_excluding_tid + sizeof_ItemPointerData) in
    mk_tup (t_blkno itup) (t_posid itup) (set_size new_size itup)
      (set_tid_bytes (tid_bytes itup) (copy_body itup [] new_size_excluding_tid new_size))
  else
    let new_size := IndexTupleSize itup - extra_space_when_tid_missing ai in
    mk_tup (t_blkno itup) (t_posid itup) (set_size new_size itup) (copy_body itup [] new_size new_size).

Definition _abt_pivot_tuple_reserve_agg_space (itup : IndexTupleData) (after : list Z) : IndexTupleData :=
  if ABTPivotTupleHasHeapTID itup then
    let base_size := MAXALIGN_DOWN (IndexTupleSize itup - sizeof_ItemPointerData) in
    let new_size := base_size + extra_space_when_tid_present ai in
    mk_tup (t_blkno itup) (t_posid itup) (set_size new_size itup)
      (set_tid_bytes (tid_bytes itup) (copy_body itup after base_size new_size))
  else
    let new_size := IndexTupleSize itup + extra_space_when_tid_missing ai in
    mk_tup (t_blkno itup) (t_posid itup) (set_size new_size itup) (copy_body itup after new_size new_size).

End Offsets.

(** ** Alignment *)

Lemma SHORTALIGN_eq len : SHORTALIGN len = (len + 1) / 2 * 2.
Proof. exact (TYPEALIGN_pow2 1 len ltac:(lia)). Qed.
Lemma INTALIGN_eq len : INTALIGN len = (len + 3) / 4 * 4.
Proof. exact (TYPEALIGN_pow2 2 len ltac:(lia)). Qed.
Lemma MAXALIGN_DOWN_eq len : MAXALIGN_DOWN len = len / 8 * 8.
Proof.
  unfold MAXALIGN_DOWN. change 7 with (2 ^ 3 - 1). rewrite land_lnot_mask by lia.
  change (2 ^ 3) with 8. divlia.
Qed.

Ltac align_lia := rewrite ?MAXALIGN_eq, ?INTALIGN_eq, ?SHORTALIGN_eq, ?MAXALIGN_DOWN_eq in *; divlia.

(** ** Setting the kind of a tuple *)

Lemma testbit_alt_tid itup : alt_tid itup = Z.testbit (t_info itup) 13.
Proof.
  unfold alt_tid. change ABT_INDEX_ALT_TID_MASK with (2 ^ 13).
  destruct (Z.testbit (t_info itup) 13) eqn:E.
  - destruct (Z.eqb_spec (Z.land (t_info itup) (2 ^ 13)) 0) as [H|]; [|done].
    apply land_bit_eq0 in H; [congruence|lia].
  - apply land_bit_eq0 in E; [|lia]. by rewrite E.
Qed.

Lemma bit_test a k : 0 <= k -> negb (Z.land a (2 ^ k) =? 0) = Z.testbit a k.
Proof.
  intros Hk. destruct (Z.testbit a k) eqn:E.
  - destruct (Z.eqb_spec (Z.land a (2 ^ k)) 0) as [H|]; [|done].
    apply land_bit_eq0 in H; [congruence|done].
  - apply land_bit_eq0 in E; [|done]. by rewrite E.
Qed.

Lemma lor_bit a k : 0 <= k -> Z.testbit (Z.lor a (2 ^ k)) k = true.
Proof. intros. by rewrite Z.lor_spec, Z.pow2_bits_true, orb_true_r. Qed.

Lemma lor_bit_other a k j : 0 <= k -> 0 <= j -> j <> k -> Z.testbit (Z.lor a (2 ^ k)) j = Z.testbit a j.
Proof. intros. rewrite Z.lor_spec, Z.pow2_bits_eqb by done. destruct (Z.eqb_spec k j); [done|]. by rewrite orb_false_r. Qed.

Lemma land_lor_bit a k m : 0 <= m <= k -> Z.land (Z.lor a (2 ^ k)) (2 ^ m - 1) = Z.land a (2 ^ m - 1).
Proof.
  intros Hm. rewrite Z.land_lor_distr_l, (land_mask (2 ^ k)) by lia.
  replace (2 ^ k) with (2 ^ (k - m) * 2 ^ m) by (rewrite <- Z.pow_add_r by lia; f_equal; lia).
  rewrite Z.mod_mul by lia. apply Z.lor_0_r.
Qed.

Lemma small_bit a k j : 0 <= a < 2 ^ k -> k <= j -> Z.testbit a j = false.
Proof.
  intros Ha Hj. destruct (Z.eq_dec a 0) as [->|]; [apply Z.bits_0|].
  apply Z.bits_above_log2; [lia|]. apply Z.log2_lt_pow2; [lia|].
  apply Z.lt_le_trans with (2 ^ k); [lia|]. apply Z.pow_le_mono_r; lia.
Qed.

Lemma alt_tid_set itup b p body :
  alt_tid (mk_tup b p (Z.lor (t_info itup) ABT_INDEX_ALT_TID_MASK) body) = true.
Proof. rewrite testbit_alt_tid. apply (lor_bit _ 13). lia. Qed.

Lemma size_alt_tid itup b p body :
  IndexTupleSize (mk_tup b p (Z.lor (t_info itup) ABT_INDEX_ALT_TID_MASK) body) = IndexTupleSize itup.
Proof. apply (land_lor_bit (t_info itup) 13 13). lia. Qed.

(** A tuple made a posting list with n TIDs at some offset (n below 4096, the
    documented limit) reads back as a posting list and not as a pivot, with that
    number of TIDs, that offset, and its size unchanged. *)
Theorem tuple_posting_roundtrip (itup : IndexTupleData) (n off : Z) :
  1 < n < 4096 -> 0 <= off < 2 ^ 32 ->
  let p := ABTreeTupleSetPosting itup n off in
  ABTreeTupleIsPosting p = true /\ ABTreeTupleIsPivot p = false /\
  ABTreeTupleGetNPosting p = n /\ ABTreeTupleGetPostingOffset p = off /\
  IndexTupleSize p = IndexTupleSize itup.
Proof.
  intros Hn Hoff p.
  assert (Hpos : t_posid p = Z.lor n (2 ^ 13)).
  { simpl. unfold u16. rewrite (Z.mod_small n) by lia. apply Z.mod_small.
    split; [apply Z.lor_nonneg; lia|]. apply Z.log2_lt_cancel. rewrite Z.log2_lor by lia.
    apply Z.max_lub_lt; [|done]. change (Z.log2 (2 ^ 16)) with 16; apply Z.log2_lt_pow2; lia. }
  assert (Hbit : (Z.land (t_posid p) ABT_IS_POSTING =? 0) = false).
  { apply negb_true_iff. rewrite Hpos. change ABT_IS_POSTING with (2 ^ 13).
    rewrite bit_test by lia. apply lor_bit. lia. }
  unfold ABTreeTupleIsPosting, ABTreeTupleIsPivot. rewrite Hbit.
  unfold p at 1 2, ABTreeTupleSetPosting. rewrite alt_tid_set. repeat split.
  - unfold ABTreeTupleGetNPosting. rewrite Hpos. change ABT_OFFSET_MASK with (2 ^ 12 - 1).
    rewrite land_lor_bit, land_mask by lia. apply Z.mod_small. lia.
  - apply u32_small. lia.
  - apply size_alt_tid.
Qed.

Definition demo_tup : IndexTupleData := mk_tup 7 3 32 (replicate 24 0).

Lemma tuple_posting_roundtrip_witness :
  ABTreeTupleGetNPosting (ABTreeTupleSetPosting demo_tup 5 16) = 5.
Proof. apply (tuple_posting_roundtrip demo_tup 5 16); lia. Defined.

(** A tuple made a pivot with n key columns (n below 4096), with or without a
    trailing heap TID, reads back as a pivot with those columns and that TID flag. *)
Theorem tuple_natts_roundtrip (itup : IndexTupleData) (n natts : Z) (heaptid : bool) :
  0 <= n < 4096 ->
  let p := ABTreeTupleSetNAtts itup n heaptid in
  ABTreeTupleIsPivot p = true /\ ABTreeTupleIsPosting p = false /\
  ABTreeTupleGetNAtts p natts = n /\ ABTPivotTupleHasHeapTID p = heaptid /\
  IndexTupleSize p = IndexTupleSize itup /\ ABTreeTupleGetDownLink p = ABTreeTupleGetDownLink itup.
Proof.
  intros Hn p.
  assert (Hpos : t_posid p = if heaptid then Z.lor n (2 ^ 12) else n).
  { simpl. unfold u16. by rewrite (Z.mod_small n) by lia. }
  assert (Hn13 : Z.testbit (t_posid p) 13 = false).
  { rewrite Hpos. destruct heaptid; [rewrite lor_bit_other by lia|]; apply (small_bit n 12); lia. }
  assert (Hbit : (Z.land (t_posid p) ABT_IS_POSTING =? 0) = true).
  { apply negb_false_iff. change ABT_IS_POSTING with (2 ^ 13). by rewrite bit_test by lia. }
  assert (Hnat : Z.land (t_posid p) ABT_OFFSET_MASK = n).
  { rewrite Hpos. change ABT_OFFSET_MASK with (2 ^ 12 - 1).
    destruct heaptid; rewrite ?land_lor_bit, land_mask by lia; apply Z.mod_small; lia. }
  assert (Halt : alt_tid p = true) by apply alt_tid_set.
  unfold ABTreeTupleGetNAtts, ABTreeTupleIsPivot, ABTreeTupleIsPosting. rewrite Halt, Hbit, Hnat.
  repeat split; [|apply size_alt_tid].
  unfold ABTPivotTupleHasHeapTID. change ABT_PIVOT_HEAP_TID_ATTR with (2 ^ 12).
  rewrite bit_test, Hpos by lia. destruct heaptid; [by apply lor_bit|]. apply (small_bit n 12); lia.
Qed.

Lemma tuple_natts_roundtrip_witness :
  ABTreeTupleGetNAtts (ABTreeTupleSetNAtts demo_tup 2 true) 9 = 2.
Proof. apply (tuple_natts_roundtrip demo_tup 2 9 true). lia. Defined.

(** ** The parts of a tuple do not overlap *)

(** In a posting-list tuple of the computed size the TID array, the aggregate
    array and the transaction-id array lie one behind the other, do not overlap,
    fill the tuple to its end, and are aligned. *)
Theorem tuple_posting_layout (ai : agg_info) (itup : IndexTupleData) :
  let n := ABTreeTupleGetNPosting itup in
  let off := ABTreeTupleGetPostingOffset itup in
  0 < n -> 0 <= agg_stride ai -> off mod 8 = 0 -> IndexTupleSize itup = posting_size ai off n ->
  let aggs := ABTreePostingTupleGetAggPtr itup in
  let xmins := ABTreePostingTupleGetXminPtr itup in
  off + n * sizeof_ItemPointerData <= aggs /\ aggs mod 8 = 0 /\
  (if leaf_has_agg ai then aggs + agg_stride ai * n <= xmins else aggs <= xmins) /\
  xmins mod 4 = 0 /\ xmins + sizeof_TransactionId * n = IndexTupleSize itup.
Proof.
  intros n off Hn Hst Hoff Hsz aggs xmins.
  unfold aggs, xmins, ABTreePostingTupleGetXminPtr, ABTreePostingTupleGetAggPtr. fold n off.
  rewrite Hsz. unfold posting_size, sizeof_TransactionId, sizeof_ItemPointerData.
  set (k := agg_stride ai * n).
  destruct (MAXALIGN_spec (off + n * 6)) as [? ?], (MAXALIGN_spec (4 * n)) as [? ?],
    (MAXALIGN_spec k) as [? ?].
  destruct (leaf_has_agg ai); repeat split; try lia; divlia.
Qed.

(** Three TIDs behind a 16-byte key part, 8-byte aggregates. *)
Definition demo_ai : agg_info := _abt_compute_tuple_offsets (mk_agg 8 8 true 0 0 0).
Definition demo_posting : IndexTupleData :=
  ABTreeTupleSetPosting (mk_tup 7 3 (posting_size demo_ai 16 3) (replicate 72 0)) 3 16.

Lemma tuple_posting_layout_witness :
  ABTreePostingTupleGetAggPtr demo_posting + 8 * 3 <= ABTreePostingTupleGetXminPtr demo_posting.
Proof.
  exact (proj1 (proj2 (proj2 (tuple_posting_layout demo_ai demo_posting
    ltac:(vm_compute; congruence) ltac:(vm_compute; congruence) ltac:(reflexivity) ltac:(reflexivity))))).
Defined.

(** With the reserved space computed from the aggregate's length (1 to 8 bytes),
    in every tuple of aligned size the aggregate value, the last-update id and the
    heap TID of a pivot, and the aggregate value and the transaction id of a plain
    leaf tuple, do not overlap, stay inside the reserved space, and are aligned. *)
Theorem tuple_reserved_layout (ai0 : agg_info) (itup : IndexTupleData) :
  1 <= agg_typlen ai0 <= 8 -> IndexTupleSize itup mod 8 = 0 ->
  let ai := _abt_compute_tuple_offsets ai0 in
  let agg := ABTreePivotTupleGetAggPtr ai itup in
  let luid := ABTreeTupleGetLastUpdateIdPtr itup in
  agg mod 8 = 0 /\ agg + agg_typlen ai <= luid /\ luid mod 2 = 0 /\
  luid + sizeof_ABTLastUpdateId <=
    IndexTupleSize itup - (if ABTPivotTupleHasHeapTID itup then sizeof_ItemPointerData else 0) /\
  let leafagg := ABTreeNonPivotTupleGetAggPtr ai itup in
  let xmin := ABTreeNonPivotTupleGetXminPtr itup in
  leafagg mod 8 = 0 /\ (if leaf_has_agg ai then leafagg + agg_typlen ai <= xmin else leafagg <= xmin) /\
  xmin mod 4 = 0.
Proof.
  intros Hlen Hsz ai. unfold ABTreePivotTupleGetAggPtr, ABTreeTupleGetLastUpdateIdPtr,
    ABTreeNonPivotTupleGetAggPtr, ABTreeNonPivotTupleGetXminPtr, ai, _abt_compute_tuple_offsets.
  cbn [agg_typlen leaf_has_agg extra_space_for_nonpivot_tuple extra_space_when_tid_missing extra_space_when_tid_present].
  change (SHORTALIGN sizeof_ItemPointerData) with 6. change (SHORTALIGN sizeof_ABTLastUpdateId) with 2.
  unfold sizeof_ABTLastUpdateId, sizeof_ItemPointerData, sizeof_TransactionId.
  destruct (ABTPivotTupleHasHeapTID itup), (leaf_has_agg ai0); repeat split; align_lia.
Qed.

Lemma tuple_reserved_layout_witness :
  ABTreePivotTupleGetAggPtr demo_ai demo_tup + 8 <= ABTreeTupleGetLastUpdateIdPtr demo_tup.
Proof.
  exact (proj1 (proj2 (tuple_reserved_layout (mk_agg 8 8 true 0 0 0) demo_tup
    ltac:(simpl; lia) ltac:(reflexivity)))).
Defined.

(** ** Reserving and purging the aggregate of a pivot *)

Lemma set_size_spec sz itup b p body :
  0 <= sz < 2 ^ 13 -> 0 <= t_info itup < 2 ^ 16 ->
  let t := mk_tup b p (set_size sz itup) body in
  IndexTupleSize t = sz /\ forall sz', set_size sz' t = set_size sz' itup.
Proof.
  intros Hsz Hi t. unfold t, IndexTupleSize, set_size. cbn [t_info].
  change (u16 (Z.lnot INDEX_SIZE_MASK)) with (Z.land (Z.lnot (2 ^ 13 - 1)) (2 ^ 16 - 1)).
  change INDEX_SIZE_MASK with (2 ^ 13 - 1).
  assert (Hlow : Z.land (Z.lnot (2 ^ 13 - 1)) (2 ^ 13 - 1) = 0) by (vm_compute; done).
  assert (Hs : Z.land sz (Z.lnot (2 ^ 13 - 1)) = 0).
  { rewrite land_lnot_mask, Z.mod_small by lia. lia. }
  split.
  - rewrite Z.land_lor_distr_l, (Z.land_assoc (t_info itup)), <- !Z.land_assoc.
    rewrite (Z.land_comm (2 ^ 16 - 1)), (Z.land_assoc (Z.lnot _)), Hlow, Z.land_0_l, Z.land_0_r, Z.lor_0_l.
    rewrite land_mask by lia. apply Z.mod_small. lia.
  - intros sz'. f_equal. rewrite Z.land_lor_distr_l, (Z.land_assoc sz), Hs, Z.land_0_l, Z.lor_0_r.
    rewrite <- Z.land_assoc, Z.land_diag. done.
Qed.

Lemma set_size_same itup : 0 <= t_info itup < 2 ^ 16 -> set_size (IndexTupleSize itup) itup = t_info itup.
Proof.
  intros Hi. unfold set_size, IndexTupleSize. rewrite <- Z.land_lor_distr_r.
  replace (Z.lor (u16 (Z.lnot INDEX_SIZE_MASK)) INDEX_SIZE_MASK) with (2 ^ 16 - 1) by reflexivity.
  rewrite land_mask by lia. apply Z.mod_small. lia.
Qed.

Lemma copy_body_inside itup after k n (j d : nat) :
  j = Z.to_nat (k - 8) -> (j + d)%nat = Z.to_nat (n - 8) -> (j <= length (t_body itup))%nat ->
  copy_body itup after k n = take j (t_body itup) ++ replicate d 0.
Proof.
  intros Hj Hd Hl. unfold copy_body, sizeof_IndexTupleData. rewrite <- Hj, <- Hd, (take_app_le (t_body itup)) by done.
  rewrite take_app_ge by (rewrite length_take; lia). f_equal.
  rewrite length_take, min_l by done. rewrite take_replicate. f_equal. lia.
Qed.

(** Copying [e] bytes more than the tuple has: they come from behind it. *)
Lemma copy_body_overread itup after e :
  0 <= e <= Z.of_nat (length after) -> Z.of_nat (length (t_body itup)) = IndexTupleSize itup - 8 ->
  copy_body itup after (IndexTupleSize itup + e) (IndexTupleSize itup + e) =
  t_body itup ++ take (Z.to_nat e) after.
Proof.
  intros He Hb. unfold copy_body, sizeof_IndexTupleData.
  replace (Z.to_nat (IndexTupleSize itup + e - 8)) with (length (t_body itup) + Z.to_nat e)%nat by lia.
  rewrite take_app_le, take_take, Nat.min_id by (rewrite length_take, length_app; lia).
  rewrite take_app_ge by lia. do 2 f_equal. lia.
Qed.

(** What makes a pivot tuple: its body has the size the header says and, when it
    ends in a heap TID, the two bytes before the TID are padding. *)
Record pivot_wf (itup : IndexTupleData) : Prop := {
  pw_info : 0 <= t_info itup < 2 ^ 16;
  pw_size : 16 <= IndexTupleSize itup /\ IndexTupleSize itup mod 8 = 0;
  pw_body : Z.of_nat (length (t_body itup)) = IndexTupleSize itup - 8;
  pw_pad : ABTPivotTupleHasHeapTID itup = true ->
    take 2 (drop (length (t_body itup) - 8) (t_body itup)) = [0; 0]
}.

(** Reserving and purging, for pivots with and without a heap TID. *)
Lemma reserve_purge_tid (ai : agg_info) (itup : IndexTupleData) (after : list Z) :
  pivot_wf itup ->
  8 <= extra_space_when_tid_present ai -> extra_space_when_tid_present ai mod 8 = 0 ->
  0 <= extra_space_when_tid_missing ai <= Z.of_nat (length after) ->
  IndexTupleSize itup + extra_space_when_tid_present ai < 2 ^ 13 ->
  IndexTupleSize itup + extra_space_when_tid_missing ai < 2 ^ 13 ->
  ABTPivotTupleHasHeapTID itup = true ->
  _abt_pivot_tuple_purge_agg_space ai (_abt_pivot_tuple_reserve_agg_space ai itup after) = itup.
Proof.
  intros [Hi [Hs Hs8] Hb Hpad] Hp Hp8 Hm Hpmax Hmmax Htid.
  assert (Hdown : MAXALIGN_DOWN (IndexTupleSize itup - 6) = IndexTupleSize itup - 8)
    by (rewrite MAXALIGN_DOWN_eq; divlia).
  unfold _abt_pivot_tuple_reserve_agg_space, _abt_pivot_tuple_purge_agg_space,
    sizeof_ItemPointerData. rewrite Hdown, Htid.
  set (sz := IndexTupleSize itup - 8 + extra_space_when_tid_present ai).
  set (body := set_tid_bytes _ _).
  destruct (set_size_spec sz itup (t_blkno itup) (t_posid itup) body) as [Hsz Hset]; [lia|done|].
  set (t := mk_tup _ _ _ body) in *.
  replace (ABTPivotTupleHasHeapTID t) with true by (by rewrite <- Htid).
  rewrite Hsz, Hset. replace (sz - extra_space_when_tid_present ai) with (IndexTupleSize itup - 8) by lia.
  replace (MAXALIGN (IndexTupleSize itup - 8 + 6)) with (IndexTupleSize itup) by (rewrite MAXALIGN_eq; divlia).
  rewrite set_size_same by done.
  set (L := (length (t_body itup) - 8)%nat).
  assert (HL : length (t_body itup) = (L + 8)%nat) by lia.
  assert (HbL : t_body itup = take L (t_body itup) ++ [0; 0] ++ tid_bytes itup).
  { unfold tid_bytes, sizeof_IndexTupleData, sizeof_ItemPointerData.
    replace (Z.to_nat (IndexTupleSize itup - 8 - 6)) with (L + 2)%nat by lia.
    rewrite <- (take_drop L (t_body itup)) at 1. f_equal.
    rewrite <- (take_drop 2 (drop L (t_body itup))). fold L in Hpad. rewrite Hpad by done.
    by rewrite drop_drop. }
  assert (Htb : length (tid_bytes itup) = 6%nat).
  { apply (f_equal length) in HbL. rewrite !length_app, length_take in HbL. simpl in HbL. lia. }
  assert (Hbody : body = take L (t_body itup) ++ replicate (Z.to_nat (extra_space_when_tid_present ai) - 6) 0 ++ tid_bytes itup).
  { unfold body, set_tid_bytes. rewrite (copy_body_inside itup after _ _ L (Z.to_nat (extra_space_when_tid_present ai))) by lia.
    rewrite length_app, length_take, length_replicate, min_l by lia.
    rewrite take_app_ge by (rewrite length_take; lia). rewrite length_take, min_l by lia.
    rewrite take_replicate, <- app_assoc. do 2 f_equal. f_equal. lia. }
  assert (Hlen : length body = (L + Z.to_nat (extra_space_when_tid_present ai))%nat).
  { rewrite Hbody, !length_app, length_take, length_replicate, Htb. lia. }
  assert (Htid' : tid_bytes t = tid_bytes itup).
  { unfold tid_bytes at 1. rewrite Hsz. cbn [t_body t]. rewrite Hbody, app_assoc.
    apply drop_app_length'. rewrite length_app, length_take, length_replicate.
    unfold sizeof_IndexTupleData, sizeof_ItemPointerData. lia. }
  rewrite Htid'. destruct itup as [blk pos info bd]. unfold t. cbn [t_blkno t_posid].
  f_equal. rewrite (copy_body_inside _ [] _ _ L 8) by (cbn [t_body]; lia). cbn [t_body].
  rewrite Hbody. rewrite take_app_le by (rewrite length_take; simpl in *; lia).
  rewrite take_take, Nat.min_id. cbn [t_body] in *. symmetry. etransitivity; [exact HbL|].
  unfold set_tid_bytes. rewrite length_app, length_take, length_replicate, min_l by lia.
  rewrite take_app_ge by (rewrite length_take; lia). rewrite length_take, min_l by lia.
  replace (L + 8 - 6 - L)%nat with 2%nat by lia. simpl. by rewrite <- app_assoc.
Qed.

Lemma reserve_purge_no_tid (ai : agg_info) (itup : IndexTupleData) (after : list Z) :
  pivot_wf itup ->
  8 <= extra_space_when_tid_present ai -> extra_space_when_tid_present ai mod 8 = 0 ->
  0 <= extra_space_when_tid_missing ai <= Z.of_nat (length after) ->
  IndexTupleSize itup + extra_space_when_tid_present ai < 2 ^ 13 ->
  IndexTupleSize itup + extra_space_when_tid_missing ai < 2 ^ 13 ->
  ABTPivotTupleHasHeapTID itup = false ->
  _abt_pivot_tuple_purge_agg_space ai (_abt_pivot_tuple_reserve_agg_space ai itup after) = itup.
Proof.
  intros [Hi [Hs Hs8] Hb Hpad] Hp Hp8 Hm Hpmax Hmmax Htid.
  assert (Hdown : MAXALIGN_DOWN (IndexTupleSize itup - 6) = IndexTupleSize itup - 8)
    by (rewrite MAXALIGN_DOWN_eq; divlia).
  unfold _abt_pivot_tuple_reserve_agg_space, _abt_pivot_tuple_purge_agg_space,
    sizeof_ItemPointerData. rewrite Hdown, Htid.
  set (sz := IndexTupleSize itup + extra_space_when_tid_missing ai).
  set (body := copy_body itup after sz sz).
  destruct (set_size_spec sz itup (t_blkno itup) (t_posid itup) body) as [Hsz Hset]; [lia|done|].
  set (t := mk_tup _ _ _ body) in *.
  replace (ABTPivotTupleHasHeapTID t) with false by (by rewrite <- Htid).
  rewrite Hsz, Hset. replace (sz - extra_space_when_tid_missing ai) with (IndexTupleSize itup) by lia.
  pose proof (copy_body_overread itup after (extra_space_when_tid_missing ai) Hm Hb) as Hbody.
  fold sz body in Hbody. rewrite set_size_same by done. destruct itup as [blk pos info bd].
  unfold t. cbn [t_blkno t_posid t_body] in *. f_equal.
  rewrite (copy_body_inside _ [] _ _ (length bd) 0); cbn [t_body]; [|lia|lia|].
  + rewrite Hbody, app_nil_r. by rewrite take_app_length.
  + rewrite Hbody, length_app. lia.
Qed.

(** Reserving the aggregate space of a well-formed pivot tuple and purging it again
    gives the original tuple, whatever lies behind the tuple in memory. *)
Theorem pivot_agg_space_roundtrip (ai : agg_info) (itup : IndexTupleData) (after : list Z) :
  pivot_wf itup ->
  8 <= extra_space_when_tid_present ai -> extra_space_when_tid_present ai mod 8 = 0 ->
  0 <= extra_space_when_tid_missing ai <= Z.of_nat (length after) ->
  IndexTupleSize itup + extra_space_when_tid_present ai < 2 ^ 13 ->
  IndexTupleSize itup + extra_space_when_tid_missing ai < 2 ^ 13 ->
  _abt_pivot_tuple_purge_agg_space ai (_abt_pivot_tuple_reserve_agg_space ai itup after) = itup.
Proof.
  intros. destruct (ABTPivotTupleHasHeapTID itup) eqn:Htid; [by apply reserve_purge_tid|by apply reserve_purge_no_tid].
Qed.

Definition demo_pivot : IndexTupleData := ABTreeTupleSetNAtts (mk_tup 7 3 24 (replicate 16 0)) 1 true.

Lemma demo_pivot_wf : pivot_wf demo_pivot.
Proof. constructor; vm_compute; repeat split; congruence. Qed.

Lemma pivot_agg_space_roundtrip_witness :
  _abt_pivot_tuple_purge_agg_space demo_ai (_abt_pivot_tuple_reserve_agg_space demo_ai demo_pivot (replicate 16 9)) =
  demo_pivot.
Proof.
  apply pivot_agg_space_roundtrip; [exact demo_pivot_wf|vm_compute; repeat split; congruence..].
Defined.

(** Reserving aggregate space for a pivot tuple without a heap TID copies the
    bytes behind the tuple: the reserved area of the result is what happened to
    follow the tuple in memory, because memcpy is given the new size. *)
Theorem pivot_reserve_overread (ai : agg_info) (itup : IndexTupleData) (after : list Z) :
  ABTPivotTupleHasHeapTID itup = false ->
  0 <= extra_space_when_tid_missing ai <= Z.of_nat (length after) ->
  Z.of_nat (length (t_body itup)) = IndexTupleSize itup - 8 ->
  t_body (_abt_pivot_tuple_reserve_agg_space ai itup after) =
  t_body itup ++ take (Z.to_nat (extra_space_when_tid_missing ai)) after.
Proof.
  intros Htid He Hb. unfold _abt_pivot_tuple_reserve_agg_space. rewrite Htid.
  by apply copy_body_overread.
Qed.

Lemma pivot_reserve_overread_witness :
  t_body (_abt_pivot_tuple_reserve_agg_space demo_ai demo_tup (replicate 16 9)) = replicate 24 0 ++ replicate 16 9.
Proof.
  rewrite (pivot_reserve_overread demo_ai demo_tup (replicate 16 9));
    [reflexivity|reflexivity|vm_compute; split; congruence|reflexivity].
Defined.

End Tuple.
