(* ===== verification/Dedup.v ===== *)
(** * Deduplication of leaf pages (abtdedup.c)

    A leaf tuple is its key (the images of its key columns), its size, and the
    arrays of heap TIDs, aggregate values and creating transactions; a posting
    list tuple has several of each and the offset at which its TID array starts.
    The byte layout behind this view is the subject of [Tuple].

    The pass over a page keeps the state of the pending posting list in a
    [dedup_state], writes finished tuples to a new page and fails with
    [ElogError] when a tuple does not fit there.  The Asserts are not part of the
    definitions. *)

From stdpp Require Import base numbers option sorting list.
From S2P Require Import Prelude Shmem Tuple.

Module Dedup.
Import Tuple.

(** ** Heap TIDs *)

(** ItemPointerData: block and offset number. *)
Record tid := mk_tid { ip_blkid : Z; ip_posid : Z }.

#[export] Instance tid_eq_dec : EqDecision tid.
Proof. solve_decision. Defined.

Definition ItemPointerIsValid (t : tid) : bool := negb (ip_posid t =? 0).

Definition ItemPointerCompare (a b : tid) : Z :=
  if ip_blkid a <? ip_blkid b then -1
  else if ip_blkid b <? ip_blkid a then 1
  else if ip_posid a <? ip_posid b then -1
  else if ip_posid b <? ip_posid a then 1
  else 0.

(** ** Leaf tuples *)

Record itup := mk_itup {
  it_key : list (option Z);     (** datum images; [None] is NULL *)
  it_size : Z;                  (** IndexTupleSize *)
  it_postingoff : option Z;     (** posting offset of a posting list tuple *)
  it_tids : list tid;
  it_aggs : list Z;
  it_xmins : list Z
}.

Definition is_posting (t : itup) : bool := match it_postingoff t with Some _ => true | None => false end.
Definition nposting (t : itup) : Z := Z.of_nat (length (it_tids t)).

(** _abt_keep_natts_fast on the first [keysz] columns. *)
Fixpoint keep_natts_from (keysz : nat) (k1 k2 : list (option Z)) (keepnatts : Z) : Z :=
  match keysz with
  | O => keepnatts
  | S n =>
      match k1, k2 with
      | None :: k1', None :: k2' => keep_natts_from n k1' k2' (keepnatts + 1)
      | Some d1 :: k1', Some d2 :: k2' =>
          if d1 =? d2 then keep_natts_from n k1' k2' (keepnatts + 1) else keepnatts
      | _, _ => keepnatts
      end
  end.
Definition _abt_keep_natts_fast (keysz : nat) (lastleft firstright : itup) : Z :=
  keep_natts_from keysz (it_key lastleft) (it_key firstright) 1.

(** ** Pages *)

Definition BLCKSZ : Z := 8192.
Definition SizeOfPageHeaderData : Z := 24.
Definition sizeof_ItemIdData : Z := 4.
Definition sizeof_ABTPageOpaqueData : Z := 24.

(** What an item takes on a page, with its line pointer. *)
Definition item_space (t : itup) : Z := MAXALIGN (it_size t) + sizeof_ItemIdData.

(** A page under construction: its items and the bytes between pd_lower and
    pd_upper. *)
Record newpage := mk_page { pg_items : list itup; pg_free : Z }.

Definition empty_page : newpage :=
  mk_page [] (BLCKSZ - SizeOfPageHeaderData - MAXALIGN sizeof_ABTPageOpaqueData).

Definition PageAddItem (p : newpage) (t : itup) : option newpage :=
  if item_space t <=? pg_free p then Some (mk_page (pg_items p ++ [t]) (pg_free p - item_space t)) else None.

Section Dedup.
Context (ai : agg_info).

(** ABTMaxItemSizeNoAgg(page) *)
Definition ABTMaxItemSizeNoAgg : Z :=
  MAXALIGN_DOWN ((BLCKSZ - MAXALIGN SizeOfPageHeaderData - MAXALIGN (3 * sizeof_ItemIdData) -
    MAXALIGN (3 * sizeof_ItemPointerData) - MAXALIGN sizeof_ABTPageOpaqueData) / 3).

Definition ABTREE_SINGLEVAL_FILLFACTOR : Z := 96.

(** ABTDedupStateData, with intervals in reverse order. *)
Record dedup_state := mk_state {
  deduplicate : bool;
  save_extra : bool;
  nmaxitems : Z;
  maxpostingsize : Z;
  base : itup;
  baseoff : Z;
  basetupsize : Z;
  htids : list tid;
  aggs : list Z;
  xmins : list Z;
  nitems : Z;
  phystupsize : Z;
  intervals : list (Z * Z)
}.

Definition nhtids (st : dedup_state) : Z := Z.of_nat (length (htids st)).

Definition _abt_dedup_start_pending (st : dedup_state) (b : itup) (off : Z) : dedup_state :=
  let fits := it_size b <=? maxpostingsize st in
  mk_state (deduplicate st) (save_extra st) (nmaxitems st) (maxpostingsize st)
    b off
    (if fits
     then match it_postingoff b with
          | None => it_size b - extra_space_for_nonpivot_tuple ai
          | Some o => o
          end
     else basetupsize st)
    (if fits then it_tids b else [])
    (if fits && save_extra st && leaf_has_agg ai then it_aggs b else aggs st)
    (if fits && save_extra st then it_xmins b else xmins st)
    1 (item_space b) (intervals st).

(** The size _abt_dedup_save_htid computes for the merged tuple. *)
Definition merged_size (st : dedup_state) (n : Z) : Z :=
  let mergedtupsz := basetupsize st + MAXALIGN ((nhtids st + n) * sizeof_ItemPointerData) in
  let mergedtupsz := if leaf_has_agg ai
                     then mergedtupsz + MAXALIGN (agg_stride ai * (nhtids st + n)) else mergedtupsz in
  mergedtupsz + MAXALIGN (sizeof_TransactionId * (nhtids st + n)).

Definition bump_nmaxitems (st : dedup_state) : dedup_state :=
  mk_state (deduplicate st) (save_extra st) (nmaxitems st + 1) (maxpostingsize st) (base st) (baseoff st)
    (basetupsize st) (htids st) (aggs st) (xmins st) (nitems st) (phystupsize st) (intervals st).

Definition _abt_dedup_save_htid (st : dedup_state) (t : itup) : dedup_state * bool :=
  if nhtids st =? 0 then
    ((if is_posting t && (50 <? nposting t) then bump_nmaxitems st else st), false)
  else
    let n := if is_posting t then nposting t else 1 in
    if maxpostingsize st <? merged_size st n then
      ((if 50 <? nhtids st then bump_nmaxitems st else st), false)
    else
      (mk_state (deduplicate st) (save_extra st) (nmaxitems st) (maxpostingsize st)
         (base st) (baseoff st) (basetupsize st) (htids st ++ it_tids t)
         (if save_extra st && leaf_has_agg ai then aggs st ++ it_aggs t else aggs st)
         (if save_extra st then xmins st ++ it_xmins t else xmins st)
         (nitems st + 1) (phystupsize st + item_space t) (intervals st), true).

(** The zeroed arrays of a tuple that has been formed but not filled in. *)
Definition zero_aggs (n : nat) : list Z := if leaf_has_agg ai then replicate n 0 else [].

Definition _abt_form_posting (b : itup) (htids : list tid) : itup :=
  let keysize := match it_postingoff b with Some o => o | None => it_size b end in
  let n := length htids in
  if (1 <? Z.of_nat n)
  then mk_itup (it_key b) (posting_size ai keysize (Z.of_nat n)) (Some keysize) htids
         (zero_aggs n) (replicate n 0)
  else mk_itup (it_key b) (keysize + extra_space_for_nonpivot_tuple ai) None htids
         (zero_aggs n) (replicate n 0).

(** The final tuple of a pending list of several items. *)
Definition final_tuple (st : dedup_state) : itup :=
  let final := _abt_form_posting (base st) (htids st) in
  if save_extra st
  then mk_itup (it_key final) (it_size final) (it_postingoff final) (it_tids final)
         (if leaf_has_agg ai then aggs st else it_aggs final) (xmins st)
  else final.

Definition reset_pending (st : dedup_state) (iv : list (Z * Z)) : dedup_state :=
  mk_state (deduplicate st) (save_extra st) (nmaxitems st) (maxpostingsize st) (base st) (baseoff st)
    (basetupsize st) [] (aggs st) (xmins st) 0 0 iv.

(** Returns the new page, the reset state and the space saving, a Size. *)
Definition _abt_dedup_finish_pending (p : newpage) (st : dedup_state)
    : perr + (newpage * dedup_state * Z) :=
  if nitems st <=? 1 then
    match PageAddItem p (base st) with
    | None => inl ElogError
    | Some p' => inr (p', reset_pending st (intervals st), 0)
    end
  else
    let final := final_tuple st in
    match PageAddItem p final with
    | None => inl ElogError
    | Some p' =>
        inr (p', reset_pending st ((baseoff st, nitems st) :: intervals st),
             u64 (phystupsize st - (it_size final + sizeof_ItemIdData)))
    end.

Context (nkeyatts : nat).

Definition same_key (a b : itup) : bool := Z.of_nat nkeyatts <? _abt_keep_natts_fast nkeyatts a b.

(** [items]: the page's data items. *)
Definition _abt_do_singleval (items : list itup) (newitem : itup) : bool :=
  match items, last items with
  | first :: _, Some l => if same_key newitem first then same_key newitem l else false
  | _, _ => false
  end.

(** leftfree * ((100 - 96) / 100.0), truncated. *)
Definition _abt_singleval_fillfactor (st : dedup_state) (newitemsz : Z) : dedup_state :=
  let leftfree := BLCKSZ - SizeOfPageHeaderData - MAXALIGN sizeof_ABTPageOpaqueData in
  let leftfree := u64 (leftfree - (newitemsz + MAXALIGN sizeof_ItemPointerData)) in
  let reduction := leftfree * (100 - ABTREE_SINGLEVAL_FILLFACTOR) / 100 in
  mk_state (deduplicate st) (save_extra st) (nmaxitems st)
    (if reduction <? maxpostingsize st then maxpostingsize st - reduction else 0)
    (base st) (baseoff st) (basetupsize st) (htids st) (aggs st) (xmins st) (nitems st)
    (phystupsize st) (intervals st).

Definition stop_deduplicating (st : dedup_state) : dedup_state :=
  mk_state false (save_extra st) (nmaxitems st) (maxpostingsize st) (base st) (baseoff st)
    (basetupsize st) (htids st) (aggs st) (xmins st) (nitems st) (phystupsize st) (intervals st).

(** The loop over the items after the first one. *)
Fixpoint dedup_items (newitemsz : Z) (items : list itup) (off : Z) (singlevalstrat : bool)
    (p : newpage) (st : dedup_state) (pagesaving : Z) : perr + (newpage * dedup_state * Z) :=
  match items with
  | [] =>
      match _abt_dedup_finish_pending p st with
      | inl e => inl e
      | inr (p', st', saving) => inr (p', st', u64 (pagesaving + saving))
      end
  | t :: rest =>
      let '(st1, saved) :=
        (if deduplicate st && (0 <? nhtids st) && same_key (base st) t
         then _abt_dedup_save_htid st t else (st, false)) in
      if saved then dedup_items newitemsz rest (off + 1) singlevalstrat p st1 pagesaving
      else
        match _abt_dedup_finish_pending p st1 with
        | inl e => inl e
        | inr (p', st2, saving) =>
            let '(st3, strat) :=
              (if singlevalstrat then
                 if nmaxitems st2 =? 5 then (_abt_singleval_fillfactor st2 newitemsz, true)
                 else if nmaxitems st2 =? 6 then (stop_deduplicating st2, false)
                 else (st2, true)
               else (st2, false)) in
            dedup_items newitemsz rest (off + 1) strat p' (_abt_dedup_start_pending st3 t off)
              (u64 (pagesaving + saving))
        end
  end.

(** A leaf page: the high key when the page is not rightmost, the data items with
    their LP_DEAD marks, and the garbage hint. *)
Record leafpage := mk_leaf {
  lp_hikey : option itup;
  lp_items : list (itup * bool);
  lp_garbage : bool
}.

Definition minoff (p : leafpage) : Z := match lp_hikey p with Some _ => 2 | None => 1 end.

Definition used_space (p : leafpage) : Z :=
  match lp_hikey p with Some h => item_space h | None => 0 end +
  sumZ (item_space ∘ fst <$> lp_items p).

(** PageGetFreeSpace: room for an item next to its line pointer. *)
Definition PageGetFreeSpace (p : leafpage) : Z :=
  let space := pg_free empty_page - used_space p in
  if space <? sizeof_ItemIdData then 0 else space - sizeof_ItemIdData.

(** The LP_DEAD items are deleted first, when there are any. *)
Definition ndeletable (p : leafpage) : Z := Z.of_nat (length (filter (fun x => snd x = true) (lp_items p))).
Definition remove_dead (p : leafpage) : leafpage :=
  if 0 <? ndeletable p
  then mk_leaf (lp_hikey p) (filter (fun x => snd x = false) (lp_items p)) false else p.

Definition init_state (b : itup) : dedup_state :=
  mk_state true true 0 (Z.min (ABTMaxItemSizeNoAgg / 2) INDEX_SIZE_MASK) b 0 0 [] [] [] 0 0 [].

(** The result is the page after the call. *)
Definition _abt_dedup_one_page (p : leafpage) (newitem : itup) (newitemsz : Z) (checkingunique : bool)
    : perr + leafpage :=
  let p1 := remove_dead p in
  if (0 <? ndeletable p) && (newitemsz <=? PageGetFreeSpace p1) then inr p1
  else
    let newitemsz := newitemsz + sizeof_ItemIdData in
    let items := fst <$> lp_items p1 in
    let singlevalstrat := if checkingunique then false else _abt_do_singleval items newitem in
    match (match lp_hikey p1 with
           | Some h => PageAddItem empty_page h
           | None => Some empty_page
           end) with
    | None => inl ElogError
    | Some np =>
        match items with
        | [] => inl BadPointer
        | b :: rest =>
            let st := _abt_dedup_start_pending (init_state b) b (minoff p1) in
            match dedup_items newitemsz rest (minoff p1 + 1) singlevalstrat np st 0 with
            | inl e => inl e
            | inr (np', st', _) =>
                match intervals st' with
                | [] => inr p1
                | _ :: _ =>
                    let data := match lp_hikey p1 with Some _ => tail (pg_items np') | None => pg_items np' end in
                    inr (mk_leaf (lp_hikey p1) ((., false) <$> data) false)
                end
            end
        end
    end.

(** ** Posting lists outside a deduplication pass *)

(** _abt_posting_valid: at least two TIDs, valid and strictly increasing. *)
Fixpoint tids_increase (lst : tid) (l : list tid) : bool :=
  match l with
  | [] => true
  | h :: l' => ItemPointerIsValid h && negb (ItemPointerCompare h lst <=? 0) && tids_increase h l'
  end.
Definition _abt_posting_valid (t : itup) : bool :=
  if negb (is_posting t) || (nposting t <? 2) then false
  else match it_tids t with
       | [] => false
       | h :: l => ItemPointerIsValid h && tids_increase h l
       end.

(** memmove of the elements from [off] one place to the right, losing the last,
    then a write at [off]. *)
Definition shift_in {A} (off : nat) (x : A) (l : list A) : list A :=
  take off l ++ x :: take (length l - off - 1) (drop off l).

(** Returns the new posting tuple and the modified new item. *)
Definition _abt_swap_posting (newitem oposting : itup) (postingoff : nat) : option (itup * itup) :=
  match it_tids newitem, last (it_tids oposting), it_xmins newitem, it_xmins oposting !! postingoff with
  | [newtid], Some maxtid, [newxmin], Some oxmin =>
      let agg_part :=
        if leaf_has_agg ai then
          match it_aggs newitem, last (it_aggs oposting) with
          | [newagg], Some oagg => Some (shift_in postingoff newagg (it_aggs oposting), [oagg])
          | _, _ => None
          end
        else Some (it_aggs oposting, it_aggs newitem) in
      match agg_part with
      | None => None
      | Some (naggs, newagg') =>
          Some (mk_itup (it_key oposting) (it_size oposting) (it_postingoff oposting)
                  (shift_in postingoff newtid (it_tids oposting)) naggs
                  (shift_in postingoff newxmin (it_xmins oposting)),
                mk_itup (it_key newitem) (it_size newitem) (it_postingoff newitem) [maxtid] newagg' [oxmin])
      end
  | _, _, _, _ => None
  end.

(** The copying loop of _abt_update_posting: [i] runs over the old list, the head
    of [del] is deletetids[d]. *)
Fixpoint keep_loop {A} (i : Z) (del : list Z) (l : list A) : list A :=
  match l with
  | [] => []
  | x :: l' =>
      match del with
      | d :: del' => if d =? i then keep_loop (i + 1) del' l' else x :: keep_loop (i + 1) del l'
      | [] => x :: keep_loop (i + 1) del l'
      end
  end.

Definition _abt_update_posting (orig : itup) (deletetids : list Z) : option itup :=
  match it_postingoff orig with
  | None => None
  | Some keysize =>
      let n := nposting orig - Z.of_nat (length deletetids) in
      let tids := keep_loop 0 deletetids (it_tids orig) in
      let naggs := if leaf_has_agg ai then keep_loop 0 deletetids (it_aggs orig) else [] in
      let nxmins := keep_loop 0 deletetids (it_xmins orig) in
      Some (if 1 <? n
            then mk_itup (it_key orig) (posting_size ai keysize n) (Some keysize) tids naggs nxmins
            else mk_itup (it_key orig) (keysize + extra_space_for_nonpivot_tuple ai) None tids naggs nxmins)
  end.

End Dedup.

(** ** What a page stores *)

(** One entry per heap TID: key, TID, aggregate value if kept, creating
    transaction. *)
Definition expand (t : itup) : list (list (option Z) * tid * option Z * option Z) :=
  imap (fun i x => (it_key t, x, it_aggs t !! i, it_xmins t !! i)) (it_tids t).

Definition live (p : leafpage) : list itup := fst <$> filter (fun x => snd x = false) (lp_items p).

Section Facts.
Context (ai : agg_info) (nkeyatts : nat).

Record wf_tuple (t : itup) : Prop := {
  wt_tids : it_tids t <> [];
  wt_plain : it_postingoff t = None -> length (it_tids t) = 1%nat;
  wt_aggs : length (it_aggs t) = if leaf_has_agg ai then length (it_tids t) else 0%nat;
  wt_xmins : length (it_xmins t) = length (it_tids t);
  wt_key : length (it_key t) = nkeyatts
}.

Lemma keep_natts_bound n k1 k2 c : keep_natts_from n k1 k2 c <= c + Z.of_nat n.
Proof.
  revert k1 k2 c. induction n as [|n IH]; intros [|[d1|] k1] [|[d2|] k2] c; simpl; try lia.
  - case_match; [|lia]. specialize (IH k1 k2 (c + 1)). lia.
  - specialize (IH k1 k2 (c + 1)). lia.
Qed.

Lemma keep_natts_all n k1 k2 c :
  length k1 = n -> length k2 = n -> c + Z.of_nat n <= keep_natts_from n k1 k2 c -> k1 = k2.
Proof.
  revert k1 k2 c. induction n as [|n IH]; intros [|[d1|] k1] [|[d2|] k2] c H1 H2; simpl in *; try lia; try done.
  - destruct (Z.eqb_spec d1 d2) as [->|]; [|lia]. intros H. f_equal. apply (IH _ _ (c + 1)); lia.
  - intros H. f_equal. apply (IH _ _ (c + 1)); lia.
Qed.

Lemma same_key_eq a b : wf_tuple a -> wf_tuple b -> same_key nkeyatts a b = true -> it_key a = it_key b.
Proof.
  intros Ha Hb. unfold same_key, _abt_keep_natts_fast. intros H. zbool.
  apply (keep_natts_all nkeyatts _ _ 1); [apply Ha|apply Hb|lia].
Qed.

Lemma imap_lookup_app {A B C D} (f : A -> option B -> option C -> D) l k (a1 a2 : list B) (x1 x2 : list C) :
  length x1 = length l -> (length a1 = length l \/ a1 = [] /\ a2 = []) ->
  imap (fun i x => f x ((a1 ++ a2) !! i) ((x1 ++ x2) !! i)) (l ++ k) =
  imap (fun i x => f x (a1 !! i) (x1 !! i)) l ++ imap (fun i x => f x (a2 !! i) (x2 !! i)) k.
Proof.
  intros Hx Ha. rewrite imap_app. f_equal; apply imap_ext; intros i y Hy.
  - apply lookup_lt_Some in Hy. rewrite (lookup_app_l x1) by lia. f_equal.
    destruct Ha as [Ha|[-> ->]]; [|done]. by rewrite lookup_app_l by lia.
  - simpl. rewrite (lookup_app_r x1) by lia. replace (length l + i - length x1)%nat with i by lia. f_equal.
    destruct Ha as [Ha|[-> ->]]; [|done]. rewrite lookup_app_r by lia. f_equal. lia.
Qed.

(** The items merged so far into the pending posting list. *)
Record pending (st : dedup_state) (l : list itup) : Prop := {
  pd_base : exists rest, l = base st :: rest;
  pd_wf : Forall wf_tuple l;
  pd_key : Forall (fun t => it_key t = it_key (base st)) l;
  pd_items : nitems st = Z.of_nat (length l);
  pd_phys : phystupsize st = sumZ (item_space <$> l);
  pd_over : htids st = [] -> l = [base st];
  pd_tids : htids st <> [] -> htids st = l ≫= it_tids;
  pd_aggs : htids st <> [] -> leaf_has_agg ai = true -> aggs st = l ≫= it_aggs;
  pd_xmins : htids st <> [] -> xmins st = l ≫= it_xmins;
  pd_extra : save_extra st = true
}.

Lemma pending_start st t off :
  wf_tuple t -> save_extra st = true -> pending (_abt_dedup_start_pending ai st t off) [t].
Proof.
  intros Ht Hs. unfold _abt_dedup_start_pending. rewrite Hs. constructor; simpl; try done.
  - by exists [].
  - by constructor.
  - by constructor.
  - lia.
  - destruct (it_size t <=? maxpostingsize st); [by rewrite app_nil_r|done].
  - destruct (it_size t <=? maxpostingsize st); [|done]. intros _ ->. simpl. by rewrite app_nil_r.
  - destruct (it_size t <=? maxpostingsize st); [|done]. simpl. by rewrite app_nil_r.
Qed.

Lemma pending_frame st st' l :
  base st' = base st -> nitems st' = nitems st -> phystupsize st' = phystupsize st ->
  htids st' = htids st -> aggs st' = aggs st -> xmins st' = xmins st -> save_extra st' = save_extra st ->
  pending st l -> pending st' l.
Proof.
  intros H1 H2 H3 H4 H5 H6 H7 []. constructor; rewrite ?H1, ?H2, ?H3, ?H4, ?H5, ?H6, ?H7; done.
Qed.

(** Saving either leaves the pending list alone or appends the item to it. *)
Lemma pending_save st t l st' saved :
  pending st l -> wf_tuple t -> it_key t = it_key (base st) ->
  _abt_dedup_save_htid ai st t = (st', saved) ->
  pending st' (if saved then l ++ [t] else l) /\
  base st' = base st.
Proof.
  intros Hp Ht Hk. unfold _abt_dedup_save_htid.
  destruct (Z.eqb_spec (nhtids st) 0) as [H0|H0].
  { intros [= <- <-]. destruct (is_posting t && _); split; try done; by eapply pending_frame; [..|exact Hp]. }
  destruct (_ <? merged_size _ _ _).
  { intros [= <- <-]. destruct (50 <? nhtids st); split; try done; by eapply pending_frame; [..|exact Hp]. }
  intros [= <- <-]. split; [|done].
  assert (Hne : htids st <> []) by (intros Hn; apply H0; unfold nhtids; by rewrite Hn).
  destruct Hp as [[rest Hb] Hw Hkey Hi Hph _ Htid Hagg Hxm Hs]. rewrite Hs.
  assert (Hne' : htids st ++ it_tids t <> []) by (by destruct (htids st)).
  constructor; cbn; try done.
  - exists (rest ++ [t]). by rewrite Hb.
  - apply Forall_app. split; [done|]. by constructor.
  - apply Forall_app. split; [done|]. by constructor.
  - rewrite length_app. simpl. lia.
  - rewrite fmap_app, sumZ_app. simpl. lia.
  - intros _. rewrite bind_app, <- Htid by done. simpl. by rewrite app_nil_r.
  - intros _ Hagg'. rewrite Hagg'. simpl. rewrite bind_app, <- Hagg by done. simpl. by rewrite app_nil_r.
  - intros _. rewrite bind_app, <- Hxm by done. simpl. by rewrite app_nil_r.
Qed.

Lemma pending_try st t l st' saved :
  pending st l -> wf_tuple t ->
  (if deduplicate st && (0 <? nhtids st) && same_key nkeyatts (base st) t
   then _abt_dedup_save_htid ai st t else (st, false)) = (st', saved) ->
  pending st' (if saved then l ++ [t] else l).
Proof.
  intros Hp Ht. destruct (_ && _ && _) eqn:Ec; [|by intros [= <- <-]]. zbool. intros Esave.
  assert (Hb : wf_tuple (base st)).
  { destruct (pd_base _ _ Hp) as [rest ->]. pose proof (pd_wf _ _ Hp) as Hwl. by apply Forall_cons in Hwl as [? _]. }
  eapply pending_save; [exact Hp|exact Ht| |exact Esave]. symmetry. by apply same_key_eq.
Qed.

Lemma expand_concat l k (t : itup) :
  Forall wf_tuple l -> Forall (fun t => it_key t = k) l -> it_key t = k ->
  it_tids t = l ≫= it_tids -> it_aggs t = (if leaf_has_agg ai then l ≫= it_aggs else []) ->
  it_xmins t = l ≫= it_xmins -> expand t = l ≫= expand.
Proof.
  intros Hw Hk Htk Ht Ha Hx. unfold expand at 1. rewrite Ht, Ha, Hx, Htk. clear Ht Ha Hx Htk t.
  induction l as [|t l IH]; [done|]. apply Forall_cons in Hw as [Hwt Hw]. apply Forall_cons in Hk as [Hkt Hk].
  specialize (IH Hw Hk). change ((t :: l) ≫= expand) with (expand t ++ (l ≫= expand)). rewrite <- IH. clear IH.
  unfold expand. rewrite Hkt.
  change ((t :: l) ≫= it_tids) with (it_tids t ++ (l ≫= it_tids)).
  change ((t :: l) ≫= it_aggs) with (it_aggs t ++ (l ≫= it_aggs)).
  change ((t :: l) ≫= it_xmins) with (it_xmins t ++ (l ≫= it_xmins)).
  pose proof (wt_aggs _ Hwt) as Hag. destruct (leaf_has_agg ai).
  - rewrite (imap_lookup_app (fun x a y => (k, x, a, y))); [done|apply Hwt|by left].
  - apply nil_length_inv in Hag. rewrite Hag.
    exact (imap_lookup_app (fun x a y => (k, x, a, y)) _ _ (@nil Z) (@nil Z) _ _ (wt_xmins _ Hwt)
      (or_intror (conj eq_refl eq_refl))).
Qed.

Lemma length_bind_xmins l : Forall wf_tuple l -> length (l ≫= it_xmins) = length (l ≫= it_tids).
Proof.
  induction 1 as [|t l Ht _ IH]; [done|]. rewrite !bind_cons, !length_app, IH. by rewrite (wt_xmins _ Ht).
Qed.
Lemma length_bind_aggs l : Forall wf_tuple l -> leaf_has_agg ai = true ->
  length (l ≫= it_aggs) = length (l ≫= it_tids).
Proof.
  intros Hl Ha. induction Hl as [|t l Ht _ IH]; [done|]. rewrite !bind_cons, !length_app, IH.
  by rewrite (wt_aggs _ Ht), Ha.
Qed.
Lemma length_bind_tids l : Forall wf_tuple l -> (length l <= length (l ≫= it_tids))%nat.
Proof.
  induction 1 as [|t l Ht _ IH]; [done|]. rewrite bind_cons, length_app.
  pose proof (wt_tids _ Ht). destruct (it_tids t); [done|]. simpl. lia.
Qed.

(** The tuple written when several items are pending stores their entries. *)
Lemma final_tuple_ok st l :
  pending st l -> 1 < nitems st ->
  wf_tuple (final_tuple ai st) /\ expand (final_tuple ai st) = l ≫= expand /\
  it_tids (final_tuple ai st) = l ≫= it_tids /\
  it_size (final_tuple ai st) =
    posting_size ai (match it_postingoff (base st) with Some o => o | None => it_size (base st) end)
      (Z.of_nat (length (l ≫= it_tids))) /\
  it_postingoff (final_tuple ai st) =
    Some (match it_postingoff (base st) with Some o => o | None => it_size (base st) end).
Proof.
  intros [[rest Hb] Hw Hkey Hi Hph Hov Htid Hagg Hxm Hs] Hn.
  assert (Hne : htids st <> []).
  { intros Hnil. rewrite Hi, (Hov Hnil) in Hn. simpl in Hn. lia. }
  specialize (Htid Hne). specialize (Hxm Hne).
  pose proof (length_bind_tids l Hw) as Hlen.
  unfold final_tuple, _abt_form_posting. rewrite Hs, Htid.
  destruct (Z.ltb_spec 1 (Z.of_nat (length (l ≫= it_tids)))) as [H1|]; [|lia].
  cbn [it_key it_size it_postingoff it_tids it_aggs it_xmins].
  assert (Hbase : wf_tuple (base st)) by (rewrite Hb in Hw; by apply Forall_cons in Hw as [? _]).
  split; [|split; [|done]].
  - constructor; simpl; [by rewrite <- Htid|done| | |apply Hbase].
    + destruct (leaf_has_agg ai) eqn:E; [rewrite (Hagg Hne eq_refl); by apply length_bind_aggs|].
      unfold zero_aggs. by rewrite E.
    + rewrite Hxm. by apply length_bind_xmins.
  - apply (expand_concat l (it_key (base st))); try done; simpl.
    destruct (leaf_has_agg ai) eqn:E; [by apply Hagg|]. unfold zero_aggs. by rewrite E.
Qed.

Lemma PageAddItem_items p t q : PageAddItem p t = Some q -> pg_items q = pg_items p ++ [t].
Proof. unfold PageAddItem. case_match; [by intros [= <-]|done]. Qed.

Lemma finish_pending_ok p st l p' st' saving :
  pending st l -> _abt_dedup_finish_pending ai p st = inr (p', st', saving) ->
  (exists t, pg_items p' = pg_items p ++ [t] /\ wf_tuple t /\ expand t = l ≫= expand) /\
  save_extra st' = true.
Proof.
  intros Hp. unfold _abt_dedup_finish_pending. destruct (Z.leb_spec (nitems st) 1) as [H1|H1].
  - destruct (PageAddItem p (base st)) as [q|] eqn:E; [|done]. intros [= <- <- <-].
    apply PageAddItem_items in E. destruct Hp as [[rest Hb] Hwl _ Hi _ _ _ _ _ Hs].
    rewrite Hb in Hwl, Hi. simpl in Hi. destruct rest; [|simpl in Hi; lia].
    apply Forall_cons in Hwl as [Hwb _]. split; [|done]. exists (base st). split; [done|].
    split; [done|]. rewrite Hb. simpl. by rewrite app_nil_r.
  - destruct (PageAddItem p (final_tuple ai st)) as [q|] eqn:E; [|done]. intros [= <- <- <-].
    apply PageAddItem_items in E. destruct (final_tuple_ok st l Hp H1) as (Hwf & He & _).
    split; [|apply Hp]. by exists (final_tuple ai st).
Qed.

(** The state after the single-value steps differs from the one before only in
    the limits. *)
Lemma singleval_save_extra newitemsz (strat : bool) st st' (strat' : bool) :
  (if strat then
     if nmaxitems st =? 5 then (_abt_singleval_fillfactor st newitemsz, true)
     else if nmaxitems st =? 6 then (stop_deduplicating st, false)
     else (st, true)
   else (st, false)) = (st', strat') -> save_extra st' = save_extra st.
Proof. repeat case_match; by intros [= <- <-]. Qed.

Lemma dedup_items_ok newitemsz items off strat p st sv l p' st' sv' :
  pending st l -> Forall wf_tuple items ->
  dedup_items ai nkeyatts newitemsz items off strat p st sv = inr (p', st', sv') ->
  exists k, pg_items p' = pg_items p ++ k /\ Forall wf_tuple k /\
    (k ≫= expand) = (l ≫= expand) ++ (items ≫= expand).
Proof.
  revert off strat p st sv l. induction items as [|t items IH]; intros off strat p st sv l Hp Hw; cbn [dedup_items].
  - destruct (_abt_dedup_finish_pending ai p st) as [|[[q st1] s1]] eqn:E; [done|]. intros [= <- <- <-].
    destruct (finish_pending_ok _ _ _ _ _ _ Hp E) as [(u & Hi & Hu & He) _].
    exists [u]. split; [done|]. split; [by constructor|]. simpl. by rewrite He, !app_nil_r.
  - apply Forall_cons in Hw as [Ht Hw].
    destruct (if deduplicate st && (0 <? nhtids st) && same_key nkeyatts (base st) t
              then _ else _) as [st1 saved] eqn:Esave.
    pose proof (pending_try _ _ _ _ _ Hp Ht Esave) as Hp1.
    destruct saved.
    { intros Hd. destruct (IH _ _ _ _ _ _ Hp1 Hw Hd) as (k & Hk & Hkw & He). exists k.
      split; [done|]. split; [done|]. rewrite He, bind_app. simpl. by rewrite app_nil_r, <- app_assoc. }
    destruct (_abt_dedup_finish_pending ai p st1) as [|[[q st2] s1]] eqn:E; [done|].
    destruct (finish_pending_ok _ _ _ _ _ _ Hp1 E) as [(u & Hi & Hu & He) Hs2].
    destruct (if strat then _ else _) as [st3 strat'] eqn:Es. apply singleval_save_extra in Es as Hs3.
    intros Hd. destruct (IH _ _ _ _ _ [t] (pending_start st3 t off Ht ltac:(congruence)) Hw Hd) as (k & Hk & Hkw & He').
    exists (u :: k). split; [by rewrite Hk, Hi, <- app_assoc|]. split; [by constructor|].
    rewrite bind_cons, He, He'. simpl. by rewrite app_nil_r.
Qed.

Lemma remove_dead_spec p :
  lp_hikey (remove_dead p) = lp_hikey p /\ live (remove_dead p) = live p /\
  fst <$> lp_items (remove_dead p) = live p.
Proof.
  unfold remove_dead, ndeletable. destruct (Z.ltb_spec 0 (Z.of_nat (length (filter (fun x => snd x = true) (lp_items p)))))
    as [|Hnd]; unfold live; simpl.
  - split; [done|]. split; [|done]. f_equal. apply list_filter_filter_l. naive_solver.
  - split; [done|]. split; [done|]. f_equal. symmetry. apply filter_id.
    assert (H0 : filter (fun x => snd x = true) (lp_items p) = []) by (apply nil_length_inv; lia).
    rewrite Forall_forall. intros [t d] Hin. destruct d; [|done].
    assert (Hc : (t, true) ∈ filter (fun x => snd x = true) (lp_items p)) by (by apply list_elem_of_filter).
    rewrite H0 in Hc. by apply elem_of_nil in Hc.
Qed.

(** What the pass leaves, from the items it wrote. *)
Lemma live_data k h g : live (mk_leaf h ((., false) <$> k) g) = k.
Proof.
  unfold live. simpl. rewrite filter_id.
  - rewrite <- list_fmap_compose. apply list_fmap_id.
  - apply Forall_fmap, Forall_true. done.
Qed.

(** C34: a deduplication pass that completes leaves the high key alone and stores
    exactly the entries of the live items (key, heap TID, aggregate value and
    creating transaction), in the same order; every tuple it leaves is
    well-formed again. *)
Theorem dedup_preserves_entries (p p' : leafpage) (newitem : itup) (newitemsz : Z) (cu : bool) :
  Forall wf_tuple (live p) ->
  _abt_dedup_one_page ai nkeyatts p newitem newitemsz cu = inr p' ->
  lp_hikey p' = lp_hikey p /\ (live p' ≫= expand) = (live p ≫= expand) /\ Forall wf_tuple (live p').
Proof.
  intros Hw. unfold _abt_dedup_one_page.
  destruct (remove_dead_spec p) as (Hhk & Hlive & Hitems). set (p1 := remove_dead p) in *.
  destruct ((0 <? ndeletable p) && _); [intros [= <-]; rewrite Hlive; done|].
  rewrite Hitems, Hhk.
  destruct (match lp_hikey p with Some h => _ | None => _ end) as [np|] eqn:Enp; [|done].
  destruct (live p) as [|b rest] eqn:Eb; [done|].
  apply Forall_cons in Hw as [Hb Hw].
  destruct (dedup_items _ _ _ _ _ _ _ _ _) as [|[[np' st'] sv]] eqn:Ed; [done|].
  destruct (dedup_items_ok _ _ _ _ _ _ _ [b] _ _ _ (pending_start (init_state b) b (minoff p1) Hb eq_refl) Hw Ed)
    as (k & Hk & Hkw & He).
  destruct (intervals st'); [intros [= <-]; rewrite Hlive; split; [done|]; split; [done|by constructor]|].
  intros [= <-]. simpl. split; [done|].
  assert (Hdata : (match lp_hikey p with Some _ => tail (pg_items np') | None => pg_items np' end) = k).
  { rewrite Hk. destruct (lp_hikey p) as [h|].
    - apply PageAddItem_items in Enp. by rewrite Enp.
    - by injection Enp as <-. }
  rewrite Hdata, live_data. split; [|done]. rewrite He. simpl. by rewrite app_nil_r.
Qed.

(** ** Space *)

(** The size of a tuple fits its arrays; the key part is at least 16 bytes. *)
Definition sized (t : itup) : Prop :=
  match it_postingoff t with
  | None => 16 + extra_space_for_nonpivot_tuple ai <= it_size t /\ it_size t mod 8 = 0
  | Some off => 16 <= off /\ off mod 8 = 0 /\ (2 <= length (it_tids t))%nat /\
                it_size t = posting_size ai off (nposting t)
  end.

Context (Hna : leaf_has_agg ai = false) (Hex : extra_space_for_nonpivot_tuple ai = 8).

Lemma posting_size_noagg off n : off mod 8 = 0 ->
  posting_size ai off n = off + MAXALIGN (n * 6) + MAXALIGN (4 * n).
Proof. intros. unfold posting_size. rewrite Hna, MAXALIGN_add by done. done. Qed.

Lemma posting_space t off : sized t -> it_postingoff t = Some off ->
  item_space t = off + MAXALIGN (nposting t * 6) + MAXALIGN (4 * nposting t) + 4.
Proof.
  unfold sized, item_space, sizeof_ItemIdData. intros Hs Ho. rewrite Ho in Hs. destruct Hs as (? & ? & _ & ->).
  rewrite posting_size_noagg by done. rewrite MAXALIGN_id; [lia|].
  destruct (MAXALIGN_spec (nposting t * 6)), (MAXALIGN_spec (4 * nposting t)). divlia.
Qed.

Lemma plain_space t : sized t -> it_postingoff t = None -> item_space t = it_size t + 4 /\ 28 <= item_space t.
Proof.
  unfold sized, item_space, sizeof_ItemIdData. intros Hs Ho. rewrite Ho, Hex in Hs.
  rewrite MAXALIGN_id by tauto. lia.
Qed.

Lemma space_bound t : wf_tuple t -> sized t -> 10 * nposting t + 18 <= item_space t.
Proof.
  intros Hw Hs. destruct (it_postingoff t) as [off|] eqn:Ho.
  - rewrite (posting_space t off Hs Ho). unfold sized in Hs. rewrite Ho in Hs.
    destruct (MAXALIGN_spec (nposting t * 6)), (MAXALIGN_spec (4 * nposting t)). lia.
  - destruct (plain_space t Hs Ho) as [_ ?]. unfold nposting. rewrite (wt_plain t Hw Ho). lia.
Qed.

Lemma spaces_bound l : Forall wf_tuple l -> Forall sized l ->
  10 * Z.of_nat (length (l ≫= it_tids)) + 18 * Z.of_nat (length l) <= sumZ (item_space <$> l).
Proof.
  induction l as [|t l IH]; intros Hw Hs; [simpl; lia|].
  apply Forall_cons in Hw as [Ht Hw]. apply Forall_cons in Hs as [Hts Hs].
  specialize (IH Hw Hs). pose proof (space_bound t Ht Hts) as Hb. unfold nposting in Hb.
  rewrite bind_cons, length_app, fmap_cons. simpl. lia.
Qed.

Lemma align_sum n : 0 <= n -> MAXALIGN (n * 6) + MAXALIGN (4 * n) <= 10 * n + 10.
Proof. intros. rewrite !MAXALIGN_eq. divlia. Qed.

Lemma align_sum_ge n : 0 <= n -> 10 * n <= MAXALIGN (n * 6) + MAXALIGN (4 * n).
Proof. intros. destruct (MAXALIGN_spec (n * 6)), (MAXALIGN_spec (4 * n)). lia. Qed.

(** Without aggregates at the leaves merging never costs space. *)
Lemma final_space st l :
  pending st l -> Forall sized l -> 1 < nitems st ->
  sized (final_tuple ai st) /\ item_space (final_tuple ai st) <= sumZ (item_space <$> l).
Proof.
  intros Hp Hs H1. destruct (final_tuple_ok st l Hp H1) as (Hwf & _ & Htids & Hsz & Hoff).
  destruct Hp as [[rest Hb] Hw _ Hi _ _ _ _ _ _]. rewrite Hb in Hi. simpl in Hi.
  set (N := length (l ≫= it_tids)) in *.
  set (ks := match it_postingoff (base st) with Some o => o | None => it_size (base st) end) in *.
  rewrite Hb in Hw, Hs. apply Forall_cons in Hw as [Hwb Hwr]. apply Forall_cons in Hs as [Hsb Hsr].
  assert (HN : N = (length (it_tids (base st)) + length (rest ≫= it_tids))%nat).
  { unfold N. by rewrite Hb, bind_cons, length_app. }
  pose proof (length_bind_tids rest Hwr) as Hlr.
  assert (Hnb : (1 <= length (it_tids (base st)))%nat).
  { pose proof (wt_tids _ Hwb). destruct (it_tids (base st)); [done|simpl; lia]. }
  assert (Hks : 16 <= ks /\ ks mod 8 = 0).
  { unfold ks. revert Hsb. unfold sized. destruct (it_postingoff (base st)); [tauto|]. rewrite Hex. lia. }
  assert (Hfin : sized (final_tuple ai st)).
  { unfold sized, nposting. rewrite Hoff, Htids. fold N. repeat split; [lia|lia|lia|done]. }
  split; [done|]. rewrite (posting_space _ _ Hfin Hoff). unfold nposting. rewrite Htids. fold N.
  pose proof (spaces_bound rest Hwr Hsr) as Hsum. pose proof (align_sum (Z.of_nat N) ltac:(lia)) as Hal.
  rewrite Hb, fmap_cons. cbn [sumZ]. unfold ks. destruct (it_postingoff (base st)) as [off|] eqn:Ho.
  - rewrite (posting_space _ _ Hsb Ho). unfold nposting.
    pose proof (align_sum_ge (Z.of_nat (length (it_tids (base st)))) ltac:(lia)). lia.
  - destruct (plain_space _ Hsb Ho) as [-> _]. pose proof (wt_plain _ Hwb Ho).
    destruct rest as [|t [|t2 rest]]; [simpl in Hi; lia| |].
    + apply Forall_cons in Hsr as [Hst _]. apply Forall_cons in Hwr as [Hwt _].
      rewrite bind_cons, app_nil_r in HN. rewrite fmap_cons. cbn [sumZ].
      change (sumZ (item_space <$> [])) with 0. destruct (it_postingoff t) as [offt|] eqn:Hot.
      * rewrite (posting_space _ _ Hst Hot). unfold nposting. unfold sized in Hst. rewrite Hot in Hst.
        pose proof (align_sum_ge (Z.of_nat (length (it_tids t))) ltac:(lia)). lia.
      * destruct (plain_space _ Hst Hot) as [_ ?]. rewrite HN, (wt_plain _ Hwt Hot), (wt_plain _ Hwb Ho).
        change (MAXALIGN (Z.of_nat (1 + 1) * 6)) with 16. change (MAXALIGN (4 * Z.of_nat (1 + 1))) with 8. lia.
    + simpl length in *. lia.
Qed.

Lemma finish_pending_run p st l :
  pending st l -> Forall sized l -> sumZ (item_space <$> l) <= pg_free p ->
  exists p' st' s t, _abt_dedup_finish_pending ai p st = inr (p', st', s) /\
    pg_items p' = pg_items p ++ [t] /\ sized t /\ item_space t <= sumZ (item_space <$> l) /\
    pg_free p' = pg_free p - item_space t.
Proof.
  intros Hp Hs Hf. unfold _abt_dedup_finish_pending, PageAddItem.
  destruct (Z.leb_spec (nitems st) 1) as [H1|H1].
  - destruct Hp as [[rest Hb] _ _ Hi _ _ _ _ _ _]. rewrite Hb in Hi, Hs, Hf. simpl in Hi, Hf.
    destruct rest; [|simpl in Hi; lia]. apply Forall_cons in Hs as [Hsb _]. simpl in Hf.
    destruct (Z.leb_spec (item_space (base st)) (pg_free p)) as [|]; [|lia].
    do 3 eexists. exists (base st). rewrite Hb. simpl. repeat split; [done|lia].
  - destruct (final_space st l Hp Hs H1) as [Hsz Hle].
    destruct (Z.leb_spec (item_space (final_tuple ai st)) (pg_free p)) as [|]; [|lia].
    do 3 eexists. exists (final_tuple ai st). repeat split; [done|lia].
Qed.

Lemma dedup_items_run newitemsz items off strat p st sv l :
  pending st l -> Forall wf_tuple items -> Forall sized l -> Forall sized items ->
  sumZ (item_space <$> l) + sumZ (item_space <$> items) <= pg_free p ->
  exists p' st' sv' k,
    dedup_items ai nkeyatts newitemsz items off strat p st sv = inr (p', st', sv') /\
    pg_items p' = pg_items p ++ k /\ Forall sized k /\
    sumZ (item_space <$> k) <= sumZ (item_space <$> l) + sumZ (item_space <$> items).
Proof.
  revert off strat p st sv l. induction items as [|t items IH];
    intros off strat p st sv l Hp Hw Hsl Hsi Hf; cbn [dedup_items].
  - change (sumZ (item_space <$> [])) with 0 in *.
    destruct (finish_pending_run p st l Hp Hsl ltac:(lia)) as (p' & st' & s1 & u & -> & Hi & Hu & Hle & _).
    do 3 eexists. exists [u]. split; [done|]. split; [done|]. split; [by constructor|]. simpl. lia.
  - apply Forall_cons in Hw as [Ht Hw]. apply Forall_cons in Hsi as [Hst Hsi].
    rewrite fmap_cons in *. cbn [sumZ] in *.
    destruct (if deduplicate st && (0 <? nhtids st) && same_key nkeyatts (base st) t
              then _ else _) as [st1 saved] eqn:Esave.
    pose proof (pending_try _ _ _ _ _ Hp Ht Esave) as Hp1.
    destruct saved.
    { destruct (IH (off + 1) strat p st1 sv (l ++ [t]) Hp1 Hw) as (p' & st' & sv' & k & Hr & Hk & Hks & Hle).
      - apply Forall_app. split; [done|]. by constructor.
      - done.
      - rewrite fmap_app, sumZ_app. simpl. lia.
      - exists p', st', sv', k. split; [done|]. split; [done|]. split; [done|].
        rewrite fmap_app, sumZ_app in Hle. simpl in Hle. lia. }
    assert (Hpos : 0 <= sumZ (item_space <$> items)).
    { clear -Hsi Hw Hna Hex. pose proof (spaces_bound items Hw Hsi). lia. }
    assert (Ht0 : 0 <= item_space t).
    { pose proof (space_bound t Ht Hst). unfold nposting in *. lia. }
    destruct (finish_pending_run p st1 l Hp1 Hsl ltac:(lia)) as (q & st2 & s1 & u & E & Hi & Hu & Hle & Hfree).
    rewrite E. destruct (finish_pending_ok _ _ _ _ _ _ Hp1 E) as [_ Hs2].
    destruct (if strat then _ else _) as [st3 strat'] eqn:Es. apply singleval_save_extra in Es as Hs3.
    destruct (IH (off + 1) strat' q (_abt_dedup_start_pending ai st3 t off) (u64 (sv + s1)) [t])
      as (p' & st' & sv' & k & Hr & Hk & Hks & Hle').
    + apply pending_start; [done|congruence].
    + done.
    + by constructor.
    + done.
    + simpl. lia.
    + exists p', st', sv', (u :: k). split; [done|]. split; [by rewrite Hk, Hi, <- app_assoc|].
      split; [by constructor|]. rewrite fmap_cons. simpl in *. lia.
Qed.

(** In an index whose leaves carry no aggregates, deduplicating any page that
    holds at least one live item and is not over-full succeeds (no tuple fails to
    fit), stores the same entries, and does not take more space than before. *)
Theorem dedup_noagg_total (p : leafpage) (newitem : itup) (newitemsz : Z) (cu : bool) :
  live p <> [] -> Forall wf_tuple (live p) -> Forall sized (live p) ->
  (forall h, lp_hikey p = Some h -> 0 <= item_space h) ->
  match lp_hikey p with Some h => item_space h | None => 0 end + sumZ (item_space <$> live p) <= pg_free empty_page ->
  exists p', _abt_dedup_one_page ai nkeyatts p newitem newitemsz cu = inr p' /\
    lp_hikey p' = lp_hikey p /\ Forall sized (live p') /\
    sumZ (item_space <$> live p') <= sumZ (item_space <$> live p).
Proof.
  intros Hne Hw Hs Hhp Hfit. unfold _abt_dedup_one_page.
  destruct (remove_dead_spec p) as (Hhk & Hlive & Hitems). set (p1 := remove_dead p) in *.
  destruct ((0 <? ndeletable p) && _).
  { exists p1. rewrite Hlive. done. }
  rewrite Hitems, Hhk. destruct (live p) as [|b rest] eqn:Eb; [done|].
  rewrite fmap_cons in *. cbn [sumZ] in *.
  apply Forall_cons in Hw as [Hwb Hw]. apply Forall_cons in Hs as [Hsb Hs].
  pose proof (spaces_bound rest Hw Hs) as Hr0. pose proof (space_bound b Hwb Hsb) as Hb0. unfold nposting in Hb0.
  set (np := match lp_hikey p with Some h => PageAddItem empty_page h | None => Some empty_page end).
  assert (Hnp : exists q, np = Some q /\ item_space b + sumZ (item_space <$> rest) <= pg_free q /\
    pg_items q = match lp_hikey p with Some h => [h] | None => [] end).
  { unfold np. destruct (lp_hikey p) as [h|]; [|exists empty_page; split; [done|]; split; [lia|done]].
    unfold PageAddItem. destruct (Z.leb_spec (item_space h) (pg_free empty_page)); [|lia].
    eexists. split; [done|]. split; [simpl in *; lia|done]. }
  destruct Hnp as (q & -> & Hq & Hqi).
  destruct (dedup_items_run (newitemsz + sizeof_ItemIdData) rest (minoff p1 + 1)
    (if cu then false else _abt_do_singleval nkeyatts (b :: rest) newitem) q
    (_abt_dedup_start_pending ai (init_state b) b (minoff p1)) 0 [b])
    as (p' & st' & sv' & k & Hrun & Hk & Hks & Hle).
  - by apply pending_start.
  - done.
  - by constructor.
  - done.
  - simpl. lia.
  - rewrite Hrun. destruct (intervals st').
    + exists p1. rewrite Hlive. split; [done|]. split; [done|]. split; [by constructor|].
      rewrite fmap_cons. simpl. lia.
    + eexists. split; [done|]. split; [done|].
      assert (Hdata : (match lp_hikey p with Some _ => tail (pg_items p') | None => pg_items p' end) = k).
      { rewrite Hk, Hqi. by destruct (lp_hikey p). }
      rewrite Hdata, live_data. split; [done|]. simpl in *. lia.
Qed.

End Facts.

(** ** Splitting a posting list *)

Section Swap.
Context (ai : agg_info) (nkeyatts : nat).

Lemma shift_in_last {A} off (x y : A) l :
  (off < length l)%nat -> last l = Some y -> shift_in off x l ++ [y] = take off l ++ x :: drop off l.
Proof.
  intros Hoff Hl. unfold shift_in. rewrite <- app_assoc. f_equal. simpl. f_equal.
  apply last_Some in Hl as [l' ->]. rewrite length_app in *. simpl in *.
  rewrite drop_app_le by lia. rewrite take_app_le by (rewrite length_drop; lia).
  rewrite take_ge by (rewrite length_drop; lia). done.
Qed.

Lemma length_shift_in {A} off (x : A) l : (off < length l)%nat -> length (shift_in off x l) = length l.
Proof. intros. unfold shift_in. rewrite length_app, length_take. simpl. rewrite length_take, length_drop. lia. Qed.

Context (newitem oposting : itup) (postingoff : nat) (newtid : tid) (newxmin : Z).
Context (Hnew : wf_tuple ai nkeyatts newitem) (Hold : wf_tuple ai nkeyatts oposting).
Context (Htid : it_tids newitem = [newtid]) (Hxmin : it_xmins newitem = [newxmin]).
Context (Hoff : (0 < postingoff < length (it_tids oposting))%nat).

Lemma swap_run : exists np ni maxtid xm,
  _abt_swap_posting ai newitem oposting postingoff = Some (np, ni) /\
  last (it_tids oposting) = Some maxtid /\ it_xmins oposting !! postingoff = Some xm /\
  it_tids np = shift_in postingoff newtid (it_tids oposting) /\ it_tids ni = [maxtid] /\
  it_xmins np = shift_in postingoff newxmin (it_xmins oposting) /\ it_xmins ni = [xm] /\
  it_size np = it_size oposting /\ it_postingoff np = it_postingoff oposting /\
  it_key np = it_key oposting /\
  (leaf_has_agg ai = true -> exists a oa, it_aggs newitem = [a] /\ last (it_aggs oposting) = Some oa /\
     it_aggs np = shift_in postingoff a (it_aggs oposting) /\ it_aggs ni = [oa]).
Proof.
  destruct Hold as [_ _ Hag Hxm _]. destruct Hnew as [_ _ Hnag _ _].
  destruct (last (it_tids oposting)) as [mt|] eqn:El; [|apply last_None in El; rewrite El in Hoff; simpl in Hoff; lia].
  destruct (it_xmins oposting !! postingoff) as [xm|] eqn:Ex; [|apply lookup_ge_None in Ex; lia].
  unfold _abt_swap_posting. rewrite Htid, El, Hxmin, Ex. destruct (leaf_has_agg ai).
  - rewrite Htid in Hnag. destruct (it_aggs newitem) as [|a [|]]; try (simpl in Hnag; lia).
    destruct (last (it_aggs oposting)) as [oa|] eqn:Ea; [|apply last_None in Ea; rewrite Ea in Hag; simpl in Hag; lia].
    eexists _, _, mt, xm. do 10 (split; [done|]). intros _. by exists a, oa.
  - eexists _, _, mt, xm. by do 10 (split; [done|]).
Qed.

End Swap.

(** Splitting a posting list at an inner position keeps the tuple's size and
    number of TIDs; the TIDs of the new posting list followed by the TID handed
    back are the old TIDs with the new one inserted at that position, and likewise
    for the aggregate values. *)
Theorem swap_posting_inserts (ai : agg_info) (nkeyatts : nat) (newitem oposting : itup) (off : nat)
    (newtid : tid) (newxmin : Z) :
  wf_tuple ai nkeyatts newitem -> wf_tuple ai nkeyatts oposting ->
  it_tids newitem = [newtid] -> it_xmins newitem = [newxmin] -> (0 < off < length (it_tids oposting))%nat ->
  exists np ni, _abt_swap_posting ai newitem oposting off = Some (np, ni) /\
    it_size np = it_size oposting /\ length (it_tids np) = length (it_tids oposting) /\
    it_tids np ++ it_tids ni = take off (it_tids oposting) ++ newtid :: drop off (it_tids oposting) /\
    (leaf_has_agg ai = true -> exists a, it_aggs newitem = [a] /\
       it_aggs np ++ it_aggs ni = take off (it_aggs oposting) ++ a :: drop off (it_aggs oposting)).
Proof.
  intros Hn Ho Ht Hx Hoff.
  destruct (swap_run ai nkeyatts newitem oposting off newtid newxmin Hn Ho Ht Hx Hoff)
    as (np & ni & mt & xm & Hr & Hmt & _ & Hnt & Hit & _ & _ & Hsz & _ & _ & Hagg).
  exists np, ni. split; [done|]. split; [done|]. rewrite Hnt, Hit.
  split; [apply length_shift_in; lia|]. split; [apply shift_in_last; [lia|done]|].
  intros Ha. destruct (Hagg Ha) as (a & oa & Hna & Hl & -> & ->). exists a. split; [done|].
  apply shift_in_last; [|done]. rewrite (wt_aggs _ _ _ Ho), Ha. lia.
Qed.

(** The transaction ids do not follow: the id handed back with the displaced TID is
    the one that was stored at the split position, so the ids are the old ids with
    the new one inserted exactly when that id equals the last one. *)
Theorem swap_posting_wrong_xmin (ai : agg_info) (nkeyatts : nat) (newitem oposting : itup) (off : nat)
    (newtid : tid) (newxmin : Z) :
  wf_tuple ai nkeyatts newitem -> wf_tuple ai nkeyatts oposting ->
  it_tids newitem = [newtid] -> it_xmins newitem = [newxmin] -> (0 < off < length (it_tids oposting))%nat ->
  exists np ni, _abt_swap_posting ai newitem oposting off = Some (np, ni) /\
    (it_xmins np ++ it_xmins ni = take off (it_xmins oposting) ++ newxmin :: drop off (it_xmins oposting) <->
     it_xmins oposting !! off = last (it_xmins oposting)).
Proof.
  intros Hn Ho Ht Hx Hoff.
  destruct (swap_run ai nkeyatts newitem oposting off newtid newxmin Hn Ho Ht Hx Hoff)
    as (np & ni & mt & xm & Hr & _ & Hxm & _ & _ & Hnx & Hix & _).
  exists np, ni. split; [done|]. rewrite Hnx, Hix, Hxm.
  destruct (last (it_xmins oposting)) as [lx|] eqn:El;
    [|apply last_None in El; rewrite El in Hxm; done].
  rewrite <- (shift_in_last off newxmin lx) by (rewrite ?(wt_xmins _ _ _ Ho); lia || done).
  split; [intros H; apply app_inj_tail in H as [_ ->]; done|by intros [= ->]].
Qed.

Definition demo_tid (k : Z) : tid := mk_tid 0 k.
(** No aggregates at the leaves. *)
Definition noagg_ai : agg_info := _abt_compute_tuple_offsets (mk_agg 8 8 false 0 0 0).
Definition demo_oposting : itup :=
  mk_itup [Some 1] (posting_size noagg_ai 16 3) (Some 16) (demo_tid <$> [10; 20; 30]) [] [101; 102; 103].
Definition demo_newitem : itup := mk_itup [Some 1] 24 None [demo_tid 15] [] [104].

Lemma demo_wf_oposting : wf_tuple noagg_ai 1 demo_oposting.
Proof. by constructor. Qed.
Lemma demo_wf_newitem : wf_tuple noagg_ai 1 demo_newitem.
Proof. by constructor. Qed.

Lemma swap_posting_inserts_witness :
  exists np ni, _abt_swap_posting noagg_ai demo_newitem demo_oposting 1 = Some (np, ni) /\
    it_tids np ++ it_tids ni = demo_tid <$> [10; 15; 20; 30].
Proof.
  destruct (swap_posting_inserts noagg_ai 1 demo_newitem demo_oposting 1 (demo_tid 15) 104
    demo_wf_newitem demo_wf_oposting eq_refl eq_refl ltac:(simpl; lia)) as (np & ni & Hr & _ & _ & Ht & _).
  exists np, ni. split; [exact Hr|exact Ht].
Defined.

Lemma swap_posting_wrong_xmin_witness :
  exists np ni, _abt_swap_posting noagg_ai demo_newitem demo_oposting 1 = Some (np, ni) /\
    it_xmins np ++ it_xmins ni <> [101; 104; 102; 103].
Proof.
  destruct (swap_posting_wrong_xmin noagg_ai 1 demo_newitem demo_oposting 1 (demo_tid 15) 104
    demo_wf_newitem demo_wf_oposting eq_refl eq_refl ltac:(simpl; lia)) as (np & ni & Hr & Hx).
  exists np, ni. split; [exact Hr|]. intros H. apply Hx in H. discriminate H.
Defined.

(** ** Vacuuming a posting list *)

(** The elements whose position, counted from [i], is not listed. *)
Definition kept {A} (i : Z) (del : list Z) (l : list A) : list A :=
  imap (fun j x => if decide (i + Z.of_nat j ∈ del) then [] else [x]) l ≫= id.

Lemma kept_cons {A} i del (x : A) l :
  kept i del (x :: l) = (if decide (i ∈ del) then [] else [x]) ++ kept (i + 1) del l.
Proof.
  unfold kept. rewrite imap_cons, bind_cons. f_equal.
  - simpl. by rewrite Z.add_0_r.
  - f_equal. apply imap_ext. intros j y _. simpl. by replace (i + Z.of_nat (S j)) with (i + 1 + Z.of_nat j) by lia.
Qed.

Lemma keep_loop_kept {A} i del (l : list A) :
  StronglySorted Z.lt del -> Forall (Z.le i) del -> keep_loop i del l = kept i del l.
Proof.
  revert i del. induction l as [|x l IH]; intros i del Hs Hi; [done|].
  rewrite kept_cons. destruct del as [|d del]; cbn [keep_loop].
  - rewrite decide_False by apply not_elem_of_nil. simpl. f_equal. by apply IH.
  - apply StronglySorted_inv in Hs as [Hs Hd]. apply Forall_cons in Hi as [Hid Hi].
    destruct (Z.eqb_spec d i) as [->|Hne].
    + rewrite decide_True by (by left). simpl. rewrite IH; [|done|eapply Forall_impl; [exact Hd|simpl; lia]].
      unfold kept. f_equal. apply imap_ext. intros j y _. simpl.
      destruct (decide (i + 1 + Z.of_nat j ∈ del)) as [?|Hn].
      * by rewrite decide_True by (by right).
      * rewrite decide_False; [done|]. rewrite list.elem_of_cons. intros [?|?]; [lia|done].
    + assert (Hgt : Forall (Z.le (i + 1)) (d :: del)).
      { constructor; [lia|]. eapply Forall_impl; [exact Hd|]. simpl. lia. }
      rewrite decide_False.
      * simpl. f_equal. by apply IH; [constructor|].
      * intros Hin. rewrite Forall_forall in Hgt. specialize (Hgt _ Hin). lia.
Qed.

Lemma keep_loop_zip {A B C} (f : A -> B -> C) i del l k :
  length l = length k -> keep_loop i del (zip_with f l k) = zip_with f (keep_loop i del l) (keep_loop i del k).
Proof.
  revert i del k. induction l as [|x l IH]; intros i del [|y k] Hl; try done. simpl in *.
  destruct del as [|d del]; [simpl; f_equal; apply IH; lia|].
  destruct (d =? i); [apply IH; lia|]. simpl. f_equal. apply IH. lia.
Qed.

Lemma keep_loop_length {A} i del (l : list A) :
  StronglySorted Z.lt del -> Forall (fun d => i <= d < i + Z.of_nat (length l)) del ->
  (length (keep_loop i del l) + length del = length l)%nat.
Proof.
  revert i del. induction l as [|x l IH]; intros i del Hs Hr.
  { destruct del; [done|]. apply Forall_cons in Hr as [? _]. simpl in *. lia. }
  destruct del as [|d del]; simpl; [rewrite IH; [simpl; lia|done|constructor]|].
  apply StronglySorted_inv in Hs as [Hs Hd]. apply Forall_cons in Hr as [Hdr Hr]. simpl in *.
  assert (Hr' : Forall (fun e => i + 1 <= e < i + 1 + Z.of_nat (length l)) del).
  { rewrite Forall_forall in *. intros e He. specialize (Hd e He). specialize (Hr e He). lia. }
  destruct (Z.eqb_spec d i) as [->|Hne]; [specialize (IH _ _ Hs Hr'); lia|].
  specialize (IH (i + 1) (d :: del)). simpl in *.
  rewrite <- IH; [simpl; lia|by constructor|]. constructor; [lia|done].
Qed.

Lemma imap_pair {A B C} (f : A -> option B -> C) (l : list A) (k : list B) :
  length l = length k -> imap (fun i x => f x (k !! i)) l = zip_with (fun x y => f x (Some y)) l k.
Proof.
  revert f k. induction l as [|x l IH]; intros f [|y k] Hl; try done. rewrite imap_cons. simpl in *. f_equal.
  rewrite <- IH by lia. by apply imap_ext.
Qed.

Lemma expand_zip ai nkeyatts t : wf_tuple ai nkeyatts t ->
  expand t = if leaf_has_agg ai
             then zip_with (fun xa y => (it_key t, fst xa, Some (snd xa), Some y))
                    (zip (it_tids t) (it_aggs t)) (it_xmins t)
             else zip_with (fun x y => (it_key t, x, None, Some y)) (it_tids t) (it_xmins t).
Proof.
  intros [_ _ Ha Hx _]. unfold expand. destruct (leaf_has_agg ai).
  - generalize (it_key t). intros key. revert Ha Hx. generalize (it_xmins t) (it_aggs t) (it_tids t).
    intros xs as_ ts. revert xs as_. induction ts as [|x ts IH]; intros [|y xs] [|a as_] Ha Hx; try done.
    rewrite imap_cons. simpl in *. f_equal. rewrite <- IH by lia. by apply imap_ext.
  - apply nil_length_inv in Ha. rewrite Ha, <- (imap_pair (fun x y => (it_key t, x, None, y))) by done. done.
Qed.

(** Vacuuming a posting list with some but not all of its TIDs deleted (their
    positions listed in increasing order) gives a tuple that stores exactly the
    other entries, in order, and has the size its kind requires; one remaining
    TID makes it a plain tuple. *)
Theorem update_posting_keeps (ai : agg_info) (nkeyatts : nat) (t : itup) (off : Z) (del : list Z) :
  wf_tuple ai nkeyatts t -> it_postingoff t = Some off -> StronglySorted Z.lt del ->
  Forall (fun d => 0 <= d < nposting t) del -> (length del < length (it_tids t))%nat ->
  exists t', _abt_update_posting ai t del = Some t' /\ wf_tuple ai nkeyatts t' /\
    expand t' = kept 0 del (expand t) /\
    (it_postingoff t' = None <-> nposting t' = 1) /\
    it_size t' = if nposting t' =? 1 then off + extra_space_for_nonpivot_tuple ai
                 else posting_size ai off (nposting t').
Proof.
  intros Hw Ho Hs Hd Hlen. pose proof Hw as [_ _ Ha Hx Hk].
  assert (Hd0 : Forall (Z.le 0) del) by (eapply Forall_impl; [exact Hd|simpl; lia]).
  assert (Hkt := keep_loop_length 0 del (it_tids t) Hs Hd).
  assert (Hkx := keep_loop_length 0 del (it_xmins t) Hs). rewrite Hx in Hkx. specialize (Hkx Hd).
  unfold _abt_update_posting. rewrite Ho. eexists. split; [done|].
  replace (nposting t - Z.of_nat (length del)) with (Z.of_nat (length (keep_loop 0 del (it_tids t))))
    by (unfold nposting; lia).
  set (r := if 1 <? _ then _ else _).
  assert (Hr : it_key r = it_key t /\ it_tids r = keep_loop 0 del (it_tids t) /\
    it_aggs r = (if leaf_has_agg ai then keep_loop 0 del (it_aggs t) else []) /\
    it_xmins r = keep_loop 0 del (it_xmins t)) by (unfold r; by destruct (1 <? Z.of_nat (length (keep_loop 0 del (it_tids t))))).
  destruct Hr as (Hrk & Hrt & Hra & Hrx).
  assert (Hwr : wf_tuple ai nkeyatts r).
  { constructor; rewrite ?Hrk, ?Hrt, ?Hra, ?Hrx; try done.
    - intros Hn. rewrite Hn in Hkt. simpl in Hkt. lia.
    - unfold r. destruct (Z.ltb_spec 1 (Z.of_nat (length (keep_loop 0 del (it_tids t))))); [done|]. lia.
    - destruct (leaf_has_agg ai); [|done].
      assert (Hka := keep_loop_length 0 del (it_aggs t) Hs). rewrite Ha in Hka. specialize (Hka Hd). lia.
    - lia. }
  split; [done|]. split.
  - rewrite (expand_zip ai nkeyatts r Hwr), (expand_zip ai nkeyatts t Hw), Hrk, Hrt, Hra, Hrx.
    rewrite <- keep_loop_kept by done. destruct (leaf_has_agg ai).
    + rewrite keep_loop_zip by (rewrite length_zip_with; lia). f_equal. symmetry. apply keep_loop_zip. lia.
    + symmetry. apply keep_loop_zip. lia.
  - unfold nposting. rewrite Hrt. unfold r.
    destruct (Z.ltb_spec 1 (Z.of_nat (length (keep_loop 0 del (it_tids t))))) as [H1|H1]; simpl.
    + split; [split; [done|lia]|]. destruct (Z.eqb_spec (Z.of_nat (length (keep_loop 0 del (it_tids t)))) 1); [lia|done].
    + assert (Z.of_nat (length (keep_loop 0 del (it_tids t))) = 1) as -> by lia. done.
Qed.

Lemma update_posting_keeps_witness :
  exists t', _abt_update_posting noagg_ai demo_oposting [0; 2] = Some t' /\
    expand t' = kept 0 [0; 2] (expand demo_oposting) /\ it_size t' = 24.
Proof.
  destruct (update_posting_keeps noagg_ai 1 demo_oposting 16 [0; 2] demo_wf_oposting eq_refl)
    as (t' & Hr & _ & He & _ & Hsz); [repeat constructor|repeat constructor; vm_compute; congruence|simpl; lia|].
  exists t'. split; [exact Hr|]. split; [exact He|]. injection Hr as <-. reflexivity.
Defined.

(** ** The size check and the size formed do not match *)

(** When the base of a pending posting list is a plain tuple, the merged size that
    _abt_dedup_save_htid compares with the limit is smaller than the size
    _abt_form_posting gives the tuple, by the space reserved for a plain tuple's
    aggregate and transaction id; the comment says the two must match. *)
Theorem dedup_size_mismatch (ai : agg_info) (st st2 : dedup_state) (b t : itup) (off : Z) :
  it_postingoff b = None -> it_size b mod 8 = 0 -> it_size b <= maxpostingsize st ->
  length (it_tids b) = 1%nat -> it_tids t <> [] ->
  (it_postingoff t = None -> length (it_tids t) = 1%nat) ->
  let st1 := _abt_dedup_start_pending ai st b off in
  _abt_dedup_save_htid ai st1 t = (st2, true) ->
  it_size (final_tuple ai st2) =
    merged_size ai st1 (nposting t) + extra_space_for_nonpivot_tuple ai.
Proof.
  intros Hb Hal Hfit Hlen Hne Hpl st1. unfold _abt_dedup_save_htid.
  assert (Hst1 : htids st1 = it_tids b /\ basetupsize st1 = it_size b - extra_space_for_nonpivot_tuple ai /\ base st1 = b).
  { unfold st1, _abt_dedup_start_pending. simpl. rewrite Hb. by destruct (Z.leb_spec (it_size b) (maxpostingsize st)); [|lia]. }
  clearbody st1. destruct Hst1 as (Hh & Hbs & Hbb). unfold nhtids at 1. rewrite Hh, Hlen. cbn [Z.eqb Z.of_nat Pos.of_succ_nat].
  assert (Hn : (if is_posting t then nposting t else 1) = nposting t).
  { unfold is_posting, nposting in *. destruct (it_postingoff t); [done|]. by rewrite Hpl. }
  rewrite Hn. destruct (_ <? merged_size _ _ _); [done|]. intros [= <-].
  set (n := (length (it_tids b ++ it_tids t))).
  assert (Hn2 : Z.of_nat n = 1 + nposting t) by (unfold n, nposting; rewrite length_app, Hlen; lia).
  assert (Hn3 : 1 < Z.of_nat n).
  { rewrite Hn2. unfold nposting. destruct (it_tids t); [done|]. simpl. lia. }
  unfold final_tuple, _abt_form_posting. cbn [save_extra base htids aggs xmins].
  rewrite Hbb, Hb. fold n.
  destruct (Z.ltb_spec 1 (Z.of_nat n)) as [_|]; [|lia].
  assert (Hsz : forall x : itup, it_size (if save_extra st1 then mk_itup (it_key x) (it_size x) (it_postingoff x) (it_tids x)
     (if leaf_has_agg ai then (if save_extra st1 && leaf_has_agg ai then aggs st1 ++ it_aggs t else aggs st1) else it_aggs x)
     (if save_extra st1 then xmins st1 ++ it_xmins t else xmins st1) else x) = it_size x) by (intros; by destruct (save_extra st1)).
  rewrite Hsz. cbn [it_size]. unfold posting_size, merged_size, nhtids. rewrite Hh, Hlen, Hbs, Hn2.
  rewrite MAXALIGN_add by done. unfold sizeof_ItemPointerData, sizeof_TransactionId.
  change (Z.of_nat 1) with 1. destruct (leaf_has_agg ai); lia.
Qed.

(** 113 pairs of duplicates with 8-byte aggregates: a page that is full but not
    over-full. *)
Definition pair_tuple (i : nat) : itup :=
  mk_itup [Some (Z.of_nat (i / 2))] 32 None [mk_tid (Z.of_nat i) 1] [7] [3].
Definition pairs_page : leafpage := mk_leaf None ((., false) <$> (pair_tuple <$> seq 0 226)) false.

Lemma dedup_size_mismatch_witness :
  it_size (final_tuple demo_ai (fst (_abt_dedup_save_htid demo_ai
    (_abt_dedup_start_pending demo_ai (init_state (pair_tuple 0)) (pair_tuple 0) 1) (pair_tuple 1)))) =
  merged_size demo_ai (_abt_dedup_start_pending demo_ai (init_state (pair_tuple 0)) (pair_tuple 0) 1) 1 + 16.
Proof.
  apply (dedup_size_mismatch demo_ai (init_state (pair_tuple 0)) _ (pair_tuple 0) (pair_tuple 1) 1);
    try reflexivity; [vm_compute; congruence|done].
Defined.

(** Deduplicating a full leaf page of such pairs fails with "deduplication failed
    to add tuple to page": the page has room for its items, but each merged pair is
    larger than the two tuples it replaces. *)
Theorem dedup_page_overflow :
  used_space pairs_page <= pg_free empty_page /\
  Forall (wf_tuple demo_ai 1) (live pairs_page) /\
  _abt_dedup_one_page demo_ai 1 pairs_page (pair_tuple 0) 32 false = inl ElogError.
Proof.
  split; [vm_compute; congruence|]. split; [|vm_compute; reflexivity].
  unfold pairs_page. rewrite live_data. apply Forall_fmap, Forall_true. intros i. by constructor.
Qed.

(** Three duplicates and another key, without aggregates. *)
Definition demo_leaf : leafpage := mk_leaf None
  [(mk_itup [Some 1] 24 None [demo_tid 10] [] [101], false);
   (mk_itup [Some 1] 24 None [demo_tid 11] [] [102], false);
   (mk_itup [Some 1] 24 None [demo_tid 12] [] [103], true);
   (mk_itup [Some 1] 24 None [demo_tid 13] [] [104], false);
   (mk_itup [Some 2] 24 None [demo_tid 14] [] [105], false)] true.

Lemma demo_leaf_wf : Forall (wf_tuple noagg_ai 1) (live demo_leaf).
Proof. repeat constructor; done. Qed.

Lemma dedup_preserves_entries_witness :
  exists p', _abt_dedup_one_page noagg_ai 1 demo_leaf demo_newitem 9000 false = inr p' /\
    (live p' ≫= expand) = (live demo_leaf ≫= expand) /\ length (live p') = 2%nat.
Proof.
  destruct (_abt_dedup_one_page noagg_ai 1 demo_leaf demo_newitem 9000 false) as [e|p'] eqn:E;
    [vm_compute in E; discriminate E|].
  exists p'. split; [reflexivity|].
  split; [apply (dedup_preserves_entries noagg_ai 1 demo_leaf p' demo_newitem 9000 false demo_leaf_wf E)|].
  vm_compute in E. injection E as <-. reflexivity.
Defined.

Lemma dedup_noagg_total_witness :
  exists p', _abt_dedup_one_page noagg_ai 1 demo_leaf demo_newitem 9000 false = inr p' /\
    sumZ (item_space <$> live p') <= sumZ (item_space <$> live demo_leaf).
Proof.
  destruct (dedup_noagg_total noagg_ai 1 eq_refl eq_refl demo_leaf demo_newitem 9000 false)
    as (p' & Hr & _ & _ & Hle).
  - discriminate.
  - exact demo_leaf_wf.
  - repeat constructor; vm_compute; congruence.
  - discriminate.
  - vm_compute. congruence.
  - exists p'. split; [exact Hr|exact Hle].
Defined.

End Dedup.
