(* ===== verification/Versions.v ===== *)
(** * Versions of aggregates (abtversionstore.c, the parts without shared state)

    Transaction ids are 32-bit and ordered on a ring (access/transam): inside a
    window of 2^31 ids the ring order is the order of the distances from the
    window's start.  A snapshot lists the transactions it does not see.

    _abt_compute_page_aggregate_and_version_chain merges the version chains below a
    page (for a leaf page, one version per entry) with a binary max-heap on
    transaction ids.  Its result, private to the caller until it is installed, is
    a list of (transaction id, delta).  SQL addition, which raises an error on
    overflow, is [int_add]. *)

From stdpp Require Import base numbers option sorting list.
From S2P Require Import Prelude.

Module Versions.

(** ** Transaction ids *)

Definition InvalidTransactionId : Z := 0.
Definition FirstNormalTransactionId : Z := 3.
Definition TransactionIdIsValid (xid : Z) : bool := negb (xid =? InvalidTransactionId).
Definition TransactionIdIsNormal (xid : Z) : bool := FirstNormalTransactionId <=? xid.
Definition NormalTransactionIdPrecedes (id1 id2 : Z) : bool := i32 (id1 - id2) <? 0.
Definition TransactionIdPrecedes (id1 id2 : Z) : bool :=
  if negb (TransactionIdIsNormal id1) || negb (TransactionIdIsNormal id2) then id1 <? id2
  else i32 (id1 - id2) <? 0.

(** ** Snapshots *)

Record ABTSnapshot := mk_snap { sn_xmin : Z; sn_xmax : Z; sn_xip : list Z }.

Definition _abt_compare_xid (a b : Z) : Z :=
  if NormalTransactionIdPrecedes a b then 1
  else if NormalTransactionIdPrecedes b a then -1
  else 0.

(** qsort with a comparison function, as insertion sort. *)
Fixpoint insert_by (cmp : Z -> Z -> Z) (x : Z) (l : list Z) : list Z :=
  match l with
  | [] => [x]
  | y :: l' => if cmp x y <=? 0 then x :: l else y :: insert_by cmp x l'
  end.
Fixpoint qsort (cmp : Z -> Z -> Z) (l : list Z) : list Z :=
  match l with [] => [] | x :: l' => insert_by cmp x (qsort cmp l') end.

(** The fields of PostgreSQL's snapshot that are used. *)
Record Snapshot := mk_snapshot {
  is_mvcc : bool;
  takenDuringRecovery : bool;
  snap_xmin : Z;
  snap_xmax : Z;
  snap_xip : list Z;
  snap_subxip : list Z
}.

Definition _abt_prepare_snapshot_for_sampling (snapshot : option Snapshot) : option ABTSnapshot :=
  match snapshot with
  | None => None
  | Some s =>
      if negb (is_mvcc s) then None
      else
        let xip := qsort _abt_compare_xid
          (if negb (takenDuringRecovery s) then snap_xip s else snap_subxip s) in
        Some (mk_snap (match last xip with Some x => x | None => snap_xmax s end) (snap_xmax s) xip)
  end.

(** bsearch over the sorted array finds an entry that compares equal. *)
Definition _abt_xid_in_snapshot (xid : Z) (snapshot : option ABTSnapshot) : bool :=
  match snapshot with
  | None => false
  | Some s =>
      if negb (TransactionIdIsValid xid) then true
      else if negb (TransactionIdPrecedes xid (sn_xmax s)) then true
      else if TransactionIdPrecedes xid (sn_xmin s) then false
      else existsb (fun y => _abt_compare_xid xid y =? 0) (sn_xip s)
  end.

(** ** Keys of the version store *)

Definition ABTVS_KEY (oid blkno : Z) : Z := Z.lor (u64 (Z.shiftl oid 32)) blkno.
Definition ABTVS_KEY_GET_OID (key : Z) : Z := u32 (Z.shiftr key 32).
Definition ABTVS_KEY_GET_BLKNO (key : Z) : Z := u32 key.

(** ** The max-heap of transaction ids *)

Section Heap.
Context {A : Type} (get_xmin : A -> Z).

(** max_heap[i], indices starting from 1. *)
Definition heap_get (h : list A) (i : nat) : option A := h !! (i - 1)%nat.
Definition heap_set (h : list A) (i : nat) (x : A) : list A := <[(i - 1)%nat := x]> h.

Definition heap_swap (h : list A) (i j : nat) : option (list A) :=
  match heap_get h i, heap_get h j with
  | Some x, Some y => Some (heap_set (heap_set h i y) j x)
  | _, _ => None
  end.

(** The larger child of [i]. *)
Definition larger_child (h : list A) (i n : nat) : option (nat * Z) :=
  let j := (2 * i)%nat in
  match heap_get h j with
  | None => None
  | Some c =>
      if (j <? n)%nat then
        match heap_get h (j + 1) with
        | None => None
        | Some c2 =>
            if NormalTransactionIdPrecedes (get_xmin c) (get_xmin c2)
            then Some ((j + 1)%nat, get_xmin c2) else Some (j, get_xmin c)
        end
      else Some (j, get_xmin c)
  end.

(** The loop of _abtvs_push_xmin_max_heap; the fuel bounds the descent. *)
Fixpoint push_loop (fuel : nat) (h : list A) (i n : nat) (parent_xmin : Z) : option (list A) :=
  if (i <=? n / 2)%nat then
    match fuel with
    | O => None
    | S f =>
        match larger_child h i n with
        | None => None
        | Some (j, child_xmin) =>
            if NormalTransactionIdPrecedes parent_xmin child_xmin then
              match heap_swap h i j with
              | None => None
              | Some h' => push_loop f h' j n parent_xmin
              end
            else Some h
        end
    end
  else Some h.

Definition _abtvs_push_xmin_max_heap (h : list A) (i n : nat) : option (list A) :=
  match heap_get h i with
  | None => None
  | Some x => push_loop n h i n (get_xmin x)
  end.

(** for (i = n >> 1; i >= 1; --i) *)
Fixpoint make_loop (i : nat) (h : list A) (n : nat) : option (list A) :=
  match i with
  | O => Some h
  | S i' =>
      match _abtvs_push_xmin_max_heap h i n with
      | None => None
      | Some h' => make_loop i' h' n
      end
  end.
Definition _abtvs_make_xmin_max_heap (h : list A) (n : nat) : option (list A) := make_loop (n / 2) h n.

End Heap.

(** ** Page aggregate and version chain *)

(** int2pl, int4pl and int8pl: an error when the sum leaves the type. *)
Definition int_add (typlen a b : Z) : option Z :=
  let s := a + b in
  if (- 2 ^ (8 * typlen - 1) <=? s) && (s <? 2 ^ (8 * typlen - 1)) then Some s else None.

(** A version node: transaction id and delta. *)
Definition version : Type := Z * Z.

(** What a tuple of the page contributes: an entry of a leaf page has one version,
    a pivot tuple has its aggregate and the chain of its child. *)
Inductive page_item := LeafEntry (xmin value : Z) | Pivot (value : Z) (chain : list version).

Section Page.
Context (typlen RecentGlobalDataXmin : Z).

(** _abtvs_get_node_if_safe on the rest of a chain. *)
Definition node_if_safe (chain : list version) : option (list version) :=
  match chain with
  | [] => None
  | (xmin, _) :: _ => if TransactionIdPrecedes xmin RecentGlobalDataXmin then None else Some chain
  end.

(** The scan of the page: the aggregate so far and the heap array. *)
Fixpoint scan_items (items : list page_item) (agg : Z) (heap : list (list version))
    : option (Z * list (list version)) :=
  match items with
  | [] => Some (agg, heap)
  | LeafEntry xmin v :: rest =>
      if negb (TransactionIdIsValid xmin) then scan_items rest agg heap
      else
        match int_add typlen agg v with
        | None => None
        | Some agg' =>
            if TransactionIdPrecedes xmin RecentGlobalDataXmin then scan_items rest agg' heap
            else scan_items rest agg' (heap ++ [[(xmin, v)]])
        end
  | Pivot v chain :: rest =>
      let heap' := match node_if_safe chain with Some c => heap ++ [c] | None => heap end in
      match int_add typlen agg v with
      | None => None
      | Some agg' => scan_items rest agg' heap'
      end
  end.

Definition chain_xmin (c : list version) : Z := match c with (x, _) :: _ => x | [] => InvalidTransactionId end.

(** One version goes to the tail node when the transaction is the same, else to a
    new tail; the chain is kept tail first. *)
Definition add_version (chain : list version) (x v : Z) : option (list version) :=
  match chain with
  | (tx, td) :: rest =>
      if x =? tx then
        match int_add typlen td v with Some d => Some ((tx, d) :: rest) | None => None end
      else Some ((x, v) :: chain)
  | [] => Some [(x, v)]
  end.

(** The merge loop; each round consumes one version. *)
Fixpoint merge_loop (fuel : nat) (heap : list (list version)) (n : nat) (chain : list version)
    : option (list version) :=
  match fuel with
  | O => None
  | S f =>
      match heap_get heap 1 with
      | Some ((x, v) :: rest) =>
          match add_version chain x v with
          | None => None
          | Some chain' =>
              match node_if_safe rest with
              | Some rest' =>
                  match _abtvs_push_xmin_max_heap chain_xmin (heap_set heap 1 rest') 1 n with
                  | Some h => merge_loop f h n chain'
                  | None => None
                  end
              | None =>
                  let n' := (n - 1)%nat in
                  if (n' =? 0)%nat then Some chain'
                  else
                    match heap_get heap n with
                    | None => None
                    | Some l =>
                        match _abtvs_push_xmin_max_heap chain_xmin (heap_set heap 1 l) 1 n' with
                        | Some h => merge_loop f h n' chain'
                        | None => None
                        end
                    end
              end
          end
      | _ => None
      end
  end.

(** The number of versions below the page bounds the merge. *)
Definition total_versions (heap : list (list version)) : nat := list_sum (length <$> heap).

Definition _abt_compute_page_aggregate_and_version_chain (items : list page_item)
    : option (Z * list version) :=
  match scan_items items 0 [] with
  | None => None
  | Some (agg, heap) =>
      let n := length heap in
      if (n =? 0)%nat then Some (agg, [])
      else
        match _abtvs_make_xmin_max_heap chain_xmin heap n with
        | None => None
        | Some h =>
            match merge_loop (total_versions h) h n [] with
            | None => None
            | Some chain => Some (agg, rev chain)
            end
        end
  end.

End Page.

(** ** Reading an aggregate under a snapshot *)

(** The delta as an unsigned value of the aggregate's width. *)
Definition rop (typlen d : Z) : Z :=
  if typlen =? 8 then u64 d else if typlen =? 4 then u32 d else u16 d.

(** while (i < xcnt && NormalTransactionIdPrecedes(xmin, xip[i])) ++i; the array
    from index i on. *)
Fixpoint skip_newer (x : Z) (xip : list Z) : list Z :=
  match xip with
  | y :: xip' => if NormalTransactionIdPrecedes x y then skip_newer x xip' else xip
  | [] => []
  end.

(** One node of _abtvs_exclude_agg_in_snapshot: stop here, or the rest of the xip
    array and whether the delta is subtracted. *)
Definition exclude_step (s : ABTSnapshot) (x : Z) (xip : list Z) : option (list Z * bool) :=
  if NormalTransactionIdPrecedes x (sn_xmin s) then None
  else if NormalTransactionIdPrecedes x (sn_xmax s) then
    match skip_newer x xip with
    | y :: xip' => if x =? y then Some (xip', true) else Some (y :: xip', false)
    | [] => Some ([], false)
    end
  else Some (xip, true).

(** The loop of _abtvs_exclude_agg_in_snapshot over the chain of the key. *)
Fixpoint exclude_chain (typlen : Z) (s : ABTSnapshot) (xip : list Z) (agg : Z) (chain : list version) : Z :=
  match chain with
  | [] => agg
  | (x, d) :: rest =>
      match exclude_step s x xip with
      | None => agg
      | Some (xip', true) => exclude_chain typlen s xip' (u64 (agg - rop typlen d)) rest
      | Some (xip', false) => exclude_chain typlen s xip' agg rest
      end
  end.

Definition exclude_agg (typlen agg : Z) (snapshot : option ABTSnapshot)
    (chain : list version) : Z :=
  match snapshot with
  | None => agg
  | Some s => exclude_chain typlen s (sn_xip s) agg chain
  end.

(** ** The ring order inside a window *)

Section Window.
Context (base : Z).

(** Distance from the start of the window. *)
Definition age (x : Z) : Z := u32 (x - base).
Definition in_window (x : Z) : Prop := 0 <= x < 2 ^ 32 /\ age x < 2 ^ 31.

Lemma precedes_age x y : in_window x -> in_window y ->
  NormalTransactionIdPrecedes x y = (age x <? age y).
Proof.
  intros [Hx Ax] [Hy Ay]. unfold NormalTransactionIdPrecedes.
  replace (i32 (x - y)) with (age x - age y).
  - destruct (Z.ltb_spec (age x) (age y)), (Z.ltb_spec (age x - age y) 0); lia.
  - unfold i32, sign_extend. change (32 - 1) with 31. unfold age, u32 in *.
    replace ((x - y) mod 2 ^ 32) with (((x - base) mod 2 ^ 32 - (y - base) mod 2 ^ 32) mod 2 ^ 32).
    + set (a := (x - base) mod 2 ^ 32) in *. set (b := (y - base) mod 2 ^ 32) in *.
      pose proof (Z.mod_pos_bound (x - base) (2 ^ 32) ltac:(lia)).
      pose proof (Z.mod_pos_bound (y - base) (2 ^ 32) ltac:(lia)).
      destruct (Z.le_gt_cases b a).
      * rewrite (Z.mod_small (a - b)) by lia. destruct (Z.ltb_spec (a - b) (2 ^ 31)); lia.
      * replace ((a - b) mod 2 ^ 32) with (a - b + 2 ^ 32).
        -- destruct (Z.ltb_spec (a - b + 2 ^ 32) (2 ^ 31)); lia.
        -- rewrite <- (Z.mod_add (a - b) 1) by lia. symmetry. apply Z.mod_small. lia.
    + rewrite <- Zminus_mod. f_equal. lia.
Qed.

Lemma age_inj x y : in_window x -> in_window y -> age x = age y -> x = y.
Proof.
  intros [Hx _] [Hy _] H. unfold age, u32 in H.
  assert (Hm : (x - y) mod 2 ^ 32 = 0).
  { replace (x - y) with ((x - base) - (y - base)) by lia. rewrite Zminus_mod, H, Z.sub_diag. done. }
  apply Z.mod_divide in Hm; [|lia]. destruct Hm as [k Hk]. lia.
Qed.

Lemma compare_xid_zero x y : in_window x -> in_window y -> (_abt_compare_xid x y =? 0) = (x =? y).
Proof.
  intros Hx Hy. unfold _abt_compare_xid. rewrite !precedes_age by done.
  destruct (Z.ltb_spec (age x) (age y)), (Z.ltb_spec (age y) (age x)), (Z.eqb_spec x y); subst; try lia; try done.
  exfalso. apply n. apply age_inj; [done|done|lia].
Qed.

(** ** The heap *)

Section HeapFacts.
Context {A : Type} (get_xmin : A -> Z).

Definition all_in_window (h : list A) : Prop := Forall (fun x => in_window (get_xmin x)) h.

(** The age at index [i]. *)
Definition kk (h : list A) (i : nat) : Z :=
  match heap_get h i with Some x => age (get_xmin x) | None => 0 end.

(** Every parent from [i0] on is at least as recent as its children; [ex] is an
    index where this may fail. *)
Definition heap_from (i0 ex n : nat) (h : list A) : Prop :=
  forall p c, (i0 <= p)%nat -> p <> ex -> (c = 2 * p \/ c = 2 * p + 1)%nat -> (c <= n)%nat -> kk h c <= kk h p.

Lemma heap_get_set (h : list A) i j x : (1 <= i <= length h)%nat -> (1 <= j)%nat ->
  heap_get (heap_set h i x) j = if decide (i = j) then Some x else heap_get h j.
Proof.
  intros Hi Hj. unfold heap_get, heap_set. case_decide as E.
  - subst. rewrite list_lookup_insert_eq by lia. done.
  - rewrite list_lookup_insert_ne by lia. done.
Qed.

Lemma length_heap_set (h : list A) i x : length (heap_set h i x) = length h.
Proof. apply length_insert. Qed.

Lemma heap_get_in (h : list A) i : (1 <= i <= length h)%nat -> exists x, heap_get h i = Some x.
Proof. intros Hi. apply lookup_lt_is_Some. lia. Qed.

Lemma window_get (h : list A) i x : all_in_window h -> heap_get h i = Some x -> in_window (get_xmin x).
Proof. unfold all_in_window. rewrite Forall_forall. intros Hw Hx. apply Hw. by eapply list_elem_of_lookup_2. Qed.

(** An index without children is no exception. *)
Lemma heap_leaf i0 i n (h : list A) : (n / 2 < i)%nat -> heap_from i0 i n h -> heap_from i0 0 n h.
Proof.
  intros Hgt Hh p c Hp _ Hc Hcn. apply Hh; try done. intros ->.
  pose proof (Nat.mod_upper_bound n 2). pose proof (Nat.div_mod n 2). lia.
Qed.

(** Parent and child indices. *)
Lemma child_parent p c : (c = 2 * p \/ c = 2 * p + 1)%nat -> (c / 2 = p)%nat.
Proof.
  intros [->| ->]; [rewrite Nat.mul_comm; apply Nat.div_mul; lia|].
  rewrite Nat.mul_comm, Nat.div_add_l by lia. simpl. lia.
Qed.

Lemma insert_swap_perm (h : list A) i j x y :
  i <> j -> h !! i = Some x -> h !! j = Some y -> Permutation (<[j := x]> (<[i := y]> h)) h.
Proof.
  intros Hne Hi Hj. assert (Hli : (i < length h)%nat) by (by eapply lookup_lt_Some).
  assert (Hlj : (j < length h)%nat) by (by eapply lookup_lt_Some).
  apply Permutation_inj. split.
  - by rewrite !length_insert.
  - exists (fun k => if decide (k = i) then j else if decide (k = j) then i else k). split.
    + intros a b. repeat case_decide; congruence.
    + intros k. case_decide as Hk; [subst k; by rewrite list_lookup_insert_ne, list_lookup_insert_eq by (done || lia)|].
      case_decide as Hk2; [subst k; rewrite list_lookup_insert_eq by (rewrite length_insert; lia); done|].
      by rewrite !list_lookup_insert_ne.
Qed.

Lemma heap_swap_spec (h : list A) i j x y :
  (1 <= i <= length h)%nat -> (1 <= j <= length h)%nat -> i <> j ->
  heap_get h i = Some x -> heap_get h j = Some y ->
  exists h', heap_swap h i j = Some h' /\ length h' = length h /\ Permutation h' h /\
    (forall n, (i <= n)%nat -> (j <= n)%nat -> drop n h' = drop n h) /\
    forall m, (1 <= m)%nat -> heap_get h' m = if decide (m = j) then Some x else if decide (m = i) then Some y else heap_get h m.
Proof.
  intros Hi Hj Hne Hx Hy. unfold heap_swap. rewrite Hx, Hy. eexists. split; [done|].
  split; [by rewrite !length_heap_set|]. split.
  - unfold heap_set, heap_get in *. apply insert_swap_perm; [lia|done|done].
  - split; [intros n Hin Hjn; unfold heap_set; by rewrite !drop_insert_lt by lia|].
    intros m Hm. rewrite !heap_get_set by (rewrite ?length_heap_set; lia).
    repeat case_decide; congruence.
Qed.

(** The child chosen is one of the two and the more recent one. *)
Lemma larger_child_spec (h : list A) i n :
  all_in_window h -> (n <= length h)%nat -> (1 <= i)%nat -> (2 * i <= n)%nat ->
  exists j y, larger_child get_xmin h i n = Some (j, get_xmin y) /\ heap_get h j = Some y /\
    (j = 2 * i \/ j = 2 * i + 1)%nat /\ (j <= n)%nat /\
    forall c, (c = 2 * i \/ c = 2 * i + 1)%nat -> (c <= n)%nat -> kk h c <= kk h j.
Proof.
  intros Hw Hn Hi H2. unfold larger_child.
  destruct (heap_get_in h (2 * i)) as [a Ha]; [lia|]. rewrite Ha.
  pose proof (window_get h _ a Hw Ha) as Wa.
  destruct (Nat.ltb_spec (2 * i) n) as [Hlt|Hge].
  - destruct (heap_get_in h (2 * i + 1)) as [b Hb]; [lia|]. rewrite Hb.
    pose proof (window_get h _ b Hw Hb) as Wb.
    rewrite precedes_age by done.
    destruct (Z.ltb_spec (age (get_xmin a)) (age (get_xmin b))) as [H|H].
    + exists (2 * i + 1)%nat, b. do 3 (split; [done || lia|]). split; [lia|].
      intros c [->| ->] _; unfold kk; rewrite ?Ha, ?Hb; lia.
    + exists (2 * i)%nat, a. do 3 (split; [done || lia|]). split; [lia|].
      intros c [->| ->] _; unfold kk; rewrite ?Ha, ?Hb; lia.
  - exists (2 * i)%nat, a. do 3 (split; [done || lia|]). split; [lia|].
    intros c [->| ->] Hc; [lia|lia].
Qed.

Lemma push_loop_spec fuel (h : list A) i i0 n x :
  all_in_window h -> (n <= length h)%nat -> (1 <= i0 <= i)%nat -> (i <= n)%nat -> (n <= fuel + i)%nat ->
  heap_get h i = Some x -> heap_from i0 i n h ->
  (forall c, (c = 2 * i \/ c = 2 * i + 1)%nat -> (c <= n)%nat -> (i0 <= i / 2)%nat -> kk h c <= kk h (i / 2)) ->
  exists h', push_loop get_xmin fuel h i n (get_xmin x) = Some h' /\ length h' = length h /\
    Permutation h' h /\ heap_from i0 0 n h' /\ drop n h' = drop n h.
Proof.
  revert h i. induction fuel as [|f IH]; intros h i Hw Hn Hi0 Hin Hf Hx Hh Hgp; cbn [push_loop].
  { destruct (Nat.leb_spec i (n / 2)) as [Hle|Hgt].
    - exfalso. pose proof (Nat.Div0.mul_div_le n 2). lia.
    - exists h. split; [done|]. split; [done|]. split; [done|]. split; [by apply (heap_leaf i0 i)|done]. }
  destruct (Nat.leb_spec i (n / 2)) as [Hle|Hgt]; cycle 1.
  { exists h. split; [done|]. split; [done|]. split; [done|]. split; [by apply (heap_leaf i0 i)|done]. }
  pose proof (Nat.Div0.mul_div_le n 2).
  destruct (larger_child_spec h i n Hw Hn) as (j & y & -> & Hy & Hj & Hjn & Hmax); [lia|lia|].
  pose proof (window_get h _ x Hw Hx) as Wx.
  pose proof (window_get h _ y Hw Hy) as Wy.
  rewrite precedes_age by done. destruct (Z.ltb_spec (age (get_xmin x)) (age (get_xmin y))) as [Hlt|Hge]; cycle 1.
  { exists h. split; [done|]. split; [done|]. split; [done|]. split; [|done]. intros p c Hp _ Hc Hcn.
    destruct (decide (p = i)) as [->|]; [|by apply Hh].
    etransitivity; [by apply Hmax|]. unfold kk. by rewrite Hx, Hy. }
  destruct (heap_swap_spec h i j x y) as (h' & -> & Hlen & Hperm & Hdrop & Hget); [lia|lia|lia|done|done|].
  assert (Hkk : forall m, (1 <= m)%nat -> kk h' m = if decide (m = j) then kk h i else if decide (m = i) then kk h j else kk h m).
  { intros m Hm. unfold kk. rewrite (Hget m Hm), Hx, Hy. repeat case_decide; done. }
  pose proof (child_parent i j Hj) as Hji.
  destruct (IH h' j) as (h'' & Hr & Hl'' & Hp'' & Hok & Hd'').
  - unfold all_in_window. by rewrite Hperm.
  - lia.
  - lia.
  - lia.
  - lia.
  - rewrite Hget by lia. by rewrite decide_True.
  - intros p c Hp Hpj Hc Hcn. rewrite !Hkk by lia. rewrite (decide_False (P := p = j)) by done.
    pose proof (child_parent p c Hc) as Hcp.
    destruct (decide (c = j)) as [->|Hcj].
    + assert (p = i) as -> by lia. rewrite decide_True by done. unfold kk. rewrite Hx, Hy. lia.
    + destruct (decide (c = i)) as [->|Hci].
      * rewrite decide_False by lia. rewrite <- Hcp. apply Hgp; [done|done|lia].
      * destruct (decide (p = i)) as [->|]; [by apply Hmax|by apply Hh].
  - intros c Hc Hcn Hi. rewrite Hji in *. rewrite !Hkk by lia.
    rewrite (decide_False (P := c = j)), (decide_False (P := c = i)), (decide_False (P := i = j)), decide_True by lia.
    apply Hh; [lia|lia|done|done].
  - exists h''. split; [done|]. split; [lia|]. split; [by rewrite Hp''|]. split; [done|].
    rewrite Hd''. apply Hdrop; lia.
Qed.

Lemma push_spec (h : list A) i n :
  all_in_window h -> (n <= length h)%nat -> (1 <= i <= n)%nat -> heap_from (i + 1) 0 n h ->
  exists h', _abtvs_push_xmin_max_heap get_xmin h i n = Some h' /\ length h' = length h /\
    Permutation h' h /\ heap_from i 0 n h' /\ drop n h' = drop n h.
Proof.
  intros Hw Hn Hi Hh. unfold _abtvs_push_xmin_max_heap.
  destruct (heap_get_in h i) as [x Hx]; [lia|]. rewrite Hx.
  apply push_loop_spec; try done; try lia.
  - intros p c Hp Hpi Hc Hcn. apply Hh; [lia|lia|done|done].
  - intros c Hc Hcn Hq. pose proof (Nat.Div0.mul_div_le i 2). lia.
Qed.

Lemma make_loop_spec i (h : list A) n :
  all_in_window h -> (n <= length h)%nat -> (i <= n / 2)%nat -> heap_from (i + 1) 0 n h ->
  exists h', make_loop get_xmin i h n = Some h' /\ length h' = length h /\
    Permutation h' h /\ heap_from 1 0 n h'.
Proof.
  revert h. induction i as [|i IH]; intros h Hw Hn Hi Hh; cbn [make_loop].
  { by exists h. }
  pose proof (Nat.Div0.mul_div_le n 2).
  destruct (push_spec h (S i) n) as (h1 & -> & Hl & Hp & Hh1 & _); [done|done|lia|done|].
  destruct (IH h1) as (h2 & Hr & Hl2 & Hp2 & Hh2).
  - unfold all_in_window. by rewrite Hp.
  - lia.
  - lia.
  - replace (i + 1)%nat with (S i) by lia. done.
  - exists h2. split; [done|]. split; [lia|]. split; [by rewrite Hp2|done].
Qed.

Lemma make_spec (h : list A) :
  all_in_window h ->
  exists h', _abtvs_make_xmin_max_heap get_xmin h (length h) = Some h' /\ length h' = length h /\
    Permutation h' h /\ heap_from 1 0 (length h) h'.
Proof.
  intros Hw. apply make_loop_spec; try done. intros p c Hp _ Hc Hcn.
  assert (length h < 2 * (length h / 2 + 1))%nat by
    (pose proof (Nat.mod_upper_bound (length h) 2); pose proof (Nat.div_mod (length h) 2); lia). lia.
Qed.

(** The root of a heap is the most recent element. *)
Lemma heap_top (h : list A) n i : heap_from 1 0 n h -> (1 <= i <= n)%nat -> kk h i <= kk h 1.
Proof.
  intros Hh. induction (lt_wf i) as [i _ IH]. intros Hi.
  destruct (decide (i = 1%nat)) as [->|]; [done|].
  pose proof (Nat.div_mod i 2 ltac:(lia)). pose proof (Nat.mod_upper_bound i 2).
  etransitivity; [apply (Hh (i / 2)%nat i); lia|]. apply IH; lia.
Qed.

End HeapFacts.

(** ** Snapshots *)

Definition xid_ok (x : Z) : Prop := in_window x /\ FirstNormalTransactionId <= x.

Lemma precedes_normal x y : xid_ok x -> xid_ok y -> TransactionIdPrecedes x y = (age x <? age y).
Proof.
  intros [Wx Nx] [Wy Ny]. unfold TransactionIdPrecedes, TransactionIdIsNormal.
  destruct (Z.leb_spec FirstNormalTransactionId x); [|lia].
  destruct (Z.leb_spec FirstNormalTransactionId y); [|lia]. simpl. by apply precedes_age.
Qed.

(** A snapshot ready for sampling: sorted, inside the window. *)
Record snapshot_ok (s : ABTSnapshot) : Prop := {
  so_xmin : xid_ok (sn_xmin s);
  so_xmax : xid_ok (sn_xmax s);
  so_xip : Forall (fun x => xid_ok x /\ age (sn_xmin s) <= age x < age (sn_xmax s)) (sn_xip s);
  so_sorted : StronglySorted (fun x y => age y <= age x) (sn_xip s);
  so_order : age (sn_xmin s) <= age (sn_xmax s)
}.

Lemma insert_by_perm x l : Permutation (insert_by _abt_compare_xid x l) (x :: l).
Proof.
  induction l as [|y l IH]; simpl; [done|]. case_match; [done|]. rewrite IH. by rewrite Permutation_swap.
Qed.
Lemma qsort_perm l : Permutation (qsort _abt_compare_xid l) l.
Proof. induction l as [|x l IH]; simpl; [done|]. by rewrite insert_by_perm, IH. Qed.

Lemma insert_by_sorted x l :
  Forall xid_ok (x :: l) -> StronglySorted (fun x y => age y <= age x) l ->
  StronglySorted (fun x y => age y <= age x) (insert_by _abt_compare_xid x l).
Proof.
  intros Hw Hs. apply Forall_cons in Hw as [Hx Hw]. induction Hs as [|y l Hs IH Hall]; simpl; [by repeat constructor|].
  apply Forall_cons in Hw as [Hy Hw]. unfold _abt_compare_xid.
  rewrite !precedes_age by (apply Hx || apply Hy).
  assert (Hins : age x < age y -> StronglySorted (fun x y => age y <= age x) (y :: insert_by _abt_compare_xid x l)).
  { intros Hlt. constructor; [by apply IH|]. rewrite insert_by_perm. constructor; [lia|done]. }
  assert (Hput : age y <= age x -> StronglySorted (fun x y => age y <= age x) (x :: y :: l)).
  { intros Hle. constructor; [by constructor|]. constructor; [done|]. eapply Forall_impl; [exact Hall|]. simpl. lia. }
  destruct (Z.ltb_spec (age x) (age y)); [by apply Hins|].
  destruct (Z.ltb_spec (age y) (age x)); by apply Hput.
Qed.

Lemma qsort_sorted l : Forall xid_ok l -> StronglySorted (fun x y => age y <= age x) (qsort _abt_compare_xid l).
Proof.
  induction 1 as [|x l Hx Hl IH]; simpl; [constructor|]. apply insert_by_sorted; [|done].
  constructor; [done|]. by rewrite qsort_perm.
Qed.

(** Preparing an MVCC snapshot sorts its transactions from the most recent to the
    oldest, keeps exactly those transactions, and makes xmin the oldest of them (or
    xmax when there is none); any other snapshot gives none. *)
Theorem prepare_snapshot_ok (s : Snapshot) :
  is_mvcc s = true -> xid_ok (snap_xmax s) ->
  Forall (fun x => xid_ok x /\ age x < age (snap_xmax s))
    (if takenDuringRecovery s then snap_subxip s else snap_xip s) ->
  exists a, _abt_prepare_snapshot_for_sampling (Some s) = Some a /\ snapshot_ok a /\
    sn_xmax a = snap_xmax s /\
    Permutation (sn_xip a) (if takenDuringRecovery s then snap_subxip s else snap_xip s) /\
    match last (sn_xip a) with Some x => sn_xmin a = x | None => sn_xmin a = snap_xmax s end.
Proof.
  intros Hm Hmax Hall. unfold _abt_prepare_snapshot_for_sampling. rewrite Hm. cbn [negb].
  replace (if negb (takenDuringRecovery s) then snap_xip s else snap_subxip s)
    with (if takenDuringRecovery s then snap_subxip s else snap_xip s) by (by destruct (takenDuringRecovery s)).
  set (l := if takenDuringRecovery s then snap_subxip s else snap_xip s) in *.
  set (q := qsort _abt_compare_xid l). assert (Hp : Permutation q l) by apply qsort_perm.
  assert (Hq : Forall (fun x => xid_ok x /\ age x < age (snap_xmax s)) q) by (by rewrite Hp).
  assert (Hs : StronglySorted (fun x y => age y <= age x) q).
  { apply qsort_sorted. eapply Forall_impl; [exact Hall|]. by intros x [? _]. }
  eexists. split; [done|]. split; [|split; [done|split; [done|simpl; by destruct (last q)]]].
  destruct (last q) as [x|] eqn:El.
  - apply last_Some in El as [q' Eq]. rewrite Eq in Hq, Hs |- *.
    assert (Hx : xid_ok x /\ age x < age (snap_xmax s)).
    { rewrite Forall_forall in Hq. apply Hq. apply elem_of_app; right; by left. }
    constructor; simpl; [apply Hx|done| |done|lia].
    rewrite Forall_forall in Hq |- *. intros y Hy. specialize (Hq y Hy). split; [apply Hq|].
    split; [|apply Hq]. apply elem_of_app in Hy as [Hy|Hy%list_elem_of_singleton]; [|by subst].
    apply StronglySorted_app in Hs as (Hs & _ & _). apply Hs; [done|by left].
  - apply last_None in El. rewrite El. constructor; simpl; [done|done|by constructor|by constructor|lia].
Qed.

(** ** Merging chains *)

(** Sum of the deltas of the transactions in [P]. *)
Fixpoint sum_if (P : Z -> bool) (l : list version) : Z :=
  match l with
  | [] => 0
  | (x, d) :: l' => (if P x then d else 0) + sum_if P l'
  end.

Lemma sum_if_app P l k : sum_if P (l ++ k) = sum_if P l + sum_if P k.
Proof. induction l as [|[x d] l IH]; simpl; lia. Qed.
Lemma sum_if_perm P l k : Permutation l k -> sum_if P l = sum_if P k.
Proof. induction 1 as [|[x d]|[x d] [y e]|]; simpl; lia. Qed.
Lemma sum_if_nonneg P l : Forall (fun a => 0 <= snd a) l -> 0 <= sum_if P l.
Proof. induction 1 as [|[x d] l Hd _ IH]; simpl in *; [done|]. case_match; lia. Qed.

(** Ages strictly decrease along a chain. *)
Definition desc (l : list version) : Prop := StronglySorted (fun a b => age (fst b) < age (fst a)) l.

Definition chain_ok (l : list version) : Prop := Forall (fun a => xid_ok (fst a)) l /\ desc l.

Section Merge.
Context (typlen Recent : Z).

(** The versions a merge takes from a chain. *)
Fixpoint safe_prefix (c : list version) : list version :=
  match c with
  | [] => []
  | (x, v) :: r => if TransactionIdPrecedes x Recent then [] else (x, v) :: safe_prefix r
  end.

Lemma safe_prefix_sub c a : a ∈ safe_prefix c -> a ∈ c.
Proof.
  induction c as [|[x v] c IH]; simpl; [done|]. case_match; [by intros ?%elem_of_nil|].
  rewrite !elem_of_cons. intros [->|Ha]; auto.
Qed.

Definition ready (c : list version) : Prop := chain_ok c /\ node_if_safe Recent c = Some c.

Definition remaining (h : list (list version)) (n : nat) : list version := take n h ≫= safe_prefix.

Lemma ready_head c : ready c -> exists x v r, c = (x, v) :: r /\ xid_ok x /\
  safe_prefix c = (x, v) :: safe_prefix r /\ chain_ok r /\ Forall (fun a => age (fst a) <= age x) c.
Proof.
  intros [[Hw Hd] Hs]. destruct c as [|[x v] r]; [done|]. simpl in Hs.
  apply Forall_cons in Hw as [Hx Hw]. apply StronglySorted_inv in Hd as [Hd Hall].
  exists x, v, r. split; [done|]. split; [done|]. split; [simpl; by case_match|]. split; [done|].
  constructor; [done|]. eapply Forall_impl; [exact Hall|]. simpl. lia.
Qed.

Lemma ready_window h : Forall ready h -> all_in_window chain_xmin h.
Proof.
  intros Hr. eapply Forall_impl; [exact Hr|]. intros c Hc.
  destruct (ready_head c Hc) as (x & v & r & -> & [Wx _] & _). done.
Qed.

(** Every remaining version is at most as recent as the heap's root. *)
Lemma remaining_le h n a :
  Forall ready h -> (1 <= n <= length h)%nat -> heap_from chain_xmin 1 0 n h ->
  a ∈ remaining h n -> age (fst a) <= kk chain_xmin h 1.
Proof.
  intros Hr Hn Hh Ha. unfold remaining in Ha. apply list_elem_of_bind in Ha as (c & Ha & Hc).
  apply list_elem_of_lookup in Hc as [i Hi]. rewrite lookup_take_Some in Hi. destruct Hi as [Hi Hin].
  assert (Hrc : ready c) by (rewrite Forall_forall in Hr; by eapply Hr, list_elem_of_lookup_2).
  destruct (ready_head c Hrc) as (x & v & r & Hc & _ & _ & _ & Hall).
  apply safe_prefix_sub in Ha. rewrite Forall_forall in Hall. specialize (Hall _ Ha).
  etransitivity; [exact Hall|]. pose proof (heap_top chain_xmin h n (S i) Hh ltac:(lia)) as Ht.
  unfold kk at 1 in Ht. unfold heap_get in Ht. replace (S i - 1)%nat with i in Ht by lia.
  rewrite Hi, Hc in Ht. done.
Qed.

Lemma perm_take {A} (l k : list A) n :
  Permutation l k -> drop n l = drop n k -> Permutation (take n l) (take n k).
Proof.
  intros Hp Hd. rewrite <- (take_drop n l), <- (take_drop n k), Hd in Hp. by apply Permutation_app_inv_r in Hp.
Qed.

Lemma heap_from_root (h : list (list version)) c n :
  heap_from chain_xmin 1 0 n h -> (1 <= length h)%nat -> heap_from chain_xmin 2 0 n (heap_set h 1 c).
Proof.
  intros Hh Hl p q Hp _ Hc Hq.
  assert (Hk : forall m, (2 <= m)%nat -> kk chain_xmin (heap_set h 1 c) m = kk chain_xmin h m).
  { intros m Hm. unfold kk. rewrite heap_get_set by lia. by rewrite decide_False by lia. }
  rewrite !Hk by lia. apply Hh; [lia|lia|done|done].
Qed.

(** Adding a sequence of versions, as the merge loop does one by one. *)
Fixpoint add_all (chain : list version) (E : list version) : option (list version) :=
  match E with
  | [] => Some chain
  | (x, v) :: E' => match add_version typlen chain x v with Some c => add_all c E' | None => None end
  end.

(** Replacing the root and restoring the heap. *)
Lemma replace_root h c n :
  Forall ready h -> ready c -> (1 <= n <= length h)%nat -> heap_from chain_xmin 1 0 n h ->
  exists h', _abtvs_push_xmin_max_heap chain_xmin (heap_set h 1 c) 1 n = Some h' /\
    Forall ready h' /\ (n <= length h')%nat /\ heap_from chain_xmin 1 0 n h' /\
    Permutation (remaining h' n) (remaining (heap_set h 1 c) n).
Proof.
  intros Hr Hc Hn Hh. destruct h as [|c0 t]; [simpl in Hn; lia|].
  assert (Hr1 : Forall ready (heap_set (c0 :: t) 1 c)).
  { unfold heap_set. simpl. apply Forall_cons in Hr as [_ Hr]. by constructor. }
  destruct (push_spec chain_xmin (heap_set (c0 :: t) 1 c) 1 n) as (h' & Hp & Hl & Hperm & Hh' & Hd).
  - by apply ready_window.
  - rewrite length_heap_set; lia.
  - lia.
  - by apply heap_from_root; [|simpl in *; lia].
  - exists h'. split; [done|]. split; [by rewrite Hperm|]. split; [rewrite Hl, length_heap_set; lia|].
    split; [done|]. unfold remaining. by rewrite (perm_take _ _ n Hperm Hd).
Qed.

Lemma remaining_head c0 t n x v r :
  safe_prefix c0 = (x, v) :: safe_prefix r ->
  remaining (c0 :: t) (S n) = (x, v) :: safe_prefix r ++ remaining t n.
Proof. intros H. unfold remaining. simpl. by rewrite H. Qed.

(** The rest of a chain: it goes on in the heap, or it has nothing left to give. *)
Lemma node_if_safe_cases r : chain_ok r ->
  (node_if_safe Recent r = Some r /\ ready r) \/ (node_if_safe Recent r = None /\ safe_prefix r = []).
Proof.
  intros Hr. unfold ready. destruct r as [|[x v] r]; [by right|]. simpl. destruct (TransactionIdPrecedes x Recent); [by right|by left].
Qed.

(** Moving the last element to the root drops the root's chain. *)
Lemma remaining_last c0 t n l : t !! n = Some l ->
  Permutation (remaining (heap_set (c0 :: t) 1 l) (S n)) (remaining t (S n)).
Proof.
  intros Hl. unfold remaining, heap_set. simpl. rewrite (take_S_r t n l Hl). rewrite bind_app. simpl.
  rewrite app_nil_r. apply Permutation_app_comm.
Qed.

Lemma heap_from_le (h : list (list version)) i n m :
  heap_from chain_xmin i 0 n h -> (m <= n)%nat -> heap_from chain_xmin i 0 m h.
Proof. intros Hh Hm p c Hp Hne Hc Hcm. apply Hh; [done|done|done|lia]. Qed.

(** The merge adds the remaining versions one by one, the most recent first. *)
Lemma merge_emits fuel h n :
  Forall ready h -> (1 <= n <= length h)%nat -> heap_from chain_xmin 1 0 n h ->
  (length (remaining h n) <= fuel)%nat ->
  exists E, Permutation E (remaining h n) /\
    StronglySorted (fun a b => age (fst b) <= age (fst a)) E /\
    forall acc, merge_loop typlen Recent fuel h n acc = add_all acc E.
Proof.
  revert h n. induction fuel as [|f IH]; intros h n Hr Hn Hh Hf;
    (destruct h as [|c0 t]; [simpl in Hn; lia|]); pose proof Hr as Hr0; apply Forall_cons in Hr0 as [Hc0 Ht];
    destruct (ready_head c0 Hc0) as (x & v & r & Hc & Hx & Hsafe & Hokr & Hall);
    (destruct n as [|n]; [lia|]); pose proof (remaining_head c0 t n x v r Hsafe) as Hrem; rewrite Hrem in Hf |- *; simpl in Hf; [lia|].
  assert (Hgoal : forall E', Permutation E' (safe_prefix r ++ remaining t n) ->
    StronglySorted (fun a b => age (fst b) <= age (fst a)) E' ->
    StronglySorted (fun a b => age (fst b) <= age (fst a)) ((x, v) :: E')).
  { intros E' HE HS. constructor; [done|]. rewrite HE, Forall_forall. intros a Ha.
    pose proof (remaining_le (c0 :: t) (S n) a Hr Hn Hh ltac:(rewrite Hrem; by right)) as H.
    unfold kk in H. simpl in H. by rewrite Hc in H. }
  cbn [merge_loop]. change (heap_get (c0 :: t) 1) with (Some c0). rewrite Hc. rewrite <- Hc.
  destruct (node_if_safe_cases r Hokr) as [[-> Hrr]|[-> Hnil]].
  - destruct (replace_root (c0 :: t) r (S n)) as (h' & -> & Hr' & Hl' & Hh' & Hp'); [done|done|done|done|].
    change (remaining (heap_set (c0 :: t) 1 r) (S n)) with (safe_prefix r ++ remaining t n) in Hp'.
    destruct (IH h' (S n)) as (E & HE & HS & Hrun); [done|lia|done|rewrite Hp'; lia|].
    exists ((x, v) :: E). rewrite Hp' in HE. split; [by rewrite HE|]. split; [by apply Hgoal|].
    intros acc. cbn [add_all]. destruct (add_version typlen acc x v); [apply Hrun|done].
  - rewrite Hnil in *. replace (S n - 1)%nat with n by lia. destruct n as [|n].
    + exists [(x, v)]. split; [done|]. split; [by apply Hgoal; [|constructor]|].
      intros acc. cbn [add_all Nat.eqb]. by destruct (add_version typlen acc x v).
    + cbn [Nat.eqb]. simpl in Hn. destruct (lookup_lt_is_Some_2 t n ltac:(lia)) as [l Hl].
      replace (heap_get (c0 :: t) (S (S n))) with (Some l) by (by rewrite <- Hl).
      assert (Hrl : ready l) by (rewrite Forall_forall in Ht; by eapply Ht, list_elem_of_lookup_2).
      destruct (replace_root (c0 :: t) l (S n)) as (h' & -> & Hr' & Hl' & Hh' & Hp'); [done|done|simpl; lia|eapply heap_from_le; [exact Hh|lia]|].
      rewrite (remaining_last c0 t n l Hl) in Hp'.
      destruct (IH h' (S n)) as (E & HE & HS & Hrun); [done|lia|done|rewrite Hp'; cbn [app] in Hf; lia|].
      exists ((x, v) :: E). rewrite Hp' in HE. split; [by rewrite HE|]. split; [by apply Hgoal|].
      intros acc. cbn [add_all]. destruct (add_version typlen acc x v); [apply Hrun|done].
Qed.

(** Sum of the absolute values, a bound on every partial sum. *)
Definition abs_sum (l : list version) : Z := sumZ ((fun a => Z.abs (snd a)) <$> l).

Lemma abs_sum_cons a l : abs_sum (a :: l) = Z.abs (snd a) + abs_sum l.
Proof. done. Qed.
Lemma abs_sum_app l k : abs_sum (l ++ k) = abs_sum l + abs_sum k.
Proof. unfold abs_sum. by rewrite fmap_app, sumZ_app. Qed.
Lemma abs_sum_nonneg l : 0 <= abs_sum l.
Proof. induction l as [|[x d] l IH]; [done|]. rewrite abs_sum_cons. lia. Qed.
Lemma abs_sum_perm l k : Permutation l k -> abs_sum l = abs_sum k.
Proof. intros Hp. unfold abs_sum. by rewrite Hp. Qed.

Lemma int_add_ok a b : Z.abs a + Z.abs b < 2 ^ (8 * typlen - 1) -> int_add typlen a b = Some (a + b).
Proof.
  intros H. unfold int_add. set (m := 2 ^ (8 * typlen - 1)) in *.
  destruct (Z.leb_spec (- m) (a + b)); [|lia]. destruct (Z.ltb_spec (a + b) m); [done|lia].
Qed.

(** A chain built tail first: ages strictly increase. *)
Definition asc (l : list version) : Prop := StronglySorted (fun a b => age (fst a) < age (fst b)) l.

Lemma StronglySorted_rev {A} (R : A -> A -> Prop) l :
  StronglySorted R l -> StronglySorted (fun a b => R b a) (rev l).
Proof.
  induction 1 as [|x l Hs IH Hall]; simpl; [constructor|].
  apply StronglySorted_app. split; [|split; [done|by repeat constructor]].
  intros a b Ha Hb. apply list_elem_of_singleton in Hb as ->. rewrite Forall_forall in Hall.
  apply Hall. apply list_elem_of_In. apply in_rev. by apply list_elem_of_In.
Qed.

Lemma add_version_ok acc x v :
  Forall (fun a => xid_ok (fst a)) acc -> asc acc -> xid_ok x ->
  (forall a, a ∈ acc -> age x <= age (fst a)) ->
  abs_sum acc + Z.abs v < 2 ^ (8 * typlen - 1) ->
  exists c d r, add_version typlen acc x v = Some c /\ c = (x, d) :: r /\ Forall (fun a => xid_ok (fst a)) c /\ asc c /\
    abs_sum c <= abs_sum acc + Z.abs v /\
    forall P, sum_if P c = sum_if P acc + (if P x then v else 0).
Proof.
  intros Hw Hs Hx Hle Hb. destruct acc as [|[tx td] rest]; cbn [add_version].
  { exists [(x, v)], v, []. split; [done|]. split; [done|]. split; [by apply Forall_singleton|]. split; [by repeat constructor|].
    split; [rewrite abs_sum_cons; change (abs_sum []) with 0; simpl; lia|]. intros P. simpl. lia. }
  pose proof Hw as Hw0. apply Forall_cons in Hw0 as [Ht Hw']. simpl in Ht.
  pose proof Hs as Hs0. apply StronglySorted_inv in Hs0 as [Hs' Hall].
  rewrite abs_sum_cons in Hb |- *. cbn [snd] in *. pose proof (abs_sum_nonneg rest).
  destruct (Z.eqb_spec x tx) as [->|Hne].
  - rewrite int_add_ok by lia. exists ((tx, td + v) :: rest), (td + v), rest. split; [done|]. split; [done|].
    split; [by constructor|]. split; [by constructor|]. split; [rewrite abs_sum_cons; simpl; lia|].
    intros P. simpl. case_match; lia.
  - exists ((x, v) :: (tx, td) :: rest), v, ((tx, td) :: rest). split; [done|]. split; [done|]. split; [by constructor|].
    assert (Hlt : age x < age tx).
    { pose proof (Hle (tx, td) ltac:(by left)). simpl in *.
      destruct (Z.eq_dec (age x) (age tx)) as [E|]; [|lia]. exfalso. apply Hne.
      apply age_inj; [apply Hx|apply Ht|done]. }
    split. { constructor; [done|]. constructor; [done|]. eapply Forall_impl; [exact Hall|]. simpl. lia. }
    split; [rewrite !abs_sum_cons; simpl; lia|]. intros P. simpl. lia.
Qed.

(** Where the transactions and the deltas of a chain come from. *)
Lemma add_version_origin acc x v c (Q : Z -> Prop) :
  add_version typlen acc x v = Some c ->
  (Forall (fun a => Q (fst a)) acc -> Q x -> Forall (fun a => Q (fst a)) c) /\
  (Forall (fun a => 0 <= snd a) acc -> 0 <= v -> Forall (fun a => 0 <= snd a) c).
Proof.
  intros Hadd. destruct acc as [|[tx td] rest]; cbn [add_version] in Hadd; [simplify_eq; split; by repeat constructor|].
  destruct (Z.eqb_spec x tx) as [->|]; [|simplify_eq; split; intros; by constructor].
  unfold int_add in Hadd. destruct (_ && _)%bool; simplify_eq.
  split; intros [H1 H2]%Forall_cons Hv; constructor; simpl in *; try done; lia.
Qed.

Lemma add_all_origin E acc c (Q : Z -> Prop) :
  add_all acc E = Some c ->
  (Forall (fun a => Q (fst a)) acc -> Forall (fun a => Q (fst a)) E -> Forall (fun a => Q (fst a)) c) /\
  (Forall (fun a => 0 <= snd a) acc -> Forall (fun a => 0 <= snd a) E -> Forall (fun a => 0 <= snd a) c).
Proof.
  revert acc. induction E as [|[x v] E IH]; intros acc H; cbn [add_all] in H; [by simplify_eq|].
  destruct (add_version typlen acc x v) as [c1|] eqn:E1; [|done].
  destruct (add_version_origin _ _ _ _ Q E1) as [HQ Hn], (IH c1 H) as [HQ' Hn'].
  split; intros Hacc [Hx HE]%Forall_cons; auto.
Qed.

(** Adding versions from the most recent to the oldest gives a sorted chain with the
    same deltas per transaction. *)
Lemma add_all_ok E acc :
  Forall (fun a => xid_ok (fst a)) acc -> asc acc -> Forall (fun a => xid_ok (fst a)) E ->
  StronglySorted (fun a b => age (fst b) <= age (fst a)) E ->
  (forall a e, a ∈ acc -> e ∈ E -> age (fst e) <= age (fst a)) ->
  abs_sum acc + abs_sum E < 2 ^ (8 * typlen - 1) ->
  exists c, add_all acc E = Some c /\ Forall (fun a => xid_ok (fst a)) c /\ asc c /\
    forall P, sum_if P c = sum_if P acc + sum_if P E.
Proof.
  revert acc. induction E as [|[x v] E IH]; intros acc Hw Hs HwE HsE Hle Hb; cbn [add_all].
  { exists acc. split; [done|]. split; [done|]. split; [done|]. intros P. simpl. lia. }
  apply Forall_cons in HwE as [Hx HwE]. apply StronglySorted_inv in HsE as [HsE Hall].
  rewrite abs_sum_cons in Hb. cbn [snd fst] in *. pose proof (abs_sum_nonneg E).
  destruct (add_version_ok acc x v) as (c & d & r & -> & Hc & Hwc & Hsc & Hbc & Hsum); [done|done|done| |lia|].
  { intros a Ha. apply (Hle a (x, v)); [done|by left]. }
  destruct (IH c) as (c' & Hc' & Hwc' & Hsc' & Hsum'); [done|done|done|done| |lia|].
  - intros a e Ha He. rewrite Forall_forall in Hall. specialize (Hall e He). simpl in Hall.
    rewrite Hc in Ha, Hsc. apply elem_of_cons in Ha as [->|Ha]; [done|].
    apply StronglySorted_inv in Hsc as [_ Hr]. rewrite Forall_forall in Hr. specialize (Hr a Ha). simpl in Hr. lia.
  - exists c'. split; [done|]. split; [done|]. split; [done|]. intros P. rewrite Hsum', Hsum. simpl. lia.
Qed.

(** *** The whole page *)

Definition item_ok (i : page_item) : Prop :=
  match i with
  | LeafEntry x _ => TransactionIdIsValid x = true -> TransactionIdPrecedes x Recent = false -> xid_ok x
  | Pivot _ c => chain_ok c
  end.
Definition item_value (i : page_item) : Z :=
  match i with LeafEntry x v => if TransactionIdIsValid x then v else 0 | Pivot v _ => v end.
Definition item_versions (i : page_item) : list version :=
  match i with
  | LeafEntry x v => if TransactionIdIsValid x then safe_prefix [(x, v)] else []
  | Pivot _ c => safe_prefix c
  end.

Lemma scan_items_ok items agg heap :
  Forall item_ok items ->
  Z.abs agg + sumZ (Z.abs ∘ item_value <$> items) < 2 ^ (8 * typlen - 1) ->
  exists heap', scan_items typlen Recent items agg heap = Some (agg + sumZ (item_value <$> items), heap ++ heap') /\
    Forall ready heap' /\ (heap' ≫= safe_prefix) = (items ≫= item_versions).
Proof.
  intros Hok. revert agg heap. induction Hok as [|i items Hi Hok IH]; intros agg heap Hb.
  { exists []. simpl. rewrite app_nil_r. split; [do 2 f_equal; lia|done]. }
  rewrite fmap_cons in Hb |- *. rewrite bind_cons. cbn [sumZ] in Hb |- *. cbn [compose] in Hb.
  assert (0 <= sumZ (Z.abs ∘ item_value <$> items)).
  { clear. induction items as [|i l IH]; [done|]. rewrite fmap_cons. cbn [sumZ compose]. lia. }
  assert (Hstep : forall add, Forall ready add -> (add ≫= safe_prefix) = item_versions i ->
    exists heap', scan_items typlen Recent items (agg + item_value i) (heap ++ add) =
        Some (agg + (item_value i + sumZ (item_value <$> items)), heap ++ heap') /\
      Forall ready heap' /\ (heap' ≫= safe_prefix) = item_versions i ++ (items ≫= item_versions)).
  { intros add Hadd Hv. destruct (IH (agg + item_value i) (heap ++ add)) as (h' & -> & Hr & Hs); [lia|].
    exists (add ++ h'). rewrite <- app_assoc, Z.add_assoc. split; [done|].
    split; [by apply Forall_app|]. by rewrite bind_app, Hv, Hs. }
  destruct i as [x v|v c]; cbn [scan_items item_value item_versions item_ok safe_prefix] in *.
  - destruct (TransactionIdIsValid x); cbn [negb]; cycle 1.
    { specialize (Hstep [] ltac:(constructor) eq_refl). by rewrite app_nil_r, Z.add_0_r in Hstep. }
    rewrite int_add_ok by lia. destruct (TransactionIdPrecedes x Recent) eqn:Ep.
    + specialize (Hstep [] ltac:(constructor) eq_refl). by rewrite app_nil_r in Hstep.
    + apply Hstep; [|simpl; by rewrite Ep]. apply Forall_singleton. split; [|simpl; by rewrite Ep].
      split; [apply Forall_singleton; by apply Hi|by repeat constructor].
  - destruct (node_if_safe_cases c Hi) as [[-> Hr]|[-> Hnil]]; rewrite int_add_ok by lia.
    + apply Hstep; [by apply Forall_singleton|]. simpl. by rewrite app_nil_r.
    + rewrite Hnil in *. specialize (Hstep [] ltac:(constructor) eq_refl). by rewrite app_nil_r in Hstep.
Qed.

Lemma remaining_all h : remaining h (length h) = (h ≫= safe_prefix).
Proof. unfold remaining. by rewrite firstn_all. Qed.

Lemma total_versions_enough h : (length (h ≫= safe_prefix) <= total_versions h)%nat.
Proof.
  assert (Hl : forall c, (length (safe_prefix c) <= length c)%nat).
  { induction c as [|[x v] c IH]; simpl; [done|]. case_match; simpl; lia. }
  induction h as [|c h IH]; [done|]. rewrite bind_cons, length_app. unfold total_versions in *. change (list_sum (length <$> c :: h)) with (length c + list_sum (length <$> h))%nat.
  specialize (Hl c). lia.
Qed.

Lemma safe_prefix_in c a : chain_ok c -> a ∈ safe_prefix c ->
  xid_ok (fst a) /\ TransactionIdPrecedes (fst a) Recent = false.
Proof.
  intros [Hw _]. induction Hw as [|[x v] c Hx Hw IH]; simpl; [by intros ?%elem_of_nil|].
  destruct (TransactionIdPrecedes x Recent) eqn:E; [by intros ?%elem_of_nil|].
  intros [->|Ha]%elem_of_cons; [done|by apply IH].
Qed.

Lemma page_aggregate_lemma items :
  Forall item_ok items ->
  sumZ (Z.abs ∘ item_value <$> items) < 2 ^ (8 * typlen - 1) ->
  abs_sum (items ≫= item_versions) < 2 ^ (8 * typlen - 1) ->
  exists chain,
    _abt_compute_page_aggregate_and_version_chain typlen Recent items = Some (sumZ (item_value <$> items), chain) /\
    chain_ok chain /\ (forall P, sum_if P chain = sum_if P (items ≫= item_versions)) /\
    Forall (fun a => TransactionIdPrecedes (fst a) Recent = false) chain /\
    (Forall (fun a => 0 <= snd a) (items ≫= item_versions) -> Forall (fun a => 0 <= snd a) chain).
Proof.
  intros Hok Hb Hv. unfold _abt_compute_page_aggregate_and_version_chain.
  destruct (scan_items_ok items 0 []) as (h & -> & Hr & Hs); [done|simpl; lia|]. simpl app.
  rewrite Z.add_0_l. rewrite <- Hs in *. destruct (Nat.eqb_spec (length h) 0) as [E|Hne].
  { destruct h; [|done]. exists []. split; [done|]. split; [by split; constructor|]. split; [done|]. by split; constructor. }
  destruct (make_spec chain_xmin h (ready_window h Hr)) as (h' & -> & Hl & Hp & Hh).
  assert (Hsp : Permutation (h' ≫= safe_prefix) (h ≫= safe_prefix)) by (by rewrite Hp).
  destruct (merge_emits (total_versions h') h' (length h)) as (E & HE & HSE & Hrun).
  { by rewrite Hp. } { lia. } { done. }
  { rewrite <- Hl, remaining_all. apply total_versions_enough. }
  rewrite <- Hl, remaining_all, Hsp in HE. rewrite Hrun.
  assert (Hfrom : Forall (fun a => xid_ok (fst a) /\ TransactionIdPrecedes (fst a) Recent = false) (h ≫= safe_prefix)).
  { rewrite Forall_forall. intros a (d & Ha & Hd)%list_elem_of_bind. rewrite Forall_forall in Hr.
    destruct (Hr d Hd) as [Hcd _]. by apply (safe_prefix_in d). }
  destruct (add_all_ok E ([] : list version)) as (c & Hadd & Hwc & Hsc & Hsum); [by constructor|by constructor| |done| | |].
  { rewrite HE. eapply Forall_impl; [exact Hfrom|]. by intros a [? _]. }
  { by intros a e ?%elem_of_nil. }
  { rewrite (abs_sum_perm _ _ HE). simpl. done. }
  exists (rev c). split; [by rewrite Hadd|]. split.
  - split; [by rewrite <- Permutation_rev|by apply StronglySorted_rev].
  - split; [|split; rewrite <- Permutation_rev].
    + intros P. rewrite <- (sum_if_perm P c (rev c)) by apply Permutation_rev. rewrite Hsum. simpl.
      by apply sum_if_perm.
    + apply (add_all_origin E [] c (fun x => TransactionIdPrecedes x Recent = false)); [done|constructor|].
      rewrite HE. eapply Forall_impl; [exact Hfrom|]. by intros a [_ ?].
    + intros Hn. apply (add_all_origin E [] c (fun _ => True)); [done|constructor|]. by rewrite HE.
Qed.

(** C30: the aggregate computed for a page is the sum over its tuples, and its version
    chain is strictly sorted from the most recent transaction and has, for every set of
    transactions, the sum of the deltas of the versions below the page that are not older
    than the global xmin.  The heap-based merge terminates and never reads outside the heap. *)
Theorem page_aggregate_spec items :
  Forall item_ok items ->
  sumZ (Z.abs ∘ item_value <$> items) < 2 ^ (8 * typlen - 1) ->
  abs_sum (items ≫= item_versions) < 2 ^ (8 * typlen - 1) ->
  exists chain,
    _abt_compute_page_aggregate_and_version_chain typlen Recent items = Some (sumZ (item_value <$> items), chain) /\
    chain_ok chain /\ (forall P, sum_if P chain = sum_if P (items ≫= item_versions)) /\
    Forall (fun a => TransactionIdPrecedes (fst a) Recent = false) chain /\
    (Forall (fun a => 0 <= snd a) (items ≫= item_versions) -> Forall (fun a => 0 <= snd a) chain).
Proof. apply page_aggregate_lemma. Qed.

End Merge.
(** ** Reading under a snapshot *)

Section Read.
Context (typlen : Z) (s : ABTSnapshot).
Context (Htyp : typlen = 2 \/ typlen = 4 \/ typlen = 8) (Hs : snapshot_ok s).

(** The transactions the snapshot does not see. *)
Definition hidden (x : Z) : bool := _abt_xid_in_snapshot x (Some s).

Lemma xid_ok_valid x : xid_ok x -> TransactionIdIsValid x = true.
Proof.
  intros [_ H]. unfold TransactionIdIsValid, FirstNormalTransactionId, InvalidTransactionId in *.
  by destruct (Z.eqb_spec x 0); [lia|].
Qed.

Lemma hidden_spec x : xid_ok x ->
  hidden x = true <-> age (sn_xmax s) <= age x \/ x ∈ sn_xip s.
Proof.
  intros Hx. destruct Hs as [Hmin Hmax Hxip _ _]. unfold hidden, _abt_xid_in_snapshot.
  rewrite xid_ok_valid by done. cbn [negb]. rewrite !precedes_normal by done. rewrite Forall_forall in Hxip.
  destruct (Z.ltb_spec (age x) (age (sn_xmax s))); cbn [negb]; [|by split; [left|]].
  destruct (Z.ltb_spec (age x) (age (sn_xmin s))).
  - split; [done|]. intros [?|Hin]; [lia|]. apply Hxip in Hin. lia.
  - rewrite existsb_exists. split.
    + intros (y & Hy & E). apply list_elem_of_In in Hy. rewrite compare_xid_zero in E; [|apply Hx|by apply Hxip in Hy as [[? _] _]].
      zbool. subst. by right.
    + intros [?|Hin]; [lia|]. exists x. split; [by apply list_elem_of_In|].
      rewrite compare_xid_zero by apply Hx. by apply Z.eqb_eq.
Qed.

(** Skipping drops exactly the more recent transactions. *)
Lemma skip_newer_spec x xip :
  xid_ok x -> Forall xid_ok xip -> StronglySorted (fun x y => age y <= age x) xip ->
  exists pre, xip = pre ++ skip_newer x xip /\ Forall (fun y => age x < age y) pre /\
    Forall (fun y => age y <= age x) (skip_newer x xip).
Proof.
  intros Hx Hw Hsrt. induction Hsrt as [|y xip Hsrt IH Hall]; [by exists []|].
  apply Forall_cons in Hw as [Hy Hw]. cbn [skip_newer]. rewrite precedes_age by (apply Hx || apply Hy).
  destruct (Z.ltb_spec (age x) (age y)).
  - destruct (IH Hw) as (pre & E & Hpre & Hskip). exists (y :: pre). simpl. rewrite <- E.
    split; [done|]. split; [by constructor|done].
  - exists []. split; [done|]. split; [by constructor|]. constructor; [done|].
    eapply Forall_impl; [exact Hall|]. simpl. lia.
Qed.

(** One step: the delta is subtracted exactly when the snapshot hides the transaction;
    what is dropped from the xip array is not older than it. *)
Lemma exclude_step_spec x pre xip :
  xid_ok x -> sn_xip s = pre ++ xip -> Forall (fun y => age x < age y) pre ->
  (exclude_step s x xip = None /\ age x < age (sn_xmin s)) \/
  exists drp xip', exclude_step s x xip = Some (xip', hidden x) /\ xip = drp ++ xip' /\
    Forall (fun y => age x <= age y) drp.
Proof.
  intros Hx Hxip Hpre. pose proof (hidden_spec x Hx) as Hh. destruct Hs as [[Wmin _] [Wmax _] Hall Hsrt _].
  rewrite Hxip in Hall, Hsrt, Hh. apply Forall_app in Hall as [_ Hall]. apply StronglySorted_app in Hsrt as (_ & _ & Hsrt).
  assert (Hw : Forall xid_ok xip) by (eapply Forall_impl; [exact Hall|]; by intros y [? _]).
  unfold exclude_step. rewrite !precedes_age by (done || apply Hx).
  destruct (Z.ltb_spec (age x) (age (sn_xmin s))); [by left|right].
  destruct (Z.ltb_spec (age x) (age (sn_xmax s))); cycle 1.
  { exists [], xip. split; [|done]. do 2 f_equal. symmetry. apply Hh. by left. }
  destruct (skip_newer_spec x xip Hx Hw Hsrt) as (drp & E & Hdrp & Hrest).
  assert (Hnot : (x ∈ pre ++ xip) <-> x ∈ skip_newer x xip).
  { rewrite E at 1. rewrite !elem_of_app. rewrite Forall_forall in Hpre, Hdrp. split; [|by auto].
    intros [Hin|[Hin|Hin]]; [specialize (Hpre _ Hin); lia|specialize (Hdrp _ Hin); lia|done]. }
  rewrite Hnot in Hh. remember (skip_newer x xip) as rest eqn:Er. clear Er Hnot.
  assert (Hle : Forall (fun y => age x <= age y) drp) by (eapply Forall_impl; [exact Hdrp|]; simpl; lia).
  assert (Hfalse : x ∉ rest -> hidden x = false).
  { intros Hn. destruct (hidden x); [|done]. destruct Hh as [Hh _]. destruct (Hh eq_refl); [lia|done]. }
  destruct rest as [|y xip'].
  { exists drp, []. rewrite Hfalse by apply not_elem_of_nil. done. }
  destruct (Z.eqb_spec x y) as [->|Hne].
  - exists (drp ++ [y]), xip'. split; [do 2 f_equal; symmetry; apply Hh; right; by left|].
    split; [by rewrite <- app_assoc|]. apply Forall_app. split; [done|]. by apply Forall_singleton.
  - exists drp, (y :: xip'). split; [|done]. do 2 f_equal. symmetry. apply Hfalse.
    intros [->|Hin]%elem_of_cons; [done|]. rewrite E in Hsrt, Hw.
    apply StronglySorted_app in Hsrt as (_ & _ & Hsrt). apply StronglySorted_inv in Hsrt as [_ Hxy].
    rewrite Forall_forall in Hxy. specialize (Hxy _ Hin). apply Forall_cons in Hrest as [Hy _].
    apply Forall_app in Hw as [_ Hw]. apply Forall_cons in Hw as [[Wy _] _].
    apply Hne. apply age_inj; [apply Hx|done|lia].
Qed.

Lemma rop_small d : 0 <= d < 2 ^ (8 * typlen - 1) -> rop typlen d = d.
Proof.
  intros Hd. unfold rop. destruct Htyp as [->|[->| ->]]; simpl Z.eqb; cbn [Pos.eqb].
  - apply Z.mod_small. simpl in *. lia.
  - apply u32_small. simpl in *. lia.
  - apply u64_small. simpl in *. lia.
Qed.

Lemma exclude_chain_spec chain pre xip agg :
  chain_ok chain -> Forall (fun a => 0 <= snd a < 2 ^ (8 * typlen - 1)) chain ->
  sn_xip s = pre ++ xip -> (forall a y, a ∈ chain -> y ∈ pre -> age (fst a) < age y) ->
  sum_if hidden chain <= agg < 2 ^ 64 ->
  exclude_chain typlen s xip agg chain = agg - sum_if hidden chain.
Proof.
  revert pre xip agg. induction chain as [|[x d] chain IH]; intros pre xip agg [Hw Hd] Hv Hxip Hpre Hagg;
    cbn [exclude_chain sum_if]; [lia|].
  apply Forall_cons in Hw as [Hx Hw]. apply StronglySorted_inv in Hd as [Hd Hall].
  apply Forall_cons in Hv as [Hd0 Hv]. cbn [fst snd sum_if] in *. rewrite Forall_forall in Hall.
  assert (Hnn : 0 <= sum_if hidden chain) by (apply sum_if_nonneg; eapply Forall_impl; [exact Hv|]; simpl; lia).
  destruct (exclude_step_spec x pre xip Hx Hxip) as [[-> Hlt]|(drp & xip' & -> & E & Hdrp)].
  { rewrite Forall_forall. intros y Hy. apply (Hpre (x, d)); [by left|done]. }
  - assert (Hz : forall l, Forall (fun a => xid_ok (fst a)) l -> (forall a, a ∈ l -> age (fst a) < age (sn_xmin s)) -> sum_if hidden l = 0).
    { intros l Hl Ha. induction Hl as [|[y e] l Hy Hl IHl]; [done|]. cbn [sum_if].
      rewrite IHl by (intros a Hin; apply Ha; by right). destruct (hidden y) eqn:Eh; [|done].
      apply hidden_spec in Eh; [|done]. specialize (Ha (y, e) ltac:(by left)). simpl in Ha.
      destruct Hs as [_ _ Hxs _ Ho]. rewrite Forall_forall in Hxs. destruct Eh as [?|Hin]; [lia|]. apply Hxs in Hin. lia. }
    enough (H0 : sum_if hidden ((x, d) :: chain) = 0) by (cbn [sum_if] in H0; lia). apply Hz; [by constructor|].
    intros a [->|Ha]%elem_of_cons; [done|]. specialize (Hall a Ha). simpl in *. lia.
  - assert (Hnext : forall a y, a ∈ chain -> y ∈ pre ++ drp -> age (fst a) < age y).
    { intros a y Ha [Hy|Hy]%elem_of_app; [apply Hpre; [by right|done]|].
      rewrite Forall_forall in Hdrp. specialize (Hdrp y Hy). specialize (Hall a Ha). simpl in Hall. lia. }
    rewrite E in Hxip. rewrite app_assoc in Hxip.
    destruct (hidden x); [rewrite rop_small, u64_small by lia|]; rewrite (IH (pre ++ drp)); try done; lia.
Qed.

(** Reading an aggregate under a snapshot subtracts exactly the deltas of the
    transactions the snapshot does not see, in one pass over the chain and the sorted
    array of running transactions; the subtraction never wraps. *)
Theorem exclude_agg_spec agg chain :
  chain_ok chain -> Forall (fun a => 0 <= snd a < 2 ^ (8 * typlen - 1)) chain ->
  sum_if hidden chain <= agg < 2 ^ 64 ->
  exclude_agg typlen agg (Some s) chain = agg - sum_if hidden chain.
Proof. intros. apply (exclude_chain_spec chain []); try done. by intros a y _ ?%elem_of_nil. Qed.

End Read.

(** ** A whole tree of aggregates *)

(** A tree in which every inner page has, for each child, the aggregate and the version
    chain computed from that child. *)
Inductive tree := Leaf (es : list version) | Inner (kids : list tree).

Fixpoint entries (t : tree) : list version :=
  match t with Leaf es => es | Inner kids => kids ≫= entries end.

Definition leaf_item (a : version) : page_item := LeafEntry (fst a) (snd a).
Definition pivot_item (a : Z * list version) : page_item := Pivot (fst a) (snd a).

Fixpoint summary (typlen Recent : Z) (t : tree) : option (Z * list version) :=
  match t with
  | Leaf es => _abt_compute_page_aggregate_and_version_chain typlen Recent (leaf_item <$> es)
  | Inner kids =>
      match mapM (summary typlen Recent) kids with
      | Some l => _abt_compute_page_aggregate_and_version_chain typlen Recent (pivot_item <$> l)
      | None => None
      end
  end.

Lemma tree_rect_list (P : tree -> Prop) :
  (forall es, P (Leaf es)) -> (forall kids, Forall P kids -> P (Inner kids)) -> forall t, P t.
Proof.
  intros HL HI. fix go 1. intros [es|kids]; [apply HL|]. apply HI.
  induction kids as [|t kids IH]; constructor; [apply go|apply IH].
Qed.

Section Tree.
Context (typlen Recent : Z).

Definition is_safe (x : Z) : bool := TransactionIdIsValid x && negb (TransactionIdPrecedes x Recent).

(** Entries of a normal transaction are in the window; others are frozen or invalid. *)
Definition entry_ok (a : version) : Prop := (TransactionIdIsNormal (fst a) = true -> xid_ok (fst a)) /\ 0 <= snd a.

Lemma special_precedes x y : TransactionIdIsNormal x = false -> TransactionIdIsNormal y = true -> TransactionIdPrecedes x y = true.
Proof. intros Hx Hy. unfold TransactionIdPrecedes. rewrite Hx. unfold TransactionIdIsNormal in *. zbool. simpl. zbool. lia. Qed.

(** The summary (agg, chain) of a subtree with entries [es]. *)
Record summarises (es : list version) (agg : Z) (chain : list version) : Prop := {
  su_agg : agg = sum_if TransactionIdIsValid es;
  su_chain : chain_ok chain;
  su_nonneg : Forall (fun a => 0 <= snd a) chain;
  su_safe : Forall (fun a => TransactionIdPrecedes (fst a) Recent = false) chain;
  su_sum : forall P, sum_if P chain = sum_if (fun x => is_safe x && P x) es
}.

Lemma sum_if_mono (P Q : Z -> bool) l : Forall (fun a => 0 <= snd a) l -> (forall x, P x = true -> Q x = true) ->
  sum_if P l <= sum_if Q l.
Proof.
  intros Hl HPQ. induction Hl as [|[x d] l Hd Hl IH]; simpl in *; [done|].
  specialize (HPQ x). destruct (P x), (Q x); try lia.
Qed.
Lemma abs_sum_sum_if l : Forall (fun a => 0 <= snd a) l -> abs_sum l = sum_if (fun _ => true) l.
Proof. induction 1 as [|[x d] l Hd _ IH]; [done|]. rewrite abs_sum_cons, IH. simpl in *. lia. Qed.
Lemma chain_le_total l (a : version) : Forall (fun a => 0 <= snd a) l -> a ∈ l -> snd a <= sum_if (fun _ => true) l.
Proof.
  induction 1 as [|[x d] l Hd Hl IH]; [by intros ?%elem_of_nil|]. simpl in *.
  pose proof (sum_if_nonneg (fun _ => true) l Hl). intros [->|Ha]%elem_of_cons; simpl; [lia|]. specialize (IH Ha). lia.
Qed.
Lemma safe_prefix_all c : Forall (fun a => TransactionIdPrecedes (fst a) Recent = false) c -> safe_prefix Recent c = c.
Proof. induction 1 as [|[x v] c Hx _ IH]; simpl in *; [done|]. by rewrite Hx, IH. Qed.

(** What the items of a page have to say about the entries below it. *)
Record items_for (es : list version) (items : list page_item) : Prop := {
  if_ok : Forall (item_ok Recent) items;
  if_value : sumZ (item_value <$> items) = sum_if TransactionIdIsValid es;
  if_abs : sumZ (Z.abs ∘ item_value <$> items) = sumZ (item_value <$> items);
  if_nonneg : Forall (fun a => 0 <= snd a) (items ≫= item_versions Recent);
  if_sum : forall P, sum_if P (items ≫= item_versions Recent) = sum_if (fun x => is_safe x && P x) es
}.

Lemma items_for_nil : items_for [] [].
Proof. by split; try constructor. Qed.

Lemma items_for_cons es es' i items :
  items_for es [i] -> items_for es' items -> items_for (es ++ es') (i :: items).
Proof.
  intros [H1 H2 H3 H4 H5] [K1 K2 K3 K4 K5].
  change (i :: items) with ([i] ++ items). split; rewrite ?fmap_app, ?bind_app, ?sumZ_app, ?sum_if_app.
  - by apply Forall_app.
  - by rewrite H2, K2.
  - by rewrite H3, K3.
  - by apply Forall_app.
  - intros P. by rewrite !sum_if_app, H5, K5.
Qed.

Lemma leaf_items es : TransactionIdIsNormal Recent = true -> Forall entry_ok es -> items_for es (leaf_item <$> es).
Proof.
  intros HR. induction 1 as [|[x v] es [Hx Hv] _ IH]; [apply items_for_nil|]. simpl in Hx, Hv.
  apply (items_for_cons [(x, v)]); [|done]. split; simpl; unfold is_safe.
  - apply Forall_singleton. intros _ Hp. apply Hx. destruct (TransactionIdIsNormal x) eqn:En; [done|]. by rewrite special_precedes in Hp.
  - lia.
  - case_match; lia.
  - rewrite app_nil_r. repeat case_match; by repeat constructor.
  - intros P. rewrite app_nil_r.
    destruct (TransactionIdIsValid x); [|done]. destruct (TransactionIdPrecedes x Recent); simpl; lia.
Qed.

Lemma pivot_item_for es agg chain : Forall (fun a => 0 <= snd a) es ->
  summarises es agg chain -> items_for es [pivot_item (agg, chain)].
Proof.
  intros Hes [H1 H2 H3 H4 H5]. split; simpl; rewrite ?safe_prefix_all, ?app_nil_r by done; try done.
  - by apply Forall_singleton.
  - lia.
  - pose proof (sum_if_nonneg TransactionIdIsValid es Hes). lia.
Qed.

Lemma page_summary es items :
  Forall entry_ok es -> items_for es items -> sum_if TransactionIdIsValid es < 2 ^ (8 * typlen - 1) ->
  exists agg chain, _abt_compute_page_aggregate_and_version_chain typlen Recent items = Some (agg, chain) /\
    summarises es agg chain.
Proof.
  intros Hes [H1 H2 H3 H4 H5] Hb.
  assert (Hn : Forall (fun a => 0 <= snd a) es) by (eapply Forall_impl; [exact Hes|]; by intros a [_ ?]).
  destruct (page_aggregate_lemma typlen Recent items) as (chain & -> & Hc & Hsum & Hsafe & Hnn); [done|lia| |].
  - rewrite abs_sum_sum_if, H5 by done. eapply Z.le_lt_trans; [|exact Hb].
    apply sum_if_mono; [done|]. intros x. unfold is_safe. by destruct (TransactionIdIsValid x).
  - eexists _, chain. split; [done|]. split; try done; [by apply Hnn|]. intros P. by rewrite Hsum.
Qed.

Lemma tree_summary t : TransactionIdIsNormal Recent = true ->
  Forall entry_ok (entries t) -> sum_if TransactionIdIsValid (entries t) < 2 ^ (8 * typlen - 1) ->
  exists agg chain, summary typlen Recent t = Some (agg, chain) /\ summarises (entries t) agg chain.
Proof.
  intros HR. induction t as [es|kids IH] using tree_rect_list; intros Hes Hb; cbn [entries summary] in *.
  { apply page_summary; [done|by apply leaf_items|done]. }
  enough (exists l, mapM (summary typlen Recent) kids = Some l /\ items_for (kids ≫= entries) (pivot_item <$> l))
    as (l & -> & Hl) by (by apply page_summary).
  assert (Hn : Forall (fun a => 0 <= snd a) (kids ≫= entries)) by (eapply Forall_impl; [exact Hes|]; by intros a [_ ?]).
  clear - IH Hes Hb Hn. induction IH as [|t kids Ht _ IH]; [by exists []; split; [|apply items_for_nil]|].
  rewrite bind_cons in Hes, Hb, Hn |- *. apply Forall_app in Hes as [He Hes], Hn as [Hn Hn'].
  rewrite sum_if_app in Hb. pose proof (sum_if_nonneg TransactionIdIsValid _ Hn).
  pose proof (sum_if_nonneg TransactionIdIsValid _ Hn').
  destruct (Ht He) as (agg & chain & Hr & Hsu); [lia|]. destruct IH as (l & Hl & Hi); [done|lia|done|].
  exists ((agg, chain) :: l). split; [simpl; by rewrite Hr; simpl; rewrite Hl|].
  rewrite fmap_cons. apply items_for_cons; [by apply pivot_item_for|done].
Qed.

(** Reading a summary under a snapshot. *)
Lemma summary_read (s : ABTSnapshot) es agg chain :
  typlen = 2 \/ typlen = 4 \/ typlen = 8 -> snapshot_ok s -> xid_ok Recent ->
  TransactionIdPrecedes (sn_xmin s) Recent = false ->
  Forall entry_ok es -> sum_if TransactionIdIsValid es < 2 ^ (8 * typlen - 1) -> summarises es agg chain ->
  exclude_agg typlen agg (Some s) chain = sum_if (fun x => negb (_abt_xid_in_snapshot x (Some s))) es.
Proof.
  intros Htyp Hs HR Hmin Hes Hb [Ha Hc Hnn Hsafe Hsum].
  assert (Hn : Forall (fun a => 0 <= snd a) es) by (eapply Forall_impl; [exact Hes|]; by intros a [_ ?]).
  set (hid := hidden s).
  assert (Heq : sum_if hid chain + sum_if (fun x => negb (hid x)) es = agg).
  { rewrite Hsum, Ha. clear - Hes Hs HR Hmin. induction Hes as [|[x v] l [Hx _] _ IH]; [done|]. cbn [sum_if].
    enough (TransactionIdIsValid x = (is_safe x && hid x) || negb (hid x) /\ (is_safe x && hid x) && negb (hid x) = false) as [-> ?].
    { destruct (is_safe x && hid x), (negb (hid x)); simpl in *; try done; lia. }
    unfold is_safe. destruct (TransactionIdIsValid x) eqn:Ev; simpl in *; cycle 1.
    { unfold hid, hidden, _abt_xid_in_snapshot. by rewrite Ev. }
    destruct (hid x) eqn:Eh; [|by destruct (TransactionIdPrecedes x Recent)].
    destruct (TransactionIdIsNormal x) eqn:En; cycle 1.
    { unfold hid, hidden, _abt_xid_in_snapshot in Eh. rewrite Ev, !special_precedes in Eh; try done; destruct Hs as [[_ ?] [_ ?] _ _ _]; unfold TransactionIdIsNormal; by apply Z.leb_le. }
    specialize (Hx eq_refl). apply (hidden_spec s Hs x Hx) in Eh. rewrite precedes_normal in Hmin |- * by (done || apply Hs || auto).
    destruct Hs as [_ _ Hxip _ Ho]. rewrite Forall_forall in Hxip. zbool.
    destruct (Z.ltb_spec (age x) (age Recent)); [|done]. destruct Eh as [?|Hin]; [lia|]. apply Hxip in Hin. lia. }
  pose proof (sum_if_nonneg hid chain Hnn). pose proof (sum_if_nonneg (fun x => negb (hid x)) _ Hn).
  assert (Hlt : agg < 2 ^ (8 * typlen - 1)) by lia.
  assert (2 ^ (8 * typlen - 1) <= 2 ^ 63) by (apply Z.pow_le_mono_r; lia).
  change (exclude_agg typlen agg (Some s) chain) with (exclude_chain typlen s (sn_xip s) agg chain).
  rewrite (exclude_chain_spec typlen s Htyp Hs chain []); [fold hid; change (fun x => negb (_abt_xid_in_snapshot x (Some s))) with (fun x => negb (hid x)); lia|done| |done|by intros a y _ ?%elem_of_nil|fold hid; lia].
  rewrite Forall_forall. intros a Hin. split; [rewrite Forall_forall in Hnn; by apply Hnn|].
  eapply Z.le_lt_trans; [|exact Hlt]. eapply Z.le_trans; [apply (chain_le_total chain a)|]; try done.
  rewrite Hsum, Ha. apply sum_if_mono; [done|]. intros x. unfold is_safe. by destruct (TransactionIdIsValid x).
Qed.

Lemma tree_read_sum (s : ABTSnapshot) t :
  typlen = 2 \/ typlen = 4 \/ typlen = 8 -> snapshot_ok s -> xid_ok Recent ->
  TransactionIdPrecedes (sn_xmin s) Recent = false ->
  Forall entry_ok (entries t) -> sum_if TransactionIdIsValid (entries t) < 2 ^ (8 * typlen - 1) ->
  exists agg chain, summary typlen Recent t = Some (agg, chain) /\
    exclude_agg typlen agg (Some s) chain =
      sum_if (fun x => negb (_abt_xid_in_snapshot x (Some s))) (entries t).
Proof.
  intros Htyp Hs HR Hmin Hes Hb. destruct (tree_summary t ltac:(apply Z.leb_le, HR) Hes Hb) as (agg & chain & Hr & Hsu).
  exists agg, chain. split; [done|]. by apply summary_read.
Qed.

(** C13: on a tree whose inner pages hold the aggregates and version chains of their
    children, reading the root's aggregate under a snapshot gives exactly the sum of the
    values of the entries the snapshot sees, whatever the shape of the tree, as long as
    the snapshot's xmin is not older than the global xmin versions are kept for. *)
Theorem tree_read_visible (s : ABTSnapshot) t :
  typlen = 2 \/ typlen = 4 \/ typlen = 8 -> snapshot_ok s -> xid_ok Recent ->
  TransactionIdPrecedes (sn_xmin s) Recent = false ->
  Forall entry_ok (entries t) -> sum_if TransactionIdIsValid (entries t) < 2 ^ (8 * typlen - 1) ->
  exists agg chain, summary typlen Recent t = Some (agg, chain) /\
    exclude_agg typlen agg (Some s) chain =
      sum_if (fun x => negb (_abt_xid_in_snapshot x (Some s))) (entries t).
Proof. apply tree_read_sum. Qed.

End Tree.

End Window.

Definition demo_snapshot : Snapshot := mk_snapshot true false 100 110 [103; 108; 105] [].

Lemma demo_xid_ok x : 100 <= x < 200 -> xid_ok 50 x.
Proof. intros Hx. split; [|unfold FirstNormalTransactionId; lia]. split; [lia|]. unfold age. rewrite u32_small; lia. Qed.

Lemma prepare_snapshot_ok_witness :
  exists a, _abt_prepare_snapshot_for_sampling (Some demo_snapshot) = Some a /\ sn_xip a = [108; 105; 103].
Proof.
  destruct (prepare_snapshot_ok 50 demo_snapshot eq_refl (demo_xid_ok 110 ltac:(lia)))
    as (a & Hr & _).
  - simpl. repeat constructor; try (apply demo_xid_ok; lia); vm_compute; congruence.
  - exists a. split; [exact Hr|]. vm_compute in Hr. by injection Hr as <-.
Defined.

Lemma demo_chain_ok c : Forall (fun a => 100 <= fst a < 200) c ->
  StronglySorted (fun a b => fst b < fst a) c -> chain_ok 50 c.
Proof.
  intros Hc Hd. split.
  - eapply Forall_impl; [exact Hc|]. intros a Ha. by apply demo_xid_ok.
  - unfold desc. induction Hd as [|a c Hd IH Hall]; [constructor|]. apply Forall_cons in Hc as [Ha Hc].
    constructor; [by apply IH|]. rewrite Forall_forall in Hall, Hc |- *. intros b Hb.
    specialize (Hall b Hb). specialize (Hc b Hb). unfold age. rewrite !u32_small by lia. lia.
Qed.

(** The key of a version chain determines the relation and the block. *)
Theorem ABTVS_KEY_roundtrip oid blkno : 0 <= oid < 2 ^ 32 -> 0 <= blkno < 2 ^ 32 ->
  ABTVS_KEY_GET_OID (ABTVS_KEY oid blkno) = oid /\ ABTVS_KEY_GET_BLKNO (ABTVS_KEY oid blkno) = blkno.
Proof.
  intros Ho Hb. unfold ABTVS_KEY_GET_OID, ABTVS_KEY_GET_BLKNO, ABTVS_KEY.
  assert (E : Z.lor (u64 (Z.shiftl oid 32)) blkno = oid * 2 ^ 32 + blkno).
  { rewrite Z.shiftl_mul_pow2, u64_small by lia.
    assert (Hd : Z.land (oid * 2 ^ 32) blkno = 0); [|by rewrite <- Z.lxor_lor, <- Z.add_nocarry_lxor].
    apply Z.bits_inj'. intros i Hi. rewrite Z.land_spec, Z.bits_0.
    destruct (Z.lt_ge_cases i 32); [by rewrite Z.mul_pow2_bits_low by lia|].
    rewrite (Z.testbit_eqb blkno), Z.div_small by (try split; try (eapply Z.lt_le_trans; [apply Hb|apply Z.pow_le_mono_r]); lia).
    apply andb_false_r. }
  rewrite E, Z.shiftr_div_pow2 by lia. split.
  - rewrite Z.div_add_l, Z.div_small, Z.add_0_r by lia. apply u32_small. lia.
  - unfold u32. rewrite Z.add_comm, Z.mod_add by lia. apply Z.mod_small. lia.
Qed.

Lemma ABTVS_KEY_roundtrip_witness :
  ABTVS_KEY_GET_OID (ABTVS_KEY 16384 7) = 16384 /\ ABTVS_KEY_GET_BLKNO (ABTVS_KEY 16384 7) = 7.
Proof. apply (ABTVS_KEY_roundtrip 16384 7); lia. Defined.

(** The prepared form of [demo_snapshot]. *)
Definition demo_abt_snapshot : ABTSnapshot := mk_snap 103 110 [108; 105; 103].

Lemma demo_age x : 100 <= x < 200 -> age 50 x = x - 50.
Proof. intros Hx. apply u32_small. lia. Qed.

Lemma demo_snapshot_ok : snapshot_ok 50 demo_abt_snapshot.
Proof.
  split; cbn [sn_xmin sn_xmax sn_xip demo_abt_snapshot]; [apply demo_xid_ok; lia|apply demo_xid_ok; lia| | |].
  - rewrite !Forall_cons, !demo_age by lia. repeat split; try (apply demo_xid_ok); lia || constructor.
  - repeat (apply SSorted_cons; [|rewrite ?Forall_cons, ?demo_age by lia; repeat split; lia || constructor]). constructor.
  - rewrite !demo_age by lia. lia.
Qed.

Lemma exclude_agg_spec_witness :
  exclude_agg 8 20 (Some demo_abt_snapshot) [(112, 1); (108, 4); (106, 2); (105, 3)] = 12.
Proof.
  rewrite (exclude_agg_spec 50 8 demo_abt_snapshot ltac:(lia) demo_snapshot_ok).
  - reflexivity.
  - apply demo_chain_ok; repeat constructor; simpl; lia.
  - repeat constructor; simpl; lia.
  - vm_compute. split; congruence.
Defined.

Definition demo_tree : tree :=
  Inner [Leaf [(60, 1); (104, 2); (105, 4)]; Inner [Leaf [(112, 8); (108, 16)]; Leaf [(0, 64); (105, 32)]]].

Lemma tree_read_visible_witness : exists agg chain, summary 8 102 demo_tree = Some (agg, chain) /\
  exclude_agg 8 agg (Some demo_abt_snapshot) chain = 3.
Proof.
  destruct (tree_read_visible 50 8 102 demo_abt_snapshot demo_tree) as (agg & chain & Hr & He).
  - lia.
  - exact demo_snapshot_ok.
  - apply demo_xid_ok. lia.
  - reflexivity.
  - cbn. assert (H60 : xid_ok 50 60) by (split; [split; [lia|by vm_compute]|by vm_compute]).
    repeat constructor; simpl; try lia; try done; try (intros; apply demo_xid_ok; lia); by vm_compute.
  - by vm_compute.
  - exists agg, chain. split; [exact Hr|]. rewrite He. reflexivity.
Defined.

(** A page with two entries of transaction 107, one of 105, an old one and an empty
    slot, and a pivot whose child has versions of 107 and 104. *)
Definition demo_items : list page_item :=
  [LeafEntry 107 2; LeafEntry 105 3; LeafEntry 0 9; LeafEntry 60 4; LeafEntry 107 1; Pivot 10 [(107, 5); (104, 2)]].

Lemma page_aggregate_spec_witness :
  exists chain, _abt_compute_page_aggregate_and_version_chain 8 100 demo_items = Some (20, chain) /\
    chain = [(107, 8); (105, 3); (104, 2)].
Proof.
  destruct (page_aggregate_spec 50 8 100 demo_items) as (chain & Hr & _).
  - repeat constructor; try (intros; apply demo_xid_ok; lia); try (intros; by apply demo_xid_ok); try done;
      try (apply demo_chain_ok; repeat constructor; simpl; lia).
  - by vm_compute.
  - by vm_compute.
  - exists chain. split; [exact Hr|]. vm_compute in Hr. by injection Hr as <-.
Defined.

End Versions.
