(* ===== verification/VersionStore.v ===== *)
(** * The version store (abtversionstore.c): shared version chains

    For every child page the store keeps a chain of versions, sorted from the most
    recent transaction, of the changes made to the child's aggregate.  The hash table maps
    the key of the child to an element whose value word is the head of the chain;
    the nodes come from a second slab.  Backends that hold a read lock on the page
    with the downlink add versions concurrently; a garbage collector cuts off the
    versions no snapshot needs any more.  It marks (bit 1) the head while it is at
    work and replaces the head of an empty chain by [abtvs_deleted_chain_head]
    before it removes the hash table's element.

    The hash table and the node allocator are parameters of the operations; the
    classes [ChainIndex] and [NodePool] state what is needed of them. *)

From stdpp Require Import base numbers option sorting list.
From S2P Require Import Prelude Shmem Epoch SharedSlab LockfreeHtab Versions.

Module VersionStore.
Import Epoch Slab Htab Versions.

(** ** Memory: the epoch manager's words, the hash table and the node slab *)

Inductive vloc := Epo (e : eloc) | Ht (l : hloc) | Nd (l : sloc).

#[export] Instance vloc_eq_dec : EqDecision vloc.
Proof. solve_decision. Defined.

(** Both slabs use the one epoch manager. *)
Definition lift_ht (l : hloc) : vloc := match l with Shared (Ep e) => Epo e | _ => Ht l end.
Definition lift_nd (l : sloc) : vloc := match l with Ep e => Epo e | _ => Nd l end.

(** ** Chain links with a mark in bit 1 *)

Definition ABTVS_NULL : Z := SHARED_SLAB_NULL.
Definition ABTVS_DELETED_CHAIN_MASK : Z := 2.
Definition abtvs_deleted_chain_head : Z := ABTVS_DELETED_CHAIN_MASK.
Definition abtvs_ptr_is_marked (ptr : Z) : bool := negb (Z.land ptr ABTVS_DELETED_CHAIN_MASK =? 0).
Definition abtvs_ptr_mark (ptr : Z) : Z := Z.lxor ptr ABTVS_DELETED_CHAIN_MASK.
Definition abtvs_ptr_unmark (ptr : Z) : Z := Z.lxor ptr ABTVS_DELETED_CHAIN_MASK.
Definition abtvs_ptr_get_unmarked (ptr : Z) : Z := Z.land ptr (u64 (Z.lnot ABTVS_DELETED_CHAIN_MASK)).

(** struct ABTVSNode *)
Definition node_xmin (p : Z) : vloc := Nd (Word p).
Definition node_next (p : Z) : vloc := Nd (Word (p + 8)).
Definition node_delta (p : Z) : vloc := Nd (Word (p + 16)).

(** The value word of a hash table element is the head of the chain. *)
Definition head_of (p : Z) : vloc := Ht (elem_value p).

Section Ops.
Context {HS MS : Type}.
Context (htab_find_u64 : HS -> Z -> hashaction -> prog vloc (HS * found)).
Context (alloc0 : MS -> prog vloc (MS * Z)) (free_node : MS -> Z -> prog vloc MS).

(** The backend's statics. *)
Record vstore := mk_vs { abtvs_htab : HS; abtvs_mcxt : MS; abtvs_cached_new_node : Z }.

Definition set_htab (vs : vstore) (hs : HS) : vstore := mk_vs hs (abtvs_mcxt vs) (abtvs_cached_new_node vs).
Definition set_mcxt (vs : vstore) (ms : MS) : vstore := mk_vs (abtvs_htab vs) ms (abtvs_cached_new_node vs).

Definition _abtvs_find_chain_head (vs : vstore) (key : Z) : prog vloc (vstore * Z) :=
  let* (hs, retval) := htab_find_u64 (abtvs_htab vs) key HASH_FIND in
  match retval with
  | Found p => Read (head_of p) (fun head => Ret (set_htab vs hs, abtvs_ptr_get_unmarked head))
  | _ => Ret (set_htab vs hs, ABTVS_NULL)
  end.

(** The loop is goto try_again. *)
Fixpoint _abtvs_find_chain_head_for_insertion (fuel : nat) (vs : vstore) (key : Z)
    : prog vloc (vstore * vloc * Z) :=
  match fuel with
  | O => Err OutOfFuel
  | S n =>
      let* (hs, retval) := htab_find_u64 (abtvs_htab vs) key HASH_ENTER in
      match retval with
      | Found p =>
          Read (head_of p) (fun head =>
          if head =? abtvs_deleted_chain_head
          then _abtvs_find_chain_head_for_insertion n (set_htab vs hs) key
          else Ret (set_htab vs hs, head_of p, head))
      | _ => Err BadPointer
      end
  end.

(** do { ... } while (head != ABTVS_NULL) *)
Fixpoint delete_from (fuel : nat) (vs : vstore) (head : Z) : prog vloc vstore :=
  match fuel with
  | O => Err OutOfFuel
  | S n =>
      if negb (rawptr_ok head) then Err BadPointer
      else
        Read (node_next head) (fun nx =>
        let* ms := free_node (abtvs_mcxt vs) head in
        if negb (nx =? ABTVS_NULL) then delete_from n (set_mcxt vs ms) nx else Ret (set_mcxt vs ms))
  end.

Definition _abtvs_delete_chain (fuel : nat) (vs : vstore) (head : Z) : prog vloc vstore :=
  if (head =? ABTVS_NULL) || (head =? abtvs_deleted_chain_head) then Ret vs
  else delete_from fuel vs head.

(** What the for loop of _abtvs_replace_chain_head ends with: the old head, return,
    or goto retry_find_the_head. *)
Inductive replaced := Old (head : Z) | Gone | RetryFind.

Fixpoint replace_loop (fuel : nat) (head_ptr : vloc) (head new_head : Z) : prog vloc replaced :=
  match fuel with
  | O => Err OutOfFuel
  | S n =>
      if head =? abtvs_deleted_chain_head then
        Ret (if new_head =? ABTVS_NULL then Gone else RetryFind)
      else if abtvs_ptr_is_marked head then
        Read head_ptr (fun head' => replace_loop n head_ptr head' new_head)
      else
        CAS head_ptr head new_head (fun ok seen =>
          if ok then Ret (Old head) else replace_loop n head_ptr seen new_head)
  end.

Fixpoint _abtvs_replace_chain_head (fuel : nat) (vs : vstore) (key new_head : Z) : prog vloc vstore :=
  match fuel with
  | O => Err OutOfFuel
  | S n =>
      let* (hs, retval) := htab_find_u64 (abtvs_htab vs) key
        (if new_head =? ABTVS_NULL then HASH_FIND else HASH_ENTER) in
      let vs := set_htab vs hs in
      match retval with
      | Found p =>
          Read (head_of p) (fun head =>
          let* r := replace_loop n (head_of p) head new_head in
          match r with
          | Old old => _abtvs_delete_chain n vs old
          | Gone => Ret vs
          | RetryFind => _abtvs_replace_chain_head n vs key new_head
          end)
      | _ => if new_head =? ABTVS_NULL then Ret vs else Err BadPointer
      end
  end.

(** ** Adding versions *)

(** Where the search of _abtvs_find_or_create_node stops: at the node of the
    transaction, or at the link where it is to be inserted. *)
Inductive place := AtNode (p : Z) | AtLink (cur_ptr : vloc) (cur : Z).

Fixpoint search_chain (fuel : nat) (xmin : Z) (cur_ptr : vloc) (cur : Z) : prog vloc place :=
  if cur =? ABTVS_NULL then Ret (AtLink cur_ptr cur)
  else if negb (rawptr_ok cur) then Err BadPointer
  else
    match fuel with
    | O => Err OutOfFuel
    | S n =>
        Read (node_xmin cur) (fun x =>
        if x =? xmin then Ret (AtNode cur)
        else if NormalTransactionIdPrecedes x xmin then Ret (AtLink cur_ptr cur)
        else Read (node_next cur) (fun nx => search_chain n xmin (node_next cur) nx))
    end.

(** [None] is goto restart_from_head; the flag says whether the new node is used. *)
Fixpoint insert_node (fuel : nat) (xmin new_node : Z) (head_ptr : vloc) (old_head : Z)
    (cur_ptr : vloc) (cur : Z) : prog vloc (option (Z * bool)) :=
  match fuel with
  | O => Err OutOfFuel
  | S n =>
      let* r := search_chain n xmin cur_ptr cur in
      match r with
      | AtNode p => Ret (Some (p, false))
      | AtLink cur_ptr cur =>
          Write (node_next new_node) cur (
          let keep_mark := bool_decide (cur_ptr = head_ptr) && abtvs_ptr_is_marked old_head in
          CAS cur_ptr (if keep_mark then old_head else cur)
            (if keep_mark then abtvs_ptr_mark new_node else new_node) (fun ok seen =>
            if ok then Ret (Some (new_node, true))
            else if seen =? abtvs_deleted_chain_head then Ret None
            else insert_node n xmin new_node head_ptr old_head cur_ptr seen))
      end
  end.

Fixpoint insert_from_head (fuel : nat) (vs : vstore) (key xmin : Z) : prog vloc (vstore * Z) :=
  match fuel with
  | O => Err OutOfFuel
  | S n =>
      let* (vs, head_ptr, old_head) := _abtvs_find_chain_head_for_insertion n vs key in
      let* r := insert_node n xmin (abtvs_cached_new_node vs) head_ptr old_head
                  head_ptr (abtvs_ptr_get_unmarked old_head) in
      match r with
      | None => insert_from_head n vs key xmin
      | Some (p, used) =>
          Ret (if (used : bool) then mk_vs (abtvs_htab vs) (abtvs_mcxt vs) ABTVS_NULL else vs, p)
      end
  end.

(** The node to insert is allocated unless an earlier call left one. *)
Definition ensure_new_node (vs : vstore) : prog vloc vstore :=
  if abtvs_cached_new_node vs =? ABTVS_NULL then
    let* (ms, p) := alloc0 (abtvs_mcxt vs) in
    Write (node_delta p) 0 (Ret (mk_vs (abtvs_htab vs) ms p))
  else Ret vs.

Definition _abtvs_find_or_create_node (fuel : nat) (vs : vstore) (key xmin : Z) : prog vloc (vstore * Z) :=
  let* vs := ensure_new_node vs in
  Write (node_xmin (abtvs_cached_new_node vs)) xmin (insert_from_head fuel vs key xmin).

Definition _abt_add_to_version (fuel : nat) (vs : vstore) (index_id blkno xmin dval typlen : Z)
    : prog vloc vstore :=
  let* (vs, node) := _abtvs_find_or_create_node fuel vs (ABTVS_KEY index_id blkno) xmin in
  if typlen =? 8 then FAdd 64 (node_delta node) dval (fun _ => Ret vs)
  else if typlen =? 4 then FAdd 32 (node_delta node) (i32 dval) (fun _ => Ret vs)
  else FAdd 32 (node_delta node) (i16 dval) (fun _ => Ret vs).

Definition _abt_install_version_chain (fuel : nat) (vs : vstore) (index_id blkno opaque_chain : Z)
    : prog vloc vstore :=
  _abtvs_replace_chain_head fuel vs (ABTVS_KEY index_id blkno) opaque_chain.

(** ** Reading *)

Fixpoint exclude_loop (fuel : nat) (s : ABTSnapshot) (typlen : Z) (xip : list Z) (agg cur : Z)
    : prog vloc Z :=
  if cur =? ABTVS_NULL then Ret agg
  else if negb (rawptr_ok cur) then Err BadPointer
  else
    match fuel with
    | O => Err OutOfFuel
    | S n =>
        Read (node_xmin cur) (fun x =>
        match exclude_step s x xip with
        | None => Ret agg
        | Some (xip', true) =>
            Read (node_delta cur) (fun d =>
            Read (node_next cur) (fun nx =>
              exclude_loop n s typlen xip' (u64 (agg - rop typlen d)) nx))
        | Some (xip', false) =>
            Read (node_next cur) (fun nx => exclude_loop n s typlen xip' agg nx)
        end)
    end.

Definition _abtvs_exclude_agg_in_snapshot (fuel : nat) (vs : vstore) (key agg : Z)
    (snapshot : option ABTSnapshot) (typlen : Z) : prog vloc (vstore * Z) :=
  match snapshot with
  | None => Ret (vs, agg)
  | Some s =>
      let* (vs, head) := _abtvs_find_chain_head vs key in
      let* agg := exclude_loop fuel s typlen (sn_xip s) agg head in
      Ret (vs, agg)
  end.

(** [agg] is the aggregate read from the pivot tuple, [blkno] its downlink. *)
Definition _abt_read_agg (fuel : nat) (bypass_version_store : bool) (vs : vstore)
    (index_id blkno agg : Z) (snapshot : option ABTSnapshot) (typlen : Z) : prog vloc (vstore * Z) :=
  if negb bypass_version_store
  then _abtvs_exclude_agg_in_snapshot fuel vs (ABTVS_KEY index_id blkno) agg snapshot typlen
  else Ret (vs, agg).

(** ** Garbage collection *)

(** do { if (head == ABTVS_NULL) break; } while (!compare_exchange(...)) *)
Fixpoint mark_head (fuel : nat) (head_ptr : vloc) (head : Z) : prog vloc Z :=
  if head =? ABTVS_NULL then Ret head
  else
    match fuel with
    | O => Err OutOfFuel
    | S n => CAS head_ptr head (abtvs_ptr_mark head) (fun ok seen =>
               if ok then Ret head else mark_head n head_ptr seen)
    end.

(** The first node older than oldestXmin, and the link to it. *)
Fixpoint find_old (fuel : nat) (oldestXmin : Z) (cur_ptr : vloc) (cur : Z) : prog vloc (vloc * Z) :=
  if negb (rawptr_ok cur) then Err BadPointer
  else
    match fuel with
    | O => Err OutOfFuel
    | S n =>
        Read (node_xmin cur) (fun x =>
        if negb (NormalTransactionIdPrecedes x oldestXmin) then
          Read (node_next cur) (fun nx =>
            if nx =? ABTVS_NULL then Ret (node_next cur, nx)
            else find_old n oldestXmin (node_next cur) nx)
        else Ret (cur_ptr, cur))
    end.

(** while (cur != deletable) cur = next *)
Fixpoint refind (fuel : nat) (deletable : Z) (cur_ptr : vloc) (cur : Z) : prog vloc vloc :=
  if cur =? deletable then Ret cur_ptr
  else if negb (rawptr_ok cur) then Err BadPointer
  else
    match fuel with
    | O => Err OutOfFuel
    | S n => Read (node_next cur) (fun nx => refind n deletable (node_next cur) nx)
    end.

(** Unlink [deletable]; the result is the link it was cut from. *)
Fixpoint unlink (fuel : nat) (head_ptr : vloc) (deletable : Z) (cur_ptr : vloc) : prog vloc vloc :=
  match fuel with
  | O => Err OutOfFuel
  | S n =>
      let at_head := bool_decide (head_ptr = cur_ptr) in
      CAS cur_ptr (if at_head then abtvs_ptr_mark deletable else deletable) ABTVS_NULL (fun ok seen =>
        if ok then Ret cur_ptr
        else
          let* cur_ptr := refind n deletable cur_ptr (if at_head then abtvs_ptr_unmark seen else seen) in
          unlink n head_ptr deletable cur_ptr)
  end.

Fixpoint unmark_head (fuel : nat) (head_ptr : vloc) (head : Z) : prog vloc unit :=
  match fuel with
  | O => Err OutOfFuel
  | S n => CAS head_ptr head (abtvs_ptr_unmark head) (fun ok seen =>
             if ok then Ret tt else unmark_head n head_ptr seen)
  end.

(** The body of the scan for one hash table element [p]: the chain is cut at the
    first old version; the flag says whether [p] is appended to the list of elements
    that may be deleted. *)
Definition recycle_chain (fuel : nat) (vs : vstore) (oldestXmin p head : Z) : prog vloc (vstore * bool) :=
  let head_ptr := head_of p in
  let* head := mark_head fuel head_ptr head in
  if head =? ABTVS_NULL then Ret (vs, true)
  else
    let* (cur_ptr, cur) := find_old fuel oldestXmin head_ptr head in
    let* (deletable, empty) :=
      (if negb (cur =? ABTVS_NULL) then
         let* cut := unlink fuel head_ptr cur cur_ptr in
         Ret (cur, bool_decide (cut = head_ptr))
       else Ret (ABTVS_NULL, false)) in
    Read head_ptr (fun head =>
    let* _ := (if abtvs_ptr_is_marked head then unmark_head fuel head_ptr head else Ret tt) in
    let* vs := _abtvs_delete_chain fuel vs deletable in
    Ret (vs, empty)).

(** One element of the list: while (head == ABTVS_NULL) { ... } *)
Fixpoint delete_entry (fuel : nat) (vs : vstore) (p head : Z) : prog vloc (vstore * bool) :=
  if head =? ABTVS_NULL then
    match fuel with
    | O => Err OutOfFuel
    | S n =>
        CAS (head_of p) head abtvs_deleted_chain_head (fun ok seen =>
          if ok then
            Read (Ht (elem_key p)) (fun key =>
            let* (hs, _) := htab_find_u64 (abtvs_htab vs) key HASH_REMOVE in
            Ret (set_htab vs hs, true))
          else delete_entry n vs p seen)
    end
  else Ret (vs, false).

Fixpoint _abtvs_try_delete_maybe_deletable (fuel : nat) (vs : vstore) (deleted : Z) (ps : list Z)
    : prog vloc (vstore * Z) :=
  match ps with
  | [] => Ret (vs, deleted)
  | p :: ps' =>
      Read (head_of p) (fun head =>
      let* (vs, gone) := delete_entry fuel vs p head in
      _abtvs_try_delete_maybe_deletable fuel vs (if (gone : bool) then u64 (deleted + 1) else deleted) ps')
  end.

Section Scan.
Context {IT : Type} (NumEpochEntries MyBackendId : Z).
Context (htab_iter_init : HS -> IT) (htab_iter_next : HS -> IT -> prog vloc (IT * option Z)).

Definition ABTVS_GC_MAX_MAYBE_DELETABLE : Z := 8192.

(** The scan over the hash table; [shutdown i] is what the i-th test of
    ShutdownRequestPending finds. *)
Fixpoint scan_entries (fuel : nat) (shutdown : nat -> bool) (oldestXmin : Z) (vs : vstore) (st : epoch_local)
    (it : IT) (maybe : list Z) (deleted : Z) : prog vloc (vstore * epoch_local * list Z * Z * bool) :=
  match fuel with
  | O => Err OutOfFuel
  | S n =>
      let* (it, entry) := htab_iter_next (abtvs_htab vs) it in
      match entry with
      | None => Ret (vs, st, maybe, deleted, shutdown n)
      | Some p =>
          if shutdown n then Ret (vs, st, maybe, deleted, true)
          else
            Read (head_of p) (fun head =>
            let* (st, _) := plift Epo (epoch_maybe_refresh NumEpochEntries st) in
            let* (vs, empty) := recycle_chain n vs oldestXmin p head in
            let maybe := if (empty : bool) then maybe ++ [p] else maybe in
            if Z.of_nat (length maybe) =? ABTVS_GC_MAX_MAYBE_DELETABLE then
              let* (vs, deleted) := _abtvs_try_delete_maybe_deletable n vs deleted maybe in
              scan_entries n shutdown oldestXmin vs st it [] deleted
            else scan_entries n shutdown oldestXmin vs st it maybe deleted)
      end
  end.

(** A whole scan; the list of elements that may be deleted is empty when it starts. *)
Definition _abtvs_scan_and_recycle_old_versions (fuel : nat) (shutdown : nat -> bool) (oldestXmin : Z)
    (vs : vstore) (st : epoch_local) : prog vloc (vstore * epoch_local * list Z * Z) :=
  let* (st, _) := plift Epo (epoch_acquire NumEpochEntries fuel MyBackendId st) in
  let* (vs, st, maybe, deleted, stop) :=
    scan_entries fuel shutdown oldestXmin vs st (htab_iter_init (abtvs_htab vs)) [] 0 in
  let* (vs, maybe, deleted) :=
    (if negb (stop : bool) then
       let* (vs, deleted) := _abtvs_try_delete_maybe_deletable fuel vs deleted maybe in
       Ret (vs, [], deleted)
     else Ret (vs, maybe, deleted)) in
  let* st := plift Epo (epoch_release NumEpochEntries st) in
  Ret (vs, st, maybe, deleted).

End Scan.

End Ops.
(** ** Chains in memory *)

(** A node: its address, transaction id and delta word. *)
Definition vnode : Type := Z * version.

(** The nodes linked from the link value [v], no link marked. *)
Fixpoint vchain (m : mem vloc) (v : Z) (l : list vnode) : Prop :=
  match l with
  | [] => v = ABTVS_NULL
  | (q, (x, d)) :: l' =>
      v = q /\ rawptr_ok q = true /\ m (node_xmin q) = x /\ m (node_delta q) = d /\ vchain m (m (node_next q)) l'
  end.

(** The link just behind the nodes [l]. *)
Definition vlink (lk : vloc) (l : list vnode) : vloc :=
  match last l with Some (q, _) => node_next q | None => lk end.

(** The location is a word of the 32-byte node at [q]. *)
Definition word_of (q : Z) (l : vloc) : Prop := exists i, 0 <= i < 32 /\ l = Nd (Word (q + i)).

Fixpoint all_apart (qs : list Z) : Prop :=
  match qs with [] => True | q :: qs' => Forall (apart q) qs' /\ all_apart qs' end.

Lemma vlink_cons lk a l : vlink lk (a :: l) = vlink (node_next (fst a)) l.
Proof.
  unfold vlink. destruct a as [q x], l as [|b l]; [done|]. rewrite last_cons_cons.
  destruct (last (b :: l)) as [[??]|] eqn:E; [done|]. by apply last_None in E.
Qed.

Lemma vlink_cases lk l : vlink lk l = lk \/ exists q x, (q, x) ∈ l /\ vlink lk l = node_next q.
Proof.
  unfold vlink. destruct (last l) as [[q x]|] eqn:E; [|by left]. right. exists q, x.
  split; [by apply last_Some_elem_of|done].
Qed.

Lemma vchain_frame m m' v l :
  (forall q x, (q, x) ∈ l -> forall i, 0 <= i < 32 -> m' (Nd (Word (q + i))) = m (Nd (Word (q + i)))) ->
  vchain m v l -> vchain m' v l.
Proof.
  revert v. induction l as [|[q [x d]] l IH]; intros v Hfr; [done|]. intros (-> & Hq & Hx & Hd & Hc).
  pose proof (fun i => Hfr q (x, d) ltac:(by left) i) as H.
  assert (H0 : m' (node_xmin q) = m (node_xmin q)) by (unfold node_xmin; replace q with (q + 0) by lia; apply H; lia).
  cbn [vchain]. split; [done|]. split; [done|]. split; [by rewrite H0|].
  split; [by unfold node_delta; rewrite H by lia|].
  unfold node_next at 1. rewrite H by lia. apply IH; [|done]. intros r y Hr. apply (Hfr r y). by right.
Qed.

Lemma vchain_link m lk l1 l2 : vchain m (m lk) (l1 ++ l2) -> vchain m (m (vlink lk l1)) l2.
Proof.
  revert lk. induction l1 as [|[q [x d]] l1 IH]; intros lk; [done|].
  rewrite vlink_cons. intros (_ & _ & _ & _ & Hc). by apply IH.
Qed.

Lemma node_words_ne q r i j : apart q r -> 0 <= i < 32 -> 0 <= j < 32 -> Nd (Word (q + i)) <> Nd (Word (r + j)).
Proof. unfold apart. intros Ha Hi Hj [=]. lia. Qed.

(** Redirecting the link behind [l1] to another chain. *)
Lemma vchain_set m lk l1 l2 l2' w :
  vchain m (m lk) (l1 ++ l2) -> all_apart (fst <$> l1) ->
  (forall q x, (q, x) ∈ l1 -> ~ word_of q lk) ->
  vchain (upd m (vlink lk l1) w) w l2' ->
  vchain (upd m (vlink lk l1) w) (upd m (vlink lk l1) w lk) (l1 ++ l2').
Proof.
  revert lk. induction l1 as [|[q [x d]] l1 IH]; intros lk Hc Hap Hlk Hc'.
  { change (vlink lk []) with lk in *. by rewrite upd_eq. }
  rewrite vlink_cons in *. cbn [fst] in *. destruct Hc as (Hv & Hq & Hx & Hd & Hc). cbn [fmap list_fmap fst] in Hap.
  destruct Hap as [Hap1 Hap]. rewrite Forall_forall in Hap1.
  assert (Hwd : forall i, 0 <= i < 32 -> i <> 8 -> vlink (node_next q) l1 <> Nd (Word (q + i))).
  { intros i Hi H8. destruct (vlink_cases (node_next q) l1) as [->|(r & y & Hr & ->)]; [intros [=]; lia|].
    intros E. symmetry in E. revert E. apply node_words_ne; [|done|lia]. apply Hap1.
    apply list_elem_of_fmap. by exists (r, y). }
  assert (Hlk' : vlink (node_next q) l1 <> lk).
  { intros E. destruct (vlink_cases (node_next q) l1) as [E'|(r & y & Hr & E')].
    - apply (Hlk q (x, d)); [by left|]. exists 8. split; [lia|]. by rewrite <- E, E'.
    - apply (Hlk r y); [by right|]. exists 8. split; [lia|]. by rewrite <- E, E'. }
  rewrite upd_ne by done. cbn [app vchain].
  split; [done|]. split; [done|].
  split. { unfold node_xmin. rewrite upd_ne; [done|]. replace q with (q + 0) at 2 by lia. apply Hwd; lia. }
  split. { unfold node_delta. rewrite upd_ne; [done|]. apply Hwd; lia. }
  apply IH; [done|done| |done].
  intros r y Hr (i & Hi & E). revert E. unfold node_next. apply node_words_ne; [|lia|done].
  apply Hap1, list_elem_of_fmap. by exists (r, y).
Qed.

(** *** Splitting a chain at a transaction *)

Fixpoint newer (x : Z) (l : list vnode) : list vnode :=
  match l with
  | (q, (y, d)) :: l' =>
      if (y =? x) || NormalTransactionIdPrecedes y x then [] else (q, (y, d)) :: newer x l'
  | [] => []
  end.
Fixpoint not_newer (x : Z) (l : list vnode) : list vnode :=
  match l with
  | (q, (y, d)) :: l' =>
      if (y =? x) || NormalTransactionIdPrecedes y x then l else not_newer x l'
  | [] => []
  end.

Lemma newer_split x l : l = newer x l ++ not_newer x l.
Proof. induction l as [|[q [y d]] l IH]; simpl; [done|]. case_match; simpl; [done|]. by f_equal. Qed.

Definition found_place (x : Z) (lk : vloc) (l : list vnode) : place :=
  match not_newer x l with
  | (q, (y, _)) :: _ => if y =? x then AtNode q else AtLink (vlink lk (newer x l)) q
  | [] => AtLink (vlink lk (newer x l)) ABTVS_NULL
  end.

Lemma search_chain_run fuel x lk v l m :
  vchain m v l -> (length l <= fuel)%nat ->
  run (search_chain fuel x lk v) m = (Done (found_place x lk l), m).
Proof.
  revert fuel lk v. induction l as [|[q [y d]] l IH]; intros fuel lk v Hc Hf.
  { cbn in Hc. subst v. by destruct fuel. }
  destruct Hc as (-> & Hq & Hx & Hd & Hc). pose proof Hq as Hq'. apply rawptr_ok_spec in Hq' as [Hq0 _].
  destruct fuel as [|n]; [simpl in Hf; lia|]. cbn [search_chain].
  destruct (Z.eqb_spec q ABTVS_NULL); [done|]. rewrite Hq. cbn [negb run]. rewrite Hx.
  unfold found_place. cbn [newer not_newer]. destruct (Z.eqb_spec y x) as [->|Hne]; cbn [orb].
  { by rewrite Z.eqb_refl. }
  destruct (NormalTransactionIdPrecedes y x); cbn [run].
  { by destruct (Z.eqb_spec y x). }
  rewrite (IH n _ _ Hc) by (simpl in Hf; lia). unfold found_place. by rewrite vlink_cons.
Qed.

(** ** Interfaces *)

(** The hash table as a map from keys to elements, whose value words belong to the
    caller. *)
Class ChainIndex {HS} (htab_find_u64 : HS -> Z -> hashaction -> prog vloc (HS * found))
    (cinv : HS -> mem vloc -> (Z -> option Z) -> Prop) (croom : HS -> mem vloc -> Prop)
    (key_ok : Z -> Prop) : Prop := {
  ci_find : forall hs m F key, cinv hs m F -> key_ok key ->
    exists m', run (htab_find_u64 hs key HASH_FIND) m =
      (Done (hs, match F key with Some p => Found p | None => NotFound end), m') /\ forall l, m' l = m l;
  ci_enter : forall hs m F key, cinv hs m F -> croom hs m -> key_ok key ->
    exists hs' p m' F', run (htab_find_u64 hs key HASH_ENTER) m = (Done (hs', Found p), m') /\
      cinv hs' m' F' /\ F' key = Some p /\ (forall k, k <> key -> F' k = F k) /\
      (forall k q, F k = Some q -> m' (head_of q) = m (head_of q)) /\
      match F key with Some q => p = q | None => m' (head_of p) = ABTVS_NULL end /\
      (forall l, m' (Nd l) = m (Nd l));
  ci_inj : forall hs m F k k' p, cinv hs m F -> F k = Some p -> F k' = Some p -> k = k';
  (** Only the nodes and the value words of mapped elements may be changed. *)
  ci_frame : forall hs m m' F, cinv hs m F ->
    (forall l, (forall k q, F k = Some q -> l <> head_of q) -> (forall l', l <> Nd l') -> (forall e, l <> Epo e) -> m' l = m l) ->
    cinv hs m' F /\ (croom hs m -> croom hs m')
}.

(** The node slab: nodes come zeroed from beyond a frontier; a node is freed by
    recording it, as long as there is space for [k] records. *)
Class NodePool {MS} (alloc0 : MS -> prog vloc (MS * Z)) (free_node : MS -> Z -> prog vloc MS)
    (pinv room : MS -> mem vloc -> Prop) (bound : mem vloc -> Z)
    (records : MS -> nat -> Prop) (freed : MS -> list Z) : Prop := {
  np_alloc : forall ms m, pinv ms m -> room ms m ->
    exists ms' p m', run (alloc0 ms) m = (Done (ms', p), m') /\ pinv ms' m' /\
      rawptr_ok p = true /\ 0 <= p < 2 ^ 64 /\ bound m <= p /\ p + 32 <= bound m' /\ m' (node_delta p) = 0 /\
      (forall a, a < bound m -> m' (Nd (Word a)) = m (Nd (Word a))) /\
      (forall l, (forall l', l <> Nd l') -> (forall e, l <> Epo e) -> m' l = m l);
  np_free : forall ms m p k, records ms (S k) ->
    exists ms' m', run (free_node ms p) m = (Done ms', m') /\ (forall l, m' l = m l) /\
      records ms' k /\ freed ms' = freed ms ++ [p] /\ (pinv ms m -> pinv ms' m);
  np_records_le : forall ms j k, records ms j -> (k <= j)%nat -> records ms k;
  np_frame : forall ms m m', pinv ms m ->
    (forall l, (forall a, l <> Nd (Word a)) -> (forall l', l <> Ht l') -> (forall e, l <> Epo e) -> m' l = m l) ->
    pinv ms m' /\ bound m' = bound m /\ (room ms m -> room ms m')
}.

Section Store.
Context {HS MS : Type}.
Context (htab_find_u64 : HS -> Z -> hashaction -> prog vloc (HS * found)).
Context (alloc0 : MS -> prog vloc (MS * Z)) (free_node : MS -> Z -> prog vloc MS).
Context (cinv : HS -> mem vloc -> (Z -> option Z) -> Prop) (croom : HS -> mem vloc -> Prop) (key_ok : Z -> Prop).
Context (pinv room : MS -> mem vloc -> Prop) (bound : mem vloc -> Z).
Context (records : MS -> nat -> Prop) (freed : MS -> list Z).
Context `{HC : !ChainIndex htab_find_u64 cinv croom key_ok}.
Context `{HP : !NodePool alloc0 free_node pinv room bound records freed}.
Context (base : Z).

(** A node that is in no chain. *)
Definition loose (m : mem vloc) (C : Z -> list vnode) (c : Z) : Prop :=
  rawptr_ok c = true /\ 0 <= c < 2 ^ 64 /\ c + 32 <= bound m /\
  forall k q x, (q, x) ∈ C k -> apart c q.

(** The store between two calls: [F] maps keys to elements, [C] keys to chains. *)
Record store_inv (vs : vstore (HS := HS) (MS := MS)) (m : mem vloc) (F : Z -> option Z) (C : Z -> list vnode) : Prop := {
  si_index : cinv (abtvs_htab vs) m F;
  si_pool : pinv (abtvs_mcxt vs) m;
  si_chain : forall k p, F k = Some p -> vchain m (m (head_of p)) (C k);
  si_none : forall k, F k = None -> C k = [];
  si_ok : forall k, chain_ok base (snd <$> C k);
  si_bound : forall k q x, (q, x) ∈ C k -> 0 <= q < 2 ^ 64 /\ q + 32 <= bound m;
  si_apart : forall k, all_apart (fst <$> C k);
  si_cross : forall k k' q x q' x', k <> k' -> (q, x) ∈ C k -> (q', x') ∈ C k' -> apart q q';
  si_cached : abtvs_cached_new_node vs = ABTVS_NULL \/
    (loose m C (abtvs_cached_new_node vs) /\ m (node_delta (abtvs_cached_new_node vs)) = 0)
}.

(** The versions of a key, as other components see them. *)
Definition versions (C : Z -> list vnode) (k : Z) : list version := snd <$> C k.

(** Chain heads are unmarked. *)
Lemma head_unmarked m v l : vchain m v l -> (forall q x, (q, x) ∈ l -> 0 <= q < 2 ^ 64) ->
  abtvs_ptr_is_marked v = false /\ abtvs_ptr_get_unmarked v = v /\ v <> abtvs_deleted_chain_head /\
  v = match l with (q, _) :: _ => q | [] => ABTVS_NULL end.
Proof.
  intros Hc Hr. destruct l as [|[q [x d]] l]; [cbn in Hc; by subst v|].
  destruct Hc as (-> & Hq & _). apply rawptr_ok_spec in Hq as [Hq0 Hal]. specialize (Hr q (x, d) ltac:(by left)).
  assert (Hm4 : q mod 4 = 0) by divlia.
  split; [|split; [|split; [|done]]].
  - unfold abtvs_ptr_is_marked, ABTVS_DELETED_CHAIN_MASK. change 2 with (2 ^ 1).
    apply negb_false_iff, Z.eqb_eq, land_bit_eq0; [lia|]. rewrite Z.testbit_eqb by lia. change (2 ^ 1) with 2.
    apply Z.eqb_neq. divlia.
  - unfold abtvs_ptr_get_unmarked, ABTVS_DELETED_CHAIN_MASK.
    replace (u64 (Z.lnot 2)) with (Z.lor (Z.land (Z.ones 64) (Z.lnot (2 ^ 2 - 1))) 1) by reflexivity.
    rewrite Z.land_lor_distr_r, Z.land_assoc, Z.land_ones, Z.mod_small, land_lnot_mask by lia.
    change (2 ^ 2) with 4. change 1 with (2 ^ 1 - 1). rewrite land_mask by lia. change (2 ^ 1) with 2.
    replace (q mod 2) with 0 by divlia. rewrite Z.lor_0_r. lia.
  - unfold abtvs_deleted_chain_head, ABTVS_DELETED_CHAIN_MASK. intros ->. done.
Qed.

(** *** Reading *)

Lemma find_chain_head_run vs m F C key : store_inv vs m F C -> key_ok key ->
  exists v m', run (_abtvs_find_chain_head htab_find_u64 vs key) m = (Done (vs, v), m') /\
    (forall l, m' l = m l) /\ vchain m' v (C key).
Proof.
  intros Hi Hk. unfold _abtvs_find_chain_head. rewrite run_bind.
  destruct (ci_find (abtvs_htab vs) m F key (si_index _ _ _ _ Hi) Hk) as (m' & -> & Hm').
  assert (Hvs : set_htab vs (abtvs_htab vs) = vs) by (by destruct vs). rewrite Hvs.
  destruct (F key) as [p|] eqn:Ef; cbn [run].
  - pose proof (si_chain _ _ _ _ Hi key p Ef) as Hc.
    destruct (head_unmarked m _ _ Hc) as (_ & Hu & _). { intros q x Hin. by apply (si_bound _ _ _ _ Hi key q x). }
    rewrite Hm', Hu. eexists _, m'. split; [done|]. split; [done|].
    eapply vchain_frame; [|exact Hc]. intros. apply Hm'.
  - eexists _, m'. split; [done|]. split; [done|]. by rewrite (si_none _ _ _ _ Hi key Ef).
Qed.

Lemma exclude_loop_run fuel s typlen xip agg v l m :
  vchain m v l -> (length l <= fuel)%nat ->
  run (exclude_loop fuel s typlen xip agg v) m = (Done (exclude_chain typlen s xip agg (snd <$> l)), m).
Proof.
  revert fuel xip agg v. induction l as [|[q [x d]] l IH]; intros fuel xip agg v Hc Hf.
  { cbn in Hc. subst v. by destruct fuel. }
  destruct Hc as (-> & Hq & Hx & Hd & Hc). pose proof Hq as Hq'. apply rawptr_ok_spec in Hq' as [Hq0 _].
  destruct fuel as [|n]; [simpl in Hf; lia|]. cbn [exclude_loop].
  destruct (Z.eqb_spec q ABTVS_NULL); [done|]. rewrite Hq. cbn [negb run]. rewrite Hx.
  rewrite fmap_cons. cbn [exclude_chain snd]. simpl in Hf.
  destruct (exclude_step s x xip) as [[xip' []]|]; cbn [run]; [| |done].
  - rewrite Hd. apply IH; [done|lia].
  - apply IH; [done|lia].
Qed.

Lemma read_agg_run fuel vs m F C index_id blkno agg snapshot typlen :
  let key := ABTVS_KEY index_id blkno in
  store_inv vs m F C -> key_ok key -> (length (C key) <= fuel)%nat ->
  exists m', run (_abt_read_agg htab_find_u64 fuel false vs index_id blkno agg snapshot typlen) m =
    (Done (vs, exclude_agg typlen agg snapshot (versions C key)), m') /\ forall l, m' l = m l.
Proof.
  intros key Hi Hk Hf. unfold _abt_read_agg, _abtvs_exclude_agg_in_snapshot. cbn [negb].
  destruct snapshot as [s|]; [|by exists m]. rewrite run_bind.
  destruct (find_chain_head_run vs m F C key Hi Hk) as (v & m' & Hr & Hm' & Hc). fold key. rewrite Hr.
  rewrite run_bind, (exclude_loop_run fuel s typlen (sn_xip s) agg v (C key) m' Hc Hf). by exists m'.
Qed.

(** *** Adding a version *)

Lemma all_apart_app l1 l2 : all_apart (l1 ++ l2) -> all_apart l1 /\ all_apart l2 /\
  forall q r, q ∈ l1 -> r ∈ l2 -> apart q r.
Proof.
  induction l1 as [|q l1 IH]; simpl; [split; [done|split; [done|by intros ?? ?%elem_of_nil]]|].
  intros [Hq Ha]. destruct (IH Ha) as (H1 & H2 & H3). apply Forall_app in Hq as [Hq1 Hq2].
  split; [done|]. split; [done|]. intros r r' [->|Hr]%elem_of_cons Hr'; [|by apply H3].
  rewrite Forall_forall in Hq2. by apply Hq2.
Qed.

Lemma in_nodes (l : list vnode) q : q ∈ (fst <$> l) <-> exists x, (q, x) ∈ l.
Proof.
  rewrite list_elem_of_fmap. split; [intros ([r x] & -> & H); by exists x|].
  intros [x H]. by exists (q, x).
Qed.

Lemma word_of_ne q r a : apart q r -> word_of q a -> word_of r a -> False.
Proof. intros Hap (i & Hi & ->) (j & Hj & E). by apply (node_words_ne q r i j). Qed.

(** Linking a loose node between [l1] and [l2]. *)
Lemma vchain_insert m lk l1 l2 c x d :
  let link := vlink lk l1 in
  let m1 := upd m (node_next c) (m link) in
  vchain m (m lk) (l1 ++ l2) -> all_apart (fst <$> l1 ++ l2) -> (forall q, ~ word_of q lk) ->
  rawptr_ok c = true -> (forall q y, (q, y) ∈ l1 ++ l2 -> apart c q) ->
  m (node_xmin c) = x -> m (node_delta c) = d ->
  m1 link = m link /\ vchain (upd m1 link c) (upd m1 link c lk) (l1 ++ (c, (x, d)) :: l2) /\
  (forall a, a <> lk -> ~ word_of c a -> (forall r y, (r, y) ∈ l1 -> ~ word_of r a) -> upd m1 link c a = m a).
Proof.
  intros link m1 Hc Hap Hlk Hcok Hca Hx Hd.
  assert (Hnext : forall q, word_of q (node_next q)) by (intros q; exists 8; split; [lia|done]).
  assert (Hlc : forall a, word_of c a -> link <> a).
  { intros a Ha E. subst a. unfold link in Ha. destruct (vlink_cases lk l1) as [E|(q & y & Hq & E)]; rewrite E in Ha.
    - by apply (Hlk c).
    - eapply (word_of_ne c q); [|exact Ha|apply Hnext]. apply (Hca q y). apply elem_of_app. by left. }
  assert (Hfr : forall l : list vnode, (forall q y, (q, y) ∈ l -> apart c q) -> forall q y, (q, y) ∈ l ->
    forall i, 0 <= i < 32 -> m1 (Nd (Word (q + i))) = m (Nd (Word (q + i)))).
  { intros l Hl q y Hq i Hi. apply upd_ne. apply node_words_ne; [by apply (Hl q y)|lia|done]. }
  assert (Hm1lk : m1 lk = m lk) by (apply upd_ne; intros E; apply (Hlk c); rewrite <- E; apply Hnext).
  assert (Hm1l : m1 link = m link) by (apply upd_ne; intros E; symmetry in E; revert E; apply Hlc, Hnext).
  rewrite fmap_app in Hap. destruct (all_apart_app _ _ Hap) as (Hap1 & Hap2 & Hap12).
  split; [done|]. split.
  - apply (vchain_set m1 lk l1 l2); [|done|by intros q y _|].
    { rewrite Hm1lk. eapply vchain_frame; [|exact Hc]. by apply Hfr. }
    cbn [vchain]. split; [done|]. split; [done|].
    assert (Hup : forall i, 0 <= i < 32 -> i <> 8 -> upd m1 link c (Nd (Word (c + i))) = m (Nd (Word (c + i)))).
    { intros i Hi H8. rewrite upd_ne by (apply Hlc; by exists i). apply upd_ne. intros [=]. lia. }
    split; [pose proof (Hup 0 ltac:(lia) ltac:(lia)) as H0; rewrite Z.add_0_r in H0; by rewrite <- Hx|].
    split; [rewrite <- Hd; apply Hup; lia|].
    assert (Hn : upd m1 link c (node_next c) = m link) by (rewrite upd_ne by apply Hlc, Hnext; apply upd_eq).
    fold link. rewrite Hn. eapply (vchain_frame m1); [|eapply (vchain_frame m); [|by apply vchain_link]].
    + intros q y Hq i Hi. apply upd_ne. unfold link. destruct (vlink_cases lk l1) as [->|(r & z & Hr & ->)].
      * intros ->. apply (Hlk q). by exists i.
      * apply node_words_ne; [|lia|done]. apply Hap12; apply in_nodes; eauto.
    + apply Hfr. intros q y Hq. apply (Hca q y). apply elem_of_app. by right.
  - intros a Halk Hac Ha. rewrite upd_ne; [apply upd_ne; intros <-; by apply Hac|].
    unfold link. destruct (vlink_cases lk l1) as [->|(r & z & Hr & ->)]; [done|].
    intros <-. by apply (Ha r z).
Qed.

(** Inserting a loose node where the search stops. *)
Lemma insert_node_run fuel x c lk l m :
  vchain m (m lk) l -> (forall q y, (q, y) ∈ l -> 0 <= q < 2 ^ 64) -> all_apart (fst <$> l) ->
  rawptr_ok c = true -> (forall q y, (q, y) ∈ l -> apart c q) -> (forall q, ~ word_of q lk) ->
  m (node_xmin c) = x -> m (node_delta c) = 0 -> (length l < fuel)%nat ->
  exists q used m', run (insert_node fuel x c lk (m lk) lk (m lk)) m = (Done (Some (q, used)), m') /\
    (if used then q = c /\ vchain m' (m' lk) (newer x l ++ (c, (x, 0)) :: not_newer x l) /\
                  head (not_newer x l) ≫= (fun a => Some (fst (snd a))) <> Some x
     else m' = m /\ exists d l2, not_newer x l = (q, (x, d)) :: l2) /\
    (forall a, a <> lk -> ~ word_of c a -> (forall r y, (r, y) ∈ l -> ~ word_of r a) -> m' a = m a).
Proof.
  intros Hc Hr Hap Hcok Hca Hlk Hcx Hcd Hf. destruct fuel as [|n]; [lia|]. cbn [insert_node].
  destruct (head_unmarked m _ _ Hc Hr) as (Hmk & _).
  rewrite run_bind, (search_chain_run n x lk (m lk) l m Hc) by lia. unfold found_place.
  pose proof (newer_split x l) as Hsp. set (l1 := newer x l) in *. set (l2 := not_newer x l) in *.
  rewrite Hsp in Hc, Hap, Hca. pose proof (vchain_link m lk l1 l2 Hc) as Hl2.
  destruct (vchain_insert m lk l1 l2 c x 0 Hc Hap Hlk Hcok Hca Hcx Hcd) as (Hlink & Hch & Hfr).
  assert (Hins : head l2 ≫= (fun a => Some (fst (snd a))) <> Some x -> forall v, v = m (vlink lk l1) ->
    exists q used m', run (Write (node_next c) v (
          let keep_mark := bool_decide (vlink lk l1 = lk) && abtvs_ptr_is_marked (m lk) in
          CAS (vlink lk l1) (if keep_mark then m lk else v) (if keep_mark then abtvs_ptr_mark c else c) (fun ok seen =>
            if ok then Ret (Some (c, true))
            else if seen =? abtvs_deleted_chain_head then Ret None
            else insert_node n x c lk (m lk) (vlink lk l1) seen))) m = (Done (Some (q, used)), m') /\
    (if used then q = c /\ vchain m' (m' lk) (l1 ++ (c, (x, 0)) :: l2) /\
       head l2 ≫= (fun a => Some (fst (snd a))) <> Some x
     else m' = m /\ exists d l2', l2 = (q, (x, d)) :: l2') /\
    (forall a, a <> lk -> ~ word_of c a -> (forall r y, (r, y) ∈ l -> ~ word_of r a) -> m' a = m a)).
  { intros Hne v ->. cbn [run]. rewrite Hmk, andb_false_r. cbn zeta. cbn [run]. rewrite Hlink, Z.eqb_refl. cbn [run].
    exists c, true. eexists. split; [done|]. split; [done|]. intros a H1 H2 H3. apply Hfr; [done|done|].
    intros r y Hin. apply (H3 r y). rewrite Hsp. apply elem_of_app. by left. }
  destruct l2 as [|[q [y d]] l2'] eqn:E2.
  - apply Hins; [done|]. cbn in Hl2. done.
  - destruct Hl2 as (Hq & _). destruct (Z.eqb_spec y x) as [->|Hne].
    + cbn [run]. exists q, false, m. split; [done|]. split; [split; [done|by exists d, l2']|done].
    + apply Hins; [by intros [=]|done].
Qed.

(** The new chain is sorted. *)
Lemma insert_chain_ok x c d (l : list vnode) :
  chain_ok base (snd <$> l) -> xid_ok base x -> head (not_newer x l) ≫= (fun a => Some (fst (snd a))) <> Some x ->
  chain_ok base (snd <$> newer x l ++ (c, (x, d)) :: not_newer x l).
Proof.
  intros [Hw Hd] Hx Hne.
  assert (Hgt : Forall (fun a : vnode => age base x < age base (fst (snd a))) (newer x l)).
  { clear Hd Hne. induction l as [|[q [y e]] l IH]; [constructor|]. apply Forall_cons in Hw as [Hy Hw]. cbn [newer snd fst] in *.
    rewrite (precedes_age base) by (apply Hy || apply Hx).
    destruct (Z.eqb_spec y x) as [->|Hyx]; [constructor|]. cbn [orb].
    destruct (Z.ltb_spec (age base y) (age base x)); [constructor|]. constructor; [|by apply IH]. simpl.
    destruct (Z.eq_dec (age base x) (age base y)) as [E|]; [|lia].
    exfalso. apply Hyx. symmetry. apply (age_inj base); [apply Hx|apply Hy|done]. }
  assert (Hlt : Forall (fun a : vnode => age base (fst (snd a)) < age base x) (not_newer x l)).
  { clear Hgt. induction l as [|[q [y e]] l IH]; [constructor|]. rewrite fmap_cons in Hw, Hd.
    apply Forall_cons in Hw as [Hy Hw]. apply StronglySorted_inv in Hd as [Hd Hall]. cbn [not_newer snd fst] in *.
    rewrite (precedes_age base) in * by (apply Hy || apply Hx).
    destruct (Z.eqb_spec y x) as [->|Hyx]; [done|]. cbn [orb] in *.
    destruct (Z.ltb_spec (age base y) (age base x)); [|by apply IH]. constructor; [done|].
    apply Forall_fmap in Hall. eapply Forall_impl; [exact Hall|]. simpl. lia. }
  rewrite (newer_split x l), fmap_app in Hw, Hd. apply Forall_app in Hw as [Hw1 Hw2].
  apply StronglySorted_app in Hd as (H12 & Hd1 & Hd2). rewrite fmap_app, fmap_cons. split.
  - apply Forall_app. split; [done|]. by constructor.
  - apply StronglySorted_app. split; [|split; [done|]].
    + intros a b Ha [->|Hb]%elem_of_cons; [|by apply H12].
      apply list_elem_of_fmap in Ha as (n & -> & Hn). rewrite Forall_forall in Hgt. by apply Hgt.
    + constructor; [done|]. by apply Forall_fmap.
Qed.

(** Changing words outside the chains. *)
Lemma store_frame vs m m' F C :
  store_inv vs m F C -> (forall l, (forall a, l <> Nd (Word a)) -> m' l = m l) ->
  (forall k q x i, (q, x) ∈ C k -> 0 <= i < 32 -> m' (Nd (Word (q + i))) = m (Nd (Word (q + i)))) ->
  (abtvs_cached_new_node vs = ABTVS_NULL \/ m' (node_delta (abtvs_cached_new_node vs)) = 0) ->
  store_inv vs m' F C /\ (croom (abtvs_htab vs) m -> croom (abtvs_htab vs) m') /\ bound m' = bound m.
Proof.
  intros [H1 H2 H3 H4 H5 H6 H7 H8 H9] Hfr Hn Hc.
  destruct (np_frame (abtvs_mcxt vs) m m' H2) as (Hp & Hb & _); [by intros; apply Hfr|].
  destruct (ci_frame (abtvs_htab vs) m m' F H1) as [Hi Hroom]. { intros l _ Hl _. apply Hfr. intros a ->. by apply (Hl (Word a)). }
  split; [|done]. split; try done.
  - intros k p Hp'. rewrite Hfr by done. eapply vchain_frame; [|by apply H3]. intros q x Hin i Hi'. by apply (Hn k q x).
  - intros k q x Hin. rewrite Hb. by apply (H6 k q x).
  - destruct H9 as [?|[Hl _]]; [by left|]. destruct Hc as [?|Hc]; [by left|]. right. split; [|done].
    unfold loose. by rewrite Hb.
Qed.

(** Entering the key in the hash table. *)
Lemma enter_store vs m F C key : store_inv vs m F C -> croom (abtvs_htab vs) m -> key_ok key ->
  exists hs p m' F', run (htab_find_u64 (abtvs_htab vs) key HASH_ENTER) m = (Done (hs, Found p), m') /\
    store_inv (set_htab vs hs) m' F' C /\ F' key = Some p /\ (forall l, m' (Nd l) = m (Nd l)) /\ bound m' = bound m.
Proof.
  intros [H1 H2 H3 H4 H5 H6 H7 H8 H9] Hroom Hk.
  destruct (ci_enter (abtvs_htab vs) m F key H1 Hroom Hk) as (hs & p & m' & F' & Hr & Hi & Hp & Ho & Hh & Hnew & Hnd).
  destruct (np_frame (abtvs_mcxt vs) m m' H2) as (Hpi & Hb & _).
  { intros [e|l|l] Ha Hl He; [by destruct (He e)|by destruct (Hl l)|apply Hnd]. }
  exists hs, p, m', F'. split; [done|]. split; [|done]. split; try done; cbn [set_htab abtvs_htab abtvs_mcxt abtvs_cached_new_node].
  - intros k q Hq. assert (Hc : vchain m (m' (head_of q)) (C k)).
    { destruct (Z.eq_dec k key) as [->|Hne]; [|rewrite Ho in Hq by done; rewrite (Hh k q Hq); by apply H3].
      rewrite Hp in Hq. injection Hq as <-. destruct (F key) as [r|] eqn:Ef; [subst r; rewrite (Hh key p Ef); by apply H3|].
      rewrite Hnew, H4 by done. done. }
    eapply vchain_frame; [|exact Hc]. intros. apply Hnd.
  - intros k Hn. destruct (Z.eq_dec k key) as [->|Hne]; [congruence|]. rewrite Ho in Hn by done. by apply H4.
  - intros k q x Hin. rewrite Hb. by apply (H6 k q x).
  - destruct H9 as [?|[Hl Hd]]; [by left|]. right. split; [unfold loose in *; by rewrite Hb|].
    unfold node_delta. by rewrite Hnd.
Qed.

Definition upd_chain (C : Z -> list vnode) (key : Z) (l : list vnode) : Z -> list vnode :=
  fun k => if k =? key then l else C k.

Lemma head_not_word p q : ~ word_of q (head_of p).
Proof. by intros (i & _ & [=]). Qed.

Lemma all_apart_insert l1 l2 c : all_apart (l1 ++ l2) -> (forall q, q ∈ l1 ++ l2 -> apart c q) ->
  all_apart (l1 ++ c :: l2).
Proof.
  intros Ha Hc. induction l1 as [|q l1 IH]; simpl in *.
  - split; [|done]. rewrite Forall_forall. auto.
  - destruct Ha as [Hq Ha]. split; [|apply IH; [done|]; intros r Hr; apply Hc; by right].
    apply Forall_app in Hq as [Hq1 Hq2]. apply Forall_app. split; [done|]. constructor; [|done].
    specialize (Hc q ltac:(by left)). unfold apart in *. lia.
Qed.

(** The node of the transaction, after the search: it was there, or it is the loose
    node, linked in with a zero delta. *)
Definition has_node (x q d : Z) (l l' : list vnode) : Prop :=
  exists l2, l' = newer x l ++ (q, (x, d)) :: l2 /\
    ((not_newer x l = (q, (x, d)) :: l2) \/
     (d = 0 /\ l2 = not_newer x l /\ head (not_newer x l) ≫= (fun a => Some (fst (snd a))) <> Some x)).

(** Replacing one chain by another one, made of its own nodes or of loose ones, keeps
    the store's invariant. *)
Lemma set_chain_store vs ms m m' F C key p l' :
  store_inv vs m F C -> F key = Some p -> (pinv (abtvs_mcxt vs) m' -> pinv ms m') ->
  vchain m' (m' (head_of p)) l' -> chain_ok base (snd <$> l') -> all_apart (fst <$> l') ->
  (forall q x, (q, x) ∈ l' -> (exists y, (q, y) ∈ C key) \/
     (0 <= q < 2 ^ 64 /\ q + 32 <= bound m /\
      (abtvs_cached_new_node vs = ABTVS_NULL \/ apart (abtvs_cached_new_node vs) q) /\
      forall k r y, (r, y) ∈ C k -> apart q r)) ->
  (forall a, a <> head_of p -> (forall r y, (r, y) ∈ l' -> ~ word_of r a) -> m' a = m a) ->
  store_inv (set_mcxt vs ms) m' F (upd_chain C key l').
Proof.
  intros [H1 H2 H3 H4 H5 H6 H7 H8 H9] Hp Hpi Hch Hok Hap Hnew Hfr.
  assert (Hother : forall l, l <> head_of p -> (forall a, l <> Nd (Word a)) -> m' l = m l).
  { intros l Hl Ha. apply Hfr; [done|]. intros r y _ (i & _ & ->). by eapply Ha. }
  assert (Hcross : forall q x k r y, (q, x) ∈ l' -> k <> key -> (r, y) ∈ C k -> apart q r).
  { intros q x k r y Hq Hk Hr. destruct (Hnew q x Hq) as [[z Hz]|(_ & _ & _ & Ha)]; [|by eapply Ha].
    eapply (H8 key k); [by intros ->|exact Hz|exact Hr]. }
  destruct (np_frame (abtvs_mcxt vs) m m' H2) as (Hpm & Hb & _). { intros l Ha Hl _. apply Hother; [|done]. by apply Hl. }
  destruct (ci_frame (abtvs_htab vs) m m' F H1) as [Hi _].
  { intros l Hl Ha _. apply Hother; [by apply (Hl key)|]. intros a ->. by apply (Ha (Word a)). }
  split; cbn [set_mcxt abtvs_htab abtvs_mcxt abtvs_cached_new_node]; try done; [by apply Hpi| | | | | | |].
  - intros k q Hq. unfold upd_chain. destruct (Z.eqb_spec k key) as [->|Hkk]; [rewrite Hp in Hq; by injection Hq as <-|].
    assert (Hpq : head_of q <> head_of p).
    { intros [=]. assert (q = p) as -> by lia. apply Hkk. by eapply ci_inj. }
    rewrite Hother by done. eapply vchain_frame; [|by apply H3]. intros r y Hr i Hi'. apply Hfr; [done|].
    intros r' y' Hr' Hw. eapply (word_of_ne r' r); [by eapply Hcross|exact Hw|by exists i].
  - intros k Hn. unfold upd_chain. destruct (Z.eqb_spec k key) as [->|]; [congruence|by apply H4].
  - intros k. unfold upd_chain. by destruct (Z.eqb_spec k key) as [->|].
  - intros k q x. rewrite Hb. unfold upd_chain. destruct (Z.eqb_spec k key) as [->|]; [|apply H6].
    intros Hq. destruct (Hnew q x Hq) as [[z Hz]|(? & ? & _)]; [by eapply H6|done].
  - intros k. unfold upd_chain. by destruct (Z.eqb_spec k key) as [->|].
  - intros k k' r y r' y' Hkk. unfold upd_chain.
    destruct (Z.eqb_spec k key) as [->|], (Z.eqb_spec k' key) as [->|]; intros Hr Hr'; [done| | |by eapply (H8 k k')].
    + eapply Hcross; [exact Hr| |exact Hr']. by intros ->.
    + pose proof (Hcross r' y' k r y Hr' ltac:(done) Hr) as Ha. unfold apart in *. lia.
  - destruct H9 as [?|[(Hc1 & Hc2 & Hc3 & Hc4) Hd]]; [by left|]. apply rawptr_ok_spec in Hc1 as Hc1'. destruct Hc1' as [Hc0 _].
    assert (Hcl : forall q x, (q, x) ∈ l' -> apart (abtvs_cached_new_node vs) q).
    { intros q x Hq. destruct (Hnew q x Hq) as [[z Hz]|(_ & _ & [?|?] & _)]; [by eapply Hc4|done|done]. }
    right. unfold loose. rewrite Hb. split.
    + split; [done|]. split; [done|]. split; [done|]. intros k r y. unfold upd_chain.
      destruct (Z.eqb_spec k key) as [->|]; [apply Hcl|apply Hc4].
    + rewrite Hfr; [done|done|]. intros r y Hr Hw. eapply (word_of_ne _ r); [by eapply Hcl| |exact Hw].
      exists 16. split; [lia|done].
Qed.

(** Linking the loose node keeps the store's invariant. *)
Lemma link_store vs m m' F C key p c x :
  store_inv vs m F C -> F key = Some p -> loose m C c -> abtvs_cached_new_node vs = c -> xid_ok base x ->
  head (not_newer x (C key)) ≫= (fun a => Some (fst (snd a))) <> Some x ->
  vchain m' (m' (head_of p)) (newer x (C key) ++ (c, (x, 0)) :: not_newer x (C key)) ->
  (forall a, a <> head_of p -> ~ word_of c a -> (forall r y, (r, y) ∈ C key -> ~ word_of r a) -> m' a = m a) ->
  store_inv (mk_vs (abtvs_htab vs) (abtvs_mcxt vs) ABTVS_NULL) m' F
    (upd_chain C key (newer x (C key) ++ (c, (x, 0)) :: not_newer x (C key))).
Proof.
  intros Hi Hp (Hc1 & Hc2 & Hc3 & Hc4) Hca Hx Hne Hch Hfr.
  set (l' := newer x (C key) ++ (c, (x, 0)) :: not_newer x (C key)).
  assert (Hin : forall q y, (q, y) ∈ l' <-> (q, y) = (c, (x, 0)) \/ (q, y) ∈ C key).
  { intros q y. unfold l'. rewrite elem_of_app, elem_of_cons. rewrite (newer_split x (C key)) at 3. rewrite elem_of_app. tauto. }
  assert (Hi0 : store_inv (mk_vs (abtvs_htab vs) (abtvs_mcxt vs) ABTVS_NULL) m F C) by (destruct Hi; by split; [..|left]).
  apply (set_chain_store _ (abtvs_mcxt vs) m m' F C key p l' Hi0); try done.
  - apply insert_chain_ok; [apply (si_ok _ _ _ _ Hi)|done|done].
  - unfold l'. rewrite fmap_app, fmap_cons. apply all_apart_insert; rewrite <- fmap_app, <- newer_split; [apply (si_apart _ _ _ _ Hi)|].
    intros q Hq. apply in_nodes in Hq as [y Hy]. by eapply Hc4.
  - intros q y. rewrite Hin. intros [[= -> ->]|Hq]; [right|left; by exists y].
    split; [done|]. split; [done|]. split; [by left|]. exact Hc4.
  - intros a Ha Hw. apply Hfr; [done| |].
    + apply (Hw c (x, 0)). apply Hin. by left.
    + intros r y Hr. apply (Hw r y). apply Hin. by right.
Qed.

Lemma insert_from_head_run fuel vs m F C key x :
  store_inv vs m F C -> abtvs_cached_new_node vs <> ABTVS_NULL -> m (node_xmin (abtvs_cached_new_node vs)) = x ->
  croom (abtvs_htab vs) m -> key_ok key -> xid_ok base x -> (length (C key) + 2 < fuel)%nat ->
  exists vs' q d m' F' C', run (insert_from_head htab_find_u64 fuel vs key x) m = (Done (vs', q), m') /\
    store_inv vs' m' F' C' /\ has_node x q d (C key) (C' key) /\ (forall k, k <> key -> C' k = C k) /\
    exists p, F' key = Some p.
Proof.
  intros Hi Hc0 Hcx Hroom Hk Hx Hf. destruct fuel as [|[|n]]; [lia|lia|]. cbn [insert_from_head].
  rewrite run_bind. cbn [_abtvs_find_chain_head_for_insertion]. rewrite run_bind.
  destruct (enter_store vs m F C key Hi Hroom Hk) as (hs & p & m1 & F' & -> & Hi1 & Hp & Hnd & Hb). cbn [run].
  pose proof Hi1 as [I1 I2 I3 I4 I5 I6 I7 I8 I9]. cbn [set_htab abtvs_htab abtvs_mcxt abtvs_cached_new_node] in *.
  destruct I9 as [?|[Hl Hd]]; [done|]. set (c := abtvs_cached_new_node vs) in *.
  pose proof (I3 key p Hp) as Hch.
  destruct (head_unmarked m1 _ _ Hch) as (Hmk & Hu & Hdel & _). { intros q y Hin. by apply (I6 key q y). }
  destruct (Z.eqb_spec (m1 (head_of p)) abtvs_deleted_chain_head); [done|]. cbn [run]. rewrite run_bind, Hu.
  change (abtvs_cached_new_node (set_htab vs hs)) with c.
  destruct (insert_node_run (S n) x c (head_of p) (C key) m1) as (q & used & m2 & -> & Hcase & Hfr); try done.
  { intros r y Hin. by apply (I6 key r y). } { apply Hl. } { intros r y Hin. by eapply Hl. }
  { intros r. apply head_not_word. } { unfold node_xmin. by rewrite Hnd. } { lia. }
  destruct used; cbn [run].
  - destruct Hcase as (-> & Hch' & Hne).
    pose proof (link_store _ m1 m2 F' C key p c x Hi1 Hp Hl eq_refl Hx Hne Hch' Hfr) as Hi2.
    do 2 eexists. exists 0. do 3 eexists. split; [done|]. split; [exact Hi2|]. unfold upd_chain at 1. rewrite Z.eqb_refl.
    split; [|split; [|by exists p]].
    + exists (not_newer x (C key)). split; [done|]. by right.
    + intros k Hkk. unfold upd_chain. by destruct (Z.eqb_spec k key).
  - destruct Hcase as (-> & d & l2 & Hl2). do 2 eexists. exists d. do 3 eexists. split; [done|]. split; [exact Hi1|].
    split; [|split; [done|by exists p]]. exists l2. split; [|by left]. rewrite <- Hl2. apply newer_split.
Qed.

Lemma ensure_new_node_run vs m F C : store_inv vs m F C -> room (abtvs_mcxt vs) m ->
  exists vs1 m1, run (ensure_new_node alloc0 vs) m = (Done vs1, m1) /\ store_inv vs1 m1 F C /\
    abtvs_cached_new_node vs1 <> ABTVS_NULL /\ abtvs_htab vs1 = abtvs_htab vs /\
    (croom (abtvs_htab vs) m -> croom (abtvs_htab vs) m1).
Proof.
  intros Hi Hroom. unfold ensure_new_node. destruct (Z.eqb_spec (abtvs_cached_new_node vs) ABTVS_NULL) as [E|E]; [|by exists vs, m].
  pose proof Hi as [H1 H2 H3 H4 H5 H6 H7 H8 _]. rewrite run_bind.
  destruct (np_alloc (abtvs_mcxt vs) m H2 Hroom) as (ms & p & m1 & -> & Hpi & Hp & Hpr & Hlo & Hhi & Hd & Hw & Hfr). cbn [run].
  set (m2 := upd m1 (node_delta p) 0). assert (Hp0 : p <> ABTVS_NULL) by (by apply rawptr_ok_spec in Hp as [? _]).
  assert (Hm2 : forall l, (forall a, l <> Nd (Word a)) -> m2 l = m1 l) by (intros l Hl; apply upd_ne; intros <-; by eapply Hl).
  assert (Hnd : forall k q x i, (q, x) ∈ C k -> 0 <= i < 32 -> m2 (Nd (Word (q + i))) = m (Nd (Word (q + i)))).
  { intros k q x i Hq Hi'. destruct (H6 _ _ _ Hq). unfold m2, node_delta. rewrite upd_ne by (intros [=]; lia). apply Hw. lia. }
  destruct (np_frame ms m1 m2 Hpi) as (Hpi2 & Hb2 & _); [by intros; apply Hm2|].
  assert (Hht : forall l, (forall l', l <> Nd l') -> (forall e, l <> Epo e) -> m2 l = m l).
  { intros l Hl He. rewrite Hm2 by (intros a ->; by eapply Hl). by apply Hfr. }
  destruct (ci_frame (abtvs_htab vs) m m2 F H1) as [Hi2 Hr2]; [by intros l _; apply Hht|].
  exists (mk_vs (abtvs_htab vs) ms p), m2. split; [done|]. split; [|done].
  split; cbn [abtvs_htab abtvs_mcxt abtvs_cached_new_node]; try done.
  - intros k q Hq. rewrite Hht by done. eapply vchain_frame; [|by apply H3]. intros r x Hr i. by apply (Hnd k r x).
  - intros k q x Hq. rewrite Hb2. destruct (H6 _ _ _ Hq). lia.
  - right. split; [|apply upd_eq]. split; [done|]. split; [done|]. rewrite Hb2. split; [done|].
    intros k q x Hq. destruct (H6 _ _ _ Hq). right. lia.
Qed.

Lemma find_or_create_run fuel vs m F C key x :
  store_inv vs m F C -> room (abtvs_mcxt vs) m -> croom (abtvs_htab vs) m -> key_ok key -> xid_ok base x ->
  (length (C key) + 2 < fuel)%nat ->
  exists vs' q d m' F' C', run (_abtvs_find_or_create_node htab_find_u64 alloc0 fuel vs key x) m = (Done (vs', q), m') /\
    store_inv vs' m' F' C' /\ has_node x q d (C key) (C' key) /\ (forall k, k <> key -> C' k = C k) /\
    exists p, F' key = Some p.
Proof.
  intros Hi Hroom Hcr Hk Hx Hf. unfold _abtvs_find_or_create_node. rewrite run_bind.
  destruct (ensure_new_node_run vs m F C Hi Hroom) as (vs1 & m1 & -> & Hi1 & Hc0 & Hht & Hcr1). cbn [run].
  set (c := abtvs_cached_new_node vs1) in *. set (m2 := upd m1 (node_xmin c) x).
  pose proof Hi1 as [_ _ _ _ _ _ _ _ [?|[(_ & _ & _ & Hap) Hd]]]; [done|]. fold c in Hap, Hd.
  assert (Hcx : m2 (node_xmin c) = x) by apply upd_eq.
  destruct (store_frame vs1 m1 m2 F C Hi1) as (Hi2 & Hcr2 & _).
  - intros l Hl. apply upd_ne. intros <-. by eapply Hl.
  - intros k q y i Hq Hi'. unfold m2, node_xmin. replace c with (c + 0) by lia. apply upd_ne.
    apply node_words_ne; [by eapply Hap|lia|done].
  - right. fold c. unfold m2. rewrite upd_ne; [done|]. unfold node_delta, node_xmin. intros [=]. lia.
  - apply (insert_from_head_run fuel vs1 m2 F C key x); try done. rewrite Hht in *. auto.
Qed.

(** *** Adding to a version *)

(** What adding [v] to the version of transaction [x] does to a list of versions. *)
Fixpoint add_delta (w x v : Z) (l : list version) : list version :=
  match l with
  | [] => [(x, fadd w 0 v)]
  | (y, d) :: l' =>
      if y =? x then (y, fadd w d v) :: l'
      else if NormalTransactionIdPrecedes y x then (x, fadd w 0 v) :: l
      else (y, d) :: add_delta w x v l'
  end.

Lemma has_node_delta w x v q d l l' : has_node x q d l l' ->
  exists l1 l2, l' = l1 ++ (q, (x, d)) :: l2 /\ (snd <$> l1 ++ (q, (x, fadd w d v)) :: l2) = add_delta w x v (snd <$> l).
Proof.
  intros (l2 & -> & Hcase). exists (newer x l), l2. split; [done|]. revert Hcase.
  induction l as [|[r [y e]] l IH]; cbn [newer not_newer].
  - intros [?|(-> & -> & _)]; [done|]. done.
  - rewrite fmap_cons. cbn [snd add_delta].
    destruct (Z.eqb_spec y x) as [->|Hne]; cbn [orb].
    + intros [[= -> -> ->]|(_ & _ & Hn)]; [done|]. by destruct Hn.
    + destruct (NormalTransactionIdPrecedes y x).
      * intros [[= -> -> -> ->]|(-> & -> & _)]; [done|]. done.
      * intros Hc. cbn [app]. rewrite fmap_cons. cbn [snd]. by rewrite (IH Hc).
Qed.

Lemma vchain_delta m v q x d e l1 l2 :
  vchain m v (l1 ++ (q, (x, d)) :: l2) -> all_apart (fst <$> l1 ++ (q, (x, d)) :: l2) ->
  vchain (upd m (node_delta q) e) v (l1 ++ (q, (x, e)) :: l2).
Proof.
  assert (Hfr : forall r i, apart q r -> 0 <= i < 32 -> upd m (node_delta q) e (Nd (Word (r + i))) = m (Nd (Word (r + i)))).
  { intros r i Hr Hi. apply upd_ne. apply node_words_ne; [done|lia|done]. }
  assert (Hsym : forall r, apart r q -> apart q r) by (unfold apart; intros; lia).
  revert v. induction l1 as [|[r [y f]] l1 IH]; intros v; cbn [app vchain fmap list_fmap fst].
  - intros (-> & Hq & Hx & Hd & Hc) [Ha _]. split; [done|]. split; [done|].
    split; [unfold node_delta, node_xmin in *; rewrite upd_ne by (intros [=]; lia); done|].
    split; [apply upd_eq|]. unfold node_delta, node_next in *. rewrite (upd_ne m _ (Nd (Word (q + 8)))) by (intros [=]; lia).
    eapply vchain_frame; [|exact Hc]. intros r y Hr i Hi. apply Hfr; [|done].
    rewrite Forall_forall in Ha. apply Ha, in_nodes. eauto.
  - intros (-> & Hr & Hy & Hf & Hc) [Ha Hap]. rewrite Forall_forall in Ha.
    assert (Hqr : apart q r). { apply Hsym, Ha, in_nodes. exists (x, d). apply elem_of_app. right. by left. }
    pose proof (Hfr r 0 Hqr ltac:(lia)) as H0. rewrite Z.add_0_r in H0.
    split; [done|]. split; [done|]. split; [unfold node_xmin in *; by rewrite H0|].
    split; [unfold node_delta in Hf |- * ; rewrite <- Hf; by apply Hfr|].
    unfold node_next. rewrite Hfr by (done || lia). by apply IH.
Qed.

(** Changing the delta word of a node. *)
Lemma set_delta_store vs m F C key p q x d e l1 l2 :
  store_inv vs m F C -> F key = Some p -> C key = l1 ++ (q, (x, d)) :: l2 ->
  store_inv vs (upd m (node_delta q) e) F (upd_chain C key (l1 ++ (q, (x, e)) :: l2)).
Proof.
  intros Hi Hp Hkey. set (l' := l1 ++ (q, (x, e)) :: l2).
  assert (Hfst : fst <$> l' = fst <$> C key) by (rewrite Hkey; unfold l'; by rewrite !fmap_app, !fmap_cons).
  assert (Hvs : vs = set_mcxt vs (abtvs_mcxt vs)) by (by destruct vs). rewrite Hvs.
  apply (set_chain_store vs (abtvs_mcxt vs) m _ F C key p l'); try done.
  - rewrite upd_ne by done. unfold l'. apply (vchain_delta m _ q x d); rewrite <- Hkey; [by apply (si_chain _ _ _ _ Hi)|apply (si_apart _ _ _ _ Hi)].
  - pose proof (si_ok _ _ _ _ Hi key) as H5. rewrite Hkey in H5. revert H5. unfold l', chain_ok, desc. rewrite !fmap_app, !fmap_cons.
    intros [Hw Hd]. split.
    + apply Forall_app in Hw as [Hw1 Hw2]. apply Forall_cons in Hw2 as [Hx Hw2]. apply Forall_app. split; [done|]. by constructor.
    + apply StronglySorted_app in Hd as (Hd12 & Hd1 & Hd2). apply StronglySorted_inv in Hd2 as [Hd2 Hx].
      apply StronglySorted_app. split; [|split; [done|by constructor]].
      intros a b Ha [->|Hb']%elem_of_cons; [apply (Hd12 a (x, d)); [done|by left]|apply Hd12; [done|by right]].
  - pose proof (si_apart _ _ _ _ Hi key) as Ha. by rewrite <- Hfst in Ha.
  - intros r y Hr. left. apply in_nodes. rewrite <- Hfst. apply in_nodes. by exists y.
  - intros a _ Hw. apply upd_ne. intros <-. apply (Hw q (x, e)); [apply elem_of_app; right; by left|].
    exists 16. split; [lia|done].
Qed.

Definition agg_width (typlen : Z) : Z := if typlen =? 8 then 64 else 32.
Definition agg_arg (typlen dval : Z) : Z := if typlen =? 8 then dval else if typlen =? 4 then i32 dval else i16 dval.

Lemma add_to_version_run fuel vs m F C index_id blkno x dval typlen :
  let key := ABTVS_KEY index_id blkno in
  store_inv vs m F C -> room (abtvs_mcxt vs) m -> croom (abtvs_htab vs) m -> key_ok key -> xid_ok base x ->
  (length (C key) + 2 < fuel)%nat ->
  exists vs' m' F' C',
    run (_abt_add_to_version htab_find_u64 alloc0 fuel vs index_id blkno x dval typlen) m = (Done vs', m') /\
    store_inv vs' m' F' C' /\
    versions C' key = add_delta (agg_width typlen) x (agg_arg typlen dval) (versions C key) /\
    forall k, k <> key -> versions C' k = versions C k.
Proof.
  intros key Hi Hroom Hcr Hk Hx Hf. unfold _abt_add_to_version. rewrite run_bind. fold key.
  destruct (find_or_create_run fuel vs m F C key x Hi Hroom Hcr Hk Hx Hf)
    as (vs' & q & d & m1 & F' & C1 & -> & Hi1 & Hn & Ho & p & Hp).
  destruct (has_node_delta (agg_width typlen) x (agg_arg typlen dval) q d _ _ Hn) as (l1 & l2 & Hkey & Hadd).
  pose proof (set_delta_store vs' m1 F' C1 key p q x d (fadd (agg_width typlen) d (agg_arg typlen dval)) l1 l2 Hi1 Hp Hkey) as Hi2.
  assert (Hd : m1 (node_delta q) = d).
  { pose proof (si_chain _ _ _ _ Hi1 key p Hp) as Hc. rewrite Hkey in Hc. apply vchain_link in Hc.
    by destruct Hc as (_ & _ & _ & ? & _). }
  do 4 eexists. split; [|split; [exact Hi2|split]].
  - rewrite <- Hd. unfold agg_width, agg_arg. destruct (typlen =? 8); [done|]. by destruct (typlen =? 4).
  - unfold versions, upd_chain. by rewrite Z.eqb_refl.
  - intros k Hkk. unfold versions, upd_chain. destruct (Z.eqb_spec k key); [done|]. by rewrite Ho.
Qed.

(** *** Freeing a chain *)

Lemma delete_from_run fuel (vs : vstore (HS := HS) (MS := MS)) v l m : vchain m v l -> l <> [] -> records (abtvs_mcxt vs) (length l) ->
  (length l <= fuel)%nat ->
  exists ms m', run (delete_from free_node fuel vs v) m = (Done (set_mcxt vs ms), m') /\ (forall a, m' a = m a) /\
    freed ms = freed (abtvs_mcxt vs) ++ (fst <$> l) /\ (pinv (abtvs_mcxt vs) m -> pinv ms m).
Proof.
  revert fuel vs v m. induction l as [|[q [x d]] l IH]; intros fuel vs v m Hc Hne Hrec Hf; [done|].
  destruct Hc as (-> & Hq & _ & _ & Hc). destruct fuel as [|n]; [simpl in Hf; lia|]. cbn [delete_from].
  rewrite Hq. cbn [negb run]. rewrite run_bind.
  destruct (np_free (abtvs_mcxt vs) m q (length l) Hrec) as (ms & m1 & -> & Hm1 & Hr1 & Hfr & Hp1).
  destruct l as [|[r [y e]] l].
  - cbn in Hc. rewrite Hc. cbn [Z.eqb ABTVS_NULL SHARED_SLAB_NULL negb run]. by exists ms, m1.
  - pose proof Hc as (Hv & Hr & _). apply rawptr_ok_spec in Hr as [Hr0 _]. rewrite Hv in Hc |- *.
    destruct (Z.eqb_spec r ABTVS_NULL); [done|]. cbn [negb].
    destruct (IH n (set_mcxt vs ms) r m1) as (ms' & m' & Hrun & Hm' & Hfr' & Hp').
    { eapply vchain_frame; [|exact Hc]. intros. apply Hm1. } { done. } { done. } { simpl in *. lia. }
    rewrite Hrun. exists ms', m'. split; [done|]. split; [intros a; by rewrite Hm', Hm1|].
    split; [rewrite Hfr'; cbn [set_mcxt abtvs_mcxt]; rewrite Hfr, <- app_assoc; done|].
    intros Hpi. destruct (np_frame (abtvs_mcxt (set_mcxt vs ms)) m m1 (Hp1 Hpi)) as [Hpi1 _]; [by intros; apply Hm1|].
    specialize (Hp' Hpi1). destruct (np_frame ms' m1 m Hp') as [? _]; [by intros; symmetry; apply Hm1|done].
Qed.

(** A link and its mark. *)
Lemma mark_involutive p : abtvs_ptr_unmark (abtvs_ptr_mark p) = p.
Proof. apply lxor_bit_involutive. Qed.

Lemma mark_marked p : rawptr_ok p = true -> abtvs_ptr_is_marked (abtvs_ptr_mark p) = true.
Proof.
  intros [_ Hal]%rawptr_ok_spec. unfold abtvs_ptr_is_marked, abtvs_ptr_mark, ABTVS_DELETED_CHAIN_MASK.
  apply negb_true_iff, Z.eqb_neq. change 2 with (2 ^ 1). rewrite land_bit_eq0 by lia.
  rewrite Z.lxor_spec, Z.pow2_bits_true by lia. rewrite Z.testbit_eqb by lia. change (2 ^ 1) with 2.
  destruct (Z.eqb_spec ((p / 2) mod 2) 1); [exfalso; divlia|done].
Qed.

(** *** Cutting off old versions *)

Fixpoint keep_recent (oldest : Z) (l : list vnode) : list vnode :=
  match l with
  | (q, (x, d)) :: l' => if NormalTransactionIdPrecedes x oldest then [] else (q, (x, d)) :: keep_recent oldest l'
  | [] => []
  end.
Fixpoint old_versions (oldest : Z) (l : list vnode) : list vnode :=
  match l with
  | (q, (x, d)) :: l' => if NormalTransactionIdPrecedes x oldest then l else old_versions oldest l'
  | [] => []
  end.

Lemma keep_split o l : l = keep_recent o l ++ old_versions o l.
Proof. induction l as [|[q [x d]] l IH]; simpl; [done|]. case_match; simpl; [done|]. by f_equal. Qed.

Definition first_node (l : list vnode) : Z := match l with (q, _) :: _ => q | [] => ABTVS_NULL end.

Lemma find_old_run fuel o lk v l m : vchain m v l -> l <> [] -> (length l <= fuel)%nat ->
  run (find_old fuel o lk v) m = (Done (vlink lk (keep_recent o l), first_node (old_versions o l)), m).
Proof.
  revert fuel lk v. induction l as [|[q [x d]] l IH]; intros fuel lk v Hc Hne Hf; [done|].
  destruct Hc as (-> & Hq & Hx & Hd & Hc). destruct fuel as [|n]; [simpl in Hf; lia|]. cbn [find_old].
  rewrite Hq. cbn [negb run]. rewrite Hx. cbn [keep_recent old_versions].
  destruct (NormalTransactionIdPrecedes x o); [done|]. cbn [negb run]. rewrite vlink_cons. cbn [fst].
  destruct l as [|[r [y e]] l].
  - cbn in Hc. by rewrite Hc.
  - pose proof Hc as (Hv & Hr & _). apply rawptr_ok_spec in Hr as [Hr0 _]. rewrite Hv in Hc |- *.
    destruct (Z.eqb_spec r ABTVS_NULL); [done|]. apply IH; [done|done|simpl in *; lia].
Qed.

Lemma vchain_first m v l : vchain m v l -> l <> [] -> rawptr_ok v = true /\ v = first_node l.
Proof. destruct l as [|[q [x d]] l]; [done|]. by intros (-> & Hq & _) _. Qed.

(** Cutting the chain [l1 ++ l2] behind [l1]. *)
Lemma cut_chain m m' lk l1 l2 : vchain m (m lk) (l1 ++ l2) -> all_apart (fst <$> l1) -> (forall q, ~ word_of q lk) ->
  (forall a, m' a = upd m (vlink lk l1) ABTVS_NULL a) ->
  vchain m' (m' lk) l1 /\
  (forall a, a <> lk -> (forall r y, (r, y) ∈ l1 -> ~ word_of r a) -> m' a = m a).
Proof.
  intros Hc Hap Hlk Hm'. split.
  - rewrite <- (app_nil_r l1), Hm'. eapply (vchain_frame (upd m (vlink lk l1) ABTVS_NULL)); [by intros; apply Hm'|].
    eapply (vchain_set m lk l1 l2 []); [done|done|by intros q x _|done].
  - intros a Ha Hw. rewrite Hm'. apply upd_ne. destruct (vlink_cases lk l1) as [->|(r & y & Hr & ->)]; [done|].
    intros <-. apply (Hw r y Hr). exists 8. split; [lia|done].
Qed.

Lemma delete_chain_run fuel (vs : vstore (HS := HS) (MS := MS)) v l m :
  vchain m v l -> (forall q x, (q, x) ∈ l -> 0 <= q < 2 ^ 64) ->
  records (abtvs_mcxt vs) (length l) -> (length l <= fuel)%nat ->
  exists ms m', run (_abtvs_delete_chain free_node fuel vs v) m = (Done (set_mcxt vs ms), m') /\ (forall a, m' a = m a) /\
    freed ms = freed (abtvs_mcxt vs) ++ (fst <$> l) /\ (pinv (abtvs_mcxt vs) m -> pinv ms m).
Proof.
  intros Hc Hr Hrec Hf. destruct (head_unmarked m v l Hc Hr) as (_ & _ & Hdel & Hv). unfold _abtvs_delete_chain.
  destruct (Z.eqb_spec v abtvs_deleted_chain_head); [done|]. rewrite orb_false_r. destruct l as [|[q [x d]] l].
  - subst v. cbn [Z.eqb ABTVS_NULL SHARED_SLAB_NULL run fmap list_fmap]. exists (abtvs_mcxt vs), m.
    rewrite app_nil_r. by destruct vs.
  - pose proof Hc as (-> & Hq & _). apply rawptr_ok_spec in Hq as [Hq0 _].
    destruct (Z.eqb_spec q ABTVS_NULL); [done|]. by apply delete_from_run.
Qed.

(** Unlinking what is behind [l1], the chain's head being marked. *)
Lemma unlink_run n lk l1 q x l2 m :
  vchain m (m lk) (l1 ++ (q, x) :: l2) -> (forall r, ~ word_of r lk) ->
  exists m', run (unlink (S n) lk q (vlink lk l1)) (upd m lk (abtvs_ptr_mark (m lk))) = (Done (vlink lk l1), m') /\
    (forall a, a <> lk -> m' a = upd m (vlink lk l1) ABTVS_NULL a) /\
    m' lk = match l1 with [] => ABTVS_NULL | _ => abtvs_ptr_mark (m lk) end.
Proof.
  intros Hc Hlk. pose proof (vchain_link _ _ _ _ Hc) as Hl. assert (Hq : m (vlink lk l1) = q) by (destruct x; apply Hl). clear Hl.
  cbn [unlink run]. destruct l1 as [|[r y] l1'].
  - change (vlink lk []) with lk in *. rewrite bool_decide_true, upd_eq by done. subst q. rewrite Z.eqb_refl. cbn [run].
    eexists. split; [done|]. split; [|apply upd_eq]. intros a Ha. by rewrite !upd_ne by done.
  - assert (Hne : vlink lk ((r, y) :: l1') <> lk).
    { rewrite vlink_cons. intros E. destruct (vlink_cases (node_next (fst (r, y))) l1') as [E'|(r' & y' & _ & E')];
        rewrite E' in E; [apply (Hlk r)|apply (Hlk r')]; exists 8; (split; [lia|by rewrite <- E]). }
    rewrite bool_decide_false by done. rewrite upd_ne by done. rewrite Hq, Z.eqb_refl. cbn [run].
    eexists. split; [done|]. split; [|rewrite upd_ne, upd_eq by done; done].
    intros a Ha. unfold upd. repeat case_decide; congruence.
Qed.

Lemma vlink_ne_head p l : l <> [] -> vlink (head_of p) l <> head_of p.
Proof.
  intros Hl. unfold vlink. destruct (last l) as [[q x]|] eqn:E; [done|]. by apply last_None in E.
Qed.

(** The end of a collection: unmark the head, free what was cut off. *)
Lemma recycle_finish n (vs : vstore (HS := HS) (MS := MS)) p l1 l2 m m2 :
  let lk := head_of p in
  vchain m (m lk) (l1 ++ l2) -> (forall q x, (q, x) ∈ l2 -> 0 <= q < 2 ^ 64) -> all_apart (fst <$> l1 ++ l2) ->
  (l1 <> [] -> rawptr_ok (m lk) = true) -> records (abtvs_mcxt vs) (length l2) -> (length l2 <= S n)%nat ->
  (forall a, a <> lk -> m2 a = upd m (vlink lk l1) ABTVS_NULL a) ->
  m2 lk = match l1 with [] => ABTVS_NULL | _ => abtvs_ptr_mark (m lk) end ->
  exists ms m', run (Read lk (fun head =>
      let* _ := (if abtvs_ptr_is_marked head then unmark_head (S n) lk head else Ret tt) in
      let* vs := _abtvs_delete_chain free_node (S n) vs (first_node l2) in
      Ret (vs, match l1 with [] => true | _ => false end))) m2 =
      (Done (set_mcxt vs ms, match l1 with [] => true | _ => false end), m') /\
    freed ms = freed (abtvs_mcxt vs) ++ (fst <$> l2) /\ vchain m' (m' lk) l1 /\
    (forall a, a <> lk -> (forall r y, (r, y) ∈ l1 -> ~ word_of r a) -> m' a = m a) /\
    (pinv (abtvs_mcxt vs) m -> pinv ms m').
Proof.
  intros lk Hc Hr2 Hap Hok Hrec Hlen Hm2 Hm2lk.
  assert (Hlk : forall q, ~ word_of q lk) by (intros q; apply head_not_word).
  rewrite fmap_app in Hap. apply all_apart_app in Hap as (Hap1 & _ & Hap12).
  assert (exists m3, run (if abtvs_ptr_is_marked (m2 lk) then unmark_head (S n) lk (m2 lk) else Ret tt) m2 = (Done tt, m3) /\
    forall a, m3 a = upd m (vlink lk l1) ABTVS_NULL a) as (m3 & Hr3 & Hm3).
  { destruct l1 as [|b l1'].
    - rewrite Hm2lk. exists m2. split; [done|]. intros a. destruct (decide (a = lk)) as [->|Ha]; [|by apply Hm2].
      change (vlink lk []) with lk. by rewrite upd_eq.
    - rewrite Hm2lk, mark_marked by (by apply Hok). cbn [unmark_head run]. rewrite Hm2lk, Z.eqb_refl. cbn [run]. rewrite mark_involutive.
      eexists. split; [done|]. intros a. destruct (decide (a = lk)) as [->|Ha]; [|rewrite upd_ne by done; by apply Hm2].
      rewrite upd_eq, upd_ne; [done|by apply vlink_ne_head]. }
  assert (Hl2 : vchain m3 (first_node l2) l2).
  { eapply (vchain_frame m).
    - intros q y Hq i Hi. rewrite Hm3. apply upd_ne. destruct (vlink_cases lk l1) as [->|(r & z & Hr & ->)]; [done|].
      apply node_words_ne; [|lia|done]. apply Hap12; apply in_nodes; eauto.
    - pose proof (vchain_link _ _ _ _ Hc) as H. destruct (decide (l2 = [])) as [E|E]; [by rewrite E|].
      destruct (vchain_first _ _ _ H E) as [_ E']. by rewrite E' in H. }
  destruct (delete_chain_run (S n) vs (first_node l2) l2 m3 Hl2 Hr2 Hrec Hlen) as (ms & m' & Hrun & Hm' & Hfr & Hp).
  exists ms, m'. cbn [run]. rewrite run_bind, Hr3, run_bind, Hrun. split; [done|]. split; [done|].
  destruct (cut_chain m m' lk l1 l2 Hc Hap1 Hlk) as [Hch Hframe]; [intros a; by rewrite Hm', Hm3|].
  split; [done|]. split; [done|]. intros Hpi.
  destruct (np_frame (abtvs_mcxt vs) m m3 Hpi) as [Hp3 _].
  { intros a Ha Hh _. rewrite Hm3. apply upd_ne. destruct (vlink_cases lk l1) as [->|(r & z & _ & ->)].
    - intros <-. by apply (Hh (elem_value p)).
    - intros <-. by eapply Ha. }
  destruct (np_frame ms m3 m' (Hp Hp3)) as [? _]; [by intros; apply Hm'|done].
Qed.

(** The chain's memory after a collection. *)
Lemma recycle_run fuel (vs : vstore (HS := HS) (MS := MS)) o p l m :
  vchain m (m (head_of p)) l -> (forall q x, (q, x) ∈ l -> 0 <= q < 2 ^ 64) -> all_apart (fst <$> l) ->
  records (abtvs_mcxt vs) (length (old_versions o l)) -> (length l < fuel)%nat ->
  exists ms m', run (recycle_chain free_node fuel vs o p (m (head_of p))) m =
      (Done (set_mcxt vs ms, match keep_recent o l with [] => true | _ => false end), m') /\
    freed ms = freed (abtvs_mcxt vs) ++ (fst <$> old_versions o l) /\
    vchain m' (m' (head_of p)) (keep_recent o l) /\
    (forall a, a <> head_of p -> (forall r y, (r, y) ∈ keep_recent o l -> ~ word_of r a) -> m' a = m a) /\
    (pinv (abtvs_mcxt vs) m -> pinv ms m').
Proof.
  intros Hc Hr Hap Hrec Hf. unfold recycle_chain. set (lk := head_of p) in *.
  assert (Hlk : forall q, ~ word_of q lk) by (intros q; apply head_not_word).
  rewrite run_bind. destruct fuel as [|n]; [lia|]. destruct (decide (l = [])) as [->|Hlne].
  { cbn in Hc |- *. rewrite Hc. cbn. exists (abtvs_mcxt vs), m. rewrite app_nil_r, Hc. by destruct vs. }
  destruct (vchain_first m _ l Hc Hlne) as [Hq0 _]. pose proof Hq0 as Hq0'. apply rawptr_ok_spec in Hq0' as [Hnz _].
  assert (Hz : (m lk =? ABTVS_NULL) = false) by (by apply Z.eqb_neq).
  cbn [mark_head]. rewrite Hz. cbn [run]. rewrite Z.eqb_refl. cbn [run]. rewrite Hz.
  set (m1 := upd m lk (abtvs_ptr_mark (m lk))).
  assert (Hnd : vchain m1 (m lk) l) by (eapply vchain_frame; [|exact Hc]; intros; by apply upd_ne).
  rewrite run_bind, (find_old_run (S n) o lk (m lk) l m1 Hnd Hlne (Nat.lt_le_incl _ _ Hf)).
  pose proof (keep_split o l) as Hsp. set (l1 := keep_recent o l) in *. set (l2 := old_versions o l) in *.
  assert (Hlen : (length l2 <= S n)%nat) by (rewrite Hsp, length_app in Hf; lia).
  assert (Hr2 : forall q x, (q, x) ∈ l2 -> 0 <= q < 2 ^ 64) by (intros q x Hq; apply (Hr q x); rewrite Hsp; apply elem_of_app; by right).
  rewrite Hsp in Hc, Hap. rewrite run_bind. unfold lk in *.
  destruct l2 as [|[r y] l2'] eqn:E2.
  - cbn [first_node negb Z.eqb ABTVS_NULL SHARED_SLAB_NULL run].
    assert (l1 <> []) by (intros E; rewrite E in Hsp; done).
    destruct (recycle_finish n vs p l1 [] m m1) as (ms & m' & Hrun & Hrest); try done.
    + intros a Ha. unfold m1. rewrite upd_ne by done. unfold upd. case_decide as E; [|done].
      apply vchain_link in Hc. cbn in Hc. by rewrite <- E.
    + unfold m1. rewrite upd_eq. by destruct l1.
    + exists ms, m'. split; [|done]. rewrite <- Hrun. by destruct l1.
  - pose proof Hc as Hcl. apply vchain_link in Hcl. destruct (vchain_first _ _ _ Hcl ltac:(done)) as [Hrok Hreq]. cbn [first_node] in *.
    rewrite Hreq in Hrok. pose proof Hrok as Hrok'. apply rawptr_ok_spec in Hrok' as [Hr0 _].
    destruct (Z.eqb_spec r ABTVS_NULL); [done|]. cbn [negb]. rewrite run_bind.
    destruct (unlink_run n (head_of p) l1 r y l2' m Hc Hlk) as (m2 & Hru & Hm2 & Hm2lk). fold m1 in Hru. rewrite Hru. cbn [run].
    destruct (recycle_finish n vs p l1 ((r, y) :: l2') m m2) as (ms & m' & Hrun & Hrest); try done.
    exists ms, m'. split; [|done]. rewrite <- Hrun. cbn [run first_node].
    replace (bool_decide (vlink (head_of p) l1 = head_of p)) with (match l1 with [] => true | _ => false end); [done|].
    destruct l1; [by rewrite bool_decide_true|]. rewrite bool_decide_false; [done|by apply vlink_ne_head].
Qed.

(** Shortening a chain keeps the store's invariant. *)
Lemma shrink_store vs ms m m' F C key p l1 l2 :
  store_inv vs m F C -> F key = Some p -> C key = l1 ++ l2 -> (pinv (abtvs_mcxt vs) m' -> pinv ms m') ->
  vchain m' (m' (head_of p)) l1 ->
  (forall a, a <> head_of p -> (forall r y, (r, y) ∈ l1 -> ~ word_of r a) -> m' a = m a) ->
  store_inv (set_mcxt vs ms) m' F (upd_chain C key l1).
Proof.
  intros Hi Hp Hsp Hpi Hch Hfr. pose proof (si_ok _ _ _ _ Hi key) as H5. pose proof (si_apart _ _ _ _ Hi key) as H7.
  rewrite Hsp, fmap_app in H5. rewrite Hsp, fmap_app in H7. destruct H5 as [Hw Hd]. apply Forall_app in Hw as [Hw _].
  apply StronglySorted_app in Hd as (_ & Hd & _). apply all_apart_app in H7 as (H7 & _).
  eapply set_chain_store; try done. intros q x Hq. left. exists x. rewrite Hsp. apply elem_of_app. by left.
Qed.

(** C29: collecting one chain keeps exactly the versions before the first one older than
    the given transaction, in order, and frees exactly the nodes of the others; the
    other chains, and the invariant of the store, are kept, the head is unmarked
    again, and the element is reported as deletable exactly when no version is left. *)
Theorem recycle_chain_spec fuel vs m F C key p o :
  store_inv vs m F C -> F key = Some p -> records (abtvs_mcxt vs) (length (C key)) -> (length (C key) < fuel)%nat ->
  exists ms m', run (recycle_chain free_node fuel vs o p (m (head_of p))) m =
      (Done (set_mcxt vs ms, match keep_recent o (C key) with [] => true | _ => false end), m') /\
    store_inv (set_mcxt vs ms) m' F (upd_chain C key (keep_recent o (C key))) /\
    freed ms = freed (abtvs_mcxt vs) ++ (fst <$> old_versions o (C key)).
Proof.
  intros Hi Hp Hrec Hf.
  assert (Hr2 : records (abtvs_mcxt vs) (length (old_versions o (C key)))).
  { eapply np_records_le; [exact Hrec|]. rewrite (keep_split o (C key)) at 2. rewrite length_app. lia. }
  destruct (recycle_run fuel vs o p (C key) m) as (ms & m' & Hr & Hfr & Hch & Hframe & Hpi); try done.
  { by apply (si_chain _ _ _ _ Hi). } { intros q x Hq. by eapply (si_bound _ _ _ _ Hi). } { apply (si_apart _ _ _ _ Hi). }
  exists ms, m'. split; [done|]. split; [|done].
  apply (shrink_store vs ms m m' F C key p _ (old_versions o (C key))); try done; [apply keep_split|intros _; apply Hpi, Hi].
Qed.

(** *** Replacing a chain *)

Lemma store_ext vs m m' F C C' : store_inv vs m F C -> (forall l, m' l = m l) -> (forall k, C' k = C k) ->
  store_inv vs m' F C' /\ bound m' = bound m.
Proof.
  intros [H1 H2 H3 H4 H5 H6 H7 H8 H9] Hm HCC.
  destruct (np_frame (abtvs_mcxt vs) m m' H2) as (Hp & Hb & _); [by intros|].
  destruct (ci_frame (abtvs_htab vs) m m' F H1) as [Hi _]; [by intros|].
  split; [|done]. split; try done; intros *; rewrite ?HCC, ?Hb; try done; eauto.
  - rewrite Hm. intros Hk. eapply vchain_frame; [|by apply H3]. intros. apply Hm.
  - destruct H9 as [?|[Hl Hd]]; [by left|]. right. unfold loose in *. rewrite Hb, Hm. split; [|done].
    destruct Hl as (? & ? & ? & Hl). do 3 (split; [done|]). intros *. rewrite HCC. apply Hl.
Qed.

(** A chain private to the caller. *)
Definition private_chain (vs : vstore (HS := HS) (MS := MS)) (m : mem vloc) (C : Z -> list vnode) (v : Z) (l : list vnode) : Prop :=
  vchain m v l /\ chain_ok base (snd <$> l) /\ all_apart (fst <$> l) /\
  forall q x, (q, x) ∈ l -> 0 <= q < 2 ^ 64 /\ q + 32 <= bound m /\
    (abtvs_cached_new_node vs = ABTVS_NULL \/ apart (abtvs_cached_new_node vs) q) /\
    forall k r y, (r, y) ∈ C k -> apart q r.

(** From a known element on: one exchange installs the new head. *)
Lemma replace_at n0 (vs : vstore (HS := HS) (MS := MS)) m F C key p new_head l :
  store_inv vs m F C -> F key = Some p -> private_chain vs m C new_head l ->
  records (abtvs_mcxt vs) (length (C key)) -> (length (C key) < n0)%nat ->
  exists vs' m', run (Read (head_of p) (fun head =>
      let* r := replace_loop n0 (head_of p) head new_head in
      match r with
      | Old old => _abtvs_delete_chain free_node n0 vs old
      | Gone => Ret vs
      | RetryFind => _abtvs_replace_chain_head htab_find_u64 free_node n0 vs key new_head
      end)) m = (Done vs', m') /\
    store_inv vs' m' F (upd_chain C key l) /\ freed (abtvs_mcxt vs') = freed (abtvs_mcxt vs) ++ (fst <$> C key).
Proof.
  intros Hi Hp (Hl & Hok & Hap & Hnew) Hrec Hf. destruct n0 as [|n]; [lia|]. pose proof (si_chain _ _ _ _ Hi key p Hp) as Hc.
  destruct (head_unmarked m _ _ Hc) as (Hmk & _ & Hdel & _). { intros q x Hq. by eapply (si_bound _ _ _ _ Hi). }
  cbn [run]. rewrite run_bind. cbn [replace_loop].
  destruct (Z.eqb_spec (m (head_of p)) abtvs_deleted_chain_head); [done|]. rewrite Hmk. cbn [run]. rewrite Z.eqb_refl. cbn [run].
  set (m1 := upd m (head_of p) new_head).
  assert (Hfr : forall b v, vchain m v b -> vchain m1 v b) by (intros b v Hb; eapply vchain_frame; [|exact Hb]; intros; by apply upd_ne).
  destruct (delete_chain_run (S n) vs (m (head_of p)) (C key) m1) as (ms & m' & -> & Hm' & Hfreed & Hpi); [by apply Hfr| |done|lia|].
  { intros q x Hq. by eapply (si_bound _ _ _ _ Hi). }
  exists (set_mcxt vs ms), m'. split; [done|]. split; [|done].
  assert (Hi1 : store_inv (set_mcxt vs ms) m1 F (upd_chain C key l)).
  { apply (set_chain_store vs ms m m1 F C key p l Hi Hp Hpi); try done.
    - unfold m1. rewrite upd_eq. by apply Hfr.
    - intros q x Hq. right. by apply (Hnew q x).
    - intros a Ha _. by apply upd_ne. }
  by apply (store_ext (set_mcxt vs ms) m1 m' F (upd_chain C key l)).
Qed.

(** Installing a version chain replaces the key's chain by the given one, which was
    private to the caller until then, and frees exactly the nodes of the old chain; an
    empty chain is installed without creating an element for the key.  Every other
    chain and the invariant of the store are kept. *)
Theorem replace_chain_spec fuel vs m F C index_id blkno new_head l :
  let key := ABTVS_KEY index_id blkno in
  store_inv vs m F C -> key_ok key -> croom (abtvs_htab vs) m -> private_chain vs m C new_head l ->
  records (abtvs_mcxt vs) (length (C key)) -> (length (C key) + 1 < fuel)%nat ->
  exists vs' m' F', run (_abt_install_version_chain htab_find_u64 free_node fuel vs index_id blkno new_head) m = (Done vs', m') /\
    store_inv vs' m' F' (upd_chain C key l) /\ freed (abtvs_mcxt vs') = freed (abtvs_mcxt vs) ++ (fst <$> C key) /\
    (l = [] -> forall k, F' k = F k).
Proof.
  intros key Hi Hk Hcr (Hl & Hok & Hap & Hnew) Hrec Hf. destruct fuel as [|n]; [lia|].
  unfold _abt_install_version_chain. fold key. cbn [_abtvs_replace_chain_head]. rewrite run_bind.
  destruct (head_unmarked m new_head l Hl) as (_ & _ & _ & Hh). { intros q x Hq. by eapply (Hnew q x). }
  destruct (Z.eqb_spec new_head ABTVS_NULL) as [->|Hne].
  - assert (l = []) as -> by (destruct l as [|[q [x d]] l]; [done|]; destruct Hl as (Hq & Hr & _); by rewrite <- Hq in Hr).
    destruct (ci_find (abtvs_htab vs) m F key (si_index _ _ _ _ Hi) Hk) as (m1 & -> & Hm1).
    assert (Hvs : set_htab vs (abtvs_htab vs) = vs) by (by destruct vs). rewrite Hvs.
    destruct (store_ext vs m m1 F C C Hi Hm1 ltac:(done)) as [Hi1 Hb1].
    destruct (F key) as [p|] eqn:Ef.
    + destruct (replace_at n vs m1 F C key p ABTVS_NULL []) as (vs' & m' & Hr & Hi' & Hfr); try done; [|lia|by exists vs', m', F].
      split; [done|]. split; [done|]. split; [done|]. by intros q x ?%elem_of_nil.
    + exists vs, m1, F. split; [done|]. pose proof (si_none _ _ _ _ Hi key Ef) as Hn. rewrite Hn. split; [|by rewrite app_nil_r].
      apply (store_ext vs m m1 F C); [done|done|]. intros k. unfold upd_chain. by destruct (Z.eqb_spec k key) as [->|].
  - destruct (enter_store vs m F C key Hi Hcr Hk) as (hs & p & m1 & F' & -> & Hi1 & Hp & Hnd & Hb).
    destruct (replace_at n (set_htab vs hs) m1 F' C key p new_head l) as (vs' & m' & Hr & Hi' & Hfr); try done; [|lia|].
    + split; [eapply vchain_frame; [|exact Hl]; intros; apply Hnd|]. split; [done|]. split; [done|]. by rewrite Hb.
    + exists vs', m', F'. split; [exact Hr|]. split; [done|]. split; [done|]. by intros ->.
Qed.

End Store.

(** ** What readers see *)

Lemma fadd_small w d v : 0 <= w -> 0 <= d -> 0 <= v -> d + v < 2 ^ w -> fadd w d v = d + v.
Proof. intros Hw Hd Hv Hb. unfold fadd. rewrite !Z.mod_small by lia. lia. Qed.

Lemma add_delta_sum w x v l : 0 <= w -> Forall (fun a => 0 <= snd a) l -> 0 <= v ->
  sum_if (fun _ => true) l + v < 2 ^ w ->
  Forall (fun a => 0 <= snd a) (add_delta w x v l) /\
  forall P, sum_if P (add_delta w x v l) = sum_if P l + (if P x then v else 0).
Proof.
  intros Hw Hl Hv. induction Hl as [|[y d] l Hd Hl IH]; cbn [add_delta sum_if snd] in *; intros Hb.
  - rewrite fadd_small by lia. split; [by constructor|]. intros P. simpl. case_match; lia.
  - pose proof (sum_if_nonneg (fun _ => true) l Hl). destruct (Z.eqb_spec y x) as [->|].
    + rewrite fadd_small by lia. split; [constructor; [simpl; lia|done]|]. intros P. simpl. case_match; lia.
    + destruct (NormalTransactionIdPrecedes y x).
      * rewrite fadd_small by lia. split; [by constructor; [|constructor]|]. intros P. simpl. repeat case_match; lia.
      * destruct IH as [IH1 IH2]; [lia|]. split; [by constructor|]. intros P. cbn [sum_if]. rewrite IH2. lia.
Qed.

Lemma agg_arg_small typlen v : typlen = 2 \/ typlen = 4 \/ typlen = 8 -> 0 <= v < 2 ^ (8 * typlen - 1) ->
  agg_arg typlen v = v /\ 0 <= agg_width typlen /\ 2 ^ (8 * typlen - 1) <= 2 ^ agg_width typlen.
Proof.
  intros [->|[->| ->]] Hv; unfold agg_arg, agg_width; simpl in *; (split; [|lia]); try done;
    unfold i16, i32, sign_extend; rewrite Z.mod_small by (simpl; lia); case_match; zbool; simpl in *; lia.
Qed.

Lemma each_le_total B l : Forall (fun a => 0 <= snd a) l -> sum_if (fun _ => true) l < B ->
  Forall (fun a : version => 0 <= snd a < B) l.
Proof.
  intros Hl Hb. rewrite Forall_forall. intros a Ha. split; [by rewrite Forall_forall in Hl; apply Hl|].
  eapply Z.le_lt_trans; [by apply chain_le_total|done].
Qed.

Lemma length_versions C k : length (versions C k) = length (C k).
Proof. apply length_fmap. Qed.

Section Visibility.
Context {HS MS : Type}.
Context (htab_find_u64 : HS -> Z -> hashaction -> prog vloc (HS * found)).
Context (alloc0 : MS -> prog vloc (MS * Z)) (free_node : MS -> Z -> prog vloc MS).
Context (cinv : HS -> mem vloc -> (Z -> option Z) -> Prop) (croom : HS -> mem vloc -> Prop) (key_ok : Z -> Prop).
Context (pinv room : MS -> mem vloc -> Prop) (bound : mem vloc -> Z).
Context (records : MS -> nat -> Prop) (freed : MS -> list Z).
Context `{HC : !ChainIndex htab_find_u64 cinv croom key_ok}.
Context `{HP : !NodePool alloc0 free_node pinv room bound records freed}.
Context (base : Z).
Abbreviation store_inv := (store_inv cinv pinv bound base).

(** Adding to a version returns, keeps the invariant of the store and changes only
    the versions of its key: the transaction's delta grows by the given amount at the
    aggregate's width, or a version with that delta is inserted in its place in the
    sorted chain. *)
Theorem add_to_version_spec fuel vs m F C index_id blkno x dval typlen :
  let key := ABTVS_KEY index_id blkno in
  store_inv vs m F C -> room (abtvs_mcxt vs) m -> croom (abtvs_htab vs) m -> key_ok key -> xid_ok base x ->
  (length (C key) + 2 < fuel)%nat ->
  exists vs' m' F' C',
    run (_abt_add_to_version htab_find_u64 alloc0 fuel vs index_id blkno x dval typlen) m = (Done vs', m') /\
    store_inv vs' m' F' C' /\
    versions C' key = add_delta (agg_width typlen) x (agg_arg typlen dval) (versions C key) /\
    forall k, k <> key -> versions C' k = versions C k.
Proof. by eapply add_to_version_run. Qed.

(** C36: reading an aggregate leaves memory unchanged and returns what the list view of
    the key's chain says: the shared traversal refines [exclude_agg]. *)
Theorem read_agg_refines fuel vs m F C index_id blkno agg snapshot typlen :
  let key := ABTVS_KEY index_id blkno in
  store_inv vs m F C -> key_ok key -> (length (C key) <= fuel)%nat ->
  exists m', run (_abt_read_agg htab_find_u64 fuel false vs index_id blkno agg snapshot typlen) m =
    (Done (vs, exclude_agg typlen agg snapshot (versions C key)), m') /\ forall l, m' l = m l.
Proof. by eapply read_agg_run. Qed.

(** C18: when a transaction adds an amount to a page's aggregate and to its version of
    it, what a reader gets grows by that amount if its snapshot sees the transaction,
    and does not change otherwise. *)
Theorem insert_visibility fuel vs m F C index_id blkno x dval typlen agg s :
  let key := ABTVS_KEY index_id blkno in
  let visible := negb (_abt_xid_in_snapshot x (Some s)) in
  store_inv vs m F C -> room (abtvs_mcxt vs) m -> croom (abtvs_htab vs) m -> key_ok key -> xid_ok base x ->
  (length (C key) + 2 < fuel)%nat ->
  typlen = 2 \/ typlen = 4 \/ typlen = 8 -> snapshot_ok base s -> 0 <= dval ->
  Forall (fun a => 0 <= snd a) (versions C key) ->
  sum_if (fun _ => true) (versions C key) + dval < 2 ^ (8 * typlen - 1) ->
  sum_if (fun _ => true) (versions C key) <= agg -> agg + dval < 2 ^ 64 ->
  exists vs' m' m1 m2 r,
    run (_abt_add_to_version htab_find_u64 alloc0 fuel vs index_id blkno x dval typlen) m = (Done vs', m') /\
    run (_abt_read_agg htab_find_u64 fuel false vs index_id blkno agg (Some s) typlen) m = (Done (vs, r), m1) /\
    run (_abt_read_agg htab_find_u64 (S fuel) false vs' index_id blkno (agg + dval) (Some s) typlen) m' =
      (Done (vs', r + (if visible then dval else 0)), m2).
Proof.
  intros key visible Hi Hroom Hcr Hk Hx Hf Htyp Hs Hd Hnn Hsum Hagg Hagg2.
  pose proof (sum_if_nonneg (fun _ => true) _ Hnn) as H0.
  destruct (agg_arg_small typlen dval Htyp ltac:(lia)) as (Harg & Hw & Hpow).
  destruct (add_to_version_run htab_find_u64 alloc0 free_node cinv croom key_ok pinv room bound records freed base
    fuel vs m F C index_id blkno x dval typlen Hi Hroom Hcr Hk Hx Hf) as (vs' & m' & F' & C' & Hr & Hi' & Hv & _).
  fold key in Hv. rewrite Harg in Hv.
  destruct (add_delta_sum (agg_width typlen) x dval _ Hw Hnn Hd ltac:(lia)) as [Hnn' Hsum']. rewrite <- Hv in Hnn', Hsum'.
  assert (Hle : forall l, Forall (fun a : version => 0 <= snd a) l -> sum_if (hidden s) l <= sum_if (fun _ => true) l)
    by (intros l Hl; by apply (sum_if_mono)).
  destruct (read_agg_run htab_find_u64 cinv croom key_ok pinv bound base
    fuel vs m F C index_id blkno agg (Some s) typlen Hi Hk ltac:(fold key; lia)) as (m1 & Hr1 & _).
  destruct (read_agg_run htab_find_u64 cinv croom key_ok pinv bound base
    (S fuel) vs' m' F' C' index_id blkno (agg + dval) (Some s) typlen Hi' Hk) as (m2 & Hr2 & _).
  { assert (Hlen : (length (versions C' key) <= S (length (versions C key)))%nat).
    { rewrite Hv. clear. induction (versions C key) as [|[y d] l IH]; simpl; [lia|]. repeat case_match; simpl; lia. }
    rewrite !length_versions in Hlen. fold key. lia. }
  do 5 eexists. split; [exact Hr|]. split; [exact Hr1|]. rewrite Hr2. do 3 f_equal. fold key. cbn [exclude_agg].
  assert (Hread : forall l a, chain_ok base l -> Forall (fun b => 0 <= snd b) l ->
    sum_if (fun _ => true) l < 2 ^ (8 * typlen - 1) -> sum_if (fun _ => true) l <= a < 2 ^ 64 ->
    exclude_chain typlen s (sn_xip s) a l = a - sum_if (hidden s) l).
  { intros l a Hl Hn Hb Ha. specialize (Hle l Hn).
    apply (exclude_chain_spec base typlen s Htyp Hs l []); [done|by apply each_le_total|done|by intros b y _ ?%elem_of_nil|lia]. }
  rewrite !Hread; try done; rewrite ?Hsum'; try lia.
  - unfold visible, hidden. destruct (_abt_xid_in_snapshot x (Some s)); simpl; lia.
  - apply (si_ok _ _ _ _ _ _ _ _ Hi).
  - apply (si_ok _ _ _ _ _ _ _ _ Hi').
Qed.

End Visibility.

End VersionStore.
