(* ===== verification/StoreParts.v ===== *)
(** * The parts of the version store put together

    The node slab and the lock-free hash table, used inside the version store's memory,
    provide what [NodePool] and [ChainIndex] ask for; a concrete store shows that the
    theorems about the store apply.  The last part follows two schedules of an insertion
    and the garbage collector step by step. *)

From stdpp Require Import base numbers option sorting list.
From S2P Require Import Prelude Shmem Epoch SharedSlab LockfreeHtab Versions VersionStore.

Module StoreParts.
Import Epoch Slab Htab Versions VersionStore.

#[export] Instance lift_nd_inj : Inj (=) (=) lift_nd.
Proof. intros [] []; simpl; congruence. Qed.
#[export] Instance lift_ht_inj : Inj (=) (=) lift_ht.
Proof. intros [|[]] [|[]]; simpl; congruence. Qed.

(** ** Version nodes from a slab *)

Section Nodes.
Context (sh : header) (n : nat) (d : Z).

Definition abtvs_alloc0 (s : slab) : prog vloc (slab * Z) :=
  let* p := plift lift_nd (shared_slab_allocate0 sh (4 + n) d) in Ret (s, p).
Definition abtvs_free (N : Z) (st : epoch_local) (s : slab) (p : Z) : prog vloc slab :=
  plift lift_nd (shared_slab_free N (4 + n) st s p).

Definition nd_part (m : mem vloc) : mem sloc := fun l => m (lift_nd l).

Definition nd_inv (s : slab) (m : mem vloc) : Prop :=
  (exists c, alloc_ok sh (nd_part m) c) /\ nd_part m freelist_head = SHARED_SLAB_NULL.
Definition nd_room (s : slab) (m : mem vloc) : Prop :=
  frontier (nd_part m) + 2 * 2 ^ address_offset_num_bits sh <= 2 ^ 64.
Definition nd_records (s : slab) (k : nat) : Prop :=
  match last (dealloc_lists s) with
  | Some l => dl_size l + Z.of_nat k <= dl_capacity l
  | None => Z.of_nat k <= dealloc_list_capacity s
  end.

Lemma nd_alloc s m : header_ok sh -> itemsz sh = 32 -> nd_inv s m -> nd_room s m ->
  exists p m', run (abtvs_alloc0 s) m = (Done (s, p), m') /\ nd_inv s m' /\
    rawptr_ok p = true /\ 0 <= p < 2 ^ 64 /\ frontier (nd_part m) <= p /\ p + 32 <= frontier (nd_part m') /\
    m' (node_delta p) = 0 /\
    (forall a, a < frontier (nd_part m) -> m' (Nd (Word a)) = m (Nd (Word a))) /\
    (forall l, (forall l', l <> lift_nd l') -> m' l = m l).
Proof.
  intros Hsh Hsz [[c Hc] Hfl] Hroom. pose proof (pow_bits_range sh Hsh). unfold nd_room, frontier in Hroom.
  pose proof Hc as [[Hc1 Hc2] [Ho _] _]. rewrite Hc2 in Hroom.
  destruct (allocate0_run sh Hsh (nd_part m) c n d Hc Hfl ltac:(nia))
    as (p & m1 & c' & Hr & Hok & Hfl' & Hcc & Hlo & Hhi & Hal & Hp0 & Hz & Hw).
  destruct (run_plift lift_nd _ (shared_slab_allocate0 sh (4 + n) d) m (nd_part m)) as (H1 & H2 & H3); [done|].
  change (4 + n)%nat with (S (S (S (S n)))) in *. rewrite Hr in H1, H2. cbn [fst snd] in H1, H2.
  destruct (run (plift lift_nd _) m) as [r m'] eqn:E. cbn [fst snd] in H1, H2, H3. subst r.
  exists p, m'. unfold abtvs_alloc0. change (4 + n)%nat with (S (S (S (S n)))). rewrite run_bind, E. split; [done|].
  assert (Hext : forall l, nd_part m' l = m1 l) by (intros l; apply H2).
  split; [split; [|by rewrite Hext]; exists c'; destruct Hok; by constructor; rewrite ?Hext|].
  split; [apply rawptr_ok_spec; unfold LFHTAB_NULL, SHARED_SLAB_NULL; lia|].
  assert (Hfr : frontier (nd_part m') = p + 32) by (unfold frontier in *; rewrite !Hext; lia).
  split; [|split; [done|split; [lia|split; [|split]]]].
  - unfold frontier in Hhi. destruct Hok as [[Hc3 Hc4] [Ho' _] _]. rewrite Hc4 in Hhi. nia.
  - change (m' (node_delta p)) with (nd_part m' (Word (p + 8 * 2))). rewrite Hext. apply Hz. lia.
  - intros a Ha. change (nd_part m' (Word a) = nd_part m (Word a)). rewrite Hext. apply Hw. lia.
  - done.
Qed.

Lemma concat_app_last (ls : list dealloc) l p : last ls = Some l ->
  concat (dl_pointers <$> upd_last (add_pointer p) ls) = concat (dl_pointers <$> ls) ++ [p] /\
  last (upd_last (add_pointer p) ls) = Some (add_pointer p l).
Proof.
  induction ls as [|a ls IH]; [done|]. destruct ls as [|b ls].
  - intros [= ->]. simpl. by rewrite !app_nil_r.
  - rewrite last_cons_cons. intros Hl. destruct (IH Hl) as [IH1 IH2].
    change (upd_last (add_pointer p) (a :: b :: ls)) with (a :: upd_last (add_pointer p) (b :: ls)).
    rewrite fmap_cons. cbn [concat]. rewrite IH1. split; [by rewrite !fmap_cons; cbn [concat]; rewrite !app_assoc|].
    rewrite last_cons, IH2. done.
Qed.

Lemma nd_free N st s m p k : nd_records s (S k) ->
  exists s', run (abtvs_free N st s p) m = (Done s', m) /\ nd_records s' k /\ slab_parked s' = slab_parked s ++ [p].
Proof.
  unfold nd_records, abtvs_free, shared_slab_free, slab_parked. intros Hr.
  destruct (last (dealloc_lists s)) as [l|] eqn:El.
  - destruct (Z.eqb_spec (dl_size l) (dl_capacity l)); [lia|]. cbn [plift run].
    eexists. split; [done|]. cbn [dealloc_lists]. destruct (concat_app_last _ l p El) as [-> ->].
    split; [|done]. unfold dl_size, add_pointer in *. cbn [dl_pointers dl_capacity]. rewrite length_app. simpl. lia.
  - apply last_None in El. rewrite El. cbn [plift run]. eexists. split; [done|]. simpl. split; [|done].
    unfold dl_size. simpl. lia.
Qed.

#[export] Instance slab_NodePool N st (Hsh : header_ok sh) (Hsz : itemsz sh = 32) :
  NodePool abtvs_alloc0 (abtvs_free N st) nd_inv nd_room (fun m => frontier (nd_part m)) nd_records slab_parked.
Proof.
  constructor.
  - intros s m Hi Hr. destruct (nd_alloc s m Hsh Hsz Hi Hr) as (p & m' & H1 & H2 & H3 & H4 & H5 & H6 & H7 & H8 & H9).
    exists s, p, m'. do 8 (split; [done|]). intros l Hl He. apply H9. intros [] ->; simpl in *; try (by eapply Hl); by eapply He.
  - intros s m p k Hr. destruct (nd_free N st s m p k Hr) as (s' & H1 & H2 & H3). exists s', m. done.
  - intros s j k. unfold nd_records. case_match; lia.
  - intros s m m' [[c Hc] Hfl] Hfr. unfold nd_inv, nd_room, frontier.
    assert (Hext : forall l, (forall a, l <> Word a) -> (forall e, l <> Ep e) -> nd_part m' l = nd_part m l).
    { intros l Hl He. apply Hfr; intros; destruct l; simpl; try done; naive_solver. }
    rewrite !Hext by done. split; [|done]. split; [|done]. exists c. destruct Hc. by constructor; rewrite ?Hext.
Qed.

End Nodes.

(** ** The hash table as the index of chains *)

Section Index.
Context {MS : Type} (alloc0 : MS -> prog hloc (MS * Z)) (free_node : MS -> Z -> prog hloc MS).
Context (h : lfhtab_header) (fuel : nat).
Context (ainv room : MS -> mem hloc -> Prop) (bound : mem hloc -> Z).
Context `{HA : !NodeAlloc alloc0 ainv room bound}.

Definition abtvs_find (ht : lfhtab) (key : Z) (action : hashaction) : prog vloc (lfhtab * found) :=
  plift lift_ht (lockfree_htab_find_u64 alloc0 free_node h fuel ht key action).

Definition ht_part (m : mem vloc) : mem hloc := fun l => m (lift_ht l).

Definition ht_lookup (T : Z -> list (Z * Z)) (key : Z) : option Z := tlookup h lockfree_htab_hash_uint64 T key.

Definition ht_inv (ht : lfhtab) (m : mem vloc) (F : Z -> option Z) : Prop :=
  exists T, htab_inv h lockfree_htab_hash_uint64 ainv bound ht (ht_part m) T /\
    (forall k, F k = ht_lookup T k) /\ forall b, (length (T b) < fuel)%nat.
Definition ht_room (ht : lfhtab) (m : mem vloc) : Prop :=
  exists T, htab_inv h lockfree_htab_hash_uint64 ainv bound ht (ht_part m) T /\
    room (mcxt ht) (ht_part m) /\ forall b, (length (T b) + 1 < fuel)%nat.
Definition ht_key_ok (key : Z) : Prop := has_sentinel_value h = true -> key <> sentinel_value h.

Lemma ht_unique ht ht' m T T' :
  htab_inv h lockfree_htab_hash_uint64 ainv bound ht m T -> htab_inv h lockfree_htab_hash_uint64 ainv bound ht' m T' ->
  forall b, T b = T' b.
Proof. intros [H _ _ _] [H' _ _ _] b. eapply chain_unique; [apply H|apply H']. Qed.

Lemma lookup_in ht m T k p : htab_inv h lockfree_htab_hash_uint64 ainv bound ht m T -> ht_lookup T k = Some p ->
  exists b, (p, k) ∈ T b.
Proof. intros [H _ _ _] Hl. eexists. apply lookup_key_spec in Hl; [exact Hl|apply H]. Qed.

Lemma in_lookup ht m T b k p : htab_inv h lockfree_htab_hash_uint64 ainv bound ht m T -> (p, k) ∈ T b ->
  ht_lookup T k = Some p.
Proof.
  intros [H _ _ _] Hin. unfold ht_lookup, tlookup. rewrite (to_hash _ _ _ _ H b p k Hin). apply lookup_key_spec; [apply H|done].
Qed.

Lemma lift_ht_cases l : (exists l', l = lift_ht l') \/ (forall l', l <> lift_ht l').
Proof.
  destruct l as [e|[b|s]|s]; [by left; exists (Shared (Ep e))|by left; exists (Bucket b)| |].
  - destruct s as [| | |c|a|e] eqn:Es; try (left; by exists (Shared s); rewrite Es). right. intros [|[]]; simpl; congruence.
  - right. intros [|[]]; simpl; congruence.
Qed.

Lemma ht_frame ht m m' F T : htab_inv h lockfree_htab_hash_uint64 ainv bound ht (ht_part m) T ->
  (forall k, F k = ht_lookup T k) ->
  (forall l, (forall k q, F k = Some q -> l <> head_of q) -> (forall l', l <> Nd l') -> (forall e, l <> Epo e) -> m' l = m l) ->
  htab_inv h lockfree_htab_hash_uint64 ainv bound ht (ht_part m') T /\
  (forall l, (forall b, l <> Bucket b) -> (forall a, l <> Shared (Word a)) -> (forall e, l <> Shared (Ep e)) ->
    ht_part m' l = ht_part m l).
Proof.
  intros Hi HF Hfr.
  assert (H : forall l, (forall b p k, (p, k) ∈ T b -> l <> elem_value p) -> (forall e, l <> Shared (Ep e)) ->
    ht_part m' l = ht_part m l).
  { intros l Hl He. unfold ht_part. assert (El : lift_ht l = Ht l) by (destruct l as [|[| | | | |e]]; try done; by destruct (He e)).
    rewrite El. apply Hfr; [|done|done]. intros k q Hq [= ->]. rewrite HF in Hq.
    destruct (lookup_in _ _ _ _ _ Hi Hq) as [b Hb]. by eapply Hl. }
  split; [by eapply (htab_inv_values alloc0)|]. intros l H1 H2 H3. apply H; [|done]. intros b p k _ ->. by eapply H2.
Qed.

(** The room for another element is not in the buckets, the elements or the epochs. *)
Definition room_stable : Prop := forall s m m', room s m ->
  (forall l, (forall b, l <> Bucket b) -> (forall a, l <> Shared (Word a)) -> (forall e, l <> Shared (Ep e)) -> m' l = m l) ->
  room s m'.

Lemma find_index ht m F key : ht_inv ht m F -> ht_key_ok key ->
  exists m', run (abtvs_find ht key HASH_FIND) m =
    (Done (ht, match F key with Some p => Found p | None => NotFound end), m') /\ forall l, m' l = m l.
Proof.
  intros (T & Hi & HF & Hlen) Hk. unfold abtvs_find.
  destruct (run_plift lift_ht _ (lockfree_htab_find_u64 alloc0 free_node h fuel ht key HASH_FIND) m (ht_part m)) as (H1 & H2 & H3); [done|].
  unfold lockfree_htab_find_u64 in *.
  rewrite (find_run alloc0 free_node h fuel ht lockfree_htab_hash_uint64 (ht_part m) T key (hi_table _ _ _ _ _ _ _ Hi) (Hlen _)) in H1, H2.
  cbn [fst snd] in H1, H2. destruct (run (plift lift_ht _) m) as [r m'] eqn:E. cbn [fst snd] in *. subst r.
  exists m'. split.
  - rewrite HF. unfold ht_lookup. destruct (tlookup _ _ T key); [|done].
    destruct (has_sentinel_value h) eqn:Es; [|done]. simpl. by destruct (Z.eqb_spec key (sentinel_value h)) as [->|]; [destruct (Hk Es)|].
  - intros l. destruct (lift_ht_cases l) as [[l' ->]|Hn]; [apply H2|by apply H3].
Qed.

Lemma enter_index ht m F key : ht_inv ht m F -> ht_room ht m -> ht_key_ok key ->
  exists ht' p m' F', run (abtvs_find ht key HASH_ENTER) m = (Done (ht', Found p), m') /\
    ht_inv ht' m' F' /\ F' key = Some p /\ (forall k, k <> key -> F' k = F k) /\
    (forall k q, F k = Some q -> m' (head_of q) = m (head_of q)) /\
    match F key with Some q => p = q | None => m' (head_of p) = ABTVS_NULL end /\ (forall l, m' (Nd l) = m (Nd l)).
Proof.
  intros (T & Hi & HF & Hlen) (T2 & Hi2 & Hroom & Hlen2) Hk. pose proof (ht_unique _ _ _ _ _ Hi Hi2) as HT.
  destruct (run_plift lift_ht _ (lockfree_htab_find_u64 alloc0 free_node h fuel ht key HASH_ENTER) m (ht_part m)) as (H1 & H2 & H3); [done|].
  unfold lockfree_htab_find_u64 in *.
  destruct (enter_run alloc0 free_node h lockfree_htab_hash_uint64 ainv room bound fuel ht (ht_part m) T key Hi Hroom Hk)
    as (ht' & p & m1 & T' & Hr & Hi' & Hl & Ho & Hv & Hnew & Hlen'). { rewrite HT. apply Hlen2. }
  rewrite Hr in H1, H2. cbn [fst snd] in H1, H2. unfold abtvs_find, lockfree_htab_find_u64.
  destruct (run (plift lift_ht _) m) as [r m'] eqn:E. cbn [fst snd] in *. subst r.
  assert (Hi'' : htab_inv h lockfree_htab_hash_uint64 ainv bound ht' (ht_part m') T') 
    by (eapply (htab_inv_values alloc0); [exact HA|exact Hi'|by intros; apply H2]).
  exists ht', p, m', (ht_lookup T'). split; [done|]. split.
  { exists T'. split; [done|]. split; [done|]. intros b. specialize (Hlen' b). specialize (Hlen2 b). rewrite HT in Hlen'. lia. }
  split; [done|]. split; [intros k Hkk; rewrite HF; by apply Ho|].
  split; [intros k q Hq; rewrite HF in Hq; change (m' (head_of q)) with (m' (lift_ht (elem_value q))); rewrite H2; by apply (Hv k)|].
  split; [|intros l; apply H3; by intros [|[]]].
  rewrite HF. unfold ht_lookup. destruct (tlookup _ _ T key); [done|].
  change (m' (head_of p)) with (m' (lift_ht (elem_value p))). by rewrite H2.
Qed.

#[export] Instance htab_ChainIndex (Hst : room_stable) : ChainIndex abtvs_find ht_inv ht_room ht_key_ok.
Proof.
  constructor.
  - apply find_index.
  - apply enter_index.
  - intros ht m F k k' p (T & Hi & HF & _). rewrite !HF. intros Hp Hp'.
    destruct (lookup_in _ _ _ _ _ Hi Hp) as [b Hb], (lookup_in _ _ _ _ _ Hi Hp') as [b' Hb'].
    destruct (decide (k = k')) as [|Hne]; [done|]. destruct Hi as [Hok _ _ _].
    assert (Ha : apart p p) by (eapply (to_apart _ _ _ _ Hok); [exact Hb|exact Hb'|congruence]). unfold apart in Ha. lia.
  - intros ht m m' F (T & Hi & HF & Hlen) Hfr. destruct (ht_frame ht m m' F T Hi HF Hfr) as [Hi' Hp].
    split; [by exists T|]. intros (T2 & Hi2 & Hr & Hlen2). exists T. split; [done|]. split; [by eapply Hst|].
    intros b. rewrite (ht_unique _ _ _ _ _ Hi Hi2). apply Hlen2.
Qed.

End Index.

(** ** A concrete store *)

(** One relation, one page with a version of transaction 105; one bucket; both slabs
    hand out items from address 96. *)
Definition demo_key : Z := ABTVS_KEY 1 7.
Definition demo_vmem : mem vloc := fun l =>
  match l with
  | Ht (Bucket 0) => 64
  | Ht (Shared (Word 64)) => demo_key
  | Ht (Shared (Word 72)) => 64
  | Ht (Shared new_chunk) => 64
  | Ht (Shared unallocated_offset) => 32
  | Nd (Word 64) => 105
  | Nd (Word 80) => 3
  | Nd new_chunk => 64
  | Nd unallocated_offset => 32
  | _ => 0
  end.
Definition demo_vT : Z -> list (Z * Z) := fun b => if b =? 0 then [(64, demo_key)] else [].
Definition demo_F : Z -> option Z := fun k => if k =? demo_key then Some 64 else None.
Definition demo_C : Z -> list vnode := fun k => if k =? demo_key then [(64, (105, 3))] else [].
Definition demo_node_slab : slab := mk_slab true 4 [].
Definition demo_vs : vstore := mk_vs demo_ht demo_node_slab ABTVS_NULL.

Definition demo_vfind := abtvs_find (lfhtab_alloc0 demo_header 0 7) (lfhtab_free 0 2 (mk_local 0 0)) demo_hheader 6.
Definition demo_valloc := abtvs_alloc0 demo_header 0 7.
Definition demo_vfree := abtvs_free 0 2 (mk_local 0 0).
Definition demo_cinv := ht_inv demo_hheader 6 (alloc_inv demo_header) (fun m => frontier (slab_part m)).
Definition demo_croom := ht_room demo_hheader 6 (alloc_inv demo_header) (alloc_room demo_header) (fun m => frontier (slab_part m)).
Definition demo_key_ok := ht_key_ok demo_hheader.

Lemma demo_room_stable : room_stable (alloc_room demo_header).
Proof. intros s m m' Hr Hfr. unfold alloc_room, frontier, slab_part in *. by rewrite !Hfr. Qed.

#[export] Instance demo_ChainIndex : ChainIndex demo_vfind demo_cinv demo_croom demo_key_ok.
Proof. exact (htab_ChainIndex _ _ _ _ _ _ _ (HA := slab_NodeAlloc demo_header 0 7 demo_header_ok eq_refl) demo_room_stable). Qed.
#[export] Instance demo_NodePool :
  NodePool demo_valloc demo_vfree (nd_inv demo_header) (nd_room demo_header) (fun m => frontier (nd_part m)) nd_records slab_parked.
Proof. exact (slab_NodePool demo_header 0 7 2 _ demo_header_ok eq_refl). Qed.

Lemma demo_velem b p k : (p, k) ∈ demo_vT b -> b = 0 /\ p = 64 /\ k = demo_key.
Proof. unfold demo_vT. destruct (Z.eqb_spec b 0); [|by intros ?%elem_of_nil]. intros ?%list_elem_of_singleton. naive_solver. Qed.

Lemma demo_vtable : htab_inv demo_hheader lockfree_htab_hash_uint64 (alloc_inv demo_header) (fun m => frontier (slab_part m))
  demo_ht (ht_part demo_vmem) demo_vT.
Proof.
  split; [split| | |by left].
  - intros b. unfold demo_vT. destruct (Z.eqb_spec b 0) as [->|]; simpl; [done|]. unfold ht_part. simpl. by destruct b.
  - intros b. unfold demo_vT. case_match; repeat constructor.
  - intros b p k (-> & -> & ->)%demo_velem. apply Z.land_0_r.
  - intros b b' p k p' k' (-> & -> & ->)%demo_velem (-> & -> & ->)%demo_velem. done.
  - split; [|done]. exists 0. constructor; vm_compute; repeat split; congruence.
  - intros b p k (-> & -> & ->)%demo_velem. vm_compute. congruence.
Qed.

Lemma demo_lookup k : demo_F k = ht_lookup demo_hheader demo_vT k.
Proof.
  unfold demo_F, ht_lookup, tlookup. rewrite Z.land_0_r. unfold demo_vT, lookup_key. simpl above. simpl Z.eqb.
  destruct (Z.ltb_spec demo_key k), (Z.eqb_spec k demo_key) as [E|E]; try lia; try done.
  - by rewrite E, Z.eqb_refl.
  - by destruct (Z.eqb_spec demo_key k).
Qed.

Lemma demo_index : demo_cinv demo_ht demo_vmem demo_F /\ demo_croom demo_ht demo_vmem.
Proof.
  assert (Hlen : forall b, (length (demo_vT b) <= 1)%nat) by (intros b; unfold demo_vT; case_match; simpl; lia).
  split; exists demo_vT; (split; [apply demo_vtable|]); (split; [|intros b; specialize (Hlen b); lia]).
  - apply demo_lookup.
  - vm_compute. congruence.
Qed.

Lemma demo_store_inv : store_inv demo_cinv (nd_inv demo_header) (fun m => frontier (nd_part m)) 50 demo_vs demo_vmem demo_F demo_C.
Proof.
  assert (HC : forall k q x, (q, x) ∈ demo_C k -> k = demo_key /\ q = 64 /\ x = (105, 3)).
  { intros k q x. unfold demo_C. destruct (Z.eqb_spec k demo_key); [|by intros ?%elem_of_nil]. intros ?%list_elem_of_singleton. naive_solver. }
  split; [apply demo_index| | | | | | | |by left].
  - split; [|done]. exists 0. constructor; vm_compute; repeat split; congruence.
  - intros k p. unfold demo_F, demo_C. destruct (Z.eqb_spec k demo_key); [|done]. intros [= <-]. by vm_compute.
  - intros k. unfold demo_F, demo_C. by destruct (Z.eqb_spec k demo_key).
  - intros k. unfold demo_C. destruct (Z.eqb_spec k demo_key); [|split; constructor].
    apply demo_chain_ok; repeat constructor; simpl; lia.
  - intros k q x (_ & -> & _)%HC. vm_compute. repeat split; congruence.
  - intros k. unfold demo_C. by destruct (Z.eqb_spec k demo_key); repeat constructor.
  - intros k k' q x q' x' Hne (-> & _)%HC (-> & _)%HC. done.
Qed.

Lemma demo_xid x : 100 <= x < 200 -> xid_ok 50 x.
Proof. apply demo_xid_ok. Qed.

Lemma add_to_version_spec_witness : exists vs' m' F' C',
  run (_abt_add_to_version demo_vfind demo_valloc 6 demo_vs 1 7 107 5 8) demo_vmem = (Done vs', m') /\
  store_inv demo_cinv (nd_inv demo_header) (fun m => frontier (nd_part m)) 50 vs' m' F' C' /\
  versions C' demo_key = [(107, 5); (105, 3)].
Proof.
  destruct (add_to_version_spec demo_vfind demo_valloc demo_vfree demo_cinv demo_croom demo_key_ok (nd_inv demo_header)
    (nd_room demo_header) (fun m => frontier (nd_part m)) nd_records slab_parked 50 6 demo_vs demo_vmem demo_F demo_C 1 7 107 5 8
    demo_store_inv) as (vs' & m' & F' & C' & Hr & Hi & Hv & _).
  - vm_compute. congruence.
  - apply demo_index.
  - intros _. vm_compute. congruence.
  - apply demo_xid. lia.
  - vm_compute. lia.
  - exists vs', m', F', C'. split; [exact Hr|]. split; [exact Hi|]. unfold demo_key. rewrite Hv. reflexivity.
Defined.

Lemma read_agg_refines_witness : exists m',
  run (_abt_read_agg demo_vfind 6 false demo_vs 1 7 20 (Some demo_abt_snapshot) 8) demo_vmem = (Done (demo_vs, 17), m').
Proof.
  destruct (read_agg_refines demo_vfind demo_cinv demo_croom demo_key_ok (nd_inv demo_header)
    (fun m => frontier (nd_part m)) 50 6 demo_vs demo_vmem demo_F demo_C 1 7 20 (Some demo_abt_snapshot) 8
    demo_store_inv) as (m' & Hr & _).
  - intros _. vm_compute. congruence.
  - vm_compute. lia.
  - exists m'. rewrite Hr. reflexivity.
Defined.

Lemma insert_visibility_witness : exists vs' m' m1 m2,
  run (_abt_add_to_version demo_vfind demo_valloc 6 demo_vs 1 7 107 5 8) demo_vmem = (Done vs', m') /\
  run (_abt_read_agg demo_vfind 6 false demo_vs 1 7 20 (Some demo_abt_snapshot) 8) demo_vmem = (Done (demo_vs, 17), m1) /\
  run (_abt_read_agg demo_vfind 7 false vs' 1 7 25 (Some demo_abt_snapshot) 8) m' = (Done (vs', 22), m2).
Proof.
  destruct (insert_visibility demo_vfind demo_valloc demo_vfree demo_cinv demo_croom demo_key_ok (nd_inv demo_header)
    (nd_room demo_header) (fun m => frontier (nd_part m)) nd_records slab_parked 50 6 demo_vs demo_vmem demo_F demo_C 1 7 107 5 8
    20 demo_abt_snapshot demo_store_inv) as (vs' & m' & m1 & m2 & r & Hr & Hr1 & Hr2).
  - vm_compute. congruence.
  - apply demo_index.
  - intros _. vm_compute. congruence.
  - apply demo_xid. lia.
  - vm_compute. lia.
  - lia.
  - exact demo_snapshot_ok.
  - lia.
  - repeat constructor. simpl. lia.
  - vm_compute. congruence.
  - vm_compute. congruence.
  - lia.
  - assert (r = 17) as -> by (vm_compute in Hr1; congruence). exists vs', m', m1, m2. split; [exact Hr|]. split; [exact Hr1|exact Hr2].
Defined.

Lemma recycle_chain_spec_witness : exists ms m',
  run (recycle_chain demo_vfree 6 demo_vs 110 64 64) demo_vmem = (Done (set_mcxt demo_vs ms, true), m') /\ slab_parked ms = [64].
Proof.
  destruct (recycle_chain_spec demo_vfind demo_valloc demo_vfree demo_cinv demo_croom demo_key_ok (nd_inv demo_header)
    (nd_room demo_header) (fun m => frontier (nd_part m)) nd_records slab_parked 50 6 demo_vs demo_vmem demo_F demo_C demo_key 64 110
    demo_store_inv eq_refl) as (ms & m' & Hr & _ & Hf).
  - vm_compute. congruence.
  - vm_compute. lia.
  - exists ms, m'. split; [exact Hr|exact Hf].
Defined.

Lemma replace_chain_spec_witness : exists vs' m' F',
  run (_abt_install_version_chain demo_vfind demo_vfree 6 demo_vs 1 7 0) demo_vmem = (Done vs', m') /\
  store_inv demo_cinv (nd_inv demo_header) (fun m => frontier (nd_part m)) 50 vs' m' F' (upd_chain demo_C demo_key []) /\
  slab_parked (abtvs_mcxt vs') = [64].
Proof.
  destruct (replace_chain_spec demo_vfind demo_valloc demo_vfree demo_cinv demo_croom demo_key_ok (nd_inv demo_header)
    (nd_room demo_header) (fun m => frontier (nd_part m)) nd_records slab_parked 50 6 demo_vs demo_vmem demo_F demo_C 1 7 0 []
    demo_store_inv) as (vs' & m' & F' & Hr & Hi & Hf & _).
  - intros _. vm_compute. congruence.
  - apply demo_index.
  - split; [done|]. split; [split; constructor|]. split; [done|]. by intros q x ?%elem_of_nil.
  - vm_compute. congruence.
  - vm_compute. lia.
  - exists vs', m', F'. split; [exact Hr|]. split; [exact Hi|exact Hf].
Defined.

(** ** Insertion against the garbage collector *)

Definition add_thread : prog vloc unit :=
  let* _ := _abt_add_to_version demo_vfind demo_valloc 6 demo_vs 1 7 107 5 8 in Ret tt.
Definition gc_thread : prog vloc unit :=
  let* _ := recycle_chain demo_vfree 6 demo_vs 100 64 64 in Ret tt.

(** The garbage collector marks the head between the search and the exchange of an
    insertion at the head; the failed exchange leaves the marked pointer in [cur], which
    is dereferenced. *)
Theorem insert_marked_pointer :
  exists c, csteps (fun _ => True) ([add_thread; gc_thread], demo_vmem) c /\ fst c !! 0%nat = Some (Err BadPointer).
Proof.
  exists (exec (replicate 27 0%nat ++ [1%nat] ++ replicate 2 0%nat) ([add_thread; gc_thread], demo_vmem)).
  split; [apply exec_csteps|]. vm_compute. reflexivity.
Qed.

(** An insertion that read a marked head goes on expecting that value: once the
    garbage collector has unmarked the head, every further exchange fails, and the
    insertion at the head of the chain never returns. *)
Theorem insert_spins fuel x c p old q y d l m :
  m (head_of p) = q -> vchain m q ((q, (y, d)) :: l) -> y <> x -> NormalTransactionIdPrecedes y x = true ->
  abtvs_ptr_is_marked old = true -> old <> q -> q <> abtvs_deleted_chain_head -> apart c q ->
  fst (run (insert_node fuel x c (head_of p) old (head_of p) q) m) = Failed OutOfFuel.
Proof.
  intros Hh Hc Hyx Hp Hmk Hoq Hqd Hcq. pose proof Hc as (_ & Hq & Hx & _). apply rawptr_ok_spec in Hq as Hq'. destruct Hq' as [Hq0 _].
  clear Hc. revert m Hh Hx. induction fuel as [|n IH]; intros m Hh Hx; [done|]. cbn [insert_node]. rewrite run_bind.
  destruct n as [|n].
  { cbn [search_chain]. destruct (Z.eqb_spec q ABTVS_NULL); [done|]. by rewrite Hq. }
  cbn [search_chain]. destruct (Z.eqb_spec q ABTVS_NULL); [done|]. rewrite Hq. cbn [negb run]. rewrite Hx.
  destruct (Z.eqb_spec y x); [done|]. rewrite Hp. cbn [run]. rewrite bool_decide_true, Hmk by done. cbn [andb].
  assert (Hm : forall l, l <> node_next c -> upd m (node_next c) q l = m l) by (intros a Ha; by apply upd_ne).
  rewrite Hm, Hh by done. destruct (Z.eqb_spec q old); [congruence|]. cbn [run].
  destruct (Z.eqb_spec q abtvs_deleted_chain_head); [done|]. apply IH.
  - by rewrite Hm.
  - rewrite Hm; [done|]. unfold node_xmin, node_next. intros [=]. unfold apart in Hcq. lia.
Qed.

Lemma insert_spins_witness : fst (run (insert_node 9 107 96 (head_of 64) 66 (head_of 64) 64) demo_vmem) = Failed OutOfFuel.
Proof.
  apply (insert_spins 9 107 96 64 66 64 105 3 []); try (vm_compute; congruence); try reflexivity.
  - vm_compute. repeat split; congruence.
  - right. lia.
Defined.

End StoreParts.
