(* ===== verification/Double.v ===== *)
(** * Double precision arithmetic (IEEE 754 binary64)

    The sampling code of abtsearch.c turns a random number in [0, 1) into a cutoff by
    [(uint64) floor(weight * random_number)].  A C double is a [spec_float] of the
    Standard Library with 53 bits of precision; the conversion from uint64 and the
    product round to nearest even.  Conversions back to integers are [None] where C
    leaves them undefined. *)

From Stdlib Require Import SpecFloat.
From stdpp Require Import base numbers option.
From S2P Require Import Prelude.

Module Double.

Abbreviation double := spec_float.

Definition double_of_Z (n : Z) : double := binary_normalize 53 1024 n 0 false.
Definition dmul (x y : double) : double := SFmul 53 1024 x y.
Definition ddiv (x y : double) : double := SFdiv 53 1024 x y.
Definition dadd (x y : double) : double := SFadd 53 1024 x y.
Definition dsub (x y : double) : double := SFsub 53 1024 x y.
Definition get_float8_infinity : double := S754_infinity false.

(** floor(x) as an integer, for a finite x. *)
Definition dfloor (x : double) : option Z :=
  match x with
  | S754_zero _ => Some 0
  | S754_finite s m e =>
      let m := if s then Z.neg m else Z.pos m in
      Some (if 0 <=? e then m * 2 ^ e else m / 2 ^ (- e))
  | _ => None
  end.

(** The conversion to an integer type, toward zero, for a finite x. *)
Definition dtrunc (x : double) : option Z :=
  match x with
  | S754_zero _ => Some 0
  | S754_finite s m e =>
      let m := if 0 <=? e then Z.pos m * 2 ^ e else Z.pos m / 2 ^ (- e) in
      Some (if s then - m else m)
  | _ => None
  end.

(** [(uint64) floor(n * r)] and [(int) floor(n * r)]. *)
Definition floor_mul (bound : Z) (n : Z) (r : double) : option Z :=
  match dfloor (dmul (double_of_Z n) r) with
  | Some c => if (0 <=? c) && (c <? bound) then Some c else None
  | None => None
  end.
Definition floor_mul_u64 := floor_mul (2 ^ 64).
Definition floor_mul_int := floor_mul (2 ^ 31).

(** A random number in [0, 1). *)
Definition is_fraction (r : double) : Prop :=
  match r with
  | S754_zero s => s = false
  | S754_finite s m e => s = false /\ bounded 53 1024 m e = true /\ Z.pos (digits2_pos m) + e <= 0
  | _ => False
  end.

#[export] Instance is_fraction_dec r : Decision (is_fraction r).
Proof. destruct r; simpl; apply _. Defined.

(** ** Digits *)

Lemma digits2_bounds p : 2 ^ (Z.pos (digits2_pos p) - 1) <= Z.pos p < 2 ^ Z.pos (digits2_pos p).
Proof.
  induction p as [p IH|p IH|]; simpl digits2_pos; [| |by vm_compute].
  all: rewrite Pos2Z.inj_succ; replace (Z.succ (Z.pos (digits2_pos p)) - 1) with (Z.succ (Z.pos (digits2_pos p) - 1)) by lia.
  all: rewrite !Z.pow_succ_r by lia; lia.
Qed.

Lemma digits2_unique m d : 0 < m -> 2 ^ (d - 1) <= m < 2 ^ d -> Zdigits2 m = d.
Proof.
  intros Hm [H1 H2]. destruct m as [|p|]; try lia. simpl.
  pose proof (digits2_bounds p) as [H3 H4].
  assert (0 <= d) by (destruct (Z.neg_nonneg_cases d); [rewrite (Z.pow_neg_r 2 d) in H2 by lia|]; lia).
  assert (Z.pos (digits2_pos p) - 1 < d) by (apply (Z.pow_lt_mono_r_iff 2); lia).
  assert (d - 1 < Z.pos (digits2_pos p)).
  { destruct (Z.eq_dec d 0) as [->|]; [lia|]. apply (Z.pow_lt_mono_r_iff 2); lia. }
  lia.
Qed.

Lemma Zdigits2_bounds m : 0 < m -> 0 < Zdigits2 m /\ 2 ^ (Zdigits2 m - 1) <= m < 2 ^ Zdigits2 m.
Proof. destruct m as [|p|]; try lia. intros _. split; [simpl; lia|apply digits2_bounds]. Qed.

(** ** Shifting with a round and a sticky bit *)

(** [mrs] is [m] shifted right by [j] places, with what was shifted out summed up by
    the two bits. *)
Definition shifted (m j : Z) (mrs : shr_record) : Prop :=
  exists rem, m = shr_m mrs * 2 ^ j + rem /\ 0 <= shr_m mrs /\ 0 <= rem < 2 ^ j /\
    match shr_r mrs, shr_s mrs with
    | false, false => rem = 0
    | false, true => 0 < 2 * rem < 2 ^ j
    | true, false => 2 * rem = 2 ^ j
    | true, true => 2 ^ j < 2 * rem
    end.

Lemma shr_1_shifted m j mrs : 0 <= j -> shifted m j mrs -> shifted m (j + 1) (shr_1 mrs).
Proof.
  intros Hj (rem & Hm & Hpos & Hrem & Hbits). destruct mrs as [q r s]. cbn [shr_m shr_r shr_s] in *.
  assert (Hq : exists b q' : Z, q = 2 * q' + b /\ 0 <= q' /\ (b = 0 \/ b = 1) /\
    shr_1 (Build_shr_record q r s) = Build_shr_record q' (b =? 1) (r || s)).
  { destruct q as [|[p|p|]|]; try lia.
    - exists 0, 0. by auto.
    - exists 1, (Z.pos p). split_and!; (done || lia || auto).
    - exists 0, (Z.pos p). split_and!; (done || lia || auto).
    - exists 1, 0. split_and!; (done || lia || auto). }
  destruct Hq as (b & q' & -> & Hq' & Hb & ->).
  exists (rem + b * 2 ^ j). simpl. rewrite Z.pow_add_r by lia. change (2 ^ 1) with 2.
  split; [lia|]. split; [done|].
  destruct Hb as [-> | ->]; simpl; destruct r, s; simpl; repeat split; try lia.
Qed.

Lemma iter_pos_shifted p m j mrs :
  0 <= j -> shifted m j mrs -> shifted m (j + Z.pos p) (SpecFloat.iter_pos shr_1 p mrs).
Proof.
  revert j mrs. induction p as [p IH|p IH|]; intros j mrs Hj H; simpl.
  - replace (j + Z.pos p~1) with (j + 1 + Z.pos p + Z.pos p) by lia.
    apply IH; [lia|]. apply IH; [lia|]. by apply shr_1_shifted.
  - replace (j + Z.pos p~0) with (j + Z.pos p + Z.pos p) by lia. apply IH; [lia|]. by apply IH.
  - by apply shr_1_shifted.
Qed.

(** Rounding what was shifted to the nearest integer. *)
Lemma round_shifted m j mrs :
  0 <= j -> shifted m j mrs ->
  let q := round_nearest_even (shr_m mrs) (loc_of_shr_record mrs) in
  2 * Z.abs (q * 2 ^ j - m) <= 2 ^ j /\ 0 <= q.
Proof.
  intros Hj (rem & Hm & Hpos & Hrem & Hbits). destruct mrs as [q r s]. simpl in *.
  destruct r, s; simpl; [| | |]; try (split; [lia|done]).
  - split; [|lia]. rewrite Z.mul_add_distr_r. lia.
  - case_match; (split; [|lia]); rewrite ?Z.mul_add_distr_r; lia.
Qed.

Lemma shifted_0 m : 0 <= m -> shifted m 0 (shr_record_of_loc m loc_Exact).
Proof. intros. exists 0. simpl. lia. Qed.

Lemma shr_spec m e n :
  0 <= m -> exists mrs, shr (shr_record_of_loc m loc_Exact) e n = (mrs, e + Z.max 0 n) /\ shifted m (Z.max 0 n) mrs.
Proof.
  intros Hm. destruct n as [|p|p]; simpl.
  - eexists. split; [by rewrite Z.add_0_r|]. by apply shifted_0.
  - eexists. split; [done|]. apply (iter_pos_shifted p m 0); [done|]. by apply shifted_0.
  - eexists. split; [by rewrite Z.add_0_r|]. by apply shifted_0.
Qed.

(** ** Rounding *)

(** The number of places a positive [m] at exponent [e] is shifted to fit 53 bits. *)
Definition places (m e : Z) : Z := Z.max 0 (fexp 53 1024 (Zdigits2 m + e) - e).

Lemma places_ge m e : 0 <= places m e /\ Zdigits2 m - 53 <= places m e /\ -1074 <= e + places m e.
Proof. unfold places, fexp, emin. lia. Qed.

Lemma shr_none q e : q = 0 \/ Zdigits2 q <= 53 -> -1074 <= e ->
  shr_fexp 53 1024 q e loc_Exact = (shr_record_of_loc q loc_Exact, e).
Proof.
  intros Hq He. unfold shr_fexp.
  assert (fexp 53 1024 (Zdigits2 q + e) - e <= 0).
  { unfold fexp, emin. destruct Hq as [->|]; [simpl Zdigits2|]; lia. }
  destruct (fexp _ _ _ - e); [done|lia|done].
Qed.

Lemma shr_carry e : -1074 <= e ->
  shr_fexp 53 1024 (2 ^ 53) e loc_Exact = (Build_shr_record (2 ^ 52) false false, e + 1).
Proof.
  intros. unfold shr_fexp. replace (fexp 53 1024 (Zdigits2 (2 ^ 53) + e) - e) with 1; [done|].
  change (Zdigits2 (2 ^ 53)) with 54. unfold fexp, emin. lia.
Qed.

(** The double nearest to [m * 2^e]: [q] units of [2^(e + places m e)], at most half a
    unit away. *)
Lemma round_spec m e : 0 < m -> e + places m e <= 970 ->
  exists q, 0 <= q <= 2 ^ 53 /\ 2 * Z.abs (q * 2 ^ places m e - m) <= 2 ^ places m e /\
    binary_round_aux 53 1024 false m e loc_Exact =
      (if q =? 0 then S754_zero false
       else if q =? 2 ^ 53 then S754_finite false (Z.to_pos (2 ^ 52)) (e + places m e + 1)
       else S754_finite false (Z.to_pos q) (e + places m e)).
Proof.
  intros Hm He. pose proof (places_ge m e) as (Hk0 & Hk1 & Hk2).
  pose proof (Zdigits2_bounds m Hm) as (Hd0 & Hd1 & Hd2).
  destruct (shr_spec m e (fexp 53 1024 (Zdigits2 m + e) - e) ltac:(lia)) as (mrs & Hshr & Hs).
  fold (places m e) in Hshr, Hs. pose proof (round_shifted _ _ _ Hk0 Hs) as [Hr Hq0].
  set (q := round_nearest_even _ _) in *. cbv zeta in Hr.
  assert (Hq : q <= 2 ^ 53).
  { assert (m < 2 ^ 53 * 2 ^ places m e).
    { rewrite <- Z.pow_add_r by lia. eapply Z.lt_le_trans; [exact Hd2|]. apply Z.pow_le_mono_r; lia. }
    destruct (Z.le_gt_cases q (2 ^ 53)); [done|].
    assert ((2 ^ 53 + 1) * 2 ^ places m e <= q * 2 ^ places m e) by (apply Z.mul_le_mono_nonneg_r; lia).
    pose proof (Z.pow_pos_nonneg 2 (places m e) ltac:(lia) Hk0). lia. }
  exists q. split; [lia|]. split; [done|]. unfold binary_round_aux.
  unfold shr_fexp at 1. rewrite Hshr. fold q.
  destruct (Z.eqb_spec q 0) as [Hz|Hz]; [|destruct (Z.eqb_spec q (2 ^ 53)) as [Hz2|Hz2]].
  - by rewrite Hz, shr_none by auto.
  - rewrite Hz2, shr_carry by done. cbn [shr_m]. change (2 ^ 52) with (Z.pos (Z.to_pos (2 ^ 52))) at 1.
    by rewrite (proj2 (Z.leb_le _ _)) by lia.
  - rewrite shr_none; [|right|done].
    + cbn [shr_record_of_loc shr_m]. destruct q; try lia. by rewrite (proj2 (Z.leb_le _ _)) by lia.
    + destruct (Zdigits2_bounds q ltac:(lia)) as (? & ? & _).
      assert (Zdigits2 q - 1 < 53) by (apply (Z.pow_lt_mono_r_iff 2); lia). lia.
Qed.

(** The integer part of [m * 2^e]. *)
Definition ufloor (m e : Z) : Z := if 0 <=? e then m * 2 ^ e else m / 2 ^ (- e).

Lemma ufloor_nonneg m e : 0 <= m -> 0 <= ufloor m e.
Proof. intros. unfold ufloor. case_match; [lia|]. zbool. apply Z.div_pos; [done|]. apply Z.pow_pos_nonneg; lia. Qed.

Lemma ufloor_double m e : ufloor m (e + 1) = ufloor (2 * m) e.
Proof.
  unfold ufloor. destruct (Z.leb_spec 0 (e + 1)), (Z.leb_spec 0 e); try lia.
  - rewrite Z.pow_add_r by lia. lia.
  - replace e with (-1) by lia. change (2 ^ (-1 + 1)) with 1. change (2 ^ (- -1)) with 2. divlia.
  - replace (- e) with (1 + - (e + 1)) by lia. rewrite Z.pow_add_r by lia. change (2 ^ 1) with 2.
    rewrite <- Z.div_div by lia. f_equal. divlia.
Qed.

Lemma ufloor_round m e : 0 < m -> e + places m e <= 970 ->
  exists q, 0 <= q <= 2 ^ 53 /\ 2 * Z.abs (q * 2 ^ places m e - m) <= 2 ^ places m e /\
    dfloor (binary_round_aux 53 1024 false m e loc_Exact) = Some (ufloor q (e + places m e)).
Proof.
  intros Hm He. destruct (round_spec m e Hm He) as (q & Hq & Hr & ->). exists q. split; [done|]. split; [done|].
  destruct (Z.eqb_spec q 0) as [->|]; [|destruct (Z.eqb_spec q (2 ^ 53)) as [->|]].
  - unfold ufloor. simpl. case_match; [by rewrite Z.mul_0_l|]. by rewrite Z.div_0_l by (apply Z.pow_nonzero; lia).
  - unfold dfloor. change (Z.pos (Z.to_pos (2 ^ 52))) with (2 ^ 52). by rewrite <- (ufloor_double (2 ^ 52)).
  - unfold dfloor. by rewrite Z2Pos.id by lia.
Qed.

(** ** Conversion of a 64-bit integer *)

Lemma iter_xO p n : Z.pos (Pos.iter xO p n) = Z.pos p * 2 ^ Z.pos n.
Proof.
  induction n as [|n IH] using Pos.peano_ind; [simpl; lia|].
  rewrite Pos.iter_succ, Pos2Z.inj_succ, Z.pow_succ_r by lia. lia.
Qed.

(** What a nonzero uint64 becomes: exact below 2^53, otherwise the nearest of the
    multiples of [2^k] where [k] bits do not fit. *)
Definition nearest (n md ed : Z) : Prop :=
  2 ^ 52 <= md < 2 ^ 53 /\ -52 <= ed <= 12 /\
  ((n < 2 ^ 53 /\ ed <= 0 /\ md = n * 2 ^ (- ed)) \/
   (exists k q, 1 <= k <= ed /\ 2 ^ (52 + k) <= n /\ md * 2 ^ ed = q * 2 ^ k /\ 2 * Z.abs (q * 2 ^ k - n) <= 2 ^ k)).
Lemma double_of_Z_small n : 0 < n < 2 ^ 53 ->
  exists ed, -52 <= ed <= 0 /\ 2 ^ 52 <= n * 2 ^ (- ed) < 2 ^ 53 /\
    double_of_Z n = S754_finite false (Z.to_pos (n * 2 ^ (- ed))) ed.
Proof.
  intros Hn. destruct n as [|p|]; try lia. unfold double_of_Z, binary_normalize, binary_round.
  pose proof (digits2_bounds p) as [Hd1 Hd2]. set (d := Z.pos (digits2_pos p)) in *.
  assert (Hd : 1 <= d <= 53).
  { split; [lia|]. assert (d - 1 < 53) by (apply (Z.pow_lt_mono_r_iff 2); lia). lia. }
  replace (fexp 53 1024 (d + 0)) with (d - 53) by (unfold fexp, emin; lia).
  assert (Hsh : shl_align p 0 (d - 53) = (Z.to_pos (Z.pos p * 2 ^ (53 - d)), d - 53)).
  { unfold shl_align. destruct (d - 53 - 0) as [|x|x] eqn:E; [|lia|].
    - replace (53 - d) with 0 by lia. rewrite Z.mul_1_r. f_equal. lia.
    - f_equal. apply Pos2Z.inj. rewrite iter_xO, Z2Pos.id by (apply Z.mul_pos_pos; lia). by replace (53 - d) with (Z.pos x) by lia. }
  rewrite Hsh.
  assert (Hm : 2 ^ 52 <= Z.pos p * 2 ^ (53 - d) < 2 ^ 53).
  { replace (2 ^ 52) with (2 ^ (d - 1) * 2 ^ (53 - d)) by (rewrite <- Z.pow_add_r by lia; f_equal; lia).
    replace (2 ^ 53) with (2 ^ d * 2 ^ (53 - d)) by (rewrite <- Z.pow_add_r by lia; f_equal; lia).
    split; [apply Z.mul_le_mono_nonneg_r|apply Z.mul_lt_mono_pos_r; [lia|]]; lia. }
  exists (d - 53). replace (- (d - 53)) with (53 - d) by lia. split; [lia|]. split; [done|].
  set (m := Z.pos p * 2 ^ (53 - d)) in *.
  assert (Hpl : places m (d - 53) = 0).
  { unfold places. rewrite (digits2_unique m 53) by lia. unfold fexp, emin. lia. }
  rewrite Z2Pos.id by lia. destruct (round_spec m (d - 53) ltac:(lia) ltac:(lia)) as (q & Hq & Hr & ->).
  rewrite Hpl in *. change (2 ^ 0) with 1 in Hr. assert (q = m) as -> by lia.
  rewrite Z.add_0_r. by rewrite (proj2 (Z.eqb_neq m 0)), (proj2 (Z.eqb_neq m (2 ^ 53))) by lia.
Qed.

Lemma double_of_Z_large n : 2 ^ 53 <= n < 2 ^ 64 ->
  exists md ed k q, 2 ^ 52 <= md < 2 ^ 53 /\ ed <= 12 /\ 1 <= k <= ed /\ 2 ^ (52 + k) <= n /\
    md * 2 ^ ed = q * 2 ^ k /\ 2 * Z.abs (q * 2 ^ k - n) <= 2 ^ k /\
    double_of_Z n = S754_finite false (Z.to_pos md) ed.
Proof.
  intros Hn. destruct n as [|p|]; try lia. unfold double_of_Z, binary_normalize, binary_round.
  pose proof (digits2_bounds p) as [Hd1 Hd2]. set (d := Z.pos (digits2_pos p)) in *.
  assert (Hd : 54 <= d <= 64).
  { split; [assert (53 < d) by (apply (Z.pow_lt_mono_r_iff 2); lia)|assert (d - 1 < 64) by (apply (Z.pow_lt_mono_r_iff 2); lia)]; lia. }
  replace (fexp 53 1024 (d + 0)) with (d - 53) by (unfold fexp, emin; lia).
  unfold shl_align. rewrite Z.sub_0_r. destruct (d - 53) as [|k|] eqn:Ek; try lia.
  assert (Hpl : places (Z.pos p) 0 = d - 53) by (unfold places, fexp, emin; simpl Zdigits2; lia).
  destruct (round_spec (Z.pos p) 0 ltac:(lia) ltac:(lia)) as (q & Hq & Hr & ->). rewrite Hpl, Z.add_0_l, Ek in *.
  assert (H52 : 2 ^ (d - 1) = 2 ^ 52 * 2 ^ Z.pos k) by (rewrite <- Z.pow_add_r by lia; f_equal; lia).
  assert (2 ^ 52 <= q).
  { pose proof (Z.pow_pos_nonneg 2 (Z.pos k) ltac:(lia) ltac:(lia)).
    destruct (Z.le_gt_cases (2 ^ 52) q); [done|].
    assert (q * 2 ^ Z.pos k <= (2 ^ 52 - 1) * 2 ^ Z.pos k) by (apply Z.mul_le_mono_nonneg_r; lia). lia. }
  assert (2 ^ (52 + Z.pos k) <= Z.pos p) by (rewrite Z.pow_add_r by lia; lia).
  rewrite (proj2 (Z.eqb_neq q 0)) by lia. destruct (Z.eqb_spec q (2 ^ 53)) as [->|].
  - exists (2 ^ 52), (Z.pos k + 1), (Z.pos k), (2 ^ 53). split_and!; try lia; try done.
    rewrite (Z.pow_add_r 2 (Z.pos k) 1) by lia. lia.
  - exists q, (Z.pos k), (Z.pos k), q. split_and!; try lia; done.
Qed.

Lemma double_of_Z_nearest n : 0 < n < 2 ^ 64 ->
  exists md ed, nearest n md ed /\ double_of_Z n = S754_finite false (Z.to_pos md) ed.
Proof.
  intros Hn. destruct (Z.lt_ge_cases n (2 ^ 53)) as [H|H].
  - destruct (double_of_Z_small n ltac:(lia)) as (ed & He & Hm & ->).
    eexists _, ed. split; [|done]. split; [done|]. split; [lia|]. left. split_and!; (lia || done).
  - destruct (double_of_Z_large n ltac:(lia)) as (md & ed & k & q & ? & ? & ? & ? & ? & ? & ->).
    exists md, ed. split; [|done]. split; [done|]. split; [lia|]. right. by exists k, q.
Qed.

(** ** The cutoff *)

(** A fraction is at most 1 - 2^-53. *)
Lemma fraction_bound m e : is_fraction (S754_finite false m e) ->
  -1074 <= e < 0 /\ Z.pos m < 2 ^ 53 /\ Z.pos m * 2 ^ 53 <= 2 ^ (- e) * (2 ^ 53 - 1).
Proof.
  intros (_ & Hb & Hlt). apply andb_true_iff in Hb as [Hc _]. apply Z.eqb_eq in Hc.
  unfold fexp, emin in Hc. pose proof (digits2_bounds m) as [_ Hd].
  set (d := Z.pos (digits2_pos m)) in *. assert (1 <= d) by lia.
  assert (Hd53 : d <= 53) by lia. split; [lia|].
  assert (Hm : Z.pos m <= 2 ^ d - 1) by lia.
  assert (2 ^ d <= 2 ^ (- e)) by (apply Z.pow_le_mono_r; lia).
  assert (2 ^ d <= 2 ^ 53) by (apply Z.pow_le_mono_r; lia). split; [lia|].
  destruct (Z.eq_dec (- e) d) as [E|].
  - assert (d = 53 \/ e = -1074) as [E'| ->] by lia; [rewrite E, E' in *; lia|lia].
  - assert (2 * 2 ^ d <= 2 ^ (- e)); [|lia].
    replace (2 * 2 ^ d) with (2 ^ (d + 1)) by (rewrite Z.pow_add_r by lia; lia). apply Z.pow_le_mono_r; lia.
Qed.

(** The rounded product stays below the first factor. *)
Lemma product_below md ed mr er q :
  2 ^ 52 <= md < 2 ^ 53 -> -52 <= ed -> -1074 <= er < 0 -> 0 < mr -> mr * 2 ^ 53 <= 2 ^ (- er) * (2 ^ 53 - 1) ->
  let k := places (md * mr) (ed + er) in
  2 * Z.abs (q * 2 ^ k - md * mr) <= 2 ^ k -> q * 2 ^ k < md * 2 ^ (- er).
Proof.
  intros Hmd Hed Her Hmr Hlt k Hq.
  assert (HP : 0 < md * mr) by lia. pose proof (Zdigits2_bounds (md * mr) HP) as (Hd0 & Hd & _).
  assert (HPD : md * mr * 2 ^ 53 <= md * 2 ^ (- er) * (2 ^ 53 - 1)) by nia.
  assert (HD : 2 ^ 52 * 2 ^ (- er) <= md * 2 ^ (- er)) by (apply Z.mul_le_mono_nonneg_r; lia).
  pose proof (Z.pow_pos_nonneg 2 (- er) ltac:(lia) ltac:(lia)).
  set (P := md * mr) in *. set (D := md * 2 ^ (- er)) in *.
  assert (Hk : k = 0 \/ k = Zdigits2 P - 53 \/ k = -1074 - (ed + er)) by (unfold k, places, fexp, emin; lia).
  pose proof (proj1 (places_ge P (ed + er))) as Hk0. fold k in Hk0.
  destruct (Z.eq_dec k 0) as [E|Hkpos]; [rewrite E in *; change (2 ^ 0) with 1 in *; lia|].
  destruct Hk as [|[Hk|Hk]]; [lia| |].
  - assert (2 ^ 52 * 2 ^ k <= P).
    { rewrite <- Z.pow_add_r by lia. eapply Z.le_trans; [|exact Hd]. apply Z.pow_le_mono_r; lia. }
    lia.
  - assert (2 * 2 ^ k <= 2 ^ (- er)); [|lia].
    replace (2 * 2 ^ k) with (2 ^ (k + 1)) by (rewrite Z.pow_add_r by lia; lia). apply Z.pow_le_mono_r; lia.
Qed.

Lemma floor_below_small n ed er k q :
  ed <= 0 -> er < 0 -> 0 <= k -> q * 2 ^ k < n * 2 ^ (- ed) * 2 ^ (- er) -> ufloor q (ed + er + k) < n.
Proof.
  intros Hed Her Hk Hq. rewrite <- Z.mul_assoc, <- Z.pow_add_r in Hq by lia. unfold ufloor.
  destruct (Z.leb_spec 0 (ed + er + k)) as [HX|HX].
  - replace k with (ed + er + k + (- ed + - er)) in Hq by lia. rewrite Z.pow_add_r in Hq by lia.
    pose proof (Z.pow_pos_nonneg 2 (- ed + - er) ltac:(lia) ltac:(lia)). nia.
  - apply Z.div_lt_upper_bound; [apply Z.pow_pos_nonneg; lia|].
    replace (- ed + - er) with (- (ed + er + k) + k) in Hq by lia. rewrite Z.pow_add_r in Hq by lia.
    pose proof (Z.pow_pos_nonneg 2 k ltac:(lia) ltac:(lia)). nia.
Qed.

Lemma floor_below_large n md ed er k q k' q' :
  2 ^ 53 <= n -> 1 <= k' <= ed -> er < 0 -> 0 <= k -> 0 <= q <= 2 ^ 53 -> q * 2 ^ k < md * 2 ^ (- er) ->
  2 ^ (52 + k') <= n -> md * 2 ^ ed = q' * 2 ^ k' -> 2 * Z.abs (q' * 2 ^ k' - n) <= 2 ^ k' ->
  ufloor q (ed + er + k) < n.
Proof.
  intros Hn Hk' Her Hk Hq Hlt Hn2 Hd Hnear. unfold ufloor.
  destruct (Z.leb_spec 0 (ed + er + k)) as [HX|HX].
  2:{ eapply Z.le_lt_trans; [apply Z.div_le_upper_bound with (q := 2 ^ 52)|lia]; [apply Z.pow_pos_nonneg; lia|].
      pose proof (Z.pow_le_mono_r 2 1 (- (ed + er + k)) ltac:(lia) ltac:(lia)). lia. }
  set (X := ed + er + k) in *. destruct (Z.lt_ge_cases (q * 2 ^ X) n) as [|Hge]; [done|exfalso].
  assert (Hv : q * 2 ^ X < q' * 2 ^ k').
  { rewrite <- Hd. apply (Z.mul_lt_mono_pos_r (2 ^ (- er))); [apply Z.pow_pos_nonneg; lia|].
    rewrite <- !Z.mul_assoc, <- Z.pow_add_r by lia. replace (X + - er) with (k + ed) by lia.
    rewrite Z.pow_add_r, Z.mul_assoc, (Z.mul_comm (2 ^ ed)), Z.mul_assoc by lia.
    apply Z.mul_lt_mono_pos_r; [apply Z.pow_pos_nonneg|]; lia. }
  assert (Hc : exists c, q * 2 ^ X = c * 2 ^ k').
  { destruct (Z.le_gt_cases k' X).
    - exists (q * 2 ^ (X - k')). rewrite <- Z.mul_assoc, <- Z.pow_add_r by lia. do 2 f_equal. lia.
    - exists (2 ^ 52). assert (X = k' - 1 /\ q = 2 ^ 53) as [-> ->].
      { assert (2 ^ (52 + k') <= 2 ^ (53 + X)) as HH%Z.pow_le_mono_r_iff; try lia.
        { rewrite (Z.pow_add_r 2 53 X) by lia. pose proof (Z.pow_pos_nonneg 2 X ltac:(lia) HX). nia. }
        assert (X = k' - 1) as HX' by lia. split; [done|]. rewrite HX' in Hge.
        replace (52 + k') with (53 + (k' - 1)) in Hn2 by lia. rewrite Z.pow_add_r in Hn2 by lia.
        pose proof (Z.pow_pos_nonneg 2 (k' - 1) ltac:(lia) ltac:(lia)). nia. }
      rewrite <- !Z.pow_add_r by lia. f_equal. lia. }
  destruct Hc as [c Hc]. rewrite Hc in *. pose proof (Z.pow_pos_nonneg 2 k' ltac:(lia) ltac:(lia)) as Hp.
  apply Z.mul_lt_mono_pos_r in Hv; [|done].
  assert (c * 2 ^ k' <= (q' - 1) * 2 ^ k') by (apply Z.mul_le_mono_nonneg_r; lia). lia.
Qed.

(** The cutoff of a random number in [0, 1) lies within the weight it scales, for every
    64-bit weight: rounding of the weight and of the product never reaches it. *)
Lemma floor_mul_range bound n r :
  0 < n < 2 ^ 64 -> n <= bound -> is_fraction r -> exists c, floor_mul bound n r = Some c /\ 0 <= c < n.
Proof.
  intros Hn Hb Hr. unfold floor_mul, dmul.
  assert (exists c, dfloor (SFmul 53 1024 (double_of_Z n) r) = Some c /\ 0 <= c < n) as (c & -> & Hc).
  { destruct (double_of_Z_nearest n Hn) as (md & ed & (Hmd & Hed & Hnear) & ->).
    destruct r as [s| | |s mr er]; try done; [exists 0; simpl; split; [done|lia]|].
    destruct Hr as [-> Hr]. pose proof (fraction_bound mr er (conj eq_refl Hr)) as (Her & Hmr53 & Hmr).
    simpl SFmul. rewrite Pos2Z.inj_mul, Z2Pos.id by lia. set (k := places (md * Z.pos mr) (ed + er)).
    destruct (ufloor_round (md * Z.pos mr) (ed + er)) as (q & Hq & Hr' & ->); [lia| |].
    { unfold places, fexp, emin. assert (Zdigits2 (md * Z.pos mr) - 1 < 106); [|lia].
      apply (Z.pow_lt_mono_r_iff 2); [lia|lia|]. destruct (Zdigits2_bounds (md * Z.pos mr)) as (_ & ? & _); [lia|].
      change (2 ^ 106) with (2 ^ 53 * 2 ^ 53). nia. }
    fold k in Hr' |- *. pose proof (product_below md ed (Z.pos mr) er q Hmd ltac:(lia) Her ltac:(lia) Hmr Hr') as Hlt.
    fold k in Hlt. exists (ufloor q (ed + er + k)). split; [done|]. split; [apply ufloor_nonneg; lia|].
    pose proof (proj1 (places_ge (md * Z.pos mr) (ed + er))) as Hk. fold k in Hk.
    destruct Hnear as [(? & ? & ->)|(k' & q' & ? & ? & ? & ?)].
    - apply floor_below_small; lia.
    - eapply (floor_below_large n md ed er k q k' q'); try done; try lia.
      eapply Z.le_trans; [|eassumption]. apply Z.pow_le_mono_r; lia. }
  rewrite (proj2 (Z.leb_le _ _)), (proj2 (Z.ltb_lt _ _)) by lia. by exists c.
Qed.

(** The fraction 1/2. *)
Definition half : double := S754_finite false 4503599627370496 (-53).

Lemma half_fraction : is_fraction half.
Proof. by repeat split. Qed.

Example half_of_ten : floor_mul_u64 10 half = Some 5.
Proof. reflexivity. Qed.

End Double.
