(* ===== verification/Walker.v ===== *)
(** * Walker's alias structure (include/utils/walker.h, backend/utils/walker.c)

    The N weights are spread over N buckets of (almost) equal size: S / N each, and one
    more for the first S % N buckets.  Bucket [i] holds [cutoffs[i]] units of item [i]
    and fills up with units of one other item, [aliases[i]].  A number below S picks a
    bucket and a unit in it.  fast sampling (abtsearch.c) picks the subtree to sample
    from this way.

    Arrays are lists; [None] stands for an access outside an array and a division by
    zero.  The construction reuses one scratch array for two stacks: items that do not
    fill their bucket from the bottom, items that overfill it from the top. *)

From stdpp Require Import base numbers option sorting sets list.
From S2P Require Import Prelude Double.

Module Walker.
Import Double.

Record aqp_alias_u64 := mk_alias {
  cutoffs : list Z;
  aliases : list Z;
  Q : Z;
  R : Z;
  N : Z
}.

Definition aqp_get_bucket_weight (Q R : Z) (i : nat) : Z := if Z.of_nat i <? R then u64 (Q + 1) else Q.

(** The value memset leaves in every entry of aliases. *)
Definition no_alias : Z := 0xffffffff.

Fixpoint sum_weights (S : Z) (weights : list Z) : Z :=
  match weights with [] => S | w :: ws => sum_weights (u64 (S + w)) ws end.

(** The first loop: put every item that does not fit its bucket exactly on one of the
    two stacks.  The local variable [w] is 32 bits wide. *)
Fixpoint classify (Q R : Z) (i : nat) (weights : list Z) (remitems : list nat) (pi ni : nat)
  : option (list nat * nat * nat) :=
  match weights with
  | [] => Some (remitems, pi, ni)
  | x :: ws =>
      let w := u32 (aqp_get_bucket_weight Q R i) in
      if x <? w then
        if (pi <? length remitems)%nat then classify Q R (S i) ws (<[pi := i]> remitems) (S pi) ni else None
      else if w <? x then
        match ni with
        | O => None
        | S ni' => classify Q R (S i) ws (<[ni' := i]> remitems) pi ni'
        end
      else classify Q R (S i) ws remitems pi ni
  end.

(** The second loop: fill the bucket of the underfull item on top with units of the
    overfull one. *)
Fixpoint fill (fuel : nat) (Q R : Z) (weights aliases : list Z) (remitems : list nat) (pi ni : nat)
  : option (list Z * list Z) :=
  match fuel with
  | O => None
  | S fuel =>
      match pi with
      | O => Some (weights, aliases)
      | S pi' =>
          i ← remitems !! pi';
          j ← remitems !! ni;
          wi ← weights !! i;
          wj ← weights !! j;
          let w := u32 (aqp_get_bucket_weight Q R i) in
          let w2 := u32 (aqp_get_bucket_weight Q R j) in
          let w := u32 (w - wi) in
          let aliases := <[i := Z.of_nat j]> aliases in
          let wj := u64 (wj - w) in
          let weights := <[j := wj]> weights in
          if wj <? w2 then fill fuel Q R weights aliases (<[pi' := j]> remitems) (S pi') (S ni)
          else if wj =? w2 then fill fuel Q R weights aliases remitems pi' (S ni)
          else fill fuel Q R weights aliases remitems pi' ni
      end
  end.

Definition aqp_alias_u64_create (weights : list Z) : option aqp_alias_u64 :=
  let N := length weights in
  let S := sum_weights 0 weights in
  if (N =? 0)%nat then None
  else
    let Q := S / Z.of_nat N in
    let R := u32 (S mod Z.of_nat N) in
    '(remitems, pi, ni) ← classify Q R 0 weights (replicate N 0%nat) 0 N;
    '(weights, aliases) ← fill (2 * N + 1) Q R weights (replicate N no_alias) remitems pi ni;
    Some (mk_alias weights aliases Q R (Z.of_nat N)).

Definition aqp_alias_u64_get_sum_weights (alias : aqp_alias_u64) : Z := u64 (R alias + u64 (Q alias * N alias)).

Definition aqp_alias_u64_sample_unif_u64 (alias : aqp_alias_u64) (x : Z) : option Z :=
  '(i, r) ←
    (if x <? R alias then Some (x, u64 (Q alias + 1))
     else if Q alias =? 0 then None
     else Some (u64 (x - R alias) / Q alias, u64 (x - R alias) mod Q alias));
  c ← cutoffs alias !! Z.to_nat i;
  if c <? r then aliases alias !! Z.to_nat i else Some (u32 i).

Definition aqp_alias_u64_sample_unif_real (alias : aqp_alias_u64) (r : double) : option Z :=
  let S := aqp_alias_u64_get_sum_weights alias in
  x ← floor_mul_u64 S r;
  aqp_alias_u64_sample_unif_u64 alias (if x =? S then u64 (x - 1) else x).

Example create_3 : aqp_alias_u64_create [5; 1; 3] = Some (mk_alias [3; 1; 3] [no_alias; 0; no_alias] 3 0 3).
Proof. reflexivity. Qed.

Example create_4 : aqp_alias_u64_create [7; 0; 2; 1] = Some (mk_alias [3; 0; 2; 1] [no_alias; 0; no_alias; 0] 2 2 4).
Proof. reflexivity. Qed.

(** ** Sums over the items *)

Definition sumN (n : nat) (f : nat -> Z) : Z := sumZ (f <$> seq 0 n).

Lemma sumN_S n f : sumN (S n) f = sumN n f + f n.
Proof. unfold sumN. rewrite seq_S, fmap_app, sumZ_app. simpl. lia. Qed.

Lemma sumN_ext n f g : (forall i, (i < n)%nat -> f i = g i) -> sumN n f = sumN n g.
Proof.
  induction n as [|n IH]; intros H; [done|]. rewrite !sumN_S, IH by (intros; apply H; lia).
  f_equal. apply H. lia.
Qed.

Lemma sumN_add n f g : sumN n (fun i => f i + g i) = sumN n f + sumN n g.
Proof. induction n as [|n IH]; [done|]. rewrite !sumN_S, IH. lia. Qed.

Lemma sumN_0 n : sumN n (fun _ => 0) = 0.
Proof. induction n as [|n IH]; [done|]. rewrite sumN_S, IH. lia. Qed.

Lemma sumN_single n i d : (i < n)%nat -> sumN n (fun k => if decide (k = i) then d else 0) = d.
Proof.
  induction n as [|n IH]; intros Hi; [lia|]. rewrite sumN_S. destruct (decide (n = i)) as [->|].
  - rewrite (sumN_ext _ _ (fun _ => 0)), sumN_0; [lia|]. intros. by rewrite decide_False by lia.
  - rewrite IH by lia. lia.
Qed.

Lemma sumN_nonneg n f : (forall i, (i < n)%nat -> 0 <= f i) -> 0 <= sumN n f.
Proof. induction n as [|n IH]; intros H; [done|]. rewrite sumN_S. specialize (IH ltac:(intros; apply H; lia)). specialize (H n). lia. Qed.

Lemma sumN_neg n f i : (forall j, (j < n)%nat -> f j <= 0) -> (i < n)%nat -> sumN n f <= f i.
Proof.
  induction n as [|n IH]; intros H Hi; [lia|]. rewrite sumN_S. destruct (decide (i = n)) as [->|].
  - assert (0 <= sumN n (fun j => - f j)) as Hn by (apply sumN_nonneg; intros j Hj; specialize (H j); lia).
    assert (sumN n (fun j => - f j + f j) = 0) as H0 by (rewrite (sumN_ext _ _ (fun _ => 0)), sumN_0; [done|]; lia).
    rewrite sumN_add in H0. lia.
  - specialize (IH ltac:(intros; apply H; lia) ltac:(lia)). specialize (H n). lia.
Qed.

(** A sum that is zero and has a negative term has a positive one. *)
Lemma sumN_balance n f i : sumN n f = 0 -> (i < n)%nat -> f i < 0 -> exists j, (j < n)%nat /\ 0 < f j.
Proof.
  intros H0 Hi Hneg. destruct (decide (Exists (fun j => 0 < f j) (seq 0 n))) as [Hex|Hno].
  - apply Exists_exists in Hex as (j & Hj%elem_of_seq & ?). exists j. auto with lia.
  - assert (sumN n f <= f i); [|lia]. apply sumN_neg; [|done]. intros j Hj. apply Z.nlt_ge. intros Hp.
    apply Hno, Exists_exists. exists j. split; [apply elem_of_seq; lia|done].
Qed.

Lemma sumN_lookup W : sumN (length W) (fun i => W !!! i) = sumZ W.
Proof.
  induction W as [|x W IH] using rev_ind; [done|]. rewrite length_app, Nat.add_1_r, sumN_S, sumZ_app. simpl.
  rewrite lookup_total_app_r, Nat.sub_diag by lia. rewrite (sumN_ext _ _ (fun i => W !!! i)), IH; [simpl; lia|].
  intros i Hi. by rewrite lookup_total_app_l.
Qed.

Lemma sum_weights_eq acc ws :
  0 <= acc -> Forall (fun w => 0 <= w) ws -> acc + sumZ ws < 2 ^ 64 -> sum_weights acc ws = acc + sumZ ws.
Proof.
  revert acc. induction ws as [|w ws IH]; intros acc Hacc Hws Hlt; simpl in *; [lia|].
  apply Forall_cons in Hws as [Hw Hws].
  assert (0 <= sumZ ws) by (clear -Hws; induction Hws; simpl; lia).
  rewrite u64_small by lia. rewrite IH by (done || lia). lia.
Qed.

(** ** The two stacks *)

Section Stacks.
Context (b : nat -> Z).

Fixpoint unders (i : nat) (ws : list Z) : list nat :=
  match ws with [] => [] | x :: ws => (if x <? b i then [i] else []) ++ unders (S i) ws end.
Fixpoint overs (i : nat) (ws : list Z) : list nat :=
  match ws with [] => [] | x :: ws => (if b i <? x then [i] else []) ++ overs (S i) ws end.

Lemma elem_of_unders i ws k : k ∈ unders i ws <-> (i <= k < i + length ws)%nat /\ ws !!! (k - i)%nat < b k.
Proof.
  revert i. induction ws as [|x ws IH]; intros i; simpl; [set_solver by lia|]. rewrite elem_of_app, IH.
  destruct (decide (k = i)) as [->|].
  - rewrite Nat.sub_diag. simpl. destruct (Z.ltb_spec x (b i)); set_solver by lia.
  - destruct (decide (i <= k)%nat).
    + replace (k - i)%nat with (S (k - S i)) by lia. simpl. case_match; set_solver by lia.
    + case_match; set_solver by lia.
Qed.

Lemma elem_of_overs i ws k : k ∈ overs i ws <-> (i <= k < i + length ws)%nat /\ b k < ws !!! (k - i)%nat.
Proof.
  revert i. induction ws as [|x ws IH]; intros i; simpl; [set_solver by lia|]. rewrite elem_of_app, IH.
  destruct (decide (k = i)) as [->|].
  - rewrite Nat.sub_diag. simpl. destruct (Z.ltb_spec (b i) x); set_solver by lia.
  - destruct (decide (i <= k)%nat).
    + replace (k - i)%nat with (S (k - S i)) by lia. simpl. case_match; set_solver by lia.
    + case_match; set_solver by lia.
Qed.

Lemma NoDup_unders i ws : NoDup (unders i ws).
Proof.
  revert i. induction ws as [|x ws IH]; intros i; simpl; [constructor|]. case_match; simpl; [|apply IH].
  constructor; [|apply IH]. rewrite elem_of_unders. lia.
Qed.

Lemma NoDup_overs i ws : NoDup (overs i ws).
Proof.
  revert i. induction ws as [|x ws IH]; intros i; simpl; [constructor|]. case_match; simpl; [|apply IH].
  constructor; [|apply IH]. rewrite elem_of_overs. lia.
Qed.

End Stacks.

Lemma take_S_insert {A} (l : list A) (k : nat) x : (k < length l)%nat -> take (S k) (<[k := x]> l) = take k l ++ [x].
Proof. intros. rewrite (take_S_r _ _ x) by (by apply list_lookup_insert_eq). by rewrite take_insert_ge by lia. Qed.

Lemma drop_insert_here {A} (l : list A) (k : nat) x : (k < length l)%nat -> drop k (<[k := x]> l) = x :: drop (S k) l.
Proof.
  intros. rewrite (drop_S _ x) by (by apply list_lookup_insert_eq). f_equal. by rewrite drop_insert_lt by lia.
Qed.

Lemma classify_spec Q R b i ws rem pi ni :
  (forall k, u32 (aqp_get_bucket_weight Q R k) = b k) ->
  (pi + length ws <= ni)%nat -> (ni <= length rem)%nat ->
  exists rem' pi' ni', classify Q R i ws rem pi ni = Some (rem', pi', ni') /\ length rem' = length rem /\
    (pi' <= ni' <= length rem)%nat /\
    take pi' rem' = take pi rem ++ unders b i ws /\ drop ni' rem' = rev (overs b i ws) ++ drop ni rem.
Proof.
  intros Hb. revert i rem pi ni. induction ws as [|x ws IH]; intros i rem pi ni Hpi Hni; simpl in *.
  { eexists _, _, _. split; [done|]. rewrite app_nil_r. auto with lia. }
  rewrite Hb. destruct (Z.ltb_spec x (b i)) as [Hlt|Hge].
  - rewrite (proj2 (Nat.ltb_lt _ _)) by lia. rewrite (proj2 (Z.ltb_ge _ _)) by lia.
    destruct (IH (S i) (<[pi := i]> rem) (S pi) ni) as (rem' & pi' & ni' & -> & Hlen & Hle & Ht & Hd);
      rewrite ?length_insert; [lia|lia|].
    rewrite length_insert in *. exists rem', pi', ni'. do 3 (split; [done|]).
    rewrite Ht, Hd, take_S_insert, <- app_assoc, drop_insert_lt by lia. done.
  - destruct (Z.ltb_spec (b i) x) as [Hlt|Hge'].
    + destruct ni as [|ni]; [lia|].
      destruct (IH (S i) (<[ni := i]> rem) pi ni) as (rem' & pi' & ni' & -> & Hlen & Hle & Ht & Hd);
        rewrite ?length_insert; [lia|lia|].
      rewrite length_insert in *. exists rem', pi', ni'. do 3 (split; [done|]).
      rewrite Ht, Hd, drop_insert_here, take_insert_ge by lia. simpl. by rewrite <- app_assoc.
    + destruct (IH (S i) rem pi ni) as (rem' & pi' & ni' & -> & Hlen & Hle & Ht & Hd); [lia|lia|].
      by exists rem', pi', ni'.
Qed.

(** ** Filling the buckets *)

Section Fill.
Context (n : nat) (q r : Z) (W : list Z).

Definition bucket (i : nat) : Z := if Z.of_nat i <? r then q + 1 else q.

(** The units of item [k] that lie in other items' buckets. *)
Definition lent (c a : list Z) (k : nat) : Z :=
  sumN n (fun i => if a !!! i =? Z.of_nat k then bucket i - c !!! i else 0).

(** Cutoffs [c] and aliases [a] describe the distribution [W]: every unit of every item
    is in a bucket, no bucket holds more than it can, and an alias is an item. *)
Record alias_table (c a : list Z) : Prop := {
  at_len_c : length c = n;
  at_len_a : length a = n;
  at_range : forall i, (i < n)%nat -> 0 <= c !!! i <= W !!! i;
  at_set : forall i, (i < n)%nat -> a !!! i <> no_alias ->
    c !!! i < bucket i /\ exists j, (j < n)%nat /\ a !!! i = Z.of_nat j;
  at_mass : forall k, (k < n)%nat -> W !!! k = c !!! k + lent c a k
}.

(** The state of the second loop: [U] the underfull and [O] the overfull items. *)
Record filling (c a : list Z) (U O : list nat) : Prop := {
  fl_table : alias_table c a;
  fl_under : forall i, i ∈ U <-> (i < n)%nat /\ a !!! i = no_alias /\ c !!! i < bucket i;
  fl_over : forall i, i ∈ O <-> (i < n)%nat /\ a !!! i = no_alias /\ bucket i < c !!! i;
  fl_nodup_under : NoDup U;
  fl_nodup_over : NoDup O;
  fl_balance : sumN n (fun i => if a !!! i =? no_alias then c !!! i - bucket i else 0) = 0
}.

Context (Hn : Z.of_nat n < 2 ^ 32 - 1) (Hq : 0 <= q < 2 ^ 32 - 1).

Lemma bucket_range i : q <= bucket i <= q + 1.
Proof. unfold bucket. case_match; lia. Qed.

Lemma no_alias_item k : (k < n)%nat -> Z.of_nat k <> no_alias.
Proof. unfold no_alias. lia. Qed.

(** Moving [d] units of item [j] into the bucket of item [i]. *)
Lemma lent_step c a i j k : length c = n -> length a = n -> (i < n)%nat -> (j < n)%nat -> (k < n)%nat -> i <> j ->
  a !!! i = no_alias -> a !!! j = no_alias ->
  let d := bucket i - c !!! i in
  lent (<[j := c !!! j - d]> c) (<[i := Z.of_nat j]> a) k = lent c a k + (if decide (k = j) then d else 0).
Proof.
  intros Hc Ha Hi Hj Hk Hij Hai Haj d. unfold lent.
  rewrite <- (sumN_single n i (if decide (k = j) then d else 0)) by done. rewrite <- sumN_add.
  apply sumN_ext. intros t Ht. pose proof (no_alias_item k Hk). destruct (decide (t = i)) as [->|].
  - rewrite list_lookup_total_insert_eq, list_lookup_total_insert_ne, Hai by (congruence || lia).
    rewrite (proj2 (Z.eqb_neq no_alias _)) by congruence. destruct (decide (k = j)) as [->|].
    + rewrite Z.eqb_refl. unfold d. lia.
    + rewrite (proj2 (Z.eqb_neq _ _)) by lia. lia.
  - rewrite (list_lookup_total_insert_ne a) by congruence. destruct (decide (t = j)) as [->|].
    + rewrite Haj, (proj2 (Z.eqb_neq no_alias _)) by congruence. lia.
    + rewrite list_lookup_total_insert_ne by congruence. lia.
Qed.

Lemma balance_step c a i j : length c = n -> length a = n -> (i < n)%nat -> (j < n)%nat -> i <> j ->
  a !!! i = no_alias -> a !!! j = no_alias ->
  let d := bucket i - c !!! i in
  sumN n (fun t => if <[i := Z.of_nat j]> a !!! t =? no_alias then <[j := c !!! j - d]> c !!! t - bucket t else 0)
  = sumN n (fun t => if a !!! t =? no_alias then c !!! t - bucket t else 0).
Proof.
  intros Hc Ha Hi Hj Hij Hai Haj d.
  transitivity (sumN n (fun t => if a !!! t =? no_alias then c !!! t - bucket t else 0) +
    (sumN n (fun t => if decide (t = i) then d else 0) + sumN n (fun t => if decide (t = j) then - d else 0)));
    [|rewrite !sumN_single by done; lia].
  rewrite <- !sumN_add. apply sumN_ext. intros t Ht. pose proof (no_alias_item j Hj).
  destruct (decide (t = i)) as [->|].
  - rewrite list_lookup_total_insert_eq, Hai, decide_False, Z.eqb_refl by (done || lia).
    rewrite (proj2 (Z.eqb_neq _ _)) by done. unfold d. lia.
  - rewrite (list_lookup_total_insert_ne a) by done. destruct (decide (t = j)) as [->|].
    + rewrite Haj, list_lookup_total_insert_eq, Z.eqb_refl by lia. lia.
    + rewrite list_lookup_total_insert_ne by done. lia.
Qed.

Section Step.
Context (c a : list Z) (U O : list nat) (i j : nat) (Hf : filling c a (U ++ [i]) (j :: O)).

Definition deficit : Z := bucket i - c !!! i.

Lemma step_facts : (i < n)%nat /\ (j < n)%nat /\ i <> j /\ a !!! i = no_alias /\ a !!! j = no_alias /\
  c !!! i < bucket i /\ bucket j < c !!! j /\ i ∉ U /\ j ∉ U /\ j ∉ O /\ i ∉ O /\ 0 < deficit <= c !!! j.
Proof.
  destruct Hf as [Ht Hu Ho Hnu Hno _].
  destruct (proj1 (Hu i)) as (Hi & Hai & Hci); [set_solver|].
  destruct (proj1 (Ho j)) as (Hj & Haj & Hcj); [set_solver|].
  assert (i <> j) by (intros ->; lia).
  assert (j ∉ U) by (intros H'; destruct (proj1 (Hu j)) as (_ & _ & ?); [set_solver|lia]).
  assert (i ∉ O) by (intros H'; destruct (proj1 (Ho i)) as (_ & _ & ?); [set_solver|lia]).
  apply NoDup_app in Hnu as (_ & Hiu & _). apply NoDup_cons in Hno as [Hjo _].
  destruct Ht as [_ _ Hr _ _]. pose proof (Hr i Hi). pose proof (bucket_range i). pose proof (bucket_range j).
  unfold deficit. split_and!; try done; [set_solver|lia|lia].
Qed.

Lemma step_table : alias_table (<[j := c !!! j - deficit]> c) (<[i := Z.of_nat j]> a).
Proof.
  destruct step_facts as (Hi & Hj & Hij & Hai & Haj & Hci & Hcj & _ & _ & _ & _ & Hd).
  destruct Hf as [[Hlc Hla Hr Hs Hm] _ _ _ _ _]. split; rewrite ?length_insert; [done|done| | |].
  - intros t Ht. specialize (Hr t Ht). destruct (decide (t = j)) as [->|].
    + rewrite list_lookup_total_insert_eq by lia. lia.
    + by rewrite list_lookup_total_insert_ne by done.
  - intros t Ht. destruct (decide (t = i)) as [->|].
    + rewrite list_lookup_total_insert_eq, list_lookup_total_insert_ne by (done || lia). eauto.
    + rewrite list_lookup_total_insert_ne by done. intros Hat.
      rewrite list_lookup_total_insert_ne by congruence. by apply Hs.
  - intros k Hk. unfold deficit. rewrite lent_step by done. rewrite (Hm k Hk). destruct (decide (k = j)) as [->|].
    + rewrite list_lookup_total_insert_eq by lia. lia.
    + rewrite list_lookup_total_insert_ne by done. lia.
Qed.

Lemma step_filling :
  let cj := c !!! j - deficit in
  filling (<[j := cj]> c) (<[i := Z.of_nat j]> a)
    (if cj <? bucket j then U ++ [j] else U) (if bucket j <? cj then j :: O else O).
Proof.
  intros cj. destruct step_facts as (Hi & Hj & Hij & Hai & Haj & Hci & Hcj & HiU & HjU & HjO & HiO & Hd).
  pose proof (no_alias_item j Hj) as Hnj.
  destruct Hf as [Ht Hu Ho Hnu Hno Hbal]. pose proof (at_len_c _ _ Ht). pose proof (at_len_a _ _ Ht).
  apply NoDup_app in Hnu as (Hnu & _). apply NoDup_cons in Hno as [_ Hno].
  split; [apply step_table| | | | |].
  - intros t. destruct (decide (t = i)) as [->|]; [|destruct (decide (t = j)) as [->|]].
    + rewrite list_lookup_total_insert_eq by lia. case_match; set_solver.
    + rewrite list_lookup_total_insert_ne, list_lookup_total_insert_eq by (done || lia).
      destruct (Z.ltb_spec cj (bucket j)); set_solver by lia.
    + rewrite !list_lookup_total_insert_ne by done. specialize (Hu t). case_match; set_solver.
  - intros t. destruct (decide (t = i)) as [->|]; [|destruct (decide (t = j)) as [->|]].
    + rewrite list_lookup_total_insert_eq by lia. case_match; set_solver.
    + rewrite list_lookup_total_insert_ne, list_lookup_total_insert_eq by (done || lia).
      destruct (Z.ltb_spec (bucket j) cj); set_solver by lia.
    + rewrite !list_lookup_total_insert_ne by done. specialize (Ho t). case_match; set_solver.
  - case_match; [|done]. apply NoDup_app. split_and!; [done|set_solver|apply NoDup_singleton].
  - case_match; [|done]. by constructor.
  - etransitivity; [by apply (balance_step c a i j)|exact Hbal].
Qed.

End Step.

(** As long as a bucket is underfull some item overfills its own, and conversely. *)
Lemma filling_over c a U O i : filling c a U O -> i ∈ U -> exists j, j ∈ O.
Proof.
  intros [Ht Hu Ho _ _ Hb] Hi. apply Hu in Hi as (Hi & Hai & Hci).
  destruct (sumN_balance _ _ i Hb Hi) as (j & Hj & Hpos); [by rewrite Hai, Z.eqb_refl; lia|].
  exists j. apply Ho. destruct (Z.eqb_spec (a !!! j) no_alias); [auto with lia|lia].
Qed.

Lemma filling_done c a O : filling c a [] O -> O = [].
Proof.
  intros [Ht Hu Ho _ _ Hb]. destruct O as [|j O]; [done|exfalso].
  destruct (proj1 (Ho j)) as (Hj & Haj & Hcj); [set_solver|].
  set (f := fun i => if a !!! i =? no_alias then c !!! i - bucket i else 0) in Hb.
  destruct (sumN_balance n (fun i => - f i) j) as (i & Hi & Hpos); [|done| |].
  - assert (sumN n (fun i => - f i + f i) = 0) as H0 by (rewrite (sumN_ext _ _ (fun _ => 0)), sumN_0; [done|]; lia).
    rewrite sumN_add in H0. lia.
  - unfold f. rewrite Haj, Z.eqb_refl. lia.
  - unfold f in Hpos. destruct (Z.eqb_spec (a !!! i) no_alias); [|lia].
    assert (i ∈ @nil nat); [apply Hu; auto with lia|set_solver].
Qed.

Lemma bucket_u32 i : u32 (aqp_get_bucket_weight q r i) = bucket i.
Proof.
  unfold aqp_get_bucket_weight, bucket. case_match; [rewrite u64_small by lia|]; apply u32_small; lia.
Qed.

Context (HW : forall i, (i < n)%nat -> W !!! i < 2 ^ 64).

Lemma fill_spec fuel c a rem pi ni :
  filling c a (take pi rem) (drop ni rem) -> length rem = n -> (pi <= ni <= n)%nat -> (pi + (n - ni) < fuel)%nat ->
  exists c' a', fill fuel q r c a rem pi ni = Some (c', a') /\ filling c' a' [] [].
Proof.
  revert c a rem pi ni. induction fuel as [|fuel IH]; intros c a rem pi ni Hf Hlen Hle Hfuel; [lia|].
  destruct pi as [|pi].
  { exists c, a. split; [done|]. rewrite take_0 in Hf. by rewrite (filling_done _ _ _ Hf) in Hf. }
  cbn [fill]. destruct (lookup_lt_is_Some_2 rem pi) as [i Hri]; [lia|].
  rewrite (take_S_r _ _ _ Hri) in Hf. destruct (filling_over _ _ _ _ i Hf) as [j' Hj']; [set_solver|].
  destruct (drop ni rem) as [|j O] eqn:Hdrop; [set_solver|].
  assert (Hrj : rem !! ni = Some j) by (rewrite <- (Nat.add_0_r ni), <- lookup_drop, Hdrop; done).
  assert (HO : drop (S ni) rem = O) by (rewrite <- Nat.add_1_r, <- drop_drop, Hdrop; done).
  apply lookup_lt_Some in Hrj as Hni. clear Hj'.
  pose proof (step_facts c a _ O i j Hf) as (Hi & Hj & Hij & Hai & Haj & Hci & Hcj & _ & _ & _ & _ & Hd).
  pose proof (step_filling c a _ O i j Hf) as Hstep. cbv zeta in Hstep.
  destruct (fl_table _ _ _ _ Hf) as [Hlc Hla Hr _ _]. pose proof (Hr j Hj). pose proof (Hr i Hi). pose proof (HW j Hj).
  rewrite Hri, Hrj. cbn [mbind option_bind].
  rewrite (list_lookup_lookup_total_lt c i), (list_lookup_lookup_total_lt c j) by lia. cbn [mbind option_bind].
  rewrite !bucket_u32. pose proof (bucket_range i). rewrite (u32_small (bucket i - _)) by lia.
  unfold deficit in *. rewrite u64_small by lia. set (cj := c !!! j - (bucket i - c !!! i)) in *.
  destruct (Z.ltb_spec cj (bucket j)) as [Hlt|Hge].
  - rewrite (proj2 (Z.ltb_ge (bucket j) cj)) in Hstep by lia. apply IH; rewrite ?length_insert; [|lia|lia|lia].
    rewrite take_S_insert, drop_insert_lt, HO by lia. done.
  - destruct (Z.eqb_spec cj (bucket j)) as [Heq|Hne].
    + rewrite (proj2 (Z.ltb_ge (bucket j) cj)) in Hstep by lia. apply IH; [by rewrite HO|lia..].
    + rewrite (proj2 (Z.ltb_lt (bucket j) cj)) in Hstep by lia. apply IH; [by rewrite Hdrop|lia..].
Qed.

End Fill.

(** ** The constructed table *)

(** Weights whose average fits the 32-bit local variables. *)
Record weights_ok (W : list Z) : Prop := {
  wo_nonempty : W <> [];
  wo_nonneg : Forall (fun w => 0 <= w) W;
  wo_sum : sumZ W < 2 ^ 64;
  wo_len : Z.of_nat (length W) < 2 ^ 32 - 1;
  wo_average : sumZ W / Z.of_nat (length W) < 2 ^ 32 - 1
}.

Lemma sumZ_bound W i : Forall (fun w => 0 <= w) W -> (i < length W)%nat -> 0 <= W !!! i <= sumZ W.
Proof.
  intros H. revert i. induction H as [|w W Hw H IH]; intros i Hi; simpl in *; [lia|].
  apply sumZ_nonneg in H. destruct i as [|i]; simpl; [lia|]. specialize (IH i). lia.
Qed.

Lemma sum_buckets q r n : 0 <= r <= Z.of_nat n -> sumN n (bucket q r) = q * Z.of_nat n + r.
Proof.
  assert (Hgen : forall m, sumN m (bucket q r) = q * Z.of_nat m + Z.max 0 (Z.min r (Z.of_nat m))).
  { induction m as [|m IH]; [unfold sumN; simpl; lia|]. rewrite sumN_S, IH. unfold bucket.
    destruct (Z.ltb_spec (Z.of_nat m) r); lia. }
  intros. rewrite Hgen. lia.
Qed.

(** Before anything is moved the table is trivially right, and the stacks classify. *)
Lemma filling_init q r W U O :
  let n := length W in
  0 <= r <= Z.of_nat n -> Z.of_nat n < 2 ^ 32 - 1 -> Forall (fun w => 0 <= w) W -> sumZ W = q * Z.of_nat n + r ->
  U = unders (bucket q r) 0 W -> O = rev (overs (bucket q r) 0 W) ->
  filling n q r W W (replicate n no_alias) U O.
Proof.
  intros n Hr Hn HW Hsum -> ->.
  assert (Hrep : forall i, (i < n)%nat -> replicate n no_alias !!! i = no_alias) by (intros; by rewrite lookup_total_replicate_2).
  split.
  - split; [done|by rewrite length_replicate| | |].
    + intros i Hi. pose proof (sumZ_bound W i HW Hi). lia.
    + intros i Hi H. by rewrite Hrep in H.
    + intros k Hk. unfold lent. rewrite (sumN_ext _ _ (fun _ => 0)), sumN_0; [lia|].
      intros i Hi. rewrite Hrep by done. rewrite (proj2 (Z.eqb_neq _ _)); [done|]. intros Heq. symmetry in Heq.
      revert Heq. by apply (no_alias_item n).
  - intros i. rewrite elem_of_unders, Nat.sub_0_r. split; [intros [? ?]|intros (? & _ & ?)]; split_and!; try lia.
    apply Hrep. lia.
  - intros i. rewrite list_elem_of_In, <- in_rev, <- list_elem_of_In, elem_of_overs, Nat.sub_0_r.
    split; [intros [? ?]|intros (? & _ & ?)]; split_and!; try lia. apply Hrep. lia.
  - apply NoDup_unders.
  - rewrite NoDup_ListNoDup. apply NoDup_rev. rewrite <- NoDup_ListNoDup. apply NoDup_overs.
  - rewrite (sumN_ext _ _ (fun i => W !!! i + - bucket q r i)).
    + pose proof (sumN_lookup W) as HS. pose proof (sum_buckets q r n Hr) as HB.
      rewrite sumN_add. fold n in HS. rewrite HS.
      assert (sumN n (fun i => - bucket q r i + bucket q r i) = 0) as H0 by (rewrite (sumN_ext _ _ (fun _ => 0)), sumN_0; [done|]; lia).
      rewrite sumN_add, HB in H0. lia.
    + intros i Hi. rewrite Hrep, Z.eqb_refl by done. lia.
Qed.

(** What [aqp_alias_u64_create] makes of [W]. *)
Record alias_for (W : list Z) (al : aqp_alias_u64) : Prop := {
  af_Q : Q al = sumZ W / Z.of_nat (length W);
  af_R : R al = sumZ W mod Z.of_nat (length W);
  af_N : N al = Z.of_nat (length W);
  af_table : alias_table (length W) (Q al) (R al) W (cutoffs al) (aliases al);
  af_full : forall i, (i < length W)%nat -> aliases al !!! i = no_alias -> cutoffs al !!! i = bucket (Q al) (R al) i
}.

Lemma alias_create W : weights_ok W -> exists al, aqp_alias_u64_create W = Some al /\ alias_for W al.
Proof.
  intros [Hne Hnn Hsum Hlen Havg]. unfold aqp_alias_u64_create.
  assert (Hn : (0 < length W)%nat) by (destruct W; [done|simpl; lia]).
  rewrite (proj2 (Nat.eqb_neq _ _)) by lia. rewrite (sum_weights_eq 0) by (done || lia). rewrite Z.add_0_l.
  pose proof (sumZ_nonneg W Hnn) as HS. set (n := length W) in *. set (q := sumZ W / Z.of_nat n) in *.
  pose proof (Z.mod_pos_bound (sumZ W) (Z.of_nat n) ltac:(lia)) as Hr.
  rewrite (u32_small (sumZ W mod _)) by lia. set (r := sumZ W mod Z.of_nat n) in *.
  assert (Hqr : sumZ W = q * Z.of_nat n + r) by (unfold q, r; pose proof (Z.div_mod (sumZ W) (Z.of_nat n)); lia).
  assert (Hq : 0 <= q < 2 ^ 32 - 1) by (split; [apply Z.div_pos|]; lia).
  destruct (classify_spec q r (bucket q r) 0 W (replicate n 0%nat) 0 n) as (rem & pi & ni & -> & Hlr & Hle & Ht & Hd).
  { intros k. by apply (bucket_u32 n). } { lia. } { by rewrite length_replicate. }
  rewrite length_replicate in Hlr, Hle. cbn [mbind option_bind].
  rewrite (drop_ge (replicate n 0%nat)), app_nil_r in Hd by (rewrite length_replicate; lia). rewrite take_0 in Ht.
  destruct (fill_spec n q r W Hlen Hq ltac:(intros i Hi; pose proof (sumZ_bound W i Hnn Hi); lia)
    (2 * n + 1) W (replicate n no_alias) rem pi ni) as (c & a & -> & Hf); [|done|lia|lia|].
  { apply filling_init; (done || lia). }
  eexists. split; [done|]. destruct Hf as [Ht' Hu Ho _ _ _]. split; [done|done|done|done|].
  intros i Hi Hai. cbn [Q R aliases cutoffs] in *.
  destruct (Z.lt_trichotomy (c !!! i) (bucket q r i)) as [H|[H|H]]; [|done|].
  - assert (i ∈ @nil nat) as []%not_elem_of_nil. by apply Hu.
  - assert (i ∈ @nil nat) as []%not_elem_of_nil. by apply Ho.
Qed.

(** ** Sampling *)

Lemma sumN_plus a b f : sumN (a + b) f = sumN a f + sumN b (fun i => f (a + i)%nat).
Proof.
  induction b as [|b IH]; [rewrite Nat.add_0_r; unfold sumN at 3; simpl; lia|].
  rewrite Nat.add_succ_r, !sumN_S, IH. lia.
Qed.

Lemma sumN_times n m f : sumN (n * m) f = sumN n (fun i => sumN m (fun t => f (i * m + t)%nat)).
Proof.
  induction n as [|n IH]; [done|]. rewrite sumN_S, <- IH. replace (S n * m)%nat with (n * m + m)%nat by lia.
  by rewrite sumN_plus.
Qed.

Lemma sumN_mul_r n f z : sumN n (fun i => f i * z) = sumN n f * z.
Proof. induction n as [|n IH]; [done|]. rewrite !sumN_S, IH. lia. Qed.

(** Of the units [0 .. m-1] of a bucket those up to [c] go to one item, the others to
    another. *)
Lemma sumN_threshold m c A B : 0 <= c ->
  sumN m (fun t => if c <? Z.of_nat t then A else B) =
  B * Z.min (c + 1) (Z.of_nat m) + A * (Z.of_nat m - Z.min (c + 1) (Z.of_nat m)).
Proof.
  intros Hc. induction m as [|m IH]; [unfold sumN; simpl; lia|]. rewrite sumN_S, IH.
  destruct (Z.ltb_spec c (Z.of_nat m)).
  - rewrite !Z.min_l by lia. lia.
  - rewrite !Z.min_r by lia. lia.
Qed.

Definition b2z (b : bool) : Z := if b then 1 else 0.

(** How many numbers below the total weight select item [k]. *)
Definition selections (al : aqp_alias_u64) (k : nat) : Z :=
  sumN (Z.to_nat (aqp_alias_u64_get_sum_weights al))
    (fun x => b2z (bool_decide (aqp_alias_u64_sample_unif_u64 al (Z.of_nat x) = Some (Z.of_nat k)))).

(** A bucket whose own item has fewer than [Q] units gives it one unit too many. *)
Definition excess (al : aqp_alias_u64) (i : nat) : Z := b2z (cutoffs al !!! i <? Q al).

Section Sample.
Context (W : list Z) (al : aqp_alias_u64) (HW : weights_ok W) (Hal : alias_for W al).

Lemma sample_ranges : 0 <= Q al < 2 ^ 32 - 1 /\ 0 <= R al < Z.of_nat (length W) /\
  sumZ W = R al + Q al * Z.of_nat (length W) /\ aqp_alias_u64_get_sum_weights al = sumZ W.
Proof.
  destruct HW as [Hne Hnn Hsum Hlen Havg]. destruct Hal as [HQ HR HN _ _].
  assert (0 < Z.of_nat (length W)) by (destruct W; [done|simpl; lia]). pose proof (sumZ_nonneg W Hnn).
  assert (0 <= Q al) by (rewrite HQ; apply Z.div_pos; lia).
  pose proof (Z.mod_pos_bound (sumZ W) (Z.of_nat (length W)) ltac:(lia)).
  assert (Heq : sumZ W = R al + Q al * Z.of_nat (length W)).
  { rewrite HQ, HR. pose proof (Z.div_mod (sumZ W) (Z.of_nat (length W))). lia. }
  assert (0 <= Q al * Z.of_nat (length W)) by (apply Z.mul_nonneg_nonneg; lia).
  split_and!; try lia. unfold aqp_alias_u64_get_sum_weights. rewrite HN.
  rewrite (u64_small (Q al * _)), u64_small by lia. lia.
Qed.

Definition answer (i : nat) (t : Z) (k : nat) : Z :=
  if cutoffs al !!! i <? t then b2z (aliases al !!! i =? Z.of_nat k) else b2z (bool_decide (i = k)).

Lemma answer_at i t k o : (i < length W)%nat ->
  o = (c ← cutoffs al !! i; if c <? t then aliases al !! i else Some (u32 (Z.of_nat i))) ->
  b2z (bool_decide (o = Some (Z.of_nat k))) = answer i t k.
Proof.
  intros Hi ->. destruct (af_table _ _ Hal) as [Hlc Hla _ _ _]. pose proof (wo_len _ HW).
  rewrite (list_lookup_lookup_total_lt (cutoffs al)), (list_lookup_lookup_total_lt (aliases al)) by lia.
  cbn [mbind option_bind]. unfold answer. case_match; unfold b2z.
  - destruct (Z.eqb_spec (aliases al !!! i) (Z.of_nat k)) as [->|]; [by rewrite bool_decide_true|].
    rewrite bool_decide_false; [done|congruence].
  - rewrite u32_small by lia. destruct (decide (i = k)) as [->|]; [by rewrite !bool_decide_true|].
    rewrite !bool_decide_false; [done|done|]. intros [= ?]. lia.
Qed.

Lemma sample_extra x k : (x < Z.to_nat (R al))%nat ->
  b2z (bool_decide (aqp_alias_u64_sample_unif_u64 al (Z.of_nat x) = Some (Z.of_nat k))) = answer x (Q al + 1) k.
Proof.
  intros Hx. destruct sample_ranges as (? & ? & _). apply answer_at; [lia|].
  unfold aqp_alias_u64_sample_unif_u64. rewrite (proj2 (Z.ltb_lt _ _)) by lia. cbn [mbind option_bind].
  by rewrite u64_small, Nat2Z.id by lia.
Qed.

Lemma sample_unit i t k : (i < length W)%nat -> (t < Z.to_nat (Q al))%nat ->
  let x := (Z.to_nat (R al) + (i * Z.to_nat (Q al) + t))%nat in
  b2z (bool_decide (aqp_alias_u64_sample_unif_u64 al (Z.of_nat x) = Some (Z.of_nat k))) = answer i (Z.of_nat t) k.
Proof.
  intros Hi Ht x. destruct sample_ranges as (HQ & HR & HS & _). pose proof (wo_sum _ HW). pose proof (wo_len _ HW).
  apply answer_at; [done|]. unfold aqp_alias_u64_sample_unif_u64.
  rewrite (proj2 (Z.ltb_ge _ _)), (proj2 (Z.eqb_neq _ _)) by lia. cbn [mbind option_bind].
  assert (Hx : Z.of_nat x - R al = Z.of_nat i * Q al + Z.of_nat t) by lia.
  assert ((Z.of_nat i + 1) * Q al <= Z.of_nat (length W) * Q al) by (apply Z.mul_le_mono_nonneg_r; lia).
  assert (0 <= Z.of_nat i * Q al) by (apply Z.mul_nonneg_nonneg; lia).
  rewrite Hx, u64_small by lia. rewrite Z.div_add_l, Z.div_small, Z.add_0_r, Nat2Z.id by lia.
  rewrite Z.add_comm, Z.mod_add, Z.mod_small by lia. done.
Qed.

Lemma selections_buckets k :
  selections al k = sumN (length W) (fun i =>
    (if Z.of_nat i <? R al then answer i (Q al + 1) k else 0) +
    sumN (Z.to_nat (Q al)) (fun t => answer i (Z.of_nat t) k)).
Proof.
  destruct sample_ranges as (HQ & HR & HS & Hsum). unfold selections. rewrite Hsum, HS.
  replace (Z.to_nat (R al + Q al * Z.of_nat (length W))) with (Z.to_nat (R al) + length W * Z.to_nat (Q al))%nat by lia.
  rewrite sumN_plus, sumN_add, sumN_times. f_equal.
  - rewrite (sumN_ext _ _ (fun x => answer x (Q al + 1) k)) by (intros; by apply sample_extra).
    replace (length W) with (Z.to_nat (R al) + (length W - Z.to_nat (R al)))%nat by lia. rewrite sumN_plus.
    rewrite (sumN_ext (length W - _) _ (fun _ => 0)), sumN_0, Z.add_0_r.
    + apply sumN_ext. intros i Hi. by rewrite (proj2 (Z.ltb_lt _ _)) by lia.
    + intros i Hi. by rewrite (proj2 (Z.ltb_ge _ _)) by lia.
  - apply sumN_ext. intros i Hi. apply sumN_ext. intros t Ht. by apply sample_unit.
Qed.

(** The units of one bucket, by item. *)
Lemma bucket_units i k : (i < length W)%nat -> (k < length W)%nat ->
  (if Z.of_nat i <? R al then answer i (Q al + 1) k else 0) + sumN (Z.to_nat (Q al)) (fun t => answer i (Z.of_nat t) k) =
  (if decide (i = k) then cutoffs al !!! k + excess al k else 0) +
  (if aliases al !!! i =? Z.of_nat k then bucket (Q al) (R al) i - cutoffs al !!! i - excess al i else 0).
Proof.
  intros Hi Hk. destruct sample_ranges as (HQ & HR & _). destruct Hal as [_ _ _ [_ _ Hr Hs _] Hfull].
  pose proof (Hr i Hi) as Hci. unfold answer at 2. rewrite sumN_threshold by lia. rewrite Z2Nat.id by lia.
  specialize (Hs i Hi). specialize (Hfull i Hi). pose proof (no_alias_item _ ltac:(by apply wo_len) k Hk) as Hnk.
  unfold answer, excess, bucket in *. set (c := cutoffs al !!! i) in *. set (a := aliases al !!! i) in *.
  assert (Hik : (if decide (i = k) then cutoffs al !!! k + b2z (cutoffs al !!! k <? Q al) else 0) =
                b2z (bool_decide (i = k)) * (c + b2z (c <? Q al))).
  { unfold c. destruct (decide (i = k)) as [->|]; [rewrite bool_decide_true by done|rewrite bool_decide_false by done]; simpl b2z; lia. }
  rewrite Hik. set (own := b2z (bool_decide (i = k))).
  destruct (Z.eqb_spec a no_alias) as [Ha|Ha].
  - specialize (Hfull Ha). rewrite Ha, (proj2 (Z.eqb_neq _ _)) by done. cbn [b2z]. revert Hfull.
    destruct (Z.ltb_spec (Z.of_nat i) (R al)).
    + intros Hc. rewrite (proj2 (Z.ltb_ge c (Q al))), (proj2 (Z.ltb_ge c (Q al + 1))), Z.min_r by lia. cbn [b2z]. lia.
    + intros Hc. rewrite (proj2 (Z.ltb_ge c (Q al))), Z.min_r by lia. cbn [b2z]. lia.
  - specialize (Hs Ha) as [Hlt _]. revert Hlt. destruct (Z.eqb_spec a (Z.of_nat k)); cbn [b2z];
      destruct (Z.ltb_spec (Z.of_nat i) (R al)); intros Hlt; try rewrite (proj2 (Z.ltb_lt c (Q al + 1))) by lia;
      destruct (Z.ltb_spec c (Q al)); cbn [b2z]; first [rewrite Z.min_l by lia|rewrite Z.min_r by lia]; first [lia|replace c with (Q al) by lia; lia].
Qed.

Lemma sample_split x : 0 <= x < sumZ W ->
  (x < R al /\ (Z.to_nat x < length W)%nat) \/
  (exists i t, (i < length W)%nat /\ (t < Z.to_nat (Q al))%nat /\ x = Z.of_nat (Z.to_nat (R al) + (i * Z.to_nat (Q al) + t))).
Proof.
  intros Hx. destruct sample_ranges as (HQ & HR & HS & _). destruct (Z.lt_ge_cases x (R al)); [left; lia|right].
  assert (0 < Q al) by nia. pose proof (Z.mod_pos_bound (x - R al) (Q al) ltac:(lia)).
  assert (0 <= (x - R al) / Q al < Z.of_nat (length W)) by (split; [apply Z.div_pos; lia|apply Z.div_lt_upper_bound; lia]).
  exists (Z.to_nat ((x - R al) / Q al)), (Z.to_nat ((x - R al) mod Q al)). split; [lia|]. split; [lia|].
  rewrite !Nat2Z.inj_add, Nat2Z.inj_mul, !Z2Nat.id by lia. pose proof (Z.div_mod (x - R al) (Q al)). lia.
Qed.

(** A number below the total weight always selects an item. *)
Lemma sample_total x : 0 <= x < sumZ W ->
  exists k, (k < length W)%nat /\ aqp_alias_u64_sample_unif_u64 al x = Some (Z.of_nat k).
Proof.
  intros Hx. destruct sample_ranges as (HQ & HR & HS & _). destruct Hal as [_ _ _ [Hlc Hla _ Hs _] Hfull].
  pose proof (wo_len _ HW).
  assert (Hgo : forall i t, (i < length W)%nat -> t <= Q al + b2z (Z.of_nat i <? R al) ->
    exists k, (k < length W)%nat /\
      (c ← cutoffs al !! i; if c <? t then aliases al !! i else Some (u32 (Z.of_nat i))) = Some (Z.of_nat k)).
  { intros i t Hi Ht. rewrite (list_lookup_lookup_total_lt (cutoffs al)), (list_lookup_lookup_total_lt (aliases al)) by lia.
    cbn [mbind option_bind]. destruct (Z.ltb_spec (cutoffs al !!! i) t).
    - destruct (Hs i Hi) as (_ & j & Hj & ->); [|by exists j]. intros Hno. specialize (Hfull i Hi Hno).
      unfold bucket in Hfull. case_match; cbn [b2z] in Ht; lia.
    - exists i. by rewrite u32_small by lia. }
  unfold aqp_alias_u64_sample_unif_u64. destruct (sample_split x Hx) as [[Hlt Hx']|(i & t & Hi & Ht & ->)].
  - rewrite (proj2 (Z.ltb_lt _ _)) by lia. cbn [mbind option_bind]. rewrite u64_small by lia.
    specialize (Hgo (Z.to_nat x) (Q al + 1) Hx'). rewrite Z2Nat.id, (proj2 (Z.ltb_lt _ _)) in Hgo by lia. apply Hgo. simpl; lia.
  - rewrite (proj2 (Z.ltb_ge _ _)), (proj2 (Z.eqb_neq _ _)) by lia. cbn [mbind option_bind].
    pose proof (wo_sum _ HW).
    replace (Z.of_nat _ - R al) with (Z.of_nat i * Q al + Z.of_nat t) by lia.
    rewrite u64_small by lia. rewrite Z.div_add_l, Z.div_small, Z.add_0_r, Nat2Z.id by lia.
    rewrite (Z.add_comm _ (Z.of_nat t)), Z.mod_add, Z.mod_small by lia. apply Hgo; [done|]. unfold b2z. case_match; lia.
Qed.

End Sample.

(** Of the numbers below the total weight, exactly [W k] select item [k], plus one
    when item [k] leaves room for at least one more unit of the common bucket size, minus
    one for every such bucket whose alias is [k]. *)
Theorem alias_selections (W : list Z) (k : nat) :
  weights_ok W -> (k < length W)%nat ->
  exists al, aqp_alias_u64_create W = Some al /\ aqp_alias_u64_get_sum_weights al = sumZ W /\
    selections al k = W !!! k + excess al k -
      sumN (length W) (fun i => if aliases al !!! i =? Z.of_nat k then excess al i else 0).
Proof.
  intros HW Hk. destruct (alias_create W HW) as (al & Hc & Hal). exists al. split; [done|].
  split; [by apply (sample_ranges W al)|]. rewrite (selections_buckets W al HW Hal).
  rewrite (sumN_ext _ _ _ (fun i Hi => bucket_units W al HW Hal i k Hi Hk)), sumN_add, sumN_single by done.
  rewrite (at_mass _ _ _ _ _ _ (af_table _ _ Hal) k Hk). unfold lent.
  enough (sumN (length W) (fun i => if aliases al !!! i =? Z.of_nat k then bucket (Q al) (R al) i - cutoffs al !!! i - excess al i else 0)
    + sumN (length W) (fun i => if aliases al !!! i =? Z.of_nat k then excess al i else 0) =
    sumN (length W) (fun i => if aliases al !!! i =? Z.of_nat k then bucket (Q al) (R al) i - cutoffs al !!! i else 0)) by lia.
  rewrite <- sumN_add. apply sumN_ext. intros i _. case_match; lia.
Qed.

Definition demo_weights : list Z := [5; 1; 3; 0; 7].

Lemma demo_weights_ok : weights_ok demo_weights.
Proof. split; [done|by repeat constructor|done|done|done]. Qed.

Lemma alias_selections_witness :
  exists al, aqp_alias_u64_create demo_weights = Some al /\ aqp_alias_u64_get_sum_weights al = 16 /\
    selections al 1 = 1 + excess al 1 - sumN 5 (fun i => if aliases al !!! i =? 1 then excess al i else 0).
Proof. apply (alias_selections demo_weights 1); [apply demo_weights_ok|simpl; lia]. Defined.

(** C33: The table made from 64-bit weights whose average fits 32 bits distributes every
    item's weight exactly: its units are those in its own bucket plus those in the buckets
    whose alias it is, and no bucket is left partly empty. *)
Theorem alias_table_represents (W : list Z) :
  weights_ok W -> exists al, aqp_alias_u64_create W = Some al /\ alias_for W al.
Proof. apply alias_create. Qed.

Lemma alias_table_represents_witness : exists al, aqp_alias_u64_create demo_weights = Some al /\ alias_for demo_weights al.
Proof. apply (alias_table_represents demo_weights). apply demo_weights_ok. Defined.

(** For every random number in [0, 1) the table selects one of the items. *)
Theorem alias_sample_real_total (W : list Z) (r : double) :
  weights_ok W -> 0 < sumZ W -> is_fraction r ->
  exists al k, aqp_alias_u64_create W = Some al /\ (k < length W)%nat /\
    aqp_alias_u64_sample_unif_real al r = Some (Z.of_nat k).
Proof.
  intros HW HS Hr. destruct (alias_create W HW) as (al & Hc & Hal). exists al.
  destruct (sample_ranges W al HW Hal) as (_ & _ & _ & Hsum). unfold aqp_alias_u64_sample_unif_real, floor_mul_u64.
  pose proof (wo_sum _ HW). rewrite Hsum.
  destruct (floor_mul_range (2 ^ 64) (sumZ W) r) as (x & -> & Hx); [lia|lia|done|].
  cbn [mbind option_bind]. rewrite (proj2 (Z.eqb_neq _ _)) by lia.
  destruct (sample_total W al HW Hal x Hx) as (k & Hk & ->). by exists k.
Qed.

Lemma alias_sample_real_total_witness :
  exists al k, aqp_alias_u64_create demo_weights = Some al /\ (k < length demo_weights)%nat /\
    aqp_alias_u64_sample_unif_real al half = Some (Z.of_nat k).
Proof. apply (alias_sample_real_total demo_weights half); [apply demo_weights_ok|done|apply half_fraction]. Defined.

(** An item of weight zero is selected by some number below the total weight as soon
    as the total reaches the number of items. *)
Theorem alias_zero_weight_selected (W : list Z) (k : nat) :
  weights_ok W -> (k < length W)%nat -> W !!! k = 0 -> Z.of_nat (length W) <= sumZ W ->
  exists al x, aqp_alias_u64_create W = Some al /\ 0 <= x < sumZ W /\
    aqp_alias_u64_sample_unif_u64 al x = Some (Z.of_nat k).
Proof.
  intros HW Hk H0 HS. destruct (alias_create W HW) as (al & Hc & Hal). exists al.
  destruct (sample_ranges W al HW Hal) as (HQ & HR & HSum & _).
  assert (1 <= Q al) by (rewrite (af_Q _ _ Hal); apply Z.div_le_lower_bound; lia).
  eexists. split; [done|]. pose proof (sample_unit W al HW Hal k 0 k Hk ltac:(lia)) as Hs. cbv zeta in Hs.
  unfold answer in Hs. destruct (af_table _ _ Hal) as [_ _ Hr _ _]. specialize (Hr k Hk).
  rewrite (proj2 (Z.ltb_ge _ _)), (bool_decide_true (k = k)) in Hs by (done || lia). simpl (b2z true) in Hs.
  case_bool_decide as Heq; [|done]. split; [|exact Heq].
  assert ((Z.of_nat k + 1) * Q al <= Z.of_nat (length W) * Q al) by (apply Z.mul_le_mono_nonneg_r; lia). lia.
Qed.

Lemma alias_zero_weight_selected_witness :
  exists al x, aqp_alias_u64_create demo_weights = Some al /\ 0 <= x < sumZ demo_weights /\
    aqp_alias_u64_sample_unif_u64 al x = Some (Z.of_nat 3).
Proof. apply (alias_zero_weight_selected demo_weights 3); [apply demo_weights_ok|simpl; lia|done|done]. Defined.

(** With an average weight of 2^32 the bucket size is truncated to 32 bits; no bucket
    is filled and a number below the total selects the "item" 4294967295. *)
Theorem alias_wide_weights_lost :
  exists al, aqp_alias_u64_create [2 ^ 33; 0] = Some al /\
    aqp_alias_u64_sample_unif_u64 al (2 ^ 32 + 1) = Some 4294967295 /\ 2 ^ 32 + 1 < aqp_alias_u64_get_sum_weights al.
Proof. eexists. split; [by vm_compute|]. by vm_compute. Qed.

End Walker.
