(* ===== verification/Page.v ===== *)
(** * Pages, scan keys and comparison (access/abtree.h, abtsearch.c)

    A page of an aggregate B-tree is the special space at its end ([ABTPageOpaqueData])
    and its items: line pointers, of which only the LP_DEAD flag is kept, and the tuples
    they point to.  Offsets count from 1.  Leaf pages hold leaf tuples ([itup] of Dedup),
    internal pages and high keys are pivot tuples, whose key may be truncated.

    [_abt_compare] compares an insertion scan key with one tuple of a page.  The
    operator class's comparison function and the column's DESC and NULLS FIRST options
    are part of each scan key.  [None] stands for an offset without an item or an
    attribute the tuple does not store. *)

From stdpp Require Import base numbers option list.
From S2P Require Import Prelude Dedup.

Module Page.
Import Dedup.

(** ** Pages *)

Definition InvalidOffsetNumber : Z := 0.
Definition OffsetNumberNext (off : Z) : Z := u16 (1 + off).
Definition OffsetNumberPrev (off : Z) : Z := u16 (-1 + off).

Record ABTPageOpaqueData := mk_opaque {
  abtpo_prev : Z;
  abtpo_next : Z;
  abtpo_level : Z;
  abtpo_flags : Z;
  abtpo_last_update_id : Z
}.

Definition ABTP_NONE : Z := 0.
Definition ABTP_LEAF : Z := 2 ^ 0.
Definition ABTP_ROOT : Z := 2 ^ 1.
Definition ABTP_DELETED : Z := 2 ^ 2.
Definition ABTP_META : Z := 2 ^ 3.
Definition ABTP_HALF_DEAD : Z := 2 ^ 4.
Definition ABTP_SPLIT_END : Z := 2 ^ 5.
Definition ABTP_HAS_GARBAGE : Z := 2 ^ 6.
Definition ABTP_INCOMPLETE_SPLIT : Z := 2 ^ 7.
Definition ABTP_HAD_GARBAGE_REMOVED : Z := 2 ^ 8.

Definition has_flag (o : ABTPageOpaqueData) (mask : Z) : bool := negb (Z.land (abtpo_flags o) mask =? 0).

Definition ABT_P_LEFTMOST (o : ABTPageOpaqueData) : bool := abtpo_prev o =? ABTP_NONE.
Definition ABT_P_RIGHTMOST (o : ABTPageOpaqueData) : bool := abtpo_next o =? ABTP_NONE.
Definition ABT_P_ISLEAF (o : ABTPageOpaqueData) : bool := has_flag o ABTP_LEAF.
Definition ABT_P_ISROOT (o : ABTPageOpaqueData) : bool := has_flag o ABTP_ROOT.
Definition ABT_P_ISDELETED (o : ABTPageOpaqueData) : bool := has_flag o ABTP_DELETED.
Definition ABT_P_ISMETA (o : ABTPageOpaqueData) : bool := has_flag o ABTP_META.
Definition ABT_P_ISHALFDEAD (o : ABTPageOpaqueData) : bool := has_flag o ABTP_HALF_DEAD.
Definition ABT_P_IGNORE (o : ABTPageOpaqueData) : bool := has_flag o (Z.lor ABTP_DELETED ABTP_HALF_DEAD).
Definition ABT_P_INCOMPLETE_SPLIT (o : ABTPageOpaqueData) : bool := has_flag o ABTP_INCOMPLETE_SPLIT.

Definition ABTP_HIKEY : Z := 1.
Definition ABTP_FIRSTKEY : Z := 2.
Definition ABT_P_FIRSTDATAKEY (o : ABTPageOpaqueData) : Z :=
  if ABT_P_RIGHTMOST o then ABTP_HIKEY else ABTP_FIRSTKEY.

(** A pivot tuple: the untruncated key attributes, the heap TID if it was kept, the
    downlink, the aggregate of the subtree and the last update id. *)
Record pivot := mk_pivot {
  pv_key : list (option Z);
  pv_tid : option tid;
  pv_downlink : Z;
  pv_agg : Z;
  pv_last_update_id : Z
}.

Inductive index_tuple := LeafTup (t : itup) | PivotTup (p : pivot).

Record page := mk_pg {
  pg_lines : list (bool * index_tuple);   (** LP_DEAD, tuple *)
  pg_opaque : ABTPageOpaqueData
}.

Definition PageGetMaxOffsetNumber (p : page) : Z := Z.of_nat (length (pg_lines p)).

Definition PageGetItemId (p : page) (off : Z) : option (bool * index_tuple) :=
  if off <? 1 then None else pg_lines p !! Z.to_nat (off - 1).
Definition PageGetItem (p : page) (off : Z) : option index_tuple := snd <$> PageGetItemId p off.
Definition ItemIdIsDead (p : page) (off : Z) : option bool := fst <$> PageGetItemId p off.

Definition ABTreeTupleIsPosting (t : index_tuple) : bool :=
  match t with LeafTup t => is_posting t | PivotTup _ => false end.
Definition ABTreeTupleGetNPosting (t : index_tuple) : Z :=
  match t with LeafTup t => nposting t | PivotTup _ => 0 end.
Definition ABTreeTupleGetDownLink (t : index_tuple) : option Z :=
  match t with LeafTup _ => None | PivotTup p => Some (pv_downlink p) end.

Definition tuple_key (t : index_tuple) : list (option Z) :=
  match t with LeafTup t => it_key t | PivotTup p => pv_key p end.

(** Leaf tuples have all [rel_natts] attributes of the index. *)
Definition ABTreeTupleGetNAtts (t : index_tuple) (rel_natts : Z) : Z :=
  match t with LeafTup _ => rel_natts | PivotTup p => Z.of_nat (length (pv_key p)) end.

Definition ABTreeTupleGetHeapTID (t : index_tuple) : option tid :=
  match t with LeafTup t => head (it_tids t) | PivotTup p => pv_tid p end.
Definition ABTreeTupleGetMaxHeapTID (t : index_tuple) : option tid :=
  match t with
  | LeafTup t => if is_posting t then last (it_tids t) else head (it_tids t)
  | PivotTup p => pv_tid p
  end.

Definition index_getattr (t : index_tuple) (attno : Z) : option (option Z) :=
  tuple_key t !! Z.to_nat (attno - 1).

(** ** Scan keys *)

Record ScanKeyData := mk_sk {
  sk_isnull : bool;         (** SK_ISNULL *)
  sk_nulls_first : bool;    (** SK_ABT_NULLS_FIRST *)
  sk_desc : bool;           (** SK_ABT_DESC *)
  sk_attno : Z;
  sk_func : Z -> Z -> Z;    (** sk_func with sk_collation *)
  sk_argument : Z
}.

Record ABTScanInsertData := mk_key {
  heapkeyspace : bool;
  allequalimage : bool;
  anynullkeys : bool;
  nextkey : bool;
  pivotsearch : bool;
  scantid : option tid;
  keysz : Z;
  scankeys : list ScanKeyData
}.

Definition INVERT_COMPARE_RESULT (r : Z) : Z := if r <? 0 then 1 else - r.

(** ** Comparison *)

(** One round of the loop over the key columns. *)
Definition compare_attr (sk : ScanKeyData) (datum : option Z) : Z :=
  if sk_isnull sk then
    match datum with
    | None => 0
    | Some _ => if sk_nulls_first sk then -1 else 1
    end
  else
    match datum with
    | None => if sk_nulls_first sk then 1 else -1
    | Some d =>
        let result := sk_func sk d (sk_argument sk) in
        if sk_desc sk then result else INVERT_COMPARE_RESULT result
    end.

Fixpoint compare_attrs (sks : list ScanKeyData) (n : nat) (itup : index_tuple) {struct n} : option Z :=
  match n with
  | O => Some 0
  | S n =>
      match sks with
      | [] => None
      | sk :: sks =>
          datum ← index_getattr itup (sk_attno sk);
          let result := compare_attr sk datum in
          if result =? 0 then compare_attrs sks n itup else Some result
      end
  end.

(** What follows the loop: truncated attributes and the heap TID. *)
Definition compare_tid (key : ABTScanInsertData) (ntupatts : Z) (itup : index_tuple) : option Z :=
  if ntupatts <? keysz key then Some 1
  else
    let heapTid := ABTreeTupleGetHeapTID itup in
    match scantid key, heapTid with
    | None, None =>
        Some (if heapkeyspace key && negb (pivotsearch key) && (keysz key =? ntupatts) then 1 else 0)
    | None, Some _ => Some 0
    | Some _, None => Some 1
    | Some st, Some ht =>
        let result := ItemPointerCompare st ht in
        if (result <=? 0) || negb (ABTreeTupleIsPosting itup) then Some result
        else
          mt ← ABTreeTupleGetMaxHeapTID itup;
          Some (if 0 <? ItemPointerCompare st mt then 1 else 0)
    end.

Definition compare_tuple (rel_natts : Z) (key : ABTScanInsertData) (itup : index_tuple) : option Z :=
  let ntupatts := ABTreeTupleGetNAtts itup rel_natts in
  result ← compare_attrs (scankeys key) (Z.to_nat (Z.min ntupatts (keysz key))) itup;
  if result =? 0 then compare_tid key ntupatts itup else Some result.

Definition _abt_compare (rel_natts : Z) (key : ABTScanInsertData) (p : page) (offnum : Z) : option Z :=
  if negb (ABT_P_ISLEAF (pg_opaque p)) && (offnum =? ABT_P_FIRSTDATAKEY (pg_opaque p)) then Some 1
  else
    itup ← PageGetItem p offnum;
    compare_tuple rel_natts key itup.

(** ** The scan key of a tuple *)

(** An index: its attributes and the options and order function of its key columns. *)
Record column := mk_col { col_nulls_first : bool; col_desc : bool; col_cmp : Z -> Z -> Z }.
Record index_rel := mk_rel { rd_natts : Z; rd_cols : list column; rd_allequalimage : bool }.

Definition indnkeyatts (rel : index_rel) : Z := Z.of_nat (length (rd_cols rel)).

(** The scan keys of the arguments [args] ([None] for NULL), from attribute [attno] on. *)
Fixpoint key_entries (attno : Z) (cols : list column) (args : list (option Z)) : list ScanKeyData :=
  match cols, args with
  | c :: cols, a :: args =>
      mk_sk (match a with None => true | Some _ => false end) (col_nulls_first c) (col_desc c)
        attno (col_cmp c) (default 0 a) :: key_entries (attno + 1) cols args
  | _, _ => []
  end.

(** [_abt_mkscankey_extended]: the fields heapkeyspace and allequalimage are filled in
    only when there is no [key] yet. *)
Definition _abt_mkscankey_extended (rel : index_rel) (itup : option index_tuple) (key : option ABTScanInsertData)
  : option ABTScanInsertData :=
  let tupnatts := match itup with Some t => ABTreeTupleGetNAtts t (rd_natts rel) | None => 0 end in
  let hks := match key with Some k => heapkeyspace k | None => true end in
  let aei := match key, itup with
             | Some k, _ => allequalimage k
             | None, Some _ => rd_allequalimage rel
             | None, None => false
             end in
  args ← mapM (fun i => if Z.of_nat i <? tupnatts then t ← itup; index_getattr t (Z.of_nat i + 1) else Some None)
           (seq 0 (length (rd_cols rel)));
  Some (mk_key hks aei (existsb (fun a => match a with None => true | Some _ => false end) args) false false
    (if hks then t ← itup; ABTreeTupleGetHeapTID t else None)
    (Z.min (indnkeyatts rel) tupnatts)
    (key_entries 1 (rd_cols rel) args)).

(** ** The order of the index *)

(** What a B-tree order function promises: a total order up to equality. *)
Class BtreeOrder (cmp : Z -> Z -> Z) : Prop := {
  bo_sym x y : cmp x y < 0 <-> 0 < cmp y x;
  bo_trans x y z : cmp x y <= 0 -> cmp y z <= 0 -> cmp x z <= 0
}.

#[export] Instance sub_order : BtreeOrder Z.sub.
Proof. split; lia. Qed.

(** One column's order, NULLs and direction included. *)
Definition col_compare (c : column) (a b : option Z) : Z :=
  compare_attr (mk_sk (match a with None => true | Some _ => false end) (col_nulls_first c) (col_desc c)
    1 (col_cmp c) (default 0 a)) b.

Section Column.
Context (c : column) `{!BtreeOrder (col_cmp c)}.

Lemma cmp_flip x y : col_cmp c x y = 0 <-> col_cmp c y x = 0.
Proof. pose proof (bo_sym x y). pose proof (bo_sym y x). lia. Qed.

Lemma col_compare_sym a b : col_compare c a b < 0 <-> 0 < col_compare c b a.
Proof.
  unfold col_compare, compare_attr, INVERT_COMPARE_RESULT. destruct a as [a|], b as [b|]; simpl; [|case_match; lia..|lia].
  pose proof (bo_sym a b). pose proof (bo_sym b a).
  destruct (col_desc c), (Z.ltb_spec (col_cmp c b a) 0), (Z.ltb_spec (col_cmp c a b) 0); lia.
Qed.

Lemma col_compare_eq a b : col_compare c a b = 0 <-> col_compare c b a = 0.
Proof. pose proof (col_compare_sym a b). pose proof (col_compare_sym b a). lia. Qed.

Lemma col_compare_trans x y z : col_compare c x y <= 0 -> col_compare c y z <= 0 -> col_compare c x z <= 0.
Proof.
  unfold col_compare, compare_attr, INVERT_COMPARE_RESULT.
  destruct x as [x|], y as [y|], z as [z|]; simpl; try (destruct (col_nulls_first c); lia).
  pose proof (bo_trans x y z). pose proof (bo_trans z y x).
  pose proof (bo_sym x y). pose proof (bo_sym y x). pose proof (bo_sym y z). pose proof (bo_sym z y).
  pose proof (bo_sym x z). pose proof (bo_sym z x).
  destruct (col_desc c); repeat match goal with |- context [?a <? 0] => destruct (Z.ltb_spec a 0) end; lia.
Qed.

Lemma col_compare_lt_trans x y z :
  (col_compare c x y < 0 -> col_compare c y z <= 0 -> col_compare c x z < 0) /\
  (col_compare c x y <= 0 -> col_compare c y z < 0 -> col_compare c x z < 0).
Proof.
  pose proof (col_compare_trans x y z). pose proof (col_compare_trans z x y). pose proof (col_compare_trans y z x).
  pose proof (col_compare_sym x y). pose proof (col_compare_sym y x). pose proof (col_compare_sym y z).
  pose proof (col_compare_sym z y). pose proof (col_compare_sym x z). pose proof (col_compare_sym z x). lia.
Qed.

End Column.

(** Two tuples by their key columns; a truncated column is minus infinity. *)
Fixpoint lexcmp (cols : list column) (k1 k2 : list (option Z)) : Z :=
  match cols, k1, k2 with
  | c :: cols, x :: k1, y :: k2 => let r := col_compare c x y in if r =? 0 then lexcmp cols k1 k2 else r
  | _ :: _, _ :: _, [] => 1
  | _ :: _, [], _ :: _ => -1
  | _, _, _ => 0
  end.

(** A scan key with the arguments [args] and a tuple by the first [m] columns. *)
Fixpoint keycmp (m : nat) (cols : list column) (args k : list (option Z)) {struct m} : Z :=
  match m, cols, args, k with
  | S _, _ :: _, _ :: _, [] => 1
  | S m, c :: cols, a :: args, x :: k => let r := col_compare c a x in if r =? 0 then keycmp m cols args k else r
  | _, _, _, _ => 0
  end.

(** A scan key that is >= (>) a tuple is >= (>) every smaller one; when it is equal to
    both they differ only behind the columns of the key. *)
Lemma keycmp_mono m cols args k1 k2 :
  Forall (fun c => BtreeOrder (col_cmp c)) cols -> (m <= length args)%nat -> (m <= length cols)%nat ->
  lexcmp cols k1 k2 < 0 ->
  (0 <= keycmp m cols args k2 -> 0 <= keycmp m cols args k1) /\
  (0 < keycmp m cols args k2 -> 0 < keycmp m cols args k1) /\
  (keycmp m cols args k2 = 0 -> keycmp m cols args k1 = 0 -> (m < length k2)%nat /\ (m < length cols)%nat).
Proof.
  intros Hc. revert m args k1 k2. induction Hc as [|c cols Hco Hc IH]; intros m args k1 k2 Ha Hm Hlt; [simpl in Hlt; lia|].
  destruct m as [|m]; [destruct k1, k2; simpl in *; lia|].
  destruct args as [|a args]; [simpl in Ha; lia|].
  destruct k1 as [|x k1], k2 as [|y k2]; simpl in *; try lia.
  pose proof (col_compare_eq c x y). pose proof (col_compare_eq c a x). pose proof (col_compare_eq c a y).
  pose proof (col_compare_sym c x y). pose proof (col_compare_sym c y x). pose proof (col_compare_sym c a x).
  pose proof (col_compare_sym c x a). pose proof (col_compare_sym c a y). pose proof (col_compare_sym c y a).
  pose proof (col_compare_lt_trans c x y a). pose proof (col_compare_trans c x y a).
  pose proof (col_compare_trans c y x a). pose proof (col_compare_lt_trans c y x a).
  specialize (IH m args k1 k2 ltac:(lia) ltac:(lia)).
  destruct (Z.eqb_spec (col_compare c x y) 0), (Z.eqb_spec (col_compare c a x) 0), (Z.eqb_spec (col_compare c a y) 0);
    try lia.
Qed.

Lemma keycmp_eq m cols args k1 k2 :
  Forall (fun c => BtreeOrder (col_cmp c)) cols -> lexcmp cols k1 k2 = 0 ->
  Z.sgn (keycmp m cols args k1) = Z.sgn (keycmp m cols args k2).
Proof.
  intros Hc. revert m args k1 k2. induction Hc as [|c cols Hco Hc IH]; intros m args k1 k2 Heq; [by destruct m|].
  destruct m as [|m], args as [|a args]; try done.
  destruct k1 as [|x k1], k2 as [|y k2]; simpl in *; try lia.
  pose proof (col_compare_eq c x y). pose proof (col_compare_eq c a x). pose proof (col_compare_eq c a y).
  pose proof (col_compare_sym c a x). pose proof (col_compare_sym c x a). pose proof (col_compare_sym c a y).
  pose proof (col_compare_sym c y a). pose proof (col_compare_trans c x y a). pose proof (col_compare_trans c y x a).
  pose proof (col_compare_lt_trans c y x a). pose proof (col_compare_lt_trans c x y a).
  destruct (Z.eqb_spec (col_compare c x y) 0); [|lia]. specialize (IH m args k1 k2 Heq).
  destruct (Z.eqb_spec (col_compare c a x) 0), (Z.eqb_spec (col_compare c a y) 0); lia.
Qed.

Lemma key_entries_attno attno cols args i sk : key_entries attno cols args !! i = Some sk -> sk_attno sk = attno + Z.of_nat i.
Proof.
  revert attno args i. induction cols as [|c cols IH]; intros attno [|a args] [|i]; simpl; try done.
  - intros [= <-]. simpl. lia.
  - intros H. apply IH in H. lia.
Qed.

Lemma compare_attrs_keycmp cols args pre k t n :
  tuple_key t = pre ++ k -> (n <= length k)%nat -> (n <= length args)%nat -> (n <= length cols)%nat ->
  compare_attrs (key_entries (Z.of_nat (length pre) + 1) cols args) n t = Some (keycmp n cols args k).
Proof.
  revert cols args pre k. induction n as [|n IH]; intros cols args pre k Ht Hk Ha Hc; [done|].
  destruct cols as [|c cols]; [simpl in Hc; lia|]. destruct args as [|a args]; [simpl in Ha; lia|].
  destruct k as [|x k]; [simpl in Hk; lia|]. simpl in *. unfold index_getattr. cbn [sk_attno].
  replace (Z.to_nat (Z.of_nat (length pre) + 1 - 1)) with (length pre) by lia.
  rewrite Ht, list_lookup_middle by done. cbn [mbind option_bind].
  change (compare_attr _ x) with (col_compare c a x). case_match; [|done].
  replace (Z.of_nat (length pre) + 1 + 1) with (Z.of_nat (length (pre ++ [x])) + 1) by (rewrite length_app; simpl; lia).
  apply IH; [by rewrite <- app_assoc|lia..].
Qed.

Lemma keycmp_short m cols args k : (length k < m)%nat -> (m <= length args)%nat -> (m <= length cols)%nat ->
  keycmp m cols args k = let r := keycmp (length k) cols args k in if r =? 0 then 1 else r.
Proof.
  revert cols args k. induction m as [|m IH]; intros cols args k Hk Ha Hc; [lia|].
  destruct cols as [|c cols]; [simpl in Hc; lia|]. destruct args as [|a args]; [simpl in Ha; lia|].
  destruct k as [|x k]; [done|]. simpl in *. rewrite IH by lia.
  destruct (col_compare c a x =? 0) eqn:E; [done|]. by rewrite E.
Qed.

Lemma ItemPointerCompare_sym a b : ItemPointerCompare a b = - ItemPointerCompare b a.
Proof. unfold ItemPointerCompare. repeat if_case; lia. Qed.

Lemma ItemPointerCompare_trans a b c :
  ItemPointerCompare a b <= 0 -> ItemPointerCompare b c <= 0 -> ItemPointerCompare a c <= 0.
Proof. unfold ItemPointerCompare. repeat if_case; lia. Qed.

Lemma ItemPointerCompare_lt_trans a b c :
  ItemPointerCompare a b <= 0 -> ItemPointerCompare b c < 0 -> ItemPointerCompare a c < 0.
Proof. unfold ItemPointerCompare. repeat if_case; lia. Qed.

(** ** Well-formed tuples and scan keys *)

Section Rel.
Context (rel : index_rel).

Record rel_ok : Prop := {
  rel_cols : Forall (fun c => BtreeOrder (col_cmp c)) (rd_cols rel);
  rel_natts : indnkeyatts rel <= rd_natts rel
}.

(** Leaf tuples have all attributes and their TIDs in order; pivot tuples may be
    truncated, the heap TID first. *)
Definition tuple_ok (t : index_tuple) : Prop :=
  match t with
  | LeafTup t =>
      Z.of_nat (length (it_key t)) = rd_natts rel /\
      exists lo hi, head (it_tids t) = Some lo /\ last (it_tids t) = Some hi /\ ItemPointerCompare lo hi <= 0
  | PivotTup p =>
      (length (pv_key p) <= length (rd_cols rel))%nat /\
      (pv_tid p <> None -> length (pv_key p) = length (rd_cols rel))
  end.

(** An insertion scan key on the first columns, with a TID only when it has them all. *)
Record key_ok (key : ABTScanInsertData) (args : list (option Z)) : Prop := {
  ko_entries : scankeys key = key_entries 1 (rd_cols rel) args;
  ko_size : 0 <= keysz key <= Z.of_nat (length args);
  ko_cols : (length args <= length (rd_cols rel))%nat;
  ko_tid : scantid key <> None -> keysz key = indnkeyatts rel
}.

(** The tie break on equal key columns. *)
Definition tie (key : ABTScanInsertData) (t : index_tuple) : Z :=
  match scantid key, ABTreeTupleGetHeapTID t with
  | None, None => if heapkeyspace key && negb (pivotsearch key) && (keysz key =? ABTreeTupleGetNAtts t (rd_natts rel)) then 1 else 0
  | None, Some _ => 0
  | Some _, None => 1
  | Some st, Some ht =>
      let result := ItemPointerCompare st ht in
      if (result <=? 0) || negb (ABTreeTupleIsPosting t) then result
      else if 0 <? ItemPointerCompare st (default ht (ABTreeTupleGetMaxHeapTID t)) then 1 else 0
  end.

Lemma compare_tuple_eq key args t : rel_ok -> key_ok key args -> tuple_ok t ->
  compare_tuple (rd_natts rel) key t =
  Some (let r := keycmp (Z.to_nat (keysz key)) (rd_cols rel) args (tuple_key t) in if r =? 0 then tie key t else r).
Proof.
  intros Hrel [He Hs Hc Ht] Hok. unfold compare_tuple. rewrite He.
  assert (Hn : ABTreeTupleGetNAtts t (rd_natts rel) = Z.of_nat (length (tuple_key t))) by (destruct t; simpl in *; lia).
  rewrite Hn. rewrite (compare_attrs_keycmp (rd_cols rel) args [] (tuple_key t) t) by (done || lia). cbn [mbind option_bind].
  assert (Htid : (Z.to_nat (keysz key) <= length (tuple_key t))%nat -> compare_tid key (Z.of_nat (length (tuple_key t))) t = Some (tie key t)).
  { intros Hge. unfold compare_tid, tie. rewrite (proj2 (Z.ltb_ge _ _)), Hn by lia.
    destruct (scantid key) as [st|], (ABTreeTupleGetHeapTID t) as [ht|] eqn:Eh; try done. case_match; [done|].
    destruct (ABTreeTupleGetMaxHeapTID t) eqn:Em; [done|]. destruct t as [t|p]; simpl in *; [|congruence].
    destruct Hok as (_ & lo & hi & ? & ? & _). destruct (is_posting t); congruence. }
  destruct (Z.lt_ge_cases (Z.of_nat (length (tuple_key t))) (keysz key)) as [Hlt|Hge].
  - rewrite Z.min_l, Nat2Z.id by lia. rewrite (keycmp_short (Z.to_nat (keysz key))) by lia. cbv zeta.
    destruct (Z.eqb_spec (keycmp (length (tuple_key t)) (rd_cols rel) args (tuple_key t)) 0) as [|Hne].
    + unfold compare_tid. by rewrite (proj2 (Z.ltb_lt _ _)) by lia.
    + by rewrite (proj2 (Z.eqb_neq _ _) Hne).
  - rewrite Z.min_r by lia. cbv zeta. case_match; [|done]. apply Htid. lia.
Qed.

(** [t1] comes before [t2] in the index: by its key columns, then by heap TID. *)
Definition tid_before (t1 t2 : index_tuple) : Prop :=
  match ABTreeTupleGetMaxHeapTID t1, ABTreeTupleGetHeapTID t2 with
  | None, _ => True
  | Some a, Some b => ItemPointerCompare a b < 0
  | Some _, None => False
  end.
Definition tuple_before (t1 t2 : index_tuple) : Prop :=
  let r := lexcmp (rd_cols rel) (tuple_key t1) (tuple_key t2) in r < 0 \/ (r = 0 /\ tid_before t1 t2).

(** [t] is not behind the fence [f]: what a page's tuples are to its high key. *)
Definition tuple_upto (t f : index_tuple) : Prop :=
  let r := lexcmp (rd_cols rel) (tuple_key t) (tuple_key f) in
  r < 0 \/ (r = 0 /\
    match ABTreeTupleGetMaxHeapTID t, ABTreeTupleGetHeapTID f with Some a, Some b => ItemPointerCompare a b <= 0 | _, _ => False end).

Lemma lexcmp_0_length cols k1 k2 : lexcmp cols k1 k2 = 0 ->
  (length k1 <= length cols)%nat -> (length k2 <= length cols)%nat -> length k1 = length k2.
Proof.
  revert k1 k2. induction cols as [|c cols IH]; intros [|x k1] [|y k2]; simpl; try lia.
  case_match; zbool; [|lia]. intros. f_equal. apply IH; lia.
Qed.

Lemma heap_tid_range t lo hi : tuple_ok t -> ABTreeTupleGetHeapTID t = Some lo -> ABTreeTupleGetMaxHeapTID t = Some hi ->
  ItemPointerCompare lo hi <= 0.
Proof.
  unfold ItemPointerCompare. destruct t as [t|p]; simpl; [|intros _ -> [= ->]; rewrite !Z.ltb_irrefl; lia].
  intros (_ & lo' & hi' & -> & -> & Hle) [= ->]. case_match; intros [= <-]; [done|]. rewrite !Z.ltb_irrefl. lia.
Qed.

Lemma heap_tid_max t lo : tuple_ok t -> ABTreeTupleGetHeapTID t = Some lo -> exists hi, ABTreeTupleGetMaxHeapTID t = Some hi.
Proof.
  destruct t as [t|p]; simpl; [|eauto]. intros (_ & lo' & hi' & -> & -> & _) _. case_match; eauto.
Qed.

Lemma tie_mono key t1 t2 : rel_ok -> tuple_ok t1 -> tuple_ok t2 ->
  lexcmp (rd_cols rel) (tuple_key t1) (tuple_key t2) = 0 -> tid_before t1 t2 ->
  (0 <= tie key t2 -> 0 <= tie key t1) /\ (0 < tie key t2 -> 0 < tie key t1).
Proof.
  intros Hrel H1 H2 Hlex Hb. unfold tie, tid_before in *.
  destruct (ABTreeTupleGetHeapTID t1) as [lo1|] eqn:E1.
  - destruct (heap_tid_max _ _ H1 E1) as [hi1 Eh1]. rewrite Eh1 in *. pose proof (heap_tid_range _ _ _ H1 E1 Eh1).
    destruct (ABTreeTupleGetHeapTID t2) as [lo2|] eqn:E2; [|done]. destruct (scantid key) as [st|]; [|lia].
    pose proof (ItemPointerCompare_sym st lo2). pose proof (ItemPointerCompare_sym st hi1).
    pose proof (ItemPointerCompare_sym st lo1). pose proof (ItemPointerCompare_sym lo2 st).
    assert (Hgo : 0 <= ItemPointerCompare st lo2 -> 0 < ItemPointerCompare st lo1 /\ 0 < ItemPointerCompare st hi1).
    { intros Hst. pose proof (ItemPointerCompare_sym lo2 hi1). pose proof (ItemPointerCompare_sym lo1 st).
      pose proof (ItemPointerCompare_trans lo2 st hi1). pose proof (ItemPointerCompare_lt_trans lo1 hi1 lo2).
      pose proof (ItemPointerCompare_trans st lo1 hi1). lia. }
    cbv zeta. simpl default.
    match goal with |- (0 <= ?T2 -> 0 <= ?T1) /\ _ =>
      assert (Ht2 : 0 <= T2 -> 0 <= ItemPointerCompare st lo2);
      [|assert (Ht1 : 0 < ItemPointerCompare st lo1 -> 0 < ItemPointerCompare st hi1 -> 0 < T1); [|lia]]
    end.
    + destruct (Z.leb_spec (ItemPointerCompare st lo2) 0); simpl; lia.
    + intros. rewrite (proj2 (Z.leb_gt _ 0)), (proj2 (Z.ltb_lt 0 (ItemPointerCompare st hi1))) by lia.
      destruct (ABTreeTupleIsPosting t1); simpl; lia.
  - destruct (scantid key) as [st|]; [lia|]. destruct (ABTreeTupleGetHeapTID t2) as [lo2|] eqn:E2; [if_case; lia|].
    assert (ABTreeTupleGetNAtts t1 (rd_natts rel) = ABTreeTupleGetNAtts t2 (rd_natts rel)) as ->; [|lia].
    destruct t1 as [t1|p1]; [destruct H1 as (_ & ? & ? & Hh & _); simpl in E1; congruence|].
    destruct t2 as [t2|p2]; [destruct H2 as (_ & ? & ? & Hh & _); simpl in E2; congruence|].
    simpl in *. f_equal. apply (lexcmp_0_length (rd_cols rel)); [done|apply H1|apply H2].
Qed.

(** Comparing with a scan key respects the order of the index. *)
Lemma compare_mono key args t1 t2 : rel_ok -> key_ok key args -> tuple_ok t1 -> tuple_ok t2 -> tuple_before t1 t2 ->
  exists r1 r2, compare_tuple (rd_natts rel) key t1 = Some r1 /\ compare_tuple (rd_natts rel) key t2 = Some r2 /\
    (0 <= r2 -> 0 <= r1) /\ (0 < r2 -> 0 < r1).
Proof.
  intros Hrel Hkey H1 H2 Hb. rewrite (compare_tuple_eq key args t1), (compare_tuple_eq key args t2) by done.
  eexists _, _. split; [done|]. split; [done|]. cbv zeta. destruct Hkey as [_ Hs Hc Htid].
  set (m := Z.to_nat (keysz key)). destruct Hb as [Hlt|[Heq Hb]].
  - destruct (keycmp_mono m (rd_cols rel) args (tuple_key t1) (tuple_key t2)) as (M1 & M2 & M3);
      [apply Hrel|lia|lia|done|].
    destruct (Z.eqb_spec (keycmp m (rd_cols rel) args (tuple_key t2)) 0) as [E2|];
      destruct (Z.eqb_spec (keycmp m (rd_cols rel) args (tuple_key t1)) 0) as [E1|]; try lia.
    destruct (M3 E2 E1) as [Hl2 Hcm]. unfold tie. destruct (scantid key); [unfold indnkeyatts in Htid; specialize (Htid ltac:(done)); lia|].
    assert (Hn2 : (keysz key =? ABTreeTupleGetNAtts t2 (rd_natts rel)) = false).
    { apply Z.eqb_neq. destruct t2 as [t2|p2]; simpl in *; lia. }
    rewrite Hn2, andb_false_r. repeat case_match; lia.
  - pose proof (keycmp_eq m (rd_cols rel) args _ _ (rel_cols Hrel) Heq) as Hsgn.
    destruct (tie_mono key t1 t2 Hrel H1 H2 Heq Hb).
    destruct (Z.eqb_spec (keycmp m (rd_cols rel) args (tuple_key t2)) 0) as [E2|];
      destruct (Z.eqb_spec (keycmp m (rd_cols rel) args (tuple_key t1)) 0) as [E1|]; lia.
Qed.

End Rel.

End Page.
