(* ===== verification/Search.v ===== *)
(** * Binary search on a page (abtsearch.c)

    [_abt_binsrch] finds where a scan key belongs on a page, [_abt_binsrch_insert] does so
    for an insertion and caches the bounds it ends with, [_abt_binsrch_posting] finds the
    position of a TID in a posting list.  Offsets are 16-bit.  Every search is shown to
    give what scanning the page from left to right would give. *)

From stdpp Require Import base numbers option sorting list.
From S2P Require Import Prelude Dedup Page.

Module Search.
Import Dedup Page.

(** ** The loop *)

(** [while (high > low) { mid = ..; if (goright mid) low = mid + 1; else high = mid; }] *)
Section Loop.
Context (mid_of : Z -> Z -> Z) (next : Z -> Z) (goright : Z -> option bool).

Fixpoint bsearch (fuel : nat) (low high : Z) : option Z :=
  if low <? high then
    match fuel with
    | O => None
    | S fuel =>
        let mid := mid_of low high in
        right ← goright mid;
        if right : bool then bsearch fuel (next mid) high else bsearch fuel low mid
    end
  else Some low.

End Loop.

(** Midpoint and successor of offset numbers and of ints. *)
Definition mid16 (low high : Z) : Z := u16 (low + (high - low) / 2).
Definition next16 (mid : Z) : Z := u16 (mid + 1).
Definition mid_int (low high : Z) : Z := low + (high - low) / 2.

Section Search.
Context (rel : index_rel).

Definition cmpval (key : ABTScanInsertData) : Z := if nextkey key then 0 else 1.

(** Does the search continue to the right of the tuple at [off]? *)
Definition goes_right (key : ABTScanInsertData) (p : page) (off : Z) : option bool :=
  result ← _abt_compare (rd_natts rel) key p off;
  Some (cmpval key <=? result).

Definition _abt_binsrch (key : ABTScanInsertData) (p : page) : option Z :=
  let low := ABT_P_FIRSTDATAKEY (pg_opaque p) in
  let high := PageGetMaxOffsetNumber p in
  if high <? low then Some low
  else
    low ← bsearch mid16 next16 (goes_right key p) (length (pg_lines p)) low (u16 (high + 1));
    Some (if ABT_P_ISLEAF (pg_opaque p) then low else OffsetNumberPrev low).

(** ** Posting lists *)

Fixpoint posting_loop (fuel : nat) (st : tid) (tids : list tid) (low high : Z) : option Z :=
  if low <? high then
    match fuel with
    | O => None
    | S fuel =>
        let mid := mid_int low high in
        t ← tids !! Z.to_nat mid;
        let res := ItemPointerCompare st t in
        if 0 <? res then posting_loop fuel st tids (mid + 1) high
        else if res <? 0 then posting_loop fuel st tids low mid
        else Some mid
    end
  else Some low.

Definition _abt_binsrch_posting (key : ABTScanInsertData) (p : page) (offnum : Z) : option Z :=
  item ← PageGetItemId p offnum;
  match item with
  | (dead, LeafTup t) =>
      if negb (is_posting t) then Some 0
      else if dead : bool then Some (-1)
      else st ← scantid key; posting_loop (length (it_tids t)) st (it_tids t) 0 (nposting t)
  | (_, PivotTup _) => Some 0
  end.

(** ** Insertion *)

Record ABTInsertStateData := mk_ins {
  itup_key : ABTScanInsertData;
  ins_page : page;             (** the page of insertstate->buf *)
  bounds_valid : bool;
  ins_low : Z;
  ins_stricthigh : Z;
  postingoff : Z
}.

Fixpoint insert_loop (fuel : nat) (key : ABTScanInsertData) (p : page) (low high stricthigh postingoff : Z)
  : option (Z * Z * Z) :=
  if low <? high then
    match fuel with
    | O => None
    | S fuel =>
        let mid := mid16 low high in
        result ← _abt_compare (rd_natts rel) key p mid;
        postingoff' ←
          (if (result =? 0) && (match scantid key with Some _ => true | None => false end)
           then _abt_binsrch_posting key p mid else Some postingoff);
        if 1 <=? result then insert_loop fuel key p (next16 mid) high stricthigh postingoff'
        else insert_loop fuel key p low mid (if result =? 0 then stricthigh else mid) postingoff'
    end
  else Some (low, stricthigh, postingoff).

Definition _abt_binsrch_insert (st : ABTInsertStateData) : option (Z * ABTInsertStateData) :=
  let key := itup_key st in
  let p := ins_page st in
  let '(low, high) :=
    if bounds_valid st then (ins_low st, ins_stricthigh st)
    else (ABT_P_FIRSTDATAKEY (pg_opaque p), PageGetMaxOffsetNumber p) in
  if high <? low then
    Some (low, mk_ins key p false InvalidOffsetNumber InvalidOffsetNumber (postingoff st))
  else
    let high := if bounds_valid st then high else u16 (high + 1) in
    '(low, stricthigh, po) ← insert_loop (Z.to_nat (high - low)) key p low high high (postingoff st);
    Some (low, mk_ins key p true low stricthigh po).

End Search.

(** ** Linear search *)

(** The first offset from [low] on, among [n], where the search does not go right. *)
Fixpoint scan_from (n : nat) (goright : Z -> option bool) (low : Z) : option Z :=
  match n with
  | O => Some low
  | S n => right ← goright low; if right : bool then scan_from n goright (low + 1) else Some low
  end.

(** [r] splits [low .. high-1] into offsets to go right of and the others. *)
Definition splits (goright : Z -> option bool) (low high r : Z) : Prop :=
  low <= r <= high /\ (forall i, low <= i < r -> goright i = Some true) /\
  (forall i, r <= i < high -> goright i = Some false).

Lemma splits_scan n goright low r : splits goright low (low + Z.of_nat n) r -> scan_from n goright low = Some r.
Proof.
  revert low. induction n as [|n IH]; intros low (Hr & Ht & Hf); [simpl; f_equal; lia|]. simpl.
  destruct (Z.eq_dec r low) as [->|].
  - by rewrite Hf by lia.
  - rewrite Ht by lia. simpl. apply IH. split; [lia|]. split; intros; [apply Ht|apply Hf]; lia.
Qed.

(** A test that is monotone and defined on a range splits it. *)
Lemma splits_exists n goright low :
  (forall i, low <= i < low + Z.of_nat n -> exists b, goright i = Some b) ->
  (forall i j, low <= i < j -> j < low + Z.of_nat n -> goright j = Some true -> goright i = Some true) ->
  exists r, splits goright low (low + Z.of_nat n) r.
Proof.
  revert low. induction n as [|n IH]; intros low Hdef Hmono.
  - exists low. split; [lia|]. split; lia.
  - destruct (Hdef low ltac:(lia)) as [[] Hl].
    + destruct (IH (low + 1)) as (r & Hr & Ht & Hf).
      { intros. apply Hdef. lia. } { intros. eapply Hmono; [..|eassumption]; lia. }
      exists r. split; [lia|]. split; [|intros; apply Hf; lia].
      intros i Hi. destruct (Z.eq_dec i low) as [->|]; [done|]. apply Ht. lia.
    + exists low. split; [lia|]. split; [lia|]. intros i Hi.
      destruct (Z.eq_dec i low) as [->|]; [done|]. destruct (Hdef i ltac:(lia)) as [[] Hb]; [|done].
      rewrite (Hmono low i) in Hl; [done|lia|lia|done].
Qed.

Lemma bsearch_splits mid_of next goright fuel low high r :
  (forall l h, low <= l < h -> h <= high -> l <= mid_of l h < h /\ next (mid_of l h) = mid_of l h + 1) ->
  splits goright low high r -> high - low <= Z.of_nat fuel -> bsearch mid_of next goright fuel low high = Some r.
Proof.
  revert low high. induction fuel as [|fuel IH]; intros low high Hmid (Hr & Ht & Hf) Hfuel; simpl.
  - rewrite (proj2 (Z.ltb_ge _ _)) by lia. f_equal. lia.
  - destruct (Z.ltb_spec low high); [|f_equal; lia].
    destruct (Hmid low high ltac:(lia) ltac:(lia)) as [Hm Hnext]. rewrite Hnext. set (mid := mid_of low high) in *.
    destruct (Z.lt_ge_cases mid r).
    + rewrite Ht by lia. simpl. apply IH; [intros; apply Hmid; lia| |lia].
      split; [lia|]. split; intros; [apply Ht|apply Hf]; lia.
    + rewrite Hf by lia. simpl. apply IH; [intros; apply Hmid; lia| |lia].
      split; [lia|]. split; intros; [apply Ht|apply Hf]; lia.
Qed.

Lemma mid16_ok l h : 0 <= l < h -> h < 2 ^ 16 -> l <= mid16 l h < h /\ next16 (mid16 l h) = mid16 l h + 1.
Proof.
  intros. assert (l <= l + (h - l) / 2 < h) by divlia. unfold mid16, next16, u16.
  rewrite (Z.mod_small (l + _)) by lia. rewrite Z.mod_small by lia. lia.
Qed.

Lemma mid_int_ok l h : l < h -> l <= mid_int l h < h.
Proof. intros. unfold mid_int. divlia. Qed.

(** ** Pages in order *)

Section Facts.
Context (rel : index_rel) (Hrel : rel_ok rel).

Definition first_off (p : page) : Z := ABT_P_FIRSTDATAKEY (pg_opaque p).
Definition is_leaf (p : page) : bool := ABT_P_ISLEAF (pg_opaque p).

(** The data items of a page are well-formed and in the order of the index; the first
    one of an internal page counts as minus infinity, whatever it stores. *)
Record page_ok (p : page) : Prop := {
  pk_max : PageGetMaxOffsetNumber p < 2 ^ 16 - 1;
  pk_tuples : forall off t, first_off p <= off -> PageGetItem p off = Some t -> tuple_ok rel t;
  pk_sorted : forall i j ti tj, first_off p <= i < j -> (is_leaf p = false -> first_off p < i) ->
    PageGetItem p i = Some ti -> PageGetItem p j = Some tj -> tuple_before rel ti tj;
  pk_internal : is_leaf p = false -> first_off p <= PageGetMaxOffsetNumber p
}.

Lemma first_off_range p : 1 <= first_off p <= 2.
Proof. unfold first_off, ABT_P_FIRSTDATAKEY. case_match; unfold ABTP_HIKEY, ABTP_FIRSTKEY; lia. Qed.

Lemma item_in_range p off : 1 <= off <= PageGetMaxOffsetNumber p -> exists t, PageGetItem p off = Some t.
Proof.
  unfold PageGetMaxOffsetNumber, PageGetItem, PageGetItemId. intros. rewrite (proj2 (Z.ltb_ge _ _)) by lia.
  destruct (lookup_lt_is_Some_2 (pg_lines p) (Z.to_nat (off - 1))) as [x ->]; [lia|]. by eexists.
Qed.

Lemma compare_defined p key args off : page_ok p -> key_ok rel key args ->
  first_off p <= off <= PageGetMaxOffsetNumber p -> exists r, _abt_compare (rd_natts rel) key p off = Some r.
Proof.
  intros Hp Hk Hoff. pose proof (first_off_range p). unfold _abt_compare. case_match; [by eexists|].
  destruct (item_in_range p off) as [t Ht]; [lia|]. rewrite Ht. cbn [mbind option_bind].
  erewrite compare_tuple_eq; [by eexists|done|done|]. eapply (pk_tuples p Hp off); [lia|done].
Qed.

(** The comparison respects the order of the items. *)
Lemma compare_page_mono p key args i j r2 : page_ok p -> key_ok rel key args ->
  first_off p <= i < j -> j <= PageGetMaxOffsetNumber p -> _abt_compare (rd_natts rel) key p j = Some r2 ->
  exists r1, _abt_compare (rd_natts rel) key p i = Some r1 /\ (0 <= r2 -> 0 <= r1) /\ (0 < r2 -> 0 < r1).
Proof.
  intros Hp Hk Hij Hj H2. pose proof (first_off_range p). unfold _abt_compare in *. fold (first_off p) (is_leaf p) in *.
  destruct (negb (is_leaf p) && (i =? first_off p)) eqn:Ei; [exists 1; split; [done|lia]|].
  rewrite (proj2 (Z.eqb_neq j _)), andb_false_r in H2 by lia.
  destruct (item_in_range p i) as [ti Hti]; [lia|]. destruct (item_in_range p j) as [tj Htj]; [lia|].
  rewrite Hti. rewrite Htj in H2. cbn [mbind option_bind] in *.
  destruct (compare_mono rel key args ti tj) as (r1 & r2' & -> & Hr2 & Hm); try done.
  - eapply (pk_tuples p Hp i); [lia|done].
  - eapply (pk_tuples p Hp j); [lia|done].
  - eapply (pk_sorted p Hp i j); [lia| |done|done]. intros Hl. rewrite Hl in Ei. simpl in Ei. zbool. lia.
  - exists r1. split; [done|]. rewrite H2 in Hr2. by injection Hr2 as <-.
Qed.

Lemma page_splits p key args : page_ok p -> key_ok rel key args ->
  exists r, splits (goes_right rel key p) (first_off p) (Z.max (first_off p) (PageGetMaxOffsetNumber p + 1)) r.
Proof.
  intros Hp Hk. set (n := Z.to_nat (PageGetMaxOffsetNumber p + 1 - first_off p)).
  replace (Z.max _ _) with (first_off p + Z.of_nat n) by lia. apply splits_exists.
  - intros i Hi. destruct (compare_defined p key args i Hp Hk ltac:(lia)) as [r Hr].
    unfold goes_right. rewrite Hr. by eexists.
  - intros i j Hij Hj. unfold goes_right. destruct (_abt_compare _ key p j) as [r2|] eqn:E2; [|done].
    destruct (compare_page_mono p key args i j r2 Hp Hk ltac:(lia) ltac:(lia) E2) as (r1 & -> & H0 & H1).
    simpl. intros [= H]. f_equal. unfold cmpval in *. destruct (nextkey key); zbool; lia.
Qed.

Lemma binsrch_splits p key r : page_ok p ->
  splits (goes_right rel key p) (first_off p) (Z.max (first_off p) (PageGetMaxOffsetNumber p + 1)) r ->
  _abt_binsrch rel key p = Some (if is_leaf p then r else if PageGetMaxOffsetNumber p <? first_off p then r else r - 1).
Proof.
  intros Hp Hs. pose proof (first_off_range p). pose proof (pk_max p Hp). unfold _abt_binsrch.
  fold (first_off p) (is_leaf p). destruct (Z.ltb_spec (PageGetMaxOffsetNumber p) (first_off p)).
  - destruct Hs as [Hr _]. case_match; f_equal; lia.
  - rewrite Z.max_r in Hs by lia. unfold u16 at 1. rewrite Z.mod_small by lia.
    rewrite (bsearch_splits _ _ _ _ _ _ r).
    + cbn [mbind option_bind]. destruct (is_leaf p); [done|]. unfold OffsetNumberPrev, u16.
      destruct Hs as [Hr _]. rewrite Z.mod_small by lia. f_equal. lia.
    + intros l h Hl Hh. apply mid16_ok; lia.
    + done.
    + unfold PageGetMaxOffsetNumber in *. lia.
Qed.

(** On an internal page the search ends behind the first downlink. *)
Lemma internal_split p key r : page_ok p ->
  splits (goes_right rel key p) (first_off p) (Z.max (first_off p) (PageGetMaxOffsetNumber p + 1)) r ->
  is_leaf p = false -> first_off p <= r - 1 <= PageGetMaxOffsetNumber p.
Proof.
  intros Hp (Hr & _ & Hf) Hl. pose proof (pk_internal p Hp Hl). split; [|lia].
  destruct (Z.eq_dec r (first_off p)) as [->|]; [|lia]. exfalso. specialize (Hf (first_off p) ltac:(lia)).
  unfold goes_right, _abt_compare in Hf. fold (first_off p) (is_leaf p) in Hf. rewrite Hl, Z.eqb_refl in Hf. simpl in Hf.
  unfold cmpval in Hf. by destruct (nextkey key).
Qed.

(** The downlink to follow: it is not to the right of the scan key. *)
Lemma binsrch_internal p key args : page_ok p -> key_ok rel key args -> is_leaf p = false ->
  exists off, _abt_binsrch rel key p = Some off /\ first_off p <= off <= PageGetMaxOffsetNumber p /\
    goes_right rel key p off = Some true.
Proof.
  intros Hp Hk Hl. destruct (page_splits p key args Hp Hk) as [r Hs]. pose proof (internal_split p key r Hp Hs Hl).
  exists (r - 1). rewrite (binsrch_splits p key r Hp Hs), Hl, (proj2 (Z.ltb_ge _ _)) by lia.
  split; [done|]. split; [done|]. destruct Hs as (_ & Ht & _). apply Ht. lia.
Qed.

End Facts.

(** C25: On a page in index order the binary search returns what scanning it from left to
    right would: on a leaf the first offset whose tuple the scan key does not go right of
    (possibly one past the end), on an internal page the offset before it, which is one
    of the page's downlinks. *)
Theorem binsrch_is_linear_search (rel : index_rel) (p : page) (key : ABTScanInsertData) (args : list (option Z)) :
  rel_ok rel -> page_ok rel p -> key_ok rel key args ->
  exists r, scan_from (Z.to_nat (PageGetMaxOffsetNumber p + 1 - first_off p)) (goes_right rel key p) (first_off p) = Some r /\
    _abt_binsrch rel key p = Some (if is_leaf p then r else r - 1) /\
    first_off p <= r <= Z.max (first_off p) (PageGetMaxOffsetNumber p + 1) /\
    (is_leaf p = false -> first_off p <= r - 1 <= PageGetMaxOffsetNumber p).
Proof.
  intros Hrel Hp Hk. destruct (page_splits rel Hrel p key args Hp Hk) as [r Hs]. exists r.
  pose proof (first_off_range p).
  pose proof (internal_split rel p key r Hp Hs) as Hint.
  split_and!.
  - apply splits_scan. by replace (first_off p + Z.of_nat _) with (Z.max (first_off p) (PageGetMaxOffsetNumber p + 1)) by lia.
  - rewrite (binsrch_splits rel p key r Hp Hs). destruct (is_leaf p) eqn:El; [done|].
    by rewrite (proj2 (Z.ltb_ge _ _)) by (specialize (Hint eq_refl); lia).
  - destruct Hs; lia.
  - destruct Hs; lia.
  - exact Hint.
Qed.

(** ** Posting lists *)

Definition tids_sorted (tids : list tid) : Prop :=
  forall a b x y, (a < b)%nat -> tids !! a = Some x -> tids !! b = Some y -> ItemPointerCompare x y < 0.

Lemma ItemPointerCompare_gt_trans a b c :
  ItemPointerCompare a b < 0 -> ItemPointerCompare b c <= 0 -> ItemPointerCompare a c < 0.
Proof. unfold ItemPointerCompare. repeat if_case; lia. Qed.

(** [i] is where [st] belongs among [tids]. *)
Definition tid_position (st : tid) (tids : list tid) (i : Z) : Prop :=
  0 <= i <= Z.of_nat (length tids) /\
  (forall k x, Z.of_nat k < i -> tids !! k = Some x -> ItemPointerCompare x st < 0) /\
  (forall k x, i <= Z.of_nat k -> tids !! k = Some x -> ItemPointerCompare st x <= 0).

Lemma posting_loop_spec fuel st tids low high :
  tids_sorted tids -> 0 <= low <= high -> high <= Z.of_nat (length tids) -> high - low <= Z.of_nat fuel ->
  (forall k x, Z.of_nat k < low -> tids !! k = Some x -> ItemPointerCompare x st < 0) ->
  (forall k x, high <= Z.of_nat k -> tids !! k = Some x -> ItemPointerCompare st x < 0) ->
  exists i, posting_loop fuel st tids low high = Some i /\ tid_position st tids i.
Proof.
  intros Hsort. revert low high. induction fuel as [|fuel IH]; intros low high Hlh Hh Hfuel Hlo Hhi; simpl.
  { rewrite (proj2 (Z.ltb_ge _ _)) by lia. exists low. split; [done|]. split; [lia|]. split; [done|].
    intros k x Hk Hx. specialize (Hhi k x ltac:(lia) Hx). lia. }
  destruct (Z.ltb_spec low high).
  2:{ exists low. split; [done|]. split; [lia|]. split; [done|].
      intros k x Hk Hx. specialize (Hhi k x ltac:(lia) Hx). lia. }
  pose proof (mid_int_ok low high ltac:(lia)) as Hm. set (mid := mid_int low high) in *.
  destruct (lookup_lt_is_Some_2 tids (Z.to_nat mid)) as [t Ht]; [lia|]. rewrite Ht. cbn [mbind option_bind].
  pose proof (ItemPointerCompare_sym st t) as Hsym.
  assert (Hbelow : forall k x, Z.of_nat k < mid -> tids !! k = Some x -> ItemPointerCompare x t < 0).
  { intros k x Hk Hx. apply (Hsort k (Z.to_nat mid)); [lia|done|done]. }
  assert (Habove : forall k x, mid < Z.of_nat k -> tids !! k = Some x -> ItemPointerCompare t x < 0).
  { intros k x Hk Hx. apply (Hsort (Z.to_nat mid) k); [lia|done|done]. }
  assert (Hat : forall k x, Z.of_nat k = mid -> tids !! k = Some x -> x = t).
  { intros k x Hk Hx. replace (Z.to_nat mid) with k in Ht by lia. congruence. }
  destruct (Z.ltb_spec 0 (ItemPointerCompare st t)); [|destruct (Z.ltb_spec (ItemPointerCompare st t) 0)].
  - apply IH; [lia|lia|lia| |done]. intros k x Hk Hx. destruct (Z.eq_dec (Z.of_nat k) mid) as [E|].
    + rewrite (Hat k x E Hx). lia.
    + eapply ItemPointerCompare_gt_trans; [apply (Hbelow k x); [lia|done]|lia].
  - apply IH; [lia|lia|lia|done|]. intros k x Hk Hx. destruct (Z.eq_dec (Z.of_nat k) mid) as [E|].
    + by rewrite (Hat k x E Hx).
    + eapply ItemPointerCompare_gt_trans; [eassumption|]. specialize (Habove k x ltac:(lia) Hx). lia.
  - exists mid. split; [done|]. split; [lia|]. split.
    + intros k x Hk Hx. eapply ItemPointerCompare_gt_trans; [by apply (Hbelow k x)|lia].
    + intros k x Hk Hx. destruct (Z.eq_dec (Z.of_nat k) mid) as [E|]; [rewrite (Hat k x E Hx); lia|].
      apply Z.lt_le_incl, ItemPointerCompare_lt_trans with t; [lia|]. apply (Habove k x); [lia|done].
Qed.

(** The posting list search of a live posting tuple returns the position where the
    scan key's TID belongs: every TID before it is smaller, none from it on is. *)
Theorem binsrch_posting_position (key : ABTScanInsertData) (p : page) (offnum : Z) (t : itup) (st : tid) :
  PageGetItemId p offnum = Some (false, LeafTup t) -> is_posting t = true -> scantid key = Some st ->
  tids_sorted (it_tids t) ->
  exists i, _abt_binsrch_posting key p offnum = Some i /\ tid_position st (it_tids t) i.
Proof.
  intros Hp Hpost Hst Hsort. unfold _abt_binsrch_posting. rewrite Hp, Hst. cbn [mbind option_bind]. rewrite Hpost. simpl.
  unfold nposting. apply posting_loop_spec; [done|lia|lia|lia|lia|].
  intros k x Hk Hx. apply lookup_lt_Some in Hx. lia.
Qed.

(** ** Insertion *)

Lemma posting_loop_total fuel st tids low high :
  0 <= low -> high <= Z.of_nat (length tids) -> high - low <= Z.of_nat fuel ->
  exists i, posting_loop fuel st tids low high = Some i.
Proof.
  revert low high. induction fuel as [|fuel IH]; intros low high Hl Hh Hf; simpl.
  { rewrite (proj2 (Z.ltb_ge _ _)) by lia. by eexists. }
  destruct (Z.ltb_spec low high); [|by eexists]. pose proof (mid_int_ok low high ltac:(lia)) as Hm.
  destruct (lookup_lt_is_Some_2 tids (Z.to_nat (mid_int low high))) as [t ->]; [lia|]. cbn [mbind option_bind].
  repeat case_match; [apply IH; lia..|by eexists].
Qed.

Lemma posting_total key p off : scantid key <> None -> 1 <= off <= PageGetMaxOffsetNumber p ->
  exists i, _abt_binsrch_posting key p off = Some i.
Proof.
  intros Hst Hoff. unfold _abt_binsrch_posting. destruct (item_in_range p off Hoff) as [t Ht]. unfold PageGetItem in Ht.
  destruct (PageGetItemId p off) as [[dead t']|]; [|done]. cbn [mbind option_bind].
  destruct t' as [t'|]; [|by eexists]. case_match; [by eexists|]. case_match; [by eexists|].
  destruct (scantid key) as [st|]; [|done]. cbn [mbind option_bind]. unfold nposting. apply posting_loop_total; lia.
Qed.

Section Insert.
Context (rel : index_rel) (Hrel : rel_ok rel) (p : page) (Hp : page_ok rel p).
Context (key : ABTScanInsertData) (args : list (option Z)) (Hk : key_ok rel key args) (Hnext : nextkey key = false).

Local Abbreviation cmp := (_abt_compare (rd_natts rel) key p).
Local Abbreviation maxoff := (PageGetMaxOffsetNumber p).

(** Every tuple from [sh] on is greater than the scan key. *)
Definition all_greater (sh : Z) : Prop := forall i r, sh <= i <= maxoff -> cmp i = Some r -> r < 0.

(** The posting list offset the search leaves when it ends at [i]: that of the tuple at
    [i] when the scan key's TID falls into it, otherwise what it was ([po]). *)
Definition posting_at (top po i : Z) : option Z :=
  if (i <? top) && bool_decide (cmp i = Some 0) && (match scantid key with Some _ => true | None => false end)
  then _abt_binsrch_posting key p i else Some po.

Lemma goes_right_cmp i b : goes_right rel key p i = Some b -> exists r, cmp i = Some r /\ b = (1 <=? r).
Proof.
  unfold goes_right, cmpval. rewrite Hnext. destruct (_abt_compare _ key p i) as [r|]; simpl; [|done].
  intros [= <-]. eauto.
Qed.

Lemma all_greater_from mid r : first_off p <= mid <= maxoff -> cmp mid = Some r -> r < 0 -> all_greater mid.
Proof.
  intros Hm Hr Hneg i ri Hi Hri. destruct (Z.eq_dec i mid) as [->|]; [congruence|].
  destruct (compare_page_mono rel Hrel p key args mid i ri Hp Hk) as (r' & Hr' & H0 & _); [lia|lia|done|].
  rewrite Hr in Hr'. injection Hr' as <-. lia.
Qed.

Lemma insert_loop_spec fuel top po0 low high sh po r :
  first_off p <= low -> high <= top <= maxoff + 1 -> low <= high <= sh -> high - low <= Z.of_nat fuel ->
  splits (goes_right rel key p) low high r -> all_greater sh -> posting_at top po0 high = Some po ->
  exists sh' po', insert_loop rel fuel key p low high sh po = Some (r, sh', po') /\
    r <= sh' <= sh /\ all_greater sh' /\ posting_at top po0 r = Some po'.
Proof.
  intros Hlow Htop. revert low high sh po Hlow Htop. pose proof (pk_max rel p Hp). pose proof (first_off_range p).
  induction fuel as [|fuel IH]; intros low high sh po Hlow Htop Hlh Hf (Hr & Ht & Hfa) Hg Hpo; simpl.
  { rewrite (proj2 (Z.ltb_ge _ _)) by lia. replace r with high by lia. replace low with high by lia.
    exists sh, po. auto with lia. }
  destruct (Z.ltb_spec low high).
  2:{ replace r with high by lia. replace low with high by lia. exists sh, po. auto with lia. }
  destruct (mid16_ok low high ltac:(lia) ltac:(lia)) as [Hm ->]. set (mid := mid16 low high) in *.
  destruct (compare_defined rel Hrel p key args mid Hp Hk) as [rm Hrm]; [lia|]. rewrite Hrm. cbn [mbind option_bind].
  destruct (Z.lt_ge_cases mid r) as [Hlt|Hge].
  - destruct (goes_right_cmp _ _ (Ht mid ltac:(lia))) as (r' & Hr' & Hb). rewrite Hrm in Hr'. injection Hr' as <-.
    symmetry in Hb. rewrite Hb. zbool. rewrite (proj2 (Z.eqb_neq rm 0)) by lia. cbn [andb mbind option_bind].
    apply IH; try done; try lia. split; [lia|]. split; intros; [apply Ht|apply Hfa]; lia.
  - destruct (goes_right_cmp _ _ (Hfa mid ltac:(lia))) as (r' & Hr' & Hb). rewrite Hrm in Hr'. injection Hr' as <-.
    symmetry in Hb. rewrite Hb. zbool.
    assert (Hs' : splits (goes_right rel key p) low mid r).
    { split; [lia|]. split; intros; [apply Ht|apply Hfa]; lia. }
    assert (Hgo : forall sh1 po1, mid <= sh1 <= sh -> all_greater sh1 -> posting_at top po0 mid = Some po1 ->
      exists sh' po', insert_loop rel fuel key p low mid sh1 po1 = Some (r, sh', po') /\
        r <= sh' <= sh /\ all_greater sh' /\ posting_at top po0 r = Some po').
    { intros sh1 po1 Hsh1 Hg1 Hp1. destruct (IH low mid sh1 po1) as (sh' & po' & He & ? & ? & ?); try done; try lia.
      exists sh', po'. auto with lia. }
    destruct (Z.eqb_spec rm 0) as [->|Hne].
    + cbn [andb]. destruct (scantid key) as [st|] eqn:Est.
      * destruct (posting_total key p mid) as [po1 Hpo1]; [by rewrite Est|lia|]. rewrite Hpo1. cbn [mbind option_bind].
        apply Hgo; [lia|done|]. unfold posting_at. by rewrite (proj2 (Z.ltb_lt _ _)), bool_decide_true, Est by (done || lia).
      * cbn [mbind option_bind]. apply Hgo; [lia|done|]. revert Hpo. unfold posting_at. by rewrite Est, !andb_false_r.
    + cbn [andb mbind option_bind]. pose proof (all_greater_from mid rm ltac:(lia) Hrm ltac:(lia)) as Hgm.
      apply Hgo; [lia|done|]. revert Hpo. unfold posting_at.
      rewrite (bool_decide_false (cmp mid = Some 0)), andb_false_r by congruence. simpl.
      destruct (Z.ltb_spec high top); simpl; [|done].
      rewrite bool_decide_false; [done|]. intros Hz. specialize (Hgm high 0 ltac:(lia) Hz). lia.
Qed.

End Insert.

(** The caching search of an insertion finds the same offset as the plain binary
    search; it records the posting list offset exactly when the new TID falls into the
    tuple found; the bounds it caches hold (all tuples from stricthigh on are greater),
    and searching again within them finds the same offset. *)
Theorem binsrch_insert_cached (rel : index_rel) (p : page) (key : ABTScanInsertData) (args : list (option Z)) :
  rel_ok rel -> page_ok rel p -> key_ok rel key args -> is_leaf p = true -> nextkey key = false ->
  first_off p <= PageGetMaxOffsetNumber p ->
  exists r sh po,
    _abt_binsrch rel key p = Some r /\
    _abt_binsrch_insert rel (mk_ins key p false 0 0 0) = Some (r, mk_ins key p true r sh po) /\
    all_greater rel p key sh /\ posting_at rel p key (PageGetMaxOffsetNumber p + 1) 0 r = Some po /\
    exists sh' po', _abt_binsrch_insert rel (mk_ins key p true r sh 0) = Some (r, mk_ins key p true r sh' po').
Proof.
  intros Hrel Hp Hk Hleaf Hnext Hne. destruct (page_splits rel Hrel p key args Hp Hk) as [r Hs]. exists r.
  pose proof (first_off_range p). pose proof (pk_max rel p Hp).
  pose proof (binsrch_splits rel p key r Hp Hs) as Hb. rewrite Hleaf in Hb. rewrite Z.max_r in Hs by lia.
  set (top := PageGetMaxOffsetNumber p + 1) in *.
  assert (Hnone : forall po, posting_at rel p key top po top = Some po) by (intros; unfold posting_at; by rewrite Z.ltb_irrefl).
  destruct (insert_loop_spec rel Hrel p Hp key args Hk Hnext (Z.to_nat (top - first_off p)) top 0 (first_off p) top top 0 r)
    as (sh & po & He & Hsh & Hg & Hpo); try done; try lia.
  { intros i ri Hi. lia. }
  exists sh, po. split; [done|]. unfold _abt_binsrch_insert. cbn [bounds_valid ins_page itup_key postingoff ins_low ins_stricthigh].
  fold (first_off p). split.
  { rewrite (proj2 (Z.ltb_ge _ _)) by lia. unfold u16. rewrite Z.mod_small by lia. fold top. by rewrite He. }
  split; [done|]. split; [done|]. rewrite (proj2 (Z.ltb_ge _ _)) by lia.
  destruct Hs as (Hr & Ht & Hf).
  destruct (insert_loop_spec rel Hrel p Hp key args Hk Hnext (Z.to_nat (sh - r)) sh 0 r sh sh 0 r)
    as (sh' & po' & He' & _); try done; try lia.
  - split; [lia|]. split; [lia|]. intros i Hi. apply Hf. lia.
  - unfold posting_at. by rewrite Z.ltb_irrefl.
  - exists sh', po'. by rewrite He'.
Qed.

(** ** A page as a list of tuples *)

Definition data_items (p : page) : list index_tuple := drop (Z.to_nat (first_off p - 1)) (snd <$> pg_lines p).

Lemma PageGetItem_data p off : first_off p <= off -> PageGetItem p off = data_items p !! Z.to_nat (off - first_off p).
Proof.
  intros Hoff. pose proof (first_off_range p). unfold PageGetItem, PageGetItemId, data_items.
  rewrite (proj2 (Z.ltb_ge _ _)), lookup_drop, list_lookup_fmap by lia. do 2 f_equal. lia.
Qed.

Lemma page_ok_intro rel p :
  PageGetMaxOffsetNumber p < 2 ^ 16 - 1 -> Forall (tuple_ok rel) (data_items p) ->
  StronglySorted (tuple_before rel) (if is_leaf p then data_items p else tail (data_items p)) ->
  (is_leaf p = false -> data_items p <> []) -> page_ok rel p.
Proof.
  intros Hmax Hok Hsort Hne. pose proof (first_off_range p). split; [done| | |].
  - intros off t Hoff. rewrite PageGetItem_data by done. intros Ht. by eapply Forall_lookup_1.
  - intros i j ti tj Hij Hfirst. rewrite !PageGetItem_data by lia. intros Hi Hj. destruct (is_leaf p).
    + eapply (StronglySorted_lookup _ _ _ _ _ _ Hsort); [|exact Hi|exact Hj]. lia.
    + specialize (Hfirst eq_refl). destruct (data_items p) as [|t0 ts]; [done|]. simpl in Hsort.
      replace (Z.to_nat (i - first_off p)) with (S (Z.to_nat (i - first_off p - 1))) in Hi by lia.
      replace (Z.to_nat (j - first_off p)) with (S (Z.to_nat (j - first_off p - 1))) in Hj by lia. simpl in Hi, Hj.
      eapply (StronglySorted_lookup _ _ _ _ _ _ Hsort); [|exact Hi|exact Hj]. lia.
  - intros Hl. specialize (Hne Hl). unfold PageGetMaxOffsetNumber, data_items in *.
    apply Z.nlt_ge. intros Hlt. apply Hne, drop_ge. rewrite length_fmap. lia.
Qed.

(** ** A concrete page *)

Definition demo_rel : index_rel := mk_rel 1 [mk_col false false Z.sub] true.

Lemma demo_rel_ok : rel_ok demo_rel.
Proof. split; [|done]. repeat constructor. all: apply sub_order. Qed.

Definition plain (k : Z) (t : tid) : bool * index_tuple := (false, LeafTup (mk_itup [Some k] 24 None [t] [] [3])).
Definition posting (k : Z) (ts : list tid) : bool * index_tuple :=
  (false, LeafTup (mk_itup [Some k] 64 (Some 16) ts [] (replicate (length ts) 3))).
Definition down (k : list (option Z)) (blk agg : Z) : bool * index_tuple := (false, PivotTup (mk_pivot k None blk agg 0)).

Definition demo_leaf_page : page := mk_pg
  [plain 10 (mk_tid 0 1); plain 20 (mk_tid 0 2); posting 30 [mk_tid 0 3; mk_tid 1 1; mk_tid 4 2]; plain 40 (mk_tid 2 2)]
  (mk_opaque 0 0 0 ABTP_LEAF 0).

Definition demo_inner_page : page := mk_pg
  [down [Some 50] 0 0; down [] 4 7; down [Some 10] 5 3; down [Some 30] 6 9]
  (mk_opaque 0 8 1 0 0).

Definition demo_key (k : Z) (st : option tid) : ABTScanInsertData :=
  mk_key true true false false false st 1 (key_entries 1 (rd_cols demo_rel) [Some k]).

Lemma demo_key_ok k st : key_ok demo_rel (demo_key k st) [Some k].
Proof. split; simpl; (done || lia). Qed.

Lemma demo_leaf_ok : page_ok demo_rel demo_leaf_page.
Proof.
  apply page_ok_intro; [done| | |done].
  - repeat (apply Forall_cons; split); [..|constructor]; (split; [done|eexists _, _; by split_and!]).
  - repeat constructor; left; done.
Qed.

Lemma demo_inner_ok : page_ok demo_rel demo_inner_page.
Proof.
  apply page_ok_intro; [done| | |done].
  - repeat (apply Forall_cons; split); [..|constructor]; (split; simpl; [lia|done]).
  - repeat constructor; left; done.
Qed.

Example demo_binsrch : _abt_binsrch demo_rel (demo_key 30 None) demo_leaf_page = Some 3 /\
  _abt_binsrch demo_rel (demo_key 25 None) demo_inner_page = Some 3.
Proof. by vm_compute. Qed.

Lemma binsrch_is_linear_search_witness :
  exists r, _abt_binsrch demo_rel (demo_key 25 None) demo_inner_page = Some (r - 1) /\ 2 <= r <= 5.
Proof.
  destruct (binsrch_is_linear_search demo_rel demo_inner_page (demo_key 25 None) [Some 25])
    as (r & _ & H & Hr & _); [apply demo_rel_ok|apply demo_inner_ok|apply demo_key_ok|].
  exists r. by split.
Defined.

Lemma binsrch_posting_position_witness :
  exists i, _abt_binsrch_posting (demo_key 30 (Some (mk_tid 2 7))) demo_leaf_page 3 = Some i /\
    tid_position (mk_tid 2 7) [mk_tid 0 3; mk_tid 1 1; mk_tid 4 2] i.
Proof.
  apply (binsrch_posting_position (demo_key 30 (Some (mk_tid 2 7))) demo_leaf_page 3
    (mk_itup [Some 30] 64 (Some 16) [mk_tid 0 3; mk_tid 1 1; mk_tid 4 2] [] [3; 3; 3]) (mk_tid 2 7)); [reflexivity..|].
  intros [|[|[|a]]] [|[|[|b]]] x y Hab; simpl; try lia; try done; intros [= <-] [= <-]; done.
Defined.

Lemma binsrch_insert_cached_witness :
  exists r sh po,
    _abt_binsrch demo_rel (demo_key 30 (Some (mk_tid 2 7))) demo_leaf_page = Some r /\
    _abt_binsrch_insert demo_rel (mk_ins (demo_key 30 (Some (mk_tid 2 7))) demo_leaf_page false 0 0 0) =
      Some (r, mk_ins (demo_key 30 (Some (mk_tid 2 7))) demo_leaf_page true r sh po).
Proof.
  destruct (binsrch_insert_cached demo_rel demo_leaf_page (demo_key 30 (Some (mk_tid 2 7))) [Some 30])
    as (r & sh & po & H1 & H2 & _);
    [apply demo_rel_ok|apply demo_leaf_ok|apply demo_key_ok|reflexivity|reflexivity|done|].
  exists r, sh, po. by split.
Defined.

End Search.
