(* ===== verification/Truncate.v ===== *)
(** * Suffix truncation

    When a leaf page is split, the tuples around the split point give the left page's
    high key, which is also the separator in the parent: _abt_truncate of abtutils.c
    copies the first right tuple's key, drops the columns that are not needed to tell the
    two sides apart, and adds a heap TID when no column does.  The result separates the
    sides, passes the checks of _abt_check_natts, and stays within the room that
    _abt_check_third_page leaves for it on internal pages. *)

From stdpp Require Import base numbers option list.
From S2P Require Import Prelude Tuple Dedup Page Search.

Module Truncate.
Import Tuple Dedup Page Search.

(** A truncated tuple: what it means as a pivot tuple, its size, and the attributes whose
    values it stores (possibly more than its header counts). *)
Record truncated := mk_trunc { tr_pivot : pivot; tr_size : Z; tr_stored : list (option Z) }.

Section Rel.
Context (rel : index_rel) (ai : agg_info).
(** The size of a tuple formed from attribute values, by index_form_tuple. *)
Context (index_form_size : list (option Z) -> Z).

(** The loop over the key attributes; [None] when a tuple or the scan key has fewer. *)
Fixpoint keep_natts_loop (nkeyatts : nat) (keys : list ScanKeyData) (k1 k2 : list (option Z)) (keepnatts : Z) : option Z :=
  match nkeyatts with
  | O => Some keepnatts
  | S n =>
      match keys, k1, k2 with
      | scankey :: keys, datum1 :: k1, datum2 :: k2 =>
          match datum1, datum2 with
          | None, None => keep_natts_loop n keys k1 k2 (keepnatts + 1)
          | Some d1, Some d2 =>
              if negb (sk_func scankey d1 d2 =? 0) then Some keepnatts else keep_natts_loop n keys k1 k2 (keepnatts + 1)
          | _, _ => Some keepnatts
          end
      | _, _, _ => None
      end
  end.

Definition _abt_keep_natts (lastleft firstright : itup) (itup_key : ABTScanInsertData) : option Z :=
  if negb (heapkeyspace itup_key) then Some (indnkeyatts rel)
  else keep_natts_loop (Z.to_nat (indnkeyatts rel)) (scankeys itup_key) (it_key lastleft) (it_key firstright) 1.

(** The block number in a leaf tuple's header, which the pivot inherits until the caller
    sets its downlink. *)
Definition header_block (t : itup) : option Z :=
  match it_postingoff t with Some off => Some off | None => ip_blkid <$> head (it_tids t) end.

Definition _abt_truncate (lastleft firstright : itup) (itup_key : ABTScanInsertData) : option truncated :=
  let nkeyatts := indnkeyatts rel in
  keepnatts ← _abt_keep_natts lastleft firstright itup_key;
  blk ← header_block firstright;
  let pivot n tid := mk_pivot (take (Z.to_nat n) (it_key firstright)) tid blk 0 0 in
  let '(actual_size, stored) :=
    if keepnatts <? nkeyatts then
      let kept := take (Z.to_nat (Z.min keepnatts nkeyatts)) (it_key firstright) in (index_form_size kept, kept)
    else
      let new_size :=
        match it_postingoff firstright with
        | Some off => off
        | None => it_size firstright - extra_space_for_nonpivot_tuple ai
        end in
      ((if keepnatts <=? nkeyatts then new_size else new_size + MAXALIGN sizeof_ItemPointerData), it_key firstright) in
  if keepnatts <=? nkeyatts then Some (mk_trunc (pivot keepnatts None) actual_size stored)
  else
    tid ← ABTreeTupleGetMaxHeapTID (LeafTup lastleft);
    Some (mk_trunc (pivot nkeyatts (Some tid)) actual_size stored).

(** ** The number of attributes of the tuples of a page *)

Definition ABTreeTupleIsPivot (t : index_tuple) : bool := match t with LeafTup _ => false | PivotTup _ => true end.

(** The offset number in a tuple's header, with the status bits of a posting list or a
    pivot. *)
Definition header_offset (t : index_tuple) : Z :=
  match t with
  | LeafTup t => if is_posting t then Z.lor (nposting t) ABT_IS_POSTING else match head (it_tids t) with Some tid => ip_posid tid | None => 0 end
  | PivotTup p => Z.lor (Z.of_nat (length (pv_key p))) (match pv_tid p with Some _ => ABT_PIVOT_HEAP_TID_ATTR | None => 0 end)
  end.

Definition _abt_check_natts (heapkeyspace : bool) (p : page) (offnum : Z) : option bool :=
  let natts := rd_natts rel in
  let nkeyatts := indnkeyatts rel in
  let opaque := pg_opaque p in
  if ABT_P_IGNORE opaque then Some true
  else
    itup ← PageGetItem p offnum;
    let tupnatts := ABTreeTupleGetNAtts itup natts in
    let generic :=
      if negb (ABTreeTupleIsPivot itup) then false
      else if ABTreeTupleIsPosting itup then false
      else if (match ABTreeTupleGetHeapTID itup with Some _ => true | None => false end) && negb (tupnatts =? nkeyatts) then false
      else (0 <? tupnatts) && (tupnatts <=? nkeyatts) in
    Some (
      if negb heapkeyspace && ABTreeTupleIsPosting itup then false
      else if ABTreeTupleIsPosting itup && negb (Z.land (header_offset itup) ABT_PIVOT_HEAP_TID_ATTR =? 0) then false
      else if negb (natts =? nkeyatts) && ABTreeTupleIsPosting itup then false
      else if ABT_P_ISLEAF opaque then
        if ABT_P_FIRSTDATAKEY opaque <=? offnum then
          if ABTreeTupleIsPivot itup then false else tupnatts =? natts
        else if negb heapkeyspace then tupnatts =? nkeyatts
        else generic
      else if offnum =? ABT_P_FIRSTDATAKEY opaque then
        if heapkeyspace then tupnatts =? 0
        else (tupnatts =? 0) || (header_offset itup =? ABTP_HIKEY)
      else if negb heapkeyspace then tupnatts =? nkeyatts
      else generic).

(** ** A third of a page *)

Definition ABTMaxItemSize : Z :=
  MAXALIGN_DOWN ((BLCKSZ - MAXALIGN SizeOfPageHeaderData - MAXALIGN (3 * sizeof_ItemIdData) -
    3 * extra_space_when_tid_present ai - MAXALIGN sizeof_ABTPageOpaqueData) / 3).
Definition ABTMaxItemSizeNoHeapTid : Z :=
  MAXALIGN_DOWN ((BLCKSZ - MAXALIGN SizeOfPageHeaderData - 3 * MAXALIGN sizeof_ItemIdData -
    MAXALIGN sizeof_ABTPageOpaqueData) / 3).

(** Whether a tuple of this size may go to a page; the code raises an error otherwise. *)
Definition _abt_check_third_page (isleaf : bool) (size : Z) : bool :=
  let itemsz := MAXALIGN size in
  if negb isleaf then itemsz <=? ABTMaxItemSizeNoHeapTid
  else (if leaf_has_agg ai then MAXALIGN (itemsz - extra_space_when_tid_missing ai) else itemsz) <=? ABTMaxItemSize.

End Rel.

(** ** The order of truncated keys *)

Abbreviation ordered := (Forall (fun c => BtreeOrder (col_cmp c))).

Lemma col_compare_refl c x : BtreeOrder (col_cmp c) -> col_compare c x x = 0.
Proof. intros Hc. pose proof (col_compare_sym c x x). lia. Qed.

(** Columns past the key do not matter. *)
Lemma lexcmp_take_r cs k1 k2 : lexcmp cs k1 (take (length cs) k2) = lexcmp cs k1 k2.
Proof. revert k1 k2. induction cs as [|c cs IH]; intros [|x k1] [|y k2]; try done. simpl. by rewrite IH. Qed.
Lemma lexcmp_take_l cs k1 k2 : lexcmp cs (take (length cs) k1) k2 = lexcmp cs k1 k2.
Proof. revert k1 k2. induction cs as [|c cs IH]; intros [|x k1] [|y k2]; try done. simpl. by rewrite IH. Qed.

Lemma lexcmp_refl cols k : ordered cols -> lexcmp cols k k = 0.
Proof.
  intros Hcols. revert k. induction Hcols as [|c cs Hc _ IH]; intros [|x k]; try done. simpl. rewrite col_compare_refl by done. apply IH.
Qed.

(** A prefix of the key is before the key, or as good as it when it has every column. *)
Lemma lexcmp_prefix cols n k : ordered cols -> (length cols <= length k)%nat ->
  if (n <? length cols)%nat then lexcmp cols (take n k) k < 0 else lexcmp cols (take n k) k = 0.
Proof.
  intros Hcols. revert n k. induction Hcols as [|c cs Hc _ IH]; intros n k Hk; [done|].
  destruct k as [|x k]; [simpl in Hk; lia|]. destruct n as [|n]; [done|]. simpl. rewrite col_compare_refl by done. simpl in Hk.
  specialize (IH n k ltac:(lia)). by destruct (Nat.ltb_spec n (length cs)), (Nat.ltb_spec (S n) (S (length cs))); try lia.
Qed.

Lemma lexcmp_sym cols a b : ordered cols -> lexcmp cols a b < 0 <-> 0 < lexcmp cols b a.
Proof.
  intros Hcols. revert a b. induction Hcols as [|c cs Hc _ IH]; intros a b; [simpl; lia|]. destruct a as [|x a], b as [|y b]; simpl; try lia.
  pose proof (col_compare_sym c x y). pose proof (col_compare_eq c x y).
  destruct (Z.eqb_spec (col_compare c x y) 0), (Z.eqb_spec (col_compare c y x) 0); try lia. apply IH.
Qed.

Lemma lexcmp_trans cols a b c : ordered cols ->
  lexcmp cols a b <= 0 -> lexcmp cols b c <= 0 ->
  lexcmp cols a c <= 0 /\ (lexcmp cols a b < 0 \/ lexcmp cols b c < 0 -> lexcmp cols a c < 0).
Proof.
  intros Hcols. revert a b c. induction Hcols as [|col cs Hc _ IH]; intros a b c; [simpl; lia|].
  destruct a as [|x a], b as [|y b], c as [|z c]; simpl; try lia.
  pose proof (col_compare_lt_trans col x y z) as [L1 L2]. pose proof (col_compare_trans col x y z) as L3.
  destruct (Z.eqb_spec (col_compare col x y) 0), (Z.eqb_spec (col_compare col y z) 0), (Z.eqb_spec (col_compare col x z) 0); try lia.
  apply IH.
Qed.

(** Where two keys part. *)
Lemma keep_spec cols attno args k1 k2 c : ordered cols -> length args = length cols -> (length cols <= length k1)%nat -> (length cols <= length k2)%nat ->
  lexcmp cols k1 k2 <= 0 ->
  exists j, keep_natts_loop (length cols) (key_entries attno cols args) k1 k2 c = Some (c + Z.of_nat j) /\
    if (j <? length cols)%nat then lexcmp cols k1 (take (S j) k2) < 0 else j = length cols /\ lexcmp cols k1 k2 = 0.
Proof.
  intros Hcols. revert attno args k1 k2 c. induction Hcols as [|col cs Hc _ IH]; intros attno args k1 k2 c Ha H1 H2 Hle.
  { exists 0%nat. by rewrite Z.add_0_r. }
  destruct args as [|a args], k1 as [|x k1], k2 as [|y k2]; try (simpl in *; lia). cbn [length key_entries keep_natts_loop sk_func] in *.
  assert (Hnext : col_compare col x y = 0 -> lexcmp cs k1 k2 <= 0 /\ forall j,
    (if (j <? length cs)%nat then lexcmp cs k1 (take (S j) k2) < 0 else j = length cs /\ lexcmp cs k1 k2 = 0) ->
    if (S j <? S (length cs))%nat then lexcmp (col :: cs) (x :: k1) (take (S (S j)) (y :: k2)) < 0
    else S j = S (length cs) /\ lexcmp (col :: cs) (x :: k1) (y :: k2) = 0).
  { intros E. cbn [lexcmp take] in *. rewrite E in *. split; [exact Hle|]. intros j.
    destruct (Nat.ltb_spec j (length cs)), (Nat.ltb_spec (S j) (S (length cs))); cbn [Z.eqb]; lia. }
  assert (Hstop : col_compare col x y <> 0 -> exists j, Some c = Some (c + Z.of_nat j) /\
    if (j <? S (length cs))%nat then lexcmp (col :: cs) (x :: k1) (take (S j) (y :: k2)) < 0
    else j = S (length cs) /\ lexcmp (col :: cs) (x :: k1) (y :: k2) = 0).
  { intros Hn. exists 0%nat. rewrite Z.add_0_r. split; [done|]. cbn [lexcmp take] in *. rewrite (proj2 (Z.eqb_neq _ _) Hn) in *. simpl. lia. }
  assert (Hgo : col_compare col x y = 0 -> exists j, keep_natts_loop (length cs) (key_entries (attno + 1) cs args) k1 k2 (c + 1) = Some (c + Z.of_nat j) /\
    if (j <? S (length cs))%nat then lexcmp (col :: cs) (x :: k1) (take (S j) (y :: k2)) < 0
    else j = S (length cs) /\ lexcmp (col :: cs) (x :: k1) (y :: k2) = 0).
  { intros E. destruct (Hnext E) as [Hle' Hj]. destruct (IH (attno + 1) args k1 k2 (c + 1)) as (j & Hk & Hp); [lia..|done|].
    exists (S j). split; [rewrite Hk; f_equal; lia|by apply Hj]. }
  destruct x as [x|], y as [y|].
  - destruct (Z.eqb_spec (col_cmp col x y) 0) as [E|E]; simpl; [apply Hgo|apply Hstop];
      unfold col_compare, compare_attr, INVERT_COMPARE_RESULT; simpl; pose proof (bo_sym x y); pose proof (bo_sym y x); repeat case_match; zbool; lia.
  - apply Hstop. unfold col_compare, compare_attr. simpl. case_match; lia.
  - apply Hstop. unfold col_compare, compare_attr. simpl. case_match; lia.
  - apply Hgo. done.
Qed.

(** ** What truncation gives *)

Section Truncated.
Context (rel : index_rel) (ai : agg_info) (index_form_size : list (option Z) -> Z).

(** A key made for comparing tuples: an entry for every key column. *)
Definition full_key (key : ABTScanInsertData) : Prop :=
  heapkeyspace key = true /\ exists args, length args = length (rd_cols rel) /\ scankeys key = key_entries 1 (rd_cols rel) args.

Lemma leaf_tids t : tuple_ok rel (LeafTup t) -> exists lo hi, ABTreeTupleGetHeapTID (LeafTup t) = Some lo /\
  ABTreeTupleGetMaxHeapTID (LeafTup t) = Some hi /\ is_Some (header_block t).
Proof.
  intros (_ & lo & hi & Hlo & Hhi & _). exists lo, (if is_posting t then hi else lo). simpl. split; [done|].
  unfold is_posting, header_block. destruct (it_postingoff t); [by split|]. rewrite Hlo. by split.
Qed.

(** The sizes a truncated tuple can have. *)
Definition key_size (t : itup) : Z :=
  match it_postingoff t with Some off => off | None => it_size t - extra_space_for_nonpivot_tuple ai end.

Lemma truncate_run lastleft firstright key : rel_ok rel -> rd_cols rel <> [] -> full_key key ->
  tuple_ok rel (LeafTup lastleft) -> tuple_ok rel (LeafTup firstright) -> tuple_before rel (LeafTup lastleft) (LeafTup firstright) ->
  exists n tid blk size stored, (1 <= n <= length (rd_cols rel))%nat /\
    _abt_truncate rel ai index_form_size lastleft firstright key =
      Some (mk_trunc (mk_pivot (take n (it_key firstright)) tid blk 0 0) size stored) /\
    match tid with
    | None => lexcmp (rd_cols rel) (it_key lastleft) (take n (it_key firstright)) < 0 /\
        (size = index_form_size (take n (it_key firstright)) \/ size = key_size firstright)
    | Some t => n = length (rd_cols rel) /\ lexcmp (rd_cols rel) (it_key lastleft) (it_key firstright) = 0 /\
        ABTreeTupleGetMaxHeapTID (LeafTup lastleft) = Some t /\ size = key_size firstright + MAXALIGN sizeof_ItemPointerData
    end.
Proof.
  intros [Hcols Hn] Hne (Hh & args & Hla & Hkey) Hl Hr Hb. destruct (leaf_tids lastleft Hl) as (llo & lhi & _ & Hmax & _).
  destruct (leaf_tids firstright Hr) as (_ & _ & _ & _ & blk & Hblk). unfold indnkeyatts in *.
  destruct Hl as [Hll _]. destruct Hr as [Hlr _].
  assert (Hle : lexcmp (rd_cols rel) (it_key lastleft) (it_key firstright) <= 0) by (destruct Hb as [|[]]; simpl in *; lia).
  destruct (keep_spec (rd_cols rel) 1 args (it_key lastleft) (it_key firstright) 1 Hcols Hla ltac:(lia) ltac:(lia) Hle) as (j & Hk & Hj).
  unfold _abt_truncate, _abt_keep_natts, indnkeyatts. rewrite Hh, Nat2Z.id, Hkey. cbn [negb]. rewrite Hk. cbn [mbind option_bind].
  rewrite Hblk, Hmax. cbn [mbind option_bind]. fold (key_size firstright). destruct (Nat.ltb_spec j (length (rd_cols rel))) as [Hlt|Hge].
  - exists (S j), None, blk. destruct (Z.ltb_spec (1 + Z.of_nat j) (Z.of_nat (length (rd_cols rel)))) as [Hs|Hs];
      rewrite (proj2 (Z.leb_le (1 + Z.of_nat j) _)) by lia; eexists _, _; (split; [lia|]);
      replace (Z.to_nat (1 + Z.of_nat j)) with (S j) by lia; (split; [reflexivity|]); (split; [done|]).
    + left. rewrite Z.min_l by lia. by replace (Z.to_nat (1 + Z.of_nat j)) with (S j) by lia.
    + by right.
  - destruct Hj as [-> Heq]. exists (length (rd_cols rel)), (Some lhi), blk. rewrite (proj2 (Z.ltb_ge _ _)), (proj2 (Z.leb_gt _ _)) by lia.
    eexists _, _. split; [|split; [reflexivity|by split]]. destruct (rd_cols rel); [done|simpl; lia].
Qed.

(** At most a heap TID is added to the key. *)
Lemma truncate_size lastleft firstright key tr : rel_ok rel -> rd_cols rel <> [] -> full_key key ->
  tuple_ok rel (LeafTup lastleft) -> tuple_ok rel (LeafTup firstright) -> tuple_before rel (LeafTup lastleft) (LeafTup firstright) ->
  (forall n k, index_form_size (take n k) <= index_form_size k) -> index_form_size (it_key firstright) <= key_size firstright ->
  _abt_truncate rel ai index_form_size lastleft firstright key = Some tr -> tr_size tr <= key_size firstright + 8.
Proof.
  intros Hrel Hne Hkey Hl Hr Hb Hform Hsize Hrun.
  destruct (truncate_run lastleft firstright key Hrel Hne Hkey Hl Hr Hb) as (n & tid & blk & size & stored & _ & Hrun' & Hcase).
  rewrite Hrun' in Hrun. injection Hrun as <-. cbn [tr_size]. specialize (Hform n (it_key firstright)).
  change (MAXALIGN sizeof_ItemPointerData) with 8 in Hcase. destruct tid; lia.
Qed.

Lemma leaf_tid_range t : tuple_ok rel (LeafTup t) -> exists lo hi, ABTreeTupleGetHeapTID (LeafTup t) = Some lo /\
  ABTreeTupleGetMaxHeapTID (LeafTup t) = Some hi /\ ItemPointerCompare lo hi <= 0.
Proof.
  intros (_ & lo & hi & Hlo & Hhi & Hle). exists lo, (if is_posting t then hi else lo). cbn. split; [done|].
  destruct (is_posting t); [done|]. split; [done|]. pose proof (ItemPointerCompare_sym lo lo). lia.
Qed.

Lemma upto_trans t l f : rel_ok rel -> tuple_ok rel (LeafTup t) -> tuple_ok rel (LeafTup l) ->
  tuple_before rel (LeafTup t) (LeafTup l) -> tuple_upto rel (LeafTup l) f -> tuple_upto rel (LeafTup t) f.
Proof.
  intros Hrel Ht Hl Hb Hu. pose proof (lexcmp_trans (rd_cols rel) (it_key t) (it_key l) (tuple_key f) (rel_cols rel Hrel)) as Htr.
  unfold tuple_before, tuple_upto, tid_before in *. destruct (leaf_tid_range t Ht) as (tlo & thi & _ & Ethi & _); rewrite Ethi in *.
  destruct (leaf_tid_range l Hl) as (llo & lhi & Ello & Elhi & Hle). rewrite Ello in Hb. rewrite Elhi in Hu. cbn [tuple_key] in *. cbv zeta in *.
  destruct (Z.lt_ge_cases (lexcmp (rd_cols rel) (it_key t) (tuple_key f)) 0) as [|Hge]; [by left|]. right.
  destruct (ABTreeTupleGetHeapTID f) as [ft|]; [|lia]. split; [lia|].
  assert (Hlt : ItemPointerCompare thi llo < 0) by lia. assert (Hf : ItemPointerCompare lhi ft <= 0) by lia.
  pose proof (ItemPointerCompare_trans thi llo lhi). pose proof (ItemPointerCompare_trans thi lhi ft). lia.
Qed.

Lemma before_trans p l t : rel_ok rel -> tuple_ok rel (LeafTup l) ->
  tuple_before rel p (LeafTup l) -> tuple_before rel (LeafTup l) t -> tuple_before rel p t.
Proof.
  intros Hrel Hl Hb Hu. pose proof (lexcmp_trans (rd_cols rel) (tuple_key p) (it_key l) (tuple_key t) (rel_cols rel Hrel)) as Htr.
  unfold tuple_before, tid_before in *.
  destruct (leaf_tid_range l Hl) as (llo & lhi & Ello & Elhi & Hle). rewrite Ello in Hb. rewrite Elhi in Hu. cbn [tuple_key] in *. cbv zeta in *.
  destruct (Z.lt_ge_cases (lexcmp (rd_cols rel) (tuple_key p) (tuple_key t)) 0) as [|Hge]; [by left|]. right. split; [lia|].
  destruct (ABTreeTupleGetMaxHeapTID p) as [pt|]; [|done].
  destruct (ABTreeTupleGetHeapTID t) as [tt|]; [|lia].
  assert (Hlt : ItemPointerCompare pt llo < 0) by lia. assert (Hf : ItemPointerCompare lhi tt < 0) by lia.
  pose proof (ItemPointerCompare_trans pt llo lhi). pose proof (ItemPointerCompare_lt_trans pt lhi tt). lia.
Qed.

(** The high key lies between the tuples around the split point. *)
Lemma truncate_between lastleft firstright key : rel_ok rel -> rd_cols rel <> [] -> full_key key ->
  tuple_ok rel (LeafTup lastleft) -> tuple_ok rel (LeafTup firstright) -> tuple_before rel (LeafTup lastleft) (LeafTup firstright) ->
  exists tr, _abt_truncate rel ai index_form_size lastleft firstright key = Some tr /\
    tuple_ok rel (PivotTup (tr_pivot tr)) /\ pv_key (tr_pivot tr) <> [] /\
    tuple_upto rel (LeafTup lastleft) (PivotTup (tr_pivot tr)) /\ tuple_before rel (PivotTup (tr_pivot tr)) (LeafTup firstright).
Proof.
  intros Hrel Hne Hkey Hl Hr Hb. pose proof (rel_cols rel Hrel) as Hcols. pose proof (rel_natts rel Hrel) as Hn. unfold indnkeyatts in Hn.
  destruct (truncate_run lastleft firstright key Hrel Hne Hkey Hl Hr Hb) as (n & tid & blk & size & stored & Hlen & Hrun & Hcase).
  eexists. split; [exact Hrun|]. cbn [tr_pivot pv_key]. set (pv := mk_pivot _ _ _ _ _).
  assert (Hlk : (length (rd_cols rel) <= length (it_key firstright))%nat) by (destruct Hr; lia).
  split; [|split; [|split]].
  - split; cbn [pv pv_key pv_tid]; [rewrite length_take; lia|]. intros Htid. destruct tid; [|done]. rewrite length_take. lia.
  - intros E. apply (f_equal length) in E. rewrite length_take in E. simpl in E. lia.
  - unfold tuple_upto. cbn [tuple_key pv pv_key ABTreeTupleGetHeapTID pv_tid]. destruct tid as [t|]; [|left; apply Hcase]. destruct Hcase as (-> & Heq & -> & _).
    right. rewrite lexcmp_take_r. split; [done|]. pose proof (ItemPointerCompare_sym t t). lia.
  - unfold tuple_before, tid_before. cbn [tuple_key pv pv_key ABTreeTupleGetMaxHeapTID pv_tid]. pose proof (lexcmp_prefix (rd_cols rel) n (it_key firstright) Hcols Hlk) as Hp.
    destruct (Nat.ltb_spec n (length (rd_cols rel))); [by left|]. right. split; [done|]. destruct tid as [t|]; [|done]. destruct Hcase as (_ & Heq & Ht & _).
    unfold tuple_before, tid_before in Hb. rewrite Ht in Hb. destruct Hb as [Hlt|[_ Hb]]; [cbn in Hlt; lia|done].
Qed.

(** C15: Truncation keeps the two sides of a split apart.  For two leaf tuples in order
    the new high key exists, has at least one key column, and is a well-formed pivot;
    the last tuple of the left page and everything before it is not behind the high key,
    and the first tuple of the right page and everything after it is. *)
Theorem truncate_separates lastleft firstright key : rel_ok rel -> rd_cols rel <> [] -> full_key key ->
  tuple_ok rel (LeafTup lastleft) -> tuple_ok rel (LeafTup firstright) -> tuple_before rel (LeafTup lastleft) (LeafTup firstright) ->
  exists tr, _abt_truncate rel ai index_form_size lastleft firstright key = Some tr /\
    tuple_ok rel (PivotTup (tr_pivot tr)) /\ pv_key (tr_pivot tr) <> [] /\
    (forall t, tuple_ok rel (LeafTup t) -> t = lastleft \/ tuple_before rel (LeafTup t) (LeafTup lastleft) ->
      tuple_upto rel (LeafTup t) (PivotTup (tr_pivot tr))) /\
    (forall t, t = LeafTup firstright \/ tuple_before rel (LeafTup firstright) t -> tuple_before rel (PivotTup (tr_pivot tr)) t).
Proof.
  intros Hrel Hne Hkey Hl Hr Hb. destruct (truncate_between lastleft firstright key Hrel Hne Hkey Hl Hr Hb) as (tr & Hrun & Hok & Hk & Hup & Hbe).
  exists tr. split_and!; [done..| |].
  - intros t Ht [->|Hbt]; [done|]. by apply (upto_trans t lastleft).
  - intros t [->|Hbt]; [done|]. by apply (before_trans _ firstright).
Qed.

(** The size of a truncated tuple with room for the aggregate of a downlink, as
    _abt_pivot_tuple_reserve_agg_space makes it. *)
Definition reserved_size (tr : truncated) : Z :=
  match pv_tid (tr_pivot tr) with
  | Some _ => MAXALIGN_DOWN (tr_size tr - sizeof_ItemPointerData) + extra_space_when_tid_present ai
  | None => tr_size tr + extra_space_when_tid_missing ai
  end.

Context (ai0 : agg_info) (Hai : ai = _abt_compute_tuple_offsets ai0) (Hlen : 0 < agg_typlen ai0).

Lemma extra_spaces : extra_space_when_tid_missing ai <= extra_space_when_tid_present ai /\
  extra_space_when_tid_missing ai mod 8 = 0 /\ extra_space_when_tid_present ai mod 8 = 0 /\ 16 <= extra_space_when_tid_present ai /\
  extra_space_for_nonpivot_tuple ai = if leaf_has_agg ai then extra_space_when_tid_missing ai else 8.
Proof.
  subst ai. unfold _abt_compute_tuple_offsets, sizeof_ABTLastUpdateId, sizeof_ItemPointerData, sizeof_TransactionId. cbn [agg_typlen leaf_has_agg
    extra_space_for_nonpivot_tuple extra_space_when_tid_missing extra_space_when_tid_present].
  destruct (leaf_has_agg ai0); rewrite ?MAXALIGN_eq, ?INTALIGN_eq, ?SHORTALIGN_eq; Z.div_mod_to_equations; lia.
Qed.

Lemma max_item_size : ABTMaxItemSize ai = 2704 - extra_space_when_tid_present ai.
Proof.
  destruct extra_spaces as (_ & _ & Hp & _). unfold ABTMaxItemSize. rewrite MAXALIGN_DOWN_eq.
  change (MAXALIGN SizeOfPageHeaderData) with 24. change (MAXALIGN (3 * sizeof_ItemIdData)) with 16. change (MAXALIGN sizeof_ABTPageOpaqueData) with 24.
  unfold BLCKSZ. Z.div_mod_to_equations. lia.
Qed.

(** C38: Room for pivots.  If a leaf tuple with this key is within the limit on leaf
    tuples then the high key made from it is at most a TID larger than the key, the
    downlink made from that is within the limit on internal pages, and three such leaf
    tuples fit on a page. *)
Theorem truncated_pivot_fits lastleft firstright key tr : rel_ok rel -> rd_cols rel <> [] -> full_key key ->
  tuple_ok rel (LeafTup lastleft) -> tuple_ok rel (LeafTup firstright) -> tuple_before rel (LeafTup lastleft) (LeafTup firstright) ->
  (forall n k, index_form_size (take n k) <= index_form_size k) ->
  index_form_size (it_key firstright) <= key_size firstright -> key_size firstright mod 8 = 0 ->
  _abt_check_third_page ai true (key_size firstright + extra_space_for_nonpivot_tuple ai) = true ->
  _abt_truncate rel ai index_form_size lastleft firstright key = Some tr ->
  tr_size tr <= key_size firstright + MAXALIGN sizeof_ItemPointerData /\
  _abt_check_third_page ai false (reserved_size tr) = true /\
  3 * (MAXALIGN (key_size firstright + extra_space_for_nonpivot_tuple ai) + sizeof_ItemIdData) <=
    BLCKSZ - SizeOfPageHeaderData - MAXALIGN sizeof_ABTPageOpaqueData.
Proof.
  intros Hrel Hne Hkey Hl Hr Hb Hform Hsize Hmod Hleaf Hrun.
  destruct (truncate_run lastleft firstright key Hrel Hne Hkey Hl Hr Hb) as (n & tid & blk & size & stored & _ & Hrun' & Hcase).
  rewrite Hrun' in Hrun. injection Hrun as <-. unfold reserved_size. cbn [tr_size tr_pivot pv_tid].
  set (d := key_size firstright) in *. specialize (Hform n (it_key firstright)). destruct extra_spaces as (Hmp & Hm8 & Hp8 & Hp & Hnp).
  unfold _abt_check_third_page in *. cbn [negb] in *. rewrite max_item_size in Hleaf. change (ABTMaxItemSizeNoHeapTid) with 2704.
  change (MAXALIGN sizeof_ItemPointerData) with 8 in *. change (MAXALIGN sizeof_ABTPageOpaqueData) with 24. unfold BLCKSZ, SizeOfPageHeaderData, sizeof_ItemIdData, sizeof_ItemPointerData.
  rewrite Hnp in *. rewrite !MAXALIGN_eq in *. rewrite MAXALIGN_DOWN_eq.
  assert (Hd : d <= 2704 - extra_space_when_tid_present ai /\ (leaf_has_agg ai = false -> d + 8 <= 2704 - extra_space_when_tid_present ai)).
  { destruct (leaf_has_agg ai); apply Z.leb_le in Hleaf; Z.div_mod_to_equations; lia. }
  split; [|split].
  - destruct tid; lia.
  - apply Z.leb_le. destruct tid; [destruct Hcase as (_ & _ & _ & ->)|destruct Hcase as [_ [-> | ->]]]; Z.div_mod_to_equations; lia.
  - destruct (leaf_has_agg ai); Z.div_mod_to_equations; lia.
Qed.

End Truncated.

(** ** The kinds of tuples a page holds *)

Section Kinds.
Context (rel : index_rel).

(** The tuple a page of a heapkeyspace index may have at an offset. *)
Inductive place_ok (p : page) (offnum : Z) : index_tuple -> Prop :=
  | place_leaf t : ABT_P_ISLEAF (pg_opaque p) = true -> ABT_P_FIRSTDATAKEY (pg_opaque p) <= offnum ->
      (is_posting t = true -> Z.testbit (nposting t) 12 = false /\ rd_natts rel = indnkeyatts rel) -> place_ok p offnum (LeafTup t)
  | place_minus_infinity pv : ABT_P_ISLEAF (pg_opaque p) = false -> offnum = ABT_P_FIRSTDATAKEY (pg_opaque p) ->
      pv_key pv = [] -> place_ok p offnum (PivotTup pv)
  | place_separator pv : (if ABT_P_ISLEAF (pg_opaque p) then offnum < ABT_P_FIRSTDATAKEY (pg_opaque p) else offnum <> ABT_P_FIRSTDATAKEY (pg_opaque p)) ->
      pv_key pv <> [] -> tuple_ok rel (PivotTup pv) -> place_ok p offnum (PivotTup pv).

Lemma posting_bit t : is_posting t = true ->
  negb (Z.land (header_offset (LeafTup t)) ABT_PIVOT_HEAP_TID_ATTR =? 0) = Z.testbit (nposting t) 12.
Proof.
  intros Hp. change ABT_PIVOT_HEAP_TID_ATTR with (2 ^ 12). rewrite bit_test by lia. cbn [header_offset]. rewrite Hp.
  change ABT_IS_POSTING with (2 ^ 13). apply lor_bit_other; lia.
Qed.

(** C39: The check of the number of attributes is a type check.  On a live page of a
    heapkeyspace index it accepts exactly the tuples that belong at an offset: leaf
    tuples among a leaf page's data, one minus infinity pivot first on an internal page,
    and everywhere else separators with at least one column and a heap TID only behind
    all columns. *)
Theorem check_natts_typed p offnum t : ABT_P_IGNORE (pg_opaque p) = false -> 0 < rd_natts rel -> PageGetItem p offnum = Some t ->
  _abt_check_natts rel true p offnum = Some true <-> place_ok p offnum t.
Proof.
  intros Hi Hnat Hget. unfold _abt_check_natts. rewrite Hi, Hget. cbn [mbind option_bind negb andb]. destruct t as [t|pv].
  - cbn [ABTreeTupleIsPosting ABTreeTupleIsPivot ABTreeTupleGetNAtts]. rewrite Z.eqb_refl. split.
    + intros H. apply (inj Some) in H. destruct (ABT_P_ISLEAF (pg_opaque p)) eqn:El.
      * destruct (Z.leb_spec (ABT_P_FIRSTDATAKEY (pg_opaque p)) offnum); [|by repeat case_match]. constructor; [done..|].
        intros Hp. rewrite Hp, (posting_bit t Hp) in H. cbn [andb] in H. destruct (Z.testbit (nposting t) 12); [done|].
        split; [done|]. by destruct (Z.eqb_spec (rd_natts rel) (indnkeyatts rel)).
      * rewrite (proj2 (Z.eqb_neq (rd_natts rel) 0)) in H by lia. by repeat case_match.
    + intros H. inversion H as [? El Hoff Hp| |]; subst. rewrite El, (proj2 (Z.leb_le _ _) Hoff). destruct (is_posting t) eqn:Ep; cbn [andb].
      * destruct (Hp eq_refl) as [Hb ->]. rewrite (posting_bit t Ep), Hb. by rewrite Z.eqb_refl.
      * by rewrite andb_false_r.
  - cbn [ABTreeTupleIsPosting ABTreeTupleIsPivot ABTreeTupleGetNAtts ABTreeTupleGetHeapTID andb negb]. rewrite andb_false_r. unfold indnkeyatts.
    set (generic := if _ && _ then false else _).
    assert (Hg : generic = true <-> pv_key pv <> [] /\ tuple_ok rel (PivotTup pv)).
    { unfold generic. cbn [tuple_ok]. destruct (pv_key pv) as [|k ks]; cbn [length].
      - change (0 <? Z.of_nat 0) with false. cbn [andb]. split; [by destruct (_ && _)|by intros []].
      - rewrite (proj2 (Z.ltb_lt 0 _)) by lia. cbn [andb]. set (n := S (length ks)).
        destruct (pv_tid pv); cbn [andb];
          destruct (Z.eqb_spec (Z.of_nat n) (Z.of_nat (length (rd_cols rel)))); cbn [negb]; rewrite ?Z.leb_le; split; intros; try done;
          repeat split; try done; try lia. destruct H as (_ & _ & H). specialize (H ltac:(done)). lia. }
    split.
    + intros H. apply (inj Some) in H. destruct (ABT_P_ISLEAF (pg_opaque p)) eqn:El.
      * destruct (Z.leb_spec (ABT_P_FIRSTDATAKEY (pg_opaque p)) offnum); [done|]. apply place_separator; [by rewrite El|by apply Hg..].
      * destruct (Z.eqb_spec offnum (ABT_P_FIRSTDATAKEY (pg_opaque p))); [|apply place_separator; [by rewrite El|by apply Hg..]].
        apply place_minus_infinity; [done..|]. apply Z.eqb_eq in H. by destruct (pv_key pv).
    + intros H. inversion H as [|? El Hoff Hk|? Hoff Hk Hok]; subst.
      * by rewrite El, Z.eqb_refl, Hk.
      * rewrite (proj2 Hg) by done. destruct (ABT_P_ISLEAF (pg_opaque p)); [by rewrite (proj2 (Z.leb_gt _ _) Hoff)|].
        by rewrite (proj2 (Z.eqb_neq _ _) Hoff).
Qed.

End Kinds.

(** ** Small indexes *)

Definition demo_tuple (k : list (option Z)) (size : Z) (t : tid) : itup := mk_itup k size None [t] [] [0].
Definition demo_form_size (k : list (option Z)) : Z := MAXALIGN (8 + 8 * Z.of_nat (length k)).
Definition trunc_rel : index_rel := mk_rel 2 [mk_col false false Z.sub; mk_col false false Z.sub] true.
Definition trunc_key : ABTScanInsertData :=
  mk_key true true false false false None 2 (key_entries 1 (rd_cols trunc_rel) [Some 0; Some 0]).
Definition trunc_ai : agg_info := _abt_compute_tuple_offsets (mk_agg 8 8 false 0 0 0).

Lemma trunc_rel_ok : rel_ok trunc_rel.
Proof. split; [repeat constructor; apply sub_order|done]. Qed.

Lemma trunc_full_key : full_key trunc_rel trunc_key.
Proof. split; [done|]. by exists [Some 0; Some 0]. Qed.

Lemma demo_tuple_ok x y size t : tuple_ok trunc_rel (LeafTup (demo_tuple [x; y] size t)).
Proof. split; [done|]. exists t, t. split; [done|]. split; [done|]. pose proof (ItemPointerCompare_sym t t). lia. Qed.

(** One column is enough for (1, 9) and (2, 3); equal keys need the left one's heap TID. *)
Example demo_truncate :
  (fun a b => tr_pivot <$> _abt_truncate trunc_rel trunc_ai demo_form_size a b trunc_key)
    (demo_tuple [Some 1; Some 9] 32 (mk_tid 0 5)) (demo_tuple [Some 2; Some 3] 32 (mk_tid 0 1)) = Some (mk_pivot [Some 2] None 0 0 0) /\
  (fun a b => tr_pivot <$> _abt_truncate trunc_rel trunc_ai demo_form_size a b trunc_key)
    (demo_tuple [Some 2; Some 3] 32 (mk_tid 0 1)) (demo_tuple [Some 2; Some 3] 32 (mk_tid 0 2)) =
    Some (mk_pivot [Some 2; Some 3] (Some (mk_tid 0 1)) 0 0 0).
Proof. split; vm_compute; reflexivity. Qed.

Lemma truncate_separates_witness : exists tr,
  _abt_truncate trunc_rel trunc_ai demo_form_size (demo_tuple [Some 1; Some 9] 32 (mk_tid 0 5)) (demo_tuple [Some 2; Some 3] 32 (mk_tid 0 1)) trunc_key =
    Some tr /\ tuple_ok trunc_rel (PivotTup (tr_pivot tr)).
Proof.
  destruct (truncate_separates trunc_rel trunc_ai demo_form_size (demo_tuple [Some 1; Some 9] 32 (mk_tid 0 5))
    (demo_tuple [Some 2; Some 3] 32 (mk_tid 0 1)) trunc_key) as (tr & Htr & Hok & _).
  - apply trunc_rel_ok.
  - discriminate.
  - apply trunc_full_key.
  - apply demo_tuple_ok.
  - apply demo_tuple_ok.
  - left. vm_compute. reflexivity.
  - by exists tr.
Defined.

Lemma truncated_pivot_fits_witness : exists tr,
  _abt_truncate trunc_rel trunc_ai demo_form_size (demo_tuple [Some 2; Some 3] 32 (mk_tid 0 1)) (demo_tuple [Some 2; Some 3] 32 (mk_tid 0 2)) trunc_key =
    Some tr /\ _abt_check_third_page trunc_ai false (reserved_size trunc_ai tr) = true.
Proof.
  eexists. split; [reflexivity|].
  refine (proj1 (proj2 (truncated_pivot_fits trunc_rel trunc_ai demo_form_size (mk_agg 8 8 false 0 0 0) eq_refl _
    (demo_tuple [Some 2; Some 3] 32 (mk_tid 0 1)) (demo_tuple [Some 2; Some 3] 32 (mk_tid 0 2)) trunc_key _ _ _ _ _ _ _ _ _ _ _ _))).
  - reflexivity.
  - apply trunc_rel_ok.
  - discriminate.
  - apply trunc_full_key.
  - apply demo_tuple_ok.
  - apply demo_tuple_ok.
  - right. split; vm_compute; reflexivity.
  - intros n k. unfold demo_form_size. rewrite !MAXALIGN_eq, length_take. Z.div_mod_to_equations. lia.
  - vm_compute. discriminate.
  - reflexivity.
  - vm_compute. reflexivity.
  - reflexivity.
Defined.

Lemma check_natts_typed_witness : place_ok demo_rel demo_leaf_page 3 (snd (posting 30 [mk_tid 0 3; mk_tid 1 1; mk_tid 4 2])).
Proof.
  apply (check_natts_typed demo_rel demo_leaf_page 3).
  - reflexivity.
  - reflexivity.
  - reflexivity.
  - vm_compute. reflexivity.
Defined.

(** An INCLUDE index: the second column is not a key column, yet its value stays in the
    high key when the first column is needed. *)
Lemma truncate_stores_included :
  tr_stored <$> _abt_truncate (mk_rel 2 [mk_col false false Z.sub] false) trunc_ai demo_form_size
    (demo_tuple [Some 1; Some 9] 32 (mk_tid 0 5)) (demo_tuple [Some 2; Some 3] 32 (mk_tid 0 1))
    (mk_key true false false false false None 1 (key_entries 1 [mk_col false false Z.sub] [Some 0])) = Some [Some 2; Some 3].
Proof. reflexivity. Qed.

End Truncate.
