(* ===== verification/SplitLoc.v ===== *)
(** * Choosing where to split a page

    A page that has no room for a new item is split between two of its items, the new
    one included.  _abt_findsplitloc of abtsplitloc.c lists the split points that leave
    both halves within a page, prefers balanced ones, and among those the one that lets
    the new high key be truncated most.  The page here has the length of every item (the
    line pointer's) next to the tuple.  A split point always exists, and the one chosen
    leaves both halves within their pages. *)

From Stdlib Require Import SpecFloat.
From stdpp Require Import base numbers option sorting list.
From S2P Require Import Prelude Tuple Dedup Double Page Search Truncate.

Module SplitLoc.
Import Tuple Dedup Double Page Search Truncate.

Inductive ABTFindSplitStrat := ABT_SPLIT_DEFAULT | ABT_SPLIT_MANY_DUPLICATES | ABT_SPLIT_SINGLE_VALUE.

Record ABTSplitPoint := mk_split {
  curdelta : Z;
  leftfree : Z;
  rightfree : Z;
  firstrightoff : Z;
  newitemonleft : bool
}.

(** The items of a page with the lengths in their line pointers, the special area, and the
    vacuum cycle id in it. *)
Record spage := mk_spage { sp_items : list (Z * index_tuple); sp_opaque : ABTPageOpaqueData; sp_cycleid : Z }.

Definition sp_maxoff (p : spage) : Z := Z.of_nat (length (sp_items p)).
Definition sp_item (p : spage) (off : Z) : option (Z * index_tuple) :=
  if off <? 1 then None else sp_items p !! Z.to_nat (off - 1).
(** An item and its line pointer. *)
Definition item_size (len : Z) : Z := MAXALIGN len + sizeof_ItemIdData.
Definition page_room : Z := BLCKSZ - SizeOfPageHeaderData - MAXALIGN sizeof_ABTPageOpaqueData.
(** PageGetExactFreeSpace of a page without holes. *)
Definition PageGetExactFreeSpace (p : spage) : Z :=
  Z.max 0 (page_room - sumZ (item_size ∘ fst <$> sp_items p)).

Record ABTFindSplitData := mk_fsd {
  origpage : spage;
  newitem : index_tuple;
  newitemsz : Z;
  newitem_w_tid : bool;
  is_leaf : bool;
  is_rightmost : bool;
  newitemoff : Z;
  leftspace : Z;
  rightspace : Z;
  olddataitemstotal : Z;
  minfirstrightsz : Z;
  maxsplits : Z;
  splits : list ABTSplitPoint;
  interval : Z
}.

Definition nsplits (st : ABTFindSplitData) : Z := Z.of_nat (length (splits st)).
Definition set_splits (st : ABTFindSplitData) (minsz : Z) (l : list ABTSplitPoint) : ABTFindSplitData :=
  mk_fsd (origpage st) (newitem st) (newitemsz st) (newitem_w_tid st) (is_leaf st) (is_rightmost st) (newitemoff st)
    (leftspace st) (rightspace st) (olddataitemstotal st) minsz (maxsplits st) l (interval st).
Definition set_interval (st : ABTFindSplitData) (n : Z) : ABTFindSplitData :=
  mk_fsd (origpage st) (newitem st) (newitemsz st) (newitem_w_tid st) (is_leaf st) (is_rightmost st) (newitemoff st)
    (leftspace st) (rightspace st) (olddataitemstotal st) (minfirstrightsz st) (maxsplits st) (splits st) n.

Definition SIZE_MAX : Z := 2 ^ 64 - 1.
Definition INT_MAX : Z := 2 ^ 31 - 1.
Definition ABTREE_NONLEAF_FILLFACTOR : Z := 70.
Definition ABTREE_SINGLEVAL_FILLFACTOR : Z := 96.
Definition ABT_LEAF_SPLIT_DISTANCE : double := ddiv (double_of_Z 50) (double_of_Z 1000).
Definition ABT_INTERNAL_SPLIT_DISTANCE : double := ddiv (double_of_Z 75) (double_of_Z 1000).
(** Percentages as a double. *)
Definition percent (n : Z) : double := ddiv (double_of_Z n) (double_of_Z 100).
(** The conversion of a double to int16 (of the values here, which are in range). *)
Definition int16_of_double (x : double) : Z := match dtrunc x with Some z => i16 z | None => 0 end.

(** ** Split points *)

Section Find.
Context (rel : index_rel) (ai : agg_info).
(** What index_getattr reads from a tuple for a column that was truncated away. *)
Context (stale : index_tuple -> nat -> option Z).
(** qsort with _abt_splitcmp. *)
Context (qsort : list ABTSplitPoint -> list ABTSplitPoint).

Definition attributes (t : index_tuple) : list (option Z) :=
  tuple_key t ++ (stale t <$> seq (length (tuple_key t)) (length (rd_cols rel) - length (tuple_key t))).
Definition keep_natts_fast (a b : index_tuple) : Z := keep_natts_from (length (rd_cols rel)) (attributes a) (attributes b) 1.

(** How much smaller than the first right item the left page's high key is at least. *)
Definition high_key_saving (st : ABTFindSplitData) (firstrightoff : Z) (newitemisfirstright : bool) (firstrightsz : Z) : option Z :=
  if newitemisfirstright then
    Some (if is_leaf st then extra_space_for_nonpivot_tuple ai
          else if newitem_w_tid st then extra_space_when_tid_present ai - MAXALIGN sizeof_ItemPointerData
          else extra_space_when_tid_missing ai)
  else if is_leaf st then
    if 64 <? firstrightsz then
      newhighkey ← sp_item (origpage st) firstrightoff;
      Some (match snd newhighkey with
            | LeafTup t => match it_postingoff t with Some off => it_size t - off | None => 0 end
            | PivotTup _ => 0
            end)
    else Some 0
  else Some (Z.min (extra_space_when_tid_present ai - MAXALIGN sizeof_ItemPointerData) (extra_space_when_tid_missing ai)).

(** [None] when a page item is missing or the array of split points is full. *)
Definition _abt_recsplitloc (st : ABTFindSplitData) (firstrightoff : Z) (newitemonleft : bool)
    (olddataitemstoleft firstrightofforigpagetuplesz : Z) : option ABTFindSplitData :=
  let newitemisfirstright := (firstrightoff =? newitemoff st) && negb newitemonleft in
  let firstrightsz := if newitemisfirstright then newitemsz st else firstrightofforigpagetuplesz in
  postingsz ← high_key_saving st firstrightoff newitemisfirstright firstrightsz;
  let leftfree := i16 (leftspace st - olddataitemstoleft) in
  let rightfree := i16 (rightspace st - (olddataitemstotal st - olddataitemstoleft)) in
  let leftfree :=
    if is_leaf st then i16 (leftfree - i16 (firstrightsz + MAXALIGN sizeof_ItemPointerData - postingsz))
    else i16 (leftfree - i16 (firstrightsz - postingsz)) in
  let '(leftfree, rightfree) :=
    if newitemonleft then (i16 (leftfree - i16 (newitemsz st)), rightfree) else (leftfree, i16 (rightfree - i16 (newitemsz st))) in
  let rightfree :=
    if is_leaf st then rightfree
    else i16 (rightfree + (i16 firstrightsz -
      i16 (MAXALIGN sizeof_IndexTupleData + extra_space_when_tid_missing ai + sizeof_ItemIdData))) in
  if (0 <=? leftfree) && (0 <=? rightfree) then
    if nsplits st <? maxsplits st then
      Some (set_splits st (Z.min (minfirstrightsz st) firstrightsz)
        (splits st ++ [mk_split 0 leftfree rightfree firstrightoff newitemonleft]))
    else None
  else Some st.

(** The scan over the items of the original page, from [offnum] on. *)
Fixpoint record_splits (items : list (Z * index_tuple)) (offnum olddataitemstoleft : Z) (st : ABTFindSplitData) :
    option (ABTFindSplitData * Z) :=
  match items with
  | [] => Some (st, olddataitemstoleft)
  | (len, _) :: items =>
      let itemsz := item_size len in
      st ← (if offnum <? newitemoff st then _abt_recsplitloc st offnum false olddataitemstoleft itemsz
            else if newitemoff st <? offnum then _abt_recsplitloc st offnum true olddataitemstoleft itemsz
            else
              st ← _abt_recsplitloc st offnum false olddataitemstoleft itemsz;
              _abt_recsplitloc st offnum true olddataitemstoleft itemsz);
      record_splits items (offnum + 1) (olddataitemstoleft + itemsz) st
  end.

Definition set_delta (fillfactormult : double) (usemult : bool) (sp : ABTSplitPoint) : ABTSplitPoint :=
  let delta :=
    if usemult then
      int16_of_double (dsub (dmul fillfactormult (double_of_Z (leftfree sp)))
        (dmul (dsub (double_of_Z 1) fillfactormult) (double_of_Z (rightfree sp))))
    else i16 (leftfree sp - rightfree sp) in
  let delta := if delta <? 0 then i16 (- delta) else delta in
  mk_split delta (leftfree sp) (rightfree sp) (firstrightoff sp) (newitemonleft sp).

Definition _abt_deltasortsplits (st : ABTFindSplitData) (fillfactormult : double) (usemult : bool) : ABTFindSplitData :=
  set_splits st (minfirstrightsz st) (qsort (set_delta fillfactormult usemult <$> splits st)).

Definition FirstOffsetNumber : Z := 1.

Definition _abt_adjacenthtid (lowhtid highhtid : tid) : bool :=
  (ip_blkid lowhtid =? ip_blkid highhtid) ||
  ((u32 (ip_blkid lowhtid + 1) =? ip_blkid highhtid) && (ip_posid highhtid =? FirstOffsetNumber)).

(** [Some (Some usemult)]: split after the new item; [Some None]: do not. *)
Definition _abt_afternewitemoff (st : ABTFindSplitData) (maxoff leaffillfactor : Z) : option (option bool) :=
  let nkeyatts := indnkeyatts rel in
  if nkeyatts =? 1 then Some None
  else if newitemoff st =? ABTP_FIRSTKEY then Some None
  else if negb (newitemsz st =? minfirstrightsz st) then Some None
  else if negb (newitemsz st * (maxoff - 1) =? olddataitemstotal st) then Some None
  else if MAXALIGN (sizeof_IndexTupleData + 8 * 2) + sizeof_ItemIdData <? newitemsz st then Some None
  else if maxoff <? newitemoff st then
    tup ← snd <$> sp_item (origpage st) maxoff;
    let keepnatts := keep_natts_fast tup (newitem st) in
    Some (if (1 <? keepnatts) && (keepnatts <=? nkeyatts) then Some true else None)
  else
    tup ← snd <$> sp_item (origpage st) (newitemoff st - 1);
    if ABTreeTupleIsPosting tup then Some None
    else
      lowhtid ← ABTreeTupleGetHeapTID tup;
      highhtid ← ABTreeTupleGetHeapTID (newitem st);
      if negb (_abt_adjacenthtid lowhtid highhtid) then Some None
      else
        let keepnatts := keep_natts_fast tup (newitem st) in
        Some (if (1 <? keepnatts) && (keepnatts <=? nkeyatts) then
                let interp := ddiv (double_of_Z (newitemoff st)) (dadd (double_of_Z maxoff) (double_of_Z 1)) in
                Some (SFltb (percent leaffillfactor) interp)
              else None).

Definition _abt_split_lastleft (st : ABTFindSplitData) (sp : ABTSplitPoint) : option index_tuple :=
  if newitemonleft sp && (firstrightoff sp =? newitemoff st) then Some (newitem st)
  else snd <$> sp_item (origpage st) (firstrightoff sp - 1).
Definition _abt_split_firstright (st : ABTFindSplitData) (sp : ABTSplitPoint) : option index_tuple :=
  if negb (newitemonleft sp) && (firstrightoff sp =? newitemoff st) then Some (newitem st)
  else snd <$> sp_item (origpage st) (firstrightoff sp).

Definition _abt_split_penalty (st : ABTFindSplitData) (sp : ABTSplitPoint) : option Z :=
  if negb (is_leaf st) then
    if negb (newitemonleft sp) && (firstrightoff sp =? newitemoff st) then Some (newitemsz st)
    else item ← sp_item (origpage st) (firstrightoff sp); Some (item_size (fst item))
  else
    lastleft ← _abt_split_lastleft st sp;
    firstright ← _abt_split_firstright st sp;
    Some (keep_natts_fast lastleft firstright).

(** The loop of _abt_bestsplitloc from split [i] on; the result is the index of the best. *)
Fixpoint best_loop (st : ABTFindSplitData) (perfectpenalty : Z) (l : list ABTSplitPoint) (i : nat) (bestpenalty : Z) (lowsplit : nat) : option nat :=
  match l with
  | [] => Some lowsplit
  | sp :: l =>
      penalty ← _abt_split_penalty st sp;
      let '(bestpenalty, lowsplit) := if penalty <? bestpenalty then (penalty, i) else (bestpenalty, lowsplit) in
      if penalty <=? perfectpenalty then Some lowsplit
      else best_loop st perfectpenalty l (S i) bestpenalty lowsplit
  end.

Definition _abt_bestsplitloc (st : ABTFindSplitData) (perfectpenalty : Z) (strategy : ABTFindSplitStrat) : option ABTSplitPoint :=
  let highsplit := Z.min (interval st) (nsplits st) in
  lowsplit ← best_loop st perfectpenalty (take (Z.to_nat highsplit) (splits st)) 0 INT_MAX 0;
  final ← splits st !! lowsplit;
  if match strategy with ABT_SPLIT_MANY_DUPLICATES => true | _ => false end && negb (is_rightmost st) &&
     negb (newitemonleft final) && (newitemoff st <=? firstrightoff final) && (firstrightoff final <? newitemoff st + 9)
  then splits st !! 0%nat
  else Some final.

(** The first split point from [l], whose first index is [i], that is out of bounds. *)
Fixpoint interval_loop (lowleft lowright highleft highright : Z) (l : list ABTSplitPoint) (i : Z) : Z :=
  match l with
  | [] => i
  | sp :: l =>
      if (leftfree sp <? lowleft) || (rightfree sp <? lowright) || (highleft <? leftfree sp) || (highright <? rightfree sp) then i
      else interval_loop lowleft lowright highleft highright l (i + 1)
  end.

Definition _abt_defaultinterval (st : ABTFindSplitData) : option Z :=
  let tolerance := int16_of_double (dmul (double_of_Z (olddataitemstotal st))
    (if is_leaf st then ABT_LEAF_SPLIT_DISTANCE else ABT_INTERNAL_SPLIT_DISTANCE)) in
  spaceoptimal ← splits st !! 0%nat;
  Some (interval_loop (i16 (leftfree spaceoptimal - tolerance)) (i16 (rightfree spaceoptimal - tolerance))
    (i16 (leftfree spaceoptimal + tolerance)) (i16 (rightfree spaceoptimal + tolerance)) (drop 1 (splits st)) 1).

(** Downward over the interval, the most distant split points first. *)
Fixpoint edges_loop (deltaoptimal : ABTSplitPoint) (l : list ABTSplitPoint) (leftinterval rightinterval : option ABTSplitPoint) :
    option (ABTSplitPoint * ABTSplitPoint) :=
  match l with
  | [] => None
  | distant :: l =>
      let setleft := match leftinterval with None => Some distant | Some _ => leftinterval end in
      let setright := match rightinterval with None => Some distant | Some _ => rightinterval end in
      let '(leftinterval, rightinterval) :=
        if firstrightoff distant <? firstrightoff deltaoptimal then (setleft, rightinterval)
        else if firstrightoff deltaoptimal <? firstrightoff distant then (leftinterval, setright)
        else if negb (newitemonleft distant) && newitemonleft deltaoptimal then (setleft, rightinterval)
        else if newitemonleft distant && negb (newitemonleft deltaoptimal) then (leftinterval, setright)
        else (setleft, setright) in
      match leftinterval, rightinterval with
      | Some a, Some b => Some (a, b)
      | _, _ => edges_loop deltaoptimal l leftinterval rightinterval
      end
  end.

Definition _abt_interval_edges (st : ABTFindSplitData) : option (ABTSplitPoint * ABTSplitPoint) :=
  let highsplit := Z.min (interval st) (nsplits st) in
  deltaoptimal ← splits st !! 0%nat;
  edges_loop deltaoptimal (rev (take (Z.to_nat highsplit) (splits st))) None None.

Definition _abt_strategy (st : ABTFindSplitData) (leftpage rightpage : ABTSplitPoint) : option (Z * ABTFindSplitStrat) :=
  let indnkeyatts := indnkeyatts rel in
  if negb (is_leaf st) then Some (minfirstrightsz st, ABT_SPLIT_DEFAULT)
  else
    '(leftinterval, rightinterval) ← _abt_interval_edges st;
    leftmost ← _abt_split_lastleft st leftinterval;
    rightmost ← _abt_split_firstright st rightinterval;
    let perfectpenalty := keep_natts_fast leftmost rightmost in
    if perfectpenalty <=? indnkeyatts then Some (perfectpenalty, ABT_SPLIT_DEFAULT)
    else
      leftmost ← _abt_split_lastleft st leftpage;
      rightmost ← _abt_split_firstright st rightpage;
      let perfectpenalty := keep_natts_fast leftmost rightmost in
      if perfectpenalty <=? indnkeyatts then Some (indnkeyatts, ABT_SPLIT_MANY_DUPLICATES)
      else if is_rightmost st then Some (perfectpenalty, ABT_SPLIT_SINGLE_VALUE)
      else
        hikey ← snd <$> sp_item (origpage st) ABTP_HIKEY;
        let perfectpenalty := keep_natts_fast hikey (newitem st) in
        Some (perfectpenalty, if perfectpenalty <=? indnkeyatts then ABT_SPLIT_SINGLE_VALUE else ABT_SPLIT_DEFAULT).

(** ** The search *)

Inductive split_result := SplitAt (firstrightoff : Z) (newitemonleft : bool) | NoFeasibleSplit.

(** The state before the scan: [newitemsz] is the aligned size of the new item. *)
Definition initial_state (p : spage) (newoff newsz : Z) (item : index_tuple) : option ABTFindSplitData :=
  let opaque := sp_opaque p in
  rightspace ← (if ABT_P_RIGHTMOST opaque then Some page_room
                else itemid ← sp_item p ABTP_HIKEY; Some (page_room - (MAXALIGN (fst itemid) + sizeof_ItemIdData)));
  Some (mk_fsd p item (newsz + sizeof_ItemIdData)
    (negb (ABT_P_ISLEAF opaque) && match ABTreeTupleGetHeapTID item with Some _ => true | None => false end)
    (ABT_P_ISLEAF opaque) (ABT_P_RIGHTMOST opaque) newoff page_room rightspace (rightspace - PageGetExactFreeSpace p)
    SIZE_MAX (sp_maxoff p) [] 0).

(** Every split point of the page. *)
Definition all_splits (p : spage) (newoff newsz : Z) (item : index_tuple) : option ABTFindSplitData :=
  let first := ABT_P_FIRSTDATAKEY (sp_opaque p) in
  st ← initial_state p newoff newsz item;
  '(st, olddataitemstoleft) ← record_splits (drop (Z.to_nat (first - 1)) (sp_items p)) first 0 st;
  if sp_maxoff p <? newoff then _abt_recsplitloc st newoff false (olddataitemstotal st) 0 else Some st.

(** Choosing among the split points, once the fill factor is known. *)
Definition choose_split (st : ABTFindSplitData) (fillfactormult : double) (usemult : bool) : option split_result :=
  leftpage ← splits st !! 0%nat;
  rightpage ← last (splits st);
  let st := _abt_deltasortsplits st fillfactormult usemult in
  interval ← _abt_defaultinterval st;
  let st := set_interval st interval in
  '(perfectpenalty, strategy) ← _abt_strategy st leftpage rightpage;
  let st :=
    match strategy with
    | ABT_SPLIT_DEFAULT => st
    | ABT_SPLIT_MANY_DUPLICATES => set_interval st (nsplits st)
    | ABT_SPLIT_SINGLE_VALUE => set_interval (_abt_deltasortsplits st (percent ABTREE_SINGLEVAL_FILLFACTOR) true) 1
    end in
  final ← _abt_bestsplitloc st perfectpenalty strategy;
  Some (SplitAt (firstrightoff final) (newitemonleft final)).

Definition _abt_findsplitloc (p : spage) (newoff newsz : Z) (item : index_tuple) (leaffillfactor : Z) : option split_result :=
  st ← all_splits p newoff newsz item;
  match splits st with
  | [] => Some NoFeasibleSplit
  | _ =>
      if negb (is_leaf st) then choose_split st (percent ABTREE_NONLEAF_FILLFACTOR) (is_rightmost st)
      else if is_rightmost st then choose_split st (percent leaffillfactor) true
      else
        after ← _abt_afternewitemoff st (sp_maxoff p) leaffillfactor;
        match after with
        | Some true => choose_split st (percent leaffillfactor) true
        | Some false =>
            if existsb (fun sp => newitemonleft sp && (newoff =? firstrightoff sp)) (splits st) then Some (SplitAt newoff true)
            else choose_split st half false
        | None => choose_split st half false
        end
  end.

End Find.

(** A tuple of two int8 columns carries its xmin too, and so is always too wide for the
    split-after-new-item optimization, which is documented to include such tuples. *)
Lemma afternewitemoff_int8_pair rel ai stale st maxoff leaffillfactor : 8 <= extra_space_for_nonpivot_tuple ai ->
  newitemsz st = MAXALIGN (sizeof_IndexTupleData + 8 * 2 + extra_space_for_nonpivot_tuple ai) + sizeof_ItemIdData ->
  _abt_afternewitemoff rel stale st maxoff leaffillfactor = Some None.
Proof.
  intros He Hs. unfold _abt_afternewitemoff. replace (_ <? newitemsz st) with true by (symmetry; apply Z.ltb_lt; rewrite Hs;
    unfold sizeof_IndexTupleData; change (MAXALIGN (8 + 8 * 2)) with 24; rewrite MAXALIGN_eq; Z.div_mod_to_equations; lia).
  by repeat case_match.
Qed.

(** What qsort promises. *)
Class SplitSort (qsort : list ABTSplitPoint -> list ABTSplitPoint) : Prop := {
  ss_perm l : qsort l ≡ₚ l;
  ss_sorted l : Sorted (fun a b => curdelta a <= curdelta b) (qsort l)
}.

(** ** Sizes *)

Lemma i16_small z : - 2 ^ 15 <= z < 2 ^ 15 -> i16 z = z.
Proof.
  intros Hz. unfold i16, sign_extend. change (2 ^ (16 - 1)) with 32768. change (2 ^ 16) with 65536. change (2 ^ 15) with 32768 in Hz.
  destruct (Z.lt_ge_cases z 0).
  - replace (z mod 65536) with (z + 65536) by (apply (Z.mod_unique_pos _ _ (-1)); lia).
    rewrite (proj2 (Z.ltb_ge _ _)) by lia. lia.
  - rewrite Z.mod_small by lia. by rewrite (proj2 (Z.ltb_lt _ _)) by lia.
Qed.

(** Drop int16 conversions of values in range, the innermost first. *)
Ltac i16_lia :=
  repeat match goal with |- context [i16 ?x] =>
    lazymatch x with context [i16 _] => fail | _ => rewrite (i16_small x) by lia end end.

Lemma sumZ_take_S (l : list Z) i x : l !! i = Some x -> sumZ (take (S i) l) = sumZ (take i l) + x.
Proof. intros H. rewrite (take_S_r l i x H), sumZ_app. simpl. lia. Qed.

Lemma sumZ_take_drop (l : list Z) i : sumZ (take i l) + sumZ (drop i l) = sumZ l.
Proof. rewrite <- sumZ_app. by rewrite take_drop. Qed.

(** The last index up to [n] at which a test that holds at 0 still holds. *)
Lemma last_index (P : nat -> Prop) `{forall i, Decision (P i)} n : P 0%nat -> exists i, (i <= n)%nat /\ P i /\ (i = n \/ ~ P (S i)).
Proof.
  intros H0. induction n as [|n IH]; [by exists 0%nat; eauto|]. destruct IH as (i & Hi & Hp & [->|Hn]).
  - destruct (decide (P (S n))); [exists (S n)|exists n]; eauto with lia.
  - exists i. split; [lia|eauto].
Qed.

(** Items of at most a third of a page each, of which all but one fit on the page, can
    be split so that the items before the split point and a copy of the item behind it
    fit, and so do the items behind it. *)
Lemma feasible (room h new m : Z) (sizes extra : list Z) :
  Forall (fun s => 0 <= s /\ 3 * s + 8 <= room) sizes -> Forall (fun e => e <= 8) extra -> length extra = length sizes ->
  sizes <> [] -> 0 <= h -> 3 * h + 8 <= room -> 3 * new + 8 <= room -> 0 <= m -> 3 * m + 8 <= room -> sumZ sizes - new <= room - h ->
  exists i s e, sizes !! i = Some s /\ extra !! i = Some e /\ sumZ (take i sizes) + s + e <= room /\
    sumZ (drop i sizes) <= room - h /\ sumZ (drop i sizes) - s + m <= room - h.
Proof.
  intros Hs He Hlen Hne Hh1 Hh2 Hnew Hm1 Hm2 Hsum.
  assert (Hget : forall i, (i < length sizes)%nat -> exists s e, sizes !! i = Some s /\ extra !! i = Some e /\ 0 <= s /\ 3 * s + 8 <= room /\ e <= 8).
  { intros i Hi. destruct (lookup_lt_is_Some_2 sizes i Hi) as [s Es]. destruct (lookup_lt_is_Some_2 extra i ltac:(lia)) as [e Ee].
    exists s, e. rewrite Forall_forall in Hs, He. apply list_elem_of_lookup_2 in Es as Es'. apply list_elem_of_lookup_2 in Ee as Ee'.
    destruct (Hs s Es'). specialize (He e Ee'). by split_and!. }
  assert (Hpos : (0 < length sizes)%nat) by (destruct sizes; [done|simpl; lia]).
  destruct (last_index (fun i => sumZ (take i sizes) + default 0 (sizes !! i) + default 0 (extra !! i) <= room) (pred (length sizes)))
    as (i & Hi & Hp & Hlast).
  { destruct (Hget 0%nat Hpos) as (s & e & -> & -> & ? & ? & ?). simpl. lia. }
  destruct (Hget i ltac:(lia)) as (s & e & Es & Ee & Hs0 & Hs3 & He8). rewrite Es, Ee in Hp. simpl in Hp.
  exists i, s, e. split; [done|]. split; [done|]. split; [lia|].
  pose proof (sumZ_take_drop sizes i). pose proof (sumZ_take_S sizes i s Es).
  destruct Hlast as [->|Hnot].
  - assert (sumZ (drop (pred (length sizes)) sizes) = s) as ->; [|lia].
    rewrite (drop_S _ _ _ Es), drop_ge by lia. simpl. lia.
  - destruct (decide (S i < length sizes)%nat) as [Hlt|Hge].
    + destruct (Hget (S i) Hlt) as (s' & e' & Es' & Ee' & ? & ? & ?). rewrite Es', Ee' in Hnot. simpl in Hnot. lia.
    + assert (sumZ (drop i sizes) = s) as ->; [|lia]. rewrite (drop_S _ _ _ Es), drop_ge by lia. simpl. lia.
Qed.

(** ** The page with the new item *)

Section Page.
Context (rel : index_rel) (ai : agg_info) (p : spage) (newoff newsz : Z) (item : index_tuple).

Abbreviation first := (ABT_P_FIRSTDATAKEY (sp_opaque p)).
Abbreviation leaf := (ABT_P_ISLEAF (sp_opaque p)).
Abbreviation data := (drop (Z.to_nat (first - 1)) (sp_items p)).
Abbreviation newpos := (Z.to_nat (newoff - first)).

(** The data items with the new one in its place. *)
Definition imaginary : list (Z * index_tuple) := take newpos data ++ (newsz, item) :: drop newpos data.

(** The split point before item [i] of the imaginary page. *)
Definition point_off (i : nat) : Z := first + Z.of_nat i - (if (newpos <? i)%nat then 1 else 0).
Definition point_onleft (i : nat) : bool := (newpos <? i)%nat.

(** The space of the right page's own high key. *)
Definition hikey_space : Z := if ABT_P_RIGHTMOST (sp_opaque p) then 0 else match sp_item p ABTP_HIKEY with Some it => item_size (fst it) | None => 0 end.
Definition minus_infinity_size : Z := MAXALIGN sizeof_IndexTupleData + extra_space_when_tid_missing ai + sizeof_ItemIdData.

Definition has_tid (t : index_tuple) : bool := match ABTreeTupleGetHeapTID t with Some _ => true | None => false end.

(** What the high key made of item [i] saves at least. *)
Definition saving (i : nat) (it : Z * index_tuple) : Z :=
  if decide (i = newpos) then
    if leaf then extra_space_for_nonpivot_tuple ai
    else if has_tid item then extra_space_when_tid_present ai - MAXALIGN sizeof_ItemPointerData else extra_space_when_tid_missing ai
  else if leaf then
    if 64 <? item_size (fst it) then
      match snd it with
      | LeafTup t => match it_postingoff t with Some off => it_size t - off | None => 0 end
      | PivotTup _ => 0
      end
    else 0
  else Z.min (extra_space_when_tid_present ai - MAXALIGN sizeof_ItemPointerData) (extra_space_when_tid_missing ai).

(** The space left on both sides of the split point before item [i]. *)
Definition left_room (i : nat) (it : Z * index_tuple) : Z :=
  page_room - sumZ (item_size ∘ fst <$> take i imaginary) -
    (item_size (fst it) + (if leaf then MAXALIGN sizeof_ItemPointerData else 0) - saving i it).
Definition right_room (i : nat) (it : Z * index_tuple) : Z :=
  page_room - hikey_space - sumZ (item_size ∘ fst <$> drop i imaginary) +
    (if leaf then 0 else item_size (fst it) - minus_infinity_size).

Definition point (i : nat) : list ABTSplitPoint :=
  match imaginary !! i with
  | Some it => if (0 <=? left_room i it) && (0 <=? right_room i it)
               then [mk_split 0 (left_room i it) (right_room i it) (point_off i) (point_onleft i)] else []
  | None => []
  end.

(** A page that has to be split for the new item, none of the items being larger than a
    third of a page. *)
Record splittable : Prop := {
  sb_sizes : Forall (fun it => 0 <= fst it /\ 3 * item_size (fst it) + 8 <= page_room) (sp_items p);
  sb_new : 0 <= newsz /\ MAXALIGN newsz = newsz /\ 3 * item_size newsz + 8 <= page_room;
  sb_fits : sumZ (item_size ∘ fst <$> sp_items p) <= page_room;
  sb_full : page_room < sumZ (item_size ∘ fst <$> sp_items p) + item_size newsz;
  sb_off : first <= newoff <= sp_maxoff p + 1;
  sb_hikey : ABT_P_RIGHTMOST (sp_opaque p) = false -> sp_items p <> [];
  sb_internal : leaf = false -> first < newoff /\ exists it, sp_item p first = Some it /\ item_size (fst it) = minus_infinity_size;
  sb_posting : forall len t off, (len, LeafTup t) ∈ sp_items p -> it_postingoff t = Some off -> 0 <= off <= it_size t /\ it_size t <= len;
  sb_tids : leaf = true -> Forall (fun it => is_Some (ABTreeTupleGetHeapTID (snd it))) imaginary;
  sb_spaces : 8 <= extra_space_when_tid_present ai <= 4096 /\ 0 <= extra_space_when_tid_missing ai <= 2048 /\
    0 <= extra_space_for_nonpivot_tuple ai <= 4096
}.

Context (Hsb : splittable).

Lemma first_range : 1 <= first <= 2.
Proof. unfold ABT_P_FIRSTDATAKEY, ABTP_HIKEY, ABTP_FIRSTKEY. case_match; lia. Qed.

Lemma newpos_le : (newpos <= length data)%nat /\ newoff = first + Z.of_nat newpos.
Proof.
  pose proof first_range. destruct (sb_off Hsb) as [H1 H2]. unfold sp_maxoff in H2. rewrite length_drop. lia.
Qed.

Lemma imaginary_length : length imaginary = S (length data).
Proof. unfold imaginary. rewrite length_app, length_take. cbn [length]. pose proof newpos_le. rewrite !length_drop in *. lia. Qed.

Lemma data_sum : sumZ (item_size ∘ fst <$> data) = sumZ (item_size ∘ fst <$> sp_items p) - hikey_space.
Proof.
  unfold hikey_space, ABT_P_FIRSTDATAKEY, ABTP_HIKEY, ABTP_FIRSTKEY. destruct (ABT_P_RIGHTMOST (sp_opaque p)) eqn:Er.
  - change (Z.to_nat (1 - 1)) with 0%nat. rewrite drop_0. lia.
  - change (Z.to_nat (2 - 1)) with 1%nat. pose proof (sb_hikey Hsb Er). unfold sp_item. simpl. destruct (sp_items p) as [|it l]; [done|]. simpl.
    rewrite drop_0. change (list_fmap _ _ (item_size ∘ fst) l) with (item_size ∘ fst <$> l). lia.
Qed.

Lemma sum_imaginary : sumZ (item_size ∘ fst <$> imaginary) = sumZ (item_size ∘ fst <$> data) + item_size newsz.
Proof.
  unfold imaginary. rewrite fmap_app, fmap_cons, sumZ_app. cbn [sumZ]. rewrite <- (take_drop newpos data) at 3.
  rewrite fmap_app, sumZ_app. unfold compose at 2. cbn [fst]. lia.
Qed.

Lemma imaginary_item it : it ∈ imaginary -> 0 <= fst it /\ 3 * item_size (fst it) + 8 <= page_room.
Proof.
  pose proof (sb_sizes Hsb) as Hs. rewrite Forall_forall in Hs. destruct (sb_new Hsb) as (H1 & _ & H2). unfold imaginary. rewrite elem_of_app, elem_of_cons.
  intros [Hin|[->|Hin]]; [|done|]; apply Hs.
  - by apply (subseteq_drop (Z.to_nat (first - 1))), (subseteq_take newpos).
  - by apply (subseteq_drop (Z.to_nat (first - 1))), (subseteq_drop newpos).
Qed.

Lemma imaginary_old i it : imaginary !! i = Some it -> i <> newpos -> sp_item p (point_off i) = Some it.
Proof.
  pose proof newpos_le as [Hle Ho]. pose proof first_range. unfold imaginary, point_off, sp_item. intros Hi Hn.
  destruct (Nat.ltb_spec newpos i) as [Hlt|Hge].
  - rewrite lookup_app_r in Hi by (rewrite length_take; lia). rewrite length_take, Nat.min_l in Hi by lia.
    destruct (i - newpos)%nat as [|d] eqn:Ed; [lia|]. change (drop newpos data !! d = Some it) in Hi. rewrite !lookup_drop in Hi.
    rewrite (proj2 (Z.ltb_ge _ _)) by lia. rewrite <- Hi. f_equal. lia.
  - rewrite lookup_app_l in Hi by (rewrite length_take; lia). rewrite lookup_take_lt, lookup_drop in Hi by lia.
    rewrite (proj2 (Z.ltb_ge _ _)) by lia. rewrite <- Hi. f_equal. lia.
Qed.

Lemma imaginary_new : imaginary !! newpos = Some (newsz, item).
Proof.
  pose proof newpos_le as [Hle _]. unfold imaginary. rewrite lookup_app_r by (rewrite length_take; lia).
  by rewrite length_take, Nat.min_l, Nat.sub_diag by lia.
Qed.

Lemma room_values : page_room = 8144 /\ MAXALIGN sizeof_ItemPointerData = 8 /\ minus_infinity_size = 12 + extra_space_when_tid_missing ai.
Proof. unfold minus_infinity_size. change (MAXALIGN sizeof_IndexTupleData) with 8. unfold sizeof_ItemIdData. split; [reflexivity|]. split; [reflexivity|]. lia. Qed.

Lemma hikey_range : 0 <= hikey_space /\ 3 * hikey_space + 8 <= page_room.
Proof.
  unfold hikey_space. destruct (ABT_P_RIGHTMOST (sp_opaque p)); [by vm_compute|].
  destruct (sp_item p ABTP_HIKEY) as [it|] eqn:E; [|by vm_compute].
  pose proof (sb_sizes Hsb) as Hs. rewrite Forall_forall in Hs. unfold sp_item in E. simpl in E. apply list_elem_of_lookup_2, Hs in E.
  destruct E as [E1 E2]. split; [|done]. unfold item_size, sizeof_ItemIdData. pose proof (MAXALIGN_spec (fst it)). lia.
Qed.

(** The scan's sum of the items before a split point. *)
Definition old_left (i : nat) : Z := sumZ (item_size ∘ fst <$> take (i - (if (newpos <? i)%nat then 1 else 0)) data).

Lemma sum_take_imaginary i : (i <= length imaginary)%nat ->
  sumZ (item_size ∘ fst <$> take i imaginary) = old_left i + (if point_onleft i then item_size newsz else 0).
Proof.
  intros Hi. pose proof newpos_le as [Hle _]. rewrite imaginary_length in Hi. unfold imaginary, old_left, point_onleft.
  destruct (Nat.ltb_spec newpos i).
  - rewrite take_app_ge by (rewrite length_take; lia). rewrite length_take, Nat.min_l by lia.
    destruct (i - newpos)%nat as [|d] eqn:Ed; [lia|]. cbn [take]. rewrite fmap_app, fmap_cons, sumZ_app. cbn [sumZ]. unfold compose at 2. cbn [fst].
    replace (i - 1)%nat with (newpos + d)%nat by lia. rewrite <- (take_take_drop data newpos d), fmap_app, sumZ_app. lia.
  - rewrite take_app_le by (rewrite length_take; lia). rewrite take_take, Nat.min_l, Nat.sub_0_r by lia. lia.
Qed.

(** ** The split points that are recorded *)

Definition state0 : ABTFindSplitData :=
  mk_fsd p item (newsz + sizeof_ItemIdData) (negb leaf && has_tid item) leaf (ABT_P_RIGHTMOST (sp_opaque p)) newoff page_room
    (page_room - hikey_space) (sumZ (item_size ∘ fst <$> data)) SIZE_MAX (sp_maxoff p) [] 0.

Lemma initial_ok : initial_state p newoff newsz item = Some state0.
Proof.
  unfold initial_state, state0. rewrite data_sum. unfold PageGetExactFreeSpace, hikey_space. pose proof (sb_fits Hsb). rewrite Z.max_r by lia.
  destruct (ABT_P_RIGHTMOST (sp_opaque p)) eqn:Er; cbn [mbind option_bind].
  - do 2 f_equal; lia.
  - pose proof (sb_hikey Hsb Er). unfold sp_item. cbn. destruct (sp_items p) as [|it l]; [done|].
    change ((it :: l) !! Z.to_nat (ABTP_HIKEY - 1)) with (Some it). cbn [mbind option_bind]. fold (item_size (fst it)). do 2 f_equal; lia.
Qed.

Lemma saving_range i it : imaginary !! i = Some it -> 0 <= saving i it <= 4096.
Proof.
  intros Hi. destruct (sb_spaces Hsb) as (H1 & H2 & H3). destruct room_values as (_ & Hp & _). unfold saving. rewrite Hp.
  destruct (decide (i = newpos)); [repeat case_match; lia|]. destruct leaf; [|lia]. case_match; [|lia].
  destruct it as [len [t|pv]]; cbn [snd]; [|lia]. destruct (it_postingoff t) as [off|] eqn:Eo; [|lia].
  pose proof (imaginary_old i _ Hi n) as Hit. unfold sp_item in Hit. case_match; [done|]. apply list_elem_of_lookup_2 in Hit as Hin.
  destruct (sb_posting Hsb len t off Hin Eo). apply list_elem_of_lookup_2, imaginary_item in Hi as [Hl0 Hl]. cbn [fst] in Hl. unfold item_size, sizeof_ItemIdData in Hl.
  pose proof (MAXALIGN_spec len). destruct room_values as (Hr & _). lia.
Qed.

Lemma first_right_new i : (i < length imaginary)%nat -> (point_off i =? newoff) && negb (point_onleft i) = bool_decide (i = newpos).
Proof.
  intros Hi. pose proof newpos_le as [_ Ho]. unfold point_off, point_onleft. destruct (Nat.ltb_spec newpos i); cbn [negb].
  - rewrite andb_false_r, bool_decide_eq_false_2 by lia. done.
  - rewrite andb_true_r. apply Bool.eq_iff_eq_true. rewrite Z.eqb_eq, bool_decide_eq_true. lia.
Qed.

Lemma data_nonneg : Forall (fun z => 0 <= z) (item_size ∘ fst <$> data).
Proof.
  apply Forall_fmap, Forall_drop. eapply Forall_impl; [apply (sb_sizes Hsb)|]. intros it [H _]. unfold compose, item_size, sizeof_ItemIdData.
  pose proof (MAXALIGN_spec (fst it)). lia.
Qed.

Lemma old_left_range i : 0 <= old_left i <= sumZ (item_size ∘ fst <$> data) /\ sumZ (item_size ∘ fst <$> data) <= page_room - hikey_space.
Proof.
  unfold old_left. set (k := (i - _)%nat). pose proof data_nonneg as Hpos.
  pose proof (sumZ_take_drop (item_size ∘ fst <$> data) k) as Hsum. pose proof (sumZ_nonneg _ (Forall_drop _ k _ Hpos)) as Hd.
  pose proof (sumZ_nonneg _ (Forall_take _ k _ Hpos)) as Ht. rewrite fmap_take. pose proof data_sum. pose proof (sb_fits Hsb). lia.
Qed.

Lemma rec_finish m minsz l lf rf off onleft :
  (if (0 <=? lf) && (0 <=? rf) then [mk_split 0 lf rf off onleft] else []) = [] \/ Z.of_nat (length l) < sp_maxoff p ->
  exists m', (if (0 <=? lf) && (0 <=? rf) then
      if nsplits (set_splits state0 m l) <? maxsplits (set_splits state0 m l)
      then Some (set_splits (set_splits state0 m l) minsz (l ++ [mk_split 0 lf rf off onleft])) else None
    else Some (set_splits state0 m l)) =
    Some (set_splits state0 m' (l ++ (if (0 <=? lf) && (0 <=? rf) then [mk_split 0 lf rf off onleft] else []))).
Proof.
  intros H. destruct ((0 <=? lf) && (0 <=? rf)).
  - destruct H as [H|H]; [done|]. unfold nsplits. cbn [set_splits splits maxsplits state0]. rewrite (proj2 (Z.ltb_lt _ _) H). by eexists.
  - exists m. by rewrite app_nil_r.
Qed.

Lemma rec_step i it m l sz : imaginary !! i = Some it -> (i <> newpos -> sz = item_size (fst it)) ->
  point i = [] \/ Z.of_nat (length l) < sp_maxoff p ->
  exists m', _abt_recsplitloc ai (set_splits state0 m l) (point_off i) (point_onleft i) (old_left i) sz = Some (set_splits state0 m' (l ++ point i)).
Proof.
  intros Hi Hsz Hroom. pose proof (lookup_lt_Some _ _ _ Hi) as Hlt. pose proof (saving_range i it Hi) as Hsav.
  pose proof (old_left_range i) as Hold. pose proof (sum_take_imaginary i ltac:(lia)) as Htake.
  pose proof (sumZ_take_drop (item_size ∘ fst <$> imaginary) i) as Hdrop. rewrite <- fmap_take, <- fmap_drop, sum_imaginary in Hdrop.
  pose proof (imaginary_item it (list_elem_of_lookup_2 _ _ _ Hi)) as [Hl0 Hl3]. destruct (sb_new Hsb) as (Hn0 & Hn8 & Hn3).
  destruct (sb_spaces Hsb) as (Hs1 & Hs2 & Hs3). destruct room_values as (Hr & Hp & Hm). pose proof hikey_range as [Hh0 Hh3].
  unfold _abt_recsplitloc. cbn [set_splits newitemoff newitemsz leftspace rightspace olddataitemstotal is_leaf state0 minfirstrightsz splits].
  rewrite (first_right_new i Hlt).
  set (fr := if bool_decide (i = newpos) then newsz + sizeof_ItemIdData else sz).
  assert (Hfr : fr = item_size (fst it)).
  { unfold fr. destruct (decide (i = newpos)) as [->|Hne]; [rewrite bool_decide_eq_true_2 by done|rewrite bool_decide_eq_false_2 by done; auto].
    rewrite imaginary_new in Hi. injection Hi as <-. unfold item_size. cbn [fst]. by rewrite Hn8. }
  assert (Hsave : high_key_saving ai (set_splits state0 m l) (point_off i) (bool_decide (i = newpos)) fr = Some (saving i it)).
  { unfold high_key_saving, saving. cbn [set_splits state0 is_leaf newitem_w_tid origpage]. destruct (decide (i = newpos)) as [->|Hne].
    - case_bool_decide; [|done]. by destruct leaf.
    - case_bool_decide; [done|]. destruct leaf; [|done]. rewrite Hfr. destruct (64 <? item_size (fst it)); [|done].
      by rewrite (imaginary_old i it Hi Hne). }
  rewrite Hsave, Hfr. cbn [mbind option_bind]. clearbody fr.
  assert (Hisz : 0 <= item_size (fst it)) by (unfold item_size, sizeof_ItemIdData; pose proof (MAXALIGN_spec (fst it)); lia).
  assert (Hnsz : newsz + sizeof_ItemIdData = item_size newsz) by (unfold item_size; lia). rewrite Hnsz.
  assert (Hnpos : 0 <= item_size newsz) by (unfold sizeof_ItemIdData in Hnsz; lia).
  change (MAXALIGN sizeof_IndexTupleData + extra_space_when_tid_missing ai + sizeof_ItemIdData) with minus_infinity_size.
  unfold point in Hroom |- *. rewrite Hi in Hroom |- *.
  assert (Hrooms : left_room i it = page_room - old_left i - (item_size (fst it) + (if leaf then 8 else 0) - saving i it) -
      (if point_onleft i then item_size newsz else 0) /\
    right_room i it = page_room - hikey_space - (sumZ (item_size ∘ fst <$> data) - old_left i) -
      (if point_onleft i then 0 else item_size newsz) + (if leaf then 0 else item_size (fst it) - minus_infinity_size)).
  { unfold left_room, right_room. rewrite Hp. destruct (point_onleft i); lia. }
  destruct Hrooms as [Hleft Hright].
  destruct leaf, (point_onleft i); i16_lia;
    match goal with |- context [mk_split 0 ?lf ?rf (point_off i) _] =>
      replace lf with (left_room i it) by lia; replace rf with (right_room i it) by lia end; by apply rec_finish.
Qed.

(** The first point, with nothing on the left page, is never legal. *)
Lemma point_0 : point 0 = [].
Proof.
  unfold point. destruct (imaginary !! 0%nat) as [it|] eqn:Hi; [|done].
  replace (0 <=? right_room 0 it) with false; [by rewrite andb_false_r|]. symmetry. apply Z.leb_gt. unfold right_room.
  rewrite drop_0, sum_imaginary, data_sum. pose proof (sb_full Hsb). destruct leaf eqn:El; [lia|].
  destruct (sb_internal Hsb El) as (Hlt & it' & Hf & Hs). assert (it' = it) as ->; [|lia].
  pose proof newpos_le as [_ Ho]. assert (Hne : 0%nat <> newpos) by lia. pose proof (imaginary_old 0 it Hi Hne) as Hit.
  unfold point_off in Hit. replace (newpos <? 0)%nat with false in Hit by done. rewrite Z.add_0_r, Z.sub_0_r in Hit. congruence.
Qed.

Definition points (n : nat) : list ABTSplitPoint := seq 0 n ≫= point.

Lemma points_S n : points (S n) = points n ++ point n.
Proof. unfold points. rewrite seq_S, bind_app. simpl. by rewrite app_nil_r. Qed.

Lemma points_length n : (length (points n) <= pred n)%nat.
Proof.
  induction n as [|n IH]; [done|]. rewrite points_S, length_app. destruct n as [|n]; [by rewrite point_0|].
  assert (length (point (S n)) <= 1)%nat by (unfold point; repeat case_match; simpl; lia). simpl in *. lia.
Qed.

Lemma points_room n : (n < length imaginary)%nat -> point n = [] \/ Z.of_nat (length (points n)) < sp_maxoff p.
Proof.
  intros Hn. destruct n as [|n]; [left; apply point_0|]. right. pose proof (points_length (S n)). rewrite imaginary_length, length_drop in Hn.
  unfold sp_maxoff. simpl in *. lia.
Qed.

Lemma data_imaginary a it : data !! a = Some it -> imaginary !! (if (a <? newpos)%nat then a else S a) = Some it.
Proof.
  intros Ha. pose proof newpos_le as [Hle _]. unfold imaginary. destruct (Nat.ltb_spec a newpos).
  - rewrite lookup_app_l by (rewrite length_take; lia). by rewrite lookup_take_lt.
  - rewrite lookup_app_r by (rewrite length_take; lia). rewrite length_take, Nat.min_l by lia.
    replace (S a - newpos)%nat with (S (a - newpos)) by lia. change (drop newpos data !! (a - newpos)%nat = Some it).
    rewrite lookup_drop, <- Ha. f_equal. lia.
Qed.

(** The number of points before item [a] of the original page. *)
Definition idx (a : nat) : nat := (a + (if (newpos <? a)%nat then 1 else 0))%nat.

Lemma record_step a it m sz : imaginary !! a = Some it -> (a <> newpos -> sz = item_size (fst it)) ->
  exists m', _abt_recsplitloc ai (set_splits state0 m (points a)) (point_off a) (point_onleft a) (old_left a) sz = Some (set_splits state0 m' (points (S a))).
Proof.
  intros Hi Hs. destruct (rec_step a it m (points a) sz Hi Hs) as [m' ->]; [apply points_room; by eapply lookup_lt_Some|].
  exists m'. by rewrite points_S.
Qed.

Lemma point_before a : (a <= newpos)%nat ->
  point_off a = first + Z.of_nat a /\ point_onleft a = false /\ old_left a = sumZ (take a (item_size ∘ fst <$> data)).
Proof.
  intros Ha. unfold point_off, point_onleft, old_left. rewrite (proj2 (Nat.ltb_ge _ _)) by lia. rewrite Nat.sub_0_r, fmap_take. split; [lia|done].
Qed.
Lemma point_after a : (newpos <= a)%nat ->
  point_off (S a) = first + Z.of_nat a /\ point_onleft (S a) = true /\ old_left (S a) = sumZ (take a (item_size ∘ fst <$> data)).
Proof.
  intros Ha. unfold point_off, point_onleft, old_left. rewrite (proj2 (Nat.ltb_lt _ _)) by lia. replace (S a - 1)%nat with a by lia.
  rewrite fmap_take. split; [lia|done].
Qed.

Lemma record_ok k a m : length data = (a + k)%nat ->
  exists m', record_splits ai (drop a data) (first + Z.of_nat a) (sumZ (take a (item_size ∘ fst <$> data))) (set_splits state0 m (points (idx a))) =
    Some (set_splits state0 m' (points (idx (length data))), sumZ (item_size ∘ fst <$> data)).
Proof.
  revert a m. induction k as [|k IH]; intros a m Hlen.
  { exists m. rewrite drop_ge, take_ge by (rewrite ?length_fmap; lia). by replace a with (length data) by lia. }
  destruct (lookup_lt_is_Some_2 data a ltac:(lia)) as [[len t] Ha]. rewrite (drop_S _ _ _ Ha). cbn [record_splits].
  pose proof newpos_le as [Hle Ho]. pose proof (data_imaginary a _ Ha) as Hi. pose proof imaginary_new as Hn.
  assert (Hnext : forall m1, exists m', record_splits ai (drop (S a) data) (first + Z.of_nat a + 1)
      (sumZ (take a (item_size ∘ fst <$> data)) + item_size len) (set_splits state0 m1 (points (idx (S a)))) =
    Some (set_splits state0 m' (points (idx (length data))), sumZ (item_size ∘ fst <$> data))).
  { intros m1. destruct (IH (S a) m1 ltac:(lia)) as [m' Hm']. exists m'. rewrite <- Hm'. f_equal; [lia|].
    symmetry. apply sumZ_take_S. by rewrite list_lookup_fmap, Ha. }
  change (newitemoff (set_splits state0 m (points (idx a)))) with newoff. unfold idx in *.
  destruct (Nat.lt_trichotomy a newpos) as [Hlt|[Heq|Hgt]].
  - rewrite (proj2 (Z.ltb_lt _ _)) by lia. rewrite (proj2 (Nat.ltb_ge newpos a)), Nat.add_0_r by lia.
    rewrite (proj2 (Nat.ltb_lt _ _) Hlt) in Hi. destruct (point_before a ltac:(lia)) as (<- & <- & <-).
    destruct (record_step a _ m (item_size len) Hi ltac:(done)) as [m1 ->]. cbn [mbind option_bind].
    destruct (point_before a ltac:(lia)) as (-> & _ & ->). rewrite (proj2 (Nat.ltb_ge newpos (S a))), Nat.add_0_r in Hnext by lia. apply Hnext.
  - rewrite !(proj2 (Z.ltb_ge _ _)) by lia. rewrite (proj2 (Nat.ltb_ge newpos a)), Nat.add_0_r by lia.
    rewrite (proj2 (Nat.ltb_ge _ _)) in Hi by lia.
    destruct (point_before a ltac:(lia)) as (E1 & E2 & E3). rewrite <- Heq in Hn.
    destruct (record_step a _ m (item_size len) Hn ltac:(lia)) as [m1 Hm1]. rewrite E1, E2, E3 in Hm1. rewrite Hm1. cbn [mbind option_bind].
    destruct (point_after a ltac:(lia)) as (F1 & F2 & F3).
    destruct (record_step (S a) _ m1 (item_size len) Hi ltac:(done)) as [m2 Hm2]. rewrite F1, F2, F3 in Hm2. rewrite Hm2. cbn [mbind option_bind].
    rewrite (proj2 (Nat.ltb_lt newpos (S a))), Nat.add_1_r in Hnext by lia. apply Hnext.
  - rewrite (proj2 (Z.ltb_ge _ _)), (proj2 (Z.ltb_lt _ _)) by lia. rewrite (proj2 (Nat.ltb_lt newpos a)), Nat.add_1_r by lia.
    rewrite (proj2 (Nat.ltb_ge _ _)) in Hi by lia. destruct (point_after a ltac:(lia)) as (F1 & F2 & F3).
    destruct (record_step (S a) _ m (item_size len) Hi ltac:(done)) as [m2 Hm2]. rewrite F1, F2, F3 in Hm2. rewrite Hm2. cbn [mbind option_bind].
    rewrite (proj2 (Nat.ltb_lt newpos (S a))), Nat.add_1_r in Hnext by lia. apply Hnext.
Qed.

Lemma all_splits_ok : exists m, all_splits ai p newoff newsz item = Some (set_splits state0 m (points (length imaginary))).
Proof.
  unfold all_splits. rewrite initial_ok. cbn [mbind option_bind]. pose proof newpos_le as [Hle Ho]. pose proof first_range.
  destruct (record_ok (length data) 0 SIZE_MAX eq_refl) as [m Hm]. unfold idx in Hm. rewrite drop_0, Z.add_0_r in Hm.
  replace (newpos <? 0)%nat with false in Hm by done. rewrite take_0 in Hm; cbn [sumZ Nat.add] in Hm.
  change (set_splits state0 SIZE_MAX (points 0)) with state0 in Hm. rewrite Hm. cbn [mbind option_bind].
  rewrite imaginary_length. rewrite length_drop in *. unfold sp_maxoff.
  destruct (Nat.ltb_spec newpos (length (sp_items p) - Z.to_nat (first - 1))).
  - rewrite (proj2 (Z.ltb_ge _ _)) by lia. exists m. by rewrite Nat.add_1_r.
  - rewrite (proj2 (Z.ltb_lt _ _)) by lia. rewrite Nat.add_0_r.
    destruct (record_step newpos _ m 0 imaginary_new ltac:(done)) as [m2 Hm2]. destruct (point_before newpos ltac:(lia)) as (E1 & E2 & E3).
    rewrite E1, E2, E3, <- Ho in Hm2. replace (length (sp_items p) - Z.to_nat (first - 1))%nat with newpos by lia.
    rewrite take_ge in Hm2 by (rewrite length_fmap, length_drop; lia). exists m2. rewrite <- Hm2. done.
Qed.

(** A legal split point, whatever its delta. *)
Definition legal (i : nat) (it : Z * index_tuple) : Prop :=
  (0 < i)%nat /\ imaginary !! i = Some it /\ 0 <= left_room i it /\ 0 <= right_room i it.
Definition valid (sp : ABTSplitPoint) : Prop :=
  exists i it, legal i it /\ firstrightoff sp = point_off i /\ newitemonleft sp = point_onleft i.

Lemma points_valid n : Forall valid (points n).
Proof.
  induction n as [|n IH]; [constructor|]. rewrite points_S. apply Forall_app. split; [done|]. destruct n as [|n]; [by rewrite point_0|].
  unfold point. destruct (imaginary !! S n) as [it|] eqn:Hi; [|constructor]. case_match eqn:E; [|constructor].
  apply andb_true_iff in E as [E1 E2]. zbool. constructor; [|constructor]. exists (S n), it. split; [|done]. split; [lia|done].
Qed.

(** There is a legal split point. *)
Lemma points_nonempty : points (length imaginary) <> [].
Proof.
  destruct room_values as (Hr & Hp & Hm). destruct (sb_spaces Hsb) as (Hs1 & Hs2 & Hs3). destruct (sb_new Hsb) as (Hn0 & Hn8 & Hn3).
  destruct (feasible page_room hikey_space (item_size newsz) minus_infinity_size (item_size ∘ fst <$> imaginary)
    (imap (fun i it => (if leaf then 8 else 0) - saving i it) imaginary)) as (i & s & e & Hs & He & Hleft & Hright1 & Hright2).
  - apply Forall_fmap, Forall_forall. intros it Hin. unfold compose. destruct (imaginary_item it Hin) as [H0 H3]. split; [|done].
    unfold item_size, sizeof_ItemIdData. pose proof (MAXALIGN_spec (fst it)). lia.
  - apply Forall_lookup. intros i e He. rewrite list_lookup_imap in He. destruct (imaginary !! i) as [it|] eqn:Hi; [|done].
    injection He as <-. pose proof (saving_range i it Hi). destruct leaf; lia.
  - by rewrite length_imap, length_fmap.
  - intros E. apply (f_equal length) in E. rewrite length_fmap, imaginary_length in E. done.
  - apply hikey_range.
  - apply hikey_range.
  - done.
  - lia.
  - lia.
  - rewrite sum_imaginary, data_sum. pose proof (sb_fits Hsb). lia.
  - rewrite list_lookup_fmap in Hs. rewrite list_lookup_imap in He. destruct (imaginary !! i) as [it|] eqn:Hi; [|done].
    injection Hs as <-. injection He as <-. rewrite <- fmap_take in Hleft. rewrite <- fmap_drop in Hright1, Hright2.
    assert (Hin : mk_split 0 (left_room i it) (right_room i it) (point_off i) (point_onleft i) ∈ points (length imaginary)).
    { apply list_elem_of_bind. exists i. split; [|apply elem_of_seq; apply lookup_lt_Some in Hi; lia]. unfold point. rewrite Hi.
      rewrite (proj2 (Z.leb_le 0 (left_room i it))), (proj2 (Z.leb_le 0 (right_room i it))); [by left| |];
        unfold left_room, right_room; rewrite ?Hp; destruct leaf; lia. }
    intros E. rewrite E in Hin. by apply elem_of_nil in Hin.
Qed.

Definition like (st : ABTFindSplitData) (l : list ABTSplitPoint) : Prop :=
  exists m n, st = set_interval (set_splits state0 m l) n.

Lemma lastleft_ok st l sp i it : like st l -> legal i it -> firstrightoff sp = point_off i -> newitemonleft sp = point_onleft i ->
  _abt_split_lastleft st sp = snd <$> imaginary !! (i - 1)%nat.
Proof.
  intros (m & n & ->) (Hi0 & Hi & _) E1 E2. unfold _abt_split_lastleft. rewrite E1, E2. cbn [set_interval set_splits state0 newitemoff newitem origpage].
  pose proof newpos_le as [Hle Ho]. destruct (lookup_lt_is_Some_2 imaginary (i - 1)) as [it' Hi']; [apply lookup_lt_Some in Hi; lia|].
  unfold point_onleft, point_off. destruct (Nat.ltb_spec newpos i) as [Hlt|Hge]; cbn [andb].
  - destruct (Z.eqb_spec (first + Z.of_nat i - 1) newoff) as [He|Hne].
    + replace (i - 1)%nat with newpos by lia. by rewrite imaginary_new.
    + rewrite Hi', <- (imaginary_old (i - 1) it' Hi') by lia. unfold point_off. rewrite (proj2 (Nat.ltb_lt _ _)) by lia. do 2 f_equal. lia.
  - rewrite Hi', <- (imaginary_old (i - 1) it' Hi') by lia. unfold point_off. rewrite (proj2 (Nat.ltb_ge _ _)) by lia. do 2 f_equal. lia.
Qed.

Lemma firstright_ok st l sp i it : like st l -> legal i it -> firstrightoff sp = point_off i -> newitemonleft sp = point_onleft i ->
  _abt_split_firstright st sp = Some (snd it).
Proof.
  intros (m & n & ->) (Hi0 & Hi & _) E1 E2. unfold _abt_split_firstright. rewrite E1, E2, andb_comm. cbn [set_interval set_splits state0 newitemoff newitem origpage].
  rewrite (first_right_new i) by by eapply lookup_lt_Some. destruct (decide (i = newpos)) as [->|Hne].
  - rewrite imaginary_new in Hi. injection Hi as <-. by case_bool_decide.
  - case_bool_decide; [done|]. by rewrite (imaginary_old i it Hi Hne).
Qed.

Section Choose.
Context (stale : index_tuple -> nat -> option Z) (qsort : list ABTSplitPoint -> list ABTSplitPoint) `{!SplitSort qsort}.

Abbreviation penalty := (_abt_split_penalty rel stale).

Lemma penalty_ok st l sp : like st l -> valid sp -> is_Some (penalty st sp).
Proof.
  intros Hst (i & it & Hl & E1 & E2). unfold _abt_split_penalty. destruct (negb (is_leaf st)) eqn:El.
  - pose proof Hst as (m & n & ->). destruct Hl as (Hi0 & Hi & _). rewrite E1, E2, andb_comm. cbn [set_interval set_splits state0 newitemoff newitemsz origpage].
    rewrite (first_right_new i) by by eapply lookup_lt_Some. case_bool_decide; [done|]. by rewrite (imaginary_old i it Hi).
  - rewrite (lastleft_ok st l sp i it Hst Hl E1 E2), (firstright_ok st l sp i it Hst Hl E1 E2). destruct Hl as (Hi0 & Hi & _).
    destruct (lookup_lt_is_Some_2 imaginary (i - 1)) as [it' ->]; [apply lookup_lt_Some in Hi; lia|]. done.
Qed.

(** The loop ends with the best of what it has seen; it stops early only at a penalty
    that is good enough. *)
Lemma best_loop_spec st l pp sps i bp low : like st l -> Forall valid sps ->
  exists j b, best_loop rel stale st pp sps i bp low = Some j /\ b <= bp /\
    ((j = low /\ b = bp) \/ exists k sp, sps !! k = Some sp /\ j = (i + k)%nat /\ penalty st sp = Some b) /\
    (b <= pp \/ forall sp pen, sp ∈ sps -> penalty st sp = Some pen -> b <= pen).
Proof.
  intros Hst Hv. revert i bp low. induction Hv as [|sp sps Hsp Hv IH]; intros i bp low; cbn [best_loop].
  { exists low, bp. split_and!; [done|lia|by left|]. right. intros sp pen Hin. by apply elem_of_nil in Hin. }
  destruct (penalty_ok st l sp Hst Hsp) as [pen Hpen]. rewrite Hpen. cbn [mbind option_bind].
  destruct (Z.ltb_spec pen bp) as [Hlt|Hge]; destruct (Z.leb_spec pen pp) as [Hle|Hgt].
  - exists i, pen. split_and!; [done|lia| |by left]. right. exists 0%nat, sp. split_and!; [done|lia|done].
  - destruct (IH (S i) pen i) as (j & b & Hj & Hb & Hwhere & Hmin). exists j, b. split_and!; [done|lia| |].
    + destruct Hwhere as [[-> ->]|(k & sp' & Hk & -> & Hp)]; right; [exists 0%nat, sp; by rewrite Nat.add_0_r|].
      exists (S k), sp'. split_and!; [done|lia|done].
    + destruct Hmin as [|Hmin]; [by left|]. right. intros sp' pen' [->|Hin]%elem_of_cons Hp'; [|by eapply Hmin].
      rewrite Hpen in Hp'. injection Hp' as <-. lia.
  - exists low, bp. split_and!; [done|lia|by left|left; lia].
  - destruct (IH (S i) bp low) as (j & b & Hj & Hb & Hwhere & Hmin). exists j, b. split_and!; [done|lia| |].
    + destruct Hwhere as [|(k & sp' & Hk & -> & Hp)]; [by left|]. right. exists (S k), sp'. split_and!; [done|lia|done].
    + destruct Hmin as [|Hmin]; [by left|]. right. intros sp' pen' [->|Hin]%elem_of_cons Hp'; [|by eapply Hmin].
      rewrite Hpen in Hp'. injection Hp' as <-. lia.
Qed.

Lemma best_ok st l pp strategy : like st l -> splits st = l -> l <> [] -> Forall valid l ->
  exists sp, _abt_bestsplitloc rel stale st pp strategy = Some sp /\ valid sp.
Proof.
  intros Hst Hl Hne Hv. unfold _abt_bestsplitloc. rewrite Hl.
  destruct (best_loop_spec st l pp (take (Z.to_nat (Z.min (interval st) (nsplits st))) l) 0 INT_MAX 0 Hst (Forall_take _ _ _ Hv))
    as (j & b & -> & _ & Hwhere & _). cbn [mbind option_bind].
  assert (Hget : forall j, (j < length l)%nat -> exists sp, l !! j = Some sp /\ valid sp).
  { intros k Hk. destruct (lookup_lt_is_Some_2 l k Hk) as [sp Hsp]. exists sp. split; [done|]. rewrite Forall_forall in Hv. apply Hv. by eapply list_elem_of_lookup_2. }
  assert (H0 : (0 < length l)%nat) by (destruct l; [done|simpl; lia]).
  assert (Hj : (j < length l)%nat).
  { destruct Hwhere as [[-> _]|(k & sp & Hk & -> & _)]; [done|]. apply lookup_lt_Some in Hk. rewrite length_take in Hk. lia. }
  destruct (Hget j Hj) as (sp & -> & Hsp). cbn [mbind option_bind]. destruct (Hget 0%nat H0) as (sp0 & -> & Hsp0).
  case_match; eauto.
Qed.

Lemma edges_ok d l le ri : valid d -> Forall valid l -> (forall x, le = Some x -> valid x) -> (forall x, ri = Some x -> valid x) ->
  exists a b, edges_loop d (l ++ [d]) le ri = Some (a, b) /\ valid a /\ valid b.
Proof.
  intros Hd Hl. revert le ri. induction Hl as [|x l Hx Hl IH]; intros le ri Hle Hri; cbn [edges_loop app].
  - rewrite !Z.ltb_irrefl. replace (negb (newitemonleft d) && newitemonleft d) with false by by destruct (newitemonleft d).
    replace (newitemonleft d && negb (newitemonleft d)) with false by by destruct (newitemonleft d).
    destruct le as [a|], ri as [b|]; eexists _, _; (split; [reflexivity|]); auto.
  - set (setleft := match le with None => Some x | Some _ => le end). set (setright := match ri with None => Some x | Some _ => ri end).
    assert (Hsl : forall y, setleft = Some y -> valid y) by (unfold setleft; destruct le; [done|by intros y [= <-]]).
    assert (Hsr : forall y, setright = Some y -> valid y) by (unfold setright; destruct ri; [done|by intros y [= <-]]).
    match goal with |- context [let '(_, _) := ?pr in _] => assert (Hpr : (forall y, fst pr = Some y -> valid y) /\ (forall y, snd pr = Some y -> valid y)) by
      (repeat case_match; done); destruct pr as [le' ri'] end.
    cbn [fst snd] in Hpr. destruct Hpr as [H1 H2]. destruct le' as [a|], ri' as [b|]; try by apply IH. eexists _, _. split; [reflexivity|auto].
Qed.

Lemma interval_pos a b c d l n : n <= interval_loop a b c d l n.
Proof. revert n. induction l as [|sp l IH]; intros n; cbn [interval_loop]; [lia|]. case_match; [lia|]. specialize (IH (n + 1)). lia. Qed.

Lemma sort_valid st l f u : like st l -> splits st = l -> l <> [] -> Forall valid l ->
  exists l', like (_abt_deltasortsplits qsort st f u) l' /\ splits (_abt_deltasortsplits qsort st f u) = l' /\ l' <> [] /\ Forall valid l'.
Proof.
  intros (m & n & ->) <- Hne Hv. eexists. split; [by eexists m, n|]. split; [done|]. cbn [set_interval set_splits splits] in *.
  pose proof (ss_perm (qsort := qsort) (set_delta f u <$> l)) as Hp. split.
  - intros E. rewrite E in Hp. apply Permutation_nil_l in Hp. by destruct l.
  - rewrite Hp. apply Forall_fmap. eapply Forall_impl; [exact Hv|]. intros sp (i & it & Hl & E1 & E2). by exists i, it.
Qed.

Lemma lastleft_some st l sp : like st l -> valid sp -> is_Some (_abt_split_lastleft st sp).
Proof.
  intros Hst (i & it & Hl & E1 & E2). rewrite (lastleft_ok st l sp i it Hst Hl E1 E2). destruct Hl as (Hi0 & Hi & _).
  destruct (lookup_lt_is_Some_2 imaginary (i - 1)) as [it' ->]; [apply lookup_lt_Some in Hi; lia|]. done.
Qed.
Lemma firstright_some st l sp : like st l -> valid sp -> is_Some (_abt_split_firstright st sp).
Proof. intros Hst (i & it & Hl & E1 & E2). by rewrite (firstright_ok st l sp i it Hst Hl E1 E2). Qed.

Lemma hikey_some : ABT_P_RIGHTMOST (sp_opaque p) = false -> is_Some (sp_item p ABTP_HIKEY).
Proof. intros Hr. pose proof (sb_hikey Hsb Hr). unfold sp_item. simpl. by destruct (sp_items p). Qed.

Lemma strategy_ok st l lp rp : like st l -> splits st = l -> l <> [] -> Forall valid l -> 1 <= interval st -> valid lp -> valid rp ->
  is_Some (_abt_strategy rel stale st lp rp).
Proof.
  intros Hst Hl Hne Hv Hint Hlp Hrp. unfold _abt_strategy. destruct (negb (is_leaf st)); [done|].
  assert (Hedges : exists a b, _abt_interval_edges st = Some (a, b) /\ valid a /\ valid b).
  { unfold _abt_interval_edges, nsplits. rewrite Hl. destruct l as [|d l]; [done|]. inversion Hv as [|? ? Hd Hv']; subst. cbn [lookup list_lookup mbind option_bind].
    destruct (Z.to_nat (Z.min (interval st) (Z.of_nat (length (d :: l))))) as [|h] eqn:Eh; [simpl in Eh; lia|].
    change (rev (take (S h) (d :: l))) with (rev (take h l) ++ [d]). apply edges_ok; try done.
    apply Forall_forall. intros x Hx. apply list_elem_of_In, in_rev, list_elem_of_In in Hx. rewrite Forall_forall in Hv'. apply Hv'.
    by apply (subseteq_take h). }
  destruct Hedges as (a & b & -> & Ha & Hb). cbn [mbind option_bind].
  destruct (lastleft_some st l a Hst Ha) as [x ->]. destruct (firstright_some st l b Hst Hb) as [y ->].
  destruct (lastleft_some st l lp Hst Hlp) as [x' ->]. destruct (firstright_some st l rp Hst Hrp) as [y' ->]. cbn [mbind option_bind].
  case_match; [done|]. case_match; [done|]. destruct (is_rightmost st) eqn:Er; [done|].
  destruct Hst as (m & n & ->). destruct (hikey_some Er) as [hk Hhk]. cbn [set_interval set_splits state0 origpage]. by rewrite Hhk.
Qed.

Lemma choose_ok st l f u : like st l -> splits st = l -> l <> [] -> Forall valid l ->
  exists i it, legal i it /\ choose_split rel stale qsort st f u = Some (SplitAt (point_off i) (point_onleft i)).
Proof.
  intros Hst Hl Hne Hv. unfold choose_split. rewrite Hl.
  assert (H0 : exists sp0, l !! 0%nat = Some sp0 /\ valid sp0) by (destruct Hv as [|x]; [done|by exists x]).
  assert (H1 : exists sp1, last l = Some sp1 /\ valid sp1).
  { destruct (last l) as [sp1|] eqn:E; [|by apply last_None in E]. exists sp1. split; [done|]. rewrite Forall_forall in Hv. apply Hv. by apply last_Some_elem_of. }
  destruct H0 as (sp0 & -> & Hsp0). destruct H1 as (sp1 & -> & Hsp1). cbn [mbind option_bind].
  destruct (sort_valid st l f u Hst Hl Hne Hv) as (l' & Hst' & Hl' & Hne' & Hv'). set (st' := _abt_deltasortsplits qsort st f u) in *.
  assert (Hdef : exists n, _abt_defaultinterval st' = Some n /\ 1 <= n).
  { unfold _abt_defaultinterval. rewrite Hl'. destruct l' as [|d l']; [done|]. eexists. split; [reflexivity|]. apply interval_pos. }
  destruct Hdef as (n & -> & Hn). cbn [mbind option_bind].
  assert (Hst2 : forall k, like (set_interval st' k) l') by (intros k; destruct Hst' as (m & k' & ->); by exists m, k).
  destruct (strategy_ok (set_interval st' n) l' sp0 sp1 (Hst2 n) Hl' Hne' Hv' Hn Hsp0 Hsp1) as [[pp strategy] ->]. cbn [mbind option_bind].
  match goal with |- context [_abt_bestsplitloc rel stale ?st3 pp strategy] =>
    assert (Hbest : exists sp, _abt_bestsplitloc rel stale st3 pp strategy = Some sp /\ valid sp) end.
  { destruct strategy; [by apply (best_ok _ l')|apply (best_ok _ l'); [exact (Hst2 _)|done..]|].
    destruct (sort_valid (set_interval st' n) l' (percent ABTREE_SINGLEVAL_FILLFACTOR) true (Hst2 n) Hl' Hne' Hv') as (l3 & Hst3 & Hl3 & Hne3 & Hv3).
    apply (best_ok _ l3); try done. destruct Hst3 as (m & k' & ->). by exists m, 1. }
  destruct Hbest as (sp & -> & i & it & Hlegal & E1 & E2). cbn [mbind option_bind]. exists i, it. split; [done|]. by rewrite E1, E2.
Qed.

Lemma after_ok st l leaffillfactor : like st l -> leaf = true -> ABT_P_RIGHTMOST (sp_opaque p) = false ->
  is_Some (_abt_afternewitemoff rel stale st (sp_maxoff p) leaffillfactor).
Proof.
  intros (m & n & ->) Hl Hr. unfold _abt_afternewitemoff. cbn [set_interval set_splits state0 newitemoff newitem origpage].
  pose proof (sb_hikey Hsb Hr) as Hne. destruct (sb_off Hsb) as [Ho1 Ho2]. pose proof (sb_tids Hsb Hl) as Htid. rewrite Forall_forall in Htid.
  assert (Hf : first = 2) by (unfold ABT_P_FIRSTDATAKEY; by rewrite Hr).
  case_match; [done|]. case_match; [done|]. case_match; [done|]. case_match; [done|]. case_match; [done|]. case_match.
  - destruct (sp_item p (sp_maxoff p)) as [it|] eqn:Hit; [done|]. unfold sp_item, sp_maxoff in Hit.
    destruct (sp_items p) as [|x l'] eqn:E; [done|]. cbn [length] in Hit. rewrite (proj2 (Z.ltb_ge _ _)) in Hit by lia.
    apply lookup_ge_None in Hit. simpl in Hit. lia.
  - zbool. unfold ABTP_FIRSTKEY in *. set (i := (newpos - 1)%nat). pose proof newpos_le as [Hle Ho].
    destruct (lookup_lt_is_Some_2 data i) as [it Hit]; [lia|].
    pose proof (data_imaginary i it Hit) as Him. rewrite (proj2 (Nat.ltb_lt i newpos)) in Him by lia.
    pose proof (imaginary_old i it Him ltac:(lia)) as Hsp. destruct (point_before i ltac:(lia)) as (E1 & _). rewrite E1 in Hsp.
    replace (newoff - 1) with (first + Z.of_nat i) by lia. rewrite Hsp. cbn [fmap option_fmap option_map mbind option_bind].
    destruct (Htid it (list_elem_of_lookup_2 _ _ _ Him)) as [lo ->]. destruct (Htid _ (list_elem_of_lookup_2 _ _ _ imaginary_new)) as [hi Hhi]. cbn [snd] in Hhi.
    rewrite Hhi. case_match; [done|]. cbn [mbind option_bind]. case_match; done.
Qed.

(** The search ends at a legal split point. *)
Lemma findsplit_legal leaffillfactor : exists i it, legal i it /\
    _abt_findsplitloc rel ai stale qsort p newoff newsz item leaffillfactor = Some (SplitAt (point_off i) (point_onleft i)).
Proof.
  destruct all_splits_ok as [m Hm]. unfold _abt_findsplitloc. rewrite Hm. cbn [mbind option_bind].
  set (st := set_splits state0 m (points (length imaginary))).
  assert (Hst : like st (points (length imaginary))) by by exists m, 0. pose proof points_nonempty as Hne. pose proof (points_valid (length imaginary)) as Hv.
  assert (Hch : forall f u, exists i it, legal i it /\ choose_split rel stale qsort st f u = Some (SplitAt (point_off i) (point_onleft i)))
    by (intros f u; by apply (choose_ok st _ f u Hst eq_refl)).
  destruct (splits st) as [|sp0 sps] eqn:Esp; [done|]. destruct (negb (is_leaf st)) eqn:El; [apply Hch|].
  destruct (is_rightmost st) eqn:Er; [apply Hch|]. apply negb_false_iff in El.
  destruct (after_ok st _ leaffillfactor Hst El Er) as [after ->]. cbn [mbind option_bind]. destruct after as [[]|]; [apply Hch| |apply Hch].
  destruct (existsb _ _) eqn:Ee; [|apply Hch]. apply existsb_exists in Ee as (sp & Hin & Hsp). apply andb_true_iff in Hsp as [Ho Hn]. zbool.
  change (splits st) with (points (length imaginary)) in Esp. rewrite <- Esp in Hin. rewrite Forall_forall in Hv.
  apply list_elem_of_In, Hv in Hin as (i & it & Hl & E1 & E2). exists i, it. split; [done|]. congruence.
Qed.

(** C11: A page can always be split, and the split point chosen is legal.  For a page that
    has no room for the new item, with items of at most a third of a page, the search
    does not fail and does not overrun its array; both halves get an item; the items left
    of the point with a high key made of the first item behind it fit on the left page,
    and the items behind it with the page's old high key on the right one (on an internal
    page the first of them loses its key). *)
Theorem findsplitloc_fits leaffillfactor : exists i it, (0 < i)%nat /\ imaginary !! i = Some it /\
  _abt_findsplitloc rel ai stale qsort p newoff newsz item leaffillfactor = Some (SplitAt (point_off i) (point_onleft i)) /\
  sumZ (item_size ∘ fst <$> take i imaginary) + (item_size (fst it) + (if leaf then MAXALIGN sizeof_ItemPointerData else 0) - saving i it) <= page_room /\
  hikey_space + sumZ (item_size ∘ fst <$> drop i imaginary) - (if leaf then 0 else item_size (fst it) - minus_infinity_size) <= page_room.
Proof.
  destruct (findsplit_legal leaffillfactor) as (i & it & (Hi0 & Hi & Hl & Hr) & Hf). exists i, it. unfold left_room, right_room in *. split_and!; [done..|lia|]. destruct leaf; lia.
Qed.

(** Among the split points of the interval the one with the lowest penalty is taken,
    or the first with a penalty that is known to be as low as possible. *)
Theorem bestsplitloc_minimal st l perfectpenalty : like st l -> splits st = l -> l <> [] -> Forall valid l -> 1 <= interval st ->
  (forall sp pen, sp ∈ l -> penalty st sp = Some pen -> pen < INT_MAX) ->
  exists sp b, _abt_bestsplitloc rel stale st perfectpenalty ABT_SPLIT_DEFAULT = Some sp /\
    let candidates := take (Z.to_nat (Z.min (interval st) (nsplits st))) l in
    sp ∈ candidates /\ penalty st sp = Some b /\
    (b <= perfectpenalty \/ forall sp' pen, sp' ∈ candidates -> penalty st sp' = Some pen -> b <= pen).
Proof.
  intros Hst Hl Hne Hv Hint Hmax. unfold _abt_bestsplitloc, nsplits. rewrite Hl. set (h := Z.to_nat _). cbv zeta.
  assert (Hh : (0 < h)%nat) by (unfold h; destruct l; [done|simpl; lia]).
  destruct (best_loop_spec st l perfectpenalty (take h l) 0 INT_MAX 0 Hst (Forall_take _ _ _ Hv)) as (j & b & -> & _ & Hwhere & Hmin).
  cbn [mbind option_bind]. destruct Hwhere as [[-> ->]|(k & sp & Hk & -> & Hp)].
  - destruct Hv as [|sp0 l Hsp0 Hv]; [done|]. destruct (penalty_ok st _ sp0 Hst Hsp0) as [pen Hpen].
    specialize (Hmax sp0 pen ltac:(by left) Hpen). exists sp0, pen. split; [done|]. split; [destruct h; [lia|by left]|]. split; [done|].
    destruct Hmin as [|Hmin]; [left; lia|]. exfalso. specialize (Hmin sp0 pen ltac:(destruct h; [lia|by left]) Hpen). lia.
  - exists sp, b. cbn [Nat.add]. rewrite (lookup_take_Some _ _ _ _) in Hk. destruct Hk as [Hk Hkh]. rewrite Hk. cbn [mbind option_bind andb].
    split; [done|]. split; [|done]. apply elem_of_take. eauto.
Qed.

End Choose.

End Page.

(** ** A full leaf page *)

Definition delta_le (a b : ABTSplitPoint) : Prop := curdelta a <= curdelta b.
#[export] Instance delta_le_dec a b : Decision (delta_le a b).
Proof. unfold delta_le. apply _. Defined.
#[export] Instance delta_le_total : Total delta_le.
Proof. intros a b. unfold delta_le. lia. Qed.

#[export] Instance merge_SplitSort : SplitSort (merge_sort delta_le).
Proof. split; [apply merge_sort_Permutation|apply Sorted_merge_sort, _]. Qed.

Definition big (k : Z) (t : tid) : Z * index_tuple := (2600, LeafTup (mk_itup [Some k] 2600 None [t] [] [3])).
Definition full_page : spage := mk_spage [big 10 (mk_tid 0 1); big 20 (mk_tid 0 2); big 30 (mk_tid 0 3)] (mk_opaque 0 0 0 ABTP_LEAF 0) 0.

Example full_page_split :
  _abt_findsplitloc demo_rel trunc_ai (fun _ _ => None) (merge_sort delta_le) full_page 3 2600 (snd (big 25 (mk_tid 0 4))) 90 = Some (SplitAt 3 false).
Proof. vm_compute. reflexivity. Qed.

Lemma full_page_splittable : splittable trunc_ai full_page 3 2600 (snd (big 25 (mk_tid 0 4))).
Proof.
  split; try done.
  - repeat (apply Forall_cons; split; [by vm_compute|]). constructor.
  - intros len t off Hin. repeat (apply elem_of_cons in Hin as [[= -> ->]|Hin]; [done|]). by apply elem_of_nil in Hin.
  - intros _. vm_compute imaginary. repeat (apply Forall_cons; split; [by eexists|]). constructor.
Qed.

Lemma findsplitloc_fits_witness : exists i it, (0 < i)%nat /\ imaginary full_page 3 2600 (snd (big 25 (mk_tid 0 4))) !! i = Some it /\
  _abt_findsplitloc demo_rel trunc_ai (fun _ _ => None) (merge_sort delta_le) full_page 3 2600 (snd (big 25 (mk_tid 0 4))) 90 =
    Some (SplitAt (point_off full_page 3 i) (point_onleft full_page 3 i)).
Proof.
  destruct (findsplitloc_fits demo_rel trunc_ai full_page 3 2600 (snd (big 25 (mk_tid 0 4))) full_page_splittable (fun _ _ => None)
    (merge_sort delta_le) 90) as (i & it & H0 & Hi & Hf & _).
  exists i, it. by split_and!.
Defined.

Definition full_points : list ABTSplitPoint := points trunc_ai full_page 3 2600 (snd (big 25 (mk_tid 0 4))) 4.
Definition full_state : ABTFindSplitData :=
  set_interval (set_splits (state0 full_page 3 2600 (snd (big 25 (mk_tid 0 4)))) 2604 full_points) 2.

Lemma bestsplitloc_minimal_witness : exists sp b,
  _abt_bestsplitloc demo_rel (fun _ _ => None) full_state 1 ABT_SPLIT_DEFAULT = Some sp /\
  _abt_split_penalty demo_rel (fun _ _ => None) full_state sp = Some b.
Proof.
  destruct (bestsplitloc_minimal demo_rel trunc_ai full_page 3 2600 (snd (big 25 (mk_tid 0 4))) full_page_splittable (fun _ _ => None)
    full_state full_points 1) as (sp & b & H1 & _ & H2 & _).
  - by exists 2604, 2.
  - reflexivity.
  - vm_compute. discriminate.
  - apply points_valid, full_page_splittable.
  - vm_compute. discriminate.
  - intros sp pen Hin. vm_compute in Hin. repeat (apply elem_of_cons in Hin as [->|Hin]; [intros [= <-]; reflexivity|]). by apply elem_of_nil in Hin.
  - by exists sp, b.
Defined.

End SplitLoc.
