(* ===== verification/Btree.v ===== *)
(** * Buffers, roots and descent (abtpage.c, abtsearch.c)

    The read paths of the tree: getting a page through the buffer manager, finding the
    root, moving right, descending to a level by scan key or to its first or last page.

    A buffer is named by the block it holds.  The state keeps the buffers this backend
    has pinned and locked ([held]) and the cached root of the metapage; using a buffer
    that is not held is an error, so that every result carries the locks it leaves.  The
    pages do not change while an operation runs (other backends' changes are not
    interleaved); pages that were split and whose downlink is still missing are states
    like any other.  Finishing such a split is part of insertion and outside this file
    ([Unmodelled]); access is ABT_READ throughout.  Loops that follow links between
    pages recurse on fuel. *)

From stdpp Require Import base numbers option sorting list.
From S2P Require Import Prelude Dedup Page Search.

Module Btree.
Import Dedup Page Search.

(** ** A monad for code that holds buffers *)

Inductive error := ElogError | BadBuffer | BadItem | OutOfFuel | Unmodelled.

Record ABTMetaPageData := mk_meta {
  abtm_root : Z;
  abtm_level : Z;
  abtm_fastroot : Z;
  abtm_fastlevel : Z
}.

Record bstate := mk_bs {
  held : list Z;                            (** pinned and locked *)
  rd_amcache : option ABTMetaPageData
}.

Inductive result (A : Type) := Ok (a : A) (s : bstate) | Error (e : error).
Arguments Ok {A} a s.
Arguments Error {A} e.

Definition M (A : Type) : Type := bstate -> result A.
Definition ret {A} (a : A) : M A := fun s => Ok a s.
Definition bind {A B} (m : M A) (f : A -> M B) : M B :=
  fun s => match m s with Ok a s' => f a s' | Error e => Error e end.
Definition fail {A} (e : error) : M A := fun _ => Error e.
Definition lift {A} (o : option A) : M A := match o with Some a => ret a | None => fail BadItem end.

Declare Scope buf_scope.
Notation "'do' x <- m ; f" := (bind m (fun x => f)) (at level 60, x pattern, m at level 59, f at level 60, right associativity) : buf_scope.
Notation "'do_' m ; f" := (bind m (fun _ => f)) (at level 60, m at level 59, f at level 60, right associativity) : buf_scope.
Open Scope buf_scope.

(** ** Buffers *)

Abbreviation Buffer := (option Z).
Definition InvalidBuffer : Buffer := None.

Fixpoint drop_one (b : Z) (l : list Z) : option (list Z) :=
  match l with
  | [] => None
  | x :: l => if x =? b then Some l else (x ::.) <$> drop_one b l
  end.

Section Tree.
Context (rel : index_rel) (meta : ABTMetaPageData) (pages : Z -> option page).

(** ReadBuffer and LockBuffer. *)
Definition _abt_getbuf (blkno : Z) : M Buffer := fun s =>
  match pages blkno with
  | Some _ => Ok (Some blkno) (mk_bs (blkno :: held s) (rd_amcache s))
  | None => Error ElogError
  end.

(** UnlockReleaseBuffer. *)
Definition _abt_relbuf (buf : Buffer) : M unit := fun s =>
  match buf with
  | Some b => match drop_one b (held s) with Some h => Ok tt (mk_bs h (rd_amcache s)) | None => Error BadBuffer end
  | None => Error BadBuffer
  end.

Definition _abt_relandgetbuf (obuf : Buffer) (blkno : Z) : M Buffer :=
  match obuf with
  | Some _ => do_ _abt_relbuf obuf; _abt_getbuf blkno
  | None => _abt_getbuf blkno
  end.

Definition BufferGetPage (buf : Buffer) : M page := fun s =>
  match buf with
  | Some b =>
      if bool_decide (b ∈ held s) then match pages b with Some p => Ok p s | None => Error BadBuffer end
      else Error BadBuffer
  | None => Error BadBuffer
  end.

Definition BufferGetBlockNumber (buf : Buffer) : M Z := match buf with Some b => ret b | None => fail BadBuffer end.

Definition get_cached_metapage : M (option ABTMetaPageData) := fun s => Ok (rd_amcache s) s.
Definition _abt_clear_cached_metapage : M unit := fun s => Ok tt (mk_bs (held s) None).
Definition _abt_save_metapage (m : ABTMetaPageData) : M unit := fun s => Ok tt (mk_bs (held s) (Some m)).

Definition ABTREE_METAPAGE : Z := 0.

(** ** The root *)

(** Step right over dead pages from [rootblkno]. *)
Fixpoint live_root (fuel : nat) (rootbuf : Buffer) (rootblkno : Z) : M Buffer :=
  match fuel with
  | O => fail OutOfFuel
  | S fuel =>
      do rootbuf <- _abt_relandgetbuf rootbuf rootblkno;
      do p <- BufferGetPage rootbuf;
      if negb (ABT_P_IGNORE (pg_opaque p)) then ret rootbuf
      else if ABT_P_RIGHTMOST (pg_opaque p) then fail ElogError
      else live_root fuel rootbuf (abtpo_next (pg_opaque p))
  end.

(** Is there a live page from [blkno] on to the right? *)
Fixpoint live_right (fuel : nat) (blkno : Z) : M bool :=
  match fuel with
  | O => fail OutOfFuel
  | S fuel =>
      if blkno =? ABTP_NONE then ret false
      else
        do buf <- _abt_getbuf blkno;
        do p <- BufferGetPage buf;
        if negb (ABT_P_IGNORE (pg_opaque p)) then do_ _abt_relbuf buf; ret true
        else do_ _abt_relbuf buf; live_right fuel (abtpo_next (pg_opaque p))
  end.

(** From the label retry on; the metapage itself is [meta]. *)
Fixpoint getroot_retry (fuel : nat) (reject_non_fastroot : bool) : M Buffer :=
  match fuel with
  | O => fail OutOfFuel
  | S fuel =>
      do metabuf <- _abt_getbuf ABTREE_METAPAGE;
      if abtm_root meta =? ABTP_NONE then do_ _abt_relbuf metabuf; ret InvalidBuffer
      else
        do rootbuf <- live_root fuel metabuf (abtm_fastroot meta);
        do rootpage <- BufferGetPage rootbuf;
        let o := pg_opaque rootpage in
        let accept :=
          if negb (abtpo_level o =? abtm_fastlevel meta) then fail ElogError
          else do_ _abt_save_metapage meta; ret rootbuf in
        if reject_non_fastroot && negb (ABT_P_RIGHTMOST o) then
          if ABT_P_INCOMPLETE_SPLIT o then fail Unmodelled
          else
            do live <- live_right fuel (abtpo_next o);
            if live : bool then do_ _abt_relbuf rootbuf; getroot_retry fuel reject_non_fastroot
            else accept
        else accept
  end.

Definition _abt_getroot (fuel : nat) (reject_non_fastroot : bool) : M Buffer :=
  do cached <- get_cached_metapage;
  match cached with
  | Some metad =>
      do rootbuf <- _abt_getbuf (abtm_fastroot metad);
      do rootpage <- BufferGetPage rootbuf;
      let o := pg_opaque rootpage in
      if negb (ABT_P_IGNORE o) && (abtpo_level o =? abtm_fastlevel metad) && ABT_P_LEFTMOST o && ABT_P_RIGHTMOST o
      then ret rootbuf
      else
        do_ _abt_relbuf rootbuf;
        do_ _abt_clear_cached_metapage;
        getroot_retry fuel reject_non_fastroot
  | None => getroot_retry fuel reject_non_fastroot
  end.

Definition _abt_gettrueroot (fuel : nat) : M Buffer :=
  do_ _abt_clear_cached_metapage;
  do metabuf <- _abt_getbuf ABTREE_METAPAGE;
  if abtm_root meta =? ABTP_NONE then do_ _abt_relbuf metabuf; ret InvalidBuffer
  else
    do rootbuf <- live_root fuel metabuf (abtm_root meta);
    do rootpage <- BufferGetPage rootbuf;
    if negb (abtpo_level (pg_opaque rootpage) =? abtm_level meta) then fail ElogError else ret rootbuf.

(** ** Moving right *)

(** _abt_moveright with forupdate = false. *)
Fixpoint _abt_moveright (fuel : nat) (key : ABTScanInsertData) (buf : Buffer) : M Buffer :=
  match fuel with
  | O => fail OutOfFuel
  | S fuel =>
      do p <- BufferGetPage buf;
      let o := pg_opaque p in
      let stop := if ABT_P_IGNORE o then fail ElogError else ret buf in
      if ABT_P_RIGHTMOST o then stop
      else
        do goes <- (if ABT_P_IGNORE o then ret true
                     else do r <- lift (_abt_compare (rd_natts rel) key p ABTP_HIKEY); ret (cmpval key <=? r));
        if goes : bool then
          do buf <- _abt_relandgetbuf buf (abtpo_next o);
          _abt_moveright fuel key buf
        else stop
  end.

Fixpoint _abt_moveright_to_next_live_page (fuel : nat) (buf : Buffer) : M Buffer :=
  match fuel with
  | O => fail OutOfFuel
  | S fuel =>
      do p <- BufferGetPage buf;
      if ABT_P_IGNORE (pg_opaque p) then
        do buf <- _abt_relandgetbuf buf (abtpo_next (pg_opaque p));
        do p <- BufferGetPage buf;
        if ABT_P_RIGHTMOST (pg_opaque p) then do_ _abt_relbuf buf; ret InvalidBuffer
        else _abt_moveright_to_next_live_page fuel buf
      else ret buf
  end.

(** ** Descent *)

Record ABTStackData := mk_stack { abts_blkno : Z; abts_offset : Z; abts_last_update_id : Z }.

(** The loop of _abt_search_extended; the stack has the lowest parent first. *)
Fixpoint search_loop (fuel : nat) (key : ABTScanInsertData) (level : Z) (buf : Buffer) (stack : list ABTStackData)
  : M (Buffer * list ABTStackData) :=
  match fuel with
  | O => fail OutOfFuel
  | S fuel =>
      do buf <- _abt_moveright fuel key buf;
      do p <- BufferGetPage buf;
      let o := pg_opaque p in
      if abtpo_level o =? level then ret (buf, stack)
      else if abtpo_level o <? level then fail ElogError
      else
        do offnum <- lift (_abt_binsrch rel key p);
        do itup <- lift (PageGetItem p offnum);
        do blkno <- lift (ABTreeTupleGetDownLink itup);
        do par_blkno <- BufferGetBlockNumber buf;
        do buf <- _abt_relandgetbuf buf blkno;
        search_loop fuel key level buf (mk_stack par_blkno offnum (abtpo_last_update_id o) :: stack)
  end.

Definition _abt_search_extended (fuel : nat) (key : ABTScanInsertData) (level : Z) : M (Buffer * list ABTStackData) :=
  do buf <- _abt_getroot fuel false;
  match buf with
  | None => ret (InvalidBuffer, [])
  | Some _ => search_loop fuel key level buf []
  end.

(** Step right to a live page, or to the rightmost one. *)
Fixpoint endpoint_right (fuel : nat) (rightmost : bool) (buf : Buffer) : M Buffer :=
  match fuel with
  | O => fail OutOfFuel
  | S fuel =>
      do p <- BufferGetPage buf;
      let o := pg_opaque p in
      if ABT_P_IGNORE o || (rightmost && negb (ABT_P_RIGHTMOST o)) then
        if abtpo_next o =? ABTP_NONE then fail ElogError
        else do buf <- _abt_relandgetbuf buf (abtpo_next o); endpoint_right fuel rightmost buf
      else ret buf
  end.

(** The common loop of _abt_get_endpoint and _abt_get_endpoint_stack.  The latter
    records the page with the offset [offnum] the variable has at that point. *)
Fixpoint endpoint_loop (fuel : nat) (level : Z) (rightmost : bool) (buf : Buffer) (offnum : Z) (stack : list ABTStackData)
  : M (Buffer * list ABTStackData) :=
  match fuel with
  | O => fail OutOfFuel
  | S fuel =>
      do buf <- endpoint_right fuel rightmost buf;
      do p <- BufferGetPage buf;
      let o := pg_opaque p in
      if abtpo_level o =? level then ret (buf, stack)
      else if abtpo_level o <? level then fail ElogError
      else
        do blk <- BufferGetBlockNumber buf;
        let stack := mk_stack blk offnum (abtpo_last_update_id o) :: stack in
        let offnum := if rightmost then PageGetMaxOffsetNumber p else ABT_P_FIRSTDATAKEY o in
        do itup <- lift (PageGetItem p offnum);
        do blkno <- lift (ABTreeTupleGetDownLink itup);
        do buf <- _abt_relandgetbuf buf blkno;
        endpoint_loop fuel level rightmost buf offnum stack
  end.

Definition _abt_get_endpoint (fuel : nat) (level : Z) (rightmost : bool) : M Buffer :=
  do buf <- (if level =? 0 then _abt_getroot fuel false else _abt_gettrueroot fuel);
  match buf with
  | None => ret InvalidBuffer
  | Some _ => do (buf, _) <- endpoint_loop fuel level rightmost buf InvalidOffsetNumber []; ret buf
  end.

Definition _abt_get_endpoint_stack (fuel : nat) (level : Z) (rightmost : bool) : M (Buffer * list ABTStackData) :=
  do buf <- _abt_getroot fuel false;
  match buf with
  | None => ret (InvalidBuffer, [])
  | Some _ => endpoint_loop fuel level rightmost buf InvalidOffsetNumber []
  end.

End Tree.

(** ** Running the monad *)

Create HintDb buf.

Lemma bind_ok {A B} (m : M A) (f : A -> M B) s a s' : m s = Ok a s' -> bind m f s = f a s'.
Proof. unfold bind. by intros ->. Qed.

Section Run.
Context (pages : Z -> option page).

Lemma getbuf_run blk p h c : pages blk = Some p ->
  _abt_getbuf pages blk (mk_bs h c) = Ok (Some blk) (mk_bs (blk :: h) c).
Proof. unfold _abt_getbuf. by intros ->. Qed.

Lemma relbuf_run b h c : _abt_relbuf (Some b) (mk_bs (b :: h) c) = Ok tt (mk_bs h c).
Proof. unfold _abt_relbuf. simpl. by rewrite Z.eqb_refl. Qed.

Lemma relandgetbuf_run b blk p h c : pages blk = Some p ->
  _abt_relandgetbuf pages (Some b) blk (mk_bs (b :: h) c) = Ok (Some blk) (mk_bs (blk :: h) c).
Proof.
  intros Hp. unfold _abt_relandgetbuf. rewrite (bind_ok _ _ _ tt (mk_bs h c)) by apply relbuf_run.
  by eapply getbuf_run.
Qed.

Lemma getpage_run b p h c : pages b = Some p -> BufferGetPage pages (Some b) (mk_bs (b :: h) c) = Ok p (mk_bs (b :: h) c).
Proof. intros Hp. unfold BufferGetPage. rewrite bool_decide_true by (simpl; by constructor). by rewrite Hp. Qed.

Lemma lift_some {A} (o : option A) a s : o = Some a -> lift o s = Ok a s.
Proof. by intros ->. Qed.

Lemma cached_run h c : get_cached_metapage (mk_bs h c) = Ok c (mk_bs h c).
Proof. done. Qed.

Lemma clear_run h c : _abt_clear_cached_metapage (mk_bs h c) = Ok tt (mk_bs h None).
Proof. done. Qed.

Lemma save_run m h c : _abt_save_metapage m (mk_bs h c) = Ok tt (mk_bs h (Some m)).
Proof. done. Qed.

Lemma blockno_run b s : BufferGetBlockNumber (Some b) s = Ok b s.
Proof. done. Qed.

End Run.

#[export] Hint Resolve getbuf_run relbuf_run relandgetbuf_run getpage_run lift_some blockno_run cached_run clear_run save_run : buf.

(** Run the next call of the goal's left-hand side. *)
Ltac run_step := erewrite bind_ok by (eauto with buf).

(** ** Trees *)

Section Tree.
Context (rel : index_rel) (Hrel : rel_ok rel) (meta : ABTMetaPageData) (pages : Z -> option page).

(** The high key of a page. *)
Definition hikey (p : page) : option index_tuple :=
  if ABT_P_RIGHTMOST (pg_opaque p) then None else PageGetItem p ABTP_HIKEY.

(** The pages [blks] of one level, from left to right: live, in order inside, linked,
    with increasing high keys on all but the last. *)
Record level_ok (lvl : Z) (blks : list Z) : Prop := {
  lo_page : forall i b, blks !! i = Some b -> exists p, pages b = Some p /\ page_ok rel p /\
    abtpo_level (pg_opaque p) = lvl /\ ABT_P_IGNORE (pg_opaque p) = false /\ is_leaf p = (lvl =? 0) /\
    abtpo_next (pg_opaque p) = default ABTP_NONE (blks !! S i);
  lo_hikey : forall i b b' p, blks !! i = Some b -> blks !! S i = Some b' -> pages b = Some p ->
    b' <> ABTP_NONE /\ exists t, hikey p = Some t /\ tuple_ok rel t;
  lo_sorted : forall i j b b' p p' t t', (i < j)%nat -> blks !! i = Some b -> blks !! j = Some b' ->
    pages b = Some p -> pages b' = Some p' -> hikey p = Some t -> hikey p' = Some t' -> tuple_before rel t t'
}.

(** Two pivot tuples with the same key and heap TID. *)
Definition same_fence (t t' : index_tuple) : Prop :=
  match t, t' with PivotTup p, PivotTup p' => pv_key p = pv_key p' /\ pv_tid p = pv_tid p' | _, _ => False end.

(** The key that separates the child at data offset [off] of page [i] from everything
    to its left: its own pivot key, and for the first child the high key of the page's
    left sibling.  [None]: nothing is to its left. *)
Definition left_fence (blks : list Z) (i : nat) (p : page) (off : Z) : option index_tuple :=
  if off =? first_off p then
    match i with O => None | S i => b ← blks !! i; p ← pages b; hikey p end
  else PageGetItem p off.

(** Downlinks of the pages [blks] point to pages of the level below, [kids], whose left
    sibling ends where the child's range begins. *)
Definition links_ok (blks kids : list Z) : Prop :=
  forall i b p off, blks !! i = Some b -> pages b = Some p -> first_off p <= off <= PageGetMaxOffsetNumber p ->
  exists pv m, PageGetItem p off = Some (PivotTup pv) /\ kids !! m = Some (pv_downlink pv) /\
    match m with
    | O => True
    | S m => exists b' p' t t', kids !! m = Some b' /\ pages b' = Some p' /\ hikey p' = Some t /\
        left_fence blks i p off = Some t' /\ same_fence t t'
    end.

(** The levels of a tree, leaves first. *)
Record tree_ok (levels : list (list Z)) : Prop := {
  to_level : forall l blks, levels !! l = Some blks -> blks <> [] /\ level_ok (Z.of_nat l) blks;
  to_links : forall l blks kids, levels !! S l = Some blks -> levels !! l = Some kids -> links_ok blks kids
}.

(** Does a search for [key] go right of the page? *)
Definition key_right_of (key : ABTScanInsertData) (p : page) : Prop :=
  exists t r, hikey p = Some t /\ compare_tuple (rd_natts rel) key t = Some r /\ cmpval key <= r.

(** [key] belongs on page [i]: it goes right of all pages before, but not of this one. *)
Definition belongs (key : ABTScanInsertData) (blks : list Z) (i : nat) : Prop :=
  (forall j b p, (j < i)%nat -> blks !! j = Some b -> pages b = Some p -> key_right_of key p) /\
  (forall b p, blks !! i = Some b -> pages b = Some p -> ~ key_right_of key p).

Lemma next_rightmost lvl blks i b p : level_ok lvl blks -> blks !! i = Some b -> pages b = Some p ->
  match blks !! S i with
  | Some b' => ABT_P_RIGHTMOST (pg_opaque p) = false /\ abtpo_next (pg_opaque p) = b'
  | None => ABT_P_RIGHTMOST (pg_opaque p) = true
  end.
Proof.
  intros Hl Hb Hp. destruct (lo_page _ _ Hl i b Hb) as (p' & Hp' & _ & _ & _ & _ & Hn).
  rewrite Hp in Hp'. injection Hp' as <-. unfold ABT_P_RIGHTMOST. destruct (blks !! S i) as [b'|] eqn:E; simpl in Hn.
  - destruct (lo_hikey _ _ Hl i b b' p Hb E Hp) as [Hne _]. split; [|done]. rewrite Hn. by apply Z.eqb_neq.
  - rewrite Hn. done.
Qed.

Lemma compare_hikey key p : ABT_P_RIGHTMOST (pg_opaque p) = false ->
  _abt_compare (rd_natts rel) key p ABTP_HIKEY = (t ← hikey p; compare_tuple (rd_natts rel) key t).
Proof.
  intros Hr. unfold _abt_compare, hikey, ABT_P_FIRSTDATAKEY. rewrite Hr.
  by rewrite andb_false_r.
Qed.

Section Key.
Context (key : ABTScanInsertData) (args : list (option Z)) (Hkey : key_ok rel key args).

Lemma moveright_run lvl blks n i b fuel h c :
  level_ok lvl blks -> blks !! i = Some b -> (n = length blks - i)%nat -> (n < fuel)%nat ->
  (forall j b p, (j < i)%nat -> blks !! j = Some b -> pages b = Some p -> key_right_of key p) ->
  exists i' b', _abt_moveright rel pages fuel key (Some b) (mk_bs (b :: h) c) = Ok (Some b') (mk_bs (b' :: h) c) /\
    blks !! i' = Some b' /\ belongs key blks i'.
Proof.
  intros Hl. revert i b fuel. induction n as [|n IH]; intros i b fuel Hb Hn Hf Hleft.
  { apply lookup_lt_Some in Hb. lia. }
  destruct fuel as [|fuel]; [lia|]. cbn [_abt_moveright].
  destruct (lo_page _ _ Hl i b Hb) as (p & Hp & _ & _ & Hig & _). run_step. rewrite Hig. cbv zeta.
  pose proof (next_rightmost lvl blks i b p Hl Hb Hp) as Hnext.
  assert (Hstop : ~ key_right_of key p -> exists i' b', Ok (Some b) (mk_bs (b :: h) c) = Ok (Some b') (mk_bs (b' :: h) c) /\
    blks !! i' = Some b' /\ belongs key blks i').
  { intros Hnot. exists i, b. split; [done|]. split; [done|]. split; [done|].
    intros b1 p1 Hb1 Hp1. replace p1 with p by congruence. done. }
  destruct (blks !! S i) as [b'|] eqn:Eb'.
  - destruct Hnext as [Hr Hnx]. rewrite Hr. destruct (lo_hikey _ _ Hl i b b' p Hb Eb' Hp) as [_ (t & Ht & Hok)].
    pose proof (compare_tuple_eq rel key args t Hrel Hkey Hok) as Hc. cbv zeta in Hc.
    match type of Hc with _ = Some ?x => set (r := x) in * end.
    erewrite bind_ok; [|rewrite compare_hikey, Ht by done; cbn [mbind option_bind]; by rewrite Hc].
    destruct (Z.leb_spec (cmpval key) r).
    + destruct (lo_page _ _ Hl (S i) b' Eb') as (p' & Hp' & _). rewrite Hnx.
      erewrite bind_ok by (by eapply relandgetbuf_run). apply (IH (S i)); [done|lia|lia|].
      intros j bj pj Hj Hbj Hpj. destruct (decide (j = i)) as [->|]; [|apply (Hleft j bj pj); [lia|done|done]].
      replace pj with p by congruence. by exists t, r.
    + apply Hstop. intros (t' & r' & Ht' & Hr' & Hle). rewrite Ht in Ht'. injection Ht' as <-.
      rewrite Hc in Hr'. injection Hr' as <-. lia.
  - rewrite Hnext. apply Hstop. intros (t' & _ & Ht' & _). unfold hikey in Ht'. by rewrite Hnext in Ht'.
Qed.

Lemma compare_attrs_key sks n t t' : tuple_key t = tuple_key t' -> compare_attrs sks n t = compare_attrs sks n t'.
Proof.
  intros Ht. revert sks. induction n as [|n IH]; intros [|sk sks]; try done. simpl. unfold index_getattr. rewrite Ht.
  destruct (_ !! _); [|done]. cbn [mbind option_bind]. case_match; [apply IH|done].
Qed.

Lemma compare_same_fence t t' : same_fence t t' -> compare_tuple (rd_natts rel) key t = compare_tuple (rd_natts rel) key t'.
Proof.
  destruct t as [|pv], t' as [|pv']; try done. intros [Hk Ht].
  unfold compare_tuple. rewrite (compare_attrs_key _ _ (PivotTup pv) (PivotTup pv')) by done.
  simpl. rewrite Hk. destruct (compare_attrs _ _ _) as [r|]; [|done]. cbn [mbind option_bind].
  case_match; [|done]. unfold compare_tid. simpl. by rewrite Ht.
Qed.

(** Everything left of the child the search follows is left of the key. *)
Lemma child_left lvl blks kids i b p off pv m :
  level_ok lvl blks -> level_ok (lvl - 1) kids -> blks !! i = Some b -> pages b = Some p -> belongs key blks i ->
  first_off p <= off <= PageGetMaxOffsetNumber p -> goes_right rel key p off = Some true ->
  PageGetItem p off = Some (PivotTup pv) ->
  match m with
  | O => True
  | S m => exists b' p' t t', kids !! m = Some b' /\ pages b' = Some p' /\ hikey p' = Some t /\
      left_fence blks i p off = Some t' /\ same_fence t t'
  end ->
  forall j bj pj, (j < m)%nat -> kids !! j = Some bj -> pages bj = Some pj -> key_right_of key pj.
Proof.
  intros Hl Hk Hb Hp [Hleft _] Hoff Hgo Hitem Hm j bj pj Hj Hbj Hpj. destruct m as [|m]; [lia|].
  destruct Hm as (b' & p' & t & t' & Hb' & Hp' & Ht & Hf & Hsame).
  assert (Hright : exists r, compare_tuple (rd_natts rel) key t = Some r /\ cmpval key <= r).
  { rewrite (compare_same_fence _ _ Hsame). unfold left_fence in Hf. destruct (Z.eqb_spec off (first_off p)) as [->|Hne].
    - destruct i as [|i]; [done|]. destruct (blks !! i) as [bi|] eqn:Ebi; [|done]. cbn [mbind option_bind] in Hf.
      destruct (pages bi) as [pi|] eqn:Epi; [|done]. cbn [mbind option_bind] in Hf.
      destruct (Hleft i bi pi) as (ti & r & Hti & Hr & Hle); [lia|done|done|]. rewrite Hf in Hti. injection Hti as <-. eauto.
    - unfold goes_right, _abt_compare in Hgo. fold (first_off p) in Hgo.
      rewrite (proj2 (Z.eqb_neq _ _) Hne), andb_false_r, Hf in Hgo. cbn [mbind option_bind] in Hgo.
      destruct (compare_tuple _ key t') as [r|]; [|done]. exists r. split; [done|]. simpl in Hgo. injection Hgo as Hgo. by apply Z.leb_le. }
  destruct Hright as (r & Hr & Hle). destruct (decide (j = m)) as [->|Hne].
  { exists t, r. replace pj with p' by congruence. done. }
  assert (exists bn, kids !! S j = Some bn) as [bn Hbn].
  { apply lookup_lt_is_Some_2. apply lookup_lt_Some in Hb'. lia. }
  destruct (lo_hikey _ _ Hk j bj bn pj Hbj Hbn Hpj) as [_ (tj & Htj & Hokj)].
  assert (Hokt : tuple_ok rel t).
  { destruct (kids !! S m) as [bm|] eqn:Em.
    { destruct (lo_hikey _ _ Hk m b' bm p' Hb' Em Hp') as [_ (t2 & Ht2 & Hok2)]. by rewrite Ht in Ht2; injection Ht2 as <-. }
    exfalso. pose proof (next_rightmost _ _ m b' p' Hk Hb' Hp') as Hnx. rewrite Em in Hnx.
    unfold hikey in Ht. by rewrite Hnx in Ht. }
  pose proof (lo_sorted _ _ Hk j m bj b' pj p' tj t ltac:(lia) Hbj Hb' Hpj Hp' Htj Ht) as Hbef.
  destruct (compare_mono rel key args tj t Hrel Hkey Hokj Hokt Hbef) as (rj & r2 & Hrj & Hr2 & H0 & H1).
  exists tj, rj. split; [done|]. split; [done|]. rewrite Hr in Hr2. injection Hr2 as <-.
  unfold cmpval in *. destruct (nextkey key); lia.
Qed.

Lemma search_loop_run levels W target l blks i b fuel stack h c :
  tree_ok levels -> (forall k bs, levels !! k = Some bs -> (length bs <= W)%nat) ->
  (target <= l)%nat -> levels !! l = Some blks -> blks !! i = Some b -> (l - target + W + 1 < fuel)%nat ->
  (forall j bj pj, (j < i)%nat -> blks !! j = Some bj -> pages bj = Some pj -> key_right_of key pj) ->
  exists stack' bs i' b', search_loop rel pages fuel key (Z.of_nat target) (Some b) stack (mk_bs (b :: h) c) =
      Ok (Some b', stack') (mk_bs (b' :: h) c) /\
    levels !! target = Some bs /\ bs !! i' = Some b' /\ belongs key bs i' /\
    length stack' = (length stack + (l - target))%nat.
Proof.
  intros Htree HW. remember (l - target)%nat as d eqn:Ed. revert l blks i b fuel stack Ed.
  induction d as [|d IH]; intros l blks i b fuel stack Ed Hle Hlv Hb Hf Hleft.
  all: destruct fuel as [|fuel]; [lia|]; cbn [search_loop]; destruct (to_level _ Htree l blks Hlv) as [_ Hok].
  all: destruct (moveright_run (Z.of_nat l) blks (length blks - i) i b fuel h c) as (i' & b' & Hrun & Hb' & Hbel);
    [done|done|done|specialize (HW l blks Hlv); lia|done|].
  all: rewrite (bind_ok _ _ _ _ _ Hrun); destruct (lo_page _ _ Hok i' b' Hb') as (p & Hp & Hpok & Hlvl & Hig & Hleaf & _);
    run_step; cbv zeta; rewrite Hlvl.
  - assert (target = l) as -> by lia. rewrite Z.eqb_refl. exists stack, blks, i', b'. split; [done|].
    split_and!; (done || lia).
  - rewrite (proj2 (Z.eqb_neq _ _)), (proj2 (Z.ltb_ge _ _)) by lia.
    assert (Hnl : is_leaf p = false) by (rewrite Hleaf; apply Z.eqb_neq; lia).
    destruct (binsrch_internal rel Hrel p key args Hpok Hkey Hnl) as (off & Hbs & Hoff & Hgo).
    destruct (lookup_lt_is_Some_2 levels (l - 1)) as [kids Hkids]; [apply lookup_lt_Some in Hlv; lia|].
    destruct l as [|l]; [lia|]. replace (S l - 1)%nat with l in Hkids by lia.
    destruct (to_level _ Htree l kids Hkids) as [_ Hkok].
    destruct (to_links _ Htree l blks kids Hlv Hkids i' b' p off Hb' Hp Hoff) as (pv & m & Hitem & Hdown & Hm).
    destruct (lo_page _ _ Hkok m (pv_downlink pv) Hdown) as (pc & Hpc & _).
    do 4 run_step. erewrite bind_ok by (by eapply relandgetbuf_run).
    destruct (IH l kids m (pv_downlink pv) fuel (mk_stack b' off (abtpo_last_update_id (pg_opaque p)) :: stack))
      as (stack' & bs & i2 & b2 & Hr2 & Hbs2 & Hb2 & Hbel2 & Hlen); [lia|lia|done|done|lia| |].
    + intros j bj pj Hj Hbj Hpj.
      eapply (child_left (Z.of_nat (S l)) blks kids i' b' p off pv m); try done.
      by replace (Z.of_nat (S l) - 1) with (Z.of_nat l) by lia.
    + exists stack', bs, i2, b2. split; [done|]. simpl in Hlen. split_and!; (done || lia).
Qed.

End Key.

(** The metapage names the first page of some level as the fast root; a cached copy is
    the metapage's. *)
Record root_ok (levels : list (list Z)) (top : nat) (root : Z) (c : option ABTMetaPageData) : Prop := {
  ro_level : exists blks, levels !! top = Some (root :: blks);
  ro_meta : abtm_root meta <> ABTP_NONE /\ abtm_fastroot meta = root /\ abtm_fastlevel meta = Z.of_nat top;
  ro_page : exists p, pages ABTREE_METAPAGE = Some p;
  ro_cache : c = None \/ c = Some meta
}.

(** The metapage leads to a live page of its level, alone on it if that is required. *)
Lemma getroot_page_run root p mp fuel h c reject :
  abtm_root meta <> ABTP_NONE -> abtm_fastroot meta = root -> pages ABTREE_METAPAGE = Some mp -> c = None \/ c = Some meta ->
  pages root = Some p -> abtpo_level (pg_opaque p) = abtm_fastlevel meta -> ABT_P_IGNORE (pg_opaque p) = false ->
  reject && negb (ABT_P_RIGHTMOST (pg_opaque p)) = false -> (1 < fuel)%nat ->
  exists c', _abt_getroot meta pages fuel reject (mk_bs h c) = Ok (Some root) (mk_bs (root :: h) c') /\ (c' = None \/ c' = Some meta).
Proof.
  intros Hroot Hfast Hmp Hc Hp Hlvl Hig Hrm Hf.
  assert (Hretry : forall c, getroot_retry meta pages fuel reject (mk_bs h c) = Ok (Some root) (mk_bs (root :: h) (Some meta))).
  { intros c0. destruct fuel as [|[|fuel]]; [lia|lia|]. cbn [getroot_retry live_root].
    run_step. rewrite (proj2 (Z.eqb_neq _ _) Hroot), Hfast.
    erewrite bind_ok; [|erewrite bind_ok by (by eapply relandgetbuf_run); run_step; by rewrite Hig].
    run_step. cbv zeta. rewrite Hrm, Hlvl, Z.eqb_refl. done. }
  unfold _abt_getroot. destruct Hc as [->| ->].
  - run_step. exists (Some meta). auto.
  - run_step. cbn [rd_amcache]. rewrite Hfast. run_step. run_step. cbv zeta. match goal with |- context [if ?b then ret _ else _] => destruct b end.
    + exists (Some meta). auto.
    + run_step. run_step. exists (Some meta). auto.
Qed.

Lemma getroot_run levels top root fuel h c reject :
  tree_ok levels -> root_ok levels top root c -> (1 < fuel)%nat ->
  (reject = false \/ levels !! top = Some [root]) ->
  exists c', _abt_getroot meta pages fuel reject (mk_bs h c) = Ok (Some root) (mk_bs (root :: h) c') /\ (c' = None \/ c' = Some meta).
Proof.
  intros Htree [(blks & Hlv) (Hroot & Hfast & Hflv) (mp & Hmp) Hc] Hf Hrej.
  destruct (to_level _ Htree top _ Hlv) as [_ Hl]. destruct (lo_page _ _ Hl 0 root eq_refl) as (p & Hp & _ & Hlvl & Hig & _).
  pose proof (next_rightmost _ _ 0 root p Hl eq_refl Hp) as Hnx.
  apply (getroot_page_run root p mp); try done; [congruence|].
  destruct Hrej as [->|Hone]; [done|]. assert (blks = []) as -> by congruence. simpl in Hnx. by rewrite Hnx, andb_false_r.
Qed.

Lemma endpoint_right_run lvl blks n i b fuel rightmost h c :
  level_ok lvl blks -> blks !! i = Some b -> (n = length blks - i)%nat -> (n < fuel)%nat ->
  exists b', endpoint_right pages fuel rightmost (Some b) (mk_bs (b :: h) c) = Ok (Some b') (mk_bs (b' :: h) c) /\
    if rightmost : bool then last blks = Some b' else b' = b.
Proof.
  intros Hl. revert i b fuel. induction n as [|n IH]; intros i b fuel Hb Hn Hf.
  { apply lookup_lt_Some in Hb. lia. }
  destruct fuel as [|fuel]; [lia|]. cbn [endpoint_right].
  destruct (lo_page _ _ Hl i b Hb) as (p & Hp & _ & _ & Hig & _). run_step. cbv zeta. rewrite Hig.
  pose proof (next_rightmost lvl blks i b p Hl Hb Hp) as Hnx. destruct rightmost; cbn [orb andb].
  - destruct (blks !! S i) as [b'|] eqn:Eb'.
    + destruct Hnx as [Hr Hnext]. rewrite Hr. cbn [negb].
      destruct (lo_page _ _ Hl (S i) b' Eb') as (p' & Hp' & _). unfold ABT_P_RIGHTMOST in Hr. rewrite Hr, Hnext.
      erewrite bind_ok by (by eapply relandgetbuf_run). apply (IH (S i)); [done|lia|lia].
    + rewrite Hnx. exists b. split; [done|]. rewrite last_lookup. apply lookup_ge_None in Eb'. apply lookup_lt_Some in Hb as Hlt.
      by replace (pred (length blks)) with i by lia.
  - exists b. done.
Qed.

(** Downlinks of a level that lead to the first and the last page of the level below. *)
Definition ends_ok (blks kids : list Z) : Prop :=
  (forall b p, head blks = Some b -> pages b = Some p ->
     exists pv, PageGetItem p (first_off p) = Some (PivotTup pv) /\ head kids = Some (pv_downlink pv)) /\
  (forall b p, last blks = Some b -> pages b = Some p ->
     exists pv, PageGetItem p (PageGetMaxOffsetNumber p) = Some (PivotTup pv) /\ pv_downlink pv ∈ kids).

Definition end_of (rightmost : bool) (blks : list Z) : option Z := if rightmost then last blks else head blks.

Lemma endpoint_loop_run levels W target l blks b fuel rightmost off stack h c :
  tree_ok levels -> (forall k bs, levels !! k = Some bs -> (length bs <= W)%nat) ->
  (forall k bs kids, levels !! S k = Some bs -> levels !! k = Some kids -> ends_ok bs kids) ->
  (target <= l)%nat -> levels !! l = Some blks ->
  (if rightmost : bool then b ∈ blks else head blks = Some b) -> (l - target + W + 1 < fuel)%nat ->
  exists stack' bs b', endpoint_loop pages fuel (Z.of_nat target) rightmost (Some b) off stack (mk_bs (b :: h) c) =
      Ok (Some b', stack') (mk_bs (b' :: h) c) /\ levels !! target = Some bs /\ end_of rightmost bs = Some b'.
Proof.
  intros Htree HW Hends. remember (l - target)%nat as d eqn:Ed. revert l blks b fuel off stack Ed.
  induction d as [|d IH]; intros l blks b fuel off stack Ed Hle Hlv Hb Hf.
  all: destruct fuel as [|fuel]; [lia|]; cbn [endpoint_loop]; destruct (to_level _ Htree l blks Hlv) as [_ Hok].
  all: assert (exists i, blks !! i = Some b) as [i Hi] by
    (destruct rightmost; [by apply list_elem_of_lookup_1 in Hb|exists 0%nat; by rewrite <- head_lookup]).
  all: destruct (endpoint_right_run (Z.of_nat l) blks (length blks - i) i b fuel rightmost h c) as (b' & Hrun & Hb');
    [done|done|done|specialize (HW l blks Hlv); lia|].
  all: assert (Hend : end_of rightmost blks = Some b') by (unfold end_of; destruct rightmost; [done|by subst]).
  all: assert (exists i', blks !! i' = Some b') as [i' Hi'] by
    (unfold end_of in Hend; destruct rightmost; [rewrite last_lookup in Hend|rewrite head_lookup in Hend]; eauto).
  all: rewrite (bind_ok _ _ _ _ _ Hrun); destruct (lo_page _ _ Hok i' b' Hi') as (p & Hp & _ & Hlvl & _);
    run_step; cbv zeta; rewrite Hlvl.
  - assert (target = l) as -> by lia. rewrite Z.eqb_refl. exists stack, blks, b'. done.
  - rewrite (proj2 (Z.eqb_neq _ _)), (proj2 (Z.ltb_ge _ _)) by lia. destruct l as [|l]; [lia|].
    destruct (lookup_lt_is_Some_2 levels l) as [kids Hkids]; [apply lookup_lt_Some in Hlv; lia|].
    destruct (to_level _ Htree l kids Hkids) as [_ Hkok]. destruct (Hends l blks kids Hlv Hkids) as [Hfst Hlst].
    assert (exists pv, PageGetItem p (if rightmost then PageGetMaxOffsetNumber p else first_off p) = Some (PivotTup pv) /\
      (if rightmost then pv_downlink pv ∈ kids else head kids = Some (pv_downlink pv))) as (pv & Hitem & Hkid).
    { unfold end_of in Hend. destruct rightmost; [by apply (Hlst b')|by apply (Hfst b')]. }
    assert (exists pc, pages (pv_downlink pv) = Some pc) as [pc Hpc].
    { assert (exists m, kids !! m = Some (pv_downlink pv)) as [m Hm] by
        (destruct rightmost; [by apply list_elem_of_lookup_1 in Hkid|exists 0%nat; by rewrite <- head_lookup]).
      destruct (lo_page _ _ Hkok m _ Hm) as (pc & ? & _). eauto. }
    do 3 run_step. erewrite bind_ok by (by eapply relandgetbuf_run). apply (IH l kids); (done || lia).
Qed.

End Tree.

Lemma key_search_run rel meta pages levels top root W target fuel key args h c :
  rel_ok rel -> tree_ok rel pages levels -> root_ok meta pages levels top root c -> key_ok rel key args ->
  (forall k bs, levels !! k = Some bs -> (length bs <= W)%nat) -> (target <= top)%nat ->
  (top - target + W + 1 < fuel)%nat ->
  exists blk stack bs i c',
    _abt_search_extended rel meta pages fuel key (Z.of_nat target) (mk_bs h c) = Ok (Some blk, stack) (mk_bs (blk :: h) c') /\
    levels !! target = Some bs /\ bs !! i = Some blk /\ belongs rel pages key bs i /\
    length stack = (top - target)%nat.
Proof.
  intros Hrel Htree Hroot Hkey HW Hle Hf. unfold _abt_search_extended.
  destruct (getroot_run rel meta pages levels top root fuel h c false) as (c' & Hrun & _); [done|done|lia|by left|].
  rewrite (bind_ok _ _ _ _ _ Hrun). destruct (ro_level _ _ _ _ _ _ Hroot) as [blks Hlv].
  destruct (search_loop_run rel Hrel pages key args Hkey levels W target top (root :: blks) 0 root fuel [] h c')
    as (stack & bs & i & b & Hs & Hbs & Hb & Hbel & Hlen); [done|done|done|done|done|lia|lia|].
  exists b, stack, bs, i, c'. done.
Qed.

(** C19: In a B-link tree in order, with or without unfinished splits, a search by scan
    key ends on the page of the requested level the key belongs to: it goes right of
    every page before it and not of this one.  Only that page is left locked, and the
    stack has one entry for every level descended. *)
Theorem search_finds_page rel meta pages levels top root W target fuel key args h c :
  rel_ok rel -> tree_ok rel pages levels -> root_ok meta pages levels top root c -> key_ok rel key args ->
  (forall k bs, levels !! k = Some bs -> (length bs <= W)%nat) -> (target <= top)%nat ->
  (top - target + W + 1 < fuel)%nat ->
  exists blk stack bs i c',
    _abt_search_extended rel meta pages fuel key (Z.of_nat target) (mk_bs h c) = Ok (Some blk, stack) (mk_bs (blk :: h) c') /\
    levels !! target = Some bs /\ bs !! i = Some blk /\ belongs rel pages key bs i /\
    length stack = (top - target)%nat.
Proof. apply key_search_run. Qed.

(** The first and the last page of the leaf level are found by following the first
    and the last downlinks, moving right where a split is unfinished; only that page is
    left locked. *)
Theorem endpoint_finds_end rel meta pages levels top root W fuel rightmost h c :
  rel_ok rel -> tree_ok rel pages levels -> root_ok meta pages levels top root c ->
  (forall k bs, levels !! k = Some bs -> (length bs <= W)%nat) ->
  (forall k bs kids, levels !! S k = Some bs -> levels !! k = Some kids -> ends_ok pages bs kids) ->
  (top + W + 1 < fuel)%nat ->
  exists blk bs c', _abt_get_endpoint meta pages fuel 0 rightmost (mk_bs h c) = Ok (Some blk) (mk_bs (blk :: h) c') /\
    levels !! 0%nat = Some bs /\ end_of rightmost bs = Some blk.
Proof.
  intros Hrel Htree Hroot HW Hends Hf. unfold _abt_get_endpoint. cbn [Z.eqb].
  destruct (getroot_run rel meta pages levels top root fuel h c false) as (c' & Hrun & _); [done|done|lia|by left|].
  rewrite (bind_ok _ _ _ _ _ Hrun). destruct (ro_level _ _ _ _ _ _ Hroot) as [blks Hlv].
  destruct (endpoint_loop_run rel pages levels W 0 top (root :: blks) root fuel rightmost InvalidOffsetNumber [] h c')
    as (stack & bs & b & Hs & Hbs & Hb); try done; [lia|destruct rightmost; [by constructor|done]|lia|].
  exists b, bs, c'. rewrite (bind_ok _ _ _ _ _ Hs). done.
Qed.

(** ** A concrete tree *)

(** Three leaves under one root; the split of the second leaf is unfinished, so the third
    has no downlink. *)
Definition hik (k : Z) : bool * index_tuple := down [Some k] 0 0.

Definition demo_pages (blk : Z) : option page :=
  if blk =? 0 then Some (mk_pg [] (mk_opaque 0 0 0 ABTP_META 0))
  else if blk =? 1 then Some (mk_pg [down [] 2 2; down [Some 30] 3 4] (mk_opaque 0 0 1 ABTP_ROOT 0))
  else if blk =? 2 then Some (mk_pg [hik 30; plain 10 (mk_tid 0 1); plain 20 (mk_tid 0 2)] (mk_opaque 0 3 0 ABTP_LEAF 0))
  else if blk =? 3 then
    Some (mk_pg [hik 50; plain 30 (mk_tid 0 3); plain 40 (mk_tid 0 4)] (mk_opaque 2 4 0 (Z.lor ABTP_LEAF ABTP_INCOMPLETE_SPLIT) 0))
  else if blk =? 4 then Some (mk_pg [plain 50 (mk_tid 0 5); plain 60 (mk_tid 0 6)] (mk_opaque 3 0 0 ABTP_LEAF 0))
  else None.

Definition demo_meta : ABTMetaPageData := mk_meta 1 1 1 1.
Definition demo_levels : list (list Z) := [[2; 3; 4]; [1]].

Ltac demo_page :=
  apply page_ok_intro;
    [done
    |repeat (apply Forall_cons; split); [..|constructor];
      (split; [simpl; lia || done|first [done|eexists _, _; by split_and!]])
    |repeat constructor; left; done
    |done].

Lemma demo_pages_ok b p : b ∈ [1; 2; 3; 4] -> demo_pages b = Some p -> page_ok demo_rel p.
Proof.
  rewrite !elem_of_cons. intros [->|[->|[->|[->|Hn]]]]; [intros [= <-]; demo_page..|].
  by apply not_elem_of_nil in Hn.
Qed.

Ltac demo_level_page :=
  match goal with |- exists p, demo_pages ?b = Some p /\ _ =>
    eexists; split; [reflexivity|]; split;
      [apply (demo_pages_ok b); [rewrite !elem_of_cons; auto 10|reflexivity]|] end.

Lemma demo_tree_ok : tree_ok demo_rel demo_pages demo_levels.
Proof.
  split.
  - intros [|[|l]] blks; simpl; intros [= <-]; (split; [done|]); split.
    + intros [|[|[|i]]] b; simpl; intros [= <-]; demo_level_page; done.
    + intros [|[|[|i]]] b b' p; simpl; intros [= <-] [= <-] [= <-]; (split; [done|]);
        (eexists; split; [reflexivity|]); (split; [simpl; lia|done]).
    + intros [|[|[|i]]] [|[|[|j]]] b b' p p' t t' Hij; simpl; try lia; try done;
        intros [= <-] [= <-] [= <-] [= <-] [= <-]; try done; intros [= <-]; by left.
    + intros [|i] b; simpl; intros [= <-]. demo_level_page. done.
    + intros [|i] b b' p; simpl; done.
    + intros [|i] [|j] b b' p p' t t' Hij; simpl; try lia; done.
  - intros [|l] blks kids; simpl; [|done]. intros [= <-] [= <-] [|i] b p off; simpl; [|done].
    intros [= <-] [= <-] Hoff. assert (off = 1 \/ off = 2) as [-> | ->] by (change (1 <= off <= 2) in Hoff; lia).
    + eexists _, 0%nat. done.
    + eexists _, 1%nat. split; [done|]. split; [done|]. by eexists _, _, _, _.
Qed.

Lemma demo_root_ok c : c = None -> root_ok demo_meta demo_pages demo_levels 1 1 c.
Proof. intros ->. split; [by eexists|done|by eexists|by left]. Qed.

Lemma demo_width k bs : demo_levels !! k = Some bs -> (length bs <= 3)%nat.
Proof. destruct k as [|[|k]]; simpl; intros [= <-]; simpl; lia. Qed.

Example demo_search : _abt_search_extended demo_rel demo_meta demo_pages 10 (demo_key 60 None) 0 (mk_bs [] None) =
  Ok (Some 4, [mk_stack 1 2 0]) (mk_bs [4] (Some demo_meta)).
Proof. reflexivity. Qed.

Lemma search_finds_page_witness :
  exists blk stack bs i c',
    _abt_search_extended demo_rel demo_meta demo_pages 10 (demo_key 60 None) (Z.of_nat 0) (mk_bs [] None) =
      Ok (Some blk, stack) (mk_bs [blk] c') /\
    demo_levels !! 0%nat = Some bs /\ bs !! i = Some blk /\ belongs demo_rel demo_pages (demo_key 60 None) bs i /\
    length stack = 1%nat.
Proof.
  apply (search_finds_page demo_rel demo_meta demo_pages demo_levels 1 1 3 0 10 (demo_key 60 None) [Some 60] [] None).
  - apply demo_rel_ok.
  - apply demo_tree_ok.
  - by apply demo_root_ok.
  - apply demo_key_ok.
  - apply demo_width.
  - lia.
  - lia.
Defined.

Lemma endpoint_finds_end_witness :
  exists blk bs c', _abt_get_endpoint demo_meta demo_pages 10 0 true (mk_bs [] None) = Ok (Some blk) (mk_bs [blk] c') /\
    demo_levels !! 0%nat = Some bs /\ end_of true bs = Some blk.
Proof.
  apply (endpoint_finds_end demo_rel demo_meta demo_pages demo_levels 1 1 3 10 true [] None).
  - apply demo_rel_ok.
  - apply demo_tree_ok.
  - by apply demo_root_ok.
  - apply demo_width.
  - intros [|k] bs kids; simpl; [|done]. intros [= <-] [= <-]. split; intros b p; simpl; intros [= <-] [= <-].
    + by eexists.
    + eexists. split; [reflexivity|]. simpl. rewrite !elem_of_cons. auto.
  - lia.
Defined.

(** The stack of _abt_get_endpoint_stack records for each page the offset followed on the
    level above it: here the root with offset 0 instead of 2. *)
Example endpoint_stack_offset : _abt_get_endpoint_stack demo_meta demo_pages 10 0 true (mk_bs [] None) =
  Ok (Some 4, [mk_stack 1 InvalidOffsetNumber 0]) (mk_bs [4] (Some demo_meta)).
Proof. reflexivity. Qed.

End Btree.
