(* ===== verification/Insert.v ===== *)
(** * Inserting on a page and splitting it

    The page level of an insertion (abtinsert.c): _abt_insertonpg puts a tuple on a page,
    splitting a posting list when the new TID falls inside it; when the page is full,
    _abt_split distributes its items over the page and a new right sibling.  The pages a
    split touches (the page, the new one, the old right sibling and, on internal levels,
    the child whose split is finished by the insertion) are passed and returned.  Locks,
    the WAL record and the insertion into the parent are left out. *)

From stdpp Require Import base numbers option sorting list.
From S2P Require Import Prelude Tuple Dedup Page Search Truncate SplitLoc Btree.

Module Insert.
Import Tuple Dedup Page Search Truncate SplitLoc Btree.

(** ** Errors *)

Inductive insert_error :=
  | FailedLeftHighKey | FailedRightHighKey | FailedNewLeft | FailedNewRight | FailedOldLeft | FailedOldRight
  | SiblingMismatch (blkno links_to expected : Z)
  | CouldNotFindSplit
  | IncompletelySplit (blkno : Z)
  | FailedNewItem
  | OutOfBounds.

Inductive ires (A : Type) := Done (a : A) | Error (e : insert_error).
Arguments Done {A} a.
Arguments Error {A} e.

Definition ibind {A B} (m : ires A) (f : A -> ires B) : ires B := match m with Done a => f a | Error e => Error e end.
Definition need {A} (e : insert_error) (o : option A) : ires A := match o with Some a => Done a | None => Error e end.

Declare Scope insert_scope.
Notation "'let!' x := m 'in' f" := (ibind m (fun x => f)) (at level 60, x pattern, m at level 59, f at level 60, right associativity) : insert_scope.
Open Scope insert_scope.

(** ** Pages *)

Definition ABT_INVALID_LAST_UPDATE_ID : Z := 0.
Definition ABT_MIN_LAST_UPDATE_ID : Z := 1.
(** The comparison with 0 is made on an int; the result is stored in 16 bits. *)
Definition ABTAdvanceLastUpdateId (last_update_id : Z) : Z :=
  u16 (if last_update_id + 1 =? 0 then ABT_MIN_LAST_UPDATE_ID else last_update_id + 1).

Definition with_items (p : spage) (items : list (Z * index_tuple)) : spage := mk_spage items (sp_opaque p) (sp_cycleid p).

(** PageAddItem at [off]; [None] stands for InvalidOffsetNumber. *)
Definition PageAddItem (p : spage) (size : Z) (t : index_tuple) (off : Z) : option spage :=
  if (off <? 1) || (sp_maxoff p + 1 <? off) then None
  else if page_room <? sumZ (item_size ∘ fst <$> sp_items p) + item_size size then None
  else Some (with_items p (take (Z.to_nat (off - 1)) (sp_items p) ++ (size, t) :: drop (Z.to_nat (off - 1)) (sp_items p))).

Section Split.
Context (rel : index_rel) (ai : agg_info) (index_form_size : list (option Z) -> Z).
Context (stale : index_tuple -> nat -> option Z) (qsort : list ABTSplitPoint -> list ABTSplitPoint) (leaffillfactor : Z).

(** The tuple that an internal page has first: only a downlink and an aggregate. *)
Definition minus_infinity (t : index_tuple) : option index_tuple :=
  match t with
  | PivotTup pv => Some (PivotTup (mk_pivot [] None (pv_downlink pv) (pv_agg pv) ABT_INVALID_LAST_UPDATE_ID))
  | LeafTup _ => None
  end.

Definition _abt_pgaddtup (p : spage) (itemsize : Z) (itup : index_tuple) (itup_off : Z) (newfirstdataitem : bool) : option spage :=
  if newfirstdataitem then
    truncated ← minus_infinity itup;
    PageAddItem p (MAXALIGN sizeof_IndexTupleData + extra_space_when_tid_missing ai) truncated itup_off
  else PageAddItem p itemsize itup itup_off.

(** _abt_pivot_tuple_purge_agg_space, with the size of the result. *)
Definition purge_agg_space (len : Z) (t : index_tuple) : option (Z * index_tuple) :=
  match t with
  | PivotTup pv =>
      Some (match pv_tid pv with
            | Some _ => MAXALIGN (len - extra_space_when_tid_present ai + sizeof_ItemPointerData)
            | None => len - extra_space_when_tid_missing ai
            end, PivotTup (mk_pivot (pv_key pv) (pv_tid pv) (pv_downlink pv) 0 0))
  | LeafTup _ => None
  end.

Definition set_agg (v : Z) (t : index_tuple) : index_tuple :=
  match t with
  | PivotTup pv => PivotTup (mk_pivot (pv_key pv) (pv_tid pv) (pv_downlink pv) v (pv_last_update_id pv))
  | LeafTup _ => t
  end.

(** The pages of a split. *)
Record split_pages := mk_split_pages {
  sl_left : spage;
  sl_right : spage;
  sl_sibling : option spage;
  sl_child : option spage
}.

(** Flags that do not survive a split. *)
Definition split_flags (flags : Z) : Z :=
  Z.land flags (Z.lnot (Z.lor (Z.lor ABTP_ROOT ABTP_SPLIT_END) (Z.lor ABTP_HAS_GARBAGE ABTP_HAD_GARBAGE_REMOVED))).

(** What the distribution of the items needs to know. *)
Record plan := mk_plan {
  pl_isleaf : bool;
  pl_firstrightoff : Z;
  pl_newitemonleft : bool;
  pl_newitemoff : Z;
  pl_newitemsz : Z;
  pl_newitem : index_tuple;
  pl_postingoff : Z;            (** origpagepostingoff, 0 for none *)
  pl_nposting : index_tuple;
  pl_previtem_off : Z;
  pl_previtem_newagg : Z;
  pl_minusinfoff : Z            (** 0 for none *)
}.

Definition add_left (e : insert_error) (size : Z) (t : index_tuple) (pages : spage * spage) : ires (spage * spage) :=
  let! l := need e (_abt_pgaddtup (fst pages) size t (sp_maxoff (fst pages) + 1) false) in Done (l, snd pages).
Definition add_right (pl : plan) (e : insert_error) (size : Z) (t : index_tuple) (pages : spage * spage) : ires (spage * spage) :=
  let afterrightoff := sp_maxoff (snd pages) + 1 in
  let! r := need e (_abt_pgaddtup (snd pages) size t afterrightoff (afterrightoff =? pl_minusinfoff pl)) in Done (fst pages, r).

(** The new item, when it belongs before the item at [i]. *)
Definition add_new (pl : plan) (pages : spage * spage) : ires (spage * spage) :=
  if pl_newitemonleft pl then add_left FailedNewLeft (pl_newitemsz pl) (pl_newitem pl) pages
  else add_right pl FailedNewRight (pl_newitemsz pl) (pl_newitem pl) pages.

(** The loop over the items of the original page from offset [i] on. *)
Fixpoint distribute (pl : plan) (items : list (Z * index_tuple)) (i : Z) (pages : spage * spage) : ires (spage * spage) :=
  match items with
  | [] =>
      if i <=? pl_newitemoff pl then add_right pl FailedNewRight (pl_newitemsz pl) (pl_newitem pl) pages
      else Done pages
  | (itemsz, item) :: items =>
      let dataitem := if i =? pl_postingoff pl then pl_nposting pl else item in
      let! pages := (if i =? pl_postingoff pl then Done pages
                     else if i =? pl_newitemoff pl then add_new pl pages else Done pages) in
      let dataitem := if negb (pl_isleaf pl) && (i =? pl_previtem_off pl) then set_agg (pl_previtem_newagg pl) dataitem else dataitem in
      let! pages := (if i <? pl_firstrightoff pl then add_left FailedOldLeft itemsz dataitem pages
                     else add_right pl FailedOldRight itemsz dataitem pages) in
      distribute pl items (i + 1) pages
  end.

(** The tuples around the split point, the posting list split included. *)
Definition first_right (p : spage) (firstrightoff : Z) (newitemonleft : bool) (newitemoff newitemsz : Z) (newitem nposting : index_tuple)
    (origpagepostingoff : Z) : option (Z * index_tuple) :=
  if negb newitemonleft && (newitemoff =? firstrightoff) then Some (newitemsz, newitem)
  else
    item ← sp_item p firstrightoff;
    Some (fst item, if firstrightoff =? origpagepostingoff then nposting else snd item).
Definition last_left (p : spage) (firstrightoff : Z) (newitemonleft : bool) (newitemoff : Z) (newitem nposting : index_tuple)
    (origpagepostingoff : Z) : option index_tuple :=
  if newitemonleft && (newitemoff =? firstrightoff) then Some newitem
  else
    item ← sp_item p (firstrightoff - 1);
    Some (if firstrightoff - 1 =? origpagepostingoff then nposting else snd item).

(** The left page's new high key and its size. *)
Definition left_high_key (isleaf : bool) (itup_key : ABTScanInsertData) (firstright : Z * index_tuple) (lastleft : option index_tuple) :
    option (Z * index_tuple) :=
  if isleaf then
    ll ← lastleft;
    match ll, snd firstright with
    | LeafTup ll, LeafTup fr =>
        tr ← _abt_truncate rel ai index_form_size ll fr itup_key;
        Some (tr_size tr, PivotTup (tr_pivot tr))
    | _, _ => None
    end
  else purge_agg_space (fst firstright) (snd firstright).

Definition _abt_split (itup_key : ABTScanInsertData) (origpagenumber rightpagenumber cycleid : Z) (origpage : spage)
    (sibling child : option spage) (newitemoff newitemsz : Z) (newitem : index_tuple) (nposting : option index_tuple)
    (previtem_newagg : Z) : ires split_pages :=
  let oopaque := sp_opaque origpage in
  let isleaf := ABT_P_ISLEAF oopaque in
  let isrightmost := ABT_P_RIGHTMOST oopaque in
  let previtem_off := newitemoff - 1 in
  let! sp := need OutOfBounds (_abt_findsplitloc rel ai stale qsort origpage newitemoff newitemsz newitem leaffillfactor) in
  match sp with
  | NoFeasibleSplit => Error CouldNotFindSplit
  | SplitAt firstrightoff newitemonleft =>
      let lflags := Z.lor (split_flags (abtpo_flags oopaque)) ABTP_INCOMPLETE_SPLIT in
      (** the temporary page's own id, which page initialization has just set to 0 *)
      let l_update_id := if isleaf then 0 else ABTAdvanceLastUpdateId 0 in
      let origpagepostingoff := match nposting with Some _ => newitemoff - 1 | None => 0 end in
      let np := default newitem nposting in
      let! firstright := need OutOfBounds (first_right origpage firstrightoff newitemonleft newitemoff newitemsz newitem np origpagepostingoff) in
      let lastleft := last_left origpage firstrightoff newitemonleft newitemoff newitem np origpagepostingoff in
      let! hk := need OutOfBounds (left_high_key isleaf itup_key firstright lastleft) in
      let lopaque := mk_opaque (abtpo_prev oopaque) rightpagenumber (abtpo_level oopaque) lflags l_update_id in
      let! leftpage := need FailedLeftHighKey (PageAddItem (mk_spage [] lopaque cycleid) (fst hk) (snd hk) ABTP_HIKEY) in
      let ropaque := mk_opaque origpagenumber (abtpo_next oopaque) (abtpo_level oopaque) (split_flags (abtpo_flags oopaque))
        (if isleaf then 0 else ABT_MIN_LAST_UPDATE_ID) in
      let rightpage := mk_spage [] ropaque cycleid in
      let! rightpage := (if isrightmost then Done rightpage
                         else
                           let! hikey := need OutOfBounds (sp_item origpage ABTP_HIKEY) in
                           need FailedRightHighKey (PageAddItem rightpage (fst hikey) (snd hikey) ABTP_HIKEY)) in
      let minusinfoff := if isleaf then 0 else sp_maxoff rightpage + 1 in
      let pl := mk_plan isleaf firstrightoff newitemonleft newitemoff newitemsz newitem origpagepostingoff np previtem_off previtem_newagg minusinfoff in
      let first := ABT_P_FIRSTDATAKEY oopaque in
      let! (leftpage, rightpage) := distribute pl (drop (Z.to_nat (first - 1)) (sp_items origpage)) first (leftpage, rightpage) in
      let! (sibling, rightpage) :=
        (if isrightmost then Done (None, rightpage)
         else
           let! spage := need OutOfBounds sibling in
           let sopaque := sp_opaque spage in
           if negb (abtpo_prev sopaque =? origpagenumber)
           then Error (SiblingMismatch (abtpo_next oopaque) (abtpo_prev sopaque) origpagenumber)
           else
             let sopaque' := mk_opaque rightpagenumber (abtpo_next sopaque) (abtpo_level sopaque) (abtpo_flags sopaque) (abtpo_last_update_id sopaque) in
             let r := sp_opaque rightpage in
             let rflags := if negb (sp_cycleid spage =? sp_cycleid rightpage) then Z.lor (abtpo_flags r) ABTP_SPLIT_END else abtpo_flags r in
             Done (Some (mk_spage (sp_items spage) sopaque' (sp_cycleid spage)),
                   mk_spage (sp_items rightpage) (mk_opaque (abtpo_prev r) (abtpo_next r) (abtpo_level r) rflags (abtpo_last_update_id r)) (sp_cycleid rightpage))) in
      let! child :=
        (if isleaf then Done None
         else
           let! cpage := need OutOfBounds child in
           let c := sp_opaque cpage in
           Done (Some (mk_spage (sp_items cpage) (mk_opaque (abtpo_prev c) (abtpo_next c) (abtpo_level c)
             (Z.land (abtpo_flags c) (Z.lnot ABTP_INCOMPLETE_SPLIT)) (abtpo_last_update_id c)) (sp_cycleid cpage)))) in
      Done (mk_split_pages leftpage rightpage sibling child)
  end.

(** ** Insertion on a page *)

Definition PageGetFreeSpace (p : spage) : Z :=
  let space := page_room - sumZ (item_size ∘ fst <$> sp_items p) in
  if space <? sizeof_ItemIdData then 0 else space - sizeof_ItemIdData.

(** The update of the pivot left of a new downlink. *)
Definition update_previtem (v : Z) (t : index_tuple) : index_tuple :=
  match t with
  | PivotTup pv => PivotTup (mk_pivot (pv_key pv) (pv_tid pv) (pv_downlink pv) v (ABTAdvanceLastUpdateId (pv_last_update_id pv)))
  | LeafTup _ => t
  end.
Definition replace_item (p : spage) (off : Z) (f : index_tuple -> index_tuple) : spage :=
  with_items p (alter (prod_map id f) (Z.to_nat (off - 1)) (sp_items p)).

(** After a split the caller goes on to insert into the parent. *)
Inductive insert_result :=
  | OnPage (page : spage) (child : option spage) (meta : option ABTMetaPageData)
  | PageSplit (pages : split_pages).

Definition _abt_insertonpg (itup_key : ABTScanInsertData) (blkno rightpagenumber cycleid : Z) (page : spage)
    (sibling child : option spage) (metad : ABTMetaPageData) (itup : index_tuple) (itemsz newitemoff postingoff : Z)
    (split_only_page : bool) (previtem_newagg : Z) : ires insert_result :=
  let lpageop := sp_opaque page in
  if ABT_P_INCOMPLETE_SPLIT lpageop then Error (IncompletelySplit blkno)
  else
    let! (itup, nposting, newitemoff) :=
      (if postingoff =? 0 then Done (itup, None, newitemoff)
       else
         let! item := need OutOfBounds (sp_item page newitemoff) in
         match itup, snd item with
         | LeafTup newitem, LeafTup oposting =>
             let! (nposting, newitem) := need OutOfBounds (_abt_swap_posting ai newitem oposting (Z.to_nat postingoff)) in
             Done (LeafTup newitem, Some (LeafTup nposting), newitemoff + 1)
         | _, _ => Error OutOfBounds
         end) in
    if PageGetFreeSpace page <? itemsz then
      let! pages := _abt_split itup_key blkno rightpagenumber cycleid page sibling child newitemoff itemsz itup nposting previtem_newagg in
      Done (PageSplit pages)
    else
      let isleaf := ABT_P_ISLEAF lpageop in
      let page := match nposting with Some np => replace_item page (newitemoff - 1) (fun _ => np) | None => page end in
      let page := if isleaf then page else replace_item page (newitemoff - 1) (update_previtem previtem_newagg) in
      let! page := need FailedNewItem (PageAddItem page itemsz itup newitemoff) in
      let lpageop' :=
        if isleaf then lpageop
        else mk_opaque (abtpo_prev lpageop) (abtpo_next lpageop) (abtpo_level lpageop) (abtpo_flags lpageop)
          (ABTAdvanceLastUpdateId (abtpo_last_update_id lpageop)) in
      let meta :=
        if split_only_page && negb (abtpo_level lpageop <=? abtm_fastlevel metad)
        then Some (mk_meta (abtm_root metad) (abtm_level metad) blkno (abtpo_level lpageop)) else None in
      let! child :=
        (if isleaf then Done None
         else
           let! cpage := need OutOfBounds child in
           let c := sp_opaque cpage in
           Done (Some (mk_spage (sp_items cpage) (mk_opaque (abtpo_prev c) (abtpo_next c) (abtpo_level c)
             (Z.land (abtpo_flags c) (Z.lnot ABTP_INCOMPLETE_SPLIT)) (abtpo_last_update_id c)) (sp_cycleid cpage)))) in
      Done (OnPage (mk_spage (sp_items page) lpageop' (sp_cycleid page)) child meta).

End Split.

(** ** The items of the two pages *)

Section Distribute.
Context (ai : agg_info).

Lemma sizes_nonneg (l : list (Z * index_tuple)) : Forall (fun it => 0 <= fst it) l -> 0 <= sumZ (item_size ∘ fst <$> l).
Proof.
  intros Hl. apply sumZ_nonneg, Forall_fmap. eapply Forall_impl; [exact Hl|]. intros it H. cbv beta in H. unfold compose, item_size, sizeof_ItemIdData.
  pose proof (MAXALIGN_spec (fst it)). lia.
Qed.

Lemma add_item p size t : sumZ (item_size ∘ fst <$> sp_items p) + item_size size <= page_room ->
  PageAddItem p size t (sp_maxoff p + 1) = Some (with_items p (sp_items p ++ [(size, t)])).
Proof.
  intros Hr. unfold PageAddItem, sp_maxoff. rewrite (proj2 (Z.ltb_ge _ 1)), (proj2 (Z.ltb_ge (_ + 1) _)), (proj2 (Z.ltb_ge page_room _)) by lia.
  cbn [orb]. replace (Z.to_nat (Z.of_nat (length (sp_items p)) + 1 - 1)) with (length (sp_items p)) by lia. by rewrite firstn_all, drop_all.
Qed.

Lemma add_first o c size t : item_size size <= page_room -> PageAddItem (mk_spage [] o c) size t ABTP_HIKEY = Some (mk_spage [(size, t)] o c).
Proof. intros H. exact (add_item (mk_spage [] o c) size t H). Qed.

(** The tuple a data item becomes: the posting list replaced, the aggregate of the item
    left of a new downlink updated. *)
Definition changed_item (pl : plan) (i : Z) (item : index_tuple) : index_tuple :=
  let dataitem := if i =? pl_postingoff pl then pl_nposting pl else item in
  if negb (pl_isleaf pl) && (i =? pl_previtem_off pl) then set_agg (pl_previtem_newagg pl) dataitem else dataitem.

(** The items in the order they are placed, and whether they go left. *)
Fixpoint placed (pl : plan) (items : list (Z * index_tuple)) (i : Z) : list (bool * (Z * index_tuple)) :=
  match items with
  | [] => if i <=? pl_newitemoff pl then [(false, (pl_newitemsz pl, pl_newitem pl))] else []
  | (itemsz, item) :: items =>
      (if (i =? pl_newitemoff pl) && negb (i =? pl_postingoff pl) then [(pl_newitemonleft pl, (pl_newitemsz pl, pl_newitem pl))] else []) ++
      (i <? pl_firstrightoff pl, (itemsz, changed_item pl i item)) :: placed pl items (i + 1)
  end.

Fixpoint place_all (pl : plan) (l : list (bool * (Z * index_tuple))) (pages : spage * spage) : option (spage * spage) :=
  match l with
  | [] => Some pages
  | (onleft, (size, t)) :: l =>
      pages ← (if onleft : bool then r ← _abt_pgaddtup ai (fst pages) size t (sp_maxoff (fst pages) + 1) false; Some (r, snd pages)
               else
                 r ← _abt_pgaddtup ai (snd pages) size t (sp_maxoff (snd pages) + 1) (sp_maxoff (snd pages) + 1 =? pl_minusinfoff pl);
                 Some (fst pages, r));
      place_all pl l pages
  end.

Lemma place_all_app pl l1 l2 pages : place_all pl (l1 ++ l2) pages = (pages ← place_all pl l1 pages; place_all pl l2 pages).
Proof.
  revert pages. induction l1 as [|[onleft [size t]] l1 IH]; intros pages; [done|]. cbn [app place_all].
  destruct onleft; destruct (_abt_pgaddtup ai _ _ _ _ _); cbn [mbind option_bind]; done.
Qed.

Lemma distribute_place pl items i pages pages' : place_all pl (placed pl items i) pages = Some pages' -> distribute ai pl items i pages = Done pages'.
Proof.
  revert i pages. induction items as [|[itemsz item] items IH]; intros i pages; cbn [placed distribute].
  - destruct (i <=? pl_newitemoff pl); [|by intros [= ->]]. cbn [place_all]. unfold add_right.
    destruct (_abt_pgaddtup ai _ _ _ _ _); cbn [mbind option_bind need ibind]; [by intros [= ->]|done].
  - rewrite place_all_app. intros H. set (new := if _ && _ then _ else _) in H.
    assert (Hnew : forall q, place_all pl new pages = Some q ->
      (if i =? pl_postingoff pl then Done pages else if i =? pl_newitemoff pl then add_new ai pl pages else Done pages) = Done q).
    { unfold new. intros q. destruct (i =? pl_postingoff pl); [rewrite andb_false_r; by intros [= ->]|]. rewrite andb_true_r.
      destruct (i =? pl_newitemoff pl); [|by intros [= ->]]. cbn [place_all]. unfold add_new, add_left, add_right.
      destruct (pl_newitemonleft pl); destruct (_abt_pgaddtup ai _ _ _ _ _); cbn [mbind option_bind need ibind]; try done; by intros [= ->]. }
    destruct (place_all pl new pages) as [q|]; [|done]. rewrite (Hnew q eq_refl). cbn [mbind option_bind ibind place_all] in *.
    fold (changed_item pl i item). unfold add_left, add_right. destruct (i <? pl_firstrightoff pl);
      destruct (_abt_pgaddtup ai _ _ _ _ _); cbn [mbind option_bind need ibind] in *; try done; by apply IH.
Qed.

Lemma place_left pl l items left right : sp_items left = items -> sumZ (item_size ∘ fst <$> items ++ l) <= page_room ->
  Forall (fun it => 0 <= fst it) l ->
  place_all pl ((true,.) <$> l) (left, right) = Some (with_items left (items ++ l), right).
Proof.
  intros Hi Hr Hp. revert left items Hi Hr. induction Hp as [|[size t] l Hs Hp IH]; intros left items Hi Hr; cbn [fmap list_fmap place_all fst snd].
  { rewrite app_nil_r, <- Hi. by destruct left. }
  pose proof (sizes_nonneg l Hp) as Hrest.
  rewrite fmap_app, sumZ_app in Hr. cbn [fmap list_fmap sumZ] in Hr. change (list_fmap _ _ (item_size ∘ fst) l) with (item_size ∘ fst <$> l) in Hr.
  unfold compose in Hr at 2. cbn [fst] in Hr.
  unfold _abt_pgaddtup. rewrite add_item by (rewrite Hi; lia). cbn [mbind option_bind].
  change (list_fmap _ _ (true,.) l) with ((true,.) <$> l). rewrite (IH (with_items left (sp_items left ++ [(size, t)])) (items ++ [(size, t)])).
  - unfold with_items. cbn [sp_opaque sp_cycleid]. by rewrite <- app_assoc.
  - cbn. by rewrite Hi.
  - rewrite <- app_assoc, fmap_app, sumZ_app. cbn [app fmap list_fmap sumZ]. change (list_fmap _ _ (item_size ∘ fst) l) with (item_size ∘ fst <$> l).
    unfold compose at 2. cbn [fst]. lia.
Qed.

Lemma place_right pl l items left right : sp_items right = items -> sumZ (item_size ∘ fst <$> items ++ l) <= page_room ->
  Forall (fun it => 0 <= fst it) l -> pl_minusinfoff pl <= Z.of_nat (length items) ->
  place_all pl ((false,.) <$> l) (left, right) = Some (left, with_items right (items ++ l)).
Proof.
  intros Hi Hr Hp. revert right items Hi Hr. induction Hp as [|[size t] l Hs Hp IH]; intros right items Hi Hr Hm; cbn [fmap list_fmap place_all fst snd].
  { rewrite app_nil_r, <- Hi. by destruct right. }
  pose proof (sizes_nonneg l Hp) as Hrest.
  rewrite fmap_app, sumZ_app in Hr. cbn [fmap list_fmap sumZ] in Hr. change (list_fmap _ _ (item_size ∘ fst) l) with (item_size ∘ fst <$> l) in Hr.
  unfold compose in Hr at 2. cbn [fst] in Hr.
  assert (Hmax : sp_maxoff right = Z.of_nat (length items)) by (unfold sp_maxoff; by rewrite Hi).
  rewrite (proj2 (Z.eqb_neq (sp_maxoff right + 1) _)) by lia.
  unfold _abt_pgaddtup. rewrite add_item by (rewrite Hi; lia). cbn [mbind option_bind].
  change (list_fmap _ _ (false,.) l) with ((false,.) <$> l). rewrite (IH (with_items right (sp_items right ++ [(size, t)])) (items ++ [(size, t)])).
  - unfold with_items. cbn [sp_opaque sp_cycleid]. by rewrite <- app_assoc.
  - cbn. by rewrite Hi.
  - rewrite <- app_assoc, fmap_app, sumZ_app. cbn [app fmap list_fmap sumZ]. change (list_fmap _ _ (item_size ∘ fst) l) with (item_size ∘ fst <$> l).
    unfold compose at 2. cbn [fst]. lia.
  - rewrite length_app. simpl. lia.
Qed.

End Distribute.

(** ** The page with the new item, after the insertion *)

Section Final.
Context (ai : agg_info) (p : spage) (newoff newsz : Z) (item : index_tuple) (nposting : option index_tuple) (newagg : Z).
Context (Hsb : splittable ai p newoff newsz item).

Abbreviation first := (ABT_P_FIRSTDATAKEY (sp_opaque p)).
Abbreviation leaf := (ABT_P_ISLEAF (sp_opaque p)).
Abbreviation data := (drop (Z.to_nat (first - 1)) (sp_items p)).
Abbreviation newpos := (Z.to_nat (newoff - first)).
Abbreviation imaginary := (SplitLoc.imaginary p newoff newsz item).

(** The change of the item left of the new one: the posting list without the TID that the
    new item takes over, or the aggregate of the split child. *)
Definition change_left (t : index_tuple) : index_tuple :=
  if leaf then default t nposting else set_agg newagg t.
Definition final_items : list (Z * index_tuple) :=
  if decide (newpos = 0%nat) then imaginary else alter (prod_map id change_left) (newpos - 1)%nat imaginary.

(** A posting list is split only on a leaf page, left of the new item. *)
Context (Hpost : is_Some nposting -> leaf = true /\ first < newoff).

Definition split_plan (i : nat) (minusinfoff : Z) : plan :=
  mk_plan leaf (point_off p newoff i) (point_onleft p newoff i) newoff newsz item (match nposting with Some _ => newoff - 1 | None => 0 end)
    (default item nposting) (newoff - 1) newagg minusinfoff.

Lemma final_length : length final_items = length imaginary.
Proof. unfold final_items. case_decide; [done|]. by rewrite length_alter. Qed.

Lemma final_sizes : fst <$> final_items = fst <$> imaginary.
Proof.
  unfold final_items. case_decide; [done|]. apply list_eq. intros k. rewrite !list_lookup_fmap.
  rewrite list_lookup_alter. case_decide as He; [|done]. subst k. by destruct (imaginary !! _) as [[]|].
Qed.

Lemma final_lookup k it : imaginary !! k = Some it ->
  final_items !! k = Some (if decide (S k = newpos) then prod_map id change_left it else it).
Proof.
  intros Hk. unfold final_items. case_decide as H0; [rewrite decide_False by lia; done|].
  rewrite list_lookup_alter. destruct (decide (S k = newpos)) as [Hs|Hs]; [|by rewrite decide_False by lia].
  replace (newpos - 1)%nat with k by lia. by rewrite decide_True, Hk by done.
Qed.

Lemma changed_final i m a it : data !! a = Some it ->
  (fst it, changed_item (split_plan i m) (first + Z.of_nat a) (snd it)) = if decide (S a = newpos) then prod_map id change_left it else it.
Proof.
  intros Ha. pose proof (newpos_le _ _ _ _ _ Hsb) as [Hle Ho]. pose proof (first_range p) as Hf. unfold changed_item, split_plan. cbn [pl_postingoff pl_nposting pl_isleaf pl_previtem_off pl_previtem_newagg].
  destruct it as [len t]. cbn [fst snd]. case_decide as Hs.
  - replace (first + Z.of_nat a =? newoff - 1) with true by (symmetry; apply Z.eqb_eq; lia). unfold change_left, prod_map. cbn [fst snd].
    destruct nposting as [np|].
    + destruct (Hpost ltac:(by eexists)) as [-> _]. replace (first + Z.of_nat a =? newoff - 1) with true by (symmetry; apply Z.eqb_eq; lia). done.
    + replace (first + Z.of_nat a =? 0) with false by (symmetry; apply Z.eqb_neq; lia). rewrite andb_true_r. by destruct leaf.
  - replace (first + Z.of_nat a =? newoff - 1) with false by (symmetry; apply Z.eqb_neq; lia). rewrite andb_false_r.
    replace (first + Z.of_nat a =? match nposting with Some _ => newoff - 1 | None => 0 end) with false; [done|].
    symmetry. apply Z.eqb_neq. destruct nposting; lia.
Qed.

(** The side of every item. *)
Definition sided (i : nat) : list (bool * (Z * index_tuple)) := imap (fun k it => ((k <? i)%nat, it)) final_items.

Lemma sided_lookup i k it : final_items !! k = Some it -> sided i !! k = Some ((k <? i)%nat, it).
Proof. intros Hk. unfold sided. by rewrite list_lookup_imap, Hk. Qed.

Lemma side_before i a : (a < newpos)%nat -> (first + Z.of_nat a <? point_off p newoff i) = (a <? i)%nat.
Proof.
  intros Ha. apply Bool.eq_iff_eq_true. rewrite Z.ltb_lt, Nat.ltb_lt. unfold point_off. destruct (Nat.ltb_spec newpos i); lia.
Qed.
Lemma side_after i a : (newpos <= a)%nat -> (first + Z.of_nat a <? point_off p newoff i) = (S a <? i)%nat.
Proof.
  intros Ha. apply Bool.eq_iff_eq_true. rewrite Z.ltb_lt, Nat.ltb_lt. unfold point_off. destruct (Nat.ltb_spec newpos i); lia.
Qed.

Lemma placed_from i m n a : (i <= length data)%nat -> length data = (a + n)%nat ->
  placed (split_plan i m) (drop a data) (first + Z.of_nat a) = drop (idx p newoff a) (sided i).
Proof.
  intros Hi. pose proof (newpos_le _ _ _ _ _ Hsb) as [Hle Ho]. pose proof (first_range p) as Hf. pose proof (imaginary_length _ _ _ _ _ Hsb) as Hil.
  assert (Hsl : length (sided i) = S (length data)) by (unfold sided; rewrite length_imap, final_length; exact Hil).
  pose proof (imaginary_new _ _ _ _ _ Hsb) as Hnew. apply final_lookup in Hnew. rewrite decide_False in Hnew by lia. apply (sided_lookup i) in Hnew.
  revert a. induction n as [|n IH]; intros a Hlen; unfold idx.
  - rewrite drop_ge by lia. cbn [placed split_plan pl_newitemoff pl_newitemsz pl_newitem].
    destruct (Nat.ltb_spec newpos a) as [Hlt|Hge].
    + rewrite (proj2 (Z.leb_gt _ _)) by lia. rewrite drop_ge by lia. done.
    + rewrite (proj2 (Z.leb_le _ _)) by lia. rewrite Nat.add_0_r. replace a with newpos by lia. rewrite (drop_S _ _ _ Hnew), drop_ge by lia.
      by rewrite (proj2 (Nat.ltb_ge newpos i)) by lia.
  - destruct (lookup_lt_is_Some_2 data a ltac:(lia)) as [[len t] Ha]. rewrite (drop_S _ _ _ Ha).
    pose proof (data_imaginary _ _ _ _ _ Hsb a _ Ha) as Him. apply final_lookup in Him. pose proof (changed_final i m a _ Ha) as Hch.
    specialize (IH (S a) ltac:(lia)). replace (first + Z.of_nat (S a)) with (first + Z.of_nat a + 1) in IH by lia.
    cbn [placed split_plan pl_newitemoff pl_newitemsz pl_newitem pl_postingoff pl_newitemonleft pl_firstrightoff].
    fold (split_plan i m). rewrite IH. unfold idx. cbn [fst snd] in Hch. rewrite Hch.
    assert (Hpo : first + Z.of_nat a = newoff -> negb (first + Z.of_nat a =? match nposting with Some _ => newoff - 1 | None => 0 end) = true).
    { intros E. apply negb_true_iff, Z.eqb_neq. destruct nposting; lia. }
    destruct (Nat.lt_trichotomy a newpos) as [Hlt|[Heq|Hgt]].
    + rewrite (proj2 (Z.eqb_neq (first + Z.of_nat a) newoff)) by lia. cbn [andb app]. rewrite (side_before i a Hlt).
      rewrite (proj2 (Nat.ltb_lt _ _) Hlt) in Him. rewrite (proj2 (Nat.ltb_ge newpos a)), (proj2 (Nat.ltb_ge newpos (S a))), !Nat.add_0_r by lia.
      symmetry. by apply drop_S, sided_lookup.
    + rewrite (proj2 (Z.eqb_eq (first + Z.of_nat a) newoff)) by lia. rewrite Hpo by lia. cbn [andb app]. rewrite (side_after i a) by lia.
      rewrite (proj2 (Nat.ltb_ge a newpos)) in Him by lia. rewrite decide_False in Him by lia. rewrite decide_False by lia.
      rewrite (proj2 (Nat.ltb_ge newpos a)), (proj2 (Nat.ltb_lt newpos (S a))), Nat.add_0_r, Nat.add_1_r by lia.
      rewrite <- Heq in Hnew. rewrite (drop_S _ _ _ Hnew). unfold point_onleft. rewrite <- Heq. f_equal. symmetry. by apply drop_S, sided_lookup.
    + rewrite (proj2 (Z.eqb_neq (first + Z.of_nat a) newoff)) by lia. cbn [andb app]. rewrite (side_after i a) by lia.
      rewrite (proj2 (Nat.ltb_ge a newpos)) in Him by lia. rewrite decide_False in Him by lia. rewrite decide_False by lia.
      rewrite (proj2 (Nat.ltb_lt newpos a)), (proj2 (Nat.ltb_lt newpos (S a))), !Nat.add_1_r by lia. symmetry. by apply drop_S, sided_lookup.
Qed.

Lemma sided_split i : sided i = ((true,.) <$> take i final_items) ++ ((false,.) <$> drop i final_items).
Proof.
  unfold sided. apply list_eq. intros k. rewrite list_lookup_imap. destruct (Nat.ltb_spec k i) as [Hlt|Hge].
  - destruct (final_items !! k) as [it|] eqn:Hk.
    + rewrite lookup_app_l by (rewrite length_fmap, length_take; apply lookup_lt_Some in Hk; lia). by rewrite list_lookup_fmap, lookup_take_lt, Hk by lia.
    + symmetry. apply lookup_ge_None. apply lookup_ge_None in Hk. rewrite length_app, !length_fmap, length_take, length_drop. lia.
  - destruct (final_items !! k) as [it|] eqn:Hk.
    + apply lookup_lt_Some in Hk as Hkl. rewrite lookup_app_r by (rewrite length_fmap, length_take; lia). rewrite length_fmap, length_take, Nat.min_l by lia.
      rewrite list_lookup_fmap, lookup_drop. by replace (i + (k - i))%nat with k by lia; rewrite Hk.
    + symmetry. apply lookup_ge_None. apply lookup_ge_None in Hk. rewrite length_app, !length_fmap, length_take, length_drop. lia.
Qed.

Lemma placed_all i m : (i <= length data)%nat ->
  placed (split_plan i m) data first = ((true,.) <$> take i final_items) ++ ((false,.) <$> drop i final_items).
Proof.
  intros Hi. pose proof (placed_from i m (length data) 0 Hi eq_refl) as H. rewrite drop_0, Z.add_0_r in H. rewrite H. unfold idx.
  by rewrite drop_0, sided_split.
Qed.

(** ** Around the split point *)

Lemma first_right_item i it : imaginary !! i = Some it ->
  first_right p (point_off p newoff i) (point_onleft p newoff i) newoff newsz item (default item nposting) (match nposting with Some _ => newoff - 1 | None => 0 end) =
  Some (fst it, if leaf then snd (default it (final_items !! i)) else snd it).
Proof.
  intros Hi. pose proof (newpos_le _ _ _ _ _ Hsb) as [Hle Ho]. pose proof (first_range p) as Hf. rewrite (final_lookup i it Hi). cbn [default].
  unfold first_right. rewrite andb_comm, (Z.eqb_sym newoff), (first_right_new _ _ _ _ _ Hsb) by by eapply lookup_lt_Some.
  case_bool_decide as Hn.
  - rewrite Hn, (imaginary_new _ _ _ _ _ Hsb) in Hi. injection Hi as <-. rewrite decide_False by lia. by destruct leaf.
  - rewrite (imaginary_old _ _ _ _ _ Hsb i it Hi Hn). cbn [mbind option_bind]. do 2 f_equal. unfold point_off. case_decide as Hs.
    + unfold change_left, prod_map. cbn [snd]. rewrite (proj2 (Nat.ltb_ge newpos i)) by lia. destruct nposting as [np|].
      * destruct (Hpost ltac:(by eexists)) as [-> _]. by rewrite (proj2 (Z.eqb_eq _ _)) by lia.
      * rewrite (proj2 (Z.eqb_neq _ 0)) by lia. by destruct leaf.
    + replace (_ =? _) with false; [by destruct leaf|]. symmetry. apply Z.eqb_neq. destruct (Nat.ltb_spec newpos i), nposting; lia.
Qed.

Lemma last_left_item i : leaf = true -> (0 < i < length imaginary)%nat ->
  last_left p (point_off p newoff i) (point_onleft p newoff i) newoff item (default item nposting) (match nposting with Some _ => newoff - 1 | None => 0 end) =
  snd <$> final_items !! (i - 1)%nat.
Proof.
  intros Hl Hi. pose proof (newpos_le _ _ _ _ _ Hsb) as [Hle Ho]. pose proof (first_range p) as Hf.
  destruct (lookup_lt_is_Some_2 imaginary (i - 1)) as [it Hit]; [lia|]. rewrite (final_lookup _ it Hit). cbn [fmap option_fmap option_map].
  unfold last_left. replace (point_onleft p newoff i && (newoff =? point_off p newoff i)) with (bool_decide ((i - 1)%nat = newpos)).
  2: { unfold point_onleft, point_off. apply Bool.eq_iff_eq_true. rewrite bool_decide_eq_true, andb_true_iff, Nat.ltb_lt, Z.eqb_eq.
       destruct (Nat.ltb_spec newpos i); lia. }
  case_bool_decide as Hn.
  - rewrite Hn, (imaginary_new _ _ _ _ _ Hsb) in Hit. injection Hit as <-. rewrite decide_False by lia. done.
  - replace (point_off p newoff i - 1) with (point_off p newoff (i - 1)).
    2: { unfold point_off. destruct (Nat.ltb_spec newpos (i - 1)), (Nat.ltb_spec newpos i); lia. }
    rewrite (imaginary_old _ _ _ _ _ Hsb _ it Hit Hn). cbn [mbind option_bind]. f_equal. unfold point_off. case_decide as Hs.
    + unfold change_left, prod_map. cbn [snd]. rewrite (proj2 (Nat.ltb_ge newpos (i - 1))), Hl by lia. destruct nposting as [np|].
      * by rewrite (proj2 (Z.eqb_eq _ _)) by lia.
      * by rewrite (proj2 (Z.eqb_neq _ 0)) by lia.
    + replace (_ =? _) with false; [done|]. symmetry. apply Z.eqb_neq. destruct (Nat.ltb_spec newpos (i - 1)), nposting; lia.
Qed.

Lemma final_nonneg : Forall (fun it => 0 <= fst it) final_items.
Proof.
  apply (Forall_fmap fst (Z.le 0)). rewrite final_sizes. apply Forall_fmap, Forall_forall. intros it Hin. by apply (imaginary_item _ _ _ _ _ Hsb).
Qed.

Lemma final_sums i : sumZ (item_size ∘ fst <$> take i final_items) = sumZ (item_size ∘ fst <$> take i imaginary) /\
  sumZ (item_size ∘ fst <$> drop i final_items) = sumZ (item_size ∘ fst <$> drop i imaginary).
Proof. rewrite !list_fmap_compose, !fmap_take, !fmap_drop, final_sizes. done. Qed.

Lemma distribute_leaf i lp rp : (i <= length data)%nat ->
  sumZ (item_size ∘ fst <$> sp_items lp ++ take i final_items) <= page_room -> sumZ (item_size ∘ fst <$> sp_items rp ++ drop i final_items) <= page_room ->
  distribute ai (split_plan i 0) data first (lp, rp) =
    Done (with_items lp (sp_items lp ++ take i final_items), with_items rp (sp_items rp ++ drop i final_items)).
Proof.
  intros Hi Hl Hr. apply distribute_place. rewrite (placed_all i 0 Hi), place_all_app.
  pose proof final_nonneg as Hn. rewrite (place_left ai _ (take i final_items) (sp_items lp)); [|done|done|by apply Forall_take].
  cbn [mbind option_bind]. apply (place_right ai _ (drop i final_items) (sp_items rp)); [done|done|by apply Forall_drop|cbn; lia].
Qed.

(** The right page's own high key. *)
Definition old_high_key : list (Z * index_tuple) := if ABT_P_RIGHTMOST (sp_opaque p) then [] else take 1 (sp_items p).

Lemma right_start o c : (if ABT_P_RIGHTMOST (sp_opaque p) then Done (mk_spage [] o c)
    else let! hikey := need OutOfBounds (sp_item p ABTP_HIKEY) in need FailedRightHighKey (PageAddItem (mk_spage [] o c) (fst hikey) (snd hikey) ABTP_HIKEY)) =
  Done (mk_spage old_high_key o c).
Proof.
  pose proof (hikey_range ai p newoff newsz item Hsb) as Hr. unfold old_high_key, hikey_space in *. destruct (ABT_P_RIGHTMOST (sp_opaque p)) eqn:Er; [done|].
  pose proof (sb_hikey _ _ _ _ _ Hsb Er). unfold sp_item in *. destruct (sp_items p) as [|[len t] l]; [done|].
  change (ABTP_HIKEY <? 1) with false in *. change (Z.to_nat (ABTP_HIKEY - 1)) with 0%nat in *. cbn [lookup list_lookup need ibind fst snd] in *.
  rewrite add_first; [cbn [need take]; by rewrite take_0|lia].
Qed.

Lemma old_high_key_space : sumZ (item_size ∘ fst <$> old_high_key) = hikey_space p /\
  (ABT_P_RIGHTMOST (sp_opaque p) = false -> exists it, sp_item p ABTP_HIKEY = Some it /\ old_high_key = [it]).
Proof.
  unfold old_high_key, hikey_space, sp_item. destruct (ABT_P_RIGHTMOST (sp_opaque p)) eqn:Er; [done|].
  pose proof (sb_hikey _ _ _ _ _ Hsb Er). destruct (sp_items p) as [|it l]; [done|]. simpl. rewrite take_0. split; [cbn; lia|]. intros _. by exists it.
Qed.

End Final.

(** ** Splitting a leaf page *)

Section LeafSplit.
Context (rel : index_rel) (ai : agg_info) (index_form_size : list (option Z) -> Z).
Context (stale : index_tuple -> nat -> option Z) (qsort : list ABTSplitPoint -> list ABTSplitPoint) `{!SplitSort qsort} (leaffillfactor : Z).
Context (p : spage) (newoff newsz : Z) (item : index_tuple) (nposting : option index_tuple) (newagg : Z).
Context (Hsb : splittable ai p newoff newsz item) (Hpost : is_Some nposting -> ABT_P_ISLEAF (sp_opaque p) = true /\ ABT_P_FIRSTDATAKEY (sp_opaque p) < newoff).
Context (Hleaf : ABT_P_ISLEAF (sp_opaque p) = true) (Hrel : rel_ok rel) (Hcols : rd_cols rel <> []).

Abbreviation final_items := (final_items p newoff newsz item nposting newagg).
Abbreviation imaginary := (SplitLoc.imaginary p newoff newsz item).
Abbreviation newpos := (Z.to_nat (newoff - ABT_P_FIRSTDATAKEY (sp_opaque p))).

(** A leaf tuple of the size in its line pointer, whose key is aligned. *)
Definition sized_leaf (it : Z * index_tuple) : Prop :=
  exists t, snd it = LeafTup t /\ tuple_ok rel (LeafTup t) /\ it_size t = fst it /\ fst it mod 8 = 0 /\ key_size ai t mod 8 = 0 /\
    index_form_size (it_key t) <= key_size ai t.

(** Leaf items in the order of the index; the new item is not a posting list, and a posting
    list that is split keeps its layout. *)
Record leaf_items : Prop := {
  li_sized : Forall sized_leaf final_items;
  li_sorted : forall j k a b, (j < k)%nat -> final_items !! j = Some a -> final_items !! k = Some b -> tuple_before rel (snd a) (snd b);
  li_new : match item with LeafTup t => it_postingoff t = None | PivotTup _ => False end;
  li_posting : forall np, nposting = Some np -> exists len o n, imaginary !! (newpos - 1)%nat = Some (len, LeafTup o) /\ np = LeafTup n /\
    it_size n = it_size o /\ it_postingoff n = it_postingoff o
}.

Context (Hli : leaf_items) (Hform : forall n k, index_form_size (take n k) <= index_form_size k).

(** The original of an item has the same layout. *)
Lemma same_layout i it t : imaginary !! i = Some it -> final_items !! i = Some (fst it, LeafTup t) ->
  exists o, snd it = LeafTup o /\ it_size o = it_size t /\ it_postingoff o = it_postingoff t.
Proof.
  intros Hi Hf. rewrite (final_lookup _ _ _ _ _ _ i it Hi) in Hf. injection Hf as Hf. case_decide as Hs; [|exists t; by rewrite Hf].
  unfold prod_map, change_left in Hf. rewrite Hleaf in Hf. injection Hf as Hf. destruct nposting as [np|] eqn:Enp; [|exists t; by rewrite <- Hf].
  destruct (li_posting Hli np Enp) as (len & o & n & Ho & -> & Hsz & Hpo). replace (newpos - 1)%nat with i in Ho by lia. rewrite Hi in Ho. injection Ho as ->.
  injection Hf as <-. by exists o.
Qed.

(** The high key is no larger than the search for a split point has assumed. *)
Lemma high_key_space i it t tr_sz : imaginary !! i = Some it -> final_items !! i = Some (fst it, LeafTup t) -> tr_sz <= key_size ai t + 8 ->
  item_size tr_sz <= item_size (fst it) + MAXALIGN sizeof_ItemPointerData - saving ai p newoff item i it.
Proof.
  intros Hi Hf Htr. change (MAXALIGN sizeof_ItemPointerData) with 8.
  pose proof (li_sized Hli) as Hs. rewrite Forall_forall in Hs. destruct (Hs _ (list_elem_of_lookup_2 _ _ _ Hf)) as (t' & [= <-] & _ & Hsz & Hal & Hka & _).
  cbn [fst] in *. destruct (same_layout i it t Hi Hf) as (o & Eo & Hso & Hpo). destruct (sb_spaces _ _ _ _ _ Hsb) as (_ & _ & Hx).
  assert (Hm : MAXALIGN tr_sz <= key_size ai t + 8).
  { etrans; [apply MAXALIGN_mono, Htr|]. rewrite MAXALIGN_id; [lia|]. rewrite Z.add_mod, Hka by lia. done. }
  unfold item_size. rewrite (MAXALIGN_id (fst it) Hal). unfold saving. rewrite Hleaf. unfold key_size in *.
  destruct (decide (i = newpos)) as [->|Hne].
  - rewrite (imaginary_new _ _ _ _ _ Hsb) in Hi. injection Hi as <-. cbn [fst snd] in *. pose proof (li_new Hli) as Hn. rewrite Eo in Hn.
    rewrite <- Hpo, Hn in *. lia.
  - rewrite Eo. pose proof (imaginary_old _ _ _ _ _ Hsb i it Hi Hne) as Hit. unfold sp_item in Hit. case_match; [done|].
    apply list_elem_of_lookup_2 in Hit. destruct it as [len tt]. cbn [fst snd] in *. subst tt.
    pose proof (sb_posting _ _ _ _ _ Hsb len o) as Hb. rewrite Hpo in *. destruct (it_postingoff t) as [off|].
    + destruct (Hb off Hit eq_refl). case_match; lia.
    + case_match; lia.
Qed.

(** Items around the high key [hk] in order. *)
Lemma split_sides i len1 tl len2 tr hk : (0 < i)%nat -> final_items !! (i - 1)%nat = Some (len1, LeafTup tl) -> final_items !! i = Some (len2, LeafTup tr) ->
  tuple_upto rel (LeafTup tl) hk -> tuple_before rel hk (LeafTup tr) ->
  (forall x, x ∈ take i final_items -> tuple_upto rel (snd x) hk) /\ (forall x, x ∈ drop i final_items -> tuple_before rel hk (snd x)).
Proof.
  intros Hi0 Hl Hr Hup Hbe. pose proof (li_sized Hli) as Hsz. rewrite Forall_forall in Hsz.
  assert (Hok : forall k t len, final_items !! k = Some (len, LeafTup t) -> tuple_ok rel (LeafTup t)).
  { intros k t len Hk. by destruct (Hsz _ (list_elem_of_lookup_2 _ _ _ Hk)) as (t' & [= <-] & Hok & _). }
  split; intros x Hx.
  - apply elem_of_take in Hx as (k & Hk & Hki). destruct (Hsz x (list_elem_of_lookup_2 _ _ _ Hk)) as (tx & Ex & Hokx & _).
    destruct (decide (k = (i - 1)%nat)) as [->|Hne]; [rewrite Hl in Hk; by injection Hk as <-|].
    pose proof (li_sorted Hli k (i - 1) _ _ ltac:(lia) Hk Hl) as Hb. rewrite Ex in *. apply (upto_trans rel tx tl); eauto.
  - apply list_elem_of_lookup_1 in Hx as [k Hk]. rewrite lookup_drop in Hk.
    destruct (decide (k = 0%nat)) as [->|Hne]; [rewrite Nat.add_0_r, Hr in Hk; by injection Hk as <-|].
    pose proof (li_sorted Hli i (i + k) _ _ ltac:(lia) Hr Hk) as Hb. apply (before_trans rel _ tr); eauto.
Qed.

(** The high key made at a legal split point. *)
Lemma leaf_high_key itup_key i it : full_key rel itup_key -> (0 < i)%nat -> imaginary !! i = Some it ->
  exists hk, left_high_key rel ai index_form_size true itup_key (fst it, snd (default it (final_items !! i))) (snd <$> final_items !! (i - 1)%nat) = Some hk /\
    item_size (fst hk) <= item_size (fst it) + MAXALIGN sizeof_ItemPointerData - saving ai p newoff item i it /\
    (forall x, x ∈ take i final_items -> tuple_upto rel (snd x) (snd hk)) /\ (forall x, x ∈ drop i final_items -> tuple_before rel (snd hk) (snd x)).
Proof.
  intros Hkey Hi0 Hi. pose proof (lookup_lt_Some _ _ _ Hi) as Hlt. pose proof (final_length p newoff newsz item nposting newagg) as Hfl.
  destruct (lookup_lt_is_Some_2 final_items i) as [[len fr] Hfi]; [lia|].
  destruct (lookup_lt_is_Some_2 final_items (i - 1)) as [[lenl ll] Hfl1]; [lia|].
  assert (len = fst it) as ->.
  { pose proof (final_sizes p newoff newsz item nposting newagg) as Hs. apply (f_equal (.!! i)) in Hs. rewrite !list_lookup_fmap, Hi, Hfi in Hs. by injection Hs. }
  pose proof (li_sized Hli) as Hsz. rewrite Forall_forall in Hsz.
  destruct (Hsz _ (list_elem_of_lookup_2 _ _ _ Hfi)) as (tr & Etr & Hokr & _ & _ & _ & Hfs). destruct (Hsz _ (list_elem_of_lookup_2 _ _ _ Hfl1)) as (tl & Etl & Hokl & _).
  cbn [snd] in Etr, Etl. subst fr ll. pose proof (li_sorted Hli (i - 1) i _ _ ltac:(lia) Hfl1 Hfi) as Hbef. cbn [snd] in Hbef.
  destruct (truncate_between rel ai index_form_size tl tr itup_key Hrel Hcols Hkey Hokl Hokr Hbef) as (hk & Htrunc & Hhk & _ & Hup & Hbe).
  pose proof (truncate_size rel ai index_form_size tl tr itup_key hk Hrel Hcols Hkey Hokl Hokr Hbef Hform Hfs Htrunc) as Hhsz.
  rewrite Hfi, Hfl1. unfold left_high_key. cbn [default id snd fst fmap option_fmap option_map mbind option_bind]. rewrite Htrunc. eexists. split; [reflexivity|].
  split; [by apply (high_key_space i it tr)|]. by apply (split_sides i lenl tl (fst it) tr).
Qed.

(** C7: Splitting a leaf page.  The split succeeds; both pages get data items, which in
    order are the items of the page with the new one (the posting list it takes a TID from
    adjusted), none lost or doubled; every item of the left page is not behind its new
    high key and every item of the right page is; the right page keeps the old high key.
    The new page is linked between the page and its old right sibling, and the left page
    is marked incompletely split. *)
Theorem leaf_split_separates itup_key origblk rightblk cycleid sibling child : full_key rel itup_key ->
  (ABT_P_RIGHTMOST (sp_opaque p) = false -> exists s, sibling = Some s /\ abtpo_prev (sp_opaque s) = origblk) ->
  exists pages i hk,
    _abt_split rel ai index_form_size stale qsort leaffillfactor itup_key origblk rightblk cycleid p sibling child newoff newsz item nposting newagg = Done pages /\
    (0 < i < length final_items)%nat /\
    sp_items (sl_left pages) = hk :: take i final_items /\ sp_items (sl_right pages) = old_high_key p ++ drop i final_items /\
    (forall it, it ∈ take i final_items -> tuple_upto rel (snd it) (snd hk)) /\
    (forall it, it ∈ drop i final_items -> tuple_before rel (snd hk) (snd it)) /\
    abtpo_prev (sp_opaque (sl_left pages)) = abtpo_prev (sp_opaque p) /\ abtpo_next (sp_opaque (sl_left pages)) = rightblk /\
    abtpo_prev (sp_opaque (sl_right pages)) = origblk /\ abtpo_next (sp_opaque (sl_right pages)) = abtpo_next (sp_opaque p) /\
    (forall s, sl_sibling pages = Some s -> abtpo_prev (sp_opaque s) = rightblk) /\
    ABT_P_INCOMPLETE_SPLIT (sp_opaque (sl_left pages)) = true.
Proof.
  intros Hkey Hsib. destruct (findsplit_legal rel ai p newoff newsz item Hsb stale qsort leaffillfactor) as (i & it & (Hi0 & Hi & Hlr & Hrr) & Hfind).
  pose proof (lookup_lt_Some _ _ _ Hi) as Hlt. pose proof (imaginary_length _ _ _ _ _ Hsb) as Hil.
  pose proof (final_length p newoff newsz item nposting newagg) as Hfl. destruct (leaf_high_key itup_key i it Hkey Hi0 Hi) as (hk & Hhk & Hspace & Hsepl & Hsepr).
  destruct (final_sums p newoff newsz item nposting newagg i) as [Hsl Hsr]. unfold left_room in Hlr. unfold right_room in Hrr. rewrite Hleaf in Hlr, Hrr.
  destruct (old_high_key_space ai p newoff newsz item Hsb) as [Hohk Hhik].
  pose proof (final_nonneg ai p newoff newsz item nposting newagg Hsb) as Hpos.
  pose proof (sizes_nonneg _ (Forall_take _ i _ Hpos)) as Htn. pose proof (sizes_nonneg _ (Forall_drop _ i _ Hpos)) as Hdn.
  unfold _abt_split. rewrite Hfind. cbn [need ibind]. rewrite (first_right_item ai p newoff newsz item nposting newagg Hsb Hpost i it Hi), Hleaf.
  cbn [need ibind]. rewrite (last_left_item ai p newoff newsz item nposting newagg Hsb Hpost i Hleaf) by lia. rewrite Hhk.
  cbn [need ibind]. rewrite add_first by lia. cbn [need ibind]. rewrite (right_start ai p newoff newsz item Hsb). cbn [need ibind].
  match goal with |- context [distribute ai ?pl _ _ (?l, ?r)] => assert (Hpl : pl = split_plan p newoff newsz item nposting newagg i 0) by
    (unfold split_plan; by rewrite Hleaf); rewrite Hpl; rewrite (distribute_leaf ai p newoff newsz item nposting newagg Hsb Hpost i l r) end.
  2: lia.
  2: { rewrite fmap_app, sumZ_app. cbn [sp_items fmap list_fmap sumZ]. unfold compose at 1. cbn [fst]. lia. }
  2: { rewrite fmap_app, sumZ_app. cbn [sp_items]. lia. }
  cbn [ibind]. assert (Hinc : forall o, ABT_P_INCOMPLETE_SPLIT (mk_opaque (abtpo_prev (sp_opaque p)) rightblk (abtpo_level (sp_opaque p))
    (Z.lor (split_flags (abtpo_flags (sp_opaque p))) ABTP_INCOMPLETE_SPLIT) o) = true).
  { intros o. unfold ABT_P_INCOMPLETE_SPLIT, has_flag. cbn [abtpo_flags]. change ABTP_INCOMPLETE_SPLIT with (2 ^ 7). rewrite bit_test by lia. by apply lor_bit. }
  destruct (ABT_P_RIGHTMOST (sp_opaque p)) eqn:Er; cbn [ibind].
  - eexists _, i, hk. split; [reflexivity|]. destruct hk. cbn [sl_left sl_right sl_sibling with_items sp_items sp_opaque app fst snd] in *. split_and!; try done; lia.
  - destruct (Hsib eq_refl) as (sib & -> & Hprev). cbn [need ibind]. rewrite Hprev, Z.eqb_refl. cbn [negb ibind].
    eexists _, i, hk. split; [reflexivity|]. destruct hk. cbn [sl_left sl_right sl_sibling with_items sp_items sp_opaque app fst snd abtpo_prev abtpo_next] in *.
    split_and!; try done; try lia. by intros x [= <-].
Qed.

End LeafSplit.

(** ** Splitting an internal page *)

Section InternalSplit.
Context (rel : index_rel) (ai : agg_info) (index_form_size : list (option Z) -> Z).
Context (stale : index_tuple -> nat -> option Z) (qsort : list ABTSplitPoint -> list ABTSplitPoint) `{!SplitSort qsort} (leaffillfactor : Z).
Context (p : spage) (newoff newsz : Z) (item : index_tuple) (newagg : Z).
Context (Hsb : splittable ai p newoff newsz item) (Hinner : ABT_P_ISLEAF (sp_opaque p) = false).
Context (Hal : extra_space_when_tid_present ai mod 8 = 0 /\ extra_space_when_tid_missing ai mod 8 = 0).

Abbreviation final_items := (final_items p newoff newsz item None newagg).
Abbreviation imaginary := (SplitLoc.imaginary p newoff newsz item).

Definition is_pivot (it : Z * index_tuple) : Prop := fst it mod 8 = 0 /\ exists pv, snd it = PivotTup pv.

Context (Hpiv : Forall is_pivot imaginary).

Definition downlink_of (it : Z * index_tuple) : Z := match snd it with PivotTup pv => pv_downlink pv | LeafTup _ => 0 end.
Definition agg_of (it : Z * index_tuple) : Z := match snd it with PivotTup pv => pv_agg pv | LeafTup _ => 0 end.

Definition minus_infinity_item (pv : pivot) : Z * index_tuple :=
  (MAXALIGN sizeof_IndexTupleData + extra_space_when_tid_missing ai,
   PivotTup (mk_pivot [] None (pv_downlink pv) (pv_agg pv) ABT_INVALID_LAST_UPDATE_ID)).

Lemma no_posting : is_Some (@None index_tuple) -> ABT_P_ISLEAF (sp_opaque p) = true /\ ABT_P_FIRSTDATAKEY (sp_opaque p) < newoff.
Proof. by intros [? ?]. Qed.

Lemma minus_infinity_space pv : item_size (fst (minus_infinity_item pv)) = minus_infinity_size ai.
Proof.
  unfold item_size, minus_infinity_item, minus_infinity_size. cbn [fst]. change (MAXALIGN sizeof_IndexTupleData) with 8.
  rewrite MAXALIGN_id; [done|]. rewrite Z.add_mod, (proj2 Hal) by lia. done.
Qed.

Lemma purge_space i it pv : imaginary !! i = Some it -> snd it = PivotTup pv ->
  exists sz, purge_agg_space ai (fst it) (snd it) = Some (sz, PivotTup (mk_pivot (pv_key pv) (pv_tid pv) (pv_downlink pv) 0 0)) /\
    item_size sz <= item_size (fst it) - saving ai p newoff item i it.
Proof.
  intros Hi Epv. rewrite Epv. eexists. split; [reflexivity|]. rewrite Forall_forall in Hpiv.
  destruct (Hpiv it (list_elem_of_lookup_2 _ _ _ Hi)) as [Hl _]. destruct Hal as [Hp Hm].
  unfold saving. rewrite Hinner. unfold item_size. change (MAXALIGN sizeof_ItemPointerData) with 8. rewrite (MAXALIGN_id (fst it) Hl).
  case_decide as Hn.
  - rewrite Hn, (imaginary_new _ _ _ _ _ Hsb) in Hi. injection Hi as <-. cbn [fst snd] in *. subst item. unfold has_tid. cbn [ABTreeTupleGetHeapTID].
    destruct (pv_tid pv); rewrite !MAXALIGN_eq; unfold sizeof_ItemPointerData; Z.div_mod_to_equations; lia.
  - destruct (pv_tid pv); rewrite !MAXALIGN_eq; unfold sizeof_ItemPointerData; Z.div_mod_to_equations; lia.
Qed.

Lemma distribute_inner i lp rp len fr : (i <= length (drop (Z.to_nat (ABT_P_FIRSTDATAKEY (sp_opaque p) - 1)) (sp_items p)))%nat ->
  final_items !! i = Some (len, PivotTup fr) ->
  sumZ (item_size ∘ fst <$> sp_items lp ++ take i final_items) <= page_room ->
  sumZ (item_size ∘ fst <$> sp_items rp) + item_size (fst (minus_infinity_item fr)) + sumZ (item_size ∘ fst <$> drop (S i) final_items) <= page_room ->
  distribute ai (split_plan p newoff newsz item None newagg i (sp_maxoff rp + 1))
      (drop (Z.to_nat (ABT_P_FIRSTDATAKEY (sp_opaque p) - 1)) (sp_items p)) (ABT_P_FIRSTDATAKEY (sp_opaque p)) (lp, rp) =
    Done (with_items lp (sp_items lp ++ take i final_items), with_items rp (sp_items rp ++ minus_infinity_item fr :: drop (S i) final_items)).
Proof.
  intros Hi Hf Hl Hr. apply distribute_place. rewrite (placed_all ai p newoff newsz item None newagg Hsb no_posting i _ Hi), place_all_app.
  pose proof (final_nonneg ai p newoff newsz item None newagg Hsb) as Hn. rewrite (place_left ai _ (take i final_items) (sp_items lp)); [|done|done|by apply Forall_take].
  cbn [mbind option_bind]. rewrite (drop_S _ _ _ Hf). cbn [fmap list_fmap place_all fst snd]. cbn [split_plan pl_minusinfoff]. rewrite Z.eqb_refl.
  pose proof (sizes_nonneg _ (Forall_drop _ (S i) _ Hn)) as Hdn.
  unfold _abt_pgaddtup. cbn [minus_infinity mbind option_bind]. fold (split_plan p newoff newsz item None newagg i (sp_maxoff rp + 1)).
  rewrite add_item by (unfold minus_infinity_item in Hr; cbn [fst] in Hr; lia). cbn [mbind option_bind].
  change (list_fmap _ _ (false,.) (drop (S i) final_items)) with ((false,.) <$> drop (S i) final_items).
  rewrite (place_right ai _ (drop (S i) final_items) (sp_items rp ++ [minus_infinity_item fr])); [|done| |by apply Forall_drop|].
  - unfold with_items. cbn [sp_opaque sp_cycleid]. by rewrite <- app_assoc.
  - rewrite !fmap_app, !sumZ_app. cbn [fmap list_fmap sumZ]. unfold compose at 2. lia.
  - cbn [split_plan pl_minusinfoff]. unfold sp_maxoff. rewrite length_app. simpl. lia.
Qed.

Lemma final_pivot i it pv : imaginary !! i = Some it -> snd it = PivotTup pv ->
  exists fr, final_items !! i = Some (fst it, PivotTup fr) /\ pv_key fr = pv_key pv /\ pv_tid fr = pv_tid pv /\ pv_downlink fr = pv_downlink pv.
Proof.
  intros Hi Epv. rewrite (final_lookup p newoff newsz item None newagg i it Hi). destruct it as [len t]. cbn [fst snd] in *. subst t.
  case_decide; [|by exists pv]. unfold prod_map, change_left. rewrite Hinner. cbn [fst snd set_agg id]. by eexists.
Qed.

(** C16: Splitting an internal page.  The split succeeds; the left page gets the items
    before the split point and the right page those behind it, the first of them without
    its key; that key without the aggregate is the left page's high key.  Downlinks and
    aggregates are those of the page with the new item and the updated aggregate of its
    left neighbour, so their sum is kept, and the child's split is marked complete. *)
Theorem internal_split_keeps_aggregates itup_key origblk rightblk cycleid sibling child :
  (ABT_P_RIGHTMOST (sp_opaque p) = false -> exists s, sibling = Some s /\ abtpo_prev (sp_opaque s) = origblk) -> is_Some child ->
  exists pages i len fr sz,
    _abt_split rel ai index_form_size stale qsort leaffillfactor itup_key origblk rightblk cycleid p sibling child newoff newsz item None newagg = Done pages /\
    (0 < i < length final_items)%nat /\ final_items !! i = Some (len, PivotTup fr) /\
    sp_items (sl_left pages) = (sz, PivotTup (mk_pivot (pv_key fr) (pv_tid fr) (pv_downlink fr) 0 0)) :: take i final_items /\
    sp_items (sl_right pages) = old_high_key p ++ minus_infinity_item fr :: drop (S i) final_items /\
    (let data := take i final_items ++ minus_infinity_item fr :: drop (S i) final_items in
     downlink_of <$> data = downlink_of <$> final_items /\ agg_of <$> data = agg_of <$> final_items) /\
    (exists c, sl_child pages = Some c /\ ABT_P_INCOMPLETE_SPLIT (sp_opaque c) = false).
Proof.
  intros Hsib [c ->]. destruct (findsplit_legal rel ai p newoff newsz item Hsb stale qsort leaffillfactor) as (i & it & (Hi0 & Hi & Hlr & Hrr) & Hfind).
  pose proof (lookup_lt_Some _ _ _ Hi) as Hlt. pose proof (imaginary_length _ _ _ _ _ Hsb) as Hil.
  pose proof (final_length p newoff newsz item None newagg) as Hfl.
  assert (Hpv : exists pv, snd it = PivotTup pv) by (rewrite Forall_forall in Hpiv; apply (Hpiv it (list_elem_of_lookup_2 _ _ _ Hi))).
  destruct Hpv as [pv Epv]. destruct (final_pivot i it pv Hi Epv) as (fr & Hfr & Hk & Ht & Hd). destruct (purge_space i it pv Hi Epv) as (sz & Hpurge & Hspace).
  destruct (final_sums p newoff newsz item None newagg i) as [Hsl Hsr]. unfold left_room in Hlr. unfold right_room in Hrr. rewrite Hinner in Hlr, Hrr.
  destruct (old_high_key_space ai p newoff newsz item Hsb) as [Hohk Hhik].
  pose proof (sizes_nonneg _ (Forall_take _ i _ (final_nonneg ai p newoff newsz item None newagg Hsb))) as Htn.
  pose proof (minus_infinity_space fr) as Hmi. rewrite (drop_S _ _ _ Hfr) in Hsr. cbn [fmap list_fmap sumZ] in Hsr.
  change (list_fmap _ _ (item_size ∘ fst) (drop (S i) final_items)) with (item_size ∘ fst <$> drop (S i) final_items) in Hsr. unfold compose in Hsr at 1. cbn [fst] in Hsr.
  unfold _abt_split. rewrite Hfind. cbn [need ibind]. pose proof (first_right_item ai p newoff newsz item None newagg Hsb no_posting i it Hi) as Hfri.
  rewrite Hinner in Hfri. rewrite Hfri, Hinner. cbn [need ibind left_high_key fst snd]. rewrite Hpurge. cbn [need ibind fst snd].
  rewrite add_first by lia. cbn [need ibind]. rewrite (right_start ai p newoff newsz item Hsb). cbn [need ibind].
  match goal with |- context [distribute ai ?pl _ _ (?l, ?r)] => assert (Hpl : pl = split_plan p newoff newsz item None newagg i (sp_maxoff r + 1)) by
    (unfold split_plan; by rewrite Hinner); rewrite Hpl; rewrite (distribute_inner i l r (fst it) fr); try done end.
  2: lia.
  2: { rewrite fmap_app, sumZ_app. cbn [sp_items fmap list_fmap sumZ]. unfold compose at 1. cbn [fst]. lia. }
  2: { cbn [sp_items]. lia. }
  cbn [ibind].
  assert (Hdata : let data := take i final_items ++ minus_infinity_item fr :: drop (S i) final_items in
     downlink_of <$> data = downlink_of <$> final_items /\ agg_of <$> data = agg_of <$> final_items).
  { cbv zeta. rewrite <- (take_drop_middle final_items i _ Hfr) at 3 6. by rewrite !fmap_app, !fmap_cons. }
  assert (Hinc : forall a b e f, ABT_P_INCOMPLETE_SPLIT (mk_opaque a b e (Z.land (abtpo_flags (sp_opaque c)) (Z.lnot ABTP_INCOMPLETE_SPLIT)) f) = false).
  { intros. unfold ABT_P_INCOMPLETE_SPLIT, has_flag. cbn [abtpo_flags]. rewrite <- Z.land_assoc, (Z.land_comm (Z.lnot _)), Z.land_lnot_diag. by rewrite Z.land_0_r. }
  rewrite <- Hk, <- Ht, <- Hd. destruct (ABT_P_RIGHTMOST (sp_opaque p)) eqn:Er; cbn [ibind].
  - eexists _, i, (fst it), fr, sz. split; [reflexivity|]. cbn [sl_left sl_right sl_child with_items sp_items app]. split_and!; try done; try lia; [apply Hdata|apply Hdata|eexists; split; [reflexivity|apply Hinc]].
  - destruct (Hsib eq_refl) as (sib & -> & Hprev). cbn [need ibind]. rewrite Hprev, Z.eqb_refl. cbn [negb ibind].
    eexists _, i, (fst it), fr, sz. split; [reflexivity|]. cbn [sl_left sl_right sl_child with_items sp_items app]. split_and!; try done; try lia; [apply Hdata|apply Hdata|eexists; split; [reflexivity|apply Hinc]].
Qed.

End InternalSplit.

(** ** Inserting on a leaf page that has room *)

Section OnPage.
Context (rel : index_rel) (ai : agg_info) (index_form_size : list (option Z) -> Z).
Context (stale : index_tuple -> nat -> option Z) (qsort : list ABTSplitPoint -> list ABTSplitPoint) (leaffillfactor : Z).

(** The page as the search sees it. *)
Definition page_of (p : spage) : page := mk_pg ((false,.) ∘ snd <$> sp_items p) (sp_opaque p).

Lemma page_of_max p : PageGetMaxOffsetNumber (page_of p) = sp_maxoff p.
Proof. unfold PageGetMaxOffsetNumber, sp_maxoff. cbn. by rewrite length_fmap. Qed.

Lemma page_of_data p : data_items (page_of p) = snd <$> drop (Z.to_nat (ABT_P_FIRSTDATAKEY (sp_opaque p) - 1)) (sp_items p).
Proof. unfold data_items, page_of. cbn [pg_lines]. rewrite <- list_fmap_compose, fmap_drop. done. Qed.

(** The insertion key of a leaf tuple. *)
Definition key_of (key : ABTScanInsertData) (new : itup) (tid : tid) : Prop :=
  key_ok rel key (take (length (rd_cols rel)) (it_key new)) /\ keysz key = indnkeyatts rel /\ scantid key = Some tid /\ nextkey key = false /\
  it_tids new = [tid] /\ it_postingoff new = None.

Lemma keycmp_lexcmp cols k1 k2 : (length cols <= length k1)%nat -> keycmp (length cols) cols (take (length cols) k1) k2 = lexcmp cols k1 k2 \/ (length k2 < length cols)%nat.
Proof.
  revert k1 k2. induction cols as [|c cols IH]; intros k1 k2 Hl; [by left|]. destruct k1 as [|x k1]; [simpl in Hl; lia|].
  destruct k2 as [|y k2]; [right; simpl; lia|]. simpl in Hl |- *. destruct (IH k1 k2 ltac:(lia)) as [->|Hlt]; [by left|right; lia].
Qed.

(** The search's comparison is the order of the index. *)
Lemma compare_order key new tid t c : rel_ok rel -> key_of key new tid -> tuple_ok rel (LeafTup new) -> tuple_ok rel (LeafTup t) ->
  compare_tuple (rd_natts rel) key (LeafTup t) = Some c ->
  (0 < c -> tuple_before rel (LeafTup t) (LeafTup new)) /\ (c < 0 -> tuple_before rel (LeafTup new) (LeafTup t)).
Proof.
  intros Hrel (Hk & Hks & Hst & _ & Htid & Hpo) Hnew Ht Hc. rewrite (compare_tuple_eq rel key _ _ Hrel Hk Ht), Hks in Hc. apply (inj Some) in Hc.
  unfold indnkeyatts in Hc. rewrite Nat2Z.id in Hc. cbn [tuple_key] in Hc. pose proof (rel_natts rel Hrel) as Hn. unfold indnkeyatts in Hn.
  pose proof (proj1 Hnew) as Hln. pose proof (proj1 Ht) as Hlt.
  destruct (keycmp_lexcmp (rd_cols rel) (it_key new) (it_key t) ltac:(lia)) as [E|]; [|lia]. rewrite E in Hc. clear E.
  pose proof (lexcmp_sym (rd_cols rel) (it_key new) (it_key t) (rel_cols rel Hrel)) as Hsym.
  pose proof (lexcmp_sym (rd_cols rel) (it_key t) (it_key new) (rel_cols rel Hrel)) as Hsym'.
  unfold tuple_before, tid_before. cbn [tuple_key ABTreeTupleGetMaxHeapTID ABTreeTupleGetHeapTID]. unfold is_posting. rewrite Hpo, Htid. cbn [head].
  destruct (Z.eqb_spec (lexcmp (rd_cols rel) (it_key new) (it_key t)) 0) as [E|E]; [|split; intros; left; lia].
  unfold tie in Hc. rewrite Hst in Hc. destruct Ht as (_ & lo & hi & Hlo & Hhi & Hle). cbn [ABTreeTupleGetHeapTID ABTreeTupleGetMaxHeapTID ABTreeTupleIsPosting] in Hc.
  rewrite Hlo in *. unfold is_posting in *. pose proof (ItemPointerCompare_sym tid lo). pose proof (ItemPointerCompare_sym lo tid).
  destruct (it_postingoff t).
  - rewrite Hhi in *. cbn [default negb orb] in Hc. pose proof (ItemPointerCompare_sym tid hi). pose proof (ItemPointerCompare_sym hi tid).
    split; intros Hcc; right; (split; [lia|]); repeat case_match; zbool; simpl in *; lia.
  - cbn [negb] in Hc. rewrite orb_true_r in Hc. split; intros Hcc; right; (split; [lia|]); lia.
Qed.

(** Each item of a leaf is on the side of the new tuple that the search's test says. *)
Lemma data_side key new tid pg k t b : rel_ok rel -> page_ok rel pg -> key_of key new tid -> tuple_ok rel (LeafTup new) -> Search.is_leaf pg = true ->
  Forall (fun t => exists t', t = LeafTup t' /\ compare_tuple (rd_natts rel) key t <> Some 0) (data_items pg) ->
  data_items pg !! k = Some t -> goes_right rel key pg (first_off pg + Z.of_nat k) = Some b ->
  if b then tuple_before rel t (LeafTup new) else tuple_before rel (LeafTup new) t.
Proof.
  intros Hrel Hp Hkey Hnew Hleaf Hne Hk Hb. rewrite Forall_forall in Hne. destruct (Hne t (list_elem_of_lookup_2 _ _ _ Hk)) as (t' & -> & Hc).
  assert (Hnx : nextkey key = false) by apply Hkey. apply (goes_right_cmp rel pg key Hnx) in Hb as (r & Hr & ->).
  unfold _abt_compare in Hr. fold (first_off pg) (Search.is_leaf pg) in Hr. rewrite Hleaf in Hr. cbn [negb andb] in Hr.
  rewrite PageGetItem_data in Hr by lia. replace (Z.to_nat _) with k in Hr by lia. rewrite Hk in Hr. cbn [mbind option_bind] in Hr.
  assert (Hok : tuple_ok rel (LeafTup t')).
  { apply (pk_tuples rel pg Hp (first_off pg + Z.of_nat k)); [lia|]. rewrite PageGetItem_data by lia. rewrite <- Hk. f_equal. lia. }
  destruct (compare_order key new tid t' r Hrel Hkey Hnew Hok Hr) as [H1 H2].
  assert (r <> 0) by congruence. destruct (Z.leb_spec 1 r); [apply H1|apply H2]; lia.
Qed.

(** The items of a sound leaf. *)
Lemma sound_leaf_items pg : page_ok rel pg -> Search.is_leaf pg = true -> Forall (tuple_ok rel) (data_items pg) /\ StronglySorted (tuple_before rel) (data_items pg).
Proof.
  intros Hp Hleaf. split.
  - apply Forall_lookup. intros k t Hk. apply (pk_tuples rel pg Hp (first_off pg + Z.of_nat k)); [lia|]. rewrite PageGetItem_data by lia. rewrite <- Hk. f_equal. lia.
  - apply StronglySorted_intro. intros i j x y Hij Hi Hj. apply (pk_sorted rel pg Hp (first_off pg + Z.of_nat i) (first_off pg + Z.of_nat j)); [lia|congruence|..];
      rewrite PageGetItem_data by lia; [rewrite <- Hi|rewrite <- Hj]; f_equal; lia.
Qed.

(** The page with an item inserted at an offset: the other items with their sizes, the
    special space and the cycle id are those of the page. *)
Definition insert_item (p : spage) (off size : Z) (t : index_tuple) : spage :=
  mk_spage (take (Z.to_nat (off - 1)) (sp_items p) ++ (size, t) :: drop (Z.to_nat (off - 1)) (sp_items p)) (sp_opaque p) (sp_cycleid p).

(** C26: Inserting a plain tuple at the offset that the binary search gives, on a leaf page
    that has room for it, that is not incompletely split, that holds no tuple equal to it
    and no posting list that must be split for it (postingoff 0).  The page gets the new
    item at that offset, which is not before its first data item, and nothing else of it
    changes: the other items (a high key included) and their sizes, the links, the flags,
    the level and the update id in the special space.  No other page and not the meta page
    is written, the items still fit, and the page is in order again. *)
Theorem insertonpg_keeps_order key new tid p newsz newoff blkno rightblk cycleid sibling child meta newagg :
  rel_ok rel -> key_of key new tid -> tuple_ok rel (LeafTup new) -> ABT_P_ISLEAF (sp_opaque p) = true -> ABT_P_INCOMPLETE_SPLIT (sp_opaque p) = false ->
  page_ok rel (page_of p) -> sp_maxoff p + 1 < 2 ^ 16 - 1 -> ABT_P_FIRSTDATAKEY (sp_opaque p) <= sp_maxoff p + 1 ->
  Forall (fun t => exists t', t = LeafTup t' /\ compare_tuple (rd_natts rel) key t <> Some 0) (data_items (page_of p)) ->
  _abt_binsrch rel key (page_of p) = Some newoff -> MAXALIGN newsz = newsz -> 0 < newsz <= PageGetFreeSpace p ->
  let p' := insert_item p newoff newsz (LeafTup new) in
  _abt_insertonpg rel ai index_form_size stale qsort leaffillfactor key blkno rightblk cycleid p sibling child meta (LeafTup new) newsz newoff 0 false newagg = Done (OnPage p' None None) /\
  ABT_P_FIRSTDATAKEY (sp_opaque p) <= newoff <= sp_maxoff p + 1 /\
  data_items (page_of p') = take (Z.to_nat (newoff - ABT_P_FIRSTDATAKEY (sp_opaque p))) (data_items (page_of p)) ++
      LeafTup new :: drop (Z.to_nat (newoff - ABT_P_FIRSTDATAKEY (sp_opaque p))) (data_items (page_of p)) /\
  sumZ (item_size ∘ fst <$> sp_items p') <= page_room /\ page_ok rel (page_of p').
Proof.
  intros Hrel Hkey Hnew Hleaf Hinc Hp Hmax Hfirst Hne Hb Hal Hfree p'.
  destruct (page_splits rel Hrel (page_of p) key _ Hp (proj1 Hkey)) as [q Hs]. rewrite (binsrch_splits rel _ key q Hp Hs) in Hb.
  change (Search.is_leaf (page_of p)) with (ABT_P_ISLEAF (sp_opaque p)) in Hb. rewrite Hleaf in Hb. injection Hb as ->.
  change (first_off (page_of p)) with (ABT_P_FIRSTDATAKEY (sp_opaque p)) in Hs. rewrite page_of_max, Z.max_r in Hs by lia. destruct Hs as (Hq & Hright & Hleft).
  pose proof (first_range p) as Hf. set (first := ABT_P_FIRSTDATAKEY (sp_opaque p)) in *.
  assert (Hroom : sumZ (item_size ∘ fst <$> sp_items p) + item_size newsz <= page_room).
  { unfold PageGetFreeSpace in Hfree. unfold item_size at 2. rewrite Hal. destruct (Z.ltb_spec (page_room - sumZ (item_size ∘ fst <$> sp_items p)) sizeof_ItemIdData); lia. }
  unfold _abt_insertonpg. rewrite Hinc. cbn [Z.eqb ibind]. rewrite (proj2 (Z.ltb_ge _ _)), Hleaf by lia.
  unfold PageAddItem. rewrite (proj2 (Z.ltb_ge newoff 1)), (proj2 (Z.ltb_ge (_ + 1) _)), (proj2 (Z.ltb_ge page_room _)) by lia. cbn [orb need ibind andb].
  split; [reflexivity|]. split; [done|]. set (n := Z.to_nat (newoff - first)).
  change (first_off (page_of p)) with first in *. destruct (sound_leaf_items (page_of p) Hp Hleaf) as [Hoks Hsorted].
  assert (Hlen : sp_maxoff p = Z.of_nat (length (sp_items p))) by done. assert (Hdata : data_items (page_of p') = take n (data_items (page_of p)) ++ LeafTup new :: drop n (data_items (page_of p))).
  { rewrite !page_of_data. fold first. change (ABT_P_FIRSTDATAKEY (sp_opaque p')) with first. unfold p', insert_item. cbn [sp_items].
    rewrite drop_app_le by (rewrite length_take; lia). rewrite fmap_app, fmap_cons, !fmap_drop, !fmap_take, drop_drop, skipn_firstn_comm. cbn [snd]. unfold n.
    f_equal; [f_equal; lia|do 2 f_equal; lia]. }
  split; [exact Hdata|]. split.
  { unfold p', insert_item. cbn [sp_items]. rewrite fmap_app, fmap_cons, sumZ_app. cbn [sumZ]. unfold compose at 2. cbn [fst].
    rewrite <- (take_drop (Z.to_nat (newoff - 1)) (sp_items p)), fmap_app, sumZ_app in Hroom. lia. }
  apply page_ok_intro.
  - rewrite page_of_max. unfold sp_maxoff, p', insert_item in *. cbn [sp_items]. rewrite length_app. cbn [length]. rewrite length_take, length_drop. lia.
  - rewrite Hdata. apply Forall_app; split; [by apply Forall_take|]. constructor; [done|by apply Forall_drop].
  - change (Search.is_leaf (page_of p')) with (ABT_P_ISLEAF (sp_opaque p)). rewrite Hleaf, Hdata. apply StronglySorted_insert; [done|..].
    + intros y Hy. apply elem_of_take in Hy as (k & Hk & Hkn). apply (data_side key new tid (page_of p) k y true); try done.
      apply Hright. change (first_off (page_of p)) with first. lia.
    + intros y Hy. apply list_elem_of_lookup_1 in Hy as [k Hk]. rewrite lookup_drop in Hk. apply (data_side key new tid (page_of p) (n + k) y false); try done.
      apply Hleft. change (first_off (page_of p)) with first. apply lookup_lt_Some in Hk. rewrite page_of_data, length_fmap, length_drop in Hk. fold first in Hk. lia.
  - change (Search.is_leaf (page_of p')) with (ABT_P_ISLEAF (sp_opaque p)). by rewrite Hleaf.
Qed.

End OnPage.

(** ** Update ids *)

(** The id of the last update skips the invalid id only before the highest id: the test of
    the wrap-around is made before the result is cut to 16 bits. *)
Theorem advance_reaches_invalid : ABTAdvanceLastUpdateId (2 ^ 16 - 1) = ABT_INVALID_LAST_UPDATE_ID /\
  forall id, 0 <= id < 2 ^ 16 - 1 -> ABTAdvanceLastUpdateId id = id + 1.
Proof.
  split; [done|]. intros id Hid. unfold ABTAdvanceLastUpdateId. rewrite (proj2 (Z.eqb_neq _ _)) by lia. unfold u16. apply Z.mod_small. lia.
Qed.

Lemma pgaddtup_opaque ai p size t off f p' : _abt_pgaddtup ai p size t off f = Some p' -> sp_opaque p' = sp_opaque p.
Proof.
  unfold _abt_pgaddtup, PageAddItem. destruct f; [destruct (minus_infinity t); [|done]|]; cbn [mbind option_bind]; repeat case_match; intros ?; simplify_eq; done.
Qed.

Lemma add_left_opaque ai e size t pages pages' : add_left ai e size t pages = Done pages' ->
  sp_opaque (fst pages') = sp_opaque (fst pages) /\ sp_opaque (snd pages') = sp_opaque (snd pages).
Proof.
  unfold add_left. destruct (_abt_pgaddtup ai _ _ _ _ _) as [l|] eqn:E; [|done]. intros [= <-]. split; [|done]. by apply pgaddtup_opaque in E.
Qed.

Lemma add_right_opaque ai pl e size t pages pages' : add_right ai pl e size t pages = Done pages' ->
  sp_opaque (fst pages') = sp_opaque (fst pages) /\ sp_opaque (snd pages') = sp_opaque (snd pages).
Proof.
  unfold add_right. destruct (_abt_pgaddtup ai _ _ _ _ _) as [l|] eqn:E; [|done]. intros [= <-]. split; [done|]. by apply pgaddtup_opaque in E.
Qed.

Lemma distribute_opaque ai pl items i pages pages' : distribute ai pl items i pages = Done pages' ->
  sp_opaque (fst pages') = sp_opaque (fst pages) /\ sp_opaque (snd pages') = sp_opaque (snd pages).
Proof.
  revert i pages. induction items as [|[size t] items IH]; intros i pages; cbn [distribute].
  { destruct (i <=? pl_newitemoff pl); [apply add_right_opaque|by intros [= <-]]. }
  destruct (if i =? pl_postingoff pl then _ else _) as [q|] eqn:E1; [|done]. cbn [ibind]. destruct (if i <? pl_firstrightoff pl then _ else _) as [r|] eqn:E2; [|done].
  cbn [ibind]. intros H. apply IH in H as [-> ->].
  assert (H2 : sp_opaque (fst r) = sp_opaque (fst q) /\ sp_opaque (snd r) = sp_opaque (snd q)).
  { destruct (i <? pl_firstrightoff pl); [by apply add_left_opaque in E2|by apply add_right_opaque in E2]. }
  destruct H2 as [-> ->]. destruct (i =? pl_postingoff pl); [by injection E1 as <-|]. destruct (i =? pl_newitemoff pl); [|by injection E1 as <-].
  unfold add_new in E1. destruct (pl_newitemonleft pl); [by apply add_left_opaque in E1|by apply add_right_opaque in E1].
Qed.

Lemma ibind_Done {A B} (m : ires A) (f : A -> ires B) b : ibind m f = Done b -> exists a, m = Done a /\ f a = Done b.
Proof. destruct m as [a|]; [by exists a|done]. Qed.

(** The split of an internal page starts the update id of the page anew, whatever it was:
    the id advanced is the one of the page's blank replacement. *)
Theorem split_restarts_update_id rel ai ifs stale qsort ff key origblk rightblk cycleid p sibling child newoff newsz item nposting newagg pages :
  ABT_P_ISLEAF (sp_opaque p) = false ->
  _abt_split rel ai ifs stale qsort ff key origblk rightblk cycleid p sibling child newoff newsz item nposting newagg = Done pages ->
  abtpo_last_update_id (sp_opaque (sl_left pages)) = ABT_MIN_LAST_UPDATE_ID.
Proof.
  intros Hinner. unfold _abt_split. rewrite Hinner. intros H.
  apply ibind_Done in H as (sp & _ & H). destruct sp as [off onleft|]; [|done]. apply ibind_Done in H as (fr & _ & H). apply ibind_Done in H as (hk & _ & H).
  apply ibind_Done in H as (l & Hl & H). apply ibind_Done in H as (r & _ & H). apply ibind_Done in H as ([l' r'] & Hd & H).
  apply distribute_opaque in Hd as [Ho _]. cbn [fst] in Ho. apply ibind_Done in H as ([sib r2] & _ & H). apply ibind_Done in H as (c & _ & H). injection H as <-.
  cbn [sl_left]. rewrite Ho. unfold PageAddItem in Hl. destruct (_ || _); [done|]. destruct (page_room <? _); [done|]. by injection Hl as <-.
Qed.

(** ** Witnesses *)

Lemma demo_form_mono n k : demo_form_size (take n k) <= demo_form_size k.
Proof. unfold demo_form_size. rewrite !MAXALIGN_eq, length_take. Z.div_mod_to_equations. lia. Qed.

Lemma demo_full_key : full_key demo_rel (demo_key 0 None).
Proof. split; [done|]. by exists [Some 0]. Qed.

Lemma big_sized k t : sized_leaf demo_rel trunc_ai demo_form_size (big k t).
Proof.
  eexists. split; [reflexivity|]. split; [split; [done|]; exists t, t; split; [done|]; split; [done|]; pose proof (ItemPointerCompare_sym t t); lia|].
  split; [done|]. split; [done|]. split; [by vm_compute|]. by vm_compute.
Qed.

Lemma full_page_items : leaf_items demo_rel trunc_ai demo_form_size full_page 3 2600 (snd (big 25 (mk_tid 0 4))) None 0.
Proof.
  split; [..|done|done].
  - change (Forall (sized_leaf demo_rel trunc_ai demo_form_size) [big 10 (mk_tid 0 1); big 20 (mk_tid 0 2); big 25 (mk_tid 0 4); big 30 (mk_tid 0 3)]).
    repeat (apply Forall_cons; split; [apply big_sized|]). constructor.
  - change (final_items _ _ _ _ _ _) with [big 10 (mk_tid 0 1); big 20 (mk_tid 0 2); big 25 (mk_tid 0 4); big 30 (mk_tid 0 3)].
    intros j k a b Hjk Ha Hb. eapply (StronglySorted_lookup (fun a b => tuple_before demo_rel (snd a) (snd b)) _ j k); [|exact Hjk|exact Ha|exact Hb].
    repeat constructor; left; done.
Qed.

Lemma leaf_split_separates_witness : exists pages i hk,
  _abt_split demo_rel trunc_ai demo_form_size (fun _ _ => None) (merge_sort delta_le) 90 (demo_key 0 None) 5 9 0 full_page None None 3 2600
    (snd (big 25 (mk_tid 0 4))) None 0 = Done pages /\
  sp_items (sl_left pages) = hk :: take i [big 10 (mk_tid 0 1); big 20 (mk_tid 0 2); big 25 (mk_tid 0 4); big 30 (mk_tid 0 3)].
Proof.
  destruct (leaf_split_separates demo_rel trunc_ai demo_form_size (fun _ _ => None) (merge_sort delta_le) 90 full_page 3 2600 (snd (big 25 (mk_tid 0 4))) None 0
    full_page_splittable) with (itup_key := demo_key 0 None) (origblk := 5) (rightblk := 9) (cycleid := 0) (sibling := @None spage) (child := @None spage)
    as (pages & i & hk & Hs & _ & Hl & _).
  - by intros [? ?].
  - reflexivity.
  - apply demo_rel_ok.
  - discriminate.
  - apply full_page_items.
  - apply demo_form_mono.
  - apply demo_full_key.
  - discriminate.
  - exists pages, i, hk. by split.
Defined.

Definition wide (k : list (option Z)) (size blk agg : Z) : Z * index_tuple := (size, PivotTup (mk_pivot k None blk agg 0)).
Definition full_inner : spage :=
  mk_spage [wide [] (8 + extra_space_when_tid_missing trunc_ai) 1 5; wide [Some 10] 2600 2 6; wide [Some 20] 2600 3 7; wide [Some 30] 2600 4 8] (mk_opaque 0 0 1 0 1) 0.
Definition child_page : spage := mk_spage [] (mk_opaque 0 0 0 (Z.lor ABTP_LEAF ABTP_INCOMPLETE_SPLIT) 0) 0.

Lemma full_inner_splittable : splittable trunc_ai full_inner 3 2600 (snd (wide [Some 15] 2600 9 2)).
Proof.
  split; try done.
  - repeat (apply Forall_cons; split; [by vm_compute|]). constructor.
  - intros _. split; [done|]. eexists. split; [reflexivity|]. by vm_compute.
  - intros len t off Hin. repeat (apply elem_of_cons in Hin as [[=]|Hin]). by apply elem_of_nil in Hin.
Qed.

Lemma internal_split_keeps_aggregates_witness : exists pages i fr sz,
  _abt_split demo_rel trunc_ai demo_form_size (fun _ _ => None) (merge_sort delta_le) 90 (demo_key 0 None) 5 9 0 full_inner None (Some child_page) 3 2600
    (snd (wide [Some 15] 2600 9 2)) None 4 = Done pages /\
  sp_items (sl_left pages) = (sz, PivotTup (mk_pivot (pv_key fr) (pv_tid fr) (pv_downlink fr) 0 0)) ::
    take i (final_items full_inner 3 2600 (snd (wide [Some 15] 2600 9 2)) None 4).
Proof.
  destruct (internal_split_keeps_aggregates demo_rel trunc_ai demo_form_size (fun _ _ => None) (merge_sort delta_le) 90 full_inner 3 2600 (snd (wide [Some 15] 2600 9 2)) 4
    full_inner_splittable) with (itup_key := demo_key 0 None) (origblk := 5) (rightblk := 9) (cycleid := 0) (sibling := @None spage) (child := Some child_page)
    as (pages & i & len & fr & sz & Hs & _ & _ & Hl & _).
  - reflexivity.
  - by vm_compute.
  - change (Forall is_pivot [wide [] (8 + extra_space_when_tid_missing trunc_ai) 1 5; wide [Some 10] 2600 2 6; wide [Some 15] 2600 9 2; wide [Some 20] 2600 3 7; wide [Some 30] 2600 4 8]).
    repeat (apply Forall_cons; split; [split; [by vm_compute|by eexists]|]). constructor.
  - discriminate.
  - by eexists.
  - exists pages, i, fr, sz. by split.
Defined.

Definition small (k : Z) (t : tid) : Z * index_tuple := (24, LeafTup (mk_itup [Some k] 24 None [t] [] [3])).
Definition small_page : spage := mk_spage [small 10 (mk_tid 0 1); small 20 (mk_tid 0 2); small 20 (mk_tid 0 9)] (mk_opaque 0 0 0 ABTP_LEAF 0) 0.
Definition small_new : itup := mk_itup [Some 20] 24 None [mk_tid 0 5] [] [3].

Lemma small_ok k t : tuple_ok demo_rel (LeafTup (mk_itup [Some k] 24 None [t] [] [3])).
Proof. split; [done|]. exists t, t. split; [done|]. split; [done|]. pose proof (ItemPointerCompare_sym t t). lia. Qed.

Lemma insertonpg_keeps_order_witness : exists p',
  _abt_insertonpg demo_rel trunc_ai demo_form_size (fun _ _ => None) (merge_sort delta_le) 90 (demo_key 20 (Some (mk_tid 0 5))) 5 9 0 small_page None None
    (mk_meta 5 0 5 0) (LeafTup small_new) 24 3 0 false 0 = Done (OnPage p' None None) /\ page_ok demo_rel (page_of p').
Proof.
  destruct (insertonpg_keeps_order demo_rel trunc_ai demo_form_size (fun _ _ => None) (merge_sort delta_le) 90 (demo_key 20 (Some (mk_tid 0 5))) small_new (mk_tid 0 5)
    small_page 24 3 5 9 0 None None (mk_meta 5 0 5 0) 0) as (Hi & _ & _ & _ & Hok).
  - apply demo_rel_ok.
  - split; [apply demo_key_ok|]. by split_and!.
  - apply small_ok.
  - reflexivity.
  - reflexivity.
  - apply page_ok_intro; [done| |vm_compute Search.is_leaf; cbv iota|done].
    + repeat (apply Forall_cons; split; [apply small_ok|]). constructor.
    + repeat constructor; (left; done) || (right; split; done).
  - done.
  - done.
  - repeat (apply Forall_cons; split; [eexists; split; [reflexivity|by vm_compute]|]). constructor.
  - reflexivity.
  - reflexivity.
  - by vm_compute.
  - exists (insert_item small_page 3 24 (LeafTup small_new)). by split.
Defined.

End Insert.
