(* ===== verification/Quals.v ===== *)
(** * Search keys: preprocessing and evaluation (abtutils.c)

    A scan's quals are search keys.  [_abt_preprocess_keys] copies the index column's
    options into them, drops redundant ones, finds contradictions and marks the keys that
    must hold for a scan to go on; [_abt_checkkeys] evaluates them on one index tuple.

    The operator family of the index is a parameter: [opcintype] gives the type of a
    column, [opfamily] looks up the operator of a strategy for two argument types
    (get_opfamily_member and get_opcode).  A key's own operator is its [sk_func] with its
    collation.  A row comparison has its member keys in [sk_row]. *)

From stdpp Require Import base numbers option sorting list.
From S2P Require Import Prelude Dedup Page.

Module Quals.
Import Dedup Page.

(** ** Errors *)

Inductive qerror := Elog | OutOfBounds.
Inductive res (A : Type) := Val (a : A) | Raise (e : qerror).
Arguments Val {A} a.
Arguments Raise {A} e.

Definition rbind {A B} (m : res A) (f : A -> res B) : res B := match m with Val a => f a | Raise e => Raise e end.
Definition the {A} (o : option A) : res A := match o with Some a => Val a | None => Raise OutOfBounds end.

Declare Scope qual_scope.
Notation "'let?' x := m 'in' f" := (rbind m (fun x => f)) (at level 60, x pattern, m at level 59, f at level 60, right associativity) : qual_scope.
Open Scope qual_scope.

(** ** Search keys *)

Definition SK_ISNULL : Z := 0x0001.
Definition SK_ROW_HEADER : Z := 0x0004.
Definition SK_ROW_MEMBER : Z := 0x0008.
Definition SK_ROW_END : Z := 0x0010.
Definition SK_SEARCHNULL : Z := 0x0040.
Definition SK_SEARCHNOTNULL : Z := 0x0080.
Definition SK_ABT_REQFWD : Z := 0x00010000.
Definition SK_ABT_REQBKWD : Z := 0x00020000.
Definition SK_ABT_INDOPTION_SHIFT : Z := 24.
Definition INDOPTION_DESC : Z := 0x0001.
Definition INDOPTION_NULLS_FIRST : Z := 0x0002.
Definition SK_ABT_DESC : Z := Z.shiftl INDOPTION_DESC SK_ABT_INDOPTION_SHIFT.
Definition SK_ABT_NULLS_FIRST : Z := Z.shiftl INDOPTION_NULLS_FIRST SK_ABT_INDOPTION_SHIFT.

Definition BTLessStrategyNumber : Z := 1.
Definition BTLessEqualStrategyNumber : Z := 2.
Definition BTEqualStrategyNumber : Z := 3.
Definition BTGreaterEqualStrategyNumber : Z := 4.
Definition BTGreaterStrategyNumber : Z := 5.
Definition BTMaxStrategyNumber : Z := 5.
Definition ABTCommuteStrategyNumber (strat : Z) : Z := BTMaxStrategyNumber + 1 - strat.

(** One key.  [sk_func] returns the Datum of the call: a boolean, or for a member of a
    row comparison the result of the order function. *)
Record skey := mk_skey {
  sk_flags : Z;
  sk_attno : Z;
  sk_strategy : Z;
  sk_subtype : Z;
  sk_func : Z -> Z -> Z;
  sk_argument : Z
}.

Record ScanKey := mk_ScanKey { sk_head : skey; sk_row : list skey }.

Definition flag (k : skey) (m : Z) : bool := negb (Z.land (sk_flags k) m =? 0).
Definition InvalidOid : Z := 0.
Definition DatumGetBool (d : Z) : bool := negb (d =? 0).

Inductive ScanDirection := Backward | Forward.
Definition ScanDirectionIsForward (dir : ScanDirection) : bool := match dir with Forward => true | Backward => false end.
Definition ScanDirectionIsBackward (dir : ScanDirection) : bool := negb (ScanDirectionIsForward dir).

(** ** Marking keys *)

Definition set_flags (k : skey) (flags : Z) : skey :=
  mk_skey (Z.lor (sk_flags k) flags) (sk_attno k) (sk_strategy k) (sk_subtype k) (sk_func k) (sk_argument k).
Definition set_strategy (k : skey) (strat : Z) : skey :=
  mk_skey (sk_flags k) (sk_attno k) strat (sk_subtype k) (sk_func k) (sk_argument k).

(** The strategy and the type of IS NULL and IS NOT NULL. *)
Definition null_search (k : skey) (strat : Z) : skey :=
  mk_skey (sk_flags k) (sk_attno k) strat InvalidOid (sk_func k) (sk_argument k).

(** The best key of each strategy for the current column: xform[j] for j = 0 .. 4. *)
Abbreviation xform_t := (list (option ScanKey)).

Section Preprocess.
Context (indoption : list Z) (opcintype : Z -> Z) (opfamily : Z -> Z -> Z -> Z -> option (Z -> Z -> Z)).

(** The flags the column's options add. *)
Definition addflags_of (attno : Z) : res Z :=
  let? o := the (indoption !! Z.to_nat (attno - 1)) in Val (Z.shiftl o SK_ABT_INDOPTION_SHIFT).

(** Commute the strategy for DESC if that was not done before, and add the flags. *)
Definition fix_strategy (k : skey) : res skey :=
  let? addflags := addflags_of (sk_attno k) in
  let k := if negb (Z.land addflags SK_ABT_DESC =? 0) && negb (flag k SK_ABT_DESC)
           then set_strategy k (ABTCommuteStrategyNumber (sk_strategy k)) else k in
  Val (set_flags k addflags).

Fixpoint fix_members (row : list skey) : res (list skey) :=
  match row with
  | [] => Raise OutOfBounds
  | k :: row =>
      let? k := fix_strategy k in
      if flag k SK_ROW_END then Val (k :: row) else let? row := fix_members row in Val (k :: row)
  end.

(** The key and whether it can be satisfied at all. *)
Definition _abt_fix_scankey_strategy (sk : ScanKey) : res (ScanKey * bool) :=
  let k := sk_head sk in
  if flag k SK_ISNULL then
    let? addflags := addflags_of (sk_attno k) in
    let k := set_flags k addflags in
    if flag k SK_SEARCHNULL then Val (mk_ScanKey (null_search k BTEqualStrategyNumber) (sk_row sk), true)
    else if flag k SK_SEARCHNOTNULL then
      Val (mk_ScanKey (null_search k (if flag k SK_ABT_NULLS_FIRST then BTGreaterStrategyNumber else BTLessStrategyNumber))
             (sk_row sk), true)
    else Val (mk_ScanKey k (sk_row sk), false)
  else
    let? k := fix_strategy k in
    if flag k SK_ROW_HEADER then let? row := fix_members (sk_row sk) in Val (mk_ScanKey k row, true)
    else Val (mk_ScanKey k (sk_row sk), true).

Definition required_flags (strat : Z) : res Z :=
  if (strat =? BTLessStrategyNumber) || (strat =? BTLessEqualStrategyNumber) then Val SK_ABT_REQFWD
  else if strat =? BTEqualStrategyNumber then Val (Z.lor SK_ABT_REQFWD SK_ABT_REQBKWD)
  else if (strat =? BTGreaterEqualStrategyNumber) || (strat =? BTGreaterStrategyNumber) then Val SK_ABT_REQBKWD
  else Raise Elog.

Definition _abt_mark_scankey_required (sk : ScanKey) : res ScanKey :=
  let? addflags := required_flags (sk_strategy (sk_head sk)) in
  let k := set_flags (sk_head sk) addflags in
  if flag k SK_ROW_HEADER then
    match sk_row sk with
    | [] => Raise OutOfBounds
    | m :: row => Val (mk_ScanKey k (set_flags m addflags :: row))
    end
  else Val (mk_ScanKey k (sk_row sk)).

(** ** Comparing the arguments of two keys *)

Definition null_test (strat : Z) (leftnull rightnull : bool) : res bool :=
  let l := Z.b2z leftnull in let r := Z.b2z rightnull in
  if strat =? BTLessStrategyNumber then Val (l <? r)
  else if strat =? BTLessEqualStrategyNumber then Val (l <=? r)
  else if strat =? BTEqualStrategyNumber then Val (l =? r)
  else if strat =? BTGreaterEqualStrategyNumber then Val (r <=? l)
  else if strat =? BTGreaterStrategyNumber then Val (r <? l)
  else Raise Elog.

Definition arg_type (k : skey) (attno : Z) : Z := if sk_subtype k =? InvalidOid then opcintype attno else sk_subtype k.

(** [None]: the comparison cannot be made. *)
Definition _abt_compare_scankey_args (op leftarg rightarg : skey) : res (option bool) :=
  if negb (Z.land (Z.lor (sk_flags leftarg) (sk_flags rightarg)) SK_ISNULL =? 0) then
    let strat := if flag op SK_ABT_NULLS_FIRST then ABTCommuteStrategyNumber (sk_strategy op) else sk_strategy op in
    let? b := null_test strat (flag leftarg SK_ISNULL) (flag rightarg SK_ISNULL) in Val (Some b)
  else
    let attno := sk_attno leftarg in
    let lefttype := arg_type leftarg attno in
    let righttype := arg_type rightarg attno in
    let optype := arg_type op attno in
    if (lefttype =? opcintype attno) && (righttype =? optype) then
      Val (Some (DatumGetBool (sk_func op (sk_argument leftarg) (sk_argument rightarg))))
    else
      let strat := if flag op SK_ABT_DESC then ABTCommuteStrategyNumber (sk_strategy op) else sk_strategy op in
      match opfamily attno lefttype righttype strat with
      | Some cmp_proc => Val (Some (DatumGetBool (cmp_proc (sk_argument leftarg) (sk_argument rightarg))))
      | None => Val None
      end.

(** ** Preprocessing *)

Definition no_keys : xform_t := replicate 5 None.
Definition xget (xf : xform_t) (j : nat) : option ScanKey := match xf !! j with Some o => o | None => None end.
Definition xset (xf : xform_t) (j : nat) (o : option ScanKey) : xform_t := <[j := o]> xf.

(** The keys other than [eq] against it, from j = 4 down; [None]: contradictory. *)
Fixpoint against_eq (eq : ScanKey) (js : list nat) (xf : xform_t) : res (option xform_t) :=
  match js with
  | [] => Val (Some xf)
  | j :: js =>
      match xget xf j with
      | None => against_eq eq js xf
      | Some chk =>
          if flag (sk_head eq) SK_SEARCHNULL then Val None
          else
            let? t := _abt_compare_scankey_args (sk_head chk) (sk_head eq) (sk_head chk) in
            match t with
            | Some false => Val None
            | Some true => against_eq eq js (xset xf j None)
            | None => against_eq eq js xf
            end
      end
  end.

(** Keep one of a strict bound (at [js]) and its non-strict form (at [jn]). *)
Definition keep_one (js jn : nat) (xf : xform_t) : res xform_t :=
  match xget xf js, xget xf jn with
  | Some s, Some n =>
      let? t := _abt_compare_scankey_args (sk_head n) (sk_head s) (sk_head n) in
      Val match t with
          | Some true => xset xf jn None
          | Some false => xset xf js None
          | None => xf
          end
  | _, _ => Val xf
  end.

Definition emit (required : bool) (sk : ScanKey) (out : list ScanKey) : res (list ScanKey) :=
  let? sk := if required then _abt_mark_scankey_required sk else Val sk in Val (out ++ [sk]).

Fixpoint emit_all (required : bool) (js : list nat) (xf : xform_t) (out : list ScanKey) : res (list ScanKey) :=
  match js with
  | [] => Val out
  | j :: js =>
      let? out := match xget xf j with Some sk => emit required sk out | None => Val out end in
      emit_all required js xf out
  end.

(** The end of the keys of column [attno]: the new number of equal columns and the
    output keys; [None]: contradictory. *)
Definition finish_attr (xf : xform_t) (attno numberOfEqualCols : Z) (out : list ScanKey)
  : res (option (Z * list ScanKey)) :=
  let? xf' := match xget xf 2 with
              | Some eq => against_eq eq [4; 3; 1; 0]%nat xf
              | None => Val (Some xf)
              end in
  match xf' with
  | None => Val None
  | Some xf' =>
      let neq := match xget xf 2 with Some _ => numberOfEqualCols + 1 | None => numberOfEqualCols end in
      let? xf' := keep_one 0 1 xf' in
      let? xf' := keep_one 4 3 xf' in
      let? out := emit_all (numberOfEqualCols =? attno - 1) [4; 3; 2; 1; 0]%nat xf' out in
      Val (Some (neq, out))
  end.

(** One key of column [attno]: the new xform and output; [None]: contradictory. *)
Definition add_key (cur : ScanKey) (attno numberOfEqualCols : Z) (xf : xform_t) (out : list ScanKey)
  : res (option (xform_t * list ScanKey)) :=
  let required := numberOfEqualCols =? attno - 1 in
  let j := Z.to_nat (sk_strategy (sk_head cur) - 1) in
  if flag (sk_head cur) SK_ROW_HEADER then
    let? out := emit required cur out in Val (Some (xf, out))
  else if (sk_strategy (sk_head cur) <? 1) || (BTMaxStrategyNumber <? sk_strategy (sk_head cur)) then Raise OutOfBounds
  else
    match xget xf j with
    | None => Val (Some (xset xf j (Some cur), out))
    | Some old =>
        let? t := _abt_compare_scankey_args (sk_head cur) (sk_head cur) (sk_head old) in
        match t with
        | Some true => Val (Some (xset xf j (Some cur), out))
        | Some false => if (j =? 2)%nat then Val None else Val (Some (xf, out))
        | None => let? out := emit required cur out in Val (Some (xf, out))
        end
    end.

Fixpoint preprocess_loop (inkeys : list ScanKey) (attno numberOfEqualCols : Z) (xf : xform_t) (out : list ScanKey)
  : res (option (list ScanKey)) :=
  match inkeys with
  | [] =>
      let? r := finish_attr xf attno numberOfEqualCols out in
      Val (snd <$> r)
  | cur :: inkeys =>
      let? (cur, ok) := _abt_fix_scankey_strategy cur in
      if negb ok then Val None
      else
        let cattno := sk_attno (sk_head cur) in
        if cattno =? attno then
          let? r := add_key cur attno numberOfEqualCols xf out in
          match r with
          | None => Val None
          | Some (xf, out) => preprocess_loop inkeys attno numberOfEqualCols xf out
          end
        else if cattno <? attno then Raise Elog
        else
          let? r := finish_attr xf attno numberOfEqualCols out in
          match r with
          | None => Val None
          | Some (neq, out) =>
              let? r := add_key cur cattno neq no_keys out in
              match r with
              | None => Val None
              | Some (xf, out) => preprocess_loop inkeys cattno neq xf out
              end
          end
  end.

(** qual_ok and the output keys. *)
Definition _abt_preprocess_keys (inkeys : list ScanKey) : res (bool * list ScanKey) :=
  match inkeys with
  | [] => Val (true, [])
  | cur :: rest =>
      if sk_attno (sk_head cur) <? 1 then Raise Elog
      else
        match rest with
        | [] =>
            let? (cur, ok) := _abt_fix_scankey_strategy cur in
            let? out := if sk_attno (sk_head cur) =? 1 then _abt_mark_scankey_required cur else Val cur in
            Val (ok, [out])
        | _ =>
            let? r := preprocess_loop inkeys 1 0 no_keys [] in
            Val (match r with Some out => (true, out) | None => (false, []) end)
        end
  end.

End Preprocess.

(** ** Evaluation *)

Section Check.
Context (tuple : index_tuple) (tupnatts : Z) (dir : ScanDirection).

(** Whether the scan goes on after key [k] failed. *)
Definition continue_after (k : skey) : bool :=
  negb (flag k SK_ABT_REQFWD && ScanDirectionIsForward dir || flag k SK_ABT_REQBKWD && ScanDirectionIsBackward dir).

(** The same after a NULL in the column: in the direction that goes towards the NULLs
    there is nothing more to find if the key is required in either direction. *)
Definition continue_after_null (k : skey) : bool :=
  let required := flag k (Z.lor SK_ABT_REQFWD SK_ABT_REQBKWD) in
  if flag k SK_ABT_NULLS_FIRST then negb (required && ScanDirectionIsBackward dir)
  else negb (required && ScanDirectionIsForward dir).

(** The loop of _abt_check_rowcompare over the members; [prev] is the member before.
    The result is the deciding member with the comparison result, or the value of
    *continuescan with which the row fails. *)
Fixpoint row_loop (prev : option skey) (row : list skey) : res (skey * Z + bool) :=
  match row with
  | [] => Raise OutOfBounds
  | subkey :: row =>
      if tupnatts <? sk_attno subkey then
        if flag subkey SK_ROW_END then Val (inl (subkey, 0)) else row_loop (Some subkey) row
      else
        let? datum := the (index_getattr tuple (sk_attno subkey)) in
        match datum with
        | None => Val (inr (continue_after_null subkey))
        | Some d =>
            if flag subkey SK_ISNULL then Val (inr (continue_after (default subkey prev)))
            else
              let c := sk_func subkey d (sk_argument subkey) in
              let cmpresult := if flag subkey SK_ABT_DESC then INVERT_COMPARE_RESULT c else c in
              if negb (cmpresult =? 0) then Val (inl (subkey, cmpresult))
              else if flag subkey SK_ROW_END then Val (inl (subkey, cmpresult))
              else row_loop (Some subkey) row
        end
  end.

(** The result and *continuescan, which is true on entry. *)
Definition _abt_check_rowcompare (skey : ScanKey) : res (bool * bool) :=
  let? r := row_loop None (sk_row skey) in
  match r with
  | inr c => Val (false, c)
  | inl (subkey, cmpresult) =>
      let strat := sk_strategy subkey in
      let? result :=
        if strat =? BTLessStrategyNumber then Val (cmpresult <? 0)
        else if strat =? BTLessEqualStrategyNumber then Val (cmpresult <=? 0)
        else if strat =? BTGreaterEqualStrategyNumber then Val (0 <=? cmpresult)
        else if strat =? BTGreaterStrategyNumber then Val (0 <? cmpresult)
        else Raise Elog in
      Val (result, if result then true else continue_after subkey)
  end.

Fixpoint _abt_checkkeys (keys : list ScanKey) : res (bool * bool) :=
  match keys with
  | [] => Val (true, true)
  | sk :: keys =>
      let key := sk_head sk in
      if tupnatts <? sk_attno key then _abt_checkkeys keys
      else if flag key SK_ROW_HEADER then
        let? (r, c) := _abt_check_rowcompare sk in
        if r : bool then _abt_checkkeys keys else Val (false, c)
      else
        let? datum := the (index_getattr tuple (sk_attno key)) in
        if flag key SK_ISNULL then
          if (if flag key SK_SEARCHNULL then bool_decide (datum = None) else bool_decide (datum <> None))
          then _abt_checkkeys keys
          else Val (false, continue_after key)
        else
          match datum with
          | None => Val (false, continue_after_null key)
          | Some d =>
              if DatumGetBool (sk_func key d (sk_argument key)) then _abt_checkkeys keys
              else Val (false, continue_after key)
          end
  end.

End Check.

(** ** Flags *)

Lemma flag_set k f m : flag (set_flags k f) m = flag k m || negb (Z.land f m =? 0).
Proof.
  unfold flag. cbn [sk_flags set_flags]. rewrite Z.land_lor_distr_l.
  destruct (Z.eqb_spec (Z.land (sk_flags k) m) 0) as [->|Hn]; [by rewrite Z.lor_0_l|].
  apply negb_true_iff, Z.eqb_neq. intros H%Z.lor_eq_0_iff. tauto.
Qed.

Lemma land_shifted_low o s m : 0 <= m < 2 ^ s -> Z.land (Z.shiftl o s) m = 0.
Proof.
  intros Hm. apply Z.bits_inj'. intros n Hn. rewrite Z.bits_0, Z.land_spec. destruct (Z.lt_ge_cases n s).
  - by rewrite Z.shiftl_spec_low.
  - rewrite (Z.testbit_eqb m) by done. rewrite (Z.div_small m); [apply andb_false_r|].
    split; [lia|]. eapply Z.lt_le_trans; [apply Hm|]. apply Z.pow_le_mono_r; lia.
Qed.

Lemma land_option_low o m : 0 <= m < 2 ^ SK_ABT_INDOPTION_SHIFT -> Z.land (Z.shiftl o SK_ABT_INDOPTION_SHIFT) m = 0.
Proof. apply land_shifted_low. Qed.

Lemma land_option_bit o i : 0 <= i ->
  negb (Z.land (Z.shiftl o SK_ABT_INDOPTION_SHIFT) (Z.shiftl (2 ^ i) SK_ABT_INDOPTION_SHIFT) =? 0) = Z.testbit o i.
Proof.
  intros Hi. rewrite <- Z.shiftl_land. destruct (Z.testbit o i) eqn:E.
  - zbool. rewrite Z.shiftl_eq_0_iff by (unfold SK_ABT_INDOPTION_SHIFT; lia). rewrite land_bit_eq0 by done. congruence.
  - zbool. rewrite (proj2 (land_bit_eq0 o i Hi) E). done.
Qed.

Lemma flag_add_low k o m : 0 <= m < 2 ^ SK_ABT_INDOPTION_SHIFT ->
  flag (set_flags k (Z.shiftl o SK_ABT_INDOPTION_SHIFT)) m = flag k m.
Proof. intros Hm. rewrite flag_set, land_option_low by done. apply orb_false_r. Qed.

Lemma flag_add_desc k o : flag (set_flags k (Z.shiftl o SK_ABT_INDOPTION_SHIFT)) SK_ABT_DESC = flag k SK_ABT_DESC || Z.testbit o 0.
Proof. rewrite flag_set. f_equal. by apply (land_option_bit o 0). Qed.

Lemma flag_add_nulls_first k o :
  flag (set_flags k (Z.shiftl o SK_ABT_INDOPTION_SHIFT)) SK_ABT_NULLS_FIRST = flag k SK_ABT_NULLS_FIRST || Z.testbit o 1.
Proof. rewrite flag_set. f_equal. by apply (land_option_bit o 1). Qed.

(** Adding a required mark leaves every other flag. *)
Lemma flag_required k f m : Z.land f m = 0 -> flag (set_flags k f) m = flag k m.
Proof. intros Hf. rewrite flag_set, Hf. apply orb_false_r. Qed.

(** ** Meaning *)

Definition holds (strat r : Z) : bool :=
  if strat =? BTLessStrategyNumber then r <? 0
  else if strat =? BTLessEqualStrategyNumber then r <=? 0
  else if strat =? BTEqualStrategyNumber then r =? 0
  else if strat =? BTGreaterEqualStrategyNumber then 0 <=? r
  else if strat =? BTGreaterStrategyNumber then 0 <? r
  else false.

(** Does a column value satisfy a simple key? *)
Definition sat_key (k : skey) (v : option Z) : bool :=
  if flag k SK_ISNULL then
    if flag k SK_SEARCHNULL then bool_decide (v = None) else flag k SK_SEARCHNOTNULL && bool_decide (v <> None)
  else match v with Some d => DatumGetBool (sk_func k d (sk_argument k)) | None => false end.

Definition attr (t : list (option Z)) (attno : Z) : option Z := match t !! Z.to_nat (attno - 1) with Some v => v | None => None end.

(** Does a tuple satisfy a row comparison: the first column that differs decides. *)
Fixpoint row_sat (row : list skey) (t : list (option Z)) : bool :=
  match row with
  | [] => false
  | k :: row =>
      match attr t (sk_attno k) with
      | None => false
      | Some d =>
          if flag k SK_ISNULL then false
          else
            let r := sk_func k d (sk_argument k) in
            if negb (r =? 0) || flag k SK_ROW_END
            then holds (sk_strategy k) (if flag k SK_ABT_DESC then INVERT_COMPARE_RESULT r else r)
            else row_sat row t
      end
  end.

Definition sat (t : list (option Z)) (sk : ScanKey) : bool :=
  if flag (sk_head sk) SK_ROW_HEADER then row_sat (sk_row sk) t else sat_key (sk_head sk) (attr t (sk_attno (sk_head sk))).

Definition all_sat (t : list (option Z)) (keys : list ScanKey) : bool := forallb (sat t) keys.

Lemma all_sat_app t l k : all_sat t (l ++ k) = all_sat t l && all_sat t k.
Proof. apply forallb_app. Qed.

Lemma holds_commute strat r : holds (ABTCommuteStrategyNumber strat) (- r) = holds strat r.
Proof.
  unfold holds, ABTCommuteStrategyNumber, BTLessStrategyNumber, BTLessEqualStrategyNumber, BTEqualStrategyNumber,
    BTGreaterEqualStrategyNumber, BTGreaterStrategyNumber, BTMaxStrategyNumber.
  repeat if_case; lia.
Qed.

Lemma holds_sgn strat r r' : Z.sgn r = Z.sgn r' -> holds strat r = holds strat r'.
Proof.
  intros Hs. assert ((r < 0 <-> r' < 0) /\ (r = 0 <-> r' = 0)) as [H1 H2] by lia.
  unfold holds. repeat if_case; try done; apply Bool.eq_iff_eq_true; rewrite ?Z.ltb_lt, ?Z.leb_le, ?Z.eqb_eq; lia.
Qed.

Lemma invert_sgn r : Z.sgn (INVERT_COMPARE_RESULT r) = Z.sgn (- r).
Proof. unfold INVERT_COMPARE_RESULT. if_case; lia. Qed.

(** ** Evaluation is conjunction *)

Definition row_strategy (strat : Z) : Prop := strat = 1 \/ strat = 2 \/ strat = 4 \/ strat = 5.

(** Members up to the one that ends the row, on columns of an index with [n] columns. *)
Fixpoint row_good (n : Z) (row : list skey) : Prop :=
  match row with
  | [] => False
  | k :: row => 1 <= sk_attno k <= n /\ row_strategy (sk_strategy k) /\ (flag k SK_ROW_END = true \/ row_good n row)
  end.

Record key_good (n : Z) (sk : ScanKey) : Prop := {
  kg_attno : 1 <= sk_attno (sk_head sk) <= n;
  kg_row : flag (sk_head sk) SK_ROW_HEADER = true -> row_good n (sk_row sk);
  kg_null : flag (sk_head sk) SK_ISNULL = true ->
    flag (sk_head sk) SK_SEARCHNULL = true \/ flag (sk_head sk) SK_SEARCHNOTNULL = true
}.

Lemma getattr_attr t attno n : 1 <= attno <= n -> n <= Z.of_nat (length (tuple_key t)) ->
  index_getattr t attno = Some (attr (tuple_key t) attno).
Proof.
  intros Ha Hn. unfold index_getattr, attr.
  destruct (lookup_lt_is_Some_2 (tuple_key t) (Z.to_nat (attno - 1))) as [v ->]; [lia|done].
Qed.

Section Evaluate.
Context (t : index_tuple) (n natts : Z) (dir : ScanDirection).
Context (Hn : n <= Z.of_nat (length (tuple_key t))) (Hna : n <= natts).

Lemma row_loop_spec prev row : row_good n row ->
  exists r, row_loop t natts dir prev row = Val r /\
    match r with
    | inl (k, c) => row_strategy (sk_strategy k) /\ row_sat row (tuple_key t) = holds (sk_strategy k) c
    | inr _ => row_sat row (tuple_key t) = false
    end.
Proof.
  revert prev. induction row as [|k row IH]; intros prev; simpl; [done|]. intros (Ha & Hs & Hr).
  rewrite (proj2 (Z.ltb_ge _ _)) by lia. rewrite (getattr_attr _ _ n) by done. cbn [the rbind].
  destruct (attr _ _) as [d|]; [|by eexists]. destruct (flag k SK_ISNULL); [by eexists|].
  set (r := sk_func k d (sk_argument k)).
  assert (Hz : ((if flag k SK_ABT_DESC then INVERT_COMPARE_RESULT r else r) =? 0) = (r =? 0)).
  { unfold INVERT_COMPARE_RESULT. repeat if_case; try done; apply Bool.eq_iff_eq_true; rewrite !Z.eqb_eq; lia. }
  rewrite Hz. destruct (r =? 0) eqn:E; cbn [negb orb]; [|by eexists].
  destruct (flag k SK_ROW_END); [by eexists|]. destruct Hr as [|Hr]; [done|]. apply IH, Hr.
Qed.

Lemma rowcompare_spec sk : row_good n (sk_row sk) ->
  exists c, _abt_check_rowcompare t natts dir sk = Val (row_sat (sk_row sk) (tuple_key t), c) /\
    (row_sat (sk_row sk) (tuple_key t) = true -> c = true).
Proof.
  intros Hg. unfold _abt_check_rowcompare. destruct (row_loop_spec None _ Hg) as (r & -> & Hr). cbn [rbind].
  destruct r as [[k c]|c]; [|rewrite Hr; by exists c]. destruct Hr as [Hs ->].
  destruct Hs as [E|[E|[E|E]]]; rewrite E; simpl; (eexists; split; [reflexivity|]);
    rewrite ?E; unfold holds; simpl; by intros ->.
Qed.

Lemma checkkeys_run keys : Forall (key_good n) keys ->
  exists c, _abt_checkkeys t natts dir keys = Val (all_sat (tuple_key t) keys, c) /\
    (all_sat (tuple_key t) keys = true -> c = true).
Proof.
  unfold all_sat. induction 1 as [|sk keys [Ha Hr Hnull] _ IH]; [by exists true|].
  cbn [_abt_checkkeys forallb]. rewrite (proj2 (Z.ltb_ge _ _)) by lia.
  replace (sat (tuple_key t) sk) with (if flag (sk_head sk) SK_ROW_HEADER then row_sat (sk_row sk) (tuple_key t)
    else sat_key (sk_head sk) (attr (tuple_key t) (sk_attno (sk_head sk)))) by done.
  destruct (flag (sk_head sk) SK_ROW_HEADER) eqn:Erow.
  { destruct (rowcompare_spec sk (Hr eq_refl)) as (c & -> & Hc). cbn [rbind].
    destruct (row_sat _ _); [exact IH|by exists c]. }
  rewrite (getattr_attr _ _ n) by done. cbn [the rbind]. unfold sat_key.
  set (v := attr _ _). clearbody v. destruct (flag (sk_head sk) SK_ISNULL) eqn:En.
  - replace (flag (sk_head sk) SK_SEARCHNOTNULL && bool_decide (v <> None)) with
      (if flag (sk_head sk) SK_SEARCHNULL then flag (sk_head sk) SK_SEARCHNOTNULL && bool_decide (v <> None) else bool_decide (v <> None)).
    2: { destruct (Hnull eq_refl) as [E|E]; [by rewrite E|]. rewrite E. by destruct (flag (sk_head sk) SK_SEARCHNULL). }
    destruct (flag (sk_head sk) SK_SEARCHNULL); case_bool_decide; try exact IH; by eexists.
  - destruct v as [d|]; [|by eexists]. destruct (DatumGetBool _); [exact IH|by eexists].
Qed.

End Evaluate.

(** ** Operator families *)

(** What a btree operator family promises: one order on the values of all its types for
    each column, which every operator implements. *)
Class OpFamily (opfamily : Z -> Z -> Z -> Z -> option (Z -> Z -> Z)) (cmp : Z -> Z * Z -> Z * Z -> Z) : Prop := {
  of_sym a x y : cmp a x y < 0 <-> 0 < cmp a y x;
  of_trans a x y z : cmp a x y <= 0 -> cmp a y z <= 0 -> cmp a x z <= 0;
  of_member a lt rt strat f x y : opfamily a lt rt strat = Some f ->
    DatumGetBool (f x y) = holds strat (cmp a (lt, x) (rt, y))
}.

Section Family.
Context (indoption : list Z) (opcintype : Z -> Z) (opfamily : Z -> Z -> Z -> Z -> option (Z -> Z -> Z)).
Context (cmp : Z -> Z * Z -> Z * Z -> Z) `{!OpFamily opfamily cmp}.

Abbreviation fix_key := (_abt_fix_scankey_strategy indoption).
Abbreviation compare_args := (_abt_compare_scankey_args opcintype opfamily).
Abbreviation nkeys := (Z.of_nat (length indoption)).

Definition colopt (a : Z) : Z := default 0 (indoption !! Z.to_nat (a - 1)).
Definition desc (a : Z) : bool := Z.testbit (colopt a) 0.
Definition nulls_first (a : Z) : bool := Z.testbit (colopt a) 1.

(** The order of column [a] in the index, NULLs included. *)
Definition icmp (a : Z) (x y : option (Z * Z)) : Z :=
  match x, y with
  | None, None => 0
  | None, Some _ => if nulls_first a then -1 else 1
  | Some _, None => if nulls_first a then 1 else -1
  | Some x, Some y => if desc a then cmp a y x else cmp a x y
  end.

Lemma icmp_sym a x y : icmp a x y < 0 <-> 0 < icmp a y x.
Proof.
  unfold icmp. destruct x as [x|], y as [y|]; simpl; try (destruct (nulls_first a); lia).
  destruct (desc a); apply of_sym.
Qed.

Lemma icmp_trans a x y z : icmp a x y <= 0 -> icmp a y z <= 0 -> icmp a x z <= 0.
Proof.
  unfold icmp. destruct x as [x|], y as [y|], z as [z|]; simpl; try (destruct (nulls_first a); lia).
  destruct (desc a); [intros ? ?; by apply (of_trans a z y x)|apply of_trans].
Qed.

(** Everything [lia] needs to know of three values. *)
Lemma icmp_facts a x y z :
  (icmp a x y < 0 <-> 0 < icmp a y x) /\ (icmp a y x < 0 <-> 0 < icmp a x y) /\
  (icmp a x z < 0 <-> 0 < icmp a z x) /\ (icmp a z x < 0 <-> 0 < icmp a x z) /\
  (icmp a y z < 0 <-> 0 < icmp a z y) /\ (icmp a z y < 0 <-> 0 < icmp a y z) /\
  (icmp a x y <= 0 -> icmp a y z <= 0 -> icmp a x z <= 0) /\ (icmp a x z <= 0 -> icmp a z y <= 0 -> icmp a x y <= 0) /\
  (icmp a y x <= 0 -> icmp a x z <= 0 -> icmp a y z <= 0) /\ (icmp a y z <= 0 -> icmp a z x <= 0 -> icmp a y x <= 0) /\
  (icmp a z x <= 0 -> icmp a x y <= 0 -> icmp a z y <= 0) /\ (icmp a z y <= 0 -> icmp a y x <= 0 -> icmp a z x <= 0).
Proof. pose proof (icmp_sym a). pose proof (icmp_trans a). repeat split; intros; eauto; firstorder. Qed.

(** *** Keys before preprocessing *)

Record raw_flags (k : skey) : Prop := {
  rf_range : 0 <= sk_flags k < 2 ^ 16;
  rf_attno : 1 <= sk_attno k <= nkeys
}.

(** A member's function is the family's order function for its type. *)
Definition is_order (k : skey) : Prop :=
  forall x y, Z.sgn (sk_func k x y) =
    Z.sgn (cmp (sk_attno k) (opcintype (sk_attno k), x) (arg_type opcintype k (sk_attno k), y)).

Fixpoint raw_row (row : list skey) : Prop :=
  match row with
  | [] => False
  | k :: row => (raw_flags k /\ row_strategy (sk_strategy k) /\ is_order k) /\ (flag k SK_ROW_END = true \/ raw_row row)
  end.

(** The first member has the column and the strategy of the row's header, and it is not
    the only one. *)
Definition row_header_ok (sk : ScanKey) : Prop :=
  match sk_row sk with
  | [] => False
  | m :: _ => sk_attno m = sk_attno (sk_head sk) /\ sk_strategy m = sk_strategy (sk_head sk) /\ flag m SK_ROW_END = false
  end.

(** The operator of the key is the family's member for its strategy and type. *)
Definition is_operator (k : skey) : Prop :=
  1 <= sk_strategy k <= 5 /\
  forall x y, DatumGetBool (sk_func k x y) =
    holds (sk_strategy k) (cmp (sk_attno k) (opcintype (sk_attno k), x) (arg_type opcintype k (sk_attno k), y)).

Record raw_key (sk : ScanKey) : Prop := {
  rk_flags : raw_flags (sk_head sk);
  rk_null : flag (sk_head sk) SK_ISNULL = true -> flag (sk_head sk) SK_ROW_HEADER = false;
  rk_strategy : flag (sk_head sk) SK_ISNULL = true -> flag (sk_head sk) SK_SEARCHNULL = false ->
    flag (sk_head sk) SK_SEARCHNOTNULL = false -> 1 <= sk_strategy (sk_head sk) <= 5;
  rk_search : flag (sk_head sk) SK_SEARCHNULL = true -> flag (sk_head sk) SK_ISNULL = true;
  rk_row : flag (sk_head sk) SK_ROW_HEADER = true -> row_header_ok sk /\ raw_row (sk_row sk);
  rk_op : flag (sk_head sk) SK_ROW_HEADER = false -> flag (sk_head sk) SK_ISNULL = false -> is_operator (sk_head sk)
}.

(** *** Keys with the column's options *)

Definition key_arg (k : skey) : option (Z * Z) :=
  if flag k SK_ISNULL then None else Some (arg_type opcintype k (sk_attno k), sk_argument k).

Record fixed_simple (a : Z) (k : skey) : Prop := {
  fs_attno : sk_attno k = a;
  fs_strategy : 1 <= sk_strategy k <= 5;
  fs_desc : flag k SK_ABT_DESC = desc a;
  fs_nulls : flag k SK_ABT_NULLS_FIRST = nulls_first a;
  fs_search : flag k SK_SEARCHNULL = true -> flag k SK_ISNULL = true;
  fs_null : flag k SK_ISNULL = true ->
    if flag k SK_SEARCHNULL then sk_strategy k = 3
    else flag k SK_SEARCHNOTNULL = true /\ sk_strategy k = (if nulls_first a then 5 else 1);
  fs_op : flag k SK_ISNULL = false -> forall x y, DatumGetBool (sk_func k x y) =
    holds (sk_strategy k) (icmp a (Some (opcintype a, x)) (Some (arg_type opcintype k a, y)))
}.

(** A key is its strategy against its argument in the order of the index; only IS NULL
    accepts NULLs. *)
Lemma sat_key_holds a k v : fixed_simple a k ->
  sat_key k v = ((sk_strategy k =? 3) || bool_decide (v <> None)) &&
    holds (sk_strategy k) (icmp a (pair (opcintype a) <$> v) (key_arg k)).
Proof.
  intros [Ha Hs Hd Hnf Hse Hnu Hop]. unfold sat_key, key_arg. destruct (flag k SK_ISNULL) eqn:En.
  - specialize (Hnu eq_refl). destruct (flag k SK_SEARCHNULL).
    + rewrite Hnu. destruct v; simpl; [by destruct (nulls_first a)|done].
    + destruct Hnu as [-> ->]. destruct v; simpl; destruct (nulls_first a); done.
  - destruct v as [d|]; simpl.
    + rewrite Hop, Ha by done. by rewrite orb_true_r.
    + rewrite orb_false_r. destruct (Z.eqb_spec (sk_strategy k) 3) as [->|]; [|done]. simpl. by destruct (nulls_first a).
Qed.

Lemma compare_args_holds a op l r : fixed_simple a op -> fixed_simple a l -> fixed_simple a r ->
  op = l \/ op = r ->
  exists o, compare_args op l r = Val o /\
    (forall b, o = Some b -> b = holds (sk_strategy op) (icmp a (key_arg l) (key_arg r))).
Proof.
  intros Ho Hl Hr Hor. unfold _abt_compare_scankey_args.
  replace (negb (Z.land (Z.lor (sk_flags l) (sk_flags r)) SK_ISNULL =? 0)) with (flag l SK_ISNULL || flag r SK_ISNULL).
  2: { exact (eq_sym (flag_set l (sk_flags r) SK_ISNULL)). }
  unfold key_arg. destruct (flag l SK_ISNULL || flag r SK_ISNULL) eqn:En.
  - rewrite (fs_nulls _ _ Ho).
    assert (Hst := fs_strategy _ _ Ho). remember (sk_strategy op) as s eqn:Es. clear Es.
    assert (s = 1 \/ s = 2 \/ s = 3 \/ s = 4 \/ s = 5) as Hs by lia.
    unfold icmp. destruct (flag l SK_ISNULL), (flag r SK_ISNULL); try done;
      destruct (nulls_first a); destruct Hs as [->|[->|[->|[-> | ->]]]]; simpl;
      (eexists; split; [reflexivity|]); by intros b [= <-].
  - apply orb_false_iff in En as [El Er]. rewrite El, Er. rewrite (fs_attno _ _ Hl), (fs_attno _ _ Hr).
    destruct (_ && _) eqn:Et.
    + eexists. split; [reflexivity|]. intros b [= <-]. apply andb_true_iff in Et as [Etl Etr]. zbool.
      rewrite (fs_op _ _ Ho) by (destruct Hor; congruence). by rewrite Etl, Etr.
    + destruct (opfamily _ _ _ _) as [f|] eqn:Ef; (eexists; split; [reflexivity|]); [|done].
      intros b [= <-]. rewrite (of_member _ _ _ _ _ _ _ Ef). rewrite (fs_desc _ _ Ho). unfold icmp.
      destruct (desc a); [|done]. rewrite <- holds_commute. unfold ABTCommuteStrategyNumber.
      replace (BTMaxStrategyNumber + 1 - (BTMaxStrategyNumber + 1 - sk_strategy op)) with (sk_strategy op) by lia.
      apply holds_sgn. pose proof (of_sym a (arg_type opcintype l a, sk_argument l) (arg_type opcintype r a, sk_argument r)).
      pose proof (of_sym a (arg_type opcintype r a, sk_argument r) (arg_type opcintype l a, sk_argument l)). lia.
Qed.

(** *** Applying the column's options *)

Lemma addflags_run a : 1 <= a <= nkeys -> addflags_of indoption a = Val (Z.shiftl (colopt a) SK_ABT_INDOPTION_SHIFT).
Proof.
  intros Ha. unfold addflags_of, colopt.
  by destruct (lookup_lt_is_Some_2 indoption (Z.to_nat (a - 1))) as [o ->]; [lia|].
Qed.

Lemma raw_flag_high k m : raw_flags k -> 0 <= m -> flag k (2 ^ (16 + m)) = false.
Proof.
  intros [Hr _] Hm. unfold flag. apply negb_false_iff, Z.eqb_eq, land_bit_eq0; [lia|].
  rewrite Z.testbit_eqb by lia. rewrite Z.div_small; [done|].
  split; [lia|]. eapply Z.lt_le_trans; [apply Hr|]. apply Z.pow_le_mono_r; lia.
Qed.

Lemma raw_flag_desc k : raw_flags k -> flag k SK_ABT_DESC = false.
Proof. intros Hraw. exact (raw_flag_high k 8 Hraw ltac:(lia)). Qed.

Lemma raw_flag_nulls_first k : raw_flags k -> flag k SK_ABT_NULLS_FIRST = false.
Proof. intros Hraw. exact (raw_flag_high k 9 Hraw ltac:(lia)). Qed.

Lemma fix_strategy_run k : raw_flags k ->
  exists k', fix_strategy indoption k = Val k' /\ sk_attno k' = sk_attno k /\ sk_subtype k' = sk_subtype k /\
    sk_func k' = sk_func k /\ sk_argument k' = sk_argument k /\
    sk_strategy k' = (if desc (sk_attno k) then ABTCommuteStrategyNumber (sk_strategy k) else sk_strategy k) /\
    (forall m, 0 <= m < 2 ^ 24 -> flag k' m = flag k m) /\
    flag k' SK_ABT_DESC = desc (sk_attno k) /\ flag k' SK_ABT_NULLS_FIRST = nulls_first (sk_attno k).
Proof.
  intros Hraw. unfold fix_strategy. rewrite addflags_run by apply Hraw. cbn [rbind].
  pose proof (raw_flag_desc k Hraw) as Hd.
  pose proof (raw_flag_nulls_first k Hraw) as Hf.
  change SK_ABT_DESC with (Z.shiftl (2 ^ 0) SK_ABT_INDOPTION_SHIFT) at 1.
  rewrite land_option_bit, Hd by done. fold (desc (sk_attno k)). cbn [negb]. rewrite andb_true_r.
  destruct (desc (sk_attno k)) eqn:Ed; (eexists; split; [reflexivity|]; repeat split);
    try (intros m Hm; by rewrite flag_add_low); unfold desc in Ed;
    rewrite ?flag_add_desc, ?flag_add_nulls_first;
    change (flag (set_strategy k ?s) ?m) with (flag k m); by rewrite ?Hd, ?Hf, ?Ed.
Qed.

Lemma commute_row_strategy s : row_strategy s -> row_strategy (ABTCommuteStrategyNumber s).
Proof. unfold row_strategy, ABTCommuteStrategyNumber, BTMaxStrategyNumber. lia. Qed.

(** A member of a row after preprocessing. *)
Record fixed_member (k : skey) : Prop := {
  fm_attno : 1 <= sk_attno k <= nkeys;
  fm_strategy : row_strategy (sk_strategy k);
  fm_desc : flag k SK_ABT_DESC = desc (sk_attno k);
  fm_nulls : flag k SK_ABT_NULLS_FIRST = nulls_first (sk_attno k);
  fm_order : is_order k
}.

Fixpoint row_fixed (row : list skey) : Prop :=
  match row with
  | [] => False
  | k :: row => fixed_member k /\ (flag k SK_ROW_END = true \/ row_fixed row)
  end.

Definition required (k : skey) : bool := flag k SK_ABT_REQFWD || flag k SK_ABT_REQBKWD.

Fixpoint row_unmarked (row : list skey) : Prop :=
  match row with
  | [] => False
  | k :: row => required k = false /\ (flag k SK_ROW_END = true \/ row_unmarked row)
  end.

Lemma row_fixed_good row : row_fixed row -> row_good nkeys row.
Proof. induction row as [|k row IH]; simpl; [done|]. intros ([Ha Hs _ _ _] & [?|?]); auto. Qed.

Lemma raw_flag_required k : raw_flags k -> required k = false.
Proof.
  intros Hraw. apply orb_false_iff.
  split; [exact (raw_flag_high k 0 Hraw ltac:(lia))|exact (raw_flag_high k 1 Hraw ltac:(lia))].
Qed.

Lemma fix_members_run row : raw_row row ->
  exists row', fix_members indoption row = Val row' /\ row_fixed row' /\ row_unmarked row' /\
    (forall t, row_sat row' t = row_sat row t) /\
    match row, row' with
    | m :: _, m' :: _ => sk_attno m' = sk_attno m /\ flag m' SK_ROW_END = flag m SK_ROW_END /\
        sk_strategy m' = (if desc (sk_attno m) then ABTCommuteStrategyNumber (sk_strategy m) else sk_strategy m)
    | _, _ => False
    end.
Proof.
  induction row as [|k row IH]; simpl; [done|]. intros ((Hraw & Hs & Hord) & Hr).
  destruct (fix_strategy_run k Hraw) as (k' & -> & Ha & Hty & Hf & Harg & Hst & Hlow & Hd & Hnf). cbn [rbind].
  rewrite (Hlow SK_ROW_END) by done.
  assert (Hfix : fixed_member k').
  { split; rewrite ?Ha; try done; [apply Hraw| |].
    - rewrite Hst. case_match; [by apply commute_row_strategy|done].
    - intros x y. unfold arg_type. rewrite Ha, Hf, Hty. apply Hord. }
  assert (Hreq : required k' = false).
  { unfold required. rewrite !Hlow by done. by apply raw_flag_required. }
  assert (Hdec : forall r, holds (sk_strategy k') (if flag k' SK_ABT_DESC then INVERT_COMPARE_RESULT r else r) =
    holds (sk_strategy k) (if flag k SK_ABT_DESC then INVERT_COMPARE_RESULT r else r)).
  { intros r. rewrite Hd, Hst, (raw_flag_desc k Hraw).
    destruct (desc (sk_attno k)); [|done]. rewrite <- (holds_commute (sk_strategy k) r). apply holds_sgn, invert_sgn. }
  destruct (flag k SK_ROW_END) eqn:Eend.
  - exists (k' :: row). split; [done|]. simpl. rewrite (Hlow SK_ROW_END), Eend by done. split_and!; auto.
    intros t. rewrite Ha. destruct (attr t (sk_attno k)); [|done]. by rewrite Hf, Harg, (Hlow SK_ISNULL), !orb_true_r, Hdec by done.
  - destruct Hr as [|Hr]; [done|]. destruct (IH Hr) as (row' & -> & Hg & Hu & Hsat & _).
    exists (k' :: row'). split; [done|]. simpl. rewrite (Hlow SK_ROW_END), Eend by done. split_and!; auto.
    intros t. rewrite Ha. destruct (attr t (sk_attno k)); [|done]. by rewrite Hf, Harg, (Hlow SK_ISNULL), Hdec, Hsat by done.
Qed.

(** A preprocessed key of column [a]. *)
Definition fixed_key (a : Z) (sk : ScanKey) : Prop :=
  sk_attno (sk_head sk) = a /\ 1 <= a <= nkeys /\
  if flag (sk_head sk) SK_ROW_HEADER then
    (flag (sk_head sk) SK_ISNULL = false /\ flag (sk_head sk) SK_ABT_NULLS_FIRST = nulls_first a /\ flag (sk_head sk) SK_ABT_DESC = desc a) /\
    row_header_ok sk /\ row_fixed (sk_row sk)
  else fixed_simple a (sk_head sk).

(** No marks yet. *)
Definition unmarked (sk : ScanKey) : Prop :=
  required (sk_head sk) = false /\ (flag (sk_head sk) SK_ROW_HEADER = true -> row_unmarked (sk_row sk)).

Lemma fixed_row_strategy a sk : fixed_key a sk -> flag (sk_head sk) SK_ROW_HEADER = true -> row_strategy (sk_strategy (sk_head sk)).
Proof.
  intros (_ & _ & Hf) Hr. rewrite Hr in Hf. destruct Hf as (_ & Hh & Hrow). unfold row_header_ok in Hh.
  destruct (sk_row sk) as [|m row]; [done|]. destruct Hh as (_ & <- & _). apply Hrow.
Qed.

(** A key that can be satisfied keeps its meaning; one that cannot is found. *)
Lemma fix_key_run sk : raw_key sk ->
  exists sk' ok, fix_key sk = Val (sk', ok) /\ sk_attno (sk_head sk') = sk_attno (sk_head sk) /\
    if ok : bool then fixed_key (sk_attno (sk_head sk)) sk' /\ unmarked sk' /\ (forall t, sat t sk' = sat t sk) else 1 <= sk_strategy (sk_head sk') <= 5 /\ flag (sk_head sk') SK_ROW_HEADER = false /\ forall t, sat t sk = false.
Proof.
  intros [Hraw Hnull Hstr Hsn Hrow Hop]. destruct sk as [k row]. unfold _abt_fix_scankey_strategy, fixed_key, sat. simpl in *.
  destruct (flag k SK_ISNULL) eqn:En.
  - specialize (Hnull eq_refl). rewrite addflags_run by apply Hraw. cbn [rbind]. rewrite !flag_add_low by done.
    pose proof (raw_flag_desc k Hraw) as Hd.
    pose proof (raw_flag_nulls_first k Hraw) as Hf.
    assert (Hsimple : forall s, 1 <= s <= 5 -> (if flag k SK_SEARCHNULL then s = 3
        else flag k SK_SEARCHNOTNULL = true /\ s = (if nulls_first (sk_attno k) then 5 else 1)) ->
      fixed_simple (sk_attno k) (null_search (set_flags k (Z.shiftl (colopt (sk_attno k)) SK_ABT_INDOPTION_SHIFT)) s)).
    { intros s Hs Hkind. split; try done; unfold null_search;
        change (flag (mk_skey (sk_flags ?k) _ _ _ _ _) ?m) with (flag k m); rewrite ?flag_add_low by done; try done.
      - by rewrite flag_add_desc, Hd.
      - by rewrite flag_add_nulls_first, Hf.
      - by rewrite En. }
    assert (Hun : forall s row, unmarked (mk_ScanKey (null_search (set_flags k (Z.shiftl (colopt (sk_attno k)) SK_ABT_INDOPTION_SHIFT)) s) row)).
    { intros s row'. unfold unmarked, required. simpl. change (flag (null_search ?k ?s) ?m) with (flag k m).
      rewrite !flag_add_low, Hnull by done. split; [by apply raw_flag_required|done]. }
    destruct (flag k SK_SEARCHNULL) eqn:Es; [|destruct (flag k SK_SEARCHNOTNULL) eqn:Esn].
    + eexists _, true. split; [reflexivity|]. simpl. split; [done|].
      change (flag (null_search ?k ?s) ?m) with (flag k m). rewrite flag_add_low, Hnull by done.
      split; [split; [done|split; [apply Hraw|by apply Hsimple]]|]. split; [apply Hun|]. intros t. unfold sat_key.
      change (flag (null_search ?k ?s) ?m) with (flag k m). by rewrite !flag_add_low.
    + eexists _, true. split; [reflexivity|]. simpl. split; [done|].
      change (flag (null_search ?k ?s) ?m) with (flag k m). rewrite flag_add_nulls_first, Hf. cbn [orb].
      rewrite flag_add_low, Hnull by done. fold (nulls_first (sk_attno k)). split.
      { split; [done|]. split; [apply Hraw|]. apply Hsimple; [|by destruct (nulls_first (sk_attno k))].
        unfold BTGreaterStrategyNumber, BTLessStrategyNumber. destruct (nulls_first (sk_attno k)); lia. }
      split; [apply Hun|]. intros t. unfold sat_key. change (flag (null_search ?k ?s) ?m) with (flag k m). by rewrite !flag_add_low.
    + eexists _, false. split; [reflexivity|]. simpl. split; [done|]. split; [by apply Hstr|]. rewrite flag_add_low by done.
      split; [done|]. intros t. rewrite Hnull. unfold sat_key. by rewrite En, Es, Esn.
  - destruct (fix_strategy_run k Hraw) as (k' & -> & Ha & Hty & Hf & Harg & Hst & Hlow & Hd & Hnf). cbn [rbind].
    assert (Hreq : required k' = false) by (unfold required; rewrite !Hlow by done; by apply raw_flag_required).
    rewrite (Hlow SK_ROW_HEADER) by done. destruct (flag k SK_ROW_HEADER) eqn:Erow.
    + destruct (Hrow eq_refl) as [Hhs Hr]. destruct (fix_members_run row Hr) as (row' & -> & Hg & Hu & Hsat & Hhd). cbn [rbind].
      eexists _, true. split; [reflexivity|]. unfold unmarked. simpl. split; [done|].
      rewrite (Hlow SK_ROW_HEADER), Erow, (Hlow SK_ISNULL) by done. split_and!; try done; try apply Hraw.
      unfold row_header_ok in *. simpl in *. destruct row as [|m row], row' as [|m' row']; try done.
      destruct Hhs as (Hh1 & Hh2 & Hh3), Hhd as (-> & -> & ->). by rewrite Ha, Hst, Hh1, Hh2.
    + destruct (Hop eq_refl eq_refl) as [Hsr Hfun]. eexists _, true. split; [reflexivity|]. unfold unmarked. simpl. split; [done|].
      rewrite (Hlow SK_ROW_HEADER), Erow by done. split; [split; [done|split; [apply Hraw|]]|split; [done|]].
      * split; try done; rewrite ?Hlow by done; try done; try congruence.
        -- rewrite Hst. unfold ABTCommuteStrategyNumber, BTMaxStrategyNumber. case_match; lia.
        -- rewrite En. done.
        -- intros _ x y. rewrite Hf, Hfun, Hst. unfold icmp. replace (arg_type opcintype k' (sk_attno k)) with
             (arg_type opcintype k (sk_attno k)) by (unfold arg_type; by rewrite Hty).
           destruct (desc (sk_attno k)); [|done]. rewrite <- (holds_commute (sk_strategy k)). apply holds_sgn.
           pose proof (of_sym (sk_attno k) (opcintype (sk_attno k), x) (arg_type opcintype k (sk_attno k), y)).
           pose proof (of_sym (sk_attno k) (arg_type opcintype k (sk_attno k), y) (opcintype (sk_attno k), x)). lia.
      * intros t. unfold sat_key. by rewrite !Hlow, En, Hf, Harg, Ha by done.
Qed.

(** *** Marks *)

(** A key is marked only for the directions in which its failure ends the scan; in a row
    comparison the first member is marked like the row itself, the others are not. *)
Definition marks_ok (sk : ScanKey) : Prop :=
  (flag (sk_head sk) SK_ABT_REQFWD = true -> sk_strategy (sk_head sk) <= 3) /\
  (flag (sk_head sk) SK_ABT_REQBKWD = true -> 3 <= sk_strategy (sk_head sk)) /\
  (flag (sk_head sk) SK_ROW_HEADER = true ->
    match sk_row sk with
    | [] => False
    | m :: row =>
        (flag m SK_ABT_REQFWD = flag (sk_head sk) SK_ABT_REQFWD /\ flag m SK_ABT_REQBKWD = flag (sk_head sk) SK_ABT_REQBKWD) /\
        (flag m SK_ROW_END = true \/ row_unmarked row)
    end).

Lemma required_flags_run strat : 1 <= strat <= 5 ->
  exists f, required_flags strat = Val f /\
    (forall k m, m = SK_ABT_DESC \/ m = SK_ABT_NULLS_FIRST \/ 0 <= m < 2 ^ 16 -> flag (set_flags k f) m = flag k m) /\
    (Z.land f SK_ABT_REQFWD <> 0 -> strat <= 3) /\ (Z.land f SK_ABT_REQBKWD <> 0 -> 3 <= strat).
Proof.
  intros Hs. assert (Hz : forall c k m, Z.land c SK_ABT_DESC = 0 -> Z.land c SK_ABT_NULLS_FIRST = 0 -> c = Z.shiftl (c / 2 ^ 16) 16 ->
    m = SK_ABT_DESC \/ m = SK_ABT_NULLS_FIRST \/ 0 <= m < 2 ^ 16 -> flag (set_flags k c) m = flag k m).
  { intros c k m Hd Hf Hc [->|[->|Hm]]; apply flag_required; [done|done|]. rewrite Hc. by apply land_shifted_low. }
  assert (strat = 1 \/ strat = 2 \/ strat = 3 \/ strat = 4 \/ strat = 5) as [->|[->|[->|[->| ->]]]] by lia;
    (eexists; split; [reflexivity|]; split; [intros k m; by apply Hz|]); vm_compute; intuition congruence.
Qed.

(** The flags the meaning of a key depends on. *)
Ltac plain_flag := first [left; done|right; left; done|right; right; split; done].

Lemma mark_run a sk : fixed_key a sk -> unmarked sk ->
  exists sk', _abt_mark_scankey_required sk = Val sk' /\ fixed_key a sk' /\ marks_ok sk' /\
    sk_strategy (sk_head sk') = sk_strategy (sk_head sk) /\
    flag (sk_head sk') SK_ROW_HEADER = flag (sk_head sk) SK_ROW_HEADER /\ (forall t, sat t sk' = sat t sk).
Proof.
  intros Hfix. assert (Hsr : 1 <= sk_strategy (sk_head sk) <= 5).
  { pose proof (fixed_row_strategy _ _ Hfix) as Hrs. destruct Hfix as (_ & _ & Hf).
    destruct (flag (sk_head sk) SK_ROW_HEADER); [destruct (Hrs eq_refl) as [?|[?|[?|?]]]; lia|apply Hf]. }
  revert Hfix Hsr. destruct sk as [k row].
  unfold fixed_key, unmarked, required, row_header_ok, _abt_mark_scankey_required, marks_ok. simpl.
  intros (Ha & Har & Hf) Hsr [[Hq1 Hq2]%orb_false_iff Hru].
  destruct (required_flags_run _ Hsr) as (f & -> & Hsame & Hfw & Hbw). cbn [rbind].
  assert (Hmarks : (flag (set_flags k f) SK_ABT_REQFWD = true -> sk_strategy k <= 3) /\
                   (flag (set_flags k f) SK_ABT_REQBKWD = true -> 3 <= sk_strategy k)).
  { rewrite !flag_set, Hq1, Hq2. cbn [orb]. split; intros; zbool; auto. }
  rewrite (Hsame k SK_ROW_HEADER) by plain_flag. destruct (flag k SK_ROW_HEADER) eqn:Er.
  - destruct Hf as (Hn & Hs & Hg). destruct row as [|m row]; [done|]. eexists. split; [reflexivity|]. simpl.
    unfold sat. simpl. rewrite (Hsame k SK_ROW_HEADER), (Hsame k SK_ISNULL), (Hsame k SK_ABT_NULLS_FIRST), (Hsame k SK_ABT_DESC), Er by plain_flag.
    simpl in Hg, Hru. rewrite !(Hsame m) by plain_flag. destruct (Hru eq_refl) as [[Hm1 Hm2]%orb_false_iff Hru'].
    split_and!; try done; try apply Har; try apply Hn; try apply Hs; try apply Hmarks; try (by apply Hg);
      try (by rewrite !flag_set, ?Hm1, ?Hm2, ?Hq1, ?Hq2);
      [|intros t; destruct (attr t (sk_attno m)); [|done]; by rewrite !(Hsame m) by plain_flag].
    destruct Hg as [[G1 G2 G3 G4 G5] _]. split; simpl; rewrite ?(Hsame m) by plain_flag; auto.
  - eexists. split; [reflexivity|]. simpl. unfold sat. simpl. rewrite (Hsame k SK_ROW_HEADER), Er by plain_flag.
    split; [|split_and!; try done; try apply Hmarks; unfold sat_key; intros t; by rewrite !(Hsame k) by plain_flag].
    split; [done|]. split; [done|]. destruct Hf as [H1 H2 H3 H4 H5 H6 H7]. split; simpl; rewrite ?(Hsame k) by plain_flag; auto.
Qed.

(** *** The best keys of a column *)

Definition xsat (t : list (option Z)) (xf : xform_t) : bool :=
  forallb (fun o => match o with Some sk => sat t sk | None => true end) xf.

Record xf_ok (a : Z) (xf : xform_t) : Prop := {
  xo_length : length xf = 5%nat;
  xo_key : forall j sk, xget xf j = Some sk -> fixed_key a sk /\ unmarked sk /\
    flag (sk_head sk) SK_ROW_HEADER = false /\ sk_strategy (sk_head sk) = Z.of_nat j + 1
}.

Lemma xsat_true t xf : xsat t xf = true <-> forall j sk, xget xf j = Some sk -> sat t sk = true.
Proof.
  unfold xsat, xget. rewrite List.forallb_forall. split.
  - intros H j sk E. destruct (xf !! j) as [o|] eqn:Ej; [|done]. subst.
    apply (H (Some sk)), list_elem_of_In. by eapply list_elem_of_lookup_2.
  - intros H [sk|] E; [|done]. apply list_elem_of_In, list_elem_of_lookup_1 in E as [j E].
    specialize (H j sk). rewrite E in H. by apply H.
Qed.

Lemma xget_xset xf i j o : (j < length xf)%nat -> xget (xset xf j o) i = if decide (i = j) then o else xget xf i.
Proof.
  intros Hj. unfold xget, xset. case_decide as E; [subst; by rewrite list_lookup_insert_eq|].
  by rewrite list_lookup_insert_ne by done.
Qed.

Lemma xset_ok a xf j o : xf_ok a xf -> (j < 5)%nat ->
  (forall sk, o = Some sk -> fixed_key a sk /\ unmarked sk /\ flag (sk_head sk) SK_ROW_HEADER = false /\
    sk_strategy (sk_head sk) = Z.of_nat j + 1) -> xf_ok a (xset xf j o).
Proof.
  intros [Hl Hk] Hj Ho. split; [unfold xset; by rewrite length_insert|].
  intros i sk. rewrite xget_xset by lia. case_decide; subst; auto.
Qed.

Lemma no_keys_ok a : xf_ok a no_keys.
Proof. split; [done|]. intros j sk. unfold xget, no_keys. destruct (_ !! j) eqn:E; [|done]. apply lookup_replicate in E as [-> _]. done. Qed.

Lemma xsat_no_keys t : xsat t no_keys = true.
Proof. done. Qed.

(** Two keys of the column, by their strategies. *)
Lemma xf_sat a xf j sk t : xf_ok a xf -> xget xf j = Some sk ->
  fixed_simple a (sk_head sk) /\ sat t sk = sat_key (sk_head sk) (attr t a).
Proof.
  intros Hx Hg. destruct (xo_key _ _ Hx _ _ Hg) as ((Ha & _ & Hf) & _ & Hr & _). rewrite Hr in Hf. split; [done|].
  unfold sat. by rewrite Hr, Ha.
Qed.

(** A key that another one implies can go. *)
Lemma xsat_drop a xf i j e k : xf_ok a xf -> xget xf i = Some e -> xget xf j = Some k -> i <> j ->
  (forall t, sat t e = true -> sat t k = true) -> forall t, xsat t (xset xf j None) = xsat t xf.
Proof.
  intros Hx Hi Hj Hij Himp t. assert (Hlt : (j < length xf)%nat).
  { unfold xget in Hj. destruct (xf !! j) eqn:E; [|done]. by eapply lookup_lt_Some. }
  apply Bool.eq_iff_eq_true. rewrite !xsat_true. split; intros H n sk Hn.
  - destruct (decide (n = j)) as [->|Hne].
    + rewrite Hj in Hn. injection Hn as <-. apply Himp, (H i). by rewrite xget_xset, decide_False.
    + apply (H n). by rewrite xget_xset, decide_False.
  - rewrite xget_xset in Hn by done. case_decide; [done|]. by apply (H n).
Qed.

Lemma xsat_conflict xf i j e k t : xget xf i = Some e -> xget xf j = Some k ->
  (sat t e = true -> sat t k = true -> False) -> xsat t xf = false.
Proof.
  intros Hi Hj Hno. apply not_true_iff_false. rewrite xsat_true. intros H. apply Hno; [by apply (H i)|by apply (H j)].
Qed.

(** A test [b] of the arguments of two keys of the column against the strategy of [op]. *)
Lemma xf_compare a xf i j l r op : xf_ok a xf -> xget xf i = Some l -> xget xf j = Some r -> op = l \/ op = r ->
  exists o, compare_args (sk_head op) (sk_head l) (sk_head r) = Val o /\
    (forall b, o = Some b -> b = holds (sk_strategy (sk_head op)) (icmp a (key_arg (sk_head l)) (key_arg (sk_head r)))).
Proof.
  intros Hx Hl Hr Hop. pose proof (proj1 (xf_sat _ _ _ _ [] Hx Hl)). pose proof (proj1 (xf_sat _ _ _ _ [] Hx Hr)).
  apply compare_args_holds; destruct Hop as [-> | ->]; auto.
Qed.

Ltac key_cases a t l r :=
  pose proof (icmp_facts a (pair (opcintype a) <$> attr t a) (key_arg (sk_head l)) (key_arg (sk_head r)));
  unfold holds, BTLessStrategyNumber, BTLessEqualStrategyNumber, BTEqualStrategyNumber,
    BTGreaterEqualStrategyNumber, BTGreaterStrategyNumber in *.

Lemma against_eq_run a e js xf : xf_ok a xf -> xget xf 2 = Some e -> Forall (fun j => j <> 2 /\ j < 5)%nat js ->
  exists o, against_eq opcintype opfamily e js xf = Val o /\
    match o with
    | None => forall t, xsat t xf = false
    | Some xf' => xf_ok a xf' /\ xget xf' 2 = Some e /\ (forall t, xsat t xf' = xsat t xf)
    end.
Proof.
  revert xf. induction js as [|j js IH]; intros xf Hx He Hjs; simpl; [by exists (Some xf)|].
  apply Forall_cons in Hjs as [[Hj Hj5] Hjs]. destruct (xget xf j) as [k|] eqn:Ek; [|by apply IH].
  assert (Hse := fun t => xf_sat _ _ _ _ t Hx He). assert (Hsk := fun t => xf_sat _ _ _ _ t Hx Ek).
  destruct (xo_key _ _ Hx _ _ He) as (_ & _ & _ & Hste). destruct (xo_key _ _ Hx _ _ Ek) as (_ & _ & _ & Hstk).
  destruct (flag (sk_head e) SK_SEARCHNULL) eqn:Enull.
  { exists None. split; [done|]. intros t. apply (xsat_conflict xf 2 j e k t He Ek).
    rewrite (proj2 (Hse t)), (proj2 (Hsk t)). rewrite (sat_key_holds a _ _ (proj1 (Hsk t))).
    unfold sat_key at 1. rewrite (fs_search _ _ (proj1 (Hse t)) Enull), Enull. intros Hn%bool_decide_eq_true.
    rewrite Hn, Hstk. simpl. rewrite orb_false_r. intros Hc. apply andb_true_iff in Hc as [Hc _]. zbool. lia. }
  destruct (xf_compare a xf 2 j e k k Hx He Ek) as (o & -> & Ho); [by right|]. cbn [rbind].
  assert (Himp : forall t, sat t e = true -> forall b, o = Some b -> sat t k = b).
  { intros t Hsat b Hb. rewrite (Ho b Hb), (proj2 (Hsk t)). rewrite (proj2 (Hse t)) in Hsat.
    rewrite (sat_key_holds a _ _ (proj1 (Hse t))) in Hsat. rewrite (sat_key_holds a _ _ (proj1 (Hsk t))).
    assert (Hv : attr t a <> None).
    { intros Hn. rewrite Hn in Hsat. unfold key_arg in Hsat. rewrite Hste in Hsat.
      destruct (flag (sk_head e) SK_ISNULL) eqn:En; [|simpl in Hsat; by destruct (nulls_first a)].
      pose proof (fs_null _ _ (proj1 (Hse t)) En) as Hnull. rewrite Enull, Hste in Hnull. destruct (nulls_first a); lia. }
    rewrite (bool_decide_true _ Hv), orb_true_r, andb_true_l. rewrite Hste in Hsat.
    apply holds_sgn. key_cases a t e k. simpl in Hsat. zbool. lia. }
  destruct o as [[|]|].
  - destruct (IH (xset xf j None)) as (o' & -> & Ho'); [by apply xset_ok|by rewrite xget_xset, decide_False by (rewrite ?(xo_length _ _ Hx); lia)|done|].
    exists o'. split; [done|]. pose proof (xsat_drop a xf 2 j e k Hx He Ek ltac:(lia) (fun t H => Himp t H true eq_refl)) as Hd.
    destruct o' as [xf'|]; [|intros t; by rewrite <- Hd]. destruct Ho' as (H1 & H2 & H3). split_and!; try done. intros t. by rewrite H3, Hd.
  - exists None. split; [done|]. intros t. apply (xsat_conflict xf 2 j e k t He Ek). intros H1 H2.
    by rewrite (Himp t H1 false eq_refl) in H2.
  - by apply IH.
Qed.

(** A strict bound and the same bound not strict. *)
Lemma keep_one_run a js jn xf : xf_ok a xf -> (js = 0 /\ jn = 1)%nat \/ (js = 4 /\ jn = 3)%nat ->
  exists xf', keep_one opcintype opfamily js jn xf = Val xf' /\ xf_ok a xf' /\ xget xf' 2 = xget xf 2 /\
    (forall t, xsat t xf' = xsat t xf).
Proof.
  intros Hx Hj. unfold keep_one. destruct (xget xf js) as [s|] eqn:Es; [|by exists xf].
  destruct (xget xf jn) as [n|] eqn:En; [|by exists xf].
  assert (Hss := fun t => xf_sat _ _ _ _ t Hx Es). assert (Hsn := fun t => xf_sat _ _ _ _ t Hx En).
  destruct (xo_key _ _ Hx _ _ Es) as (_ & _ & _ & Hsts). destruct (xo_key _ _ Hx _ _ En) as (_ & _ & _ & Hstn).
  destruct (xf_compare a xf js jn s n n Hx Es En) as (o & -> & Ho); [by right|]. cbn [rbind].
  assert (Hlen := xo_length _ _ Hx).
  assert (Hcase : forall t b, o = Some b -> if b : bool then sat t s = true -> sat t n = true else sat t n = true -> sat t s = true).
  { intros t b Hb. specialize (Ho b Hb). rewrite (proj2 (Hss t)), (proj2 (Hsn t)).
    rewrite (sat_key_holds a _ _ (proj1 (Hss t))), (sat_key_holds a _ _ (proj1 (Hsn t))). rewrite Hsts, Hstn in *. key_cases a t s n.
    destruct Hj as [[-> ->]|[-> ->]]; simpl in *; destruct (bool_decide _); try (destruct b; done);
      destruct b; symmetry in Ho; zbool; simpl; intros; zbool; lia. }
  destruct o as [[|]|].
  - eexists. split; [reflexivity|]. split; [by apply xset_ok; [|lia|]|]. split; [rewrite xget_xset, decide_False by lia; done|].
    apply (xsat_drop a xf js jn s n Hx Es En); [lia|]. intros t. by apply (Hcase t true).
  - eexists. split; [reflexivity|]. split; [by apply xset_ok; [|lia|]|]. split; [rewrite xget_xset, decide_False by lia; done|].
    apply (xsat_drop a xf jn js n s Hx En Es); [lia|]. intros t. by apply (Hcase t false).
  - by exists xf.
Qed.

(** *** Output keys *)

Definition eq_key (b : Z) (e : ScanKey) : Prop :=
  fixed_key b e /\ flag (sk_head e) SK_ROW_HEADER = false /\ sk_strategy (sk_head e) = 3.

(** Every column before [a] has an equality key. *)
Definition eq_before (a : Z) (out : list ScanKey) : Prop := forall b, 1 <= b < a -> exists e, e ∈ out /\ eq_key b e.

(** Output keys in the order they are emitted, by column: a key is marked as required only
    if all columns before its own have equality keys, emitted earlier. *)
Inductive outs : list ScanKey -> Prop :=
| outs_nil : outs []
| outs_snoc out sk a : outs out -> fixed_key a sk -> marks_ok sk ->
    (required (sk_head sk) = true -> eq_before a out) -> (forall x, x ∈ out -> sk_attno (sk_head x) <= a) -> outs (out ++ [sk]).

Lemma unmarked_marks_ok a sk : fixed_key a sk -> unmarked sk -> marks_ok sk.
Proof.
  intros (_ & _ & Hf) [Hu Hr]. unfold required in Hu. apply orb_false_iff in Hu as [H1 H2]. unfold marks_ok. rewrite H1, H2.
  split_and!; try done. intros Hrow. specialize (Hr Hrow). destruct (sk_row sk) as [|m row]; [done|]. simpl in Hr.
  unfold required in Hr. destruct Hr as [[-> ->]%orb_false_iff ?]. done.
Qed.

Lemma eq_before_app a out l : eq_before a out -> eq_before a (out ++ l).
Proof. intros H b Hb. destruct (H b Hb) as (e & He & ?). exists e. split; [|done]. apply elem_of_app. by left. Qed.

Lemma outs_good out : outs out -> Forall (key_good nkeys) out.
Proof.
  induction 1 as [|out sk a _ IH (Ha & Har & Hf) Hm _ _]; [constructor|]. apply Forall_app. split; [done|].
  constructor; [|constructor]. split; [lia| |].
  - intros Hr. rewrite Hr in Hf. apply row_fixed_good, Hf.
  - intros Hn. destruct (flag (sk_head sk) SK_ROW_HEADER); [destruct Hf as [[? _] _]; congruence|].
    pose proof (fs_null _ _ Hf Hn) as Hk. destruct (flag (sk_head sk) SK_SEARCHNULL); [by left|right; apply Hk].
Qed.

Lemma emit_run req a sk out : outs out -> fixed_key a sk -> unmarked sk -> (req = true -> eq_before a out) ->
  (forall x, x ∈ out -> sk_attno (sk_head x) <= a) ->
  exists sk', emit req sk out = Val (out ++ [sk']) /\ outs (out ++ [sk']) /\ fixed_key a sk' /\
    sk_strategy (sk_head sk') = sk_strategy (sk_head sk) /\
    flag (sk_head sk') SK_ROW_HEADER = flag (sk_head sk) SK_ROW_HEADER /\ (forall t, sat t sk' = sat t sk).
Proof.
  intros Ho Hf Hu Hreq Hle. unfold emit. destruct req.
  - destruct (mark_run a sk Hf Hu) as (sk' & -> & Hf' & Hm & Hs & Hr & Hsat). exists sk'. split; [done|].
    split; [|done]. eapply outs_snoc; eauto.
  - exists sk. split; [done|]. split; [|done]. eapply outs_snoc; eauto using unmarked_marks_ok.
    destruct Hu as [Hu _]. by rewrite Hu.
Qed.

Lemma le_snoc a out sk : (forall x, x ∈ out -> sk_attno (sk_head x) <= a) -> fixed_key a sk -> forall x, x ∈ out ++ [sk] -> sk_attno (sk_head x) <= a.
Proof. intros Hle [Ha _] x [Hx|Hx]%elem_of_app; [by apply Hle|]. apply list_elem_of_singleton in Hx as ->. lia. Qed.

Definition jsat (t : list (option Z)) (xf : xform_t) (j : nat) : bool :=
  match xget xf j with Some sk => sat t sk | None => true end.

Lemma emit_all_run req a js xf out : outs out -> xf_ok a xf -> (req = true -> eq_before a out) -> (forall x, x ∈ out -> sk_attno (sk_head x) <= a) ->
  exists l, emit_all req js xf out = Val (out ++ l) /\ outs (out ++ l) /\ (forall x, x ∈ out ++ l -> sk_attno (sk_head x) <= a) /\
    (2%nat ∈ js -> forall e, xget xf 2 = Some e -> exists e', e' ∈ l /\ eq_key a e') /\
    (forall t, all_sat t (out ++ l) = all_sat t out && forallb (jsat t xf) js).
Proof.
  intros Ho Hx Hreq Hle. revert out Ho Hreq Hle. induction js as [|j js IH]; intros out Ho Hreq Hle; simpl.
  { exists []. rewrite app_nil_r. split_and!; try done; [by intros ?%elem_of_nil|intros t; by rewrite andb_true_r]. }
  destruct (xget xf j) as [sk|] eqn:Ej; cbn [rbind].
  - destruct (xo_key _ _ Hx _ _ Ej) as (Hf & Hu & Hr & Hst).
    destruct (emit_run req a sk out Ho Hf Hu Hreq Hle) as (sk' & -> & Ho' & Hf' & Hst' & Hr' & Hsat). cbn [rbind].
    destruct (IH (out ++ [sk'])) as (l & -> & Hol & Hlel & Hin & Hal); [done|intros; by apply eq_before_app, Hreq|by apply (le_snoc a)|].
    exists (sk' :: l). rewrite <- app_assoc in *. simpl. split_and!; try done.
    + intros [<- |H]%elem_of_cons e He.
      * exists sk'. split; [by left|]. split; [done|]. rewrite Hr', Hst'. split; [done|]. rewrite Hst. lia.
      * destruct (Hin H e He) as (e' & ? & ?). exists e'. split; [by right|done].
    + intros t. change (sk' :: l) with ([sk'] ++ l). rewrite Hal, all_sat_app. unfold jsat at 2. rewrite Ej. simpl.
      by rewrite andb_true_r, Hsat, andb_assoc.
  - destruct (IH out Ho Hreq Hle) as (l & -> & Hol & Hlel & Hin & Hal). exists l. split_and!; try done.
    + intros [<- |H]%elem_of_cons e He; [congruence|]. by apply (Hin H e).
    + intros t. rewrite Hal. unfold jsat at 2. by rewrite Ej.
Qed.

Lemma forallb_jsat t a xf : xf_ok a xf -> forallb (jsat t xf) [4; 3; 2; 1; 0]%nat = xsat t xf.
Proof.
  intros Hx. destruct Hx as [Hl _]. destruct xf as [|x0 [|x1 [|x2 [|x3 [|x4 [|]]]]]]; try done.
  unfold jsat, xget. simpl. destruct x0 as [x0|], x1 as [x1|], x2 as [x2|], x3 as [x3|], x4 as [x4|]; simpl; try done;
    repeat match goal with |- context [sat t ?x] => destruct (sat t x) end; done.
Qed.

(** *** One column *)

(** The state between two keys: column [a], [n] equality columns before it. *)
Record pre_ok (a n : Z) (xf : xform_t) (out : list ScanKey) : Prop := {
  pr_attno : 1 <= a;
  pr_outs : outs out;
  pr_xf : xf_ok a xf;
  pr_count : n <= a - 1;
  pr_eq : n = a - 1 -> eq_before a out;
  pr_le : forall x, x ∈ out -> sk_attno (sk_head x) <= a
}.

Lemma finish_attr_run a n xf out : pre_ok a n xf out ->
  exists o, finish_attr opcintype opfamily xf a n out = Val o /\
    match o with
    | None => forall t, all_sat t out && xsat t xf = false
    | Some (n', out') => outs out' /\ n' <= a /\ (n' = a -> eq_before (a + 1) out') /\ (forall x, x ∈ out' -> sk_attno (sk_head x) <= a) /\
        (forall t, all_sat t out' = all_sat t out && xsat t xf)
    end.
Proof.
  intros [Ha Ho Hx Hc He Hle]. unfold finish_attr.
  assert (exists o, match xget xf 2 with Some eq => against_eq opcintype opfamily eq [4; 3; 1; 0]%nat xf | None => Val (Some xf) end = Val o /\
    match o with None => forall t, xsat t xf = false
    | Some xf' => xf_ok a xf' /\ xget xf' 2 = xget xf 2 /\ (forall t, xsat t xf' = xsat t xf) end) as (o & -> & Hok).
  { destruct (xget xf 2) as [e|] eqn:E; [|by exists (Some xf)]. apply against_eq_run; [done..|]. repeat constructor; lia. }
  cbn [rbind]. destruct o as [xf1|]; [|exists None; split; [done|]; intros t; by rewrite Hok, andb_false_r].
  destruct Hok as (Hx1 & Hg1 & Hs1).
  destruct (keep_one_run a 0 1 xf1 Hx1) as (xf2 & -> & Hx2 & Hg2 & Hs2); [by left|]. cbn [rbind].
  destruct (keep_one_run a 4 3 xf2 Hx2) as (xf3 & -> & Hx3 & Hg3 & Hs3); [by right|]. cbn [rbind].
  destruct (emit_all_run (n =? a - 1) a [4; 3; 2; 1; 0]%nat xf3 out Ho Hx3) as (l & -> & Hol & Hlel & Hin & Hal).
  { intros Hn. zbool. auto. }
  { done. }
  cbn [rbind]. eexists. split; [reflexivity|]. cbv beta iota. split; [done|].
  split; [destruct (xget xf 2); lia|]. split.
  - intros Hn. destruct (xget xf 2) as [e|] eqn:E2; [|lia]. intros b Hb.
    destruct (decide (b = a)) as [->|Hne].
    + destruct (Hin ltac:(rewrite !elem_of_cons; auto) e) as (e' & He' & Hk); [congruence|].
      exists e'. split; [apply elem_of_app; by right|done].
    + apply (eq_before_app a); [apply He; lia|lia].
  - split; [done|]. intros t. by rewrite Hal, (forallb_jsat t a), Hs3, Hs2, Hs1.
Qed.

(** Two keys of one strategy: the test tells which implies the other. *)
Lemma tighter a cur old b t : fixed_simple a (sk_head cur) -> fixed_simple a (sk_head old) ->
  sk_strategy (sk_head cur) = sk_strategy (sk_head old) ->
  b = holds (sk_strategy (sk_head cur)) (icmp a (key_arg (sk_head cur)) (key_arg (sk_head old))) ->
  let c := sat_key (sk_head cur) (attr t a) in let o := sat_key (sk_head old) (attr t a) in
  if b : bool then c = true -> o = true
  else if sk_strategy (sk_head cur) =? 3 then c && o = false else o = true -> c = true.
Proof.
  intros Hc Ho Hst Hb. cbv zeta. rewrite (sat_key_holds a _ _ Hc), (sat_key_holds a _ _ Ho), <- Hst.
  pose proof (fs_strategy _ _ Hc) as Hs. key_cases a t cur old. generalize (bool_decide (attr t a <> None)) as nn. intros nn.
  assert (Hcases : sk_strategy (sk_head cur) = 1 \/ sk_strategy (sk_head cur) = 2 \/ sk_strategy (sk_head cur) = 3 \/
    sk_strategy (sk_head cur) = 4 \/ sk_strategy (sk_head cur) = 5) by lia.
  destruct Hcases as [E|[E|[E|[E|E]]]]; rewrite E in *; simpl in *; destruct nn; simpl; try (by destruct b);
    destruct b; symmetry in Hb; zbool; intros; zbool; try lia;
    repeat match goal with |- context [?x =? 0] => destruct (Z.eqb_spec x 0) end; try done; lia.
Qed.

Lemma xsat_replace a xf j old cur t : xf_ok a xf -> xget xf j = Some old -> (sat t cur = true -> sat t old = true) ->
  xsat t (xset xf j (Some cur)) = sat t cur && xsat t xf.
Proof.
  intros Hx Hj Himp. assert (Hlt : (j < length xf)%nat).
  { unfold xget in Hj. destruct (xf !! j) eqn:E; [|done]. by eapply lookup_lt_Some. }
  apply Bool.eq_iff_eq_true. rewrite andb_true_iff, !xsat_true. split.
  - intros H. split; [apply (H j); by rewrite xget_xset, decide_True|]. intros i sk Hi. destruct (decide (i = j)) as [->|Hne].
    + rewrite Hj in Hi. injection Hi as <-. apply Himp, (H j). by rewrite xget_xset, decide_True.
    + apply (H i). by rewrite xget_xset, decide_False.
  - intros [Hc H] i sk. rewrite xget_xset by done. case_decide; [by intros [= <-]|apply H].
Qed.

Lemma xsat_new a xf j cur t : xf_ok a xf -> (j < 5)%nat -> xget xf j = None ->
  xsat t (xset xf j (Some cur)) = sat t cur && xsat t xf.
Proof.
  intros Hx Hj Hn. assert (Hlt : (j < length xf)%nat) by (rewrite (xo_length _ _ Hx); lia).
  apply Bool.eq_iff_eq_true. rewrite andb_true_iff, !xsat_true. split.
  - intros H. split; [apply (H j); by rewrite xget_xset, decide_True|]. intros i sk Hi.
    apply (H i). rewrite xget_xset, decide_False by congruence. done.
  - intros [Hc H] i sk. rewrite xget_xset by done. case_decide; [by intros [= <-]|apply H].
Qed.

Lemma add_key_run a n xf out cur : pre_ok a n xf out -> fixed_key a cur -> unmarked cur ->
  exists o, add_key opcintype opfamily cur a n xf out = Val o /\
    match o with
    | None => forall t, sat t cur && (all_sat t out && xsat t xf) = false
    | Some (xf', out') => pre_ok a n xf' out' /\
        (forall t, all_sat t out' && xsat t xf' = sat t cur && (all_sat t out && xsat t xf))
    end.
Proof.
  intros Hpre Hf Hu. unfold add_key. pose proof Hpre as [Ha Ho Hx Hc He Hle].
  assert (Hreq : (n =? a - 1) = true -> eq_before a out) by (intros; zbool; auto).
  assert (Hemit : exists o, (let? out := emit (n =? a - 1) cur out in Val (Some (xf, out))) = Val o /\
    match o with
    | None => forall t, sat t cur && (all_sat t out && xsat t xf) = false
    | Some (xf', out') => pre_ok a n xf' out' /\
        (forall t, all_sat t out' && xsat t xf' = sat t cur && (all_sat t out && xsat t xf))
    end).
  { destruct (emit_run _ a cur out Ho Hf Hu Hreq Hle) as (sk' & -> & Ho' & Hf' & _ & _ & Hsat). cbn [rbind].
    eexists. split; [reflexivity|]. cbv beta iota. split; [split; auto using eq_before_app; by apply le_snoc|].
    intros t. rewrite all_sat_app. simpl. rewrite Hsat. by destruct (sat t cur), (all_sat t out), (xsat t xf). }
  destruct (flag (sk_head cur) SK_ROW_HEADER) eqn:Er; [done|].
  destruct Hf as (Hat & Har & Hf). rewrite Er in Hf. pose proof (fs_strategy _ _ Hf) as Hs.
  rewrite (proj2 (Z.ltb_ge _ 1)), (proj2 (Z.ltb_ge BTMaxStrategyNumber _)) by (unfold BTMaxStrategyNumber; lia). cbn [orb].
  set (j := Z.to_nat (sk_strategy (sk_head cur) - 1)). assert (Hj : (j < 5)%nat) by lia.
  assert (Hset : xf_ok a (xset xf j (Some cur))).
  { apply xset_ok; [done|done|]. intros ? [= <-]. split; [|split; [done|split; [done|lia]]].
    split; [done|]. split; [done|]. by rewrite Er. }
  assert (Hpre' : pre_ok a n (xset xf j (Some cur)) out) by (by split).
  assert (Hsc : forall t, sat t cur = sat_key (sk_head cur) (attr t a)) by (intros t; unfold sat; by rewrite Er, Hat).
  destruct (xget xf j) as [old|] eqn:Ej.
  - destruct (xo_key _ _ Hx _ _ Ej) as (_ & _ & _ & Hsto).
    assert (Hfo := fun t => xf_sat _ _ _ _ t Hx Ej).
    destruct (compare_args_holds a (sk_head cur) (sk_head cur) (sk_head old)) as (o & -> & Hb);
      [done|done|apply (Hfo [])|by left|]. cbn [rbind].
    assert (Hst : sk_strategy (sk_head cur) = sk_strategy (sk_head old)) by lia.
    assert (Ht := fun t b Hob => tighter a cur old b t Hf (proj1 (Hfo [])) Hst (Hb b Hob)). cbv zeta in Ht.
    destruct o as [[|]|].
    + eexists. split; [reflexivity|]. cbv beta iota. split; [done|]. intros t.
      rewrite (xsat_replace a xf j old cur t Hx Ej); [by destruct (sat t cur), (all_sat t out), (xsat t xf)|].
      rewrite (Hsc t), (proj2 (Hfo t)). by apply (Ht t true).
    + destruct (Nat.eqb_spec j 2) as [Hj2|Hj2].
      * eexists. split; [reflexivity|]. cbv beta iota. intros t. specialize (Ht t false eq_refl). simpl in Ht.
        rewrite (proj2 (Z.eqb_eq (sk_strategy (sk_head cur)) 3)) in Ht by lia. rewrite <- Hsc, <- (proj2 (Hfo t)) in Ht.
        destruct (sat t cur) eqn:Ec; [|done]. simpl in *. rewrite andb_false_iff. right.
        apply not_true_iff_false. rewrite xsat_true. intros H. rewrite (H j old Ej) in Ht. done.
      * eexists. split; [reflexivity|]. cbv beta iota. split; [done|]. intros t. specialize (Ht t false eq_refl). simpl in Ht.
        rewrite (proj2 (Z.eqb_neq (sk_strategy (sk_head cur)) 3)) in Ht by lia. rewrite <- Hsc, <- (proj2 (Hfo t)) in Ht.
        destruct (xsat t xf) eqn:Ex; [|by rewrite !andb_false_r]. rewrite Ht; [done|]. rewrite xsat_true in Ex. by apply (Ex j).
    + exact Hemit.
  - eexists. split; [reflexivity|]. cbv beta iota. split; [done|]. intros t.
    rewrite (xsat_new a xf j cur t Hx Hj Ej). by destruct (sat t cur), (all_sat t out), (xsat t xf).
Qed.

(** *** All keys *)

Definition attno_of (sk : ScanKey) : Z := sk_attno (sk_head sk).

Lemma preprocess_loop_run keys a n xf out : Forall raw_key keys -> Sorted Z.le (a :: (attno_of <$> keys)) -> pre_ok a n xf out ->
  exists o, preprocess_loop indoption opcintype opfamily keys a n xf out = Val o /\
    match o with
    | None => forall t, all_sat t keys && (all_sat t out && xsat t xf) = false
    | Some out' => outs out' /\ (forall t, all_sat t out' = all_sat t keys && (all_sat t out && xsat t xf))
    end.
Proof.
  intros Hraw. revert a n xf out. induction Hraw as [|cur keys Hcur _ IH]; intros a n xf out Hsort Hpre; cbn [preprocess_loop].
  { destruct (finish_attr_run a n xf out Hpre) as (o & -> & Ho). cbn [rbind]. eexists. split; [reflexivity|].
    destruct o as [[n' out']|]; simpl; [|done]. by destruct Ho as (? & _ & _ & _ & ?). }
  rewrite fmap_cons in Hsort. inversion Hsort as [|? ? Hsort' Hle]; subst. inversion Hle; subst.
  assert (Hs' : Sorted Z.le (attno_of cur :: (attno_of <$> keys))) by done.
  destruct (fix_key_run cur Hcur) as (cur' & ok & -> & Hat & Hok). cbn [rbind]. rewrite Hat. fold (attno_of cur).
  destruct ok; cbn [negb]; [|exists None; split; [done|]; intros t; unfold all_sat at 1; simpl; by rewrite (proj2 (proj2 Hok))].
  destruct Hok as (Hfix & Hun & Hsat). fold (attno_of cur) in Hfix.
  assert (Hcons : forall t b, all_sat t (cur :: keys) && b = all_sat t keys && (sat t cur && b)).
  { intros t b. unfold all_sat. simpl. by destruct (sat t cur), (forallb (sat t) keys), b. }
  assert (Hstep : forall a' n' xf' out', pre_ok a' n' xf' out' -> a' = attno_of cur ->
    (forall t, all_sat t out' && xsat t xf' = all_sat t out && xsat t xf) ->
    exists o, (let? r := add_key opcintype opfamily cur' a' n' xf' out' in
      match r with None => Val None | Some (xf, out) => preprocess_loop indoption opcintype opfamily keys a' n' xf out end) = Val o /\
    match o with
    | None => forall t, all_sat t (cur :: keys) && (all_sat t out && xsat t xf) = false
    | Some out'' => outs out'' /\ (forall t, all_sat t out'' = all_sat t (cur :: keys) && (all_sat t out && xsat t xf))
    end).
  { intros a' n' xf' out' Hpre' -> Heq.
    destruct (add_key_run _ n' xf' out' cur' Hpre' Hfix Hun) as (o & -> & Ho). cbn [rbind].
    destruct o as [[xf2 out2]|]; [|exists None; split; [done|]; intros t; rewrite Hcons, <- Heq, <- Hsat, Ho; apply andb_false_r].
    destruct Ho as [Hpre2 Heq2]. destruct (IH _ n' xf2 out2 Hs' Hpre2) as (o & -> & Ho). exists o. split; [done|].
    destruct o as [out3|]; [destruct Ho as [Ho1 Ho2]; split; [done|]|]; intros t; rewrite Hcons, <- Heq, <- Hsat, <- Heq2; auto. }
  destruct (Z.eqb_spec (attno_of cur) a) as [Heq|Hne]; [rewrite Heq in *; by apply Hstep|].
  rewrite (proj2 (Z.ltb_ge _ _)) by lia.
  destruct (finish_attr_run a n xf out Hpre) as (o & -> & Ho). cbn [rbind].
  destruct o as [[n' out']|]; [|exists None; split; [done|]; intros t; rewrite Ho; apply andb_false_r].
  destruct Ho as (Ho1 & Ho2 & Ho3 & Ho5 & Ho4). apply (Hstep (attno_of cur) n' no_keys out'); [|done|].
  - destruct Hpre. split; try done; try lia; [apply no_keys_ok|intros Hn b Hb; apply (Ho3 ltac:(lia)); lia|]. intros x Hx. specialize (Ho5 x Hx). lia.
  - intros t. by rewrite Ho4, xsat_no_keys, andb_true_r.
Qed.

Lemma preprocess_keys_run keys : Forall raw_key keys -> Sorted Z.le (attno_of <$> keys) ->
  exists qual_ok out, _abt_preprocess_keys indoption opcintype opfamily keys = Val (qual_ok, out) /\
    (forall t, all_sat t keys = qual_ok && all_sat t out) /\ (qual_ok = true -> outs out).
Proof.
  intros Hraw Hsort. destruct keys as [|cur rest]; unfold _abt_preprocess_keys; [eexists true, []; eauto using outs_nil|].
  assert (Ha : 1 <= attno_of cur) by (inversion Hraw as [|? ? Hc]; apply (rk_flags _ Hc)).
  rewrite (proj2 (Z.ltb_ge _ _)) by (unfold attno_of in Ha; lia). destruct rest as [|cur2 rest].
  - inversion Hraw as [|? ? Hcur]; subst. destruct (fix_key_run cur Hcur) as (cur' & ok & -> & Hat & Hok). cbn [rbind].
    assert (exists out, (if sk_attno (sk_head cur') =? 1 then _abt_mark_scankey_required cur' else Val cur') = Val out /\
      (ok = true -> (forall t, sat t out = sat t cur) /\ outs [out])) as (out & -> & Hout).
    { destruct ok.
      - destruct Hok as (Hf & Hu & Hs).
        destruct (emit_run (sk_attno (sk_head cur') =? 1) _ cur' [] outs_nil Hf Hu) as (out & He & Ho & _ & _ & _ & Hs').
        { rewrite Hat. intros E%Z.eqb_eq b Hb. lia. }
        { by intros x ?%elem_of_nil. }
        unfold emit in He. exists out. destruct (if _ =? 1 then _ else _) as [x|] eqn:E; [|done]. injection He as ->.
        split; [done|]. intros _. split; [intros t; by rewrite Hs', Hs|done].
      - destruct (_ =? 1); [|by exists cur']. destruct Hok as (Hst & Hrow & _). unfold _abt_mark_scankey_required.
        destruct (required_flags_run _ Hst) as (f & -> & Hsame & _). cbn [rbind].
        rewrite Hsame, Hrow by plain_flag. by eexists. }
    cbn [rbind]. eexists _, _. split; [reflexivity|]. unfold all_sat. simpl.
    destruct ok; [|split; [intros t; rewrite !andb_true_r; apply Hok|done]].
    split; [|by intros _; apply Hout]. intros t. by rewrite (proj1 (Hout eq_refl)).
  - destruct (preprocess_loop_run (cur :: cur2 :: rest) 1 0 no_keys [] Hraw) as (o & -> & Ho).
    { constructor; [done|]. by constructor. }
    { split; try done; [constructor|apply no_keys_ok|intros _ b Hb; lia|by intros x ?%elem_of_nil]. }
    cbn [rbind]. destruct o as [out|]; eexists _, _; (split; [reflexivity|]); (split; [intros t|]); try done.
    + rewrite (proj2 Ho t), xsat_no_keys. simpl. by rewrite andb_true_r.
    + intros _. apply Ho.
    + specialize (Ho t). rewrite xsat_no_keys in Ho. simpl in Ho. by rewrite andb_true_r in Ho.
Qed.

(** C17: Scan key preprocessing keeps the meaning of the quals.  On keys ordered by
    attribute, it ends without an error; if it reports that the quals cannot be satisfied
    then no tuple satisfies them, and otherwise a tuple satisfies the output keys exactly
    when it satisfies the input keys. *)
Theorem preprocess_keys_equivalent keys : Forall raw_key keys -> Sorted Z.le (attno_of <$> keys) ->
  exists qual_ok out, _abt_preprocess_keys indoption opcintype opfamily keys = Val (qual_ok, out) /\
    (forall t, all_sat t keys = qual_ok && all_sat t out).
Proof.
  intros Hraw Hsort. destruct (preprocess_keys_run keys Hraw Hsort) as (ok & out & Hrun & Hs & _). by exists ok, out.
Qed.

(** ** Ending a scan *)

Definition value (t : list (option Z)) (a : Z) : option (Z * Z) := pair (opcintype a) <$> attr t a.

(** [t'] comes after [t] in the direction of the scan, as far as the first [n] columns
    tell: where they agree on the columns before [a], column [a] does not go back. *)
Definition sign (dir : ScanDirection) : Z := match dir with Forward => 1 | Backward => -1 end.
Definition after (n : Z) (dir : ScanDirection) (t t' : list (option Z)) : Prop :=
  forall a, 1 <= a <= Z.min n nkeys -> (forall b, 1 <= b < a -> icmp b (value t b) (value t' b) = 0) ->
    0 <= sign dir * icmp a (value t' a) (value t a).

(** The scan has reached the equality keys: where all columns up to [a] have some and [t]
    satisfies those of the columns before [a], it is not before one of column [a]. *)
Definition positioned (n : Z) (dir : ScanDirection) (out : list ScanKey) (t : list (option Z)) : Prop :=
  forall a, 1 <= a <= n -> eq_before (a + 1) out ->
    (forall b e', 1 <= b < a -> e' ∈ out -> eq_key b e' -> sat t e' = true) ->
    exists e, e ∈ out /\ eq_key a e /\ 0 <= sign dir * icmp a (value t a) (key_arg (sk_head e)).

Lemma eq_key_sat b e t : eq_key b e -> sat t e = true -> icmp b (value t b) (key_arg (sk_head e)) = 0.
Proof.
  intros ((Ha & _ & Hf) & Hr & Hs). rewrite Hr in Hf. unfold sat. rewrite Hr, Ha, (sat_key_holds b _ _ Hf), Hs.
  unfold holds. simpl. intros H. by zbool.
Qed.

Lemma eq_key_sat_inv b e t : eq_key b e -> icmp b (value t b) (key_arg (sk_head e)) = 0 -> sat t e = true.
Proof.
  intros ((Ha & _ & Hf) & Hr & Hs) E. rewrite Hr in Hf. unfold sat. rewrite Hr, Ha, (sat_key_holds b _ _ Hf), Hs. unfold value in E. by rewrite E.
Qed.

(** The direction's marks on a key allow only the strategies that bound it. *)
Lemma continue_false dir k (Hfw : flag k SK_ABT_REQFWD = true -> sk_strategy k <= 3) (Hbw : flag k SK_ABT_REQBKWD = true -> 3 <= sk_strategy k) :
  continue_after dir k = false -> sign dir * sk_strategy k <= sign dir * 3 /\ required k = true.
Proof.
  unfold continue_after, required. destruct dir; simpl; rewrite ?andb_true_r, ?andb_false_r, ?orb_false_r; simpl;
    intros H%negb_false_iff; (split; [first [specialize (Hfw H)|specialize (Hbw H)]; lia|rewrite H; by rewrite ?orb_true_r]).
Qed.

Lemma continue_null_false dir k : continue_after_null dir k = false ->
  required k = true /\ flag k SK_ABT_NULLS_FIRST = negb (ScanDirectionIsForward dir).
Proof.
  unfold continue_after_null, required. assert (Hor : flag k (Z.lor SK_ABT_REQFWD SK_ABT_REQBKWD) = flag k SK_ABT_REQFWD || flag k SK_ABT_REQBKWD).
  { unfold flag. rewrite Z.land_lor_distr_r. destruct (Z.eqb_spec (Z.land (sk_flags k) SK_ABT_REQFWD) 0) as [->|Hn]; [by rewrite Z.lor_0_l|].
    simpl. apply negb_true_iff, Z.eqb_neq. intros H%Z.lor_eq_0_iff. tauto. }
  rewrite Hor. destruct (flag k SK_ABT_NULLS_FIRST), dir; simpl; rewrite ?andb_true_r, ?andb_false_r; intros H%negb_false_iff; done.
Qed.

(** A bound in the scan's direction, failed once, fails ever after. *)
Lemma bound_stays dir a strat x x' y : 1 <= strat <= 5 -> sign dir * strat <= sign dir * 3 ->
  (strat = 3 -> 0 <= sign dir * icmp a x y) -> 0 <= sign dir * icmp a x' x ->
  holds strat (icmp a x y) = false -> holds strat (icmp a x' y) = false.
Proof.
  intros Hs Hd Hp Hle. pose proof (icmp_facts a x x' y).
  unfold holds, BTLessStrategyNumber, BTLessEqualStrategyNumber, BTEqualStrategyNumber, BTGreaterEqualStrategyNumber, BTGreaterStrategyNumber.
  assert (strat = 1 \/ strat = 2 \/ strat = 3 \/ strat = 4 \/ strat = 5) as [->|[->|[->|[->| ->]]]] by lia;
    destruct dir; simpl in *; try lia; intros; zbool; try specialize (Hp eq_refl); lia.
Qed.

Lemma checkkeys_app t natts dir l k :
  _abt_checkkeys t natts dir (l ++ k) =
  match _abt_checkkeys t natts dir l with Val (true, _) => _abt_checkkeys t natts dir k | r => r end.
Proof.
  induction l as [|sk l IH]; [done|]. cbn [app _abt_checkkeys]. destruct (natts <? _); [done|].
  destruct (flag (sk_head sk) SK_ROW_HEADER).
  { by destruct (_abt_check_rowcompare t natts dir sk) as [[[|] c]|]; simpl. }
  destruct (index_getattr t _) as [v|]; simpl; [|done]. destruct (flag (sk_head sk) SK_ISNULL).
  - by destruct (if flag (sk_head sk) SK_SEARCHNULL then _ else _).
  - destruct v as [d|]; [|done]. by destruct (DatumGetBool _).
Qed.

Lemma unmarked_continues dir k : required k = false -> continue_after dir k = true /\ continue_after_null dir k = true.
Proof.
  intros Hr. split.
  - unfold continue_after, required in *. apply orb_false_iff in Hr as [H1 H2]. by rewrite H1, H2.
  - destruct (continue_after_null dir k) eqn:E; [done|]. apply continue_null_false in E as [E _]. congruence.
Qed.

(** Behind the first member nothing ends the scan, except a NULL argument right after it. *)
Lemma tail_loop t natts dir prev row r : row_unmarked row -> row_loop t natts dir prev row = Val r ->
  match r with
  | inl (k, _) => required k = false
  | inr c => c = true \/ exists p k row', prev = Some p /\ row = k :: row' /\ flag k SK_ISNULL = true /\ c = continue_after dir p
  end.
Proof.
  revert prev. induction row as [|k row IH]; intros prev; simpl; [done|]. intros [Hu Hr].
  destruct (unmarked_continues dir k Hu) as [Hc Hcn].
  assert (Hnext : row_loop t natts dir (Some k) row = Val r -> flag k SK_ROW_END = false ->
    match r with inl (k, _) => required k = false | inr c => c = true end).
  { intros E Hend. destruct Hr as [|Hr]; [congruence|]. specialize (IH _ Hr E). destruct r as [[? ?]|c]; [done|].
    destruct IH as [|(p & k' & row' & [= <-] & _ & _ & ->)]; done. }
  assert (Hweak : match r with inl (k, _) => required k = false | inr c => c = true end ->
    match r with inl (k, _) => required k = false | inr c => c = true \/ exists p k0 row', prev = Some p /\ k :: row = k0 :: row' /\
      flag k0 SK_ISNULL = true /\ c = continue_after dir p end) by (destruct r as [[? ?]|?]; auto).
  destruct (natts <? sk_attno k).
  { destruct (flag k SK_ROW_END) eqn:Eend; [by intros [= <-]|intros E; by apply Hweak, Hnext]. }
  destruct (index_getattr t (sk_attno k)) as [v|]; simpl; [|done]. destruct v as [d|]; [|intros [= <-]; by left].
  destruct (flag k SK_ISNULL) eqn:En.
  { intros [= <-]. destruct prev as [p|]; simpl; [right; by exists p, k, row|by left]. }
  destruct (negb _); [by intros [= <-]|]. destruct (flag k SK_ROW_END) eqn:Eend; [by intros [= <-]|intros E; by apply Hweak, Hnext].
Qed.

Section Stop.
Context (dir : ScanDirection) (t t' : index_tuple) (natts : Z).
Context (Hn : Z.min nkeys natts <= Z.of_nat (length (tuple_key t))).

Lemma getattr_upto a : 1 <= a <= nkeys -> a <= natts -> index_getattr t a = Some (attr (tuple_key t) a).
Proof. intros Ha Hna. apply (getattr_attr t a (Z.min nkeys natts)); lia. Qed.

(** The sign of a member's comparison is the order of the index. *)
Lemma member_sign k d : fixed_member k ->
  Z.sgn (if flag k SK_ABT_DESC then INVERT_COMPARE_RESULT (sk_func k d (sk_argument k)) else sk_func k d (sk_argument k)) =
  Z.sgn (icmp (sk_attno k) (Some (opcintype (sk_attno k), d)) (Some (arg_type opcintype k (sk_attno k), sk_argument k))).
Proof.
  intros [_ _ Hd _ Ho]. rewrite Hd. unfold icmp. specialize (Ho d (sk_argument k)).
  destruct (desc (sk_attno k)); [|done]. rewrite invert_sgn, Z.sgn_opp, Ho.
  pose proof (of_sym (sk_attno k) (opcintype (sk_attno k), d) (arg_type opcintype k (sk_attno k), sk_argument k)).
  pose proof (of_sym (sk_attno k) (arg_type opcintype k (sk_attno k), sk_argument k) (opcintype (sk_attno k), d)). lia.
Qed.

Lemma attr_none_after a : 0 <= sign dir * icmp a (value (tuple_key t') a) None -> nulls_first a = negb (ScanDirectionIsForward dir) ->
  attr (tuple_key t') a = None.
Proof.
  unfold value, icmp. intros H Hnf. rewrite Hnf in H. destruct (attr _ a); [|done]. destruct dir; simpl in H; lia.
Qed.

Lemma stop_row a sk : fixed_key a sk -> a <= natts -> marks_ok sk -> flag (sk_head sk) SK_ROW_HEADER = true ->
  _abt_check_rowcompare t natts dir sk = Val (false, false) ->
  (required (sk_head sk) = true -> 0 <= sign dir * icmp a (value (tuple_key t') a) (value (tuple_key t) a)) ->
  row_sat (sk_row sk) (tuple_key t') = false.
Proof.
  intros (Ha & _ & Hf) Hna (Hfw & Hbw & Hrow) Hr. rewrite Hr in Hf. destruct Hf as (_ & Hh & Hfix). specialize (Hrow Hr).
  unfold row_header_ok in Hh. destruct sk as [k [|m row]]; simpl in *; [done|]. destruct Hh as (Hma & Hms & _).
  destruct Hrow as [[Hmf Hmb] Htail]. destruct Hfix as [Hm _]. unfold _abt_check_rowcompare. simpl.
  pose proof (fm_attno _ Hm) as Hat. rewrite (proj2 (Z.ltb_ge _ _)), getattr_upto by lia. cbn [the rbind].
  assert (Hreq : required k = required m) by (unfold required; by rewrite Hmf, Hmb). rewrite Hreq. intros Hc Hle.
  rewrite <- Hma in Ha. subst a.
  assert (Hbound : continue_after dir m = false -> sign dir * sk_strategy m <= sign dir * 3 /\ required m = true).
  { apply continue_false; rewrite ?Hmf, ?Hmb, Hms; done. }
  destruct (attr (tuple_key t) (sk_attno m)) as [d|] eqn:Ed.
  2: { injection Hc as Hc. apply continue_null_false in Hc as [Hq Hnf]. rewrite (fm_nulls _ Hm) in Hnf.
       specialize (Hle Hq). unfold value in Hle at 2. rewrite Ed in Hle. by rewrite (attr_none_after _ Hle Hnf). }
  destruct (attr (tuple_key t') (sk_attno m)) as [d'|] eqn:Ed'; [|done]. destruct (flag m SK_ISNULL) eqn:En; [done|].
  unfold value in Hle. rewrite Ed, Ed' in Hle. simpl in Hle.
  pose proof (member_sign m d Hm) as Hsd. pose proof (member_sign m d' Hm) as Hsd'.
  pose proof (icmp_facts (sk_attno m) (Some (opcintype (sk_attno m), d)) (Some (opcintype (sk_attno m), d'))
    (Some (arg_type opcintype m (sk_attno m), sk_argument m))) as Hfacts.
  pose proof (fm_strategy _ Hm) as Hst.
  assert (Hz : forall x, (sk_func m x (sk_argument m) =? 0) =
    ((if flag m SK_ABT_DESC then INVERT_COMPARE_RESULT (sk_func m x (sk_argument m)) else sk_func m x (sk_argument m)) =? 0)).
  { intros x. apply Bool.eq_iff_eq_true. rewrite !Z.eqb_eq. unfold INVERT_COMPARE_RESULT. repeat if_case; lia. }
  rewrite Hz. set (r := if flag m SK_ABT_DESC then _ else sk_func m d (sk_argument m)) in *.
  set (r' := if flag m SK_ABT_DESC then _ else sk_func m d' (sk_argument m)) in *.
  assert (Hdec : holds (sk_strategy m) r = false -> continue_after dir m = false -> r <> 0 \/ flag m SK_ROW_END = true ->
    holds (sk_strategy m) r' = false /\ (r' <> 0 \/ flag m SK_ROW_END = true)).
  { intros Hh Hct Hd. destruct (Hbound Hct) as [Hs Hq]. specialize (Hle Hq). split.
    - rewrite (holds_sgn _ r' _ Hsd'). rewrite (holds_sgn _ r _ Hsd) in Hh.
      apply (bound_stays dir _ _ (Some (opcintype (sk_attno m), d))); try done; unfold row_strategy in Hst; lia.
    - destruct Hd as [Hd|Hd]; [left|by right]. unfold holds, BTLessStrategyNumber, BTLessEqualStrategyNumber in Hh.
      destruct Hst as [E|[E|[E|E]]]; rewrite E in *; simpl in *; zbool; destruct dir; simpl in *; lia. }
  assert (Hres : forall b c, (let? result := (if sk_strategy m =? BTLessStrategyNumber then Val (r <? 0)
        else if sk_strategy m =? BTLessEqualStrategyNumber then Val (r <=? 0)
        else if sk_strategy m =? BTGreaterEqualStrategyNumber then Val (0 <=? r)
        else if sk_strategy m =? BTGreaterStrategyNumber then Val (0 <? r) else Raise Elog) in
      Val (result, if result : bool then true else continue_after dir m)) = Val (b, c) ->
    b = holds (sk_strategy m) r /\ c = (if b : bool then true else continue_after dir m)).
  { intros b c. destruct Hst as [E|[E|[E|E]]]; rewrite E; simpl; by intros [= <- <-]. }
  destruct (negb (r =? 0)) eqn:Er.
  { apply Hres in Hc as [Hb Hc]. zbool. destruct (Hdec (eq_sym Hb) (eq_sym Hc) (or_introl Er)) as [Hf [Hd|Hd]].
    - by rewrite (proj2 (Z.eqb_neq _ _) Hd).
    - by rewrite Hd, orb_true_r. }
  zbool. destruct (flag m SK_ROW_END) eqn:Eend.
  { apply Hres in Hc as [Hb Hc]. rewrite orb_true_r.
    by destruct (Hdec (eq_sym Hb) (eq_sym Hc) (or_intror eq_refl)). }
  rewrite orb_false_r. destruct Htail as [|Htail]; [done|].
  destruct (row_loop t natts dir (Some m) row) as [res|] eqn:El; [|done]. cbn [rbind] in Hc.
  pose proof (tail_loop _ _ _ _ _ _ Htail El) as Ht. destruct res as [[k' c']|c'].
  { destruct (unmarked_continues dir k' Ht) as [Hk _]. exfalso. revert Hc. repeat case_match; simpl; intros; try congruence;
      match goal with H : Val (?b, _) = Val (false, false) |- _ => destruct b; congruence end. }
  injection Hc as ->. destruct Ht as [|(p & k2 & row' & [= <-] & -> & Hnull & Hcp)]; [done|].
  destruct (Z.eqb_spec r' 0) as [Hr0|Hr0]; simpl.
  - destruct (attr (tuple_key t') (sk_attno k2)); [|done]. by rewrite Hnull.
  - destruct (Hbound (eq_sym Hcp)) as [Hs Hq]. specialize (Hle Hq).
    unfold holds, BTLessStrategyNumber, BTLessEqualStrategyNumber, BTEqualStrategyNumber, BTGreaterEqualStrategyNumber, BTGreaterStrategyNumber.
    destruct Hst as [E|[E|[E|E]]]; rewrite E in *; simpl in *; zbool; destruct dir; simpl in *; lia.
Qed.

Lemma stop_simple a sk : fixed_key a sk -> a <= natts -> marks_ok sk -> flag (sk_head sk) SK_ROW_HEADER = false ->
  _abt_checkkeys t natts dir [sk] = Val (false, false) ->
  (required (sk_head sk) = true -> 0 <= sign dir * icmp a (value (tuple_key t') a) (value (tuple_key t) a)) ->
  (eq_key a sk -> required (sk_head sk) = true -> 0 <= sign dir * icmp a (value (tuple_key t) a) (key_arg (sk_head sk))) ->
  sat (tuple_key t') sk = false.
Proof.
  intros Hfk Hna (Hfw & Hbw & _) Hr. pose proof Hfk as (Ha & Har & Hf). rewrite Hr in Hf. simpl.
  rewrite (proj2 (Z.ltb_ge _ _)), getattr_upto, Hr by lia. cbn [the rbind]. rewrite Ha. intros Hc Hle Heq.
  unfold sat. rewrite Hr, Ha. set (k := sk_head sk) in *. set (v := attr (tuple_key t) a) in *.
  assert (Hsat : sat_key k v = false -> continue_after dir k = false ->
    sk_strategy k = 3 \/ v <> None \/ flag k SK_ISNULL = true -> sat_key k (attr (tuple_key t') a) = false).
  { intros Hs Hct Hv. destruct (continue_false dir k Hfw Hbw Hct) as [Hst Hq].
    rewrite (sat_key_holds a k v Hf) in Hs. rewrite (sat_key_holds a k _ Hf). apply andb_false_iff. right.
    apply (bound_stays dir a _ (value (tuple_key t) a)); [apply (fs_strategy _ _ Hf)|done| |by apply Hle|].
    { intros E. apply Heq; [|done]. by split. }
    apply andb_false_iff in Hs as [Hs|Hs]; [|done]. apply orb_false_iff in Hs as [Hs3 Hvn]. zbool.
    apply bool_decide_eq_false in Hvn. assert (Hv0 : v = None) by (destruct v; [|done]; by destruct Hvn).
    destruct Hv as [|[|Hnull]]; [done|done|]. unfold value. fold v. rewrite Hv0. unfold key_arg. rewrite Hnull. simpl.
    pose proof (fs_null _ _ Hf Hnull) as Hk. destruct (flag k SK_SEARCHNULL); [done|]. destruct Hk as [_ ->].
    by destruct (nulls_first a). }
  destruct (flag k SK_ISNULL) eqn:En.
  - apply Hsat; [| |by right; right].
    + unfold sat_key. rewrite En. pose proof (fs_null _ _ Hf En). destruct (flag k SK_SEARCHNULL); case_bool_decide; try done. by rewrite andb_false_r.
    + revert Hc. by case_match; intros [=].
  - destruct v as [d|] eqn:Ev.
    + destruct (DatumGetBool _) eqn:Ed; [done|]. injection Hc as Hc. apply Hsat; [|done|by right; left].
      unfold sat_key. by rewrite En.
    + injection Hc as Hc. apply continue_null_false in Hc as [Hq Hnf]. rewrite (fs_nulls _ _ Hf) in Hnf.
      specialize (Hle Hq). unfold value in Hle at 2. fold v in Hle. rewrite Ev in Hle.
      rewrite (attr_none_after _ Hle Hnf). unfold sat_key. by rewrite En.
Qed.

Lemma checkkeys_true out c : _abt_checkkeys t natts dir out = Val (true, c) -> c = true.
Proof.
  induction out as [|sk out IH]; cbn [_abt_checkkeys]; [by intros [= <-]|]. destruct (natts <? _); [done|]. destruct (flag (sk_head sk) SK_ROW_HEADER).
  { destruct (_abt_check_rowcompare t natts dir sk) as [[[|] c']|]; simpl; done. }
  destruct (index_getattr t _) as [v|]; simpl; [|done]. destruct (flag (sk_head sk) SK_ISNULL); [by destruct (if flag (sk_head sk) SK_SEARCHNULL then _ else _)|].
  destruct v as [d|]; [|done]. by destruct (DatumGetBool _).
Qed.

(** Simple keys on columns that are present hold when the check passes. *)
Lemma checkkeys_sat out c a e : Forall (key_good nkeys) out -> _abt_checkkeys t natts dir out = Val (true, c) -> e ∈ out -> fixed_key a e ->
  a <= natts -> flag (sk_head e) SK_ROW_HEADER = false -> sat (tuple_key t) e = true.
Proof.
  induction 1 as [|sk out [Har _ Hnull] _ IH]; [by intros _ ?%elem_of_nil|]. intros Hck Hin Hfix Ha Hr. cbn [_abt_checkkeys] in Hck.
  assert (Hrest : _abt_checkkeys t natts dir out = Val (true, c) -> e ∈ out -> sat (tuple_key t) e = true) by auto.
  apply elem_of_cons in Hin as [->|Hin].
  - rewrite (proj1 Hfix), (proj2 (Z.ltb_ge _ _)), Hr, getattr_upto in Hck by (rewrite ?(proj1 Hfix) in *; lia). cbn [the rbind] in Hck.
    unfold sat, sat_key. rewrite Hr, (proj1 Hfix). destruct (flag (sk_head sk) SK_ISNULL).
    + destruct (flag (sk_head sk) SK_SEARCHNULL); case_bool_decide; try done. destruct (Hnull eq_refl) as [|Hs]; [done|by rewrite Hs].
    + destruct (attr (tuple_key t) a); [|done]. by destruct (DatumGetBool _).
  - destruct (natts <? _); [by apply Hrest|]. destruct (flag (sk_head sk) SK_ROW_HEADER).
    { destruct (_abt_check_rowcompare t natts dir sk) as [[[|] c']|]; simpl in Hck; try done. by apply Hrest. }
    destruct (index_getattr t _) as [v|]; simpl in Hck; [|done]. destruct (flag (sk_head sk) SK_ISNULL).
    + destruct (if flag (sk_head sk) SK_SEARCHNULL then _ else _); [by apply Hrest|done].
    + destruct v as [d|]; [|done]. destruct (DatumGetBool _); [by apply Hrest|done].
Qed.

(** The check of a tuple that lacks columns does not fail either. *)
Lemma row_loop_defined prev row : row_good nkeys row ->
  exists r, row_loop t natts dir prev row = Val r /\ match r with inl (k, _) => row_strategy (sk_strategy k) | inr _ => True end.
Proof.
  revert prev. induction row as [|k row IH]; intros prev; [done|]. intros (Ha & Hs & Hr). cbn [row_loop].
  assert (Hnext : flag k SK_ROW_END = false -> exists r, row_loop t natts dir (Some k) row = Val r /\ match r with inl (k, _) => row_strategy (sk_strategy k) | inr _ => True end).
  { intros E. destruct Hr as [|Hr]; [congruence|]. by apply IH. }
  destruct (Z.ltb_spec natts (sk_attno k)); [destruct (flag k SK_ROW_END); [by eexists|by apply Hnext]|].
  rewrite getattr_upto by lia. cbn [the rbind]. destruct (attr _ _); [|by eexists]. destruct (flag k SK_ISNULL); [by eexists|].
  destruct (negb _); [by eexists|]. destruct (flag k SK_ROW_END); [by eexists|by apply Hnext].
Qed.

Lemma checkkeys_defined out : Forall (key_good nkeys) out -> exists r c, _abt_checkkeys t natts dir out = Val (r, c).
Proof.
  induction 1 as [|sk out [Har Hrow _] _ IH]; [by eexists _, _|]. cbn [_abt_checkkeys]. destruct (Z.ltb_spec natts (sk_attno (sk_head sk))); [done|].
  destruct (flag (sk_head sk) SK_ROW_HEADER).
  { unfold _abt_check_rowcompare. destruct (row_loop_defined None (sk_row sk) (Hrow eq_refl)) as ([[k c]|c] & -> & Hk); cbn [rbind]; [|by eexists _, _].
    destruct Hk as [E|[E|[E|E]]]; rewrite E; simpl; match goal with |- context [if ?b then _abt_checkkeys _ _ _ _ else _] => destruct b end; try done; by eexists _, _. }
  rewrite getattr_upto by lia. cbn [the rbind]. destruct (flag (sk_head sk) SK_ISNULL).
  - destruct (if flag (sk_head sk) SK_SEARCHNULL then _ else _); [done|by eexists _, _].
  - destruct (attr _ _); [|by eexists _, _]. destruct (DatumGetBool _); [done|by eexists _, _].
Qed.

(** The key a check stops at, and the keys before it. *)
Lemma check_stops out : outs out -> _abt_checkkeys t natts dir out = Val (false, false) ->
  exists l a sk l' c, out = l ++ sk :: l' /\ outs l /\ fixed_key a sk /\ marks_ok sk /\ (required (sk_head sk) = true -> eq_before a l) /\
    _abt_checkkeys t natts dir l = Val (true, c) /\ _abt_checkkeys t natts dir [sk] = Val (false, false).
Proof.
  induction 1 as [|out sk a Hout IH Hfix Hm Hreq _]; [done|]. rewrite checkkeys_app.
  destruct (_abt_checkkeys t natts dir out) as [[[|] c]|] eqn:E; [| |done].
  - intros Hck. by exists out, a, sk, [], c.
  - intros [= ->]. destruct (IH eq_refl) as (l & b & x & l' & c & -> & H). exists l, b, x, (l' ++ [sk]), c. by rewrite <- app_assoc.
Qed.

Lemma stop_outs out : outs out -> positioned natts dir out (tuple_key t) -> after natts dir (tuple_key t) (tuple_key t') ->
  _abt_checkkeys t natts dir out = Val (false, false) -> all_sat (tuple_key t') out = false.
Proof.
  intros Hout Hpos Haft Hck. destruct (all_sat (tuple_key t') out) eqn:Eall'; [|done].
  destruct (check_stops out Hout Hck) as (l & a & sk & l' & c & -> & Hl & Hfix & Hm & Hreq & Hlt & Hsk). exfalso.
  unfold all_sat in Eall'. rewrite List.forallb_forall in Eall'.
  assert (Hall : forall e, e ∈ l ++ sk :: l' -> sat (tuple_key t') e = true) by (intros e He; apply Eall'; by apply list_elem_of_In).
  assert (Hna : a <= natts).
  { cbn [_abt_checkkeys] in Hsk. rewrite (proj1 Hfix) in Hsk. destruct (Z.ltb_spec natts a); [done|lia]. }
  assert (Hpre : required (sk_head sk) = true -> forall b, 1 <= b < a -> exists e, e ∈ l /\ eq_key b e /\ sat (tuple_key t) e = true).
  { intros Hq b Hb. destruct (Hreq Hq b Hb) as (e & He & Hk). exists e. split; [done|]. split; [done|].
    apply (checkkeys_sat l c b e (outs_good _ Hl) Hlt He (proj1 Hk)); [lia|apply Hk]. }
  assert (Hle : required (sk_head sk) = true -> 0 <= sign dir * icmp a (value (tuple_key t') a) (value (tuple_key t) a)).
  { intros Hq. apply Haft; [destruct Hfix as (_ & ? & _); lia|]. intros b Hb. destruct (Hpre Hq b Hb) as (e & He & Hk & Hs).
    pose proof (eq_key_sat _ _ _ Hk Hs). pose proof (eq_key_sat _ _ _ Hk (Hall e ltac:(apply elem_of_app; by left))).
    pose proof (icmp_facts b (value (tuple_key t) b) (value (tuple_key t') b) (key_arg (sk_head e))). lia. }
  assert (Hsat' : sat (tuple_key t') sk = true) by (apply Hall, elem_of_app; right; by left).
  destruct (flag (sk_head sk) SK_ROW_HEADER) eqn:Er.
  - unfold sat in Hsat'. rewrite Er in Hsat'. rewrite (stop_row a sk) in Hsat'; try done.
    revert Hsk. destruct Hfix as (Ha & Har & _). simpl. rewrite (proj2 (Z.ltb_ge _ _)), Er by lia.
    destruct (_abt_check_rowcompare t natts dir sk) as [[[|] c']|]; simpl; congruence.
  - rewrite (stop_simple a sk) in Hsat'; try done. intros He Hq.
    destruct (Hpos a) as (e' & He' & Hk' & Hle').
    { destruct Hfix as (_ & ? & _). lia. }
    { intros b Hb. destruct (decide (b = a)) as [->|]; [exists sk; split; [apply elem_of_app; right; by left|done]|].
      apply (eq_before_app a l (sk :: l') (Hreq Hq) b). lia. }
    { intros b e' Hb He' Hk'. destruct (Hpre Hq b Hb) as (e0 & He0 & Hk0 & Hs0). pose proof (eq_key_sat _ _ _ Hk0 Hs0) as E1.
      pose proof (eq_key_sat _ _ _ Hk0 (Hall e0 ltac:(apply elem_of_app; by left))) as E2. pose proof (eq_key_sat _ _ _ Hk' (Hall e' He')) as E3.
      apply (eq_key_sat_inv b); [done|]. pose proof (icmp_facts b (value (tuple_key t) b) (value (tuple_key t') b) (key_arg (sk_head e0))).
      pose proof (icmp_facts b (value (tuple_key t) b) (value (tuple_key t') b) (key_arg (sk_head e'))). lia. }
    pose proof (eq_key_sat _ _ _ Hk' (Hall e' He')). pose proof (eq_key_sat _ _ _ He Hsat').
    pose proof (icmp_facts a (value (tuple_key t') a) (key_arg (sk_head e')) (key_arg (sk_head sk))).
    pose proof (icmp_facts a (value (tuple_key t) a) (key_arg (sk_head e')) (key_arg (sk_head sk))). destruct dir; cbn [sign] in *; lia.
Qed.

End Stop.

(** C31: When _abt_checkkeys tells a scan to stop, in either direction, it stops rightly:
    the tuple it stopped at (if it has all key columns) does not match and neither does
    any tuple that follows it in index order, provided the scan started no earlier than
    its equality keys.  The tuple may be a high key with truncated columns. *)
Theorem checkkeys_stop_is_final dir keys out t t' natts r :
  Forall raw_key keys -> Sorted Z.le (attno_of <$> keys) ->
  _abt_preprocess_keys indoption opcintype opfamily keys = Val (true, out) ->
  Z.min nkeys natts <= Z.of_nat (length (tuple_key t)) ->
  positioned natts dir out (tuple_key t) -> after natts dir (tuple_key t) (tuple_key t') ->
  _abt_checkkeys t natts dir out = Val (r, false) ->
  r = false /\ (nkeys <= natts -> all_sat (tuple_key t) keys = false) /\ all_sat (tuple_key t') keys = false.
Proof.
  intros Hraw Hsort Hpre Hn Hpos Haft Hck. destruct (preprocess_keys_run keys Hraw Hsort) as (ok & out' & Hrun & Hs & Ho).
  rewrite Hrun in Hpre. injection Hpre as -> ->. specialize (Ho eq_refl). rewrite !Hs. cbn [andb].
  destruct r; [by apply checkkeys_true in Hck|]. split; [done|]. split; [|by eapply stop_outs].
  intros Hna. destruct (checkkeys_run t nkeys natts dir ltac:(lia) Hna out (outs_good _ Ho)) as (c & Hc & _). rewrite Hc in Hck. by injection Hck as ->.
Qed.

End Family.

(** ** A concrete index *)

(** Two integer columns, the second in descending order. *)
Definition demo_options : list Z := [0; INDOPTION_DESC].
Definition demo_type (a : Z) : Z := 20.
Definition demo_op (strat x y : Z) : Z := Z.b2z (holds strat (x - y)).
Definition demo_family (a lt rt strat : Z) : option (Z -> Z -> Z) := Some (demo_op strat).
Definition demo_cmp (a : Z) (x y : Z * Z) : Z := snd x - snd y.

#[export] Instance demo_OpFamily : OpFamily demo_family demo_cmp.
Proof.
  split; unfold demo_cmp; simpl; try lia. intros a lt rt strat f x y [= <-]. unfold demo_op, DatumGetBool.
  by destruct (holds strat (x - y)).
Qed.

Definition demo_skey (attno strat arg : Z) : ScanKey := mk_ScanKey (mk_skey 0 attno strat 0 (demo_op strat) arg) [].

(** x = 5 AND y < 7 AND y <= 9 *)
Definition demo_quals : list ScanKey := [demo_skey 1 3 5; demo_skey 2 1 7; demo_skey 2 2 9].

Lemma demo_raw_key options attno strat arg : 1 <= attno <= Z.of_nat (length options) -> 1 <= strat <= 5 ->
  raw_key options demo_type demo_cmp (demo_skey attno strat arg).
Proof.
  intros Ha Hs. split; [split; simpl; lia|done..|]. intros _ _. split; [done|]. intros x y. simpl. unfold demo_op, DatumGetBool, demo_cmp.
  simpl. by destruct (holds strat (x - y)).
Qed.

Lemma demo_quals_raw : Forall (raw_key demo_options demo_type demo_cmp) demo_quals.
Proof. do 3 (apply Forall_cons; split; [apply demo_raw_key; simpl; lia|]). constructor. Qed.

Lemma demo_quals_sorted : Sorted Z.le (attno_of <$> demo_quals).
Proof. simpl. unfold attno_of. simpl. do 3 (apply Sorted_cons; [|first [constructor; lia|constructor]]). constructor. Qed.

(** The weaker bound is gone; x = 5 and y < 7 are required, the latter going backward
    because the column is descending. *)
Example demo_preprocess :
  (fun r => match r with
            | Val (ok, out) => Some (ok, (fun sk => (sk_attno (sk_head sk), sk_strategy (sk_head sk), sk_flags (sk_head sk))) <$> out)
            | Raise _ => None
            end) (_abt_preprocess_keys demo_options demo_type demo_family demo_quals) =
  Some (true, [(1, 3, 0x30000); (2, 5, 0x1020000)]).
Proof. vm_compute. reflexivity. Qed.

Lemma preprocess_keys_equivalent_witness :
  exists qual_ok out, _abt_preprocess_keys demo_options demo_type demo_family demo_quals = Val (qual_ok, out) /\
    (forall t, all_sat t demo_quals = qual_ok && all_sat t out).
Proof.
  apply (preprocess_keys_equivalent demo_options demo_type demo_family demo_cmp demo_quals).
  - apply demo_quals_raw.
  - apply demo_quals_sorted.
Defined.

Definition demo_row (x y : Z) : index_tuple := LeafTup (mk_itup [Some x; Some y] 0 None [] [] []).

Definition demo_outkeys : list ScanKey :=
  match _abt_preprocess_keys demo_options demo_type demo_family demo_quals with Val (_, out) => out | Raise _ => [] end.

Lemma demo_positioned : positioned demo_options demo_type demo_cmp 2 Forward demo_outkeys [Some 6; Some 1].
Proof.
  intros a Ha Hb _. destruct (Hb a ltac:(lia)) as (e & He & Hk). exists e. split; [done|]. split; [done|]. assert (demo_outkeys = [nth 0 demo_outkeys (demo_skey 0 0 0); nth 1 demo_outkeys (demo_skey 0 0 0)]) as Hout
    by (vm_compute; reflexivity).
  rewrite Hout, !elem_of_cons in He. destruct He as [->|[->|[]%elem_of_nil]].
  - destruct Hk as ((Ha' & _) & _). vm_compute in Ha'. subst a. vm_compute. congruence.
  - destruct Hk as (_ & _ & Hs). by vm_compute in Hs.
Qed.

Lemma checkkeys_stop_is_final_witness :
  false = false /\ (2 <= 2 -> all_sat [Some 6; Some 1] demo_quals = false) /\ all_sat [Some 6; Some 0] demo_quals = false.
Proof.
  apply (checkkeys_stop_is_final demo_options demo_type demo_family demo_cmp Forward demo_quals demo_outkeys (demo_row 6 1) (demo_row 6 0) 2 false).
  - apply demo_quals_raw.
  - apply demo_quals_sorted.
  - reflexivity.
  - simpl. lia.
  - apply demo_positioned.
  - intros a Ha _. assert (a = 1 \/ a = 2) as [-> | ->] by (simpl in Ha; lia); vm_compute; congruence.
  - reflexivity.
Defined.

End Quals.
