(* ===== verification/ArrayKeys.v ===== *)
(** * Array keys

    Search keys of the form "column op ANY (array)" (abtutils.c): an inequality is
    replaced by a comparison with the least or greatest element, an equality is scanned
    for one element after the other.  Several equality arrays are advanced like the
    digits of a counter, the last one fastest, and the position can be marked and
    restored. *)

From stdpp Require Import base numbers option sorting list.
From S2P Require Import Prelude Page Quals.

Module ArrayKeys.
Import Page Quals.

Definition SK_SEARCHARRAY : Z := 0x0020.

Record ABTArrayKeyInfo := mk_array {
  scan_key : nat;
  cur_elem : Z;
  mark_elem : Z;
  num_elems : Z;
  elem_values : list Z
}.

(** The parts of the scan descriptor that array keys use; [arrayKeyData] is [None] for
    NULL, [keyData] and [qual_ok] are the results of preprocessing. *)
Record array_scan := mk_array_scan {
  numArrayKeys : Z;
  arrayKeyData : option (list ScanKey);
  arrayKeys : list ABTArrayKeyInfo;
  preprocessed : bool;
  inskey : option ABTScanInsertData;
  qual_ok : bool;
  keyData : list ScanKey
}.

Definition set_argument (v : Z) (sk : ScanKey) : ScanKey :=
  let k := sk_head sk in mk_ScanKey (mk_skey (sk_flags k) (sk_attno k) (sk_strategy k) (sk_subtype k) (sk_func k) v) (sk_row sk).

(** Removing duplicates from a sorted array; [j] is the last element kept. *)
Fixpoint qunique_loop (compare : Z -> Z -> Z) (j : Z) (l : list Z) : list Z :=
  match l with
  | [] => [j]
  | i :: l => if compare i j =? 0 then qunique_loop compare j l else j :: qunique_loop compare i l
  end.
Definition qunique_arg (compare : Z -> Z -> Z) (l : list Z) : list Z :=
  match l with [] => [] | j :: l => qunique_loop compare j l end.

Definition _abt_compare_array_elements (proc : Z -> Z -> Z) (reverse : bool) (a b : Z) : Z :=
  let compare := proc a b in if reverse then INVERT_COMPARE_RESULT compare else compare.

Section Arrays.
Context (indoption : list Z) (opcintype : Z -> Z) (opfamily : Z -> Z -> Z -> Z -> option (Z -> Z -> Z)).
(** The order function of a column's operator family for two values of one type; the
    elements of an array value, [None] for NULL; the C library's sort. *)
Context (elem_proc : Z -> Z -> option (Z -> Z -> Z)) (deconstruct_array : Z -> list (option Z)).
Context (qsort_arg : (Z -> Z -> Z) -> list Z -> list Z).

Definition _abt_find_extreme_element (k : skey) (strat : Z) (elems : list Z) : res Z :=
  let elemtype := arg_type opcintype k (sk_attno k) in
  match opfamily (sk_attno k) elemtype elemtype strat with
  | None => Raise Elog
  | Some cmp_proc =>
      let? e := the (head elems) in
      Val (fold_left (fun result e => if DatumGetBool (cmp_proc e result) then e else result) (tail elems) e)
  end.

Definition _abt_sort_array_elements (k : skey) (reverse : bool) (elems : list Z) : res (list Z) :=
  if (length elems <=? 1)%nat then Val elems
  else
    match elem_proc (sk_attno k) (arg_type opcintype k (sk_attno k)) with
    | None => Raise Elog
    | Some proc =>
        let compare := _abt_compare_array_elements proc reverse in
        Val (qunique_arg compare (qsort_arg compare elems))
    end.

(** The loop over the keys, from index [i] on: the keys, the arrays, and whether the end
    was reached. *)
Fixpoint array_loop (keys : list ScanKey) (i : nat) : res (list ScanKey * list ABTArrayKeyInfo * bool) :=
  match keys with
  | [] => Val ([], [], true)
  | cur :: keys =>
      let k := sk_head cur in
      if negb (flag k SK_SEARCHARRAY) then
        let? (ks, arrays, ok) := array_loop keys (S i) in Val (cur :: ks, arrays, ok)
      else
        let elems := omap id (deconstruct_array (sk_argument k)) in
        match elems with
        | [] => Val (cur :: keys, [], false)
        | _ :: _ =>
            let strat := sk_strategy k in
            if (strat =? BTLessStrategyNumber) || (strat =? BTLessEqualStrategyNumber) then
              let? v := _abt_find_extreme_element k BTGreaterStrategyNumber elems in
              let? (ks, arrays, ok) := array_loop keys (S i) in Val (set_argument v cur :: ks, arrays, ok)
            else if strat =? BTEqualStrategyNumber then
              let? opt := the (indoption !! Z.to_nat (sk_attno k - 1)) in
              let? elems := _abt_sort_array_elements k (negb (Z.land opt INDOPTION_DESC =? 0)) elems in
              let? (ks, arrays, ok) := array_loop keys (S i) in
              Val (cur :: ks, mk_array i 0 0 (Z.of_nat (length elems)) elems :: arrays, ok)
            else if (strat =? BTGreaterEqualStrategyNumber) || (strat =? BTGreaterStrategyNumber) then
              let? v := _abt_find_extreme_element k BTLessStrategyNumber elems in
              let? (ks, arrays, ok) := array_loop keys (S i) in Val (set_argument v cur :: ks, arrays, ok)
            else Raise Elog
        end
  end.

Definition is_array (sk : ScanKey) : bool := flag (sk_head sk) SK_SEARCHARRAY.

Definition _abt_preprocess_array_keys (keys : list ScanKey) (so : array_scan) : res array_scan :=
  let set n data arrays := mk_array_scan n data arrays (preprocessed so) (inskey so) (qual_ok so) (keyData so) in
  if existsb (fun cur => is_array cur && flag (sk_head cur) SK_ISNULL) keys then Val (set (-1) None (arrayKeys so))
  else if negb (existsb is_array keys) then Val (set 0 None (arrayKeys so))
  else
    let? (ks, arrays, ok) := array_loop keys 0 in
    Val (set (if ok then Z.of_nat (length arrays) else -1) (Some ks) arrays).

End Arrays.

(** ** The current elements *)

Definition set_cur (a : ABTArrayKeyInfo) (n : Z) : ABTArrayKeyInfo := mk_array (scan_key a) n (mark_elem a) (num_elems a) (elem_values a).
Definition set_mark (a : ABTArrayKeyInfo) : ABTArrayKeyInfo :=
  mk_array (scan_key a) (cur_elem a) (cur_elem a) (num_elems a) (elem_values a).

(** skey->sk_argument = curArrayKey->elem_values[n] *)
Definition store_elem (a : ABTArrayKeyInfo) (n : Z) (data : list ScanKey) : res (list ScanKey) :=
  if n <? 0 then Raise OutOfBounds
  else
    let? v := the (elem_values a !! Z.to_nat n) in
    let? _ := the (data !! scan_key a) in
    Val (alter (set_argument v) (scan_key a) data).

Fixpoint start_loop (dir : ScanDirection) (arrays : list ABTArrayKeyInfo) (data : list ScanKey) :
    res (list ABTArrayKeyInfo * list ScanKey) :=
  match arrays with
  | [] => Val ([], data)
  | a :: arrays =>
      let n := if ScanDirectionIsBackward dir then num_elems a - 1 else 0 in
      let? data := store_elem a n data in
      let? (arrays, data) := start_loop dir arrays data in
      Val (set_cur a n :: arrays, data)
  end.

(** The arrays behind the current one have been advanced when it is its turn. *)
Fixpoint advance_loop (dir : ScanDirection) (arrays : list ABTArrayKeyInfo) (data : list ScanKey) :
    res (list ABTArrayKeyInfo * list ScanKey * bool) :=
  match arrays with
  | [] => Val ([], data, false)
  | a :: arrays =>
      let? (arrays, data, found) := advance_loop dir arrays data in
      if found : bool then Val (a :: arrays, data, true)
      else
        let '(n, found) :=
          if ScanDirectionIsBackward dir then
            let n := cur_elem a - 1 in if n <? 0 then (num_elems a - 1, false) else (n, true)
          else
            let n := cur_elem a + 1 in if num_elems a <=? n then (0, false) else (n, true) in
        let? data := store_elem a n data in
        Val (set_cur a n :: arrays, data, found)
  end.

Fixpoint restore_loop (arrays : list ABTArrayKeyInfo) (data : list ScanKey) : res (list ABTArrayKeyInfo * list ScanKey * bool) :=
  match arrays with
  | [] => Val ([], data, false)
  | a :: arrays =>
      let? (a, data, changed) :=
        (if negb (cur_elem a =? mark_elem a) then
           let? data := store_elem a (mark_elem a) data in Val (set_cur a (mark_elem a), data, true)
         else Val (a, data, false)) in
      let? (arrays, data, changed') := restore_loop arrays data in
      Val (a :: arrays, data, changed || changed')
  end.

(** The loops run over the first numArrayKeys arrays; without any, arrayKeyData may be
    NULL. *)
Definition current_arrays (so : array_scan) : list ABTArrayKeyInfo := take (Z.to_nat (numArrayKeys so)) (arrayKeys so).
Definition other_arrays (so : array_scan) : list ABTArrayKeyInfo := drop (Z.to_nat (numArrayKeys so)) (arrayKeys so).
Definition data_of (so : array_scan) : list ScanKey := default [] (arrayKeyData so).
Definition with_arrays (so : array_scan) (arrays : list ABTArrayKeyInfo) (data : list ScanKey) : array_scan :=
  mk_array_scan (numArrayKeys so) ((fun _ => data) <$> arrayKeyData so) (arrays ++ other_arrays so)
    (preprocessed so) (inskey so) (qual_ok so) (keyData so).

Definition _abt_start_array_keys (dir : ScanDirection) (so : array_scan) : res array_scan :=
  let? (arrays, data) := start_loop dir (current_arrays so) (data_of so) in
  Val (with_arrays so arrays data).

Definition _abt_advance_array_keys (dir : ScanDirection) (so : array_scan) : res (array_scan * bool) :=
  let? (arrays, data, found) := advance_loop dir (current_arrays so) (data_of so) in
  let so := with_arrays so arrays data in
  Val (mk_array_scan (numArrayKeys so) (arrayKeyData so) (arrayKeys so) false None (qual_ok so) (keyData so), found).

Definition _abt_mark_array_keys (so : array_scan) : array_scan := with_arrays so (set_mark <$> current_arrays so) (data_of so).

Section Restore.
Context (indoption : list Z) (opcintype : Z -> Z) (opfamily : Z -> Z -> Z -> Z -> option (Z -> Z -> Z)).

Definition _abt_restore_array_keys (so : array_scan) : res array_scan :=
  let? (arrays, data, changed) := restore_loop (current_arrays so) (data_of so) in
  let so := with_arrays so arrays data in
  if changed : bool then
    let? (ok, keys) := _abt_preprocess_keys indoption opcintype opfamily data in
    Val (mk_array_scan (numArrayKeys so) (arrayKeyData so) (arrayKeys so) true None ok keys)
  else Val so.

End Restore.

(** ** The scans *)

Section Loop.
(** What a scan with the current keys does to them: preprocessing marks its input. *)
Context (scan : list ScanKey -> list ScanKey) (keys : list ScanKey).

Definition current_keys (so : array_scan) : list ScanKey := default keys (arrayKeyData so).
Definition scanned (so : array_scan) : array_scan :=
  mk_array_scan (numArrayKeys so) (scan <$> arrayKeyData so) (arrayKeys so) (preprocessed so) (inskey so) (qual_ok so) (keyData so).

(** The key sets a scan is made for, in order. *)
Fixpoint scan_loop (fuel : nat) (dir : ScanDirection) (so : array_scan) : option (res (list (list ScanKey))) :=
  match fuel with
  | O => None
  | S fuel =>
      let ks := current_keys so in
      let so := scanned so in
      if numArrayKeys so =? 0 then Some (Val [ks])
      else
        match _abt_advance_array_keys dir so with
        | Raise e => Some (Raise e)
        | Val (so, false) => Some (Val [ks])
        | Val (so, true) =>
            r ← scan_loop fuel dir so;
            Some (let? l := r in Val (ks :: l))
        end
  end.

Definition scan_all (fuel : nat) (dir : ScanDirection) (so : array_scan) : option (res (list (list ScanKey))) :=
  if numArrayKeys so =? 0 then scan_loop fuel dir so
  else if numArrayKeys so <? 0 then Some (Val [])
  else match _abt_start_array_keys dir so with
       | Raise e => Some (Raise e)
       | Val so => scan_loop fuel dir so
       end.

End Loop.

(** ** Counting through the arrays *)

Definition first_elem (dir : ScanDirection) (a : ABTArrayKeyInfo) : Z := if ScanDirectionIsBackward dir then num_elems a - 1 else 0.
Definition elem_order (dir : ScanDirection) (a : ABTArrayKeyInfo) : list Z :=
  if ScanDirectionIsBackward dir then reverse (seqZ 0 (num_elems a)) else seqZ 0 (num_elems a).
Definition elems_after (dir : ScanDirection) (a : ABTArrayKeyInfo) (n : Z) : list Z :=
  if ScanDirectionIsBackward dir then reverse (seqZ 0 n) else seqZ (n + 1) (num_elems a - n - 1).

(** All combinations of positions, the last array's changing fastest. *)
Fixpoint positions (dir : ScanDirection) (arrays : list ABTArrayKeyInfo) : list (list Z) :=
  match arrays with
  | [] => [[]]
  | a :: arrays => n ← elem_order dir a; (n ::.) <$> positions dir arrays
  end.

(** Those from [ns] on. *)
Fixpoint remaining (dir : ScanDirection) (arrays : list ABTArrayKeyInfo) (ns : list Z) : list (list Z) :=
  match arrays, ns with
  | a :: arrays, n :: ns => ((n ::.) <$> remaining dir arrays ns) ++ (m ← elems_after dir a n; (m ::.) <$> positions dir arrays)
  | _, _ => [[]]
  end.

(** One step of the counter. *)
Fixpoint step (dir : ScanDirection) (arrays : list ABTArrayKeyInfo) (ns : list Z) : list Z * bool :=
  match arrays, ns with
  | a :: arrays, n :: ns =>
      let (ns, found) := step dir arrays ns in
      if found then (n :: ns, true)
      else match elems_after dir a n with [] => (first_elem dir a :: ns, false) | m :: _ => (m :: ns, true) end
  | _, _ => ([], false)
  end.

Definition in_array (a : ABTArrayKeyInfo) (n : Z) : Prop := 0 <= n < num_elems a.

Lemma seqZ_snoc n : 0 <= n -> seqZ 0 (Z.succ n) = seqZ 0 n ++ [n].
Proof. intros Hn. rewrite <- (Z2Nat.id n Hn), <- Nat2Z.inj_succ. apply seqZ_S. Qed.

Lemma elem_order_cons dir a : 0 < num_elems a -> elem_order dir a = first_elem dir a :: elems_after dir a (first_elem dir a).
Proof.
  intros Ha. unfold elem_order, first_elem, elems_after. destruct (ScanDirectionIsBackward dir).
  - replace (num_elems a) with (Z.succ (num_elems a - 1)) at 1 by lia. rewrite seqZ_snoc, reverse_app by lia. simpl. do 2 f_equal.
  - rewrite (seqZ_cons 0) by lia. do 2 f_equal. lia.
Qed.

Lemma elems_after_cons dir a n m l : in_array a n -> elems_after dir a n = m :: l -> in_array a m /\ l = elems_after dir a m.
Proof.
  unfold in_array, elems_after. intros Ha. destruct (ScanDirectionIsBackward dir).
  - destruct (Z.eq_dec n 0) as [->|]; [done|]. replace n with (Z.succ (n - 1)) at 1 by lia. rewrite seqZ_snoc, reverse_app by lia.
    simpl. intros [= <- <-]. split; [lia|]. done.
  - destruct (Z.eq_dec (num_elems a - n - 1) 0) as [->|]; [done|]. rewrite (seqZ_cons (n + 1)) by lia. intros [= <- <-].
    split; [lia|]. f_equal. lia.
Qed.

Lemma remaining_first dir arrays : Forall (fun a => 0 < num_elems a) arrays -> remaining dir arrays (first_elem dir <$> arrays) = positions dir arrays.
Proof.
  induction 1 as [|a arrays Ha _ IH]; [done|]. cbn [remaining positions fmap list_fmap]. change (list_fmap _ _ (first_elem dir) arrays) with (first_elem dir <$> arrays).
  rewrite IH, (elem_order_cons dir a Ha). done.
Qed.

Lemma first_in_array dir a : 0 < num_elems a -> in_array a (first_elem dir a).
Proof. unfold in_array, first_elem. case_match; lia. Qed.

(** A step goes to the next combination, or from the last one back to the first. *)
Lemma step_remaining dir arrays ns ns' found : Forall2 in_array arrays ns -> step dir arrays ns = (ns', found) ->
  remaining dir arrays ns = ns :: (if found then remaining dir arrays ns' else []) /\
  Forall2 in_array arrays ns' /\ (found = false -> ns' = first_elem dir <$> arrays).
Proof.
  intros Hin. revert ns' found. induction Hin as [|a n arrays ns Ha Hin IH]; intros ns' found; cbn [step remaining]; [by intros [= <- <-]|].
  assert (Hpos : Forall (fun a => 0 < num_elems a) arrays).
  { apply Forall_forall. intros b Hb. apply list_elem_of_lookup_1 in Hb as [i Hi]. destruct (Forall2_lookup_l _ _ _ _ _ Hin Hi) as (m & _ & Hm). unfold in_array in Hm. lia. }
  destruct (step dir arrays ns) as [ns1 found1]. destruct (IH ns1 found1 eq_refl) as (-> & Hin1 & Hf). destruct found1.
  - intros [= <- <-]. split; [done|]. split; [by constructor|done].
  - specialize (Hf eq_refl) as ->. destruct (elems_after dir a n) as [|m l] eqn:El.
    + intros [= <- <-]. split; [done|]. split; [|done]. constructor; [|done]. apply first_in_array. unfold in_array in Ha. lia.
    + destruct (elems_after_cons dir a n m l Ha El) as [Hm ->]. intros [= <- <-]. split; [|split; [by constructor|done]].
      cbn [remaining]. by rewrite (remaining_first dir arrays Hpos).
Qed.

(** ** The loops are the counter *)

Definition at_ (arrays : list ABTArrayKeyInfo) (ns : list Z) : list ABTArrayKeyInfo := zip_with set_cur arrays ns.
Definition elem_at (a : ABTArrayKeyInfo) (n : Z) : Z := default 0 (elem_values a !! Z.to_nat n).

(** The keys with the elements at given positions. *)
Fixpoint assign (data : list ScanKey) (arrays : list ABTArrayKeyInfo) (ns : list Z) : list ScanKey :=
  match arrays, ns with
  | a :: arrays, n :: ns => assign (alter (set_argument (elem_at a n)) (scan_key a) data) arrays ns
  | _, _ => data
  end.

(** Keys that differ at most in the marks preprocessing leaves. *)
Definition same_key (k k' : ScanKey) : Prop :=
  sk_argument (sk_head k) = sk_argument (sk_head k') /\ forall t v, sat t (set_argument v k) = sat t (set_argument v k').

#[export] Instance same_key_equiv : Equivalence same_key.
Proof.
  split.
  - by intros k.
  - intros k k' [H1 H2]. split; [done|]. intros t v. by rewrite H2.
  - intros k1 k2 k3 [H1 H2] [H3 H4]. split; [congruence|]. intros t v. by rewrite H2.
Qed.

Lemma set_argument_same v k k' : same_key k k' -> same_key (set_argument v k) (set_argument v k').
Proof. intros [_ H]. split; [done|]. intros t w. apply (H t w). Qed.

Lemma same_key_sat t k k' : same_key k k' -> sat t k = sat t k'.
Proof. intros [Ha H]. specialize (H t (sk_argument (sk_head k))). rewrite Ha in H at 2. by destruct k as [[]], k' as [[]]. Qed.

Lemma same_keys_sat t ks ks' : Forall2 same_key ks ks' -> all_sat t ks = all_sat t ks'.
Proof. induction 1 as [|k k' ks ks' Hk _ IH]; [done|]. unfold all_sat in *. simpl. by rewrite IH, (same_key_sat t k k' Hk). Qed.

(** *** Marks

    Preprocessing adds flags to its input keys and commutes strategies; that does not
    change what the keys mean. *)

Lemma fix_strategy_same indoption k k' : fix_strategy indoption k = Val k' ->
  sk_attno k' = sk_attno k /\ sk_func k' = sk_func k /\ sk_argument k' = sk_argument k /\ (forall m, 0 <= m < 2 ^ 24 -> flag k' m = flag k m) /\
  forall r, holds (sk_strategy k') (if flag k' SK_ABT_DESC then INVERT_COMPARE_RESULT r else r) = holds (sk_strategy k) (if flag k SK_ABT_DESC then INVERT_COMPARE_RESULT r else r).
Proof.
  unfold fix_strategy, addflags_of. destruct (the _) as [o|]; [|done]. cbn [rbind]. intros [= <-]. set (f := Z.shiftl o SK_ABT_INDOPTION_SHIFT).
  assert (Hlow : forall k m, 0 <= m < 2 ^ 24 -> flag (set_flags k f) m = flag k m) by (intros; by apply flag_add_low).
  destruct (negb (Z.land f SK_ABT_DESC =? 0)) eqn:Ed; destruct (flag k SK_ABT_DESC) eqn:Ek; cbn [negb andb]; (split_and!; [done..| |]);
    try (intros m Hm; rewrite (Hlow _ m Hm); done); intros r; rewrite flag_set, Ed; unfold set_strategy, flag in *; cbn [sk_flags sk_strategy set_flags]; rewrite ?Ek, ?orb_true_r; try done.
  rewrite <- (holds_commute (sk_strategy k) r). apply holds_sgn, invert_sgn.
Qed.

Lemma fix_members_same indoption t row row' : fix_members indoption row = Val row' -> row_sat row' t = row_sat row t.
Proof.
  revert row'. induction row as [|k row IH]; intros row'; cbn [fix_members]; [done|]. destruct (fix_strategy indoption k) as [k'|] eqn:Ek; [|done]. cbn [rbind].
  destruct (fix_strategy_same indoption k k' Ek) as (Ha & Hf & Harg & Hlow & Hh). rewrite (Hlow SK_ROW_END) by done.
  assert (Hrow : forall rest, row_sat rest t = row_sat row t -> row_sat (k' :: rest) t = row_sat (k :: row) t).
  { intros rest Hr. cbn [row_sat]. rewrite Ha. destruct (attr t (sk_attno k)); [|done]. rewrite !(Hlow SK_ISNULL), !(Hlow SK_ROW_END), Hf, Harg, Hr, Hh by done. done. }
  destruct (flag k SK_ROW_END); [intros [= <-]; by apply Hrow|]. destruct (fix_members indoption row) as [row1|]; [|done]. intros [= <-]. by apply Hrow, IH.
Qed.

(** The marks of one key. *)
Lemma fix_key_same indoption sk sk' ok : _abt_fix_scankey_strategy indoption sk = Val (sk', ok) -> same_key sk sk'.
Proof.
  unfold _abt_fix_scankey_strategy. destruct sk as [k row]. cbn [sk_head sk_row]. intros H. destruct (flag k SK_ISNULL) eqn:En.
  - unfold addflags_of in H. destruct (the _) as [o|]; [|done]. cbn [rbind] in H. set (f := Z.shiftl o SK_ABT_INDOPTION_SHIFT) in *.
    assert (Hlow : forall m, 0 <= m < 2 ^ 24 -> flag (set_flags k f) m = flag k m) by (intros; by apply flag_add_low).
    assert (Hs : forall s t v, sat t (set_argument v (mk_ScanKey k row)) = sat t (set_argument v (mk_ScanKey (mk_skey (sk_flags (set_flags k f)) (sk_attno k) s InvalidOid (sk_func k) (sk_argument k)) row)) /\
      sat t (set_argument v (mk_ScanKey k row)) = sat t (set_argument v (mk_ScanKey (set_flags k f) row))).
    { intros s t v. unfold sat, sat_key, set_argument. cbn [sk_head sk_row sk_attno sk_func sk_argument]. unfold flag in *. cbn [sk_flags] in *.
      rewrite (Hlow SK_ROW_HEADER), (Hlow SK_ISNULL), (Hlow SK_SEARCHNULL), (Hlow SK_SEARCHNOTNULL) by done. done. }
    rewrite !Hlow in H by done. destruct (flag k SK_SEARCHNULL); [|destruct (flag k SK_SEARCHNOTNULL)]; injection H as <- _; (split; [done|]); intros t v;
      first [apply (proj1 (Hs _ t v))|apply (proj2 (Hs 0 t v))].
  - destruct (fix_strategy indoption k) as [k'|] eqn:Ek; [|done]. cbn [rbind] in H. destruct (fix_strategy_same indoption k k' Ek) as (Ha & Hf & Harg & Hlow & _).
    rewrite (Hlow SK_ROW_HEADER) in H by done. destruct (flag k SK_ROW_HEADER) eqn:Er.
    + destruct (fix_members indoption row) as [row'|] eqn:Em; [|done]. injection H as <- _. split; [done|]. intros t v. unfold sat, set_argument. cbn [sk_head sk_row].
      unfold flag in *. cbn [sk_flags] in *. rewrite (Hlow SK_ROW_HEADER), Er by done. symmetry. by eapply fix_members_same.
    + injection H as <- _. split; [done|]. intros t v. unfold sat, sat_key, set_argument. cbn [sk_head sk_row sk_attno sk_func sk_argument]. unfold flag in *. cbn [sk_flags] in *.
      rewrite !Hlow, Er, En, Ha, Hf by done. done.
Qed.

(** The marks on all keys. *)
Definition mark_keys (indoption : list Z) (ks : list ScanKey) : list ScanKey :=
  (fun sk => match _abt_fix_scankey_strategy indoption sk with Val (sk', _) => sk' | Raise _ => sk end) <$> ks.

Lemma mark_keys_same indoption ks : Forall2 same_key ks (mark_keys indoption ks).
Proof.
  apply Forall2_fmap_r, Forall_Forall2_diag, Forall_true. intros sk. unfold compose. destruct (_abt_fix_scankey_strategy indoption sk) as [[sk' ok]|] eqn:E; [exact (fix_key_same indoption sk sk' ok E)|reflexivity].
Qed.

(** Relations between keys that do not depend on the argument. *)
Class ArgumentFree (R : relation ScanKey) : Prop := set_argument_related v k k' : R k k' -> R (set_argument v k) (set_argument v k').
#[export] Instance same_key_free : ArgumentFree same_key := set_argument_same.
#[export] Instance eq_free : ArgumentFree eq.
Proof. by intros v k k' ->. Qed.

Lemma alter_related R `{!ArgumentFree R} v p data data' : Forall2 R data data' -> Forall2 R (alter (set_argument v) p data) (alter (set_argument v) p data').
Proof. intros H. apply Forall2_alter; [done|]. intros k k' _ _. apply set_argument_related. Qed.

Lemma length_assign data arrays ns : length (assign data arrays ns) = length data.
Proof. revert data ns. induction arrays as [|a arrays IH]; intros data [|n ns]; try done. cbn [assign]. by rewrite IH, length_alter. Qed.

Lemma alter_assign f p data arrays ns : p ∉ scan_key <$> arrays -> alter f p (assign data arrays ns) = assign (alter f p data) arrays ns.
Proof.
  revert data ns. induction arrays as [|a arrays IH]; intros data [|n ns] Hp; try done. cbn [assign]. rewrite fmap_cons, not_elem_of_cons in Hp.
  rewrite IH by apply Hp. f_equal. apply list_alter_alter_ne, Hp.
Qed.

Record array_ok (len : nat) (a : ABTArrayKeyInfo) : Prop := {
  ao_key : (scan_key a < len)%nat;
  ao_num : num_elems a = Z.of_nat (length (elem_values a));
  ao_pos : 0 < num_elems a
}.

Lemma store_elem_ok a n data : array_ok (length data) a -> in_array a n ->
  store_elem a n data = Val (alter (set_argument (elem_at a n)) (scan_key a) data).
Proof.
  intros [Hk Hn _] Hin. unfold in_array in Hin. unfold store_elem, elem_at. rewrite (proj2 (Z.ltb_ge _ _)) by lia.
  destruct (lookup_lt_is_Some_2 (elem_values a) (Z.to_nat n) ltac:(lia)) as [v ->].
  destruct (lookup_lt_is_Some_2 data (scan_key a) Hk) as [k ->]. done.
Qed.

Lemma set_cur_cur a n m : set_cur (set_cur a n) m = set_cur a m.
Proof. done. Qed.

Lemma start_loop_run dir arrays data : Forall (array_ok (length data)) arrays ->
  start_loop dir arrays data = Val (at_ arrays (first_elem dir <$> arrays), assign data arrays (first_elem dir <$> arrays)).
Proof.
  revert data. induction arrays as [|a arrays IH]; intros data Hok; [done|]. apply Forall_cons in Hok as [Ha Hok]. cbn [start_loop].
  fold (first_elem dir a). rewrite (store_elem_ok a _ data Ha (first_in_array dir a (ao_pos _ _ Ha))). cbn [rbind]. by rewrite IH by (by rewrite length_alter).
Qed.

Lemma set_argument_twice v w k : set_argument v (set_argument w k) = set_argument v k.
Proof. done. Qed.

Lemma alter_set_set v w p (data : list ScanKey) : alter (set_argument v) p (alter (set_argument w) p data) = alter (set_argument v) p data.
Proof. by rewrite list_alter_alter_eq. Qed.

(** The advance of the arrays behind position [ns], on keys with marks. *)
Lemma advance_loop_run R `{!ArgumentFree R} dir arrays ns data0 data : Forall (array_ok (length data)) arrays -> NoDup (scan_key <$> arrays) -> Forall2 in_array arrays ns ->
  Forall2 R (assign data0 arrays ns) data ->
  exists data', advance_loop dir (at_ arrays ns) data = Val (at_ arrays (fst (step dir arrays ns)), data', snd (step dir arrays ns)) /\
    Forall2 R (assign data0 arrays (fst (step dir arrays ns))) data'.
Proof.
  intros Hok Hnd Hin. revert data0 data Hok Hnd. induction Hin as [|a n arrays ns Ha Hin IH]; intros data0 data Hok Hnd Hs; [by exists data|].
  apply Forall_cons in Hok as [Hao Hok]. rewrite fmap_cons in Hnd. apply NoDup_cons in Hnd as [Hna Hnd]. change (at_ (a :: arrays) (n :: ns)) with (set_cur a n :: at_ arrays ns).
  cbn [advance_loop step assign] in *.
  destruct (IH _ data Hok Hnd Hs) as (data1 & -> & Hs1). cbn [rbind]. clear IH.
  destruct (step dir arrays ns) as [ns1 found1]. cbn [fst snd] in *. destruct found1; [by exists data1|].
  assert (Hstep : forall m, in_array a m -> exists data', store_elem (set_cur a n) m data1 = Val data' /\
    Forall2 R (assign (alter (set_argument (elem_at a m)) (scan_key a) data0) arrays ns1) data').
  { intros m Hm. eexists. split.
    - apply store_elem_ok; [|done]. destruct Hao. apply Forall2_length in Hs1, Hs. rewrite length_assign, length_alter in Hs1, Hs. split; try done. cbn [set_cur scan_key]. lia.
    - cbn [set_cur scan_key]. rewrite <- alter_assign, <- (alter_set_set _ (elem_at a n)), !alter_assign by done. rewrite <- (alter_assign (set_argument (elem_at a m))) by done.
      by apply alter_related. }
  unfold elems_after. unfold in_array in Ha. pose proof (first_in_array dir a (ao_pos _ _ Hao)) as Hfirst. unfold first_elem in *.
  change (cur_elem (set_cur a n)) with n. change (num_elems (set_cur a n)) with (num_elems a). destruct (ScanDirectionIsBackward dir).
  - destruct (Z.ltb_spec (n - 1) 0).
    + assert (seqZ 0 n = []) as -> by (replace n with 0 by lia; done). destruct (Hstep _ Hfirst) as (data' & -> & Hd). exists data'. by split.
    + replace (seqZ 0 n) with (seqZ 0 (Z.succ (n - 1))) by (f_equal; lia). rewrite seqZ_snoc, reverse_app by lia. cbn [app reverse rev_append].
      destruct (Hstep (n - 1) ltac:(unfold in_array; lia)) as (data' & -> & Hd). exists data'. by split.
  - destruct (Z.leb_spec (num_elems a) (n + 1)).
    + assert (seqZ (n + 1) (num_elems a - n - 1) = []) as -> by (replace (num_elems a - n - 1) with 0 by lia; done). destruct (Hstep _ Hfirst) as (data' & -> & Hd). exists data'. by split.
    + rewrite (seqZ_cons (n + 1)) by lia. destruct (Hstep (n + 1) ltac:(unfold in_array; lia)) as (data' & -> & Hd). exists data'. by split.
Qed.

(** ** The scans of an array key *)

Lemma at_length arrays ns : length ns = length arrays -> length (at_ arrays ns) = length arrays.
Proof. intros H. unfold at_. rewrite length_zip_with. lia. Qed.

Lemma remaining_nonempty dir arrays ns : Forall2 in_array arrays ns -> remaining dir arrays ns <> [].
Proof. intros Hin. destruct (step dir arrays ns) as [ns' found] eqn:E. by destruct (step_remaining dir arrays ns ns' found Hin E) as (-> & _). Qed.

Section Scans.
Context (scan : list ScanKey -> list ScanKey) (Hscan : forall ks, Forall2 same_key ks (scan ks)) (keys : list ScanKey).

Lemma scan_loop_run fuel dir so arrays ns data0 data : numArrayKeys so = Z.of_nat (length arrays) -> arrays <> [] -> arrayKeys so = at_ arrays ns ->
  arrayKeyData so = Some data -> Forall (array_ok (length data0)) arrays -> NoDup (scan_key <$> arrays) -> Forall2 in_array arrays ns ->
  Forall2 same_key (assign data0 arrays ns) data -> (length (remaining dir arrays ns) <= fuel)%nat ->
  exists l, scan_loop scan keys fuel dir so = Some (Val l) /\ Forall2 (Forall2 same_key) (assign data0 arrays <$> remaining dir arrays ns) l.
Proof.
  intros Hn Hne. revert so ns data Hn. induction fuel as [|fuel IH]; intros so ns data Hn' Hks Hdata Hok Hnd Hin Hs Hf.
  { destruct (remaining dir arrays ns) eqn:E; [by apply remaining_nonempty in E|simpl in Hf; lia]. }
  cbn [scan_loop]. unfold current_keys. rewrite Hdata. cbn [default]. change (numArrayKeys (scanned scan so)) with (numArrayKeys so).
  rewrite Hn', (proj2 (Z.eqb_neq _ 0)) by (destruct arrays; [done|simpl; lia]). unfold _abt_advance_array_keys, current_arrays, data_of, with_arrays, other_arrays.
  cbn [scanned numArrayKeys arrayKeys arrayKeyData]. rewrite Hdata, Hks. cbn [fmap option_fmap option_map default]. rewrite Hn', Nat2Z.id.
  pose proof (Forall2_length _ _ _ Hin) as Hl. rewrite firstn_all2, skipn_all2 by (rewrite at_length; lia). cbn [id].
  pose proof (Forall2_length _ _ _ Hs) as Hld. rewrite length_assign in Hld. pose proof (Forall2_length _ _ _ (Hscan data)) as Hls.
  assert (Hok' : Forall (array_ok (length (scan data))) arrays) by (by rewrite <- Hls, <- Hld).
  assert (Hs' : Forall2 same_key (assign data0 arrays ns) (scan data)) by (etransitivity; [exact Hs|apply Hscan]).
  destruct (advance_loop_run same_key dir arrays ns data0 (scan data) Hok' Hnd Hin Hs') as (data' & -> & Hd').
  destruct (step dir arrays ns) as [ns' found] eqn:E. destruct (step_remaining dir arrays ns ns' found Hin E) as (Hrem & Hin' & _). cbn [fst snd rbind] in *.
  rewrite Hrem in Hf |- *. destruct found; [|exists [data]; by split; [done|repeat constructor]]. simpl in Hf.
  match goal with |- context [scan_loop scan keys fuel dir ?so'] => destruct (IH so' ns' data') as (l & -> & Hl'); try done; [by rewrite app_nil_r|lia|] end.
  exists (data :: l). split; [done|]. by constructor.
Qed.

Lemma scans_in_order dir so data fuel : arrayKeyData so = Some data -> arrayKeys so <> [] -> numArrayKeys so = Z.of_nat (length (arrayKeys so)) ->
  Forall (array_ok (length data)) (arrayKeys so) -> NoDup (scan_key <$> arrayKeys so) -> (length (positions dir (arrayKeys so)) <= fuel)%nat ->
  exists l, scan_all scan keys fuel dir so = Some (Val l) /\ Forall2 (Forall2 same_key) (assign data (arrayKeys so) <$> positions dir (arrayKeys so)) l.
Proof.
  intros Hdata Hne Hn Hok Hnd Hf. unfold scan_all. rewrite (proj2 (Z.eqb_neq _ 0)), (proj2 (Z.ltb_ge _ 0)) by (destruct (arrayKeys so); simpl in *; lia || done).
  unfold _abt_start_array_keys, current_arrays, data_of. rewrite Hn, Nat2Z.id, firstn_all, Hdata. change (default [] (Some data)) with data. rewrite (start_loop_run dir _ _ Hok). cbn [rbind].
  assert (Hpos : Forall (fun a => 0 < num_elems a) (arrayKeys so)) by (eapply Forall_impl; [exact Hok|]; intros a Ha; apply Ha).
  rewrite <- (remaining_first dir _ Hpos) in Hf |- *.
  eapply (scan_loop_run fuel dir _ (arrayKeys so) (first_elem dir <$> arrayKeys so) data); try done.
  - unfold with_arrays, other_arrays. cbn [arrayKeys]. by rewrite Hn, Nat2Z.id, drop_all, app_nil_r.
  - unfold with_arrays. cbn [arrayKeyData]. by rewrite Hdata.
  - apply Forall2_fmap_r, Forall_Forall2_diag. eapply Forall_impl; [exact Hpos|]. intros a. apply first_in_array.
Qed.

End Scans.

(** ** Mark and restore *)

(** Advancing in given directions. *)
Fixpoint advance_all (dirs : list ScanDirection) (so : array_scan) : res array_scan :=
  match dirs with
  | [] => Val so
  | dir :: dirs => let? (so, _) := _abt_advance_array_keys dir so in advance_all dirs so
  end.

(** Arrays [arrays] at positions [ns], with the keys made from [data]. *)
Record placed_at (so : array_scan) (arrays : list ABTArrayKeyInfo) (data : list ScanKey) (ns : list Z) : Prop := {
  pa_num : numArrayKeys so = Z.of_nat (length arrays);
  pa_arrays : arrayKeys so = at_ arrays ns;
  pa_data : arrayKeyData so = Some (assign data arrays ns);
  pa_in : Forall2 in_array arrays ns
}.

Lemma placed_current so arrays data ns : placed_at so arrays data ns ->
  current_arrays so = at_ arrays ns /\ other_arrays so = [] /\ data_of so = assign data arrays ns.
Proof.
  intros [Hn Ha Hd Hin]. apply Forall2_length in Hin. unfold current_arrays, other_arrays, data_of. rewrite Hn, Ha, Hd, Nat2Z.id.
  rewrite firstn_all2, skipn_all2 by (rewrite at_length; lia). done.
Qed.

Lemma advance_all_run dirs so arrays data ns : Forall (array_ok (length data)) arrays -> NoDup (scan_key <$> arrays) -> placed_at so arrays data ns ->
  exists so' ns', advance_all dirs so = Val so' /\ placed_at so' arrays data ns'.
Proof.
  intros Hok Hnd. revert so ns. induction dirs as [|dir dirs IH]; intros so ns Hp; [by exists so, ns|]. cbn [advance_all].
  destruct (placed_current so arrays data ns Hp) as (Hc & Ho & Hd). unfold _abt_advance_array_keys. rewrite Hc, Hd.
  destruct (advance_loop_run eq dir arrays ns data (assign data arrays ns)) as (data' & -> & Hd'); [by rewrite length_assign|done|apply Hp|reflexivity|].
  apply list_eq_Forall2 in Hd'. cbn [rbind]. destruct (step dir arrays ns) as [ns' found] eqn:E. cbn [fst snd] in *.
  destruct (step_remaining dir arrays ns ns' found (pa_in _ _ _ _ Hp) E) as (_ & Hin' & _). apply (IH _ ns'). unfold with_arrays. rewrite Ho, app_nil_r.
  split; cbn [numArrayKeys arrayKeys arrayKeyData]; [apply Hp|done| |done]. rewrite (pa_data _ _ _ _ Hp). cbn. by rewrite Hd'.
Qed.

Lemma restore_loop_run arrays ns ns' data : Forall (array_ok (length data)) arrays -> NoDup (scan_key <$> arrays) -> Forall2 in_array arrays ns -> Forall2 in_array arrays ns' ->
  mark_elem <$> arrays = ns ->
  exists changed, restore_loop (at_ arrays ns') (assign data arrays ns') = Val (at_ arrays ns, assign data arrays ns, changed) /\ (changed = true <-> ns' <> ns).
Proof.
  intros Hok Hnd Hin. revert ns' data Hok Hnd. induction Hin as [|a n arrays ns Ha Hin IH]; intros ns' data Hok Hnd Hin' Hm.
  { inversion Hin'; subst. exists false. split; [done|]. split; [done|]. intros H. by destruct H. }
  inversion Hin' as [|? n' ? ns1 Ha' Hin1]; subst. apply Forall_cons in Hok as [Hao Hok]. rewrite fmap_cons in Hnd. apply NoDup_cons in Hnd as [Hna Hnd].
  rewrite fmap_cons in Hm. injection Hm as Hmn Hm. change (at_ (a :: arrays) (n' :: ns1)) with (set_cur a n' :: at_ arrays ns1).
  cbn [restore_loop assign]. change (cur_elem (set_cur a n')) with n'. change (mark_elem (set_cur a n')) with (mark_elem a). rewrite Hmn.
  assert (Hstep : exists changed, restore_loop (at_ arrays ns1) (assign (alter (set_argument (elem_at a n)) (scan_key a) data) arrays ns1) =
      Val (at_ arrays ns, assign (alter (set_argument (elem_at a n)) (scan_key a) data) arrays ns, changed) /\ (changed = true <-> ns1 <> ns)).
  { apply IH; try done. by rewrite length_alter. }
  destruct Hstep as (changed & Hrun & Hc). destruct (Z.eqb_spec n' n) as [->|Hne]; cbn [negb rbind].
  - rewrite Hrun. cbn [rbind]. exists changed. split; [done|]. rewrite Hc. split; [by intros H [=]|]. intros H ->. by destruct H.
  - rewrite store_elem_ok; [|destruct Hao; split; cbn [set_cur scan_key num_elems elem_values]; rewrite ?length_assign, ?length_alter; done|done]. cbn [rbind].
    change (scan_key (set_cur a n')) with (scan_key a). change (elem_at (set_cur a n') n) with (elem_at a n).
    rewrite alter_assign, alter_set_set by done. rewrite Hrun. cbn [rbind]. exists true. split; [done|]. split; [intros _ [=]; done|done].
Qed.

(** Marking keeps the arrays, with the marks at [ns]. *)
Lemma marked_arrays len arrays ns : Forall (array_ok len) arrays -> Forall2 in_array arrays ns ->
  let marked := set_mark <$> at_ arrays ns in
  Forall (array_ok len) marked /\ scan_key <$> marked = scan_key <$> arrays /\ Forall2 in_array marked ns /\ mark_elem <$> marked = ns /\ at_ marked ns = marked /\
  length marked = length arrays /\ forall data ns', assign data marked ns' = assign data arrays ns'.
Proof.
  intros Hok Hin. induction Hin as [|a n arrays ns Ha Hin IH]; [done|]. apply Forall_cons in Hok as [Hao Hok]. destruct (IH Hok) as (H1 & H2 & H3 & H4 & H5 & H6 & H7).
  change (at_ (a :: arrays) (n :: ns)) with (set_cur a n :: at_ arrays ns). rewrite fmap_cons. cbv zeta. split_and!.
  - constructor; [|done]. by destruct Hao.
  - rewrite !fmap_cons. by rewrite H2.
  - by constructor.
  - rewrite fmap_cons. by rewrite H4.
  - unfold at_ at 1. cbn [zip_with]. fold (at_ (set_mark <$> at_ arrays ns) ns). by rewrite H5.
  - simpl. by rewrite H6.
  - intros data [|n' ns']; [done|]. cbn [assign]. apply H7.
Qed.

(** Restoring a marked position.  However often the arrays are advanced after the mark,
    and in whatever directions, restoring puts every key's element back, and when any has
    changed the keys are preprocessed again. *)
Theorem array_mark_restore indoption opcintype opfamily dirs so arrays data ns ok out : Forall (array_ok (length data)) arrays -> NoDup (scan_key <$> arrays) ->
  placed_at so arrays data ns -> _abt_preprocess_keys indoption opcintype opfamily (assign data arrays ns) = Val (ok, out) ->
  exists so1 so2, advance_all dirs (_abt_mark_array_keys so) = Val so1 /\ _abt_restore_array_keys indoption opcintype opfamily so1 = Val so2 /\
    arrayKeyData so2 = arrayKeyData so /\ cur_elem <$> arrayKeys so2 = ns /\
    (arrayKeyData so1 <> arrayKeyData so -> qual_ok so2 = ok /\ keyData so2 = out /\ preprocessed so2 = true).
Proof.
  intros Hok Hnd Hp Hpre. destruct (placed_current so arrays data ns Hp) as (Hc & Ho & Hd).
  destruct (marked_arrays (length data) arrays ns Hok (pa_in _ _ _ _ Hp)) as (Hokm & Hkm & Hinm & Hmm & Hatm & Hlm & Hasm). set (marked := set_mark <$> at_ arrays ns) in *.
  assert (Hpm : placed_at (_abt_mark_array_keys so) marked data ns).
  { unfold _abt_mark_array_keys, with_arrays. rewrite Hc, Ho, Hd, app_nil_r. fold marked.
    split; cbn [numArrayKeys arrayKeys arrayKeyData]; [rewrite Hlm; apply Hp|done|by rewrite (pa_data _ _ _ _ Hp), Hasm|done]. }
  destruct (advance_all_run dirs _ marked data ns Hokm ltac:(by rewrite Hkm) Hpm) as (so1 & ns1 & -> & Hp1).
  destruct (placed_current so1 marked data ns1 Hp1) as (Hc1 & Ho1 & Hd1).
  destruct (restore_loop_run marked ns ns1 data Hokm ltac:(by rewrite Hkm) Hinm (pa_in _ _ _ _ Hp1) Hmm) as (changed & Hrun & Hch).
  assert (Hdata : arrayKeyData so = Some (assign data marked ns)) by (rewrite Hasm; apply Hp).
  assert (Hcur : cur_elem <$> at_ marked ns = ns) by (rewrite Hatm; unfold marked in *; rewrite <- list_fmap_compose in Hmm |- *; exact Hmm).
  exists so1. unfold _abt_restore_array_keys. rewrite Hc1, Hd1, Hrun. cbn [rbind]. unfold with_arrays. rewrite Ho1, app_nil_r.
  assert (Hsame : changed = false -> arrayKeyData so1 = arrayKeyData so).
  { intros ->. rewrite (pa_data _ _ _ _ Hp1), Hdata. do 2 f_equal. destruct (decide (ns1 = ns)) as [|Hne]; [done|]. by apply Hch in Hne. }
  destruct changed.
  - rewrite Hasm, Hpre. cbn [rbind]. eexists. split; [done|]. split; [reflexivity|]. cbn [arrayKeyData arrayKeys qual_ok keyData preprocessed].
    rewrite (pa_data _ _ _ _ Hp1), Hdata, !Hasm. by split_and!.
  - eexists. split; [done|]. split; [reflexivity|]. cbn [arrayKeyData arrayKeys qual_ok keyData preprocessed]. rewrite (pa_data _ _ _ _ Hp1), Hdata at 1.
    split; [done|]. split; [done|]. intros H. by destruct (H (Hsame eq_refl)).
Qed.

(** ** Meaning *)

Lemma elem_order_in dir a n : n ∈ elem_order dir a <-> in_array a n.
Proof. unfold elem_order, in_array. destruct (ScanDirectionIsBackward dir); rewrite ?elem_of_reverse, elem_of_seqZ; lia. Qed.

Lemma positions_in dir arrays ns : ns ∈ positions dir arrays <-> Forall2 in_array arrays ns.
Proof.
  revert ns. induction arrays as [|a arrays IH]; intros ns; cbn [positions].
  - rewrite list_elem_of_singleton. split; [by intros ->|by inversion 1].
  - rewrite list_elem_of_bind. split.
    + intros (n & Hns & Hn). apply list_elem_of_fmap in Hns as (ns' & -> & Hns'). apply elem_order_in in Hn. apply IH in Hns'. by constructor.
    + intros H. inversion H as [|? n ? ns' Hn Hns']; subst. exists n. split; [|by apply elem_order_in]. apply list_elem_of_fmap. exists ns'. split; [done|]. by apply IH.
Qed.

Lemma elem_order_NoDup dir a : NoDup (elem_order dir a).
Proof. unfold elem_order. destruct (ScanDirectionIsBackward dir); rewrite ?reverse_Permutation; apply NoDup_seqZ. Qed.

Lemma NoDup_product (l : list Z) (m : list (list Z)) : NoDup l -> NoDup m -> NoDup (n ← l; (n ::.) <$> m).
Proof.
  intros Hl Hm. induction Hl as [|n l Hn Hl IH]; [constructor|]. cbn [mbind list_bind]. apply NoDup_app. split; [|split].
  - apply NoDup_fmap_2; [intros x y [=]; done|done].
  - intros ns H1 H2. apply list_elem_of_fmap in H1 as (x & -> & _). apply list_elem_of_bind in H2 as (k & Hk & Hkl).
    apply list_elem_of_fmap in Hk as (y & [= <- _] & _). done.
  - apply IH.
Qed.

Lemma positions_NoDup dir arrays : NoDup (positions dir arrays).
Proof. induction arrays as [|a arrays IH]; cbn [positions]; [apply NoDup_singleton|]. apply NoDup_product; [apply elem_order_NoDup|done]. Qed.

(** Lexicographic order of lists of one length. *)
Fixpoint lexord (R : Z -> Z -> Prop) (ns ns' : list Z) : Prop :=
  match ns, ns' with
  | n :: ns, n' :: ns' => R n n' \/ (n = n' /\ lexord R ns ns')
  | _, _ => False
  end.

Lemma lexord_flip ns ns' : lexord Z.gt ns ns' -> lexord Z.lt ns' ns.
Proof. revert ns'. induction ns as [|n ns IH]; intros [|n' ns']; try done. cbn. intros [H|[-> H]]; [left; lia|right; by auto]. Qed.

Lemma product_sorted R (l : list Z) (m : list (list Z)) : StronglySorted R l -> StronglySorted (lexord R) m -> StronglySorted (lexord R) (n ← l; (n ::.) <$> m).
Proof.
  intros Hl Hm. induction Hl as [|n l Hl IH Hn]; [constructor|]. cbn [mbind list_bind]. apply StronglySorted_app_2; [| |apply IH].
  - intros x y Hx Hy. apply list_elem_of_fmap in Hx as (ns & -> & _). apply list_elem_of_bind in Hy as (k & Hk & Hkl). apply list_elem_of_fmap in Hk as (ns' & -> & _).
    rewrite Forall_forall in Hn. left. by apply Hn.
  - clear IH. induction Hm as [|ns m Hm IHm Hns]; [constructor|]. rewrite fmap_cons. constructor; [done|]. apply Forall_fmap. eapply Forall_impl; [exact Hns|]. intros ns' H. right. by split.
Qed.

Lemma seqZ_sorted_lt n m : StronglySorted Z.lt (seqZ n m).
Proof. apply StronglySorted_intro. intros i j x y Hij Hx Hy. apply lookup_seqZ in Hx as [-> _], Hy as [-> _]. lia. Qed.

Lemma elem_order_sorted dir a : StronglySorted (if ScanDirectionIsBackward dir then Z.gt else Z.lt) (elem_order dir a).
Proof.
  unfold elem_order. destruct (ScanDirectionIsBackward dir); [|apply seqZ_sorted_lt]. apply StronglySorted_intro. intros i j x y Hij Hx Hy.
  pose proof (lookup_lt_Some _ _ _ Hx) as Li. pose proof (lookup_lt_Some _ _ _ Hy) as Lj. rewrite length_reverse in Li, Lj.
  rewrite reverse_lookup in Hx, Hy by done. apply lookup_seqZ in Hx as [-> _], Hy as [-> _]. lia.
Qed.

(** The positions come in lexicographic order. *)
Lemma positions_sorted dir arrays : StronglySorted (lexord (if ScanDirectionIsBackward dir then Z.gt else Z.lt)) (positions dir arrays).
Proof. induction arrays as [|a arrays IH]; cbn [positions]; [repeat constructor|]. apply product_sorted; [apply elem_order_sorted|done]. Qed.

(** [assign] on the keys from index [i] on. *)
Fixpoint assign_from (i : nat) (data : list ScanKey) (arrays : list ABTArrayKeyInfo) (ns : list Z) : list ScanKey :=
  match arrays, ns with
  | a :: arrays, n :: ns => assign_from i (alter (set_argument (elem_at a n)) (scan_key a - i)%nat data) arrays ns
  | _, _ => data
  end.

Lemma assign_from_0 data arrays ns : assign_from 0 data arrays ns = assign data arrays ns.
Proof. revert data ns. induction arrays as [|a arrays IH]; intros data [|n ns]; try done. cbn [assign_from assign]. by rewrite Nat.sub_0_r, IH. Qed.

Lemma assign_skip i k data arrays ns : Forall (fun a => i < scan_key a)%nat arrays -> assign_from i (k :: data) arrays ns = k :: assign_from (S i) data arrays ns.
Proof.
  intros H. revert data ns. induction H as [|a arrays Ha _ IH]; intros data [|n ns]; try done. cbn [assign_from].
  replace (scan_key a - i)%nat with (S (scan_key a - S i)) by lia. apply IH.
Qed.

(** *** Elements *)

Section Unique.
Context (compare : Z -> Z -> Z).
Context (Hsym : forall x y, compare x y < 0 <-> 0 < compare y x) (Htrans : forall x y z, compare x y <= 0 -> compare y z <= 0 -> compare x z <= 0).

Lemma compare_zero x y : compare x y = 0 -> compare y x = 0.
Proof. pose proof (Hsym x y). pose proof (Hsym y x). lia. Qed.

Lemma compare_lt_trans x y z : compare x y < 0 -> compare y z <= 0 -> compare x z < 0.
Proof.
  intros H1 H2. destruct (Z.lt_ge_cases (compare x z) 0) as [|H3]; [done|]. pose proof (Hsym x y). pose proof (Hsym x z). pose proof (Htrans y z x H2). lia.
Qed.

Lemma qunique_loop_spec l j : StronglySorted (fun x y => compare x y <= 0) (j :: l) ->
  StronglySorted (fun x y => compare x y < 0) (qunique_loop compare j l) /\
  (forall y, y ∈ qunique_loop compare j l -> y ∈ j :: l) /\ (forall x, x ∈ j :: l -> exists y, y ∈ qunique_loop compare j l /\ compare x y = 0).
Proof.
  assert (Hrefl : forall x, compare x x = 0) by (intros x; pose proof (Hsym x x); lia).
  revert j. induction l as [|i l IH]; intros j Hs; cbn [qunique_loop].
  { split; [repeat constructor|]. split; [done|]. intros x Hx. exists x. split; [done|apply Hrefl]. }
  apply StronglySorted_inv in Hs as [Hs Hj]. pose proof (StronglySorted_inv Hs) as [Hs' Hi]. apply Forall_cons in Hj as [Hji Hj].
  destruct (Z.eqb_spec (compare i j) 0) as [E|E].
  - destruct (IH j) as (H1 & H2 & H3); [by constructor|]. split; [done|]. split.
    + intros y Hy%H2. apply elem_of_cons in Hy as [->|Hy]; [by left|by right; right].
    + intros x Hx. apply elem_of_cons in Hx as [->|Hx]; [apply H3; by left|]. apply elem_of_cons in Hx as [->|Hx]; [|apply H3; by right].
      destruct (H3 j ltac:(by left)) as (y & Hy & Hjy). exists y. split; [done|]. apply compare_zero in Hjy as Hyj. apply compare_zero in E as E'.
      pose proof (Htrans i j y). pose proof (Htrans y j i). pose proof (Hsym i y). pose proof (Hsym y i). lia.
  - destruct (IH i Hs) as (H1 & H2 & H3). assert (Hlt : compare j i < 0) by (pose proof (Hsym i j); pose proof (Hsym j i); lia). split; [|split].
    + constructor; [done|]. apply Forall_forall. intros y Hy%H2. apply elem_of_cons in Hy as [->|Hy]; [done|].
      rewrite Forall_forall in Hi. apply (compare_lt_trans j i y); [done|by apply Hi].
    + intros y Hy. apply elem_of_cons in Hy as [->|Hy]; [by left|]. right. by apply H2.
    + intros x Hx. apply elem_of_cons in Hx as [->|Hx]; [exists j; split; [by left|apply Hrefl]|]. destruct (H3 x Hx) as (y & Hy & Hxy). exists y. split; [by right|done].
Qed.

End Unique.

(** What the order functions of an operator family and the sort promise. *)
Class ElemProcs (elem_proc : Z -> Z -> option (Z -> Z -> Z)) (cmp : Z -> Z * Z -> Z * Z -> Z) : Prop :=
  elem_proc_cmp a ty f x y : elem_proc a ty = Some f -> Z.sgn (f x y) = Z.sgn (cmp a (ty, x) (ty, y)).

Class ArraySort (qsort_arg : (Z -> Z -> Z) -> list Z -> list Z) : Prop := {
  array_sort_perm compare l : Permutation (qsort_arg compare l) l;
  array_sort_sorted compare l : (forall x y, compare x y < 0 <-> 0 < compare y x) -> (forall x y z, compare x y <= 0 -> compare y z <= 0 -> compare x z <= 0) ->
    StronglySorted (fun x y => compare x y <= 0) (qsort_arg compare l)
}.

Section Meaning.
Context (indoption : list Z) (opcintype : Z -> Z) (opfamily : Z -> Z -> Z -> Z -> option (Z -> Z -> Z)).
Context (elem_proc : Z -> Z -> option (Z -> Z -> Z)) (deconstruct_array : Z -> list (option Z)).
Context (qsort_arg : (Z -> Z -> Z) -> list Z -> list Z).

(** A tuple satisfies an array key if it does for some element that is not NULL. *)
Definition sat_array (t : list (option Z)) (sk : ScanKey) : bool :=
  if is_array sk then
    negb (flag (sk_head sk) SK_ISNULL) && existsb (fun v => sat t (set_argument v sk)) (omap id (deconstruct_array (sk_argument (sk_head sk))))
  else sat t sk.
Definition all_sat_array (t : list (option Z)) (keys : list ScanKey) : bool := forallb (sat_array t) keys.

Context (cmp : Z -> Z * Z -> Z * Z -> Z).

(** Two elements of an array key, compared in the order of the key's index column. *)
Definition index_cmp (sk : ScanKey) (x y : Z) : Z :=
  let k := sk_head sk in let a := sk_attno k in let c := cmp a (arg_type opcintype k a, x) (arg_type opcintype k a, y) in
  if negb (Z.land (default 0 (indoption !! Z.to_nat (a - 1))) INDOPTION_DESC =? 0) then - c else c.

Definition is_equality_array (sk : ScanKey) : bool := is_array sk && (sk_strategy (sk_head sk) =? BTEqualStrategyNumber).

(** The key sets of two scans for [keys]: the elements of the equality arrays, compared
    lexicographically in the order of the index. *)
Fixpoint scan_before (keys ks ks' : list ScanKey) : Prop :=
  match keys, ks, ks' with
  | cur :: keys, k :: ks, k' :: ks' =>
      let x := sk_argument (sk_head k) in let y := sk_argument (sk_head k') in
      if is_equality_array cur then index_cmp cur x y < 0 \/ (x = y /\ scan_before keys ks ks') else scan_before keys ks ks'
  | _, _, _ => False
  end.

Lemma scan_before_same keys ks1 ks2 ks1' ks2' : Forall2 same_key ks1 ks1' -> Forall2 same_key ks2 ks2' -> scan_before keys ks1 ks2 -> scan_before keys ks1' ks2'.
Proof.
  intros H1. revert keys ks2 ks2'. induction H1 as [|k1 k1' ks1 ks1' Hk1 _ IH]; intros [|cur keys] ks2 ks2' H2; try done. destruct H2 as [|k2 k2' ks2 ks2' Hk2 H2]; [done|].
  cbn [scan_before]. rewrite <- (proj1 Hk1), <- (proj1 Hk2). destruct (is_equality_array cur); [|by apply IH]. intros [H|[H3 H4]]; [by left|right]. split; [done|]. by eapply IH.
Qed.

(** How the keys and arrays made by preprocessing correspond to the keys, from index [i]
    on. *)
Inductive aligned : nat -> list ScanKey -> list ScanKey -> list ABTArrayKeyInfo -> Prop :=
  | al_nil i : aligned i [] [] []
  | al_key i cur cur' keys ks arrays : is_equality_array cur = false -> (forall t, sat_array t cur = sat t cur') -> aligned (S i) keys ks arrays -> aligned i (cur :: keys) (cur' :: ks) arrays
  | al_array i cur a keys ks arrays : scan_key a = i -> num_elems a = Z.of_nat (length (elem_values a)) -> 0 < num_elems a ->
      (forall t, sat_array t cur = true <-> exists n, in_array a n /\ sat t (set_argument (elem_at a n) cur) = true) ->
      (forall t n m, in_array a n -> in_array a m -> sat t (set_argument (elem_at a n) cur) = true -> sat t (set_argument (elem_at a m) cur) = true -> n = m) ->
      is_equality_array cur = true -> (forall n m, in_array a n -> in_array a m -> n < m -> index_cmp cur (elem_at a n) (elem_at a m) < 0) ->
      aligned (S i) keys ks arrays -> aligned i (cur :: keys) (cur :: ks) (a :: arrays).

Lemma aligned_arrays i keys ks arrays : aligned i keys ks arrays ->
  length ks = length keys /\ Forall (fun a => (i <= scan_key a < i + length ks)%nat /\ num_elems a = Z.of_nat (length (elem_values a)) /\ 0 < num_elems a) arrays /\
  NoDup (scan_key <$> arrays).
Proof.
  induction 1 as [i|i cur cur' keys ks arrays _ _ _ (Hl & IH & Hnd)|i cur a keys ks arrays Hk Hn Hpos _ _ _ _ _ (Hl & IH & Hnd)]; [by split_and!; [| |constructor]|..].
  - split; [simpl; lia|]. split; [|done]. eapply Forall_impl; [exact IH|]. intros a (H1 & H2 & H3). simpl. split_and!; try done; lia.
  - split; [simpl; lia|]. split; [constructor; [simpl; split_and!; try done; lia|]; eapply Forall_impl; [exact IH|]; intros b (H1 & H2 & H3); simpl; split_and!; try done; lia|].
    rewrite fmap_cons. apply NoDup_cons. split; [|done]. rewrite list_elem_of_fmap. intros (b & Hb & Hin). rewrite Forall_forall in IH. destruct (IH b Hin) as [? _]. lia.
Qed.

Lemma aligned_after i keys ks arrays : aligned (S i) keys ks arrays -> Forall (fun a => i < scan_key a)%nat arrays.
Proof. intros H. apply aligned_arrays in H as (_ & H & _). eapply Forall_impl; [exact H|]. intros a (? & _). lia. Qed.

(** Exactly one choice of elements accepts a tuple that satisfies the array keys. *)
Lemma aligned_sat t i keys ks arrays : aligned i keys ks arrays ->
  (all_sat_array t keys = true <-> exists ns, Forall2 in_array arrays ns /\ all_sat t (assign_from i ks arrays ns) = true) /\
  (forall ns ns', Forall2 in_array arrays ns -> Forall2 in_array arrays ns' -> all_sat t (assign_from i ks arrays ns) = true ->
    all_sat t (assign_from i ks arrays ns') = true -> ns = ns').
Proof.
  induction 1 as [i|i cur cur' keys ks arrays _ Hs Hal [IH1 IH2]|i cur a keys ks arrays Hk Hn Hpos Hs Hu _ _ Hal [IH1 IH2]].
  - split; [split; [by exists []|done]|]. intros ns ns' H1 H2. inversion H1. by inversion H2.
  - assert (Hsk : forall ns, all_sat t (assign_from i (cur' :: ks) arrays ns) = sat t cur' && all_sat t (assign_from (S i) ks arrays ns)).
    { intros ns. by rewrite assign_skip by (by eapply aligned_after). }
    unfold all_sat_array in *. cbn [forallb]. rewrite Hs, andb_true_iff, IH1. split.
    + split; [intros (H1 & ns & H2 & H3); exists ns; by rewrite Hsk, H1, H3|intros (ns & H2 & H3); rewrite Hsk in H3; apply andb_true_iff in H3 as [H3 H4]; by eauto].
    + intros ns ns' H1 H2. rewrite !Hsk. intros [_ H3]%andb_true_iff [_ H4]%andb_true_iff. by apply IH2.
  - assert (Hsk : forall n ns, all_sat t (assign_from i (cur :: ks) (a :: arrays) (n :: ns)) = sat t (set_argument (elem_at a n) cur) && all_sat t (assign_from (S i) ks arrays ns)).
    { intros n ns. cbn [assign_from]. rewrite Hk, Nat.sub_diag. change (alter _ 0%nat (cur :: ks)) with (set_argument (elem_at a n) cur :: ks).
      by rewrite assign_skip by (by eapply aligned_after). }
    unfold all_sat_array in *. cbn [forallb]. rewrite andb_true_iff, IH1, Hs. split.
    + split.
      * intros ((n & Hn1 & Hn2) & ns & H2 & H3). exists (n :: ns). rewrite Hsk, Hn2, H3. split; [by constructor|done].
      * intros (ns & H2 & H3). inversion H2 as [|? n ? ns' Hn1 Hns]; subst. rewrite Hsk in H3. apply andb_true_iff in H3 as [H3 H4]. split; [by exists n|by exists ns'].
    + intros ns ns' H1 H2. inversion H1 as [|? n ? ns1 Hn1 Hns1]; subst. inversion H2 as [|? n' ? ns1' Hn1' Hns1']; subst. rewrite !Hsk.
      intros [H3 H4]%andb_true_iff [H5 H6]%andb_true_iff. f_equal; [by apply (Hu t)|by apply IH2].
Qed.

(** The order of the positions is the order of the scans. *)
Lemma aligned_order i keys ks arrays : aligned i keys ks arrays -> forall ns ns', Forall2 in_array arrays ns -> Forall2 in_array arrays ns' -> lexord Z.lt ns ns' ->
  scan_before keys (assign_from i ks arrays ns) (assign_from i ks arrays ns').
Proof.
  induction 1 as [i|i cur cur' keys ks arrays He _ Hal IH|i cur a keys ks arrays Hk _ _ _ _ He Hord Hal IH]; intros ns ns' Hns Hns' Hlex.
  - inversion Hns; subst. done.
  - rewrite !assign_skip by (by eapply aligned_after). cbn [scan_before]. rewrite He. by apply IH.
  - inversion Hns as [|? n ? ns1 Hn1 Hns1]; subst. inversion Hns' as [|? n' ? ns1' Hn1' Hns1']; subst. cbn [assign_from]. rewrite Nat.sub_diag.
    change (alter (set_argument ?v) 0%nat (cur :: ks)) with (set_argument v cur :: ks). rewrite !assign_skip by (by eapply aligned_after). cbn [scan_before]. rewrite He.
    destruct Hlex as [Hlt|[-> Hlex]]; [left; by apply Hord|right; split; [done|by apply IH]].
Qed.

(** *** Preprocessing *)

Context `{!OpFamily opfamily cmp} `{!ElemProcs elem_proc cmp} `{!ArraySort qsort_arg}.

(** An array key: its operator and the family's functions for its elements exist. *)
Record array_key (sk : ScanKey) : Prop := {
  ak_row : flag (sk_head sk) SK_ROW_HEADER = false;
  ak_null : flag (sk_head sk) SK_ISNULL = false;
  ak_attno : is_Some (indoption !! Z.to_nat (sk_attno (sk_head sk) - 1));
  ak_op : is_operator opcintype cmp (sk_head sk);
  ak_member strat : strat = BTLessStrategyNumber \/ strat = BTGreaterStrategyNumber ->
    is_Some (opfamily (sk_attno (sk_head sk)) (arg_type opcintype (sk_head sk) (sk_attno (sk_head sk))) (arg_type opcintype (sk_head sk) (sk_attno (sk_head sk))) strat);
  ak_proc : is_Some (elem_proc (sk_attno (sk_head sk)) (arg_type opcintype (sk_head sk) (sk_attno (sk_head sk))))
}.

Section Key.
Context (sk : ScanKey) (Hk : array_key sk).
Abbreviation k := (sk_head sk).
Abbreviation a := (sk_attno k).
Abbreviation ty := (arg_type opcintype k a).
Abbreviation ecmp x y := (cmp a (ty, x) (ty, y)).

Lemma sat_elem t v : sat t (set_argument v sk) =
  match attr t a with Some d => holds (sk_strategy k) (cmp a (opcintype a, d) (ty, v)) | None => false end.
Proof.
  destruct Hk as [Hr Hn _ [_ Hop] _ _]. unfold sat, sat_key, flag, set_argument in *. cbn [sk_head sk_flags sk_attno sk_func sk_argument]. rewrite Hr, Hn.
  destruct (attr t a); [apply Hop|done].
Qed.

Lemma extreme_run strat e es : strat = BTLessStrategyNumber \/ strat = BTGreaterStrategyNumber ->
  exists v, _abt_find_extreme_element opcintype opfamily k strat (e :: es) = Val v /\ v ∈ e :: es /\ forall x, x ∈ e :: es -> holds strat (ecmp x v) = false.
Proof.
  intros Hs. unfold _abt_find_extreme_element. destruct (ak_member sk Hk strat Hs) as [f Hf]. rewrite Hf. cbn [the head rbind tail]. eexists. split; [reflexivity|].
  assert (Hm : forall x y, DatumGetBool (f x y) = holds strat (ecmp x y)) by (intros; by apply of_member).
  assert (Hrefl : holds strat (ecmp e e) = false) by (pose proof (of_sym a (ty, e) (ty, e)); destruct Hs as [-> | ->]; cbn; lia).
  assert (Hinit : forall x, x ∈ [e] -> holds strat (ecmp x e) = false) by (intros x ->%list_elem_of_singleton; done).
  change (e :: es) with ([e] ++ es). revert Hinit. assert (He : e ∈ [e]) by (by left). revert He. generalize [e] as seen. generalize e as r. clear Hrefl e.
  induction es as [|x es IH]; intros r seen Hr Hall; cbn [fold_left]; [by rewrite app_nil_r|].
  replace (seen ++ x :: es) with ((seen ++ [x]) ++ es) by (by rewrite <- app_assoc). rewrite Hm. destruct (holds strat (ecmp x r)) eqn:Ex.
  - apply IH; [apply elem_of_app; right; by left|]. intros y Hy. apply elem_of_app in Hy as [Hy| ->%list_elem_of_singleton].
    + specialize (Hall y Hy). pose proof (of_sym a (ty, x) (ty, r)). pose proof (of_sym a (ty, r) (ty, x)). pose proof (of_sym a (ty, y) (ty, r)). pose proof (of_sym a (ty, r) (ty, y)).
      pose proof (of_sym a (ty, y) (ty, x)). pose proof (of_sym a (ty, x) (ty, y)). pose proof (of_trans a (ty, y) (ty, r) (ty, x)). pose proof (of_trans a (ty, x) (ty, r) (ty, y)).
      destruct Hs as [-> | ->]; cbn in *; zbool; apply Z.ltb_ge; lia.
    + pose proof (of_sym a (ty, x) (ty, x)). destruct Hs as [-> | ->]; cbn; apply Z.ltb_ge; lia.
  - apply IH; [apply elem_of_app; by left|]. intros y Hy. apply elem_of_app in Hy as [Hy| ->%list_elem_of_singleton]; [by apply Hall|done].
Qed.

(** An inequality holds for some element if it does for the right extreme one. *)
Lemma extreme_sat t strat elems v : (strat = BTGreaterStrategyNumber /\ (sk_strategy k = 1 \/ sk_strategy k = 2)) \/
    (strat = BTLessStrategyNumber /\ (sk_strategy k = 4 \/ sk_strategy k = 5)) ->
  v ∈ elems -> (forall x, x ∈ elems -> holds strat (ecmp x v) = false) ->
  existsb (fun x => sat t (set_argument x sk)) elems = sat t (set_argument v sk).
Proof.
  intros Hs Hv Hx. apply Bool.eq_iff_eq_true. rewrite existsb_exists. split.
  - intros (x & Hin%list_elem_of_In & Hsx). specialize (Hx x Hin). rewrite sat_elem in *. destruct (attr t a) as [d|]; [|done].
    pose proof (of_sym a (opcintype a, d) (ty, x)). pose proof (of_sym a (ty, x) (opcintype a, d)). pose proof (of_sym a (ty, x) (ty, v)). pose proof (of_sym a (ty, v) (ty, x)).
    pose proof (of_sym a (opcintype a, d) (ty, v)). pose proof (of_sym a (ty, v) (opcintype a, d)).
    pose proof (of_trans a (opcintype a, d) (ty, x) (ty, v)). pose proof (of_trans a (ty, v) (ty, x) (opcintype a, d)).
    pose proof (of_trans a (ty, x) (ty, v) (opcintype a, d)). pose proof (of_trans a (opcintype a, d) (ty, v) (ty, x)).
    destruct Hs as [[-> [E|E]]|[-> [E|E]]]; rewrite E in *; cbn in *; zbool; rewrite ?Z.ltb_lt, ?Z.leb_le; lia.
  - intros H. exists v. split; [by apply list_elem_of_In|done].
Qed.

Lemma compare_elements_order proc rev : elem_proc a ty = Some proc ->
  let compare := _abt_compare_array_elements proc rev in
  (forall x y, Z.sgn (compare x y) = Z.sgn (if rev then - ecmp x y else ecmp x y)) /\ (forall x y, compare x y < 0 <-> 0 < compare y x) /\
  (forall x y z, compare x y <= 0 -> compare y z <= 0 -> compare x z <= 0).
Proof.
  intros Hp compare. assert (Hc : forall x y, Z.sgn (compare x y) = Z.sgn (if rev then - ecmp x y else ecmp x y)).
  { intros x y. pose proof (elem_proc_cmp a ty proc x y Hp) as H. unfold compare, _abt_compare_array_elements. destruct rev; [|done]. rewrite invert_sgn. lia. }
  split_and!.
  - exact Hc.
  - intros x y. pose proof (Hc x y). pose proof (Hc y x). pose proof (of_sym a (ty, x) (ty, y)). pose proof (of_sym a (ty, y) (ty, x)). destruct rev; lia.
  - intros x y z. pose proof (Hc x y). pose proof (Hc y z). pose proof (Hc x z). pose proof (of_trans a (ty, x) (ty, y) (ty, z)). pose proof (of_trans a (ty, z) (ty, y) (ty, x)).
    pose proof (of_sym a (ty, x) (ty, y)). pose proof (of_sym a (ty, y) (ty, x)). pose proof (of_sym a (ty, y) (ty, z)). pose proof (of_sym a (ty, z) (ty, y)).
    pose proof (of_sym a (ty, x) (ty, z)). pose proof (of_sym a (ty, z) (ty, x)). destruct rev; lia.
Qed.

(** Sorting keeps a representative of every element, no two equal ones, in order. *)
Lemma sort_run rev elems : elems <> [] ->
  exists out, _abt_sort_array_elements opcintype elem_proc qsort_arg k rev elems = Val out /\ out <> [] /\
    (forall v, v ∈ out -> v ∈ elems) /\ (forall x, x ∈ elems -> exists v, v ∈ out /\ ecmp x v = 0) /\
    (forall n m v w, (n < m)%nat -> out !! n = Some v -> out !! m = Some w -> (if rev then - ecmp v w else ecmp v w) < 0).
Proof.
  intros Hne. unfold _abt_sort_array_elements. destruct (Nat.leb_spec (length elems) 1).
  { exists elems. split; [done|]. split; [done|]. split; [done|]. split.
    - intros x Hx. exists x. split; [done|]. pose proof (of_sym a (ty, x) (ty, x)). lia.
    - intros n m v w Hnm Hv%lookup_lt_Some Hw%lookup_lt_Some. lia. }
  destruct (ak_proc sk Hk) as [proc Hp]. rewrite Hp. eexists. split; [reflexivity|]. destruct (compare_elements_order proc rev Hp) as (Hz & Hsym & Htr).
  set (compare := _abt_compare_array_elements proc rev) in *. pose proof (array_sort_perm compare elems) as Hperm. pose proof (array_sort_sorted compare elems Hsym Htr) as Hsorted.
  destruct (qsort_arg compare elems) as [|j l] eqn:El; [apply Permutation_nil in Hperm; congruence|]. cbn [qunique_arg].
  destruct (qunique_loop_spec compare Hsym Htr l j Hsorted) as (H1 & H2 & H3). split; [|split; [|split]].
  - destruct l as [|i l]; cbn [qunique_loop]; [done|]. destruct (H3 j ltac:(by left)) as (y & Hy & _). intros E. cbn [qunique_loop] in Hy. rewrite E in Hy. by apply elem_of_nil in Hy.
  - intros v Hv%H2. by rewrite <- Hperm.
  - intros x Hx. rewrite <- Hperm in Hx. destruct (H3 x Hx) as (y & Hy & Hxy). exists y. split; [done|]. specialize (Hz x y). destruct rev; lia.
  - intros n m v w Hnm Hv Hw. pose proof (StronglySorted_lookup _ _ _ _ _ _ H1 Hnm Hv Hw) as Hlt. cbv beta in Hlt. specialize (Hz v w). lia.
Qed.

(** An equality holds for exactly one of the elements kept. *)
Lemma sorted_sat t out elems i : sk_strategy k = 3 -> flag k SK_SEARCHARRAY = true -> omap id (deconstruct_array (sk_argument k)) = elems ->
  (forall v, v ∈ out -> v ∈ elems) -> (forall x, x ∈ elems -> exists v, v ∈ out /\ ecmp x v = 0) ->
  (forall n m v w, (n < m)%nat -> out !! n = Some v -> out !! m = Some w -> ecmp v w <> 0) ->
  let arr := mk_array i 0 0 (Z.of_nat (length out)) out in
  (sat_array t sk = true <-> exists n, in_array arr n /\ sat t (set_argument (elem_at arr n) sk) = true) /\
  (forall n m, in_array arr n -> in_array arr m -> sat t (set_argument (elem_at arr n) sk) = true -> sat t (set_argument (elem_at arr m) sk) = true -> n = m).
Proof.
  intros Hst Har Hel Hsub Hrep Hne arr. unfold sat_array, is_array. rewrite Har, (ak_null sk Hk), Hel. cbn [negb andb].
  assert (Hsat : forall v, sat t (set_argument v sk) = true <-> exists d, attr t a = Some d /\ cmp a (opcintype a, d) (ty, v) = 0).
  { intros v. rewrite sat_elem, Hst. destruct (attr t a) as [d|]; [|split; [done|by intros (? & ? & _)]]. change (holds 3 ?r) with (r =? 0).
    rewrite Z.eqb_eq. split; [by exists d|by intros (? & [= <-] & ?)]. }
  assert (Hlk : forall n, in_array arr n -> out !! Z.to_nat n = Some (elem_at arr n)).
  { intros n Hn. unfold in_array, elem_at, arr in *. cbn [elem_values num_elems] in *. destruct (lookup_lt_is_Some_2 out (Z.to_nat n) ltac:(lia)) as [v ->]. done. }
  assert (Heq : forall d x y, cmp a (opcintype a, d) (ty, x) = 0 -> cmp a (ty, x) (ty, y) = 0 <-> cmp a (opcintype a, d) (ty, y) = 0).
  { intros d x y H. pose proof (of_sym a (opcintype a, d) (ty, x)). pose proof (of_sym a (ty, x) (opcintype a, d)). pose proof (of_sym a (ty, x) (ty, y)). pose proof (of_sym a (ty, y) (ty, x)).
    pose proof (of_sym a (opcintype a, d) (ty, y)). pose proof (of_sym a (ty, y) (opcintype a, d)). pose proof (of_trans a (opcintype a, d) (ty, x) (ty, y)).
    pose proof (of_trans a (ty, y) (ty, x) (opcintype a, d)). pose proof (of_trans a (ty, x) (opcintype a, d) (ty, y)). pose proof (of_trans a (ty, y) (opcintype a, d) (ty, x)). lia. }
  split.
  - rewrite existsb_exists. split.
    + intros (x & Hx%list_elem_of_In & (d & Hd & Hc)%Hsat). destruct (Hrep x Hx) as (v & Hv & Hxv). apply list_elem_of_lookup_1 in Hv as [n Hn].
      assert (Hin : in_array arr (Z.of_nat n)) by (apply lookup_lt_Some in Hn; unfold in_array, arr; cbn [num_elems]; lia).
      exists (Z.of_nat n). split; [done|]. apply Hsat. exists d. split; [done|]. apply Hlk in Hin. rewrite Nat2Z.id, Hn in Hin. injection Hin as <-. by apply (Heq d x v).
    + intros (n & Hn & Hs). exists (elem_at arr n). split; [|done]. apply list_elem_of_In, Hsub. by eapply list_elem_of_lookup_2, Hlk.
  - intros n m Hn Hm (d & Hd & Hc)%Hsat (d' & Hd' & Hc')%Hsat. assert (d' = d) as -> by congruence. pose proof (Hlk n Hn) as Ln. pose proof (Hlk m Hm) as Lm.
    unfold in_array in *. destruct (Z.lt_trichotomy n m) as [Hlt|[->|Hlt]]; [|done|]; exfalso.
    + apply (Hne (Z.to_nat n) (Z.to_nat m) _ _ ltac:(lia) Ln Lm). by apply (Heq d).
    + apply (Hne (Z.to_nat m) (Z.to_nat n) _ _ ltac:(lia) Lm Ln). by apply (Heq d).
Qed.

End Key.

Lemma array_loop_run keys i : Forall (fun sk => is_array sk = true -> array_key sk) keys ->
  exists ks arrays ok, array_loop indoption opcintype opfamily elem_proc deconstruct_array qsort_arg keys i = Val (ks, arrays, ok) /\
    if ok : bool then aligned i keys ks arrays else forall t, all_sat_array t keys = false.
Proof.
  intros Hall. revert i. induction Hall as [|cur keys Hcur _ IH]; intros i; cbn [array_loop]; [eexists [], [], true; split; [done|constructor]|].
  destruct (IH (S i)) as (ks & arrays & ok & Hrun & Hok). clear IH. fold (is_array cur). destruct (is_array cur) eqn:Ear; cbn [negb].
  2: { rewrite Hrun. cbn [rbind]. eexists _, _, ok. split; [reflexivity|]. unfold all_sat_array in *. destruct ok.
       - apply al_key; [unfold is_equality_array; by rewrite Ear| |done]. intros t. unfold sat_array. by rewrite Ear.
       - intros t. cbn [forallb]. by rewrite Hok, andb_false_r. }
  specialize (Hcur eq_refl). destruct (omap id (deconstruct_array (sk_argument (sk_head cur)))) as [|e es] eqn:Eel.
  { eexists _, _, false. split; [reflexivity|]. intros t. unfold all_sat_array. cbn [forallb]. unfold sat_array at 1. by rewrite Ear, Eel, andb_false_r. }
  assert (Hext : forall strat, (strat = BTGreaterStrategyNumber /\ (sk_strategy (sk_head cur) = 1 \/ sk_strategy (sk_head cur) = 2)) \/
      (strat = BTLessStrategyNumber /\ (sk_strategy (sk_head cur) = 4 \/ sk_strategy (sk_head cur) = 5)) ->
    exists ks' arrays' ok', (let? v := _abt_find_extreme_element opcintype opfamily (sk_head cur) strat (e :: es) in
      let? (ks, arrays, ok) := Val (ks, arrays, ok) in Val (set_argument v cur :: ks, arrays, ok)) = Val (ks', arrays', ok') /\
      if ok' : bool then aligned i (cur :: keys) ks' arrays' else forall t, all_sat_array t (cur :: keys) = false).
  { intros strat Hs. destruct (extreme_run cur Hcur strat e es) as (v & -> & Hv & Hx); [tauto|]. cbn [rbind]. eexists _, _, ok. split; [reflexivity|]. destruct ok.
    - apply al_key; [unfold is_equality_array; destruct Hs as [[_ [-> | ->]]|[_ [-> | ->]]]; by rewrite andb_false_r| |done]. intros t. unfold sat_array. rewrite Ear, (ak_null _ Hcur), Eel. cbn [negb andb]. by apply (extreme_sat cur Hcur t strat).
    - intros t. unfold all_sat_array in *. cbn [forallb]. by rewrite Hok, andb_false_r. }
  rewrite Hrun. pose proof (proj1 (ak_op _ Hcur)) as Hrange. destruct (Z.eq_dec (sk_strategy (sk_head cur)) 3) as [E3|E3].
  - rewrite E3. cbn [Z.eqb orb]. destruct (ak_attno _ Hcur) as [opt Hopt]. rewrite Hopt. cbn [the rbind].
    destruct (sort_run cur Hcur (negb (Z.land opt INDOPTION_DESC =? 0)) (e :: es) ltac:(done)) as (out & -> & Hne & Hsub & Hrep & Hd). cbn [rbind].
    eexists _, _, ok. split; [reflexivity|]. destruct ok; [|intros t; unfold all_sat_array in *; cbn [forallb]; by rewrite Hok, andb_false_r].
    assert (Hd' : forall n m v w, (n < m)%nat -> out !! n = Some v -> out !! m = Some w -> cmp (sk_attno (sk_head cur)) (arg_type opcintype (sk_head cur) (sk_attno (sk_head cur)), v) (arg_type opcintype (sk_head cur) (sk_attno (sk_head cur)), w) <> 0).
    { intros n m v w Hnm Hv Hw. specialize (Hd n m v w Hnm Hv Hw). destruct (negb _); lia. }
    apply al_array; try done; [destruct out; [done|simpl; lia]|intros t; by apply (sorted_sat cur Hcur t out _ i E3 Ear Eel Hsub Hrep Hd')..| |].
    + unfold is_equality_array. by rewrite Ear, E3.
    + intros n m Hn Hm Hnm. unfold in_array in Hn, Hm. cbn [num_elems] in Hn, Hm. unfold index_cmp, elem_at. rewrite Hopt. cbn [elem_values default].
      destruct (lookup_lt_is_Some_2 out (Z.to_nat n) ltac:(lia)) as [v Hv], (lookup_lt_is_Some_2 out (Z.to_nat m) ltac:(lia)) as [w Hw]. rewrite Hv, Hw. cbn [default]. apply (Hd (Z.to_nat n) (Z.to_nat m) v w ltac:(lia) Hv Hw).
  - assert (sk_strategy (sk_head cur) = 1 \/ sk_strategy (sk_head cur) = 2 \/ sk_strategy (sk_head cur) = 4 \/ sk_strategy (sk_head cur) = 5) as [E|[E|[E|E]]] by lia;
      rewrite E; cbn [Z.eqb orb]; apply Hext; lia.
Qed.

(** The state after preprocessing: nothing to scan, or keys and arrays that correspond to
    the quals. *)
Definition arrays_ready (keys : list ScanKey) (so' : array_scan) : Prop :=
  (numArrayKeys so' = -1 /\ forall t, all_sat_array t keys = false) \/
  (exists ks arrays, numArrayKeys so' = Z.of_nat (length arrays) /\ current_keys keys so' = ks /\ current_arrays so' = arrays /\
    aligned 0 keys ks arrays /\ (arrays <> [] -> arrayKeyData so' = Some ks /\ arrayKeys so' = arrays)).

Lemma plain_aligned keys i : existsb is_array keys = false -> aligned i keys keys [].
Proof.
  revert i. induction keys as [|sk keys IH]; intros i; [constructor|]. cbn [existsb]. intros [E1 E2]%orb_false_iff.
  apply al_key; [unfold is_equality_array; by rewrite E1|intros t; unfold sat_array; by rewrite E1|by apply IH].
Qed.

Lemma preprocess_arrays_run keys so : Forall (fun sk => is_array sk = true -> flag (sk_head sk) SK_ISNULL = false -> array_key sk) keys ->
  exists so', _abt_preprocess_array_keys indoption opcintype opfamily elem_proc deconstruct_array qsort_arg keys so = Val so' /\ arrays_ready keys so'.
Proof.
  intros Hall. unfold _abt_preprocess_array_keys. destruct (existsb (fun cur => is_array cur && flag (sk_head cur) SK_ISNULL) keys) eqn:Enull.
  { eexists. split; [reflexivity|]. left. split; [done|]. intros t. apply not_true_iff_false. intros Hs.
    apply existsb_exists in Enull as (sk & Hin & [Har Hn]%andb_true_iff). unfold all_sat_array in Hs. rewrite forallb_forall in Hs. specialize (Hs sk Hin).
    unfold sat_array in Hs. by rewrite Har, Hn in Hs. }
  assert (Hkeys : Forall (fun sk => is_array sk = true -> array_key sk) keys).
  { apply Forall_forall. intros sk Hin Har. rewrite Forall_forall in Hall. apply Hall; [done..|]. apply not_true_iff_false. intros Hn.
    apply not_true_iff_false in Enull. apply Enull, existsb_exists. exists sk. split; [by apply list_elem_of_In|]. by rewrite Har, Hn. }
  destruct (existsb is_array keys) eqn:Ear; cbn [negb].
  2: { eexists. split; [reflexivity|]. right. exists keys, []. split_and!; try done. by apply plain_aligned. }
  destruct (array_loop_run keys 0 Hkeys) as (ks & arrays & ok & -> & Hok). cbn [rbind]. eexists. split; [reflexivity|]. destruct ok; [|by left]. right. exists ks, arrays.
  unfold current_arrays. cbn [numArrayKeys arrayKeys]. rewrite Nat2Z.id, firstn_all. done.
Qed.

(** The scans that are made: one for every combination of elements. *)
Lemma ready_scans keys so' scan dir fuel : arrays_ready keys so' -> (forall ks, Forall2 same_key ks (scan ks)) -> (length (positions dir (current_arrays so')) <= fuel)%nat ->
  exists l, scan_all scan keys fuel dir so' = Some (Val l) /\
    if numArrayKeys so' <? 0 then l = [] else Forall2 (Forall2 same_key) (assign (current_keys keys so') (current_arrays so') <$> positions dir (current_arrays so')) l.
Proof.
  intros [[Hn _]|(ks & arrays & Hn & Hks & Ha & Hal & Hdata)] Hscan Hf.
  { exists []. unfold scan_all. rewrite Hn. by split. }
  rewrite Hn, (proj2 (Z.ltb_ge _ 0)), Ha, Hks by lia. rewrite Ha in Hf. destruct arrays as [|a arrays].
  - destruct fuel as [|fuel]; [simpl in Hf; lia|]. unfold scan_all. rewrite Hn. cbn [length Z.of_nat Z.eqb scan_loop]. change (numArrayKeys (scanned scan so')) with (numArrayKeys so'). rewrite Hn. cbn [length Z.of_nat Z.eqb].
    exists [ks]. split; [by rewrite Hks|]. repeat constructor. reflexivity.
  - destruct (Hdata ltac:(done)) as [Hd Hk]. destruct (aligned_arrays 0 keys ks (a :: arrays) Hal) as (Hl & Haok & Hnd).
    assert (Hne : arrayKeys so' <> []) by (by rewrite Hk). rewrite <- Hk. rewrite <- Hk in Hn, Hf, Haok, Hnd. apply (scans_in_order scan Hscan keys dir so' ks fuel); try done. eapply Forall_impl; [exact Haok|]. intros b (H1 & H2 & H3). split; try done. lia.
Qed.

(** C27: Array keys keep their meaning.  Preprocessing the arrays and scanning for every
    set of elements: a tuple satisfies the quals exactly if one of the scans accepts it,
    and no tuple is accepted by two of them, so none is missed or returned twice. *)
Theorem array_scans_partition keys so : Forall (fun sk => is_array sk = true -> flag (sk_head sk) SK_ISNULL = false -> array_key sk) keys ->
  exists so', _abt_preprocess_array_keys indoption opcintype opfamily elem_proc deconstruct_array qsort_arg keys so = Val so' /\
    forall scan dir fuel, (forall ks, Forall2 same_key ks (scan ks)) -> (length (positions dir (current_arrays so')) <= fuel)%nat ->
      exists l, scan_all scan keys fuel dir so' = Some (Val l) /\
        forall t, (all_sat_array t keys = true <-> exists n ks, l !! n = Some ks /\ all_sat t ks = true) /\
          (forall n m ks ks', l !! n = Some ks -> l !! m = Some ks' -> all_sat t ks = true -> all_sat t ks' = true -> n = m).
Proof.
  intros Hall. destruct (preprocess_arrays_run keys so Hall) as (so' & Hrun & Hready). exists so'. split; [done|]. intros scan dir fuel Hscan Hf.
  destruct (ready_scans keys so' scan dir fuel Hready Hscan Hf) as (l & Hl & Hl2). exists l. split; [done|]. intros t.
  destruct Hready as [[Hn Hno]|(ks & arrays & Hn & Hks & Ha & Hal & _)]; rewrite Hn in Hl2.
  { cbn in Hl2. subst l. rewrite Hno. split; [split; [done|by intros (? & ? & ? & _)]|done]. }
  rewrite (proj2 (Z.ltb_ge _ 0)), Ha, Hks in Hl2 by lia. destruct (aligned_sat t 0 keys ks arrays Hal) as [H1 H2].
  assert (Hlk : forall n ks', l !! n = Some ks' -> exists ns, positions dir arrays !! n = Some ns /\ Forall2 in_array arrays ns /\ all_sat t ks' = all_sat t (assign_from 0 ks arrays ns)).
  { intros n ks' Hn'. destruct (Forall2_lookup_r _ _ _ _ _ Hl2 Hn') as (ks0 & Hks0 & Hsame). rewrite list_lookup_fmap in Hks0. destruct (positions dir arrays !! n) as [ns|] eqn:En; [|done].
    injection Hks0 as <-. exists ns. split; [done|]. split; [by eapply positions_in, list_elem_of_lookup_2|]. rewrite assign_from_0. symmetry. by apply same_keys_sat. }
  split.
  - rewrite H1. split.
    + intros (ns & Hin & Hs). apply (positions_in dir), list_elem_of_lookup_1 in Hin as [n Hn'].
      destruct (Forall2_lookup_l _ _ _ n (assign ks arrays ns) Hl2) as (ks' & Hks' & Hsame); [by rewrite list_lookup_fmap, Hn'|]. exists n, ks'. split; [done|].
      rewrite <- (same_keys_sat t _ _ Hsame). by rewrite <- assign_from_0.
    + intros (n & ks' & Hn' & Hs). destruct (Hlk n ks' Hn') as (ns & _ & Hin & E). exists ns. split; [done|]. by rewrite <- E.
  - intros n m ks1 ks2 Hn1 Hm Hs1 Hs2. destruct (Hlk n ks1 Hn1) as (ns1 & Hp1 & Hin1 & E1). destruct (Hlk m ks2 Hm) as (ns2 & Hp2 & Hin2 & E2).
    assert (ns1 = ns2) as <- by (apply H2; congruence). by apply (NoDup_lookup _ _ _ ns1 (positions_NoDup dir arrays)).
Qed.

(** C40: The order of the scans of a query with array keys.  After preprocessing, starting
    the arrays and advancing them until there is no further set ends, with one scan for
    every combination of the sorted elements without duplicates (none if an array is NULL
    or has no element that is not), and the sets of elements come strictly in
    lexicographic order of the quals, each array in the order of its index column (DESC
    columns descending), or in the reverse of it for a backward scan.  What a scan marks
    on the keys does not matter. *)
Theorem array_scans_in_order keys so : Forall (fun sk => is_array sk = true -> flag (sk_head sk) SK_ISNULL = false -> array_key sk) keys ->
  exists so', _abt_preprocess_array_keys indoption opcintype opfamily elem_proc deconstruct_array qsort_arg keys so = Val so' /\
    forall scan dir fuel, (forall ks, Forall2 same_key ks (scan ks)) -> (length (positions dir (current_arrays so')) <= fuel)%nat ->
      exists l, scan_all scan keys fuel dir so' = Some (Val l) /\
        (if numArrayKeys so' <? 0 then l = [] else Forall2 (Forall2 same_key) (assign (current_keys keys so') (current_arrays so') <$> positions dir (current_arrays so')) l) /\
        StronglySorted (fun ks ks' => if ScanDirectionIsBackward dir then scan_before keys ks' ks else scan_before keys ks ks') l.
Proof.
  intros Hall. destruct (preprocess_arrays_run keys so Hall) as (so' & Hrun & Hready). exists so'. split; [done|]. intros scan dir fuel Hscan Hf.
  destruct (ready_scans keys so' scan dir fuel Hready Hscan Hf) as (l & Hl & Hl2). exists l. split; [done|]. split; [done|].
  destruct Hready as [[Hn _]|(ks & arrays & Hn & Hks & Ha & Hal & _)]; rewrite Hn in Hl2; [cbn in Hl2; subst l; constructor|].
  rewrite (proj2 (Z.ltb_ge _ 0)), Ha, Hks in Hl2 by lia. apply StronglySorted_intro. intros i j ks1 ks2 Hij H1 H2.
  destruct (Forall2_lookup_r _ _ _ _ _ Hl2 H1) as (ks1' & E1 & Hs1). destruct (Forall2_lookup_r _ _ _ _ _ Hl2 H2) as (ks2' & E2 & Hs2). rewrite list_lookup_fmap in E1, E2.
  destruct (positions dir arrays !! i) as [ns|] eqn:Ei; [|done]. destruct (positions dir arrays !! j) as [ns'|] eqn:Ej; [|done]. injection E1 as <-. injection E2 as <-.
  pose proof (proj1 (positions_in dir arrays ns) (list_elem_of_lookup_2 _ _ _ Ei)) as Hi. pose proof (proj1 (positions_in dir arrays ns') (list_elem_of_lookup_2 _ _ _ Ej)) as Hj.
  pose proof (StronglySorted_lookup _ _ _ _ _ _ (positions_sorted dir arrays) Hij Ei Ej) as Hlex. rewrite <- !assign_from_0 in *. destruct (ScanDirectionIsBackward dir).
  - eapply scan_before_same; [exact Hs2|exact Hs1|]. by apply aligned_order; [| | |apply lexord_flip].
  - eapply scan_before_same; [exact Hs1|exact Hs2|]. by apply aligned_order.
Qed.

End Meaning.

(** ** Witnesses *)

(** Three arrays: datum 100 is {7, 5, NULL, 7}, datum 101 is {9, 2}. *)
Definition demo_arrays (d : Z) : list (option Z) :=
  if d =? 100 then [Some 7; Some 5; None; Some 7] else if d =? 101 then [Some 9; Some 2] else [].
Definition demo_elem_proc (a ty : Z) : option (Z -> Z -> Z) := Some Z.sub.
Definition compare_le (compare : Z -> Z -> Z) (x y : Z) : Prop := compare x y <= 0.
#[export] Instance compare_le_dec compare : RelDecision (compare_le compare).
Proof. intros x y. apply Z.le_dec. Defined.
Definition demo_qsort (compare : Z -> Z -> Z) : list Z -> list Z := merge_sort (compare_le compare).

#[export] Instance demo_ElemProcs : ElemProcs demo_elem_proc demo_cmp.
Proof. by intros a ty f x y [= <-]. Qed.

#[export] Instance demo_ArraySort : ArraySort demo_qsort.
Proof.
  split.
  - intros compare l. apply merge_sort_Permutation.
  - intros compare l Hsym Htrans. assert (Transitive (compare_le compare)) by (intros x y z; apply Htrans).
    assert (Total (compare_le compare)) by (intros x y; unfold compare_le; pose proof (Hsym x y); pose proof (Hsym y x); lia).
    apply (StronglySorted_merge_sort (compare_le compare)).
Qed.

(** x = ANY {7, 5, NULL, 7} AND y < ANY {9, 2} AND y = ANY {9, 2} *)
Definition demo_array_key (attno strat arg : Z) : ScanKey := mk_ScanKey (mk_skey SK_SEARCHARRAY attno strat 0 (demo_op strat) arg) [].
Definition demo_array_quals : list ScanKey := [demo_array_key 1 3 100; demo_array_key 2 1 101; demo_array_key 2 3 101].
Definition no_arrays : array_scan := mk_array_scan 0 None [] false None true [].

Definition demo_array_scan : array_scan :=
  match _abt_preprocess_array_keys demo_options demo_type demo_family demo_elem_proc demo_arrays demo_qsort demo_array_quals no_arrays with
  | Val so => so
  | Raise _ => no_arrays
  end.

(** The scans, in ascending order of x and, the column being descending, descending order of y. *)
Example demo_array_scans :
  (fun r : option (res (list (list ScanKey))) => match r with
            | Some (Val l) => map (map (fun sk => sk_argument (sk_head sk))) l
            | _ => []
            end) (scan_all (mark_keys demo_options) demo_array_quals 10 Forward demo_array_scan) =
  [[5; 9; 9]; [5; 9; 2]; [7; 9; 9]; [7; 9; 2]].
Proof. vm_compute. reflexivity. Qed.

Lemma demo_array_key_ok attno strat arg : 1 <= attno <= 2 -> 1 <= strat <= 5 ->
  array_key demo_options demo_type demo_family demo_elem_proc demo_cmp (demo_array_key attno strat arg).
Proof.
  intros Ha Hs. split; [done|done| |split; [done|]|by eexists|by eexists].
  - apply lookup_lt_is_Some_2. simpl. lia.
  - intros x y. simpl. unfold demo_op, DatumGetBool, demo_cmp. simpl. by destruct (holds strat (x - y)).
Qed.

Lemma array_scans_partition_witness : exists so' l,
  _abt_preprocess_array_keys demo_options demo_type demo_family demo_elem_proc demo_arrays demo_qsort demo_array_quals no_arrays = Val so' /\
  scan_all (mark_keys demo_options) demo_array_quals 10 Forward so' = Some (Val l) /\
  forall n m ks ks', l !! n = Some ks -> l !! m = Some ks' -> all_sat [Some 5; Some 2] ks = true -> all_sat [Some 5; Some 2] ks' = true -> n = m.
Proof.
  destruct (array_scans_partition demo_options demo_type demo_family demo_elem_proc demo_arrays demo_qsort demo_cmp demo_array_quals no_arrays) as (so' & Hrun & H).
  - do 3 (apply Forall_cons; split; [intros _ _; apply demo_array_key_ok; lia|]). constructor.
  - destruct (H (mark_keys demo_options) Forward 10%nat) as (l & Hl & Hs).
    + apply mark_keys_same.
    + vm_compute in Hrun. injection Hrun as <-. vm_compute. lia.
    + exists so', l. split; [exact Hrun|]. split; [exact Hl|]. apply Hs.
Defined.

Lemma demo_array_scan_ready : arrayKeyData demo_array_scan = Some (data_of demo_array_scan) /\
  Forall (array_ok (length (data_of demo_array_scan))) (arrayKeys demo_array_scan) /\ NoDup (scan_key <$> arrayKeys demo_array_scan).
Proof.
  assert (E : exists a b, arrayKeys demo_array_scan = [a; b] /\ scan_key a = 0%nat /\ scan_key b = 2%nat /\ array_ok 3 a /\ array_ok 3 b).
  { eexists _, _. split; [vm_compute; reflexivity|]. split; [done|]. split; [done|]. by split; split; simpl; try lia. }
  split; [vm_compute; reflexivity|]. destruct E as (a & b & -> & Ha & Hb & Hoa & Hob). assert (length (data_of demo_array_scan) = 3%nat) as -> by (vm_compute; reflexivity).
  split; [apply Forall_cons; split; [done|apply Forall_cons; split; [done|constructor]]|]. rewrite !fmap_cons, Ha, Hb. simpl.
  apply NoDup_cons. split; [by rewrite list_elem_of_singleton|apply NoDup_singleton].
Qed.

Lemma array_scans_in_order_witness : exists so' l,
  _abt_preprocess_array_keys demo_options demo_type demo_family demo_elem_proc demo_arrays demo_qsort demo_array_quals no_arrays = Val so' /\
  scan_all (mark_keys demo_options) demo_array_quals 10 Forward so' = Some (Val l) /\ length l = 4%nat /\ StronglySorted (scan_before demo_options demo_type demo_cmp demo_array_quals) l.
Proof.
  destruct (array_scans_in_order demo_options demo_type demo_family demo_elem_proc demo_arrays demo_qsort demo_cmp demo_array_quals no_arrays) as (so' & Hrun & H).
  - do 3 (apply Forall_cons; split; [intros _ _; apply demo_array_key_ok; lia|]). constructor.
  - destruct (H (mark_keys demo_options) Forward 10%nat) as (l & Hl & Hl2 & Hs).
    + apply mark_keys_same.
    + vm_compute in Hrun. injection Hrun as <-. vm_compute. lia.
    + exists so', l. split; [exact Hrun|]. split; [exact Hl|]. split; [|exact Hs]. clear Hl Hs H. vm_compute in Hrun. injection Hrun as <-.
      apply Forall2_length in Hl2. rewrite length_fmap in Hl2. rewrite <- Hl2. vm_compute. reflexivity.
Defined.

Definition demo_started : array_scan := match _abt_start_array_keys Forward demo_array_scan with Val so => so | Raise _ => no_arrays end.

Lemma array_mark_restore_witness : exists so1 so2, advance_all [Forward; Backward; Forward] (_abt_mark_array_keys demo_started) = Val so1 /\
  _abt_restore_array_keys demo_options demo_type demo_family so1 = Val so2 /\ cur_elem <$> arrayKeys so2 = [0; 0].
Proof.
  destruct demo_array_scan_ready as (Hd & Hok & Hnd).
  destruct (_abt_preprocess_keys demo_options demo_type demo_family (assign (data_of demo_array_scan) (arrayKeys demo_array_scan) [0; 0])) as [[ok out]|] eqn:Epre;
    [|vm_compute in Epre; discriminate Epre].
  destruct (array_mark_restore demo_options demo_type demo_family [Forward; Backward; Forward] demo_started (arrayKeys demo_array_scan) (data_of demo_array_scan) [0; 0] ok out Hok Hnd)
    as (so1 & so2 & H1 & H2 & _ & H4 & _); [split; vm_compute; try reflexivity|exact Epre|].
  - repeat constructor; discriminate.
  - by exists so1, so2.
Defined.

End ArrayKeys.
