(* ===== verification/Start.v ===== *)
(** * Insertion keys of a scan (abtsearch.c)

    [_abt_build_start_inskey] turns the preprocessed search keys of a scan into the
    insertion key that marks where the matching tuples start (forward) or end (backward).
    For sampling it is called once per direction: the two keys delimit the range of the
    draw.

    The order functions of the operator family are parameters: [procinfo] is the cached
    support function of a column (index_getprocinfo), [opfamily_proc] looks up the one that
    compares a column with another type (get_opfamily_proc). *)

From stdpp Require Import base numbers option sorting list.
From S2P Require Import Prelude Dedup Page Search Quals.

Module Start.
Import Dedup Page Search Quals.

Section Build.
Context (rel : index_rel) (opcintype : Z -> Z) (procinfo : Z -> Z -> Z -> Z)
  (opfamily_proc : Z -> Z -> option (Z -> Z -> Z)) (dir : ScanDirection).

(** ** Choosing a boundary key for every column *)

(** An IS NOT NULL key for the column of [nn]. *)
Definition notnull_key (nn : skey) (curattr : Z) : ScanKey :=
  mk_ScanKey
    (mk_skey (Z.lor (Z.lor SK_SEARCHNOTNULL SK_ISNULL) (Z.land (sk_flags nn) (Z.lor SK_ABT_DESC SK_ABT_NULLS_FIRST)))
       curattr (if flag nn SK_ABT_NULLS_FIRST then BTGreaterStrategyNumber else BTLessStrategyNumber)
       InvalidOid (fun _ _ => 0) 0) [].

(** Can [cur] be the boundary key of its column, or does it rule out NULLs? *)
Definition consider (cur : ScanKey) (chosen impliesNN : option ScanKey) : option ScanKey * option ScanKey :=
  let strat := sk_strategy (sk_head cur) in
  if (strat =? BTLessStrategyNumber) || (strat =? BTLessEqualStrategyNumber) then
    match chosen with
    | None => if ScanDirectionIsBackward dir then (Some cur, impliesNN) else (None, Some cur)
    | Some _ => (chosen, impliesNN)
    end
  else if strat =? BTEqualStrategyNumber then (Some cur, impliesNN)
  else if (strat =? BTGreaterEqualStrategyNumber) || (strat =? BTGreaterStrategyNumber) then
    match chosen with
    | None => if ScanDirectionIsForward dir then (Some cur, impliesNN) else (None, Some cur)
    | Some _ => (chosen, impliesNN)
    end
  else (chosen, impliesNN).

Definition boundary (curattr : Z) (chosen impliesNN : option ScanKey) : option ScanKey :=
  match chosen, impliesNN with
  | None, Some nn =>
      if (if flag (sk_head nn) SK_ABT_NULLS_FIRST then ScanDirectionIsForward dir else ScanDirectionIsBackward dir)
      then Some (notnull_key (sk_head nn) curattr) else None
  | _, _ => chosen
  end.

(** A row comparison with NULL in its first column. *)
Definition row_has_null (sk : ScanKey) : res bool :=
  if flag (sk_head sk) SK_ROW_HEADER then let? m := the (head (sk_row sk)) in Val (flag m SK_ISNULL) else Val false.

(** The end of the keys of a column; [next] goes on with the following one.  [None]: the
    quals cannot be satisfied. *)
Definition finish_column (curattr : Z) (chosen impliesNN : option ScanKey) (startKeys : list ScanKey) (strat_total : Z)
    (next : list ScanKey -> Z -> res (option (list ScanKey * Z))) : res (option (list ScanKey * Z)) :=
  match boundary curattr chosen impliesNN with
  | None => Val (Some (startKeys, strat_total))
  | Some sk =>
      let startKeys := startKeys ++ [sk] in
      let? null := row_has_null sk in
      if null then Val None
      else
        let strat := sk_strategy (sk_head sk) in
        let strat_total := if negb (strat =? BTEqualStrategyNumber) then strat else strat_total in
        if (strat =? BTGreaterStrategyNumber) || (strat =? BTLessStrategyNumber) then Val (Some (startKeys, strat_total))
        else next startKeys strat_total
  end.

Fixpoint choose (keys : list ScanKey) (curattr : Z) (chosen impliesNN : option ScanKey) (startKeys : list ScanKey)
    (strat_total : Z) : res (option (list ScanKey * Z)) :=
  match keys with
  | [] => finish_column curattr chosen impliesNN startKeys strat_total (fun start st => Val (Some (start, st)))
  | cur :: keys =>
      let attno := sk_attno (sk_head cur) in
      if attno =? curattr then
        let (chosen, impliesNN) := consider cur chosen impliesNN in
        choose keys curattr chosen impliesNN startKeys strat_total
      else
        finish_column curattr chosen impliesNN startKeys strat_total (fun start st =>
          if negb (attno =? curattr + 1) then Val (Some (start, st))
          else let (chosen, impliesNN) := consider cur None None in choose keys attno chosen impliesNN start st)
  end.

(** ** Converting the keys *)

(** The further members of a row comparison that can be used, the key having
    [inskey_size] columns so far. *)
Fixpoint row_extra (strat inskey_size : Z) (row : list skey) : res (list skey) :=
  match row with
  | [] => Raise OutOfBounds
  | subkey :: row =>
      if negb (sk_attno subkey =? inskey_size + 1) then Val []
      else if negb (sk_strategy subkey =? strat) then Val []
      else if flag subkey SK_ISNULL then Val []
      else if flag subkey SK_ROW_END then Val [subkey]
      else let? extra := row_extra strat (inskey_size + 1) row in Val (subkey :: extra)
  end.

Definition insertion_entry (k : skey) (func : Z -> Z -> Z) : ScanKeyData :=
  mk_sk (flag k SK_ISNULL) (flag k SK_ABT_NULLS_FIRST) (flag k SK_ABT_DESC) (sk_attno k) func (sk_argument k).

Definition member_entry (m : skey) : ScanKeyData := insertion_entry m (sk_func m).

(** An ordinary comparison key gets the order function instead of its operator. *)
Definition convert_simple (k : skey) : res ScanKeyData :=
  if (sk_subtype k =? opcintype (sk_attno k)) || (sk_subtype k =? InvalidOid)
  then Val (insertion_entry k (procinfo (sk_attno k)))
  else match opfamily_proc (sk_attno k) (sk_subtype k) with
       | Some cmp_proc => Val (insertion_entry k cmp_proc)
       | None => Raise Elog
       end.

Definition convert (sk : ScanKey) : res ScanKeyData :=
  if flag (sk_head sk) SK_ROW_HEADER then let? m := the (head (sk_row sk)) in Val (member_entry m)
  else convert_simple (sk_head sk).

Fixpoint convert_all (startKeys : list ScanKey) : res (list ScanKeyData) :=
  match startKeys with
  | [] => Val []
  | sk :: l => let? e := convert sk in let? es := convert_all l in Val (e :: es)
  end.

(** What a row comparison in last place adds, and the strategy it leaves. *)
Definition last_row (startKeys : list ScanKey) (strat_total : Z) : res (list skey * Z) :=
  let? sk := the (last startKeys) in
  if flag (sk_head sk) SK_ROW_HEADER then
    match sk_row sk with
    | [] => Raise OutOfBounds
    | m :: row =>
        let? extra := row_extra (sk_strategy (sk_head sk)) (Z.of_nat (length startKeys)) row in
        let subkey := default m (last extra) in
        Val (extra,
          if flag subkey SK_ROW_END then strat_total
          else if strat_total =? BTLessStrategyNumber then BTLessEqualStrategyNumber
          else if strat_total =? BTGreaterStrategyNumber then BTGreaterEqualStrategyNumber
          else strat_total)
    end
  else Val ([], strat_total).

(** nextkey and goback *)
Definition positioning (strat_total : Z) : res (bool * bool) :=
  if strat_total =? BTLessStrategyNumber then Val (false, true)
  else if strat_total =? BTLessEqualStrategyNumber then Val (true, true)
  else if strat_total =? BTEqualStrategyNumber then
    Val (if ScanDirectionIsBackward dir then (true, true) else (false, false))
  else if strat_total =? BTGreaterEqualStrategyNumber then Val (false, false)
  else if strat_total =? BTGreaterStrategyNumber then Val (true, false)
  else Raise Elog.

(** so->qual_ok afterwards; so->inskey, if one was made, and so->goback. *)
Definition _abt_build_start_inskey (qual_ok : bool) (keyData : list ScanKey) : res (bool * option (ABTScanInsertData * bool)) :=
  if negb qual_ok then Val (qual_ok, None)
  else
    let? r := choose keyData 1 None None [] BTEqualStrategyNumber in
    match r with
    | None => Val (false, None)
    | Some ([], _) => Val (qual_ok, None)
    | Some (startKeys, strat_total) =>
        let? (extra, strat_total) := last_row startKeys strat_total in
        let? entries := convert_all startKeys in
        let? (nextkey, goback) := positioning strat_total in
        let scankeys := entries ++ (member_entry <$> extra) in
        Val (qual_ok,
          Some (mk_key true (rd_allequalimage rel) false nextkey false None (Z.of_nat (length scankeys)) scankeys, goback))
    end.

End Build.

(** ** Comparing tuples with the key *)

(** The first result that is not 0. *)
Fixpoint firstnz (cs : list Z) : Z :=
  match cs with [] => 0 | c :: cs => if c =? 0 then firstnz cs else c end.

Lemma firstnz_app l k : firstnz (l ++ k) = if firstnz l =? 0 then firstnz k else firstnz l.
Proof. induction l as [|c l IH]; simpl; [done|]. if_case; [done|]. by rewrite (proj2 (Z.eqb_neq _ _)). Qed.

(** The comparison of the entry [e] with its column of [t]. *)
Definition entry_compare (t : list (option Z)) (e : ScanKeyData) : Z := compare_attr e (attr t (Page.sk_attno e)).

Lemma compare_attrs_firstnz t es n : Forall (fun e => 1 <= Page.sk_attno e <= n) es -> n <= Z.of_nat (length (tuple_key t)) ->
  compare_attrs es (length es) t = Some (firstnz (entry_compare (tuple_key t) <$> es)).
Proof.
  intros Hes Hn. induction Hes as [|e es He _ IH]; simpl; [done|].
  rewrite (getattr_attr _ _ n) by done. cbn [mbind option_bind]. unfold entry_compare at 1. by if_case.
Qed.

(** The key of a scan against a leaf tuple: equal columns are a tie. *)
Lemma compare_start rel aei nk t es tids : it_tids t = tids -> tids <> [] -> rd_natts rel = Z.of_nat (length (it_key t)) ->
  (length es <= length (it_key t))%nat -> Forall (fun e => 1 <= Page.sk_attno e <= Z.of_nat (length (it_key t))) es ->
  compare_tuple (rd_natts rel) (mk_key true aei false nk false None (Z.of_nat (length es)) es) (LeafTup t) =
  Some (firstnz (entry_compare (it_key t) <$> es)).
Proof.
  intros <- Htids Hn Hlen Hes. unfold compare_tuple. cbn [ABTreeTupleGetNAtts scankeys keysz]. rewrite Hn, Z.min_r, Nat2Z.id by lia.
  rewrite (compare_attrs_firstnz (LeafTup t) es _ Hes) by (simpl; lia). cbn [mbind option_bind tuple_key].
  if_case; [|done]. unfold compare_tid. cbn [keysz scantid ABTreeTupleGetHeapTID]. rewrite (proj2 (Z.ltb_ge _ _)) by lia.
  rewrite Heqb. by destruct (it_tids t).
Qed.

(** ** Boundaries *)

(** On the side of the range where the scan starts: equal, or bounded there. *)
Definition start_side (dir : ScanDirection) (strat : Z) : Prop :=
  strat = 3 \/ match dir with Forward => 4 <= strat <= 5 | Backward => 1 <= strat <= 2 end.
Definition is_strict (strat : Z) : bool := (strat =? BTGreaterStrategyNumber) || (strat =? BTLessStrategyNumber).

(** A matching tuple is not before the boundary in scan order: not equal to it either if
    it is strict. *)
Definition beyond (dir : ScanDirection) (strict : bool) (c : Z) : Prop :=
  sign dir * c <= 0 /\ (strict = true -> sign dir * c < 0).

Lemma beyond_firstnz dir b cs : Forall (beyond dir false) cs -> (b = true -> exists c, last cs = Some c /\ beyond dir true c) ->
  beyond dir b (firstnz cs).
Proof.
  unfold beyond. intros Hcs. induction Hcs as [|c cs Hc _ IH]; intros Hb; simpl.
  { split; [lia|]. intros E. destruct (Hb E) as (? & ? & ?). done. }
  destruct (Z.eqb_spec c 0) as [->|Hne].
  - apply IH. intros E. destruct (Hb E) as (c & Hl & Hc'). destruct cs as [|c' cs]; [|by exists c].
    simpl in Hl. injection Hl as <-. destruct Hc' as [_ Hc']. specialize (Hc' eq_refl). lia.
  - destruct Hc as [Hc _]. split; [done|]. intros _. destruct dir; cbn [sign] in *; lia.
Qed.

Lemma holds_beyond dir strat r c : start_side dir strat -> holds strat r = true -> Z.sgn c = Z.sgn (- r) ->
  beyond dir (is_strict strat) c.
Proof.
  unfold start_side, beyond, is_strict, holds, BTLessStrategyNumber, BTLessEqualStrategyNumber, BTEqualStrategyNumber,
    BTGreaterEqualStrategyNumber, BTGreaterStrategyNumber.
  intros [->|Hs] Hh Hc; [cbn in Hh; zbool; destruct dir; cbn [sign]; split; intros; try done; lia|].
  destruct dir; [assert (strat = 1 \/ strat = 2) as [-> | ->] by lia|assert (strat = 4 \/ strat = 5) as [-> | ->] by lia];
    cbn in Hh; zbool; cbn [sign]; split; intros; try done; lia.
Qed.

(** What the order functions of an operator family promise. *)
Class OrderProcs (opcintype : Z -> Z) (procinfo : Z -> Z -> Z -> Z) (opfamily_proc : Z -> Z -> option (Z -> Z -> Z))
    (cmp : Z -> Z * Z -> Z * Z -> Z) : Prop := {
  op_default a x y : Z.sgn (procinfo a x y) = Z.sgn (cmp a (opcintype a, x) (opcintype a, y));
  op_cross a ty f x y : opfamily_proc a ty = Some f -> Z.sgn (f x y) = Z.sgn (cmp a (opcintype a, x) (ty, y))
}.

Section Bounds.
Context (rel : index_rel) (indoption : list Z) (opcintype : Z -> Z) (opfamily : Z -> Z -> Z -> Z -> option (Z -> Z -> Z)).
Context (cmp : Z -> Z * Z -> Z * Z -> Z) `{!OpFamily opfamily cmp}.
Context (procinfo : Z -> Z -> Z -> Z) (opfamily_proc : Z -> Z -> option (Z -> Z -> Z)) `{!OrderProcs opcintype procinfo opfamily_proc cmp}.
Context (dir : ScanDirection).

Abbreviation nkeys := (Z.of_nat (length indoption)).
Abbreviation icmp := (Quals.icmp indoption cmp).
Abbreviation nulls_first := (Quals.nulls_first indoption).
Abbreviation fixed_key := (Quals.fixed_key indoption opcintype cmp).
Abbreviation fixed_simple := (Quals.fixed_simple indoption opcintype cmp).
Abbreviation fixed_member := (Quals.fixed_member indoption opcintype cmp).
Abbreviation convert_simple := (convert_simple opcintype procinfo opfamily_proc).
Abbreviation convert := (convert opcintype procinfo opfamily_proc).
Abbreviation value t a := (Quals.value opcintype t a).

(** The support function for the type of the key's argument exists. *)
Definition supported (sk : ScanKey) : Prop :=
  flag (sk_head sk) SK_ROW_HEADER = false -> is_Some (opfamily_proc (sk_attno (sk_head sk)) (sk_subtype (sk_head sk))) \/
    sk_subtype (sk_head sk) = opcintype (sk_attno (sk_head sk)) \/ sk_subtype (sk_head sk) = InvalidOid.

(** *** Entries *)

(** An entry of the insertion key stands for the argument of its key. *)
Definition entry_for (a : Z) (x : option (Z * Z)) (e : ScanKeyData) : Prop :=
  Page.sk_attno e = a /\ forall v, Z.sgn (compare_attr e v) = Z.sgn (icmp a x (pair (opcintype a) <$> v)).

Lemma insertion_entry_for a k f : sk_attno k = a -> flag k SK_ABT_DESC = desc indoption a ->
  flag k SK_ABT_NULLS_FIRST = nulls_first a ->
  (flag k SK_ISNULL = false -> forall x, Z.sgn (f x (sk_argument k)) =
    Z.sgn (cmp a (opcintype a, x) (arg_type opcintype k a, sk_argument k))) ->
  entry_for a (key_arg opcintype k) (insertion_entry k f).
Proof.
  intros Ha Hd Hn Hf. split; [done|]. intros v. unfold compare_attr, insertion_entry, key_arg. cbn [sk_isnull sk_nulls_first sk_desc Page.sk_func Page.sk_argument].
  rewrite Hd, Hn, Ha. destruct (flag k SK_ISNULL) eqn:En; destruct v as [d|]; simpl; try done; try (by destruct (nulls_first a)).
  specialize (Hf eq_refl d). destruct (desc indoption a); [done|]. rewrite invert_sgn.
  pose proof (of_sym a (opcintype a, d) (arg_type opcintype k a, sk_argument k)).
  pose proof (of_sym a (arg_type opcintype k a, sk_argument k) (opcintype a, d)). lia.
Qed.

Lemma convert_simple_run a k : fixed_simple a k -> supported (mk_ScanKey k []) -> flag k SK_ROW_HEADER = false ->
  exists e, convert_simple k = Val e /\ entry_for a (key_arg opcintype k) e.
Proof.
  intros Hk Hs Hr. pose proof (fs_attno _ _ _ _ _ Hk) as Ha. unfold Start.convert_simple.
  destruct ((sk_subtype k =? opcintype (sk_attno k)) || (sk_subtype k =? InvalidOid)) eqn:Et.
  - eexists. split; [done|]. apply insertion_entry_for; [done|apply Hk|apply Hk|]. intros _ x. rewrite op_default. unfold arg_type.
    rewrite Ha in *. apply orb_true_iff in Et as [Et|Et]; [|by rewrite Et]. zbool. rewrite Et. by if_case.
  - apply orb_false_iff in Et as [E1 E2]. destruct (Hs Hr) as [[f Hf]|[?|?]]; zbool; simpl in *; [|congruence..].
    rewrite Hf. eexists. split; [done|]. apply insertion_entry_for; [done|apply Hk|apply Hk|]. intros _ x.
    rewrite Ha in Hf. rewrite (op_cross _ _ _ _ _ Hf). unfold arg_type. by rewrite (proj2 (Z.eqb_neq _ _)).
Qed.

Lemma member_entry_for m : fixed_member m -> entry_for (sk_attno m) (key_arg opcintype m) (member_entry m).
Proof. intros [_ _ Hd Hn Ho]. apply insertion_entry_for; try done. Qed.

(** A value that satisfies a simple key is beyond its entry. *)
Lemma simple_beyond a k e t : fixed_simple a k -> entry_for a (key_arg opcintype k) e -> start_side dir (sk_strategy k) ->
  sat_key k (attr t a) = true -> beyond dir (is_strict (sk_strategy k)) (entry_compare t e).
Proof.
  intros Hk [He Hc] Hs Hsat. unfold entry_compare. rewrite He. rewrite (sat_key_holds indoption opcintype cmp a k _ Hk) in Hsat. zbool.
  eapply holds_beyond; [done|exact H0|]. rewrite Hc.
  pose proof (icmp_sym indoption opfamily cmp a (key_arg opcintype k) (pair (opcintype a) <$> attr t a)).
  pose proof (icmp_sym indoption opfamily cmp a (pair (opcintype a) <$> attr t a) (key_arg opcintype k)). lia.
Qed.

(** *** Row comparisons *)

(** One member of a row: either it decides, or its column is equal and the rest of the
    row decides. *)
Lemma member_step strat m row t : fixed_member m -> sk_strategy m = strat -> start_side dir strat ->
  row_sat (m :: row) t = true ->
  let c := entry_compare t (member_entry m) in
  sign dir * c <= 0 /\ (c = 0 -> if flag m SK_ROW_END then is_strict strat = false else row_sat row t = true).
Proof.
  intros Hm Hst Hs Hsat. simpl in Hsat. destruct (attr t (sk_attno m)) as [d|] eqn:Ed; [|done].
  destruct (flag m SK_ISNULL) eqn:En; [done|]. cbv zeta. unfold entry_compare, member_entry, compare_attr, insertion_entry.
  cbn [sk_isnull sk_nulls_first sk_desc Page.sk_func Page.sk_argument Page.sk_attno]. rewrite Ed, En.
  set (r := sk_func m d (sk_argument m)) in *. rewrite Hst in Hsat.
  assert (Hz : (if flag m SK_ABT_DESC then r else INVERT_COMPARE_RESULT r) = 0 <-> r = 0).
  { pose proof (invert_sgn r). destruct (flag m SK_ABT_DESC); lia. }
  destruct (negb (r =? 0) || flag m SK_ROW_END) eqn:Edec.
  - destruct (holds_beyond dir strat _ (if flag m SK_ABT_DESC then r else INVERT_COMPARE_RESULT r) Hs Hsat) as [Hb Hbs].
    { pose proof (invert_sgn r). destruct (flag m SK_ABT_DESC); lia. }
    split; [done|]. intros Hc0. rewrite Hc0 in Hbs. apply Hz in Hc0. rewrite Hc0 in Edec. simpl in Edec. rewrite Edec.
    destruct (is_strict strat); [|done]. specialize (Hbs eq_refl). lia.
  - apply orb_false_iff in Edec as [Er Eend]. zbool. rewrite (proj2 Hz Er), Eend. split; [lia|done].
Qed.

Lemma row_extra_run strat size row : row_fixed indoption opcintype cmp row ->
  exists extra, row_extra strat size row = Val extra /\
    (forall i m, extra !! i = Some m -> fixed_member m /\ sk_attno m = size + 1 + Z.of_nat i /\ m ∈ row) /\
    (forall t, start_side dir strat -> row_sat row t = true ->
      let c := firstnz (entry_compare t <$> (member_entry <$> extra)) in
      sign dir * c <= 0 /\ (c = 0 -> is_strict strat = true -> forall m, last extra = Some m -> flag m SK_ROW_END = false)).
Proof.
  revert size. induction row as [|m row IH]; [done|]. intros size [Hm Hr]. cbn [row_extra].
  assert (Hstop : exists extra : list skey, Val [] = Val extra /\
    (forall i m', extra !! i = Some m' -> fixed_member m' /\ sk_attno m' = size + 1 + Z.of_nat i /\ m' ∈ m :: row) /\
    (forall t, start_side dir strat -> row_sat (m :: row) t = true ->
      let c := firstnz (entry_compare t <$> (member_entry <$> extra)) in
      sign dir * c <= 0 /\ (c = 0 -> is_strict strat = true -> forall m, last extra = Some m -> flag m SK_ROW_END = false))).
  { exists []. split; [done|]. split; [done|]. intros t _ _. simpl. split; [lia|done]. }
  destruct (Z.eqb_spec (sk_attno m) (size + 1)) as [Ha|]; [|exact Hstop].
  destruct (Z.eqb_spec (sk_strategy m) strat) as [Hst|]; [|exact Hstop]. cbn [negb].
  destruct (flag m SK_ISNULL); [exact Hstop|]. clear Hstop. destruct (flag m SK_ROW_END) eqn:Eend.
  - exists [m]. split; [done|]. split.
    { intros [|i] m'; simpl; intros [= <-]. split; [done|]. split; [lia|]. apply elem_of_cons. by left. }
    intros t Hs Hsat. destruct (member_step _ m row t Hm Hst Hs Hsat) as [Hle Hz]. rewrite Eend in Hz. simpl.
    if_case; [|split; [done|congruence]]. rewrite (Hz Heqb). split; [lia|done].
  - destruct Hr as [|Hr]; [done|]. destruct (IH (size + 1) Hr) as (extra & -> & Hat & Hb). exists (m :: extra). split; [done|]. split.
    { intros [|i] m'; simpl; rewrite elem_of_cons; [intros [= <-]; split_and!; [done|lia|by left]|].
      intros Hi. destruct (Hat i m' Hi) as (? & ? & ?). split_and!; [done|lia|by right]. }
    intros t Hs Hsat. destruct (member_step _ m row t Hm Hst Hs Hsat) as [Hle Hz]. rewrite Eend in Hz. simpl.
    if_case; [|split; [done|congruence]]. destruct (Hb t Hs (Hz Heqb)) as [Hle' Hend]. split; [done|].
    intros H0 Hstr m' Hl. destruct extra as [|m2 extra]; [by injection Hl as <-|]. by apply (Hend H0 Hstr m').
Qed.

(** *** Choosing *)

(** [Sup] is what is known of the keys beyond that: at least that they are supported. *)
Section Choose.
Context (out : list ScanKey) (Sup : ScanKey -> Prop).
Hypothesis Hsup : forall sk, Sup sk -> supported sk.
Hypothesis Hnotnull : forall k a, Sup (notnull_key k a).
Hypothesis Hfixed : forall sk, sk ∈ out -> fixed_key (sk_attno (sk_head sk)) sk /\ Sup sk.

(** A key of column [a] the start can be taken from: every matching tuple satisfies it. *)
Record bound_key (a : Z) (sk : ScanKey) : Prop := {
  bk_fixed : fixed_key a sk;
  bk_sat t : all_sat t out = true -> sat t sk = true;
  bk_side : start_side dir (sk_strategy (sk_head sk));
  bk_known : Sup sk
}.

(** A key that rules out NULLs in column [a]. *)
Definition nn_key (a : Z) (sk : ScanKey) : Prop := sk ∈ out /\ fixed_key a sk /\ sk_strategy (sk_head sk) <> 3.

Lemma sat_out sk t : sk ∈ out -> all_sat t out = true -> sat t sk = true.
Proof. intros Hin Hall. unfold all_sat in Hall. rewrite forallb_forall in Hall. apply Hall. by apply list_elem_of_In. Qed.

Lemma fixed_strategy a sk : fixed_key a sk -> 1 <= sk_strategy (sk_head sk) <= 5.
Proof.
  intros Hf. pose proof (fixed_row_strategy indoption opcintype cmp a sk Hf) as Hr. destruct Hf as (_ & _ & Hf).
  destruct (flag (sk_head sk) SK_ROW_HEADER); [destruct (Hr eq_refl) as [?|[?|[?|?]]]; lia|apply Hf].
Qed.

Lemma consider_run a cur chosen nn : cur ∈ out -> sk_attno (sk_head cur) = a ->
  (forall sk, chosen = Some sk -> bound_key a sk) -> (forall sk, nn = Some sk -> nn_key a sk) ->
  exists chosen' nn', consider dir cur chosen nn = (chosen', nn') /\
    (forall sk, chosen' = Some sk -> bound_key a sk) /\ (forall sk, nn' = Some sk -> nn_key a sk).
Proof.
  intros Hin Ha Hc Hn. destruct (Hfixed cur Hin) as [Hf Hs']. rewrite Ha in Hf. pose proof (fixed_strategy a cur Hf) as Hs.
  assert (Hb : start_side dir (sk_strategy (sk_head cur)) -> bound_key a cur).
  { intros Hside. split; try done. intros t. by apply sat_out. }
  unfold consider, BTLessStrategyNumber, BTLessEqualStrategyNumber, BTEqualStrategyNumber, BTGreaterEqualStrategyNumber,
    BTGreaterStrategyNumber, ScanDirectionIsBackward.
  assert (Hnn : sk_strategy (sk_head cur) <> 3 -> nn_key a cur) by done.
  assert (sk_strategy (sk_head cur) = 1 \/ sk_strategy (sk_head cur) = 2 \/ sk_strategy (sk_head cur) = 3 \/
    sk_strategy (sk_head cur) = 4 \/ sk_strategy (sk_head cur) = 5) as [E|[E|[E|[E|E]]]] by lia;
    rewrite E in Hb, Hnn |- *; cbn [Z.eqb Pos.eqb orb];
    (destruct chosen as [c|]; [|destruct dir]); cbn [ScanDirectionIsForward negb]; eexists _, _; (split; [reflexivity|]);
    (split; intros sk Hsk); try (by auto); injection Hsk as <-; first [apply Hb; unfold start_side; lia|apply Hnn; lia].
Qed.

Lemma nn_value a nn t : nn_key a nn -> all_sat t out = true -> attr t a <> None.
Proof.
  intros (Hin & (Ha & _ & Hf) & Hne) Hall. pose proof (sat_out nn t Hin Hall) as Hsat. unfold sat in Hsat.
  destruct (flag (sk_head nn) SK_ROW_HEADER).
  - destruct Hf as (_ & Hh & _). unfold row_header_ok in Hh. destruct (sk_row nn) as [|m row]; [done|].
    destruct Hh as (Hm & _). simpl in Hsat. rewrite Hm, Ha in Hsat. by destruct (attr t a).
  - rewrite Ha, (sat_key_holds indoption opcintype cmp a _ _ Hf) in Hsat. zbool. rewrite (proj2 (Z.eqb_neq _ _) Hne) in H.
    simpl in H. by apply bool_decide_eq_true in H.
Qed.

Lemma notnull_flags nn a m : flag (sk_head (notnull_key nn a)) m =
  negb (Z.land (Z.lor SK_SEARCHNOTNULL SK_ISNULL) m =? 0) || negb (Z.land (sk_flags nn) (Z.land (Z.lor SK_ABT_DESC SK_ABT_NULLS_FIRST) m) =? 0).
Proof.
  unfold flag, notnull_key. cbn [sk_head sk_flags]. rewrite Z.land_lor_distr_l, <- Z.land_assoc.
  set (x := Z.land (Z.lor SK_SEARCHNOTNULL SK_ISNULL) m). set (y := Z.land (sk_flags nn) _).
  destruct (Z.eqb_spec x 0) as [->|Hx]; [by rewrite Z.lor_0_l|]. apply negb_true_iff, Z.eqb_neq.
  intros H%Z.lor_eq_0_iff. tauto.
Qed.

Lemma fixed_nulls_first a sk : fixed_key a sk -> flag (sk_head sk) SK_ABT_NULLS_FIRST = nulls_first a.
Proof. intros (_ & _ & Hf). destruct (flag (sk_head sk) SK_ROW_HEADER); apply Hf. Qed.

Lemma fixed_desc a sk : fixed_key a sk -> flag (sk_head sk) SK_ABT_DESC = desc indoption a.
Proof. intros (_ & _ & Hf). destruct (flag (sk_head sk) SK_ROW_HEADER); apply Hf. Qed.

Lemma notnull_bound a nn : nn_key a nn ->
  (if flag (sk_head nn) SK_ABT_NULLS_FIRST then ScanDirectionIsForward dir else ScanDirectionIsBackward dir) = true ->
  bound_key a (notnull_key (sk_head nn) a).
Proof.
  intros Hnn Hdir. pose proof Hnn as (_ & Hf & _). pose proof (fixed_nulls_first a nn Hf) as Hnf. rewrite Hnf in Hdir.
  assert (Hfl : forall m, Z.land (Z.lor SK_ABT_DESC SK_ABT_NULLS_FIRST) m = 0 ->
    flag (sk_head (notnull_key (sk_head nn) a)) m = negb (Z.land (Z.lor SK_SEARCHNOTNULL SK_ISNULL) m =? 0)).
  { intros m Hm. rewrite notnull_flags, Hm, Z.land_0_r. apply orb_false_r. }
  assert (Hst : sk_strategy (sk_head (notnull_key (sk_head nn) a)) = if nulls_first a then 5 else 1) by (cbn; by rewrite Hnf).
  split.
  - split; [done|]. split; [apply Hf|]. rewrite Hfl by done. change (if negb (_ =? 0) then ?x else ?y) with y. split; try done.
    + rewrite Hst. case_match; lia.
    + rewrite notnull_flags. exact (fixed_desc a nn Hf).
    + rewrite notnull_flags. exact Hnf.
    + rewrite !Hfl by done. done.
    + intros _. rewrite !Hfl by done. split; [done|]. exact Hst.
    + rewrite Hfl by done. done.
  - intros t Hall. unfold sat, sat_key. rewrite !Hfl by done. cbn. apply bool_decide_eq_true. by eapply nn_value.
  - rewrite Hst. unfold start_side. destruct (nulls_first a), dir; simpl in Hdir; try done; lia.
  - apply Hnotnull.
Qed.

(** The keys chosen so far: one per column from the first on, a strict one at most in
    last place; [st] is strict exactly then. *)
Record start_ok (start : list ScanKey) (st : Z) : Prop := {
  so_keys i sk : start !! i = Some sk -> bound_key (Z.of_nat i + 1) sk /\ row_has_null sk = Val false;
  so_weak i sk : start !! i = Some sk -> (S i < length start)%nat -> is_strict (sk_strategy (sk_head sk)) = false;
  so_strict : is_strict st = match last start with Some sk => is_strict (sk_strategy (sk_head sk)) | None => false end;
  so_side : start_side dir st
}.

(** What a choice ends with. *)
Definition chose (r : res (option (list ScanKey * Z))) : Prop :=
  exists o, r = Val o /\
    match o with
    | None => forall t, all_sat t out = false
    | Some (start, st) => start_ok start st
    end.

Lemma start_snoc start st sk : start_ok start st -> is_strict st = false ->
  bound_key (Z.of_nat (length start) + 1) sk -> row_has_null sk = Val false ->
  start_ok (start ++ [sk]) (if negb (sk_strategy (sk_head sk) =? 3) then sk_strategy (sk_head sk) else st).
Proof.
  intros [Hk Hw Hs Hside] Hst Hb Hn. split.
  - intros i x Hi. apply lookup_app_Some in Hi as [Hi|[Hle Hi]]; [by apply Hk|].
    apply list_lookup_singleton_Some in Hi as [Hz <-]. by replace (Z.of_nat i) with (Z.of_nat (length start)) by lia.
  - intros i x Hi Hl. rewrite length_app in Hl. simpl in Hl. rewrite lookup_app_l in Hi by lia.
    destruct (decide (S i < length start)%nat); [by apply (Hw i)|].
    rewrite last_lookup in Hs. replace (pred (length start)) with i in Hs by lia. rewrite Hi in Hs. congruence.
  - rewrite last_snoc. destruct (Z.eqb_spec (sk_strategy (sk_head sk)) 3) as [->|]; simpl; [by rewrite Hst|done].
  - destruct (negb (sk_strategy (sk_head sk) =? 3)); [apply Hb|done].
Qed.

Lemma row_has_null_run a sk : fixed_key a sk ->
  exists b, row_has_null sk = Val b /\ (b = true -> forall t, sat t sk = false).
Proof.
  intros (_ & _ & Hf). unfold row_has_null, sat. destruct (flag (sk_head sk) SK_ROW_HEADER); [|by exists false].
  destruct Hf as (_ & _ & Hr). destruct (sk_row sk) as [|m row]; [done|]. simpl. eexists. split; [done|]. intros E t.
  rewrite E. by destruct (attr t (sk_attno m)).
Qed.

Lemma finish_column_run start st chosen nn next : start_ok start st -> is_strict st = false ->
  (forall sk, chosen = Some sk -> bound_key (Z.of_nat (length start) + 1) sk) ->
  (forall sk, nn = Some sk -> nn_key (Z.of_nat (length start) + 1) sk) ->
  (forall start' st', start_ok start' st' -> is_strict st' = false -> length start' = S (length start) -> chose (next start' st')) ->
  chose (finish_column dir (Z.of_nat (length start) + 1) chosen nn start st next).
Proof.
  intros Hok Hst Hc Hn Hnext. unfold finish_column.
  assert (Hb : forall sk, boundary dir (Z.of_nat (length start) + 1) chosen nn = Some sk -> bound_key (Z.of_nat (length start) + 1) sk).
  { intros sk. unfold boundary. destruct chosen as [c|]; [by apply Hc|]. destruct nn as [n|]; [|done].
    destruct (if flag (sk_head n) SK_ABT_NULLS_FIRST then _ else _) eqn:E; [|done]. intros [= <-]. by apply notnull_bound; [apply Hn|]. }
  destruct (boundary _ _ chosen nn) as [sk|]; [|by exists (Some (start, st))]. specialize (Hb sk eq_refl).
  destruct (row_has_null_run _ sk (bk_fixed _ _ Hb)) as (b & Hnull & Hunsat). rewrite Hnull. cbn [rbind].
  destruct b.
  { exists None. split; [done|]. intros t. destruct (all_sat t out) eqn:E; [|done]. apply (bk_sat _ _ Hb) in E. by rewrite Hunsat in E. }
  pose proof (start_snoc start st sk Hok Hst Hb Hnull) as Hok'.
  fold (is_strict (sk_strategy (sk_head sk))). destruct (is_strict (sk_strategy (sk_head sk))) eqn:Es; [by eexists|].
  apply Hnext; [done|by destruct (negb _)|rewrite length_app; simpl; lia].
Qed.

Lemma choose_run keys chosen nn start st : (forall sk, sk ∈ keys -> sk ∈ out) -> start_ok start st -> is_strict st = false ->
  (forall sk, chosen = Some sk -> bound_key (Z.of_nat (length start) + 1) sk) ->
  (forall sk, nn = Some sk -> nn_key (Z.of_nat (length start) + 1) sk) ->
  chose (choose dir keys (Z.of_nat (length start) + 1) chosen nn start st).
Proof.
  revert chosen nn start st. induction keys as [|cur keys IH]; intros chosen nn start st Hin Hok Hst Hc Hn; cbn [choose].
  { apply finish_column_run; try done. intros start' st' H _ _. by exists (Some (start', st')). }
  assert (Hcur : cur ∈ out) by (apply Hin, elem_of_cons; by left).
  assert (Hin' : forall sk, sk ∈ keys -> sk ∈ out) by (intros; apply Hin, elem_of_cons; by right).
  destruct (Z.eqb_spec (sk_attno (sk_head cur)) (Z.of_nat (length start) + 1)) as [Ha|_].
  - destruct (consider_run _ cur chosen nn Hcur Ha Hc Hn) as (c' & n' & -> & Hc' & Hn'). by apply IH.
  - apply finish_column_run; try done. intros start' st' Hok' Hst' Hlen.
    destruct (Z.eqb_spec (sk_attno (sk_head cur)) (Z.of_nat (length start) + 1 + 1)) as [Ha|_]; cbn [negb];
      [|by exists (Some (start', st'))].
    destruct (consider_run (Z.of_nat (length start') + 1) cur None None Hcur) as (c' & n' & -> & Hc' & Hn'); [lia|done|done|].
    rewrite Ha. replace (Z.of_nat (length start) + 1 + 1) with (Z.of_nat (length start') + 1) by lia. by apply IH.
Qed.

(** *** Converting *)

Lemma convert_run a sk : bound_key a sk -> exists e, convert sk = Val e /\ Page.sk_attno e = a /\
  forall t, all_sat t out = true ->
    beyond dir (if flag (sk_head sk) SK_ROW_HEADER then false else is_strict (sk_strategy (sk_head sk))) (entry_compare t e).
Proof.
  intros [(Ha & Har & Hf) Hsat Hside Hkn]. unfold Start.convert. destruct (flag (sk_head sk) SK_ROW_HEADER) eqn:Er.
  - destruct Hf as (_ & Hh & Hrow). unfold row_header_ok in Hh. unfold sat in Hsat. rewrite Er in Hsat.
    destruct (sk_row sk) as [|m row]; [done|]. destruct Hh as (Hma & Hms & _). destruct Hrow as [Hm _]. simpl.
    eexists. split; [done|]. split; [simpl; congruence|]. intros t Ht.
    destruct (member_step _ m row t Hm Hms Hside (Hsat t Ht)) as [Hle _]. split; [done|done].
  - destruct (convert_simple_run a (sk_head sk) Hf) as (e & -> & He); [apply Hsup in Hkn; by destruct sk|done|]. exists e. split; [done|].
    split; [apply He|]. intros t Ht. eapply simple_beyond; [done|done|done|]. specialize (Hsat t Ht). unfold sat in Hsat.
    by rewrite Er, Ha in Hsat.
Qed.

(** Where an entry of column [a] comes from. *)
Definition entry_source (a : Z) (e : ScanKeyData) : Prop :=
  exists sk, Sup sk /\
    ((fixed_key a sk /\ convert sk = Val e) \/
     (exists m, flag (sk_head sk) SK_ROW_HEADER = true /\ m ∈ sk_row sk /\ fixed_member m /\ sk_attno m = a /\ e = member_entry m)).

Lemma convert_all_run n start : (forall i sk, start !! i = Some sk -> bound_key (Z.of_nat (n + i) + 1) sk) ->
  exists es, convert_all opcintype procinfo opfamily_proc start = Val es /\ length es = length start /\
    (forall i e, es !! i = Some e -> Page.sk_attno e = Z.of_nat (n + i) + 1 /\ entry_source (Z.of_nat (n + i) + 1) e) /\
    (forall t, all_sat t out = true -> Forall (beyond dir false) (entry_compare t <$> es)) /\
    (forall t sk e, all_sat t out = true -> last start = Some sk -> last es = Some e -> flag (sk_head sk) SK_ROW_HEADER = false ->
      beyond dir (is_strict (sk_strategy (sk_head sk))) (entry_compare t e)).
Proof.
  revert n. induction start as [|sk start IH]; intros n Hs; simpl.
  { exists []. split; [done|]. split; [done|]. split; [done|]. split; [constructor|done]. }
  destruct (convert_run _ sk (Hs 0%nat sk eq_refl)) as (e & He & Ha & Hb). rewrite He. cbn [rbind].
  destruct (IH (S n)) as (es & -> & Hl & Hat & Hall & Hlast).
  { intros i x Hi. replace (S n + i)%nat with (n + S i)%nat by lia. by apply Hs. }
  exists (e :: es). split; [done|]. split; [simpl; lia|]. split; [|split].
  - intros [|i] x; simpl.
    + intros [= <-]. split; [done|]. exists sk. destruct (Hs 0%nat sk eq_refl). auto.
    + intros Hi. replace (n + S i)%nat with (S n + i)%nat by lia. by apply Hat.
  - intros t Ht. constructor; [|by apply Hall]. destruct (Hb t Ht). by split.
  - intros t x y Ht Hx Hy Hr. destruct start as [|sk2 start], es as [|e2 es]; try (simpl in Hl; lia).
    + injection Hx as <-. injection Hy as <-. specialize (Hb t Ht). by rewrite Hr in Hb.
    + by eapply Hlast.
Qed.

(** *** The key *)

(** What the key promises of a matching tuple [t]: a forward scan does not start behind
    it, a backward scan not before it. *)
Definition in_range (key : ABTScanInsertData) (c : Z) : Prop :=
  match dir with Forward => c < cmpval key | Backward => cmpval key <= c end.

Lemma positioning_run st : start_side dir st -> exists nk,
  positioning dir st = Val (nk, ScanDirectionIsBackward dir) /\
  forall c aei sz es, beyond dir (is_strict st) c -> in_range (mk_key true aei false nk false None sz es) c.
Proof.
  unfold start_side, in_range, cmpval, beyond. destruct dir; intros Hs.
  - assert (st = 1 \/ st = 2 \/ st = 3) as [->|[->| ->]] by lia; eexists; (split; [reflexivity|]);
      cbn; intros c _ _ _ [H1 H2]; try lia; specialize (H2 eq_refl); lia.
  - assert (st = 3 \/ st = 4 \/ st = 5) as [->|[->| ->]] by lia; eexists; (split; [reflexivity|]);
      cbn; intros c _ _ _ [H1 H2]; try lia; specialize (H2 eq_refl); lia.
Qed.

(** A result that is not 0 is beyond a strict boundary too. *)
Lemma beyond_app b l k : Forall (beyond dir false) l -> beyond dir b (firstnz k) -> beyond dir b (firstnz (l ++ k)).
Proof.
  intros Hl Hk. rewrite firstnz_app. destruct (Z.eqb_spec (firstnz l) 0) as [|Hne]; [done|].
  destruct (beyond_firstnz dir false l Hl) as [Hle _]; [done|]. split; [done|]. intros _. destruct dir; cbn [sign] in *; lia.
Qed.

Lemma weaken_side st : start_side dir st ->
  start_side dir (if st =? BTLessStrategyNumber then BTLessEqualStrategyNumber
                  else if st =? BTGreaterStrategyNumber then BTGreaterEqualStrategyNumber else st) /\
  is_strict (if st =? BTLessStrategyNumber then BTLessEqualStrategyNumber
             else if st =? BTGreaterStrategyNumber then BTGreaterEqualStrategyNumber else st) = false.
Proof.
  unfold start_side, is_strict, BTLessStrategyNumber, BTLessEqualStrategyNumber, BTGreaterStrategyNumber, BTGreaterEqualStrategyNumber.
  destruct (Z.eqb_spec st 1) as [->|]; [simpl; destruct dir; lia|].
  destruct (Z.eqb_spec st 5) as [->|]; [simpl; destruct dir; lia|]. intros H. split; [done|].
  apply orb_false_iff. split; by apply Z.eqb_neq.
Qed.

Lemma last_row_run start st es : start_ok start st -> start <> [] ->
  convert_all opcintype procinfo opfamily_proc start = Val es ->
  exists extra st', last_row start st = Val (extra, st') /\ start_side dir st' /\
    (forall i m, extra !! i = Some m -> fixed_member m /\ sk_attno m = Z.of_nat (length start) + 1 + Z.of_nat i /\
      exists sk, Sup sk /\ flag (sk_head sk) SK_ROW_HEADER = true /\ m ∈ sk_row sk) /\
    (forall t, all_sat t out = true -> beyond dir (is_strict st') (firstnz (entry_compare t <$> (es ++ (member_entry <$> extra))))).
Proof.
  intros Hok Hne Hes. destruct (convert_all_run 0 start) as (es' & Hes' & Hlen & Hat & Hweak & Hlast).
  { intros i sk Hi. apply (so_keys _ _ Hok i sk Hi). }
  rewrite Hes in Hes'. injection Hes' as <-. destruct (exists_last Hne) as (start0 & sk & ->).
  unfold last_row. rewrite last_snoc. cbn [the rbind]. pose proof (so_strict _ _ Hok) as Hst. rewrite last_snoc in Hst.
  destruct (so_keys _ _ Hok (length start0) sk) as [Hb Hnull]; [by rewrite lookup_app_r, Nat.sub_diag by lia|].
  destruct (flag (sk_head sk) SK_ROW_HEADER) eqn:Er.
  2: { exists [], st. split; [done|]. split; [apply Hok|]. split; [done|]. intros t Ht. simpl. rewrite app_nil_r.
       apply beyond_firstnz; [by apply Hweak|]. intros E. destruct (last es) as [e|] eqn:El.
       - exists (entry_compare t e). rewrite fmap_last, El. split; [done|]. rewrite <- E, Hst. eapply Hlast; eauto. by rewrite last_snoc.
       - apply last_None in El. subst es. rewrite length_app in Hlen. simpl in Hlen. lia. }
  destruct Hb as [(_ & _ & Hf) Hsat Hside Hkn]. rewrite Er in Hf. destruct Hf as (_ & Hh & Hrow). unfold row_header_ok in Hh.
  destruct (sk_row sk) as [|m row] eqn:Erow; [done|]. destruct Hh as (Hma & Hms & Hend). destruct Hrow as [Hm [?|Hrow]]; [congruence|].
  destruct (row_extra_run (sk_strategy (sk_head sk)) (Z.of_nat (length (start0 ++ [sk]))) row Hrow) as (extra & -> & Hex & Hbex). cbn [rbind].
  destruct (weaken_side st (so_side _ _ Hok)) as [Hwside Hwstrict]. eexists extra, _. split; [reflexivity|].
  split; [destruct (flag (default m _) _); [apply Hok|done]|].
  split; [intros i x Hi; destruct (Hex i x Hi) as (? & ? & ?); split_and!; try done; exists sk; rewrite Erow, elem_of_cons; auto|]. intros t Ht.
  assert (exists es0, es = es0 ++ [member_entry m]) as [es0 ->].
  { clear -Hes Erow Er. revert es Hes. induction start0 as [|x l IH]; intros es; simpl.
    - unfold Start.convert. rewrite Er, Erow. simpl. intros [= <-]. by exists [].
    - destruct (Start.convert _ _ _ x) as [e|]; [|done]. cbn [rbind]. destruct (convert_all _ _ _ (l ++ [sk])) as [es'|]; [|done].
      cbn [rbind]. intros [= <-]. destruct (IH es' eq_refl) as [es0 ->]. by exists (e :: es0). }
  specialize (Hweak t Ht). rewrite <- app_assoc, fmap_app. rewrite fmap_app in Hweak. apply Forall_app in Hweak as [Hw0 _].
  apply beyond_app; [done|]. specialize (Hsat t Ht). unfold sat in Hsat. rewrite Er, Erow in Hsat.
  destruct (member_step _ m row t Hm Hms Hside Hsat) as [Hle Hz]. rewrite Hend in Hz. simpl.
  destruct (Z.eqb_spec (entry_compare t (member_entry m)) 0) as [E0|Hne0];
    [|split; [done|]; intros _; destruct dir; cbn [sign] in *; lia].
  destruct (Hbex t Hside (Hz E0)) as [Hle' Hlast']. split; [done|]. intros Hstrict.
  destruct (flag (default m (last extra)) SK_ROW_END) eqn:Eend; [|congruence].
  rewrite Hst in Hstrict. destruct (last extra) as [m'|] eqn:El; simpl in Eend; [|congruence].
  change (list_fmap _ _ (entry_compare t) (member_entry <$> extra)) with (entry_compare t <$> (member_entry <$> extra)).
  enough (firstnz (entry_compare t <$> (member_entry <$> extra)) <> 0) by (destruct dir; cbn [sign] in *; lia).
  intros H0. specialize (Hlast' H0 Hstrict m' eq_refl). congruence.
Qed.

(** The key made for a scan. *)
Record start_key_ok (key : ABTScanInsertData) : Prop := {
  sk_shape : exists aei nk es, key = mk_key true aei false nk false None (Z.of_nat (length es)) es;
  sk_attnos i e : scankeys key !! i = Some e -> Page.sk_attno e = Z.of_nat i + 1;
  sk_source i e : scankeys key !! i = Some e -> entry_source (Z.of_nat i + 1) e;
  sk_columns : (length (scankeys key) <= length indoption)%nat;
  sk_bounds t : all_sat t out = true -> in_range key (firstnz (entry_compare t <$> scankeys key))
}.

Lemma build_run : exists qual_ok o, _abt_build_start_inskey rel opcintype procinfo opfamily_proc dir true out = Val (qual_ok, o) /\
  (qual_ok = false -> forall t, all_sat t out = false) /\
  (forall key goback, o = Some (key, goback) -> goback = ScanDirectionIsBackward dir /\ start_key_ok key).
Proof.
  unfold _abt_build_start_inskey. cbn [negb].
  destruct (choose_run out None None [] 3) as (o & Hch & Ho); try done.
  { split; try done. by left. }
  change (Z.of_nat (length []) + 1) with 1 in Hch. unfold BTEqualStrategyNumber. rewrite Hch. cbn [rbind]. destruct o as [[start st]|]; [|by eexists false, None].
  destruct start as [|sk0 start0]; [by eexists true, None|]. set (start := sk0 :: start0) in *.
  destruct (convert_all_run 0 start) as (es & Hes & Hlen & Hat & _).
  { intros i sk Hi. apply (so_keys _ _ Ho i sk Hi). }
  destruct (last_row_run start st es Ho ltac:(done) Hes) as (extra & st' & -> & Hside & Hex & Hb). cbn [rbind]. rewrite Hes. cbn [rbind].
  destruct (positioning_run st' Hside) as (nk & -> & Hpos). cbn [rbind]. eexists true, _. split; [reflexivity|]. split; [done|].
  intros key goback [= <- <-]. split; [done|].
  assert (Hattno : forall i e, (es ++ (member_entry <$> extra)) !! i = Some e -> Page.sk_attno e = Z.of_nat i + 1).
  { intros i e Hi. apply lookup_app_Some in Hi as [Hi|[Hle Hi]]; [apply (Hat i e Hi)|].
    apply list_lookup_fmap_Some in Hi as (m & -> & Hi). destruct (Hex _ _ Hi) as (_ & Hm & _). simpl. rewrite Hm, <- Hlen. lia. }
  split; [by eexists _, _, _|done| | |].
  - intros i e Hi. cbn [scankeys] in Hi. apply lookup_app_Some in Hi as [Hi|[Hle Hi]]; [apply (Hat i e Hi)|].
    apply list_lookup_fmap_Some in Hi as (m & -> & Hi). destruct (Hex _ _ Hi) as (Hm & Hma & sk & ? & ? & ?).
    exists sk. split; [done|]. right. exists m. split_and!; try done. rewrite Hma, <- Hlen. lia.
  - cbn [scankeys]. destruct (last (es ++ (member_entry <$> extra))) as [e|] eqn:El; [|apply last_None in El; rewrite El; simpl; lia].
    rewrite last_lookup in El. pose proof El as El'. apply lookup_app_Some in El as [El|[Hle El]].
    + apply lookup_lt_Some in El as Hl. rewrite Hlen in Hl. destruct (lookup_lt_is_Some_2 start _ Hl) as [sk Hsk].
      destruct (so_keys _ _ Ho _ sk Hsk) as [[(_ & ? & _) _ _ _] _]. rewrite length_app in *. lia.
    + apply list_lookup_fmap_Some in El as (m & -> & Hi). destruct (Hex _ _ Hi) as (Hm & Hma & _). pose proof (fm_attno _ _ _ _ Hm).
      rewrite length_app in *. lia.
  - intros t Ht. cbn [scankeys]. apply Hpos, Hb, Ht.
Qed.

End Choose.

Lemma outs_fixed out sk : outs indoption opcintype cmp out -> sk ∈ out -> fixed_key (sk_attno (sk_head sk)) sk.
Proof.
  induction 1 as [|l x a _ IH Hx _ _ _]; [by intros ?%elem_of_nil|]. intros [Hin|Hin]%elem_of_app; [by apply IH|].
  apply list_elem_of_singleton in Hin as ->. by rewrite (proj1 Hx).
Qed.

(** *** Equality keys *)

(** Where all columns up to some column have equality keys, the start key takes them. *)
Section EqualityKeys.
Context (out : list ScanKey) (a : Z).
Hypothesis Hfixed : forall sk, sk ∈ out -> fixed_key (sk_attno (sk_head sk)) sk.
Hypothesis Heq : eq_before indoption opcintype cmp (a + 1) out.

Abbreviation eq_key := (Quals.eq_key indoption opcintype cmp).

Definition eq_chosen (b : Z) (chosen : option ScanKey) : Prop := exists e, chosen = Some e /\ e ∈ out /\ eq_key b e.

Lemma strategy_eq_key b sk : sk ∈ out -> sk_attno (sk_head sk) = b -> sk_strategy (sk_head sk) = 3 -> eq_key b sk.
Proof.
  intros Hin Ha Hs. pose proof (Hfixed sk Hin) as Hf. rewrite Ha in Hf. split; [done|]. split; [|done].
  destruct (flag (sk_head sk) SK_ROW_HEADER) eqn:E; [|done]. apply (fixed_row_strategy _ _ _ _ _ Hf) in E. unfold row_strategy in E. lia.
Qed.

Lemma consider_eq cur chosen nn b : cur ∈ out -> sk_attno (sk_head cur) = b ->
  eq_chosen b chosen \/ eq_key b cur -> eq_chosen b (fst (consider dir cur chosen nn)).
Proof.
  intros Hin Ha H. unfold consider. destruct (Z.eqb_spec (sk_strategy (sk_head cur)) 3) as [E|Hne].
  - rewrite E. cbn. exists cur. split; [done|]. split; [done|]. by apply strategy_eq_key.
  - destruct H as [(e & -> & He)|(_ & _ & ?)]; [|congruence]. unfold BTEqualStrategyNumber. rewrite (proj2 (Z.eqb_neq _ _) Hne).
    exists e. destruct (_ || _); [done|]. by destruct (_ || _).
Qed.

(** The keys taken so far. *)
Definition eq_start (start : list ScanKey) : Prop :=
  forall i sk, start !! i = Some sk -> Z.of_nat i + 1 <= a -> sk ∈ out /\ eq_key (Z.of_nat i + 1) sk.

Definition eq_result (r : res (option (list ScanKey * Z))) : Prop :=
  forall start st, r = Val (Some (start, st)) -> a <= Z.of_nat (length start) /\ eq_start start.

Lemma finish_column_eq start st chosen nn next : eq_start start ->
  (Z.of_nat (length start) + 1 <= a -> eq_chosen (Z.of_nat (length start) + 1) chosen) ->
  (forall start' st', eq_start start' -> length start' = S (length start) -> eq_result (next start' st')) ->
  eq_result (finish_column dir (Z.of_nat (length start) + 1) chosen nn start st next).
Proof.
  intros Hst Hc Hnext start' st'. unfold finish_column.
  destruct (Z.le_gt_cases (Z.of_nat (length start) + 1) a) as [Hle|Hgt].
  - destruct (Hc Hle) as (e & -> & He & Hk). pose proof Hk as (_ & Hr & Hs). cbn [boundary]. unfold row_has_null. rewrite Hr. cbn [rbind].
    rewrite Hs. cbn. apply Hnext; [|rewrite length_app; simpl; lia]. intros i sk Hi Hia.
    apply lookup_app_Some in Hi as [Hi|[Hl Hi]]; [by apply Hst|]. apply list_lookup_singleton_Some in Hi as [Hz <-].
    by replace (Z.of_nat i) with (Z.of_nat (length start)) by lia.
  - destruct (boundary _ _ _ _) as [sk|]; [|intros [= <- <-]; split; [lia|done]]. destruct (row_has_null sk) as [[|]|]; cbn [rbind]; [done| |done].
    assert (eq_start (start ++ [sk])).
    { intros i x Hi Hia. apply lookup_app_Some in Hi as [Hi|[Hl Hi]]; [by apply Hst|lia]. }
    destruct (_ || _); [|apply Hnext; [done|rewrite length_app; simpl; lia]].
    intros [= <- <-]. split; [rewrite length_app; simpl; lia|done].
Qed.

Lemma choose_eq done keys chosen nn start st : out = done ++ keys -> eq_start start ->
  (forall sk, sk ∈ done -> sk_attno (sk_head sk) <= Z.of_nat (length start) + 1) ->
  Sorted Z.le (Z.of_nat (length start) + 1 :: (attno_of <$> keys)) ->
  (forall e, e ∈ done -> eq_key (Z.of_nat (length start) + 1) e -> eq_chosen (Z.of_nat (length start) + 1) chosen) ->
  eq_result (choose dir keys (Z.of_nat (length start) + 1) chosen nn start st).
Proof.
  revert done chosen nn start st. induction keys as [|cur keys IH]; intros done chosen nn start st Hout Hst Hd Hsort Hc; cbn [choose].
  { apply finish_column_eq; [done| |].
    - intros Hle. destruct (Heq (Z.of_nat (length start) + 1)) as (e & He & Hk); [lia|]. rewrite Hout, app_nil_r in He. by apply (Hc e).
    - intros start' st' Hs' Hlen x y [= <- <-]. split; [|done]. destruct (Z.le_gt_cases a (Z.of_nat (length start'))); [done|].
      destruct (Heq a) as (e & He & ((Ha & _) & _)); [lia|]. rewrite Hout, app_nil_r in He. specialize (Hd e He). lia. }
  assert (Hin : cur ∈ out) by (rewrite Hout; apply elem_of_app; right; by left).
  assert (Hout' : out = (done ++ [cur]) ++ keys) by by rewrite <- app_assoc.
  apply Sorted_StronglySorted in Hsort; [|intros ???; lia]. cbn [fmap list_fmap] in Hsort. inversion Hsort as [|? ? Hsort' Hge]; subst.
  inversion Hge as [|? ? Hcur Hge']; subst. inversion Hsort' as [|? ? Hss Hle]; subst. unfold attno_of in Hcur at 1.
  destruct (Z.eqb_spec (sk_attno (sk_head cur)) (Z.of_nat (length start) + 1)) as [Ha|Hne].
  - pose proof (consider_eq cur chosen nn _ Hin Ha) as Hce. destruct (consider dir cur chosen nn) as [c' n']. cbn [fst] in Hce.
    apply (IH (done ++ [cur])); [done|done| | |].
    + intros sk [Hk|Hk]%elem_of_app; [by apply Hd|]. apply list_elem_of_singleton in Hk as ->. lia.
    + constructor; [by apply StronglySorted_Sorted|]. destruct keys as [|k keys]; [constructor|]. constructor. by inversion Hge'.
    + intros e [He|He]%elem_of_app Hk; [apply Hce; left; by apply (Hc e)|]. apply list_elem_of_singleton in He as ->. apply Hce. by right.
  - assert (Hrest : forall sk, sk ∈ cur :: keys -> sk_attno (sk_head cur) <= sk_attno (sk_head sk)).
    { intros sk [->|Hk]%elem_of_cons; [lia|]. rewrite Forall_fmap, Forall_forall in Hle. by apply (Hle sk). }
    apply finish_column_eq; [done| |].
    + intros Hlea. destruct (Heq (Z.of_nat (length start) + 1)) as (e & He & Hk); [lia|]. rewrite Hout, elem_of_app in He. destruct He as [He|He]; [by apply (Hc e)|].
      specialize (Hrest e He). destruct Hk as ((Hka & _) & _). lia.
    + intros start' st' Hs' Hlen. destruct (Z.eqb_spec (sk_attno (sk_head cur)) (Z.of_nat (length start) + 1 + 1)) as [Ha|Hne']; cbn [negb].
      * pose proof (consider_eq cur None None _ Hin Ha) as Hce. destruct (consider dir cur None None) as [c' n']. cbn [fst] in Hce. rewrite Ha.
        replace (Z.of_nat (length start) + 1 + 1) with (Z.of_nat (length start') + 1) in * by lia. apply (IH (done ++ [cur])); [done|done| | |].
        -- intros sk [Hk|Hk]%elem_of_app; [specialize (Hd sk Hk); lia|]. apply list_elem_of_singleton in Hk as ->. lia.
        -- rewrite <- Ha. constructor; [by apply StronglySorted_Sorted|]. destruct keys as [|k keys]; [constructor|]. constructor. by inversion Hle.
        -- intros e [He|He]%elem_of_app Hk; [destruct Hk as ((Hka & _) & _); specialize (Hd e He); lia|].
           apply list_elem_of_singleton in He as ->. apply Hce. by right.
      * intros x y [= <- <-]. split; [|done]. destruct (Z.le_gt_cases a (Z.of_nat (length start'))); [done|].
        destruct (Heq (Z.of_nat (length start) + 1 + 1)) as (e & He & Hk); [lia|]. destruct Hk as ((Hka & _) & _). rewrite Hout, elem_of_app in He.
        destruct He as [He|He]; [specialize (Hd e He); lia|]. specialize (Hrest e He). lia.
Qed.

Lemma convert_all_lookup start es i sk e : convert_all opcintype procinfo opfamily_proc start = Val es ->
  start !! i = Some sk -> es !! i = Some e -> convert sk = Val e.
Proof.
  revert es i. induction start as [|x start IH]; intros es i; [done|]. cbn [convert_all].
  destruct (Start.convert _ _ _ x) as [e'|] eqn:Ex; [|done]. cbn [rbind].
  destruct (convert_all _ _ _ start) as [es'|]; [|done]. cbn [rbind]. intros [= <-]. destruct i as [|i]; simpl; [congruence|]. by apply IH.
Qed.

Lemma convert_all_length start es : convert_all opcintype procinfo opfamily_proc start = Val es -> length es = length start.
Proof.
  revert es. induction start as [|x start IH]; intros es; [by intros [= <-]|]. cbn [convert_all].
  destruct (Start.convert _ _ _ x) as [e'|]; [|done]. cbn [rbind]. destruct (convert_all _ _ _ start) as [es'|]; [|done].
  cbn [rbind]. intros [= <-]. simpl. f_equal. by apply IH.
Qed.

(** The entry of column [b] stands for an equality key of it. *)
Lemma build_eq o : 1 <= a -> Sorted Z.le (attno_of <$> out) -> (forall sk, sk ∈ out -> supported sk) ->
  _abt_build_start_inskey rel opcintype procinfo opfamily_proc dir true out = Val (true, o) ->
  exists key goback, o = Some (key, goback) /\ forall b, 1 <= b <= a ->
    exists e x, scankeys key !! Z.to_nat (b - 1) = Some e /\ x ∈ out /\ eq_key b x /\ entry_for b (key_arg opcintype (sk_head x)) e.
Proof.
  intros Ha Hsort Hsup. unfold _abt_build_start_inskey. cbn [negb].
  assert (Hres : eq_result (choose dir out 1 None None [] BTEqualStrategyNumber)).
  { apply (choose_eq [] out None None []); try done; try (by intros ? ?%elem_of_nil). constructor; [done|].
    destruct out as [|sk l]; [constructor|]. constructor. destruct (Hfixed sk) as (_ & ? & _); [by left|]. unfold attno_of. simpl. lia. }
  destruct (choose dir out 1 None None [] BTEqualStrategyNumber) as [[[start st]|]|]; [|done..]. cbn [rbind].
  destruct (Hres start st eq_refl) as [Hlen Hst]. destruct start as [|sk0 start0]; [simpl in Hlen; lia|]. set (start := sk0 :: start0) in *.
  destruct (last_row start st) as [[extra st']|]; [|done]. cbn [rbind].
  destruct (convert_all _ _ _ start) as [es|] eqn:Ees; [|done]. cbn [rbind]. destruct (positioning dir st') as [[nk gb]|]; [|done]. cbn [rbind].
  intros [= <-]. eexists _, _. split; [reflexivity|]. intros b Hb. cbn [scankeys]. pose proof (convert_all_length _ _ Ees) as Hl.
  destruct (lookup_lt_is_Some_2 start (Z.to_nat (b - 1))) as [x Hx]; [lia|]. destruct (lookup_lt_is_Some_2 es (Z.to_nat (b - 1))) as [e He]; [lia|].
  destruct (Hst _ x Hx) as [Hin Hk]; [lia|]. replace (Z.of_nat (Z.to_nat (b - 1)) + 1) with b in Hk by lia.
  exists e, x. split; [by apply lookup_app_l_Some|]. split; [done|]. split; [done|]. pose proof (convert_all_lookup _ _ _ _ _ Ees Hx He) as Hc.
  destruct Hk as ((_ & _ & Hf) & Hr & _). unfold Start.convert in Hc. rewrite Hr in Hc, Hf.
  destruct (convert_simple_run b (sk_head x) Hf) as (e' & He' & Hent); [specialize (Hsup x Hin); by destruct x|done|]. congruence.
Qed.

End EqualityKeys.

Lemma outs_sorted out : outs indoption opcintype cmp out -> Sorted Z.le (attno_of <$> out).
Proof.
  intros Ho. apply StronglySorted_Sorted. induction Ho as [|l x a _ IH Hx _ _ Hle]; [constructor|].
  rewrite fmap_app. apply StronglySorted_app_2; [|done|simpl; repeat constructor].
  intros i j Hi Hj. apply list_elem_of_fmap in Hi as (y & -> & Hy). apply list_elem_of_singleton in Hj as ->. unfold attno_of. rewrite (proj1 Hx). by apply Hle.
Qed.

(** C14: The insertion key of a scan delimits its matches.  For quals that passed
    preprocessing, the key for either direction is built without an error; if building it
    finds the quals unsatisfiable then no tuple satisfies them; and otherwise every leaf
    tuple that satisfies them is on the scan's side of the key: a forward scan does not
    start behind it, a backward scan (which steps back from the key) not before it. *)
Theorem start_key_bounds keys out : Forall (raw_key indoption opcintype cmp) keys -> Sorted Z.le (attno_of <$> keys) ->
  _abt_preprocess_keys indoption opcintype opfamily keys = Val (true, out) -> Forall supported out ->
  exists qual_ok o, _abt_build_start_inskey rel opcintype procinfo opfamily_proc dir true out = Val (qual_ok, o) /\
    (qual_ok = false -> forall t, all_sat t keys = false) /\
    (forall key goback, o = Some (key, goback) -> goback = ScanDirectionIsBackward dir /\
      forall t, rd_natts rel = Z.of_nat (length (it_key t)) -> nkeys <= rd_natts rel -> it_tids t <> [] ->
        all_sat (it_key t) keys = true -> exists c, compare_tuple (rd_natts rel) key (LeafTup t) = Some c /\ in_range key c).
Proof.
  intros Hraw Hsort Hpre Hsup.
  destruct (preprocess_keys_run indoption opcintype opfamily cmp keys Hraw Hsort) as (ok & out' & Hrun & Hs & Ho).
  rewrite Hrun in Hpre. injection Hpre as -> ->. specialize (Ho eq_refl). rewrite Forall_forall in Hsup.
  destruct (build_run out supported) as (qual_ok & o & -> & Hq & Hkey); [done|intros k a _; right; by right| |].
  { intros sk Hin. split; [by apply (outs_fixed out)|by apply Hsup]. }
  exists qual_ok, o. split; [done|]. split; [intros E t; by rewrite Hs, (Hq E)|].
  intros key goback E. destruct (Hkey key goback E) as [Hg [(aei & nk & es & ->) Hat _ Hlen Hb]]. split; [done|].
  intros t Hn Hnk Htids Ht. rewrite Hs in Ht. cbn [scankeys] in *. exists (firstnz (entry_compare (it_key t) <$> es)).
  split; [|by apply Hb]. eapply compare_start; [done|done|done|lia|]. apply Forall_lookup. intros i e Hi. rewrite (Hat i e Hi).
  apply lookup_lt_Some in Hi. lia.
Qed.

End Bounds.

(** ** An index on two columns, the second descending *)

Definition demo_start_rel : index_rel := mk_rel 2 [mk_col false false Z.sub; mk_col false true Z.sub] true.
Definition demo_procinfo (a : Z) : Z -> Z -> Z := Z.sub.
Definition demo_proc (a ty : Z) : option (Z -> Z -> Z) := Some Z.sub.

#[export] Instance demo_OrderProcs : OrderProcs demo_type demo_procinfo demo_proc demo_cmp.
Proof. split; [done|]. by intros a ty f x y [= <-]. Qed.

(** The quals ask for 5 in the first column and at most 6 in the second: a forward scan
    starts at (5, 7) exclusively, the descending column's smallest values coming last. *)
Example demo_start_key :
  _abt_build_start_inskey demo_start_rel demo_type demo_procinfo demo_proc Forward true demo_outkeys =
  Val (true, Some (mk_key true true false true false None 2
    [mk_sk false false false 1 Z.sub 5; mk_sk false false true 2 Z.sub 7], false)).
Proof. vm_compute. reflexivity. Qed.

Lemma start_key_bounds_witness : exists qual_ok o,
  _abt_build_start_inskey demo_start_rel demo_type demo_procinfo demo_proc Forward true demo_outkeys = Val (qual_ok, o) /\
  (qual_ok = false -> forall t, all_sat t demo_quals = false).
Proof.
  destruct (start_key_bounds demo_start_rel demo_options demo_type demo_family demo_cmp demo_procinfo demo_proc Forward demo_quals demo_outkeys)
    as (qual_ok & o & H & Hq & _).
  - apply demo_quals_raw.
  - apply demo_quals_sorted.
  - vm_compute. reflexivity.
  - apply Forall_forall. intros sk _ _. by left.
  - by exists qual_ok, o.
Defined.

End Start.
