(* ===== verification/Sample.v ===== *)
(** * Weighted sampling (abtsearch.c)

    [_abt_sample_extended] draws one entry of the range of a scan.  It descends from the
    root while only one child can match, builds the prefix sums of the aggregates on the
    first page where several can, chooses the one where the random number falls and
    descends from there, counting off the aggregates of every level.  The inverse of the
    probability of the draw is returned with it.  [_abt_total_weight] sums the weights
    that the draw is made from.

    The reader of the aggregate of a pivot tuple under the scan's snapshot is a parameter
    ([read_agg]); leaf weights are read from the tuples.  Buffers and pages are those of
    Btree.  Random numbers are IEEE doubles. *)

From stdpp Require Import base numbers option sorting list.
From S2P Require Import Prelude Tuple Dedup Versions Double Page Search Btree Quals.

Module Sample.
Import Tuple Dedup Versions Double Page Search Btree Quals.

(** ** Item indexes *)

Definition ABT_ITEMINDEX_OFFSET_MASK : Z := 0xffff.
Definition ABT_ITEMINDEX_POSTING_OFF_MASK : Z := 0xffff0000.
Definition ABT_ITEMINDEX_POSTING_OFF_SHIFT : Z := 16.
Definition ABT_ITEMINDEX_GET_OFFSET (idx : Z) : Z := Z.land idx ABT_ITEMINDEX_OFFSET_MASK.
Definition ABT_ITEMINDEX_GET_POSTING_OFF (idx : Z) : Z :=
  Z.shiftr (Z.land idx ABT_ITEMINDEX_POSTING_OFF_MASK) ABT_ITEMINDEX_POSTING_OFF_SHIFT.
Definition ABT_OFFSET_GET_ITEMINDEX (off : Z) : Z := Z.land (u32 off) ABT_ITEMINDEX_OFFSET_MASK.
Definition ABT_OFFSET_AND_POSTING_OFF_GET_ITEMINDEX (off posting_off : Z) : Z :=
  Z.lor (ABT_OFFSET_GET_ITEMINDEX off)
    (u32 (Z.shiftl (Z.land (u32 posting_off) ABT_ITEMINDEX_POSTING_OFF_MASK) ABT_ITEMINDEX_POSTING_OFF_SHIFT)).

(** ** The scan *)

Record scan := mk_scan {
  so_snapshot : option ABTSnapshot;
  so_qual_ok : bool;
  so_keyData : list ScanKey;
  so_inskey_low : option ABTScanInsertData;
  so_inskey_high : option ABTScanInsertData;
  so_inskey_pivot : ABTScanInsertData;
  so_split_partition : bool;
  so_ignore_killed_tuples : bool;
  so_want_itup : bool;
  so_mvcc_wal : bool      (** an MVCC snapshot and a WAL-logged index *)
}.

Record ABTFastSamplingContextData := mk_fs {
  fs_rootbuf : Buffer;
  fs_leafoff : Z;
  fs_sampled_item_weight : Z;
  fs_minoff : Z;
  fs_maxoff : Z
}.

(** The sampled item: so->currPos with its only item. *)
Record sample_pos := mk_pos {
  sp_buf : Buffer;                (** still pinned *)
  sp_currPage : Z;
  sp_nextPage : Z;
  sp_heapTid : tid;
  sp_indexOffset : Z;
  sp_itup : option (list (option Z))    (** the key of xs_itup *)
}.

Record sample_result := mk_sr { sr_inv_prob : double; sr_pos : option sample_pos }.

Section Sample.
Context (rel : index_rel) (meta : ABTMetaPageData) (pages : Z -> option page).
Context (ai : agg_info) (agg_map_val : Z) (read_agg : pivot -> option Z) (so : scan).

Definition lift_res {A} (r : res A) : M A :=
  match r with Val a => ret a | Raise Elog => fail ElogError | Raise OutOfBounds => fail BadItem end.

(** The value at an aggregate pointer, read as unsigned. *)
Definition _abt_atomic_read_agg_ptr (w : Z) : Z :=
  if agg_typlen ai =? 8 then u64 w else if agg_typlen ai =? 4 then u32 w else u16 w.

Definition hidden_xid (xid : Z) : bool := _abt_xid_in_snapshot xid (so_snapshot so).

(** The tuples at the offsets from [minoff] to [maxoff]. *)
Definition page_items (p : page) (minoff maxoff : Z) : option (list (Z * index_tuple)) :=
  mapM (fun off => t ← PageGetItem p off; Some (off, t)) (seqZ minoff (maxoff - minoff + 1)).

(** ** The prefix sums of a page *)

(** Entries of a posting list from [i] on: weight and item index of the visible ones.
    The aggregate pointer moves on only past visible entries. *)
Fixpoint posting_items (offnum i : Z) (xmins aggs : list Z) : option (list (Z * Z)) :=
  match xmins with
  | [] => Some []
  | xid :: xmins =>
      if hidden_xid xid then posting_items offnum (i + 1) xmins aggs
      else
        let idx := ABT_OFFSET_AND_POSTING_OFF_GET_ITEMINDEX offnum i in
        if leaf_has_agg ai then
          match aggs with
          | [] => None
          | w :: aggs => l ← posting_items offnum (i + 1) xmins aggs; Some ((_abt_atomic_read_agg_ptr w, idx) :: l)
          end
        else l ← posting_items offnum (i + 1) xmins aggs; Some ((1, idx) :: l)
  end.

Definition leaf_tuple_items (offnum : Z) (t : itup) : option (list (Z * Z)) :=
  if is_posting t then posting_items offnum 0 (it_xmins t) (it_aggs t)
  else
    xid ← head (it_xmins t);
    if hidden_xid xid then Some []
    else
      w ← (if leaf_has_agg ai then _abt_atomic_read_agg_ptr <$> head (it_aggs t) else Some 1);
      Some [(w, ABT_OFFSET_GET_ITEMINDEX offnum)].

(** Internal pages leave out the children without weight. *)
Definition tuple_items (leaf : bool) (it : Z * index_tuple) : option (list (Z * Z)) :=
  let '(offnum, t) := it in
  match t with
  | LeafTup t => if leaf then leaf_tuple_items offnum t else None
  | PivotTup pv =>
      if leaf then None
      else agg ← read_agg pv; Some (if agg =? 0 then [] else [(agg, ABT_OFFSET_GET_ITEMINDEX offnum)])
  end.

Definition collect_items (p : page) (minoff maxoff : Z) : option (list (Z * Z)) :=
  items ← page_items p minoff maxoff;
  ls ← mapM (tuple_items (ABT_P_ISLEAF (pg_opaque p))) items;
  Some (mjoin ls).

(** prefix_sums[i] += prefix_sums[i - 1] *)
Fixpoint accumulate (acc : Z) (ws : list Z) : list Z :=
  match ws with [] => [] | w :: ws => u64 (acc + w) :: accumulate (u64 (acc + w)) ws end.

(** The first index whose prefix sum is above the cutoff. *)
Definition cutoff_search (prefix_sums : list Z) (cutoff : Z) : option Z :=
  bsearch (fun low high => Z.shiftr (low + high) 1) (fun mid => mid + 1)
    (fun mid => s ← prefix_sums !! Z.to_nat mid; Some (negb (cutoff <? s)))
    (length prefix_sums) 0 (Z.of_nat (length prefix_sums)).

(** floor(n * r), one less should it be n. *)
Definition cutoff_u64 (n : Z) (r : double) : option Z := c ← floor_mul_u64 n r; Some (if c =? n then u64 (c - 1) else c).
Definition cutoff_int (n : Z) (r : double) : option Z := c ← floor_mul_int n r; Some (if c =? n then c - 1 else c).

(** ** The high key a child should have *)

Definition expected_hikey (p : page) (offnum : Z) : option (option index_tuple) :=
  if offnum =? PageGetMaxOffsetNumber p then
    if ABT_P_RIGHTMOST (pg_opaque p) then Some None else Some <$> PageGetItem p ABTP_HIKEY
  else Some <$> PageGetItem p (offnum + 1).

Definition inskey_hikey (hikey : option index_tuple) : option ABTScanInsertData :=
  k ← _abt_mkscankey_extended rel hikey (Some (so_inskey_pivot so));
  Some (mk_key (heapkeyspace k) (allequalimage k) (anynullkeys k) (nextkey k) true (scantid k) (keysz k) (scankeys k)).

(** prev_cmpres: the expected high key against that of the page. *)
Definition compare_hikey (p : page) (hikey : option index_tuple) : option Z :=
  if ABT_P_RIGHTMOST (pg_opaque p) then Some (match hikey with None => 0 | Some _ => -1 end)
  else k ← inskey_hikey hikey; _abt_compare (rd_natts rel) k p ABTP_HIKEY.

(** ** The end of a draw *)

Definition leaf_weight (t : index_tuple) (posting_off : Z) : option Z :=
  match t with
  | LeafTup t => _abt_atomic_read_agg_ptr <$> (it_aggs t !! (if is_posting t then Z.to_nat posting_off else 0%nat))
  | PivotTup _ => None
  end.

Definition item_tid (t : index_tuple) (posting_off : Z) : option tid :=
  match t with
  | LeafTup t => it_tids t !! (if is_posting t then Z.to_nat posting_off else 0%nat)
  | PivotTup _ => None
  end.

(** _abt_drop_lock_and_maybe_pin: the buffer if it stays pinned. *)
Definition _abt_drop_lock_and_maybe_pin (buf : Buffer) : M Buffer :=
  do_ _abt_relbuf buf;
  ret (if so_mvcc_wal so && negb (so_want_itup so) then InvalidBuffer else buf).

(** From the label done_sampling on.  [in_leaf]: the leaf was locked by fast sampling and
    stays locked. *)
Definition done_sampling (in_leaf : bool) (inv_prob : double) (buf : Buffer) (p : page) (offnum posting_off : Z)
  : M sample_result :=
  do t <- lift (PageGetItem p offnum);
  do inv_prob <- (if leaf_has_agg ai then do w <- lift (leaf_weight t posting_off); ret (ddiv inv_prob (double_of_Z w))
                  else ret inv_prob);
  do dead <- lift (ItemIdIsDead p offnum);
  do ok <- (if so_ignore_killed_tuples so && dead then ret false
            else do rc <- lift_res (_abt_checkkeys t (rd_natts rel) Forward (so_keyData so)); ret (fst rc));
  if negb ok then
    do_ (if in_leaf then ret tt else _abt_relbuf buf);
    ret (mk_sr inv_prob None)
  else
    do blk <- BufferGetBlockNumber buf;
    do heapTid <- lift (item_tid t posting_off);
    do buf <- (if in_leaf then ret InvalidBuffer else _abt_drop_lock_and_maybe_pin buf);
    ret (mk_sr inv_prob (Some (mk_pos buf blk (abtpo_next (pg_opaque p)) heapTid offnum
      (if so_want_itup so then Some (tuple_key t) else None)))).

(** ** Descent with a cutoff *)

(** Count off the entries of a posting list: the one where the cutoff falls, or the sum
    so far. *)
Fixpoint descend_posting (cutoff acc i : Z) (xmins aggs : list Z) : option (Z + Z) :=
  match xmins with
  | [] => Some (inl acc)
  | xid :: xmins =>
      if hidden_xid xid then descend_posting cutoff acc (i + 1) xmins aggs
      else
        '(agg, aggs) ← (if leaf_has_agg ai then
                          match aggs with [] => None | w :: aggs => Some (_abt_atomic_read_agg_ptr w, aggs) end
                        else Some (u64 agg_map_val, aggs));
        let acc := u64 (acc + agg) in
        if cutoff <? acc then Some (inr i) else descend_posting cutoff acc (i + 1) xmins aggs
  end.

Definition descend_leaf_tuple (cutoff acc : Z) (t : itup) : option (Z + Z) :=
  if is_posting t then descend_posting cutoff acc 0 (it_xmins t) (it_aggs t)
  else
    xid ← head (it_xmins t);
    if hidden_xid xid then Some (inl acc)
    else
      agg ← (if leaf_has_agg ai then _abt_atomic_read_agg_ptr <$> head (it_aggs t) else Some (u64 agg_map_val));
      let acc := u64 (acc + agg) in
      Some (if cutoff <? acc then inr 0 else inl acc).

(** A leaf page: the offset and posting offset chosen, or the sum. *)
Fixpoint descend_leaf (cutoff acc : Z) (items : list (Z * index_tuple)) : option (Z + Z * Z) :=
  match items with
  | [] => Some (inl acc)
  | (offnum, LeafTup t) :: items =>
      r ← descend_leaf_tuple cutoff acc t;
      match r with inl acc => descend_leaf cutoff acc items | inr i => Some (inr (offnum, i)) end
  | (_, PivotTup _) :: _ => None
  end.

(** An internal page: the offset of the child with its downlink and the remaining
    cutoff, or the sum. *)
Fixpoint descend_inner (cutoff acc : Z) (items : list (Z * index_tuple)) : option (Z + Z * Z * Z) :=
  match items with
  | [] => Some (inl acc)
  | (offnum, PivotTup pv) :: items =>
      agg ← read_agg pv;
      let acc := u64 (acc + agg) in
      if cutoff <? acc then Some (inr (offnum, pv_downlink pv, u64 (cutoff - u64 (acc - agg))))
      else descend_inner cutoff acc items
  | (_, LeafTup _) :: _ => None
  end.

(** The for loop.  [entry]: the comparison result when it is entered at continue_descent;
    [None]: it is entered at its head. *)
Fixpoint descent (fuel : nat) (entry : option Z) (buf : Buffer) (hikey : option index_tuple) (cutoff acc : Z)
    (inv_prob : double) : M sample_result :=
  match fuel with
  | O => fail OutOfFuel
  | S fuel =>
      do buf <- match entry with Some _ => ret buf | None => _abt_moveright_to_next_live_page pages fuel buf end;
      match buf with
      | None => do_ _abt_relbuf buf; ret (mk_sr inv_prob None)
      | Some _ =>
          do p <- BufferGetPage pages buf;
          do prev_cmpres <- lift (match entry with Some c => Some c | None => compare_hikey p hikey end);
          let o := pg_opaque p in
          if 0 <? prev_cmpres then do_ _abt_relbuf buf; ret (mk_sr inv_prob None)
          else
            do items <- lift (page_items p (ABT_P_FIRSTDATAKEY o) (PageGetMaxOffsetNumber p));
            let move_right acc :=
              if (prev_cmpres =? 0) || ABT_P_RIGHTMOST o
              then do_ _abt_relbuf buf; ret (mk_sr get_float8_infinity None)
              else do buf <- _abt_relandgetbuf pages buf (abtpo_next o); descent fuel None buf hikey cutoff acc inv_prob in
            if ABT_P_ISLEAF o then
              do r <- lift (descend_leaf cutoff acc items);
              match r with
              | inr (offnum, posting_off) => done_sampling false inv_prob buf p offnum posting_off
              | inl acc => move_right acc
              end
            else
              do r <- lift (descend_inner cutoff acc items);
              match r with
              | inr (offnum, blkno, cutoff) =>
                  do hikey <- lift (expected_hikey p offnum);
                  do buf <- _abt_relandgetbuf pages buf blkno;
                  descent fuel None buf hikey cutoff 0 inv_prob
              | inl acc => move_right acc
              end
      end
  end.

(** ** The first page with a choice *)

(** Several entries of [p], from [minoff] to [maxoff], can match: choose by prefix sums.
    On a leaf without stored weights all entries weigh the same. *)
Definition sample_range (fuel : nat) (r : double) (buf : Buffer) (p : page) (minoff maxoff : Z) : M sample_result :=
  do items <- lift (collect_items p minoff maxoff);
  let o := pg_opaque p in
  match items with
  | [] => do_ _abt_relbuf buf; ret (mk_sr get_float8_infinity None)
  | _ :: _ =>
      let num_items := Z.of_nat (length items) in
      let prefix_sums := accumulate 0 (fst <$> items) in
      do sum <- lift (last prefix_sums);
      let uniform := ABT_P_ISLEAF o && negb (leaf_has_agg ai) in
      let inv_prob := double_of_Z (if uniform then num_items else sum) in
      do cutoff <- (if uniform then ret 0 else lift (cutoff_u64 sum r));
      do cutoff_index <- lift (if uniform then cutoff_int num_items r else cutoff_search prefix_sums cutoff);
      do idx <- lift (snd <$> items !! Z.to_nat cutoff_index);
      if ABT_P_ISLEAF o then
        done_sampling false inv_prob buf p (ABT_ITEMINDEX_GET_OFFSET idx) (ABT_ITEMINDEX_GET_POSTING_OFF idx)
      else
        let offnum := ABT_ITEMINDEX_GET_OFFSET idx in
        do t <- lift (PageGetItem p offnum);
        do blkno <- lift (ABTreeTupleGetDownLink t);
        do cutoff <- (if negb (cutoff_index =? 0)
                      then do s <- lift (prefix_sums !! Z.to_nat (cutoff_index - 1)); ret (u64 (cutoff - s))
                      else ret cutoff);
        do hikey <- lift (expected_hikey p offnum);
        do buf <- _abt_relandgetbuf pages buf blkno;
        descent fuel None buf hikey cutoff 0 inv_prob
  end.

(** Only the leaf tuple [t] can match. *)
Definition sample_leaf_tuple (fuel : nat) (r : double) (buf : Buffer) (p : page) (offnum : Z) (t : itup) : M sample_result :=
  if is_posting t then
    if leaf_has_agg ai then sample_range fuel r buf p offnum offnum
    else
      do cutoff_index <- lift (cutoff_int (nposting t) r);
      let inv_prob := double_of_Z (nposting t) in
      do xid <- lift (it_xmins t !! Z.to_nat cutoff_index);
      if hidden_xid xid then do_ _abt_relbuf buf; ret (mk_sr inv_prob None)
      else done_sampling false inv_prob buf p offnum cutoff_index
  else
    do w <- (if leaf_has_agg ai then lift (leaf_weight (LeafTup t) 0) else ret 1);
    do xid <- lift (head (it_xmins t));
    if hidden_xid xid then do_ _abt_relbuf buf; ret (mk_sr (double_of_Z w) None)
    else done_sampling false (double_of_Z w) buf p offnum 0.

(** The offsets the scan's insertion keys delimit. *)
Definition range_of (p : page) : option (Z * Z) :=
  minoff ← match so_inskey_low so with
           | Some k => _abt_binsrch rel k p
           | None => Some (ABT_P_FIRSTDATAKEY (pg_opaque p))
           end;
  maxoff ← match so_inskey_high so with
           | Some k => m ← _abt_binsrch rel k p; Some (if ABT_P_ISLEAF (pg_opaque p) then OffsetNumberPrev m else m)
           | None => Some (PageGetMaxOffsetNumber p)
           end;
  Some (minoff, maxoff).

(** From quick_descend_path on, or with [range] from descend_with_minmax on. *)
Fixpoint sample_from (fuel : nat) (r : double) (range : option (Z * Z)) (buf : Buffer) : M sample_result :=
  match fuel with
  | O => fail OutOfFuel
  | S fuel =>
      do p <- BufferGetPage pages buf;
      do (minoff, maxoff) <- lift (match range with Some mm => Some mm | None => range_of p end);
      if match range with Some _ => false | None => maxoff <? minoff end then
        do_ _abt_relbuf buf; ret (mk_sr get_float8_infinity None)
      else if minoff =? maxoff then
        do t <- lift (PageGetItem p minoff);
        match t with
        | LeafTup t => sample_leaf_tuple fuel r buf p minoff t
        | PivotTup pv =>
            do agg <- lift (read_agg pv);
            do cutoff <- lift (cutoff_u64 agg r);
            do hikey <- lift (expected_hikey p minoff);
            do buf <- _abt_relandgetbuf pages buf (pv_downlink pv);
            do buf <- _abt_moveright_to_next_live_page pages fuel buf;
            match buf with
            | None => do_ _abt_relbuf buf; ret (mk_sr get_float8_infinity None)
            | Some _ =>
                do p <- BufferGetPage pages buf;
                do prev_cmpres <- lift (compare_hikey p hikey);
                if (prev_cmpres =? 0) || ABT_P_RIGHTMOST (pg_opaque p) then sample_from fuel r None buf
                else descent fuel (Some prev_cmpres) buf hikey cutoff 0 (double_of_Z agg)
            end
        end
      else sample_range fuel r buf p minoff maxoff
  end.

(** ** Draws from a locked path *)

(** The entry of a posting list where the cutoff falls, invisible ones included, with its
    weight; the last one should it fall behind. *)
Fixpoint posting_at (cutoff i : Z) (last : option (Z * Z)) (aggs : list Z) : option (Z * Z) :=
  match aggs with
  | [] => last
  | a :: aggs =>
      let w := _abt_atomic_read_agg_ptr a in
      if cutoff <? w then Some (i, w) else posting_at (u64 (cutoff - w)) (i + 1) (Some (i, w)) aggs
  end.

Definition sample_locked_leaf (r : double) (fs : ABTFastSamplingContextData) : M sample_result :=
  let buf := fs_rootbuf fs in
  let weight := fs_sampled_item_weight fs in
  do p <- BufferGetPage pages buf;
  do t <- lift (PageGetItem p (fs_leafoff fs));
  match t with
  | PivotTup _ => fail BadItem
  | LeafTup t =>
      if is_posting t then
        do (posting_off, w) <- (if leaf_has_agg ai then
                                  do cutoff <- lift (floor_mul_u64 weight r);
                                  lift (posting_at cutoff 0 None (it_aggs t))
                                else do i <- lift (cutoff_int (nposting t) r); ret (i, 1));
        do xid <- lift (it_xmins t !! Z.to_nat posting_off);
        if hidden_xid xid then
          ret (mk_sr (if leaf_has_agg ai then ddiv (double_of_Z weight) (double_of_Z w) else double_of_Z weight) None)
        else done_sampling true (double_of_Z weight) buf p (fs_leafoff fs) posting_off
      else done_sampling true (double_of_Z weight) buf p (fs_leafoff fs) 0
  end.

Definition _abt_sample_extended (fuel : nat) (r : double) (fsctx : option ABTFastSamplingContextData) : M sample_result :=
  match fsctx with
  | Some fs =>
      if 0 <? fs_leafoff fs then sample_locked_leaf r fs
      else if so_split_partition so then sample_from fuel r (Some (fs_minoff fs, fs_maxoff fs)) (fs_rootbuf fs)
      else
        do cutoff <- lift (cutoff_u64 (fs_sampled_item_weight fs) r);
        descent fuel (Some 0) (fs_rootbuf fs) None cutoff 0 (double_of_Z (fs_sampled_item_weight fs))
  | None =>
      if negb (so_qual_ok so) then ret (mk_sr get_float8_infinity None)
      else
        do buf <- _abt_getroot meta pages fuel true;
        match buf with
        | None => ret (mk_sr get_float8_infinity None)
        | Some _ => sample_from fuel r None buf
        end
  end.

(** ** The total weight of a range *)

Definition tuple_weights (leaf : bool) (it : Z * index_tuple) : option (list Z) :=
  match snd it with
  | LeafTup t => if leaf then l ← leaf_tuple_items (fst it) t; Some (l.*1) else None
  | PivotTup pv => if leaf then None else agg ← read_agg pv; Some [agg]
  end.

Definition range_weight (p : page) (minoff maxoff : Z) : option double :=
  items ← page_items p minoff maxoff;
  ls ← mapM (tuple_weights (ABT_P_ISLEAF (pg_opaque p))) items;
  Some (foldl (fun tot w => dadd tot (double_of_Z w)) (double_of_Z 0) (mjoin ls)).

(** From quick_descend_path on; [None]: retry from the root. *)
Fixpoint weight_from (fuel : nat) (buf : Buffer) : M (option double) :=
  match fuel with
  | O => fail OutOfFuel
  | S fuel =>
      do p <- BufferGetPage pages buf;
      do (minoff, maxoff) <- lift (range_of p);
      if maxoff <? minoff then do_ _abt_relbuf buf; ret (Some (double_of_Z 0))
      else if minoff =? maxoff then
        do t <- lift (PageGetItem p minoff);
        match t with
        | LeafTup t =>
            do w <- (if is_posting t then
                       if leaf_has_agg ai then lift (range_weight p minoff maxoff) else ret (double_of_Z (nposting t))
                     else if leaf_has_agg ai then do w <- lift (leaf_weight (LeafTup t) 0); ret (double_of_Z w)
                     else ret (double_of_Z 1));
            do_ _abt_relbuf buf; ret (Some w)
        | PivotTup pv =>
            do hikey <- lift (expected_hikey p minoff);
            do buf <- _abt_relandgetbuf pages buf (pv_downlink pv);
            do buf <- _abt_moveright_to_next_live_page pages fuel buf;
            match buf with
            | None => do_ _abt_relbuf buf; ret None
            | Some _ =>
                do p <- BufferGetPage pages buf;
                do prev_cmpres <- lift (compare_hikey p hikey);
                if (prev_cmpres =? 0) || ABT_P_RIGHTMOST (pg_opaque p) then weight_from fuel buf
                else do_ _abt_relbuf buf; ret None
            end
        end
      else
        do w <- lift (range_weight p minoff maxoff);
        do_ _abt_relbuf buf; ret (Some w)
  end.

(** With the keys already preprocessed. *)
Fixpoint _abt_total_weight (fuel : nat) : M double :=
  match fuel with
  | O => fail OutOfFuel
  | S fuel =>
      if negb (so_qual_ok so) then ret (double_of_Z 0)
      else
        do buf <- _abt_getroot meta pages fuel true;
        match buf with
        | None => ret (double_of_Z 0)
        | Some _ => do w <- weight_from fuel buf; match w with Some w => ret w | None => _abt_total_weight fuel end
        end
  end.

(** ** What a draw should choose from *)

(** A visible entry of the index and its weight. *)
Record entry := mk_entry { en_blk : Z; en_off : Z; en_post : Z; en_weight : Z }.

Definition weight_of (l : list entry) : Z := sumZ (en_weight <$> l).

(** The weight of one entry, from its stored aggregate or the constant of the index. *)
Definition entry_weight (agg : option Z) : Z :=
  if leaf_has_agg ai then _abt_atomic_read_agg_ptr (default 0 agg) else u64 agg_map_val.

Fixpoint posting_entries (blk off i : Z) (xmins aggs : list Z) : list entry :=
  match xmins with
  | [] => []
  | xid :: xmins =>
      let rest := posting_entries blk off (i + 1) xmins (tail aggs) in
      if hidden_xid xid then rest else mk_entry blk off i (entry_weight (head aggs)) :: rest
  end.

Definition tuple_entries (blk off : Z) (t : itup) : list entry :=
  posting_entries blk off 0 (if is_posting t then it_xmins t else take 1 (it_xmins t)) (it_aggs t).

Definition items_entries (blk : Z) (f : Z -> list entry) (items : list (Z * index_tuple)) : list entry :=
  items ≫= fun it => match snd it with LeafTup t => tuple_entries blk (fst it) t | PivotTup pv => f (pv_downlink pv) end.

Definition data_items (p : page) : list (Z * index_tuple) :=
  default [] (page_items p (ABT_P_FIRSTDATAKEY (pg_opaque p)) (PageGetMaxOffsetNumber p)).

(** The visible entries below a page of level [k], from left to right. *)
Fixpoint subtree (k : nat) (blk : Z) : list entry :=
  match pages blk with
  | None => []
  | Some p => items_entries blk (match k with O => fun _ => [] | S k => subtree k end) (data_items p)
  end.

(** A draw from the entries of one leaf page counts them when no weights are stored. *)
Definition leaf_entry (e : entry) : entry :=
  mk_entry (en_blk e) (en_off e) (en_post e) (if leaf_has_agg ai then en_weight e else 1).

Definition is_plain (it : Z * index_tuple) : bool := match snd it with LeafTup t => negb (is_posting t) | PivotTup _ => false end.

(** The entries a draw from the leaf tuples [items] chooses from: the visible ones of
    tuples that are not posting lists, or all entries of a single posting list without
    stored weights, hidden ones included.  [None]: the code does not choose by weight,
    because the item index has no posting offset ([itemindex_loses_posting_off]), or
    because all weights are zero. *)
Definition leaf_candidates (blk : Z) (items : list (Z * index_tuple)) : option (list entry) :=
  if forallb is_plain items then
    let l := leaf_entry <$> items_entries blk (fun _ => []) items in
    match l with [] => Some l | _ :: _ => if weight_of l =? 0 then None else Some l end
  else
    match items with
    | [(off, LeafTup t)] =>
        if leaf_has_agg ai then None
        else Some ((fun i => mk_entry blk off (Z.of_nat i) 1) <$> seq 0 (length (it_tids t)))
    | _ => None
    end.

(** The entries a draw from the page chooses from: those below the children the scan's
    keys delimit, on the first level where they are several, or on the leaf page if there
    is no such level. *)
Fixpoint candidates (k : nat) (blk : Z) : option (list entry) :=
  p ← pages blk;
  '(lo, hi) ← range_of p;
  if hi <? lo then Some []
  else
    match k with
    | O => items ← page_items p lo hi; leaf_candidates blk items
    | S k =>
        if lo =? hi then
          t ← PageGetItem p lo;
          match t with PivotTup pv => candidates k (pv_downlink pv) | LeafTup _ => None end
        else items ← page_items p lo hi; Some (items_entries blk (subtree k) items)
    end.

(** *** Choosing by weight *)

Fixpoint pick (cutoff : Z) (l : list entry) : option entry :=
  match l with
  | [] => None
  | e :: l => if cutoff <? en_weight e then Some e else pick (cutoff - en_weight e) l
  end.

Lemma weight_of_nil : weight_of [] = 0.
Proof. done. Qed.

Lemma weight_of_cons e l : weight_of (e :: l) = en_weight e + weight_of l.
Proof. done. Qed.

Lemma weight_of_app l k : weight_of (l ++ k) = weight_of l + weight_of k.
Proof. unfold weight_of. rewrite fmap_app. apply sumZ_app. Qed.

Lemma pick_app c l k : pick c (l ++ k) = match pick c l with Some e => Some e | None => pick (c - weight_of l) k end.
Proof.
  revert c. induction l as [|e l IH]; intros c; cbn [app pick]; [rewrite weight_of_nil; f_equal; lia|].
  case_match; [done|]. rewrite IH, weight_of_cons. case_match; [done|]. f_equal. lia.
Qed.

Lemma entry_weight_nonneg agg : 0 <= entry_weight agg < 2 ^ 64.
Proof.
  unfold entry_weight, _abt_atomic_read_agg_ptr, u64, u32, u16.
  repeat case_match; match goal with |- 0 <= ?x mod ?m < _ => pose proof (Z.mod_pos_bound x m ltac:(lia)) end; lia.
Qed.

Definition nonneg (l : list entry) : Prop := Forall (fun e => 0 <= en_weight e) l.

Lemma nonneg_weight l : nonneg l -> 0 <= weight_of l.
Proof. induction 1 as [|x l Hx _ IH]; [done|]. rewrite weight_of_cons. lia. Qed.

Lemma pick_none c l : nonneg l -> 0 <= c -> weight_of l <= c <-> pick c l = None.
Proof.
  intros Hl. revert c. induction Hl as [|e l He Hl IH]; intros c Hc; [done|]. rewrite weight_of_cons. cbn [pick].
  pose proof (nonneg_weight l Hl). destruct (Z.ltb_spec c (en_weight e)).
  - split; [lia|done].
  - rewrite <- IH by lia. lia.
Qed.

(** The entry chosen is the one whose share of [0, total) the cutoff falls into. *)
Lemma pick_share c l e : nonneg l -> 0 <= c -> pick c l = Some e ->
  exists l1 l2, l = l1 ++ e :: l2 /\ weight_of l1 <= c < weight_of l1 + en_weight e.
Proof.
  intros Hl. revert c. induction Hl as [|x l Hx Hl IH]; intros c Hc; cbn [pick]; [done|].
  destruct (Z.ltb_spec c (en_weight x)).
  - intros [= <-]. exists [], l. rewrite weight_of_nil. split; [done|lia].
  - intros Hp. destruct (IH (c - en_weight x) ltac:(lia) Hp) as (l1 & l2 & -> & Hr). exists (x :: l1), l2.
    rewrite weight_of_cons. split; [done|lia].
Qed.

Lemma posting_entries_nonneg blk off i xmins aggs : nonneg (posting_entries blk off i xmins aggs).
Proof.
  unfold nonneg. revert i aggs. induction xmins as [|x xmins IH]; intros i aggs; simpl; [constructor|].
  case_match; [apply IH|]. constructor; [apply entry_weight_nonneg|apply IH].
Qed.

Lemma items_entries_nonneg blk f items : (forall b, nonneg (f b)) -> nonneg (items_entries blk f items).
Proof.
  intros Hf. unfold nonneg, items_entries. apply Forall_bind, Forall_forall. intros [off [t|pv]] _; simpl; [|apply Hf].
  apply posting_entries_nonneg.
Qed.

Lemma subtree_nonneg k blk : nonneg (subtree k blk).
Proof.
  revert blk. induction k as [|k IH]; intros blk; simpl; (destruct (pages blk); [|constructor]);
    apply items_entries_nonneg; [constructor|done].
Qed.

(** *** Counting off a leaf *)

(** A leaf tuple has an xmin, and with stored weights an aggregate, per entry; the code
    finds the weights of a posting list only if no entry of it is hidden. *)
Record tuple_fit (t : itup) : Prop := {
  tf_xmins : it_xmins t <> [];
  tf_tids : length (it_tids t) = length (it_xmins t);
  tf_count : nposting t < 2 ^ 16;
  tf_aggs : leaf_has_agg ai = true -> length (it_aggs t) = length (it_xmins t);
  tf_visible : leaf_has_agg ai = true -> is_posting t = true -> Forall (fun x => hidden_xid x = false) (it_xmins t)
}.

Lemma posting_entries_at blk off i xmins aggs : Forall (fun e => en_blk e = blk /\ en_off e = off) (posting_entries blk off i xmins aggs).
Proof.
  revert i aggs. induction xmins as [|x xmins IH]; intros i aggs; simpl; [constructor|].
  case_match; [apply IH|]. constructor; [done|apply IH].
Qed.

Lemma posting_entries_const blk off i xmins l k : leaf_has_agg ai = false ->
  posting_entries blk off i xmins l = posting_entries blk off i xmins k.
Proof.
  intros Ea. revert i l k. induction xmins as [|x xmins IH]; intros i l k; [done|]. simpl.
  unfold entry_weight. rewrite Ea. by rewrite (IH (i + 1) (tail l) (tail k)).
Qed.

Lemma descend_posting_spec blk off cutoff acc i xmins aggs :
  (leaf_has_agg ai = true -> length aggs = length xmins /\ Forall (fun x => hidden_xid x = false) xmins) ->
  0 <= acc <= cutoff -> acc + weight_of (posting_entries blk off i xmins aggs) < 2 ^ 64 ->
  descend_posting cutoff acc i xmins aggs =
  Some (match pick (cutoff - acc) (posting_entries blk off i xmins aggs) with
        | Some e => inr (en_post e)
        | None => inl (acc + weight_of (posting_entries blk off i xmins aggs))
        end).
Proof.
  revert acc i aggs. induction xmins as [|x xmins IH]; intros acc i aggs Hag Hacc Hsum; cbn [descend_posting posting_entries] in *.
  { cbn [pick]. rewrite weight_of_nil, Z.add_0_r. done. }
  destruct (hidden_xid x) eqn:Eh.
  { destruct (leaf_has_agg ai) eqn:Ea.
    - destruct (Hag eq_refl) as [_ Hv]. inversion Hv. congruence.
    - rewrite (posting_entries_const _ _ _ _ (tail aggs) aggs Ea) in *. by apply IH. }
  assert (Hstep : exists agg aggs', (if leaf_has_agg ai then match aggs with [] => None | w :: aggs => Some (_abt_atomic_read_agg_ptr w, aggs) end
      else Some (u64 agg_map_val, aggs)) = Some (agg, aggs') /\ agg = entry_weight (head aggs) /\
      posting_entries blk off (i + 1) xmins (tail aggs) = posting_entries blk off (i + 1) xmins aggs' /\
      (leaf_has_agg ai = true -> length aggs' = length xmins /\ Forall (fun x => hidden_xid x = false) xmins)).
  { unfold entry_weight. destruct (leaf_has_agg ai) eqn:Ea.
    - destruct (Hag eq_refl) as [Hl Hv]. destruct aggs as [|w aggs]; [done|]. inversion Hv; subst. eexists _, _. split_and!; try done.
      intros _. split; [simpl in Hl; lia|done].
    - eexists _, _. split_and!; try done. by apply posting_entries_const. }
  destruct Hstep as (agg & aggs' & -> & -> & Heq & Hag'). cbn [mbind option_bind]. rewrite Heq in *.
  rewrite weight_of_cons in Hsum |- *. cbn [pick en_weight en_post]. cbn [en_weight] in Hsum.
  pose proof (entry_weight_nonneg (head aggs)). pose proof (nonneg_weight _ (posting_entries_nonneg blk off (i + 1) xmins aggs')).
  rewrite u64_small by lia.
  replace (cutoff <? acc + entry_weight (head aggs)) with (cutoff - acc <? entry_weight (head aggs))
    by (apply Bool.eq_iff_eq_true; rewrite !Z.ltb_lt; lia).
  destruct (Z.ltb_spec (cutoff - acc) (entry_weight (head aggs))); [done|].
  rewrite IH by (done || lia). rewrite Z.sub_add_distr, Z.add_assoc. done.
Qed.

Lemma descend_leaf_tuple_spec blk off cutoff acc t : tuple_fit t -> 0 <= acc <= cutoff ->
  acc + weight_of (tuple_entries blk off t) < 2 ^ 64 ->
  descend_leaf_tuple cutoff acc t =
  Some (match pick (cutoff - acc) (tuple_entries blk off t) with
        | Some e => inr (en_post e)
        | None => inl (acc + weight_of (tuple_entries blk off t))
        end).
Proof.
  intros [Hx _ _ Ha Hv] Hacc. unfold descend_leaf_tuple, tuple_entries. destruct (is_posting t) eqn:Ep.
  - intros Hsum. apply descend_posting_spec; auto.
  - destruct (it_xmins t) as [|x xmins]; [done|]. change (take 1 (x :: xmins)) with [x]. cbn [posting_entries head mbind option_bind].
    destruct (hidden_xid x); [rewrite weight_of_nil, Z.add_0_r; done|]. rewrite weight_of_cons, weight_of_nil. cbn [en_weight pick en_post].
    assert (Hr : (if leaf_has_agg ai then _abt_atomic_read_agg_ptr <$> head (it_aggs t) else Some (u64 agg_map_val)) =
      Some (entry_weight (head (it_aggs t)))).
    { unfold entry_weight. destruct (leaf_has_agg ai) eqn:Ea; [|done]. specialize (Ha eq_refl).
      by destruct (it_aggs t) as [|w aggs]. }
    rewrite Hr. cbn [mbind option_bind]. set (w := entry_weight _). pose proof (entry_weight_nonneg (head (it_aggs t))) as Hw.
    fold w in Hw. intros Hsum. rewrite u64_small by lia.
    replace (cutoff <? acc + w) with (cutoff - acc <? w) by (apply Bool.eq_iff_eq_true; rewrite !Z.ltb_lt; lia).
    destruct (cutoff - acc <? w); [done|]. do 2 f_equal. lia.
Qed.

(** Leaf items whose tuples all fit. *)
Definition leaf_fit (it : Z * index_tuple) : Prop := match snd it with LeafTup t => tuple_fit t | PivotTup _ => False end.

Lemma items_entries_cons blk f it items :
  items_entries blk f (it :: items) =
  (match snd it with LeafTup t => tuple_entries blk (fst it) t | PivotTup pv => f (pv_downlink pv) end) ++ items_entries blk f items.
Proof. done. Qed.

Lemma pick_elem c l e : pick c l = Some e -> e ∈ l.
Proof.
  revert c. induction l as [|x l IH]; intros c; cbn [pick]; [done|].
  case_match; [intros [= <-]; by left|]. intros Hp. right. by eapply IH.
Qed.

Lemma descend_leaf_spec blk f cutoff acc items : Forall leaf_fit items -> 0 <= acc <= cutoff ->
  acc + weight_of (items_entries blk f items) < 2 ^ 64 ->
  descend_leaf cutoff acc items =
  Some (match pick (cutoff - acc) (items_entries blk f items) with
        | Some e => inr (en_off e, en_post e)
        | None => inl (acc + weight_of (items_entries blk f items))
        end).
Proof.
  intros Hfit. revert acc. induction Hfit as [|[off [t|pv]] items Hf Hfit IH]; intros acc Hacc Hsum; [|rewrite items_entries_cons in *|done].
  { change (items_entries blk f []) with (@nil entry). rewrite weight_of_nil, Z.add_0_r. done. }
  cbn [fst snd descend_leaf] in *. rewrite weight_of_app in *.
  pose proof (nonneg_weight _ (posting_entries_nonneg blk off 0 (if is_posting t then it_xmins t else take 1 (it_xmins t)) (it_aggs t))) as Hn1.
  fold (tuple_entries blk off t) in Hn1.
  assert (Hn2 : 0 <= weight_of (items_entries blk f items)).
  { clear - Hfit. induction Hfit as [|[off [t|pv]] items Hf Hfit IH]; [done| |done]. rewrite items_entries_cons, weight_of_app.
    cbn [fst snd]. pose proof (nonneg_weight _ (posting_entries_nonneg blk off 0 (if is_posting t then it_xmins t else take 1 (it_xmins t)) (it_aggs t))).
    unfold tuple_entries. lia. }
  rewrite (descend_leaf_tuple_spec blk off) by (done || lia). cbn [mbind option_bind]. rewrite pick_app.
  destruct (pick (cutoff - acc) (tuple_entries blk off t)) as [e|] eqn:Ep.
  - do 2 f_equal. apply pick_elem in Ep. pose proof (posting_entries_at blk off 0 (if is_posting t then it_xmins t else take 1 (it_xmins t)) (it_aggs t)) as Hat.
    rewrite Forall_forall in Hat. by destruct (Hat e Ep) as [_ ->].
  - apply pick_none in Ep; [|apply posting_entries_nonneg|lia]. rewrite IH by lia. rewrite Z.sub_add_distr, Z.add_assoc. done.
Qed.

(** *** Counting off an internal page *)

(** The aggregate read from a pivot is the weight below it. *)
Definition agg_exact (k : nat) (it : Z * index_tuple) : Prop :=
  match snd it with PivotTup pv => read_agg pv = Some (weight_of (subtree k (pv_downlink pv))) | LeafTup _ => False end.

Lemma descend_inner_spec k blk cutoff acc items : Forall (agg_exact k) items -> 0 <= acc <= cutoff ->
  acc + weight_of (items_entries blk (subtree k) items) < 2 ^ 64 ->
  if cutoff - acc <? weight_of (items_entries blk (subtree k) items) then
    exists off pv c, (off, PivotTup pv) ∈ items /\ descend_inner cutoff acc items = Some (inr (off, pv_downlink pv, c)) /\
      0 <= c < weight_of (subtree k (pv_downlink pv)) /\
      pick (cutoff - acc) (items_entries blk (subtree k) items) = pick c (subtree k (pv_downlink pv))
  else descend_inner cutoff acc items = Some (inl (acc + weight_of (items_entries blk (subtree k) items))).
Proof.
  intros Hex. revert acc. induction Hex as [|[off [t|pv]] items He Hex IH]; intros acc Hacc Hsum; [|done|rewrite items_entries_cons in *].
  { change (items_entries blk (subtree k) []) with (@nil entry). rewrite weight_of_nil, Z.add_0_r.
    by rewrite (proj2 (Z.ltb_ge _ _)) by lia. }
  cbn [fst snd descend_inner agg_exact] in *. unfold agg_exact in He. cbn [snd] in He. rewrite He. cbn [mbind option_bind].
  rewrite weight_of_app in *. set (w := weight_of (subtree k (pv_downlink pv))) in *.
  pose proof (nonneg_weight _ (subtree_nonneg k (pv_downlink pv))) as Hw. fold w in Hw.
  assert (Hn2 : 0 <= weight_of (items_entries blk (subtree k) items)).
  { apply nonneg_weight, items_entries_nonneg. intros b. apply subtree_nonneg. }
  rewrite (u64_small (acc + w)) by lia. rewrite pick_app. destruct (Z.ltb_spec cutoff (acc + w)).
  - rewrite (proj2 (Z.ltb_lt _ _)) by lia. eexists _, _, _. split; [by left|]. split; [reflexivity|].
    replace (u64 (acc + w - w)) with acc by (rewrite u64_small; lia). rewrite u64_small by lia. split; [lia|].
    destruct (pick (cutoff - acc) (subtree k (pv_downlink pv))) eqn:Ep; [done|].
    apply pick_none in Ep; [|apply subtree_nonneg|lia]. fold w in Ep. lia.
  - assert (Hp : pick (cutoff - acc) (subtree k (pv_downlink pv)) = None) by (apply pick_none; [apply subtree_nonneg|lia|fold w; lia]).
    rewrite Hp. specialize (IH (acc + w) ltac:(lia) ltac:(lia)). rewrite Z.sub_add_distr in IH. fold w.
    replace (cutoff - acc <? w + weight_of (items_entries blk (subtree k) items)) with
      (cutoff - acc - w <? weight_of (items_entries blk (subtree k) items)) by (apply Bool.eq_iff_eq_true; rewrite !Z.ltb_lt; lia).
    case_match; [|by rewrite Z.add_assoc]. destruct IH as (off' & pv' & c & Hin & ? & ? & ?). exists off', pv', c. split; [by right|done].
Qed.

(** *** The child has the high key its parent expects *)

Lemma keycmp_refl cols k rest : Forall (fun c => BtreeOrder (col_cmp c)) cols -> (length k <= length cols)%nat ->
  keycmp (length k) cols (k ++ rest) k = 0.
Proof.
  intros Hc. revert k. induction Hc as [|c cols Hco Hc IH]; intros [|x k] Hl; try done; simpl in Hl; try lia.
  simpl. pose proof (col_compare_sym c x x). replace (col_compare c x x =? 0) with true by (symmetry; apply Z.eqb_eq; lia).
  apply IH. lia.
Qed.

Lemma mkscankey_pivot pv : tuple_ok rel (PivotTup pv) ->
  mapM (fun i => if Z.of_nat i <? Z.of_nat (length (pv_key pv)) then t ← Some (PivotTup pv); index_getattr t (Z.of_nat i + 1) else Some None)
    (seq 0 (length (rd_cols rel))) = Some (pv_key pv ++ replicate (length (rd_cols rel) - length (pv_key pv)) None).
Proof.
  intros [Hl _]. apply mapM_Some. apply Forall2_same_length_lookup. split.
  { rewrite length_seq, length_app, length_replicate. lia. }
  intros i j y Hi Hy. apply lookup_seq in Hi as [-> Hi]. simpl (0 + i)%nat.
  destruct (Z.ltb_spec (Z.of_nat i) (Z.of_nat (length (pv_key pv)))).
  - rewrite lookup_app_l in Hy by lia. cbn [mbind option_bind]. unfold index_getattr. cbn [tuple_key].
    by replace (Z.to_nat (Z.of_nat i + 1 - 1)) with i by lia.
  - rewrite lookup_app_r in Hy by lia. apply lookup_replicate in Hy as [-> _]. done.
Qed.

(** What a page's high key must be, given the one its parent has for it. *)
Definition hikey_matches (p : page) (hk : option index_tuple) : Prop :=
  match hk with
  | None => ABT_P_RIGHTMOST (pg_opaque p) = true
  | Some t => ABT_P_RIGHTMOST (pg_opaque p) = false /\ tuple_ok rel t /\
      exists t', PageGetItem p ABTP_HIKEY = Some t' /\ same_fence t t'
  end.

Lemma compare_hikey_same p hk : rel_ok rel -> hikey_matches p hk -> compare_hikey p hk = Some 0.
Proof.
  intros Hrel. unfold hikey_matches, compare_hikey. destruct hk as [t|]; [|by intros ->].
  intros (Hr & Hok & t' & Ht' & Hsame). rewrite Hr. destruct t as [|pv], t' as [|pv']; try done. destruct Hsame as [Hk Htid].
  unfold inskey_hikey, _abt_mkscankey_extended. cbn [ABTreeTupleGetNAtts]. rewrite (mkscankey_pivot pv Hok). cbn [mbind option_bind].
  unfold _abt_compare. unfold ABT_P_FIRSTDATAKEY. rewrite Hr, andb_false_r, Ht'. cbn [mbind option_bind].
  set (args := pv_key pv ++ _). cbn [heapkeyspace allequalimage anynullkeys nextkey pivotsearch scantid keysz scankeys].
  assert (Hok' : tuple_ok rel (PivotTup pv')) by (destruct Hok; split; simpl; rewrite <- ?Hk, <- ?Htid; done).
  destruct Hok as [Hl Htk]. unfold indnkeyatts. rewrite Z.min_r by lia.
  rewrite (compare_tuple_eq rel _ args); [|done| |done].
  - cbn [keysz tuple_key]. rewrite Nat2Z.id, <- Hk. unfold args. rewrite keycmp_refl by (done || apply Hrel). cbn [Z.eqb].
    unfold tie. cbn [scantid pivotsearch heapkeyspace ABTreeTupleGetHeapTID ABTreeTupleGetMaxHeapTID mbind option_bind].
    rewrite <- Htid. destruct (heapkeyspace (so_inskey_pivot so)); simpl; [|by destruct (pv_tid pv)].
    destruct (pv_tid pv) as [st|]; [|done]. pose proof (ItemPointerCompare_sym st st). replace (ItemPointerCompare st st) with 0 by lia. done.
  - split; cbn [scankeys keysz scantid].
    + done.
    + unfold args. rewrite length_app. lia.
    + unfold args. rewrite length_app, length_replicate. lia.
    + intros Hs. unfold indnkeyatts. rewrite Htk; [lia|]. revert Hs. destruct (heapkeyspace _); simpl; done.
Qed.

(** ** Trees whose aggregates are exact *)

(** The page [blk] of level [k] is live and has the high key [hk]; its leaf tuples fit,
    every pivot satisfies [A] and leads to such a page. *)
Fixpoint tree_shape (A : nat -> Z * index_tuple -> Prop) (k : nat) (blk : Z) (hk : option index_tuple) : Prop :=
  exists p items, pages blk = Some p /\ ABT_P_IGNORE (pg_opaque p) = false /\ ABT_P_ISLEAF (pg_opaque p) = (k =? 0)%nat /\
    hikey_matches p hk /\ page_ok rel p /\
    page_items p (ABT_P_FIRSTDATAKEY (pg_opaque p)) (PageGetMaxOffsetNumber p) = Some items /\
    match k with
    | O => Forall leaf_fit items
    | S k => Forall (A k) items /\
        (forall off pv, (off, PivotTup pv) ∈ items -> exists hk', expected_hikey p off = Some hk' /\ tree_shape A k (pv_downlink pv) hk')
    end.

Definition sub_ok : nat -> Z -> option index_tuple -> Prop := tree_shape agg_exact.

Lemma tree_shape_mono (A B : nat -> Z * index_tuple -> Prop) k blk hk :
  (forall k it, A k it -> B k it) -> tree_shape A k blk hk -> tree_shape B k blk hk.
Proof.
  intros Hab. revert blk hk. induction k as [|k IH]; intros blk hk (p & items & Hp & Hl & Hlf & Hh & Hok & Hi & Hrest);
    exists p, items; split_and!; try done.
  - eapply Forall_impl; [apply Hrest|]. intros it. apply Hab.
  - intros off pv Hin. destruct (proj2 Hrest off pv Hin) as (hk' & He & Ht). eauto.
Qed.

Lemma subtree_items k blk p items : pages blk = Some p ->
  page_items p (ABT_P_FIRSTDATAKEY (pg_opaque p)) (PageGetMaxOffsetNumber p) = Some items ->
  subtree k blk = items_entries blk (match k with O => fun _ => [] | S k => subtree k end) items.
Proof. intros Hp Hi. destruct k; simpl; rewrite Hp; unfold data_items; by rewrite Hi. Qed.

Lemma live_page_run fuel blk p h c : pages blk = Some p -> ABT_P_IGNORE (pg_opaque p) = false -> (0 < fuel)%nat ->
  _abt_moveright_to_next_live_page pages fuel (Some blk) (mk_bs (blk :: h) c) = Ok (Some blk) (mk_bs (blk :: h) c).
Proof.
  intros Hp Hl Hf. destruct fuel as [|fuel]; [lia|]. cbn [_abt_moveright_to_next_live_page]. run_step. by rewrite Hl.
Qed.

Lemma child_weight_le k blk items off pv : (off, PivotTup pv) ∈ items ->
  weight_of (subtree k (pv_downlink pv)) <= weight_of (items_entries blk (subtree k) items).
Proof.
  induction items as [|it items IH]; [by intros ?%elem_of_nil|]. rewrite items_entries_cons, weight_of_app.
  assert (0 <= weight_of (items_entries blk (subtree k) items)) by (apply nonneg_weight, items_entries_nonneg; intros; apply subtree_nonneg).
  intros [<-|Hin]%elem_of_cons; cbn [snd]; [lia|]. specialize (IH Hin). destruct it as [o [t|pv']]; cbn [fst snd].
  - pose proof (nonneg_weight _ (posting_entries_nonneg blk o 0 (if is_posting t then it_xmins t else take 1 (it_xmins t)) (it_aggs t))).
    unfold tuple_entries. lia.
  - pose proof (nonneg_weight _ (subtree_nonneg k (pv_downlink pv'))). lia.
Qed.

(** Descent from a page ends at the entry the cutoff chooses below it. *)
Lemma descent_run k blk hk cutoff fuel : rel_ok rel -> sub_ok k blk hk -> (S k < fuel)%nat ->
  0 <= cutoff < weight_of (subtree k blk) -> weight_of (subtree k blk) < 2 ^ 64 ->
  exists e p, pick cutoff (subtree k blk) = Some e /\ pages (en_blk e) = Some p /\
    forall inv_prob h c, descent fuel None (Some blk) hk cutoff 0 inv_prob (mk_bs (blk :: h) c) =
      done_sampling false inv_prob (Some (en_blk e)) p (en_off e) (en_post e) (mk_bs (en_blk e :: h) c).
Proof.
  intros Hrel. revert blk hk cutoff fuel. induction k as [|k IH]; intros blk hk cutoff fuel Hsub Hfuel Hcut Hw;
    destruct Hsub as (p & items & Hp & Hlive & Hleaf & Hhk & Hmax & Hitems & Hrest);
    rewrite (subtree_items _ _ _ _ Hp Hitems) in *; (destruct fuel as [|fuel]; [lia|]).
  - destruct (pick cutoff (items_entries blk (fun _ => []) items)) as [e|] eqn:Ee.
    2: { apply pick_none in Ee; [lia|apply items_entries_nonneg; constructor|lia]. }
    assert (Hblk : en_blk e = blk).
    { apply pick_elem in Ee. unfold items_entries in Ee. apply list_elem_of_bind in Ee as ([off [t|pv]] & He & _); [|by apply elem_of_nil in He].
      pose proof (posting_entries_at blk off 0 (if is_posting t then it_xmins t else take 1 (it_xmins t)) (it_aggs t)) as Hat.
      rewrite Forall_forall in Hat. by destruct (Hat e He). }
    exists e, p. split; [done|]. rewrite Hblk. split; [done|]. intros inv_prob h c. cbn [descent].
    rewrite (bind_ok _ _ _ _ _ (live_page_run fuel blk p h c Hp Hlive ltac:(lia))). run_step.
    rewrite (compare_hikey_same p hk Hrel Hhk). rewrite (bind_ok _ _ _ 0 (mk_bs (blk :: h) c)) by done.
    cbn [Z.ltb Z.compare]. rewrite (bind_ok _ _ _ items (mk_bs (blk :: h) c)) by (by rewrite Hitems). rewrite Hleaf. cbn [Nat.eqb].
    rewrite (descend_leaf_spec blk (fun _ => [])) by (done || lia). rewrite Z.sub_0_r, Ee.
    by rewrite (bind_ok _ _ _ (inr (en_off e, en_post e)) (mk_bs (blk :: h) c)) by done.
  - destruct Hrest as [Hex Hkids]. pose proof (descend_inner_spec k blk cutoff 0 items Hex ltac:(lia) ltac:(lia)) as Hd.
    rewrite Z.sub_0_r, (proj2 (Z.ltb_lt _ _)) in Hd by lia. destruct Hd as (off & pv & c' & Hin & Hd & Hc' & Hpick).
    destruct (Hkids off pv Hin) as (hk' & Hhk' & Hsub').
    pose proof (child_weight_le k blk items off pv Hin) as Hle.
    destruct (IH (pv_downlink pv) hk' c' fuel Hsub' ltac:(lia) Hc' ltac:(lia)) as (e & p' & He & Hp' & Hrun).
    exists e, p'. rewrite Hpick. split; [done|]. split; [done|]. intros inv_prob h c. cbn [descent].
    rewrite (bind_ok _ _ _ _ _ (live_page_run fuel blk p h c Hp Hlive ltac:(lia))). run_step.
    rewrite (compare_hikey_same p hk Hrel Hhk). rewrite (bind_ok _ _ _ 0 (mk_bs (blk :: h) c)) by done.
    cbn [Z.ltb Z.compare]. rewrite (bind_ok _ _ _ items (mk_bs (blk :: h) c)) by (by rewrite Hitems). rewrite Hleaf. cbn [Nat.eqb].
    rewrite Hd. rewrite (bind_ok _ _ _ (inr (off, pv_downlink pv, c')) (mk_bs (blk :: h) c)) by done. cbv beta iota.
    rewrite (bind_ok _ _ _ hk' (mk_bs (blk :: h) c)) by (by rewrite Hhk').
    assert (exists p1, pages (pv_downlink pv) = Some p1) as [p1 Hp1] by (destruct k; destruct Hsub' as (p1 & ? & ? & _); eauto).
    rewrite (bind_ok _ _ _ _ _ (relandgetbuf_run pages blk (pv_downlink pv) p1 h c Hp1)). apply Hrun.
Qed.

(** ** The first page with a choice *)

Lemma elem_of_page_items p lo hi items off t : page_items p lo hi = Some items ->
  (off, t) ∈ items <-> lo <= off <= hi /\ PageGetItem p off = Some t.
Proof.
  unfold page_items. intros Hm%mapM_Some. split.
  - intros Hin. apply list_elem_of_lookup_1 in Hin as [i Hi].
    destruct (Forall2_lookup_r _ _ _ _ _ Hm Hi) as (off' & Ho & Hf). apply lookup_seqZ in Ho as [-> Hlt].
    destruct (PageGetItem p (lo + Z.of_nat i)) as [t'|] eqn:Et; [|done]. simpl in Hf. injection Hf as <- <-. split; [lia|done].
  - intros [Hr Ht]. assert (Hs : seqZ lo (hi - lo + 1) !! Z.to_nat (off - lo) = Some off) by (apply lookup_seqZ; lia).
    destruct (Forall2_lookup_l _ _ _ _ _ Hm Hs) as (y & Hy & Hf). rewrite Ht in Hf. simpl in Hf. injection Hf as <-.
    by eapply list_elem_of_lookup_2.
Qed.

Lemma page_items_sub p lo hi items lo' hi' : page_items p lo hi = Some items -> lo <= lo' -> hi' <= hi ->
  exists items', page_items p lo' hi' = Some items' /\ (forall it, it ∈ items' -> it ∈ items).
Proof.
  intros Hp Hlo Hhi. assert (exists items', page_items p lo' hi' = Some items') as [items' Hi'].
  { unfold page_items. apply mapM_is_Some_2, Forall_forall. intros off Ho%elem_of_seqZ.
    assert (exists t, PageGetItem p off = Some t) as [t Ht]; [|unfold compose; rewrite Ht; by eexists].
    unfold page_items in Hp. apply mapM_Some in Hp.
    assert (Hs : seqZ lo (hi - lo + 1) !! Z.to_nat (off - lo) = Some off).
    { apply lookup_seqZ. lia. }
    destruct (Forall2_lookup_l _ _ _ _ _ Hp Hs) as (y & _ & Hf). destruct (PageGetItem p off); [eauto|done]. }
  exists items'. split; [done|]. intros [off t] Hin. apply (elem_of_page_items p lo' hi' items') in Hin as [? ?]; [|done].
  apply (elem_of_page_items p lo hi items); [done|]. split; [lia|done].
Qed.

(** The weights and item indexes collected from an internal page. *)
Definition child_items (k : nat) (it : Z * index_tuple) : list (Z * Z) :=
  match snd it with
  | PivotTup pv =>
      let w := weight_of (subtree k (pv_downlink pv)) in if w =? 0 then [] else [(w, ABT_OFFSET_GET_ITEMINDEX (fst it))]
  | LeafTup _ => []
  end.

Lemma collect_inner k p lo hi items : ABT_P_ISLEAF (pg_opaque p) = false -> page_items p lo hi = Some items ->
  Forall (agg_exact k) items -> collect_items p lo hi = Some (items ≫= child_items k).
Proof.
  intros Hl Hi Hex. unfold collect_items. rewrite Hi, Hl. cbn [mbind option_bind].
  assert (mapM (tuple_items false) items = Some (child_items k <$> items)) as ->.
  { clear Hi. induction Hex as [|[off [t|pv]] items He Hex IH]; [done|done|]. unfold agg_exact in He. cbn [snd] in He.
    assert (Ht : tuple_items false (off, PivotTup pv) = Some (child_items k (off, PivotTup pv))).
    { unfold tuple_items. rewrite He. done. }
    rewrite fmap_cons. cbn [mapM]. rewrite Ht. cbn [mbind option_bind]. by rewrite IH. }
  cbn [mbind option_bind]. f_equal. clear. induction items as [|it items IH]; [done|]. rewrite fmap_cons, bind_cons. simpl. by rewrite <- IH.
Qed.

Lemma weights_total k blk items : Forall (agg_exact k) items ->
  sumZ (fst <$> (items ≫= child_items k)) = weight_of (items_entries blk (subtree k) items).
Proof.
  induction 1 as [|[off [t|pv]] items He Hex IH]; [done|done|]. rewrite items_entries_cons, weight_of_app, bind_cons, fmap_app, sumZ_app, IH.
  f_equal. unfold child_items. cbn [fst snd]. destruct (Z.eqb_spec (weight_of (subtree k (pv_downlink pv))) 0) as [->|]; simpl; lia.
Qed.

Lemma child_weights_nonneg k items : Forall (fun w => 0 <= w) (fst <$> (items ≫= child_items k)).
Proof.
  apply Forall_fmap, Forall_bind, Forall_forall. intros [off [t|pv]] _; [constructor|].
  change (Forall (fun x => 0 <= fst x) (child_items k (off, PivotTup pv))). unfold child_items. cbn [snd fst].
  pose proof (nonneg_weight _ (subtree_nonneg k (pv_downlink pv))). destruct (_ =? 0); repeat constructor. done.
Qed.

Lemma sumZ_take_le ws i : Forall (fun w => 0 <= w) ws -> sumZ (take i ws) <= sumZ ws.
Proof.
  intros Hw. rewrite <- (take_drop i ws) at 2. rewrite sumZ_app. assert (0 <= sumZ (drop i ws)); [|lia].
  apply (Forall_drop _ i) in Hw. induction Hw; simpl in *; lia.
Qed.

Lemma accumulate_lookup acc ws i : Forall (fun w => 0 <= w) ws -> 0 <= acc -> acc + sumZ ws < 2 ^ 64 -> (i < length ws)%nat ->
  accumulate acc ws !! i = Some (acc + sumZ (take (S i) ws)).
Proof.
  intros Hw. revert acc i. induction Hw as [|w ws Hw0 Hw IH]; intros acc i Ha Hs Hi; [simpl in Hi; lia|].
  simpl in Hs, Hi. pose proof (sumZ_take_le ws 0 Hw) as Hn. simpl in Hn.
  cbn [accumulate]. rewrite u64_small by lia. destruct i as [|i]; [simpl; f_equal; lia|]. cbn [lookup list_lookup].
  rewrite IH by lia. simpl. f_equal. lia.
Qed.

Lemma length_accumulate acc ws : length (accumulate acc ws) = length ws.
Proof. revert acc. induction ws as [|w ws IH]; intros acc; [done|]. simpl. by rewrite IH. Qed.

(** The binary search finds the share the cutoff falls into. *)
Lemma cutoff_search_spec ws cutoff : Forall (fun w => 0 <= w) ws -> 0 <= cutoff < sumZ ws -> sumZ ws < 2 ^ 64 ->
  exists i, cutoff_search (accumulate 0 ws) cutoff = Some (Z.of_nat i) /\ (i < length ws)%nat /\
    sumZ (take i ws) <= cutoff < sumZ (take (S i) ws).
Proof.
  intros Hw Hc Hs. unfold cutoff_search. rewrite length_accumulate.
  assert (Hg : forall j, 0 <= j < Z.of_nat (length ws) ->
    (s ← accumulate 0 ws !! Z.to_nat j; Some (negb (cutoff <? s))) = Some (negb (cutoff <? sumZ (take (S (Z.to_nat j)) ws)))).
  { intros j Hj. rewrite accumulate_lookup by (done || lia). done. }
  destruct (splits_exists (length ws) (fun mid => s ← accumulate 0 ws !! Z.to_nat mid; Some (negb (cutoff <? s))) 0) as (r & Hr & Ht & Hf).
  - intros j Hj. rewrite Hg by lia. by eexists.
  - intros i j Hi Hj. rewrite !Hg by lia. intros [= E]. f_equal. zbool.
    assert (sumZ (take (S (Z.to_nat i)) ws) <= sumZ (take (S (Z.to_nat j)) ws)); [|lia].
    replace (take (S (Z.to_nat i)) ws) with (take (S (Z.to_nat i)) (take (S (Z.to_nat j)) ws)) by (rewrite take_take; f_equal; lia).
    apply sumZ_take_le. by apply Forall_take.
  - exists (Z.to_nat r). rewrite (bsearch_splits _ _ _ _ _ _ r); [| |done|lia].
    + assert (Hlt : r < Z.of_nat (length ws)).
      { destruct (Z.lt_ge_cases r (Z.of_nat (length ws))) as [|Hge]; [done|].
        assert (0 < length ws)%nat by (destruct ws; simpl in *; lia).
        specialize (Ht (Z.of_nat (length ws) - 1) ltac:(lia)). rewrite Hg in Ht by lia. injection Ht as Ht. zbool.
        rewrite take_ge in Ht by lia. lia. }
      split; [f_equal; lia|]. split; [lia|]. split.
      * destruct (Z.eq_dec r 0) as [->|]; [simpl; lia|]. specialize (Ht (r - 1) ltac:(lia)). rewrite Hg in Ht by lia.
        injection Ht as Ht. zbool. by replace (S (Z.to_nat (r - 1))) with (Z.to_nat r) in Ht by lia.
      * specialize (Hf r ltac:(lia)). rewrite Hg in Hf by lia. injection Hf as Hf. by zbool.
    + intros l h Hl Hh. rewrite Z.shiftr_div_pow2 by lia. split; [|done]. change (2 ^ 1) with 2. divlia.
Qed.

(** The item chosen leads to the child the cutoff falls into. *)
Lemma chosen_child k blk items i w idx cutoff : Forall (agg_exact k) items ->
  (items ≫= child_items k) !! i = Some (w, idx) ->
  let ws := fst <$> (items ≫= child_items k) in
  0 <= cutoff -> sumZ (take i ws) <= cutoff < sumZ (take (S i) ws) ->
  exists off pv, (off, PivotTup pv) ∈ items /\ idx = ABT_OFFSET_GET_ITEMINDEX off /\
    0 <= cutoff - sumZ (take i ws) < weight_of (subtree k (pv_downlink pv)) /\
    pick cutoff (items_entries blk (subtree k) items) = pick (cutoff - sumZ (take i ws)) (subtree k (pv_downlink pv)).
Proof.
  intros Hex. cbv zeta. revert i cutoff. induction Hex as [|[off [t|pv]] items He Hex IH]; intros i cutoff; [done|done|].
  rewrite items_entries_cons, bind_cons. cbn [fst snd].
  set (s := subtree k (pv_downlink pv)).
  assert (child_items k (off, PivotTup pv) = if weight_of s =? 0 then [] else [(weight_of s, ABT_OFFSET_GET_ITEMINDEX off)]) as -> by done. pose proof (nonneg_weight s (subtree_nonneg _ _)) as Hs.
  rewrite pick_app. destruct (Z.eqb_spec (weight_of s) 0) as [Hz|Hz]; simpl app.
  - intros Hi Hc0 Hc. rewrite (proj1 (pick_none cutoff s (subtree_nonneg _ _) Hc0)) by lia. rewrite Hz, Z.sub_0_r.
    destruct (IH i cutoff Hi Hc0 Hc) as (off' & pv' & Hin & ? & ? & ?). exists off', pv'. split; [by right|done].
  - rewrite fmap_cons. cbn [fst]. destruct i as [|i].
    + intros [= <- <-] Hc0 Hc. simpl in Hc |- *. exists off, pv. split; [by left|]. rewrite Z.sub_0_r. fold s.
      split; [done|]. split; [lia|]. destruct (pick cutoff s) eqn:E; [done|].
      apply pick_none in E; [lia|apply subtree_nonneg|lia].
    + intros Hi Hc0 Hc. cbn [take sumZ] in Hc |- *.
      assert (weight_of s <= cutoff).
      { assert (0 <= sumZ (take i (fst <$> (items ≫= child_items k)))); [|lia].
        apply sumZ_nonneg, Forall_take, child_weights_nonneg. }
      rewrite (proj1 (pick_none cutoff s (subtree_nonneg _ _) Hc0)) by lia.
      destruct (IH i (cutoff - weight_of s) Hi ltac:(lia) ltac:(lia)) as (off' & pv' & Hin & ? & ? & ?).
      exists off', pv'. rewrite Z.sub_add_distr. split; [by right|done].
Qed.

Lemma child_weights_positive k items : Forall (fun w => 0 < w) (fst <$> (items ≫= child_items k)).
Proof.
  apply Forall_fmap, Forall_bind, Forall_forall. intros [off [t|pv]] _; [constructor|].
  change (Forall (fun x => 0 < fst x) (child_items k (off, PivotTup pv))). unfold child_items. cbn [snd fst].
  pose proof (nonneg_weight _ (subtree_nonneg k (pv_downlink pv))). destruct (Z.eqb_spec (weight_of (subtree k (pv_downlink pv))) 0);
    repeat constructor. simpl. lia.
Qed.

Lemma itemindex_offset off : 0 <= off < 2 ^ 16 -> ABT_ITEMINDEX_GET_OFFSET (ABT_OFFSET_GET_ITEMINDEX off) = off.
Proof.
  intros Ho. unfold ABT_ITEMINDEX_GET_OFFSET, ABT_OFFSET_GET_ITEMINDEX, ABT_ITEMINDEX_OFFSET_MASK.
  change 0xffff with (2 ^ 16 - 1). rewrite u32_small, (land_mask off) by lia. rewrite (Z.mod_small off) by lia.
  rewrite land_mask by lia. by apply Z.mod_small.
Qed.

Lemma cutoff_u64_run n r : 0 < n < 2 ^ 64 -> is_fraction r ->
  exists c, floor_mul_u64 n r = Some c /\ cutoff_u64 n r = Some c /\ 0 <= c < n.
Proof.
  intros Hn Hr. unfold cutoff_u64, floor_mul_u64. destruct (floor_mul_range (2 ^ 64) n r Hn ltac:(lia) Hr) as (c & -> & Hc).
  exists c. split; [done|]. cbn [mbind option_bind]. rewrite (proj2 (Z.eqb_neq _ _)) by lia. done.
Qed.

Lemma cutoff_u64_defined n r : 0 <= n < 2 ^ 64 -> is_fraction r -> exists c, cutoff_u64 n r = Some c.
Proof.
  intros Hn Hr. destruct (Z.eq_dec n 0) as [->|].
  - destruct r as [s| | |s m e]; try done; eexists; reflexivity.
  - destruct (cutoff_u64_run n r ltac:(lia) Hr) as (c & _ & ? & _). eauto.
Qed.

(** Children that weigh nothing in all give nothing to choose. *)
Lemma sample_range_empty k fuel r blk p lo hi items h c :
  ABT_P_ISLEAF (pg_opaque p) = false -> page_items p lo hi = Some items -> Forall (agg_exact k) items ->
  weight_of (items_entries blk (subtree k) items) = 0 ->
  sample_range fuel r (Some blk) p lo hi (mk_bs (blk :: h) c) = Ok (mk_sr get_float8_infinity None) (mk_bs h c).
Proof.
  intros Hl Hi Hex Hw. unfold sample_range. rewrite (collect_inner k p lo hi items Hl Hi Hex).
  rewrite (bind_ok _ _ _ (items ≫= child_items k) (mk_bs (blk :: h) c)) by done.
  rewrite <- (weights_total k blk items Hex) in Hw. pose proof (child_weights_positive k items) as Hpos.
  destruct (items ≫= child_items k) as [|[w i] l]; [by run_step|]. rewrite fmap_cons in *. cbn [fst sumZ] in Hw.
  apply Forall_cons in Hpos as [Hw0 Hpos]. exfalso. cbn [fst] in Hw0. assert (0 <= sumZ (fst <$> l)); [|lia].
  apply sumZ_nonneg. eapply Forall_impl; [exact Hpos|]. simpl. intros; lia.
Qed.

(** The draw from the first page with a choice. *)
Lemma sample_range_run k fuel r blk p hk lo hi items : rel_ok rel -> is_fraction r -> (S (S k) < fuel)%nat ->
  sub_ok (S k) blk hk -> pages blk = Some p -> ABT_P_FIRSTDATAKEY (pg_opaque p) <= lo -> hi <= PageGetMaxOffsetNumber p ->
  page_items p lo hi = Some items ->
  let l := items_entries blk (subtree k) items in
  0 < weight_of l < 2 ^ 64 ->
  exists cutoff e p', floor_mul_u64 (weight_of l) r = Some cutoff /\ 0 <= cutoff < weight_of l /\
    pick cutoff l = Some e /\ pages (en_blk e) = Some p' /\
    forall h c, sample_range fuel r (Some blk) p lo hi (mk_bs (blk :: h) c) =
      done_sampling false (double_of_Z (weight_of l)) (Some (en_blk e)) p' (en_off e) (en_post e) (mk_bs (en_blk e :: h) c).
Proof.
  intros Hrel Hr Hfuel Hsub Hp Hlo Hhi Hitems l Hw.
  destruct Hsub as (p0 & all & Hp0 & Hlive & Hleaf & Hhk & Hpok & Hall & Hex & Hkids). assert (p0 = p) as -> by congruence.
  destruct (page_items_sub p _ _ all lo hi Hall Hlo Hhi) as (items0 & Hi0 & Hin). assert (items0 = items) as -> by congruence.
  assert (Hex' : Forall (agg_exact k) items) by (apply Forall_forall; intros it Hit; rewrite Forall_forall in Hex; by apply Hex, Hin).
  destruct (cutoff_u64_run (weight_of l) r Hw Hr) as (cutoff & Hfl & Hcut & Hc).
  pose proof (weights_total k blk items Hex') as Htot. fold l in Htot. set (ws := fst <$> (items ≫= child_items k)) in *.
  pose proof (child_weights_nonneg k items) as Hwsn. fold ws in Hwsn.
  destruct (cutoff_search_spec ws cutoff Hwsn ltac:(lia) ltac:(lia)) as (i & Hs & Hi & Hci).
  destruct (lookup_lt_is_Some_2 (items ≫= child_items k) i) as [[w idx] Hit]; [unfold ws in Hi; by rewrite length_fmap in Hi|].
  destruct (chosen_child k blk items i w idx cutoff Hex' Hit ltac:(lia) Hci) as (off & pv & Hoff & -> & Hc' & Hpick).
  fold ws l in Hc', Hpick. destruct (Hkids off pv (Hin _ Hoff)) as (hk' & Hhk' & Hsub').
  pose proof (child_weight_le k blk items off pv Hoff) as Hle. fold l in Hle.
  apply (elem_of_page_items p lo hi items) in Hoff as [Hrange Hget]; [|done].
  pose proof (first_off_range p) as Hfo. unfold first_off in Hfo. pose proof (pk_max _ _ Hpok) as Hmax.
  destruct (descent_run k (pv_downlink pv) hk' (cutoff - sumZ (take i ws)) fuel Hrel Hsub' ltac:(lia) Hc' ltac:(lia))
    as (e & p' & He & Hp' & Hrun).
  exists cutoff, e, p'. rewrite Hpick. split_and!; try done; [lia|lia|]. intros h c. unfold sample_range.
  rewrite (collect_inner k p lo hi items Hleaf Hitems Hex').
  rewrite (bind_ok _ _ _ (items ≫= child_items k) (mk_bs (blk :: h) c)) by done. fold ws.
  destruct (items ≫= child_items k) as [|x xs] eqn:Els; [done|].
  assert (Hlast : last (accumulate 0 ws) = Some (weight_of l)).
  { rewrite last_lookup, length_accumulate. rewrite accumulate_lookup by (exact Hwsn || lia).
    replace (S (pred (length ws))) with (length ws) by lia. rewrite take_ge by lia. by rewrite Htot. }
  rewrite (bind_ok _ _ _ (weight_of l) (mk_bs (blk :: h) c)) by (by rewrite Hlast). cbv zeta. rewrite Hleaf. cbn [Nat.eqb andb].
  rewrite (bind_ok _ _ _ cutoff (mk_bs (blk :: h) c)) by (by rewrite Hcut).
  rewrite (bind_ok _ _ _ (Z.of_nat i) (mk_bs (blk :: h) c)) by (by rewrite Hs).
  rewrite Nat2Z.id, Hit. rewrite (bind_ok _ _ _ (ABT_OFFSET_GET_ITEMINDEX off) (mk_bs (blk :: h) c)) by done.
  rewrite itemindex_offset by lia. rewrite Hget, (bind_ok _ _ _ (PivotTup pv) (mk_bs (blk :: h) c)) by done.
  rewrite (bind_ok _ _ _ (pv_downlink pv) (mk_bs (blk :: h) c)) by done.
  rewrite (bind_ok _ _ _ (cutoff - sumZ (take i ws)) (mk_bs (blk :: h) c)).
  2: { destruct (Z.eqb_spec (Z.of_nat i) 0) as [E|E]; cbn [negb].
       - replace i with 0%nat by lia. simpl. unfold ret. f_equal. lia.
       - rewrite accumulate_lookup by (exact Hwsn || lia).
         replace (S (Z.to_nat (Z.of_nat i - 1))) with i by lia. run_step. unfold ret. rewrite Z.add_0_l, u64_small by lia. done. }
  rewrite (bind_ok _ _ _ hk' (mk_bs (blk :: h) c)) by (by rewrite Hhk').
  assert (exists p1, pages (pv_downlink pv) = Some p1) as [p1 Hp1] by (destruct k; destruct Hsub' as (p1 & ? & ? & _); eauto).
  rewrite (bind_ok _ _ _ _ _ (relandgetbuf_run pages blk (pv_downlink pv) p1 h c Hp1)). apply Hrun.
Qed.

(** ** The entry drawn *)

(** Where an entry is: its leaf, its tuple and its TID. *)
Record located (e : entry) (p : page) (t : itup) (ht : tid) : Prop := {
  lc_page : pages (en_blk e) = Some p;
  lc_item : PageGetItem p (en_off e) = Some (LeafTup t);
  lc_tid : item_tid (LeafTup t) (en_post e) = Some ht;
  lc_weight : leaf_has_agg ai = true -> leaf_weight (LeafTup t) (en_post e) = Some (en_weight e);
  lc_natts : Z.of_nat (length (it_key t)) = rd_natts rel
}.

Lemma posting_entries_elem blk off i xmins aggs e : e ∈ posting_entries blk off i xmins aggs ->
  exists j x, xmins !! j = Some x /\ hidden_xid x = false /\ en_post e = i + Z.of_nat j /\ en_weight e = entry_weight (aggs !! j).
Proof.
  revert i aggs. induction xmins as [|x xmins IH]; intros i aggs; simpl; [by intros ?%elem_of_nil|].
  assert (Hrest : e ∈ posting_entries blk off (i + 1) xmins (tail aggs) ->
    exists j x0, (x :: xmins) !! j = Some x0 /\ hidden_xid x0 = false /\ en_post e = i + Z.of_nat j /\ en_weight e = entry_weight (aggs !! j)).
  { intros Hin. destruct (IH _ _ Hin) as (j & y & Hy & Hh & Hp & Hw). exists (S j), y. split_and!; try done; [lia|].
    rewrite Hw. by destruct aggs. }
  destruct (hidden_xid x) eqn:Eh; [done|]. intros [->|Hin]%elem_of_cons; [|auto]. exists 0%nat, x. simpl. split_and!; try done; [lia|].
  by destruct aggs.
Qed.

Definition entry_visible (t : itup) (e : entry) : bool :=
  match it_xmins t !! Z.to_nat (en_post e) with Some x => negb (hidden_xid x) | None => false end.

Lemma tuple_entry_located blk off p t e : pages blk = Some p -> page_ok rel p -> ABT_P_FIRSTDATAKEY (pg_opaque p) <= off ->
  PageGetItem p off = Some (LeafTup t) -> tuple_fit t -> e ∈ tuple_entries blk off t -> exists ht, located e p t ht /\ entry_visible t e = true.
Proof.
  intros Hp Hpok Hoff Hget [Hx Htd _ Ha _] Hin. pose proof (posting_entries_at blk off 0 (if is_posting t then it_xmins t else take 1 (it_xmins t)) (it_aggs t)) as Hat.
  rewrite Forall_forall in Hat. destruct (Hat e Hin) as [Eb Eo]. unfold tuple_entries in Hin.
  destruct (posting_entries_elem _ _ _ _ _ _ Hin) as (j & x & Hj & Hh & Hpost & Hw). rewrite Z.add_0_l in Hpost.
  assert (Hj' : it_xmins t !! j = Some x /\ (is_posting t = false -> j = 0%nat)).
  { destruct (is_posting t); [done|]. apply lookup_take_Some in Hj as [? ?]. split; [done|lia]. }
  destruct Hj' as [Hj' Hj0]. destruct (lookup_lt_is_Some_2 (it_tids t) j) as [ht Hht]; [rewrite Htd; by eapply lookup_lt_Some|].
  exists ht. rewrite <- Eb in Hp. rewrite <- Eo in Hget. split; [split; try done|unfold entry_visible; by rewrite Hpost, Nat2Z.id, Hj', Hh].
  - unfold item_tid. rewrite Hpost, Nat2Z.id. destruct (is_posting t); [done|]. by rewrite (Hj0 eq_refl) in Hht.
  - intros Hag. unfold leaf_weight. rewrite Hpost, Nat2Z.id, Hw. unfold entry_weight. rewrite Hag. specialize (Ha Hag).
    destruct (lookup_lt_is_Some_2 (it_aggs t) j) as [w Hw']; [rewrite Ha; by eapply lookup_lt_Some|].
    rewrite Hw'. destruct (is_posting t); [by rewrite Hw'|]. rewrite (Hj0 eq_refl) in Hw'. by rewrite Hw'.
  - assert (Hok : tuple_ok rel (LeafTup t)) by (apply (pk_tuples _ _ Hpok (en_off e)); [unfold first_off; lia|done]). apply Hok.
Qed.

Lemma subtree_located k blk hk e : sub_ok k blk hk -> e ∈ subtree k blk -> exists p t ht, located e p t ht /\ entry_visible t e = true.
Proof.
  revert blk hk. induction k as [|k IH]; intros blk hk (p & items & Hp & Hlive & Hleaf & Hhk & Hpok & Hitems & Hrest);
    rewrite (subtree_items _ _ _ _ Hp Hitems); unfold items_entries; intros ([off [t|pv]] & He & Hin)%list_elem_of_bind; cbn [fst snd] in He.
  - rewrite Forall_forall in Hrest. assert (Hfit : tuple_fit t) by exact (Hrest _ Hin).
    destruct (proj1 (elem_of_page_items p _ _ items off (LeafTup t) Hitems) Hin) as [Hr Hget]. exists p, t. apply (tuple_entry_located blk off); try done; lia.
  - by apply elem_of_nil in He.
  - destruct Hrest as [Hex _]. rewrite Forall_forall in Hex. by specialize (Hex _ Hin).
  - destruct Hrest as [_ Hkids]. destruct (Hkids off pv Hin) as (hk' & _ & Hsub). by apply (IH (pv_downlink pv) hk').
Qed.

(** What the caller gets for the entry. *)
Definition accepted (e : entry) (p : page) (t : itup) : bool :=
  entry_visible t e && negb (so_ignore_killed_tuples so && default false (ItemIdIsDead p (en_off e))) && all_sat (it_key t) (so_keyData so).
Definition outcome (inv_prob : double) (e : entry) (p : page) (t : itup) (ht : tid) : sample_result :=
  mk_sr (if leaf_has_agg ai then ddiv inv_prob (double_of_Z (en_weight e)) else inv_prob)
    (if accepted e p t then
       Some (mk_pos (if so_mvcc_wal so && negb (so_want_itup so) then None else Some (en_blk e)) (en_blk e)
         (abtpo_next (pg_opaque p)) ht (en_off e) (if so_want_itup so then Some (it_key t) else None))
     else None).

Lemma done_sampling_run e p t ht inv_prob h c : located e p t ht -> entry_visible t e = true -> Forall (key_good (rd_natts rel)) (so_keyData so) ->
  done_sampling false inv_prob (Some (en_blk e)) p (en_off e) (en_post e) (mk_bs (en_blk e :: h) c) =
  Ok (outcome inv_prob e p t ht) (mk_bs h c).
Proof.
  intros [Hp Hi Ht Hw Hn] Hv Hkeys. unfold done_sampling, outcome, accepted. rewrite Hi, Hv. cbn [andb].
  rewrite (bind_ok _ _ _ (LeafTup t) (mk_bs (en_blk e :: h) c)) by done.
  rewrite (bind_ok _ _ _ (if leaf_has_agg ai then ddiv inv_prob (double_of_Z (en_weight e)) else inv_prob) (mk_bs (en_blk e :: h) c)).
  2: { destruct (leaf_has_agg ai); [|done]. by rewrite Hw. }
  assert (exists dead, ItemIdIsDead p (en_off e) = Some dead) as [dead Hd].
  { unfold PageGetItem in Hi. unfold ItemIdIsDead. destruct (PageGetItemId p (en_off e)) as [[d x]|]; [by eexists|done]. }
  rewrite Hd. rewrite (bind_ok _ _ _ dead (mk_bs (en_blk e :: h) c)) by done. cbn [default].
  destruct (checkkeys_run (LeafTup t) (rd_natts rel) (rd_natts rel) Forward ltac:(simpl; lia) ltac:(lia) _ Hkeys) as (cs & Hck & _).
  rewrite (bind_ok _ _ _ (negb (so_ignore_killed_tuples so && dead) && all_sat (it_key t) (so_keyData so)) (mk_bs (en_blk e :: h) c)).
  2: { destruct (so_ignore_killed_tuples so && dead); [done|]. rewrite Hck. done. }
  destruct (negb _ && all_sat _ _); cbn [negb].
  - run_step. rewrite Ht. rewrite (bind_ok _ _ _ ht (mk_bs (en_blk e :: h) c)) by done.
    unfold _abt_drop_lock_and_maybe_pin. erewrite bind_ok; [done|]. run_step. done.
  - run_step. done.
Qed.

(** ** Draws *)

Record scan_ok : Prop := {
  sc_low : forall k, so_inskey_low so = Some k -> exists args, key_ok rel k args;
  sc_high : forall k, so_inskey_high so = Some k -> exists args, key_ok rel k args;
  sc_keys : Forall (key_good (rd_natts rel)) (so_keyData so)
}.

Lemma range_of_inner p : rel_ok rel -> scan_ok -> page_ok rel p -> is_leaf p = false ->
  exists lo hi, range_of p = Some (lo, hi) /\ first_off p <= lo <= PageGetMaxOffsetNumber p /\ hi <= PageGetMaxOffsetNumber p.
Proof.
  intros Hrel [Hlow Hhigh _] Hp Hl. unfold range_of. fold (first_off p) (is_leaf p). pose proof (pk_internal _ _ Hp Hl).
  assert (exists lo, match so_inskey_low so with Some k => _abt_binsrch rel k p | None => Some (first_off p) end = Some lo /\
    first_off p <= lo <= PageGetMaxOffsetNumber p) as (lo & -> & Hlo).
  { destruct (so_inskey_low so) as [k|]; [|exists (first_off p); split; [done|lia]]. destruct (Hlow k eq_refl) as [args Hk].
    destruct (binsrch_internal rel Hrel p k args Hp Hk Hl) as (off & Hb & Ho & _). eauto. }
  cbn [mbind option_bind].
  assert (exists hi, match so_inskey_high so with
    | Some k => m ← _abt_binsrch rel k p; Some (if is_leaf p then OffsetNumberPrev m else m)
    | None => Some (PageGetMaxOffsetNumber p) end = Some hi /\ hi <= PageGetMaxOffsetNumber p) as (hi & -> & Hhi).
  { destruct (so_inskey_high so) as [k|]; [|exists (PageGetMaxOffsetNumber p); split; [done|lia]]. destruct (Hhigh k eq_refl) as [args Hk].
    destruct (binsrch_internal rel Hrel p k args Hp Hk Hl) as (off & Hb & Ho & _). rewrite Hb. cbn [mbind option_bind]. rewrite Hl.
    exists off. split; [done|lia]. }
  exists lo, hi. done.
Qed.

(** The result of a draw from the candidates [l]: nothing when they weigh nothing, and
    else the entry whose share the scaled random number falls into. *)
Definition draw_spec (l : list entry) (r : double) (run : M sample_result) (before : Z) : Prop :=
  if weight_of l =? 0 then exists inv_prob, forall h c, run (mk_bs (before :: h) c) = Ok (mk_sr inv_prob None) (mk_bs h c)
  else exists cutoff e p t ht, floor_mul_u64 (weight_of l) r = Some cutoff /\ 0 <= cutoff < weight_of l /\
    pick cutoff l = Some e /\ located e p t ht /\
    forall h c, run (mk_bs (before :: h) c) = Ok (outcome (double_of_Z (weight_of l)) e p t ht) (mk_bs h c).

(** *** Draws from a leaf page *)

Lemma range_of_leaf p : rel_ok rel -> scan_ok -> page_ok rel p -> is_leaf p = true ->
  exists lo hi, range_of p = Some (lo, hi) /\ first_off p <= lo /\ (lo <= hi -> hi <= PageGetMaxOffsetNumber p).
Proof.
  intros Hrel [Hlow Hhigh _] Hp Hl. unfold range_of. fold (first_off p) (is_leaf p). pose proof (first_off_range p). pose proof (pk_max _ _ Hp).
  assert (Hsearch : forall k args, key_ok rel k args -> exists r, _abt_binsrch rel k p = Some r /\ first_off p <= r <= Z.max (first_off p) (PageGetMaxOffsetNumber p + 1)).
  { intros k args Hk. destruct (page_splits rel Hrel p k args Hp Hk) as [r Hs]. exists r. rewrite (binsrch_splits rel p k r Hp Hs), Hl. split; [done|apply Hs]. }
  assert (exists lo, match so_inskey_low so with Some k => _abt_binsrch rel k p | None => Some (first_off p) end = Some lo /\ first_off p <= lo) as (lo & -> & Hlo).
  { destruct (so_inskey_low so) as [k|]; [|by exists (first_off p)]. destruct (Hlow k eq_refl) as [args Hk]. destruct (Hsearch k args Hk) as (r & -> & Hr). exists r. split; [done|lia]. }
  cbn [mbind option_bind]. rewrite Hl. exists lo. destruct (so_inskey_high so) as [k|]; [|by eexists].
  destruct (Hhigh k eq_refl) as [args Hk]. destruct (Hsearch k args Hk) as (r & -> & Hr). cbn [mbind option_bind]. eexists. split; [done|]. split; [done|].
  unfold OffsetNumberPrev, u16. rewrite Z.mod_small by lia. lia.
Qed.

Lemma pick_lookup l : forall c i e, nonneg l -> l !! i = Some e ->
  sumZ (take i (en_weight <$> l)) <= c < sumZ (take (S i) (en_weight <$> l)) -> pick c l = Some e.
Proof.
  induction l as [|x l IH]; intros c i e Hn Hi Hc; [done|]. apply Forall_cons in Hn as [Hx Hn]. cbn [pick]. rewrite fmap_cons in Hc. destruct i as [|i].
  - injection Hi as ->. rewrite firstn_cons, !take_0 in Hc. cbn [sumZ] in Hc. by rewrite (proj2 (Z.ltb_lt _ _)) by lia.
  - rewrite !firstn_cons in Hc. cbn [sumZ] in Hc. pose proof (sumZ_nonneg (take i (en_weight <$> l)) ltac:(apply Forall_take, Forall_fmap; exact Hn)) as H0.
    rewrite (proj2 (Z.ltb_ge _ _)) by lia. apply (IH _ i); [done|done|]. lia.
Qed.

(** What a leaf page's plain tuples contribute to the prefix sums. *)
Definition leaf_item (e : entry) : Z * Z := (en_weight e, ABT_OFFSET_GET_ITEMINDEX (en_off e)).

Lemma collect_leaf blk p lo hi items : ABT_P_ISLEAF (pg_opaque p) = true -> page_items p lo hi = Some items -> Forall leaf_fit items -> forallb is_plain items = true ->
  collect_items p lo hi = Some (leaf_item <$> (leaf_entry <$> items_entries blk (fun _ => []) items)).
Proof.
  intros Hl Hi Hfit Hpl. unfold collect_items. rewrite Hi, Hl. cbn [mbind option_bind]. clear Hi.
  assert (Hm : mapM (tuple_items true) items = Some ((fun it => leaf_item <$> (leaf_entry <$> items_entries blk (fun _ => []) [it])) <$> items)).
  { induction Hfit as [|[off [t|pv]] items Hf Hfit IH]; [done| |done]. cbn [forallb] in Hpl. apply andb_true_iff in Hpl as [Hp Hpl].
    unfold is_plain in Hp. cbn [snd] in Hp. apply negb_true_iff in Hp. rewrite fmap_cons. cbn [mapM]. destruct Hf as [Hx _ _ Ha _]. cbn [snd] in *.
    assert (Ht : tuple_items true (off, LeafTup t) = Some (leaf_item <$> (leaf_entry <$> items_entries blk (fun _ => []) [(off, LeafTup t)]))).
    { unfold tuple_items, leaf_tuple_items, items_entries, tuple_entries. rewrite bind_cons. cbn [snd fst]. rewrite Hp. destruct (it_xmins t) as [|x xs]; [done|]. change (take 1 (x :: xs)) with [x].
      cbn [head posting_entries mbind option_bind]. destruct (hidden_xid x); [done|]. unfold leaf_entry, leaf_item, entry_weight. destruct (leaf_has_agg ai); [|done].
      specialize (Ha eq_refl). destruct (it_aggs t) as [|w ws]; [done|]. done. }
    rewrite Ht. cbn [mbind option_bind]. by rewrite (IH Hpl). }
  rewrite Hm. cbn [mbind option_bind]. f_equal. clear. induction items as [|it items IH]; [done|]. rewrite fmap_cons, !items_entries_cons, !fmap_app, <- IH.
  change (items_entries blk (fun _ => []) []) with (@nil entry). by rewrite !fmap_nil, app_nil_r.
Qed.

Lemma leaf_entries_nonneg blk items : nonneg (leaf_entry <$> items_entries blk (fun _ => []) items).
Proof.
  apply Forall_fmap. eapply Forall_impl; [apply (items_entries_nonneg blk (fun _ => [])); constructor|]. intros e He. unfold compose, leaf_entry. cbn in He |- *. case_match; lia.
Qed.

Lemma cutoff_int_run n r : 0 < n < 2 ^ 31 -> is_fraction r ->
  exists c, floor_mul_u64 n r = Some c /\ cutoff_int n r = Some c /\ 0 <= c < n.
Proof.
  intros Hn Hr. unfold cutoff_int, floor_mul_u64, floor_mul_int. destruct (floor_mul_range (2 ^ 64) n r ltac:(lia) ltac:(lia) Hr) as (c & H64 & Hc).
  destruct (floor_mul_range (2 ^ 31) n r ltac:(lia) ltac:(lia) Hr) as (c' & H31 & Hc'). exists c. split; [done|]. assert (c' = c) as ->.
  { unfold floor_mul in *. destruct (dfloor _) as [x|]; [|done]. repeat case_match; congruence. }
  rewrite H31. cbn [mbind option_bind]. rewrite (proj2 (Z.eqb_neq _ _)) by lia. done.
Qed.

(** The choice among [l] by prefix sums or by counting, and what it is used for. *)
Lemma leaf_choice l r : nonneg l -> l <> [] -> Z.of_nat (length l) < 2 ^ 31 -> 0 < weight_of l < 2 ^ 64 -> is_fraction r ->
  (leaf_has_agg ai = false -> Forall (fun e => en_weight e = 1) l) ->
  exists cutoff i e, floor_mul_u64 (weight_of l) r = Some cutoff /\ 0 <= cutoff < weight_of l /\ pick cutoff l = Some e /\ l !! i = Some e /\
    (leaf_has_agg ai = true -> cutoff_u64 (weight_of l) r = Some cutoff /\ cutoff_search (accumulate 0 (en_weight <$> l)) cutoff = Some (Z.of_nat i)) /\
    (leaf_has_agg ai = false -> weight_of l = Z.of_nat (length l) /\ cutoff_int (Z.of_nat (length l)) r = Some (Z.of_nat i)).
Proof.
  intros Hnn Hne Hlen Hw Hr Hone. destruct (leaf_has_agg ai).
  - destruct (cutoff_u64_run (weight_of l) r Hw Hr) as (c & Hfl & Hcu & Hc).
    destruct (cutoff_search_spec (en_weight <$> l) c) as (i & Hs & Hi & Hci); [by apply Forall_fmap|exact Hc|apply Hw|]. rewrite length_fmap in Hi.
    destruct (lookup_lt_is_Some_2 l i Hi) as [e He]. exists c, i, e. split_and!; try done; try lia. by apply (pick_lookup l c i).
  - specialize (Hone eq_refl).
    assert (Hwl : forall k, Forall (fun e => en_weight e = 1) k -> sumZ (en_weight <$> k) = Z.of_nat (length k)).
    { induction 1 as [|x k Hx _ IH]; [done|]. rewrite fmap_cons. cbn [sumZ length]. lia. }
    assert (Hwt : weight_of l = Z.of_nat (length l)) by (by apply Hwl).
    destruct (cutoff_int_run (Z.of_nat (length l)) r) as (c & Hfl & Hcu & Hc); [lia|done|].
    destruct (lookup_lt_is_Some_2 l (Z.to_nat c)) as [e He]; [lia|]. exists c, (Z.to_nat c), e. rewrite Hwt. rewrite Z2Nat.id by lia. split_and!; try done; try lia.
    apply (pick_lookup l c (Z.to_nat c)); try done. rewrite <- !fmap_take, !Hwl by (by apply Forall_take). rewrite !length_take. lia.
Qed.

Lemma leaf_entry_located blk p lo hi items e : pages blk = Some p -> page_ok rel p -> ABT_P_FIRSTDATAKEY (pg_opaque p) <= lo -> page_items p lo hi = Some items ->
  Forall leaf_fit items -> e ∈ leaf_entry <$> items_entries blk (fun _ => []) items ->
  en_blk e = blk /\ lo <= en_off e <= hi /\ (forallb is_plain items = true -> en_post e = 0) /\ exists t ht, located e p t ht /\ entry_visible t e = true.
Proof.
  intros Hp Hpok Hlo Hi Hfit (e0 & -> & He0)%list_elem_of_fmap. unfold items_entries in He0. apply list_elem_of_bind in He0 as ([off [t|pv]] & He0 & Hin); cbn [fst snd] in He0; [|by apply elem_of_nil in He0].
  destruct (proj1 (elem_of_page_items p lo hi items off (LeafTup t) Hi) Hin) as [Ho Hget]. rewrite Forall_forall in Hfit. pose proof (Hfit _ Hin) as Hf. unfold leaf_fit in Hf. cbn [snd] in Hf.
  destruct (tuple_entry_located blk off p t e0 Hp Hpok ltac:(lia) Hget Hf He0) as (ht & [L1 L2 L3 L4 L5] & Hv).
  pose proof (posting_entries_at blk off 0 (if is_posting t then it_xmins t else take 1 (it_xmins t)) (it_aggs t)) as Hat. rewrite Forall_forall in Hat. destruct (Hat e0 He0) as [Hb Hoe].
  split; [done|]. split; [cbn; lia|]. split.
  - intros Hpl. rewrite forallb_forall in Hpl. specialize (Hpl (off, LeafTup t) ltac:(by apply list_elem_of_In)). unfold is_plain in Hpl. cbn [snd] in Hpl. apply negb_true_iff in Hpl.
    unfold tuple_entries in He0. rewrite Hpl in He0. destruct (posting_entries_elem _ _ _ _ _ _ He0) as (j & x & Hj & _ & Hpost & _). apply lookup_take_Some in Hj as [_ Hj]. cbn. lia.
  - exists t, ht. split; [split; try done|done]. intros Ha. cbn. rewrite Ha. by apply L4.
Qed.

Lemma itemindex_posting off : 0 <= off -> ABT_ITEMINDEX_GET_POSTING_OFF (ABT_OFFSET_GET_ITEMINDEX off) = 0.
Proof.
  intros Ho. unfold ABT_ITEMINDEX_GET_POSTING_OFF, ABT_OFFSET_GET_ITEMINDEX. rewrite <- Z.land_assoc.
  change (Z.land ABT_ITEMINDEX_OFFSET_MASK ABT_ITEMINDEX_POSTING_OFF_MASK) with 0. by rewrite Z.land_0_r.
Qed.

(** Several plain tuples of a leaf page can match. *)
Lemma sample_range_leaf fuel r blk p lo hi items l : scan_ok -> is_fraction r -> pages blk = Some p -> page_ok rel p -> is_leaf p = true ->
  first_off p <= lo -> hi <= PageGetMaxOffsetNumber p -> page_items p lo hi = Some items -> Forall leaf_fit items -> forallb is_plain items = true ->
  l = leaf_entry <$> items_entries blk (fun _ => []) items -> (l <> [] -> weight_of l <> 0) -> weight_of l < 2 ^ 64 ->
  draw_spec l r (sample_range fuel r (Some blk) p lo hi) blk.
Proof.
  intros Hscan Hr Hp Hpok Hleaf Hlo Hhi Hi Hfit Hpl Hl Hne Hw.
  assert (Hcol : forall h c, (lift (collect_items p lo hi) : M _) (mk_bs (blk :: h) c) = Ok (leaf_item <$> l) (mk_bs (blk :: h) c)).
  { intros h c. rewrite (collect_leaf blk p lo hi items Hleaf Hi Hfit Hpl), Hl. done. }
  unfold draw_spec. destruct (Z.eqb_spec (weight_of l) 0) as [Hz|Hz].
  - assert (l = []) as El by (destruct l; [done|]; exfalso; by apply Hne). exists get_float8_infinity. intros h c. unfold sample_range.
    rewrite (bind_ok _ _ _ _ _ (Hcol h c)), El. cbn [fmap list_fmap]. by run_step.
  - assert (Hnn : nonneg l) by (rewrite Hl; apply leaf_entries_nonneg). pose proof (nonneg_weight l Hnn).
    assert (Hlen : Z.of_nat (length l) < 2 ^ 31).
    { assert (length l <= length items)%nat.
      { rewrite Hl, length_fmap. clear - Hpl. induction items as [|[off [t|pv]] items IH]; [simpl; lia| |done]. cbn [forallb] in Hpl. apply andb_true_iff in Hpl as [H1 H2].
        rewrite items_entries_cons, length_app. specialize (IH H2). cbn [length]. unfold is_plain in H1. cbn [snd fst] in *. apply negb_true_iff in H1. unfold tuple_entries. rewrite H1.
        destruct (it_xmins t) as [|x xs]; [simpl; lia|]. change (take 1 (x :: xs)) with [x]. cbn [posting_entries]. case_match; simpl; lia. }
      assert (length items = Z.to_nat (hi - lo + 1)). { unfold page_items in Hi. apply mapM_Some, Forall2_length in Hi. by rewrite length_seqZ in Hi. }
      pose proof (pk_max _ _ Hpok). pose proof (first_off_range p). lia. }
    destruct (leaf_choice l r Hnn) as (cutoff & i & e & Hfl & Hc & Hpick & Hie & Hagg & Hcnt); [by intros ->|done|lia|done| |].
    { intros Ha. rewrite Hl. apply Forall_fmap, Forall_true. intros x. cbn. by rewrite Ha. }
    destruct (leaf_entry_located blk p lo hi items e Hp Hpok ltac:(unfold first_off in Hlo; lia) Hi Hfit) as (Hb & Ho & Hpost & t & ht & Hloc & Hv); [rewrite <- Hl; by eapply list_elem_of_lookup_2|].
    exists cutoff, e, p, t, ht. split_and!; try done; try lia. intros h c. unfold sample_range. rewrite (bind_ok _ _ _ _ _ (Hcol h c)).
    assert (Hws : fst <$> (leaf_item <$> l) = en_weight <$> l) by (rewrite <- list_fmap_compose; done).
    assert (Hlast : last (accumulate 0 (fst <$> (leaf_item <$> l))) = Some (weight_of l)).
    { rewrite Hws, last_lookup, length_accumulate, length_fmap. assert (0 < length l)%nat by (destruct l; simpl in *; [done|lia]).
      rewrite accumulate_lookup; [|by apply Forall_fmap|lia|unfold weight_of in Hw; lia|rewrite length_fmap; lia]. f_equal. rewrite take_ge by (rewrite length_fmap; lia). done. }
    destruct (leaf_item <$> l) as [|x xs] eqn:Ex; [apply fmap_nil_inv in Ex; by subst l|]. rewrite <- Ex in *. clear Ex.
    rewrite (bind_ok _ _ _ (weight_of l) (mk_bs (blk :: h) c)) by (by rewrite Hlast). cbv zeta. unfold is_leaf in Hleaf. rewrite Hleaf. cbn [andb].
    rewrite (bind_ok _ _ _ (if leaf_has_agg ai then cutoff else 0) (mk_bs (blk :: h) c)).
    2: { destruct (leaf_has_agg ai); cbn [negb]; [|done]. by rewrite (proj1 (Hagg eq_refl)). }
    rewrite (bind_ok _ _ _ (Z.of_nat i) (mk_bs (blk :: h) c)).
    2: { rewrite Hws, length_fmap. destruct (leaf_has_agg ai); cbn [negb]; [by rewrite (proj2 (Hagg eq_refl))|]. by rewrite (proj2 (Hcnt eq_refl)). }
    rewrite Nat2Z.id, list_lookup_fmap, Hie. cbn [fmap option_fmap option_map leaf_item snd].
    rewrite (bind_ok _ _ _ (ABT_OFFSET_GET_ITEMINDEX (en_off e)) (mk_bs (blk :: h) c)) by done.
    pose proof (pk_max _ _ Hpok). pose proof (first_off_range p). rewrite itemindex_offset, itemindex_posting by lia.
    replace (if negb (leaf_has_agg ai) then Z.of_nat (length (leaf_item <$> l)) else weight_of l) with (weight_of l).
    2: { rewrite length_fmap. destruct (leaf_has_agg ai); cbn [negb]; [done|]. apply Hcnt. done. }
    rewrite <- (Hpost Hpl), <- Hb. apply done_sampling_run; [done|done|apply Hscan].
Qed.

(** Only one tuple of a leaf page can match. *)
Lemma sample_leaf_tuple_run fuel r blk p off t l : scan_ok -> is_fraction r -> pages blk = Some p -> page_ok rel p ->
  first_off p <= off <= PageGetMaxOffsetNumber p -> PageGetItem p off = Some (LeafTup t) -> tuple_fit t ->
  leaf_candidates blk [(off, LeafTup t)] = Some l -> weight_of l < 2 ^ 64 ->
  draw_spec l r (sample_leaf_tuple fuel r (Some blk) p off t) blk.
Proof.
  intros Hscan Hr Hp Hpok Ho Hget Hfit Hcand Hw. unfold leaf_candidates in Hcand. cbn [forallb is_plain snd andb] in Hcand. unfold sample_leaf_tuple.
  assert (Hi : page_items p off off = Some [(off, LeafTup t)]).
  { unfold page_items. replace (off - off + 1) with 1 by lia. assert (seqZ off 1 = [off]) as -> by (unfold seqZ; simpl; f_equal; lia). cbn [mapM]. by rewrite Hget. }
  destruct (is_posting t) eqn:Epost; cbn [negb andb] in Hcand |- *.
  - destruct (leaf_has_agg ai) eqn:Ea; [done|]. injection Hcand as <-. destruct Hfit as [Hx Htd Hcount _ _]. set (n := length (it_tids t)) in *.
    assert (Hn0 : (0 < n)%nat) by (rewrite Htd; destruct (it_xmins t); simpl; [done|lia]). unfold nposting in Hcount. fold n in Hcount.
    assert (Hwl : weight_of ((fun i => mk_entry blk off (Z.of_nat i) 1) <$> seq 0 n) = Z.of_nat n).
    { clear. generalize 0%nat. induction n as [|n IH]; intros s; [done|]. rewrite <- cons_seq, fmap_cons, weight_of_cons, IH. cbn [en_weight]. lia. }
    destruct (cutoff_int_run (Z.of_nat n) r ltac:(lia) Hr) as (cu & Hfl & Hcu & Hc). unfold draw_spec. rewrite Hwl, (proj2 (Z.eqb_neq _ _)) by lia.
    destruct (lookup_lt_is_Some_2 (it_tids t) (Z.to_nat cu)) as [ht Hht]; [fold n; lia|]. destruct (lookup_lt_is_Some_2 (it_xmins t) (Z.to_nat cu)) as [x Hxid]; [lia|].
    assert (Hloc : located (mk_entry blk off cu 1) p t ht).
    { split; cbn [en_blk en_off en_post]; [done|done|unfold item_tid; by rewrite Epost|by rewrite Ea|].
      assert (Hok : tuple_ok rel (LeafTup t)) by (apply (pk_tuples _ _ Hpok off); [lia|done]). apply Hok. }
    exists cu, (mk_entry blk off cu 1), p, t, ht. split_and!; try done; try lia.
    { apply (pick_lookup _ cu (Z.to_nat cu)).
      - apply Forall_fmap, Forall_true. intros j. cbn. lia.
      - rewrite list_lookup_fmap, lookup_seq_lt by lia. cbn. by rewrite Z2Nat.id by lia.
      - rewrite <- !list_fmap_compose. assert (Hs : forall k, sumZ (take k ((en_weight ∘ (fun i => mk_entry blk off (Z.of_nat i) 1)) <$> seq 0 n)) = Z.of_nat (Nat.min k n)).
        { intros k. rewrite <- fmap_take. replace (Nat.min k n) with (length (take k (seq 0 n))) by (by rewrite length_take, length_seq). generalize (take k (seq 0 n)). intros q. induction q as [|y q IH]; [done|]. rewrite fmap_cons. cbn [sumZ length compose en_weight]. lia. }
        rewrite !Hs. lia. }
    intros h c. unfold nposting. fold n. rewrite Hcu, (bind_ok _ _ _ cu (mk_bs (blk :: h) c)) by done. cbv zeta. rewrite Hxid, (bind_ok _ _ _ x (mk_bs (blk :: h) c)) by done.
    assert (Hvis : entry_visible t (mk_entry blk off cu 1) = negb (hidden_xid x)) by (unfold entry_visible; cbn [en_post]; by rewrite Hxid).
    destruct (hidden_xid x); [|exact (done_sampling_run (mk_entry blk off cu 1) p t ht _ h c Hloc Hvis (sc_keys Hscan))]. run_step. unfold outcome, accepted. rewrite Hvis, Ea. done.
  - destruct (it_xmins t) as [|x xs] eqn:Ex; [by destruct Hfit|]. pose proof Hfit as [_ Htd _ Hag _]. rewrite Ex in Htd, Hag.
    assert (Hent : items_entries blk (fun _ => []) [(off, LeafTup t)] = if hidden_xid x then [] else [mk_entry blk off 0 (entry_weight (head (it_aggs t)))]).
    { rewrite items_entries_cons. change (items_entries blk (fun _ => []) []) with (@nil entry). rewrite app_nil_r. cbn [snd fst]. unfold tuple_entries. rewrite Epost, Ex. change (take 1 (x :: xs)) with [x]. cbn [posting_entries]. by case_match. }
    rewrite Hent in Hcand. set (w := if leaf_has_agg ai then entry_weight (head (it_aggs t)) else 1).
    assert (Hwt : forall h c, (if leaf_has_agg ai then lift (leaf_weight (LeafTup t) 0) else ret 1 : M Z) (mk_bs (blk :: h) c) = Ok w (mk_bs (blk :: h) c)).
    { intros h c. unfold w, entry_weight. destruct (leaf_has_agg ai) eqn:Ea; [|done]. unfold leaf_weight. rewrite Epost. specialize (Hag eq_refl). by destruct (it_aggs t). }
    destruct (hidden_xid x) eqn:Eh.
    + injection Hcand as <-. exists (double_of_Z w). intros h c. rewrite (bind_ok _ _ _ _ _ (Hwt h c)). cbn [head]. rewrite (bind_ok _ _ _ x (mk_bs (blk :: h) c)) by done. rewrite Eh. by run_step.
    + cbn [fmap list_fmap] in Hcand. set (e := leaf_entry _) in Hcand. assert (Hwe : en_weight e = w) by (unfold e, w, leaf_entry; done).
      destruct (weight_of [e] =? 0) eqn:Ez; [done|]. injection Hcand as <-. unfold draw_spec. rewrite Ez. 
      assert (Hw1 : weight_of [e] = w) by (rewrite weight_of_cons, weight_of_nil, Hwe; lia). rewrite Hw1 in Ez, Hw |- *. apply Z.eqb_neq in Ez.
      destruct (leaf_entry_located blk p off off [(off, LeafTup t)] e Hp Hpok) as (_ & _ & _ & t' & ht & Hloc & Hv); [unfold first_off in Ho; lia|done|apply Forall_cons; split; [done|constructor]| |].
      { rewrite Hent. cbn. by left. }
      assert (t' = t) as ->. { destruct Hloc as [L1 L2 _ _ _]. cbn in L1, L2. congruence. }
      assert (0 <= w) by (unfold w; pose proof (entry_weight_nonneg (head (it_aggs t))); case_match; lia).
      destruct (cutoff_u64_run w r ltac:(lia) Hr) as (cu & Hfl & _ & Hc). exists cu, e, p, t, ht. split_and!; try done; try lia.
      { cbn [pick]. by rewrite Hwe, (proj2 (Z.ltb_lt _ _)) by lia. }
      intros h c. rewrite (bind_ok _ _ _ _ _ (Hwt h c)). cbn [head]. rewrite (bind_ok _ _ _ x (mk_bs (blk :: h) c)) by done. rewrite Eh.
      change blk with (en_blk e). change off with (en_off e). change 0 with (en_post e). apply done_sampling_run; [done|done|apply Hscan].
Qed.

Lemma draw_spec_eq l r (run run' : M sample_result) blk blk' : (forall h c, run (mk_bs (blk :: h) c) = run' (mk_bs (blk' :: h) c)) -> draw_spec l r run' blk' -> draw_spec l r run blk.
Proof.
  intros He. unfold draw_spec. case_match; [intros [inv Hi]; exists inv; intros h c; by rewrite He|].
  intros (cutoff & e & p & t & ht & H1 & H2 & H3 & H4 & H5). exists cutoff, e, p, t, ht. split_and!; try done; try lia. intros h c. by rewrite He.
Qed.

(** The start of a draw from a page: an empty range, one item, or several. *)
Lemma draw_spec_start l r fuel blk p lo hi : pages blk = Some p -> range_of p = Some (lo, hi) ->
  (lo <= hi -> draw_spec l r (if lo =? hi then
       do t <- lift (PageGetItem p lo);
       match t with
       | LeafTup t => sample_leaf_tuple fuel r (Some blk) p lo t
       | PivotTup pv =>
           do agg <- lift (read_agg pv);
           do cutoff <- lift (cutoff_u64 agg r);
           do hikey <- lift (expected_hikey p lo);
           do buf <- _abt_relandgetbuf pages (Some blk) (pv_downlink pv);
           do buf <- _abt_moveright_to_next_live_page pages fuel buf;
           match buf with
           | None => do_ _abt_relbuf buf; ret (mk_sr get_float8_infinity None)
           | Some _ =>
               do p <- BufferGetPage pages buf;
               do prev_cmpres <- lift (compare_hikey p hikey);
               if (prev_cmpres =? 0) || ABT_P_RIGHTMOST (pg_opaque p) then sample_from fuel r None buf
               else descent fuel (Some prev_cmpres) buf hikey cutoff 0 (double_of_Z agg)
           end
       end
     else sample_range fuel r (Some blk) p lo hi) blk) -> (hi < lo -> l = []) ->
  draw_spec l r (sample_from (S fuel) r None (Some blk)) blk.
Proof.
  intros Hp Hrange Hrun Hempty. destruct (Z.lt_ge_cases hi lo) as [Hlt|Hge].
  - rewrite (Hempty Hlt). exists get_float8_infinity. intros h c. cbn [sample_from]. run_step. rewrite Hrange. rewrite (bind_ok _ _ _ (lo, hi) (mk_bs (blk :: h) c)) by done.
    rewrite (proj2 (Z.ltb_lt _ _) Hlt). by run_step.
  - eapply draw_spec_eq; [|by apply Hrun]. intros h c. cbn [sample_from]. run_step. rewrite Hrange. rewrite (bind_ok _ _ _ (lo, hi) (mk_bs (blk :: h) c)) by done.
    rewrite (proj2 (Z.ltb_ge _ _)) by lia. by destruct (lo =? hi).
Qed.

Lemma sample_from_run k blk hk fuel r l : rel_ok rel -> scan_ok -> is_fraction r -> sub_ok k blk hk ->
  candidates k blk = Some l -> weight_of (subtree k blk) < 2 ^ 64 -> weight_of l < 2 ^ 64 -> (S (S k) < fuel)%nat ->
  draw_spec l r (sample_from fuel r None (Some blk)) blk.
Proof.
  intros Hrel Hscan Hr. revert blk hk fuel l. induction k as [|k IH]; intros blk hk fuel l Hsub Hcand Hw Hwl Hf; (destruct fuel as [|fuel]; [lia|]).
  { destruct Hsub as (p & all & Hp & Hlive & Hleaf & Hhk & Hpok & Hall & Hfit). cbn [candidates] in Hcand. rewrite Hp in Hcand. cbn [mbind option_bind] in Hcand.
    destruct (range_of_leaf p Hrel Hscan Hpok Hleaf) as (lo & hi & Hrange & Hlo & Hhi). rewrite Hrange in Hcand. cbn [mbind option_bind] in Hcand.
    apply (draw_spec_start l r fuel blk p lo hi Hp Hrange); [|intros Elt; rewrite (proj2 (Z.ltb_lt _ _) Elt) in Hcand; by injection Hcand as <-].
    intros Hle. specialize (Hhi Hle). rewrite (proj2 (Z.ltb_ge _ _)) in Hcand by lia.
    destruct (page_items_sub p _ _ all lo hi Hall ltac:(unfold first_off in Hlo; lia) Hhi) as (items & Hitems & Hsubset). rewrite Hitems in Hcand. cbn [mbind option_bind] in Hcand.
    assert (Hfit' : Forall leaf_fit items) by (apply Forall_forall; intros it Hit; rewrite Forall_forall in Hfit; by apply Hfit, Hsubset).
    destruct (Z.eqb_spec lo hi) as [<-|Hne].
    - pose proof (first_off_range p). destruct (item_in_range p lo ltac:(lia)) as [t Hget]. assert (items = [(lo, t)]) as ->.
      { unfold page_items in Hitems. replace (lo - lo + 1) with 1 in Hitems by lia. assert (seqZ lo 1 = [lo]) as Es by (unfold seqZ; simpl; f_equal; lia). rewrite Es in Hitems. cbn [mapM] in Hitems. rewrite Hget in Hitems. by injection Hitems as <-. }
      apply Forall_cons in Hfit' as [Hf1 _]. destruct t as [t|pv]; [|done]. rewrite Hget. eapply draw_spec_eq; [|by eapply (sample_leaf_tuple_run fuel r blk p lo t)]. intros h c. by rewrite (bind_ok _ _ _ (LeafTup t) (mk_bs (blk :: h) c)).
    - assert (Hpl : forallb is_plain items = true /\ l = leaf_entry <$> items_entries blk (fun _ => []) items /\ (l <> [] -> weight_of l <> 0)).
      { unfold leaf_candidates in Hcand. destruct (forallb is_plain items).
        - split; [done|]. destruct (leaf_entry <$> items_entries blk (fun _ => []) items) as [|e l'] eqn:El; [by injection Hcand as <-|]. destruct (Z.eqb_spec (weight_of (e :: l')) 0); [done|]. by injection Hcand as <-.
        - exfalso. assert (length items = Z.to_nat (hi - lo + 1)) by (unfold page_items in Hitems; apply mapM_Some, Forall2_length in Hitems; by rewrite length_seqZ in Hitems).
          destruct items as [|[o [t|pv]] [|it2 items]]; try done. simpl in *. lia. }
      destruct Hpl as (Hpl & Hl & Hnz). by apply (sample_range_leaf fuel r blk p lo hi items l). }
  pose proof Hsub as (p & all & Hp & Hlive & Hleaf & Hhk & Hpok & Hall & Hex & Hkids).
  cbn [candidates] in Hcand. rewrite Hp in Hcand. cbn [mbind option_bind] in Hcand.
  destruct (range_of_inner p Hrel Hscan Hpok Hleaf) as (lo & hi & Hrange & Hlo & Hhi). rewrite Hrange in Hcand. cbn [mbind option_bind] in Hcand.
  apply (draw_spec_start l r fuel blk p lo hi Hp Hrange); [|intros Elt; rewrite (proj2 (Z.ltb_lt _ _) Elt) in Hcand; by injection Hcand as <-].
  intros Hle. rewrite (proj2 (Z.ltb_ge _ _)) in Hcand by lia.
  destruct (Z.eqb_spec lo hi) as [Eq|Hne].
  - destruct (PageGetItem p lo) as [[t|pv]|] eqn:Eget; [done| |done]. cbn [mbind option_bind] in Hcand.
    assert (Hin : (lo, PivotTup pv) ∈ all) by exact (proj2 (elem_of_page_items p _ _ all lo (PivotTup pv) Hall) (conj Hlo Eget)).
    destruct (Hkids lo pv Hin) as (hk' & Hhk' & Hsub'). rewrite Forall_forall in Hex. pose proof (Hex _ Hin) as Hagg. unfold agg_exact in Hagg. cbn [snd] in Hagg.
    pose proof (child_weight_le k blk all lo pv Hin) as Hcle. rewrite (subtree_items _ _ _ _ Hp Hall) in Hw.
    destruct (cutoff_u64_defined (weight_of (subtree k (pv_downlink pv))) r) as [cu Hcu];
      [pose proof (nonneg_weight _ (subtree_nonneg k (pv_downlink pv))); lia|done|].
    assert (exists pc, pages (pv_downlink pv) = Some pc /\ ABT_P_IGNORE (pg_opaque pc) = false /\ hikey_matches pc hk') as (pc & Hpc & Hlc & Hhc)
      by (destruct k; destruct Hsub' as (pc & ? & ? & ? & _ & ? & _); eauto).
    pose proof (IH (pv_downlink pv) hk' fuel l Hsub' Hcand ltac:(lia) Hwl ltac:(lia)) as IHc.
    eapply draw_spec_eq; [|exact IHc]. intros h c. rewrite (bind_ok _ _ _ (PivotTup pv) (mk_bs (blk :: h) c)) by done. rewrite Hagg.
      rewrite (bind_ok _ _ _ (weight_of (subtree k (pv_downlink pv))) (mk_bs (blk :: h) c)) by done.
      rewrite Hcu, (bind_ok _ _ _ cu (mk_bs (blk :: h) c)) by done. rewrite Hhk', (bind_ok _ _ _ hk' (mk_bs (blk :: h) c)) by done.
      rewrite (bind_ok _ _ _ _ _ (relandgetbuf_run pages blk (pv_downlink pv) pc h c Hpc)).
      rewrite (bind_ok _ _ _ _ _ (live_page_run fuel (pv_downlink pv) pc h c Hpc Hlc ltac:(lia))). run_step.
      rewrite (compare_hikey_same pc hk' Hrel Hhc), (bind_ok _ _ _ 0 (mk_bs (pv_downlink pv :: h) c)) by done. done.
  - destruct (page_items_sub p _ _ all lo hi Hall ltac:(unfold first_off in Hlo; lia) Hhi) as (items & Hitems & Hsubset).
    rewrite Hitems in Hcand. cbn [mbind option_bind] in Hcand. injection Hcand as <-.
    assert (Hex' : Forall (agg_exact k) items) by (apply Forall_forall; intros it Hit; rewrite Forall_forall in Hex; by apply Hex, Hsubset).
    unfold draw_spec. destruct (Z.eqb_spec (weight_of (items_entries blk (subtree k) items)) 0) as [Hz|Hz].
    + exists get_float8_infinity. intros h c. by apply (sample_range_empty k fuel r blk p lo hi items).
    + assert (Hnn : 0 <= weight_of (items_entries blk (subtree k) items)) by (apply nonneg_weight, items_entries_nonneg; intros; apply subtree_nonneg).
      destruct (sample_range_run k fuel r blk p hk lo hi items Hrel Hr ltac:(lia) Hsub Hp ltac:(unfold first_off in Hlo; lia) Hhi Hitems ltac:(lia))
        as (cutoff & e & p' & Hfl & Hc & Hpick & Hp' & Hrun).
      assert (exists pl t ht, located e pl t ht /\ entry_visible t e = true) as (pl & t & ht & Hloc & Hv).
      { pose proof (pick_elem _ _ _ Hpick) as He. unfold items_entries in He. apply list_elem_of_bind in He as ([off [t|pv]] & He & Hit); cbn [fst snd] in He.
        - rewrite Forall_forall in Hex'. by specialize (Hex' _ Hit).
        - destruct (Hkids off pv (Hsubset _ Hit)) as (hk' & _ & Hs'). by apply (subtree_located k (pv_downlink pv) hk'). }
      assert (pl = p') as -> by (destruct Hloc; congruence).
      exists cutoff, e, p', t, ht. split_and!; try done; [lia|lia|]. intros h c. rewrite Hrun.
      by apply done_sampling_run; [| |apply Hscan].
Qed.

Lemma candidates_nonneg k blk l : candidates k blk = Some l -> nonneg l.
Proof.
  revert blk. induction k as [|k IH]; intros blk; cbn [candidates]; (destruct (pages blk) as [p|]; [|done]); cbn [mbind option_bind];
    (destruct (range_of p) as [[lo hi]|]; [|done]); cbn [mbind option_bind]; (destruct (hi <? lo); [intros [= <-]; constructor|]).
  - destruct (page_items p lo hi) as [items|]; [|done]. cbn [mbind option_bind]. unfold leaf_candidates. destruct (forallb is_plain items).
    + pose proof (leaf_entries_nonneg blk items) as Hn. repeat case_match; intros [= <-]; done.
    + repeat case_match; intros [= <-]. apply Forall_fmap, Forall_true. intros j. cbn. lia.
  - destruct (lo =? hi).
    + destruct (PageGetItem p lo) as [[t|pv]|]; [done|apply IH|done].
    + destruct (page_items p lo hi) as [items|]; [|done]. intros [= <-]. apply items_entries_nonneg. intros. apply subtree_nonneg.
Qed.

(** The metapage leads to the page [root], the tree's fast root. *)
Record fast_root (root : Z) (c : option ABTMetaPageData) : Prop := {
  fr_root : abtm_root meta <> ABTP_NONE;
  fr_fast : abtm_fastroot meta = root;
  fr_page : exists p, pages root = Some p /\ abtpo_level (pg_opaque p) = abtm_fastlevel meta;
  fr_meta : exists mp, pages ABTREE_METAPAGE = Some mp;
  fr_cache : c = None \/ c = Some meta
}.

Lemma sample_run k root fuel r l h c :
  rel_ok rel -> scan_ok -> so_qual_ok so = true -> is_fraction r -> fast_root root c -> sub_ok k root None ->
  candidates k root = Some l -> weight_of (subtree k root) < 2 ^ 64 -> weight_of l < 2 ^ 64 -> (S (S k) < fuel)%nat ->
  exists c', (c' = None \/ c' = Some meta) /\
  if weight_of l =? 0 then exists inv_prob, _abt_sample_extended fuel r None (mk_bs h c) = Ok (mk_sr inv_prob None) (mk_bs h c')
  else exists cutoff l1 e l2 p t ht, floor_mul_u64 (weight_of l) r = Some cutoff /\
    l = l1 ++ e :: l2 /\ weight_of l1 <= cutoff < weight_of l1 + en_weight e /\ located e p t ht /\
    _abt_sample_extended fuel r None (mk_bs h c) = Ok (outcome (double_of_Z (weight_of l)) e p t ht) (mk_bs h c').
Proof.
  intros Hrel Hscan Hq Hr [Hroot Hfast (p & Hp & Hlvl) (mp & Hmp) Hc] Hsub Hcand Hw Hwl Hf.
  assert (ABT_P_IGNORE (pg_opaque p) = false /\ ABT_P_RIGHTMOST (pg_opaque p) = true) as [Hlive Hrm].
  { destruct k; destruct Hsub as (p0 & ? & Hp0 & ? & _ & ? & _); assert (p0 = p) as -> by congruence; done. }
  destruct (getroot_page_run meta pages root p mp fuel h c true) as (c' & Hget & Hc'); try done; try lia; try (by rewrite Hrm).
  pose proof (sample_from_run k root None fuel r l Hrel Hscan Hr Hsub Hcand Hw Hwl Hf) as Hd. unfold draw_spec in Hd.
  exists c'. split; [done|]. unfold _abt_sample_extended. rewrite Hq. cbn [negb]. rewrite (bind_ok _ _ _ _ _ Hget).
  case_match; [destruct Hd as [inv Hd]; exists inv; apply Hd|]. destruct Hd as (cutoff & e & p' & t & ht & Hfl & Hcu & Hpick & Hloc & Hrun).
  destruct (pick_share cutoff l e (candidates_nonneg _ _ _ Hcand) ltac:(lia) Hpick) as (l1 & l2 & Hl & Hs).
  exists cutoff, l1, e, l2, p', t, ht. split_and!; try done; try lia; apply Hrun.
Qed.

(** ** Children that were split *)

Lemma pivot_key_ok pv key : tuple_ok rel (PivotTup pv) -> inskey_hikey (Some (PivotTup pv)) = Some key ->
  key_ok rel key (pv_key pv ++ replicate (length (rd_cols rel) - length (pv_key pv)) None) /\ keysz key = Z.of_nat (length (pv_key pv)).
Proof.
  intros Hok. unfold inskey_hikey, _abt_mkscankey_extended. cbn [ABTreeTupleGetNAtts]. rewrite (mkscankey_pivot pv Hok). cbn [mbind option_bind].
  intros [= <-]. destruct Hok as [Hl Htk]. unfold indnkeyatts. cbn [keysz]. split; [|lia]. split; cbn [scankeys keysz scantid].
  - done.
  - rewrite length_app. lia.
  - rewrite length_app, length_replicate. lia.
  - intros Hs. unfold indnkeyatts. revert Hs. destruct (heapkeyspace _); simpl; [|done]. intros Hs. rewrite Htk by done. lia.
Qed.

(** A page whose high key is below the expected one compares as greater. *)
Lemma compare_hikey_split p pv pv' : rel_ok rel -> tuple_ok rel (PivotTup pv) -> tuple_ok rel (PivotTup pv') ->
  ABT_P_RIGHTMOST (pg_opaque p) = false -> PageGetItem p ABTP_HIKEY = Some (PivotTup pv') ->
  lexcmp (rd_cols rel) (pv_key pv') (pv_key pv) < 0 ->
  exists c, compare_hikey p (Some (PivotTup pv)) = Some c /\ 0 < c.
Proof.
  intros Hrel Hok Hok' Hr Hget Hlt. unfold compare_hikey. rewrite Hr.
  assert (exists key, inskey_hikey (Some (PivotTup pv)) = Some key) as [key Hkey].
  { unfold inskey_hikey, _abt_mkscankey_extended. cbn [ABTreeTupleGetNAtts]. rewrite (mkscankey_pivot pv Hok). by eexists. }
  destruct (pivot_key_ok pv key Hok Hkey) as [Hk Hsz]. rewrite Hkey. cbn [mbind option_bind].
  unfold _abt_compare, ABT_P_FIRSTDATAKEY. rewrite Hr, andb_false_r, Hget. cbn [mbind option_bind].
  rewrite (compare_tuple_eq rel key _ _ Hrel Hk Hok'). eexists. split; [reflexivity|]. cbv zeta. cbn [tuple_key].
  rewrite Hsz, Nat2Z.id. set (args := pv_key pv ++ _).
  destruct (keycmp_mono (length (pv_key pv)) (rd_cols rel) args (pv_key pv') (pv_key pv)) as (M1 & _ & M3).
  { apply Hrel. } { unfold args. rewrite length_app. lia. } { apply Hok. } { done. }
  assert (Hself : keycmp (length (pv_key pv)) (rd_cols rel) args (pv_key pv) = 0) by (apply keycmp_refl; [apply Hrel|apply Hok]).
  destruct (Z.eqb_spec (keycmp (length (pv_key pv)) (rd_cols rel) args (pv_key pv')) 0) as [E|E]; [|lia].
  destruct (M3 Hself E). lia.
Qed.

End Sample.

(** A child page, not the rightmost, that was split after its parent was read ends the draw.  Its high key
    is below the one the parent had for it, which the descent takes for having moved out
    of the range: it gives up with the inverse probability it had, instead of going on to
    the right sibling.  (The rightmost child has no expected high key; the comparison gives
    zero and the draw goes on.) *)
Theorem split_child_rejected rel pages ai agg_map_val read_agg so fuel blk p pv pv' cutoff acc inv_prob h c :
  rel_ok rel -> tuple_ok rel (PivotTup pv) -> tuple_ok rel (PivotTup pv') ->
  pages blk = Some p -> ABT_P_IGNORE (pg_opaque p) = false -> ABT_P_RIGHTMOST (pg_opaque p) = false ->
  PageGetItem p ABTP_HIKEY = Some (PivotTup pv') -> lexcmp (rd_cols rel) (pv_key pv') (pv_key pv) < 0 ->
  descent rel pages ai agg_map_val read_agg so (S (S fuel)) None (Some blk) (Some (PivotTup pv)) cutoff acc inv_prob (mk_bs (blk :: h) c) =
  Ok (mk_sr inv_prob None) (mk_bs h c).
Proof.
  intros Hrel Hok Hok' Hp Hl Hr Hget Hlt.
  destruct (compare_hikey_split rel so p pv pv' Hrel Hok Hok' Hr Hget Hlt) as (r & Hcmp & Hpos).
  cbn [descent]. rewrite (bind_ok _ _ _ _ _ (live_page_run pages (S fuel) blk p h c Hp Hl ltac:(lia))). run_step.
  rewrite Hcmp, (bind_ok _ _ _ r (mk_bs (blk :: h) c)) by done. rewrite (proj2 (Z.ltb_lt _ _)) by lia. by run_step.
Qed.

Definition split_page : page := mk_pg [hik 30; plain 10 (mk_tid 0 1)] (mk_opaque 0 5 0 ABTP_LEAF 0).
Definition split_scan : scan := mk_scan None true [] None None (demo_key 0 None) false false false true.

Lemma split_child_rejected_witness :
  descent demo_rel (fun _ => Some split_page) (mk_agg 8 8 false 8 16 24) 1 (fun _ => Some 1) split_scan 2 None (Some 4)
    (Some (PivotTup (mk_pivot [Some 50] None 9 9 0))) 7 0 (double_of_Z 20) (mk_bs [4] None) =
  Ok (mk_sr (double_of_Z 20) None) (mk_bs [] None).
Proof.
  apply (split_child_rejected demo_rel (fun _ => Some split_page) (mk_agg 8 8 false 8 16 24) 1 (fun _ => Some 1) split_scan 0 4 split_page
    (mk_pivot [Some 50] None 9 9 0) (mk_pivot [Some 30] None 0 0 0)).
  - apply demo_rel_ok.
  - split; [simpl; lia|done].
  - split; [simpl; lia|done].
  - reflexivity.
  - reflexivity.
  - reflexivity.
  - reflexivity.
  - reflexivity.
Defined.

(** ** Posting lists on the first page *)

(** The item index of an entry of a posting list has the tuple's offset but not the
    entry's: the posting offset read back from it is 0 whatever was stored, so a draw that
    chooses from a leaf page by item index returns the first TID of a posting list. *)
Theorem itemindex_loses_posting_off off posting_off : 0 <= off < 2 ^ 16 -> 0 <= posting_off < 2 ^ 16 ->
  let idx := ABT_OFFSET_AND_POSTING_OFF_GET_ITEMINDEX off posting_off in
  ABT_ITEMINDEX_GET_OFFSET idx = off /\ ABT_ITEMINDEX_GET_POSTING_OFF idx = 0.
Proof.
  intros Ho Hp. unfold ABT_OFFSET_AND_POSTING_OFF_GET_ITEMINDEX.
  assert (Z.land (u32 posting_off) ABT_ITEMINDEX_POSTING_OFF_MASK = 0) as ->.
  { rewrite u32_small, Z.land_comm by lia. change ABT_ITEMINDEX_POSTING_OFF_MASK with (Z.shiftl 0xffff 16). by apply land_shifted_low. }
  change (u32 (Z.shiftl 0 ABT_ITEMINDEX_POSTING_OFF_SHIFT)) with 0. rewrite Z.lor_0_r. split; [by apply itemindex_offset|].
  unfold ABT_ITEMINDEX_GET_POSTING_OFF, ABT_OFFSET_GET_ITEMINDEX. rewrite <- Z.land_assoc.
  change (Z.land ABT_ITEMINDEX_OFFSET_MASK ABT_ITEMINDEX_POSTING_OFF_MASK) with 0. by rewrite Z.land_0_r.
Qed.

Lemma itemindex_loses_posting_off_witness :
  ABT_ITEMINDEX_GET_OFFSET (ABT_OFFSET_AND_POSTING_OFF_GET_ITEMINDEX 3 2) = 3 /\
  ABT_ITEMINDEX_GET_POSTING_OFF (ABT_OFFSET_AND_POSTING_OFF_GET_ITEMINDEX 3 2) = 0.
Proof. apply (itemindex_loses_posting_off 3 2); lia. Defined.

(** With a hidden entry before it, an entry is counted with its predecessor's weight. *)
Example posting_weight_shift so offnum w1 w2 x1 x2 : hidden_xid so x1 = true -> hidden_xid so x2 = false ->
  posting_items (mk_agg 8 8 true 16 16 24) so offnum 0 [x1; x2] [w1; w2] =
  Some [(u64 w1, ABT_OFFSET_AND_POSTING_OFF_GET_ITEMINDEX offnum 1)].
Proof. intros H1 H2. simpl. by rewrite H1, H2. Qed.

End Sample.
