(* ===== verification/Draw.v ===== *)
(** * Sampling under a snapshot: the descent and the version store together

    The aggregate of a pivot tuple as the version store gives it: the stored value less
    what the snapshot must not see, from the version chain of the child.  On a tree whose
    pivots hold the aggregates and version chains of their children, a draw returns an
    entry the snapshot sees with probability proportional to its weight.  Examples at the end
    run the draws on a leaf page for which this does not hold. *)

From stdpp Require Import base numbers option sorting list.
From S2P Require Import Prelude Tuple Dedup Versions Double Page Search Btree Quals Sample.

Module Draw.
Import Tuple Dedup Versions Double Page Search Btree Quals Sample.

Section Draw.
Context (rel : index_rel) (meta : ABTMetaPageData) (pages : Z -> option page).
Context (ai : agg_info) (agg_map_val : Z) (so : scan).
Context (base Recent : Z) (chain_of : Z -> list version).

Abbreviation typlen := (agg_typlen ai).

(** Reading a pivot under the scan's snapshot ([exclude_agg] is what the version store's
    read refines). *)
Definition store_read (pv : pivot) : option Z :=
  Some (exclude_agg typlen (pv_agg pv) (so_snapshot so) (chain_of (pv_downlink pv))).

(** All entries below a page, hidden ones included, with their xmins. *)
Fixpoint posting_versions (xmins aggs : list Z) : list version :=
  match xmins with
  | [] => []
  | x :: xmins => (x, entry_weight ai agg_map_val (head aggs)) :: posting_versions xmins (tail aggs)
  end.

Definition tuple_versions (t : itup) : list version :=
  posting_versions (if is_posting t then it_xmins t else take 1 (it_xmins t)) (it_aggs t).

Fixpoint page_tree (k : nat) (blk : Z) : tree :=
  match pages blk with
  | None => Leaf []
  | Some p =>
      match k with
      | O => Leaf (data_items p ≫= fun it => match snd it with LeafTup t => tuple_versions t | PivotTup _ => [] end)
      | S k => Inner (data_items p ≫= fun it => match snd it with LeafTup _ => [] | PivotTup pv => [page_tree k (pv_downlink pv)] end)
      end
  end.

(** A pivot with the summary of its child: aggregate and version chain. *)
Definition agg_versioned (k : nat) (it : Z * index_tuple) : Prop :=
  match snd it with
  | LeafTup _ => False
  | PivotTup pv =>
      summarises base Recent (entries (page_tree k (pv_downlink pv))) (pv_agg pv) (chain_of (pv_downlink pv)) /\
      Forall (entry_ok base) (entries (page_tree k (pv_downlink pv))) /\
      sum_if TransactionIdIsValid (entries (page_tree k (pv_downlink pv))) < 2 ^ (8 * typlen - 1)
  end.

Abbreviation visible := (fun x => negb (_abt_xid_in_snapshot x (so_snapshot so))).

Lemma posting_versions_sum blk off i xmins aggs :
  sum_if visible (posting_versions xmins aggs) = weight_of (posting_entries ai agg_map_val so blk off i xmins aggs).
Proof.
  revert i aggs. induction xmins as [|x xmins IH]; intros i aggs; [done|]. cbn [posting_versions sum_if posting_entries].
  rewrite (IH (i + 1) (tail aggs)). change (hidden_xid so x) with (_abt_xid_in_snapshot x (so_snapshot so)).
  destruct (_abt_xid_in_snapshot x (so_snapshot so)); simpl negb; cbv iota; [lia|]. rewrite weight_of_cons. cbn [en_weight]. lia.
Qed.

Lemma leaf_versions_sum blk f items : Forall (leaf_fit ai so) items ->
  sum_if visible (items ≫= fun it => match snd it with LeafTup t => tuple_versions t | PivotTup _ => [] end) =
  weight_of (items_entries ai agg_map_val so blk f items).
Proof.
  induction 1 as [|[off [t|pv]] items Hf Hfit IH]; [done| |done]. rewrite bind_cons, sum_if_app, IH, items_entries_cons, weight_of_app.
  f_equal. cbn [snd fst]. apply posting_versions_sum.
Qed.

Lemma inner_versions_sum k blk items :
  (forall off pv, (off, PivotTup pv) ∈ items ->
    sum_if visible (entries (page_tree k (pv_downlink pv))) = weight_of (subtree pages ai agg_map_val so k (pv_downlink pv))) ->
  Forall (agg_versioned k) items ->
  sum_if visible ((items ≫= fun it => match snd it with LeafTup _ => [] | PivotTup pv => [page_tree k (pv_downlink pv)] end) ≫= entries) =
  weight_of (items_entries ai agg_map_val so blk (subtree pages ai agg_map_val so k) items).
Proof.
  intros Hsum Hv. induction Hv as [|[off [t|pv]] items Hf Hv IH]; [done|done|].
  rewrite bind_cons, bind_app, sum_if_app, items_entries_cons, weight_of_app. f_equal.
  - cbn [snd fst]. rewrite bind_singleton. apply (Hsum off). by left.
  - apply IH. intros o q Hin. apply (Hsum o). by right.
Qed.

Context (s : ABTSnapshot) (Hsnap : so_snapshot so = Some s) (Htyp : typlen = 2 \/ typlen = 4 \/ typlen = 8).
Context (Hs : snapshot_ok base s) (HR : xid_ok base Recent) (Hmin : TransactionIdPrecedes (sn_xmin s) Recent = false).

(** The summaries stored in the pivots make the aggregates read from them exact. *)
Lemma versioned_exact k blk hk : tree_shape rel pages ai so agg_versioned k blk hk ->
  sub_ok rel pages ai agg_map_val store_read so k blk hk /\
  sum_if visible (entries (page_tree k blk)) = weight_of (subtree pages ai agg_map_val so k blk).
Proof.
  revert blk hk. induction k as [|k IH]; intros blk hk (p & items & Hp & Hl & Hlf & Hh & Hok & Hi & Hrest);
    rewrite (subtree_items _ _ _ _ _ _ _ _ Hp Hi).
  - split; [exists p, items; by split_and!|]. cbn [page_tree]. rewrite Hp. unfold data_items. rewrite Hi. cbn [default entries].
    by apply leaf_versions_sum.
  - destruct Hrest as [Hv Hkids].
    assert (Hsum : forall off pv, (off, PivotTup pv) ∈ items ->
      sum_if visible (entries (page_tree k (pv_downlink pv))) = weight_of (subtree pages ai agg_map_val so k (pv_downlink pv))).
    { intros off pv Hin. destruct (Hkids off pv Hin) as (hk' & _ & Hk). by destruct (IH _ _ Hk). }
    split.
    + exists p, items. split_and!; try done.
      * apply Forall_forall. intros [off [t|pv]] Hin; rewrite Forall_forall in Hv; pose proof (Hv _ Hin) as Hit; [done|].
        unfold agg_exact, agg_versioned in *. cbn [snd] in *. destruct Hit as (Hsm & Hes & Hb).
        unfold store_read. rewrite Hsnap, (summary_read base typlen Recent s _ _ _ Htyp Hs HR Hmin Hes Hb Hsm), <- Hsnap. f_equal. by apply (Hsum off).
      * intros off pv Hin. destruct (Hkids off pv Hin) as (hk' & He & Hk). exists hk'. split; [done|]. by destruct (IH _ _ Hk).
    + cbn [page_tree]. rewrite Hp. unfold data_items. rewrite Hi. cbn [default entries]. by apply inner_versions_sum.
Qed.

(** What a draw with the random number [r] gives: nothing if the candidates weigh nothing,
    and else the entry whose share of [0, total weight) the cutoff falls into. *)
Definition draw_result (fuel : nat) (r : double) (l : list entry) h c c' : Prop :=
  if weight_of l =? 0 then
    exists inv_prob, _abt_sample_extended rel meta pages ai agg_map_val store_read so fuel r None (mk_bs h c) = Ok (mk_sr inv_prob None) (mk_bs h c')
  else exists cutoff l1 e l2 p t ht, floor_mul_u64 (weight_of l) r = Some cutoff /\
    l = l1 ++ e :: l2 /\ weight_of l1 <= cutoff < weight_of l1 + en_weight e /\ located rel pages ai e p t ht /\
    _abt_sample_extended rel meta pages ai agg_map_val store_read so fuel r None (mk_bs h c) =
      Ok (outcome ai so (double_of_Z (weight_of l)) e p t ht) (mk_bs h c').

(** The tree a scan draws from, with its candidates. *)
Record drawable (k : nat) (root : Z) (l : list entry) : Prop := {
  dr_rel : rel_ok rel;
  dr_scan : scan_ok rel so;
  dr_quals : so_qual_ok so = true;
  dr_shape : tree_shape rel pages ai so agg_versioned k root None;
  dr_candidates : candidates rel pages ai agg_map_val so k root = Some l;
  dr_total : weight_of (subtree pages ai agg_map_val so k root) < 2 ^ 64;
  dr_weight : weight_of l < 2 ^ 64
}.

Lemma draw_run k root fuel r l h c : drawable k root l -> is_fraction r -> fast_root meta pages root c -> (S (S k) < fuel)%nat ->
  exists c', (c' = None \/ c' = Some meta) /\ draw_result fuel r l h c c'.
Proof.
  intros [Hrel Hscan Hq Hsh Hc Hw Hwl] Hr Hfr Hf. apply (sample_run rel meta pages ai agg_map_val store_read so k root); try done.
  by apply versioned_exact.
Qed.

(** C2: Sampling draws by weight.  On an ordered tree whose pivots hold the aggregates
    and version chains of their children (and where a posting list with stored weights has
    no hidden entry), a draw with a random number in [0, 1) among the candidates [l] of the
    scan (on the first internal page where the scan's keys leave a choice the visible
    entries below it, else on the leaf page those of plain tuples, or of one posting list
    without stored weights) returns no entry if they weigh nothing.  Otherwise it scales
    the random number to a cutoff in [0, total weight) and chooses the entry whose share of
    that interval, as long as its weight, the cutoff falls into; the caller gets it, unless
    it is hidden, killed or fails the scan's quals, with the total weight divided by its
    stored weight as inverse probability.  If the index stores no weights but a constant,
    the total weight is reported undivided: the inverse probability if the constant is 1.
    No buffer stays locked. *)
Theorem sample_draws_by_weight k root fuel r l h c : drawable k root l -> is_fraction r -> fast_root meta pages root c -> (S (S k) < fuel)%nat ->
  exists c', draw_result fuel r l h c c'.
Proof. intros Hd Hr Hfr Hf. destruct (draw_run k root fuel r l h c Hd Hr Hfr Hf) as (c' & _ & H). by exists c'. Qed.

End Draw.

(** ** A concrete draw *)

(** Two leaves under a root; stored weights; xid 105 is in progress. *)
Definition weighted (k : Z) (t : tid) (w x : Z) : bool * index_tuple := (false, LeafTup (mk_itup [Some k] 32 None [t] [w] [x])).

Definition demo_ai : agg_info := mk_agg 8 8 true 16 16 24.

Definition demo_pages (blk : Z) : option page :=
  if blk =? 0 then Some (mk_pg [] (mk_opaque 0 0 0 ABTP_META 0))
  else if blk =? 1 then Some (mk_pg [down [] 2 12; down [Some 30] 3 9] (mk_opaque 0 0 1 ABTP_ROOT 0))
  else if blk =? 2 then
    Some (mk_pg [hik 30; weighted 10 (mk_tid 0 1) 5 104; weighted 20 (mk_tid 0 2) 7 105] (mk_opaque 0 3 0 ABTP_LEAF 0))
  else if blk =? 3 then
    Some (mk_pg [weighted 30 (mk_tid 0 3) 2 104;
      (false, LeafTup (mk_itup [Some 40] 64 (Some 16) [mk_tid 0 4; mk_tid 0 5] [3; 4] [104; 104]))] (mk_opaque 2 0 0 ABTP_LEAF 0))
  else None.

Definition demo_chain (blk : Z) : list version := if blk =? 2 then [(105, 7); (104, 5)] else [(104, 9)].

Definition demo_scan : scan := mk_scan (Some demo_abt_snapshot) true [] None None (demo_key 0 None) false true false true.

Definition demo_candidates : list entry := [mk_entry 2 2 0 5; mk_entry 3 1 0 2; mk_entry 3 2 0 3; mk_entry 3 2 1 4].

Lemma demo_summary blk w : In (blk, w) [(2, 12); (3, 9)] ->
  summarises 50 102 (entries (page_tree demo_pages demo_ai 0 0 blk)) w (demo_chain blk) /\
  Forall (entry_ok 50) (entries (page_tree demo_pages demo_ai 0 0 blk)) /\
  sum_if TransactionIdIsValid (entries (page_tree demo_pages demo_ai 0 0 blk)) < 2 ^ 63.
Proof.
  assert (E2 : entries (page_tree demo_pages demo_ai 0 0 2) = [(104, 5); (105, 7)]) by (vm_compute; reflexivity).
  assert (E3 : entries (page_tree demo_pages demo_ai 0 0 3) = [(104, 2); (104, 3); (104, 4)]) by (vm_compute; reflexivity).
  assert (Hok : forall x v, 100 <= x < 200 -> 0 <= v -> entry_ok 50 (x, v)) by (intros x v ? ?; split; [intros _; by apply demo_xid_ok|done]).
  assert (Hsum : summary 8 102 (page_tree demo_pages demo_ai 0 0 blk) = Some (w, demo_chain blk) ->
    Forall (entry_ok 50) (entries (page_tree demo_pages demo_ai 0 0 blk)) ->
    sum_if TransactionIdIsValid (entries (page_tree demo_pages demo_ai 0 0 blk)) < 2 ^ 63 ->
    summarises 50 102 (entries (page_tree demo_pages demo_ai 0 0 blk)) w (demo_chain blk)).
  { intros Hs He Hb. destruct (tree_summary 50 8 102 _ eq_refl He Hb) as (agg & chain & Hs' & Hsu). rewrite Hs in Hs'. by injection Hs' as <- <-. }
  intros [[= <- <-]|[[= <- <-]|[]]]; rewrite ?E2, ?E3 in *;
    (split; [apply Hsum; [vm_compute; reflexivity| |vm_compute; reflexivity]|split; [|vm_compute; reflexivity]]);
    by repeat (apply Forall_cons; split); [apply Hok; lia..|].
Qed.

Lemma demo_leaf_shape blk hk p items : In blk [2; 3] -> demo_pages blk = Some p -> hikey_matches demo_rel p hk ->
  page_items p (ABT_P_FIRSTDATAKEY (pg_opaque p)) (PageGetMaxOffsetNumber p) = Some items -> Forall (leaf_fit demo_ai demo_scan) items ->
  page_ok demo_rel p ->
  tree_shape demo_rel demo_pages demo_ai demo_scan (agg_versioned demo_pages demo_ai 0 50 102 demo_chain) 0 blk hk.
Proof.
  intros Hb Hp Hh Hi Hf Hok. exists p, items. destruct Hb as [<-|[<-|[]]]; injection Hp as <-; by split_and!.
Qed.

Lemma demo_versioned : tree_shape demo_rel demo_pages demo_ai demo_scan (agg_versioned demo_pages demo_ai 0 50 102 demo_chain) 1 1 None.
Proof.
  eexists _, [(1, PivotTup (mk_pivot [] None 2 12 0)); (2, PivotTup (mk_pivot [Some 30] None 3 9 0))].
  do 3 (split; [reflexivity|]). split; [done|]. split; [demo_page|]. split; [reflexivity|]. split.
  - repeat (apply Forall_cons; split); [apply demo_summary; by left|apply demo_summary; by right; left|constructor].
  - intros off pv [E|[E|[]%elem_of_nil]%elem_of_cons]%elem_of_cons; injection E as -> ->; (eexists; split; [reflexivity|]).
    + eapply (demo_leaf_shape 2 _ _ [(2, LeafTup _); (3, LeafTup _)]); [by left|reflexivity| |reflexivity| |demo_page].
      * split; [done|]. split; [split; simpl; [lia|done]|by eexists].
      * repeat (apply Forall_cons; split); [..|constructor]; by split.
    + eapply (demo_leaf_shape 3 _ _ [(1, LeafTup _); (2, LeafTup _)]); [by right; left|reflexivity|done|reflexivity| |demo_page].
      repeat (apply Forall_cons; split); [by split| |constructor]. split; try done. intros _ _. repeat constructor.
Qed.

(** Half of the total weight, 7 of 14, falls into the share of the first entry of the
    posting list, which weighs 3. *)
Example demo_draw :
  _abt_sample_extended demo_rel demo_meta demo_pages demo_ai 0 (store_read demo_ai demo_scan demo_chain) demo_scan 5 half None (mk_bs [] None) =
  Ok (mk_sr (ddiv (double_of_Z 14) (double_of_Z 3)) (Some (mk_pos None 3 0 (mk_tid 0 4) 2 None))) (mk_bs [] (Some demo_meta)).
Proof. vm_compute. reflexivity. Qed.

Lemma demo_drawable : drawable demo_rel demo_pages demo_ai 0 demo_scan 50 102 demo_chain 1 1 demo_candidates.
Proof. split; [apply demo_rel_ok|split; [done|done|constructor]|done|apply demo_versioned|done|done|done]. Qed.

Lemma sample_draws_by_weight_witness :
  exists c', draw_result demo_rel demo_meta demo_pages demo_ai 0 demo_scan demo_chain 5 half demo_candidates [] None c'.
Proof.
  apply (sample_draws_by_weight demo_rel demo_meta demo_pages demo_ai 0 demo_scan 50 102 demo_chain demo_abt_snapshot
    eq_refl ltac:(right; by right) demo_snapshot_ok (demo_xid_ok 102 ltac:(lia)) eq_refl 1 1 5 half demo_candidates [] None).
  - apply demo_drawable.
  - apply half_fraction.
  - split; [done|done|by eexists|by eexists|by left].
  - lia.
Defined.

(** ** Draws decided on a leaf page *)

(** A leaf page as root. *)
Definition leaf_root (items : list (bool * index_tuple)) (blk : Z) : option page :=
  if blk =? 0 then Some (mk_pg [] (mk_opaque 0 0 0 ABTP_META 0))
  else if blk =? 1 then Some (mk_pg items (mk_opaque 0 0 0 (ABTP_ROOT + ABTP_LEAF) 0)) else None.
Definition leaf_meta : ABTMetaPageData := mk_meta 1 0 1 0.
Definition leaf_draw (items : list (bool * index_tuple)) (r : double) :=
  _abt_sample_extended demo_rel leaf_meta (leaf_root items) demo_ai 0 (store_read demo_ai demo_scan demo_chain) demo_scan 5 r None (mk_bs [] None).

(** Half of 5 + 7 falls into the share of the second tuple. *)
Example leaf_draw_plain : leaf_draw [weighted 10 (mk_tid 0 1) 5 104; weighted 20 (mk_tid 0 2) 7 104] half =
  Ok (mk_sr (ddiv (double_of_Z 12) (double_of_Z 7)) (Some (mk_pos None 1 0 (mk_tid 0 2) 2 None))) (mk_bs [] (Some leaf_meta)).
Proof. vm_compute. reflexivity. Qed.

(** Half of 1 + 2 + 9 falls into the share of TID (0, 3), the second entry of the posting
    list, but the draw returns its first, with the first one's weight. *)
Example leaf_draw_posting : leaf_draw [weighted 10 (mk_tid 0 1) 1 104;
    (false, LeafTup (mk_itup [Some 40] 64 (Some 16) [mk_tid 0 2; mk_tid 0 3] [2; 9] [104; 104]))] half =
  Ok (mk_sr (ddiv (double_of_Z 12) (double_of_Z 2)) (Some (mk_pos None 1 0 (mk_tid 0 2) 2 None))) (mk_bs [] (Some leaf_meta)).
Proof. vm_compute. reflexivity. Qed.

(** If all weights are zero, the item is read behind the end of the array. *)
Example leaf_draw_weightless : leaf_draw [weighted 10 (mk_tid 0 1) 0 104; weighted 20 (mk_tid 0 2) 0 104] half = Error BadItem.
Proof. vm_compute. reflexivity. Qed.

End Draw.
