(* ===== verification/Range.v ===== *)
(** * The range of a sampling scan

    A sampling scan preprocesses its quals once and builds one insertion key per direction
    (abtsampletuple of abtree.c and _abt_total_weight of abtsearch.c).  The two keys
    delimit the children every draw chooses from.  In a tree whose pivots separate the
    tuples below them, that range has every entry the quals accept: together with the
    distribution of a draw (Draw) this makes sampling complete. *)

From stdpp Require Import base numbers option sorting list.
From S2P Require Import Prelude Tuple Dedup Versions Double Page Search Btree Quals Start Sample Draw.

Module Range.
Import Tuple Dedup Versions Double Page Search Btree Quals Start Sample Draw.

(** ** Preparing the keys *)

Section Prepare.
Context (rel : index_rel) (indoption : list Z) (opcintype : Z -> Z) (opfamily : Z -> Z -> Z -> Z -> option (Z -> Z -> Z)).
Context (procinfo : Z -> Z -> Z -> Z) (opfamily_proc : Z -> Z -> option (Z -> Z -> Z)).

Record prepared := mk_prepared {
  pp_qual_ok : bool;
  pp_keyData : list ScanKey;
  pp_inskey_low : option ABTScanInsertData;
  pp_inskey_high : option ABTScanInsertData
}.

(** The keys of a scan that has not been preprocessed since the last rescan. *)
Definition prepare_scan_keys (keys : list ScanKey) : res prepared :=
  let? (qual_ok, out) := _abt_preprocess_keys indoption opcintype opfamily keys in
  let? (qual_ok, low) := _abt_build_start_inskey rel opcintype procinfo opfamily_proc Forward qual_ok out in
  let? (qual_ok, high) := _abt_build_start_inskey rel opcintype procinfo opfamily_proc Backward qual_ok out in
  Val (mk_prepared qual_ok out (fst <$> low) (fst <$> high)).

End Prepare.

(** ** Keys of the index's own types *)

Section Plain.
Context (rel : index_rel) (indoption : list Z) (opcintype : Z -> Z) (opfamily : Z -> Z -> Z -> Z -> option (Z -> Z -> Z)).
Context (cmp : Z -> Z * Z -> Z * Z -> Z) `{!OpFamily opfamily cmp}.
Context (procinfo : Z -> Z -> Z -> Z) (opfamily_proc : Z -> Z -> option (Z -> Z -> Z)) `{!OrderProcs opcintype procinfo opfamily_proc cmp}.

Abbreviation nulls_first := (Quals.nulls_first indoption).
Abbreviation desc := (Quals.desc indoption).

(** A key whose argument has the column's type; a row comparison uses the column's order
    function.  A NULL argument is the Datum 0. *)
Definition plain_arg (k : skey) : Prop := flag k SK_ISNULL = true -> sk_argument k = 0.
Definition plain_key (sk : ScanKey) : Prop :=
  if flag (sk_head sk) SK_ROW_HEADER then Forall (fun m => plain_arg m /\ sk_func m = procinfo (sk_attno m)) (sk_row sk)
  else plain_arg (sk_head sk) /\
    (sk_subtype (sk_head sk) = opcintype (sk_attno (sk_head sk)) \/ sk_subtype (sk_head sk) = InvalidOid).

(** The columns of the index as the relation has them. *)
Record columns_match : Prop := {
  cm_length : length (rd_cols rel) = length indoption;
  cm_column i c : rd_cols rel !! i = Some c ->
    c = mk_col (nulls_first (Z.of_nat i + 1)) (desc (Z.of_nat i + 1)) (procinfo (Z.of_nat i + 1))
}.

Lemma plain_supported sk : plain_key sk -> supported opcintype opfamily_proc sk.
Proof. unfold plain_key, supported. intros Hp Hr. rewrite Hr in Hp. right. apply Hp. Qed.

(** An entry with argument [x] of column [a]. *)
Definition column_entry (a : Z) (x : option Z) : ScanKeyData :=
  mk_sk (match x with None => true | Some _ => false end) (nulls_first a) (desc a) a (procinfo a) (default 0 x).

Lemma insertion_column k f a : sk_attno k = a -> flag k SK_ABT_DESC = desc a -> flag k SK_ABT_NULLS_FIRST = nulls_first a ->
  plain_arg k -> f = procinfo a -> exists x, insertion_entry k f = column_entry a x.
Proof.
  intros Ha Hd Hn Hp ->. unfold insertion_entry, column_entry. rewrite Ha, Hd, Hn. unfold plain_arg in Hp.
  destruct (flag k SK_ISNULL); [exists None; by rewrite Hp|by exists (Some (sk_argument k))].
Qed.

Lemma source_column a e :
  entry_source indoption opcintype cmp procinfo opfamily_proc plain_key a e -> exists x, e = column_entry a x.
Proof.
  intros (sk & Hp & [[(Ha & _ & Hf) Hc]|(m & Hr & Hin & Hm & Ha & ->)]); unfold plain_key in Hp.
  - unfold convert in Hc. destruct (flag (sk_head sk) SK_ROW_HEADER).
    + destruct Hf as (_ & Hh & Hrow). unfold row_header_ok in Hh. destruct (sk_row sk) as [|m row]; [done|].
      injection Hc as <-. destruct Hh as (Hma & _). inversion Hp as [|? ? [Hpa Hfun] _]; subst. destruct Hrow as [[_ _ Hd Hn _] _].
      rewrite Hma in *. by apply insertion_column.
    + destruct Hp as [Hpa Hty]. unfold convert_simple in Hc.
      rewrite (proj2 (orb_true_iff _ _)) in Hc by (rewrite !Z.eqb_eq; tauto). injection Hc as <-.
      destruct Hf. by apply insertion_column; [| | | |rewrite Ha].
  - rewrite Hr in Hp. rewrite Forall_forall in Hp. destruct (Hp m Hin) as [Hpa Hfun]. destruct Hm as [_ _ Hd Hn _].
    rewrite Ha in *. by apply insertion_column.
Qed.

Lemma entries_columns n cols es :
  (forall i c, cols !! i = Some c -> c = mk_col (nulls_first (Z.of_nat (n + i) + 1)) (desc (Z.of_nat (n + i) + 1)) (procinfo (Z.of_nat (n + i) + 1))) ->
  (length es <= length cols)%nat -> (forall i e, es !! i = Some e -> exists x, e = column_entry (Z.of_nat (n + i) + 1) x) ->
  exists args, length args = length es /\ es = key_entries (Z.of_nat n + 1) cols args.
Proof.
  revert n cols. induction es as [|e es IH]; intros n cols Hc Hl He; [exists []; split; [done|by destruct cols]|].
  destruct cols as [|c cols]; [simpl in Hl; lia|]. destruct (He 0%nat e eq_refl) as [x ->]. simpl in Hl.
  destruct (IH (S n) cols) as (args & Hla & ->); [|lia| |].
  - intros i c' Hi. replace (S n + i)%nat with (n + S i)%nat by lia. by apply (Hc (S i)).
  - intros i e' Hi. replace (S n + i)%nat with (n + S i)%nat by lia. by apply (He (S i)).
  - exists (x :: args). split; [simpl; lia|]. simpl. rewrite (Hc 0%nat c eq_refl), Nat.add_0_r. simpl.
    by replace (Z.of_nat n + 1 + 1) with (Z.of_nat (S n) + 1) by lia.
Qed.

(** The keys of a prepared scan are insertion keys on the first columns of the index,
    and matching tuples lie between them. *)
Lemma prepared_key dir out : outs indoption opcintype cmp out -> Forall plain_key out -> columns_match ->
  exists qual_ok o, _abt_build_start_inskey rel opcintype procinfo opfamily_proc dir true out = Val (qual_ok, o) /\
    (qual_ok = false -> forall t, all_sat t out = false) /\
    (forall key goback, o = Some (key, goback) -> goback = ScanDirectionIsBackward dir /\ scantid key = None /\ (exists args, key_ok rel key args) /\
      forall t, tuple_ok rel (LeafTup t) -> indnkeyatts rel <= rd_natts rel -> all_sat (it_key t) out = true ->
        exists c, compare_tuple (rd_natts rel) key (LeafTup t) = Some c /\ in_range dir key c).
Proof.
  intros Ho Hpl Hcm. rewrite Forall_forall in Hpl.
  destruct (build_run rel indoption opcintype opfamily cmp procinfo opfamily_proc dir out plain_key) as (qual_ok & o & Hrun & Hq & Hkey).
  { apply plain_supported. }
  { intros k a. unfold plain_key. replace (flag _ SK_ROW_HEADER) with false.
    - split; [done|by right].
    - symmetry. rewrite notnull_flags. change (Z.land (Z.lor SK_ABT_DESC SK_ABT_NULLS_FIRST) SK_ROW_HEADER) with 0. by rewrite Z.land_0_r. }
  { intros sk Hin. split; [by eapply outs_fixed|by apply Hpl]. }
  exists qual_ok, o. split; [done|]. split; [done|]. intros key goback E. destruct (Hkey key goback E) as [Hg [(aei & nk & es & ->) Hat Hsrc Hlen Hb]].
  cbn [scankeys] in *. split; [done|]. split; [done|]. split.
  - destruct (entries_columns 0 (rd_cols rel) es) as (args & Hla & He).
    + intros i c Hi. apply (cm_column Hcm i c Hi).
    + rewrite (cm_length Hcm). lia.
    + intros i e Hi. by apply source_column, Hsrc.
    + exists args. split; cbn [scankeys keysz scantid]; [done|lia|rewrite (cm_length Hcm); lia|done].
  - intros t Hok Hna Ht. destruct Hok as (Hn & lo & hi & Hlo & _). exists (firstnz (entry_compare (it_key t) <$> es)).
    unfold indnkeyatts in Hna. rewrite (cm_length Hcm) in Hna. split; [|by apply Hb].
    eapply compare_start; [done|by destruct (it_tids t)|done|lia|]. apply Forall_lookup. intros i e Hi. rewrite (Hat i e Hi).
    apply lookup_lt_Some in Hi. lia.
Qed.

End Plain.

(** ** Trees whose pivots separate *)

Section Cover.
Context (rel : index_rel) (pages : Z -> option page) (ai : agg_info) (agg_map_val : Z) (so : scan).

(** The leaf tuples below a page, with their places. *)
Fixpoint leaf_tuples (k : nat) (blk : Z) : list (Z * Z * itup) :=
  match pages blk with
  | None => []
  | Some p => data_items p ≫= fun it =>
      match snd it, k with
      | LeafTup t, O => [(blk, fst it, t)]
      | PivotTup pv, S k => leaf_tuples k (pv_downlink pv)
      | _, _ => []
      end
  end.

(** Every leaf tuple below a child is behind the child's pivot (the first one stands for
    minus infinity) and not behind the next one. *)
Fixpoint separated (k : nat) (blk : Z) : Prop :=
  match k with
  | O => True
  | S k => forall p off pv, pages blk = Some p -> first_off p <= off -> PageGetItem p off = Some (PivotTup pv) ->
      (forall b o t, (b, o, t) ∈ leaf_tuples k (pv_downlink pv) ->
        (off <> first_off p -> tuple_before rel (PivotTup pv) (LeafTup t)) /\
        (forall f, PageGetItem p (off + 1) = Some f -> tuple_upto rel (LeafTup t) f)) /\
      separated k (pv_downlink pv)
  end.

Lemma compare_upto key args t f : rel_ok rel -> key_ok rel key args -> scantid key = None ->
  tuple_ok rel (LeafTup t) -> tuple_ok rel f -> tuple_upto rel (LeafTup t) f ->
  exists r1 r2, compare_tuple (rd_natts rel) key (LeafTup t) = Some r1 /\ compare_tuple (rd_natts rel) key f = Some r2 /\
    (0 <= r2 -> 0 <= r1) /\ (0 < r2 -> 0 < r1).
Proof.
  intros Hrel Hkey Hst Ht Hf [Hlt|[Heq Htid]]; [by apply (compare_mono rel key args); [..|left]|].
  rewrite (compare_tuple_eq rel key args _ Hrel Hkey Ht), (compare_tuple_eq rel key args _ Hrel Hkey Hf).
  eexists _, _. split; [done|]. split; [done|]. cbv zeta.
  pose proof (keycmp_eq (Z.to_nat (keysz key)) (rd_cols rel) args _ _ (rel_cols rel Hrel) Heq) as Hsgn. cbn [tuple_key] in *.
  unfold tie. rewrite Hst. destruct Ht as (_ & lo & hi & Hlo & _). cbn [ABTreeTupleGetHeapTID]. rewrite Hlo.
  destruct (ABTreeTupleGetHeapTID f); [|by destruct (ABTreeTupleGetMaxHeapTID (LeafTup t))].
  destruct (Z.eqb_spec (keycmp (Z.to_nat (keysz key)) (rd_cols rel) args (tuple_key f)) 0);
    destruct (Z.eqb_spec (keycmp (Z.to_nat (keysz key)) (rd_cols rel) args (it_key t)) 0); lia.
Qed.

(** A tuple the key does not go right of is not below a child before the one the search
    finds. *)
Lemma low_bound p key args r off pv t : rel_ok rel -> page_ok rel p -> key_ok rel key args -> scantid key = None ->
  is_leaf p = false -> _abt_binsrch rel key p = Some r -> first_off p <= off -> PageGetItem p off = Some (PivotTup pv) ->
  tuple_ok rel (LeafTup t) -> (forall f, PageGetItem p (off + 1) = Some f -> tuple_upto rel (LeafTup t) f) ->
  (exists c, compare_tuple (rd_natts rel) key (LeafTup t) = Some c /\ in_range Forward key c) -> r <= off.
Proof.
  intros Hrel Hp Hk Hst Hl Hr Hoff Hget Ht Hupto (c & Hc & Hin).
  destruct (Z.le_gt_cases r off) as [|Hlt]; [done|]. exfalso.
  destruct (page_splits rel Hrel p key args Hp Hk) as [q Hs]. pose proof (internal_split rel p key q Hp Hs Hl) as Hq.
  rewrite (binsrch_splits rel p key q Hp Hs), Hl, (proj2 (Z.ltb_ge _ _)) in Hr by lia. injection Hr as <-.
  destruct Hs as (_ & Hgo & _). specialize (Hgo (off + 1) ltac:(lia)).
  pose proof (first_off_range p). destruct (item_in_range p (off + 1)) as [f Hf]; [lia|].
  pose proof (pk_tuples rel p Hp (off + 1) f ltac:(lia) Hf) as Hfok.
  destruct (compare_upto key args t f Hrel Hk Hst Ht Hfok (Hupto f Hf)) as (r1 & r2 & Hr1 & Hr2 & M1 & M2).
  rewrite Hc in Hr1. injection Hr1 as <-. unfold goes_right, _abt_compare in Hgo.
  unfold first_off in *. fold (is_leaf p) in Hgo. rewrite Hl, (proj2 (Z.eqb_neq (off + 1) _)), Hf in Hgo by lia. cbn [negb andb mbind option_bind] in Hgo.
  rewrite Hr2 in Hgo. injection Hgo as Hgo. unfold in_range, cmpval in *. destruct (nextkey key); zbool; lia.
Qed.

(** A tuple the key goes right of is not below a child behind the one the search finds. *)
Lemma high_bound p key args r off pv t : rel_ok rel -> page_ok rel p -> key_ok rel key args ->
  is_leaf p = false -> _abt_binsrch rel key p = Some r -> first_off p <= off -> PageGetItem p off = Some (PivotTup pv) ->
  tuple_ok rel (LeafTup t) -> (off <> first_off p -> tuple_before rel (PivotTup pv) (LeafTup t)) ->
  (exists c, compare_tuple (rd_natts rel) key (LeafTup t) = Some c /\ in_range Backward key c) -> off <= r.
Proof.
  intros Hrel Hp Hk Hl Hr Hoff Hget Ht Hbef (c & Hc & Hin).
  destruct (Z.le_gt_cases off r) as [|Hlt]; [done|]. exfalso.
  destruct (page_splits rel Hrel p key args Hp Hk) as [q Hs]. pose proof (internal_split rel p key q Hp Hs Hl) as Hq.
  rewrite (binsrch_splits rel p key q Hp Hs), Hl, (proj2 (Z.ltb_ge _ _)) in Hr by lia. injection Hr as <-.
  assert (off <= PageGetMaxOffsetNumber p).
  { unfold PageGetItem, PageGetItemId in Hget. destruct (off <? 1); [done|]. unfold PageGetMaxOffsetNumber.
    destruct (pg_lines p !! Z.to_nat (off - 1)) eqn:E; [|done]. apply lookup_lt_Some in E. lia. }
  destruct Hs as (_ & _ & Hno). specialize (Hno off ltac:(lia)).
  pose proof (pk_tuples rel p Hp off _ Hoff Hget) as Hpok.
  destruct (compare_mono rel key args _ _ Hrel Hk Hpok Ht (Hbef ltac:(lia))) as (r1 & r2 & Hr1 & Hr2 & M1 & M2).
  rewrite Hc in Hr2. injection Hr2 as <-. unfold goes_right, _abt_compare in Hno. unfold first_off in *. fold (is_leaf p) in Hno.
  rewrite Hl, (proj2 (Z.eqb_neq off _)), Hget in Hno by lia. cbn [negb andb mbind option_bind] in Hno.
  rewrite Hr1 in Hno. injection Hno as Hno. unfold in_range, cmpval in *. destruct (nextkey key); zbool; lia.
Qed.

Lemma elem_of_data_items p items off t : page_items p (ABT_P_FIRSTDATAKEY (pg_opaque p)) (PageGetMaxOffsetNumber p) = Some items ->
  (off, t) ∈ data_items p <-> first_off p <= off <= PageGetMaxOffsetNumber p /\ PageGetItem p off = Some t.
Proof. intros Hi. unfold data_items. rewrite Hi. simpl. by apply elem_of_page_items. Qed.

Lemma leaf_tuple_entry A k blk hk b o t e : tree_shape rel pages ai so A k blk hk ->
  (b, o, t) ∈ leaf_tuples k blk -> e ∈ tuple_entries ai agg_map_val so b o t -> e ∈ subtree pages ai agg_map_val so k blk.
Proof.
  revert blk hk. induction k as [|k IH]; intros blk hk (p & items & Hp & _ & _ & _ & _ & Hi & Hrest) Hin He;
    simpl in Hin; rewrite Hp in Hin; rewrite (subtree_items pages ai agg_map_val so _ _ _ _ Hp Hi);
    apply list_elem_of_bind in Hin as ([off it] & Hin & Hd); unfold data_items in Hd; rewrite Hi in Hd; simpl in Hd;
    apply list_elem_of_bind; exists (off, it); (split; [|done]); destruct it as [t'|pv]; cbn [fst snd] in *;
    try (by apply elem_of_nil in Hin).
  - by apply list_elem_of_singleton in Hin as [= -> -> ->].
  - destruct (proj2 Hrest off pv Hd) as (hk' & _ & Hsub). by apply (IH _ hk').
Qed.

(** What the scan's keys promise of a tuple. *)
Definition scan_bounds (t : itup) : Prop :=
  (forall key, so_inskey_low so = Some key -> scantid key = None /\ (exists args, key_ok rel key args) /\
    exists c, compare_tuple (rd_natts rel) key (LeafTup t) = Some c /\ in_range Forward key c) /\
  (forall key, so_inskey_high so = Some key -> (exists args, key_ok rel key args) /\
    exists c, compare_tuple (rd_natts rel) key (LeafTup t) = Some c /\ in_range Backward key c).

(** The same entry; its weight may be counted differently. *)
Definition same_place (e e' : entry) : Prop := en_blk e' = en_blk e /\ en_off e' = en_off e /\ en_post e' = en_post e.

(** On a leaf page the keys delimit the tuples themselves. *)
Lemma leaf_range_bounds p off t lo hi : rel_ok rel -> page_ok rel p -> ABT_P_ISLEAF (pg_opaque p) = true -> first_off p <= off -> PageGetItem p off = Some (LeafTup t) ->
  range_of rel so p = Some (lo, hi) -> scan_bounds t -> lo <= off <= hi.
Proof.
  intros Hrel Hp Hl Hoff Hget Er [Hbl Hbh]. change (is_leaf p = true) in Hl.
  assert (off <= PageGetMaxOffsetNumber p).
  { unfold PageGetItem, PageGetItemId in Hget. destruct (off <? 1); [done|]. unfold PageGetMaxOffsetNumber. destruct (pg_lines p !! Z.to_nat (off - 1)) eqn:E; [|done]. apply lookup_lt_Some in E. lia. }
  assert (Hsearch : forall key args c, key_ok rel key args -> compare_tuple (rd_natts rel) key (LeafTup t) = Some c ->
    exists q, _abt_binsrch rel key p = Some q /\ first_off p <= q <= PageGetMaxOffsetNumber p + 1 /\ (c < cmpval key -> q <= off) /\ (cmpval key <= c -> off < q)).
  { intros key args c Hk Hc. destruct (page_splits rel Hrel p key args Hp Hk) as [q Hs]. exists q. rewrite (binsrch_splits rel p key q Hp Hs), Hl. split; [done|]. destruct Hs as (Hq & Hgo & Hno).
    assert (Hg : goes_right rel key p off = Some (cmpval key <=? c)) by (unfold goes_right, _abt_compare; fold (is_leaf p); rewrite Hl, Hget; cbn [negb andb mbind option_bind]; by rewrite Hc).
    split; [lia|]. split; intros Hcc.
    - destruct (Z.le_gt_cases q off); [done|]. rewrite (Hgo off) in Hg by lia. injection Hg as Hg. symmetry in Hg. zbool. lia.
    - destruct (Z.lt_ge_cases off q); [done|]. rewrite (Hno off) in Hg by lia. injection Hg as Hg. symmetry in Hg. zbool. lia. }
  unfold range_of in Er. fold (is_leaf p) (first_off p) in Er. rewrite Hl in Er.
  destruct (match so_inskey_low so with Some k => _ | None => _ end) as [lo'|] eqn:El; [|done]. cbn [mbind option_bind] in Er.
  destruct (match so_inskey_high so with Some k => _ | None => _ end) as [hi'|] eqn:Eh; [|done]. cbn [mbind option_bind] in Er.
  injection Er as -> ->. pose proof (pk_max _ _ Hp). pose proof (first_off_range p). split.
  - destruct (so_inskey_low so) as [key|]; [|injection El as <-; lia]. destruct (Hbl key eq_refl) as (_ & [args Hk] & c & Hc & Hin).
    destruct (Hsearch key args c Hk Hc) as (q & Hq & _ & Hlow & _). rewrite Hq in El. injection El as <-. by apply Hlow.
  - destruct (so_inskey_high so) as [key|]; [|injection Eh as <-; lia]. destruct (Hbh key eq_refl) as ([args Hk] & c & Hc & Hin).
    destruct (Hsearch key args c Hk Hc) as (q & Hq & Hqr & _ & Hhigh). rewrite Hq in Eh. cbn [mbind option_bind] in Eh. injection Eh as <-.
    unfold OffsetNumberPrev, u16. rewrite Z.mod_small by lia. specialize (Hhigh Hin). lia.
Qed.

Lemma leaf_candidates_cover blk items l o t e : leaf_candidates ai agg_map_val so blk items = Some l -> (o, LeafTup t) ∈ items -> tuple_fit ai so t ->
  e ∈ tuple_entries ai agg_map_val so blk o t -> exists e', e' ∈ l /\ same_place e e'.
Proof.
  intros Hl Hin [_ Htd _ _ _] He. unfold leaf_candidates in Hl. destruct (forallb is_plain items) eqn:Epl.
  - exists (leaf_entry ai e). split; [|done]. assert (Hmem : leaf_entry ai e ∈ leaf_entry ai <$> items_entries ai agg_map_val so blk (fun _ => []) items).
    { apply list_elem_of_fmap_2. apply list_elem_of_bind. by exists (o, LeafTup t). }
    repeat case_match; by simplify_eq.
  - destruct items as [|[o' [t'|pv]] [|it items]]; try done. apply list_elem_of_singleton in Hin as [= -> ->]. destruct (leaf_has_agg ai); [done|]. injection Hl as <-.
    unfold tuple_entries in He. pose proof (posting_entries_at ai agg_map_val so blk o' 0 (if is_posting t' then it_xmins t' else take 1 (it_xmins t')) (it_aggs t')) as Hat.
    rewrite Forall_forall in Hat. destruct (Hat e He) as [Hb Ho]. destruct (posting_entries_elem ai agg_map_val so _ _ _ _ _ _ He) as (j & x & Hj & _ & Hpost & _).
    exists (mk_entry blk o' (Z.of_nat j) 1). split; [|split_and!; cbn; [done|done|lia]]. apply list_elem_of_fmap. exists j. split; [done|]. apply elem_of_seq. split; [lia|].
    rewrite Htd. destruct (is_posting t'); [by apply lookup_lt_Some in Hj|]. apply lookup_take_Some in Hj as [Hj _]. by apply lookup_lt_Some in Hj.
Qed.

Lemma candidates_cover A k blk hk l b o t e : rel_ok rel -> tree_shape rel pages ai so A k blk hk -> separated k blk ->
  candidates rel pages ai agg_map_val so k blk = Some l -> (b, o, t) ∈ leaf_tuples k blk ->
  tuple_ok rel (LeafTup t) -> scan_bounds t -> e ∈ tuple_entries ai agg_map_val so b o t -> exists e', e' ∈ l /\ same_place e e'.
Proof.
  intros Hrel. revert blk hk. induction k as [|k IH]; intros blk hk Hsh Hsep Hc Hin Hok Hb He.
  { destruct Hsh as (p & items & Hp & _ & Hleaf & _ & Hpok & Hi & Hfit). cbn [candidates] in Hc. rewrite Hp in Hc. cbn [mbind option_bind] in Hc. cbn [leaf_tuples] in Hin. rewrite Hp in Hin.
    apply list_elem_of_bind in Hin as ([off it] & Hin & Hd). destruct it as [t'|pv]; cbn [fst snd] in Hin; [|by apply elem_of_nil in Hin]. apply list_elem_of_singleton in Hin as [= -> -> ->].
    apply (elem_of_data_items p items) in Hd as [Hoff Hget]; [|done]. destruct (range_of rel so p) as [[lo hi]|] eqn:Er; [|done]. cbn [mbind option_bind] in Hc.
    pose proof (leaf_range_bounds p off t' lo hi Hrel Hpok Hleaf (proj1 Hoff) Hget Er Hb) as Hr. rewrite (proj2 (Z.ltb_ge _ _)) in Hc by lia.
    destruct (page_items p lo hi) as [items'|] eqn:Ei; [|done]. cbn [mbind option_bind] in Hc. eapply leaf_candidates_cover; [exact Hc|by apply (elem_of_page_items p lo hi items')| |exact He].
    rewrite Forall_forall in Hfit. apply (Hfit (off, LeafTup t')). exact (proj2 (elem_of_page_items p _ _ items off (LeafTup t') Hi) (conj Hoff Hget)). }
  pose proof Hsh as (p & items & Hp & _ & Hleaf & _ & Hpok & Hi & Hrest). cbn [candidates] in Hc. rewrite Hp in Hc. cbn [mbind option_bind] in Hc.
  change (is_leaf p = false) in Hleaf. cbn [leaf_tuples] in Hin. rewrite Hp in Hin.
  apply list_elem_of_bind in Hin as ([off it] & Hin & Hd). destruct it as [t'|pv]; cbn [fst snd] in Hin; [by apply elem_of_nil in Hin|].
  pose proof Hd as Hd'. apply (elem_of_data_items p items) in Hd' as [Hoff Hget]; [|done].
  unfold data_items in Hd. rewrite Hi in Hd. simpl in Hd.
  destruct (Hsep p off pv Hp ltac:(lia) Hget) as [Hbetween Hsep']. destruct (Hbetween b o t Hin) as [Hlo Hup].
  destruct (range_of rel so p) as [[lo hi]|] eqn:Er; [|done]. cbn [mbind option_bind] in Hc.
  assert (lo <= off <= hi) as Hr.
  { unfold range_of in Er. destruct Hb as [Hbl Hbh]. fold (is_leaf p) in Er. rewrite Hleaf in Er.
    destruct (match so_inskey_low so with Some k => _ | None => _ end) as [lo'|] eqn:El; [|done]. cbn [mbind option_bind] in Er.
    destruct (match so_inskey_high so with Some k => _ | None => _ end) as [hi'|] eqn:Eh; [|done]. cbn [mbind option_bind] in Er.
    injection Er as -> ->. split.
    - destruct (so_inskey_low so) as [key|]; [|injection El as <-; unfold first_off in Hoff; lia].
      destruct (Hbl key eq_refl) as (Hst & [args Hk] & Hcmp). eapply low_bound; eauto. lia.
    - destruct (so_inskey_high so) as [key|]; [|injection Eh as <-; lia].
      destruct (Hbh key eq_refl) as ([args Hk] & Hcmp). destruct (_abt_binsrch rel key p) as [m|] eqn:Em; [|done].
      cbn [mbind option_bind] in Eh. injection Eh as <-. eapply high_bound; eauto. lia. }
  rewrite (proj2 (Z.ltb_ge _ _)) in Hc by lia. destruct (proj2 Hrest off pv Hd) as (hk' & _ & Hsub).
  destruct (Z.eqb_spec lo hi) as [Heq|Hne].
  - assert (lo = off) as -> by lia. rewrite Hget in Hc. cbn [mbind option_bind] in Hc. by apply (IH (pv_downlink pv) hk').
  - destruct (page_items p lo hi) as [items'|] eqn:Ei; [|done]. injection Hc as <-. exists e. split; [|done]. apply list_elem_of_bind.
    exists (off, PivotTup pv). split; [cbn [snd]; by apply (leaf_tuple_entry A _ _ hk' b o t)|].
    by apply (elem_of_page_items p lo hi items').
Qed.

Lemma leaf_tuple_at A k blk hk b o t : tree_shape rel pages ai so A k blk hk -> (b, o, t) ∈ leaf_tuples k blk ->
  exists p, pages b = Some p /\ PageGetItem p o = Some (LeafTup t) /\ tuple_ok rel (LeafTup t).
Proof.
  revert blk hk. induction k as [|k IH]; intros blk hk (p & items & Hp & _ & _ & _ & Hpok & Hi & Hrest) Hin; simpl in Hin; rewrite Hp in Hin;
    apply list_elem_of_bind in Hin as ([off it] & Hin & Hd); pose proof (proj1 (elem_of_data_items p items off it Hi) Hd) as [Ho Hget];
    unfold data_items in Hd; rewrite Hi in Hd; simpl in Hd; destruct it as [t'|pv]; cbn [fst snd] in *; try (by apply elem_of_nil in Hin).
  - apply list_elem_of_singleton in Hin as [= -> -> ->]. exists p. split_and!; try done. by apply (pk_tuples _ _ Hpok off); [lia|].
  - destruct (proj2 Hrest off pv Hd) as (hk' & _ & Hsub). exact (IH _ hk' Hsub Hin).
Qed.

(** An entry of a leaf tuple is visible and has a TID. *)
Lemma entry_of_tuple A k blk hk b o t e p : tree_shape rel pages ai so A k blk hk -> (b, o, t) ∈ leaf_tuples k blk -> pages b = Some p ->
  e ∈ tuple_entries ai agg_map_val so b o t ->
  exists ht, item_tid (LeafTup t) (en_post e) = Some ht /\ entry_visible so t e = true /\ en_blk e = b /\ en_off e = o.
Proof.
  revert blk hk. induction k as [|k IH]; intros blk hk (p0 & items & Hp & _ & _ & _ & Hpok & Hi & Hrest) Hin Hpb He; simpl in Hin; rewrite Hp in Hin;
    apply list_elem_of_bind in Hin as ([off it] & Hin & Hd); pose proof (proj1 (elem_of_data_items p0 items off it Hi) Hd) as [Ho Hget];
    unfold data_items in Hd; rewrite Hi in Hd; simpl in Hd; destruct it as [t'|pv]; cbn [fst snd] in *; try (by apply elem_of_nil in Hin).
  - apply list_elem_of_singleton in Hin as [= -> -> ->]. rewrite Forall_forall in Hrest. pose proof (Hrest _ Hd) as Hfit.
    destruct (tuple_entry_located rel pages ai agg_map_val so blk off p0 t' e Hp Hpok) as (ht & [L1 L2 L3 L4 L5] & Hv); [unfold first_off in Ho; lia|done|exact Hfit|done|]. exists ht. split_and!; try done.
    all: pose proof (posting_entries_at ai agg_map_val so blk off 0 (if is_posting t' then it_xmins t' else take 1 (it_xmins t')) (it_aggs t')) as Hat; rewrite Forall_forall in Hat; by destruct (Hat e He).
  - destruct (proj2 Hrest off pv Hd) as (hk' & _ & Hsub). exact (IH _ hk' Hsub Hin Hpb He).
Qed.

End Cover.

(** What preparing the keys gives a scan that uses them. *)
Lemma prepared_bounds rel indoption opcintype opfamily cmp `{!OpFamily opfamily cmp} procinfo opfamily_proc
    `{!OrderProcs opcintype procinfo opfamily_proc cmp} so keys pp :
  Forall (raw_key indoption opcintype cmp) keys -> Sorted Z.le (attno_of <$> keys) -> rel_ok rel ->
  columns_match rel indoption procinfo ->
  prepare_scan_keys rel indoption opcintype opfamily procinfo opfamily_proc keys = Val pp ->
  Forall (plain_key opcintype procinfo) (pp_keyData pp) ->
  so_inskey_low so = pp_inskey_low pp -> so_inskey_high so = pp_inskey_high pp ->
  (pp_qual_ok pp = false -> forall t, all_sat t keys = false) /\
  (forall t, tuple_ok rel (LeafTup t) -> all_sat (it_key t) keys = true -> scan_bounds rel so t /\ all_sat (it_key t) (pp_keyData pp) = true).
Proof.
  intros Hraw Hsort Hrel Hcm Hpp Hpl Hlow Hhigh.
  destruct (preprocess_keys_run indoption opcintype opfamily cmp keys Hraw Hsort) as (ok & out & Hrun & Hs & Ho).
  unfold prepare_scan_keys in Hpp. rewrite Hrun in Hpp. cbn [rbind] in Hpp. destruct ok.
  2: { cbn [_abt_build_start_inskey negb rbind] in Hpp. injection Hpp as <-. split; [intros _ t; by rewrite Hs|].
       intros t _ Ht. by rewrite Hs in Ht. }
  specialize (Ho eq_refl). assert (out = pp_keyData pp) as ->.
  { destruct (_abt_build_start_inskey _ _ _ _ Forward true out) as [[q1 o1]|]; [|done]. cbn [rbind] in Hpp.
    destruct (_abt_build_start_inskey _ _ _ _ Backward q1 out) as [[q2 o2]|]; [|done]. by injection Hpp as <-. }
  destruct (prepared_key rel indoption opcintype opfamily cmp procinfo opfamily_proc Forward _ Ho Hpl Hcm) as (q1 & o1 & Hr1 & Hq1 & Hk1).
  destruct (prepared_key rel indoption opcintype opfamily cmp procinfo opfamily_proc Backward _ Ho Hpl Hcm) as (q2 & o2 & Hr2 & Hq2 & Hk2).
  rewrite Hr1 in Hpp. cbn [rbind] in Hpp. destruct q1.
  2: { cbn [_abt_build_start_inskey negb rbind] in Hpp. split; [intros _ t; by rewrite Hs, Hq1|].
       intros t _ Ht. by rewrite Hs, Hq1 in Ht. }
  rewrite Hr2 in Hpp. cbn [rbind] in Hpp.
  assert (pp_qual_ok pp = q2 /\ pp_inskey_low pp = fst <$> o1 /\ pp_inskey_high pp = fst <$> o2) as (Hq & El & Eh) by by injection Hpp as <-.
  rewrite El in Hlow. rewrite Eh in Hhigh. rewrite Hq.
  split; [intros -> t; by rewrite Hs, Hq2|]. intros t Hok Ht. rewrite Hs in Ht. split; [|done]. split.
  - intros key Hkey. rewrite Hlow in Hkey. destruct o1 as [[key1 g1]|]; [|done]. injection Hkey as ->.
    destruct (Hk1 key g1 eq_refl) as (_ & Hst & Hko & Hcmp). split; [done|]. split; [done|]. apply Hcmp; [done|apply Hrel|done].
  - intros key Hkey. rewrite Hhigh in Hkey. destruct o2 as [[key2 g2]|]; [|done]. injection Hkey as ->.
    destruct (Hk2 key g2 eq_refl) as (_ & Hst & Hko & Hcmp). split; [done|]. apply Hcmp; [done|apply Hrel|done].
Qed.

(** The cutoffs in the share of an entry choose it. *)
Lemma share_pick l1 e l2 c : nonneg (l1 ++ e :: l2) -> weight_of l1 <= c < weight_of l1 + en_weight e -> pick c (l1 ++ e :: l2) = Some e.
Proof.
  intros [Hn1 Hn2]%Forall_app Hc. pose proof (nonneg_weight l1 Hn1) as Hw. rewrite pick_app, (proj1 (pick_none c l1 Hn1 ltac:(lia))) by lia.
  cbn [pick]. by rewrite (proj2 (Z.ltb_lt _ _)) by lia.
Qed.

(** C8: Sampling is complete.  A sampling scan prepares its keys from quals whose arguments
    have the columns' types.  If that finds the quals unsatisfiable, no tuple satisfies
    them.  Otherwise, in a tree a draw can be made from (C2) whose pivots separate the
    tuples below them, every visible entry of every leaf tuple that satisfies the quals has
    a share of the candidates' weight, as long as its weight (1 if entries of one leaf page
    are counted), and a draw with a random number whose cutoff falls into that share
    returns that entry's TID, unless the tuple is killed. *)
Theorem sampling_covers_matches rel meta indoption opcintype opfamily cmp `{!OpFamily opfamily cmp} procinfo opfamily_proc
    `{!OrderProcs opcintype procinfo opfamily_proc cmp} pages ai agg_map_val so base Recent chain_of s keys pp :
  Forall (raw_key indoption opcintype cmp) keys -> Sorted Z.le (attno_of <$> keys) -> rel_ok rel ->
  columns_match rel indoption procinfo ->
  prepare_scan_keys rel indoption opcintype opfamily procinfo opfamily_proc keys = Val pp ->
  Forall (plain_key opcintype procinfo) (pp_keyData pp) ->
  so_inskey_low so = pp_inskey_low pp -> so_inskey_high so = pp_inskey_high pp -> so_keyData so = pp_keyData pp ->
  so_snapshot so = Some s -> agg_typlen ai = 2 \/ agg_typlen ai = 4 \/ agg_typlen ai = 8 -> snapshot_ok base s -> xid_ok base Recent ->
  TransactionIdPrecedes (sn_xmin s) Recent = false ->
  (pp_qual_ok pp = false -> forall t, all_sat t keys = false) /\
  (forall k root l b o t e, drawable rel pages ai agg_map_val so base Recent chain_of k root l -> separated rel pages k root ->
    (b, o, t) ∈ leaf_tuples pages k root -> all_sat (it_key t) keys = true -> e ∈ tuple_entries ai agg_map_val so b o t ->
    exists l1 e' l2 p ht, l = l1 ++ e' :: l2 /\ same_place e e' /\ pages b = Some p /\ item_tid (LeafTup t) (en_post e) = Some ht /\
      forall fuel r cutoff h c, is_fraction r -> fast_root meta pages root c -> (S (S k) < fuel)%nat ->
        floor_mul_u64 (weight_of l) r = Some cutoff -> weight_of l1 <= cutoff < weight_of l1 + en_weight e' ->
        exists inv_prob c' pos,
          _abt_sample_extended rel meta pages ai agg_map_val (store_read ai so chain_of) so fuel r None (mk_bs h c) = Ok (mk_sr inv_prob pos) (mk_bs h c') /\
          (so_ignore_killed_tuples so && default false (ItemIdIsDead p o) = false -> sp_heapTid <$> pos = Some ht)).
Proof.
  intros Hraw Hsort Hrel Hcm Hpp Hpl Hlow Hhigh Hkd Hsn Hty Hso HR Hmin.
  destruct (prepared_bounds rel indoption opcintype opfamily cmp procinfo opfamily_proc so keys pp Hraw Hsort Hrel Hcm Hpp Hpl Hlow Hhigh) as [Hq Hb]. split; [done|].
  intros k root l b o t e Hdr Hsep Hin Ht He. pose proof (dr_shape _ _ _ _ _ _ _ _ _ _ _ Hdr) as Hsh. destruct (leaf_tuple_at rel pages ai so _ k root None b o t Hsh Hin) as (p & Hp & Hget & Hok).
  destruct (Hb t Hok Ht) as [Hsb Hsat]. pose proof (dr_candidates _ _ _ _ _ _ _ _ _ _ _ Hdr) as Hc. pose proof (candidates_nonneg _ _ _ _ _ _ _ _ Hc) as Hnn.
  destruct (candidates_cover rel pages ai agg_map_val so _ k root None l b o t e Hrel Hsh Hsep Hc Hin Hok Hsb He) as (e' & He' & Hpl1 & Hpl2 & Hpl3).
  apply list_elem_of_split in He' as (l1 & l2 & ->). destruct (entry_of_tuple rel pages ai agg_map_val so _ k root None b o t e p Hsh Hin Hp He) as (ht & Hht & Hvis & Hbe & Hoe).
  exists l1, e', l2, p, ht. split_and!; try done. intros fuel r cutoff h c Hr Hfr Hf Hcut Hshare.
  destruct (draw_run rel meta pages ai agg_map_val so base Recent chain_of s Hsn Hty Hso HR Hmin k root fuel r _ h c Hdr Hr Hfr Hf) as (c' & _ & Hres).
  unfold draw_result in Hres. assert (Hw : 0 < weight_of (l1 ++ e' :: l2)).
  { rewrite weight_of_app, weight_of_cons. apply Forall_app in Hnn as [Hn1 [_ Hn2]%Forall_cons]. pose proof (nonneg_weight l1 Hn1). pose proof (nonneg_weight l2 Hn2). lia. }
  rewrite (proj2 (Z.eqb_neq _ _)) in Hres by lia. destruct Hres as (cu & l1' & e2 & l2' & p' & t' & ht' & Hcu & Hl & Hsh2 & [L1 L2 L3 L4 L5] & Hrun).
  assert (cu = cutoff) as -> by congruence. assert (e2 = e') as ->.
  { pose proof (share_pick l1 e' l2 cutoff Hnn Hshare) as P1. rewrite Hl in P1, Hnn. pose proof (share_pick l1' e2 l2' cutoff Hnn Hsh2) as P2. congruence. }
  rewrite Hpl1, Hbe in L1. assert (p' = p) as -> by congruence. rewrite Hpl2, Hoe in L2. assert (t' = t) as -> by congruence. rewrite Hpl3 in L3. assert (ht' = ht) as -> by congruence.
  rewrite Hrun. unfold outcome. eexists _, c', _. split; [reflexivity|]. intros Hk. unfold accepted. rewrite Hkd, Hsat, Hpl2, Hoe, Hk.
  unfold entry_visible in Hvis |- *. rewrite Hpl3, Hvis. done.
Qed.

(** ** A scan of the small index of Draw for keys from 25 up to 40 *)

Definition range_options : list Z := [0].
Definition range_quals : list ScanKey := [demo_skey 1 4 25; demo_skey 1 1 40].
Definition range_prepared : prepared :=
  match prepare_scan_keys demo_rel range_options demo_type demo_family demo_procinfo demo_proc range_quals with
  | Val pp => pp
  | Raise _ => mk_prepared false [] None None
  end.
Definition range_scan : scan :=
  mk_scan (Some demo_abt_snapshot) true (pp_keyData range_prepared) (pp_inskey_low range_prepared) (pp_inskey_high range_prepared) (demo_key 0 None) false true false true.
Definition range_hit : entry := mk_entry 3 1 0 2.

(** What a tree's shape asks of its leaf tuples depends only on the scan's snapshot. *)
Lemma tree_shape_scan rel pages ai so so' (A B : nat -> Z * index_tuple -> Prop) k blk hk :
  so_snapshot so' = so_snapshot so -> (forall k it, A k it -> B k it) -> tree_shape rel pages ai so A k blk hk ->
  tree_shape rel pages ai so' B k blk hk.
Proof.
  intros Hs Hab Ht. apply (tree_shape_mono rel pages ai so' A B k blk hk Hab). clear Hab B. revert blk hk Ht.
  induction k as [|k IH]; intros blk hk (p & items & Hp & Hl & Hlf & Hh & Hok & Hi & Hrest); exists p, items; split_and!; try done.
  - eapply Forall_impl; [apply Hrest|]. intros [off [t|pv]]; [|done]. intros [H1 H2 H3 H4]. split; unfold hidden_xid in *; rewrite ?Hs; done.
  - apply Hrest.
  - intros off pv Hin. destruct (proj2 Hrest off pv Hin) as (hk' & He & Ht). exists hk'. split; [done|]. by apply IH.
Qed.

Definition range_candidates : list entry := [mk_entry 2 2 0 5; mk_entry 3 1 0 2; mk_entry 3 2 0 3; mk_entry 3 2 1 4].

Lemma range_shape : tree_shape demo_rel Draw.demo_pages Draw.demo_ai range_scan (agg_versioned Draw.demo_pages Draw.demo_ai 0 50 102 Draw.demo_chain) 1 1 None.
Proof. by eapply (tree_shape_scan demo_rel Draw.demo_pages Draw.demo_ai Draw.demo_scan); [..|apply Draw.demo_versioned]. Qed.

Lemma range_key_ok (dir : bool) key args : (if dir then pp_inskey_low range_prepared else pp_inskey_high range_prepared) = Some key -> args = [Some (if dir then 25 else 40)] -> key_ok demo_rel key args.
Proof. intros Hk ->. destruct dir; vm_compute in Hk; injection Hk as <-; split; try done; simpl; lia. Qed.

Lemma range_drawable : drawable demo_rel Draw.demo_pages Draw.demo_ai 0 range_scan 50 102 Draw.demo_chain 1 1 range_candidates.
Proof.
  split; [apply demo_rel_ok| |done|apply range_shape|by vm_compute|by vm_compute|by vm_compute]. split.
  - intros key Hk. eexists. by apply (range_key_ok true).
  - intros key Hk. eexists. by apply (range_key_ok false).
  - vm_compute. repeat (apply Forall_cons; split; [split; [simpl; lia|intros H; by vm_compute in H|intros H; by vm_compute in H]|]). constructor.
Qed.

(** 3/8 of the total weight 14 falls into the share of the entry with key 30. *)
Definition three_eighths : double := SpecFloat.S754_finite false 6755399441055744 (-54).

Lemma range_quals_raw : Forall (raw_key range_options demo_type demo_cmp) range_quals.
Proof.
  do 2 (apply Forall_cons; split; [apply demo_raw_key; simpl; lia|]). constructor.
Qed.

Lemma range_separated : separated demo_rel Draw.demo_pages 1 1.
Proof.
  cbn [separated]. intros p off pv [= <-] Hoff Hget. split; [|done].
  assert (off = 1 \/ off = 2) as [-> | ->].
  { change (1 <= off) in Hoff. destruct (Z.le_gt_cases off 2); [lia|]. unfold PageGetItem, PageGetItemId in Hget.
    destruct (off <? 1); [done|]. rewrite lookup_ge_None_2 in Hget by (simpl; lia). done. }
  all: injection Hget as <-; intros b o t Hin; vm_compute in Hin; split; [intros Hne|intros f Hf; try discriminate Hf]; try done.
  all: repeat (apply elem_of_cons in Hin as [Hin|Hin]; [injection Hin as -> -> ->|]); try by apply elem_of_nil in Hin.
  all: try injection Hf as <-; first [by left|by right; split].
Qed.

Lemma sampling_covers_matches_witness : exists inv_prob c' pos,
  _abt_sample_extended demo_rel demo_meta Draw.demo_pages Draw.demo_ai 0 (store_read Draw.demo_ai range_scan Draw.demo_chain) range_scan 5 three_eighths None (mk_bs [] None) =
    Ok (mk_sr inv_prob pos) (mk_bs [] c') /\ sp_heapTid <$> pos = Some (mk_tid 0 3).
Proof.
  destruct (sampling_covers_matches demo_rel demo_meta range_options demo_type demo_family demo_cmp demo_procinfo demo_proc Draw.demo_pages Draw.demo_ai 0
    range_scan 50 102 Draw.demo_chain demo_abt_snapshot range_quals range_prepared) as [_ H].
  - apply range_quals_raw.
  - do 2 (apply Sorted_cons; [|first [apply HdRel_cons; done|apply HdRel_nil]]). apply Sorted_nil.
  - apply demo_rel_ok.
  - split; [done|]. intros [|[|i]] c [= <-]. done.
  - vm_compute. reflexivity.
  - vm_compute. by repeat (apply Forall_cons; split; [split; [done|by right]|]).
  - reflexivity.
  - reflexivity.
  - reflexivity.
  - reflexivity.
  - right. by right.
  - apply demo_snapshot_ok.
  - apply demo_xid_ok. lia.
  - reflexivity.
  - destruct (H 1%nat 1 range_candidates 3 1 (mk_itup [Some 30] 32 None [mk_tid 0 3] [2] [104]) range_hit) as (l1 & e & l2 & p & ht & Hl & [Hb [Ho _]] & [= <-] & [= <-] & Hrun).
    + apply range_drawable.
    + apply range_separated.
    + vm_compute. by right; right; left.
    + reflexivity.
    + vm_compute. by left.
    + assert (Hl1 : weight_of l1 <= 5 < weight_of l1 + en_weight e).
      { clear Hrun H. unfold range_candidates in Hl. destruct l1 as [|x1 [|x2 [|x3 [|x4 l1]]]]; simpl in Hl; simplify_eq/=; try done; try lia. by destruct l1. }
      destruct (Hrun 5%nat three_eighths 5 [] None) as (inv & c' & pos & Hr & Ht); [by repeat split|split; [done|done|by eexists|by eexists|by left]|lia|by vm_compute|exact Hl1|].
      exists inv, c', pos. split; [exact Hr|by apply Ht].
Defined.

End Range.
