(* ===== verification/Scan.v ===== *)
(** * Index scans (abtsearch.c, abtree.c)

    An ordinary scan of the index, forward or backward: [_abt_first] preprocesses the
    quals, descends to the first leaf page and collects its matching items,
    [_abt_next] returns the collected items one by one and steps to the next page with
    matches.  [abtgettuple] and [abtgetbitmap] drive them.

    [so->currPos] is an [ABTScanPosData]; its buffer is pinned while [pos_buf] names it
    and locked while it is among the held buffers of Btree.  The items are the array
    [items], and writing outside of it is an error.  As in Btree the pages do not change
    while a scan runs.  The scan is not parallel, returns no index tuples (so->currTuples
    is NULL), and kills no items (numKilled is 0 throughout).  A marked position stays
    in [so_markItemIndex] until the scan leaves the page and is copied to [so_markPos]
    then. *)

From stdpp Require Import base numbers option sorting list.
From S2P Require Import Prelude Tuple Dedup Page Search Truncate Btree Quals Start Range.

Module Scan.
Import Tuple Dedup Page Search Truncate Btree Quals Start Range.

(** ** The position of a scan *)

Definition InvalidBlockNumber : Z := 2 ^ 32 - 1.
Definition MaxTIDsPerABTreePage : Z :=
  (BLCKSZ - SizeOfPageHeaderData - sizeof_ABTPageOpaqueData) / sizeof_ItemPointerData.

Record ABTScanPosItem := mk_positem { heapTid : tid; indexOffset : Z }.

Record ABTScanPosData := mk_pos {
  pos_buf : Buffer;
  currPage : Z;
  nextPage : Z;
  moreLeft : bool;
  moreRight : bool;
  firstItem : Z;
  lastItem : Z;
  itemIndex : Z;
  items : list ABTScanPosItem
}.

Definition set_buf (pos : ABTScanPosData) (buf : Buffer) : ABTScanPosData :=
  mk_pos buf (currPage pos) (nextPage pos) (moreLeft pos) (moreRight pos) (firstItem pos) (lastItem pos) (itemIndex pos) (items pos).
Definition set_more (pos : ABTScanPosData) (left right : bool) : ABTScanPosData :=
  mk_pos (pos_buf pos) (currPage pos) (nextPage pos) left right (firstItem pos) (lastItem pos) (itemIndex pos) (items pos).
Definition set_itemIndex (pos : ABTScanPosData) (i : Z) : ABTScanPosData :=
  mk_pos (pos_buf pos) (currPage pos) (nextPage pos) (moreLeft pos) (moreRight pos) (firstItem pos) (lastItem pos) i (items pos).

Definition ABTScanPosIsValid (pos : ABTScanPosData) : bool := negb (currPage pos =? InvalidBlockNumber).
Definition ABTScanPosIsPinned (pos : ABTScanPosData) : bool := match pos_buf pos with Some _ => true | None => false end.
Definition ABTScanPosUnpinIfPinned (pos : ABTScanPosData) : ABTScanPosData := set_buf pos InvalidBuffer.
Definition ABTScanPosInvalidate (pos : ABTScanPosData) : ABTScanPosData :=
  mk_pos InvalidBuffer InvalidBlockNumber InvalidBlockNumber (moreLeft pos) (moreRight pos) (firstItem pos) (lastItem pos) (itemIndex pos) (items pos).

(** Errors of the quals as errors of the scan. *)
Definition lift_res {A} (r : res A) : M A :=
  match r with Val a => ret a | Raise Elog => fail ElogError | Raise OutOfBounds => fail BadItem end.

(** What a scan keeps between calls. *)
Record ABTScanOpaque := mk_so {
  so_keyData : list ScanKey;
  so_currPos : ABTScanPosData;
  so_markPos : ABTScanPosData;
  so_markItemIndex : Z
}.

Definition set_pos (so : ABTScanOpaque) (pos : ABTScanPosData) : ABTScanOpaque :=
  mk_so (so_keyData so) pos (so_markPos so) (so_markItemIndex so).
Definition set_keys (so : ABTScanOpaque) (keys : list ScanKey) : ABTScanOpaque :=
  mk_so keys (so_currPos so) (so_markPos so) (so_markItemIndex so).

Definition _abt_initialize_more_data (so : ABTScanOpaque) (dir : ScanDirection) : ABTScanOpaque :=
  let pos := so_currPos so in
  mk_so (so_keyData so) (if ScanDirectionIsForward dir then set_more pos false true else set_more pos true false) (so_markPos so) (-1).

(** memcpy of a position up to its last item. *)
Definition copy_pos (dst src : ABTScanPosData) : ABTScanPosData :=
  let n := Z.to_nat (lastItem src + 1) in
  mk_pos (pos_buf src) (currPage src) (nextPage src) (moreLeft src) (moreRight src) (firstItem src) (lastItem src) (itemIndex src)
    (take n (items src) ++ drop n (items dst)).

(** Copy the marked position before currPos changes. *)
Definition save_mark (so : ABTScanOpaque) : ABTScanOpaque :=
  if 0 <=? so_markItemIndex so then
    mk_so (so_keyData so) (so_currPos so) (set_itemIndex (copy_pos (so_markPos so) (so_currPos so)) (so_markItemIndex so)) (-1)
  else so.

Section Scan.
Context (rel : index_rel) (indoption : list Z) (opcintype : Z -> Z) (opfamily : Z -> Z -> Z -> Z -> option (Z -> Z -> Z)).
Context (procinfo : Z -> Z -> Z -> Z) (opfamily_proc : Z -> Z -> option (Z -> Z -> Z)).
Context (meta : ABTMetaPageData) (pages : Z -> option page).
Context (ignore_killed_tuples : bool).   (** scan->ignore_killed_tuples *)
Context (drop_pin : bool).               (** an MVCC snapshot on a WAL-logged index, xs_want_itup not set *)
Context (dir : ScanDirection).

(** LockBuffer: the pin stays with the position. *)
Definition LockBuffer_UNLOCK (buf : Buffer) : M unit := _abt_relbuf buf.
Definition LockBuffer_SHARE (buf : Buffer) : M unit :=
  match buf with Some b => do_ _abt_getbuf pages b; ret tt | None => fail BadBuffer end.

Definition _abt_drop_lock_and_maybe_pin (pos : ABTScanPosData) : M ABTScanPosData :=
  do_ LockBuffer_UNLOCK (pos_buf pos);
  ret (if drop_pin then set_buf pos InvalidBuffer else pos).

(** ** Saving items *)

(** so->currPos.items[itemIndex] = ... *)
Definition save_at (its : list ABTScanPosItem) (itemIndex offnum : Z) (t : tid) : M (list ABTScanPosItem) :=
  if (0 <=? itemIndex) && (itemIndex <? Z.of_nat (length its))
  then ret (<[Z.to_nat itemIndex := mk_positem t offnum]> its) else fail BadItem.

Definition _abt_saveitem (its : list ABTScanPosItem) (itemIndex offnum : Z) (itup : index_tuple) : M (list ABTScanPosItem) :=
  do t <- lift (ABTreeTupleGetHeapTID itup); save_at its itemIndex offnum t.
Definition _abt_setuppostingitems (its : list ABTScanPosItem) (itemIndex offnum : Z) (heapTid : tid) : M (list ABTScanPosItem) :=
  save_at its itemIndex offnum heapTid.
Definition _abt_savepostingitem (its : list ABTScanPosItem) (itemIndex offnum : Z) (heapTid : tid) : M (list ABTScanPosItem) :=
  save_at its itemIndex offnum heapTid.

Definition ABTreeTupleGetPostingN (itup : index_tuple) (n : Z) : option tid :=
  match itup with LeafTup t => it_tids t !! Z.to_nat n | PivotTup _ => None end.

(** The slot to write next and itemIndex after it: upwards in a forward scan, downwards in
    a backward scan. *)
Definition slot (itemIndex : Z) : Z := if ScanDirectionIsForward dir then itemIndex else itemIndex - 1.
Definition advance (itemIndex : Z) : Z := if ScanDirectionIsForward dir then itemIndex + 1 else itemIndex - 1.

(** The TIDs [i], [i + 1], .. of a posting list, [n] of them. *)
Fixpoint save_posting (n : nat) (i : Z) (itup : index_tuple) (its : list ABTScanPosItem) (itemIndex offnum : Z)
  : M (list ABTScanPosItem * Z) :=
  match n with
  | O => ret (its, itemIndex)
  | S n =>
      do t <- lift (ABTreeTupleGetPostingN itup i);
      do its <- _abt_savepostingitem its (slot itemIndex) offnum t;
      save_posting n (i + 1) itup its (advance itemIndex) offnum
  end.

(** All TIDs of a tuple that passes the quals. *)
Definition save_tuple (itup : index_tuple) (its : list ABTScanPosItem) (itemIndex offnum : Z) : M (list ABTScanPosItem * Z) :=
  if negb (ABTreeTupleIsPosting itup) then
    do its <- _abt_saveitem its (slot itemIndex) offnum itup; ret (its, advance itemIndex)
  else
    do t <- lift (ABTreeTupleGetPostingN itup 0);
    do its <- _abt_setuppostingitems its (slot itemIndex) offnum t;
    save_posting (Z.to_nat (ABTreeTupleGetNPosting itup - 1)) 1 itup its (advance itemIndex) offnum.

(** ** Reading a page *)

(** The loops over the items from [offnum] on: the items saved, itemIndex and
    continuescan.  A backward scan checks the keys of a dead first item too. *)
Fixpoint read_items (fuel : nat) (keys : list ScanKey) (p : page) (offnum : Z) (its : list ABTScanPosItem) (itemIndex : Z)
  : M (list ABTScanPosItem * Z * bool) :=
  match fuel with
  | O => fail OutOfFuel
  | S fuel =>
      let minoff := ABT_P_FIRSTDATAKEY (pg_opaque p) in
      let nextoff := if ScanDirectionIsForward dir then OffsetNumberNext offnum else OffsetNumberPrev offnum in
      if (if ScanDirectionIsForward dir then offnum <=? PageGetMaxOffsetNumber p else minoff <=? offnum) then
        do (dead, itup) <- lift (PageGetItemId p offnum);
        let killed := ignore_killed_tuples && dead in
        if killed && (ScanDirectionIsForward dir || (minoff <? offnum)) then read_items fuel keys p nextoff its itemIndex
        else
          do (passes, continuescan) <- lift_res (_abt_checkkeys itup (rd_natts rel) dir keys);
          do (its, itemIndex) <- (if passes && negb killed then save_tuple itup its itemIndex offnum else ret (its, itemIndex));
          if continuescan : bool then read_items fuel keys p nextoff its itemIndex else ret (its, itemIndex, false)
      else ret (its, itemIndex, true)
  end.

Definition _abt_readpage (keys : list ScanKey) (pos : ABTScanPosData) (offnum : Z) : M (ABTScanPosData * bool) :=
  do p <- BufferGetPage pages (pos_buf pos);
  do blkno <- BufferGetBlockNumber (pos_buf pos);
  let o := pg_opaque p in
  let fuel := S (length (pg_lines p)) in
  if ScanDirectionIsForward dir then
    do (its, itemIndex, continuescan) <- read_items fuel keys p (Z.max offnum (ABT_P_FIRSTDATAKEY o)) (items pos) 0;
    do continuescan <- (if continuescan && negb (ABT_P_RIGHTMOST o) then
                          do itup <- lift (PageGetItem p ABTP_HIKEY);
                          let truncatt := ABTreeTupleGetNAtts itup (rd_natts rel) in
                          do (_, continuescan) <- lift_res (_abt_checkkeys itup truncatt dir keys);
                          ret continuescan
                        else ret continuescan);
    ret (mk_pos (pos_buf pos) blkno (abtpo_next o) (moreLeft pos) (moreRight pos && continuescan) 0 (itemIndex - 1) 0 its,
         0 <=? itemIndex - 1)
  else
    do (its, itemIndex, continuescan) <-
      read_items fuel keys p (Z.min offnum (PageGetMaxOffsetNumber p)) (items pos) MaxTIDsPerABTreePage;
    ret (mk_pos (pos_buf pos) blkno (abtpo_next o) (moreLeft pos && continuescan) (moreRight pos) itemIndex
           (MaxTIDsPerABTreePage - 1) (MaxTIDsPerABTreePage - 1) its,
         itemIndex <=? MaxTIDsPerABTreePage - 1).

(** ** Stepping left *)

(** Look for the page whose right sibling is [obknum], going right at most [hops] times. *)
Fixpoint find_left_sibling (hops : nat) (obknum : Z) (buf : Buffer) : M (Buffer * bool) :=
  do p <- BufferGetPage pages buf;
  let o := pg_opaque p in
  if negb (ABT_P_ISDELETED o) && (abtpo_next o =? obknum) then ret (buf, true)
  else if ABT_P_RIGHTMOST o then ret (buf, false)
  else match hops with
       | O => ret (buf, false)
       | S hops => do buf <- _abt_relandgetbuf pages buf (abtpo_next o); find_left_sibling hops obknum buf
       end.

(** Right to the first page that is not deleted. *)
Fixpoint skip_deleted (fuel : nat) (buf : Buffer) : M Buffer :=
  match fuel with
  | O => fail OutOfFuel
  | S fuel =>
      do p <- BufferGetPage pages buf;
      if ABT_P_RIGHTMOST (pg_opaque p) then fail ElogError
      else
        do buf <- _abt_relandgetbuf pages buf (abtpo_next (pg_opaque p));
        do p <- BufferGetPage pages buf;
        if negb (ABT_P_ISDELETED (pg_opaque p)) then ret buf else skip_deleted fuel buf
  end.

Fixpoint _abt_walk_left (fuel : nat) (buf : Buffer) : M Buffer :=
  match fuel with
  | O => fail OutOfFuel
  | S fuel =>
      do p <- BufferGetPage pages buf;
      if ABT_P_LEFTMOST (pg_opaque p) then do_ _abt_relbuf buf; ret InvalidBuffer
      else
        do obknum <- BufferGetBlockNumber buf;
        let lblkno := abtpo_prev (pg_opaque p) in
        do_ _abt_relbuf buf;
        do buf <- _abt_getbuf pages lblkno;
        do (buf, found) <- find_left_sibling 4 obknum buf;
        if found : bool then ret buf
        else
          do buf <- _abt_relandgetbuf pages buf obknum;
          do p <- BufferGetPage pages buf;
          if ABT_P_ISDELETED (pg_opaque p) then do buf <- skip_deleted fuel buf; _abt_walk_left fuel buf
          else if abtpo_prev (pg_opaque p) =? lblkno then fail ElogError
          else _abt_walk_left fuel buf
  end.

(** ** The next page with matches *)

Fixpoint read_right (fuel : nat) (keys : list ScanKey) (pos : ABTScanPosData) (blkno : Z) : M (ABTScanPosData * bool) :=
  match fuel with
  | O => fail OutOfFuel
  | S fuel =>
      if (blkno =? ABTP_NONE) || negb (moreRight pos) then ret (ABTScanPosInvalidate pos, false)
      else
        do buf <- _abt_getbuf pages blkno;
        do p <- BufferGetPage pages buf;
        let o := pg_opaque p in
        do (pos, found) <- (if negb (ABT_P_IGNORE o) then _abt_readpage keys (set_buf pos buf) (ABT_P_FIRSTDATAKEY o)
                            else ret (set_buf pos buf, false));
        if found : bool then ret (pos, true)
        else do_ _abt_relbuf (pos_buf pos); read_right fuel keys pos (abtpo_next o)
  end.

Fixpoint read_left (fuel : nat) (keys : list ScanKey) (pos : ABTScanPosData) : M (ABTScanPosData * bool) :=
  match fuel with
  | O => fail OutOfFuel
  | S fuel =>
      if negb (moreLeft pos) then do_ _abt_relbuf (pos_buf pos); ret (ABTScanPosInvalidate pos, false)
      else
        do buf <- _abt_walk_left fuel (pos_buf pos);
        let pos := set_buf pos buf in
        match buf with
        | None => ret (ABTScanPosInvalidate pos, false)
        | Some _ =>
            do p <- BufferGetPage pages buf;
            do (pos, found) <- (if negb (ABT_P_IGNORE (pg_opaque p)) then _abt_readpage keys pos (PageGetMaxOffsetNumber p)
                                else ret (pos, false));
            if found : bool then ret (pos, true) else read_left fuel keys pos
        end
  end.

Definition _abt_readnextpage (fuel : nat) (keys : list ScanKey) (pos : ABTScanPosData) (blkno : Z) : M (ABTScanPosData * bool) :=
  if ScanDirectionIsForward dir then read_right fuel keys pos blkno
  else
    let pos :=
      if negb (currPage pos =? blkno) then
        mk_pos InvalidBuffer blkno (nextPage pos) (moreLeft pos) (moreRight pos) (firstItem pos) (lastItem pos) (itemIndex pos) (items pos)
      else pos in
    do pos <- (if ABTScanPosIsPinned pos then do_ LockBuffer_SHARE (pos_buf pos); ret pos
               else do buf <- _abt_getbuf pages (currPage pos); ret (set_buf pos buf));
    read_left fuel keys pos.

Definition _abt_steppage (fuel : nat) (so : ABTScanOpaque) : M (ABTScanOpaque * bool) :=
  let so := save_mark so in
  let pos := so_currPos so in
  let '(pos, blkno) :=
    if ScanDirectionIsForward dir then
      (ABTScanPosUnpinIfPinned (set_more pos true (moreRight pos)), nextPage pos)
    else (set_more pos (moreLeft pos) true, currPage pos) in
  do (pos, found) <- _abt_readnextpage fuel (so_keyData so) pos blkno;
  if negb found then ret (set_pos so pos, false)
  else do pos <- _abt_drop_lock_and_maybe_pin pos; ret (set_pos so pos, true).

(** ** The first and the next item *)

(** Set scan->xs_heaptid from the item at itemIndex. *)
Definition return_item (so : ABTScanOpaque) : M (ABTScanOpaque * option tid) :=
  let pos := so_currPos so in
  if itemIndex pos <? 0 then fail BadItem
  else do it <- lift (items pos !! Z.to_nat (itemIndex pos)); ret (so, Some (heapTid it)).

Definition step_and_return (fuel : nat) (so : ABTScanOpaque) : M (ABTScanOpaque * option tid) :=
  do (so, found) <- _abt_steppage fuel so;
  if negb found then ret (so, None) else return_item so.

(** Read the page from [offnum] on, stepping to the next page if it has no match. *)
Definition load_first (fuel : nat) (so : ABTScanOpaque) (offnum : Z) : M (ABTScanOpaque * option tid) :=
  do (pos, found) <- _abt_readpage (so_keyData so) (so_currPos so) offnum;
  if negb found then
    do_ LockBuffer_UNLOCK (pos_buf pos);
    step_and_return fuel (set_pos so pos)
  else
    do pos <- _abt_drop_lock_and_maybe_pin pos;
    return_item (set_pos so pos).

Definition _abt_endpoint (fuel : nat) (so : ABTScanOpaque) : M (ABTScanOpaque * option tid) :=
  do buf <- _abt_get_endpoint meta pages fuel 0 (ScanDirectionIsBackward dir);
  match buf with
  | None => ret (set_pos so (ABTScanPosInvalidate (so_currPos so)), None)
  | Some _ =>
      do p <- BufferGetPage pages buf;
      let start := if ScanDirectionIsForward dir then ABT_P_FIRSTDATAKEY (pg_opaque p) else PageGetMaxOffsetNumber p in
      load_first fuel (_abt_initialize_more_data (set_pos so (set_buf (so_currPos so) buf)) dir) start
  end.

(** [keys] are the quals of the scan (scan->keyData). *)
Definition _abt_first (fuel : nat) (keys : list ScanKey) (so : ABTScanOpaque) : M (ABTScanOpaque * option tid) :=
  do (qual_ok, out) <- lift_res (_abt_preprocess_keys indoption opcintype opfamily keys);
  let so := set_keys so out in
  if negb qual_ok then ret (so, None)
  else
    do (qual_ok, start) <- lift_res (_abt_build_start_inskey rel opcintype procinfo opfamily_proc dir qual_ok out);
    if negb qual_ok then ret (so, None)
    else
      match start with
      | None => _abt_endpoint fuel so
      | Some (inskey, goback) =>
          do (buf, _) <- _abt_search_extended rel meta pages fuel inskey 0;
          match buf with
          | None => ret (set_pos so (ABTScanPosInvalidate (so_currPos so)), None)
          | Some _ =>
              let so := _abt_initialize_more_data so dir in
              do p <- BufferGetPage pages buf;
              do offnum <- lift (_abt_binsrch rel inskey p);
              let offnum := if goback : bool then OffsetNumberPrev offnum else offnum in
              load_first fuel (set_pos so (set_buf (so_currPos so) buf)) offnum
          end
      end.

Definition _abt_next (fuel : nat) (so : ABTScanOpaque) : M (ABTScanOpaque * option tid) :=
  let pos := so_currPos so in
  let pos := set_itemIndex pos (if ScanDirectionIsForward dir then itemIndex pos + 1 else itemIndex pos - 1) in
  if (if ScanDirectionIsForward dir then lastItem pos <? itemIndex pos else itemIndex pos <? firstItem pos)
  then step_and_return fuel (set_pos so pos)
  else return_item (set_pos so pos).

(** ** Marks *)

(** The position part of abtmarkpos and abtrestrpos (the array keys are ArrayKeys). *)
Definition abtmarkpos (so : ABTScanOpaque) : ABTScanOpaque :=
  let mark := ABTScanPosUnpinIfPinned (so_markPos so) in
  if ABTScanPosIsValid (so_currPos so) then mk_so (so_keyData so) (so_currPos so) mark (itemIndex (so_currPos so))
  else mk_so (so_keyData so) (so_currPos so) (ABTScanPosInvalidate mark) (-1).

Definition abtrestrpos (so : ABTScanOpaque) : ABTScanOpaque :=
  if 0 <=? so_markItemIndex so then set_pos so (set_itemIndex (so_currPos so) (so_markItemIndex so))
  else
    let pos := if ABTScanPosIsValid (so_currPos so) then ABTScanPosUnpinIfPinned (so_currPos so) else so_currPos so in
    set_pos so (if ABTScanPosIsValid (so_markPos so) then copy_pos pos (so_markPos so) else ABTScanPosInvalidate pos).

(** ** Drivers *)

(** Without array keys. *)
Definition abtgettuple (fuel : nat) (keys : list ScanKey) (so : ABTScanOpaque) : M (ABTScanOpaque * option tid) :=
  if negb (ABTScanPosIsValid (so_currPos so)) then _abt_first fuel keys so else _abt_next fuel so.

(** A caller that fetches until there is no more. *)
Fixpoint fetch_all (n fuel : nat) (keys : list ScanKey) (so : ABTScanOpaque) : M (ABTScanOpaque * list tid) :=
  match n with
  | O => fail OutOfFuel
  | S n =>
      do (so, r) <- abtgettuple fuel keys so;
      match r with
      | None => ret (so, [])
      | Some t => do (so, l) <- fetch_all n fuel keys so; ret (so, t :: l)
      end
  end.

(** A caller that fetches at most [m] times. *)
Fixpoint fetch_some (m fuel : nat) (keys : list ScanKey) (so : ABTScanOpaque) : M ABTScanOpaque :=
  match m with
  | O => ret so
  | S m =>
      do (so, r) <- abtgettuple fuel keys so;
      match r with None => ret so | Some _ => fetch_some m fuel keys so end
  end.

(** Mark the [j]-th item, go on, return to the mark and fetch the rest. *)
Definition mark_and_return (j m n fuel : nat) (keys : list ScanKey) (so : ABTScanOpaque) : M (ABTScanOpaque * list tid) :=
  do so <- fetch_some j fuel keys so;
  do so <- fetch_some m fuel keys (abtmarkpos so);
  fetch_all n fuel keys (abtrestrpos so).

End Scan.

(** abtgetbitmap without array keys: the TIDs in the order they are added. *)
Section Bitmap.
Context (rel : index_rel) (indoption : list Z) (opcintype : Z -> Z) (opfamily : Z -> Z -> Z -> Z -> option (Z -> Z -> Z)).
Context (procinfo : Z -> Z -> Z -> Z) (opfamily_proc : Z -> Z -> option (Z -> Z -> Z)).
Context (meta : ABTMetaPageData) (pages : Z -> option page) (ignore_killed_tuples drop_pin : bool).

Fixpoint bitmap_loop (n fuel : nat) (so : ABTScanOpaque) : M (ABTScanOpaque * list tid) :=
  match n with
  | O => fail OutOfFuel
  | S n =>
      let so := set_pos so (set_itemIndex (so_currPos so) (itemIndex (so_currPos so) + 1)) in
      do (so, r) <- (if lastItem (so_currPos so) <? itemIndex (so_currPos so)
                     then _abt_next rel pages ignore_killed_tuples drop_pin Forward fuel so else return_item so);
      match r with
      | None => ret (so, [])
      | Some t => do (so, l) <- bitmap_loop n fuel so; ret (so, t :: l)
      end
  end.

Definition abtgetbitmap (n fuel : nat) (keys : list ScanKey) (so : ABTScanOpaque) : M (ABTScanOpaque * list tid) :=
  do (so, r) <- _abt_first rel indoption opcintype opfamily procinfo opfamily_proc meta pages ignore_killed_tuples drop_pin Forward fuel keys so;
  match r with
  | None => ret (so, [])
  | Some t => do (so, l) <- bitmap_loop n fuel so; ret (so, t :: l)
  end.

End Bitmap.

(** ** Saving *)

Section Save.
Context (dir : ScanDirection).

Abbreviation slot := (Scan.slot dir).

(** itemIndex after [n] items. *)
Definition moved (idx : Z) (n : nat) : Z := idx + sign dir * Z.of_nat n.

(** Slots written before itemIndex was [idx]. *)
Definition used (idx : Z) (j : nat) : Prop := match dir with Forward => Z.of_nat j < idx | Backward => idx <= Z.of_nat j end.

Definition tid_at (its : list ABTScanPosItem) (j : Z) : option tid := heapTid <$> its !! Z.to_nat j.

(** [its'] is [its] with the TIDs [l] saved from [idx] on. *)
Record saved (its its' : list ABTScanPosItem) (idx : Z) (l : list tid) : Prop := {
  sv_length : length its' = length its;
  sv_used j : used idx j -> its' !! j = its !! j;
  sv_new k t : l !! k = Some t -> tid_at its' (slot (moved idx k)) = Some t
}.

(** There is room for [n] more items. *)
Definition room (its : list ABTScanPosItem) (idx : Z) (n : nat) : Prop :=
  0 <= idx <= Z.of_nat (length its) /\ 0 <= moved idx n <= Z.of_nat (length its).

Lemma saved_nil its idx : saved its its idx [].
Proof. by split. Qed.

Lemma moved_used idx n j : used idx j -> used (moved idx n) j.
Proof. unfold used, moved. destruct dir; cbn [sign]; lia. Qed.

Lemma moved_moved idx n m : moved (moved idx n) m = moved idx (n + m).
Proof. unfold moved. destruct dir; cbn [sign]; lia. Qed.

Lemma saved_app its its1 its2 idx l1 l2 : 0 <= idx -> 0 <= moved idx (length l1) ->
  saved its its1 idx l1 -> saved its1 its2 (moved idx (length l1)) l2 -> saved its its2 idx (l1 ++ l2).
Proof.
  intros H0 H1 [L1 U1 N1] [L2 U2 N2]. split; [congruence| |].
  - intros j Hj. rewrite U2 by by apply moved_used. by apply U1.
  - intros k t Hk. apply lookup_app_Some in Hk as [Hk|[Hle Hk]].
    + specialize (N1 k t Hk). apply lookup_lt_Some in Hk. unfold tid_at in *. rewrite U2; [done|].
      unfold used, slot, moved in *. destruct dir; cbn [sign ScanDirectionIsForward] in *; lia.
    + specialize (N2 _ t Hk). rewrite moved_moved in N2. by replace (length l1 + (k - length l1))%nat with k in N2 by lia.
Qed.

Lemma save_at_run its idx off t s : room its idx 1 ->
  exists its', save_at its (slot idx) off t s = Ok its' s /\ saved its its' idx [t].
Proof.
  unfold room, moved, save_at. intros [H0 H1].
  rewrite (proj2 (andb_true_iff _ _)); [|split; [apply Z.leb_le|apply Z.ltb_lt]; unfold slot; destruct dir; cbn [sign ScanDirectionIsForward] in *; lia].
  eexists. split; [done|]. split.
  - by rewrite length_insert.
  - intros j Hj. apply list_lookup_insert_ne. unfold used, slot in *. destruct dir; cbn [sign ScanDirectionIsForward] in *; lia.
  - intros [|k] x; [|done]. intros [= <-]. unfold moved. rewrite Z.mul_0_r, Z.add_0_r. unfold tid_at.
    rewrite list_lookup_insert_eq; [done|]. unfold slot. destruct dir; cbn [sign ScanDirectionIsForward] in *; lia.
Qed.

Lemma advance_moved idx : advance dir idx = moved idx 1.
Proof. unfold advance, moved. destruct dir; cbn [sign ScanDirectionIsForward]; lia. Qed.

Lemma room_split its idx n m : room its idx (n + m) -> room its idx n /\ forall its', length its' = length its -> room its' (moved idx n) m.
Proof. unfold room, moved. intros [H0 H1]. split; [destruct dir; cbn [sign] in *; lia|]. intros its' ->. destruct dir; cbn [sign] in *; lia. Qed.

Lemma save_posting_run n i t its idx off s : (i + n = length (it_tids t))%nat -> room its idx n ->
  exists its', save_posting dir n (Z.of_nat i) (LeafTup t) its idx off s = Ok (its', moved idx n) s /\ saved its its' idx (drop i (it_tids t)).
Proof.
  revert i its idx. induction n as [|n IH]; intros i its idx Hi Hr; cbn [save_posting].
  { exists its. rewrite drop_ge by lia. unfold moved. rewrite Z.mul_0_r, Z.add_0_r. split; [done|apply saved_nil]. }
  destruct (lookup_lt_is_Some_2 (it_tids t) i) as [x Hx]; [lia|]. destruct (room_split its idx 1 n Hr) as [Hr1 Hrn].
  destruct (save_at_run its idx off x s Hr1) as (its1 & Hrun & Hs1).
  erewrite bind_ok; [|apply lift_some; cbn [ABTreeTupleGetPostingN]; by rewrite Nat2Z.id].
  erewrite bind_ok by apply Hrun. rewrite advance_moved. replace (Z.of_nat i + 1) with (Z.of_nat (S i)) by lia.
  destruct (IH (S i) its1 (moved idx 1)) as (its' & -> & Hs); [lia|apply Hrn, Hs1|].
  exists its'. rewrite moved_moved, (drop_S _ x) by done. split; [done|]. apply (saved_app its its1 its' idx [x]); try done; apply Hr1.
Qed.

Lemma save_tuple_run t its idx off s : it_tids t <> [] -> (is_posting t = false -> length (it_tids t) = 1%nat) ->
  room its idx (length (it_tids t)) ->
  exists its', save_tuple dir (LeafTup t) its idx off s = Ok (its', moved idx (length (it_tids t))) s /\ saved its its' idx (it_tids t).
Proof.
  intros Hne Hone Hr. destruct (it_tids t) as [|x l] eqn:El; [done|]. unfold save_tuple. cbn [ABTreeTupleIsPosting].
  destruct (room_split its idx 1 (length l) Hr) as [Hr1 Hrn]. destruct (save_at_run its idx off x s Hr1) as (its1 & Hrun & Hs1).
  destruct (is_posting t); cbn [negb].
  - erewrite bind_ok; [|apply lift_some; cbn [ABTreeTupleGetPostingN]; by rewrite El]. erewrite bind_ok by apply Hrun. rewrite advance_moved.
    cbn [ABTreeTupleGetNPosting]. unfold nposting. rewrite El. replace (Z.to_nat _) with (length l) by (simpl; lia).
    destruct (save_posting_run (length l) 1 t its1 (moved idx 1) off s) as (its' & Hp & Hs); [by rewrite El|apply Hrn, Hs1|].
    change (Z.of_nat 1) with 1 in Hp. rewrite Hp. exists its'. rewrite moved_moved. split; [done|]. rewrite El in Hs.
    apply (saved_app its its1 its' idx [x]); try done; apply Hr1.
  - destruct l as [|y l]; [|specialize (Hone eq_refl); simpl in Hone; lia]. unfold _abt_saveitem. cbn [ABTreeTupleGetHeapTID]. rewrite El.
    exists its1. erewrite bind_ok; [|erewrite bind_ok by (by apply lift_some); apply Hrun]. by rewrite advance_moved.
Qed.

End Save.

(** ** What a page contributes *)

Section Hits.
Context (ignore_killed_tuples : bool) (keys : list ScanKey).

(** The TIDs a scan returns of one line pointer. *)
Definition hit (x : bool * index_tuple) : list tid :=
  match snd x with
  | LeafTup t => if ignore_killed_tuples && fst x then [] else if all_sat (it_key t) keys then it_tids t else []
  | PivotTup _ => []
  end.

Definition hits (l : list (bool * index_tuple)) : list tid := l ≫= hit.

Lemma hits_app l k : hits (l ++ k) = hits l ++ hits k.
Proof. unfold hits. by rewrite bind_app. Qed.

Lemma hits_nil l : (forall d t, (d, LeafTup t) ∈ l -> all_sat (it_key t) keys = false) -> hits l = [].
Proof.
  intros H. induction l as [|[d [t|p]] l IH]; [done| |]; change (hits (?x :: ?l)) with (hit x ++ hits l);
    rewrite IH by (intros d' t' Hin; apply (H d'); by right).
  - unfold hit. cbn [fst snd]. rewrite (H d t) by (by left). by destruct (_ && _).
  - done.
Qed.

End Hits.

(** The lines of a page in the direction of the scan. *)
Definition data_lines (p : page) : list (bool * index_tuple) := drop (Z.to_nat (first_off p - 1)) (pg_lines p).
Definition scan_lines (dir : ScanDirection) (p : page) : list (bool * index_tuple) :=
  if ScanDirectionIsForward dir then data_lines p else reverse (data_lines p).

(** The lines the loop visits from [off] on. *)
Inductive visits (dir : ScanDirection) (p : page) : Z -> list (bool * index_tuple) -> Prop :=
| visits_end off : (if ScanDirectionIsForward dir then PageGetMaxOffsetNumber p < off else off < first_off p) -> visits dir p off []
| visits_step off x l : first_off p <= off <= PageGetMaxOffsetNumber p -> PageGetItemId p off = Some x ->
    visits dir p (off + sign dir) l -> visits dir p off (x :: l).

Section ReadDefs.
Context (rel : index_rel) (ignore_killed_tuples : bool) (dir : ScanDirection) (keys : list ScanKey).

(** A leaf tuple as a scan expects it. *)
Definition leaf_line (x : bool * index_tuple) : Prop :=
  exists t, snd x = LeafTup t /\ tuple_ok rel (LeafTup t) /\ (is_posting t = false -> length (it_tids t) = 1%nat).

(** The check of a line tells the scan to stop. *)
Definition stops (x : bool * index_tuple) : Prop :=
  _abt_checkkeys (snd x) (rd_natts rel) dir keys = Val (false, false).

(** Behind a line where the scan stops there are no matches. *)
Definition finals (l : list (bool * index_tuple)) : Prop := forall l1 x l2, l = l1 ++ x :: l2 -> stops x -> hits ignore_killed_tuples keys l2 = [].

(** *** The position after reading a page *)

Definition more (pos : ABTScanPosData) : bool := if ScanDirectionIsForward dir then moreRight pos else moreLeft pos.

(** The items from itemIndex on are [l]. *)
Record loaded (pos : ABTScanPosData) (l : list tid) : Prop := {
  ld_length : Z.of_nat (length (items pos)) = MaxTIDsPerABTreePage;
  ld_index : 0 <= if ScanDirectionIsForward dir then itemIndex pos else firstItem pos;
  ld_last : ScanDirectionIsForward dir = false -> itemIndex pos <= lastItem pos;
  ld_count : (if ScanDirectionIsForward dir then lastItem pos - itemIndex pos else itemIndex pos - firstItem pos) = Z.of_nat (length l) - 1;
  ld_items k t : l !! k = Some t -> tid_at (items pos) (itemIndex pos + sign dir * Z.of_nat k) = Some t
}.

(** The high key tells a forward scan to stop. *)
Definition hikey_stops (p : page) : Prop :=
  ScanDirectionIsForward dir = true /\ exists hk, hikey p = Some hk /\
    _abt_checkkeys hk (ABTreeTupleGetNAtts hk (rd_natts rel)) dir keys = Val (false, false).

Definition clip (p : page) (off : Z) : Z :=
  if ScanDirectionIsForward dir then Z.max off (first_off p) else Z.min off (PageGetMaxOffsetNumber p).

End ReadDefs.

Section Read.
Context (rel : index_rel) (pages : Z -> option page) (ignore_killed_tuples : bool) (dir : ScanDirection) (keys : list ScanKey) (nkeys : Z).
Context (Hkeys : Forall (key_good nkeys) keys) (Hnk : nkeys <= rd_natts rel).

Abbreviation hits := (Scan.hits ignore_killed_tuples keys).
Abbreviation moved := (Scan.moved dir).
Abbreviation saved := (Scan.saved dir).
Abbreviation room := (Scan.room dir).
Abbreviation visits := (Scan.visits dir).
Abbreviation leaf_line := (Scan.leaf_line rel).
Abbreviation stops := (Scan.stops rel dir keys).
Abbreviation finals := (Scan.finals rel ignore_killed_tuples dir keys).
Abbreviation more := (Scan.more dir).
Abbreviation loaded := (Scan.loaded dir).
Abbreviation hikey_stops := (Scan.hikey_stops rel dir keys).
Abbreviation clip := (Scan.clip dir).

Lemma visits_dead p off x l : visits p off (x :: l) ->
  ScanDirectionIsForward dir = false -> (ABT_P_FIRSTDATAKEY (pg_opaque p) <? off) = bool_decide (l <> []).
Proof.
  inversion 1 as [|? ? ? Hr _ Hv]; subst. intros Hd. unfold first_off in *. destruct dir; [|done]. simpl in *.
  inversion Hv as [? He|? ? ? Hr' _ _]; subst; simpl in *; unfold first_off in *.
  - apply Z.ltb_ge. lia.
  - apply Z.ltb_lt. lia.
Qed.

Lemma next_offset p off : page_ok rel p -> first_off p <= off <= PageGetMaxOffsetNumber p ->
  (if ScanDirectionIsForward dir then OffsetNumberNext off else OffsetNumberPrev off) = off + sign dir.
Proof.
  intros Hp Hoff. pose proof (pk_max _ _ Hp). pose proof (first_off_range p). unfold OffsetNumberNext, OffsetNumberPrev, u16.
  destruct dir; cbn [ScanDirectionIsForward sign]; rewrite Z.mod_small by lia; lia.
Qed.

Lemma read_items_run p off l its idx fuel s : page_ok rel p -> visits p off l -> Forall leaf_line l -> finals l ->
  room its idx (length (hits l)) -> (length l < fuel)%nat ->
  exists its' c, read_items rel ignore_killed_tuples dir fuel keys p off its idx s = Ok (its', moved idx (length (hits l)), c) s /\
    saved its its' idx (hits l) /\ (c = false -> exists x, x ∈ l /\ stops x).
Proof.
  intros Hp Hv. revert its idx fuel. induction Hv as [off He|off x l Hr Hx Hv IH]; intros its idx fuel Hl Hfin Hroom Hf;
    (destruct fuel as [|fuel]; [simpl in Hf; lia|]); cbn [read_items].
  { exists its, true. replace (if ScanDirectionIsForward dir then _ else _) with false.
    - unfold moved. simpl. rewrite Z.mul_0_r, Z.add_0_r. split; [done|]. split; [apply saved_nil|done].
    - symmetry. unfold first_off in He. destruct dir; cbn [ScanDirectionIsForward] in *; apply Z.leb_gt; lia. }
  replace (if ScanDirectionIsForward dir then off <=? _ else _) with true
    by (symmetry; unfold first_off in Hr; destruct dir; cbn [ScanDirectionIsForward]; apply Z.leb_le; lia).
  run_step. rewrite (next_offset p off Hp Hr). destruct x as [dead itup]. inversion Hl as [|? ? (t & Ht & Hok & Hone) Hl']; subst.
  cbn [fst snd] in Ht. subst itup. assert (Hne : it_tids t <> []) by (destruct Hok as (_ & lo & hi & Hlo & _); by destruct (it_tids t)).
  assert (Hfin' : finals l) by (intros l1 x l2 ->; apply (Hfin ((dead, LeafTup t) :: l1)); done).
  destruct (checkkeys_run (LeafTup t) nkeys (rd_natts rel) dir) with (keys := keys) as (c & Hc & _); [destruct Hok as [Hlen _]; cbn [tuple_key]; lia|done|done|].
  change (hits ((dead, LeafTup t) :: l)) with (hit ignore_killed_tuples keys (dead, LeafTup t) ++ hits l) in *. unfold hit in *. cbn [fst snd] in *.
  assert (Hgo : forall its idx, room its idx (length (hits l)) ->
    exists its' c, read_items rel ignore_killed_tuples dir fuel keys p (off + sign dir) its idx s = Ok (its', moved idx (length (hits l)), c) s /\
      saved its its' idx (hits l) /\ (c = false -> exists x, x ∈ (dead, LeafTup t) :: l /\ stops x)).
  { intros its0 idx0 Hr0. destruct (IH its0 idx0 fuel Hl' Hfin' Hr0 ltac:(simpl in Hf; lia)) as (its' & c' & Hrun & Hs & Hst).
    exists its', c'. split; [done|]. split; [done|]. intros E. destruct (Hst E) as (y & Hy & ?). exists y. split; [by right|done]. }
  destruct (ignore_killed_tuples && dead) eqn:Ek; cbn [andb negb app].
  - destruct (ScanDirectionIsForward dir || _) eqn:Eskip; [by apply Hgo|].
    erewrite bind_ok; [|by rewrite Hc]. cbv beta iota. rewrite andb_false_r. erewrite bind_ok by reflexivity. cbv beta iota. destruct c; [by apply Hgo|].
    apply orb_false_iff in Eskip as [Ed Emin]. rewrite (visits_dead p off (dead, LeafTup t) l) in Emin by (by econstructor || done).
    apply bool_decide_eq_false in Emin. destruct l as [|? ?]; [|exfalso; by apply Emin]. exists its, false. unfold moved. simpl.
    rewrite Z.mul_0_r, Z.add_0_r. split; [done|]. split; [apply saved_nil|]. intros _. eexists. split; [by left|]. unfold stops. cbn [snd].
    destruct (all_sat (tuple_key (LeafTup t)) keys); [by apply checkkeys_true in Hc|done].
  - erewrite bind_ok; [|by rewrite Hc]. cbv beta iota. cbn [tuple_key] in *. rewrite andb_true_r. destruct (all_sat (it_key t) keys) eqn:Esat; cbn [app] in *.
    + rewrite length_app in Hroom. destruct (room_split dir its idx _ _ Hroom) as [Hr1 Hr2].
      destruct (save_tuple_run dir t its idx off s Hne Hone Hr1) as (its1 & Hrun & Hs1). erewrite bind_ok by apply Hrun. cbv beta iota.
      assert (c = true) as -> by by apply (checkkeys_true _ _ _ _ _ Hc).
      destruct (Hgo its1 _ (Hr2 its1 (sv_length _ _ _ _ _ Hs1))) as (its' & c' & Hrun' & Hs' & Hst). exists its', c'.
      rewrite Hrun', length_app, moved_moved. split; [done|]. split; [|done].
      apply (saved_app dir its its1 its'); try done; [apply Hr1|apply Hr1].
    + erewrite bind_ok by reflexivity. cbv beta iota. destruct c; [by apply Hgo|]. rewrite (Hfin [] (dead, LeafTup t) l) by (done || apply Hc).
      exists its, false. unfold moved. simpl. rewrite Z.mul_0_r, Z.add_0_r. split; [done|]. split; [apply saved_nil|]. intros _.
      eexists. split; [by left|done].
Qed.

Lemma saved_loaded its its' l b blk nx ml mr first last idx : saved its its' idx l -> Z.of_nat (length its) = MaxTIDsPerABTreePage ->
  Z.of_nat (length l) <= MaxTIDsPerABTreePage ->
  idx = (if ScanDirectionIsForward dir then 0 else MaxTIDsPerABTreePage) ->
  (first, last) = (if ScanDirectionIsForward dir then (0, moved idx (length l) - 1) else (moved idx (length l), MaxTIDsPerABTreePage - 1)) ->
  loaded (mk_pos b blk nx ml mr first last (if ScanDirectionIsForward dir then 0 else MaxTIDsPerABTreePage - 1) its') l.
Proof.
  intros [Hl _ Hn] Hlen Hle -> E. split; cbn [items itemIndex firstItem lastItem].
  - congruence.
  - unfold moved in E. destruct dir; cbn [ScanDirectionIsForward sign] in *; injection E as -> ->; lia.
  - unfold moved in E. destruct dir; cbn [ScanDirectionIsForward sign] in *; injection E as -> ->; [intros _; lia|done].
  - unfold moved in E. destruct dir; cbn [ScanDirectionIsForward sign] in *; injection E as -> ->; lia.
  - intros k t Hk. specialize (Hn k t Hk). unfold slot, moved in Hn.
    destruct dir; cbn [ScanDirectionIsForward sign] in *; [|done].
    by replace (MaxTIDsPerABTreePage - 1 + -1 * Z.of_nat k) with (MaxTIDsPerABTreePage + -1 * Z.of_nat k - 1) by lia.
Qed.

Lemma readpage_run pos b p off l h c : pages b = Some p -> pos_buf pos = Some b -> page_ok rel p -> visits p (clip p off) l ->
  Forall leaf_line l -> finals l -> Z.of_nat (length (hits l)) <= MaxTIDsPerABTreePage -> Z.of_nat (length (items pos)) = MaxTIDsPerABTreePage ->
  (length l <= length (pg_lines p))%nat -> is_Some (hikey p) \/ ABT_P_RIGHTMOST (pg_opaque p) = true ->
  (forall hk, hikey p = Some hk -> exists r c, _abt_checkkeys hk (ABTreeTupleGetNAtts hk (rd_natts rel)) dir keys = Val (r, c)) ->
  exists pos', _abt_readpage rel pages ignore_killed_tuples dir keys pos off (mk_bs (b :: h) c) = Ok (pos', bool_decide (hits l <> [])) (mk_bs (b :: h) c) /\
    loaded pos' (hits l) /\ pos_buf pos' = Some b /\ currPage pos' = b /\ nextPage pos' = abtpo_next (pg_opaque p) /\
    (more pos' = false -> more pos = false \/ (exists x, x ∈ l /\ stops x) \/ hikey_stops p).
Proof.
  intros Hp Hb Hok Hv Hl Hfin Hmax Hits Hlen Hhk Hck. unfold _abt_readpage. rewrite Hb. run_step. run_step. cbv zeta.
  set (idx0 := if ScanDirectionIsForward dir then 0 else MaxTIDsPerABTreePage).
  assert (Hroom : room (items pos) idx0 (length (hits l))).
  { unfold room, moved, idx0. destruct dir; cbn [ScanDirectionIsForward sign]; split; try lia; rewrite Hits; vm_compute; intuition congruence. }
  destruct (read_items_run p (clip p off) l (items pos) idx0 (S (length (pg_lines p))) (mk_bs (b :: h) c) Hok Hv Hl Hfin Hroom) as (its' & cont & Hrun & Hs & Hst); [lia|].
  assert (Hfound : bool_decide (hits l <> []) = (0 <? Z.of_nat (length (hits l)))).
  { destruct (hits l); [done|]. rewrite bool_decide_true by done. symmetry. apply Z.ltb_lt. simpl. lia. }
  unfold clip, first_off, moved, idx0 in Hrun. pose proof (saved_loaded (items pos) its' (hits l)) as Hload. unfold idx0 in Hs, Hload. unfold more. rewrite Hfound.
  destruct dir; cbn [ScanDirectionIsForward sign] in *.
  - erewrite bind_ok by apply Hrun. cbv beta iota. set (j := MaxTIDsPerABTreePage + _) in *.
    replace (j <=? MaxTIDsPerABTreePage - 1) with (0 <? Z.of_nat (length (hits l)))
      by (unfold j; destruct (Z.ltb_spec 0 (Z.of_nat (length (hits l)))); symmetry; [apply Z.leb_le|apply Z.leb_gt]; lia).
    eexists. split; [reflexivity|]. split; [by eapply Hload|]. split_and!; try done. cbn [moreLeft].
    intros [?|?]%andb_false_iff; [by left|right; left; by apply Hst].
  - assert (Hcont : exists cont', (if cont && negb (ABT_P_RIGHTMOST (pg_opaque p)) then
        do itup <- lift (PageGetItem p ABTP_HIKEY);
        do (_, continuescan) <- lift_res (_abt_checkkeys itup (ABTreeTupleGetNAtts itup (rd_natts rel)) Forward keys); ret continuescan
      else ret cont) (mk_bs (b :: h) c) = Ok cont' (mk_bs (b :: h) c) /\
      (cont' = false -> (exists x, x ∈ l /\ Scan.stops rel Forward keys x) \/ Scan.hikey_stops rel Forward keys p)).
    { destruct cont; [|exists false; split; [done|]; intros _; left; by apply Hst]. cbn [andb].
      destruct (ABT_P_RIGHTMOST (pg_opaque p)) eqn:Er; cbn [negb]; [by exists true|]. destruct Hhk as [[hk Hhk]|]; [|done].
      destruct (Hck hk Hhk) as (r & c' & Hc). exists c'. pose proof Hhk as Hhk'. unfold hikey in Hhk'. rewrite Er in Hhk'.
      erewrite bind_ok by (by apply lift_some). rewrite Hc. split; [done|]. intros ->. right. split; [done|]. exists hk. split; [done|].
      destruct r; [by apply checkkeys_true in Hc|done]. }
    destruct Hcont as (cont' & Hcont & Hst'). erewrite bind_ok by apply Hrun. cbv beta iota. erewrite bind_ok by apply Hcont.
    set (j := 0 + _) in *. replace (0 <=? j - 1) with (0 <? Z.of_nat (length (hits l)))
      by (unfold j; destruct (Z.ltb_spec 0 (Z.of_nat (length (hits l)))); symmetry; [apply Z.leb_le|apply Z.leb_gt]; lia).
    eexists. split; [reflexivity|]. split; [by eapply Hload|]. split_and!; try done. cbn [moreRight].
    intros [?|?]%andb_false_iff; [by left|right; by apply Hst'].
Qed.

End Read.

(** ** Walking over the leaf pages *)

(** The offset a page that is not the first one is read from. *)
Definition far_end (dir : ScanDirection) (p : page) : Z :=
  if ScanDirectionIsForward dir then ABT_P_FIRSTDATAKEY (pg_opaque p) else PageGetMaxOffsetNumber p.

Section WalkDefs.
Context (rel : index_rel) (pages : Z -> option page) (ignore_killed_tuples : bool) (dir : ScanDirection) (keys : list ScanKey).

(** The leaf pages in the direction of the scan, each with the lines visited. *)
Context (vis : list (Z * list (bool * index_tuple))).

(** The matches of the pages from the [k]-th on. *)
Definition rest (k : nat) : list tid := drop k vis ≫= fun v => hits ignore_killed_tuples keys (snd v).

(** One page of the walk. *)
Record page_step (k : nat) (b : Z) (l : list (bool * index_tuple)) (p : page) : Prop := {
  ps_page : pages b = Some p;
  ps_ok : page_ok rel p;
  ps_blkno : b <> ABTP_NONE /\ b <> InvalidBlockNumber;
  ps_live : ABT_P_IGNORE (pg_opaque p) = false;
  ps_lines : Forall (leaf_line rel) l;
  ps_short : (length l <= length (pg_lines p))%nat;
  ps_hits : Z.of_nat (length (hits ignore_killed_tuples keys l)) <= MaxTIDsPerABTreePage;
  ps_hikey : is_Some (hikey p) \/ ABT_P_RIGHTMOST (pg_opaque p) = true;
  ps_check hk : hikey p = Some hk -> exists r c, _abt_checkkeys hk (ABTreeTupleGetNAtts hk (rd_natts rel)) dir keys = Val (r, c);
  ps_visits : k <> 0%nat -> visits dir p (far_end dir p) l;
  ps_right : dir = Forward -> abtpo_next (pg_opaque p) = default ABTP_NONE (fst <$> vis !! S k);
  ps_left : dir = Backward -> abtpo_prev (pg_opaque p) = default ABTP_NONE (fst <$> vis !! S k) /\
    forall b' l' p', vis !! S k = Some (b', l') -> pages b' = Some p' -> abtpo_next (pg_opaque p') = b;
  ps_finals : finals rel ignore_killed_tuples dir keys l;
  ps_stop x : x ∈ l -> stops rel dir keys x -> rest (S k) = [];
  ps_hikey_stop : hikey_stops rel dir keys p -> rest (S k) = []
}.

Definition walk_ok : Prop := forall k b l, vis !! k = Some (b, l) -> exists p, page_step k b l p.

(** The scan has read page [k] and holds no lock. *)
Record at_page (pos : ABTScanPosData) (k : nat) : Prop := {
  cu_items : Z.of_nat (length (items pos)) = MaxTIDsPerABTreePage;
  cu_page : exists l, vis !! k = Some (currPage pos, l);
  cu_next : dir = Forward -> nextPage pos = default ABTP_NONE (fst <$> vis !! S k);
  cu_pin : pos_buf pos = None \/ pos_buf pos = Some (currPage pos);
  cu_more : more dir pos = false -> rest (S k) = []
}.

(** It has [rem] left of the page, the current item first. *)
Definition cursor (pos : ABTScanPosData) (k : nat) (rem : list tid) : Prop := at_page pos k /\ loaded dir pos rem.

End WalkDefs.

Section Walk.
Context (rel : index_rel) (pages : Z -> option page) (ignore_killed_tuples drop_pin : bool) (dir : ScanDirection) (keys : list ScanKey) (nkeys : Z).
Context (Hkeys : Forall (key_good nkeys) keys) (Hnk : nkeys <= rd_natts rel).
Context (vis : list (Z * list (bool * index_tuple))) (Hwalk : walk_ok rel pages ignore_killed_tuples dir keys vis).

Abbreviation hits := (Scan.hits ignore_killed_tuples keys).
Abbreviation rest := (Scan.rest ignore_killed_tuples keys vis).
Abbreviation cursor := (Scan.cursor ignore_killed_tuples dir keys vis).
Abbreviation at_page := (Scan.at_page ignore_killed_tuples dir keys vis).
Abbreviation page_step := (Scan.page_step rel pages ignore_killed_tuples dir keys vis).

Lemma rest_step k b l : vis !! k = Some (b, l) -> rest k = hits l ++ rest (S k).
Proof. intros Hk. unfold Scan.rest. by rewrite (drop_S _ _ _ Hk). Qed.

Lemma rest_end k : vis !! k = None -> rest k = [].
Proof. intros Hk%lookup_ge_None. unfold Scan.rest. by rewrite drop_ge. Qed.

Lemma rest_more k b l : vis !! k = Some (b, l) -> rest k = [] -> rest (S k) = [].
Proof. intros Hk Hr. rewrite (rest_step k b l Hk) in Hr. by apply app_eq_nil in Hr as [_ ?]. Qed.

Lemma far_end_clip p : clip dir p (far_end dir p) = far_end dir p.
Proof. unfold clip, far_end, first_off. destruct dir; cbn [ScanDirectionIsForward]; lia. Qed.

(** Reading page [k] from where the walk enters it. *)
Lemma readpage_step pos k b l p off h c : vis !! k = Some (b, l) -> page_step k b l p -> visits dir p (clip dir p off) l ->
  pos_buf pos = Some b -> Z.of_nat (length (items pos)) = MaxTIDsPerABTreePage -> (more dir pos = false -> rest (S k) = []) ->
  exists pos', _abt_readpage rel pages ignore_killed_tuples dir keys pos off (mk_bs (b :: h) c) = Ok (pos', bool_decide (hits l <> [])) (mk_bs (b :: h) c) /\
    cursor pos' k (hits l) /\ pos_buf pos' = Some b.
Proof.
  intros Hk Hs Hv Hb Hits Hmore. destruct Hs as [Hp Hok Hblk Hlive Hl Hshort Hhits Hhk Hck _ Hnx _ Hfin Hstop Hhs].
  destruct (readpage_run rel pages ignore_killed_tuples dir keys nkeys Hkeys Hnk pos b p off l h c) as (pos' & Hrun & Hld & Hb' & Hcur & Hnext & Hm); try done.
  exists pos'. split; [done|]. split; [|done]. split; [|done]. split; [apply Hld|rewrite Hcur; by eexists|intros Hd; rewrite Hnext; by apply Hnx|rewrite Hcur; by right|].
  intros E. destruct (Hm E) as [?|[(x & Hx & Hst)|?]]; [by apply Hmore|by eapply Hstop|by apply Hhs].
Qed.

(** The outcome of looking for the next page with matches from page [k] on. *)
Definition stepped (k : nat) (h : list Z) (c : option ABTMetaPageData) (r : result (ABTScanPosData * bool)) : Prop :=
  (rest k = [] /\ exists pos, r = Ok (pos, false) (mk_bs h c) /\ ABTScanPosIsValid pos = false /\ pos_buf pos = None /\ Z.of_nat (length (items pos)) = MaxTIDsPerABTreePage) \/
  (exists j b pos t rem, rest k = (t :: rem) ++ rest (S j) /\ r = Ok (pos, true) (mk_bs (b :: h) c) /\ cursor pos j (t :: rem) /\ pos_buf pos = Some b).

Lemma stepped_found k b l pos h c : vis !! k = Some (b, l) -> hits l <> [] -> cursor pos k (hits l) -> pos_buf pos = Some b ->
  stepped k h c (Ok (pos, true) (mk_bs (b :: h) c)).
Proof.
  intros Hk Hne Hc Hb. right. pose proof (rest_step k b l Hk) as Hr. destruct (hits l) as [|t rem]; [done|]. by exists k, b, pos, t, rem.
Qed.

Lemma stepped_skip k b l h c r : vis !! k = Some (b, l) -> hits l = [] -> stepped (S k) h c r -> stepped k h c r.
Proof. intros Hk Hn. unfold stepped. by rewrite (rest_step k b l Hk), Hn. Qed.

Lemma read_right_run pos k blkno fuel h c : dir = Forward -> blkno = default ABTP_NONE (fst <$> vis !! k) ->
  Z.of_nat (length (items pos)) = MaxTIDsPerABTreePage -> (more dir pos = false -> rest k = []) -> k <> 0%nat -> (length vis - k < fuel)%nat ->
  stepped k h c (read_right rel pages ignore_killed_tuples dir fuel keys pos blkno (mk_bs h c)).
Proof.
  intros Hd. revert pos k blkno. induction fuel as [|fuel IH]; intros pos k blkno Hblk Hits Hmore Hk0 Hf; [lia|]. cbn [read_right].
  destruct ((blkno =? ABTP_NONE) || negb (moreRight pos)) eqn:Estop.
  { left. split; [|eexists; split; [reflexivity|done]]. apply orb_true_iff in Estop as [E|E].
    - apply rest_end. destruct (vis !! k) as [[b l]|] eqn:Ek; [|done]. destruct (Hwalk k b l Ek) as [p [_ _ [? _] _ _ _ _ _ _ _ _ _ _ _ _]]. zbool. simpl in *. congruence.
    - apply Hmore. unfold more. rewrite Hd. cbn. by apply negb_true_iff. }
  apply orb_false_iff in Estop as [Enone _]. destruct (vis !! k) as [[b l]|] eqn:Ek; simpl in Hblk; subst blkno; [|done].
  destruct (Hwalk k b l Ek) as [p Hs]. pose proof (ps_page _ _ _ _ _ _ _ _ _ _ Hs) as Hp. run_step. run_step. cbv zeta. rewrite (ps_live _ _ _ _ _ _ _ _ _ _ Hs). cbn [negb].
  pose proof (ps_visits _ _ _ _ _ _ _ _ _ _ Hs Hk0) as Hv. rewrite <- far_end_clip in Hv.
  destruct (readpage_step (set_buf pos (Some b)) k b l p (far_end dir p) h c Ek Hs Hv) as (pos' & Hrun & Hcu & Hb'); [done|done| |].
  { intros E. eapply rest_more; [done|]. by apply Hmore. }
  unfold far_end in Hrun. rewrite Hd in Hrun at 2. cbn [ScanDirectionIsForward] in Hrun. rewrite (bind_ok _ _ _ _ _ Hrun).
  case_bool_decide as Eh; [by eapply stepped_found|]. rewrite Hb'. rewrite (bind_ok _ _ _ tt (mk_bs h c)) by apply relbuf_run.
  apply (stepped_skip k b l h c _ Ek); [by destruct (hits l)|]. apply lookup_lt_Some in Ek as Hlt. destruct Hcu as [Hcu _]. apply IH; [|apply Hcu|apply Hcu|done|lia].
  rewrite (ps_right _ _ _ _ _ _ _ _ _ _ Hs Hd). done.
Qed.

Lemma live_not_deleted o : ABT_P_IGNORE o = false -> ABT_P_ISDELETED o = false.
Proof.
  unfold ABT_P_IGNORE, ABT_P_ISDELETED, has_flag. rewrite Z.land_lor_distr_r. intros H%negb_false_iff%Z.eqb_eq%Z.lor_eq_0_iff.
  destruct H as [-> _]. done.
Qed.

Lemma walk_left_run k b l fuel h c : dir = Backward -> vis !! k = Some (b, l) -> fuel <> 0%nat ->
  match vis !! S k with
  | Some (b', _) => _abt_walk_left pages fuel (Some b) (mk_bs (b :: h) c) = Ok (Some b') (mk_bs (b' :: h) c)
  | None => _abt_walk_left pages fuel (Some b) (mk_bs (b :: h) c) = Ok None (mk_bs h c)
  end.
Proof.
  intros Hd Hk Hf. destruct fuel as [|fuel]; [done|]. cbn [_abt_walk_left]. destruct (Hwalk k b l Hk) as [p Hs].
  pose proof (ps_page _ _ _ _ _ _ _ _ _ _ Hs) as Hp. destruct (ps_left _ _ _ _ _ _ _ _ _ _ Hs Hd) as [Hprev Hback]. unfold ABT_P_LEFTMOST.
  destruct (vis !! S k) as [[b' l']|] eqn:Ek; simpl in Hprev; run_step; rewrite Hprev.
  - destruct (Hwalk (S k) b' l' Ek) as [p' Hs']. pose proof (ps_page _ _ _ _ _ _ _ _ _ _ Hs') as Hp'. destruct (ps_blkno _ _ _ _ _ _ _ _ _ _ Hs') as [Hnz _].
    rewrite (proj2 (Z.eqb_neq _ _) Hnz). run_step. cbv zeta. run_step. run_step. cbn [find_left_sibling].
    erewrite bind_ok; [|run_step; rewrite (live_not_deleted _ (ps_live _ _ _ _ _ _ _ _ _ _ Hs')), (Hback b' l' p' eq_refl Hp'), Z.eqb_refl; reflexivity]. done.
  - rewrite Z.eqb_refl. by run_step.
Qed.

Lemma read_left_run pos k b l fuel h c : dir = Backward -> vis !! k = Some (b, l) -> pos_buf pos = Some b ->
  Z.of_nat (length (items pos)) = MaxTIDsPerABTreePage -> (more dir pos = false -> rest (S k) = []) -> (length vis - k < fuel)%nat ->
  stepped (S k) h c (read_left rel pages ignore_killed_tuples dir fuel keys pos (mk_bs (b :: h) c)).
Proof.
  intros Hd. revert pos k b l. induction fuel as [|fuel IH]; intros pos k b l Hk Hb Hits Hmore Hf; [lia|]. cbn [read_left]. rewrite Hb.
  apply lookup_lt_Some in Hk as Hlt. destruct (moreLeft pos) eqn:Em; cbn [negb].
  2: { left. split; [apply Hmore; unfold more; by rewrite Hd|]. run_step. by eexists. }
  pose proof (walk_left_run k b l fuel h c Hd Hk ltac:(lia)) as Hw. destruct (vis !! S k) as [[b' l']|] eqn:Ek; rewrite (bind_ok _ _ _ _ _ Hw); cbv zeta.
  2: { left. split; [by apply rest_end|]. by eexists. }
  destruct (Hwalk (S k) b' l' Ek) as [p Hs]. pose proof (ps_page _ _ _ _ _ _ _ _ _ _ Hs) as Hp. run_step. rewrite (ps_live _ _ _ _ _ _ _ _ _ _ Hs). cbn [negb].
  pose proof (ps_visits _ _ _ _ _ _ _ _ _ _ Hs ltac:(done)) as Hv. rewrite <- far_end_clip in Hv.
  destruct (readpage_step (set_buf pos (Some b')) (S k) b' l' p (far_end dir p) h c Ek Hs Hv) as (pos' & Hrun & Hcu & Hb'); [done|done| |].
  { intros E. unfold more in E. rewrite Hd in E. cbn in E. congruence. }
  unfold far_end in Hrun. rewrite Hd in Hrun at 2. cbn [ScanDirectionIsForward] in Hrun. rewrite (bind_ok _ _ _ _ _ Hrun).
  case_bool_decide as Eh; [by eapply stepped_found|].
  apply (stepped_skip (S k) b' l' h c _ Ek); [by destruct (hits l')|]. destruct Hcu as [Hcu _]. apply (IH pos' (S k) b' l'); [done|done|apply Hcu|apply Hcu|lia].
Qed.

(** Stepping from page [k] to the next one with matches, the lock dropped again. *)
Definition stepped_to (k : nat) (h : list Z) (c : option ABTMetaPageData) (r : result (ABTScanOpaque * bool)) : Prop :=
  (rest k = [] /\ exists so, r = Ok (so, false) (mk_bs h c) /\ ABTScanPosIsValid (so_currPos so) = false /\ pos_buf (so_currPos so) = None /\
    Z.of_nat (length (items (so_currPos so))) = MaxTIDsPerABTreePage) \/
  (exists j so t rem, rest k = (t :: rem) ++ rest (S j) /\ r = Ok (so, true) (mk_bs h c) /\ so_keyData so = keys /\ cursor (so_currPos so) j (t :: rem)).

Lemma drop_lock_run pos b k rem h c : cursor pos k rem -> pos_buf pos = Some b ->
  exists pos', _abt_drop_lock_and_maybe_pin drop_pin pos (mk_bs (b :: h) c) = Ok pos' (mk_bs h c) /\ cursor pos' k rem /\
    itemIndex pos' = itemIndex pos /\ items pos' = items pos.
Proof.
  intros Hc Hb. unfold _abt_drop_lock_and_maybe_pin, LockBuffer_UNLOCK. rewrite Hb. rewrite (bind_ok _ _ _ tt (mk_bs h c)) by apply relbuf_run.
  eexists. split; [reflexivity|]. destruct drop_pin; [|done]. split; [|done]. destruct Hc as [[Hi Hp Hn _ Hm] [L1 L2 L3 L4 L5]]. split; [split; by try left|by split].
Qed.

Lemma save_mark_pos so : so_currPos (save_mark so) = so_currPos so /\ so_keyData (save_mark so) = so_keyData so.
Proof. unfold save_mark. by destruct (_ <=? _). Qed.

Lemma steppage_run so k fuel h c : so_keyData so = keys -> at_page (so_currPos so) k -> (length vis < fuel)%nat ->
  stepped_to (S k) h c (_abt_steppage rel pages ignore_killed_tuples drop_pin dir fuel so (mk_bs h c)).
Proof.
  intros Hkd Hc Hf. unfold _abt_steppage, _abt_readnextpage. cbv zeta. destruct (save_mark_pos so) as [Hcur Hkd']. rewrite Hcur, Hkd', Hkd. set (pos := so_currPos so) in *. destruct (cu_page _ _ _ _ _ _ Hc) as [l Hk].
  assert (Hdrop : forall m, stepped (S k) h c (m (mk_bs h c)) ->
    stepped_to (S k) h c (bind m (fun '(pos, found) => if negb found then ret (set_pos (save_mark so) pos, false) else
      do pos <- _abt_drop_lock_and_maybe_pin drop_pin pos; ret (set_pos (save_mark so) pos, true)) (mk_bs h c))).
  { intros m [(Hr & pos' & Hm & ?)|(j & b & pos' & t & rem' & Hr & Hm & Hcu & Hb)]; rewrite (bind_ok _ _ _ _ _ Hm); cbv beta iota; cbn [negb].
    - left. split; [done|]. by eexists.
    - right. destruct (drop_lock_run pos' b j (t :: rem') h c Hcu Hb) as (pos2 & Hd & Hcu' & _). rewrite (bind_ok _ _ _ _ _ Hd).
      exists j, (set_pos (save_mark so) pos2), t, rem'. split_and!; try done. cbn. congruence. }
  assert (dir = Forward /\ ScanDirectionIsForward dir = true \/ dir = Backward /\ ScanDirectionIsForward dir = false) as [[Ed Ef]|[Ed Ef]]
    by (destruct dir; auto); rewrite Ef; apply Hdrop.
  - apply read_right_run; try done; [by apply Hc|apply Hc| |lia]. intros E. apply (cu_more _ _ _ _ _ _ Hc). unfold more in *. by rewrite Ef in *.
  - cbn [currPage]. rewrite Z.eqb_refl. cbn [negb].
    assert (Hlock : exists pos', (if ABTScanPosIsPinned (set_more pos (moreLeft pos) true) then do_ LockBuffer_SHARE pages (pos_buf (set_more pos (moreLeft pos) true)); ret (set_more pos (moreLeft pos) true)
        else do buf <- _abt_getbuf pages (currPage (set_more pos (moreLeft pos) true)); ret (set_buf (set_more pos (moreLeft pos) true) buf)) (mk_bs h c) =
          Ok pos' (mk_bs (currPage pos :: h) c) /\ pos_buf pos' = Some (currPage pos) /\ items pos' = items pos /\ moreLeft pos' = moreLeft pos).
    { destruct (Hwalk k (currPage pos) l Hk) as [p Hs]. pose proof (ps_page _ _ _ _ _ _ _ _ _ _ Hs) as Hp.
      unfold ABTScanPosIsPinned, LockBuffer_SHARE. cbn [pos_buf set_more currPage].
      destruct (cu_pin _ _ _ _ _ _ Hc) as [Hb|Hb]; rewrite Hb.
      - run_step. by eexists.
      - erewrite bind_ok; [|run_step; reflexivity]. by eexists. }
    destruct Hlock as (pos' & Hlock & Hb & Hits & Hml). rewrite (bind_ok _ _ _ _ _ Hlock).
    apply (read_left_run pos' k (currPage pos) l); try done; [rewrite Hits; apply Hc| |lia].
    intros E. apply (cu_more _ _ _ _ _ _ Hc). unfold more in *. rewrite Ef in *. congruence.
Qed.

(** The outcome of a fetch that still has [l] to return, the current item first. *)
Definition fetched (l : list tid) (h : list Z) (c : option ABTMetaPageData) (r : result (ABTScanOpaque * option tid)) : Prop :=
  match l with
  | [] => exists so, r = Ok (so, None) (mk_bs h c) /\ ABTScanPosIsValid (so_currPos so) = false /\ pos_buf (so_currPos so) = None /\
      Z.of_nat (length (items (so_currPos so))) = MaxTIDsPerABTreePage
  | t :: l => exists so k rem, r = Ok (so, Some t) (mk_bs h c) /\ so_keyData so = keys /\ cursor (so_currPos so) k (t :: rem) /\ l = rem ++ rest (S k)
  end.

Lemma return_item_run so k t rem s : cursor (so_currPos so) k (t :: rem) -> return_item so s = Ok (so, Some t) s.
Proof.
  intros [_ [_ Hi _ Hn Hl]]. unfold return_item. set (pos := so_currPos so) in *. rewrite (proj2 (Z.ltb_ge _ _)).
  2: { cbn [length] in Hn. destruct (ScanDirectionIsForward dir); lia. }
  specialize (Hl 0%nat t eq_refl). rewrite Z.mul_0_r, Z.add_0_r in Hl. unfold tid_at in Hl. destruct (items pos !! _) as [it|]; [|done].
  injection Hl as <-. done.
Qed.

Lemma step_and_return_run so k fuel h c : so_keyData so = keys -> at_page (so_currPos so) k -> (length vis < fuel)%nat ->
  fetched (rest (S k)) h c (step_and_return rel pages ignore_killed_tuples drop_pin dir fuel so (mk_bs h c)).
Proof.
  intros Hkd Hc Hf. unfold step_and_return. destruct (steppage_run so k fuel h c Hkd Hc Hf) as [(-> & so' & Hr & Hv & Hb & Hl)|(j & so' & t & rem & -> & Hr & Hkd' & Hcu)];
    rewrite (bind_ok _ _ _ _ _ Hr); cbv beta iota; cbn [negb].
  - by eexists.
  - cbn [fetched app]. rewrite (return_item_run so' j t rem) by done. by exists so', j, rem.
Qed.

Lemma load_first_run so b l p off fuel h c : vis !! 0%nat = Some (b, l) -> page_step 0 b l p -> visits dir p (clip dir p off) l -> so_keyData so = keys ->
  pos_buf (so_currPos so) = Some b -> Z.of_nat (length (items (so_currPos so))) = MaxTIDsPerABTreePage -> more dir (so_currPos so) = true -> (length vis < fuel)%nat ->
  fetched (rest 0) h c (load_first rel pages ignore_killed_tuples drop_pin dir fuel so off (mk_bs (b :: h) c)).
Proof.
  intros Hk Hs Hv Hkd Hb Hits Hm Hf. unfold load_first. rewrite Hkd.
  destruct (readpage_step (so_currPos so) 0 b l p off h c Hk Hs Hv Hb Hits) as (pos' & Hrun & Hcu & Hb'); [congruence|].
  rewrite (bind_ok _ _ _ _ _ Hrun), (rest_step 0 b l Hk). cbv beta iota. case_bool_decide as Eh; cbn [negb].
  - destruct (drop_lock_run pos' b 0 (hits l) h c Hcu Hb') as (pos2 & Hd & Hcu' & _). rewrite (bind_ok _ _ _ _ _ Hd).
    destruct (hits l) as [|t rem]; [done|]. cbn [fetched app]. rewrite (return_item_run (set_pos so pos2) 0 t rem) by done. by exists (set_pos so pos2), 0%nat, rem.
  - assert (hits l = []) as -> by (by destruct (hits l)). unfold LockBuffer_UNLOCK. rewrite Hb'.
    rewrite (bind_ok _ _ _ tt (mk_bs h c)) by apply relbuf_run. apply step_and_return_run; [done|apply Hcu|done].
Qed.

(** The next item of the same page. *)
Lemma cursor_next pos k t rem i : cursor pos k (t :: rem) -> i = itemIndex pos + sign dir -> rem <> [] ->
  cursor (set_itemIndex pos i) k rem.
Proof.
  intros [[Hi Hp Hn Hpin Hm] [L1 L2 L5 L3 L4]] -> Hne. split; [by split|]. split; cbn [items itemIndex firstItem lastItem set_itemIndex].
  - done.
  - destruct rem as [|t' rem]; [done|]. cbn [length] in L3. unfold sign. destruct dir; cbn [ScanDirectionIsForward] in *; lia.
  - intros Hd. specialize (L5 Hd). unfold sign. destruct dir; [lia|done].
  - cbn [length] in L3. unfold sign. destruct dir; cbn [ScanDirectionIsForward] in *; lia.
  - intros j x Hj. specialize (L4 (S j) x Hj). by replace (itemIndex pos + sign dir + sign dir * Z.of_nat j) with (itemIndex pos + sign dir * Z.of_nat (S j)) by lia.
Qed.

Lemma at_page_index pos k i : at_page pos k -> at_page (set_itemIndex pos i) k.
Proof. by intros [Hi Hp Hn Hpin Hm]; split. Qed.

Lemma next_run so k t rem fuel h c : so_keyData so = keys -> cursor (so_currPos so) k (t :: rem) -> (length vis < fuel)%nat ->
  fetched (rem ++ rest (S k)) h c (_abt_next rel pages ignore_killed_tuples drop_pin dir fuel so (mk_bs h c)).
Proof.
  intros Hk Hc Hf. unfold _abt_next. set (pos := so_currPos so) in *. cbn [itemIndex set_itemIndex firstItem lastItem].
  assert (Hi : (if ScanDirectionIsForward dir then itemIndex pos + 1 else itemIndex pos - 1) = itemIndex pos + sign dir)
    by (destruct dir; cbn [ScanDirectionIsForward sign]; lia).
  assert (Hend : (if ScanDirectionIsForward dir then lastItem pos <? itemIndex pos + sign dir else itemIndex pos + sign dir <? firstItem pos) = bool_decide (rem = [])).
  { destruct Hc as [_ [_ _ _ Hn _]]. cbn [length] in Hn. unfold sign. destruct rem as [|t' rem]; cbn [length] in Hn; (destruct dir; cbn [ScanDirectionIsForward] in *);
      first [rewrite bool_decide_true by done; apply Z.ltb_lt; lia|rewrite bool_decide_false by done; apply Z.ltb_ge; lia]. }
  rewrite Hi. cbv zeta. rewrite Hend. case_bool_decide as Er.
  - subst rem. apply step_and_return_run; [done| |done]. apply at_page_index, Hc.
  - destruct rem as [|t' rem]; [done|]. pose proof (cursor_next pos k t (t' :: rem) _ Hc eq_refl ltac:(done)) as Hc'. cbn [fetched app].
    rewrite (return_item_run _ k t' rem) by done. by eexists _, k, rem.
Qed.

Lemma cursor_valid pos k rem : cursor pos k rem -> ABTScanPosIsValid pos = true.
Proof.
  intros [Hc _]. destruct (cu_page _ _ _ _ _ _ Hc) as [l Hk]. destruct (Hwalk k _ l Hk) as [p Hs]. unfold ABTScanPosIsValid.
  destruct (ps_blkno _ _ _ _ _ _ _ _ _ _ Hs) as [_ Hb]. by rewrite (proj2 (Z.eqb_neq _ _) Hb).
Qed.

(** Fetching all that is left. *)
Lemma fetch_rest indoption opcintype opfamily procinfo opfamily_proc meta quals n so k t rem fuel h c :
  so_keyData so = keys -> cursor (so_currPos so) k (t :: rem) -> (length vis < fuel)%nat -> (length (rem ++ rest (S k)) < n)%nat ->
  exists so', fetch_all rel indoption opcintype opfamily procinfo opfamily_proc meta pages ignore_killed_tuples drop_pin dir n fuel quals so (mk_bs h c) =
      Ok (so', rem ++ rest (S k)) (mk_bs h c) /\ ABTScanPosIsValid (so_currPos so') = false /\ pos_buf (so_currPos so') = None.
Proof.
  revert so k t rem. induction n as [|n IH]; intros so k t rem Hk Hc Hf Hn; [lia|]. cbn [fetch_all]. unfold abtgettuple.
  rewrite (cursor_valid _ _ _ Hc). cbn [negb]. pose proof (next_run so k t rem fuel h c Hk Hc Hf) as Hr.
  destruct (rem ++ rest (S k)) as [|t' l]; cbn [fetched] in Hr.
  - destruct Hr as (so' & Hr & ? & ? & _). rewrite (bind_ok _ _ _ _ _ Hr). by exists so'.
  - destruct Hr as (so' & k' & rem' & Hr & Hk' & Hc' & ->). rewrite (bind_ok _ _ _ _ _ Hr). cbv beta iota.
    destruct (IH so' k' t' rem' Hk' Hc' Hf) as (so2 & Hr2 & ?); [simpl in Hn; lia|]. rewrite (bind_ok _ _ _ _ _ Hr2). by exists so2.
Qed.

(** *** Marks *)

(** The mark is on page [k] with [rem] left, in its current or its copied form. *)
Definition marked (so : ABTScanOpaque) (k : nat) (rem : list tid) : Prop :=
  if 0 <=? so_markItemIndex so then cursor (set_itemIndex (so_currPos so) (so_markItemIndex so)) k rem else cursor (so_markPos so) k rem.

Definition mark_room (so : ABTScanOpaque) : Prop := Z.of_nat (length (items (so_markPos so))) = MaxTIDsPerABTreePage.

Lemma copy_length dst src : length (items dst) = length (items src) -> length (items (copy_pos dst src)) = length (items src).
Proof. intros H. cbn [copy_pos items]. rewrite length_app, length_take, length_drop, H. lia. Qed.

Lemma copy_cursor dst src k rem : length (items dst) = length (items src) -> cursor src k rem -> cursor (copy_pos dst src) k rem.
Proof.
  intros Hlen [[Hi Hp Hn Hpin Hm] [L1 L2 L3 L4 L5]]. pose proof (copy_length dst src Hlen) as Hl. split; split; try done; try congruence.
  intros j t Hj. specialize (L5 j t Hj). apply lookup_lt_Some in Hj. unfold tid_at in *. cbn [copy_pos items itemIndex].
  destruct (items src !! Z.to_nat (itemIndex src + sign dir * Z.of_nat j)) as [it|] eqn:E; [|done]. apply lookup_lt_Some in E as Hlt.
  rewrite lookup_app_l; [rewrite lookup_take_lt; [by rewrite E|]|rewrite length_take];
    (destruct dir; cbn [sign ScanDirectionIsForward] in *; [specialize (L3 eq_refl)|]; lia).
Qed.

(** A mark that was not made moves with the page. *)
Lemma save_mark_marked so k rem : Z.of_nat (length (items (so_currPos so))) = MaxTIDsPerABTreePage -> mark_room so -> marked so k rem ->
  cursor (so_markPos (save_mark so)) k rem /\ mark_room (save_mark so) /\ so_markItemIndex (save_mark so) < 0.
Proof.
  unfold marked, mark_room, save_mark. intros Hc Hm Hmk. destruct (Z.leb_spec 0 (so_markItemIndex so)); cbn [so_markPos so_markItemIndex]; [|by split_and!].
  split; [|split; [|done]].
  - change (cursor (copy_pos (so_markPos so) (set_itemIndex (so_currPos so) (so_markItemIndex so))) k rem). apply copy_cursor; [cbn; lia|done].
  - cbn [set_itemIndex items]. rewrite copy_length; lia.
Qed.

Lemma save_mark_room so : Z.of_nat (length (items (so_currPos so))) = MaxTIDsPerABTreePage -> mark_room so -> mark_room (save_mark so).
Proof.
  unfold mark_room, save_mark. intros Hc Hm. destruct (_ <=? _); [|done]. cbn [so_markPos set_itemIndex items]. rewrite copy_length; lia.
Qed.

Lemma bind_inv {A B} (m : M A) (f : A -> M B) s b s' : bind m f s = Ok b s' -> exists a s1, m s = Ok a s1 /\ f a s1 = Ok b s'.
Proof. unfold bind. destruct (m s) as [a s1|]; [|done]. eauto. Qed.

(** Stepping on keeps the keys and the mark. *)
Lemma step_keeps_mark fuel so s so' r s' : step_and_return rel pages ignore_killed_tuples drop_pin dir fuel so s = Ok (so', r) s' ->
  so_keyData so' = so_keyData so /\ so_markPos so' = so_markPos (save_mark so) /\ so_markItemIndex so' = so_markItemIndex (save_mark so).
Proof.
  unfold step_and_return, _abt_steppage. cbv zeta. intros H. apply bind_inv in H as ([so1 found] & s1 & Hstep & Hret).
  assert (so' = so1) as ->.
  { destruct found; cbn [negb] in Hret; [|by injection Hret]. unfold return_item in Hret. destruct (_ <? 0); [done|].
    apply bind_inv in Hret as (it & s2 & _ & Hret). by injection Hret. }
  destruct (if ScanDirectionIsForward dir then _ else _) as [pos blkno]. apply bind_inv in Hstep as ([pos1 f1] & s2 & _ & Hstep).
  pose proof (proj2 (save_mark_pos so)) as Hk.
  destruct f1; cbn [negb] in Hstep; [apply bind_inv in Hstep as (pos2 & s3 & _ & Hstep)|]; injection Hstep as <- _ _; by rewrite <- Hk.
Qed.

Lemma next_keeps_mark fuel so k0 rem0 s so' r s' : cursor (so_currPos so) k0 rem0 -> mark_room so ->
  _abt_next rel pages ignore_killed_tuples drop_pin dir fuel so s = Ok (so', r) s' ->
  so_keyData so' = so_keyData so /\ mark_room so' /\ forall k rem, marked so k rem -> marked so' k rem.
Proof.
  intros [Hc _] Hm. unfold _abt_next. set (pos := set_itemIndex _ _). cbv zeta.
  assert (Hmk : forall k rem, marked so k rem -> marked (set_pos so pos) k rem) by done.
  destruct (if ScanDirectionIsForward dir then lastItem pos <? itemIndex pos else itemIndex pos <? firstItem pos).
  - intros H. destruct (step_keeps_mark _ _ _ _ _ _ H) as (Hk & Hp & Hi). split; [done|].
    assert (Hlen : Z.of_nat (length (items (so_currPos (set_pos so pos)))) = MaxTIDsPerABTreePage) by apply Hc. split.
    + unfold mark_room. rewrite Hp. by apply save_mark_room.
    + intros k rem Hmark. destruct (save_mark_marked (set_pos so pos) k rem Hlen Hm (Hmk k rem Hmark)) as (Hcu & _ & Hneg).
      unfold marked. rewrite Hi, (proj2 (Z.leb_gt _ _)) by done. by rewrite Hp.
  - unfold return_item. destruct (_ <? 0); [done|]. intros H. apply bind_inv in H as (it & s2 & _ & H). by injection H as <- _ _.
Qed.

(** Going on from a mark and returning to it. *)
Lemma fetch_some_marked indoption opcintype opfamily procinfo opfamily_proc meta quals m so k t rem k1 rem1 fuel h c :
  so_keyData so = keys -> cursor (so_currPos so) k (t :: rem) -> mark_room so -> marked so k1 rem1 -> (length vis < fuel)%nat ->
  exists so', fetch_some rel indoption opcintype opfamily procinfo opfamily_proc meta pages ignore_killed_tuples drop_pin dir m fuel quals so (mk_bs h c) = Ok so' (mk_bs h c) /\
    so_keyData so' = keys /\ mark_room so' /\ marked so' k1 rem1 /\ Z.of_nat (length (items (so_currPos so'))) = MaxTIDsPerABTreePage.
Proof.
  revert so k t rem. induction m as [|m IH]; intros so k t rem Hk Hc Hm Hmk Hf; cbn [fetch_some].
  { exists so. split_and!; try done. apply Hc. }
  unfold abtgettuple. rewrite (cursor_valid _ _ _ Hc). cbn [negb]. pose proof (next_run so k t rem fuel h c Hk Hc Hf) as Hr.
  pose proof (fun so' r s' => next_keeps_mark fuel so k (t :: rem) (mk_bs h c) so' r s' Hc Hm) as Hkeep.
  destruct (rem ++ rest (S k)) as [|t' l]; cbn [fetched] in Hr.
  - destruct Hr as (so' & Hr & _ & _ & Hlen). rewrite (bind_ok _ _ _ _ _ Hr). exists so'. destruct (Hkeep _ _ _ Hr) as (? & ? & ?). split_and!; try done; [congruence|auto].
  - destruct Hr as (so' & k' & rem' & Hr & Hk' & Hc' & ->). rewrite (bind_ok _ _ _ _ _ Hr). cbv beta iota.
    destruct (Hkeep _ _ _ Hr) as (_ & Hm' & Hmk'). by apply (IH so' k' t' rem'); auto.
Qed.

Lemma restore_marked so k rem : so_keyData so = keys -> mark_room so -> marked so k rem -> Z.of_nat (length (items (so_currPos so))) = MaxTIDsPerABTreePage ->
  so_keyData (abtrestrpos so) = keys /\ cursor (so_currPos (abtrestrpos so)) k rem.
Proof.
  unfold marked, abtrestrpos, mark_room. intros Hk Hm Hmk Hlen. destruct (0 <=? so_markItemIndex so); [done|]. rewrite (cursor_valid _ _ _ Hmk).
  split; [done|]. apply copy_cursor; [|done]. destruct (ABTScanPosIsValid (so_currPos so)); cbn; lia.
Qed.

Lemma mark_current so k t rem : cursor (so_currPos so) k (t :: rem) -> mark_room so ->
  so_currPos (abtmarkpos so) = so_currPos so /\ so_keyData (abtmarkpos so) = so_keyData so /\ mark_room (abtmarkpos so) /\ marked (abtmarkpos so) k (t :: rem).
Proof.
  intros Hc Hm. unfold abtmarkpos. rewrite (cursor_valid _ _ _ Hc). split_and!; try done. unfold marked. cbn [so_markItemIndex so_currPos].
  destruct Hc as [Hat [L1 L2 L3 L4 L5]]. rewrite (proj2 (Z.leb_le _ _)) by (cbn [length] in L4; destruct (ScanDirectionIsForward dir); lia).
  split; [by apply at_page_index|by split].
Qed.

Lemma fetch_some_run indoption opcintype opfamily procinfo opfamily_proc meta quals m so k t rem fuel h c :
  so_keyData so = keys -> cursor (so_currPos so) k (t :: rem) -> mark_room so -> (length vis < fuel)%nat -> (m <= length (rem ++ rest (S k)))%nat ->
  exists so' k' t' rem', fetch_some rel indoption opcintype opfamily procinfo opfamily_proc meta pages ignore_killed_tuples drop_pin dir m fuel quals so (mk_bs h c) = Ok so' (mk_bs h c) /\
    so_keyData so' = keys /\ cursor (so_currPos so') k' (t' :: rem') /\ mark_room so' /\ rem' ++ rest (S k') = drop m (rem ++ rest (S k)).
Proof.
  revert so k t rem. induction m as [|m IH]; intros so k t rem Hk Hc Hm Hf Hle; cbn [fetch_some].
  { exists so, k, t, rem. by rewrite drop_0. }
  unfold abtgettuple. rewrite (cursor_valid _ _ _ Hc). cbn [negb]. pose proof (next_run so k t rem fuel h c Hk Hc Hf) as Hr.
  pose proof (fun so' r s' => next_keeps_mark fuel so k (t :: rem) (mk_bs h c) so' r s' Hc Hm) as Hkeep.
  destruct (rem ++ rest (S k)) as [|t1 l]; cbn [fetched] in Hr; [simpl in Hle; lia|].
  destruct Hr as (so1 & k1 & rem1 & Hr & Hk1 & Hc1 & ->). rewrite (bind_ok _ _ _ _ _ Hr). cbv beta iota.
  destruct (Hkeep _ _ _ Hr) as (_ & Hm1 & _). destruct (IH so1 k1 t1 rem1 Hk1 Hc1 Hm1 Hf) as (so' & k' & t' & rem' & ?); [simpl in Hle; lia|].
  by exists so', k', t', rem'.
Qed.

End Walk.

(** Starting a scan keeps the marked position's room. *)
Lemma load_first_markPos rel pages ign drop_pin dir fuel so off s so' r s' : so_markItemIndex so = -1 ->
  load_first rel pages ign drop_pin dir fuel so off s = Ok (so', r) s' -> so_markPos so' = so_markPos so.
Proof.
  intros Hm H. unfold load_first in H. apply bind_inv in H as ([pos found] & s1 & _ & H). destruct found; cbn [negb] in H.
  - apply bind_inv in H as (pos' & s2 & _ & H). unfold return_item in H. destruct (_ <? 0); [done|]. apply bind_inv in H as (it & s3 & _ & H). by injection H as <- _ _.
  - apply bind_inv in H as ([] & s2 & _ & H). destruct (step_keeps_mark _ _ _ _ _ _ _ _ _ _ _ H) as (_ & -> & _). unfold save_mark. cbn [so_markItemIndex set_pos].
    by rewrite Hm.
Qed.

Lemma first_markPos rel indoption opcintype opfamily procinfo opfamily_proc meta pages ign drop_pin dir fuel quals so s so' r s' :
  _abt_first rel indoption opcintype opfamily procinfo opfamily_proc meta pages ign drop_pin dir fuel quals so s = Ok (so', r) s' -> so_markPos so' = so_markPos so.
Proof.
  unfold _abt_first. intros H. apply bind_inv in H as ([ok out] & s1 & _ & H). destruct ok; cbn [negb] in H; [|by injection H as <- _ _].
  apply bind_inv in H as ([ok start] & s2 & _ & H). destruct ok; cbn [negb] in H; [|by injection H as <- _ _]. destruct start as [[key g]|].
  - apply bind_inv in H as ([buf stack] & s3 & _ & H). destruct buf as [b|]; [|by injection H as <- _ _]. cbv zeta in H.
    apply bind_inv in H as (p & s4 & _ & H). apply bind_inv in H as (off & s5 & _ & H). by apply load_first_markPos in H.
  - unfold _abt_endpoint in H. apply bind_inv in H as (buf & s3 & _ & H). destruct buf as [b|]; [|by injection H as <- _ _].
    apply bind_inv in H as (p & s4 & _ & H). by apply load_first_markPos in H.
Qed.

(** The loop of abtgetbitmap takes the rest of a forward scan. *)
Lemma bitmap_rest rel pages ign drop_pin keys nkeys vis n so k t rem fuel h c :
  Forall (key_good nkeys) keys -> nkeys <= rd_natts rel -> walk_ok rel pages ign Forward keys vis ->
  so_keyData so = keys -> cursor ign Forward keys vis (so_currPos so) k (t :: rem) -> (length vis < fuel)%nat -> (length (rem ++ rest ign keys vis (S k)) < n)%nat ->
  exists so', bitmap_loop rel pages ign drop_pin n fuel so (mk_bs h c) = Ok (so', rem ++ rest ign keys vis (S k)) (mk_bs h c) /\
    ABTScanPosIsValid (so_currPos so') = false /\ pos_buf (so_currPos so') = None.
Proof.
  intros Hkeys Hnk Hwalk. revert so k t rem. induction n as [|n IH]; intros so k t rem Hk Hc Hf Hn; [lia|]. cbn [bitmap_loop]. cbv zeta.
  set (pos := so_currPos so) in *. cbn [so_currPos].
  assert (Hr : fetched ign Forward keys vis (rem ++ rest ign keys vis (S k)) h c
    ((if lastItem (set_itemIndex pos (itemIndex pos + 1)) <? itemIndex (set_itemIndex pos (itemIndex pos + 1))
      then _abt_next rel pages ign drop_pin Forward fuel (set_pos so (set_itemIndex pos (itemIndex pos + 1)))
      else return_item (set_pos so (set_itemIndex pos (itemIndex pos + 1)))) (mk_bs h c))).
  { pose proof Hc as [Hat [_ _ _ Hcount _]]. cbn [ScanDirectionIsForward length] in Hcount. cbn [lastItem itemIndex set_itemIndex].
    destruct rem as [|t' rem]; cbn [length] in Hcount.
    - rewrite (proj2 (Z.ltb_lt _ _)) by lia. unfold _abt_next. cbn [so_currPos set_pos ScanDirectionIsForward itemIndex lastItem set_itemIndex]. cbv zeta.
      rewrite (proj2 (Z.ltb_lt _ _)) by lia. by eapply step_and_return_run; [..|do 2 apply at_page_index|].
    - rewrite (proj2 (Z.ltb_ge _ _)) by lia. cbn [fetched app].
      assert (Hc' : cursor ign Forward keys vis (set_itemIndex pos (itemIndex pos + 1)) k (t' :: rem)) by (by eapply cursor_next).
      erewrite return_item_run by exact Hc'. by eexists _, k, rem. }
  destruct (rem ++ rest ign keys vis (S k)) as [|t' l]; cbn [fetched] in Hr.
  - destruct Hr as (so' & Hr & ? & ? & _). rewrite (bind_ok _ _ _ _ _ Hr). by exists so'.
  - destruct Hr as (so' & k' & rem' & Hr & Hk' & Hc' & ->). rewrite (bind_ok _ _ _ _ _ Hr). cbv beta iota.
    destruct (IH so' k' t' rem' Hk' Hc' Hf) as (so2 & Hr2 & ?); [simpl in Hn; lia|]. rewrite (bind_ok _ _ _ _ _ Hr2). by exists so2.
Qed.

(** ** Stepping left over splits *)

(** Pages that follow one another up to the page [b]. *)
Fixpoint linked_to (pages : Z -> option page) (b : Z) (l : list Z) : Prop :=
  match l with
  | [] => True
  | x :: l => (exists p, pages x = Some p /\ ABT_P_ISDELETED (pg_opaque p) = false /\ abtpo_next (pg_opaque p) = default b (head l)) /\
      x <> ABTP_NONE /\ x <> b /\ linked_to pages b l
  end.

Lemma find_left_run pages hops b x l h c : linked_to pages b (x :: l) -> b <> ABTP_NONE -> (length l <= hops)%nat ->
  find_left_sibling pages hops b (Some x) (mk_bs (x :: h) c) = Ok (Some (default x (last l)), true) (mk_bs (default x (last l) :: h) c).
Proof.
  intros Hl Hb. revert hops x Hl. induction l as [|y l IH]; intros hops x ((p & Hp & Hdel & Hnx) & Hx & Hxb & Hl) Hlen.
  - destruct hops; cbn [find_left_sibling]; run_step; cbv zeta; rewrite Hdel, Hnx; simpl; by rewrite Z.eqb_refl.
  - destruct hops as [|hops]; [simpl in Hlen; lia|]. cbn [find_left_sibling]. run_step. cbv zeta. simpl in Hnx. destruct Hl as ((py & Hpy & ?) & Hy & Hyb & ?).
    rewrite Hdel, Hnx. unfold ABT_P_RIGHTMOST. rewrite Hnx, (proj2 (Z.eqb_neq _ _) Hyb), (proj2 (Z.eqb_neq _ _) Hy). cbn [negb andb].
    erewrite bind_ok by (by eapply relandgetbuf_run). rewrite (IH hops y); [|by split; [exists py|]|simpl in Hlen; lia].
    rewrite last_cons. by destruct (last l).
Qed.

(** Stepping left from a page whose left sibling was split up to four times since the link
    to it was written reaches the page that is now its left sibling, the only one left
    locked. *)
Theorem walk_left_after_splits pages fuel b p x l h c : pages b = Some p -> abtpo_prev (pg_opaque p) = x -> b <> ABTP_NONE ->
  linked_to pages b (x :: l) -> (length l <= 4)%nat ->
  _abt_walk_left pages (S fuel) (Some b) (mk_bs (b :: h) c) = Ok (Some (default x (last l))) (mk_bs (default x (last l) :: h) c).
Proof.
  intros Hp Hprev Hb Hl Hlen. pose proof Hl as ((px & Hpx & _) & Hx & _). cbn [_abt_walk_left]. run_step. unfold ABT_P_LEFTMOST.
  rewrite Hprev, (proj2 (Z.eqb_neq _ _) Hx). run_step. cbv zeta. run_step. run_step.
  rewrite (bind_ok _ _ _ _ _ (find_left_run pages 4 b x l h c Hl Hb Hlen)). done.
Qed.

End Scan.
