(* ===== verification/ScanMatches.v ===== *)
(** * What an index scan returns

    The scans of Scan return exactly the heap TIDs of the leaf tuples that satisfy the
    quals, in index order or in the opposite order: where a scan starts, all matches are
    still ahead of it, and where _abt_checkkeys stops it (on a tuple or on the high key
    of a page) none are left. *)

From stdpp Require Import base numbers option sorting list.
From S2P Require Import Prelude Tuple Dedup Page Search Truncate Btree Quals Start Range Scan.

Module ScanMatches.
Import Tuple Dedup Page Search Truncate Btree Quals Start Range Scan.

(** ** Index order and the order of the quals *)

Section Order.
Context (rel : index_rel) (indoption : list Z) (opcintype : Z -> Z) (opfamily : Z -> Z -> Z -> Z -> option (Z -> Z -> Z)).
Context (cmp : Z -> Z * Z -> Z * Z -> Z) `{!OpFamily opfamily cmp}.
Context (procinfo : Z -> Z -> Z -> Z) (opfamily_proc : Z -> Z -> option (Z -> Z -> Z)) `{!OrderProcs opcintype procinfo opfamily_proc cmp}.
Context (Hrel : rel_ok rel) (Hcm : columns_match rel indoption procinfo).

Abbreviation icmp := (Quals.icmp indoption cmp).
Abbreviation value := (Quals.value opcintype).
Abbreviation after := (Quals.after indoption opcintype cmp).
Abbreviation nkeys := (Z.of_nat (length indoption)).

Lemma col_compare_icmp i c x y : rd_cols rel !! i = Some c ->
  Z.sgn (col_compare c x y) = Z.sgn (icmp (Z.of_nat i + 1) (pair (opcintype (Z.of_nat i + 1)) <$> x) (pair (opcintype (Z.of_nat i + 1)) <$> y)).
Proof.
  intros Hc. rewrite (cm_column _ _ _ Hcm i c Hc). set (a := Z.of_nat i + 1). unfold col_compare, compare_attr, Quals.icmp. cbn [sk_isnull sk_nulls_first sk_desc Page.sk_func Page.sk_argument col_nulls_first col_desc col_cmp].
  destruct x as [x|], y as [y|]; simpl; try (by destruct (nulls_first indoption a)).
  pose proof (op_default a y x) as Hd. pose proof (invert_sgn (procinfo a y x)) as Hi.
  pose proof (of_sym a (opcintype a, y) (opcintype a, x)). pose proof (of_sym a (opcintype a, x) (opcintype a, y)).
  destruct (desc indoption a); lia.
Qed.

(** The first column in which two keys differ decides. *)
Lemma lexcmp_column m cols k1 k2 c x y : cols !! m = Some c -> k1 !! m = Some x -> k2 !! m = Some y ->
  (forall j c x y, (j < m)%nat -> cols !! j = Some c -> k1 !! j = Some x -> k2 !! j = Some y -> col_compare c x y = 0) ->
  lexcmp cols k1 k2 <= 0 -> col_compare c x y <= 0.
Proof.
  revert cols k1 k2. induction m as [|m IH]; intros [|c0 cols] [|x0 k1] [|y0 k2]; simpl; try done.
  - intros [= ->] [= ->] [= ->] _. destruct (Z.eqb_spec (col_compare c x y) 0); lia.
  - intros Hc Hx Hy Heq. rewrite (Heq 0%nat c0 x0 y0) by (done || lia). simpl. apply IH; try done.
    intros j c' x' y' Hj. apply (Heq (S j)). lia.
Qed.

Lemma attr_lookup k i : (i < length k)%nat -> exists x, k !! i = Some x /\ attr k (Z.of_nat i + 1) = x.
Proof.
  intros Hi. destruct (lookup_lt_is_Some_2 k i Hi) as [x Hx]. exists x. split; [done|]. unfold attr.
  replace (Z.to_nat (Z.of_nat i + 1 - 1)) with i by lia. by rewrite Hx.
Qed.

(** Index order is the order the quals are about. *)
Lemma lexcmp_values k1 k2 n a : lexcmp (rd_cols rel) k1 k2 <= 0 -> n <= Z.of_nat (length k1) -> n <= Z.of_nat (length k2) -> 1 <= a <= Z.min n nkeys ->
  (forall b, 1 <= b < a -> icmp b (value k1 b) (value k2 b) = 0) -> icmp a (value k1 a) (value k2 a) <= 0.
Proof.
  intros Hle H1 H2 Ha Heq. pose proof (cm_length _ _ _ Hcm) as Hlen.
  assert (Hcol : forall j, (Z.of_nat j + 1 <= a) -> exists c x y, rd_cols rel !! j = Some c /\ k1 !! j = Some x /\ k2 !! j = Some y /\
    Z.sgn (col_compare c x y) = Z.sgn (icmp (Z.of_nat j + 1) (value k1 (Z.of_nat j + 1)) (value k2 (Z.of_nat j + 1)))).
  { intros j Hj. destruct (lookup_lt_is_Some_2 (rd_cols rel) j) as [c Hc]; [lia|]. destruct (attr_lookup k1 j) as (x & Hx & Ex); [lia|].
    destruct (attr_lookup k2 j) as (y & Hy & Ey); [lia|]. exists c, x, y. split_and!; try done. unfold Quals.value. rewrite Ex, Ey. by apply col_compare_icmp. }
  destruct (Hcol (Z.to_nat (a - 1)) ltac:(lia)) as (c & x & y & Hc & Hx & Hy & Hs). replace (Z.of_nat (Z.to_nat (a - 1)) + 1) with a in Hs by lia.
  enough (col_compare c x y <= 0) by lia. apply (lexcmp_column (Z.to_nat (a - 1)) (rd_cols rel) k1 k2); try done.
  intros j c' x' y' Hj Hc' Hx' Hy'. destruct (Hcol j ltac:(lia)) as (c2 & x2 & y2 & ? & ? & ? & Hs2). simplify_eq.
  rewrite Heq in Hs2 by lia. lia.
Qed.

Lemma before_after k1 k2 n : lexcmp (rd_cols rel) k1 k2 <= 0 -> n <= Z.of_nat (length k1) -> n <= Z.of_nat (length k2) ->
  after n Forward k1 k2 /\ after n Backward k2 k1.
Proof.
  intros Hle H1 H2. split; intros a Ha Heq; cbn [sign].
  - pose proof (lexcmp_values k1 k2 n a Hle H1 H2 Ha Heq). pose proof (icmp_facts indoption opcintype opfamily cmp a (value k1 a) (value k2 a) (value k2 a)). lia.
  - pose proof (lexcmp_values k1 k2 n a Hle H1 H2 Ha) as H. specialize (H ltac:(intros b Hb; specialize (Heq b Hb);
      pose proof (icmp_facts indoption opcintype opfamily cmp b (value k1 b) (value k2 b) (value k2 b)); lia)). lia.
Qed.

(** ** The start of a scan and its equality keys *)

Lemma compare_attrs_column es n t r i e : compare_attrs es n t = Some r -> (i < n)%nat -> es !! i = Some e ->
  (forall j e', (j < i)%nat -> es !! j = Some e' -> entry_compare (tuple_key t) e' = 0) ->
  (forall j e', es !! j = Some e' -> (j <= i)%nat -> index_getattr t (Page.sk_attno e') = Some (attr (tuple_key t) (Page.sk_attno e'))) ->
  entry_compare (tuple_key t) e = 0 \/ r = entry_compare (tuple_key t) e.
Proof.
  revert es n. induction i as [|i IH]; intros [|e0 es] n Hr Hi He Heq Hat; try done; (destruct n as [|n]; [lia|]); cbn [compare_attrs] in Hr;
    rewrite (Hat 0%nat e0) in Hr by (done || lia); cbn [mbind option_bind] in Hr; fold (entry_compare (tuple_key t) e0) in Hr.
  - injection He as ->. destruct (Z.eqb_spec (entry_compare (tuple_key t) e) 0); [by left|right; congruence].
  - rewrite (Heq 0%nat e0) in Hr by (done || lia). simpl in Hr. apply (IH es n); try done; [lia| |].
    + intros j e' Hj. apply (Heq (S j)). lia.
    + intros j e' Hj Hn. apply (Hat (S j)); [done|lia].
Qed.

Lemma build_keysz dir out q key g : _abt_build_start_inskey rel opcintype procinfo opfamily_proc dir true out = Val (q, Some (key, g)) ->
  keysz key = Z.of_nat (length (scankeys key)).
Proof.
  unfold _abt_build_start_inskey. cbn [negb]. destruct (choose _ _ _ _ _ _ _) as [[[[|s0 start] st]|]|]; cbn [rbind]; try done.
  destruct (last_row _ _) as [[extra st']|]; [|done]. cbn [rbind]. destruct (convert_all _ _ _ _) as [es|]; [|done]. cbn [rbind].
  destruct (positioning _ _) as [[nk gb]|]; [|done]. cbn [rbind]. by intros [= <- <- <-].
Qed.

Lemma compare_tuple_sign key x r : compare_tuple (rd_natts rel) key x = Some r ->
  exists r0, compare_attrs (scankeys key) (Z.to_nat (Z.min (ABTreeTupleGetNAtts x (rd_natts rel)) (keysz key))) x = Some r0 /\ (r0 = 0 \/ r0 = r).
Proof.
  unfold compare_tuple. destruct (compare_attrs _ _ x) as [r0|]; [|done]. cbn [mbind option_bind].
  destruct (Z.eqb_spec r0 0); intros H; exists r0; (split; [done|]); [by left|right; congruence].
Qed.

(** A tuple on the scan's side of the start key has reached the equality keys. *)
Lemma start_positioned dir out o x : outs indoption opcintype cmp out -> Forall (plain_key opcintype procinfo) out ->
  _abt_build_start_inskey rel opcintype procinfo opfamily_proc dir true out = Val (true, o) ->
  ABTreeTupleGetNAtts x (rd_natts rel) <= Z.of_nat (length (tuple_key x)) ->
  (forall key g, o = Some (key, g) -> exists r, compare_tuple (rd_natts rel) key x = Some r /\ sign dir * r <= 0) ->
  positioned indoption opcintype cmp (ABTreeTupleGetNAtts x (rd_natts rel)) dir out (tuple_key x).
Proof.
  intros Ho Hpl Hb Hn Hcmp a Ha Heq Hpre. rewrite Forall_forall in Hpl.
  destruct (build_eq rel indoption opcintype opfamily cmp procinfo opfamily_proc dir out a) with (o := o) as (key & g & -> & Hent); try done.
  { intros sk. by apply outs_fixed. } { lia. } { by eapply outs_sorted. } { intros sk Hsk. eapply plain_supported, Hpl, Hsk. }
  destruct (Hcmp key g eq_refl) as (r & Hr & Hs). destruct (compare_tuple_sign key x r Hr) as (r0 & Hr0 & Hor).
  pose proof (build_keysz dir out true key g Hb) as Hsz. destruct (Hent a ltac:(lia)) as (e & sk & He & Hin & Hk & Hfor).
  exists sk. split; [done|]. split; [done|]. apply lookup_lt_Some in He as Hlt.
  assert (Hget : forall b, 1 <= b <= a -> index_getattr x b = Some (attr (tuple_key x) b)).
  { intros b Hb'. apply (getattr_attr x b (ABTreeTupleGetNAtts x (rd_natts rel))); lia. }
  assert (Hentry : forall j e', (j < Z.to_nat a)%nat -> scankeys key !! j = Some e' ->
    exists sk', sk' ∈ out /\ eq_key indoption opcintype cmp (Z.of_nat j + 1) sk' /\ entry_for indoption opcintype cmp (Z.of_nat j + 1) (key_arg opcintype (sk_head sk')) e').
  { intros j e' Hj He'. destruct (Hent (Z.of_nat j + 1) ltac:(lia)) as (e2 & sk' & He2 & ? & ? & ?).
    replace (Z.to_nat (Z.of_nat j + 1 - 1)) with j in He2 by lia. rewrite He' in He2. injection He2 as <-. eauto. }
  assert (entry_compare (tuple_key x) e = 0 \/ r0 = entry_compare (tuple_key x) e) as Hc.
  { eapply (compare_attrs_column _ _ x r0 (Z.to_nat (a - 1)) e Hr0); [lia|done| |].
    - intros j e' Hj He'. destruct (Hentry j e' ltac:(lia) He') as (sk' & Hin' & Hk' & Hat & Hf). unfold entry_compare. rewrite Hat.
      pose proof (eq_key_sat _ _ _ _ _ _ Hk' (Hpre (Z.of_nat j + 1) sk' ltac:(lia) Hin' Hk')) as Hz. specialize (Hf (attr (tuple_key x) (Z.of_nat j + 1))).
      pose proof (icmp_facts indoption opcintype opfamily cmp (Z.of_nat j + 1) (value (tuple_key x) (Z.of_nat j + 1)) (key_arg opcintype (sk_head sk')) (key_arg opcintype (sk_head sk'))).
      unfold Quals.value in *. lia.
    - intros j e' He' Hj. destruct (Hentry j e' ltac:(lia) He') as (sk' & _ & _ & Hat & _). rewrite Hat. apply Hget. lia. }
  assert (Hsgn : Z.sgn (entry_compare (tuple_key x) e) = Z.sgn (icmp a (key_arg opcintype (sk_head sk)) (value (tuple_key x) a))).
  { unfold entry_compare. destruct Hfor as [-> Hfor]. apply Hfor. }
  pose proof (icmp_facts indoption opcintype opfamily cmp a (value (tuple_key x) a) (key_arg opcintype (sk_head sk)) (key_arg opcintype (sk_head sk))).
  destruct dir; cbn [sign] in *; lia.
Qed.

End Order.

(** ** Lines of a page *)

Definition lines_at (p : page) (q : Z) : nat := Z.to_nat (q - first_off p).

(** The lines a scan that starts at offset [q] has ahead of it and behind it, in its
    direction: a backward scan starts before [q]. *)
Definition ahead (dir : ScanDirection) (p : page) (q : Z) : list (bool * index_tuple) :=
  if ScanDirectionIsForward dir then drop (lines_at p q) (data_lines p) else reverse (take (lines_at p q) (data_lines p)).
Definition behind (dir : ScanDirection) (p : page) (q : Z) : list (bool * index_tuple) :=
  if ScanDirectionIsForward dir then take (lines_at p q) (data_lines p) else reverse (drop (lines_at p q) (data_lines p)).

Lemma behind_ahead dir p q : scan_lines dir p = behind dir p q ++ ahead dir p q.
Proof.
  unfold scan_lines, behind, ahead. destruct (ScanDirectionIsForward dir); [by rewrite take_drop|].
  by rewrite <- reverse_app, take_drop.
Qed.

Lemma data_line p n x : data_lines p !! n = Some x <-> PageGetItemId p (first_off p + Z.of_nat n) = Some x.
Proof.
  unfold data_lines, PageGetItemId. pose proof (first_off_range p). rewrite lookup_drop, (proj2 (Z.ltb_ge _ _)) by lia.
  by replace (Z.to_nat (first_off p - 1) + n)%nat with (Z.to_nat (first_off p + Z.of_nat n - 1)) by lia.
Qed.

Lemma data_lines_length p : Z.of_nat (length (data_lines p)) = Z.max 0 (PageGetMaxOffsetNumber p + 1 - first_off p).
Proof. unfold data_lines, PageGetMaxOffsetNumber. pose proof (first_off_range p). rewrite length_drop. lia. Qed.

Lemma visits_forward p n : (n <= length (data_lines p))%nat -> first_off p <= PageGetMaxOffsetNumber p + 1 ->
  visits Forward p (first_off p + Z.of_nat n) (drop n (data_lines p)).
Proof.
  intros Hn Hf. pose proof (data_lines_length p) as Hl. remember (length (data_lines p) - n)%nat as m eqn:Em. revert n Hn Em.
  induction m as [|m IH]; intros n Hn Em.
  - rewrite drop_ge by lia. constructor. cbn [ScanDirectionIsForward]. lia.
  - destruct (lookup_lt_is_Some_2 (data_lines p) n) as [x Hx]; [lia|]. rewrite (drop_S _ x n) by done. constructor; [lia|by apply data_line|].
    cbn [sign]. replace (first_off p + Z.of_nat n + 1) with (first_off p + Z.of_nat (S n)) by lia. apply IH; lia.
Qed.

Lemma visits_backward p n : (n <= length (data_lines p))%nat -> first_off p <= PageGetMaxOffsetNumber p + 1 ->
  visits Backward p (first_off p + Z.of_nat n - 1) (reverse (take n (data_lines p))).
Proof.
  intros Hn Hf. pose proof (data_lines_length p) as Hl. induction n as [|n IH].
  - rewrite take_0. constructor. cbn [ScanDirectionIsForward]. lia.
  - destruct (lookup_lt_is_Some_2 (data_lines p) n) as [x Hx]; [lia|]. rewrite (take_S_r _ _ x) by done. rewrite reverse_snoc.
    constructor; [lia| |].
    + replace (first_off p + Z.of_nat (S n) - 1) with (first_off p + Z.of_nat n) by lia. by apply data_line.
    + cbn [sign]. replace (first_off p + Z.of_nat (S n) - 1 + -1) with (first_off p + Z.of_nat n - 1) by lia. apply IH. lia.
Qed.

(** Reading from the start of a scan visits what is ahead of it. *)
Definition start_off (dir : ScanDirection) (q : Z) : Z := if ScanDirectionIsForward dir then q else q - 1.

Lemma visits_ahead dir p q : first_off p <= q <= PageGetMaxOffsetNumber p + 1 -> visits dir p (clip dir p (start_off dir q)) (ahead dir p q).
Proof.
  intros Hq. pose proof (data_lines_length p). unfold clip, start_off, ahead, lines_at. destruct dir; cbn [ScanDirectionIsForward].
  - replace (Z.min _ _) with (first_off p + Z.of_nat (Z.to_nat (q - first_off p)) - 1) by lia. apply visits_backward; lia.
  - replace (Z.max _ _) with (first_off p + Z.of_nat (Z.to_nat (q - first_off p))) by lia. apply visits_forward; lia.
Qed.

Lemma visits_all dir p : first_off p <= PageGetMaxOffsetNumber p + 1 -> visits dir p (far_end dir p) (scan_lines dir p).
Proof.
  intros Hf. pose proof (data_lines_length p). unfold far_end, scan_lines. destruct dir; cbn [ScanDirectionIsForward].
  - rewrite <- (take_ge (data_lines p) (length (data_lines p))) by lia.
    replace (PageGetMaxOffsetNumber p) with (first_off p + Z.of_nat (length (data_lines p)) - 1) by lia. by apply visits_backward.
  - fold (first_off p). replace (first_off p) with (first_off p + Z.of_nat 0) at 1 by lia. rewrite <- (drop_0 (data_lines p)). apply visits_forward; lia.
Qed.

Lemma scan_lines_data dir p x : x ∈ scan_lines dir p <-> x ∈ data_lines p.
Proof. unfold scan_lines. destruct (ScanDirectionIsForward dir); [done|]. by rewrite elem_of_reverse. Qed.

(** ** The leaf level *)

(** The leaf pages [blks] of a tree in order: the tuples of a page are up to its high key
    and behind the high keys of the pages before it. *)
Record leaf_chain (rel : index_rel) (pages : Z -> option page) (blks : list Z) : Prop := {
  lc_level : level_ok rel pages 0 blks;
  lc_blkno b : b ∈ blks -> b <> ABTP_NONE /\ b <> InvalidBlockNumber;
  lc_lines b p : b ∈ blks -> pages b = Some p -> Forall (leaf_line rel) (data_lines p);
  lc_room b p : b ∈ blks -> pages b = Some p ->
    Z.of_nat (length (data_lines p ≫= fun x => match snd x with LeafTup t => it_tids t | PivotTup _ => [] end)) <= MaxTIDsPerABTreePage;
  lc_prev i b p : blks !! i = Some b -> pages b = Some p ->
    abtpo_prev (pg_opaque p) = match i with O => ABTP_NONE | S i => default ABTP_NONE (blks !! i) end;
  lc_upto i b p hk d t : blks !! i = Some b -> pages b = Some p -> hikey p = Some hk -> (d, LeafTup t) ∈ data_lines p ->
    tuple_upto rel (LeafTup t) hk;
  lc_behind i j b b' p p' hk d t : (i < j)%nat -> blks !! i = Some b -> blks !! j = Some b' -> pages b = Some p -> pages b' = Some p' ->
    hikey p = Some hk -> (d, LeafTup t) ∈ data_lines p' -> tuple_before rel hk (LeafTup t)
}.

Section Chain.
Context (rel : index_rel) (Hrel : rel_ok rel) (pages : Z -> option page) (blks : list Z) (Hch : leaf_chain rel pages blks).

Lemma chain_page i b : blks !! i = Some b -> exists p, pages b = Some p /\ page_ok rel p /\ Search.is_leaf p = true /\ ABT_P_IGNORE (pg_opaque p) = false /\
  first_off p <= PageGetMaxOffsetNumber p + 1 /\
  match blks !! S i with
  | Some b' => abtpo_next (pg_opaque p) = b' /\ exists hk, hikey p = Some hk /\ tuple_ok rel hk
  | None => abtpo_next (pg_opaque p) = ABTP_NONE /\ ABT_P_RIGHTMOST (pg_opaque p) = true /\ hikey p = None
  end.
Proof.
  intros Hi. pose proof (lc_level _ _ _ Hch) as Hl. destruct (lo_page _ _ _ _ Hl i b Hi) as (p & Hp & Hok & _ & Hig & Hleaf & Hnx).
  exists p. split; [done|]. split; [done|]. split; [done|]. split; [done|]. pose proof (next_rightmost rel pages 0 blks i b p Hl Hi Hp) as Hr.
  destruct (blks !! S i) as [b'|] eqn:E.
  - destruct (lo_hikey _ _ _ _ Hl i b b' p Hi E Hp) as [_ (hk & Hhk & Hokk)]. split; [|split; [done|by exists hk]].
    unfold hikey in Hhk. destruct Hr as [Hr _]. rewrite Hr in Hhk. unfold first_off, ABT_P_FIRSTDATAKEY, PageGetMaxOffsetNumber. rewrite Hr.
    unfold PageGetItem, PageGetItemId in Hhk. cbn in Hhk. destruct (pg_lines p); [done|]. simpl. unfold ABTP_FIRSTKEY. lia.
  - split; [unfold first_off, ABT_P_FIRSTDATAKEY, PageGetMaxOffsetNumber; rewrite Hr; unfold ABTP_HIKEY; lia|].
    split; [done|]. split; [done|]. unfold hikey. by rewrite Hr.
Qed.

Lemma line_ok i b p d t : blks !! i = Some b -> pages b = Some p -> (d, LeafTup t) ∈ data_lines p -> tuple_ok rel (LeafTup t).
Proof.
  intros Hi Hp Hin. pose proof (lc_lines _ _ _ Hch b p ltac:(by eapply list_elem_of_lookup_2) Hp) as Hl. rewrite Forall_forall in Hl.
  destruct (Hl _ Hin) as (t' & [= <-] & Hok & _). done.
Qed.

(** Lines in index order. *)
Lemma same_page_le i b p m n d d' t t' : blks !! i = Some b -> pages b = Some p -> (m < n)%nat ->
  data_lines p !! m = Some (d, LeafTup t) -> data_lines p !! n = Some (d', LeafTup t') -> lexcmp (rd_cols rel) (it_key t) (it_key t') <= 0.
Proof.
  intros Hi Hp Hlt Hm Hn. destruct (chain_page i b Hi) as (p' & Hp' & Hok & Hleaf & _). rewrite Hp in Hp'. injection Hp' as <-.
  apply data_line in Hm, Hn.
  destruct (pk_sorted rel p Hok (first_off p + Z.of_nat m) (first_off p + Z.of_nat n) (LeafTup t) (LeafTup t')) as [H|[H _]]; cbn [tuple_key] in *; try lia.
  - congruence.
  - unfold PageGetItem. by rewrite Hm.
  - unfold PageGetItem. by rewrite Hn.
Qed.

Lemma pages_le i j b b' p p' d d' t t' : (i < j)%nat -> blks !! i = Some b -> blks !! j = Some b' -> pages b = Some p -> pages b' = Some p' ->
  (d, LeafTup t) ∈ data_lines p -> (d', LeafTup t') ∈ data_lines p' -> lexcmp (rd_cols rel) (it_key t) (it_key t') <= 0.
Proof.
  intros Hij Hi Hj Hp Hp' Ht Ht'. destruct (chain_page i b Hi) as (q & Hq & _ & _ & _ & _ & Hnx). rewrite Hp in Hq. injection Hq as <-.
  destruct (lookup_lt_is_Some_2 blks (S i)) as [b2 E]; [apply lookup_lt_Some in Hj; lia|]. rewrite E in Hnx. destruct Hnx as [_ (hk & Hhk & _)].
  pose proof (lc_upto _ _ _ Hch i b p hk d t Hi Hp Hhk Ht) as Hu. pose proof (lc_behind _ _ _ Hch i j b b' p p' hk d' t' Hij Hi Hj Hp Hp' Hhk Ht') as Hb.
  unfold tuple_upto, tuple_before in *. cbn [tuple_key] in *.
  apply (lexcmp_trans (rd_cols rel) (it_key t) (tuple_key hk) (it_key t')); [apply Hrel|lia|lia].
Qed.

(** *** Where a key belongs *)

Section Key.
Context (key : ABTScanInsertData) (args : list (option Z)) (Hkey : key_ok rel key args) (Hst : scantid key = None).
Context (i : nat) (b : Z) (p : page) (Hi : blks !! i = Some b) (Hp : pages b = Some p) (Hbel : belongs rel pages key blks i).

(** What the key is to a tuple: not to its right, or to its right. *)
Definition on_left (x : index_tuple) : Prop := exists r, compare_tuple (rd_natts rel) key x = Some r /\ cmpval key <= r.
Definition on_right (x : index_tuple) : Prop := exists r, compare_tuple (rd_natts rel) key x = Some r /\ r < cmpval key.

Lemma before_right x y : tuple_ok rel x -> tuple_ok rel y -> tuple_before rel x y -> on_right x -> on_right y.
Proof.
  intros Hx Hy Hb (r & Hr & Hlt). destruct (compare_mono rel key args x y Hrel Hkey Hx Hy Hb) as (r1 & r2 & H1 & H2 & M1 & M2).
  exists r2. split; [done|]. rewrite Hr in H1. injection H1 as <-. unfold cmpval in *. destruct (nextkey key); lia.
Qed.

(** The high keys from page [i] on are not to the left of the key. *)
Lemma hikey_right j b' p' hk : (i <= j)%nat -> blks !! j = Some b' -> pages b' = Some p' -> hikey p' = Some hk -> on_right hk.
Proof.
  intros Hij Hj Hp' Hhk.
  assert (Hhok : forall j b p hk, blks !! j = Some b -> pages b = Some p -> hikey p = Some hk -> tuple_ok rel hk).
  { intros j0 b0 p0 hk0 H0 H1 H2. destruct (chain_page j0 b0 H0) as (q & Hq & _ & _ & _ & _ & Hnx). rewrite H1 in Hq. injection Hq as <-.
    destruct (blks !! S j0); [destruct Hnx as [_ (? & ? & ?)]; congruence|destruct Hnx as (_ & _ & ?); congruence]. }
  assert (Hri : forall hk, hikey p = Some hk -> on_right hk).
  { intros hk0 H0. pose proof (compare_tuple_eq rel key args hk0 Hrel Hkey (Hhok i b p hk0 Hi Hp H0)) as Hc. eexists. split; [exact Hc|].
    destruct Hbel as [_ Hno]. specialize (Hno b p Hi Hp). match goal with |- ?r < _ => destruct (Z.lt_ge_cases r (cmpval key)) as [|Hge]; [done|] end.
    exfalso. apply Hno. by eexists hk0, _. }
  destruct (decide (i = j)) as [<-|Hne]; [rewrite Hi in Hj; injection Hj as <-; rewrite Hp in Hp'; injection Hp' as <-; by apply Hri|].
  destruct (chain_page i b Hi) as (q & Hq & _ & _ & _ & _ & Hnx). rewrite Hp in Hq. injection Hq as <-.
  destruct (lookup_lt_is_Some_2 blks (S i)) as [b2 E]; [apply lookup_lt_Some in Hj; lia|]. rewrite E in Hnx. destruct Hnx as [_ (hk0 & Hhk0 & Hok0)].
  apply (before_right hk0 hk); [done|by apply (Hhok j b' p')| |by apply Hri].
  apply (lo_sorted _ _ _ _ (lc_level _ _ _ Hch) i j b b' p p'); try done. lia.
Qed.

Lemma later_right j b' p' d t : (i < j)%nat -> blks !! j = Some b' -> pages b' = Some p' -> (d, LeafTup t) ∈ data_lines p' -> on_right (LeafTup t).
Proof.
  intros Hij Hj Hp' Ht. destruct (chain_page i b Hi) as (q & Hq & _ & _ & _ & _ & Hnx). rewrite Hp in Hq. injection Hq as <-.
  destruct (lookup_lt_is_Some_2 blks (S i)) as [b2 E]; [apply lookup_lt_Some in Hj; lia|]. rewrite E in Hnx. destruct Hnx as [_ (hk & Hhk & Hok)].
  apply (before_right hk); [done|by apply (line_ok j b' p' d)|by apply (lc_behind _ _ _ Hch i j b b' p p' hk d t)|by apply (hikey_right i b p)].
Qed.

Lemma earlier_left j b' p' d t : (j < i)%nat -> blks !! j = Some b' -> pages b' = Some p' -> (d, LeafTup t) ∈ data_lines p' -> on_left (LeafTup t).
Proof.
  intros Hij Hj Hp' Ht. destruct Hbel as [Hleft _]. destruct (Hleft j b' p' Hij Hj Hp') as (hk & r & Hhk & Hr & Hle).
  destruct (chain_page j b' Hj) as (q & Hq & _ & _ & _ & _ & Hnx). rewrite Hp' in Hq. injection Hq as <-.
  assert (tuple_ok rel hk) by (destruct (blks !! S j); [destruct Hnx as [_ (? & ? & ?)]; congruence|destruct Hnx as (_ & _ & ?); congruence]).
  destruct (compare_upto rel key args t hk Hrel Hkey Hst) as (r1 & r2 & H1 & H2 & M1 & M2); [by apply (line_ok j b' p' d)|done|by apply (lc_upto _ _ _ Hch j b' p' hk d t)|].
  exists r1. split; [done|]. rewrite Hr in H2. injection H2 as <-. unfold cmpval in *. destruct (nextkey key); lia.
Qed.

(** The binary search on page [i] splits its lines. *)
Lemma page_split : exists q, _abt_binsrch rel key p = Some q /\ first_off p <= q <= PageGetMaxOffsetNumber p + 1 /\
  (forall d t, (d, LeafTup t) ∈ take (lines_at p q) (data_lines p) -> on_left (LeafTup t)) /\
  (forall d t, (d, LeafTup t) ∈ drop (lines_at p q) (data_lines p) -> on_right (LeafTup t)).
Proof.
  destruct (chain_page i b Hi) as (p' & Hp' & Hok & Hleaf & _ & Hfm & _). rewrite Hp in Hp'. injection Hp' as <-.
  destruct (page_splits rel Hrel p key args Hok Hkey) as [q Hs]. rewrite (binsrch_splits rel p key q Hok Hs), Hleaf. exists q.
  rewrite Z.max_r in Hs by lia. destruct Hs as (Hq & Hl & Hr). split; [done|]. split; [lia|].
  assert (Hgo : forall n d t v, data_lines p !! n = Some (d, LeafTup t) -> goes_right rel key p (first_off p + Z.of_nat n) = Some v ->
    exists r, compare_tuple (rd_natts rel) key (LeafTup t) = Some r /\ v = (cmpval key <=? r)).
  { intros n d t v Hn%data_line. unfold goes_right, _abt_compare. fold (Search.is_leaf p). rewrite Hleaf. cbn [negb andb]. unfold PageGetItem. rewrite Hn.
    cbn. destruct (compare_tuple _ _ _) as [r|]; [|done]. cbn. intros [= <-]. eauto. }
  pose proof (data_lines_length p) as Hlen. unfold lines_at. split; intros d t Hin.
  - apply elem_of_take in Hin as (n & Hn & Hlt). destruct (Hgo n d t true Hn) as (r & Hc & Hv); [apply Hl; lia|]. exists r. split; [done|]. by apply Z.leb_le.
  - apply list_elem_of_lookup_1 in Hin as (n & Hn). rewrite lookup_drop in Hn. apply lookup_lt_Some in Hn as Hlt.
    destruct (Hgo _ d t false Hn) as (r & Hc & Hv); [apply Hr; lia|]. exists r. split; [done|]. symmetry in Hv. by apply Z.leb_gt.
Qed.

End Key.

End Chain.

(** ** The walk of a scan *)

(** The leaf pages in the direction of the scan and the lines of each. *)
Definition scan_pages (dir : ScanDirection) (blks : list Z) : list Z := if ScanDirectionIsForward dir then blks else reverse blks.
Definition lines_of (dir : ScanDirection) (pages : Z -> option page) (b : Z) : list (bool * index_tuple) :=
  match pages b with Some p => scan_lines dir p | None => [] end.

(** All matches, in the direction of the scan. *)
Definition scan_result (ignore_killed_tuples : bool) (dir : ScanDirection) (pages : Z -> option page) (blks : list Z) (keys : list ScanKey) : list tid :=
  scan_pages dir blks ≫= fun b => hits ignore_killed_tuples keys (lines_of dir pages b).

(** A scan that starts at offset [q] of the [k]-th page of its direction. *)
Definition visited (dir : ScanDirection) (pages : Z -> option page) (blks : list Z) (k : nat) (b : Z) (p : page) (q : Z)
  : list (Z * list (bool * index_tuple)) :=
  (b, ahead dir p q) :: ((fun b => (b, lines_of dir pages b)) <$> drop (S k) (scan_pages dir blks)).

Lemma scan_pages_lookup dir blks k b : scan_pages dir blks !! k = Some b ->
  exists i, blks !! i = Some b /\ i = (if ScanDirectionIsForward dir then k else length blks - S k)%nat.
Proof.
  unfold scan_pages. destruct (ScanDirectionIsForward dir); [by eexists|]. intros H. apply lookup_lt_Some in H as Hlt. rewrite length_reverse in Hlt.
  rewrite reverse_lookup in H by done. by eexists.
Qed.

Section Main.
Context (rel : index_rel) (indoption : list Z) (opcintype : Z -> Z) (opfamily : Z -> Z -> Z -> Z -> option (Z -> Z -> Z)).
Context (cmp : Z -> Z * Z -> Z * Z -> Z) `{!OpFamily opfamily cmp}.
Context (procinfo : Z -> Z -> Z -> Z) (opfamily_proc : Z -> Z -> option (Z -> Z -> Z)) `{!OrderProcs opcintype procinfo opfamily_proc cmp}.
Context (Hrel : rel_ok rel) (Hcm : columns_match rel indoption procinfo).
Context (pages : Z -> option page) (ignore_killed_tuples : bool) (dir : ScanDirection) (out : list ScanKey).
Context (Hout : outs indoption opcintype cmp out) (blks : list Z) (Hch : leaf_chain rel pages blks).

Abbreviation nkeys := (Z.of_nat (length indoption)).
Abbreviation hits := (Scan.hits ignore_killed_tuples out).

Lemma natts_keys : nkeys <= rd_natts rel.
Proof. pose proof (rel_natts _ Hrel). pose proof (cm_length _ _ _ Hcm). unfold indnkeyatts in *. lia. Qed.

(** The order of the scan. *)
Definition scan_le (k1 k2 : list (option Z)) : Prop :=
  if ScanDirectionIsForward dir then lexcmp (rd_cols rel) k1 k2 <= 0 else lexcmp (rd_cols rel) k2 k1 <= 0.

Lemma stop_final t t' : tuple_ok rel (LeafTup t) -> tuple_ok rel (LeafTup t') -> scan_le (it_key t) (it_key t') ->
  positioned indoption opcintype cmp (rd_natts rel) dir out (it_key t) -> stops rel dir out (false, LeafTup t) -> all_sat (it_key t') out = false.
Proof.
  intros [Hl _] [Hl' _] Hle Hpos Hst. pose proof natts_keys.
  apply (stop_outs indoption opcintype opfamily cmp dir (LeafTup t) (LeafTup t') (rd_natts rel)); cbn [tuple_key]; try done; [lia|].
  unfold scan_le in Hle. destruct dir; cbn [ScanDirectionIsForward] in Hle; by apply (before_after rel indoption opcintype opfamily cmp procinfo opfamily_proc Hcm _ _ _ Hle); lia.
Qed.

Lemma scan_pages_le k k' b b' p p' d d' t t' : (k < k')%nat -> scan_pages dir blks !! k = Some b -> scan_pages dir blks !! k' = Some b' ->
  pages b = Some p -> pages b' = Some p' -> (d, LeafTup t) ∈ data_lines p -> (d', LeafTup t') ∈ data_lines p' -> scan_le (it_key t) (it_key t').
Proof.
  intros Hlt Hk Hk' Hp Hp' Ht Ht'. destruct (scan_pages_lookup _ _ _ _ Hk) as (i & Hi & Ei). destruct (scan_pages_lookup _ _ _ _ Hk') as (j & Hj & Ej).
  apply lookup_lt_Some in Hi as Hli. apply lookup_lt_Some in Hj as Hlj. apply lookup_lt_Some in Hk'. unfold scan_le, scan_pages in *.
  destruct (ScanDirectionIsForward dir).
  - apply (pages_le rel Hrel pages blks Hch i j b b' p p' d d'); try done. lia.
  - rewrite length_reverse in Hk'. apply (pages_le rel Hrel pages blks Hch j i b' b p' p d' d); try done. lia.
Qed.

Lemma scan_lines_le k b p m n d d' t t' : scan_pages dir blks !! k = Some b -> pages b = Some p -> (m < n)%nat ->
  scan_lines dir p !! m = Some (d, LeafTup t) -> scan_lines dir p !! n = Some (d', LeafTup t') -> scan_le (it_key t) (it_key t').
Proof.
  intros Hk Hp Hlt Hm Hn. destruct (scan_pages_lookup _ _ _ _ Hk) as (i & Hi & _). unfold scan_le, scan_lines in *.
  destruct (ScanDirectionIsForward dir); [by apply (same_page_le rel pages blks Hch i b p m n d d')|].
  apply lookup_lt_Some in Hn as Hln. apply lookup_lt_Some in Hm as Hlm. rewrite length_reverse in *. rewrite reverse_lookup in Hm, Hn by done.
  apply (same_page_le rel pages blks Hch i b p (length (data_lines p) - S n) (length (data_lines p) - S m) d' d); try done. lia.
Qed.

(** *** A start *)

(** A fetch that has all matches of the scan ahead of it. *)
Definition started (h : list Z) (c : option ABTMetaPageData) (r : result (ABTScanOpaque * option tid)) : Prop :=
  exists vis, walk_ok rel pages ignore_killed_tuples dir out vis /\ (length vis <= length blks)%nat /\
    fetched ignore_killed_tuples dir out vis (scan_result ignore_killed_tuples dir pages blks out) h c r.

(** The scan is about to read page [b]. *)
Definition ready (so : ABTScanOpaque) (b : Z) : Prop :=
  so_keyData so = out /\ pos_buf (so_currPos so) = Some b /\ Z.of_nat (length (items (so_currPos so))) = MaxTIDsPerABTreePage /\ more dir (so_currPos so) = true.

Section From.
Context (k0 : nat) (b0 : Z) (p0 : page) (q : Z).
Context (Hk0 : scan_pages dir blks !! k0 = Some b0) (Hp0 : pages b0 = Some p0) (Hq : first_off p0 <= q <= PageGetMaxOffsetNumber p0 + 1).

Abbreviation vis := (visited dir pages blks k0 b0 p0 q).

(** Everything ahead of the start has reached the equality keys, high keys included. *)
Context (Hreach : forall k b l d t, vis !! k = Some (b, l) -> (d, LeafTup t) ∈ l ->
  positioned indoption opcintype cmp (rd_natts rel) dir out (it_key t)).
Context (Hreach_hikey : forall k b l p hk, dir = Forward -> vis !! k = Some (b, l) -> pages b = Some p -> hikey p = Some hk ->
  positioned indoption opcintype cmp (ABTreeTupleGetNAtts hk (rd_natts rel)) dir out (tuple_key hk)).

Lemma visited_lookup k b l : vis !! k = Some (b, l) -> scan_pages dir blks !! (k0 + k)%nat = Some b /\
  exists p, pages b = Some p /\ exists l0, scan_lines dir p = l0 ++ l /\ (k <> 0%nat -> l0 = []) /\ (k = 0%nat -> l = ahead dir p0 q /\ p = p0).
Proof.
  unfold visited. destruct k as [|k]; simpl.
  - intros [= <- <-]. rewrite Nat.add_0_r. split; [done|]. exists p0. split; [done|]. exists (behind dir p0 q). by rewrite <- behind_ahead.
  - change (list_fmap _ _ ?f ?l) with (f <$> l). rewrite list_lookup_fmap, lookup_drop. replace (S k0 + k)%nat with (k0 + S k)%nat by lia.
    destruct (scan_pages dir blks !! (k0 + S k)%nat) as [b'|] eqn:E; [|done]. simpl. intros [= <- <-]. split; [done|].
    destruct (scan_pages_lookup _ _ _ _ E) as (i & Hi & _). destruct (chain_page rel pages blks Hch i b' Hi) as (p & Hp & _).
    exists p. split; [done|]. exists []. unfold lines_of. rewrite Hp. done.
Qed.

Lemma rest_unsat k : (forall k' b l d t, (k <= k')%nat -> vis !! k' = Some (b, l) -> (d, LeafTup t) ∈ l -> all_sat (it_key t) out = false) ->
  rest ignore_killed_tuples out vis k = [].
Proof.
  intros H. unfold rest. assert (forall v, v ∈ drop k vis -> hits (snd v) = []) as Hv.
  { intros [b l] Hin. apply list_elem_of_lookup_1 in Hin as (m & Hm). rewrite lookup_drop in Hm. apply hits_nil. intros d t Ht.
    apply (H (k + m)%nat b l d t); [lia|done|done]. }
  induction (drop k vis) as [|v l IH]; [done|]. simpl. rewrite (Hv v) by (by left). simpl. apply IH. intros w Hw. apply Hv. by right.
Qed.

Lemma visited_next k : fst <$> vis !! S k = scan_pages dir blks !! (k0 + S k)%nat.
Proof.
  unfold visited. simpl. change (list_fmap _ _ ?f ?l) with (f <$> l). rewrite list_lookup_fmap, lookup_drop. replace (S k0 + k)%nat with (k0 + S k)%nat by lia.
  by destruct (scan_pages dir blks !! (k0 + S k)%nat).
Qed.

Lemma visited_line k b l p x : vis !! k = Some (b, l) -> pages b = Some p -> x ∈ l -> x ∈ data_lines p /\ leaf_line rel x.
Proof.
  intros Hk Hp Hx. destruct (visited_lookup k b l Hk) as (Hs & p' & Hp' & l0 & Heq & _). rewrite Hp in Hp'. injection Hp' as <-.
  assert (Hin : x ∈ data_lines p) by (apply (scan_lines_data dir); rewrite Heq; apply elem_of_app; by right). split; [done|].
  destruct (scan_pages_lookup _ _ _ _ Hs) as (i & Hi & _).
  pose proof (lc_lines _ _ _ Hch b p ltac:(by eapply list_elem_of_lookup_2) Hp) as Hl. rewrite Forall_forall in Hl. by apply Hl.
Qed.

Lemma hits_length l : (length (hits l) <= length (l ≫= fun x => match snd x with LeafTup t => it_tids t | PivotTup _ => [] end))%nat.
Proof.
  induction l as [|[d [t|pv]] l IH]; [done| |done]. change (hits (?x :: l)) with (hit ignore_killed_tuples out x ++ hits l).
  simpl. rewrite !length_app. change (list_bind _ _ ?f l) with (l ≫= f). unfold hit. cbn [fst snd]. destruct (_ && _); simpl; [lia|]. destruct (all_sat _ _); simpl; lia.
Qed.

(** A line that stops the scan leaves no match on its page and none behind it. *)
Lemma visited_stop k b l x : vis !! k = Some (b, l) -> x ∈ l -> stops rel dir out x -> rest ignore_killed_tuples out vis (S k) = [].
Proof.
  intros Hk Hx Hst. destruct (visited_lookup k b l Hk) as (Hs & p & Hp & _). destruct (visited_line k b l p x Hk Hp Hx) as [Hin (t & Ht & Hok & _)].
  apply rest_unsat. intros k' b' l' d' t' Hlt Hk' Hin'. destruct (visited_lookup k' b' l' Hk') as (Hs' & p' & Hp' & _).
  destruct (visited_line k' b' l' p' _ Hk' Hp' Hin') as [Hd' (t2 & [= <-] & Hok' & _)]. destruct x as [d xt]. cbn [snd] in Ht. subst xt.
  apply (stop_final t t'); try done; [|by apply (Hreach k b l d)].
  apply (scan_pages_le (k0 + k) (k0 + k') b b' p p' d d'); try done. lia.
Qed.

Lemma visited_finals k b l : vis !! k = Some (b, l) -> finals rel ignore_killed_tuples dir out l.
Proof.
  intros Hk l1 x l2 -> Hst. destruct (visited_lookup k b _ Hk) as (Hs & p & Hp & l0 & Heq & _).
  assert (Hx : x ∈ l1 ++ x :: l2) by (apply elem_of_app; right; by left).
  destruct (visited_line k b _ p x Hk Hp Hx) as [Hin (t & Ht & Hok & _)]. apply hits_nil. intros d' t' Hy.
  assert (Hy' : (d', LeafTup t') ∈ l1 ++ x :: l2) by (apply elem_of_app; right; by right).
  destruct (visited_line k b _ p _ Hk Hp Hy') as [Hd' (t2 & [= <-] & Hok' & _)]. destruct x as [d xt]. cbn [snd] in Ht. subst xt.
  apply (stop_final t t'); try done; [|by apply (Hreach k b _ d t Hk)].
  apply list_elem_of_lookup_1 in Hy as (n & Hn).
  apply (scan_lines_le (k0 + k) b p (length l0 + length l1) (length l0 + length l1 + S n) d d'); try done; [lia|rewrite Heq..].
  - rewrite app_assoc, lookup_app_r by (rewrite length_app; lia). rewrite length_app, Nat.sub_diag. done.
  - rewrite app_assoc, lookup_app_r by (rewrite length_app; lia). rewrite length_app. by replace (_ - _)%nat with (S n) by lia.
Qed.

Lemma visited_hikey_stop k b l p : vis !! k = Some (b, l) -> pages b = Some p -> hikey_stops rel dir out p -> rest ignore_killed_tuples out vis (S k) = [].
Proof.
  intros Hk Hp [Hd (hk & Hhk & Hst)]. destruct (visited_lookup k b l Hk) as (Hs & _). apply rest_unsat.
  intros k' b' l' d' t' Hlt Hk' Hin'. destruct (visited_lookup k' b' l' Hk') as (Hs' & p' & Hp' & _).
  destruct (visited_line k' b' l' p' _ Hk' Hp' Hin') as [Hd' (t2 & [= <-] & Hok' & _)].
  assert (Edir : dir = Forward) by (by destruct dir). destruct (scan_pages_lookup _ _ _ _ Hs) as (i & Hi & Ei). destruct (scan_pages_lookup _ _ _ _ Hs') as (j & Hj & Ej).
  rewrite Hd in Ei, Ej. assert (Hb : tuple_before rel hk (LeafTup t')) by (apply (lc_behind _ _ _ Hch i j b b' p p' hk d' t'); try done; lia).
  assert (Hhok : tuple_ok rel hk).
  { destruct (chain_page rel pages blks Hch i b Hi) as (p2 & Hp2 & _ & _ & _ & _ & Hnx). rewrite Hp in Hp2. injection Hp2 as <-.
    destruct (blks !! S i); [destruct Hnx as [_ (? & ? & ?)]; congruence|destruct Hnx as (_ & _ & ?); congruence]. }
  pose proof natts_keys as Hnk. pose proof (rel_natts _ Hrel) as Hna. unfold indnkeyatts in Hna. destruct Hok' as [Hl' _].
  assert (HN : ABTreeTupleGetNAtts hk (rd_natts rel) <= Z.of_nat (length (tuple_key hk)) /\ ABTreeTupleGetNAtts hk (rd_natts rel) <= rd_natts rel)
    by (destruct hk; simpl in *; lia).
  change (it_key t') with (tuple_key (LeafTup t')). apply (stop_outs indoption opcintype opfamily cmp dir hk (LeafTup t') (ABTreeTupleGetNAtts hk (rd_natts rel))); try done; [lia|by apply (Hreach_hikey k b l p)|].
  rewrite Edir. apply (before_after rel indoption opcintype opfamily cmp procinfo opfamily_proc Hcm); [|lia|cbn [tuple_key]; lia].
  unfold tuple_before in Hb. cbn [tuple_key] in *. lia.
Qed.

Lemma visited_walk : walk_ok rel pages ignore_killed_tuples dir out vis.
Proof.
  intros k b l Hk. destruct (visited_lookup k b l Hk) as (Hs & p & Hp & l0 & Heq & Hl0 & Hfst). exists p.
  destruct (scan_pages_lookup _ _ _ _ Hs) as (i & Hi & Ei). destruct (chain_page rel pages blks Hch i b Hi) as (p' & Hp' & Hok & Hleaf & Hig & Hfm & Hnx).
  rewrite Hp in Hp'. injection Hp' as <-. assert (Hin : b ∈ blks) by by eapply list_elem_of_lookup_2.
  split; try done.
  - by apply (lc_blkno _ _ _ Hch).
  - apply Forall_forall. intros x Hx. by apply (visited_line k b l p).
  - assert (length l <= length (scan_lines dir p))%nat by (rewrite Heq, length_app; lia).
    unfold scan_lines, data_lines in *. destruct (ScanDirectionIsForward dir); rewrite ?length_reverse, length_drop in *; lia.
  - pose proof (lc_room _ _ _ Hch b p Hin Hp) as Hroom. pose proof (hits_length l) as Hh. revert Hroom Hh.
    set (f := fun x : bool * index_tuple => match snd x with LeafTup t => it_tids t | PivotTup _ => [] end).
    assert (length (l ≫= f) <= length (data_lines p ≫= f))%nat; [|lia].
    assert (scan_lines dir p ≡ₚ data_lines p) as Hperm by (unfold scan_lines; destruct (ScanDirectionIsForward dir); [done|apply reverse_Permutation]).
    rewrite <- Hperm, Heq, bind_app, length_app. lia.
  - destruct (blks !! S i); [left|right]; [destruct Hnx as [_ (? & ? & _)]; by eexists|apply Hnx].
  - intros hk Hhk. apply (checkkeys_defined indoption); [|by eapply outs_good]. pose proof natts_keys.
    assert (tuple_ok rel hk) as Hhok by (destruct (blks !! S i); [destruct Hnx as [_ (? & ? & ?)]; congruence|destruct Hnx as (_ & _ & ?); congruence]).
    destruct hk as [t|pv]; simpl in *; [destruct Hhok as [Hhok _]|]; lia.
  - intros Hk1. rewrite (Hl0 Hk1) in Heq. cbn [app] in Heq. rewrite <- Heq. by apply visits_all.
  - intros Hd. rewrite visited_next. unfold scan_pages in Hs |- *. rewrite Hd in Ei, Hs |- *. cbn [ScanDirectionIsForward] in *. subst i.
    replace (k0 + S k)%nat with (S (k0 + k)) by lia. destruct (blks !! S (k0 + k)); apply Hnx.
  - intros Hd. rewrite visited_next. unfold scan_pages in Hs |- *. pose proof (lc_prev _ _ _ Hch i b p Hi Hp) as Hprev.
    apply lookup_lt_Some in Hs as Hlt. rewrite Hd in Ei, Hs, Hlt. cbn [ScanDirectionIsForward] in Ei, Hs, Hlt. rewrite length_reverse in Hlt. split.
    + rewrite Hprev, Hd. cbn [ScanDirectionIsForward]. destruct i as [|i].
      * rewrite lookup_ge_None_2; [done|]. rewrite length_reverse. lia.
      * f_equal. rewrite reverse_lookup by lia. f_equal. lia.
    + intros b' l' p' Hk' Hp'. destruct (visited_lookup _ _ _ Hk') as (Hs' & _). destruct (scan_pages_lookup _ _ _ _ Hs') as (j & Hj & Ej).
      apply lookup_lt_Some in Hs' as Hlt'. unfold scan_pages in Hlt'. rewrite Hd in Ej, Hlt'. cbn [ScanDirectionIsForward] in Ej, Hlt'. rewrite length_reverse in Hlt'.
      destruct (chain_page rel pages blks Hch j b' Hj) as (p2 & Hp2 & _ & _ & _ & _ & Hnx'). rewrite Hp' in Hp2. injection Hp2 as <-.
      replace (S j) with i in Hnx' by lia. rewrite Hi in Hnx'. apply Hnx'.
  - by apply (visited_finals k b).
  - intros x. by apply (visited_stop k b l).
  - by apply (visited_hikey_stop k b l p).
Qed.

(** *** The start misses nothing *)

Context (Hexcl : forall k b p d t, (k < k0)%nat -> scan_pages dir blks !! k = Some b -> pages b = Some p -> (d, LeafTup t) ∈ data_lines p ->
  all_sat (it_key t) out = false).
Context (Hexcl0 : forall d t, (d, LeafTup t) ∈ behind dir p0 q -> all_sat (it_key t) out = false).

Lemma visited_rest : rest ignore_killed_tuples out vis 0 = scan_result ignore_killed_tuples dir pages blks out.
Proof.
  unfold rest, scan_result. rewrite drop_0. unfold visited. cbn [mbind list_bind snd]. rewrite <- (take_drop_middle _ _ _ Hk0) at 2. rewrite bind_app.
  assert ((take k0 (scan_pages dir blks) ≫= fun b => hits (lines_of dir pages b)) = []) as ->.
  { assert (forall b, b ∈ take k0 (scan_pages dir blks) -> hits (lines_of dir pages b) = []) as Hn.
    { intros b Hb. apply elem_of_take in Hb as (k & Hk & Hlt). apply hits_nil. intros d t Hin. unfold lines_of in Hin.
      destruct (pages b) as [p|] eqn:Ep; [|by apply elem_of_nil in Hin]. apply (Hexcl k b p d t); try done. by apply (scan_lines_data dir). }
    induction (take k0 _) as [|b l IH]; [done|]. simpl. rewrite Hn by (by left). apply IH. intros b' Hb'. apply Hn. by right. }
  cbn [app]. cbn [mbind list_bind]. f_equal.
  - unfold lines_of. rewrite Hp0, (behind_ahead dir p0 q), hits_app. rewrite (hits_nil _ _ (behind dir p0 q)) by apply Hexcl0. done.
  - induction (drop (S k0) _) as [|b l IH]; [done|]. simpl. f_equal. apply IH.
Qed.

Lemma start_run drop_pin so fuel h c : ready so b0 -> (length blks < fuel)%nat ->
  started h c (load_first rel pages ignore_killed_tuples drop_pin dir fuel so (start_off dir q) (mk_bs (b0 :: h) c)).
Proof.
  intros (Hkd & Hb & Hits & Hmore) Hf. exists vis. split; [apply visited_walk|]. rewrite <- visited_rest. destruct (visited_walk 0%nat b0 (ahead dir p0 q) eq_refl) as [p Hs].
  assert (p = p0) as -> by (pose proof (ps_page _ _ _ _ _ _ _ _ _ _ Hs); congruence).
  assert (length vis <= length blks)%nat.
  { unfold visited. simpl. change (list_fmap _ _ ?f ?l) with (f <$> l). rewrite length_fmap, length_drop. apply lookup_lt_Some in Hk0. revert Hk0. unfold scan_pages.
    destruct (ScanDirectionIsForward dir); rewrite ?length_reverse; lia. }
  split; [done|]. eapply (load_first_run rel pages ignore_killed_tuples drop_pin dir out nkeys); [by eapply outs_good|apply natts_keys|apply visited_walk|done|done|by apply visits_ahead|done..|lia].
Qed.

End From.

(** *** The start of a scan with a start key *)

Context (Hplain : Forall (plain_key opcintype procinfo) out).

(** A tuple on the side of the key the scan goes to, or on the other one. *)
Definition ahead_of (key : ABTScanInsertData) (x : index_tuple) : Prop := if ScanDirectionIsForward dir then on_right rel key x else on_left rel key x.
Definition behind_of (key : ABTScanInsertData) (x : index_tuple) : Prop := if ScanDirectionIsForward dir then on_left rel key x else on_right rel key x.

Lemma ahead_positioned key g x : _abt_build_start_inskey rel opcintype procinfo opfamily_proc dir true out = Val (true, Some (key, g)) ->
  ABTreeTupleGetNAtts x (rd_natts rel) <= Z.of_nat (length (tuple_key x)) -> ahead_of key x ->
  positioned indoption opcintype cmp (ABTreeTupleGetNAtts x (rd_natts rel)) dir out (tuple_key x).
Proof.
  intros Hb Hn Hx. eapply (start_positioned rel indoption opcintype opfamily cmp procinfo opfamily_proc); try done. intros key' g' [= <- <-].
  unfold ahead_of, on_left, on_right, cmpval in Hx. destruct dir; cbn [ScanDirectionIsForward sign] in *; destruct Hx as (r & Hr & Hs); exists r; (split; [done|]);
    destruct (nextkey key); lia.
Qed.

Lemma behind_unsat key t : (forall t, tuple_ok rel (LeafTup t) -> all_sat (it_key t) out = true ->
    exists c, compare_tuple (rd_natts rel) key (LeafTup t) = Some c /\ in_range dir key c) ->
  tuple_ok rel (LeafTup t) -> behind_of key (LeafTup t) -> all_sat (it_key t) out = false.
Proof.
  intros Hm Hok Hx. destruct (all_sat (it_key t) out) eqn:E; [|done]. destruct (Hm t Hok E) as (c & Hc & Hin).
  unfold behind_of, on_left, on_right, in_range in *. destruct dir; cbn [ScanDirectionIsForward] in *; destruct Hx as (r & Hr & Hs); assert (r = c) as -> by congruence; lia.
Qed.

Lemma line_in_data p q d t : (d, LeafTup t) ∈ behind dir p q \/ (d, LeafTup t) ∈ ahead dir p q -> (d, LeafTup t) ∈ data_lines p.
Proof. intros H. apply (scan_lines_data dir). rewrite (behind_ahead dir p q). by apply elem_of_app. Qed.

(** The sides of the lines of a page the key splits. *)
Lemma start_split_sides key p q d t :
  (forall d t, (d, LeafTup t) ∈ take (lines_at p q) (data_lines p) -> on_left rel key (LeafTup t)) ->
  (forall d t, (d, LeafTup t) ∈ drop (lines_at p q) (data_lines p) -> on_right rel key (LeafTup t)) ->
  ((d, LeafTup t) ∈ ahead dir p q -> ahead_of key (LeafTup t)) /\ ((d, LeafTup t) ∈ behind dir p q -> behind_of key (LeafTup t)).
Proof.
  intros Hl Hr. unfold ahead, behind, ahead_of, behind_of. destruct (ScanDirectionIsForward dir); rewrite ?elem_of_reverse; split; eauto.
Qed.

Lemma start_with_key drop_pin key g i b p so fuel h c : _abt_build_start_inskey rel opcintype procinfo opfamily_proc dir true out = Val (true, Some (key, g)) ->
  blks !! i = Some b -> pages b = Some p -> belongs rel pages key blks i ->
  ready so b -> (length blks < fuel)%nat ->
  exists q, _abt_binsrch rel key p = Some q /\ 1 <= q < 2 ^ 16 /\
    started h c (load_first rel pages ignore_killed_tuples drop_pin dir fuel so (start_off dir q) (mk_bs (b :: h) c)).
Proof.
  intros Hb Hi Hp Hbel Hready Hf. destruct (prepared_key rel indoption opcintype opfamily cmp procinfo opfamily_proc dir out Hout Hplain Hcm) as (qo & o & Hb' & _ & Hkey).
  rewrite Hb in Hb'. injection Hb' as <- <-. destruct (Hkey key g eq_refl) as (_ & Hst & [args Hko] & Hm).
  destruct (chain_page rel pages blks Hch i b Hi) as (p' & Hp' & Hok & _). rewrite Hp in Hp'. injection Hp' as <-.
  destruct (page_split rel Hrel pages blks Hch key args Hko i b p Hi Hp) as (q & Hbs & Hq & Hl & Hr). exists q. split; [done|].
  split; [pose proof (pk_max _ _ Hok); pose proof (first_off_range p); lia|].
  apply lookup_lt_Some in Hi as Hlt. set (k0 := (if ScanDirectionIsForward dir then i else length blks - S i)%nat).
  assert (Hk0 : scan_pages dir blks !! k0 = Some b).
  { unfold scan_pages, k0. destruct (ScanDirectionIsForward dir); [done|]. rewrite reverse_lookup by lia. by replace (length blks - S (length blks - S i))%nat with i by lia. }
  assert (Hside : forall k b' p' d t, scan_pages dir blks !! k = Some b' -> pages b' = Some p' -> (d, LeafTup t) ∈ data_lines p' ->
    ((k0 < k)%nat -> ahead_of key (LeafTup t)) /\ ((k < k0)%nat -> behind_of key (LeafTup t))).
  { intros k b' p' d t Hk Hp' Ht. destruct (scan_pages_lookup _ _ _ _ Hk) as (j & Hj & Ej). apply lookup_lt_Some in Hj as Hltj. apply lookup_lt_Some in Hk as Hltk.
    unfold ahead_of, behind_of, k0. unfold scan_pages in Hltk. destruct (ScanDirectionIsForward dir); rewrite ?length_reverse in Hltk; split; intros Hlt'.
    - by apply (later_right rel Hrel pages blks Hch key args Hko i b p Hi Hp Hbel j b' p' d t); [lia|..].
    - by apply (earlier_left rel Hrel pages blks Hch key args Hko Hst i Hbel j b' p' d t); [lia|..].
    - by apply (earlier_left rel Hrel pages blks Hch key args Hko Hst i Hbel j b' p' d t); [lia|..].
    - by apply (later_right rel Hrel pages blks Hch key args Hko i b p Hi Hp Hbel j b' p' d t); [lia|..]. }
  pose proof (fun d t => start_split_sides key p q d t Hl Hr) as Hsplit. pose proof (rel_natts _ Hrel) as Hna.
  apply (start_run k0 b p q Hk0 Hp Hq); try done.
  - intros k b' l d t Hk Ht. destruct (visited_lookup k0 b p q Hk0 Hp k b' l Hk) as (Hs & p' & Hp' & l0 & Heq & Hl0 & Hfst).
    assert (Ht' : (d, LeafTup t) ∈ data_lines p') by (apply (scan_lines_data dir); rewrite Heq; apply elem_of_app; by right).
    change (rd_natts rel) with (ABTreeTupleGetNAtts (LeafTup t) (rd_natts rel)). change (it_key t) with (tuple_key (LeafTup t)).
    apply (ahead_positioned key g); [done| |].
    + destruct (scan_pages_lookup _ _ _ _ Hs) as (j & Hj & _). destruct (line_ok rel pages blks Hch j b' p' d t Hj Hp' Ht') as [Hlen _]. simpl. lia.
    + destruct k as [|k]; [destruct (Hfst eq_refl) as [-> ->]; by apply (Hsplit d t)|]. apply (Hside (k0 + S k)%nat b' p' d t Hs Hp' Ht'). lia.
  - intros k b' l p' hk Hd Hk Hp' Hhk. destruct (visited_lookup k0 b p q Hk0 Hp k b' l Hk) as (Hs & _). destruct (scan_pages_lookup _ _ _ _ Hs) as (j & Hj & Ej).
    apply (ahead_positioned key g); [done| |].
    + destruct (chain_page rel pages blks Hch j b' Hj) as (p2 & Hp2 & _ & _ & _ & _ & Hnx). rewrite Hp' in Hp2. injection Hp2 as <-.
      assert (tuple_ok rel hk) as Hhok by (destruct (blks !! S j); [destruct Hnx as [_ (? & ? & ?)]; congruence|destruct Hnx as (_ & _ & ?); congruence]).
      destruct hk as [t|pv]; simpl in *; [destruct Hhok as [Hhok _]|]; lia.
    + unfold ahead_of, k0 in *. rewrite Hd in Ej |- *. cbn [ScanDirectionIsForward] in *.
      apply (hikey_right rel Hrel pages blks Hch key args Hko i b p Hi Hp Hbel j b' p' hk); try done. lia.
  - intros k b' p' d t Hlt' Hk Hp' Ht. destruct (scan_pages_lookup _ _ _ _ Hk) as (j & Hj & _).
    apply (behind_unsat key); [intros t0 H0 H1; by apply Hm|by apply (line_ok rel pages blks Hch j b' p' d)|]. by apply (Hside k b' p' d t).
  - intros d t Ht. apply (behind_unsat key); [intros t0 H0 H1; by apply Hm| |by apply (Hsplit d t)].
    apply (line_ok rel pages blks Hch i b p d t Hi Hp). apply (line_in_data p q). by left.
Qed.

(** The start of a scan without one: the end of the leaf level it goes away from. *)
Lemma start_at_end drop_pin b p so fuel h c : _abt_build_start_inskey rel opcintype procinfo opfamily_proc dir true out = Val (true, None) ->
  end_of (ScanDirectionIsBackward dir) blks = Some b -> pages b = Some p ->
  ready so b -> (length blks < fuel)%nat ->
  started h c (load_first rel pages ignore_killed_tuples drop_pin dir fuel so (far_end dir p) (mk_bs (b :: h) c)).
Proof.
  intros Hb He Hp Hready Hf.
  assert (Hk0 : scan_pages dir blks !! 0%nat = Some b).
  { unfold end_of, ScanDirectionIsBackward, scan_pages in *. destruct (ScanDirectionIsForward dir); cbn [negb] in He; [by rewrite <- head_lookup|].
    rewrite <- head_lookup. by rewrite head_reverse. }
  destruct (scan_pages_lookup _ _ _ _ Hk0) as (i & Hi & _). destruct (chain_page rel pages blks Hch i b Hi) as (p' & Hp' & Hok & _ & _ & Hfm & _). rewrite Hp in Hp'. injection Hp' as <-.
  set (q := if ScanDirectionIsForward dir then first_off p else PageGetMaxOffsetNumber p + 1).
  assert (far_end dir p = start_off dir q) as -> by (unfold far_end, start_off, q, first_off; destruct (ScanDirectionIsForward dir); lia).
  pose proof (rel_natts _ Hrel) as Hna. apply (start_run 0 b p q Hk0 Hp); try done.
  - unfold q. destruct (ScanDirectionIsForward dir); lia.
  - intros k b' l d t Hk Ht. destruct (visited_lookup 0 b p q Hk0 Hp k b' l Hk) as (Hs & p' & Hp' & l0 & Heq & _).
    assert (Ht' : (d, LeafTup t) ∈ data_lines p') by (apply (scan_lines_data dir); rewrite Heq; apply elem_of_app; by right).
    destruct (scan_pages_lookup _ _ _ _ Hs) as (j & Hj & _). destruct (line_ok rel pages blks Hch j b' p' d t Hj Hp' Ht') as [Hlen _].
    change (rd_natts rel) with (ABTreeTupleGetNAtts (LeafTup t) (rd_natts rel)). change (it_key t) with (tuple_key (LeafTup t)).
    eapply (start_positioned rel indoption opcintype opfamily cmp procinfo opfamily_proc); try done. simpl. lia.
  - intros k b' l p' hk Hd Hk Hp' Hhk. destruct (visited_lookup 0 b p q Hk0 Hp k b' l Hk) as (Hs & _). destruct (scan_pages_lookup _ _ _ _ Hs) as (j & Hj & _).
    eapply (start_positioned rel indoption opcintype opfamily cmp procinfo opfamily_proc); try done.
    destruct (chain_page rel pages blks Hch j b' Hj) as (p2 & Hp2 & _ & _ & _ & _ & Hnx). rewrite Hp' in Hp2. injection Hp2 as <-.
    assert (tuple_ok rel hk) as Hhok by (destruct (blks !! S j); [destruct Hnx as [_ (? & ? & ?)]; congruence|destruct Hnx as (_ & _ & ?); congruence]).
    destruct hk as [t|pv]; simpl in *; [destruct Hhok as [Hhok _]|]; lia.
  - intros k b' p' d t Hlt. lia.
  - intros d t Ht. exfalso. unfold behind, q, lines_at in Ht. pose proof (data_lines_length p). destruct (ScanDirectionIsForward dir).
    + rewrite Z.sub_diag, take_0 in Ht. by apply elem_of_nil in Ht.
    + rewrite drop_ge in Ht by lia. by apply elem_of_nil in Ht.
Qed.

End Main.

(** ** Scans *)

Lemma hits_ext ign keys out l : (forall t, all_sat t keys = all_sat t out) -> hits ign keys l = hits ign out l.
Proof.
  intros H. induction l as [|x l IH]; [done|]. change (hit ign keys x ++ hits ign keys l = hit ign out x ++ hits ign out l). rewrite IH.
  f_equal. unfold hit. destruct (snd x); [by rewrite H|done].
Qed.

Lemma scan_result_ext ign dir pages blks keys out : (forall t, all_sat t keys = all_sat t out) ->
  scan_result ign dir pages blks keys = scan_result ign dir pages blks out.
Proof.
  intros H. unfold scan_result. induction (scan_pages dir blks) as [|b l IH]; [done|]. simpl. f_equal; [by apply hits_ext|apply IH].
Qed.

Lemma scan_result_unsat ign dir pages blks keys : (forall t, all_sat t keys = false) -> scan_result ign dir pages blks keys = [].
Proof.
  intros H. unfold scan_result. induction (scan_pages dir blks) as [|b l IH]; [done|]. simpl.
  rewrite hits_nil by (intros; apply H). apply IH.
Qed.

Section Scans.
Context (rel : index_rel) (indoption : list Z) (opcintype : Z -> Z) (opfamily : Z -> Z -> Z -> Z -> option (Z -> Z -> Z)).
Context (cmp : Z -> Z * Z -> Z * Z -> Z) `{!OpFamily opfamily cmp}.
Context (procinfo : Z -> Z -> Z -> Z) (opfamily_proc : Z -> Z -> option (Z -> Z -> Z)) `{!OrderProcs opcintype procinfo opfamily_proc cmp}.
Context (meta : ABTMetaPageData) (pages : Z -> option page) (ignore_killed_tuples drop_pin : bool).

(** An index and a query on it: the tree and its leaf level in order, the quals with
    arguments of the columns' types. *)
Record scan_ok (levels : list (list Z)) (blks : list Z) (top : nat) (root : Z) (W : nat) (quals : list ScanKey) (c : option ABTMetaPageData) : Prop := {
  so_rel : rel_ok rel;
  so_columns : columns_match rel indoption procinfo;
  so_tree : tree_ok rel pages levels;
  so_root : root_ok meta pages levels top root c;
  so_width k bs : levels !! k = Some bs -> (length bs <= W)%nat;
  so_ends k bs kids : levels !! S k = Some bs -> levels !! k = Some kids -> ends_ok pages bs kids;
  so_leaves : levels !! 0%nat = Some blks;
  so_chain : leaf_chain rel pages blks;
  so_quals : Forall (raw_key indoption opcintype cmp) quals;
  so_sorted : Sorted Z.le (attno_of <$> quals);
  so_plain out : _abt_preprocess_keys indoption opcintype opfamily quals = Val (true, out) -> Forall (plain_key opcintype procinfo) out
}.

Lemma first_run levels blks top root W quals dir so fuel h c : scan_ok levels blks top root W quals c ->
  ABTScanPosIsValid (so_currPos so) = false -> pos_buf (so_currPos so) = None -> Z.of_nat (length (items (so_currPos so))) = MaxTIDsPerABTreePage ->
  (top + W + 1 < fuel)%nat ->
  exists out c' vis, Forall (key_good (Z.of_nat (length indoption))) out /\ walk_ok rel pages ignore_killed_tuples dir out vis /\ (length vis < fuel)%nat /\
    fetched ignore_killed_tuples dir out vis (scan_result ignore_killed_tuples dir pages blks quals) h c'
      (_abt_first rel indoption opcintype opfamily procinfo opfamily_proc meta pages ignore_killed_tuples drop_pin dir fuel quals so (mk_bs h c)).
Proof.
  intros [Hrel Hcm Htree Hroot HW Hends Hl0 Hch Hraw Hsort Hplain] Hval Hbuf Hits Hf. unfold _abt_first.
  destruct (preprocess_keys_run indoption opcintype opfamily cmp quals Hraw Hsort) as (ok & out & Hrun & Hs & Ho). rewrite Hrun. cbn [lift_res].
  assert (Hnone : forall so', so_currPos so' = so_currPos so -> (forall t, all_sat t quals = false) ->
    exists out0 c' vis, Forall (key_good (Z.of_nat (length indoption))) out0 /\ walk_ok rel pages ignore_killed_tuples dir out0 vis /\ (length vis < fuel)%nat /\
      fetched ignore_killed_tuples dir out0 vis (scan_result ignore_killed_tuples dir pages blks quals) h c' (Ok (so', None) (mk_bs h c))).
  { intros so' E Hun. exists [], c, []. split; [constructor|]. split; [by intros k b l; rewrite lookup_nil|]. split; [simpl; lia|].
    rewrite scan_result_unsat by done. exists so'. by rewrite E. }
  erewrite bind_ok by reflexivity. cbv beta iota. destruct ok; cbn [negb]; [|by apply Hnone; [|intros t; rewrite Hs]]. specialize (Ho eq_refl). specialize (Hplain out Hrun).
  destruct (prepared_key rel indoption opcintype opfamily cmp procinfo opfamily_proc dir out Ho Hplain Hcm) as (qo & o & Hb & Hq & Hkey).
  rewrite Hb. erewrite bind_ok by reflexivity. cbv beta iota. destruct qo; cbn [negb]; [|by apply Hnone; [|intros t; rewrite Hs, Hq]].
  assert (Hgood : Forall (key_good (Z.of_nat (length indoption))) out) by by eapply outs_good.
  pose proof (HW 0%nat blks Hl0) as HW0. rewrite (scan_result_ext _ _ _ _ quals out) by (intros t; by rewrite Hs).
  assert (Hready : forall b so', so_keyData so' = out -> pos_buf (so_currPos so') = Some b -> items (so_currPos so') = items (so_currPos so) ->
    more dir (so_currPos so') = true -> ready dir out so' b) by (intros b so' H1 H2 H3 H4; split_and!; congruence).
  destruct o as [[key g]|].
  - destruct (Hkey key g eq_refl) as (Hg & _ & [args Hko] & _).
    destruct (key_search_run rel meta pages levels top root W 0 fuel key args h c) as (blk & stack & bs & i & c' & Hse & Hbs & Hblk & Hbel & _); try done; [lia|lia|].
    rewrite Hl0 in Hbs. injection Hbs as <-. rewrite (bind_ok _ _ _ _ _ Hse). cbv beta iota.
    destruct (chain_page rel pages blks Hch i blk Hblk) as (p & Hp & _). run_step.
    destruct (start_with_key rel indoption opcintype opfamily cmp procinfo opfamily_proc Hrel Hcm pages ignore_killed_tuples dir out Ho blks Hch Hplain drop_pin
      key g i blk p (set_pos (_abt_initialize_more_data (set_keys so out) dir) (set_buf (so_currPos (_abt_initialize_more_data (set_keys so out) dir)) (Some blk))) fuel h c')
      as (q & Hbin & Hq' & vis & Hw & Hlen & Hfe); try done; [apply Hready; by destruct dir|lia|].
    exists out, c', vis. split; [done|]. split; [done|]. split; [lia|]. run_step.
    replace (if g then OffsetNumberPrev q else q) with (start_off dir q); [done|]. rewrite Hg. unfold start_off, ScanDirectionIsBackward, OffsetNumberPrev, u16.
    destruct (ScanDirectionIsForward dir); cbn [negb]; [done|]. rewrite Z.mod_small; lia.
  - destruct (endpoint_finds_end rel meta pages levels top root W fuel (ScanDirectionIsBackward dir) h c) as (blk & bs & c' & Hse & Hbs & Hend); try done.
    rewrite Hl0 in Hbs. injection Hbs as <-. unfold _abt_endpoint. rewrite (bind_ok _ _ _ _ _ Hse). cbv beta iota.
    assert (exists i, blks !! i = Some blk) as [i Hi] by (unfold end_of in Hend; destruct (ScanDirectionIsBackward dir); [rewrite last_lookup in Hend|rewrite head_lookup in Hend]; eauto).
    destruct (chain_page rel pages blks Hch i blk Hi) as (p & Hp & _). run_step.
    destruct (start_at_end rel indoption opcintype opfamily cmp procinfo opfamily_proc Hrel Hcm pages ignore_killed_tuples dir out Ho blks Hch Hplain drop_pin
      blk p (_abt_initialize_more_data (set_pos (set_keys so out) (set_buf (so_currPos so) (Some blk))) dir) fuel h c') as (vis & Hw & Hlen & Hfe); try done; [apply Hready; by destruct dir|lia|].
    exists out, c', vis. split; [done|]. split; [done|]. split; [lia|]. done.
Qed.

Lemma fetch_matches levels blks top root W quals dir so n fuel h c :
  scan_ok levels blks top root W quals c ->
  ABTScanPosIsValid (so_currPos so) = false -> pos_buf (so_currPos so) = None -> Z.of_nat (length (items (so_currPos so))) = MaxTIDsPerABTreePage ->
  (top + W + 1 < fuel)%nat -> (length (scan_result ignore_killed_tuples dir pages blks quals) < n)%nat ->
  exists so' c', fetch_all rel indoption opcintype opfamily procinfo opfamily_proc meta pages ignore_killed_tuples drop_pin dir n fuel quals so (mk_bs h c) =
      Ok (so', scan_result ignore_killed_tuples dir pages blks quals) (mk_bs h c') /\
    ABTScanPosIsValid (so_currPos so') = false /\ pos_buf (so_currPos so') = None.
Proof.
  intros Hok Hval Hbuf Hits Hf Hn. destruct (first_run levels blks top root W quals dir so fuel h c Hok Hval Hbuf Hits Hf) as (out & c' & vis & Hgood & Hw & Hlen & Hfe).
  destruct n as [|n]; [lia|]. cbn [fetch_all]. unfold abtgettuple. rewrite Hval. cbn [negb].
  destruct (scan_result ignore_killed_tuples dir pages blks quals) as [|t l]; cbn [fetched] in Hfe.
  - destruct Hfe as (so' & Hr & ? & ? & _). exists so', c'. by rewrite (bind_ok _ _ _ _ _ Hr).
  - destruct Hfe as (so' & k & rem & Hr & Hk & Hc & ->). rewrite (bind_ok _ _ _ _ _ Hr). cbv beta iota.
    destruct (fetch_rest rel pages ignore_killed_tuples drop_pin dir out (Z.of_nat (length indoption)) Hgood (natts_keys rel indoption procinfo (so_rel _ _ _ _ _ _ _ Hok) (so_columns _ _ _ _ _ _ _ Hok)) vis Hw
      indoption opcintype opfamily procinfo opfamily_proc meta quals n so' k t rem fuel h c' Hk Hc Hlen) as (so2 & Hr2 & ?); [simpl in Hn; lia|].
    exists so2, c'. by rewrite (bind_ok _ _ _ _ _ Hr2).
Qed.

(** C5: An index scan returns exactly its matches.  Fetching with abtgettuple until it
    returns false, forward or backward, gives the heap TIDs of all leaf tuples that
    satisfy the quals (and are not dead, if dead ones are ignored), each once and in the
    direction of the index order; it ends within the given number of calls and page
    steps, without an error, and leaves no page locked or pinned. *)
Theorem scan_returns_matches levels blks top root W quals dir so n fuel h c :
  scan_ok levels blks top root W quals c ->
  ABTScanPosIsValid (so_currPos so) = false -> pos_buf (so_currPos so) = None -> Z.of_nat (length (items (so_currPos so))) = MaxTIDsPerABTreePage ->
  (top + W + 1 < fuel)%nat -> (length (scan_result ignore_killed_tuples dir pages blks quals) < n)%nat ->
  exists so' c', fetch_all rel indoption opcintype opfamily procinfo opfamily_proc meta pages ignore_killed_tuples drop_pin dir n fuel quals so (mk_bs h c) =
      Ok (so', scan_result ignore_killed_tuples dir pages blks quals) (mk_bs h c') /\
    ABTScanPosIsValid (so_currPos so') = false /\ pos_buf (so_currPos so') = None.
Proof. apply fetch_matches. Qed.

(** Abtgetbitmap adds the same TIDs in the same order as fetching them forward, although
    it advances over the items of a page itself and lets _abt_next count once more at its
    end. *)
Theorem bitmap_returns_matches levels blks top root W quals so n fuel h c :
  scan_ok levels blks top root W quals c ->
  ABTScanPosIsValid (so_currPos so) = false -> pos_buf (so_currPos so) = None -> Z.of_nat (length (items (so_currPos so))) = MaxTIDsPerABTreePage ->
  (top + W + 1 < fuel)%nat -> (length (scan_result ignore_killed_tuples Forward pages blks quals) < n)%nat ->
  exists so' c', abtgetbitmap rel indoption opcintype opfamily procinfo opfamily_proc meta pages ignore_killed_tuples drop_pin n fuel quals so (mk_bs h c) =
      Ok (so', scan_result ignore_killed_tuples Forward pages blks quals) (mk_bs h c') /\
    ABTScanPosIsValid (so_currPos so') = false /\ pos_buf (so_currPos so') = None.
Proof.
  intros Hok Hval Hbuf Hits Hf Hn. destruct (first_run levels blks top root W quals Forward so fuel h c Hok Hval Hbuf Hits Hf) as (out & c' & vis & Hgood & Hw & Hlen & Hfe).
  unfold abtgetbitmap. destruct (scan_result ignore_killed_tuples Forward pages blks quals) as [|t l]; cbn [fetched] in Hfe.
  - destruct Hfe as (so' & Hr & ? & ? & _). exists so', c'. by rewrite (bind_ok _ _ _ _ _ Hr).
  - destruct Hfe as (so' & k & rem & Hr & Hk & Hc & ->). rewrite (bind_ok _ _ _ _ _ Hr). cbv beta iota.
    destruct (bitmap_rest rel pages ignore_killed_tuples drop_pin out (Z.of_nat (length indoption)) vis n so' k t rem fuel h c' Hgood
      (natts_keys rel indoption procinfo (so_rel _ _ _ _ _ _ _ Hok) (so_columns _ _ _ _ _ _ _ Hok)) Hw Hk Hc Hlen) as (so2 & Hr2 & ?); [simpl in Hn; lia|].
    exists so2, c'. by rewrite (bind_ok _ _ _ _ _ Hr2).
Qed.

(** C28: Marking and restoring a scan's position.  A scan that fetches [j] items, marks its
    position, fetches any number of further items (stepping to other pages or running to
    its end) and restores the mark goes on with the items behind the [j]-th. *)
Theorem mark_restores_position levels blks top root W quals dir so j m n fuel h c :
  scan_ok levels blks top root W quals c ->
  ABTScanPosIsValid (so_currPos so) = false -> pos_buf (so_currPos so) = None -> Z.of_nat (length (items (so_currPos so))) = MaxTIDsPerABTreePage ->
  mark_room so -> (top + W + 1 < fuel)%nat -> (1 <= j <= length (scan_result ignore_killed_tuples dir pages blks quals))%nat ->
  (length (scan_result ignore_killed_tuples dir pages blks quals) < n)%nat ->
  exists so' c', mark_and_return rel indoption opcintype opfamily procinfo opfamily_proc meta pages ignore_killed_tuples drop_pin dir j m n fuel quals so (mk_bs h c) =
      Ok (so', drop j (scan_result ignore_killed_tuples dir pages blks quals)) (mk_bs h c') /\
    ABTScanPosIsValid (so_currPos so') = false /\ pos_buf (so_currPos so') = None.
Proof.
  intros Hok Hval Hbuf Hits Hroom Hf Hj Hn. destruct (first_run levels blks top root W quals dir so fuel h c Hok Hval Hbuf Hits Hf) as (out & c' & vis & Hgood & Hw & Hlen & Hfe).
  pose proof (natts_keys rel indoption procinfo (so_rel _ _ _ _ _ _ _ Hok) (so_columns _ _ _ _ _ _ _ Hok)) as Hna.
  destruct (scan_result ignore_killed_tuples dir pages blks quals) as [|t l]; [simpl in Hj; lia|]. cbn [fetched] in Hfe.
  destruct Hfe as (so1 & k & rem & Hr & Hk & Hc & ->). pose proof (first_markPos _ _ _ _ _ _ _ _ _ _ _ _ _ _ _ _ _ _ Hr) as Hmp.
  assert (Hroom1 : mark_room so1) by (unfold mark_room in *; congruence). destruct j as [|j]; [lia|]. unfold mark_and_return. cbn [fetch_some]. unfold abtgettuple at 1. rewrite Hval. cbn [negb].
  destruct (fetch_some_run rel pages ignore_killed_tuples drop_pin dir out _ Hgood Hna vis Hw indoption opcintype opfamily procinfo opfamily_proc meta quals j so1 k t rem fuel h c' Hk Hc Hroom1 Hlen)
    as (so2 & k2 & t2 & rem2 & Hr2 & Hk2 & Hc2 & Hroom2 & Hdrop); [simpl in Hj; lia|].
  erewrite bind_ok; [|rewrite (bind_ok _ _ _ _ _ Hr); cbv beta iota; exact Hr2].
  destruct (mark_current rel pages ignore_killed_tuples dir out vis Hw so2 k2 t2 rem2 Hc2 Hroom2) as (Hcur & Hkd & Hroom3 & Hmk).
  destruct (fetch_some_marked rel pages ignore_killed_tuples drop_pin dir out _ Hgood Hna vis Hw indoption opcintype opfamily procinfo opfamily_proc meta quals m (abtmarkpos so2) k2 t2 rem2 k2 (t2 :: rem2) fuel h c')
    as (so3 & Hr3 & Hk3 & Hroom4 & Hmk3 & Hits3); try done; [congruence|by rewrite Hcur|].
  rewrite (bind_ok _ _ _ _ _ Hr3). destruct (restore_marked rel pages ignore_killed_tuples dir out vis Hw so3 k2 (t2 :: rem2) Hk3 Hroom4 Hmk3 Hits3) as [Hk4 Hc4].
  destruct (fetch_rest rel pages ignore_killed_tuples drop_pin dir out _ Hgood Hna vis Hw indoption opcintype opfamily procinfo opfamily_proc meta quals n (abtrestrpos so3) k2 t2 rem2 fuel h c' Hk4 Hc4 Hlen)
    as (so' & Hr5 & ?); [rewrite Hdrop, length_drop; simpl in Hn; lia|].
  exists so', c'. rewrite Hr5, Hdrop. done.
Qed.

End Scans.

(** ** Scans of the small tree of Btree *)

(** 20 <= x <= 50 *)
Definition scan_quals : list ScanKey := [demo_skey 1 4 20; demo_skey 1 2 50].

(** A scan that has not started. *)
Definition no_pos : ABTScanPosData :=
  mk_pos None InvalidBlockNumber InvalidBlockNumber false false 0 0 0
    (replicate (Z.to_nat MaxTIDsPerABTreePage) (mk_positem (mk_tid 0 0) 0)).
Definition new_scan : ABTScanOpaque := mk_so [] no_pos no_pos (-1).

Lemma demo_leaf_chain : leaf_chain demo_rel Btree.demo_pages [2; 3; 4].
Proof.
  assert (Hcase : forall (P : Z -> Prop) b, b ∈ [2; 3; 4] -> P 2 -> P 3 -> P 4 -> P b).
  { intros P b Hb. rewrite !elem_of_cons in Hb. destruct Hb as [->|[->|[->|[]%elem_of_nil]]]; done. }
  split.
  - destruct (to_level _ _ _ demo_tree_ok 0%nat [2; 3; 4] eq_refl) as [_ H]. exact H.
  - intros b Hb. apply (Hcase (fun b => b <> ABTP_NONE /\ b <> InvalidBlockNumber) b Hb); done.
  - intros b p Hb. revert p. apply (Hcase (fun b => forall p, Btree.demo_pages b = Some p -> Forall (leaf_line demo_rel) (data_lines p)) b Hb);
      intros p [= <-]; repeat (apply Forall_cons; split; [eexists; split; [reflexivity|]; split; [split; [done|by eexists _, _]|done]|]); by apply Forall_nil.
  - intros b p Hb. revert p. apply (Hcase (fun b => forall p, Btree.demo_pages b = Some p -> _) b Hb); intros p [= <-]; vm_compute; congruence.
  - intros [|[|[|i]]] b p; simpl; intros [= <-] [= <-]; done.
  - intros [|[|[|i]]] b p hk d t; simpl; intros [= <-] [= <-]; try done; intros [= <-]; vm_compute data_lines; rewrite !elem_of_cons;
      intros [[= -> ->]|[[= -> ->]|[]%elem_of_nil]]; by left.
  - intros [|[|[|i]]] [|[|[|j]]] b b' p p' hk d t Hij; simpl; try lia; try done; intros [= <-] [= <-] [= <-] [= <-] [= <-]; vm_compute data_lines; rewrite !elem_of_cons;
      (intros [[= -> ->]|[[= -> ->]|[]%elem_of_nil]]; first [by left|by right]).
Qed.

Lemma demo_scan_ok c : c = None -> scan_ok demo_rel range_options demo_type demo_family demo_cmp demo_procinfo demo_meta Btree.demo_pages
  demo_levels [2; 3; 4] 1 1 3 scan_quals c.
Proof.
  intros ->. split.
  - apply demo_rel_ok.
  - split; [done|]. intros [|[|i]] c [= <-]. done.
  - apply demo_tree_ok.
  - by apply demo_root_ok.
  - apply demo_width.
  - intros [|k] bs kids; simpl; [|done]. intros [= <-] [= <-]. split; intros b p; simpl; intros [= <-] [= <-].
    + by eexists.
    + eexists. split; [reflexivity|]. simpl. rewrite !elem_of_cons. auto.
  - done.
  - apply demo_leaf_chain.
  - do 2 (apply Forall_cons; split; [apply demo_raw_key; simpl; lia|]). constructor.
  - do 2 (apply Sorted_cons; [|first [apply HdRel_cons; done|apply HdRel_nil]]). apply Sorted_nil.
  - intros out H. vm_compute in H. injection H as <-. by repeat (apply Forall_cons; split; [split; [done|by right]|]).
Qed.

Lemma scan_returns_matches_witness : exists so' c',
  fetch_all demo_rel range_options demo_type demo_family demo_procinfo demo_proc demo_meta Btree.demo_pages true true Backward 5 10 scan_quals new_scan (mk_bs [] None) =
    Ok (so', [mk_tid 0 5; mk_tid 0 4; mk_tid 0 3; mk_tid 0 2]) (mk_bs [] c') /\
  ABTScanPosIsValid (so_currPos so') = false /\ pos_buf (so_currPos so') = None.
Proof.
  change [mk_tid 0 5; mk_tid 0 4; mk_tid 0 3; mk_tid 0 2] with (scan_result true Backward Btree.demo_pages [2; 3; 4] scan_quals).
  apply (scan_returns_matches demo_rel range_options demo_type demo_family demo_cmp demo_procinfo demo_proc demo_meta Btree.demo_pages true true
    demo_levels [2; 3; 4] 1 1 3 scan_quals Backward new_scan 5 10 [] None).
  - by apply demo_scan_ok.
  - reflexivity.
  - reflexivity.
  - vm_compute. reflexivity.
  - lia.
  - vm_compute. lia.
Defined.

Lemma bitmap_returns_matches_witness : exists so' c',
  abtgetbitmap demo_rel range_options demo_type demo_family demo_procinfo demo_proc demo_meta Btree.demo_pages true true 5 10 scan_quals new_scan (mk_bs [] None) =
    Ok (so', [mk_tid 0 2; mk_tid 0 3; mk_tid 0 4; mk_tid 0 5]) (mk_bs [] c') /\
  ABTScanPosIsValid (so_currPos so') = false /\ pos_buf (so_currPos so') = None.
Proof.
  change [mk_tid 0 2; mk_tid 0 3; mk_tid 0 4; mk_tid 0 5] with (scan_result true Forward Btree.demo_pages [2; 3; 4] scan_quals).
  apply (bitmap_returns_matches demo_rel range_options demo_type demo_family demo_cmp demo_procinfo demo_proc demo_meta Btree.demo_pages true true
    demo_levels [2; 3; 4] 1 1 3 scan_quals new_scan 5 10 [] None).
  - by apply demo_scan_ok.
  - reflexivity.
  - reflexivity.
  - vm_compute. reflexivity.
  - lia.
  - vm_compute. lia.
Defined.

Lemma mark_restores_position_witness : exists so' c',
  mark_and_return demo_rel range_options demo_type demo_family demo_procinfo demo_proc demo_meta Btree.demo_pages true true Forward 2 5 5 10 scan_quals new_scan (mk_bs [] None) =
    Ok (so', [mk_tid 0 4; mk_tid 0 5]) (mk_bs [] c') /\
  ABTScanPosIsValid (so_currPos so') = false /\ pos_buf (so_currPos so') = None.
Proof.
  change [mk_tid 0 4; mk_tid 0 5] with (drop 2 (scan_result true Forward Btree.demo_pages [2; 3; 4] scan_quals)).
  apply (mark_restores_position demo_rel range_options demo_type demo_family demo_cmp demo_procinfo demo_proc demo_meta Btree.demo_pages true true
    demo_levels [2; 3; 4] 1 1 3 scan_quals Forward new_scan 2 5 5 10 [] None).
  - by apply demo_scan_ok.
  - reflexivity.
  - reflexivity.
  - vm_compute. reflexivity.
  - vm_compute. reflexivity.
  - lia.
  - vm_compute. lia.
  - vm_compute. lia.
Defined.

End ScanMatches.
