(* ===== verification/FixPath.v ===== *)
(** * Adding a new entry to the aggregates above it (abtinsert.c)

    After a tuple has been inserted into a leaf page, with an invalid xmin so that nobody
    counts it yet, _abt_fix_path_aggregation_itup descends from the root once more, adds
    the tuple's value to every aggregate on the path and to the version of its
    transaction in the version store, and at last stores the transaction id in the tuple.
    It holds shared locks only; when it finds that a page it relies on has changed in the
    meantime it climbs to an ancestor whose aggregate is still as it left it.

    The state has the pages, the buffers that are locked and the version store, whose
    update is a parameter.  What other backends do to the pages is a list of functions, one
    of them applied each time the function acquires a lock after having released one; the
    steps right inside _abt_moveright are not interleaved. *)

From stdpp Require Import base numbers option sorting list.
From S2P Require Import Prelude Tuple Dedup Versions VersionStore Page Search Btree Insert Sample Draw.

Module FixPath.
Import Tuple Dedup Versions Page Search Btree Sample Draw.

(** ** The stack of the descent *)

(** A frame; abts_tuple_last_update_id is not set before the frame's page is updated. *)
Record frame := mk_frame {
  sf_blkno : Z;
  sf_offset : Z;
  sf_last_update_id : Z;
  sf_tuple_last_update_id : option Z;
  sf_level : Z
}.

(** From the lowest frame up; the result starts at the top and follows abts_child. *)
Fixpoint setup_loop (level : Z) (prev : list frame) (stack : list ABTStackData) : list frame :=
  match stack with
  | [] => prev
  | s :: stack =>
      setup_loop (u32 (level + 1)) (mk_frame (abts_blkno s) (abts_offset s) (abts_last_update_id s) None level :: prev) stack
  end.
Definition _abt_stack_setup_child_link (stack : list ABTStackData) : list frame := setup_loop 1 [] stack.

(** ** Searching around an offset *)

(** Rounds [i], [i + 1], .. of the search, [n] of them: downwards from [low] in the even
    ones and upwards from [high] in the odd ones. *)
Fixpoint around {A} (n : nat) (i low high minoff maxoff : Z) (probe : Z -> option (option A)) : option (option A) :=
  match n with
  | O => Some None
  | S n =>
      if Z.land i 1 =? 0 then
        if low <? minoff then around n (i + 1) low high minoff maxoff probe
        else if maxoff <? low then around n (i + 1) (u16 (low - 1)) high minoff maxoff probe
        else
          r ← probe low;
          match r with Some a => Some (Some a) | None => around n (i + 1) (u16 (low - 1)) high minoff maxoff probe end
      else if maxoff <? high then around n (i + 1) low (u16 (high + 1)) minoff maxoff probe
      else
        r ← probe high;
        match r with Some a => Some (Some a) | None => around n (i + 1) low (u16 (high + 1)) minoff maxoff probe end
  end.

Definition search_around {A} (p : page) (start_off : Z) (probe : Z -> option (option A)) : option (option A) :=
  let minoff := ABT_P_FIRSTDATAKEY (pg_opaque p) in
  let maxoff := PageGetMaxOffsetNumber p in
  if start_off <=? maxoff + 10 then around 21 0 start_off (u16 (start_off + 1)) minoff maxoff probe else Some None.

Definition _abt_try_find_downlink (p : page) (start_off cblkno : Z) : option Z :=
  r ← search_around p start_off (fun off =>
        itup ← PageGetItem p off;
        blk ← ABTreeTupleGetDownLink itup;
        Some (if blk =? cblkno then Some off else None));
  Some (default InvalidOffsetNumber r).

(** ** The new tuple on its leaf page *)

Definition tid_matches (key : ABTScanInsertData) (t : option tid) : bool := bool_decide (is_Some t /\ scantid key = t).

(** The position of the new TID in the tuple at [off]. *)
Definition probe_tuple (key : ABTScanInsertData) (p : page) (off : Z) (t : itup) : option (option (Z * nat)) :=
  if is_posting t then
    j ← _abt_binsrch_posting key p off;
    Some (if (0 <=? j) && (j <? nposting t) && tid_matches key (it_tids t !! Z.to_nat j) then Some (off, Z.to_nat j) else None)
  else Some (if tid_matches key (head (it_tids t)) then Some (off, 0%nat) else None).

Definition probe_leaf (key : ABTScanInsertData) (p : page) (off : Z) : option (option (Z * nat)) :=
  itup ← PageGetItem p off;
  match itup with LeafTup t => probe_tuple key p off t | PivotTup _ => None end.

(** The same, after a look at the place the tuple was inserted at. *)
Definition probe_near (key : ABTScanInsertData) (p : page) (newitemoff postingoff off : Z) : option (option (Z * nat)) :=
  itup ← PageGetItem p off;
  match itup with
  | LeafTup t =>
      if is_posting t && (off =? newitemoff) && negb (postingoff =? 0) && (postingoff <? nposting t) &&
         tid_matches key (it_tids t !! Z.to_nat postingoff)
      then Some (Some (off, Z.to_nat postingoff))
      else probe_tuple key p off t
  | PivotTup _ => None
  end.

(** for (; off <= maxoff; ++off) *)
Fixpoint probe_from (n : nat) (key : ABTScanInsertData) (p : page) (off : Z) : option (option (Z * nat)) :=
  match n with
  | O => Some None
  | S n =>
      if off <=? PageGetMaxOffsetNumber p then
        r ← probe_leaf key p off;
        match r with Some x => Some (Some x) | None => probe_from n key p (u16 (off + 1)) end
      else Some None
  end.

Definition find_inserted (rel : index_rel) (key : ABTScanInsertData) (p : page) (blkno newitemoff postingoff leaf_blkno : Z)
  : option (option (Z * nat)) :=
  near ← (if leaf_blkno =? blkno then search_around p newitemoff (probe_near key p newitemoff postingoff) else Some None);
  match near with
  | Some x => Some (Some x)
  | None => off ← _abt_binsrch rel key p; probe_from (S (length (pg_lines p))) key p off
  end.

(** ** Changes to a page under a shared lock *)

Definition set_line (p : page) (off : Z) (f : index_tuple -> index_tuple) : page :=
  mk_pg (alter (prod_map id f) (Z.to_nat (off - 1)) (pg_lines p)) (pg_opaque p).

Definition write_xmin (xmin : Z) (j : nat) (t : index_tuple) : index_tuple :=
  match t with
  | LeafTup t => LeafTup (mk_itup (it_key t) (it_size t) (it_postingoff t) (it_tids t) (it_aggs t) (<[j := xmin]> (it_xmins t)))
  | PivotTup _ => t
  end.

(** pg_atomic_fetch_add on an aggregate of [typlen] bytes, read back at that width.  An
    int2 is followed by two bytes of padding, which take the carry of the 32-bit add. *)
Definition fetch_add (typlen a d : Z) : Z :=
  if typlen =? 8 then i64 (a + d) else if typlen =? 4 then i32 (a + i32 d) else i16 (a + i16 d).

Definition add_to_agg (typlen d : Z) (t : index_tuple) : index_tuple :=
  match t with
  | PivotTup pv => PivotTup (mk_pivot (pv_key pv) (pv_tid pv) (pv_downlink pv) (fetch_add typlen (pv_agg pv) d) (pv_last_update_id pv))
  | LeafTup _ => t
  end.

Definition set_page (pages : Z -> option page) (blk : Z) (p : page) : Z -> option page :=
  fun b => if b =? blk then Some p else pages b.

(** ** The state *)

Section State.
Context {V : Type}.

Record fstate := mk_fs {
  fs_pages : Z -> option page;
  fs_bufs : bstate;
  fs_store : V;                                                     (** the version store *)
  fs_others : list ((Z -> option page) -> Z -> option page)        (** the other backends *)
}.

Inductive fresult (A : Type) := FOk (a : A) (s : fstate) | FError (e : error).

Definition FM (A : Type) : Type := fstate -> fresult A.

End State.
Arguments fstate V : clear implicits.
Arguments fresult V A : clear implicits.
Arguments FM V A : clear implicits.
Arguments FOk {V A} a s.
Arguments FError {V A} e.

Definition fret {V A} (a : A) : FM V A := fun s => FOk a s.
Definition fbind {V A B} (m : FM V A) (f : A -> FM V B) : FM V B :=
  fun s => match m s with FOk a s' => f a s' | FError e => FError e end.
Definition ffail {V A} (e : error) : FM V A := fun _ => FError e.
Definition flift {V A} (o : option A) : FM V A := match o with Some a => fret a | None => ffail BadItem end.

Declare Scope fix_scope.
Notation "'let*' x := m 'in' f" := (fbind m (fun x => f)) (at level 60, x pattern, m at level 59, f at level 60, right associativity) : fix_scope.
Notation "'let*_' m 'in' f" := (fbind m (fun _ => f)) (at level 60, m at level 59, f at level 60, right associativity) : fix_scope.
Open Scope fix_scope.

(** A function on buffers, on the pages as they are. *)
Definition in_tree {V A} (m : (Z -> option page) -> M A) : FM V A := fun s =>
  match m (fs_pages s) (fs_bufs s) with
  | Ok a b => FOk a (mk_fs (fs_pages s) b (fs_store s) (fs_others s))
  | Error e => FError e
  end.

(** The other backends have their turn. *)
Definition others_run {V} : FM V unit := fun s =>
  match fs_others s with
  | [] => FOk tt s
  | f :: fs => FOk tt (mk_fs (f (fs_pages s)) (fs_bufs s) (fs_store s) fs)
  end.

Definition write_page {V} (blk : Z) (p : page) : FM V unit := fun s =>
  FOk tt (mk_fs (set_page (fs_pages s) blk p) (fs_bufs s) (fs_store s) (fs_others s)).
Definition update_store {V} (f : V -> V) : FM V unit := fun s =>
  FOk tt (mk_fs (fs_pages s) (fs_bufs s) (f (fs_store s)) (fs_others s)).

Section Fix.
Context (rel : index_rel) (meta : ABTMetaPageData) (ai : agg_info) (agg_map_val : Z).
Context {V : Type} (_abt_add_to_version : V -> Z -> Z -> Z -> V).   (** store, child block, xid, value *)
Context (xmin : Z).                                              (** GetTopTransactionIdIfAny() *)
Context (key : ABTScanInsertData) (dval newitemoff postingoff leaf_blkno : Z).

Definition get_page (buf : Buffer) : FM V page := in_tree (fun pages => BufferGetPage pages buf).
Definition release (buf : Buffer) : FM V unit := in_tree (fun _ => _abt_relbuf buf).
Definition get_buf (blk : Z) : FM V Buffer := let*_ others_run in in_tree (fun pages => _abt_getbuf pages blk).

(** _abt_moveright_and_binsrch: the frame's new contents are returned. *)
Definition _abt_moveright_and_binsrch (fuel : nat) (buf : Buffer) (fr : frame) : FM V (Buffer * frame) :=
  let* buf := in_tree (fun pages => _abt_moveright rel pages fuel key buf) in
  let* p := get_page buf in
  let* off := flift (_abt_binsrch rel key p) in
  let* blk := in_tree (fun _ => BufferGetBlockNumber buf) in
  fret (buf, mk_frame blk off (abtpo_last_update_id (pg_opaque p)) (sf_tuple_last_update_id fr) (sf_level fr)).

(** Where the function continues: at a label, with the values of buf, cbuf, blkno and
    opaque that are still used there. *)
Inductive label :=
  | StartFromRoot
  | LoopTop (buf : Buffer)
  | FirstDescent (buf : Buffer) (blkno : Z) (opaque : ABTPageOpaqueData)
  | DoCurrentUpdate (buf cbuf : Buffer).

(** The leaf page: store the transaction id. *)
Definition fix_leaf (buf : Buffer) (blkno : Z) (p : page) : FM V unit :=
  let* found := flift (find_inserted rel key p blkno newitemoff postingoff leaf_blkno) in
  match found with
  | None => ffail ElogError
  | Some (off, j) =>
      let*_ write_page blkno (set_line p off (write_xmin xmin j)) in
      release buf
  end.

(** The frame for a page of the given level.  A new frame on an empty stack has no parent. *)
Definition frame_for (blkno : Z) (o : ABTPageOpaqueData) (above below : list frame) : list frame * list frame :=
  let fresh := mk_frame blkno InvalidOffsetNumber Insert.Insert.ABT_INVALID_LAST_UPDATE_ID None (abtpo_level o) in
  match below with
  | [] => ([], [fresh])
  | fr :: _ => if sf_level fr =? abtpo_level o then (above, below) else (above, fresh :: below)
  end.

(** Leave the inner loop for the update, or for another descent from the current page. *)
Definition leave (buf cbuf : Buffer) (blkno : Z) (o : ABTPageOpaqueData) : label :=
  match cbuf with Some _ => DoCurrentUpdate buf cbuf | None => FirstDescent buf blkno o end.

Definition release_valid (buf : Buffer) : FM V unit := match buf with Some _ => release buf | None => fret tt end.

(** The inner loop: climb until an ancestor's aggregate is as this function left it. *)
Fixpoint climb (fuel : nat) (above : list frame) (fr : frame) (below : list frame) (buf cbuf : Buffer) (blkno : Z) (o : ABTPageOpaqueData)
  : FM V (label * list frame * list frame) :=
  match above with
  | [] =>
      if ABT_P_LEFTMOST o && ABT_P_RIGHTMOST o then fret (leave buf cbuf blkno o, [], fr :: below)
      else
        let*_ release_valid cbuf in
        let*_ release buf in
        fret (StartFromRoot, [], fr :: below)
  | pfr :: above =>
      let pblkno := sf_blkno pfr in
      let* pbuf := get_buf pblkno in
      let* pp := get_page pbuf in
      if sf_last_update_id pfr =? abtpo_last_update_id (pg_opaque pp) then
        let*_ release pbuf in
        fret (leave buf cbuf blkno o, pfr :: above, fr :: below)
      else
        let* (pbuf, pfr) := _abt_moveright_and_binsrch fuel pbuf pfr in
        let* pp := get_page pbuf in
        let* itup := flift (PageGetItem pp (sf_offset pfr)) in
        let* pv := flift (match itup with PivotTup pv => Some pv | LeafTup _ => None end) in
        let* saved := flift (sf_tuple_last_update_id pfr) in
        if (blkno =? sf_blkno fr) && (pv_last_update_id pv =? saved) then
          let*_ release pbuf in
          fret (leave buf cbuf blkno o, pfr :: above, fr :: below)
        else
          let*_ release_valid cbuf in
          climb fuel above pfr (fr :: below) pbuf buf pblkno o
  end.

(** The current page has changed between the two locks on it. *)
Definition recheck (fuel : nat) (above : list frame) (fr : frame) (below : list frame) (buf cbuf : Buffer) (blkno : Z) (p : page)
  : FM V (label * list frame * list frame) :=
  let* cblkno := in_tree (fun _ => BufferGetBlockNumber cbuf) in
  let* cp := get_page cbuf in
  let co := pg_opaque cp in
  let* wrong := (if negb (ABT_P_RIGHTMOST co) then
                   if ABT_P_IGNORE co then fret true
                   else let* r := flift (_abt_compare (rd_natts rel) key cp ABTP_HIKEY) in fret (0 <? r)
                 else fret false) in
  let* cbuf := (if wrong : bool then let*_ release cbuf in fret InvalidBuffer else fret cbuf) in
  let* off := (match cbuf with Some _ => flift (_abt_try_find_downlink p (sf_offset fr) cblkno) | None => fret InvalidOffsetNumber end) in
  let* (buf, cbuf, fr) :=
    (if negb (off =? InvalidOffsetNumber) then
       fret (buf, cbuf, mk_frame (sf_blkno fr) off (abtpo_last_update_id (pg_opaque p)) (sf_tuple_last_update_id fr) (sf_level fr))
     else
       let* (buf, fr) := _abt_moveright_and_binsrch fuel buf fr in
       if negb (sf_blkno fr =? blkno) then let*_ release_valid cbuf in fret (buf, InvalidBuffer, fr)
       else fret (buf, cbuf, fr)) in
  climb fuel above fr below buf cbuf blkno (pg_opaque p).

(** From first_descent to the second lock on the current page. *)
Definition first_descent (fuel : nat) (above : list frame) (fr : frame) (below : list frame) (buf : Buffer) (blkno : Z) (o : ABTPageOpaqueData)
  : FM V (label * list frame * list frame) :=
  let* (buf, fr) :=
    (if (sf_blkno fr =? blkno) && (sf_last_update_id fr =? abtpo_last_update_id o) && negb (sf_offset fr =? InvalidOffsetNumber)
     then fret (buf, fr)
     else _abt_moveright_and_binsrch fuel buf fr) in
  let blkno := sf_blkno fr in
  let* p := get_page buf in
  let* itup := flift (PageGetItem p (sf_offset fr)) in
  let* cblkno := flift (ABTreeTupleGetDownLink itup) in
  let*_ release buf in
  let* cbuf := get_buf cblkno in
  let* buf := get_buf blkno in
  let* p := get_page buf in
  if negb (sf_last_update_id fr =? abtpo_last_update_id (pg_opaque p)) then recheck fuel above fr below buf cbuf blkno p
  else fret (DoCurrentUpdate buf cbuf, above, fr :: below).

Definition do_current_update (above : list frame) (fr : frame) (below : list frame) (buf cbuf : Buffer)
  : FM V (label * list frame * list frame) :=
  let* p := get_page buf in
  let* blk := in_tree (fun _ => BufferGetBlockNumber buf) in
  let* itup := flift (PageGetItem p (sf_offset fr)) in
  let* pv := flift (match itup with PivotTup pv => Some pv | LeafTup _ => None end) in
  let fr := mk_frame (sf_blkno fr) (sf_offset fr) (sf_last_update_id fr) (Some (pv_last_update_id pv)) (sf_level fr) in
  let*_ write_page blk (set_line p (sf_offset fr) (add_to_agg (agg_typlen ai) dval)) in
  let*_ update_store (fun v => _abt_add_to_version v (pv_downlink pv) xmin dval) in
  let*_ release buf in
  fret (LoopTop cbuf, fr :: above, below).

Fixpoint fix_loop (fuel : nat) (pc : label) (above below : list frame) : FM V unit :=
  match fuel with
  | O => ffail OutOfFuel
  | S fuel =>
      let continue_at '(pc, above, below) := fix_loop fuel pc above below in
      match pc with
      | StartFromRoot =>
          let*_ others_run in
          let* buf := in_tree (fun pages => _abt_getroot meta pages fuel true) in
          fix_loop fuel (LoopTop buf) above below
      | LoopTop buf =>
          let* blkno := in_tree (fun _ => BufferGetBlockNumber buf) in
          let* p := get_page buf in
          if ABT_P_ISLEAF (pg_opaque p) then fix_leaf buf blkno p
          else
            let '(above, below) := frame_for blkno (pg_opaque p) above below in
            fix_loop fuel (FirstDescent buf blkno (pg_opaque p)) above below
      | FirstDescent buf blkno o =>
          match below with
          | [] => ffail BadItem
          | fr :: below => let* x := first_descent fuel above fr below buf blkno o in continue_at x
          end
      | DoCurrentUpdate buf cbuf =>
          match below with
          | [] => ffail BadItem
          | fr :: below => let* x := do_current_update above fr below buf cbuf in continue_at x
          end
      end
  end.

End Fix.

(** The key searched for from now on, and the value to add. *)
Definition with_scantid (key : ABTScanInsertData) (t : option tid) : ABTScanInsertData :=
  mk_key (heapkeyspace key) (allequalimage key) (anynullkeys key) (nextkey key) (pivotsearch key) t (keysz key) (scankeys key).

Definition inserted_value (ai : agg_info) (agg_map_val : Z) (t : itup) : option Z :=
  if leaf_has_agg ai then head (it_aggs t) else Some agg_map_val.

Definition _abt_fix_path_aggregation_itup (rel : index_rel) (meta : ABTMetaPageData) (ai : agg_info) (agg_map_val : Z)
    {V : Type} (_abt_add_to_version : V -> Z -> Z -> Z -> V) (xmin : Z) (fuel : nat)
    (itup_key : ABTScanInsertData) (inserted_itup : itup) (newitemoff postingoff : Z) (stack : list ABTStackData) (leaf_blkno : Z)
  : FM V unit :=
  let* dval := flift (inserted_value ai agg_map_val inserted_itup) in
  fix_loop rel meta ai _abt_add_to_version xmin (with_scantid itup_key (head (it_tids inserted_itup))) dval newitemoff postingoff leaf_blkno
    fuel StartFromRoot [] (_abt_stack_setup_child_link stack).

End FixPath.
