(* ===== verification/PathSums.v ===== *)
(** * Insertion keeps the aggregates of the tree exact

    The specification [add_path] of _abt_fix_path_aggregation_itup, which says what is
    changed on which pages, the proof that the function implements it when no other backend
    interferes, however stale its stack is, and the proof that it keeps the invariant that
    sampling relies on: every pivot has the aggregate and the version chain of the entries
    below it. *)

From stdpp Require Import base numbers option sorting list.
From S2P Require Import Prelude Tuple Dedup Versions VersionStore Page Search Btree Insert Sample Draw FixPath.

Module PathSums.
Import VersionStore Tuple Dedup Versions Page Search Btree Sample Draw FixPath.

(** ** One more entry in a summary *)

Section Summary.
Context (base typlen Recent : Z).
Context (Htyp : typlen = 2 \/ typlen = 4 \/ typlen = 8).

Abbreviation add_version x d chain := (add_delta (agg_width typlen) x (agg_arg typlen d) chain).

Lemma add_delta_keys w x v (Q : version -> Prop) l : (forall y d d', Q (y, d) -> Q (y, d')) -> Q (x, 0) -> Forall Q l ->
  Forall Q (add_delta w x v l).
Proof.
  intros Hq Hx Hl. induction Hl as [|[y d] l Hy Hl IH]; cbn [add_delta].
  - constructor; [by eapply Hq|constructor].
  - destruct (Z.eqb_spec y x); [constructor; [by eapply Hq|done]|]. case_match; [constructor; [by eapply Hq|by constructor]|by constructor].
Qed.

Lemma add_delta_chain_ok w x v l : chain_ok base l -> xid_ok base x -> chain_ok base (add_delta w x v l).
Proof.
  intros [Hx Hd] Hxid. split; [apply add_delta_keys; auto|]. unfold desc in *.
  induction Hd as [|[y d] l Hd IH Hall]; cbn [add_delta]; [by repeat constructor|].
  apply Forall_cons in Hx as [Hy Hx]. destruct (Z.eqb_spec y x) as [->|Hne]; [by constructor|].
  assert (Hpre : NormalTransactionIdPrecedes y x = (age base y <? age base x)) by (by apply precedes_age; [apply Hy|apply Hxid]).
  rewrite Hpre. pose proof (age_inj base y x (proj1 Hy) (proj1 Hxid)) as Hinj. destruct (Z.ltb_spec (age base y) (age base x)).
  - constructor; [by constructor|]. constructor; [done|]. eapply Forall_impl; [exact Hall|]. simpl. lia.
  - constructor; [by apply IH|]. apply add_delta_keys; [done| |done]. simpl. destruct (Z.eq_dec (age base y) (age base x)); [by exfalso; auto|lia].
Qed.

(** An entry that was invalid becomes one of transaction [x]. *)
Lemma summaries_add es1 es2 d x agg chain :
  xid_ok base x -> TransactionIdPrecedes x Recent = false -> 0 <= d -> Forall (fun a => 0 <= snd a) (es1 ++ es2) ->
  sum_if TransactionIdIsValid (es1 ++ es2) + d < 2 ^ (8 * typlen - 1) ->
  summarises base Recent (es1 ++ (InvalidTransactionId, d) :: es2) agg chain ->
  summarises base Recent (es1 ++ (x, d) :: es2) (agg + d) (add_version x d chain).
Proof.
  intros Hx Hsafe Hd Hnn Hb [Ha Hc Hn Hs Hsum]. pose proof (xid_ok_valid base x Hx) as Hv.
  assert (Hold : forall P, sum_if P (es1 ++ (InvalidTransactionId, d) :: es2) = sum_if P (es1 ++ es2) + (if P InvalidTransactionId then d else 0)).
  { intros P. rewrite !sum_if_app. cbn [sum_if]. case_match; lia. }
  assert (Hnew : forall P, sum_if P (es1 ++ (x, d) :: es2) = sum_if P (es1 ++ es2) + (if P x then d else 0)).
  { intros P. rewrite !sum_if_app. cbn [sum_if]. case_match; lia. }
  pose proof (sum_if_nonneg TransactionIdIsValid _ Hnn) as Hpos.
  destruct (agg_arg_small typlen d Htyp) as (-> & Hw & Hle); [lia|].
  assert (Htot : sum_if (fun _ => true) chain + d < 2 ^ agg_width typlen).
  { rewrite Hsum, Hold. change (is_safe Recent InvalidTransactionId) with false. cbn [andb]. rewrite Z.add_0_r.
    enough (sum_if (fun x => is_safe Recent x && true) (es1 ++ es2) <= sum_if TransactionIdIsValid (es1 ++ es2)) by lia.
    apply sum_if_mono; [done|]. intros y. unfold is_safe. by destruct (TransactionIdIsValid y). }
  destruct (add_delta_sum _ x d chain Hw Hn Hd Htot) as [Hn' Hsum']. split.
  - rewrite Ha, Hold, Hnew, Hv. change (TransactionIdIsValid InvalidTransactionId) with false. cbv iota. lia.
  - by apply add_delta_chain_ok.
  - done.
  - by apply add_delta_keys.
  - intros P. rewrite Hsum', Hsum, Hold, Hnew. change (is_safe Recent InvalidTransactionId) with false. cbn [andb].
    unfold is_safe at 3. rewrite Hv, Hsafe. cbn [andb negb]. cbv iota. lia.
Qed.

End Summary.

(** ** Finding the new entry on its leaf page *)

Section Leaf.
Context (rel : index_rel) (Hrel : rel_ok rel) (ai : agg_info) (agg_map_val : Z).
Context (key : ABTScanInsertData) (args : list (option Z)) (Hkey : key_ok rel key args) (Hnext : nextkey key = false).
Context (st : tid) (Hst : scantid key = Some st) (d : Z).

(** The new entry is the [j]-th of the tuple at [off], not yet valid, and the only one
    of the page with its TID. *)
Record holds_entry (p : page) (off : Z) (j : nat) (t : itup) : Prop := {
  he_line : PageGetItemId p off = Some (false, LeafTup t);
  he_off : first_off p <= off;
  he_tid : it_tids t !! j = Some st;
  he_key : compare_tuple (rd_natts rel) key (LeafTup t) = Some 0;
  he_xmin : it_xmins t !! j = Some InvalidTransactionId;
  he_value : entry_weight ai agg_map_val (it_aggs t !! j) = d;
  he_posting : if is_posting t then tids_sorted (it_tids t) else j = 0%nat;
  he_leaf : forall off' t', first_off p <= off' -> PageGetItem p off' = Some t' -> exists u, t' = LeafTup u;
  he_unique : forall off' t' j', first_off p <= off' -> PageGetItem p off' = Some (LeafTup t') -> it_tids t' !! j' = Some st ->
    off' = off /\ j' = j;
  he_max : PageGetMaxOffsetNumber p < 2 ^ 15
}.

Context (p : page) (off0 : Z) (j0 : nat) (t0 : itup) (Hp : page_ok rel p) (Hleaf : is_leaf p = true) (Hin : holds_entry p off0 j0 t0).

Lemma tid_matches_eq t : tid_matches key t = true -> t = Some st.
Proof. unfold tid_matches. rewrite Hst. intros H. apply bool_decide_eq_true in H. by destruct H as [_ <-]. Qed.

Lemma tid_matches_st : tid_matches key (Some st) = true.
Proof. unfold tid_matches. rewrite Hst. apply bool_decide_eq_true. by split. Qed.

(** A probe is defined and finds nothing else. *)
Definition finds_only {A} (x : A) (r : option (option A)) : Prop := r = Some None \/ r = Some (Some x).

Lemma probe_tuple_only off t : first_off p <= off -> PageGetItem p off = Some (LeafTup t) -> finds_only (off0, j0) (probe_tuple key p off t).
Proof.
  intros Hoff Ht. pose proof (first_off_range p).
  assert (Hr : 1 <= off <= PageGetMaxOffsetNumber p).
  { split; [lia|]. unfold PageGetItem, PageGetItemId in Ht. rewrite (proj2 (Z.ltb_ge _ _)) in Ht by lia.
    destruct (pg_lines p !! _) eqn:E; [|done]. apply lookup_lt_Some in E. unfold PageGetMaxOffsetNumber. lia. }
  unfold probe_tuple. destruct (is_posting t).
  - destruct (posting_total key p off) as [j ->]; [by rewrite Hst|done|]. cbn [mbind option_bind].
    destruct ((0 <=? j) && (j <? nposting t)) eqn:E; [|by left]. cbn [andb].
    destruct (tid_matches key (it_tids t !! Z.to_nat j)) eqn:Em; [|by left]. apply tid_matches_eq in Em.
    destruct (he_unique _ _ _ _ Hin off t _ Hoff Ht Em) as [-> ->]. by right.
  - destruct (tid_matches key (head (it_tids t))) eqn:Em; [|by left]. apply tid_matches_eq in Em. rewrite head_lookup in Em.
    destruct (he_unique _ _ _ _ Hin off t _ Hoff Ht Em) as [-> Hj]. rewrite <- Hj. by right.
Qed.

Lemma item_range off t : first_off p <= off -> PageGetItem p off = Some t -> 1 <= off <= PageGetMaxOffsetNumber p.
Proof.
  intros Hoff Ht. pose proof (first_off_range p). split; [lia|]. unfold PageGetItem, PageGetItemId in Ht.
  rewrite (proj2 (Z.ltb_ge _ _)) in Ht by lia. destruct (pg_lines p !! _) eqn:E; [|done]. apply lookup_lt_Some in E.
  unfold PageGetMaxOffsetNumber. lia.
Qed.

Lemma leaf_at off : first_off p <= off <= PageGetMaxOffsetNumber p -> exists t, PageGetItem p off = Some (LeafTup t).
Proof.
  intros Hoff. pose proof (first_off_range p). destruct (item_in_range p off) as [t Ht]; [lia|].
  destruct (he_leaf _ _ _ _ Hin off t) as [u ->]; [lia|done|]. by exists u.
Qed.

Lemma probe_leaf_only off : first_off p <= off <= PageGetMaxOffsetNumber p -> finds_only (off0, j0) (probe_leaf key p off).
Proof.
  intros Hoff. destruct (leaf_at off Hoff) as [t Ht]. unfold probe_leaf. rewrite Ht. cbn [mbind option_bind].
  apply probe_tuple_only; [lia|done].
Qed.

Lemma probe_near_only newitemoff postingoff off : first_off p <= off <= PageGetMaxOffsetNumber p ->
  finds_only (off0, j0) (probe_near key p newitemoff postingoff off).
Proof.
  intros Hoff. destruct (leaf_at off Hoff) as [t Ht]. unfold probe_near. rewrite Ht. cbn [mbind option_bind].
  match goal with |- context [if ?b then _ else _] => destruct b eqn:E end; [|apply probe_tuple_only; [lia|done]].
  apply andb_true_iff in E as [_ Em%tid_matches_eq]. destruct (he_unique _ _ _ _ Hin off t _ ltac:(lia) Ht Em) as [-> ->]. by right.
Qed.

Lemma around_only {A} (x : A) n i low high minoff maxoff probe : 0 <= minoff -> maxoff < 2 ^ 15 ->
  minoff <= high -> high + Z.of_nat n < 2 ^ 16 ->
  (forall off, minoff <= off <= maxoff -> finds_only x (probe off)) -> finds_only x (around n i low high minoff maxoff probe).
Proof.
  intros Hm HM Hh Hn Hprobe. revert i low high Hh Hn. induction n as [|n IH]; intros i low high Hh Hn; [by left|]. cbn [around].
  assert (Hu : u16 (high + 1) = high + 1) by (unfold u16; rewrite Z.mod_small; lia).
  destruct (Z.land i 1 =? 0).
  - destruct (Z.ltb_spec low minoff); [apply IH; lia|]. destruct (Z.ltb_spec maxoff low); [apply IH; lia|].
    destruct (Hprobe low) as [-> | ->]; [lia| |]; cbn [mbind option_bind]; [apply IH; lia|by right].
  - destruct (Z.ltb_spec maxoff high); [apply IH; lia|].
    destruct (Hprobe high) as [-> | ->]; [lia| |]; cbn [mbind option_bind]; [apply IH; lia|by right].
Qed.

Lemma probe_leaf_found : probe_leaf key p off0 = Some (Some (off0, j0)).
Proof.
  unfold probe_leaf, PageGetItem. rewrite (he_line _ _ _ _ Hin). cbn [fmap option_fmap option_map snd mbind option_bind]. unfold probe_tuple.
  pose proof (he_posting _ _ _ _ Hin) as Hpost. pose proof (he_tid _ _ _ _ Hin) as Htid. destruct (is_posting t0) eqn:Ep.
  - destruct (binsrch_posting_position key p off0 t0 st (he_line _ _ _ _ Hin) Ep Hst Hpost) as (i & -> & Hi & Hlt & Hge). cbn [mbind option_bind].
    pose proof (ItemPointerCompare_sym st st) as Hs. assert (Hj : i = Z.of_nat j0).
    { destruct (Z.lt_trichotomy i (Z.of_nat j0)) as [Hlt'|[->|Hgt]]; [|done|]; [|specialize (Hlt j0 st Hgt Htid); lia].
      exfalso. destruct (lookup_lt_is_Some_2 (it_tids t0) (Z.to_nat i)) as [x Hx]; [apply lookup_lt_Some in Htid; lia|].
      pose proof (Hpost (Z.to_nat i) j0 x st ltac:(lia) Hx Htid). pose proof (Hge (Z.to_nat i) x ltac:(lia) Hx).
      pose proof (ItemPointerCompare_sym st x). pose proof (ItemPointerCompare_sym x st). lia. }
    apply lookup_lt_Some in Htid as Hlen. unfold nposting. rewrite (proj2 (Z.leb_le _ _)), (proj2 (Z.ltb_lt _ _)) by lia. cbn [andb].
    rewrite Hj, Nat2Z.id, Htid, tid_matches_st. done.
  - rewrite head_lookup. rewrite Hpost in *. by rewrite Htid, tid_matches_st.
Qed.

Lemma probe_from_found n off : first_off p <= off <= off0 -> off0 - off < Z.of_nat n -> probe_from n key p off = Some (Some (off0, j0)).
Proof.
  assert (Hitem : PageGetItem p off0 = Some (LeafTup t0)) by (unfold PageGetItem; by rewrite (he_line _ _ _ _ Hin)).
  pose proof (item_range off0 _ (he_off _ _ _ _ Hin) Hitem) as Hr. pose proof (he_max _ _ _ _ Hin) as Hmax.
  revert off. induction n as [|n IH]; intros off Hoff Hn; [lia|]. cbn [probe_from]. rewrite (proj2 (Z.leb_le _ _)) by lia.
  destruct (Z.eq_dec off off0) as [->|Hne]; [by rewrite probe_leaf_found|].
  destruct (probe_leaf_only off) as [-> | ->]; [lia| |done]. cbn [mbind option_bind]. unfold u16. pose proof (first_off_range p).
  rewrite Z.mod_small by lia. apply IH; lia.
Qed.

(** Wherever the search starts, it finds the new entry. *)
Lemma find_inserted_found blkno newitemoff postingoff leaf_blkno : 1 <= newitemoff ->
  find_inserted rel key p blkno newitemoff postingoff leaf_blkno = Some (Some (off0, j0)).
Proof.
  intros Hnew. pose proof (he_max _ _ _ _ Hin) as Hmax. pose proof (first_off_range p) as Hf. unfold find_inserted.
  assert (Hnear : finds_only (off0, j0) (if leaf_blkno =? blkno then search_around p newitemoff (probe_near key p newitemoff postingoff) else Some None)).
  { destruct (leaf_blkno =? blkno); [|by left]. unfold search_around. destruct (Z.leb_spec newitemoff (PageGetMaxOffsetNumber p + 10)); [|by left].
    fold (first_off p). unfold u16 at 1. rewrite Z.mod_small by lia. apply around_only; [lia|done|lia|lia|apply probe_near_only]. }
  destruct Hnear as [-> | ->]; [|done]. cbn [mbind option_bind].
  assert (Hitem : PageGetItem p off0 = Some (LeafTup t0)) by (unfold PageGetItem; by rewrite (he_line _ _ _ _ Hin)).
  pose proof (item_range off0 _ (he_off _ _ _ _ Hin) Hitem) as Hr. pose proof (he_off _ _ _ _ Hin) as Hoff.
  destruct (page_splits rel Hrel p key args Hp Hkey) as [r Hs]. rewrite (binsrch_splits rel p key r Hp Hs), Hleaf. cbn [mbind option_bind].
  destruct Hs as (Hr1 & Hright & _). apply probe_from_found.
  - split; [lia|]. destruct (Z.le_gt_cases r off0) as [|Hgt]; [done|]. exfalso. specialize (Hright off0 ltac:(lia)).
    unfold goes_right, _abt_compare in Hright. fold (is_leaf p) in Hright. rewrite Hleaf in Hright. cbn [negb andb] in Hright.
    rewrite Hitem in Hright. cbn [mbind option_bind] in Hright. rewrite (he_key _ _ _ _ Hin) in Hright. cbn [mbind option_bind] in Hright.
    unfold cmpval in Hright. by rewrite Hnext in Hright.
  - unfold PageGetMaxOffsetNumber in Hr. lia.
Qed.

End Leaf.

(** ** Trees and the path of a key *)

Section Shape.
Context (rel : index_rel) (ai : agg_info).

(** A leaf tuple has one xmin, and one aggregate if the leaves have them, per TID. *)
Definition leaf_tuple_ok (t : index_tuple) : Prop :=
  match t with
  | LeafTup t =>
      length (it_tids t) = length (it_xmins t) /\ (leaf_has_agg ai = true -> length (it_aggs t) = length (it_xmins t)) /\
      (is_posting t = false -> length (it_xmins t) = 1%nat)
  | PivotTup _ => False
  end.

(** The page [blk] of level [k], live and with the high key [hk]: leaf tuples are complete,
    every pivot satisfies [A] and leads to such a page. *)
Fixpoint shape (A : nat -> pivot -> Prop) (pages : Z -> option page) (k : nat) (blk : Z) (hk : option index_tuple) : Prop :=
  exists p, pages blk = Some p /\ ABT_P_IGNORE (pg_opaque p) = false /\ is_leaf p = (k =? 0)%nat /\
    abtpo_level (pg_opaque p) = Z.of_nat k /\ hikey_matches rel p hk /\ page_ok rel p /\
    match k with
    | O => forall off t, first_off p <= off -> PageGetItem p off = Some t -> leaf_tuple_ok t
    | S k => forall off, first_off p <= off <= PageGetMaxOffsetNumber p ->
        exists pv hk', PageGetItem p off = Some (PivotTup pv) /\ A k pv /\ expected_hikey p off = Some hk' /\
          shape A pages k (pv_downlink pv) hk'
    end.

Lemma shape_page A pages k blk hk : shape A pages k blk hk ->
  exists p, pages blk = Some p /\ ABT_P_IGNORE (pg_opaque p) = false /\ abtpo_level (pg_opaque p) = Z.of_nat k /\ hikey_matches rel p hk /\ page_ok rel p.
Proof. destruct k; intros (p & ? & ? & _ & ? & ? & ? & _); exists p; auto. Qed.

(** All pages below [blk], itself included. *)
Fixpoint tree_blocks (pages : Z -> option page) (k : nat) (blk : Z) : list Z :=
  blk :: match k, pages blk with
         | S k, Some p => data_items p ≫= fun it => match snd it with PivotTup pv => tree_blocks pages k (pv_downlink pv) | LeafTup _ => [] end
         | _, _ => []
         end.

Lemma data_item p off t : first_off p <= off <= PageGetMaxOffsetNumber p -> PageGetItem p off = Some t -> (off, t) ∈ data_items p.
Proof.
  intros Hoff Ht. pose proof (first_off_range p). unfold data_items. fold (first_off p).
  destruct (page_items p (first_off p) (PageGetMaxOffsetNumber p)) as [items|] eqn:E.
  - cbn [default]. by apply (elem_of_page_items p _ _ items off t E).
  - exfalso. unfold page_items in E. apply mapM_None in E. apply Exists_exists in E as (o & Ho & E).
    apply elem_of_seqZ in Ho. destruct (item_in_range p o) as [u Hu]; [lia|]. by rewrite Hu in E.
Qed.

Lemma data_item_inv p off t : (off, t) ∈ data_items p -> first_off p <= off <= PageGetMaxOffsetNumber p /\ PageGetItem p off = Some t.
Proof.
  unfold data_items. fold (first_off p). destruct (page_items p (first_off p) (PageGetMaxOffsetNumber p)) as [items|] eqn:E; [|by intros ?%elem_of_nil].
  cbn [default]. by apply (elem_of_page_items p _ _ items off t E).
Qed.

Lemma child_blocks pages k blk p off pv b : pages blk = Some p -> first_off p <= off <= PageGetMaxOffsetNumber p ->
  PageGetItem p off = Some (PivotTup pv) -> b ∈ tree_blocks pages k (pv_downlink pv) -> b ∈ tree_blocks pages (S k) blk.
Proof.
  intros Hp Hoff Hpv Hb. cbn [tree_blocks]. rewrite Hp. right. apply list_elem_of_bind. exists (off, PivotTup pv). split; [done|].
  by apply data_item.
Qed.

Lemma self_block pages k blk : blk ∈ tree_blocks pages k blk.
Proof. destruct k; by left. Qed.

Lemma child_not_self pages k blk p off pv : NoDup (tree_blocks pages (S k) blk) -> pages blk = Some p ->
  first_off p <= off <= PageGetMaxOffsetNumber p -> PageGetItem p off = Some (PivotTup pv) ->
  blk ∉ tree_blocks pages k (pv_downlink pv) /\ NoDup (tree_blocks pages k (pv_downlink pv)).
Proof.
  intros Hnd Hp Hoff Hpv. cbn [tree_blocks] in Hnd. rewrite Hp in Hnd. apply NoDup_cons in Hnd as [Hni Hnd].
  pose proof (data_item p off _ Hoff Hpv) as Hin. split.
  - intros Hb. apply Hni. apply list_elem_of_bind. by exists (off, PivotTup pv).
  - apply list_elem_of_split in Hin as (l1 & l2 & Hl). rewrite Hl, bind_app, bind_cons in Hnd.
    apply NoDup_app in Hnd as (_ & _ & Hnd). by apply NoDup_app in Hnd as (Hnd & _ & _).
Qed.

Lemma bind_ext_in {A B} (f g : A -> list B) l : (forall x, x ∈ l -> f x = g x) -> l ≫= f = l ≫= g.
Proof.
  induction l as [|x l IH]; intros H; [done|]. rewrite !bind_cons. f_equal; [apply H; by left|]. apply IH. intros y Hy. apply H. by right.
Qed.

(** Pages outside a subtree do not matter for it. *)
Lemma blocks_agree pages pages' k blk : (forall b, b ∈ tree_blocks pages k blk -> pages' b = pages b) ->
  tree_blocks pages' k blk = tree_blocks pages k blk.
Proof.
  revert blk. induction k as [|k IH]; intros blk Hag; [done|]. cbn [tree_blocks]. rewrite (Hag blk) by apply self_block.
  destruct (pages blk) as [p|] eqn:Hp; [|done]. f_equal. apply bind_ext_in. intros [off [t|pv]] Hin; [done|].
  cbn [snd]. apply data_item_inv in Hin as [Hoff Hpv]. apply IH. intros b Hb. apply Hag. by eapply child_blocks.
Qed.

Lemma shape_agree A pages pages' k blk hk : (forall b, b ∈ tree_blocks pages k blk -> pages' b = pages b) ->
  shape A pages k blk hk -> shape A pages' k blk hk.
Proof.
  revert blk hk. induction k as [|k IH]; intros blk hk Hag (p & Hp & Hig & Hl & Hlv & Hh & Hok & Hrest); exists p;
    rewrite (Hag blk) by apply self_block; split_and!; try done.
  intros off Hoff. destruct (Hrest off Hoff) as (pv & hk' & Hpv & HA & Hx & Hsh). exists pv, hk'. split_and!; try done.
  apply IH; [|done]. intros b Hb. apply Hag. by eapply child_blocks.
Qed.

End Shape.

(** ** The specification: what changes along the path *)

Section Path.
Context (rel : index_rel) (Hrel : rel_ok rel) (meta : ABTMetaPageData) (ai : agg_info) (agg_map_val : Z).
Context {V : Type} (_abt_add_to_version : V -> Z -> Z -> Z -> V) (xmin : Z).
Context (key : ABTScanInsertData) (d : Z).

Definition pivot_at (p : page) (off : Z) : option pivot :=
  match PageGetItem p off with Some (PivotTup pv) => Some pv | _ => None end.

(** The value is added to the pivots the key leads through and to the versions of their
    children; the [j]-th entry of the tuple at [off] of the leaf page gets its xmin. *)
Fixpoint add_path (off : Z) (j : nat) (k : nat) (blk : Z) (pages : Z -> option page) (v : V) : option ((Z -> option page) * V) :=
  p ← pages blk;
  match k with
  | O => Some (set_page pages blk (set_line p off (write_xmin xmin j)), v)
  | S k =>
      o ← _abt_binsrch rel key p;
      pv ← pivot_at p o;
      add_path off j k (pv_downlink pv) (set_page pages blk (set_line p o (add_to_agg (agg_typlen ai) d)))
        (_abt_add_to_version v (pv_downlink pv) xmin d)
  end.

Fixpoint path_leaf (pages : Z -> option page) (k : nat) (blk : Z) : option Z :=
  match k with
  | O => Some blk
  | S k => p ← pages blk; o ← _abt_binsrch rel key p; pv ← pivot_at p o; path_leaf pages k (pv_downlink pv)
  end.

(** The key does not go right of the high key [hk]. *)
Definition key_within (hk : option index_tuple) : Prop :=
  match hk with None => True | Some t => exists r, compare_tuple (rd_natts rel) key t = Some r /\ r <= 0 end.

Context (args : list (option Z)) (Hkey : key_ok rel key args) (Hnext : nextkey key = false).

Lemma hikey_within p hk : hikey_matches rel p hk -> key_within hk ->
  if ABT_P_RIGHTMOST (pg_opaque p) then hk = None
  else exists t r, PageGetItem p ABTP_HIKEY = Some t /\ compare_tuple (rd_natts rel) key t = Some r /\ r <= 0.
Proof.
  destruct hk as [t|]; cbn [hikey_matches key_within].
  - intros (-> & _ & t' & Ht' & Hsame) (r & Hr & Hle). exists t', r. by rewrite <- (compare_same_fence rel key t t' Hsame).
  - by intros -> _.
Qed.

Lemma moveright_stays fuel b p hk pages h c : pages b = Some p -> ABT_P_IGNORE (pg_opaque p) = false -> hikey_matches rel p hk -> key_within hk ->
  _abt_moveright rel pages (S fuel) key (Some b) (mk_bs (b :: h) c) = Ok (Some b) (mk_bs (b :: h) c).
Proof.
  intros Hp Hig Hh Hw. pose proof (hikey_within p hk Hh Hw) as H. cbn [_abt_moveright]. run_step. cbv zeta. rewrite Hig.
  destruct (ABT_P_RIGHTMOST (pg_opaque p)) eqn:Er; [done|]. destruct H as (t & r & Ht & Hr & Hle).
  erewrite bind_ok; [|rewrite (Btree.compare_hikey rel key p Er); unfold hikey; rewrite Er, Ht; cbn [mbind option_bind]; by rewrite Hr].
  unfold cmpval. rewrite Hnext, (proj2 (Z.leb_gt _ _)) by lia. done.
Qed.

(** The child the binary search leads to, and the bound on its keys. *)
Lemma search_child A pages k blk hk p : shape rel ai A pages (S k) blk hk -> pages blk = Some p -> key_within hk ->
  exists o pv hk', _abt_binsrch rel key p = Some o /\ first_off p <= o <= PageGetMaxOffsetNumber p /\ PageGetItem p o = Some (PivotTup pv) /\
    A k pv /\ expected_hikey p o = Some hk' /\ key_within hk' /\ shape rel ai A pages k (pv_downlink pv) hk'.
Proof.
  intros (p' & Hp' & Hig & Hl & Hlv & Hh & Hok & Hrest) Hp Hw. assert (p' = p) as -> by congruence.
  destruct (page_splits rel Hrel p key args Hok Hkey) as [r Hs]. pose proof (internal_split rel p key r Hok Hs Hl) as Hr.
  destruct (Hrest (r - 1) Hr) as (pv & hk' & Hpv & HA & Hx & Hsh). exists (r - 1), pv, hk'.
  rewrite (binsrch_splits rel p key r Hok Hs), Hl, (proj2 (Z.ltb_ge _ _)) by lia. split_and!; try done; try lia.
  unfold expected_hikey in Hx. pose proof (first_off_range p). destruct (Z.eqb_spec (r - 1) (PageGetMaxOffsetNumber p)) as [|Hne].
  - pose proof (hikey_within p hk Hh Hw) as H1. destruct (ABT_P_RIGHTMOST (pg_opaque p)); [by injection Hx as <-|].
    destruct H1 as (t & r' & Ht & Hr' & Hle). rewrite Ht in Hx. injection Hx as <-. by exists r'.
  - replace (r - 1 + 1) with r in Hx by lia. destruct Hs as (_ & _ & Hf). specialize (Hf r ltac:(lia)).
    unfold goes_right, _abt_compare in Hf. fold (is_leaf p) (first_off p) in Hf. rewrite Hl, (proj2 (Z.eqb_neq r _)) in Hf by lia. cbn [negb andb] in Hf.
    destruct (PageGetItem p r) as [t|]; [|done]. cbn [fmap option_fmap option_map] in Hx. injection Hx as <-. cbn [mbind option_bind] in Hf.
    destruct (compare_tuple (rd_natts rel) key t) as [r'|] eqn:Er; [|done]. exists r'. split; [done|]. cbn [mbind option_bind] in Hf.
    unfold cmpval in Hf. rewrite Hnext in Hf. injection Hf as Hf. zbool. lia.
Qed.

(** *** Running the function *)

Lemma fbind_ok {A B} (m : FM V A) (f : A -> FM V B) s a s' : m s = FOk a s' -> fbind m f s = f a s'.
Proof. unfold fbind. by intros ->. Qed.

Lemma get_page_at b p pages l c (v : V) : b ∈ l -> pages b = Some p ->
  get_page (Some b) (mk_fs pages (mk_bs l c) v []) = FOk p (mk_fs pages (mk_bs l c) v []).
Proof. intros Hb Hp. unfold get_page, in_tree, BufferGetPage. cbn [fs_pages fs_bufs held]. by rewrite bool_decide_true, Hp. Qed.

Lemma get_buf_at b p pages l c (v : V) : pages b = Some p ->
  get_buf b (mk_fs pages (mk_bs l c) v []) = FOk (Some b) (mk_fs pages (mk_bs (b :: l) c) v []).
Proof. intros Hp. unfold get_buf, fbind, others_run, in_tree, _abt_getbuf. cbn [fs_pages fs_others fs_bufs fs_store held rd_amcache]. by rewrite Hp. Qed.

Lemma release_at b pages l c (v : V) : release (Some b) (mk_fs pages (mk_bs (b :: l) c) v []) = FOk tt (mk_fs pages (mk_bs l c) v []).
Proof. unfold release, in_tree. cbn [fs_pages fs_bufs fs_store fs_others]. by rewrite relbuf_run. Qed.

Lemma blockno_at b s : in_tree (V:=V) (fun _ => BufferGetBlockNumber (Some b)) s = FOk b s.
Proof. by destruct s. Qed.

Lemma flift_some {A} (o : option A) a (s : fstate V) : o = Some a -> flift o s = FOk a s.
Proof. by intros ->. Qed.

(** What the cached offset of a frame is worth: if its page is on the path and has not
    changed since, it is the offset the binary search finds. *)
Definition frame_ok (pages : Z -> option page) (blks : list Z) (fr : frame) : Prop :=
  forall p, sf_blkno fr ∈ blks -> pages (sf_blkno fr) = Some p -> sf_last_update_id fr = abtpo_last_update_id (pg_opaque p) ->
    sf_offset fr <> InvalidOffsetNumber -> _abt_binsrch rel key p = Some (sf_offset fr).

(** The frames of the levels [m], .., 1. *)
Fixpoint levels_down (m : nat) (frs : list frame) : Prop :=
  match m, frs with
  | O, [] => True
  | S m', fr :: frs => sf_level fr = Z.of_nat m /\ levels_down m' frs
  | _, _ => False
  end.

Lemma moveright_binsrch_at fuel b p hk fr pages h c (v : V) o : pages b = Some p -> ABT_P_IGNORE (pg_opaque p) = false -> hikey_matches rel p hk -> key_within hk ->
  _abt_binsrch rel key p = Some o ->
  _abt_moveright_and_binsrch rel key (S fuel) (Some b) fr (mk_fs pages (mk_bs (b :: h) c) v []) =
    FOk (Some b, mk_frame b o (abtpo_last_update_id (pg_opaque p)) (sf_tuple_last_update_id fr) (sf_level fr)) (mk_fs pages (mk_bs (b :: h) c) v []).
Proof.
  intros Hp Hig Hh Hw Ho. unfold _abt_moveright_and_binsrch.
  rewrite (fbind_ok _ _ _ (Some b) (mk_fs pages (mk_bs (b :: h) c) v [])).
  2: { unfold in_tree. cbn [fs_pages fs_bufs fs_store fs_others]. by rewrite (moveright_stays fuel b p hk pages h c Hp Hig Hh Hw). }
  rewrite (fbind_ok _ _ _ _ _ (get_page_at b p pages (b :: h) c v ltac:(by left) Hp)).
  rewrite (fbind_ok _ _ _ _ _ (flift_some _ _ _ Ho)). by rewrite (fbind_ok _ _ _ _ _ (blockno_at b _)).
Qed.

(** One level: from the page to its child, with the value added. *)
Lemma level_run A pages k blk hk p o pv above fr below fuel h c v pc newitemoff postingoff leaf_blkno :
  shape rel ai A pages (S k) blk hk -> key_within hk -> pages blk = Some p -> _abt_binsrch rel key p = Some o ->
  PageGetItem p o = Some (PivotTup pv) -> pages (pv_downlink pv) = Some pc ->
  (sf_blkno fr = blk -> sf_last_update_id fr = abtpo_last_update_id (pg_opaque p) -> sf_offset fr <> InvalidOffsetNumber -> sf_offset fr = o) ->
  exists fr', fix_loop rel meta ai _abt_add_to_version xmin key d newitemoff postingoff leaf_blkno (S (S (S fuel)))
      (FirstDescent (Some blk) blk (pg_opaque p)) above (fr :: below) (mk_fs pages (mk_bs (blk :: h) c) v []) =
    fix_loop rel meta ai _abt_add_to_version xmin key d newitemoff postingoff leaf_blkno (S fuel) (LoopTop (Some (pv_downlink pv))) (fr' :: above) below
      (mk_fs (set_page pages blk (set_line p o (add_to_agg (agg_typlen ai) d))) (mk_bs (pv_downlink pv :: h) c)
        (_abt_add_to_version v (pv_downlink pv) xmin d) []).
Proof.
  intros (p' & Hp' & Hig & Hl & Hlv & Hh & Hok & _) Hw Hp Ho Hpv Hpc Hfr. assert (p' = p) as -> by congruence.
  set (s0 := mk_fs pages (mk_bs (blk :: h) c) v []).
  assert (Hfirst : exists fr', sf_offset fr' = o /\ first_descent rel key (S (S fuel)) above fr below (Some blk) blk (pg_opaque p) s0 =
    FOk (DoCurrentUpdate (Some blk) (Some (pv_downlink pv)), above, fr' :: below) (mk_fs pages (mk_bs (blk :: pv_downlink pv :: h) c) v [])).
  { assert (Hfr' : exists fr', sf_offset fr' = o /\ sf_blkno fr' = blk /\ sf_last_update_id fr' = abtpo_last_update_id (pg_opaque p) /\
      (if (sf_blkno fr =? blk) && (sf_last_update_id fr =? abtpo_last_update_id (pg_opaque p)) && negb (sf_offset fr =? InvalidOffsetNumber)
       then fret (Some blk, fr) else _abt_moveright_and_binsrch rel key (S (S fuel)) (Some blk) fr) s0 = FOk (Some blk, fr') s0).
    { match goal with |- context [if ?b then _ else _] => destruct b eqn:E end.
      - zbool. exists fr. split_and!; try done. by apply Hfr.
      - eexists. split_and!; [..|by eapply moveright_binsrch_at]; done. }
    destruct Hfr' as (fr' & Hoff & Hblk & Hid & Hrun). exists fr'. split; [done|]. unfold first_descent.
    rewrite (fbind_ok _ _ _ _ _ Hrun). unfold s0. cbv beta iota zeta.
    rewrite (fbind_ok _ _ _ _ _ (get_page_at blk p pages (blk :: h) c v ltac:(by left) Hp)), Hoff, (fbind_ok _ _ _ _ _ (flift_some _ _ _ Hpv)).
    rewrite (fbind_ok _ _ _ (pv_downlink pv) s0) by done. unfold s0. rewrite (fbind_ok _ _ _ _ _ (release_at blk pages h c v)).
    rewrite (fbind_ok _ _ _ _ _ (get_buf_at _ pc pages h c v Hpc)), Hblk, (fbind_ok _ _ _ _ _ (get_buf_at blk p pages _ c v Hp)).
    rewrite (fbind_ok _ _ _ _ _ (get_page_at blk p pages (blk :: pv_downlink pv :: h) c v ltac:(by left) Hp)), Hid, Z.eqb_refl. done. }
  destruct Hfirst as (fr' & Hoff & Hfirst). cbn [fix_loop]. rewrite (fbind_ok _ _ _ _ _ Hfirst). cbv beta iota.
  eexists. cbn [fix_loop]. unfold do_current_update.
  rewrite (fbind_ok _ _ _ (LoopTop (Some (pv_downlink pv)), mk_frame (sf_blkno fr') (sf_offset fr') (sf_last_update_id fr') (Some (pv_last_update_id pv)) (sf_level fr') :: above, below)
    (mk_fs (set_page pages blk (set_line p o (add_to_agg (agg_typlen ai) d))) (mk_bs (pv_downlink pv :: h) c) (_abt_add_to_version v (pv_downlink pv) xmin d) [])); [done|].
  rewrite (fbind_ok _ _ _ _ _ (get_page_at blk p pages (blk :: pv_downlink pv :: h) c v ltac:(by left) Hp)), (fbind_ok _ _ _ _ _ (blockno_at blk _)), Hoff.
  rewrite (fbind_ok _ _ _ _ _ (flift_some _ _ _ Hpv)). rewrite (fbind_ok _ _ _ pv _ eq_refl). cbn [sf_offset].
  erewrite fbind_ok; [|reflexivity]. erewrite fbind_ok; [|reflexivity]. cbn [fs_pages fs_bufs fs_store fs_others].
  by rewrite (fbind_ok _ _ _ _ _ (release_at blk _ _ c _)).
Qed.

Lemma pivot_at_item p off pv : PageGetItem p off = Some (PivotTup pv) -> pivot_at p off = Some pv.
Proof. unfold pivot_at. by intros ->. Qed.

Lemma path_leaf_agree A pages pages' k blk hk : shape rel ai A pages k blk hk -> key_within hk ->
  (forall b, b ∈ tree_blocks pages k blk -> pages' b = pages b) ->
  path_leaf pages' k blk = path_leaf pages k blk /\ exists lb, path_leaf pages k blk = Some lb /\ lb ∈ tree_blocks pages k blk.
Proof.
  revert blk hk. induction k as [|k IH]; intros blk hk Hsh Hw Hag; cbn [path_leaf].
  - split; [done|]. exists blk. split; [done|]. apply self_block.
  - pose proof Hsh as (p & Hp & _). destruct (search_child A pages k blk hk p Hsh Hp Hw) as (o & pv & hk' & Ho & Hr & Hpv & _ & _ & Hw' & Hsh').
    rewrite (Hag blk), Hp by apply self_block. cbn [mbind option_bind]. rewrite Ho. cbn [mbind option_bind]. rewrite (pivot_at_item p o pv Hpv). cbn [mbind option_bind].
    destruct (IH (pv_downlink pv) hk' Hsh' Hw') as (-> & lb & Hlb & Hin).
    { intros b Hb. apply Hag. by eapply child_blocks. }
    split; [done|]. exists lb. split; [done|]. by eapply child_blocks.
Qed.

Lemma set_page_other pages b p x : x <> b -> set_page pages b p x = pages x.
Proof. intros H. unfold set_page. by rewrite (proj2 (Z.eqb_neq _ _) H). Qed.

Lemma set_page_same pages b p : set_page pages b p b = Some p.
Proof. unfold set_page. by rewrite Z.eqb_refl. Qed.

Section Run.
Context (st : tid) (Hst : scantid key = Some st) (off0 : Z) (j0 : nat) (t0 : itup).
Context (newitemoff postingoff leaf_blkno : Z) (Hnew : 1 <= newitemoff).

Lemma path_run A k pages blk hk above below m fuel h c v :
  shape rel ai A pages k blk hk -> key_within hk -> NoDup (tree_blocks pages k blk) ->
  levels_down m below -> (m <= k)%nat -> Forall (frame_ok pages (tree_blocks pages k blk)) below ->
  (forall lb p, path_leaf pages k blk = Some lb -> pages lb = Some p -> holds_entry rel ai agg_map_val key st d p off0 j0 t0) -> (3 * k <= fuel)%nat ->
  exists pages' v', add_path off0 j0 k blk pages v = Some (pages', v') /\
    fix_loop rel meta ai _abt_add_to_version xmin key d newitemoff postingoff leaf_blkno (S fuel) (LoopTop (Some blk)) above below
      (mk_fs pages (mk_bs (blk :: h) c) v []) = FOk tt (mk_fs pages' (mk_bs h c) v' []).
Proof.
  revert pages blk hk above below m fuel v. induction k as [|k IH]; intros pages blk hk above below m fuel v Hsh Hw Hnd Hlv Hm Hfr Hent Hf.
  - destruct Hsh as (p & Hp & Hig & Hl & Hlvl & Hh & Hok & _). pose proof (Hent blk p eq_refl Hp) as Hin.
    cbn [add_path]. rewrite Hp. eexists _, _. split; [reflexivity|]. cbn [fix_loop]. rewrite (fbind_ok _ _ _ _ _ (blockno_at blk _)).
    rewrite (fbind_ok _ _ _ _ _ (get_page_at blk p pages (blk :: h) c v ltac:(by left) Hp)). fold (is_leaf p). rewrite Hl. cbn [Nat.eqb].
    unfold fix_leaf. rewrite (fbind_ok _ _ _ _ _ (flift_some _ _ _ (find_inserted_found rel Hrel ai agg_map_val key args Hkey Hnext st Hst d p off0 j0 t0 Hok Hl Hin blk newitemoff postingoff leaf_blkno Hnew))).
    cbv beta iota. erewrite fbind_ok; [|reflexivity]. cbn [fs_pages fs_bufs fs_store fs_others]. apply release_at.
  - pose proof Hsh as (p & Hp & Hig & Hl & Hlvl & Hh & Hok & _).
    destruct (search_child A pages k blk hk p Hsh Hp Hw) as (o & pv & hk' & Ho & Hr & Hpv & _ & _ & Hw' & Hsh').
    destruct (child_not_self pages k blk p o pv Hnd Hp Hr Hpv) as [Hni Hnd'].
    set (pages1 := set_page pages blk (set_line p o (add_to_agg (agg_typlen ai) d))).
    assert (Hag : forall b, b ∈ tree_blocks pages k (pv_downlink pv) -> pages1 b = pages b).
    { intros b Hb. apply set_page_other. by intros ->. }
    assert (Hsub : forall fr, frame_ok pages (tree_blocks pages (S k) blk) fr -> frame_ok pages1 (tree_blocks pages1 k (pv_downlink pv)) fr).
    { intros fr Hf0 q Hin Hq. rewrite (blocks_agree pages pages1) in Hin by done. rewrite Hag in Hq by done. apply Hf0; [by eapply child_blocks|done]. }
    assert (exists pc, pages (pv_downlink pv) = Some pc) as [pc Hpc] by (destruct k; destruct Hsh' as (pc & ? & _); eauto).
    (* the frame of this level *)
    assert (exists above' fr below' m', frame_for blk (pg_opaque p) above below = (above', fr :: below') /\ levels_down m' below' /\ (m' <= k)%nat /\
      Forall (frame_ok pages (tree_blocks pages (S k) blk)) below' /\
      (sf_blkno fr = blk -> sf_last_update_id fr = abtpo_last_update_id (pg_opaque p) -> sf_offset fr <> InvalidOffsetNumber -> sf_offset fr = o))
      as (above' & fr & below' & m' & Hff & Hlv' & Hm' & Hfr' & Hcache).
    { unfold frame_for. destruct m as [|m], below as [|fr below]; try done.
      - eexists _, _, [], 0%nat. split_and!; try done. lia.
      - destruct Hlv as [Hlf Hlv]. apply Forall_cons in Hfr as [Hf0 Hfr]. rewrite Hlf, Hlvl. destruct (Z.eqb_spec (Z.of_nat (S m)) (Z.of_nat (S k))) as [E|E].
        + exists above, fr, below, m. split_and!; try done; [lia|]. intros Hb Hid Hoff. specialize (Hf0 p). rewrite Hb in Hf0.
          rewrite Ho in Hf0. by injection (Hf0 (self_block _ _ _) Hp Hid Hoff).
        + eexists above, _, (fr :: below), (S m). split_and!; [done..|lia|by constructor|done]. }
    destruct fuel as [|[|[|fuel]]]; [lia..|].
    destruct (level_run A pages k blk hk p o pv above' fr below' fuel h c v pc newitemoff postingoff leaf_blkno Hsh Hw Hp Ho Hpv Hpc Hcache) as (fr' & Hrun).
    destruct (IH pages1 (pv_downlink pv) hk' (fr' :: above') below' m' fuel (_abt_add_to_version v (pv_downlink pv) xmin d)) as (pages' & v' & Hadd & Hfin); try done; [| | | |lia|].
    { eapply shape_agree; [|exact Hsh']. done. }
    { by rewrite (blocks_agree pages pages1). }
    { eapply Forall_impl; [exact Hfr'|]. apply Hsub. }
    { destruct (path_leaf_agree A pages pages1 k (pv_downlink pv) hk' Hsh' Hw' Hag) as (Heq & lb & Hlb & Hlin). intros lb' q. rewrite Heq, Hlb. intros [= <-] Hq.
      apply (Hent lb); [|by rewrite <- Hag]. cbn [path_leaf]. rewrite Hp. cbn [mbind option_bind]. rewrite Ho. cbn [mbind option_bind].
      by rewrite (pivot_at_item p o pv Hpv). }
    exists pages', v'. split.
    { cbn [add_path]. rewrite Hp. cbn [mbind option_bind]. rewrite Ho. cbn [mbind option_bind]. by rewrite (pivot_at_item p o pv Hpv). }
    remember (S (S (S fuel))) as n eqn:En. cbn [fix_loop]. rewrite (fbind_ok _ _ _ _ _ (blockno_at blk _)).
    rewrite (fbind_ok _ _ _ _ _ (get_page_at blk p pages (blk :: h) c v ltac:(by left) Hp)). fold (is_leaf p). rewrite Hl. cbn [Nat.eqb].
    rewrite Hff. rewrite Hrun. exact Hfin.
Qed.

End Run.

End Path.

(** ** Changes that keep a tuple in its place *)

Section Lines.
Context (rel : index_rel).

Definition same_place (t t' : index_tuple) : Prop :=
  match t, t' with
  | LeafTup a, LeafTup b => it_key a = it_key b /\ it_tids a = it_tids b /\ it_postingoff a = it_postingoff b
  | PivotTup a, PivotTup b => pv_key a = pv_key b /\ pv_tid a = pv_tid b /\ pv_downlink a = pv_downlink b
  | _, _ => False
  end.

Lemma same_place_refl t : same_place t t.
Proof. by destruct t. Qed.

Lemma same_place_ok t t' : same_place t t' -> tuple_ok rel t -> tuple_ok rel t'.
Proof. destruct t as [a|a], t' as [b|b]; try done; intros (Hk & Ht & _); simpl; by rewrite Hk, Ht. Qed.

Lemma same_place_keys t t' : same_place t t' ->
  tuple_key t = tuple_key t' /\ ABTreeTupleGetHeapTID t = ABTreeTupleGetHeapTID t' /\ ABTreeTupleGetMaxHeapTID t = ABTreeTupleGetMaxHeapTID t'.
Proof.
  destruct t as [a|a], t' as [b|b]; try done; intros (Hk & Ht & Hp); simpl; [|by rewrite Hk, Ht].
  unfold is_posting. by rewrite Hk, Ht, Hp.
Qed.

Lemma same_place_before t t' u u' : same_place t t' -> same_place u u' -> tuple_before rel t u -> tuple_before rel t' u'.
Proof.
  intros (Hk & Ht & Hm)%same_place_keys (Hk' & Ht' & Hm')%same_place_keys. unfold tuple_before, tid_before. by rewrite <- Hk, <- Hk', <- Ht', <- Hm.
Qed.

Context (p : page) (o : Z) (f : index_tuple -> index_tuple) (Ho : 1 <= o).
Context (Hf : forall t, PageGetItem p o = Some t -> same_place t (f t)).

Lemma set_line_item off : PageGetItem (set_line p o f) off = (if off =? o then f else id) <$> PageGetItem p off.
Proof.
  unfold PageGetItem, PageGetItemId, set_line. cbn [pg_lines]. destruct (Z.ltb_spec off 1); [done|].
  destruct (Z.eqb_spec off o) as [->|Hne].
  - rewrite list_lookup_alter_eq. by destruct (pg_lines p !! _) as [[]|].
  - rewrite list_lookup_alter_ne by lia. by destruct (pg_lines p !! _) as [[]|].
Qed.

Lemma set_line_max : PageGetMaxOffsetNumber (set_line p o f) = PageGetMaxOffsetNumber p.
Proof. unfold PageGetMaxOffsetNumber, set_line. cbn [pg_lines]. by rewrite length_alter. Qed.

Lemma set_line_inv off t : PageGetItem (set_line p o f) off = Some t -> exists u, PageGetItem p off = Some u /\ same_place u t.
Proof.
  rewrite set_line_item. destruct (PageGetItem p off) as [u|] eqn:E; [|done]. cbn [fmap option_fmap option_map]. intros [= <-]. exists u. split; [done|].
  destruct (Z.eqb_spec off o) as [->|]; [by apply Hf|apply same_place_refl].
Qed.

Lemma set_line_page_ok : page_ok rel p -> page_ok rel (set_line p o f).
Proof.
  intros [Hmax Htup Hsort Hint]. split.
  - by rewrite set_line_max.
  - intros off t Hoff Ht. destruct (set_line_inv off t Ht) as (u & Hu & Hs). apply (same_place_ok u); [done|]. by apply (Htup off).
  - intros i j ti tj Hij Hl Hi Hj. destruct (set_line_inv i ti Hi) as (u & Hu & Hs), (set_line_inv j tj Hj) as (w & Hw & Hs').
    apply (same_place_before u ti w tj); [done|done|]. by apply (Hsort i j).
  - intros Hl. rewrite set_line_max. by apply Hint.
Qed.

Lemma set_line_hikey hk : first_off p <= o -> hikey_matches rel p hk -> hikey_matches rel (set_line p o f) hk.
Proof.
  intros Hoff. unfold hikey_matches. destruct hk as [t|]; [|done]. intros (Hr & Hok & t' & Ht' & Hs). split; [done|]. split; [done|].
  exists t'. split; [|done]. rewrite set_line_item, Ht'. unfold first_off, ABT_P_FIRSTDATAKEY in Hoff. rewrite Hr in Hoff. unfold ABTP_FIRSTKEY, ABTP_HIKEY in *.
  by rewrite (proj2 (Z.eqb_neq _ _)) by lia.
Qed.

(** The bound of a child changes at most in its aggregate. *)
Lemma set_line_expected off hk : expected_hikey p off = Some hk -> first_off p <= off -> page_ok rel p -> is_leaf p = false ->
  match hk with
  | None => expected_hikey (set_line p o f) off = Some None
  | Some t => exists t', expected_hikey (set_line p o f) off = Some (Some t') /\ same_place t t'
  end.
Proof.
  unfold expected_hikey. rewrite set_line_max. intros Hx Hoff Hok Hl. assert (Hitem : forall i t, PageGetItem p i = Some t ->
    exists t', PageGetItem (set_line p o f) i = Some t' /\ same_place t t').
  { intros i t Ht. rewrite set_line_item, Ht. eexists. split; [done|]. destruct (Z.eqb_spec i o) as [->|]; [by apply Hf|apply same_place_refl]. }
  destruct (off =? PageGetMaxOffsetNumber p).
  - change (pg_opaque (set_line p o f)) with (pg_opaque p). destruct (ABT_P_RIGHTMOST (pg_opaque p)); [by injection Hx as <-|].
    destruct (PageGetItem p ABTP_HIKEY) as [t|] eqn:E; [|done]. injection Hx as <-. destruct (Hitem _ t E) as (t' & -> & ?). by exists t'.
  - destruct (PageGetItem p (off + 1)) as [t|] eqn:E; [|done]. injection Hx as <-. destruct (Hitem _ t E) as (t' & -> & ?). by exists t'.
Qed.

End Lines.

Lemma same_place_fence t t' u : same_place t t' -> same_fence t u -> same_fence t' u.
Proof. destruct t as [|a], t' as [|b], u as [|u]; try done. intros (Hk & Ht & _) [Hk' Ht']. split; congruence. Qed.

Lemma shape_bound rel ai A pages k blk t t' : same_place t t' -> shape rel ai A pages k blk (Some t) -> shape rel ai A pages k blk (Some t').
Proof.
  intros Hs Hsh. destruct k; destruct Hsh as (p & Hp & Hig & Hl & Hlv & (Hr & Hok & u & Hu & Hsu) & Hpo & Hrest); exists p; split_and!; try done.
  all: cbn [hikey_matches]; split; [done|]; split; [by eapply same_place_ok|]; exists u; split; [done|]; by eapply same_place_fence.
Qed.

(** ** The entries below a page *)

Lemma page_items_set_line p o f l : 1 <= o ->
  mapM (fun off => t ← PageGetItem (set_line p o f) off; Some (off, t)) l =
  fmap (fun it => if fst it =? o then (fst it, f (snd it)) else it) <$> mapM (fun off => t ← PageGetItem p off; Some (off, t)) l.
Proof.
  intros Ho. induction l as [|off l IH]; [done|]. cbn [mapM]. rewrite IH, set_line_item by done.
  destruct (PageGetItem p off) as [t|]; [|done]. cbn [fmap option_fmap option_map mbind option_bind].
  match goal with |- context [mapM ?g l] => destruct (mapM g l) as [items|] end; [|reflexivity].
  simpl. by destruct (off =? o).
Qed.

Lemma data_items_set_line p o f : 1 <= o ->
  data_items (set_line p o f) = (fun it => if fst it =? o then (fst it, f (snd it)) else it) <$> data_items p.
Proof.
  intros Ho. unfold data_items, page_items. rewrite set_line_max. change (pg_opaque (set_line p o f)) with (pg_opaque p).
  rewrite page_items_set_line by done. by destruct (mapM _ _).
Qed.

Lemma data_items_split p o t : first_off p <= o <= PageGetMaxOffsetNumber p -> PageGetItem p o = Some t ->
  exists l1 l2, data_items p = l1 ++ (o, t) :: l2 /\ Forall (fun it => fst it <> o) (l1 ++ l2).
Proof.
  intros Ho Ht. pose proof (data_item p o t Ho Ht) as Hin. apply list_elem_of_split in Hin as (l1 & l2 & Hl). exists l1, l2. split; [done|].
  assert (Hnd : NoDup (fst <$> data_items p)).
  { unfold data_items. destruct (page_items p _ _) as [items|] eqn:E; [|by constructor]. change (NoDup (fst <$> items)).
    assert (fst <$> items = seqZ (ABT_P_FIRSTDATAKEY (pg_opaque p)) (PageGetMaxOffsetNumber p - ABT_P_FIRSTDATAKEY (pg_opaque p) + 1)) as ->; [|apply NoDup_seqZ].
    unfold page_items in E. apply mapM_Some in E. induction E as [|off it offs items Hoff _ IH]; [done|]. rewrite fmap_cons, IH. f_equal.
    destruct (PageGetItem p off); [|done]. by injection Hoff as <-. }
  rewrite Hl, fmap_app, fmap_cons in Hnd. cbn [fst] in Hnd. apply NoDup_app in Hnd as (_ & Hd & Hnd). apply NoDup_cons in Hnd as [Hni _].
  apply Forall_app. split; apply Forall_forall; intros it Hit <-; [apply (Hd (fst it)); [by apply list_elem_of_fmap_2|by left]|].
  apply Hni. by apply list_elem_of_fmap_2.
Qed.

Lemma fmap_bind {A B C} (f : A -> B) (g : B -> list C) l : (f <$> l) ≫= g = l ≫= (fun x => g (f x)).
Proof. induction l as [|x l IH]; [done|]. rewrite fmap_cons, !bind_cons. by rewrite IH. Qed.

(** Changing the line at [o] changes the contribution of that item only. *)
Lemma bind_set_line {B} p o t f (g g' : Z * index_tuple -> list B) : 1 <= o -> first_off p <= o <= PageGetMaxOffsetNumber p ->
  PageGetItem p o = Some t -> (forall it, it ∈ data_items p -> fst it <> o -> g' it = g it) ->
  exists l r, data_items p ≫= g = l ++ g (o, t) ++ r /\ data_items (set_line p o f) ≫= g' = l ++ g' (o, f t) ++ r.
Proof.
  intros H1 Ho Ht Hg. destruct (data_items_split p o t Ho Ht) as (l1 & l2 & Hl & Hne). exists (l1 ≫= g), (l2 ≫= g).
  rewrite data_items_set_line, Hl, fmap_app, fmap_cons, !bind_app, !bind_cons by done. cbn [fst snd]. rewrite Z.eqb_refl.
  assert (Hsame : forall k, (forall it, it ∈ k -> it ∈ l1 ++ l2) -> ((fun it : Z * index_tuple => if fst it =? o then (fst it, f (snd it)) else it) <$> k) ≫= g' = k ≫= g).
  { intros k Hk. rewrite fmap_bind. apply bind_ext_in. intros it Hit. specialize (Hk it Hit). rewrite Forall_forall in Hne.
    rewrite (proj2 (Z.eqb_neq _ _) (Hne it Hk)). apply Hg; [|by apply Hne]. rewrite Hl. apply elem_of_app in Hk. apply elem_of_app. destruct Hk; [by left|by right; right]. }
  rewrite !Hsame; [done|..]; intros it Hit; apply elem_of_app; auto.
Qed.

Section Entries.
Context (ai : agg_info) (agg_map_val : Z).

Definition tree_entries (pages : Z -> option page) (k : nat) (blk : Z) : list version := entries (page_tree pages ai agg_map_val k blk).

Definition item_entries (pages : Z -> option page) (k : nat) (it : Z * index_tuple) : list version :=
  match snd it with LeafTup _ => [] | PivotTup pv => tree_entries pages k (pv_downlink pv) end.
Definition leaf_item_entries (it : Z * index_tuple) : list version :=
  match snd it with LeafTup t => tuple_versions ai agg_map_val t | PivotTup _ => [] end.

Lemma entries_leaf pages blk p : pages blk = Some p -> tree_entries pages 0 blk = data_items p ≫= leaf_item_entries.
Proof. intros Hp. unfold tree_entries. cbn [page_tree]. by rewrite Hp. Qed.

Lemma entries_inner pages k blk p : pages blk = Some p -> tree_entries pages (S k) blk = data_items p ≫= item_entries pages k.
Proof.
  intros Hp. unfold tree_entries. cbn [page_tree]. rewrite Hp. cbn [entries]. generalize (data_items p) as l.
  induction l as [|[off [t|pv]] l IH]; [done|done|]. rewrite bind_cons, bind_app, IH. cbn [snd]. by rewrite bind_singleton, (bind_cons (item_entries pages k)).
Qed.

Lemma entries_agree pages pages' k blk : (forall b, b ∈ tree_blocks pages k blk -> pages' b = pages b) ->
  tree_entries pages' k blk = tree_entries pages k blk.
Proof.
  revert blk. induction k as [|k IH]; intros blk Hag; pose proof (Hag blk (self_block _ _ _)) as Hb; destruct (pages blk) as [p|] eqn:Hp.
  - by rewrite !(entries_leaf _ _ p).
  - unfold tree_entries. cbn [page_tree]. by rewrite Hp, Hb.
  - rewrite !(entries_inner _ _ _ p) by done. apply bind_ext_in. intros [off [t|pv]] Hin; [done|]. unfold item_entries. cbn [snd].
    apply data_item_inv in Hin as [Hoff Hpv]. apply IH. intros b Hb'. apply Hag. by eapply child_blocks.
  - unfold tree_entries. cbn [page_tree]. by rewrite Hp, Hb.
Qed.

(** One invalid entry of value [d] has become one of transaction [x]. *)
Definition added (x d : Z) (es es' : list version) : Prop :=
  exists l r, es = l ++ (InvalidTransactionId, d) :: r /\ es' = l ++ (x, d) :: r.

Lemma added_app x d es es' l r : added x d es es' -> added x d (l ++ es ++ r) (l ++ es' ++ r).
Proof. intros (a & b & -> & ->). exists (l ++ a), (b ++ r). by rewrite <- !app_assoc. Qed.

Lemma posting_added x xmins aggs j : xmins !! j = Some InvalidTransactionId ->
  added x (entry_weight ai agg_map_val (aggs !! j)) (posting_versions ai agg_map_val xmins aggs) (posting_versions ai agg_map_val (<[j := x]> xmins) aggs).
Proof.
  revert xmins aggs. induction j as [|j IH]; intros [|y xmins] aggs Hj; try done; cbn [posting_versions insert list_insert].
  - injection Hj as ->. rewrite head_lookup. by exists [], (posting_versions ai agg_map_val xmins (tail aggs)).
  - specialize (IH xmins (tail aggs) Hj). rewrite lookup_tail in IH. apply (added_app _ _ _ _ [(y, entry_weight ai agg_map_val (head aggs))] []) in IH. by rewrite !app_nil_r in IH.
Qed.

Lemma tuple_added x t j : (if is_posting t then True else j = 0%nat) -> it_xmins t !! j = Some InvalidTransactionId ->
  added x (entry_weight ai agg_map_val (it_aggs t !! j)) (leaf_item_entries (0, LeafTup t)) (leaf_item_entries (0, write_xmin x j (LeafTup t))).
Proof.
  intros Hj Hx. unfold leaf_item_entries, write_xmin, tuple_versions. cbn [snd it_xmins it_aggs it_postingoff].
  change (is_posting (mk_itup _ _ (it_postingoff t) _ _ _)) with (is_posting t). destruct (is_posting t); [by apply posting_added|].
  subst j. replace (take 1 (<[0%nat := x]> (it_xmins t))) with (<[0%nat := x]> (take 1 (it_xmins t))) by (by destruct (it_xmins t)).
  apply posting_added. by destruct (it_xmins t).
Qed.

End Entries.

(** ** The invariant *)

Lemma blocks_tail pages k blk : tree_blocks pages k blk = blk :: tail (tree_blocks pages k blk).
Proof. by destruct k. Qed.

Lemma child_tail pages k blk p off pv b : pages blk = Some p -> first_off p <= off <= PageGetMaxOffsetNumber p ->
  PageGetItem p off = Some (PivotTup pv) -> b ∈ tree_blocks pages k (pv_downlink pv) -> b ∈ tail (tree_blocks pages (S k) blk).
Proof.
  intros Hp Hoff Hpv Hb. cbn [tree_blocks tail]. rewrite Hp. apply list_elem_of_bind. exists (off, PivotTup pv). split; [done|]. by apply data_item.
Qed.

Lemma siblings_disjoint pages k blk p o off pv pv' b : NoDup (tree_blocks pages (S k) blk) -> pages blk = Some p ->
  first_off p <= o <= PageGetMaxOffsetNumber p -> PageGetItem p o = Some (PivotTup pv) ->
  first_off p <= off <= PageGetMaxOffsetNumber p -> PageGetItem p off = Some (PivotTup pv') -> off <> o ->
  b ∈ tree_blocks pages k (pv_downlink pv') -> b ∉ tree_blocks pages k (pv_downlink pv).
Proof.
  intros Hnd Hp Ho Hpv Hoff Hpv' Hne Hb Hb'. cbn [tree_blocks] in Hnd. rewrite Hp in Hnd. apply NoDup_cons in Hnd as [_ Hnd].
  destruct (data_items_split p o _ Ho Hpv) as (l1 & l2 & Hl & _). pose proof (data_item p off _ Hoff Hpv') as Hin.
  rewrite Hl in Hin, Hnd. rewrite bind_app, bind_cons in Hnd. apply NoDup_app in Hnd as (_ & Hd & Hnd). apply NoDup_app in Hnd as (_ & Hd' & _).
  apply elem_of_app in Hin as [Hin|[Heq|Hin]%elem_of_cons].
  - apply (Hd b); [apply list_elem_of_bind; by exists (off, PivotTup pv')|apply elem_of_app; by left].
  - injection Heq. done.
  - apply (Hd' b); [done|]. apply list_elem_of_bind. by exists (off, PivotTup pv').
Qed.

Lemma shape_mono_in rel ai (A B : nat -> pivot -> Prop) pages k blk hk :
  (forall k' pv, (forall b, b ∈ tree_blocks pages k' (pv_downlink pv) -> b ∈ tail (tree_blocks pages k blk)) -> A k' pv -> B k' pv) ->
  shape rel ai A pages k blk hk -> shape rel ai B pages k blk hk.
Proof.
  revert blk hk. induction k as [|k IH]; intros blk hk Hab (p & Hp & Hig & Hl & Hlv & Hh & Hok & Hrest); exists p; split_and!; try done.
  intros off Hoff. destruct (Hrest off Hoff) as (pv & hk' & Hpv & HA & Hx & Hsh). exists pv, hk'. split_and!; try done.
  - apply Hab; [|done]. intros b. by eapply child_tail.
  - apply IH; [|done]. intros k' pv' Hb. apply Hab. intros b Hb'. eapply child_tail; [done..|]. rewrite blocks_tail. right. by apply Hb.
Qed.

Section Keep.
Context (rel : index_rel) (Hrel : rel_ok rel) (ai : agg_info) (agg_map_val base Recent : Z).
Abbreviation typlen := (agg_typlen ai).
Abbreviation tree_entries := (tree_entries ai agg_map_val).

(** The update of the version store, by its effect on the chains. *)
Definition add_version_at (ch : Z -> list version) (b x v : Z) : Z -> list version :=
  fun b' => if b' =? b then add_delta (agg_width typlen) x (agg_arg typlen v) (ch b) else ch b'.

(** A pivot has the aggregate and the version chain of the entries below it. *)
Definition versioned (pages : Z -> option page) (ch : Z -> list version) (k : nat) (pv : pivot) : Prop :=
  agg_versioned pages ai agg_map_val base Recent ch k (0, PivotTup pv).

Lemma versioned_agree pages pages' ch ch' k pv : (forall b, b ∈ tree_blocks pages k (pv_downlink pv) -> pages' b = pages b) ->
  ch' (pv_downlink pv) = ch (pv_downlink pv) -> versioned pages ch k pv -> versioned pages' ch' k pv.
Proof.
  intros Hag Hch. unfold versioned, agg_versioned. cbn [snd]. rewrite Hch. fold (tree_entries pages' k (pv_downlink pv)) (tree_entries pages k (pv_downlink pv)).
  by rewrite (entries_agree ai agg_map_val pages pages' k _ Hag).
Qed.

Context (key : ABTScanInsertData) (args : list (option Z)) (Hkey : key_ok rel key args) (Hnext : nextkey key = false).
Context (st : tid) (d xmin : Z) (off0 : Z) (j0 : nat) (t0 : itup).
Context (Htyp : typlen = 2 \/ typlen = 4 \/ typlen = 8) (Hx : xid_ok base xmin) (Hsafe : TransactionIdPrecedes xmin Recent = false) (Hd : 0 <= d).

Abbreviation holds p := (holds_entry rel ai agg_map_val key st d p off0 j0 t0).
Abbreviation run_path := (add_path rel ai add_version_at xmin key d off0 j0).

Lemma sign_extend_small w z : 0 < w -> 0 <= z < 2 ^ (w - 1) -> sign_extend w z = z.
Proof.
  intros Hw Hz. assert (2 ^ w = 2 * 2 ^ (w - 1)) by (rewrite <- Z.pow_succ_r by lia; f_equal; lia).
  unfold sign_extend. rewrite Z.mod_small, (proj2 (Z.ltb_lt _ _)) by lia. done.
Qed.

Lemma fetch_add_exact a : 0 <= a -> a + d < 2 ^ (8 * typlen - 1) -> fetch_add typlen a d = a + d.
Proof.
  intros Ha Hb. unfold fetch_add. destruct Htyp as [E|[E|E]]; rewrite E in *; cbn in Hb; cbn [Z.eqb Pos.eqb]; unfold i16, i32, i64.
  - rewrite (sign_extend_small 16 d), sign_extend_small; [done|lia|simpl; lia..].
  - rewrite (sign_extend_small 32 d), sign_extend_small; [done|lia|simpl; lia..].
  - rewrite sign_extend_small; [done|lia|simpl; lia].
Qed.

(** What [add_path] does to a subtree. *)
Record path_added (pages pages' : Z -> option page) (ch ch' : Z -> list version) (k : nat) (blk : Z) (hk : option index_tuple) : Prop := {
  pa_shape : shape rel ai (versioned pages' ch') pages' k blk hk;
  pa_entries : added xmin d (tree_entries pages k blk) (tree_entries pages' k blk);
  pa_pages : forall b, b ∉ tree_blocks pages k blk -> pages' b = pages b;
  pa_chains : forall b, b ∉ tail (tree_blocks pages k blk) -> ch' b = ch b;
  pa_blocks : tree_blocks pages' k blk = tree_blocks pages k blk
}.

Lemma leaf_added pages blk hk p ch : shape rel ai (versioned pages ch) pages 0 blk hk -> pages blk = Some p -> holds p ->
  path_added pages (set_page pages blk (set_line p off0 (write_xmin xmin j0))) ch ch 0 blk hk.
Proof.
  intros (p' & Hp' & Hig & Hl & Hlv & Hh & Hok & Hleaf) Hp Hin. assert (p' = p) as -> by congruence.
  assert (Hitem : PageGetItem p off0 = Some (LeafTup t0)) by (unfold PageGetItem; by rewrite (he_line _ _ _ _ _ _ _ _ _ _ Hin)).
  pose proof (he_off _ _ _ _ _ _ _ _ _ _ Hin) as Hoff. pose proof (first_off_range p).
  assert (Hr : 1 <= off0 <= PageGetMaxOffsetNumber p) by (by eapply item_range).
  assert (Hsp : forall t, PageGetItem p off0 = Some t -> same_place t (write_xmin xmin j0 t)) by (intros [t|pv] _; done).
  split.
  - exists (set_line p off0 (write_xmin xmin j0)). split_and!; try done.
    + apply set_page_same.
    + apply set_line_hikey; [lia|lia|done].
    + apply set_line_page_ok; [lia|done|done].
    + intros off t Ho Ht. rewrite set_line_item in Ht by lia. destruct (PageGetItem p off) as [u|] eqn:E; [|done]. injection Ht as <-.
      pose proof (Hleaf off u Ho E) as Hu. destruct (Z.eqb_spec off off0); [|done]. destruct u as [u|]; [|done]. destruct Hu as (? & ? & ?).
      simpl. rewrite length_insert. done.
  - rewrite (entries_leaf ai agg_map_val pages blk p Hp), (entries_leaf ai agg_map_val _ blk _ (set_page_same _ _ _)).
    destruct (bind_set_line p off0 (LeafTup t0) (write_xmin xmin j0) (leaf_item_entries ai agg_map_val) (leaf_item_entries ai agg_map_val))
      as (l & r & -> & ->); [lia|lia|done|done|].
    apply added_app. rewrite <- (he_value _ _ _ _ _ _ _ _ _ _ Hin). apply (tuple_added ai agg_map_val xmin t0 j0).
    + pose proof (he_posting _ _ _ _ _ _ _ _ _ _ Hin). by destruct (is_posting t0).
    + apply (he_xmin _ _ _ _ _ _ _ _ _ _ Hin).
  - intros b Hb. apply set_page_other. intros ->. apply Hb, self_block.
  - done.
  - done.
Qed.

Lemma valid_le l es r : Forall (entry_ok base) (l ++ es ++ r) ->
  Forall (entry_ok base) es /\ sum_if TransactionIdIsValid es <= sum_if TransactionIdIsValid (l ++ es ++ r).
Proof.
  intros Hf. apply Forall_app in Hf as [Hl Hf]. apply Forall_app in Hf as [He Hr]. split; [done|]. rewrite !sum_if_app.
  assert (Hn : forall k, Forall (entry_ok base) k -> 0 <= sum_if TransactionIdIsValid k).
  { intros k Hk. apply sum_if_nonneg. eapply Forall_impl; [exact Hk|]. by intros a [_ ?]. }
  pose proof (Hn l Hl). pose proof (Hn r Hr). lia.
Qed.

Section Level.
Context (pages : Z -> option page) (ch : Z -> list version) (k : nat) (blk : Z) (p : page) (o : Z) (pv : pivot).
Context (Hp : pages blk = Some p) (Ho : first_off p <= o <= PageGetMaxOffsetNumber p) (Hpv : PageGetItem p o = Some (PivotTup pv)).
Context (Hnd : NoDup (tree_blocks pages (S k) blk)).

Definition level_pages : Z -> option page := set_page pages blk (set_line p o (add_to_agg typlen d)).
Definition level_chains : Z -> list version := add_version_at ch (pv_downlink pv) xmin d.

Lemma level_agree b : b ∈ tree_blocks pages k (pv_downlink pv) -> level_pages b = pages b.
Proof. intros Hb. destruct (child_not_self pages k blk p o pv Hnd Hp Ho Hpv) as [Hni _]. apply set_page_other. by intros ->. Qed.

Lemma own_tail : pv_downlink pv ∉ tail (tree_blocks pages k (pv_downlink pv)).
Proof.
  destruct (child_not_self pages k blk p o pv Hnd Hp Ho Hpv) as [_ Hnd']. rewrite blocks_tail in Hnd'. by apply NoDup_cons in Hnd' as [? _].
Qed.

Lemma level_shape hk : shape rel ai (versioned pages ch) pages k (pv_downlink pv) hk ->
  shape rel ai (versioned level_pages level_chains) level_pages k (pv_downlink pv) hk.
Proof.
  intros Hsh. eapply shape_agree; [apply level_agree|]. eapply shape_mono_in; [|exact Hsh]. intros k' pv' Hb. apply versioned_agree.
  - intros b Hb'. apply level_agree. rewrite blocks_tail. right. by apply Hb.
  - unfold level_chains, add_version_at. rewrite (proj2 (Z.eqb_neq _ _)); [done|]. intros E. pose proof (Hb _ (self_block pages k' (pv_downlink pv'))) as Hin. rewrite E in Hin. by apply own_tail.
Qed.

Section After.
Context (pages' : Z -> option page) (ch' : Z -> list version).
Context (Hpg : forall b, b ∉ tree_blocks pages k (pv_downlink pv) -> pages' b = level_pages b).
Context (Hch : forall b, b ∉ tail (tree_blocks pages k (pv_downlink pv)) -> ch' b = level_chains b).

(** Nothing changes below the other children of the page. *)
Lemma other_child off q b : first_off p <= off <= PageGetMaxOffsetNumber p -> PageGetItem p off = Some (PivotTup q) -> off <> o ->
  b ∈ tree_blocks pages k (pv_downlink q) -> pages' b = pages b /\ ch' b = ch b.
Proof.
  intros Hoff Hq Hne Hbq. pose proof (siblings_disjoint pages k blk p o off pv q b Hnd Hp Ho Hpv Hoff Hq Hne Hbq) as Hd0.
  destruct (child_not_self pages k blk p off q Hnd Hp Hoff Hq) as [Hni' _]. split.
  - rewrite Hpg by done. apply set_page_other. by intros ->.
  - rewrite Hch by (intros Ht; apply Hd0; rewrite blocks_tail; by right). unfold level_chains, add_version_at.
    rewrite (proj2 (Z.eqb_neq _ _)); [done|]. intros ->. apply Hd0, self_block.
Qed.

Lemma other_pivot off q hk : first_off p <= off <= PageGetMaxOffsetNumber p -> PageGetItem p off = Some (PivotTup q) -> off <> o ->
  versioned pages ch k q -> shape rel ai (versioned pages ch) pages k (pv_downlink q) hk ->
  versioned pages' ch' k q /\ shape rel ai (versioned pages' ch') pages' k (pv_downlink q) hk.
Proof.
  intros Hoff Hq Hne Hv Hsh. pose proof (fun b => other_child off q b Hoff Hq Hne) as Hoc. split.
  - eapply versioned_agree; [intros b Hb; by apply Hoc|apply Hoc, self_block|done].
  - eapply shape_agree; [intros b Hb; by apply Hoc|]. eapply shape_mono_in; [|exact Hsh]. intros k' q' Hin.
    assert (Hsub : forall b, b ∈ tree_blocks pages k' (pv_downlink q') -> b ∈ tree_blocks pages k (pv_downlink q))
      by (intros b Hb0; rewrite (blocks_tail pages k); right; by apply Hin).
    apply versioned_agree; [intros b Hbq; by apply Hoc, Hsub|apply Hoc, Hsub, self_block].
Qed.

(** The pivot on the path counts the new entry. *)
Lemma changed_pivot : versioned pages ch k pv -> Forall (entry_ok base) (tree_entries pages k (pv_downlink pv)) ->
  sum_if TransactionIdIsValid (tree_entries pages k (pv_downlink pv)) + d < 2 ^ (8 * typlen - 1) ->
  added xmin d (tree_entries pages k (pv_downlink pv)) (tree_entries pages' k (pv_downlink pv)) ->
  versioned pages' ch' k (mk_pivot (pv_key pv) (pv_tid pv) (pv_downlink pv) (fetch_add typlen (pv_agg pv) d) (pv_last_update_id pv)).
Proof.
  intros (Hsu & _ & _) Hes Hb (a & b & Ha & Hb'). unfold versioned, agg_versioned. cbn [snd pv_downlink pv_agg] in *.
  fold (tree_entries pages k (pv_downlink pv)) in Hsu. fold (tree_entries pages' k (pv_downlink pv)). rewrite Ha in Hsu, Hes, Hb. rewrite Hb'.
  apply Forall_app in Hes as [Hea Heb]. apply Forall_cons in Heb as [_ Heb].
  assert (Hnn : Forall (fun e => 0 <= snd e) (a ++ b)) by (apply Forall_app; split; (eapply Forall_impl; [eassumption|]; by intros e [_ ?])).
  assert (Hagg : pv_agg pv = sum_if TransactionIdIsValid (a ++ b)) by (rewrite (su_agg _ _ _ _ _ Hsu); by rewrite !sum_if_app).
  assert (Hsplit : sum_if TransactionIdIsValid (a ++ (InvalidTransactionId, d) :: b) = sum_if TransactionIdIsValid (a ++ b)) by (by rewrite !sum_if_app).
  pose proof (sum_if_nonneg TransactionIdIsValid _ Hnn). split_and!.
  - rewrite fetch_add_exact by lia. rewrite Hch by apply own_tail. unfold level_chains, add_version_at. rewrite Z.eqb_refl.
    apply summaries_add; try done. lia.
  - apply Forall_app. split; [done|]. by constructor.
  - rewrite !sum_if_app in *. cbn [sum_if] in *. rewrite (xid_ok_valid base xmin Hx). lia.
Qed.

Lemma level_page : pages' blk = Some (set_line p o (add_to_agg typlen d)).
Proof. destruct (child_not_self pages k blk p o pv Hnd Hp Ho Hpv) as [Hni _]. rewrite Hpg by done. apply set_page_same. Qed.

Lemma level_blocks : tree_blocks pages' k (pv_downlink pv) = tree_blocks pages k (pv_downlink pv) -> tree_blocks pages' (S k) blk = tree_blocks pages (S k) blk.
Proof.
  intros Hbl. pose proof (first_off_range p). cbn [tree_blocks]. rewrite level_page, Hp, data_items_set_line, fmap_bind by lia. f_equal. apply bind_ext_in. intros [off t] Hin.
  pose proof (data_item_inv p off t Hin) as [Hoff Ht]. cbn [fst snd]. destruct (Z.eqb_spec off o) as [->|Hne]; cbn [snd].
  - assert (t = PivotTup pv) as -> by congruence. by cbn [add_to_agg pv_downlink].
  - destruct t as [t|q]; [done|]. apply blocks_agree. intros b Hbq. by apply (other_child off q b Hoff Ht Hne).
Qed.

Lemma level_entries : exists l r, tree_entries pages (S k) blk = l ++ tree_entries pages k (pv_downlink pv) ++ r /\
  tree_entries pages' (S k) blk = l ++ tree_entries pages' k (pv_downlink pv) ++ r.
Proof.
  pose proof (first_off_range p). rewrite (entries_inner ai agg_map_val pages k blk p Hp), (entries_inner ai agg_map_val pages' k blk _ level_page).
  apply (bind_set_line p o (PivotTup pv) (add_to_agg typlen d) (item_entries ai agg_map_val pages k) (item_entries ai agg_map_val pages' k)); [lia|done|done|].
  intros [off [t|q]] Hin Hne; [done|]. apply data_item_inv in Hin as [Hoff Hq]. unfold item_entries. cbn [snd fst] in *.
  apply entries_agree. intros b Hbq. by apply (other_child off q b Hoff Hq Hne).
Qed.

End After.

Lemma child_bound off q hk : page_ok rel p -> is_leaf p = false -> first_off p <= off -> expected_hikey p off = Some hk ->
  exists hk', expected_hikey (set_line p o (add_to_agg typlen d)) off = Some hk' /\
    forall A pg, shape rel ai A pg k (pv_downlink q) hk -> shape rel ai A pg k (pv_downlink q) hk'.
Proof.
  intros Hok Hl Hoff Hxq. pose proof (first_off_range p).
  assert (Hsp : forall t, PageGetItem p o = Some t -> same_place t (add_to_agg typlen d t)) by (intros [t|t] _; done).
  pose proof (set_line_expected rel p o (add_to_agg typlen d) ltac:(lia) Hsp off hk Hxq Hoff Hok Hl) as He.
  destruct hk as [t|]; [|by exists None]. destruct He as (t' & He & Hs). exists (Some t'). split; [done|]. intros A pg. by apply shape_bound.
Qed.

(** A level above a path that is added. *)
Lemma level_keeps hk pages' ch' hk' :
  shape rel ai (versioned pages ch) pages (S k) blk hk ->
  Forall (entry_ok base) (tree_entries pages (S k) blk) -> sum_if TransactionIdIsValid (tree_entries pages (S k) blk) + d < 2 ^ (8 * typlen - 1) ->
  expected_hikey p o = Some hk' ->
  path_added level_pages pages' level_chains ch' k (pv_downlink pv) hk' -> path_added pages pages' ch ch' (S k) blk hk.
Proof.
  intros (p' & Hp' & Hig & Hl & Hlv & Hh & Hok & Hrest) Hes Hb Hx0 [Hsh Hen Hpg Hch Hbl]. assert (p' = p) as -> by congruence.
  pose proof (first_off_range p) as Hf0.
  rewrite (blocks_agree pages level_pages k (pv_downlink pv)) in Hpg, Hch, Hbl by apply level_agree.
  rewrite (entries_agree ai agg_map_val pages level_pages k (pv_downlink pv)) in Hen by apply level_agree.
  destruct (level_entries pages' ch' Hpg Hch) as (l & r & Hold & Hnew). rewrite Hold in Hes, Hb. destruct (valid_le _ _ _ Hes) as [Hesc Hle]. split.
  - exists (set_line p o (add_to_agg typlen d)). split_and!; try done.
    + by apply level_page.
    + apply set_line_hikey; [lia|lia|done].
    + apply set_line_page_ok; [lia|by intros [t|q] _|done].
    + rewrite set_line_max. intros off Hoff. change (first_off (set_line p o _)) with (first_off p) in Hoff.
      destruct (Hrest off Hoff) as (q & hkq & Hq & Hvq & Hxq & Hshq).
      destruct (child_bound off q hkq Hok Hl ltac:(lia) Hxq) as (hkq' & Hxq' & Hbound).
      rewrite set_line_item, Hq by lia. destruct (Z.eqb_spec off o) as [->|Hne].
      * assert (q = pv) as -> by congruence. assert (hkq = hk') as -> by congruence. eexists _, hkq'. split; [reflexivity|].
        split; [|split; [done|by apply Hbound]]. apply changed_pivot; try done. lia.
      * destruct (other_pivot pages' ch' Hpg Hch off q hkq Hoff Hq Hne Hvq Hshq) as [Hv' Hsh']. exists q, hkq'.
        cbn [fmap option_fmap option_map id]. split_and!; try done. by apply Hbound.
  - rewrite Hold, Hnew. by apply added_app.
  - intros b Hb0. rewrite Hpg by (intros Hb1; apply Hb0; by eapply child_blocks). apply set_page_other. intros ->. apply Hb0, self_block.
  - intros b Hb0. rewrite Hch by (intros Hb1; apply Hb0; eapply child_tail; [done..|]; rewrite blocks_tail; by right).
    unfold level_chains, add_version_at. rewrite (proj2 (Z.eqb_neq _ _)); [done|]. intros ->. apply Hb0. eapply child_tail; [done..|]. apply self_block.
  - by apply (level_blocks pages' ch').
Qed.

End Level.

Lemma add_path_keeps k pages blk hk ch pages' ch' :
  shape rel ai (versioned pages ch) pages k blk hk -> key_within rel key hk -> NoDup (tree_blocks pages k blk) ->
  Forall (entry_ok base) (tree_entries pages k blk) -> sum_if TransactionIdIsValid (tree_entries pages k blk) + d < 2 ^ (8 * typlen - 1) ->
  (forall lb p, path_leaf rel key pages k blk = Some lb -> pages lb = Some p -> holds p) ->
  run_path k blk pages ch = Some (pages', ch') -> path_added pages pages' ch ch' k blk hk.
Proof.
  revert pages blk hk ch. induction k as [|k IH]; intros pages blk hk ch Hsh Hw Hnd Hes Hb Hent Hrun; pose proof Hsh as (p & Hp & _).
  - cbn [add_path] in Hrun. rewrite Hp in Hrun. injection Hrun as <- <-. apply leaf_added; [done|done|by apply (Hent blk)].
  - destruct (search_child rel Hrel ai key args Hkey Hnext _ pages k blk hk p Hsh Hp Hw) as (o & pv & hk' & Ho & Hr & Hpv & _ & Hx' & Hw' & Hsh').
    cbn [add_path] in Hrun. rewrite Hp in Hrun. cbn [mbind option_bind] in Hrun. rewrite Ho in Hrun. cbn [mbind option_bind] in Hrun.
    rewrite (pivot_at_item p o pv Hpv) in Hrun. cbn [mbind option_bind] in Hrun.
    fold (level_pages pages blk p o) (level_chains ch pv) in Hrun. apply (level_keeps pages ch k blk p o pv Hp Hr Hpv Hnd hk pages' ch' hk'); try done.
    assert (Hag : forall b, b ∈ tree_blocks pages k (pv_downlink pv) -> level_pages pages blk p o b = pages b) by (by eapply level_agree).
    destruct (bind_set_line p o (PivotTup pv) id (item_entries ai agg_map_val pages k) (item_entries ai agg_map_val pages k))
      as (l & r & Hold & _); [pose proof (first_off_range p); lia|done|done|done|].
    rewrite (entries_inner ai agg_map_val pages k blk p Hp), Hold in Hes, Hb. destruct (valid_le _ _ _ Hes) as [Hesc Hle].
    unfold item_entries in Hesc, Hle, Hb. cbn [snd] in Hesc, Hle, Hb.
    apply (IH (level_pages pages blk p o) (pv_downlink pv) hk' (level_chains ch pv)); try done.
    + by apply level_shape.
    + rewrite (blocks_agree pages) by done. by eapply child_not_self.
    + by rewrite (entries_agree ai agg_map_val pages) by done.
    + rewrite (entries_agree ai agg_map_val pages) by done. lia.
    + destruct (path_leaf_agree rel Hrel ai key args Hkey Hnext _ pages (level_pages pages blk p o) k (pv_downlink pv) hk' Hsh' Hw' Hag) as (Heq & lb & Hlb & Hlin).
      intros lb' q. rewrite Heq, Hlb. intros [= <-] Hq. apply (Hent lb); [|by rewrite <- Hag].
      cbn [path_leaf]. rewrite Hp. cbn [mbind option_bind]. rewrite Ho. cbn [mbind option_bind]. by rewrite (pivot_at_item p o pv Hpv).
Qed.

End Keep.

Lemma setup_levels stack m prev : levels_down m prev -> Z.of_nat m + Z.of_nat (length stack) + 1 < 2 ^ 32 ->
  levels_down (m + length stack) (setup_loop (Z.of_nat m + 1) prev stack).
Proof.
  revert m prev. induction stack as [|s stack IH]; intros m prev Hm Hl; [by rewrite Nat.add_0_r|]. cbn [setup_loop length] in *.
  rewrite u32_small by lia. replace (Z.of_nat m + 1 + 1) with (Z.of_nat (S m) + 1) by lia. replace (m + S (length stack))%nat with (S m + length stack)%nat by lia.
  apply IH; [|lia]. cbn [levels_down]. split; [cbn [sf_level]; lia|done].
Qed.

Lemma setup_frames (P : frame -> Prop) stack level prev : Forall P prev ->
  Forall (fun s => forall l, P (mk_frame (abts_blkno s) (abts_offset s) (abts_last_update_id s) None l)) stack -> Forall P (setup_loop level prev stack).
Proof. intros Hp Hs. revert level prev Hp. induction Hs as [|s stack H _ IH]; intros level prev Hp; [done|]. cbn [setup_loop]. apply IH. by constructor. Qed.

(** A stack as the descent to the leaf left it: if a page on it is still there unchanged,
    the offset is the one the search finds. *)
Definition stack_ok (rel : index_rel) (key : ABTScanInsertData) (pages : Z -> option page) (blks : list Z) (s : ABTStackData) : Prop :=
  forall p, abts_blkno s ∈ blks -> pages (abts_blkno s) = Some p -> abts_last_update_id s = abtpo_last_update_id (pg_opaque p) ->
    abts_offset s <> InvalidOffsetNumber -> _abt_binsrch rel key p = Some (abts_offset s).

(** C3: Insertion keeps the aggregates exact.  In a tree whose pivots have the aggregates
    and version chains of the entries below them, where a new entry with an invalid xmin
    has been placed on the leaf page its key leads to, adding it to the path, while no other
    backend changes the pages or the store (with interference it can fail:
    [empty_stack_adds_twice]), and with any stack, complete or not, of which unchanged
    frames are right, ends without an error and with no page locked.  The entries of the tree are the same
    except that this one has become the transaction's, and all pivots have the aggregates
    and version chains of the entries below them again. *)
Theorem fix_path_keeps_aggregates rel meta ai agg_map_val base Recent pages ch k root c h xmin fuel itup_key args t st d newitemoff postingoff stack leaf_blkno off j u :
  let key := with_scantid itup_key (Some st) in
  rel_ok rel -> key_ok rel key args -> nextkey itup_key = false ->
  agg_typlen ai = 2 \/ agg_typlen ai = 4 \/ agg_typlen ai = 8 ->
  head (it_tids t) = Some st -> inserted_value ai agg_map_val t = Some d -> 0 <= d ->
  xid_ok base xmin -> TransactionIdPrecedes xmin Recent = false ->
  fast_root meta pages root c ->
  shape rel ai (versioned ai agg_map_val base Recent pages ch) pages k root None -> NoDup (tree_blocks pages k root) ->
  Forall (entry_ok base) (tree_entries ai agg_map_val pages k root) ->
  sum_if TransactionIdIsValid (tree_entries ai agg_map_val pages k root) + d < 2 ^ (8 * agg_typlen ai - 1) ->
  (forall lb p, path_leaf rel key pages k root = Some lb -> pages lb = Some p -> holds_entry rel ai agg_map_val key st d p off j u) ->
  (length stack <= k)%nat -> Forall (stack_ok rel key pages (tree_blocks pages k root)) stack -> 1 <= newitemoff ->
  (3 * k + 2 < fuel)%nat -> Z.of_nat k + 1 < 2 ^ 32 ->
  exists pages' ch' c',
    _abt_fix_path_aggregation_itup rel meta ai agg_map_val (add_version_at ai) xmin fuel itup_key t newitemoff postingoff stack leaf_blkno
      (mk_fs pages (mk_bs h c) ch []) = FOk tt (mk_fs pages' (mk_bs h c') ch' []) /\
    shape rel ai (versioned ai agg_map_val base Recent pages' ch') pages' k root None /\
    added xmin d (tree_entries ai agg_map_val pages k root) (tree_entries ai agg_map_val pages' k root) /\
    tree_blocks pages' k root = tree_blocks pages k root /\ (forall b, b ∉ tree_blocks pages k root -> pages' b = pages b).
Proof.
  intros key Hrel Hkey Hnext Htyp Hst Hval Hd Hx Hsafe Hroot Hsh Hnd Hes Hb Hent Hlen Hstk Hnew Hf Hk. unfold _abt_fix_path_aggregation_itup.
  rewrite Hval. rewrite (fbind_ok _ _ _ d (mk_fs pages (mk_bs h c) ch [])) by done. rewrite Hst. fold key.
  destruct fuel as [|fuel]; [lia|]. destruct fuel as [|fuel]; [lia|].
  destruct Hroot as [Hr1 Hr2 (p & Hp & Hlvl) (mp & Hmp) Hc]. destruct (shape_page _ _ _ _ _ _ _ Hsh) as (p' & Hp' & Hig & _ & Hh & _). assert (p' = p) as -> by congruence.
  destruct (getroot_page_run meta pages root p mp (S fuel) h c true) as (c' & Hget & _); try done; [cbn [hikey_matches] in Hh; by rewrite Hh|lia|].
  destruct (path_run rel Hrel meta ai agg_map_val (add_version_at ai) xmin key d args Hkey Hnext st eq_refl off j u newitemoff postingoff leaf_blkno Hnew
    (versioned ai agg_map_val base Recent pages ch) k pages root None [] (_abt_stack_setup_child_link stack) (length stack) fuel h c' ch) as (pages' & ch' & Hadd & Hrun); try done; [| |lia|].
  { apply (setup_levels stack 0 []); [done|simpl; lia]. }
  { apply setup_frames; [constructor|]. eapply Forall_impl; [exact Hstk|]. intros s Hs l q. apply Hs. }
  exists pages', ch', c'. split.
  - remember (S fuel) as n eqn:En. cbn [fix_loop]. unfold fbind at 1, others_run. cbn [fs_others]. rewrite (fbind_ok _ _ _ (Some root) (mk_fs pages (mk_bs (root :: h) c') ch [])).
    + exact Hrun.
    + unfold in_tree. cbn [fs_pages fs_bufs fs_store fs_others]. by rewrite Hget.
  - destruct (add_path_keeps rel Hrel ai agg_map_val base Recent key args Hkey Hnext st d xmin off j u Htyp Hx Hsafe Hd k pages root None ch pages' ch') as [? ? ? ? ?]; done.
Qed.

(** ** A concrete insertion *)

(** The tree of Draw, where an entry of weight 6 has been added to the second leaf. *)
Definition new_tuple : itup := mk_itup [Some 50] 32 None [mk_tid 0 6] [6] [InvalidTransactionId].
Definition new_pages (blk : Z) : option page :=
  if blk =? 3 then
    Some (mk_pg [weighted 30 (mk_tid 0 3) 2 104;
      (false, LeafTup (mk_itup [Some 40] 64 (Some 16) [mk_tid 0 4; mk_tid 0 5] [3; 4] [104; 104])); (false, LeafTup new_tuple)] (mk_opaque 2 0 0 ABTP_LEAF 0))
  else Draw.demo_pages blk.

Lemma new_versioned blk w luid : In (blk, w) [(2, 12); (3, 9)] -> forall key t, versioned demo_ai 0 50 102 new_pages demo_chain 0 (mk_pivot key t blk w luid).
Proof.
  assert (E2 : tree_entries demo_ai 0 new_pages 0 2 = [(104, 5); (105, 7)]) by (vm_compute; reflexivity).
  assert (E3 : tree_entries demo_ai 0 new_pages 0 3 = [(104, 2); (104, 3); (104, 4); (0, 6)]) by (vm_compute; reflexivity).
  assert (Hok : forall x v, 100 <= x < 200 -> 0 <= v -> entry_ok 50 (x, v)) by (intros x v ? ?; split; [intros _; by apply demo_xid_ok|done]).
  assert (H0 : entry_ok 50 (0, 6)) by (by split).
  intros Hin key t. unfold versioned, agg_versioned. cbn [snd pv_downlink pv_agg]. fold (tree_entries demo_ai 0 new_pages 0 blk).
  assert (Hes : Forall (entry_ok 50) (tree_entries demo_ai 0 new_pages 0 blk) /\ sum_if TransactionIdIsValid (tree_entries demo_ai 0 new_pages 0 blk) < 2 ^ 63 /\
    summary 8 102 (page_tree new_pages demo_ai 0 0 blk) = Some (w, demo_chain blk)).
  { destruct Hin as [[= <- <-]|[[= <- <-]|[]]]; rewrite ?E2, ?E3; (split; [|split; vm_compute; reflexivity]);
      repeat (apply Forall_cons; split); try done; apply Hok; lia. }
  destruct Hes as (Hes & Hb & Hs). split; [|done]. destruct (tree_summary 50 8 102 (page_tree new_pages demo_ai 0 0 blk) eq_refl Hes Hb) as (agg & chain & Hs' & Hsu).
  rewrite Hs in Hs'. by injection Hs' as <- <-.
Qed.

Lemma new_leaf blk hk p : new_pages blk = Some p -> ABT_P_IGNORE (pg_opaque p) = false -> is_leaf p = true -> abtpo_level (pg_opaque p) = 0 ->
  hikey_matches demo_rel p hk -> page_ok demo_rel p -> Forall (fun it => leaf_tuple_ok demo_ai (snd it)) (data_items p) ->
  shape demo_rel demo_ai (versioned demo_ai 0 50 102 new_pages demo_chain) new_pages 0 blk hk.
Proof.
  intros Hp Hig Hl Hlv Hh Hok Hall. exists p. split_and!; try done. intros off t Hoff Ht. rewrite Forall_forall in Hall. apply (Hall (off, t)).
  apply data_item; [|done]. pose proof (item_range p off t Hoff Ht). lia.
Qed.

Lemma new_shape : shape demo_rel demo_ai (versioned demo_ai 0 50 102 new_pages demo_chain) new_pages 1 1 None.
Proof.
  eexists. do 4 (split; [reflexivity|]). split; [done|]. split; [demo_page|]. intros off Hoff.
  assert (off = 1 \/ off = 2) as [-> | ->] by (change (1 <= off <= 2) in Hoff; lia).
  - eexists _, _. split; [reflexivity|]. split; [apply new_versioned; by left|]. split; [reflexivity|].
    eapply new_leaf; try reflexivity; [|demo_page|].
    + split; [done|]. split; [split; simpl; [lia|done]|by eexists].
    + match goal with |- Forall _ ?l => let l' := eval vm_compute in l in change l with l' end;
      repeat (apply Forall_cons_2; [split; [done|split; done]|]); apply Forall_nil_2.
  - eexists _, _. split; [reflexivity|]. split; [apply new_versioned; by right; left|]. split; [reflexivity|].
    eapply new_leaf; try reflexivity; [demo_page|].
    match goal with |- Forall _ ?l => let l' := eval vm_compute in l in change l with l' end;
      repeat (apply Forall_cons_2; [split; [done|split; done]|]); apply Forall_nil_2.
Qed.

Lemma fix_path_keeps_aggregates_witness : exists pages' ch' c',
  _abt_fix_path_aggregation_itup demo_rel demo_meta demo_ai 0 (add_version_at demo_ai) 106 6 (demo_key 50 None) new_tuple 3 0 [mk_stack 1 2 0] 3
    (mk_fs new_pages (mk_bs [] None) demo_chain []) = FOk tt (mk_fs pages' (mk_bs [] c') ch' []) /\
  shape demo_rel demo_ai (versioned demo_ai 0 50 102 pages' ch') pages' 1 1 None /\
  added 106 6 (tree_entries demo_ai 0 new_pages 1 1) (tree_entries demo_ai 0 pages' 1 1) /\
  tree_blocks pages' 1 1 = tree_blocks new_pages 1 1 /\ (forall b, b ∉ tree_blocks new_pages 1 1 -> pages' b = new_pages b).
Proof.
  assert (Hes : tree_entries demo_ai 0 new_pages 1 1 = [(104, 5); (105, 7); (104, 2); (104, 3); (104, 4); (0, 6)]) by (vm_compute; reflexivity).
  apply (fix_path_keeps_aggregates demo_rel demo_meta demo_ai 0 50 102 new_pages demo_chain 1 1 None [] 106 6 (demo_key 50 None) [Some 50] new_tuple
    (mk_tid 0 6) 6 3 0 [mk_stack 1 2 0] 3 3 0%nat new_tuple).
  - apply demo_rel_ok.
  - apply demo_key_ok.
  - reflexivity.
  - by right; right.
  - reflexivity.
  - reflexivity.
  - lia.
  - by apply demo_xid_ok.
  - reflexivity.
  - split; [done|done|by eexists|by eexists|by left].
  - apply new_shape.
  - apply (bool_decide_unpack _). vm_compute. exact I.
  - rewrite Hes. repeat (apply Forall_cons_2; [split; [first [done|intros _; by apply demo_xid_ok]|simpl; lia]|]); apply Forall_nil_2.
  - rewrite Hes. vm_compute. reflexivity.
  - intros lb p Hlb. vm_compute in Hlb. injection Hlb as <-. intros [= <-]. split; try done.
    + intros off t Ho Ht. pose proof (item_range _ off t Ho Ht) as Hr. assert (off = 1 \/ off = 2 \/ off = 3) as [->|[->| ->]] by (change (1 <= off <= 3) in Hr; lia);
        injection Ht as <-; by eexists.
    + intros off t j Ho Ht Hj. pose proof (item_range _ off _ Ho Ht) as Hr. assert (off = 1 \/ off = 2 \/ off = 3) as [->|[->| ->]] by (change (1 <= off <= 3) in Hr; lia);
        injection Ht as <-; by destruct j as [|[|j]].
  - simpl. lia.
  - apply Forall_singleton. intros p _ [= <-] _ _. vm_compute. reflexivity.
  - lia.
  - lia.
  - lia.
Defined.

(** ** A value that is added twice *)

(** The tree has grown from a single leaf page to three levels since the descent, so the
    stack is empty and the frame made for the second level has no parent.  When another
    pivot is inserted on that level while its page is not locked, the function starts
    again from the root although the root's aggregate already has the value. *)
Definition grown_pages (luid : Z) (blk : Z) : option page :=
  if blk =? 0 then Some (mk_pg [] (mk_opaque 0 0 0 ABTP_META 0))
  else if blk =? 1 then Some (mk_pg [down [] 2 5; down [Some 30] 3 9] (mk_opaque 0 0 2 ABTP_ROOT 1))
  else if blk =? 2 then Some (mk_pg [hik 30; down [] 4 5] (mk_opaque 0 3 1 0 1))
  else if blk =? 3 then Some (mk_pg [down [] 5 9] (mk_opaque 2 0 1 0 luid))
  else if blk =? 4 then Some (mk_pg [hik 30; weighted 10 (mk_tid 0 1) 5 104] (mk_opaque 0 5 0 ABTP_LEAF 0))
  else if blk =? 5 then Some (mk_pg [weighted 30 (mk_tid 0 3) 9 104; (false, LeafTup new_tuple)] (mk_opaque 4 0 0 ABTP_LEAF 0))
  else None.

(** The page of block 3 changes before it is locked for the second time. *)
Definition change_page3 (pages : Z -> option page) : Z -> option page :=
  fun b => if b =? 3 then (fun p => mk_pg (pg_lines p) (mk_opaque 2 0 1 0 2)) <$> pages b else pages b.

Definition root_agg (r : fresult (Z -> list version) unit) : option Z :=
  match r with FOk _ s => p ← fs_pages s 1; pv_agg <$> pivot_at p 2 | FError _ => None end.

Theorem empty_stack_adds_twice :
  let run others := _abt_fix_path_aggregation_itup demo_rel (mk_meta 1 2 1 2) demo_ai 0 (add_version_at demo_ai) 106 20 (demo_key 50 None) new_tuple 2 0 [] 5
    (mk_fs (grown_pages 1) (mk_bs [] None) (fun _ => []) others) in
  root_agg (run []) = Some (9 + 6) /\ root_agg (run [id; id; id; id; change_page3]) = Some (9 + 6 + 6).
Proof. vm_compute. done. Qed.

End PathSums.
