(* ===== verification/Build.v ===== *)
(** * Building an index

    abtsort.c builds an index bottom up.  The tuples of the heap are spooled and sorted;
    _abt_load packs them into leaf pages from left to right, and every page that is full is
    written out and gets a downlink with the page's aggregate on the page under construction
    one level up, which may be full in turn.  There is one page under construction per level
    ([ABTPageState], the list goes from the leaves to the root).  The file is the list of
    its blocks.  The sort itself is a parameter: [TupleSort] says that it sorts by
    [comparetup_index_btree].  Parallel workers and the WAL are left out, and block numbers
    do not wrap around. *)

From stdpp Require Import base numbers option sorting list.
From S2P Require Import Prelude Tuple Dedup Versions Page Search Truncate SplitLoc Btree Insert.

Module Build.
Import Tuple Dedup Versions Page Search Truncate SplitLoc Btree Insert.

(** ** Errors *)

Inductive build_error :=
  | RowTooLarge             (** _abt_check_third_page *)
  | FailedToAddItem
  | FailedToAddHighKey
  | ValueOutOfRange         (** of the aggregation type's addition or multiplication *)
  | DuplicateKey            (** the sort of a unique index *)
  | BadPage
  | OutOfFuel.

Inductive bres (A : Type) := BOk (a : A) | BError (e : build_error).
Arguments BOk {A} a.
Arguments BError {A} e.

Definition bbind {A B} (m : bres A) (f : A -> bres B) : bres B := match m with BOk a => f a | BError e => BError e end.
Definition bneed {A} (e : build_error) (o : option A) : bres A := match o with Some a => BOk a | None => BError e end.

Declare Scope build_scope.
Notation "'let?' x := m 'in' f" := (bbind m (fun x => f)) (at level 60, x pattern, m at level 59, f at level 60, right associativity) : build_scope.
Open Scope build_scope.

(** ** Pages under construction *)

(** The line pointers, [None] for an unused one, with the lengths and tuples they point to. *)
Record bpage := mk_bp { bp_lines : list (option (Z * index_tuple)); bp_opaque : ABTPageOpaqueData }.

Definition line_space (l : option (Z * index_tuple)) : Z :=
  sizeof_ItemIdData + match l with Some it => MAXALIGN (fst it) | None => 0 end.
Definition used_space (p : bpage) : Z := sumZ (line_space <$> bp_lines p).
Definition bp_maxoff (p : bpage) : Z := Z.of_nat (length (bp_lines p)).
Definition bp_item (p : bpage) (off : Z) : option (Z * index_tuple) :=
  if off <? 1 then None else l ← bp_lines p !! Z.to_nat (off - 1); l.

Definition PageGetFreeSpace (p : bpage) : Z :=
  let space := page_room - used_space p in
  if space <? sizeof_ItemIdData then 0 else space - sizeof_ItemIdData.

(** [None] stands for InvalidOffsetNumber. *)
Definition PageAddItem (p : bpage) (size : Z) (t : index_tuple) (off : Z) : option bpage :=
  if (off <? 1) || (bp_maxoff p + 1 <? off) then None
  else if page_room <? used_space p + line_space (Some (size, t)) then None
  else Some (mk_bp (take (Z.to_nat (off - 1)) (bp_lines p) ++ Some (size, t) :: drop (Z.to_nat (off - 1)) (bp_lines p)) (bp_opaque p)).

(** Replaces the tuple at [off] by one that may be longer; [None] stands for failure. *)
Definition PageIndexTupleOverwrite (p : bpage) (off : Z) (size : Z) (t : index_tuple) : option bpage :=
  old ← bp_item p off;
  if MAXALIGN (fst old) + (page_room - used_space p) <? MAXALIGN size then None
  else Some (mk_bp (<[Z.to_nat (off - 1) := Some (size, t)]> (bp_lines p)) (bp_opaque p)).

(** A new page, on which the line pointer of the high key appears allocated. *)
Definition _abt_blnewpage (level : Z) : bpage :=
  mk_bp [None] (mk_opaque ABTP_NONE ABTP_NONE level (if 0 <? level then 0 else ABTP_LEAF) ABT_MIN_LAST_UPDATE_ID).

(** Line pointers move back by one slot, over the one of the high key. *)
Definition _abt_slideleft (p : bpage) : bpage := mk_bp (tail (bp_lines p)) (bp_opaque p).

(** ** The file *)

Inductive block := ZeroBlock | TreeBlock (p : bpage) | MetaBlock (m : ABTMetaPageData).

(** [btws_file] has the btws_pages_written blocks written so far. *)
Record ABTWriteState := mk_ws { btws_pages_alloced : Z; btws_file : list block }.
Definition btws_pages_written (ws : ABTWriteState) : Z := Z.of_nat (length (btws_file ws)).

Definition _abt_blwritepage (ws : ABTWriteState) (page : block) (blkno : Z) : ABTWriteState :=
  let file := btws_file ws ++ replicate (Z.to_nat (blkno - btws_pages_written ws)) ZeroBlock in
  mk_ws (btws_pages_alloced ws)
    (if blkno =? Z.of_nat (length file) then file ++ [page] else <[Z.to_nat blkno := page]> file).

Definition alloc_page (ws : ABTWriteState) : Z * ABTWriteState :=
  (btws_pages_alloced ws, mk_ws (btws_pages_alloced ws + 1) (btws_file ws)).

Record ABTPageState := mk_ps {
  abtps_page : bpage;
  abtps_blkno : Z;
  abtps_lowkey : option (Z * pivot);     (** its size, and the tuple *)
  abtps_lastoff : Z;
  abtps_lastextra : Z;
  abtps_level : Z;
  abtps_full : Z;
  abtps_agg : Z
}.

Section Build.
Context (rel : index_rel) (ai : agg_info) (index_form_size : list (option Z) -> Z).
(** The constant value of an entry, or the function that computes it. *)
Context (agg_map_val : Z) (agg_map_fn : itup -> Z).
Context (fillfactor : Z) (inskey : ABTScanInsertData).
Abbreviation typlen := (agg_typlen ai).

Definition ABTGetTargetPageFreeSpace : Z := BLCKSZ * (100 - fillfactor) / 100.

Definition _abt_pagestate (ws : ABTWriteState) (level : Z) : ABTWriteState * ABTPageState :=
  let '(blkno, ws) := alloc_page ws in
  (ws, mk_ps (_abt_blnewpage level) blkno None ABTP_HIKEY 0 level
    (if 0 <? level then BLCKSZ * (100 - ABTREE_NONLEAF_FILLFACTOR) / 100 else ABTGetTargetPageFreeSpace) 0).

(** ** Aggregates *)

(** int2mul, int4mul and int8mul. *)
Definition int_mul (a b : Z) : option Z :=
  let s := a * b in
  if (- 2 ^ (8 * typlen - 1) <=? s) && (s <? 2 ^ (8 * typlen - 1)) then Some s else None.
Definition ABTreeComputeProductOfAggAndInt2 (agg n : Z) : option Z := int_mul agg (i16 n).

Definition _abt_accum_value (acc v : Z) (is_first : bool) : option Z :=
  if is_first then Some v else int_add typlen acc v.
Fixpoint accum_values (acc : Z) (l : list Z) : option Z :=
  match l with [] => Some acc | v :: l => acc ← _abt_accum_value acc v false; accum_values acc l end.

Definition _abt_accum_index_tuple_value (agg : Z) (t : index_tuple) (is_leaf is_first : bool) : option Z :=
  if is_leaf && negb (leaf_has_agg ai) then
    if ABTreeTupleIsPosting t then
      v ← ABTreeComputeProductOfAggAndInt2 agg_map_val (ABTreeTupleGetNPosting t);
      _abt_accum_value agg v is_first
    else _abt_accum_value agg agg_map_val is_first
  else
    match t with
    | LeafTup t =>
        v ← head (it_aggs t);
        agg ← _abt_accum_value agg v is_first;
        if is_posting t then accum_values agg (tail (it_aggs t)) else Some agg
    | PivotTup pv => _abt_accum_value agg (pv_agg pv) is_first
    end.

(** The aggregate of the page with its last item, which [agg] does not have yet. *)
Definition _abt_accum_last_tuple_on_page (p : bpage) (agg last_off : Z) (is_leaf : bool) : bres Z :=
  if last_off =? ABTP_HIKEY then BOk agg
  else
    let? it := bneed BadPage (bp_item p last_off) in
    bneed ValueOutOfRange (_abt_accum_index_tuple_value agg (snd it) is_leaf (last_off =? ABTP_FIRSTKEY)).

(** The value and the xmin of the entries of a new leaf tuple, and the update id of a new
    pivot. *)
Definition FrozenTransactionId : Z := 2.
Definition set_values (t : index_tuple) : index_tuple :=
  match t with
  | LeafTup t =>
      let n := if is_posting t then length (it_tids t) else 1%nat in
      LeafTup (mk_itup (it_key t) (it_size t) (it_postingoff t) (it_tids t)
        (if leaf_has_agg ai then replicate n (agg_map_fn t) else it_aggs t) (replicate n FrozenTransactionId))
  | PivotTup pv => PivotTup (mk_pivot (pv_key pv) (pv_tid pv) (pv_downlink pv) (pv_agg pv) ABT_MIN_LAST_UPDATE_ID)
  end.

(** ** Adding an item *)

Definition _abt_sortaddtup (p : bpage) (itemsize : Z) (itup : index_tuple) (itup_off : Z) (newfirstdataitem : bool) : option bpage :=
  if newfirstdataitem then
    truncated ← minus_infinity itup;
    PageAddItem p (MAXALIGN sizeof_IndexTupleData + extra_space_when_tid_missing ai) truncated itup_off
  else PageAddItem p itemsize itup itup_off.

(** The last item becomes the high key. *)
Definition move_last (p : bpage) (last_off : Z) : bpage :=
  mk_bp (<[0%nat := bp_item p last_off]> (take (Z.to_nat (last_off - 1)) (bp_lines p))) (bp_opaque p).

(** The new high key of a page whose last item [oitup] has moved to the next page, and the
    low key of the next page. *)
Definition new_high_key (isleaf : bool) (lastleft : option (Z * index_tuple)) (oitup : Z * index_tuple) : option ((Z * index_tuple) * (Z * pivot)) :=
  match snd oitup with
  | LeafTup oleaf =>
      if isleaf then
        lastleft ← lastleft;
        match snd lastleft with
        | LeafTup lastleft =>
            tr ← _abt_truncate rel ai index_form_size lastleft oleaf inskey;
            Some ((tr_size tr, PivotTup (tr_pivot tr)), (reserved_size ai tr, tr_pivot tr))
        | PivotTup _ => None
        end
      else None
  | PivotTup pv => if isleaf then None else hk ← purge_agg_space ai (fst oitup) (snd oitup); Some (hk, (fst oitup, pv))
  end.

Definition set_links (p : bpage) (prev next : Z) : bpage :=
  mk_bp (bp_lines p) (mk_opaque prev next (abtpo_level (bp_opaque p)) (abtpo_flags (bp_opaque p)) (abtpo_last_update_id (bp_opaque p))).

(** The downlink for a page, from its low key. *)
Definition downlink (lowkey : Z * pivot) (blkno agg : Z) : Z * index_tuple :=
  (fst lowkey, PivotTup (mk_pivot (pv_key (snd lowkey)) (pv_tid (snd lowkey)) blkno agg (pv_last_update_id (snd lowkey)))).

(** Finishes the page of [state] and starts the next one on its level, with the last item as
    its first; [add] adds the downlink to the levels above.  Returns the new page, its block
    and its low key. *)
Definition finish_page (add : ABTWriteState -> list ABTPageState -> Z * index_tuple -> bres (ABTWriteState * list ABTPageState))
    (ws : ABTWriteState) (state : ABTPageState) (next : list ABTPageState) :
    bres (ABTWriteState * list ABTPageState * (bpage * Z * (Z * pivot))) :=
  let isleaf := abtps_level state =? 0 in
  let opage := abtps_page state in
  let oblkno := abtps_blkno state in
  let last_off := abtps_lastoff state in
  let npage := _abt_blnewpage (abtps_level state) in
  let '(nblkno, ws) := alloc_page ws in
  let? ii := bneed BadPage (bp_item opage last_off) in
  let? npage := bneed FailedToAddItem (_abt_sortaddtup npage (fst ii) (snd ii) ABTP_FIRSTKEY (negb isleaf)) in
  let opage := move_last opage last_off in
  let? (hikey, lowkey) := bneed BadPage (new_high_key isleaf (bp_item opage (OffsetNumberPrev last_off)) ii) in
  let? opage := bneed FailedToAddHighKey (PageIndexTupleOverwrite opage ABTP_HIKEY (fst hikey) (snd hikey)) in
  let '(ws, next) := match next with [] => let '(ws, s) := _abt_pagestate ws (abtps_level state + 1) in (ws, [s]) | _ => (ws, next) end in
  let? olowkey := bneed BadPage (abtps_lowkey state) in
  let? (ws, next) := add ws next (downlink olowkey oblkno (abtps_agg state)) in
  let opage := set_links opage (abtpo_prev (bp_opaque opage)) nblkno in
  let npage := set_links npage oblkno ABTP_NONE in
  BOk (_abt_blwritepage ws (TreeBlock opage) oblkno, next, (npage, nblkno, lowkey)).

(** The size check of a new item. *)
Definition size_allowed (isleaf : bool) (size : Z) : bool :=
  let itupsz := MAXALIGN size in
  negb (ABTMaxItemSize ai <? (if isleaf then u64 (itupsz - extra_space_for_nonpivot_tuple ai) else itupsz)) || _abt_check_third_page ai isleaf size.

Definition page_full (state : ABTPageState) (isleaf : bool) (itupsz : Z) : bool :=
  let pgspc := PageGetFreeSpace (abtps_page state) in
  (pgspc <? itupsz + (if isleaf then MAXALIGN sizeof_ItemPointerData else 0)) ||
  ((pgspc + abtps_lastextra state <? abtps_full state) && (ABTP_FIRSTKEY <? abtps_lastoff state)).

(** The low key of the first page of a level. *)
Definition first_lowkey : Z * pivot := (MAXALIGN sizeof_IndexTupleData + extra_space_when_tid_missing ai, mk_pivot [] None 0 0 0).

(** _abt_buildadd; the fuel bounds the levels above. *)
Fixpoint buildadd (fuel : nat) (ws : ABTWriteState) (states : list ABTPageState) (itup : Z * index_tuple) (truncextra : Z) :
    bres (ABTWriteState * list ABTPageState) :=
  match fuel, states with
  | S fuel, state :: next =>
      let itupsz := MAXALIGN (fst itup) in
      let isleaf := abtps_level state =? 0 in
      if negb (size_allowed isleaf (fst itup)) then BError RowTooLarge
      else
        let? (ws, next, (npage, nblkno, last_off, lowkey)) :=
          (if page_full state isleaf itupsz then
             let? (ws, next, (npage, nblkno, lowkey)) := finish_page (fun ws states itup => buildadd fuel ws states itup 0) ws state next in
             BOk (ws, next, (npage, nblkno, ABTP_FIRSTKEY, Some lowkey))
           else BOk (ws, next, (abtps_page state, abtps_blkno state, abtps_lastoff state, abtps_lowkey state))) in
        let lowkey := if last_off =? ABTP_HIKEY then Some first_lowkey else lowkey in
        let itup := set_values (snd itup) in
        let? agg := _abt_accum_last_tuple_on_page npage (abtps_agg state) last_off isleaf in
        let last_off := OffsetNumberNext last_off in
        let? npage := bneed FailedToAddItem (_abt_sortaddtup npage itupsz itup last_off (negb isleaf && (last_off =? ABTP_FIRSTKEY))) in
        BOk (ws, mk_ps npage nblkno lowkey last_off truncextra (abtps_level state) (abtps_full state) agg :: next)
  | _, _ => BError OutOfFuel
  end.
Definition _abt_buildadd (ws : ABTWriteState) (states : list ABTPageState) (itup : Z * index_tuple) (truncextra : Z) :
    bres (ABTWriteState * list ABTPageState) := buildadd (S (S (length states))) ws states itup truncextra.

(** ** Finishing the tree *)

Definition set_root (p : bpage) : bpage :=
  let o := bp_opaque p in
  mk_bp (bp_lines p) (mk_opaque (abtpo_prev o) (abtpo_next o) (abtpo_level o) (Z.lor (abtpo_flags o) ABTP_ROOT) (abtpo_last_update_id o)).

(** One round per level; the root is the last. *)
Fixpoint shutdown (fuel : nat) (ws : ABTWriteState) (states : list ABTPageState) : bres (ABTWriteState * Z * Z) :=
  match fuel, states with
  | S fuel, s :: next =>
      let? agg := _abt_accum_last_tuple_on_page (abtps_page s) (abtps_agg s) (abtps_lastoff s) (abtps_level s =? 0) in
      match next with
      | [] => BOk (_abt_blwritepage ws (TreeBlock (_abt_slideleft (set_root (abtps_page s)))) (abtps_blkno s), abtps_blkno s, abtps_level s)
      | _ =>
          let? lowkey := bneed BadPage (abtps_lowkey s) in
          let? (ws, next) := _abt_buildadd ws next (downlink lowkey (abtps_blkno s) agg) 0 in
          shutdown fuel (_abt_blwritepage ws (TreeBlock (_abt_slideleft (abtps_page s))) (abtps_blkno s)) next
      end
  | O, _ :: _ => BError OutOfFuel
  | _, [] => BOk (ws, ABTP_NONE, 0)
  end.

Definition _abt_uppershutdown (fuel : nat) (ws : ABTWriteState) (states : list ABTPageState) : bres ABTWriteState :=
  let? (ws, rootblkno, rootlevel) := shutdown fuel ws states in
  BOk (_abt_blwritepage ws (MetaBlock (mk_meta rootblkno rootlevel rootblkno rootlevel)) ABTREE_METAPAGE).

(** ** Loading the sorted tuples *)

(** When we see the first tuple, create the first index page. *)
Definition first_page (ws : ABTWriteState) (states : list ABTPageState) : ABTWriteState * list ABTPageState :=
  match states with [] => let '(ws, s) := _abt_pagestate ws 0 in (ws, [s]) | _ => (ws, states) end.

Definition add_leaf (ws : ABTWriteState) (states : list ABTPageState) (t : itup) (truncextra : Z) : bres (ABTWriteState * list ABTPageState) :=
  _abt_buildadd ws states (it_size t, LeafTup t) truncextra.

Fixpoint load_plain (ws : ABTWriteState) (states : list ABTPageState) (l : list itup) : bres (ABTWriteState * list ABTPageState) :=
  match l with
  | [] => BOk (ws, states)
  | itup :: l =>
      let '(ws, states) := first_page ws states in
      let? (ws, states) := add_leaf ws states itup 0 in load_plain ws states l
  end.

Definition ApplySortComparator (c : column) (a b : option Z) : Z :=
  match a, b with
  | None, None => 0
  | None, Some _ => if col_nulls_first c then -1 else 1
  | Some _, None => if col_nulls_first c then 1 else -1
  | Some a, Some b => let compare := col_cmp c a b in if col_desc c then INVERT_COMPARE_RESULT compare else compare
  end.
Fixpoint compare_keys (cols : list column) (k1 k2 : list (option Z)) : Z :=
  match cols, k1, k2 with
  | c :: cols, a :: k1, b :: k2 => let compare := ApplySortComparator c a b in if compare =? 0 then compare_keys cols k1 k2 else compare
  | _, _, _ => 0
  end.

(** comparetup_index_btree without abbreviated keys; [None] stands for the error of a
    duplicate in a unique index. *)
Definition comparetup_index_btree (enforceUnique : bool) (tuple1 tuple2 : itup) : option Z :=
  let compare := compare_keys (rd_cols rel) (it_key tuple1) (it_key tuple2) in
  if negb (compare =? 0) then Some compare
  else
    let equal_hasnull := existsb (fun a => match a with None => true | Some _ => false end) (take (length (rd_cols rel)) (it_key tuple1)) in
    if enforceUnique && negb equal_hasnull then None
    else Some (match head (it_tids tuple1), head (it_tids tuple2) with
               | Some a, Some b =>
                   if negb (ip_blkid a =? ip_blkid b) then (if ip_blkid a <? ip_blkid b then -1 else 1)
                   else if negb (ip_posid a =? ip_posid b) then (if ip_posid a <? ip_posid b then -1 else 1)
                   else 0
               | _, _ => 0
               end).

(** Does the tuple of the first spool come next? *)
Definition load1 (t1 t2 : itup) : option bool :=
  let compare := compare_keys (rd_cols rel) (it_key t1) (it_key t2) in
  if compare =? 0 then a ← head (it_tids t1); b ← head (it_tids t2); Some (negb (0 <? ItemPointerCompare a b))
  else Some (compare <? 0).

(** The merge of the two spools; [None] when a tuple has no TID. *)
Fixpoint merge_spools (l1 : list itup) : list itup -> option (list itup) :=
  match l1 with
  | [] => Some
  | itup :: l1' => fix merge2 (l2 : list Dedup.itup) : option (list Dedup.itup) :=
      match l2 with
      | [] => Some (itup :: l1')
      | itup2 :: l2' =>
          b ← load1 itup itup2;
          if (b : bool) then cons itup <$> merge_spools l1' l2 else cons itup2 <$> merge2 l2'
      end
  end.

(** _abt_sort_dedup_finish_pending: the tuple it adds, its truncextra, and the new state. *)
Definition pending_tuple (st : dedup_state) : itup * Z :=
  if nitems st =? 1 then (base st, 0)
  else let postingtuple := _abt_form_posting ai (base st) (htids st) in
       (postingtuple, it_size postingtuple - default 0 (it_postingoff postingtuple)).
Definition reset_dedup (st : dedup_state) : dedup_state :=
  mk_state (deduplicate st) (save_extra st) 0 (maxpostingsize st) (base st) (baseoff st) (basetupsize st) [] (aggs st) (xmins st) 0 0 (intervals st).

Definition finish_pending (ws : ABTWriteState) (states : list ABTPageState) (st : dedup_state) : bres (ABTWriteState * list ABTPageState * dedup_state) :=
  let '(t, truncextra) := pending_tuple st in
  let? (ws, states) := add_leaf ws states t truncextra in BOk (ws, states, reset_dedup st).

Definition build_maxpostingsize : Z := MAXALIGN_DOWN (BLCKSZ * 10 / 100) - sizeof_ItemIdData.
(** The state before the first tuple, whose base is not set yet. *)
Definition dedup_init (b : itup) : dedup_state := mk_state true false 0 build_maxpostingsize b InvalidOffsetNumber 0 [] [] [] 0 0 [].

Fixpoint load_dedup (ws : ABTWriteState) (states : list ABTPageState) (st : dedup_state) (l : list itup) : bres (ABTWriteState * list ABTPageState * dedup_state) :=
  match l with
  | [] => BOk (ws, states, st)
  | itup :: l =>
      let '(st', saved) := if (0 <? nhtids st) && same_key (length (rd_cols rel)) (base st) itup then _abt_dedup_save_htid ai st itup else (st, false) in
      if saved then load_dedup ws states st' l
      else
        let? (ws, states, st) := finish_pending ws states st' in
        load_dedup ws states (_abt_dedup_start_pending ai st itup InvalidOffsetNumber) l
  end.

Definition _abt_load (fuel : nat) (ws : ABTWriteState) (isunique allow_dedup : bool) (spool : list itup) (spool2 : option (list itup)) : bres ABTWriteState :=
  let deduplicate := rd_allequalimage rel && negb isunique && allow_dedup in
  let? (ws, states) :=
    match spool2 with
    | Some spool2 => let? l := bneed BadPage (merge_spools spool spool2) in load_plain ws [] l
    | None =>
        if deduplicate then
          match spool with
          | [] => BOk (ws, [])
          | itup :: l =>
              let '(ws, states) := first_page ws [] in
              let? (ws, states, st) := load_dedup ws states (_abt_dedup_start_pending ai (dedup_init itup) itup InvalidOffsetNumber) l in
              let? (ws, states, _) := finish_pending ws states st in BOk (ws, states)
          end
        else load_plain ws [] spool
    end in
  _abt_uppershutdown fuel ws states.

(** ** From the heap *)

(** A heap tuple as the scan of the heap passes it on: TID, column values, is it alive? *)
Record heap_tuple := mk_heap { ht_self : tid; ht_values : list (option Z); ht_alive : bool }.

(** tuplesort_putindextuplevalues_with_extra: the tuple with zeroed extra space. *)
Definition spooled (h : heap_tuple) : itup :=
  mk_itup (ht_values h) (index_form_size (ht_values h) + extra_space_for_nonpivot_tuple ai) None [ht_self h] (zero_aggs ai 1) [0].

(** _abt_build_callback on every tuple of the heap; the second spool exists if the index is
    unique. *)
Record ABTBuildState := mk_build { havedead : bool; bs_spool : list itup; bs_spool2 : option (list itup); indtuples : Z }.
Definition _abt_build_callback (st : ABTBuildState) (h : heap_tuple) : ABTBuildState :=
  match bs_spool2 st with
  | Some spool2 =>
      if ht_alive h then mk_build (havedead st) (bs_spool st ++ [spooled h]) (Some spool2) (indtuples st + 1)
      else mk_build true (bs_spool st) (Some (spool2 ++ [spooled h])) (indtuples st + 1)
  | None => mk_build (havedead st) (bs_spool st ++ [spooled h]) None (indtuples st + 1)
  end.

Definition _abt_spools_heapscan (isunique : bool) (heap : list heap_tuple) : ABTBuildState :=
  let st := fold_left _abt_build_callback heap (mk_build false [] (if isunique then Some [] else None) 0) in
  if havedead st then st else mk_build false (bs_spool st) None (indtuples st).

(** tuplesort_performsort: [None] stands for an error of the comparison. *)
Context (performsort : bool -> list itup -> option (list itup)).

Definition _abt_leafbuild (fuel : nat) (isunique allow_dedup : bool) (st : ABTBuildState) : bres ABTWriteState :=
  let? spool := bneed DuplicateKey (performsort isunique (bs_spool st)) in
  let? spool2 := match bs_spool2 st with None => BOk None | Some l => let? l := bneed DuplicateKey (performsort false l) in BOk (Some l) end in
  _abt_load fuel (mk_ws (ABTREE_METAPAGE + 1) []) isunique allow_dedup spool spool2.

(** The file of the index and the number of its tuples. *)
Definition abtbuild (fuel : nat) (isunique allow_dedup : bool) (heap : list heap_tuple) : bres (ABTWriteState * Z) :=
  let st := _abt_spools_heapscan isunique heap in
  let? ws := _abt_leafbuild fuel isunique allow_dedup st in BOk (ws, indtuples st).

(** A sort by the comparison function: it fails if the comparison of two of the tuples
    does, and else puts them in order. *)
Definition tuple_le (u : bool) (a b : itup) : Prop := exists r, comparetup_index_btree u a b = Some r /\ r <= 0.
Definition tuples_conflict (u : bool) (l : list itup) : Prop :=
  exists i j a b, (i < j)%nat /\ l !! i = Some a /\ l !! j = Some b /\ (comparetup_index_btree u a b = None \/ comparetup_index_btree u b a = None).
Definition sortable (t : itup) : Prop := (length (rd_cols rel) <= length (it_key t))%nat /\ exists h, it_tids t = [h].

End Build.

Class TupleSort (rel : index_rel) (performsort : bool -> list itup -> option (list itup)) : Prop := {
  ts_sorted u l l' : rel_ok rel -> Forall (sortable rel) l -> performsort u l = Some l' -> l' ≡ₚ l /\ StronglySorted (tuple_le rel u) l';
  ts_error u l : rel_ok rel -> Forall (sortable rel) l -> performsort u l = None <-> tuples_conflict rel u l
}.
End Build.
