(* ===== verification/BuildTree.v ===== *)
(** * The tree a build makes

    The pages of a level are described by the items that were added to it, cut into
    segments, one per page: the page's items are those of its segment, its high key is made
    from the last item of the segment and the first of the next one, and the segment's low
    key, block and sum are the item added to the level above.  The construction keeps this
    description while it runs ([inv]); at the end it gives a tree that searches, scans,
    draws and insertions work on. *)

From stdpp Require Import base numbers option sorting list.
From S2P Require Import Prelude Tuple Dedup Versions Page Search Truncate SplitLoc Btree Insert PathSums Build.

Module BuildTree.
Import Tuple Dedup Versions Page Search Truncate SplitLoc Btree Insert PathSums Build.

(** ** Order *)

Section Order.
Context (rel : index_rel) (Hrel : rel_ok rel).

Lemma tid_lt_le a b c : ItemPointerCompare a b < 0 -> ItemPointerCompare b c <= 0 -> ItemPointerCompare a c < 0.
Proof. unfold ItemPointerCompare. repeat if_case; lia. Qed.

Lemma tuple_tids t lo : tuple_ok rel t -> ABTreeTupleGetHeapTID t = Some lo ->
  exists hi, ABTreeTupleGetMaxHeapTID t = Some hi /\ ItemPointerCompare lo hi <= 0.
Proof.
  intros Hok Hlo. destruct (heap_tid_max rel t lo Hok Hlo) as [hi Hhi]. exists hi. split; [done|]. by apply (heap_tid_range rel t lo hi).
Qed.

Lemma tuple_before_trans a b c : tuple_ok rel b -> tuple_before rel a b -> tuple_before rel b c -> tuple_before rel a c.
Proof.
  intros Hok Hab Hbc. pose proof (lexcmp_trans (rd_cols rel) (tuple_key a) (tuple_key b) (tuple_key c) (rel_cols rel Hrel)) as Htr.
  unfold tuple_before in *. cbv zeta in *.
  destruct (Z.lt_ge_cases (lexcmp (rd_cols rel) (tuple_key a) (tuple_key c)) 0) as [|Hge]; [by left|]. right.
  destruct Hab as [Hab|[Hab Hta]]; [destruct Htr; lia|]. destruct Hbc as [Hbc|[Hbc Htb]]; [destruct Htr; lia|]. split; [lia|].
  unfold tid_before in *. destruct (ABTreeTupleGetMaxHeapTID a) as [x|]; [|done]. destruct (ABTreeTupleGetHeapTID b) as [lo|] eqn:Elo; [|done].
  destruct (tuple_tids b lo Hok Elo) as (hi & Ehi & Hle). rewrite Ehi in Htb. destruct (ABTreeTupleGetHeapTID c) as [y|]; [|done].
  pose proof (tid_lt_le x lo hi). pose proof (tid_lt_le x hi y). lia.
Qed.

Lemma before_upto p l f : tuple_ok rel (LeafTup l) -> tuple_before rel p (LeafTup l) -> tuple_upto rel (LeafTup l) f -> tuple_before rel p f.
Proof.
  intros Hok Hb Hu. pose proof (lexcmp_trans (rd_cols rel) (tuple_key p) (it_key l) (tuple_key f) (rel_cols rel Hrel)) as Htr.
  unfold tuple_before, tuple_upto in *. cbn [tuple_key] in *. cbv zeta in *.
  destruct (Z.lt_ge_cases (lexcmp (rd_cols rel) (tuple_key p) (tuple_key f)) 0) as [|Hge]; [by left|]. right.
  destruct Hb as [Hb|[Hb Ht]]; [destruct Htr; lia|]. destruct Hu as [Hu|[Hu Hv]]; [destruct Htr; lia|]. split; [lia|].
  unfold tid_before in *. destruct (ABTreeTupleGetMaxHeapTID p) as [x|]; [|done]. destruct (leaf_tid_range rel l Hok) as (lo & hi & Elo & Ehi & Hle).
  rewrite Elo in Ht. rewrite Ehi in Hv. destruct (ABTreeTupleGetHeapTID f) as [y|]; [|done].
  pose proof (tid_lt_le x lo hi). pose proof (tid_lt_le x hi y). lia.
Qed.

(** Only the key and the TID of a pivot matter. *)
Lemma same_fence_before t t' u : same_fence t t' -> tuple_before rel t u <-> tuple_before rel t' u.
Proof. destruct t as [|p], t' as [|p']; try done. intros [Hk Ht]. unfold tuple_before, tid_before. cbn. by rewrite Hk, Ht. Qed.
Lemma same_fence_after t t' u : same_fence t t' -> tuple_before rel u t <-> tuple_before rel u t'.
Proof. destruct t as [|p], t' as [|p']; try done. intros [Hk Ht]. unfold tuple_before, tid_before. cbn. by rewrite Hk, Ht. Qed.

End Order.

(** ** Levels *)

Abbreviation item := (Z * index_tuple)%type.
Abbreviation seg := (Z * list item)%type.

Section Levels.
Context (rel : index_rel) (ai : agg_info) (index_form_size : list (option Z) -> Z).
Context (agg_map_val : Z) (inskey : ABTScanInsertData).
Abbreviation typlen := (agg_typlen ai).

Definition leaf_value (t : itup) : Z :=
  if leaf_has_agg ai then sumZ (it_aggs t) else agg_map_val * Z.of_nat (length (it_tids t)).
Definition item_value (it : item) : Z := match snd it with LeafTup t => leaf_value t | PivotTup pv => pv_agg pv end.
Definition sum_of (l : list item) : Z := sumZ (item_value <$> l).

(** What may be added to a level. *)
Record leaf_ok (t : itup) : Prop := {
  lf_tuple : tuple_ok rel (LeafTup t);
  lf_size : 0 <= it_size t /\ it_size t mod 8 = 0;
  lf_key : key_size ai t mod 8 = 0 /\ index_form_size (it_key t) <= key_size ai t /\ key_size ai t + extra_space_for_nonpivot_tuple ai <= it_size t;
  lf_allowed : size_allowed ai true (it_size t) = true /\ it_size t < 2 ^ 63;
  lf_entries : leaf_tuple_ok ai (LeafTup t);
  lf_tids : Z.of_nat (length (it_tids t)) < 2 ^ 15 /\ sizeof_ItemPointerData * Z.of_nat (length (it_tids t)) <= it_size t;
  lf_aggs : Forall (fun v => 0 <= v) (it_aggs t)
}.
Definition pivot_ok (size : Z) (pv : pivot) : Prop :=
  tuple_ok rel (PivotTup pv) /\ size mod 8 = 0 /\ 0 < size <= 2704 /\ 0 <= pv_agg pv.
Definition item_ok (lvl : nat) (it : item) : Prop :=
  match lvl, snd it with
  | O, LeafTup t => fst it = it_size t /\ leaf_ok t
  | S _, PivotTup pv => pivot_ok (fst it) pv
  | _, _ => False
  end.
Definition item_before (a b : item) : Prop := tuple_before rel (snd a) (snd b) /\ tuple_key (snd b) <> [].

Record inputs_ok (lvl : nat) (l : list item) : Prop := {
  io_items : Forall (item_ok lvl) l;
  io_sorted : StronglySorted item_before l;
  io_sum : sum_of l < 2 ^ (8 * typlen - 1)
}.

(** The high key between two pages, and the low key of the second. *)
Definition fence (lvl : nat) (prev cur : list item) : option (item * (Z * pivot)) :=
  it ← head cur; new_high_key rel ai index_form_size inskey (lvl =? 0)%nat (last prev) it.
Definition low_key (lvl : nat) (prev : option (list item)) (cur : list item) : option (Z * pivot) :=
  match prev with None => Some (first_lowkey ai) | Some prev => snd <$> fence lvl prev cur end.

(** The item for a page on the level above. *)
Definition link (lk : Z * pivot) (b agg : Z) : item :=
  (fst lk, PivotTup (mk_pivot (pv_key (snd lk)) (pv_tid (snd lk)) b agg ABT_MIN_LAST_UPDATE_ID)).
Fixpoint parents (lvl : nat) (prev : option (list item)) (segs : list seg) : list item :=
  match segs with
  | [] => []
  | (b, ins) :: segs => link (default (first_lowkey ai) (low_key lvl prev ins)) b (sum_of ins) :: parents lvl (Some ins) segs
  end.

Lemma sum_of_app l k : sum_of (l ++ k) = sum_of l + sum_of k.
Proof. unfold sum_of. by rewrite fmap_app, sumZ_app. Qed.
Lemma sum_of_cons x l : sum_of (x :: l) = item_value x + sum_of l.
Proof. done. Qed.

Lemma parents_sum lvl prev segs : sum_of (parents lvl prev segs) = sum_of (segs ≫= snd).
Proof.
  revert prev. induction segs as [|[b ins] segs IH]; intros prev; [done|]. cbn [parents]. rewrite sum_of_cons, IH, bind_cons, sum_of_app. done.
Qed.

Lemma parents_app lvl prev segs b ins : parents lvl prev (segs ++ [(b, ins)]) = parents lvl prev segs ++
  [link (default (first_lowkey ai) (low_key lvl (match last segs with Some s => Some (snd s) | None => prev end) ins)) b (sum_of ins)].
Proof.
  revert prev. induction segs as [|[b' ins'] segs IH]; intros prev; [done|]. cbn [app parents]. rewrite IH. f_equal. f_equal. f_equal. f_equal. f_equal.
  rewrite last_cons. destruct (last segs) as [[? ?]|]; done.
Qed.

Lemma parents_length lvl prev segs : length (parents lvl prev segs) = length segs.
Proof. revert prev. induction segs as [|[b ins] segs IH]; intros prev; [done|]. simpl. by rewrite IH. Qed.

(** *** Ordered inputs give ordered downlinks *)

Context (Hrel : rel_ok rel) (Hcols : rd_cols rel <> []) (Hkey : full_key rel inskey).
Context (ai0 : agg_info) (Hai : ai = _abt_compute_tuple_offsets ai0) (Htyp : typlen = 2 \/ typlen = 4 \/ typlen = 8).
Context (Hform : forall n k, index_form_size (take n k) <= index_form_size k) (Hform8 : forall k, 0 <= index_form_size k /\ index_form_size k mod 8 = 0).
Context (Hmap : 0 <= agg_map_val).

Lemma spaces : extra_space_when_tid_present ai = 16 /\ 8 <= extra_space_when_tid_missing ai <= 16 /\ extra_space_when_tid_missing ai mod 8 = 0 /\
  extra_space_for_nonpivot_tuple ai = (if leaf_has_agg ai then extra_space_when_tid_missing ai else 8).
Proof.
  rewrite Hai in *. unfold _abt_compute_tuple_offsets, sizeof_ABTLastUpdateId, sizeof_ItemPointerData, sizeof_TransactionId in *.
  cbn [agg_typlen leaf_has_agg extra_space_for_nonpivot_tuple extra_space_when_tid_missing extra_space_when_tid_present] in *.
  destruct Htyp as [-> | [-> | ->]]; destruct (leaf_has_agg ai0); vm_compute; repeat split; congruence.
Qed.

Lemma max_size : ABTMaxItemSize ai = 2688.
Proof. unfold ABTMaxItemSize. by rewrite (proj1 spaces). Qed.

Lemma leaf_bounds t : leaf_ok t -> 0 <= key_size ai t <= 2688 /\ it_size t <= 2704.
Proof.
  intros [_ [Hs Hs8] (Hk8 & Hk & Hke) [Ha Hb] _ _ _]. pose proof (proj1 (Hform8 (it_key t))). destruct spaces as (_ & Hem & _ & Hex).
  unfold size_allowed, _abt_check_third_page in Ha. cbn [negb] in Ha. rewrite max_size, (MAXALIGN_id (it_size t)) in Ha by done.
  rewrite u64_small in Ha by (destruct (leaf_has_agg ai); lia).
  enough (it_size t - extra_space_for_nonpivot_tuple ai <= 2688) by (destruct (leaf_has_agg ai); lia).
  destruct (2688 <? it_size t - extra_space_for_nonpivot_tuple ai) eqn:E; zbool; [|lia]. cbn [negb orb] in Ha. zbool.
  destruct (leaf_has_agg ai); [|lia]. pose proof (proj1 (MAXALIGN_spec (it_size t - extra_space_when_tid_missing ai))). lia.
Qed.

Definition at_or_after (p : index_tuple) (a : item) : Prop := same_fence p (snd a) \/ tuple_before rel p (snd a).

Record fence_ok (lvl : nat) (prev cur : list item) (hk : item) (lk : Z * pivot) : Prop := {
  fe_pivot : pivot_ok (fst lk) (snd lk);
  fe_key : pv_key (snd lk) <> [];
  fe_same : same_fence (PivotTup (snd lk)) (snd hk);
  fe_size : forall x, head cur = Some x -> MAXALIGN (fst hk) <= MAXALIGN (fst x);
  fe_after : forall p, Forall (at_or_after p) prev -> tuple_before rel p (PivotTup (snd lk));
  fe_cur : Forall (at_or_after (PivotTup (snd lk))) cur;
  fe_upto : lvl = O -> Forall (fun a => tuple_upto rel (snd a) (PivotTup (snd lk))) prev
}.

Lemma inputs_app lvl l k : inputs_ok lvl (l ++ k) -> Forall (item_ok lvl) l /\ Forall (item_ok lvl) k /\
  StronglySorted item_before l /\ StronglySorted item_before k /\ (forall a b, a ∈ l -> b ∈ k -> item_before a b).
Proof.
  intros [Hi Hs _]. apply Forall_app in Hi as [Hl Hk]. apply StronglySorted_app in Hs as (H1 & H2 & H3). done.
Qed.

Lemma leaf_fence prev lenl tl len fr cur : inputs_ok 0 (prev ++ [(lenl, LeafTup tl)] ++ (len, LeafTup fr) :: cur) ->
  exists hk lk, fence 0 (prev ++ [(lenl, LeafTup tl)]) ((len, LeafTup fr) :: cur) = Some (hk, lk) /\
    fence_ok 0 (prev ++ [(lenl, LeafTup tl)]) ((len, LeafTup fr) :: cur) hk lk.
Proof.
  intros Hin. rewrite app_assoc in Hin. destruct (inputs_app _ _ _ Hin) as (Hl & Hc & Hsl & Hsc & Hx).
  apply Forall_cons in Hc as [[Elen Hfr] Hc]. cbn [fst snd] in Elen. subst len. pose proof Hl as Hl'. apply Forall_app in Hl' as [Hp [[_ Htl] _]%Forall_cons]. cbn [fst snd] in Htl.
  destruct (Hx (lenl, LeafTup tl) (it_size fr, LeafTup fr)) as [Hb _]; [apply elem_of_app; right; by left|by left|]. cbn [snd] in Hb.
  destruct (truncate_between rel ai index_form_size tl fr inskey Hrel Hcols Hkey (lf_tuple _ Htl) (lf_tuple _ Hfr) Hb) as (tr & Htr & Hok & Hne & Hup & Hbe).
  destruct (truncate_run rel ai index_form_size tl fr inskey Hrel Hcols Hkey (lf_tuple _ Htl) (lf_tuple _ Hfr) Hb) as (n & tid & blk & size & stored & _ & Htr' & Hcase).
  rewrite Htr in Htr'. injection Htr' as ->. eexists _, _. split.
  { unfold fence, new_high_key. cbn [head hd_error mbind option_bind snd Nat.eqb]. rewrite last_snoc. cbn [mbind option_bind snd]. rewrite Htr. reflexivity. }
  destruct (leaf_bounds fr Hfr) as [Hkb Hsb]. destruct (lf_key _ Hfr) as (Hk8 & Hfk & Hke). destruct spaces as (Hep & Hem & Hem8 & Hex).
  pose proof (Hform n (it_key fr)) as Hfn. destruct (Hform8 (take n (it_key fr))) as [Hf0 Hf8].
  assert (Hsz : size mod 8 = 0 /\ 0 <= size <= key_size ai fr + 8 /\ (tid = None -> size <= key_size ai fr)).
  { change (MAXALIGN sizeof_ItemPointerData) with 8 in Hcase. destruct tid as [t|]; [destruct Hcase as (_ & _ & _ & ->)|destruct Hcase as [_ [-> | ->]]]; split_and!; try done; try lia.
    rewrite Z.add_mod, Hk8 by lia. done. }
  destruct Hsz as (Hs8 & Hs & Hsn). split; cbn [fst snd].
  - unfold reserved_size. cbn [tr_pivot tr_size pv_tid] in *. split; [exact Hok|]. rewrite Hep. unfold sizeof_ItemPointerData. change (MAXALIGN 6) with 8 in Hcase.
    destruct tid as [t|].
    + destruct Hcase as (_ & _ & _ & ->). change (MAXALIGN sizeof_ItemPointerData) with 8. rewrite MAXALIGN_DOWN_eq. cbn [pv_agg]. split_and!; Z.div_mod_to_equations; lia.
    + specialize (Hsn eq_refl). cbn [pv_agg]. split_and!; try lia. rewrite Z.add_mod, Hs8, Hem8 by lia. done.
  - done.
  - done.
  - intros x [= <-]. cbn [fst]. apply MAXALIGN_mono. cbn [tr_size]. destruct (leaf_has_agg ai); lia.
  - intros p Hp'. apply Forall_app in Hp' as [_ [[Hsf|Hlt]%(fun H => H) _]%Forall_cons].
    + by destruct p.
    + by apply (before_upto rel Hrel p tl _ (lf_tuple _ Htl)).
  - constructor; [by right|]. apply StronglySorted_inv in Hsc as [_ Hfc]. eapply Forall_impl; [exact Hfc|]. intros a [Ha _]. right.
    by apply (tuple_before_trans rel Hrel _ (LeafTup fr) _ (lf_tuple _ Hfr)).
  - intros _. apply Forall_app. split; [|by constructor]. apply StronglySorted_app in Hsl as (Hlt & _ & _). rewrite Forall_forall in Hp |- *. intros [len a] Ha.
    specialize (Hp _ Ha). destruct a as [a|]; [|done]. destruct Hp as [_ Ha']. cbn [snd].
    destruct (Hlt (len, LeafTup a) (lenl, LeafTup tl) Ha ltac:(by left)) as [Hlt' _]. by apply (upto_trans rel a tl _ Hrel (lf_tuple _ Ha') (lf_tuple _ Htl)).
Qed.

Lemma purge_size size pv : pivot_ok size pv -> exists sz, purge_agg_space ai size (PivotTup pv) =
  Some (sz, PivotTup (mk_pivot (pv_key pv) (pv_tid pv) (pv_downlink pv) 0 0)) /\ MAXALIGN sz <= MAXALIGN size.
Proof.
  intros (_ & H8 & Hs & _). destruct spaces as (Hep & Hem & Hem8 & _). unfold purge_agg_space. eexists. split; [reflexivity|].
  rewrite Hep. unfold sizeof_ItemPointerData. destruct (pv_tid pv); rewrite !MAXALIGN_eq; Z.div_mod_to_equations; lia.
Qed.

Lemma pivot_fence lvl prev len pv cur : prev <> [] -> inputs_ok (S lvl) (prev ++ (len, PivotTup pv) :: cur) ->
  exists hk lk, fence (S lvl) prev ((len, PivotTup pv) :: cur) = Some (hk, lk) /\ fence_ok (S lvl) prev ((len, PivotTup pv) :: cur) hk lk.
Proof.
  intros Hne Hin. destruct (inputs_app _ _ _ Hin) as (Hl & Hc & _ & Hsc & Hx). apply Forall_cons in Hc as [Hpv Hc]. cbn [item_ok snd fst] in Hpv.
  destruct (purge_size len pv Hpv) as (sz & Hpu & Hsz). eexists _, _. split.
  { unfold fence, new_high_key. cbn [head hd_error mbind option_bind snd fst Nat.eqb]. rewrite Hpu. reflexivity. }
  apply StronglySorted_inv in Hsc as [_ Hfc].
  destruct prev as [|a0 prev' _] eqn:Ep using rev_ind; [done|]. split; cbn [fst snd]; try done.
  - destruct (Hx a0 (len, PivotTup pv)) as [_ Hk]; [apply elem_of_app; right; by left|by left|]. done.
  - by intros x [= <-].
  - intros p Hp. apply Forall_app in Hp as [_ [Ha0 _]%Forall_cons]. apply Forall_app in Hl as [_ [Hok _]%Forall_cons].
    destruct (Hx a0 (len, PivotTup pv)) as [Hb _]; [apply elem_of_app; right; by left|by left|]. cbn [snd] in Hb.
    destruct Ha0 as [Hsf|Hlt]; [by apply (same_fence_before rel p (snd a0))|]. apply (tuple_before_trans rel Hrel p (snd a0)); [|done|done].
    destruct a0 as [la [ta|pa]]; [done|]. apply Hok.
  - constructor; [by left|]. eapply Forall_impl; [exact Hfc|]. intros a [Ha _]. by right.
Qed.

Lemma fence_spec lvl prev cur : prev <> [] -> cur <> [] -> inputs_ok lvl (prev ++ cur) ->
  exists hk lk, fence lvl prev cur = Some (hk, lk) /\ fence_ok lvl prev cur hk lk.
Proof.
  intros Hp Hc Hin. destruct cur as [|[len x] cur]; [done|]. pose proof (io_items _ _ Hin) as Hit. apply Forall_app in Hit as [Hl [Hx _]%Forall_cons].
  destruct lvl as [|lvl].
  - destruct x as [fr|]; [|done]. destruct prev as [|[lenl t] prev' _] using rev_ind; [done|]. apply Forall_app in Hl as [_ [Ht _]%Forall_cons].
    destruct t as [tl|]; [|done]. apply leaf_fence. by rewrite <- app_assoc in Hin.
  - destruct x as [|pv]; [done|]. by apply pivot_fence.
Qed.

Lemma sum_nonneg lvl l : Forall (item_ok lvl) l -> 0 <= sum_of l.
Proof.
  induction 1 as [|[len t] l Ht _ IH]; [done|]. rewrite sum_of_cons. unfold item_value. cbn [snd]. destruct lvl, t as [t|pv]; try done.
  - destruct Ht as [_ [_ _ _ _ _ _ Ha]]. unfold leaf_value. case_match; [|lia]. enough (0 <= sumZ (it_aggs t)) by lia. clear - Ha. induction Ha; cbn [sumZ]; lia.
  - destruct Ht as (_ & _ & _ & ?). cbn [item_value snd] in *. lia.
Qed.

Lemma link_ok lvl size pv b agg : pivot_ok size pv -> 0 <= agg -> item_ok (S lvl) (link (size, pv) b agg).
Proof. intros (Ht & Hs & Hb & _) Ha. cbn [item_ok link snd fst]. unfold pivot_ok. cbn [pv_agg]. split; [done|]. split_and!; (done || lia). Qed.

Lemma first_lowkey_ok : pivot_ok (fst (first_lowkey ai)) (snd (first_lowkey ai)).
Proof.
  destruct spaces as (_ & Hem & Hem8 & _). unfold pivot_ok, first_lowkey. cbn [fst snd pv_agg]. change (MAXALIGN sizeof_IndexTupleData) with 8.
  split; [split; simpl; [lia|done]|]. split; [|lia].
  rewrite Z.add_mod, Hem8 by lia. done.
Qed.

(** The items fit on a page. *)
Definition leaf_space (it : item) : Z := match snd it with LeafTup _ => fst it | PivotTup _ => 0 end.
Definition page_bound (l : list item) : Prop := Z.of_nat (length l) < 2036 /\ sumZ (leaf_space <$> l) <= page_room.
Definition seg_filled (s : seg) : Prop := snd s <> [] /\ page_bound (snd s).

(** The downlinks of the segments behind [prev] are valid, and behind every pivot that [prev]
    is behind of. *)
Lemma parents_after lvl prev segs : prev <> [] -> Forall seg_filled segs -> inputs_ok lvl (prev ++ (segs ≫= snd)) ->
  Forall (item_ok (S lvl)) (parents lvl (Some prev) segs) /\ StronglySorted item_before (parents lvl (Some prev) segs) /\
  (forall p, Forall (at_or_after p) prev -> Forall (fun x => tuple_before rel p (snd x) /\ tuple_key (snd x) <> []) (parents lvl (Some prev) segs)).
Proof.
  intros Hne Hf. revert prev Hne. induction Hf as [|[b ins] segs [Hi _] Hf IH]; intros prev Hne Hin; [split_and!; [constructor|constructor|intros; constructor]|].
  cbn [snd] in Hi. rewrite bind_cons in Hin. cbn [parents low_key].
  assert (Hpi : inputs_ok lvl (prev ++ ins)).
  { destruct Hin as [H1 H2 H3]. rewrite app_assoc in H1, H2, H3. apply Forall_app in H1 as [H1 H1']. apply StronglySorted_app in H2 as (_ & H2 & _). split; try done.
    rewrite sum_of_app in H3. pose proof (sum_nonneg lvl _ H1'). cbn [snd] in *. lia. }
  assert (Hrest : inputs_ok lvl (ins ++ (segs ≫= snd))).
  { destruct Hin as [H1 H2 H3]. apply Forall_app in H1 as [H1 H1']. apply StronglySorted_app in H2 as (_ & _ & H2). split; try done.
    rewrite sum_of_app in H3. pose proof (sum_nonneg lvl _ H1). cbn [snd] in *. lia. }
  destruct (fence_spec lvl prev ins Hne Hi Hpi) as (hk & lk & Hfe & Hok). rewrite Hfe. cbn [fmap option_fmap option_map snd default id].
  destruct (IH ins Hi Hrest) as (H1 & H2 & H3). destruct (inputs_app _ _ _ Hpi) as (Hpo & Hio & _ & _ & Hx).
  split; [|split].
  - constructor; [|done]. destruct lk as [size pv]. apply link_ok; [apply Hok|by apply (sum_nonneg lvl)].
  - constructor; [done|]. specialize (H3 (PivotTup (snd lk)) (fe_cur _ _ _ _ _ Hok)). eapply Forall_impl; [exact H3|]. intros x [Ha Hb]. split; [|done].
    cbn [link snd]. eapply same_fence_before; [|exact Ha]. done.
  - intros p Hp. constructor.
    + cbn [link snd]. split; [|apply Hok]. eapply same_fence_after; [|by apply (fe_after _ _ _ _ _ Hok p)]. done.
    + apply H3. rewrite Forall_forall. intros a Ha. right. destruct prev as [|a0 prev]; [done|]. apply Forall_cons in Hp as [Hp _]. apply Forall_cons in Hpo as [Ha0 _].
      destruct (Hx a0 a ltac:(by left) Ha) as [Hb _]. destruct Hp as [Hp|Hp]; [by apply (same_fence_before rel p (snd a0))|].
      apply (tuple_before_trans rel Hrel p (snd a0)); [|done|done]. destruct a0 as [l0 [t0|p0]], lvl; try done; apply Ha0.
Qed.

Lemma parents_ok lvl segs : Forall seg_filled segs -> inputs_ok lvl (segs ≫= snd) -> inputs_ok (S lvl) (parents lvl None segs).
Proof.
  intros Hf Hin. split; [| |rewrite parents_sum; apply Hin]; destruct Hf as [|[b ins] segs [Hi _] Hf]; try by constructor.
  - cbn [parents low_key default]. rewrite bind_cons in Hin. destruct (parents_after lvl ins segs Hi Hf Hin) as (H1 & _). constructor; [|done].
    apply (link_ok lvl _ _ _ _ first_lowkey_ok). apply io_items, Forall_app in Hin as [Hin _]. by apply (sum_nonneg lvl).
  - cbn [parents low_key default]. rewrite bind_cons in Hin. destruct (parents_after lvl ins segs Hi Hf Hin) as (_ & H2 & H3). constructor; [done|].
    specialize (H3 (PivotTup (snd (first_lowkey ai)))). eapply Forall_impl; [apply H3|].
    + destruct (inputs_app _ _ _ Hin) as (Hio & _). rewrite Forall_forall in Hio |- *. intros [l t] Ha. specialize (Hio _ Ha). unfold at_or_after. cbn [snd].
      destruct lvl, t as [t|pv]; try done.
      * right. left. destruct Hio as [_ Hio]. apply lf_tuple in Hio as [Hlen _]. cbn [tuple_key first_lowkey snd pv_key lexcmp]. pose proof (rel_natts rel Hrel) as Hn. unfold indnkeyatts in Hn.
        cbn [tuple_key]. destruct (rd_cols rel), (it_key t); simpl in *; try done; lia.
      * destruct (pv_key pv) as [|k ks] eqn:Ek; [destruct (pv_tid pv) as [ti|] eqn:Et|].
        -- exfalso. destruct Hio as ([_ Ht] & _). rewrite Ek, Et in Ht. simpl in Ht. specialize (Ht ltac:(done)). destruct (rd_cols rel); done.
        -- left. cbn. by rewrite Ek, Et.
        -- right. left. cbn. rewrite Ek. by destruct (rd_cols rel).
    + intros x Hx. exact Hx.
Qed.

(** *** Aggregates *)

Lemma accum_values_ok acc l : 0 <= acc -> Forall (fun v => 0 <= v) l -> acc + sumZ l < 2 ^ (8 * typlen - 1) -> accum_values ai acc l = Some (acc + sumZ l).
Proof.
  intros Hacc Hl. revert acc Hacc. induction Hl as [|v l Hv Hl IH]; intros acc Hacc Hb; cbn [accum_values sumZ] in *; [f_equal; lia|].
  assert (0 <= sumZ l) by (clear - Hl; induction Hl; cbn [sumZ]; lia). unfold _abt_accum_value. rewrite int_add_ok by lia. cbn [mbind option_bind].
  rewrite IH by lia. f_equal. lia.
Qed.

Lemma accum_value_ok (first : bool) acc v : 0 <= acc -> 0 <= v -> (if first then 0 else acc) + v < 2 ^ (8 * typlen - 1) ->
  _abt_accum_value ai acc v first = Some ((if first then 0 else acc) + v).
Proof. intros Ha Hv Hb. unfold _abt_accum_value. destruct first; [done|]. apply int_add_ok. lia. Qed.

Lemma accum_leaf t acc (first : bool) : leaf_ok t -> 0 <= acc -> (if first then 0 else acc) + leaf_value t < 2 ^ (8 * typlen - 1) ->
  _abt_accum_index_tuple_value ai agg_map_val acc (LeafTup t) true first = Some ((if first then 0 else acc) + leaf_value t).
Proof.
  intros [Htup _ _ _ (Hxm & Hag & Hpl) Hti Hnn] Hacc. unfold leaf_value, _abt_accum_index_tuple_value. cbn [andb].
  destruct (leaf_has_agg ai); cbn [negb].
  - specialize (Hag eq_refl). intros Hb. destruct (it_aggs t) as [|v l] eqn:Ea.
    { destruct Htup as (_ & lo & _ & Hlo & _). destruct (it_tids t); simpl in *; [done|]. rewrite <- Hxm in Hag. done. }
    apply Forall_cons in Hnn as [Hv Hl]. cbn [head hd_error tail mbind option_bind sumZ] in *. assert (0 <= sumZ l) by (clear - Hl; induction Hl; cbn [sumZ]; lia).
    rewrite accum_value_ok by (destruct first; lia). cbn [mbind option_bind]. destruct (is_posting t) eqn:Ep.
    + rewrite accum_values_ok; [f_equal; lia|destruct first; lia|done|lia].
    + specialize (Hpl eq_refl). rewrite Hpl in Hag. destruct l; [|done]. cbn [sumZ]. f_equal. lia.
  - intros Hb. cbn [ABTreeTupleIsPosting ABTreeTupleGetNPosting]. destruct (is_posting t) eqn:Ep.
    + unfold ABTreeComputeProductOfAggAndInt2, int_mul, i16, sign_extend, nposting in *. rewrite Z.mod_small by lia. rewrite (proj2 (Z.ltb_lt (Z.of_nat (length (it_tids t))) (2 ^ (16 - 1)))) by lia.
      assert (0 <= agg_map_val * Z.of_nat (length (it_tids t))) by lia. assert (0 < 2 ^ (8 * typlen - 1)) by lia.
      rewrite (proj2 (Z.leb_le _ _)), (proj2 (Z.ltb_lt _ _)) by (destruct first; lia). cbn [andb mbind option_bind].
      apply accum_value_ok; lia.
    + specialize (Hpl eq_refl). rewrite Hpl in Hxm. rewrite Hxm in *. change (Z.of_nat 1) with 1 in *. rewrite Z.mul_1_r in *. apply accum_value_ok; lia.
Qed.

Lemma accum_item lvl it acc (first : bool) : item_ok lvl it -> 0 <= acc -> (if first then 0 else acc) + item_value it < 2 ^ (8 * typlen - 1) ->
  _abt_accum_index_tuple_value ai agg_map_val acc (snd it) (Z.of_nat lvl =? 0) first = Some ((if first then 0 else acc) + item_value it).
Proof.
  intros Hit Hacc Hb. unfold item_value in *. destruct lvl as [|lvl], it as [len [t|pv]]; try done; cbn [snd fst] in *.
  - apply accum_leaf; [apply Hit|done|done].
  - rewrite (proj2 (Z.eqb_neq _ _)) by lia. unfold _abt_accum_index_tuple_value. cbn [andb]. apply accum_value_ok; [lia|apply Hit|lia].
Qed.

(** *** Pages under construction *)

Context (agg_map_fn : itup -> Z) (fillfactor : Z).

(** The items of a segment as the page has them: the first of an internal page loses its key. *)
Definition stored (lvl : nat) (ins : list item) : list item :=
  match lvl, ins with S _, (_, PivotTup pv) :: ins => minus_infinity_item ai pv :: ins | _, _ => ins end.
Definition opaque_of (lvl : nat) (prev next : Z) : ABTPageOpaqueData :=
  mk_opaque prev next (Z.of_nat lvl) (if 0 <? Z.of_nat lvl then 0 else ABTP_LEAF) ABT_MIN_LAST_UPDATE_ID.
Definition cur_page (lvl : nat) (prev : Z) (cur : list item) : bpage := mk_bp (None :: (Some <$> stored lvl cur)) (opaque_of lvl prev ABTP_NONE).
Definition full_page (lvl : nat) (prev next : Z) (hk : item) (ins : list item) : bpage := mk_bp (Some <$> hk :: stored lvl ins) (opaque_of lvl prev next).

Lemma stored_app lvl l k : l <> [] -> stored lvl (l ++ k) = stored lvl l ++ k.
Proof. by destruct lvl, l as [|[? [|]] ?]. Qed.
Lemma stored_length lvl l : length (stored lvl l) = length l.
Proof. by destruct lvl, l as [|[? [|]] ?]. Qed.
Lemma stored_lookup lvl l i : i <> 0%nat -> stored lvl l !! i = l !! i.
Proof. destruct lvl, l as [|[? [|]] ?], i; done. Qed.
Lemma stored_value lvl l i it : stored lvl l !! i = Some it -> exists it', l !! i = Some it' /\ item_value it = item_value it'.
Proof. destruct lvl, l as [|[? [|]] ?], i; intros Hi; try done; cbn in Hi |- *; first [by eexists|injection Hi as <-; by eexists]. Qed.

Abbreviation spaces_of l := (sumZ (line_space ∘ Some <$> l)).

Lemma item_space lvl it : item_ok lvl it -> fst it mod 8 = 0 /\ 0 < fst it <= 2704.
Proof.
  destruct lvl, it as [len [t|pv]]; try done; cbn [item_ok snd fst].
  - intros [-> Hok]. pose proof (leaf_bounds t Hok). destruct (lf_size _ Hok). destruct (lf_key _ Hok) as (_ & _ & ?). destruct spaces as (_ & ? & _ & Hex).
    split; [done|]. destruct (leaf_has_agg ai); lia.
  - by intros (_ & ? & ? & _).
Qed.

Lemma line_bounds len t : len mod 8 = 0 -> 0 < len <= 2704 -> line_space (Some (len, t)) = 4 + len.
Proof. intros H8 _. unfold line_space, sizeof_ItemIdData. cbn [fst]. by rewrite MAXALIGN_id. Qed.

Lemma minus_infinity_line pv : 16 <= fst (minus_infinity_item ai pv) <= 24 /\ line_space (Some (minus_infinity_item ai pv)) = 4 + fst (minus_infinity_item ai pv).
Proof.
  destruct spaces as (_ & Hem & Hem8 & _). unfold minus_infinity_item. cbn [fst]. change (MAXALIGN sizeof_IndexTupleData) with 8.
  split; [lia|]. apply line_bounds; [rewrite Z.add_mod, Hem8 by lia; done|lia].
Qed.

Lemma spaces_bounds lvl l : Forall (item_ok lvl) l -> 4 * Z.of_nat (length l) <= spaces_of (stored lvl l) <= 2708 * Z.of_nat (length l).
Proof.
  intros Hl. assert (Hraw : 4 * Z.of_nat (length l) <= spaces_of l <= 2708 * Z.of_nat (length l)).
  { clear -Hl Htyp Hai Hform8 Hrel. induction Hl as [|[len t] l Ht _ IH]; [simpl; lia|]. cbn [fmap list_fmap sumZ length compose]. destruct (item_space _ _ Ht) as [H8 Hb]. cbn [fst] in *.
    rewrite (line_bounds len t H8 Hb). lia. }
  destruct lvl as [|lvl], Hl as [|[len [t|pv]] l Ht Hl]; cbn [stored] in *; try done. cbn [fmap list_fmap sumZ length compose] in *.
  destruct (item_space _ _ Ht) as [H8 Hb]. cbn [fst] in *. rewrite (line_bounds len _ H8 Hb) in Hraw. destruct (minus_infinity_line pv) as [? ->].
  assert (Hr : 4 * Z.of_nat (length l) <= spaces_of l <= 2708 * Z.of_nat (length l)); [|lia].
  clear -Hl Htyp Hai Hform8 Hrel. induction Hl as [|[len t] l Ht _ IH]; [simpl; lia|]. cbn [fmap list_fmap sumZ length compose]. destruct (item_space _ _ Ht) as [H8 Hb]. cbn [fst] in *.
  rewrite (line_bounds len t H8 Hb). lia.
Qed.

Lemma used_cur lvl prev cur : used_space (cur_page lvl prev cur) = 4 + spaces_of (stored lvl cur).
Proof. unfold used_space, cur_page. cbn [bp_lines fmap list_fmap sumZ]. rewrite <- list_fmap_compose. reflexivity. Qed.

Lemma cur_item lvl prev cur i : bp_item (cur_page lvl prev cur) (2 + Z.of_nat i) = stored lvl cur !! i.
Proof.
  unfold bp_item, cur_page. rewrite (proj2 (Z.ltb_ge _ _)) by lia. cbn [bp_lines]. replace (Z.to_nat (2 + Z.of_nat i - 1)) with (S i) by lia.
  transitivity (l ← (Some <$> stored lvl cur) !! i; l : option item); [reflexivity|]. rewrite list_lookup_fmap. by destruct (stored lvl cur !! i).
Qed.

Lemma page_room_val : page_room = 8144.
Proof. done. Qed.

(** Adding an item that fits. *)
Lemma add_fits lvl prev cur it : item_ok lvl it -> Forall (item_ok lvl) cur -> used_space (cur_page lvl prev cur) + line_space (Some it) <= page_room ->
  _abt_sortaddtup ai (cur_page lvl prev cur) (fst it) (snd it) (2 + Z.of_nat (length cur)) (negb (Z.of_nat lvl =? 0) && (2 + Z.of_nat (length cur) =? ABTP_FIRSTKEY)) =
    Some (cur_page lvl prev (cur ++ [it])).
Proof.
  intros Hit Hcur Hfit.
  assert (Hadd : forall size t, used_space (cur_page lvl prev cur) + line_space (Some (size, t)) <= page_room ->
    PageAddItem (cur_page lvl prev cur) size t (2 + Z.of_nat (length cur)) = Some (mk_bp (None :: (Some <$> stored lvl cur ++ [(size, t)])) (opaque_of lvl prev ABTP_NONE))).
  { intros size t Hs. unfold PageAddItem, bp_maxoff. cbn [cur_page bp_lines length]. rewrite length_fmap, stored_length.
    rewrite (proj2 (Z.ltb_ge (2 + _) 1)), (proj2 (Z.ltb_ge (Z.of_nat _ + 1) _)) by lia. cbn [orb]. fold (cur_page lvl prev cur).
    rewrite (proj2 (Z.ltb_ge _ _)) by done. do 2 f_equal.
    assert (Hl : length (None :: (Some <$> stored lvl cur)) = Z.to_nat (2 + Z.of_nat (length cur) - 1)) by (simpl; rewrite length_fmap, stored_length; lia).
    rewrite take_ge, drop_ge by (simpl in *; lia). cbn [bp_opaque cur_page]. f_equal. by rewrite fmap_app. }
  unfold _abt_sortaddtup. destruct cur as [|c cur].
  - destruct lvl as [|lvl], it as [len [t|pv]]; try done; cbn [length Z.of_nat].
    + cbn [negb andb Z.eqb fst snd]. change (2 + 0) with (2 + Z.of_nat (@length item [])). by rewrite Hadd.
    + rewrite (proj2 (Z.eqb_neq _ 0)) by lia. cbn [negb andb]. change (2 + 0 =? ABTP_FIRSTKEY) with true. cbn [minus_infinity snd mbind option_bind].
      change (2 + 0) with (2 + Z.of_nat (@length item [])). rewrite Hadd; [done|]. destruct (minus_infinity_line pv) as [Hm Hl]. unfold minus_infinity_item in Hl, Hm. rewrite Hl.
      rewrite used_cur. cbn [fst] in *. rewrite page_room_val. destruct (S lvl); simpl; lia.
  - rewrite (proj2 (Z.eqb_neq (2 + _) ABTP_FIRSTKEY)) by (cbn [length]; unfold ABTP_FIRSTKEY; lia). rewrite andb_false_r.
    destruct it as [len t]. cbn [fst snd]. rewrite Hadd by done. unfold cur_page. by rewrite stored_app.
Qed.

(** *** The state of the construction *)

Definition prev_block (segs : list seg) (i : nat) : Z := match i with O => ABTP_NONE | S i => default ABTP_NONE (fst <$> segs !! i) end.

(** The page of segment [i] has been written, if there is a next one. *)
Definition seg_written (file : list block) (lvl : nat) (segs : list seg) : Prop :=
  forall i b ins b' ins', segs !! i = Some (b, ins) -> segs !! S i = Some (b', ins') ->
    exists hk lk, fence lvl ins ins' = Some (hk, lk) /\ file !! Z.to_nat b = Some (TreeBlock (full_page lvl (prev_block segs i) b' hk ins)).

(** Internal pages get at least two items. *)
Definition seg_size (lvl : nat) (s : seg) : Prop := ((if lvl is S _ then 1 else 0) < length (snd s))%nat /\ page_bound (snd s).

Record level_inv (file : list block) (lvl : nat) (st : ABTPageState) (done : list seg) (cur : list item) : Prop := {
  li_page : abtps_page st = cur_page lvl (prev_block done (length done)) cur;
  li_lastoff : abtps_lastoff st = 1 + Z.of_nat (length cur);
  li_low : cur <> [] -> abtps_lowkey st = low_key lvl (snd <$> last done) cur;
  li_level : abtps_level st = Z.of_nat lvl;
  li_full : (0 < lvl)%nat -> abtps_full st = 2457;
  li_extra : 0 <= abtps_lastextra st;
  li_agg : forall l x, cur = l ++ [x] -> l <> [] -> abtps_agg st = sum_of l;
  li_room : used_space (abtps_page st) <= page_room;
  li_done : Forall (seg_size lvl) done;
  li_written : seg_written file lvl (done ++ [(abtps_blkno st, cur)]);
  li_fresh : cur = [] -> done = []
}.

(** All levels, with the items that were added to the lowest: finished segments and the
    items on the page under construction. *)
Fixpoint inv (file : list block) (lvl : nat) (states : list ABTPageState) (G : list (list seg * list item)) (ins : list item) : Prop :=
  match states, G with
  | [], [] => ins = []
  | st :: states, (done, cur) :: G =>
      ins = (done ≫= snd) ++ cur /\ level_inv file lvl st done cur /\ (done = [] -> states = []) /\ inv file (S lvl) states G (parents lvl None done)
  | _, _ => False
  end.
Fixpoint blocks_of (states : list ABTPageState) (G : list (list seg * list item)) : list Z :=
  match states, G with
  | st :: states, (done, _) :: G => (fst <$> done) ++ abtps_blkno st :: blocks_of states G
  | _, _ => []
  end.

(** *** The file *)

Lemma write_lookup ws x b : 0 <= b -> btws_file (_abt_blwritepage ws x b) !! Z.to_nat b = Some x.
Proof.
  intros Hb. unfold _abt_blwritepage, btws_pages_written. cbn [btws_file]. rewrite length_app, length_replicate.
  case_match; zbool.
  - rewrite lookup_app_r by (rewrite length_app, length_replicate; lia). rewrite length_app, length_replicate. by replace (Z.to_nat b - _)%nat with 0%nat by lia.
  - apply list_lookup_insert_eq. rewrite length_app, length_replicate. lia.
Qed.

Lemma write_other ws x b b' y : 0 <= b -> 0 <= b' -> b' <> b -> btws_file ws !! Z.to_nat b' = Some y -> btws_file (_abt_blwritepage ws x b) !! Z.to_nat b' = Some y.
Proof.
  intros Hb Hb' Hne Hy. unfold _abt_blwritepage. cbn [btws_file]. assert (Hl : (btws_file ws ++ replicate (Z.to_nat (b - btws_pages_written ws)) ZeroBlock) !! Z.to_nat b' = Some y) by (by apply lookup_app_l_Some).
  case_match; [by apply lookup_app_l_Some|]. rewrite list_lookup_insert_ne by lia. done.
Qed.

Lemma write_length ws x b : 0 <= b -> length (btws_file (_abt_blwritepage ws x b)) = Nat.max (length (btws_file ws)) (S (Z.to_nat b)).
Proof.
  intros Hb. unfold _abt_blwritepage, btws_pages_written. cbn [btws_file]. rewrite length_app, length_replicate.
  case_match; zbool; [rewrite !length_app, length_replicate; simpl; lia|]. rewrite length_insert, length_app, length_replicate. lia.
Qed.

(** *** When a page is full *)

Lemma not_full_fits lvl st prev cur it : abtps_page st = cur_page lvl prev cur -> item_ok lvl it -> page_full st (Z.of_nat lvl =? 0) (fst it) = false ->
  used_space (cur_page lvl prev cur) + line_space (Some it) <= page_room.
Proof.
  intros Hp Hit Hf. unfold page_full in Hf. rewrite Hp in Hf. destruct (item_space _ _ Hit) as [H8 Hb]. destruct it as [len t]. cbn [fst] in *. rewrite (line_bounds len t H8 Hb).
  apply orb_false_iff in Hf as [Hf _]. zbool. unfold PageGetFreeSpace, sizeof_ItemIdData in Hf. change (MAXALIGN sizeof_ItemPointerData) with 8 in Hf.
  destruct (Z.of_nat lvl =? 0), (page_room - used_space (cur_page lvl prev cur) <? 4) eqn:E; zbool; lia.
Qed.

Lemma full_enough lvl st done cur file it : level_inv file lvl st done cur -> item_ok lvl it -> Forall (item_ok lvl) cur -> page_full st (Z.of_nat lvl =? 0) (fst it) = true ->
  ((if lvl is S _ then 2 else 1) < length cur)%nat.
Proof.
  intros Hl Hit Hcur Hf. destruct (item_space _ _ Hit) as [H8 Hb]. pose proof (spaces_bounds lvl cur Hcur) as Hs. unfold page_full in Hf.
  rewrite (li_page _ _ _ _ _ Hl), (li_lastoff _ _ _ _ _ Hl) in Hf. unfold PageGetFreeSpace, sizeof_ItemIdData in Hf. rewrite used_cur, page_room_val in Hf.
  change (MAXALIGN sizeof_ItemPointerData) with 8 in Hf. unfold ABTP_FIRSTKEY in Hf. pose proof (li_extra _ _ _ _ _ Hl) as Hx.
  apply not_ge. intros Hle. assert (Hlen : Z.of_nat (length cur) <= if lvl is S _ then 2 else 1) by (destruct lvl; lia).
  rewrite (proj2 (Z.ltb_ge (8144 - _) 4)) in Hf by (destruct lvl; lia). pose proof (li_full _ _ _ _ _ Hl) as Hfu.
  apply orb_true_iff in Hf as [Hf|Hf]; zbool; destruct lvl as [|lvl];
    [change (Z.of_nat 0 =? 0) with true in Hf; cbv iota in Hf; lia|rewrite (proj2 (Z.eqb_neq (Z.of_nat (S lvl)) 0)) in Hf by lia; cbv iota in Hf; lia|lia|]. specialize (Hfu ltac:(lia)). lia.
Qed.

(** *** Segments *)

Lemma fence_head lvl prev cur cur' : head cur = head cur' -> fence lvl prev cur = fence lvl prev cur'.
Proof. intros H. unfold fence. by rewrite H. Qed.
Lemma low_key_head lvl prev cur cur' : head cur = head cur' -> low_key lvl prev cur = low_key lvl prev cur'.
Proof. intros H. destruct prev; [|done]. cbn [low_key]. by rewrite (fence_head lvl l cur cur' H). Qed.
Lemma head_snoc {A} (l : list A) k : l <> [] -> head (l ++ k) = head l.
Proof. by destruct l. Qed.

Lemma prev_block_app segs segs' i : (i <= length segs)%nat -> prev_block (segs ++ segs') i = prev_block segs i.
Proof. destruct i as [|i]; [done|]. cbn [prev_block]. intros Hi. by rewrite lookup_app_l by lia. Qed.

Lemma written_replace file lvl done b cur cur' : head cur = head cur' -> seg_written file lvl (done ++ [(b, cur)]) -> seg_written file lvl (done ++ [(b, cur')]).
Proof.
  intros Hh Hw i b1 ins1 b2 ins2 H1 H2. pose proof (lookup_lt_Some _ _ _ H2) as Hlt. rewrite length_app in Hlt. simpl in Hlt.
  rewrite lookup_app_l in H1 by lia.
  assert (Hold : (done ++ [(b, cur)]) !! i = Some (b1, ins1)) by (by apply lookup_app_l_Some).
  rewrite (prev_block_app done) by lia. destruct (decide (S i = length done)) as [Hi|Hi].
  - rewrite lookup_app_r in H2 by lia. rewrite Hi, Nat.sub_diag in H2. injection H2 as <- <-.
    destruct (Hw i b1 ins1 b cur Hold) as (hk & lk & Hf & Hp); [rewrite lookup_app_r, Hi, Nat.sub_diag by lia; done|].
    rewrite (prev_block_app done) in Hp by lia. exists hk, lk. split; [|done]. by rewrite <- (fence_head lvl ins1 cur cur' Hh).
  - rewrite lookup_app_l in H2 by lia. destruct (Hw i b1 ins1 b2 ins2 Hold) as (hk & lk & Hf & Hp); [by apply lookup_app_l_Some|].
    rewrite (prev_block_app done) in Hp by lia. by exists hk, lk.
Qed.

Lemma written_snoc file lvl segs b l hk lk b' cur : seg_written file lvl (segs ++ [(b, l)]) -> fence lvl l cur = Some (hk, lk) ->
  file !! Z.to_nat b = Some (TreeBlock (full_page lvl (prev_block segs (length segs)) b' hk l)) -> seg_written file lvl ((segs ++ [(b, l)]) ++ [(b', cur)]).
Proof.
  intros Hw Hf Hb i b1 ins1 b2 ins2 H1 H2. pose proof (lookup_lt_Some _ _ _ H2) as Hlt. rewrite !length_app in Hlt. simpl in Hlt.
  destruct (decide (i = length segs)) as [->|Hi].
  - rewrite <- app_assoc in H1. rewrite lookup_app_r, Nat.sub_diag in H1 by lia. injection H1 as <- <-.
    rewrite lookup_app_r in H2 by (rewrite length_app; simpl; lia). rewrite length_app in H2. replace (S (length segs) - _)%nat with 0%nat in H2 by (simpl; lia). injection H2 as <- <-.
    exists hk, lk. split; [done|]. rewrite <- app_assoc, (prev_block_app segs) by lia. done.
  - rewrite lookup_app_l in H1, H2 by (rewrite length_app; simpl; lia). rewrite (prev_block_app (segs ++ _)) by (rewrite length_app; simpl; lia). by apply (Hw i b1 ins1 b2 ins2).
Qed.

Lemma written_file file file' lvl done s : (forall b x, b ∈ fst <$> done -> file !! Z.to_nat b = Some x -> file' !! Z.to_nat b = Some x) ->
  seg_written file lvl (done ++ [s]) -> seg_written file' lvl (done ++ [s]).
Proof.
  intros Hk Hw i b1 ins1 b2 ins2 H1 H2. destruct (Hw i b1 ins1 b2 ins2 H1 H2) as (hk & lk & Hf & Hp). exists hk, lk. split; [done|]. apply Hk; [|done].
  pose proof (lookup_lt_Some _ _ _ H2) as Hlt. rewrite length_app in Hlt. simpl in Hlt. rewrite lookup_app_l in H1 by lia.
  apply list_elem_of_fmap. exists (b1, ins1). split; [done|]. by eapply list_elem_of_lookup_2.
Qed.

Definition done_blocks (G : list (list seg * list item)) : list Z := G ≫= fun g => fst <$> fst g.

Lemma inv_file file file' lvl states G ins : (forall b x, b ∈ done_blocks G -> file !! Z.to_nat b = Some x -> file' !! Z.to_nat b = Some x) ->
  inv file lvl states G ins -> inv file' lvl states G ins.
Proof.
  revert lvl states ins. induction G as [|[dn cur] G IH]; intros lvl [|st states] ins Hk; cbn [inv]; [done|intros []|intros []|]. intros (Hins & Hl & Htop & Hrest).
  unfold done_blocks in Hk. rewrite bind_cons in Hk. split; [done|]. split; [|split; [done|]].
  - destruct Hl. split; try done. eapply written_file; [|done]. intros b x Hb. apply Hk. apply elem_of_app. by left.
  - apply IH; [|done]. intros b x Hb. apply Hk. apply elem_of_app. by right.
Qed.

Lemma done_in_blocks file lvl states G ins b : inv file lvl states G ins -> b ∈ done_blocks G -> b ∈ blocks_of states G.
Proof.
  revert lvl states ins. induction G as [|[dn cur] G IH]; intros lvl [|st states] ins; cbn [inv]; try done. intros (_ & _ & _ & Hrest).
  unfold done_blocks. rewrite bind_cons. cbn [blocks_of]. rewrite !elem_of_app, elem_of_cons. intros [Hb|Hb]; [by left|]. right. right. by eapply IH.
Qed.

(** *** One item more *)

Lemma stored_ok lvl l : Forall (item_ok lvl) l -> Forall (item_ok lvl) (stored lvl l).
Proof.
  intros Hl. destruct lvl as [|lvl], Hl as [|[len [t|pv]] l Ht Hl]; try done; cbn [stored]; constructor; try done.
  destruct Ht as (_ & _ & _ & Ha). cbn [item_ok minus_infinity_item snd fst]. unfold pivot_ok. cbn [pv_agg]. destruct spaces as (_ & Hem & Hem8 & _). change (MAXALIGN sizeof_IndexTupleData) with 8.
  split; [split; simpl; [lia|done]|]. split; [rewrite Z.add_mod, Hem8 by lia; done|]. split; [lia|done].
Qed.

Lemma accum_last lvl prev cur agg : Forall (item_ok lvl) cur -> sum_of cur < 2 ^ (8 * typlen - 1) -> (forall l x, cur = l ++ [x] -> l <> [] -> agg = sum_of l) ->
  exists agg', _abt_accum_last_tuple_on_page ai agg_map_val (cur_page lvl prev cur) agg (1 + Z.of_nat (length cur)) (Z.of_nat lvl =? 0) = BOk agg' /\ (cur <> [] -> agg' = sum_of cur).
Proof.
  intros Hok Hb Hagg. destruct cur as [|x l _] using rev_ind; [by exists agg|]. exists (sum_of (l ++ [x])). split; [|done].
  unfold _abt_accum_last_tuple_on_page, ABTP_HIKEY. rewrite length_app. cbn [length]. rewrite (proj2 (Z.eqb_neq _ 1)) by lia.
  replace (1 + Z.of_nat (length l + 1)) with (2 + Z.of_nat (length l)) by lia. rewrite cur_item.
  destruct (lookup_lt_is_Some_2 (stored lvl (l ++ [x])) (length l)) as [it Hit]; [rewrite stored_length, length_app; simpl; lia|]. rewrite Hit. cbn [bneed bbind].
  destruct (stored_value _ _ _ _ Hit) as (it' & Hit' & Hv). rewrite lookup_app_r, Nat.sub_diag in Hit' by lia. injection Hit' as <-.
  rewrite sum_of_app, sum_of_cons in Hb |- *. apply Forall_app in Hok as [Hl Hx]. pose proof (sum_nonneg _ _ Hl). cbn [sum_of fmap list_fmap sumZ] in Hb |- *. change (sum_of []) with 0 in *.
  assert (Hio : item_ok lvl it) by (eapply Forall_lookup_1; [apply (stored_ok lvl (l ++ [x])); by apply Forall_app|exact Hit]).
  unfold ABTP_FIRSTKEY. destruct l as [|y l].
  - cbn [length Z.of_nat]. change (2 + 0 =? 2) with true.
    pose proof (accum_item lvl it 0 true Hio ltac:(lia)) as Ha. cbv iota in Ha. rewrite Hv in Ha. change (sum_of []) with 0 in *. specialize (Ha ltac:(lia)).
    assert (Hany : forall agg, _abt_accum_index_tuple_value ai agg_map_val agg (snd it) (Z.of_nat lvl =? 0) true = _abt_accum_index_tuple_value ai agg_map_val 0 (snd it) (Z.of_nat lvl =? 0) true) by done.
    rewrite Hany, Ha. cbn [bneed]. f_equal. lia.
  - rewrite (proj2 (Z.eqb_neq _ 2)) by (simpl; lia). rewrite (Hagg (y :: l) x eq_refl ltac:(done)).
    rewrite (accum_item lvl it (sum_of (y :: l)) false) by (rewrite ?Hv; (done || lia)). cbn [bneed]. f_equal. rewrite Hv. lia.
Qed.

Lemma new_page lvl : _abt_blnewpage (Z.of_nat lvl) = cur_page lvl ABTP_NONE [].
Proof. by destruct lvl. Qed.

Lemma leaf_space_bounds lvl l : Forall (item_ok lvl) l -> 0 <= sumZ (leaf_space <$> l) <= spaces_of (stored lvl l).
Proof.
  intros Hok. destruct lvl as [|lvl].
  - cbn [stored]. induction Hok as [|[len t] l Ht _ IH]; [simpl; lia|]. cbn [fmap list_fmap sumZ compose leaf_space]. destruct (item_space _ _ Ht) as [H8 Hb]. cbn [fst] in *.
    change (compose line_space Some (len, t)) with (line_space (Some (len, t))). rewrite (line_bounds len t H8 Hb). unfold leaf_space at 1 3. cbn [snd fst]. destruct t; [lia|done].
  - pose proof (spaces_bounds (S lvl) l Hok) as Hs. assert (sumZ (leaf_space <$> l) = 0) as ->; [|lia]. clear Hs. induction Hok as [|[len [t|pv]] l Ht _ IH]; [done|done|]. cbn [fmap list_fmap sumZ]. by rewrite IH.
Qed.

Lemma page_count lvl prev cur : Forall (item_ok lvl) cur -> used_space (cur_page lvl prev cur) <= page_room -> page_bound cur.
Proof. intros Hok Hr. rewrite used_cur, page_room_val in Hr. pose proof (spaces_bounds lvl cur Hok). pose proof (leaf_space_bounds lvl cur Hok). split; [|rewrite page_room_val]; lia. Qed.

Lemma page_bound_prefix lvl l x : Forall (item_ok lvl) (l ++ [x]) -> page_bound (l ++ [x]) -> page_bound l.
Proof.
  intros [_ Hx]%Forall_app [H1 H2]. pose proof (leaf_space_bounds lvl [x] Hx). rewrite length_app in H1. rewrite fmap_app, sumZ_app in H2. split; [simpl in H1; lia|lia].
Qed.

Lemma level_count file lvl st dn cur : level_inv file lvl st dn cur -> Forall (item_ok lvl) cur -> page_bound cur.
Proof. intros Hl Hok. pose proof (li_room _ _ _ _ _ Hl) as Hr. rewrite (li_page _ _ _ _ _ Hl) in Hr. by apply (page_count lvl (prev_block dn (length dn))). Qed.

Lemma push_run lvl prev cur agg it : Forall (item_ok lvl) (cur ++ [it]) -> sum_of (cur ++ [it]) < 2 ^ (8 * typlen - 1) ->
  (forall l x, cur = l ++ [x] -> l <> [] -> agg = sum_of l) -> used_space (cur_page lvl prev cur) + line_space (Some it) <= page_room ->
  exists agg', _abt_accum_last_tuple_on_page ai agg_map_val (cur_page lvl prev cur) agg (1 + Z.of_nat (length cur)) (Z.of_nat lvl =? 0) = BOk agg' /\
    (forall l x, cur ++ [it] = l ++ [x] -> l <> [] -> agg' = sum_of l) /\
    OffsetNumberNext (1 + Z.of_nat (length cur)) = 2 + Z.of_nat (length cur) /\
    _abt_sortaddtup ai (cur_page lvl prev cur) (fst it) (snd it) (2 + Z.of_nat (length cur)) (negb (Z.of_nat lvl =? 0) && (2 + Z.of_nat (length cur) =? ABTP_FIRSTKEY)) =
      Some (cur_page lvl prev (cur ++ [it])) /\
    used_space (cur_page lvl prev (cur ++ [it])) <= page_room.
Proof.
  intros Hok Hb Hagg Hfit. pose proof Hok as Hok'. apply Forall_app in Hok' as [Hcur [Hit _]%Forall_cons]. rewrite sum_of_app in Hb.
  assert (0 <= sum_of [it]) by (apply (sum_nonneg lvl); by repeat constructor).
  destruct (accum_last lvl prev cur agg Hcur ltac:(lia) Hagg) as (agg' & Hacc & Hsum). exists agg'. split; [done|].
  assert (Hln : 0 <= line_space (Some it)) by (destruct (item_space _ _ Hit) as [? ?], it as [len t]; rewrite (line_bounds len t) by done; cbn [fst] in *; lia).
  split; [|split; [|split]].
  - intros l x E Hl. apply app_inj_tail in E as [-> _]. by apply Hsum.
  - destruct (page_count lvl prev cur Hcur ltac:(lia)) as [? _]. unfold OffsetNumberNext. unfold u16. rewrite Z.mod_small; lia.
  - by apply add_fits.
  - rewrite used_cur. destruct cur as [|c cur].
    + pose proof (spaces_bounds lvl [it] Hok) as Hs. simpl (length [it]) in Hs. cbn [app]. rewrite page_room_val. lia.
    + rewrite stored_app by done. rewrite fmap_app, sumZ_app. rewrite used_cur in Hfit. cbn [fmap list_fmap sumZ compose] in *. lia.
Qed.

Lemma moved_page lvl prev l x : l <> [] -> used_space (cur_page lvl prev (l ++ [x])) <= page_room ->
  move_last (cur_page lvl prev (l ++ [x])) (1 + Z.of_nat (length (l ++ [x]))) = mk_bp (Some x :: (Some <$> stored lvl l)) (opaque_of lvl prev ABTP_NONE) /\
  used_space (mk_bp (Some x :: (Some <$> stored lvl l)) (opaque_of lvl prev ABTP_NONE)) <= page_room.
Proof.
  intros Hne Hr. assert (Hlast : bp_item (cur_page lvl prev (l ++ [x])) (1 + Z.of_nat (length (l ++ [x]))) = Some x).
  { rewrite length_app. cbn [length]. replace (1 + Z.of_nat (length l + 1)) with (2 + Z.of_nat (length l)) by lia. rewrite cur_item, stored_app by done.
    rewrite lookup_app_r by (by rewrite stored_length). by rewrite stored_length, Nat.sub_diag. }
  split.
  - unfold move_last. rewrite Hlast. cbn [cur_page bp_lines bp_opaque]. f_equal. rewrite length_app. cbn [length].
    replace (Z.to_nat (1 + Z.of_nat (length l + 1) - 1)) with (S (length l)) by lia. cbn [take]. change (<[0%nat := Some x]> (None :: ?k)) with (Some x :: k). cbn [insert list_insert]. f_equal.
    rewrite stored_app, fmap_app by done. by rewrite take_app_length' by (by rewrite length_fmap, stored_length).
  - rewrite used_cur, stored_app, fmap_app, sumZ_app in Hr by done. unfold used_space. cbn [bp_lines fmap list_fmap sumZ compose] in *. rewrite <- list_fmap_compose. lia.
Qed.

Abbreviation finish_page := (finish_page rel ai index_form_size fillfactor inskey).
Abbreviation buildadd := (buildadd rel ai index_form_size agg_map_val agg_map_fn fillfactor inskey).

Definition parent_states (ws : ABTWriteState) (lvl : nat) (next : list ABTPageState) : ABTWriteState * list ABTPageState :=
  match next with [] => let '(ws, s) := _abt_pagestate fillfactor ws (Z.of_nat lvl + 1) in (ws, [s]) | _ => (ws, next) end.

Lemma finish_page_run lvl ws st next dn l x add ws2 next2 lk0 : level_inv (btws_file ws) lvl st dn (l ++ [x]) -> l <> [] -> inputs_ok lvl (l ++ [x]) ->
  low_key lvl (snd <$> last dn) l = Some lk0 ->
  (let '(ws1, next1) := parent_states (snd (alloc_page ws)) lvl next in add ws1 next1 (downlink lk0 (abtps_blkno st) (sum_of l))) = BOk (ws2, next2) ->
  exists hk lk, fence lvl l [x] = Some (hk, lk) /\
    finish_page add ws st next = BOk (_abt_blwritepage ws2 (TreeBlock (full_page lvl (prev_block dn (length dn)) (btws_pages_alloced ws) hk l)) (abtps_blkno st), next2,
      (cur_page lvl (abtps_blkno st) [x], btws_pages_alloced ws, lk)).
Proof.
  intros Hl Hne Hin Hlk Hadd. destruct Hl as [Hpage Hoff Hlow Hlv _ _ Hagg Hroom _ _ _]. rewrite Hpage in Hroom. pose proof (io_items _ _ Hin) as Hit.
  pose proof Hit as [Hli [Hx _]%Forall_cons]%Forall_app. destruct (fence_spec lvl l [x] Hne ltac:(done) Hin) as (hk & lk & Hf & Hok). exists hk, lk. split; [done|].
  destruct (moved_page lvl (prev_block dn (length dn)) l x Hne Hroom) as [Hmv Hmr]. pose proof (page_count lvl _ _ Hit Hroom) as [Hcnt _].
  unfold finish_page, alloc_page. rewrite Hpage, Hoff, Hlv.
  assert (Hlast : bp_item (cur_page lvl (prev_block dn (length dn)) (l ++ [x])) (1 + Z.of_nat (length (l ++ [x]))) = Some x).
  { rewrite length_app. cbn [length]. replace (1 + Z.of_nat (length l + 1)) with (2 + Z.of_nat (length l)) by lia. rewrite cur_item, stored_app by done.
    rewrite lookup_app_r by (by rewrite stored_length). by rewrite stored_length, Nat.sub_diag. }
  rewrite Hlast. cbn [bneed bbind].
  assert (Hnew : _abt_sortaddtup ai (_abt_blnewpage (Z.of_nat lvl)) (fst x) (snd x) ABTP_FIRSTKEY (negb (Z.of_nat lvl =? 0)) = Some (cur_page lvl ABTP_NONE [x])).
  { pose proof (add_fits lvl ABTP_NONE [] x Hx ltac:(constructor)) as Ha. cbn [length Z.of_nat app] in Ha. change (2 + 0) with ABTP_FIRSTKEY in Ha. rewrite Z.eqb_refl, andb_true_r in Ha.
    rewrite new_page. apply Ha. rewrite used_cur, page_room_val. destruct (item_space _ _ Hx) as [? ?], x as [len t]. rewrite (line_bounds len t) by done. cbn [fst] in *. destruct lvl; simpl; lia. }
  rewrite Hnew. cbn [bneed bbind]. rewrite Hmv.
  assert (Hll : (Z.of_nat lvl =? 0) = (lvl =? 0)%nat) by (destruct lvl; done).
  assert (Hhk : new_high_key rel ai index_form_size inskey (Z.of_nat lvl =? 0) (bp_item (mk_bp (Some x :: (Some <$> stored lvl l)) (opaque_of lvl (prev_block dn (length dn)) ABTP_NONE))
      (OffsetNumberPrev (1 + Z.of_nat (length (l ++ [x]))))) x = Some (hk, lk)).
  { rewrite Hll. unfold fence in Hf. cbn [head hd_error mbind option_bind] in Hf. destruct lvl as [|lvl]; [|unfold new_high_key in Hf |- *; by destruct x as [? [|]]].
    rewrite <- Hf. f_equal. unfold OffsetNumberPrev, u16. rewrite length_app in Hcnt |- *. cbn [length] in *. rewrite Z.mod_small by lia.
    replace (-1 + (1 + Z.of_nat (length l + 1))) with (2 + Z.of_nat (length l - 1)) by (destruct l; [done|simpl; lia]).
    transitivity (bp_item (cur_page 0 ABTP_NONE l) (2 + Z.of_nat (length l - 1))).
    - unfold bp_item. rewrite (proj2 (Z.ltb_ge _ _)) by lia. cbn [bp_lines cur_page]. replace (Z.to_nat (2 + Z.of_nat (length l - 1) - 1)) with (S (length l - 1)) by lia. done.
    - rewrite cur_item. cbn [stored]. rewrite last_lookup. f_equal. lia. }
  rewrite Hhk. cbn [bneed bbind]. unfold PageIndexTupleOverwrite. cbn [bp_item bp_lines]. change (bp_item (mk_bp (Some x :: ?k) ?o) ABTP_HIKEY) with (Some x). cbn [mbind option_bind].
  rewrite (proj2 (Z.ltb_ge _ _)) by (pose proof (fe_size _ _ _ _ _ Hok x eq_refl); lia). cbn [bneed bbind].
  unfold parent_states, alloc_page in Hadd. cbn [snd] in Hadd.
  assert (Hlow' : abtps_lowkey st = Some lk0) by (rewrite Hlow by (by destruct l); rewrite (low_key_head lvl _ (l ++ [x]) l) by (by apply head_snoc); done).
  rewrite Hlow', (Hagg l x eq_refl Hne). destruct next as [|n next].
  - cbn [bneed bbind]. destruct (_abt_pagestate fillfactor _ _) as [ws1 s1]. rewrite Hadd. cbn [bbind]. destruct hk. reflexivity.
  - cbn [bneed bbind]. rewrite Hadd. cbn [bbind]. destruct hk. reflexivity.
Qed.

(** *** What adding changes *)

Record grows (ws ws' : ABTWriteState) (bs bs' : list Z) : Prop := {
  fr_alloc : btws_pages_alloced ws <= btws_pages_alloced ws';
  fr_blocks : bs' ≡ₚ bs ++ seqZ (btws_pages_alloced ws) (btws_pages_alloced ws' - btws_pages_alloced ws);
  fr_length : Z.of_nat (length (btws_file ws)) <= btws_pages_alloced ws -> Z.of_nat (length (btws_file ws')) <= btws_pages_alloced ws';
  fr_keep : forall b x, 0 <= b < btws_pages_alloced ws -> b ∉ bs -> btws_file ws !! Z.to_nat b = Some x -> btws_file ws' !! Z.to_nat b = Some x
}.
Definition tidy (ws : ABTWriteState) (bs : list Z) : Prop :=
  NoDup bs /\ Forall (fun b => 0 < b < btws_pages_alloced ws) bs /\ Z.of_nat (length (btws_file ws)) <= btws_pages_alloced ws.

Lemma frame_new ws ws' bs bs' b : grows ws ws' bs bs' -> b ∈ bs' -> b ∈ bs \/ btws_pages_alloced ws <= b.
Proof. intros [_ Hp _ _] Hb. rewrite Hp in Hb. apply elem_of_app in Hb as [Hb|Hb%elem_of_seqZ]; [by left|right; lia]. Qed.

Lemma frame_refl ws bs : grows ws ws bs bs.
Proof. split; try done. by rewrite Z.sub_diag, app_nil_r. Qed.

Lemma frame_trans ws1 ws2 ws3 bs1 bs2 bs3 : grows ws1 ws2 bs1 bs2 -> grows ws2 ws3 bs2 bs3 -> grows ws1 ws3 bs1 bs3.
Proof.
  intros F1 F2. pose proof F1 as [A1 P1 L1 K1]. pose proof F2 as [A2 P2 L2 K2]. split.
  - lia.
  - rewrite P2, P1, <- app_assoc. f_equiv. replace (btws_pages_alloced ws3 - btws_pages_alloced ws1) with
      ((btws_pages_alloced ws2 - btws_pages_alloced ws1) + (btws_pages_alloced ws3 - btws_pages_alloced ws2)) by lia.
    rewrite seqZ_app by lia. f_equiv. by replace (btws_pages_alloced ws1 + _) with (btws_pages_alloced ws2) by lia.
  - auto.
  - intros b x Hb Hn Hx. apply K2; [lia| |by apply K1]. intros Hin. destruct (frame_new _ _ _ _ b F1 Hin); [done|lia].
Qed.

Lemma tidy_frame ws ws' bs bs' : tidy ws bs -> grows ws ws' bs bs' -> 0 < btws_pages_alloced ws -> tidy ws' bs'.
Proof.
  intros (Hn & Hr & Hl) [A P L K] Hpos. split; [|split; [|auto]].
  - rewrite P. apply NoDup_app. split; [done|]. split; [|apply NoDup_seqZ]. intros b Hb Hs%elem_of_seqZ. rewrite Forall_forall in Hr. specialize (Hr b Hb). lia.
  - rewrite P. apply Forall_app. split; [eapply Forall_impl; [exact Hr|]; simpl; lia|]. apply Forall_forall. intros b Hb%elem_of_seqZ. lia.
Qed.

Lemma frame_perm ws ws' bs1 bs2 bs1' bs2' : bs1 ≡ₚ bs2 -> bs1' ≡ₚ bs2' -> grows ws ws' bs1 bs1' -> grows ws ws' bs2 bs2'.
Proof. intros E1 E2 [A P L K]. split; [done|by rewrite <- E1, <- E2|done|]. intros b x Hb Hn. apply K; [done|]. by rewrite E1. Qed.

(** Writing one of the blocks, taking a new one. *)
Lemma frame_write ws bs x b : b ∈ bs -> 0 <= b < btws_pages_alloced ws -> grows ws (_abt_blwritepage ws x b) bs bs.
Proof.
  intros Hb Hr. split; cbn [_abt_blwritepage btws_pages_alloced]; [lia|by rewrite Z.sub_diag, app_nil_r| |].
  - intros Hl. change (mk_ws _ _) with (_abt_blwritepage ws x b). rewrite write_length by lia. lia.
  - intros b' y Hb' Hn Hy. change (mk_ws _ _) with (_abt_blwritepage ws x b). apply write_other; [lia|lia| |done]. by intros ->.
Qed.

Lemma frame_alloc ws bs : grows ws (snd (alloc_page ws)) bs (bs ++ [btws_pages_alloced ws]).
Proof. split; cbn [alloc_page snd btws_pages_alloced btws_file]; [lia| |lia|done]. by replace (_ + 1 - _) with 1 by lia. Qed.

(** More blocks around those that change. *)
Lemma frame_app ws ws' bs bs' more : Forall (fun b => b < btws_pages_alloced ws) more -> grows ws ws' bs bs' -> grows ws ws' (more ++ bs) (more ++ bs').
Proof.
  intros Hm [A P L K]. split; [done|by rewrite P, app_assoc|done|]. intros b x Hb Hn. apply K; [done|]. intros Hin. apply Hn, elem_of_app. by right.
Qed.

(** *** A fresh page above *)

Lemma fresh_level file lvl ws : level_inv file lvl (snd (_abt_pagestate fillfactor ws (Z.of_nat lvl))) [] [].
Proof.
  unfold _abt_pagestate, alloc_page. cbn [snd]. split; cbn [abtps_page abtps_lastoff abtps_lowkey abtps_level abtps_full abtps_lastextra abtps_agg abtps_blkno]; try done.
  - apply new_page.
  - intros Hlvl. by rewrite (proj2 (Z.ltb_lt _ _)) by lia.
  - by intros [|? ?].
Qed.

Lemma parent_states_inv lvl ws next dn G : inv (btws_file ws) (S lvl) next G (parents lvl None dn) -> 0 < btws_pages_alloced ws ->
  exists ws1 next1 G1, parent_states ws lvl next = (ws1, next1) /\ inv (btws_file ws1) (S lvl) next1 G1 (parents lvl None dn) /\ next1 <> [] /\
    grows ws ws1 (blocks_of next G) (blocks_of next1 G1) /\ (next <> [] /\ next1 = next \/ dn = [] /\ next = [] /\ length next1 = 1%nat).
Proof.
  intros Hinv Hpos. destruct next as [|n next].
  - destruct G; [|done]. cbn [inv] in Hinv. assert (dn = []) as -> by (apply (f_equal length) in Hinv; rewrite parents_length in Hinv; by destruct dn).
    cbn [parent_states]. eexists _, _, [([], [])]. split; [reflexivity|]. split.
    { cbn [inv]. split; [done|]. split; [|done]. replace (Z.of_nat lvl + 1) with (Z.of_nat (S lvl)) by lia. apply (fresh_level _ (S lvl) ws). }
    split; [done|]. split; [apply (frame_alloc ws [])|]. right. done.
  - exists ws, (n :: next), G. split_and!; try done; [apply frame_refl|by left].
Qed.

(** *** Adding an item *)

Definition as_added (it : item) : item := (fst it, set_values ai agg_map_fn (snd it)).

Lemma added_allowed lvl it : item_ok lvl (as_added it) -> size_allowed ai (Z.of_nat lvl =? 0) (fst it) = true /\ MAXALIGN (fst it) = fst it.
Proof.
  intros Hit. destruct (item_space _ _ Hit) as [H8 Hb]. cbn [as_added fst] in H8, Hb. split; [|by apply MAXALIGN_id].
  destruct lvl as [|lvl], it as [len [t|pv]]; try done.
  - destruct Hit as [E Hok]. cbn [as_added fst snd set_values it_size] in E. cbn [fst]. rewrite E. apply (lf_allowed _ Hok).
  - rewrite (proj2 (Z.eqb_neq _ 0)) by lia. unfold size_allowed, _abt_check_third_page. cbn [negb fst] in *. change ABTMaxItemSizeNoHeapTid with 2704. rewrite (MAXALIGN_id len H8).
    apply orb_true_iff. right. apply Z.leb_le. lia.
Qed.

Lemma inputs_prefix lvl l k : inputs_ok lvl (l ++ k) -> inputs_ok lvl l.
Proof.
  intros Hin. pose proof (inputs_app _ _ _ Hin) as (Hl & Hk & Hs & _). split; [done|done|]. apply io_sum in Hin. rewrite sum_of_app in Hin. pose proof (sum_nonneg _ _ Hk). lia.
Qed.
Lemma inputs_suffix lvl l k : inputs_ok lvl (l ++ k) -> inputs_ok lvl k.
Proof.
  intros Hin. pose proof (inputs_app _ _ _ Hin) as (Hl & Hk & _ & Hs & _). split; [done|done|]. apply io_sum in Hin. rewrite sum_of_app in Hin. pose proof (sum_nonneg _ _ Hl). lia.
Qed.

Lemma low_key_ok lvl dn l : Forall seg_filled dn -> l <> [] -> inputs_ok lvl ((dn ≫= snd) ++ l) -> exists lk, low_key lvl (snd <$> last dn) l = Some lk.
Proof.
  intros Hf Hl Hin. destruct dn as [|[b ins] dn _] using rev_ind; [by eexists|]. rewrite last_snoc. cbn [fmap option_fmap option_map snd low_key].
  apply Forall_app in Hf as [_ [[Hf _] _]%Forall_cons]. rewrite bind_app, bind_singleton, <- app_assoc in Hin. apply inputs_suffix in Hin. cbn [snd] in Hin.
  destruct (fence_spec lvl ins l Hf Hl Hin) as (hk & lk & -> & _). by eexists.
Qed.

Lemma filled lvl dn : Forall (seg_size lvl) dn -> Forall seg_filled dn.
Proof. intros H. eapply Forall_impl; [exact H|]. intros [b ins] [Hs Hm]. split; [|done]. cbn [snd] in *. destruct ins; [destruct lvl; simpl in Hs; lia|done]. Qed.

(** The page under construction with one item more. *)
Lemma level_push file lvl lev full dn cur it agg' blk extra page lastoff lowkey :
  seg_written file lvl (dn ++ [(blk, cur)]) -> lev = Z.of_nat lvl -> ((0 < lvl)%nat -> full = 2457) -> 0 <= extra ->
  Forall (seg_size lvl) dn -> (cur = [] -> dn = []) ->
  page = cur_page lvl (prev_block dn (length dn)) (cur ++ [it]) -> lastoff = 2 + Z.of_nat (length cur) ->
  lowkey = low_key lvl (snd <$> last dn) (cur ++ [it]) -> (forall l x, cur ++ [it] = l ++ [x] -> l <> [] -> agg' = sum_of l) -> used_space page <= page_room ->
  level_inv file lvl (mk_ps page blk lowkey lastoff extra lev full agg') dn (cur ++ [it]).
Proof.
  intros Hw -> Hfu Hex Hdn Hfr -> -> -> Hagg Hroom. split; cbn [abtps_page abtps_lastoff abtps_lowkey abtps_level abtps_full abtps_lastextra abtps_agg abtps_blkno]; try done.
  - rewrite length_app. simpl. lia.
  - destruct cur as [|c cur]; [|by apply (written_replace file lvl dn blk (c :: cur))]. rewrite (Hfr eq_refl). intros i b1 i1 b2 i2 _ H2. by destruct i.
  - by destruct cur.
Qed.

(** The blocks of the levels when a page is finished: its right sibling is new. *)
Lemma finish_grows ws ws2 page (dn : list seg) oblk bs bs2 : let wsa := snd (alloc_page ws) in Forall (fun b => 0 < b < btws_pages_alloced ws) (fst <$> dn) -> 0 < oblk < btws_pages_alloced ws ->
  grows wsa ws2 bs bs2 -> grows ws (_abt_blwritepage ws2 page oblk) ((fst <$> dn) ++ oblk :: bs) (((fst <$> dn) ++ [oblk; btws_pages_alloced ws]) ++ bs2).
Proof.
  intros wsa Hr1 Hr2 Hfr. set (nblk := btws_pages_alloced ws). set (more := (fst <$> dn) ++ [oblk; nblk]).
  assert (F1 : grows ws wsa ((fst <$> dn) ++ oblk :: bs) (more ++ bs)).
  { eapply frame_perm; [reflexivity| |apply frame_alloc]. unfold more. rewrite <- !app_assoc. f_equiv. cbn [app]. f_equiv. fold nblk. by rewrite Permutation_app_comm. }
  assert (F2 : grows wsa ws2 (more ++ bs) (more ++ bs2)).
  { apply frame_app; [|done]. unfold wsa, more. cbn [alloc_page snd btws_pages_alloced]. apply Forall_app. split; [eapply Forall_impl; [exact Hr1|]; intros b; cbn beta; lia|]. repeat constructor; lia. }
  assert (F3 : grows ws2 (_abt_blwritepage ws2 page oblk) (more ++ bs2) (more ++ bs2)).
  { apply frame_write; [unfold more; rewrite !elem_of_app; left; right; by left|]. pose proof (fr_alloc _ _ _ _ Hfr) as Hal2. unfold wsa in Hal2. simpl in Hal2. lia. }
  eapply frame_trans; [exact F1|eapply frame_trans; [exact F2|exact F3]].
Qed.

(** What a call for the level above has to do. *)
Definition adds (add : ABTWriteState -> list ABTPageState -> Z * index_tuple -> bres (ABTWriteState * list ABTPageState)) (lvl fuel : nat) : Prop :=
  forall ws states G ins it, inv (btws_file ws) lvl states G ins -> states <> [] -> inputs_ok lvl (ins ++ [as_added it]) -> 0 < btws_pages_alloced ws -> tidy ws (blocks_of states G) ->
    (S (length states) < fuel \/ ins = [] /\ length states < fuel)%nat ->
    exists ws' states' G', add ws states it = BOk (ws', states') /\ inv (btws_file ws') lvl states' G' (ins ++ [as_added it]) /\ states' <> [] /\ grows ws ws' (blocks_of states G) (blocks_of states' G').

(** A finished page: written, linked, and with a downlink above. *)
Lemma finish_inv add fuel lvl ws st next dn l x G : adds add (S lvl) fuel -> level_inv (btws_file ws) lvl st dn (l ++ [x]) -> inv (btws_file ws) (S lvl) next G (parents lvl None dn) ->
  l <> [] -> seg_size lvl (abtps_blkno st, l) -> inputs_ok lvl ((dn ≫= snd) ++ l ++ [x]) -> 0 < btws_pages_alloced ws ->
  tidy ws ((fst <$> dn) ++ abtps_blkno st :: blocks_of next G) -> (S (length next) < fuel)%nat ->
  exists ws3 next2 G2 lk, finish_page add ws st next = BOk (ws3, next2, (cur_page lvl (abtps_blkno st) [x], btws_pages_alloced ws, lk)) /\
    low_key lvl (Some l) [x] = Some lk /\ seg_written (btws_file ws3) lvl ((dn ++ [(abtps_blkno st, l)]) ++ [(btws_pages_alloced ws, [x])]) /\
    inv (btws_file ws3) (S lvl) next2 G2 (parents lvl None (dn ++ [(abtps_blkno st, l)])) /\ next2 <> [] /\
    grows ws ws3 ((fst <$> dn) ++ abtps_blkno st :: blocks_of next G) (((fst <$> dn) ++ [abtps_blkno st; btws_pages_alloced ws]) ++ blocks_of next2 G2).
Proof.
  intros Hadd Hl Hnext Hl0 Hsz Hin Hpos (Hnd & Hrange & Hflen) Hfuel. pose proof (filled lvl dn (li_done _ _ _ _ _ Hl)) as Hfill.
  apply NoDup_app in Hnd as (Hnd1 & Hnd2 & [Hnd3 Hnd4]%NoDup_cons). apply Forall_app in Hrange as [Hr1 [Hr2 Hr3]%Forall_cons]. set (oblk := abtps_blkno st) in *. set (nblk := btws_pages_alloced ws) in *.
  assert (Hin1 : inputs_ok lvl ((dn ≫= snd) ++ l)) by (rewrite app_assoc in Hin; by eapply inputs_prefix). destruct (low_key_ok lvl dn l Hfill Hl0 Hin1) as [lk0 Hlk0].
  set (wsa := snd (alloc_page ws)). destruct (parent_states_inv lvl wsa next dn G Hnext) as (ws1 & next1 & G1 & Hps & Hinv1 & Hne1 & Hf1 & Hcase); [unfold wsa; simpl; lia|].
  assert (Htidya : tidy wsa (blocks_of next G)).
  { unfold wsa. cbn [alloc_page snd]. split; [done|]. split; [|cbn [btws_file btws_pages_alloced]; lia]. eapply Forall_impl; [exact Hr3|]. intros b. cbn [btws_pages_alloced]. lia. }
  assert (Hpar : parents lvl None dn ++ [as_added (downlink lk0 oblk (sum_of l))] = parents lvl None (dn ++ [(oblk, l)])).
  { rewrite parents_app. replace (match last dn with Some s => Some (snd s) | None => None end) with (snd <$> last dn) by (by destruct (last dn)). rewrite Hlk0. done. }
  destruct (Hadd ws1 next1 G1 (parents lvl None dn) (downlink lk0 oblk (sum_of l))) as (ws2 & next2 & G2 & Hrun2 & Hinv2 & Hne2 & Hf2); try done.
  { rewrite Hpar. apply parents_ok; [apply (filled lvl), Forall_app; split; [apply Hl|by apply Forall_singleton]|]. by rewrite bind_app, bind_singleton. }
  { pose proof (fr_alloc _ _ _ _ Hf1). unfold wsa in *. simpl in *. lia. }
  { eapply tidy_frame; [exact Htidya|done|]. unfold wsa. simpl. lia. }
  { destruct Hcase as [[? ->]|(-> & -> & Hc1)]; [left; lia|]. right. simpl in Hfuel |- *. split; [done|lia]. }
  destruct (finish_page_run lvl ws st next dn l x add ws2 next2 lk0) as (hk & lk & Hfe & Hfin); try done; [by apply (inputs_suffix lvl (dn ≫= snd))|by fold wsa; rewrite Hps|].
  assert (Hfr : grows wsa ws2 (blocks_of next G) (blocks_of next2 G2)) by (by eapply frame_trans). fold oblk nblk in Hfin.
  set (ws3 := _abt_blwritepage ws2 (TreeBlock (full_page lvl (prev_block dn (length dn)) nblk hk l)) oblk) in Hfin.
  exists ws3, next2, G2, lk. split; [exact Hfin|]. split; [cbn [low_key]; by rewrite Hfe|]. split; [|split; [|split; [done|by apply finish_grows]]].
  - apply (written_snoc _ _ _ _ _ hk lk); [|done|apply write_lookup; lia]. apply (written_replace _ _ _ _ (l ++ [x])); [by apply head_snoc|]. apply (written_file (btws_file ws)); [|apply Hl].
    intros b y Hb Hy. rewrite Forall_forall in Hr1. pose proof (Hr1 b Hb) as Hbr. apply write_other; [lia|lia|intros ->; apply (Hnd2 oblk Hb); by left|].
    apply (fr_keep _ _ _ _ Hfr); [unfold wsa; simpl; lia| |done]. intros Hb'. apply (Hnd2 b Hb). by right.
  - rewrite <- Hpar. eapply inv_file; [|exact Hinv2]. intros b y Hb Hy. pose proof (done_in_blocks _ _ _ _ _ b Hinv2 Hb) as Hb2.
    assert (Hob : 0 <= b /\ b <> oblk).
    { destruct (frame_new _ _ _ _ b Hfr Hb2) as [Hb3|Hb3]; [rewrite Forall_forall in Hr3; specialize (Hr3 b Hb3); split; [lia|by intros ->]|unfold wsa in Hb3; simpl in Hb3; lia]. }
    apply write_other; [lia|lia|by intros ->; destruct Hob|done].
Qed.

(** The item goes on a new page. *)
Lemma add_finished add fuel lvl ws st next dn cur G it extra : adds add (S lvl) fuel -> inv (btws_file ws) lvl (st :: next) ((dn, cur) :: G) ((dn ≫= snd) ++ cur) -> inputs_ok lvl (((dn ≫= snd) ++ cur) ++ [it]) -> 0 <= extra ->
  0 < btws_pages_alloced ws -> tidy ws (blocks_of (st :: next) ((dn, cur) :: G)) -> page_full st (Z.of_nat lvl =? 0) (fst it) = true -> (S (length next) < fuel)%nat ->
  exists ws' npage nblkno lowkey next' agg page G', finish_page add ws st next = BOk (ws', next', (npage, nblkno, lowkey)) /\
    _abt_accum_last_tuple_on_page ai agg_map_val npage (abtps_agg st) ABTP_FIRSTKEY (Z.of_nat lvl =? 0) = BOk agg /\
    _abt_sortaddtup ai npage (fst it) (snd it) (OffsetNumberNext ABTP_FIRSTKEY) (negb (Z.of_nat lvl =? 0) && (OffsetNumberNext ABTP_FIRSTKEY =? ABTP_FIRSTKEY)) = Some page /\
    let states' := mk_ps page nblkno (Some lowkey) (OffsetNumberNext ABTP_FIRSTKEY) extra (Z.of_nat lvl) (abtps_full st) agg :: next' in
    inv (btws_file ws') lvl states' G' (((dn ≫= snd) ++ cur) ++ [it]) /\ grows ws ws' (blocks_of (st :: next) ((dn, cur) :: G)) (blocks_of states' G').
Proof.
  intros Hadd (_ & Hl & Htop & Hnext) Hin Hex Hpos Htidy Hfull Hfuel. pose proof (io_items _ _ Hin) as [[_ Hcur]%Forall_app [Hit _]%Forall_cons]%Forall_app.
  pose proof (full_enough lvl st dn cur _ it Hl Hit Hcur Hfull) as Hlen. destruct cur as [|x l _] using rev_ind; [simpl in Hlen; lia|]. assert (Hl0 : l <> []) by (intros ->; simpl in Hlen; destruct lvl; lia).
  pose proof Hcur as [Hlok [Hx _]%Forall_cons]%Forall_app.
  assert (Hsz : seg_size lvl (abtps_blkno st, l)).
  { split; cbn [snd]; rewrite length_app in Hlen; simpl in Hlen; [destruct lvl; lia|]. by apply (page_bound_prefix lvl l x Hcur), (level_count _ _ _ _ _ Hl). }
  destruct (finish_inv add fuel lvl ws st next dn l x G) as (ws3 & next2 & G2 & lk & Hfin & Hlk & Hw & Hinv & Hne2 & Hgr); try done; [by eapply inputs_prefix|].
  destruct (push_run lvl (abtps_blkno st) [x] (abtps_agg st) it) as (agg' & Hacc & Hagg & Hoff & Hsadd & Hroom).
  { cbn [app]. constructor; [done|by apply Forall_singleton]. }
  { apply (io_sum lvl), (inputs_suffix lvl ((dn ≫= snd) ++ l)). rewrite <- !app_assoc. rewrite <- !app_assoc in Hin. exact Hin. }
  { intros l1 x1 E Hl1. destruct l1 as [|? [|]]; done. }
  { rewrite used_cur, page_room_val. pose proof (spaces_bounds lvl [x] ltac:(by apply Forall_singleton)) as Hs. simpl (length [x]) in Hs.
    destruct (item_space _ _ Hit) as [? ?], it as [len t]. rewrite (line_bounds len t) by done. cbn [fst] in *. lia. }
  cbn [length] in Hacc, Hoff, Hsadd. change (1 + Z.of_nat 1) with ABTP_FIRSTKEY in Hacc, Hoff. rewrite <- Hoff in Hsadd.
  exists ws3, (cur_page lvl (abtps_blkno st) [x]), (btws_pages_alloced ws), lk, next2, agg', (cur_page lvl (abtps_blkno st) ([x] ++ [it])), ((dn ++ [(abtps_blkno st, l)], [x] ++ [it]) :: G2).
  split; [exact Hfin|]. split; [exact Hacc|]. split; [exact Hsadd|]. cbv zeta. split; cycle 1.
  { cbn [blocks_of abtps_blkno]. rewrite fmap_app. cbn [fmap list_fmap fst]. rewrite <- app_assoc in Hgr |- *. exact Hgr. }
  cbn [inv]. split; [by rewrite bind_app, bind_singleton, <- !app_assoc|]. split; [|split; [by destruct dn|done]].
  eapply (level_push _ lvl _ _ (dn ++ [(abtps_blkno st, l)]) [x] it agg' (btws_pages_alloced ws)); try done; try apply Hl.
  - apply Forall_app. split; [apply Hl|by apply Forall_singleton].
  - rewrite length_app. cbn [length]. rewrite Nat.add_1_r. cbn [prev_block]. rewrite lookup_app_r, Nat.sub_diag by lia. done.
  - rewrite last_snoc. cbn [fmap option_fmap option_map snd low_key app] in Hlk |- *. by rewrite (fence_head lvl l _ [x]), Hlk.
Qed.

Lemma buildadd_inv fuel : forall lvl ws states G ins it extra, inv (btws_file ws) lvl states G ins -> states <> [] -> inputs_ok lvl (ins ++ [as_added it]) -> 0 <= extra ->
  0 < btws_pages_alloced ws -> tidy ws (blocks_of states G) -> (S (length states) < fuel \/ ins = [] /\ length states < fuel)%nat ->
  exists ws' states' G', buildadd fuel ws states it extra = BOk (ws', states') /\ inv (btws_file ws') lvl states' G' (ins ++ [as_added it]) /\ states' <> [] /\
    grows ws ws' (blocks_of states G) (blocks_of states' G').
Proof.
  induction fuel as [|fuel IH]; intros lvl ws states G ins it extra Hinv Hne Hin Hex Hpos Htidy Hfuel; [lia|].
  destruct states as [|st next]; [done|]. destruct G as [|[dn cur] G]; [done|]. pose proof Hinv as (-> & Hl & Htop & Hnext).
  pose proof (io_items _ _ Hin) as [Hold [Hit _]%Forall_cons]%Forall_app. pose proof Hold as [_ Hcur]%Forall_app. destruct (added_allowed lvl it Hit) as [Hallow Hal].
  cbn [Build.buildadd]. rewrite (li_level _ _ _ _ _ Hl), Hallow, Hal. cbn [negb].
  change (set_values ai agg_map_fn (snd it)) with (snd (as_added it)). change (fst it) with (fst (as_added it)).
  destruct (page_full st (Z.of_nat lvl =? 0) (fst (as_added it))) eqn:Efull.
  - assert (Hadd : adds (fun ws states itup => buildadd fuel ws states itup 0) (S lvl) fuel) by (intros ws0 states0 G0 ins0 it0 H1 H2 H3 H4 H5 H6; by apply (IH (S lvl) ws0 states0 G0 ins0 it0 0)).
    destruct (add_finished _ fuel lvl ws st next dn cur G (as_added it) extra Hadd) as (ws' & npage & nblkno & lk & next' & agg & page & G' & Hfin & Hacc & Hsadd & Hinv' & Hgr); try done.
    { destruct Hfuel as [Hfuel|[Habs _]]; [simpl in Hfuel; lia|]. pose proof (full_enough lvl st dn cur _ (as_added it) Hl Hit Hcur Efull) as Hlen. apply app_nil in Habs as [_ ->]. simpl in Hlen. lia. }
    rewrite Hfin. cbn [bbind]. rewrite Hacc. cbn [bbind]. change (ABTP_FIRSTKEY =? ABTP_HIKEY) with false. rewrite Hsadd. cbn [bneed bbind]. eexists ws', _, G'. split; [reflexivity|]. by split_and!.
  - pose proof (not_full_fits lvl st _ cur (as_added it) (li_page _ _ _ _ _ Hl) Hit Efull) as Hfit. cbn [bbind].
    destruct (push_run lvl (prev_block dn (length dn)) cur (abtps_agg st) (as_added it)) as (agg' & Hacc & Hagg & Hoff & Hadd & Hroom).
    { apply Forall_app. split; [done|by apply Forall_singleton]. }
    { apply (io_sum lvl), (inputs_suffix lvl (dn ≫= snd)). by rewrite app_assoc. }
    { apply Hl. }
    { done. }
    rewrite (li_page _ _ _ _ _ Hl), (li_lastoff _ _ _ _ _ Hl), Hacc. cbn [bbind]. rewrite Hoff, Hadd. cbn [bneed bbind].
    eexists _, _, ((dn, cur ++ [as_added it]) :: G). split; [reflexivity|]. split; [|split; [done|apply frame_refl]].
    cbn [inv]. split; [by rewrite app_assoc|]. split; [|done]. eapply level_push; try done; try apply Hl.
    destruct cur as [|c cur]; [by rewrite (li_fresh _ _ _ _ _ Hl eq_refl)|]. unfold ABTP_HIKEY. rewrite (proj2 (Z.eqb_neq _ 1)) by (simpl; lia).
    by rewrite (li_low _ _ _ _ _ Hl).
Qed.

(** *** The finished tree *)

Definition last_page (lvl : nat) (prev : Z) (root : bool) (cur : list item) : bpage :=
  let p := mk_bp (Some <$> stored lvl cur) (opaque_of lvl prev ABTP_NONE) in if root then set_root p else p.

Record level_built (file : list block) (lvl : nat) (segs : list seg) (root : bool) : Prop := {
  lb_written : seg_written file lvl segs;
  lb_filled : Forall seg_filled segs;
  lb_last : exists init b ins, segs = init ++ [(b, ins)] /\ file !! Z.to_nat b = Some (TreeBlock (last_page lvl (prev_block segs (length init)) root ins))
}.

Definition is_nil {A} (l : list A) : bool := match l with [] => true | _ => false end.

(** The levels from [lvl] up to the root, when [ins] was added to the lowest. *)
Fixpoint built (file : list block) (lvl : nat) (levels : list (list seg)) (ins : list item) : Prop :=
  match levels with
  | [] => False
  | segs :: rest => ins = segs ≫= snd /\ level_built file lvl segs (is_nil rest) /\
      match rest with [] => length segs = 1%nat | _ => built file (S lvl) rest (parents lvl None segs) end
  end.

Lemma built_file file file' lvl levels ins : (forall b x, b ∈ levels ≫= fmap fst -> file !! Z.to_nat b = Some x -> file' !! Z.to_nat b = Some x) ->
  built file lvl levels ins -> built file' lvl levels ins.
Proof.
  revert lvl ins. induction levels as [|segs rest IH]; intros lvl ins Hk; [done|]. cbn [built]. intros (-> & Hl & Hr). split; [done|]. rewrite bind_cons in Hk. split.
  - destruct Hl as [Hw Hf (init & b & ins & -> & Hb)]. split; [|done|].
    + eapply written_file; [|exact Hw]. intros b' x Hb'. apply Hk. rewrite fmap_app, !elem_of_app. by left; left.
    + exists init, b, ins. split; [done|]. apply Hk; [|done]. rewrite fmap_app, !elem_of_app. left. right. by left.
  - destruct rest; [done|]. apply IH; [|done]. intros b x Hb. apply Hk. rewrite elem_of_app. by right.
Qed.

Lemma inv_nonempty file lvl st next dn cur G ins : inv file lvl (st :: next) ((dn, cur) :: G) ins -> ins <> [] -> cur <> [].
Proof. cbn [inv]. intros (-> & Hl & _ & _) Hne ->. by rewrite (li_fresh _ _ _ _ _ Hl eq_refl) in Hne. Qed.

Lemma done_length lvl dn : Forall (seg_size lvl) dn ->
  ((if lvl is S _ then 2 else 1) * length dn <= length (dn ≫= snd))%nat.
Proof. induction 1 as [|[b ins] dn [Hs _] _ IH]; [simpl; lia|]. rewrite bind_cons, length_app. cbn [snd length] in *. destruct lvl; lia. Qed.

Lemma slide_last lvl prev cur : _abt_slideleft (cur_page lvl prev cur) = last_page lvl prev false cur /\ _abt_slideleft (set_root (cur_page lvl prev cur)) = last_page lvl prev true cur.
Proof. done. Qed.

Abbreviation shutdown := (shutdown rel ai index_form_size agg_map_val agg_map_fn fillfactor inskey).

(** The blocks of the levels when the last page of one is written. *)
Lemma level_grows ws ws1 page ws' (dn : list seg) blk bs bs1 bs2 : let wsw := _abt_blwritepage ws1 page blk in Forall (fun b => 0 < b < btws_pages_alloced ws) (fst <$> dn) -> 0 < blk < btws_pages_alloced ws ->
  grows ws ws1 bs bs1 -> grows wsw ws' bs1 bs2 -> grows ws ws' (((fst <$> dn) ++ [blk]) ++ bs) (((fst <$> dn) ++ [blk]) ++ bs2).
Proof.
  intros wsw Hr1 Hr2 Hf1 Hf2. pose proof (fr_alloc _ _ _ _ Hf1) as Hal1.
  assert (Hmore : forall w, btws_pages_alloced ws <= w -> Forall (fun b => b < w) ((fst <$> dn) ++ [blk])).
  { intros w Hw. apply Forall_app. split; [eapply Forall_impl; [exact Hr1|]; intros b; cbn beta; lia|]. apply Forall_singleton. lia. }
  pose proof (frame_app _ _ _ _ _ (Hmore _ (Z.le_refl _)) Hf1) as F1. pose proof (frame_app _ _ _ _ _ (Hmore (btws_pages_alloced wsw) ltac:(unfold wsw; simpl; lia)) Hf2) as F3.
  assert (F2 : grows ws1 wsw (((fst <$> dn) ++ [blk]) ++ bs1) (((fst <$> dn) ++ [blk]) ++ bs1)).
  { apply frame_write; [|lia]. rewrite !elem_of_app. left. right. by left. }
  eapply frame_trans; [exact F1|eapply frame_trans; [exact F2|exact F3]].
Qed.

(** The root. *)
Lemma root_built ws blk cur : cur <> [] -> page_bound cur -> 0 < blk < btws_pages_alloced ws -> forall lvl, let ws' := _abt_blwritepage ws (TreeBlock (last_page lvl ABTP_NONE true cur)) blk in
  built (btws_file ws') lvl [[(blk, cur)]] cur /\ grows ws ws' [blk] [blk].
Proof.
  intros Hcur Hb Hr lvl ws'. split; [|apply frame_write; [by left|lia]]. cbn [built]. split; [by rewrite bind_singleton|]. split; [|done]. split; [|by apply Forall_singleton|].
  - intros i b1 i1 b2 i2 _ H2. by destruct i.
  - exists [], blk, cur. split; [done|]. unfold ws'. rewrite write_lookup by lia. done.
Qed.

Lemma shutdown_inv fuel : forall lvl ws states G ins, inv (btws_file ws) lvl states G ins -> states <> [] -> ins <> [] -> inputs_ok lvl ins -> 0 < btws_pages_alloced ws ->
  tidy ws (blocks_of states G) -> (length ins + (if lvl is S _ then 0 else 1) <= fuel)%nat ->
  exists ws' root levels, shutdown fuel ws states = BOk (ws', root, Z.of_nat (lvl + (length levels - 1))) /\ built (btws_file ws') lvl levels ins /\
    (exists cur, last levels = Some [(root, cur)]) /\ grows ws ws' (blocks_of states G) (levels ≫= fmap fst).
Proof.
  induction fuel as [|fuel IH]; intros lvl ws states G ins Hinv Hne Hins Hin Hpos Htidy Hfuel; [destruct ins; [done|simpl in Hfuel; lia]|].
  destruct states as [|st next]; [done|]. destruct G as [|[dn cur] G]; [done|]. pose proof (inv_nonempty _ _ _ _ _ _ _ _ Hinv Hins) as Hcur.
  cbn [inv] in Hinv. destruct Hinv as (-> & Hl & Htop & Hnext). pose proof (inputs_suffix lvl (dn ≫= snd) cur Hin) as Hinc. pose proof (filled lvl dn (li_done _ _ _ _ _ Hl)) as Hfill.
  destruct (accum_last lvl (prev_block dn (length dn)) cur (abtps_agg st) (io_items _ _ Hinc) (io_sum _ _ Hinc) (li_agg _ _ _ _ _ Hl)) as (agg & Hacc & Hagg). specialize (Hagg Hcur). subst agg.
  cbn [Build.shutdown]. rewrite (li_page _ _ _ _ _ Hl), (li_lastoff _ _ _ _ _ Hl), (li_level _ _ _ _ _ Hl), Hacc. cbn [bbind].
  set (blk := abtps_blkno st) in *. pose proof Htidy as (Hnd & Hrange & Hflen). cbn [blocks_of] in Hnd, Hrange. fold blk in Hnd, Hrange.
  apply NoDup_app in Hnd as (Hnd1 & Hnd2 & [Hnd3 Hnd4]%NoDup_cons). apply Forall_app in Hrange as [Hr1 [Hr2 Hr3]%Forall_cons].
  assert (Hfl' : Forall seg_filled (dn ++ [(blk, cur)])) by (apply Forall_app; split; [done|apply Forall_singleton; split; [done|]; by apply (level_count _ _ _ _ _ Hl (io_items _ _ Hinc))]).
  destruct next as [|n next].
  - destruct G; [|done]. cbn [inv] in Hnext. assert (dn = []) as -> by (apply (f_equal length) in Hnext; rewrite parents_length in Hnext; by destruct dn).
    eexists _, blk, [[(blk, cur)]]. split; [cbn [length]; rewrite Nat.sub_diag, Nat.add_0_r; reflexivity|]. destruct (root_built ws blk cur Hcur (level_count _ _ _ _ _ Hl (io_items _ _ Hinc)) ltac:(lia) lvl) as [H1 H2].
    split; [exact H1|]. split; [by eexists|exact H2].
  - destruct (low_key_ok lvl dn cur Hfill Hcur Hin) as [lk Hlk]. rewrite (li_low _ _ _ _ _ Hl Hcur), Hlk. cbn [bneed bbind].
    assert (Hpar : parents lvl None dn ++ [as_added (downlink lk blk (sum_of cur))] = parents lvl None (dn ++ [(blk, cur)])).
    { rewrite parents_app. replace (match last dn with Some s => Some (snd s) | None => None end) with (snd <$> last dn) by (by destruct (last dn)). rewrite Hlk. done. }
    assert (Hpin : inputs_ok (S lvl) (parents lvl None (dn ++ [(blk, cur)]))) by (apply parents_ok; [done|by rewrite bind_app, bind_singleton]).
    destruct (buildadd_inv (S (S (length (n :: next)))) (S lvl) ws (n :: next) G (parents lvl None dn) (downlink lk blk (sum_of cur)) 0) as (ws1 & next1 & G1 & Hrun & Hinv1 & Hne1 & Hf1); try done.
    { by rewrite Hpar. }
    { left. lia. }
    unfold _abt_buildadd. rewrite Hrun. cbn [bbind]. rewrite Hpar in Hinv1. pose proof (fr_alloc _ _ _ _ Hf1) as Hal1.
    assert (Hbn : blk ∉ blocks_of next1 G1) by (intros Hb; destruct (frame_new _ _ _ _ _ Hf1 Hb); [done|lia]).
    assert (Htidy1 : tidy ws1 (blocks_of next1 G1)) by (eapply tidy_frame; [|exact Hf1|lia]; done).
    destruct (slide_last lvl (prev_block dn (length dn)) cur) as [-> _]. set (wsw := _abt_blwritepage ws1 _ blk).
    assert (Hother : forall b y, b ∈ blocks_of next1 G1 -> btws_file ws1 !! Z.to_nat b = Some y -> btws_file wsw !! Z.to_nat b = Some y).
    { intros b y Hb Hy. destruct Htidy1 as (_ & Hr & _). rewrite Forall_forall in Hr. specialize (Hr b Hb). apply write_other; [lia|lia|by intros ->|done]. }
    destruct (IH (S lvl) wsw next1 G1 (parents lvl None (dn ++ [(blk, cur)]))) as (ws' & root & levels & Hrun' & Hbuilt & (rcur & Hroot) & Hf2); try done.
    { eapply inv_file; [|exact Hinv1]. intros b y Hb. apply Hother. by apply (done_in_blocks _ _ _ _ _ b Hinv1). }
    { by destruct dn as [|[? ?] ?]. }
    { unfold wsw. simpl. lia. }
    { destruct Htidy1 as (? & Hr & Hfl). split; [done|]. split; [done|]. unfold wsw. rewrite write_length by lia. cbn [_abt_blwritepage btws_pages_alloced]. lia. }
    { rewrite parents_length, length_app. cbn [length]. rewrite length_app in Hfuel. pose proof (done_length lvl dn (li_done _ _ _ _ _ Hl)) as Hdl.
      assert (0 < length cur)%nat by (destruct cur; simpl; [done|lia]). assert (0 < length dn)%nat; [|destruct lvl; lia].
      destruct dn; [|simpl; lia]. by specialize (Htop eq_refl). }
    assert (Hkeep : forall b y, 0 < b < btws_pages_alloced ws -> b ∉ blocks_of (n :: next) G -> btws_file wsw !! Z.to_nat b = Some y -> btws_file ws' !! Z.to_nat b = Some y).
    { intros b y Hb Hnb Hy. apply (fr_keep _ _ _ _ Hf2); [unfold wsw; simpl; lia| |done]. intros Hin1. destruct (frame_new _ _ _ _ _ Hf1 Hin1); [done|lia]. }
    assert (Hlev : levels <> []) by (by intros ->).
    exists ws', root, ((dn ++ [(blk, cur)]) :: levels). split; [|split; [|split]].
    + rewrite Hrun'. do 2 f_equal. destruct levels; [done|]. simpl. lia.
    + cbn [built]. split; [by rewrite bind_app, bind_singleton|]. split; [|by destruct levels]. replace (is_nil levels) with false by (by destruct levels). split; [|done|].
      * eapply written_file; [|apply Hl]. intros b y Hb Hy. rewrite Forall_forall in Hr1. pose proof (Hr1 b Hb). assert (b ∉ blocks_of (n :: next) G) by (intros Hb'; apply (Hnd2 b Hb); by right).
        apply Hkeep; [lia|done|]. apply write_other; [lia|lia|intros ->; apply (Hnd2 blk Hb); by left|]. by apply (fr_keep _ _ _ _ Hf1); [lia| |].
      * exists dn, blk, cur. split; [done|]. rewrite prev_block_app by lia. apply Hkeep; [lia|done|]. apply write_lookup. lia.
    + exists rcur. rewrite last_cons. by rewrite Hroot.
    + rewrite bind_cons, fmap_app. eapply frame_perm; [| |exact (level_grows ws ws1 _ ws' dn blk _ _ _ Hr1 Hr2 Hf1 Hf2)]; [|reflexivity]. cbn [blocks_of]. fold blk. by rewrite <- app_assoc.
Qed.

(** *** Loading *)

Abbreviation add_leaf := (add_leaf rel ai index_form_size agg_map_val agg_map_fn fillfactor inskey).
Abbreviation _abt_uppershutdown := (_abt_uppershutdown rel ai index_form_size agg_map_val agg_map_fn fillfactor inskey).

Fixpoint add_list (ws : ABTWriteState) (states : list ABTPageState) (l : list (itup * Z)) : bres (ABTWriteState * list ABTPageState) :=
  match l with
  | [] => BOk (ws, states)
  | (t, x) :: l => let? (ws, states) := add_leaf ws states t x in add_list ws states l
  end.

Definition leaf_input (t : itup) : item := as_added (it_size t, LeafTup t).

Lemma add_list_inv l : forall ws states G ins, inv (btws_file ws) 0 states G ins -> states <> [] -> inputs_ok 0 (ins ++ (leaf_input ∘ fst <$> l)) -> Forall (fun x => 0 <= snd x) l ->
  0 < btws_pages_alloced ws -> tidy ws (blocks_of states G) ->
  exists ws' states' G', add_list ws states l = BOk (ws', states') /\ inv (btws_file ws') 0 states' G' (ins ++ (leaf_input ∘ fst <$> l)) /\ states' <> [] /\
    grows ws ws' (blocks_of states G) (blocks_of states' G').
Proof.
  induction l as [|[t x] l IH]; intros ws states G ins Hinv Hne Hin Hx Hpos Htidy; cbn [add_list fmap list_fmap] in *.
  - exists ws, states, G. rewrite app_nil_r in *. split_and!; try done. apply frame_refl.
  - change (compose leaf_input fst (t, x)) with (leaf_input t) in *. apply Forall_cons in Hx as [Hx0 Hx]. cbn [snd] in Hx0.
    assert (Hin' : inputs_ok 0 ((ins ++ [leaf_input t]) ++ (leaf_input ∘ fst <$> l))) by (by rewrite <- app_assoc).
    destruct (buildadd_inv (S (S (length states))) 0 ws states G ins (it_size t, LeafTup t) x) as (ws1 & st1 & G1 & Hrun & Hinv1 & Hne1 & Hf1); try done; [by eapply inputs_prefix|left; lia|].
    unfold Build.add_leaf, _abt_buildadd. rewrite Hrun. cbn [bbind]. pose proof (fr_alloc _ _ _ _ Hf1).
    destruct (IH ws1 st1 G1 (ins ++ [leaf_input t]) Hinv1 Hne1 Hin' Hx ltac:(lia)) as (ws2 & st2 & G2 & Hrun2 & Hinv2 & Hne2 & Hf2); [by eapply tidy_frame|].
    exists ws2, st2, G2. split; [done|]. split; [by rewrite <- app_assoc in Hinv2|]. split; [done|]. by eapply frame_trans.
Qed.

Lemma built_blocks file lvl levels ins b : built file lvl levels ins -> b ∈ levels ≫= fmap fst -> exists p, file !! Z.to_nat b = Some (TreeBlock p).
Proof.
  revert lvl ins. induction levels as [|segs rest IH]; intros lvl ins; [done|]. cbn [built]. intros (_ & [Hw _ (init & lb & li & Hs & Hl)] & Hr) Hb.
  rewrite bind_cons in Hb. apply elem_of_app in Hb as [Hb|Hb]; cycle 1.
  { destruct rest; [by apply elem_of_nil in Hb|]. by apply (IH _ _ Hr). }
  apply list_elem_of_fmap in Hb as ([b' i'] & -> & Hb). cbn [fst]. apply list_elem_of_lookup_1 in Hb as [i Hi]. destruct (segs !! S i) as [[b2 i2]|] eqn:Ei.
  - destruct (Hw i b' i' b2 i2 Hi Ei) as (hk & lk & _ & Hp). by eexists.
  - apply lookup_ge_None in Ei. pose proof (lookup_lt_Some _ _ _ Hi) as Hlt. subst segs. rewrite length_app in *. simpl in *. rewrite lookup_app_r in Hi by lia.
    replace (i - length init)%nat with 0%nat in Hi by lia. injection Hi as <- <-. by eexists.
Qed.

(** A build: the levels of the tree, its blocks and the meta page. *)
Record build_result (ws : ABTWriteState) (levels : list (list seg)) (items : list item) (root : Z) : Prop := {
  br_built : built (btws_file ws) 0 levels items;
  br_root : exists cur, last levels = Some [(root, cur)];
  br_meta : btws_file ws !! 0%nat = Some (MetaBlock (mk_meta root (Z.of_nat (length levels - 1)) root (Z.of_nat (length levels - 1))));
  br_blocks : levels ≫= fmap fst ≡ₚ seqZ 1 (Z.of_nat (length (btws_file ws)) - 1)
}.

Lemma load_finish l fuel : l <> [] -> inputs_ok 0 (leaf_input ∘ fst <$> l) -> Forall (fun x => 0 <= snd x) l -> (length l < fuel)%nat ->
  exists ws1 s ws2 states ws' levels root, _abt_pagestate fillfactor (mk_ws 1 []) 0 = (ws1, s) /\ add_list ws1 [s] l = BOk (ws2, states) /\
    _abt_uppershutdown fuel ws2 states = BOk ws' /\ build_result ws' levels (leaf_input ∘ fst <$> l) root.
Proof.
  intros Hl Hin Hx Hfuel. pose proof (fresh_level [] 0 (mk_ws 1 [])) as Hfresh. destruct (_abt_pagestate fillfactor (mk_ws 1 []) (Z.of_nat 0)) as [ws1 s] eqn:Eps.
  assert (Hws : ws1 = mk_ws 2 [] /\ abtps_blkno s = 1) by (unfold _abt_pagestate, alloc_page in Eps; cbn in Eps; by injection Eps as <- <-). destruct Hws as [-> Hs].
  cbn [snd] in Hfresh. destruct (add_list_inv l (mk_ws 2 []) [s] [([], [])] []) as (ws2 & states & G & Hadd & Hinv & Hne & Hf); try done.
  { cbn [blocks_of fmap list_fmap app]. rewrite Hs. split; [apply NoDup_singleton|]. split; [apply Forall_singleton; simpl; lia|simpl; lia]. }
  pose proof (fr_alloc _ _ _ _ Hf) as Hal. cbn [btws_pages_alloced] in Hal.
  destruct (shutdown_inv fuel 0 ws2 states G (leaf_input ∘ fst <$> l)) as (ws3 & root & levels & Hsd & Hbuilt & Hroot & Hf2); try done.
  { by destruct l. }
  { lia. }
  { eapply tidy_frame; [|exact Hf|simpl; lia]. cbn [blocks_of fmap list_fmap app]. rewrite Hs. split; [apply NoDup_singleton|]. split; [apply Forall_singleton; simpl; lia|simpl; lia]. }
  { rewrite length_fmap. lia. }
  pose proof (frame_trans _ _ _ _ _ _ Hf Hf2) as [A P L _]. cbn [blocks_of fmap list_fmap app btws_pages_alloced btws_file] in A, P, L. rewrite Hs in P. specialize (L ltac:(simpl; lia)).
  assert (Hbl : levels ≫= fmap fst ≡ₚ seqZ 1 (btws_pages_alloced ws3 - 1)) by (rewrite P; by rewrite (seqZ_cons 1) by lia; simpl; replace (Z.succ 1) with 2 by lia; replace (Z.pred _) with (btws_pages_alloced ws3 - 2) by lia).
  set (ws' := _abt_blwritepage ws3 (MetaBlock (mk_meta root (Z.of_nat (length levels - 1)) root (Z.of_nat (length levels - 1)))) ABTREE_METAPAGE).
  assert (Hlen : Z.of_nat (length (btws_file ws')) = btws_pages_alloced ws3).
  { unfold ws'. rewrite write_length by done. change (S (Z.to_nat ABTREE_METAPAGE)) with 1%nat.
    destruct (built_blocks _ _ _ _ (btws_pages_alloced ws3 - 1) Hbuilt) as [p Hp]; [rewrite Hbl; apply elem_of_seqZ; lia|]. apply lookup_lt_Some in Hp. lia. }
  exists (mk_ws 2 []), s, ws2, states, ws', levels, root. split; [done|]. split; [done|]. split; [unfold Build._abt_uppershutdown; by rewrite Hsd|]. split.
  - eapply built_file; [|exact Hbuilt]. intros b y Hb Hy. rewrite Hbl in Hb. apply elem_of_seqZ in Hb. apply write_other; try done; unfold ABTREE_METAPAGE; lia.
  - done.
  - unfold ws'. change 0%nat with (Z.to_nat ABTREE_METAPAGE) at 1. by rewrite write_lookup.
  - by rewrite Hlen.
Qed.

End Levels.
End BuildTree.
