(* ===== verification/BuildOk.v ===== *)
(** * A built index is a tree

    From the description of the levels a build leaves behind (BuildTree) to the invariants
    the other operations start from: the order and the links of the levels for searches,
    the chain of leaf pages for scans, and exact aggregates for draws and insertions. *)

From stdpp Require Import base numbers option sorting list.
From S2P Require Import Prelude Tuple Dedup Versions Page Search Truncate SplitLoc Btree Insert Sample Draw PathSums Scan ScanMatches Build BuildTree.

Module BuildOk.
Import Tuple Dedup Versions Page Search Truncate Btree Insert PathSums Build BuildTree.

(** ** The pages of a file *)

Definition page_of (p : bpage) : page := mk_pg ((fun it => (false, snd it)) <$> omap id (bp_lines p)) (bp_opaque p).

Definition file_pages (file : list block) (b : Z) : option page :=
  if b <? 0 then None
  else match file !! Z.to_nat b with
       | Some (TreeBlock p) => Some (page_of p)
       | Some (MetaBlock _) => Some (mk_pg [] (mk_opaque 0 0 0 ABTP_META 0))
       | Some ZeroBlock => Some (mk_pg [] (mk_opaque 0 0 0 0 0))
       | None => None
       end.

Lemma omap_some {A} (l : list A) : omap id (Some <$> l) = l.
Proof. induction l as [|x l IH]; [done|]. cbn. by f_equal. Qed.

Section Levels.
Context (rel : index_rel) (ai : agg_info) (index_form_size : list (option Z) -> Z).
Context (agg_map_val : Z) (inskey : ABTScanInsertData).
Context (Hrel : rel_ok rel) (Hcols : rd_cols rel <> []) (Hkey : full_key rel inskey).
Context (ai0 : agg_info) (Hai : ai = _abt_compute_tuple_offsets ai0) (Htyp : agg_typlen ai = 2 \/ agg_typlen ai = 4 \/ agg_typlen ai = 8).
Context (Hform : forall n k, index_form_size (take n k) <= index_form_size k) (Hform8 : forall k, 0 <= index_form_size k /\ index_form_size k mod 8 = 0).
Context (Hmap : 0 <= agg_map_val).

Abbreviation inputs_ok := (inputs_ok rel ai index_form_size agg_map_val).
Abbreviation item_ok := (item_ok rel ai index_form_size).
Abbreviation fence := (fence rel ai index_form_size inskey).
Abbreviation fence_ok := (fence_ok rel).
Abbreviation parents := (parents rel ai index_form_size agg_map_val inskey).
Abbreviation level_built := (level_built rel ai index_form_size inskey).
Abbreviation built := (built rel ai index_form_size agg_map_val inskey).
Abbreviation stored := (stored ai).
Abbreviation sum_of := (sum_of ai agg_map_val).

(** What the page of segment [i] looks like. *)
Record page_facts (lvl : nat) (segs : list seg) (i : nat) (ins : list item) (p : page) : Prop := {
  pf_ok : page_ok rel p;
  pf_live : ABT_P_IGNORE (pg_opaque p) = false;
  pf_leaf : is_leaf p = (lvl =? 0)%nat;
  pf_level : abtpo_level (pg_opaque p) = Z.of_nat lvl;
  pf_prev : abtpo_prev (pg_opaque p) = prev_block segs i;
  pf_next : abtpo_next (pg_opaque p) = default ABTP_NONE (fst <$> segs !! S i);
  pf_data : data_items p = snd <$> stored lvl ins;
  pf_lines : Forall (fun l => fst l = false) (pg_lines p);
  pf_hikey : match segs !! S i with
             | None => ABT_P_RIGHTMOST (pg_opaque p) = true
             | Some (_, ins') => ABT_P_RIGHTMOST (pg_opaque p) = false /\
                 exists hk lk, fence lvl ins ins' = Some (hk, lk) /\ fence_ok lvl ins ins' hk lk /\ PageGetItem p ABTP_HIKEY = Some (snd hk)
             end
}.

Lemma segs_adjacent (segs : list seg) i b ins b' ins' : segs !! i = Some (b, ins) -> segs !! S i = Some (b', ins') ->
  exists l r, segs ≫= snd = l ++ (ins ++ ins') ++ r.
Proof.
  intros H1 H2. exists (take i segs ≫= snd), (drop (S (S i)) segs ≫= snd). rewrite <- (take_drop i segs) at 1. rewrite (drop_S _ _ _ H1), (drop_S _ _ _ H2).
  rewrite bind_app, !bind_cons. cbn [snd]. by rewrite <- !app_assoc.
Qed.
Lemma segs_part (segs : list seg) i b ins : segs !! i = Some (b, ins) -> exists l r, segs ≫= snd = l ++ ins ++ r.
Proof.
  intros H1. exists (take i segs ≫= snd), (drop (S i) segs ≫= snd). rewrite <- (take_drop i segs) at 1. rewrite (drop_S _ _ _ H1).
  by rewrite bind_app, !bind_cons.
Qed.

Lemma inputs_part lvl l k r : inputs_ok lvl (l ++ k ++ r) -> inputs_ok lvl k.
Proof. intros H. apply inputs_suffix in H; try done. by apply inputs_prefix in H. Qed.

Lemma item_tuple lvl it : item_ok lvl it -> tuple_ok rel (snd it).
Proof. destruct lvl, it as [len [t|pv]]; try done; cbn [BuildTree.item_ok snd]; [intros [_ H]; apply H|by intros [H _]]. Qed.

Lemma stored_tail lvl l : (0 < lvl)%nat -> tail (stored lvl l) = tail l.
Proof. destruct lvl; [lia|]. by destruct l as [|[? [|]] ?]. Qed.

Lemma sorted_tuples (l : list item) : StronglySorted (item_before rel) l -> StronglySorted (tuple_before rel) (snd <$> l).
Proof. induction 1 as [|a l _ IH Ha]; [constructor|]. cbn. constructor; [done|]. apply Forall_fmap. eapply Forall_impl; [exact Ha|]. by intros b [? _]. Qed.

(** A page with the items of a segment, high key or not, is in order. *)
Lemma page_facts_ok lvl ins hik o : ins <> [] -> Z.of_nat (length ins) < 2036 -> inputs_ok lvl ins -> (length hik = if ABT_P_RIGHTMOST o then 0 else 1)%nat ->
  ABT_P_ISLEAF o = (lvl =? 0)%nat ->
  let p := mk_pg ((fun it : item => (false, snd it)) <$> hik ++ stored lvl ins) o in page_ok rel p /\ data_items p = snd <$> stored lvl ins.
Proof.
  intros Hne Hlen Hin Hh Hlf p.
  assert (Hdata : data_items p = snd <$> stored lvl ins).
  { unfold data_items, p, first_off, ABT_P_FIRSTDATAKEY. cbn [pg_lines pg_opaque]. rewrite <- list_fmap_compose. rewrite fmap_app.
    change (compose snd (fun it : item => (false, snd it))) with (@snd Z index_tuple).
    destruct (ABT_P_RIGHTMOST o); [destruct hik; [done|done]|]. destruct hik as [|? [|]]; done. }
  split; [|done]. pose proof (stored_ok rel ai index_form_size ai0 Hai Htyp lvl ins (io_items _ _ _ _ _ _ Hin)) as Hst. apply page_ok_intro.
  - unfold PageGetMaxOffsetNumber, p. cbn [pg_lines]. rewrite length_fmap, length_app, stored_length. destruct (ABT_P_RIGHTMOST o); lia.
  - rewrite Hdata. apply Forall_fmap. eapply Forall_impl; [exact Hst|]. intros it. cbn [compose]. apply item_tuple.
  - rewrite Hdata. unfold is_leaf, p. cbn [pg_opaque]. rewrite Hlf. pose proof (sorted_tuples _ (io_sorted _ _ _ _ _ _ Hin)) as Hs. destruct lvl as [|lvl]; cbn [Nat.eqb].
    + by destruct ins.
    + rewrite <- fmap_tail, stored_tail by lia. destruct ins as [|it ins]; [done|]. cbn [tail] in *. cbn [fmap list_fmap] in Hs. by apply StronglySorted_inv in Hs as [Hs _].
  - intros _. rewrite Hdata. intros E. apply (f_equal length) in E. rewrite length_fmap, stored_length in E. by destruct ins.
Qed.

Lemma flags_facts lvl root prev next : let o := bp_opaque (if root : bool then set_root (mk_bp [] (opaque_of lvl prev next)) else mk_bp [] (opaque_of lvl prev next)) in
  ABT_P_IGNORE o = false /\ ABT_P_ISLEAF o = (lvl =? 0)%nat /\ abtpo_level o = Z.of_nat lvl /\ abtpo_prev o = prev /\ abtpo_next o = next.
Proof. destruct root, lvl; cbn -[Z.lor Z.of_nat]; rewrite ?(proj2 (Z.ltb_lt 0 _)) by lia; by split_and!. Qed.

Lemma seg_page file lvl segs root i b ins : level_built file lvl segs root -> Forall (fun s => 0 < fst s) segs -> inputs_ok lvl (segs ≫= snd) -> segs !! i = Some (b, ins) ->
  exists p, file_pages file b = Some p /\ page_facts lvl segs i ins p.
Proof.
  intros [Hw Hf (init & lb & li & Hs & Hl)] Hpos Hin Hi. rewrite Forall_forall in Hf, Hpos.
  destruct (Hf _ (list_elem_of_lookup_2 _ _ _ Hi)) as [Hne [Hlen _]]. pose proof (Hpos _ (list_elem_of_lookup_2 _ _ _ Hi)) as Hb. cbn [fst snd] in Hne, Hlen, Hb.
  assert (Hini : inputs_ok lvl ins) by (destruct (segs_part segs i b ins Hi) as (l & r & E); rewrite E in Hin; by eapply inputs_part).
  unfold file_pages. rewrite (proj2 (Z.ltb_ge b 0)) by lia. destruct (segs !! S i) as [[b' ins']|] eqn:Ei.
  - destruct (Hw i b ins b' ins' Hi Ei) as (hk & lk & Hfe & ->). pose proof (Hpos _ (list_elem_of_lookup_2 _ _ _ Ei)) as Hb'. cbn [fst] in Hb'.
    destruct (Hf _ (list_elem_of_lookup_2 _ _ _ Ei)) as [Hne' _]. cbn [snd] in Hne'.
    assert (Hin2 : inputs_ok lvl (ins ++ ins')) by (destruct (segs_adjacent segs i b ins b' ins' Hi Ei) as (l & r & E); rewrite E in Hin; by eapply inputs_part).
    destruct (fence_spec rel ai index_form_size agg_map_val inskey Hrel Hcols Hkey ai0 Hai Htyp Hform Hform8 lvl ins ins' Hne Hne' Hin2) as (hk' & lk' & Hfe' & Hok).
    rewrite Hfe in Hfe'. injection Hfe' as <- <-. eexists. split; [reflexivity|]. destruct (flags_facts lvl false (prev_block segs i) b') as (F1 & F2 & F3 & F4 & F5). cbn [bp_opaque] in *.
    unfold page_of, full_page. cbn [bp_lines bp_opaque]. rewrite omap_some. change (hk :: stored lvl ins) with ([hk] ++ stored lvl ins).
    assert (Hrm : ABT_P_RIGHTMOST (opaque_of lvl (prev_block segs i) b') = false) by (unfold ABT_P_RIGHTMOST; rewrite F5; apply Z.eqb_neq; unfold ABTP_NONE; lia).
    destruct (page_facts_ok lvl ins [hk] (opaque_of lvl (prev_block segs i) b') Hne Hlen Hini) as [Hpk Hpd]; [by rewrite Hrm|done|].
    split; cbn [pg_opaque]; try done.
    + by rewrite Ei.
    + apply Forall_fmap, Forall_true. done.
    + rewrite Ei. split; [done|]. exists hk, lk. split_and!; try done.
  - apply lookup_ge_None in Ei as Hge. pose proof (lookup_lt_Some _ _ _ Hi) as Hlt. assert (i = length init) as ->.
    { subst segs. rewrite length_app in *. simpl in *. lia. }
    assert (Heq : lb = b /\ li = ins). { rewrite Hs, lookup_app_r, Nat.sub_diag in Hi by lia. by injection Hi as <- <-. } destruct Heq as [-> ->]. rewrite Hl. eexists. split; [reflexivity|].
    destruct (flags_facts lvl root (prev_block segs (length init)) ABTP_NONE) as (F1 & F2 & F3 & F4 & F5).
    assert (Hpo : page_of (last_page ai lvl (prev_block segs (length init)) root ins) =
      mk_pg ((fun it : item => (false, snd it)) <$> [] ++ stored lvl ins) (bp_opaque (if root then set_root (mk_bp [] (opaque_of lvl (prev_block segs (length init)) ABTP_NONE)) else mk_bp [] (opaque_of lvl (prev_block segs (length init)) ABTP_NONE)))).
    { unfold page_of, last_page. destruct root; cbn [bp_lines bp_opaque set_root]; by rewrite omap_some. }
    rewrite Hpo. match goal with |- context [mk_pg _ ?o] => assert (Hrm : ABT_P_RIGHTMOST o = true) by (unfold ABT_P_RIGHTMOST; by rewrite F5); set (o' := o) in * end.
    destruct (page_facts_ok lvl ins [] o' Hne Hlen Hini) as [Hpk Hpd]; [by rewrite Hrm|done|].
    split; cbn [pg_opaque]; try done.
    + by rewrite Ei.
    + apply Forall_fmap, Forall_true. done.
    + by rewrite Ei.
Qed.

(** ** The levels *)

(** Level [k] of a tree with the items [items] on its leaves. *)
Record level_facts (file : list block) (levels : list (list seg)) (k : nat) (segs : list seg) : Prop := {
  lf_built : exists root, level_built file k segs root;
  lf_inputs : inputs_ok k (segs ≫= snd);
  lf_above : forall segs', levels !! S k = Some segs' -> segs' ≫= snd = parents k None segs;
  lf_top : levels !! S k = None -> length segs = 1%nat
}.

Lemma built_level file lvl levels ins j segs : built file lvl levels ins -> inputs_ok lvl ins -> levels !! j = Some segs ->
  level_facts file (replicate lvl [] ++ levels) (lvl + j) segs /\ (j = O -> segs ≫= snd = ins).
Proof.
  revert lvl ins j. induction levels as [|segs0 rest IH]; intros lvl ins j; [done|]. cbn [BuildTree.built]. intros (-> & Hl & Hr) Hin Hj.
  assert (Hlk : forall n, (replicate lvl [] ++ segs0 :: rest) !! (lvl + n)%nat = (segs0 :: rest) !! n).
  { intros n. rewrite lookup_app_r by (rewrite length_replicate; lia). rewrite length_replicate. f_equal. lia. }
  destruct j as [|j].
  - injection Hj as <-. split; [|done]. rewrite Nat.add_0_r. split; [by eexists|done| |].
    + intros segs'. replace (S lvl) with (lvl + 1)%nat by lia. rewrite Hlk. intros H. destruct rest as [|s1 rest]; [done|]. cbn in H. injection H as <-. cbn [BuildTree.built] in Hr. by destruct Hr as (-> & _).
    + replace (S lvl) with (lvl + 1)%nat by lia. rewrite Hlk. destruct rest as [|s1 rest]; [done|]. done.
  - split; [|done]. destruct rest as [|s1 rest]; [done|].
    assert (Hp : inputs_ok (S lvl) (parents lvl None segs0)) by (apply (parents_ok rel ai index_form_size agg_map_val inskey Hrel Hcols Hkey ai0 Hai Htyp Hform Hform8 Hmap); [apply Hl|done]).
    destruct (IH (S lvl) _ j Hr Hp Hj) as [[Hb Hi Ha Ht] _]. replace (S lvl + j)%nat with (lvl + S j)%nat in * by lia.
    assert (Hsh : forall n, (replicate lvl [] ++ segs0 :: s1 :: rest) !! S (lvl + n)%nat = (replicate (S lvl) [] ++ s1 :: rest) !! S (lvl + n)%nat).
    { intros n. rewrite lookup_app_r by (rewrite length_replicate; lia). rewrite (lookup_app_r (replicate (S lvl) [])) by (rewrite length_replicate; lia).
      rewrite !length_replicate. replace (S (lvl + n) - lvl)%nat with (S n) by lia. by replace (S (lvl + n) - S lvl)%nat with n by lia. }
    split; [done|done| |]; rewrite Hsh; [exact Ha|exact Ht].
Qed.

Lemma parents_lookup lvl prev segs m b ins : segs !! m = Some (b, ins) ->
  exists lk, parents lvl prev segs !! m = Some (link lk b (sum_of ins)) /\
    lk = default (first_lowkey ai) (low_key rel ai index_form_size inskey lvl (match m with O => prev | S m => snd <$> segs !! m end) ins).
Proof.
  revert prev m. induction segs as [|[b0 i0] segs IH]; intros prev [|m] Hm; [done|done| |].
  - injection Hm as -> ->. by eexists.
  - destruct (IH (Some i0) m Hm) as (lk & Hl & ->). eexists. split; [exact Hl|]. by destruct m.
Qed.

Lemma parents_lookup_Some lvl prev segs m it : parents lvl prev segs !! m = Some it -> exists b ins, segs !! m = Some (b, ins).
Proof.
  intros H. apply lookup_lt_Some in H. rewrite parents_length in H. destruct (lookup_lt_is_Some_2 segs m H) as [[b ins] Hs]. by exists b, ins.
Qed.

(** Item [j] of segment [i] is an item of the level. *)
Lemma bind_lookup (segs : list seg) i b ins j it : segs !! i = Some (b, ins) -> ins !! j = Some it ->
  (segs ≫= snd) !! (length (take i segs ≫= snd) + j)%nat = Some it /\
  (segs ≫= snd) !! S (length (take i segs ≫= snd) + j) = match ins !! S j with Some it' => Some it' | None => head (drop (S i) segs ≫= snd) end.
Proof.
  intros Hi Hj. assert (E : segs ≫= snd = (take i segs ≫= snd) ++ ins ++ (drop (S i) segs ≫= snd)).
  { rewrite <- (take_drop i segs) at 1. by rewrite (drop_S _ _ _ Hi), bind_app, bind_cons. }
  rewrite E. split.
  - rewrite lookup_app_r by lia. replace (_ + j - _)%nat with j by lia. by apply lookup_app_l_Some.
  - rewrite lookup_app_r by lia. replace (S (_ + j) - _)%nat with (S j) by lia. destruct (ins !! S j) as [it'|] eqn:E'; [by apply lookup_app_l_Some|].
    pose proof (lookup_lt_Some _ _ _ Hj). apply lookup_ge_None in E'. rewrite lookup_app_r by lia. replace (S j - length ins)%nat with 0%nat by lia. by rewrite head_lookup.
Qed.

Lemma head_next (segs : list seg) i : Forall seg_filled segs -> head (drop i segs ≫= snd) = (s ← segs !! i; head (snd s)).
Proof.
  intros Hf. destruct (segs !! i) as [[b ins]|] eqn:E.
  - rewrite (drop_S _ _ _ E), bind_cons. rewrite Forall_forall in Hf. destruct (Hf _ (list_elem_of_lookup_2 _ _ _ E)) as [Hne _]. cbn [snd mbind option_bind] in *. by destruct ins.
  - apply lookup_ge_None in E. by rewrite drop_ge.
Qed.

Lemma start_zero (segs : list seg) i : Forall seg_filled segs -> (i <= length segs)%nat -> length (take i segs ≫= snd) = 0%nat -> i = 0%nat.
Proof.
  intros Hf Hi Hl. destruct i as [|i]; [done|]. destruct Hf as [|[b ins] segs [Hne _] Hf]; [simpl in Hi; lia|]. cbn [take] in Hl. rewrite bind_cons, length_app in Hl. cbn [snd] in *. destruct ins; [done|simpl in Hl; lia].
Qed.

(** The fence on the level below for the child at position [m]. *)
Lemma child_fence lvl segs m b ins : Forall seg_filled segs -> inputs_ok lvl (segs ≫= snd) -> segs !! S m = Some (b, ins) ->
  exists b0 i0 hk lk, segs !! m = Some (b0, i0) /\ fence lvl i0 ins = Some (hk, lk) /\ fence_ok lvl i0 ins hk lk /\ parents lvl None segs !! S m = Some (link lk b (sum_of ins)).
Proof.
  intros Hf Hin Hm. pose proof (lookup_lt_Some _ _ _ Hm) as Hlt. destruct (lookup_lt_is_Some_2 segs m ltac:(lia)) as [[b0 i0] Hm0]. rewrite Forall_forall in Hf.
  destruct (Hf _ (list_elem_of_lookup_2 _ _ _ Hm)) as [Hne _]. destruct (Hf _ (list_elem_of_lookup_2 _ _ _ Hm0)) as [Hne0 _]. cbn [snd] in *.
  assert (Hin2 : inputs_ok lvl (i0 ++ ins)) by (destruct (segs_adjacent segs m b0 i0 b ins Hm0 Hm) as (l & r & E); rewrite E in Hin; by eapply inputs_part).
  destruct (fence_spec rel ai index_form_size agg_map_val inskey Hrel Hcols Hkey ai0 Hai Htyp Hform Hform8 lvl i0 ins Hne0 Hne Hin2) as (hk & lk & Hfe & Hok).
  exists b0, i0, hk, lk. split_and!; try done. destruct (parents_lookup lvl None segs (S m) b ins Hm) as (lk' & Hp & ->). rewrite Hp, Hm0. cbn [fmap option_fmap option_map snd low_key]. by rewrite Hfe.
Qed.

(** ** Searching the tree *)

(** The blocks of the levels. *)
Definition level_blocks (ls : list (list seg)) : list (list Z) := (fun segs : list seg => fst <$> segs) <$> ls.

Context (file : list block) (levels : list (list seg)) (items : list item).
Context (Hbuilt : built file 0 levels items) (Hitems : inputs_ok 0 items) (Hblocks : Forall (fun b => 0 < b) (levels ≫= fmap fst)).
Abbreviation pages := (file_pages file).

Lemma tree_level k segs : levels !! k = Some segs -> level_facts file levels k segs.
Proof. intros Hk. by destruct (built_level file 0 levels items k segs Hbuilt Hitems Hk) as [Hl _]. Qed.

Lemma level_pos k segs : levels !! k = Some segs -> Forall (fun s : seg => 0 < fst s) segs.
Proof.
  intros Hk. apply Forall_forall. intros s Hs. refine (proj1 (List.Forall_forall _ _) Hblocks _ _). apply list_elem_of_In, list_elem_of_bind. exists segs. split; [by apply list_elem_of_fmap_2|by eapply list_elem_of_lookup_2].
Qed.

Lemma level_filled k segs : levels !! k = Some segs -> Forall seg_filled segs.
Proof. intros Hk. destruct (tree_level k segs Hk) as [[root Hb] _ _ _]. apply Hb. Qed.

Lemma seg_level_page k segs i b ins : levels !! k = Some segs -> segs !! i = Some (b, ins) -> exists p, pages b = Some p /\ page_facts k segs i ins p.
Proof. intros Hk Hi. destruct (tree_level k segs Hk) as [[root Hb] Hin _ _]. by apply (seg_page file k segs root i b ins Hb (level_pos k segs Hk)). Qed.

Lemma fst_lookup (segs : list seg) i b : (fst <$> segs) !! i = Some b -> exists ins, segs !! i = Some (b, ins).
Proof. rewrite list_lookup_fmap. destruct (segs !! i) as [[b' ins]|]; [|done]. intros [= <-]. by eexists. Qed.

(** The high key of a page, and the item on the level above with the same key. *)
Lemma page_hikey k segs i b ins b' ins' p : levels !! k = Some segs -> segs !! i = Some (b, ins) -> segs !! S i = Some (b', ins') -> page_facts k segs i ins p ->
  exists hk lk, hikey p = Some (snd hk) /\ same_fence (PivotTup (snd lk)) (snd hk) /\ fence k ins ins' = Some (hk, lk) /\ fence_ok k ins ins' hk lk /\
    parents k None segs !! S i = Some (link lk b' (sum_of ins')).
Proof.
  intros Hk Hi Hi' Hp. destruct (tree_level k segs Hk) as [_ Hin _ _]. destruct (child_fence k segs i b' ins' (level_filled k segs Hk) Hin Hi') as (b0 & i0 & hk & lk & H0 & Hfe & Hok & Hpa).
  rewrite Hi in H0. injection H0 as <- <-. pose proof (pf_hikey _ _ _ _ _ Hp) as Hh. rewrite Hi' in Hh. destruct Hh as (Hr & hk' & lk' & Hfe' & _ & Hg). rewrite Hfe in Hfe'. injection Hfe' as <- <-.
  exists hk, lk. split; [by unfold hikey; rewrite Hr|]. split; [apply Hok|]. done.
Qed.

Lemma pivot_tuple size pv : pivot_ok rel size pv -> tuple_ok rel (PivotTup pv).
Proof. by intros [H _]. Qed.

Lemma same_fence_ok t t' : same_fence t t' -> tuple_ok rel t -> tuple_ok rel t'.
Proof. destruct t as [|p], t' as [|p']; try done. intros [Hk Ht]. unfold tuple_ok. by rewrite Hk, Ht. Qed.

Lemma same_fence_sym t t' : same_fence t t' -> same_fence t' t.
Proof. destruct t, t'; try done. intros [H1 H2]. by split. Qed.
Lemma same_fence_trans t t' u : same_fence t t' -> same_fence t' u -> same_fence t u.
Proof. destruct t, t', u; try done. intros [H1 H2] [H3 H4]. split; congruence. Qed.
Lemma same_fence_link lk b x t : same_fence (PivotTup (snd lk)) t -> same_fence (snd (link lk b x)) t.
Proof. by destruct t. Qed.

Lemma built_level_ok k segs : levels !! k = Some segs -> level_ok rel pages (Z.of_nat k) (fst <$> segs).
Proof.
  intros Hk. destruct (tree_level k segs Hk) as [[root Hb] Hin _ _]. pose proof (level_pos k segs Hk) as Hpos. rewrite Forall_forall in Hpos. split.
  - intros i b Hi. destruct (fst_lookup segs i b Hi) as [ins Hs]. destruct (seg_level_page k segs i b ins Hk Hs) as (p & Hp & [F1 F2 F3 F4 F5 F6 F7 F8 F9]). exists p. rewrite list_lookup_fmap. split_and!; try done.
    rewrite F3. by destruct k.
  - intros i b b' p Hi Hi' Hp. destruct (fst_lookup segs i b Hi) as [ins Hs]. destruct (fst_lookup segs (S i) b' Hi') as [ins' Hs'].
    destruct (seg_level_page k segs i b ins Hk Hs) as (p' & Hp' & Hf). rewrite Hp in Hp'. injection Hp' as <-. pose proof (Hpos _ (list_elem_of_lookup_2 _ _ _ Hs')). cbn [fst] in *. split; [unfold ABTP_NONE; lia|].
    destruct (page_hikey k segs i b ins b' ins' p Hk Hs Hs' Hf) as (hk & lk & Hh & Hsame & _ & Hok & _). exists (snd hk). split; [done|]. eapply same_fence_ok; [exact Hsame|]. apply (pivot_tuple (fst lk)), Hok.
  - intros i j b b' p p' t t' Hij Hi Hj Hp Hp' Ht Ht'. destruct (fst_lookup segs i b Hi) as [ins Hs]. destruct (fst_lookup segs j b' Hj) as [ins' Hs'].
    destruct (seg_level_page k segs i b ins Hk Hs) as (q & Hq & Hf). rewrite Hp in Hq. injection Hq as <-. destruct (seg_level_page k segs j b' ins' Hk Hs') as (q & Hq & Hf'). rewrite Hp' in Hq. injection Hq as <-.
    pose proof (lookup_lt_Some _ _ _ Hs') as Hlt. destruct (lookup_lt_is_Some_2 segs (S i) ltac:(lia)) as [[bi ii] Hsi].
    destruct (segs !! S j) as [[bj ij]|] eqn:Hsj; cycle 1.
    { pose proof (pf_hikey _ _ _ _ _ Hf') as Hh. rewrite Hsj in Hh. unfold hikey in Ht'. by rewrite Hh in Ht'. }
    destruct (page_hikey k segs i b ins bi ii p Hk Hs Hsi Hf) as (hk & lk & Hh & Hsame & _ & _ & Hpi). destruct (page_hikey k segs j b' ins' bj ij p' Hk Hs' Hsj Hf') as (hk' & lk' & Hh' & Hsame' & _ & _ & Hpj).
    rewrite Ht in Hh. injection Hh as ->. rewrite Ht' in Hh'. injection Hh' as ->.
    assert (Hpo : inputs_ok (S k) (parents k None segs)) by (apply (parents_ok rel ai index_form_size agg_map_val inskey Hrel Hcols Hkey ai0 Hai Htyp Hform Hform8 Hmap); [apply Hb|done]).
    destruct (StronglySorted_lookup _ _ (S i) (S j) _ _ (io_sorted _ _ _ _ _ _ Hpo) ltac:(lia) Hpi Hpj) as [Hlt' _]. cbn [link snd] in Hlt'.
    eapply same_fence_before; [|eapply same_fence_after; [|exact Hlt']]; [by apply same_fence_sym|by apply same_fence_sym, same_fence_link].
Qed.

(** An item of an inner page is the downlink of a page of the level below. *)
Lemma inner_item k segs' segs i b ins p off : levels !! S k = Some segs' -> levels !! k = Some segs -> segs' !! i = Some (b, ins) -> page_facts (S k) segs' i ins p ->
  first_off p <= off <= PageGetMaxOffsetNumber p ->
  let j := Z.to_nat (off - first_off p) in let m := (length (take i segs' ≫= snd) + j)%nat in
  exists c cins lk pv, segs !! m = Some (c, cins) /\ parents k None segs !! m = Some (link lk c (sum_of cins)) /\ ins !! j = Some (link lk c (sum_of cins)) /\
    PageGetItem p off = Some (PivotTup pv) /\ pv_downlink pv = c /\ pv_agg pv = sum_of cins /\ ((0 < j)%nat -> PivotTup pv = snd (link lk c (sum_of cins))).
Proof.
  intros Hk' Hk Hi Hf Hoff j m. destruct (tree_level k segs Hk) as [_ _ Habove _]. specialize (Habove _ Hk').
  destruct (item_in_range p off) as [t Ht]; [pose proof (first_off_range p); lia|]. rewrite PageGetItem_data, (pf_data _ _ _ _ _ Hf), list_lookup_fmap in Ht by lia. fold j in Ht.
  destruct (stored (S k) ins !! j) as [it|] eqn:Est; [|done]. pose proof (lookup_lt_Some _ _ _ Est) as Hlt. rewrite stored_length in Hlt. destruct (lookup_lt_is_Some_2 ins j Hlt) as [it' Hit].
  destruct (bind_lookup segs' i b ins j it' Hi Hit) as [Hb _]. rewrite Habove in Hb. fold m in Hb. destruct (parents_lookup_Some _ _ _ _ _ Hb) as (c & cins & Hm).
  destruct (parents_lookup k None segs m c cins Hm) as (lk & Hpl & _). rewrite Hb in Hpl. injection Hpl as ->. rewrite PageGetItem_data, (pf_data _ _ _ _ _ Hf), list_lookup_fmap by lia. fold j. rewrite Est.
  clearbody m. clearbody j. destruct j as [|j]; destruct ins as [|it0 ins]; try done.
  - injection Hit as ->. cbn in Est. injection Est as <-. eexists c, cins, lk, _. split_and!; try done. lia.
  - destruct it0 as [len [t0|pv0]]; cbn in Est, Hit; rewrite Hit in Est; injection Est as <-; (eexists c, cins, lk, _; split_and!; done).
Qed.

Lemma pivot_fence_key lvl prev lk c x ins hk lk' : fence (S lvl) prev (link lk c x :: ins) = Some (hk, lk') -> snd (link lk c x) = PivotTup (snd lk').
Proof. unfold BuildTree.fence, new_high_key. cbn [head hd_error mbind option_bind snd link Nat.eqb fst]. destruct (purge_agg_space _ _ _); [|done]. cbn. by intros [= _ <-]. Qed.

Lemma built_links_ok k segs' segs : levels !! S k = Some segs' -> levels !! k = Some segs -> links_ok pages (fst <$> segs') (fst <$> segs).
Proof.
  intros Hk' Hk i b p off Hi Hp Hoff. destruct (fst_lookup segs' i b Hi) as [ins Hs]. destruct (seg_level_page (S k) segs' i b ins Hk' Hs) as (p' & Hp' & Hf). rewrite Hp in Hp'. injection Hp' as <-.
  destruct (inner_item k segs' segs i b ins p off Hk' Hk Hs Hf Hoff) as (c & cins & lk & pv & Hm & Hpar & Hj & Hitem & Hc & _ & Hlink). set (j := Z.to_nat (off - first_off p)) in *.
  exists pv, (length (take i segs' ≫= snd) + j)%nat. split; [done|]. split; [by rewrite list_lookup_fmap, Hm, Hc|]. destruct (_ + j)%nat as [|m] eqn:Em; [done|].
  destruct (lookup_lt_is_Some_2 segs m) as [[b0 i0] H0]; [apply lookup_lt_Some in Hm; lia|]. destruct (seg_level_page k segs m b0 i0 Hk H0) as (p0 & Hp0 & Hf0).
  destruct (page_hikey k segs m b0 i0 c cins p0 Hk H0 Hm Hf0) as (hk & lk' & Hh & Hsame & _ & _ & Hpar'). rewrite Hpar in Hpar'. injection Hpar' as Elen Ek Et.
  assert (Hsl : forall t', t' = snd (link lk c (sum_of cins)) -> same_fence (snd hk) t').
  { intros t' ->. apply same_fence_sym. destruct (snd hk); [done|]. destruct Hsame. split; cbn; congruence. }
  exists b0, p0, (snd hk). unfold left_fence. destruct (Z.eqb_spec off (first_off p)) as [Eoff|Hne].
  - assert (Hj0 : j = O) by lia. destruct i as [|i]; [simpl in Em; lia|]. destruct (lookup_lt_is_Some_2 segs' i) as [[bl il] Hl]; [apply lookup_lt_Some in Hs; lia|].
    destruct (seg_level_page (S k) segs' i bl il Hk' Hl) as (pl & Hpl & Hfl). destruct (page_hikey (S k) segs' i bl il b ins pl Hk' Hl Hs Hfl) as (hk2 & lk2 & Hh2 & Hsame2 & Hfe2 & _).
    exists (snd hk2). rewrite !list_lookup_fmap, H0, Hl. cbn [fmap option_fmap option_map fst mbind option_bind]. rewrite Hpl. cbn [mbind option_bind]. split_and!; try done.
    rewrite Hj0 in Hj. destruct ins as [|it0 ins]; [done|]. injection Hj as ->. apply pivot_fence_key in Hfe2. rewrite <- Hfe2 in Hsame2.
    pose proof (Hsl _ eq_refl) as H1. eapply same_fence_trans; [exact H1|done].
  - exists (PivotTup pv). rewrite list_lookup_fmap, H0. split_and!; try done. apply Hsl, Hlink. lia.
Qed.

Lemma built_tree_ok : tree_ok rel pages (level_blocks levels).
Proof.
  unfold level_blocks. split.
  - intros l blks. rewrite list_lookup_fmap. destruct (levels !! l) as [segs|] eqn:E; [|done]. intros [= <-]. split; [|by apply built_level_ok].
    destruct (tree_level l segs E) as [[root [_ _ (init & b & ins & -> & _)]] _ _ _]. rewrite fmap_app. by destruct init.
  - intros l blks kids. rewrite !list_lookup_fmap. destruct (levels !! S l) as [segs'|] eqn:E'; [|done]. destruct (levels !! l) as [segs|] eqn:E; [|done]. intros [= <-] [= <-]. by apply (built_links_ok l).
Qed.

(** ** The entries of the tree *)

Lemma numbered_items p : snd <$> Sample.data_items p = data_items p.
Proof.
  unfold Sample.data_items, data_items, Sample.page_items. fold (first_off p). pose proof (first_off_range p) as Hf.
  assert (Hm : forall n lo, 1 <= lo -> (Z.of_nat n = PageGetMaxOffsetNumber p - lo + 1 \/ (n = 0%nat /\ PageGetMaxOffsetNumber p < lo)) ->
    exists l, mapM (fun off => t ← PageGetItem p off; Some (off, t)) (seqZ lo (Z.of_nat n)) = Some l /\ snd <$> l = drop (Z.to_nat (lo - 1)) (snd <$> pg_lines p)).
  { intros n. unfold PageGetMaxOffsetNumber. induction n as [|n IH]; intros lo Hlo Hn.
    - exists []. split; [done|]. rewrite drop_ge; [done|]. rewrite length_fmap. lia.
    - rewrite seqZ_cons by lia. replace (Z.pred (Z.of_nat (S n))) with (Z.of_nat n) by lia. replace (Z.succ lo) with (lo + 1) by lia. destruct (IH (lo + 1)) as (l & Hl & El); [lia|lia|].
      destruct (item_in_range p lo) as [t Ht]; [unfold PageGetMaxOffsetNumber; lia|]. cbn [mapM]. rewrite Ht. cbn [mbind option_bind]. rewrite Hl. eexists. split; [reflexivity|]. cbn [fmap list_fmap snd]. fold (snd <$> l). rewrite El.
      replace (Z.to_nat (lo + 1 - 1)) with (S (Z.to_nat (lo - 1))) by lia. symmetry. apply drop_S. unfold PageGetItem, PageGetItemId in Ht. rewrite list_lookup_fmap.
      rewrite (proj2 (Z.ltb_ge lo 1)) in Ht by lia. by destruct (pg_lines p !! Z.to_nat (lo - 1)) as [[? ?]|]; cbn in Ht |- *; [injection Ht as ->|]. }
  destruct (Z.le_gt_cases (first_off p) (PageGetMaxOffsetNumber p)) as [Hle|Hgt].
  - destruct (Hm (Z.to_nat (PageGetMaxOffsetNumber p - first_off p + 1)) (first_off p)) as (l & Hl & El); [lia|left; lia|]. rewrite Z2Nat.id in Hl by lia. by rewrite Hl.
  - destruct (Hm 0%nat (first_off p)) as (l & Hl & El); [lia|right; lia|]. replace (seqZ (first_off p) (PageGetMaxOffsetNumber p - first_off p + 1)) with (@nil Z) by (symmetry; apply seqZ_nil; lia). rewrite <- El. by injection Hl as <-.
Qed.

Abbreviation tree_entries := (tree_entries ai agg_map_val pages).
Abbreviation item_entries := (item_entries ai agg_map_val pages).
Abbreviation leaf_item_entries := (leaf_item_entries ai agg_map_val).

Lemma bind_snd {A} (f : item -> list A) (l l' : list item) : (forall a b, snd a = snd b -> f a = f b) -> snd <$> l = snd <$> l' -> l ≫= f = l' ≫= f.
Proof.
  intros Hf. revert l'. induction l as [|a l IH]; intros [|b l'] H; try done. cbn in H. injection H as Hab H. rewrite !bind_cons. f_equal; [by apply Hf|by apply IH].
Qed.

Lemma bind_bind {A B C} (l : list A) (f : A -> list B) (g : B -> list C) : (l ≫= f) ≫= g = l ≫= fun a => f a ≫= g.
Proof. induction l as [|a l IH]; [done|]. by rewrite !bind_cons, bind_app, IH. Qed.

Lemma page_entries_leaf segs i b ins : levels !! 0%nat = Some segs -> segs !! i = Some (b, ins) -> tree_entries 0 b = ins ≫= leaf_item_entries.
Proof.
  intros Hk Hi. destruct (seg_level_page 0 segs i b ins Hk Hi) as (p & Hp & Hf). rewrite (entries_leaf ai agg_map_val pages b p Hp). apply bind_snd.
  - intros x y E. unfold PathSums.leaf_item_entries. by rewrite E.
  - by rewrite numbered_items, (pf_data _ _ _ _ _ Hf).
Qed.

Lemma stored_entries k ins : stored (S k) ins ≫= item_entries k = ins ≫= item_entries k.
Proof. by destruct ins as [|[? [|]] ?]. Qed.

Lemma page_entries_inner k segs i b ins : levels !! S k = Some segs -> segs !! i = Some (b, ins) -> tree_entries (S k) b = ins ≫= item_entries k.
Proof.
  intros Hk Hi. destruct (seg_level_page (S k) segs i b ins Hk Hi) as (p & Hp & Hf). rewrite (entries_inner ai agg_map_val pages k b p Hp), <- (stored_entries k ins). apply bind_snd.
  - intros x y E. unfold PathSums.item_entries. by rewrite E.
  - by rewrite numbered_items, (pf_data _ _ _ _ _ Hf).
Qed.

Lemma parents_entries k prev segs : parents k prev segs ≫= item_entries k = segs ≫= fun s => tree_entries k (fst s).
Proof. revert prev. induction segs as [|[b ins] segs IH]; intros prev; [done|]. cbn [BuildTree.parents]. rewrite !bind_cons, IH. done. Qed.

Lemma bind_segs {A} (f : seg -> list A) (g : item -> list A) (segs : list seg) :
  (forall i b ins, segs !! i = Some (b, ins) -> f (b, ins) = ins ≫= g) -> segs ≫= f = (segs ≫= snd) ≫= g.
Proof.
  induction segs as [|[b ins] segs IH]; intros H; [done|]. rewrite !bind_cons, bind_app. f_equal; [by apply (H 0%nat)|]. apply IH. intros i. apply (H (S i)).
Qed.

(** Every level has all entries. *)
Lemma all_level_entries k segs : levels !! k = Some segs -> (segs ≫= fun s => tree_entries k (fst s)) = items ≫= leaf_item_entries.
Proof.
  revert segs. induction k as [|k IH]; intros segs Hk.
  - rewrite (bind_segs _ leaf_item_entries) by (intros i b ins Hi; by apply (page_entries_leaf segs i)).
    destruct (built_level file 0 levels items 0 segs Hbuilt Hitems Hk) as [_ E]. by rewrite E.
  - rewrite (bind_segs _ (item_entries k)) by (intros i b ins Hi; by apply (page_entries_inner k segs i)).
    destruct (lookup_lt_is_Some_2 levels k) as [segs0 Hk0]; [apply lookup_lt_Some in Hk; lia|]. destruct (tree_level k segs0 Hk0) as [_ _ Habove _].
    rewrite (Habove _ Hk), parents_entries. by apply IH.
Qed.

(** ** Its aggregates *)

Definition frozen_entry (e : version) : Prop := fst e = FrozenTransactionId /\ 0 <= snd e.
Definition frozen_item (it : item) : Prop := match snd it with LeafTup t => Forall (eq FrozenTransactionId) (it_xmins t) | PivotTup _ => True end.

Lemma weight_small v : 0 <= v < 2 ^ (8 * agg_typlen ai - 1) -> Sample._abt_atomic_read_agg_ptr ai v = v.
Proof.
  intros Hv. unfold Sample._abt_atomic_read_agg_ptr. destruct Htyp as [E|[E|E]]; rewrite E in *; cbn in Hv; cbn [Z.eqb Pos.eqb]; unfold u64, u32, u16; apply Z.mod_small; lia.
Qed.

Lemma posting_values xmins aggs : Forall (eq FrozenTransactionId) xmins -> (leaf_has_agg ai = true -> length aggs = length xmins) -> Forall (fun v => 0 <= v) aggs ->
  (if leaf_has_agg ai then sumZ aggs < 2 ^ (8 * agg_typlen ai - 1) else xmins <> [] -> agg_map_val < 2 ^ 64) ->
  let es := Draw.posting_versions ai agg_map_val xmins aggs in
  Forall frozen_entry es /\ sum_if TransactionIdIsValid es = if leaf_has_agg ai then sumZ aggs else agg_map_val * Z.of_nat (length xmins).
Proof.
  intros Hx. revert aggs. induction Hx as [|x xmins <- Hx IH]; intros aggs Hl Ha Hb; cbn [Draw.posting_versions].
  - split; [done|]. destruct (leaf_has_agg ai); [|cbn; lia]. by destruct aggs; [|specialize (Hl eq_refl)].
  - assert (Hw : 0 <= Sample.entry_weight ai agg_map_val (head aggs) /\ Sample.entry_weight ai agg_map_val (head aggs) = if leaf_has_agg ai then default 0 (head aggs) else agg_map_val).
    { unfold Sample.entry_weight. destruct (leaf_has_agg ai) eqn:E.
      - destruct aggs as [|a aggs]; [by specialize (Hl eq_refl)|]. apply Forall_cons in Ha as [Ha Has]. change (default 0 (head (a :: aggs))) with a. cbn [sumZ] in Hb. pose proof (sumZ_nonneg _ Has). by rewrite weight_small by lia.
      - unfold u64. specialize (Hb ltac:(done)). rewrite Z.mod_small by lia. done. }
    destruct Hw as [Hw0 Hw]. destruct (IH (tail aggs)) as [IH1 IH2].
    + intros E. destruct aggs; specialize (Hl E); simpl in *; lia.
    + by destruct Ha.
    + destruct (leaf_has_agg ai); [|auto]. destruct Ha as [|a aggs Ha Has]; cbn [tail sumZ] in *; lia.
    + split; [constructor; done|]. cbn [sum_if]. change (TransactionIdIsValid FrozenTransactionId) with true. rewrite IH2, Hw. cbn [length]. destruct (leaf_has_agg ai) eqn:E; [|lia].
      destruct aggs; [by specialize (Hl eq_refl)|done].
Qed.

Lemma leaf_versions it : item_ok 0 it -> frozen_item it -> item_value ai agg_map_val it < 2 ^ (8 * agg_typlen ai - 1) ->
  Forall frozen_entry (leaf_item_entries it) /\ sum_if TransactionIdIsValid (leaf_item_entries it) = item_value ai agg_map_val it.
Proof.
  destruct it as [len [t|pv]]; [|done]. intros [_ Ht] Hx Hv. unfold PathSums.leaf_item_entries, item_value, frozen_item in *. cbn [snd] in *. destruct (lf_entries _ _ _ _ Ht) as (Hlt & Hla & Hl1).
  assert (Hb : 2 ^ (8 * agg_typlen ai - 1) <= 2 ^ 64) by (apply Z.pow_le_mono_r; lia).
  unfold Draw.tuple_versions. replace (if is_posting t then it_xmins t else take 1 (it_xmins t)) with (it_xmins t); cycle 1.
  { destruct (is_posting t); [done|]. specialize (Hl1 eq_refl). by rewrite take_ge by lia. }
  unfold leaf_value in *. rewrite Hlt in *. apply posting_values; [done|done|by apply (lf_aggs _ _ _ _ Ht)|]. destruct (leaf_has_agg ai); [done|]. destruct (it_xmins t); [done|intros _; cbn [length] in Hv; nia].
Qed.

Lemma entries_sum (f : item -> list version) (l : list item) : Forall (fun it => Forall frozen_entry (f it) /\ sum_if TransactionIdIsValid (f it) = item_value ai agg_map_val it) l ->
  Forall frozen_entry (l ≫= f) /\ sum_if TransactionIdIsValid (l ≫= f) = sum_of l.
Proof.
  induction 1 as [|it l [H1 H2] _ [IH1 IH2]]; [done|]. rewrite bind_cons, sum_if_app, sum_of_cons, H2, IH2. split; [|done]. by apply Forall_app.
Qed.

Lemma input_item lvl l it : inputs_ok lvl l -> it ∈ l -> inputs_ok lvl [it].
Proof. intros Hin (l1 & l2 & ->)%list_elem_of_split. change (it :: l2) with ([it] ++ l2) in Hin. by eapply inputs_part. Qed.

Context (Hfrozen : Forall frozen_item items).

Lemma seg_in_items segs i b ins it : levels !! 0%nat = Some segs -> segs !! i = Some (b, ins) -> it ∈ ins -> it ∈ items.
Proof.
  intros Hk Hi Hit. destruct (built_level file 0 levels items 0 segs Hbuilt Hitems Hk) as [_ E]. rewrite <- (E eq_refl). apply list_elem_of_bind. exists (b, ins). split; [done|by eapply list_elem_of_lookup_2].
Qed.

(** The entries below a page are frozen and add up to the sum of its items. *)
Lemma seg_sum k segs i b ins : levels !! k = Some segs -> segs !! i = Some (b, ins) ->
  Forall frozen_entry (tree_entries k b) /\ sum_if TransactionIdIsValid (tree_entries k b) = sum_of ins.
Proof.
  revert segs i b ins. induction k as [|k IH]; intros segs i b ins Hk Hi.
  - rewrite (page_entries_leaf segs i b ins Hk Hi). apply entries_sum, Forall_forall. intros it Hit. pose proof (seg_in_items segs i b ins it Hk Hi Hit) as Hin.
    pose proof (input_item _ _ _ Hitems Hin) as [H1 _ H3]. apply Forall_cons in H1 as [H1 _]. rewrite sum_of_cons in H3. change (sum_of []) with 0 in H3. apply leaf_versions; [exact H1| |lia].
    by refine (proj1 (List.Forall_forall _ _) Hfrozen _ _); apply list_elem_of_In.
  - rewrite (page_entries_inner k segs i b ins Hk Hi). apply entries_sum, Forall_forall. intros it Hit. apply list_elem_of_lookup_1 in Hit as [j Hj].
    destruct (lookup_lt_is_Some_2 levels k) as [segs0 Hk0]; [apply lookup_lt_Some in Hk; lia|]. destruct (tree_level k segs0 Hk0) as [_ _ Habove _].
    destruct (bind_lookup segs i b ins j it Hi Hj) as [Hb _]. rewrite (Habove _ Hk) in Hb. destruct (parents_lookup_Some _ _ _ _ _ Hb) as (c & cins & Hm).
    destruct (parents_lookup k None segs0 _ c cins Hm) as (lk & Hpl & _). rewrite Hb in Hpl. injection Hpl as ->. by apply (IH segs0 _ c cins Hk0 Hm).
Qed.

Context (base Recent : Z) (Hrecent : TransactionIdIsNormal Recent = true).

(** The version store of a new index is empty. *)
Definition no_versions (b : Z) : list version := [].

Lemma frozen_unsafe es P : Forall frozen_entry es -> sum_if (fun x => is_safe Recent x && P x) es = 0.
Proof.
  induction 1 as [|[x v] es [Hx _] _ IH]; [done|]. cbn [sum_if fst] in *. rewrite IH. unfold is_safe. rewrite special_precedes by (done || by subst x). by rewrite andb_false_r.
Qed.

Lemma seg_versioned k segs i b ins pv : levels !! k = Some segs -> segs !! i = Some (b, ins) -> pv_downlink pv = b -> pv_agg pv = sum_of ins ->
  versioned ai agg_map_val base Recent pages no_versions k pv.
Proof.
  intros Hk Hi Hb Hs. destruct (seg_sum k segs i b ins Hk Hi) as [Hf Hsum]. unfold versioned, Draw.agg_versioned. cbn [snd]. rewrite Hb. fold (tree_entries k b). split; [|split].
  - split; [by rewrite Hsum, Hs|by repeat constructor|constructor|constructor|]. intros P. cbn. by rewrite frozen_unsafe.
  - eapply Forall_impl; [exact Hf|]. intros [x v] [Hx Hv]. cbn [fst snd] in *. split; [|done]. by subst x.
  - rewrite Hsum. destruct (tree_level k segs Hk) as [_ Hin _ _]. destruct (segs_part segs i b ins Hi) as (l & r & E). rewrite E in Hin. by apply inputs_part in Hin as [_ _ ?].
Qed.

(** The next item of a level is the one that bounds a child. *)
Lemma next_child k segs' segs i b ins p off : levels !! S k = Some segs' -> levels !! k = Some segs -> segs' !! i = Some (b, ins) -> page_facts (S k) segs' i ins p ->
  first_off p <= off <= PageGetMaxOffsetNumber p ->
  let m := (length (take i segs' ≫= snd) + Z.to_nat (off - first_off p))%nat in
  match segs !! S m with
  | None => Sample.expected_hikey p off = Some None
  | Some (c, cins) => exists lk t, parents k None segs !! S m = Some (link lk c (sum_of cins)) /\ Sample.expected_hikey p off = Some (Some t) /\ tuple_ok rel t /\ same_fence t (snd (link lk c (sum_of cins)))
  end.
Proof.
  intros Hk' Hk Hi Hf Hoff m. destruct (tree_level k segs Hk) as [_ _ Habove _]. specialize (Habove _ Hk'). destruct (tree_level (S k) segs' Hk') as [_ Hin' _ _].
  destruct (inner_item k segs' segs i b ins p off Hk' Hk Hi Hf Hoff) as (c0 & cins0 & lk0 & pv0 & Hm & _ & Hj & _). fold m in Hm.
  destruct (bind_lookup segs' i b ins _ _ Hi Hj) as [_ Hnext]. rewrite Habove, (head_next segs' (S i) (level_filled (S k) segs' Hk')) in Hnext. fold m in Hnext. unfold Sample.expected_hikey.
  assert (Hlen : PageGetMaxOffsetNumber p = first_off p + Z.of_nat (length ins) - 1).
  { pose proof (pf_data _ _ _ _ _ Hf) as Hd'. apply (f_equal length) in Hd'. rewrite length_fmap, stored_length in Hd'. unfold data_items in Hd'. rewrite length_drop, length_fmap in Hd'.
    unfold PageGetMaxOffsetNumber in *. pose proof (first_off_range p). lia. }
  pose proof (lookup_lt_Some _ _ _ Hj) as Hjl. destruct (Z.eqb_spec off (PageGetMaxOffsetNumber p)) as [Eoff|Hne].
  - rewrite (proj2 (lookup_ge_None ins _)) in Hnext by lia. pose proof (pf_hikey _ _ _ _ _ Hf) as Hh. destruct (segs' !! S i) as [[b' ins']|] eqn:Ei.
    + destruct Hh as (Hr & hk & lk & Hfe & Hok & Hg). rewrite Hr, Hg. cbn [mbind option_bind snd] in Hnext. unfold BuildTree.fence in Hfe. destruct (head ins') as [it|] eqn:Eh; [|done].
      destruct (parents_lookup_Some _ _ _ _ _ Hnext) as (c & cins & Hm'). rewrite Hm'. destruct (parents_lookup k None segs _ c cins Hm') as (lk' & Hpl & _). rewrite Hnext in Hpl. injection Hpl as ->.
      exists lk', (snd hk). split; [done|]. split; [done|]. destruct ins' as [|? ins']; [done|]. injection Eh as ->. pose proof (pivot_fence_key k ins lk' c (sum_of cins) ins' hk lk Hfe) as Ek.
      split; [eapply same_fence_ok; [apply Hok|]; apply (pivot_tuple (fst lk)), Hok|]. rewrite Ek. apply same_fence_sym, Hok.
    + cbn [mbind option_bind] in Hnext. apply lookup_ge_None in Hnext. rewrite parents_length in Hnext. rewrite (proj2 (lookup_ge_None segs _)) by lia. by rewrite Hh.
  - assert (Hoff' : first_off p <= off + 1 <= PageGetMaxOffsetNumber p) by lia.
    destruct (inner_item k segs' segs i b ins p (off + 1) Hk' Hk Hi Hf Hoff') as (c & cins & lk & pv & Hm' & Hp & _ & Hit & _ & _ & Hpv).
    replace (length (take i segs' ≫= snd) + Z.to_nat (off + 1 - first_off p))%nat with (S m) in * by lia. rewrite Hm', Hit. exists lk, (PivotTup pv). split; [done|]. split; [done|]. rewrite Hpv by lia.
    split; [|done]. assert (Hpo : link lk c (sum_of cins) ∈ segs' ≫= snd) by (rewrite Habove; by eapply list_elem_of_lookup_2).
    pose proof (io_items _ _ _ _ _ _ Hin') as Hall. rewrite Forall_forall in Hall. apply (item_tuple (S k)). by apply Hall.
Qed.

(** A child's high key is the one its parent expects. *)
Lemma child_hikey k segs' segs i b ins p off : levels !! S k = Some segs' -> levels !! k = Some segs -> segs' !! i = Some (b, ins) -> page_facts (S k) segs' i ins p ->
  first_off p <= off <= PageGetMaxOffsetNumber p ->
  let m := (length (take i segs' ≫= snd) + Z.to_nat (off - first_off p))%nat in
  forall c cins q, segs !! m = Some (c, cins) -> page_facts k segs m cins q -> exists hk, Sample.expected_hikey p off = Some hk /\ Sample.hikey_matches rel q hk.
Proof.
  intros Hk' Hk Hi Hf Hoff m c cins q Hm Hq. pose proof (next_child k segs' segs i b ins p off Hk' Hk Hi Hf Hoff) as Hn. cbv zeta in Hn. fold m in Hn. destruct (segs !! S m) as [[c' cins']|] eqn:Em.
  - destruct Hn as (lk & t & Hp & He & Hok & Hs). exists (Some t). split; [done|]. destruct (page_hikey k segs m c cins c' cins' q Hk Hm Em Hq) as (hk & lk' & Hh & Hsame & _ & _ & Hp'). rewrite Hp in Hp'. injection Hp' as _ Ek Et.
    unfold hikey in Hh. destruct (ABT_P_RIGHTMOST (pg_opaque q)) eqn:Er; [done|]. cbn [Sample.hikey_matches]. split; [done|]. split; [done|]. exists (snd hk). split; [done|].
    eapply same_fence_trans; [exact Hs|]. destruct (snd hk); [done|]. destruct Hsame. split; cbn; congruence.
  - exists None. split; [done|]. pose proof (pf_hikey _ _ _ _ _ Hq) as Hh. by rewrite Em in Hh.
Qed.

(** The tree below a page, with exact aggregates. *)
Lemma tree_shape k : forall segs i b ins p hk, levels !! k = Some segs -> segs !! i = Some (b, ins) -> pages b = Some p -> Sample.hikey_matches rel p hk ->
  shape rel ai (versioned ai agg_map_val base Recent pages no_versions) pages k b hk.
Proof.
  induction k as [|k IH]; intros segs i b ins p hk Hk Hi Hp Hhk; destruct (seg_level_page _ segs i b ins Hk Hi) as (p' & Hp' & Hf); rewrite Hp in Hp'; injection Hp' as <-.
  all: exists p; split; [done|]; split; [apply Hf|]; split; [apply Hf|]; split; [apply Hf|]; split; [done|]; split; [apply Hf|].
  - intros off t Hoff Ht. rewrite PageGetItem_data, (pf_data _ _ _ _ _ Hf), list_lookup_fmap in Ht by lia. destruct (stored 0 ins !! _) as [it|] eqn:E; [|done]. injection Ht as <-.
    pose proof (seg_in_items segs i b ins it Hk Hi (list_elem_of_lookup_2 _ _ _ E)) as Hin. pose proof (io_items _ _ _ _ _ _ Hitems) as Hall. rewrite Forall_forall in Hall. specialize (Hall _ Hin).
    destruct it as [len [t|]]; [|done]. destruct Hall as [_ Hall]. apply (lf_entries _ _ _ _ Hall).
  - intros off Hoff. destruct (lookup_lt_is_Some_2 levels k) as [segs0 Hk0]; [apply lookup_lt_Some in Hk; lia|].
    destruct (inner_item k segs segs0 i b ins p off Hk Hk0 Hi Hf Hoff) as (c & cins & lk & pv & Hm & _ & _ & Hit & Hc & Ha & _). destruct (seg_level_page k segs0 _ c cins Hk0 Hm) as (q & Hq & Hqf).
    destruct (child_hikey k segs segs0 i b ins p off Hk Hk0 Hi Hf Hoff c cins q Hm Hqf) as (hk' & He & Hh). exists pv, hk'. split; [done|]. split; [by eapply seg_versioned|]. split; [done|]. rewrite Hc. by eapply IH.
Qed.

Context (root : Z) (rcur : list item) (Hroot : last levels = Some [(root, rcur)]).
Abbreviation top := (length levels - 1)%nat.

Lemma root_level : levels !! top = Some [(root, rcur)].
Proof. rewrite <- Hroot, last_lookup. f_equal. lia. Qed.

Lemma root_shape : shape rel ai (versioned ai agg_map_val base Recent pages no_versions) pages top root None.
Proof.
  pose proof root_level as Ht. destruct (seg_level_page top _ 0 root rcur Ht eq_refl) as (p & Hp & Hf). eapply (tree_shape top _ 0 root rcur p None Ht); [done|done|]. exact (pf_hikey _ _ _ _ _ Hf).
Qed.

Lemma root_entries : tree_entries top root = items ≫= leaf_item_entries.
Proof. rewrite <- (all_level_entries top _ root_level), bind_singleton. done. Qed.

(** ** The leaf level *)

Context (leaves : list seg) (Hleaves : levels !! 0%nat = Some leaves) (Hsmall : Forall (fun s : seg => fst s <> Scan.InvalidBlockNumber) leaves).

Lemma lines_items p : snd <$> Scan.data_lines p = data_items p.
Proof. unfold Scan.data_lines, data_items. by rewrite fmap_drop. Qed.

Lemma leaf_line_item i b ins p x : leaves !! i = Some (b, ins) -> page_facts 0 leaves i ins p -> x ∈ Scan.data_lines p ->
  exists t, snd x = LeafTup t /\ (it_size t, LeafTup t) ∈ ins /\ leaf_ok rel ai index_form_size t.
Proof.
  intros Hi Hf Hx. apply (list_elem_of_fmap_2 snd) in Hx. rewrite lines_items, (pf_data _ _ _ _ _ Hf) in Hx. apply list_elem_of_fmap in Hx as (it & -> & Hit). cbn [BuildTree.stored] in Hit.
  pose proof (seg_in_items leaves i b ins it Hleaves Hi Hit) as Hin. pose proof (io_items _ _ _ _ _ _ Hitems) as Hall. rewrite Forall_forall in Hall. specialize (Hall _ Hin).
  destruct it as [len [t|]]; [|done]. destruct Hall as [Elen Hall]. cbn [fst] in Elen. subst len. by exists t.
Qed.

Definition line_tids (x : bool * index_tuple) : list tid := match snd x with LeafTup t => it_tids t | PivotTup _ => [] end.

Lemma bind_length {A B} (f : A -> list B) l : length (l ≫= f) = sum_list (length ∘ f <$> l).
Proof. induction l as [|a l IH]; [done|]. rewrite bind_cons, length_app, IH. done. Qed.

Lemma tids_room (l : list item) : Forall (item_ok 0) l -> 6 * Z.of_nat (length (l ≫= fun it => match snd it with LeafTup t => it_tids t | PivotTup _ => [] end)) <= sumZ (leaf_space <$> l).
Proof.
  induction 1 as [|[len [t|]] l Ht _ IH]; [done| |done]. rewrite bind_cons, length_app. cbn [fmap list_fmap sumZ snd]. change (leaf_space (len, LeafTup t)) with len. fold (leaf_space <$> l). destruct Ht as [Elen Ht]. cbn [fst] in Elen.
  destruct (lf_tids _ _ _ _ Ht) as [_ Hs]. unfold sizeof_ItemPointerData in Hs. lia.
Qed.

Lemma page_tids i b ins p : leaves !! i = Some (b, ins) -> page_facts 0 leaves i ins p ->
  Scan.data_lines p ≫= line_tids = ins ≫= fun it => match snd it with LeafTup t => it_tids t | PivotTup _ => [] end.
Proof.
  intros Hi Hf. pose proof (pf_data _ _ _ _ _ Hf) as Hd. rewrite <- lines_items in Hd. cbn [BuildTree.stored] in Hd. unfold line_tids. revert Hd. generalize (Scan.data_lines p) as l. clear.
  induction ins as [|it ins IH]; intros [|x l] H; try done. cbn in H. injection H as H1 H2. rewrite !bind_cons, H1. f_equal. by apply IH.
Qed.

Lemma same_fence_upto t f f' : same_fence f f' -> tuple_upto rel t f <-> tuple_upto rel t f'.
Proof. destruct f as [|p], f' as [|p']; try done. intros [Hk Ht]. unfold tuple_upto. cbn. by rewrite Hk, Ht. Qed.

(** What separates two pages of the leaf level. *)
Lemma leaf_split i j b b' ins ins' p hk it : (i < j)%nat -> leaves !! i = Some (b, ins) -> leaves !! j = Some (b', ins') -> page_facts 0 leaves i ins p -> hikey p = Some hk ->
  (it ∈ ins -> tuple_upto rel (snd it) hk) /\ (it ∈ ins' -> tuple_before rel hk (snd it)).
Proof.
  intros Hij Hi Hj Hf Hhk. pose proof (lookup_lt_Some _ _ _ Hj) as Hlt. destruct (lookup_lt_is_Some_2 leaves (S i) ltac:(lia)) as [[bn n] Hn]. destruct (tree_level 0 leaves Hleaves) as [_ Hin _ _].
  destruct (page_hikey 0 leaves i b ins bn n p Hleaves Hi Hn Hf) as (h & lk & Hh & Hsame & _ & Hok & _). rewrite Hhk in Hh. injection Hh as ->. split; intros Hit.
  - apply (same_fence_upto _ _ _ Hsame). pose proof (fe_upto _ _ _ _ _ _ Hok eq_refl) as Hall. rewrite Forall_forall in Hall. by apply Hall.
  - apply (same_fence_before rel _ _ _ Hsame). pose proof (fe_cur _ _ _ _ _ _ Hok) as Hall. pose proof (level_filled 0 leaves Hleaves) as Hfl. rewrite Forall_forall in Hall. rewrite Forall_forall in Hfl.
    assert (Hleaf : forall x, x ∈ n -> tuple_before rel (PivotTup (snd lk)) (snd x) /\ tuple_ok rel (snd x)).
    { intros x Hx. pose proof (seg_in_items leaves (S i) bn n x Hleaves Hn Hx) as Hx'. pose proof (io_items _ _ _ _ _ _ Hitems) as Hio. rewrite Forall_forall in Hio. specialize (Hio _ Hx').
      destruct x as [len [t|]]; [|done]. destruct (Hall _ Hx) as [?|Hb]; [done|]. split; [done|]. by destruct Hio as [_ [? _ _ _ _ _ _]]. }
    destruct (decide (j = S i)) as [->|Hne]; [rewrite Hn in Hj; injection Hj as <- <-; by apply Hleaf|].
    destruct (Hfl _ (list_elem_of_lookup_2 _ _ _ Hn)) as [Hnn _]. cbn [snd] in Hnn. destruct n as [|x n]; [done|]. destruct (Hleaf x ltac:(by left)) as [Hb Hxok].
    eapply tuple_before_trans; [done|exact Hxok|exact Hb|]. rewrite <- (take_drop j leaves) in Hin. rewrite bind_app in Hin. destruct (inputs_app rel ai index_form_size agg_map_val 0 _ _ Hin) as (_ & _ & _ & _ & Hx).
    apply (Hx x it).
    + apply list_elem_of_bind. exists (bn, x :: n). split; [by left|]. apply (list_elem_of_lookup_2 _ (S i)). rewrite lookup_take_lt by lia. done.
    + apply list_elem_of_bind. exists (b', ins'). split; [done|]. apply (list_elem_of_lookup_2 _ 0). rewrite lookup_drop. by replace (j + 0)%nat with j by lia.
Qed.

Lemma built_leaf_chain : ScanMatches.leaf_chain rel pages (fst <$> leaves).
Proof.
  pose proof (level_pos 0 leaves Hleaves) as Hpos. rewrite Forall_forall in Hpos.
  assert (Hpg : forall i b p, (fst <$> leaves) !! i = Some b -> pages b = Some p -> exists ins, leaves !! i = Some (b, ins) /\ page_facts 0 leaves i ins p).
  { intros i b p Hi Hp. destruct (fst_lookup leaves i b Hi) as [ins Hs]. destruct (seg_level_page 0 leaves i b ins Hleaves Hs) as (q & Hq & Hf). rewrite Hp in Hq. injection Hq as <-. by exists ins. }
  split.
  - by apply (built_level_ok 0).
  - intros b (s & -> & Hs)%list_elem_of_fmap. pose proof (Hpos s Hs) as Hp. split; [unfold ABTP_NONE; lia|]. by refine (proj1 (List.Forall_forall _ _) Hsmall _ _); apply list_elem_of_In.
  - intros b p [i Hi]%list_elem_of_lookup_1 Hp. destruct (Hpg i b p Hi Hp) as (ins & Hs & Hf). apply Forall_forall. intros x Hx. destruct (leaf_line_item i b ins p x Hs Hf Hx) as (t & Et & _ & Ht).
    exists t. split; [done|]. split; [apply Ht|]. intros Hnp. destruct (lf_entries _ _ _ _ Ht) as (-> & _ & H1). by apply H1.
  - intros b p [i Hi]%list_elem_of_lookup_1 Hp. destruct (Hpg i b p Hi Hp) as (ins & Hs & Hf). fold line_tids. rewrite (page_tids i b ins p Hs Hf).
    pose proof (level_filled 0 leaves Hleaves) as Hfl. rewrite Forall_forall in Hfl. destruct (Hfl _ (list_elem_of_lookup_2 _ _ _ Hs)) as [_ [_ Hb]]. cbn [snd] in Hb.
    assert (Hok : Forall (item_ok 0) ins). { apply Forall_forall. intros it Hit. pose proof (io_items _ _ _ _ _ _ Hitems) as Hall. rewrite Forall_forall in Hall. apply Hall. by apply (seg_in_items leaves i b ins). }
    pose proof (tids_room ins Hok) as Hr. change SplitLoc.page_room with 8144 in Hb. change Scan.MaxTIDsPerABTreePage with 1357. lia.
  - intros i b p Hi Hp. destruct (Hpg i b p Hi Hp) as (ins & Hs & Hf). rewrite (pf_prev _ _ _ _ _ Hf). unfold prev_block. destruct i; [done|]. by rewrite list_lookup_fmap.
  - intros i b p hk d t Hi Hp Hhk Hx. destruct (Hpg i b p Hi Hp) as (ins & Hs & Hf). destruct (leaf_line_item i b ins p _ Hs Hf Hx) as (t' & Et & Hin & _). cbn [snd] in Et. injection Et as <-.
    destruct (leaves !! S i) as [[b' ins']|] eqn:Ei.
    + by apply (leaf_split i (S i) b b' ins ins' p hk (it_size t, LeafTup t) ltac:(lia) Hs Ei Hf Hhk).
    + pose proof (pf_hikey _ _ _ _ _ Hf) as Hh. rewrite Ei in Hh. unfold hikey in Hhk. by rewrite Hh in Hhk.
  - intros i j b b' p p' hk d t Hij Hi Hj Hp Hp' Hhk Hx. destruct (Hpg i b p Hi Hp) as (ins & Hs & Hf). destruct (Hpg j b' p' Hj Hp') as (ins' & Hs' & Hf').
    destruct (leaf_line_item j b' ins' p' _ Hs' Hf' Hx) as (t' & Et & Hin & _). cbn [snd] in Et. injection Et as <-. by apply (leaf_split i j b b' ins ins' p hk (it_size t, LeafTup t) Hij Hs Hs' Hf Hhk).
Qed.

(** What the leaf pages hold, from left to right. *)
Lemma leaf_level_bind {A} (f : index_tuple -> list A) :
  ((fst <$> leaves) ≫= fun b => match pages b with Some p => data_items p ≫= f | None => [] end) = items ≫= fun it => f (snd it).
Proof.
  rewrite fmap_bind, (bind_segs _ (fun it => f (snd it))).
  - destruct (built_level file 0 levels items 0 leaves Hbuilt Hitems Hleaves) as [_ E]. by rewrite E.
  - intros i b ins Hi. cbn [compose fst]. destruct (seg_level_page 0 leaves i b ins Hleaves Hi) as (p & -> & Hf). rewrite (pf_data _ _ _ _ _ Hf). cbn [BuildTree.stored]. by rewrite fmap_bind.
Qed.

Lemma page_length k segs i b ins p : levels !! k = Some segs -> segs !! i = Some (b, ins) -> page_facts k segs i ins p -> first_off p <= PageGetMaxOffsetNumber p.
Proof.
  intros Hk Hi Hf. pose proof (pf_data _ _ _ _ _ Hf) as Hd. apply (f_equal length) in Hd. rewrite length_fmap, stored_length in Hd. unfold data_items in Hd. rewrite length_drop, length_fmap in Hd.
  pose proof (level_filled k segs Hk) as Hfl. rewrite Forall_forall in Hfl. destruct (Hfl _ (list_elem_of_lookup_2 _ _ _ Hi)) as [Hne _]. cbn [snd] in Hne.
  assert (0 < length ins)%nat by (destruct ins; [done|simpl; lia]). unfold PageGetMaxOffsetNumber. pose proof (first_off_range p). lia.
Qed.

Lemma built_ends_ok k segs' segs : levels !! S k = Some segs' -> levels !! k = Some segs -> ends_ok pages (fst <$> segs') (fst <$> segs).
Proof.
  intros Hk' Hk. split; intros b p Hb Hp.
  - rewrite head_lookup in Hb. destruct (fst_lookup segs' 0 b Hb) as [ins Hs]. destruct (seg_level_page (S k) segs' 0 b ins Hk' Hs) as (q & Hq & Hf). rewrite Hp in Hq. injection Hq as <-.
    pose proof (page_length (S k) segs' 0 b ins p Hk' Hs Hf). destruct (inner_item k segs' segs 0 b ins p (first_off p) Hk' Hk Hs Hf ltac:(lia)) as (c & cins & lk & pv & Hm & _ & _ & Hit & Hc & _).
    rewrite Z.sub_diag in Hm. exists pv. split; [done|]. rewrite head_lookup, list_lookup_fmap. change (segs !! 0%nat = Some (c, cins)) in Hm. by rewrite Hm, Hc.
  - rewrite last_lookup in Hb. destruct (fst_lookup segs' _ b Hb) as [ins Hs]. destruct (seg_level_page (S k) segs' _ b ins Hk' Hs) as (q & Hq & Hf). rewrite Hp in Hq. injection Hq as <-.
    pose proof (page_length (S k) segs' _ b ins p Hk' Hs Hf). destruct (inner_item k segs' segs _ b ins p (PageGetMaxOffsetNumber p) Hk' Hk Hs Hf ltac:(lia)) as (c & cins & lk & pv & Hm & _ & _ & Hit & Hc & _).
    exists pv. split; [done|]. rewrite Hc. apply list_elem_of_lookup_2 in Hm. by apply (list_elem_of_fmap_2 fst) in Hm.
Qed.

(** The meta page of the new index. *)
Definition built_meta : ABTMetaPageData := mk_meta root (Z.of_nat top) root (Z.of_nat top).

Lemma built_root_ok c : file !! 0%nat = Some (MetaBlock built_meta) -> c = None \/ c = Some built_meta -> root_ok built_meta pages (level_blocks levels) top root c.
Proof.
  intros Hm Hc. pose proof root_level as Ht. split; [| | |done].
  - exists []. unfold level_blocks. by rewrite list_lookup_fmap, Ht.
  - pose proof (level_pos top _ Ht) as [Hp _]%Forall_cons. cbn in Hp |- *. unfold ABTP_NONE. split; [lia|done].
  - unfold file_pages, ABTREE_METAPAGE. change (Z.to_nat 0) with 0%nat. rewrite Hm. by eexists.
Qed.

End Levels.
End BuildOk.
