(* ===== verification/BuildLoad.v ===== *)
(** * Loading the sorted tuples

    The order of the sort is that of the index; merging the spools of live and dead tuples
    keeps it; and the posting lists made of equal tuples are again a sorted list, with the
    same entries.  Together with the construction of the levels (BuildTree, BuildOk): a
    build returns an index of exactly the tuples of the heap. *)

From stdpp Require Import base numbers option sorting list.
From S2P Require Import Prelude Tuple Dedup Versions Page Search Truncate SplitLoc Btree Insert Sample Draw PathSums Scan ScanMatches Build BuildTree BuildOk.

Module BuildLoad.
Import Tuple Dedup Versions Page Search Truncate Btree Insert PathSums Build BuildTree BuildOk.

(** ** The order of the sort *)

Section Order.
Context (rel : index_rel) (Hrel : rel_ok rel).

Lemma sort_comparator_sgn c a b : BtreeOrder (col_cmp c) -> Z.sgn (ApplySortComparator c a b) = Z.sgn (col_compare c a b).
Proof.
  intros Ho. unfold ApplySortComparator, col_compare, compare_attr, INVERT_COMPARE_RESULT. destruct a as [a|], b as [b|]; cbn; try by destruct (col_nulls_first c).
  pose proof (bo_sym a b). pose proof (bo_sym b a).
  destruct (col_desc c); destruct (Z.ltb_spec (col_cmp c a b) 0), (Z.ltb_spec (col_cmp c b a) 0); lia.
Qed.

Lemma compare_keys_sgn cols k1 k2 : Forall (fun c => BtreeOrder (col_cmp c)) cols -> (length cols <= length k1)%nat -> (length cols <= length k2)%nat ->
  Z.sgn (compare_keys cols k1 k2) = Z.sgn (lexcmp cols k1 k2).
Proof.
  intros Hc. revert k1 k2. induction Hc as [|c cols Ho _ IH]; intros [|a k1] [|b k2] H1 H2; simpl in H1, H2; try lia; [done..|].
  cbn [compare_keys lexcmp]. pose proof (sort_comparator_sgn c a b Ho) as Hs. destruct (Z.eqb_spec (ApplySortComparator c a b) 0), (Z.eqb_spec (col_compare c a b) 0); [apply IH; lia|lia|lia|done].
Qed.

Definition before (a b : itup) : Prop := tuple_before rel (LeafTup a) (LeafTup b).
Definition apart (a b : itup) : Prop := forall h, h ∈ it_tids a -> h ∈ it_tids b -> False.

Lemma tids_compare h k : h <> k -> ItemPointerCompare h k <= 0 -> ItemPointerCompare h k < 0.
Proof. destruct h as [hb hp], k as [kb kp]. unfold ItemPointerCompare. cbn. intros Hne. repeat if_case; try lia. intros _. destruct Hne. f_equal; lia. Qed.

Lemma sortable_keys a b : sortable rel a -> sortable rel b -> Z.sgn (compare_keys (rd_cols rel) (it_key a) (it_key b)) = Z.sgn (lexcmp (rd_cols rel) (it_key a) (it_key b)).
Proof. intros [Ha _] [Hb _]. by apply compare_keys_sgn; [apply Hrel| |]. Qed.

Lemma before_intro a b h k : it_tids a = [h] -> it_tids b = [k] ->
  lexcmp (rd_cols rel) (it_key a) (it_key b) < 0 \/ (lexcmp (rd_cols rel) (it_key a) (it_key b) = 0 /\ ItemPointerCompare h k < 0) -> before a b.
Proof.
  intros Ha Hb H. unfold before, tuple_before, tid_before. cbn [tuple_key ABTreeTupleGetMaxHeapTID ABTreeTupleGetHeapTID]. rewrite Ha, Hb. by destruct (is_posting a).
Qed.

Lemma sorted_before u a b : sortable rel a -> sortable rel b -> apart a b -> tuple_le rel u a b -> before a b.
Proof.
  intros Ha Hb Hap (r & Hr & Hle). pose proof (sortable_keys a b Ha Hb) as Hs. destruct Ha as [_ [h Eh]], Hb as [_ [k Ek]]. apply (before_intro a b h k Eh Ek).
  unfold comparetup_index_btree in Hr. destruct (Z.eqb_spec (compare_keys (rd_cols rel) (it_key a) (it_key b)) 0) as [E|E]; cbn [negb] in Hr; [|injection Hr as <-; left; lia].
  destruct (u && _); [done|]. rewrite Eh, Ek in Hr. cbn in Hr. right. split; [lia|]. apply tids_compare; [intros ->; apply (Hap k); [rewrite Eh|rewrite Ek]; by left|].
  unfold ItemPointerCompare. injection Hr as <-. revert Hle. repeat if_case; cbn [negb]; lia.
Qed.

Lemma load1_spec a b : sortable rel a -> sortable rel b -> apart a b -> exists r : bool, load1 rel a b = Some r /\ if r then before a b else before b a.
Proof.
  intros Ha Hb Hap. pose proof (sortable_keys a b Ha Hb) as Hs. pose proof (lexcmp_sym (rd_cols rel) (it_key a) (it_key b) (rel_cols rel Hrel)) as Hsy. pose proof (lexcmp_sym (rd_cols rel) (it_key b) (it_key a) (rel_cols rel Hrel)) as Hsy'. destruct Ha as [_ [h Eh]], Hb as [_ [k Ek]].
  assert (Hne : h <> k) by (intros ->; apply (Hap k); [rewrite Eh|rewrite Ek]; by left).
  unfold load1. rewrite Eh, Ek. cbn [head hd_error mbind option_bind]. destruct (Z.eqb_spec (compare_keys (rd_cols rel) (it_key a) (it_key b)) 0) as [E|E]; (eexists; split; [reflexivity|]).
  - destruct (Z.ltb_spec 0 (ItemPointerCompare h k)) as [Hl|Hl]; cbn [negb].
    + apply (before_intro b a k h Ek Eh). right. split; [lia|]. unfold ItemPointerCompare in *. revert Hl. repeat if_case; lia.
    + apply (before_intro a b h k Eh Ek). right. split; [lia|by apply tids_compare].
  - destruct (Z.ltb_spec (compare_keys (rd_cols rel) (it_key a) (it_key b)) 0); [apply (before_intro a b h k Eh Ek)|apply (before_intro b a k h Ek Eh)]; left; lia.
Qed.

(** What the sort gets, and what the load reads. *)
Definition loadable (t : itup) : Prop := sortable rel t /\ tuple_ok rel (LeafTup t).
Definition all_apart (l : list itup) : Prop := NoDup (l ≫= it_tids).

Lemma apart_in l k a b : all_apart (l ++ k) -> a ∈ l -> b ∈ k -> apart a b.
Proof.
  unfold all_apart. rewrite bind_app. intros (_ & H & _)%NoDup_app Ha Hb h Hha Hhb. apply (H h); apply list_elem_of_bind; eauto.
Qed.

Lemma all_apart_perm l k : l ≡ₚ k -> all_apart l -> all_apart k.
Proof. intros Hp. unfold all_apart. by rewrite Hp. Qed.

Lemma sorted_spool u l : Forall loadable l -> all_apart l -> StronglySorted (tuple_le rel u) l -> StronglySorted before l.
Proof.
  intros Hl Hap Hs. induction Hs as [|a l Hs IH Ha]; [constructor|]. apply Forall_cons in Hl as [[Hla _] Hl]. change (a :: l) with ([a] ++ l) in Hap.
  constructor; [apply IH; [done|]; unfold all_apart in *; rewrite bind_app in Hap; by apply NoDup_app in Hap as (_ & _ & ?)|].
  rewrite Forall_forall in Hl, Ha |- *. intros b Hb. apply (sorted_before u); [done|by apply Hl|apply (apart_in [a] l); [done|by left|done]|by apply Ha].
Qed.

Lemma leaf_before_trans a b c : loadable b -> before a b -> before b c -> before a c.
Proof. intros [_ Hb]. by apply tuple_before_trans. Qed.

Lemma before_all a b l : loadable b -> before a b -> Forall (before b) l -> Forall (before a) (b :: l).
Proof. intros Hb Hab Hl. constructor; [done|]. eapply Forall_impl; [exact Hl|]. intros c. by apply leaf_before_trans. Qed.

(** Merging two sorted spools. *)
Lemma merge_spools_sorted l1 : forall l2, Forall loadable (l1 ++ l2) -> all_apart (l1 ++ l2) -> StronglySorted before l1 -> StronglySorted before l2 ->
  exists l, merge_spools rel l1 l2 = Some l /\ l ≡ₚ l1 ++ l2 /\ StronglySorted before l.
Proof.
  induction l1 as [|a l1 IH1]; [intros l2 _ _ _ Hs; by exists l2|]. intros l2. induction l2 as [|b l2 IH2]; intros Hl Hap Hs1 Hs2.
  { exists (a :: l1). rewrite app_nil_r. done. }
  pose proof Hl as [Hl1 Hl2]%Forall_app. apply Forall_cons in Hl1 as [Ha Hl1]. apply Forall_cons in Hl2 as [Hb Hl2]. pose proof (StronglySorted_inv Hs1) as [Hs1' Hf1]. pose proof (StronglySorted_inv Hs2) as [Hs2' Hf2].
  assert (Hcons : forall x l k, l ≡ₚ k -> Forall (before x) k -> StronglySorted before l -> StronglySorted before (x :: l)) by (intros x l k Hp Hf Hs; constructor; [done|by rewrite Hp]).
  destruct (load1_spec a b (proj1 Ha) (proj1 Hb)) as (r & Hr & Hord); [apply (apart_in (a :: l1) (b :: l2)); [done|by left|by left]|]. cbn [merge_spools]. rewrite Hr. cbn [mbind option_bind]. destruct r.
  - destruct (IH1 (b :: l2)) as (l & El & Hp & Hs); [by apply Forall_app; split; [|constructor]|by unfold all_apart in *; cbn in Hap; apply NoDup_app in Hap as (_ & _ & ?)|done|done|].
    rewrite El. exists (a :: l). split; [done|]. split; [by rewrite Hp|]. apply (Hcons a l _ Hp); [|done]. apply Forall_app. split; [done|]. by apply before_all.
  - assert (Hap' : all_apart (b :: (a :: l1) ++ l2)) by (eapply all_apart_perm; [|exact Hap]; by rewrite <- Permutation_middle).
    destruct IH2 as (l & El & Hp & Hs); [by apply Forall_app; split; [constructor|]|by unfold all_apart in *; cbn in Hap'; apply NoDup_app in Hap' as (_ & _ & ?)|done|done|].
    cbn [merge_spools] in El. rewrite El. exists (b :: l). split; [done|]. split; [rewrite Hp; by rewrite <- Permutation_middle|]. apply (Hcons b l _ Hp); [|done]. apply Forall_app. split; [by apply before_all|done].
Qed.

End Order.

(** ** Posting lists *)

Section Groups.
Context (rel : index_rel) (ai : agg_info) (index_form_size : list (option Z) -> Z).
Context (agg_map_val : Z) (agg_map_fn : itup -> Z) (fillfactor : Z) (inskey : ABTScanInsertData).
Context (Hrel : rel_ok rel) (Hcols : rd_cols rel <> []) (Hkey : full_key rel inskey).
Context (ai0 : agg_info) (Hai : ai = _abt_compute_tuple_offsets ai0) (Htyp : agg_typlen ai = 2 \/ agg_typlen ai = 4 \/ agg_typlen ai = 8) (Hstride : 0 <= agg_stride ai).
Context (Hform : forall n k, index_form_size (take n k) <= index_form_size k) (Hform8 : forall k, 0 <= index_form_size k /\ index_form_size k mod 8 = 0).
Context (Hmap : 0 <= agg_map_val).
(** The mapped value of an entry depends on its key. *)
Context (Hfn : forall t t', it_key t = it_key t' -> agg_map_fn t = agg_map_fn t').

(** A tuple of the heap that fits into the index. *)
Record heap_ok (h : heap_tuple) : Prop := {
  ho_key : Z.of_nat (length (ht_values h)) = rd_natts rel;
  ho_size : size_allowed ai true (it_size (spooled ai index_form_size h)) = true /\ it_size (spooled ai index_form_size h) < 2 ^ 63;
  ho_value : 0 <= agg_map_fn (spooled ai index_form_size h)
}.
Definition spool_tuple (t : itup) : Prop := exists h, heap_ok h /\ t = spooled ai index_form_size h.

Abbreviation spool := (spooled ai index_form_size).
Abbreviation before := (before rel).

(** Equal tuples that become one: the group, and the tuple made of it. *)
Definition merged (b : itup) (n : Z) : Z :=
  it_size b - extra_space_for_nonpivot_tuple ai + MAXALIGN (n * sizeof_ItemPointerData) +
  (if leaf_has_agg ai then MAXALIGN (agg_stride ai * n) else 0) + MAXALIGN (sizeof_TransactionId * n).
Record group (g : list itup) : Prop := {
  gr_head : exists b, head g = Some b /\ Forall (fun t => it_key t = it_key b) g /\ ((1 < length g)%nat -> merged b (Z.of_nat (length g)) <= build_maxpostingsize);
  gr_spool : Forall spool_tuple g
}.
Definition group_tuple (g : list itup) : itup * Z :=
  match g with
  | [] => (mk_itup [] 0 None [] [] [], 0)
  | [b] => (b, 0)
  | b :: _ => let p := _abt_form_posting ai b (g ≫= it_tids) in (p, it_size p - default 0 (it_postingoff p))
  end.

Record pend_inv (st : dedup_state) (g : list itup) : Prop := {
  pi_max : maxpostingsize st = build_maxpostingsize;
  pi_base : head g = Some (base st);
  pi_items : nitems st = Z.of_nat (length g);
  pi_htids : (htids st = [] /\ length g = 1%nat) \/ (htids st = g ≫= it_tids /\ basetupsize st = it_size (base st) - extra_space_for_nonpivot_tuple ai);
  pi_group : group g
}.

Lemma spool_facts t : spool_tuple t -> it_postingoff t = None /\ (exists h, it_tids t = [h]) /\ Z.of_nat (length (it_key t)) = rd_natts rel /\ 0 <= agg_map_fn t.
Proof. intros (h & [Hk _ Hv] & ->). by split_and!; [|eexists| |]. Qed.

Lemma spool_group t : spool_tuple t -> group [t].
Proof. intros Ht. split; [|by apply Forall_singleton]. exists t. split; [done|]. split; [by apply Forall_singleton|simpl; lia]. Qed.

Lemma spool_tids g : Forall spool_tuple g -> length (g ≫= it_tids) = length g.
Proof. induction 1 as [|t g Ht _ IH]; [done|]. rewrite bind_cons, length_app, IH. destruct (spool_facts t Ht) as (_ & [h ->] & _). done. Qed.

Lemma group_snoc g t : group g -> spool_tuple t -> (forall b, head g = Some b -> it_key t = it_key b /\ merged b (Z.of_nat (length g) + 1) <= build_maxpostingsize) -> group (g ++ [t]).
Proof.
  intros [(b & Hb & Hk & _) Hs] Ht Hm. destruct (Hm b Hb) as [Hkt Hmt]. split; [|by apply Forall_app; split; [|apply Forall_singleton]]. exists b. split; [by destruct g|].
  split; [by apply Forall_app; split; [|apply Forall_singleton]|]. intros _. rewrite length_app. cbn [length]. by replace (Z.of_nat (length g + 1)) with (Z.of_nat (length g) + 1) by lia.
Qed.

Lemma pend_start st t : maxpostingsize st = build_maxpostingsize -> spool_tuple t -> pend_inv (_abt_dedup_start_pending ai st t InvalidOffsetNumber) [t].
Proof.
  intros Hm Ht. split; cbn; [done|done|done| |by apply spool_group]. destruct (spool_facts t Ht) as (-> & _). destruct (it_size t <=? maxpostingsize st); [right|left; done]. by rewrite app_nil_r.
Qed.

Lemma pend_save st g t st' saved : pend_inv st g -> spool_tuple t -> 0 < nhtids st -> it_key t = it_key (base st) -> _abt_dedup_save_htid ai st t = (st', saved) ->
  pend_inv st' (if saved then g ++ [t] else g).
Proof.
  intros [Hm Hb Hi Hh Hg] Ht Hn Hk. unfold _abt_dedup_save_htid. destruct (spool_facts t Ht) as (Hp & (h & Etid) & _). unfold is_posting. rewrite (proj2 (Z.eqb_neq (nhtids st) 0)) by lia. rewrite Hp.
  destruct Hh as [[Hnil _]|[Hh Hbs]]; [unfold nhtids in Hn; rewrite Hnil in Hn; simpl in Hn; lia|].
  assert (Hlen : nhtids st = Z.of_nat (length g)) by (unfold nhtids; rewrite Hh, spool_tids; [done|apply Hg]).
  destruct (maxpostingsize st <? merged_size ai st 1) eqn:Ems.
  - intros [= <- <-]. split; [by destruct (50 <? nhtids st)..|right; by destruct (50 <? nhtids st)|done].
  - intros [= <- <-]. split; cbn.
    + done.
    + by destruct g.
    + rewrite length_app. simpl. lia.
    + right. split; [by rewrite bind_app, Hh, bind_singleton|done].
    + apply group_snoc; [done|done|]. intros b' Hb'. rewrite Hb in Hb'. injection Hb' as <-. split; [done|]. zbool. rewrite Hm in Ems. unfold merged_size in Ems. rewrite Hlen, Hbs in Ems. unfold merged. destruct (leaf_has_agg ai); lia.
Qed.

Lemma pending_group st g : pend_inv st g -> pending_tuple ai st = group_tuple g.
Proof.
  intros [_ Hb Hi Hh _]. unfold pending_tuple. destruct g as [|b [|c g]]; [done| |].
  - injection Hb as <-. rewrite Hi. done.
  - injection Hb as ->. rewrite Hi. rewrite (proj2 (Z.eqb_neq _ 1)) by (simpl; lia). destruct Hh as [[_ H]|[-> _]]; [done|]. done.
Qed.

(** Tuples without further columns have equal keys if their images are equal. *)
Lemma same_key_spool a b : rd_natts rel = indnkeyatts rel -> spool_tuple a -> spool_tuple b -> same_key (length (rd_cols rel)) a b = true -> it_key b = it_key a.
Proof.
  intros Hn Ha Hb. destruct (spool_facts a Ha) as (_ & _ & Hka & _), (spool_facts b Hb) as (_ & _ & Hkb & _). unfold same_key, _abt_keep_natts_fast, indnkeyatts in *. intros H. zbool.
  symmetry. apply (keep_natts_all (length (rd_cols rel)) _ _ 1); lia.
Qed.

(** The tuples that deduplication adds to the index. *)
Fixpoint pend (st : dedup_state) (l : list itup) : list (itup * Z) :=
  match l with
  | [] => [pending_tuple ai st]
  | t :: l =>
      let '(st', saved) := if (0 <? nhtids st) && same_key (length (rd_cols rel)) (base st) t then _abt_dedup_save_htid ai st t else (st, false) in
      if saved then pend st' l
      else pending_tuple ai st' :: pend (_abt_dedup_start_pending ai (reset_dedup st') t InvalidOffsetNumber) l
  end.

Lemma pend_groups l : rd_natts rel = indnkeyatts rel -> Forall spool_tuple l -> forall st g, pend_inv st g ->
  exists gs, pend st l = group_tuple <$> gs /\ mjoin gs = g ++ l /\ Forall group gs.
Proof.
  intros Hn. induction 1 as [|t l Ht Hl IH]; intros st g Hst; cbn [pend].
  - exists [g]. cbn. rewrite (pending_group st g Hst), !app_nil_r. split_and!; [done|done|]. apply Forall_singleton. apply Hst.
  - destruct (if (0 <? nhtids st) && same_key (length (rd_cols rel)) (base st) t then _abt_dedup_save_htid ai st t else (st, false)) as [st' saved] eqn:E.
    assert (Hst' : pend_inv st' (if saved then g ++ [t] else g)).
    { destruct (0 <? nhtids st) eqn:E0; cbn [andb] in E; [|by injection E as <- <-]. destruct (same_key (length (rd_cols rel)) (base st) t) eqn:Esk; [|by injection E as <- <-]. zbool.
      apply (pend_save st g t st' saved Hst Ht); try done. apply same_key_spool; try done. destruct Hst as [_ Hb _ _ [_ Hg]]. destruct g; [done|]. injection Hb as ->. by apply Forall_cons in Hg as [? _]. }
    destruct saved.
    + destruct (IH st' (g ++ [t]) Hst') as (gs & -> & Hj & Hgs). exists gs. split; [done|]. by rewrite <- app_assoc in Hj.
    + destruct (IH _ [t] (pend_start (reset_dedup st') t (pi_max _ _ Hst') Ht)) as (gs & -> & Hj & Hgs). exists (g :: gs). cbn [fmap list_fmap]. change (mjoin (g :: gs)) with (g ++ mjoin gs). rewrite (pending_group st' g Hst'). split_and!; [done|by rewrite Hj|]. constructor; [apply Hst'|done].
Qed.

Abbreviation add_list := (add_list rel ai index_form_size agg_map_val inskey agg_map_fn fillfactor).

Lemma load_dedup_list l : forall ws states st,
  bbind (load_dedup rel ai index_form_size agg_map_val agg_map_fn fillfactor inskey ws states st l)
    (fun '(ws, states, st) => bbind (finish_pending rel ai index_form_size agg_map_val agg_map_fn fillfactor inskey ws states st) (fun '(ws, states, _) => BOk (ws, states))) =
  add_list ws states (pend st l).
Proof.
  induction l as [|t l IH]; intros ws states st.
  - cbn [load_dedup bbind pend]. unfold finish_pending. destruct (pending_tuple ai st) as [p x]. cbn [BuildTree.add_list]. by destruct (add_leaf _ _ _ _ _ _ _ _ _ _ _) as [[? ?]|].
  - cbn [load_dedup pend]. destruct (if (0 <? nhtids st) && same_key (length (rd_cols rel)) (base st) t then _abt_dedup_save_htid ai st t else (st, false)) as [st' [|]]; [apply IH|].
    unfold finish_pending at 1. destruct (pending_tuple ai st') as [p x]. cbn [BuildTree.add_list]. destruct (add_leaf _ _ _ _ _ _ _ _ _ _ _) as [[ws1 st1]|]; [|done]. cbn [bbind]. apply IH.
Qed.

Lemma bbind_ok {A B} (m : bres A) (f : A -> bres B) b : bbind m f = BOk b -> exists a, m = BOk a /\ f a = BOk b.
Proof. destruct m as [a|]; [|done]. intros H. by exists a. Qed.

Lemma buildadd_states fuel ws states it x ws' states' : buildadd rel ai index_form_size agg_map_val agg_map_fn fillfactor inskey fuel ws states it x = BOk (ws', states') -> states' <> [].
Proof.
  destruct fuel, states as [|s next]; try done. cbn [buildadd]. destruct (negb _); [done|]. intros ([[ws1 next1] [[[npage nblkno] last_off] lowkey]] & _ & H)%bbind_ok.
  apply bbind_ok in H as (agg & _ & H). apply bbind_ok in H as (page & _ & H). injection H as _ <-. done.
Qed.

Lemma load_plain_list l : forall ws states, states <> [] -> load_plain rel ai index_form_size agg_map_val agg_map_fn fillfactor inskey ws states l = add_list ws states ((., 0) <$> l).
Proof.
  induction l as [|t l IH]; intros ws states Hne; [done|]. destruct states as [|s next]; [done|]. cbn [load_plain first_page fmap list_fmap BuildTree.add_list].
  destruct (add_leaf _ _ _ _ _ _ _ _ _ _ _) as [[ws1 st1]|] eqn:E; [|done]. cbn [bbind]. apply IH. by eapply buildadd_states.
Qed.

(** ** The tuple of a group *)

Definition set_leaf (t : itup) : itup :=
  let n := if is_posting t then length (it_tids t) else 1%nat in
  mk_itup (it_key t) (it_size t) (it_postingoff t) (it_tids t) (if leaf_has_agg ai then replicate n (agg_map_fn t) else it_aggs t) (replicate n FrozenTransactionId).
Definition entry_value (t : itup) : Z := if leaf_has_agg ai then agg_map_fn t else agg_map_val.

Lemma spaces8 : extra_space_for_nonpivot_tuple ai mod 8 = 0 /\ 8 <= extra_space_for_nonpivot_tuple ai <= 16.
Proof.
  destruct (spaces ai ai0 Hai Htyp) as (_ & He & He8 & ->). destruct (leaf_has_agg ai); [lia|done].
Qed.

Lemma spool_size t : spool_tuple t -> it_size t = index_form_size (it_key t) + extra_space_for_nonpivot_tuple ai /\ it_size t mod 8 = 0 /\
  size_allowed ai true (it_size t) = true /\ it_size t < 2 ^ 63 /\ it_aggs t = zero_aggs ai 1.
Proof.
  intros (h & [_ [Ha Hb] _] & ->). destruct spaces8 as [H8 _]. split_and!; try done. cbn. rewrite Z.add_mod, H8, (proj2 (Hform8 (ht_values h))) by lia. done.
Qed.

Record group_shape (g : list itup) (b t : itup) : Prop := {
  gs_key : it_key t = it_key b;
  gs_tids : it_tids t = g ≫= it_tids;
  gs_posting : is_posting t = (1 <? Z.of_nat (length g));
  gs_aggs : leaf_has_agg ai = false -> it_aggs t = [];
  gs_size : it_size t mod 8 = 0 /\ 0 <= it_size t < 2 ^ 63 /\ size_allowed ai true (it_size t) = true;
  gs_keysize : key_size ai t mod 8 = 0 /\ index_form_size (it_key t) <= key_size ai t /\ key_size ai t + extra_space_for_nonpivot_tuple ai <= it_size t;
  gs_room : Z.of_nat (length g) < 2 ^ 15 /\ sizeof_ItemPointerData * Z.of_nat (length g) <= it_size t
}.

Lemma merged_bounds b n : 0 <= n -> let m := merged b n in
  it_size b - extra_space_for_nonpivot_tuple ai + 6 * n <= m /\
  posting_size ai (it_size b) n = m + extra_space_for_nonpivot_tuple ai + (MAXALIGN (it_size b + n * sizeof_ItemPointerData) - (it_size b + MAXALIGN (n * sizeof_ItemPointerData))) /\
  (1 < n -> it_size b + 16 + 8 <= m + extra_space_for_nonpivot_tuple ai).
Proof.
  intros Hn m. unfold m, merged, posting_size, sizeof_ItemPointerData, sizeof_TransactionId. pose proof (MAXALIGN_spec (n * 6)) as [H1 _]. pose proof (MAXALIGN_spec (4 * n)) as [H2 _].
  assert (0 <= agg_stride ai * n) by nia. pose proof (MAXALIGN_spec (agg_stride ai * n)) as [H3 _]. pose proof (MAXALIGN_mono 12 (n * 6)) as H4. pose proof (MAXALIGN_mono 8 (4 * n)) as H5.
  change (MAXALIGN 12) with 16 in H4. change (MAXALIGN 8) with 8 in H5. destruct (leaf_has_agg ai); split_and!; lia.
Qed.

Lemma group_tuple_shape g : group g -> exists b, head g = Some b /\ spool_tuple b /\ group_shape g b (fst (group_tuple g)) /\ 0 <= snd (group_tuple g).
Proof.
  intros [(b & Hb & Hk & Hm) Hs]. destruct g as [|b0 g]; [done|]. injection Hb as ->. pose proof Hs as [Hsb _]%Forall_cons. exists b. split; [done|]. split; [done|].
  destruct (spool_size b Hsb) as (Hsz & Hs8 & Ha & Hb63 & Hag). destruct (spool_facts b Hsb) as (Hp & [h Eh] & Hkl & Hv). destruct spaces8 as [He8 He]. destruct (Hform8 (it_key b)) as [Hf0 Hf8].
  destruct g as [|c g].
  - cbn [group_tuple fst snd]. split; [|done]. split; try done.
    + by rewrite bind_singleton.
    + unfold is_posting. by rewrite Hp.
    + intros E. rewrite Hag. unfold zero_aggs. by rewrite E.
    + split_and!; [done|lia|done|done].
    + unfold key_size. rewrite Hp. split_and!; [rewrite Hsz; by replace (_ + _ - _) with (index_form_size (it_key b)) by lia|lia|lia].
    + cbn [length]. unfold sizeof_ItemPointerData. lia.
  - set (g' := b :: c :: g) in *. specialize (Hm ltac:(unfold g'; simpl; lia)). assert (Hlen : length (g' ≫= it_tids) = length g') by (by apply spool_tids).
    assert (Hg' : 2 <= Z.of_nat (length g')) by (unfold g'; simpl; lia). change (group_tuple g') with (let p := _abt_form_posting ai b (g' ≫= it_tids) in (p, it_size p - default 0 (it_postingoff p))).
    cbv zeta. unfold _abt_form_posting. rewrite Hlen, Hp, (proj2 (Z.ltb_lt _ _)) by lia. cbn [fst snd it_size it_postingoff default]. set (n := Z.of_nat (length g')) in *.
    destruct (merged_bounds b n ltac:(lia)) as (Hm1 & Hps & Hm2). specialize (Hm2 ltac:(lia)). rewrite (MAXALIGN_add (it_size b)) in Hps by done. change build_maxpostingsize with 812 in Hm. unfold sizeof_ItemPointerData in *.
    assert (Hps8 : posting_size ai (it_size b) n mod 8 = 0).
    { unfold posting_size. pose proof (proj2 (MAXALIGN_spec (it_size b + n * sizeof_ItemPointerData))). pose proof (proj2 (MAXALIGN_spec (agg_stride ai * n))). pose proof (proj2 (MAXALIGN_spec (sizeof_TransactionId * n))).
      destruct (leaf_has_agg ai); Z.div_mod_to_equations; lia. }
    split; [|unfold id; lia]. split; cbn [it_key it_tids it_size it_aggs it_xmins]; try done.
    + unfold is_posting. cbn [it_postingoff]. symmetry. apply Z.ltb_lt. lia.
    + intros E. unfold zero_aggs. by rewrite E.
    + split; [done|]. split; [lia|]. unfold size_allowed. rewrite (MAXALIGN_id (posting_size ai (it_size b) n)), u64_small by (done || lia). rewrite (max_size ai ai0 Hai Htyp).
      rewrite (proj2 (Z.ltb_ge 2688 _)) by lia. done.
    + unfold key_size. cbn [it_postingoff]. split_and!; [done|lia|lia].
    + unfold sizeof_ItemPointerData. fold n. lia.
Qed.

(** The first and the last TID of a group. *)
Lemma group_tids g b : Forall spool_tuple g -> head g = Some b -> exists x lo hi, last g = Some x /\ it_tids b = [lo] /\ it_tids x = [hi] /\ head (g ≫= it_tids) = Some lo /\ last (g ≫= it_tids) = Some hi.
Proof.
  intros Hs Hb. destruct g as [|b0 g]; [done|]. injection Hb as ->. destruct (last_is_Some (b :: g)) as [_ [x Hx]]; [done|]. exists x. pose proof Hx as Hx'.
  apply last_Some in Hx as [init E]. rewrite Forall_forall in Hs. destruct (spool_facts b (Hs b ltac:(by left))) as (_ & [lo Elo] & _).
  destruct (spool_facts x (Hs x ltac:(rewrite E; apply elem_of_app; right; by left))) as (_ & [hi Ehi] & _). exists lo, hi. split_and!; try done.
  - by rewrite bind_cons, Elo.
  - rewrite E, bind_app, bind_singleton, Ehi, last_snoc. done.
Qed.

Lemma same_key_before a b h k : it_tids a = [h] -> it_tids b = [k] -> it_key a = it_key b -> before a b -> ItemPointerCompare h k < 0.
Proof.
  intros Ha Hb Hk [H|[_ H]]; cbn [tuple_key] in *.
  - rewrite Hk, lexcmp_refl in H by apply Hrel. lia.
  - unfold tid_before in H. cbn [ABTreeTupleGetMaxHeapTID ABTreeTupleGetHeapTID] in H. rewrite Ha, Hb in H. by destruct (is_posting a).
Qed.

Lemma group_order g b x lo hi : group g -> StronglySorted before g -> head g = Some b -> last g = Some x -> it_tids b = [lo] -> it_tids x = [hi] -> ItemPointerCompare lo hi <= 0.
Proof.
  intros [(b' & Hb' & Hk & _) _] Hs Hb Hx Hlo Hhi. rewrite Hb in Hb'. injection Hb' as <-. destruct g as [|b0 g]; [done|]. injection Hb as ->. destruct g as [|c g].
  - injection Hx as <-. rewrite Hlo in Hhi. injection Hhi as <-. unfold ItemPointerCompare. repeat if_case; lia.
  - apply StronglySorted_inv in Hs as [_ Hf]. rewrite last_cons_cons in Hx. apply last_Some in Hx as [l' El]. assert (Hin : x ∈ c :: g) by (rewrite El; apply elem_of_app; right; by left).
    rewrite Forall_forall in Hf, Hk. specialize (Hf x Hin). apply Z.lt_le_incl, (same_key_before b x lo hi); try done. symmetry. apply Hk. by right.
Qed.

Lemma group_leaf_ok g : group g -> StronglySorted before g -> leaf_ok rel ai index_form_size (set_leaf (fst (group_tuple g))).
Proof.
  intros Hg Hs. destruct (group_tuple_shape g Hg) as (b & Hb & Hsb & [Hk Ht Hp Ha (Hs8 & Hsz & Hal) Hks Hr] & _). destruct (group_tids g b (gr_spool _ Hg) Hb) as (x & lo & hi & Hx & Elo & Ehi & Hlo & Hhi).
  destruct (spool_facts b Hsb) as (_ & _ & Hkl & Hv). set (t := fst (group_tuple g)) in *.
  assert (Hn : (if is_posting t then length (it_tids t) else 1%nat) = length (it_tids t)).
  { rewrite Hp, Ht. destruct (Z.ltb_spec 1 (Z.of_nat (length g))); [done|]. rewrite (spool_tids g) by apply Hg. destruct g as [|? [|]]; [done|done|simpl in *; lia]. }
  unfold set_leaf. rewrite Hn. split; cbn [it_key it_size it_tids it_aggs it_xmins it_postingoff].
  - cbn [tuple_ok it_key it_tids]. rewrite Hk. split; [done|]. exists lo, hi. rewrite Ht. split_and!; try done. by apply (group_order g b x).
  - split; [lia|done].
  - exact Hks.
  - split; [done|lia].
  - cbn [leaf_tuple_ok it_tids it_aggs it_xmins]. rewrite length_replicate. split; [done|]. split; [intros ->; by rewrite length_replicate|].
    unfold is_posting at 1. cbn [it_postingoff]. fold (is_posting t). intros E. by rewrite E in Hn.
  - rewrite Ht, spool_tids by apply Hg. exact Hr.
  - destruct (leaf_has_agg ai); [|by rewrite Ha]. apply Forall_replicate. rewrite (Hfn t b Hk). done.
Qed.

Lemma sumZ_replicate n v : sumZ (replicate n v) = v * Z.of_nat n.
Proof. induction n as [|n IH]; cbn [replicate sumZ]; lia. Qed.

Lemma group_values g b : Forall (fun t => it_key t = it_key b) g -> sumZ (entry_value <$> g) = entry_value b * Z.of_nat (length g).
Proof.
  induction 1 as [|t g Ht _ IH]; [simpl; lia|]. cbn [fmap list_fmap sumZ length]. fold (entry_value <$> g). rewrite IH. assert (entry_value t = entry_value b) as -> by (unfold entry_value; by rewrite (Hfn t b Ht)). lia.
Qed.

Lemma group_value g : group g -> leaf_value ai agg_map_val (set_leaf (fst (group_tuple g))) = sumZ (entry_value <$> g).
Proof.
  intros Hg. destruct (group_tuple_shape g Hg) as (b & Hb & Hsb & [Hk Ht Hp _ _ _ _] & _). destruct Hg as [(b' & Hb' & Hkg & _) Hsp]. rewrite Hb in Hb'. injection Hb' as <-.
  rewrite (group_values g b Hkg). unfold leaf_value, set_leaf, entry_value. cbn [it_aggs it_tids]. rewrite Ht, spool_tids by done. destruct (leaf_has_agg ai); [|done].
  rewrite sumZ_replicate, (Hfn _ b Hk), Hp. destruct (Z.ltb_spec 1 (Z.of_nat (length g))); [done|]. destruct g as [|? [|]]; [done|done|simpl in *; lia].
Qed.

(** The entries of a new index: key, TID, value if kept, and the frozen transaction id. *)
Definition tuple_entry (t : itup) (x : tid) : list (option Z) * tid * option Z * option Z :=
  (it_key t, x, if leaf_has_agg ai then Some (agg_map_fn t) else None, Some FrozenTransactionId).
Definition new_entries (t : itup) : list (list (option Z) * tid * option Z * option Z) := tuple_entry t <$> it_tids t.

Lemma group_expand g : group g -> expand (set_leaf (fst (group_tuple g))) = g ≫= new_entries.
Proof.
  intros Hg. destruct (group_tuple_shape g Hg) as (b & Hb & Hsb & [Hk Ht Hp Ha _ _ _] & _). destruct Hg as [(b' & Hb' & Hkg & _) Hsp]. rewrite Hb in Hb'. injection Hb' as <-.
  set (t := fst (group_tuple g)) in *. assert (Hn : (if is_posting t then length (it_tids t) else 1%nat) = length (it_tids t)).
  { rewrite Hp, Ht. destruct (Z.ltb_spec 1 (Z.of_nat (length g))); [done|]. rewrite (spool_tids g) by done. destruct g as [|? [|]]; [done|done|simpl in *; lia]. }
  transitivity (tuple_entry b <$> (g ≫= it_tids)).
  - unfold expand, set_leaf. rewrite Hn. cbn [it_key it_tids it_aggs it_xmins]. rewrite Ht. unfold tuple_entry. rewrite Hk.
    assert (Hi : forall n (aggs : list Z) (l : list tid), length l = n -> (if leaf_has_agg ai then aggs = replicate n (agg_map_fn b) else aggs = []) ->
      imap (fun i x => (it_key b, x, aggs !! i, replicate n FrozenTransactionId !! i)) l = (fun x => (it_key b, x, if leaf_has_agg ai then Some (agg_map_fn b) else None, Some FrozenTransactionId)) <$> l).
    { intros n aggs l Hl Hag. apply list_eq. intros i. rewrite list_lookup_imap, list_lookup_fmap. destruct (l !! i) eqn:E; [|done]. apply lookup_lt_Some in E. cbn. rewrite (lookup_replicate_2 n) by lia.
      destruct (leaf_has_agg ai); rewrite Hag; [by rewrite (lookup_replicate_2 n) by lia|done]. }
    apply Hi; [done|]. destruct (leaf_has_agg ai); [by rewrite (Hfn t b Hk)|by apply Ha].
  - clear -Hkg Hfn. induction Hkg as [|t g Ht _ IH]; [done|]. rewrite !bind_cons, fmap_app, IH. f_equal. unfold new_entries, tuple_entry. by rewrite Ht, (Hfn t b Ht).
Qed.

Abbreviation inputs_ok := (inputs_ok rel ai index_form_size agg_map_val).
Abbreviation leaf_input := (leaf_input ai agg_map_fn).

Lemma group_before g g' x b' : group g -> group g' -> last g = Some x -> head g' = Some b' -> before x b' ->
  item_before rel (leaf_input (fst (group_tuple g))) (leaf_input (fst (group_tuple g'))).
Proof.
  intros Hg Hg' Hx Hb' Hlt. destruct (group_tuple_shape g Hg) as (b & Hb & Hsb & [Hk Ht Hp _ _ _ _] & _). destruct (group_tuple_shape g' Hg') as (b0 & Hb0 & Hsb' & [Hk' Ht' _ _ _ _ _] & _).
  rewrite Hb' in Hb0. injection Hb0 as <-. destruct (group_tids g b (gr_spool _ Hg) Hb) as (x0 & lo & hi & Hx0 & Elo & Ehi & Hlo & Hhi). rewrite Hx in Hx0. injection Hx0 as <-.
  destruct (group_tids g' b' (gr_spool _ Hg') Hb') as (x' & lo' & hi' & Hx' & Elo' & _ & Hlo' & _).
  assert (Hkx : it_key x = it_key b). { destruct Hg as [(b1 & Hb1 & Hkg & _) _]. rewrite Hb in Hb1. injection Hb1 as <-. rewrite Forall_forall in Hkg. apply Hkg. apply last_Some in Hx as [l ->]. apply elem_of_app. right. by left. }
  split; cbn [BuildTree.leaf_input as_added snd set_values fst].
  - unfold tuple_before, tid_before. cbn [tuple_key ABTreeTupleGetMaxHeapTID ABTreeTupleGetHeapTID it_key it_tids]. rewrite Hk, Hk', Ht, Ht', Hlo'. unfold is_posting. cbn [it_postingoff]. fold (is_posting (fst (group_tuple g))).
    replace (if is_posting (fst (group_tuple g)) then last (g ≫= it_tids) else head (g ≫= it_tids)) with (Some hi); cycle 1.
    { rewrite Hp. destruct (Z.ltb_spec 1 (Z.of_nat (length g))); [done|]. destruct g as [|? [|]]; [done| |simpl in *; lia]. injection Hb as ->. injection Hx as <-. by rewrite bind_singleton, Ehi. }
    destruct Hlt as [Hlt|[Heq Htb]]; cbn [tuple_key] in *; rewrite Hkx in *; [by left|right]. split; [done|]. unfold tid_before in Htb. cbn [ABTreeTupleGetMaxHeapTID ABTreeTupleGetHeapTID] in Htb. rewrite Ehi, Elo' in Htb. by destruct (is_posting x).
  - cbn [tuple_key it_key]. rewrite Hk'. destruct (spool_facts b' Hsb') as (_ & _ & Hkl & _). pose proof (rel_natts rel Hrel) as Hn. unfold indnkeyatts in Hn. destruct (it_key b'); [|done]. destruct (rd_cols rel); [done|]. simpl in *. lia.
Qed.

Lemma groups_inputs gs : Forall group gs -> StronglySorted before (mjoin gs) -> sumZ (entry_value <$> mjoin gs) < 2 ^ (8 * agg_typlen ai - 1) ->
  inputs_ok 0 (leaf_input ∘ fst <$> (group_tuple <$> gs)).
Proof.
  intros Hg Hs Hsum. rewrite <- list_fmap_compose.
  assert (Hall : Forall (fun g => group g /\ StronglySorted before g) gs).
  { clear Hsum. induction Hg as [|g gs Hg _ IH]; [constructor|]. change (mjoin (g :: gs)) with (g ++ mjoin gs) in Hs. apply StronglySorted_app in Hs as (_ & H1 & H2). constructor; [done|by apply IH]. }
  split.
  - apply Forall_fmap. eapply Forall_impl; [exact Hall|]. intros g [H1 H2]. split; [done|]. by apply group_leaf_ok.
  - clear Hsum. induction Hall as [|g gs [H1 H2] Hall IH]; [constructor|]. change (mjoin (g :: gs)) with (g ++ mjoin gs) in Hs. apply StronglySorted_app in Hs as (Hx & _ & Hs). apply Forall_cons in Hg as [_ Hg].
    cbn [fmap list_fmap]. constructor; [by apply IH|]. apply Forall_fmap, Forall_forall. intros g' Hg'. rewrite Forall_forall in Hall. destruct (Hall g' Hg') as [H1' _]. cbn [compose].
    destruct (group_tuple_shape g H1) as (b & Hb & _). destruct (group_tuple_shape g' H1') as (b' & Hb' & _). destruct (group_tids g b (gr_spool _ H1) Hb) as (x & _ & _ & Hx0 & _).
    apply (group_before g g' x b'); try done. apply Hx; [apply last_Some in Hx0 as [l ->]; apply elem_of_app; right; by left|]. apply list_elem_of_join. exists g'. split; [|done]. destruct g'; [done|]. injection Hb' as ->. by left.
  - enough (sum_of ai agg_map_val (leaf_input ∘ fst ∘ group_tuple <$> gs) = sumZ (entry_value <$> mjoin gs)) as -> by done. clear Hs Hsum. induction Hall as [|g gs [H1 H2] Hall IH]; [done|]. apply Forall_cons in Hg as [_ Hg].
    change (mjoin (g :: gs)) with (g ++ mjoin gs). cbn [fmap list_fmap]. rewrite sum_of_cons, fmap_app, sumZ_app, <- (IH Hg). f_equal. by rewrite <- group_value.
Qed.

(** ** Loading *)

Lemma single_groups (l : list itup) : Forall spool_tuple l -> Forall group ((fun t => [t]) <$> l) /\ mjoin ((fun t => [t]) <$> l) = l /\ group_tuple <$> ((fun t => [t]) <$> l) = (., 0) <$> l.
Proof.
  induction 1 as [|t l Ht _ (IH1 & IH2 & IH3)]; [done|]. cbn [fmap list_fmap]. split; [constructor; [by apply spool_group|done]|]. split; [|by f_equal].
  change (mjoin ([t] :: ((fun t => [t]) <$> l))) with ([t] ++ mjoin ((fun t : itup => [t]) <$> l)). by rewrite IH2.
Qed.

Lemma groups_length gs : Forall group gs -> (length gs <= length (mjoin gs))%nat.
Proof.
  induction 1 as [|g gs [(b & Hb & _) _] _ IH]; [done|]. change (mjoin (g :: gs)) with (g ++ mjoin gs). rewrite length_app. destruct g; [done|]. simpl. lia.
Qed.

Abbreviation build_result := (build_result rel ai index_form_size agg_map_val inskey).
Abbreviation _abt_load := (_abt_load rel ai index_form_size agg_map_val agg_map_fn fillfactor inskey).

(** Groups of tuples of the spools, in order, and the tree made of them. *)
Record loaded (l : list itup) (ws : ABTWriteState) (gs : list (list itup)) (levels : list (list seg)) (root : Z) : Prop := {
  ld_groups : Forall group gs;
  ld_perm : mjoin gs ≡ₚ l;
  ld_sorted : StronglySorted before (mjoin gs);
  ld_result : build_result ws levels (leaf_input ∘ fst <$> (group_tuple <$> gs)) root
}.

Lemma groups_run gs fuel : mjoin gs <> [] -> Forall group gs -> StronglySorted before (mjoin gs) -> sumZ (entry_value <$> mjoin gs) < 2 ^ (8 * agg_typlen ai - 1) -> (length (mjoin gs) < fuel)%nat ->
  exists ws1 s ws2 states ws levels root, _abt_pagestate fillfactor (mk_ws 1 []) 0 = (ws1, s) /\ add_list ws1 [s] (group_tuple <$> gs) = BOk (ws2, states) /\
    _abt_uppershutdown rel ai index_form_size agg_map_val agg_map_fn fillfactor inskey fuel ws2 states = BOk ws /\ loaded (mjoin gs) ws gs levels root.
Proof.
  intros Hne Hg Hs Hsum Hfuel. pose proof (groups_length gs Hg) as Hlen.
  destruct (load_finish rel ai index_form_size agg_map_val inskey Hrel Hcols Hkey ai0 Hai Htyp Hform Hform8 Hmap agg_map_fn fillfactor (group_tuple <$> gs) fuel) as (ws1 & s & ws2 & states & ws & levels & root & H1 & H2 & H3 & H4).
  - by destruct gs.
  - by apply groups_inputs.
  - apply Forall_fmap. eapply Forall_impl; [exact Hg|]. intros g Hgg. by destruct (group_tuple_shape g Hgg) as (b & _ & _ & _ & H).
  - rewrite length_fmap. lia.
  - exists ws1, s, ws2, states, ws, levels, root. by split_and!.
Qed.

Lemma load_ok fuel u dd l l2 : Forall spool_tuple (l ++ default [] l2) -> all_apart (l ++ default [] l2) -> StronglySorted before l -> StronglySorted before (default [] l2) -> l ++ default [] l2 <> [] ->
  (rd_allequalimage rel = true -> rd_natts rel = indnkeyatts rel) -> sumZ (entry_value <$> l ++ default [] l2) < 2 ^ (8 * agg_typlen ai - 1) -> (length (l ++ default [] l2) < fuel)%nat ->
  exists ws gs levels root, _abt_load fuel (mk_ws (ABTREE_METAPAGE + 1) []) u dd l l2 = BOk ws /\ loaded (l ++ default [] l2) ws gs levels root.
Proof.
  intros Hsp Hap Hs Hs2 Hne Hinc Hsum Hfuel. change (ABTREE_METAPAGE + 1) with 1.
  assert (Hplain : forall k, k ≡ₚ l ++ default [] l2 -> StronglySorted before k ->
    exists ws gs levels root, bbind (load_plain rel ai index_form_size agg_map_val agg_map_fn fillfactor inskey (mk_ws 1 []) [] k)
      (fun '(ws, states) => _abt_uppershutdown rel ai index_form_size agg_map_val agg_map_fn fillfactor inskey fuel ws states) = BOk ws /\ loaded (l ++ default [] l2) ws gs levels root).
  { intros k Hk Hks. destruct (single_groups k) as (Hg & Hj & Ht); [by rewrite Hk|]. set (gs := (fun t => [t]) <$> k) in *.
    destruct (groups_run gs fuel) as (ws1 & s & ws2 & states & ws & levels & root & H1 & H2 & H3 & [L1 L2 L3 L4]); [|done|by rewrite Hj|by rewrite Hj, Hk|by rewrite Hj, Hk|].
    { rewrite Hj. intros ->. by apply Permutation_nil_l in Hk. }
    exists ws, gs, levels, root. split; [|split; try done; by rewrite Hj]. rewrite Ht in H2. destruct k as [|t k]; [by apply Permutation_nil_l in Hk|].
    assert (E : load_plain rel ai index_form_size agg_map_val agg_map_fn fillfactor inskey (mk_ws 1 []) [] (t :: k) = load_plain rel ai index_form_size agg_map_val agg_map_fn fillfactor inskey ws1 [s] (t :: k)) by (cbn [load_plain first_page]; by rewrite H1).
    rewrite E, load_plain_list, H2 by done. exact H3. }
  unfold Build._abt_load. destruct l2 as [l2|]; cbn [default] in *.
  - destruct (merge_spools_sorted rel Hrel l l2) as (k & Ek & Hk & Hks); try done.
    { eapply Forall_impl; [exact Hsp|]. intros t Ht. destruct (spool_facts t Ht) as (Hp & [h Eh] & Hkl & _). split; [split; [|by eexists]|].
      - pose proof (rel_natts rel Hrel) as Hn. unfold indnkeyatts in Hn. lia.
      - split; [done|]. exists h, h. rewrite Eh. split_and!; try done. unfold ItemPointerCompare. repeat if_case; lia. }
    rewrite Ek. cbn [bneed bbind]. by apply Hplain.
  - unfold id in *. cbn [id] in *. destruct (rd_allequalimage rel && negb u && dd) eqn:Ed; [|apply Hplain; [by rewrite app_nil_r|done]]. rewrite app_nil_r in *. destruct l as [|t l]; [done|].
    apply andb_true_iff in Ed as [Ed _]. apply andb_true_iff in Ed as [Ed _]. specialize (Hinc Ed). cbn [first_page]. pose proof Hsp as [Ht Hl]%Forall_cons.
    destruct (pend_groups l Hinc Hl _ [t] (pend_start (dedup_init t) t eq_refl Ht)) as (gs & Hp & Hj & Hg).
    destruct (groups_run gs fuel) as (ws1 & s & ws2 & states & ws & levels & root & H1 & H2 & H3 & [L1 L2 L3 L4]); [by rewrite Hj|done|rewrite Hj; exact Hs|rewrite Hj; exact Hsum|rewrite Hj; exact Hfuel|].
    exists ws, gs, levels, root. split; [|split; try done; by rewrite Hj]. rewrite H1. rewrite <- Hp, <- load_dedup_list in H2.
    rewrite H2. exact H3.
Qed.

End Groups.
End BuildLoad.
