(* ===== verification/BuildSort.v ===== *)
(** * A sort for the build

    An insertion sort by [comparetup_index_btree] that looks for conflicts first: it has the
    properties that the build expects of tuplesort. *)

From stdpp Require Import base numbers option sorting list.
From S2P Require Import Prelude Dedup Page Truncate Build BuildLoad.

Module BuildSort.
Import Dedup Page Truncate Build BuildLoad.

Section Sort.
Context (rel : index_rel).

Definition le_tuple (a b : itup) : bool := match comparetup_index_btree rel false a b with Some r => r <=? 0 | None => false end.
Fixpoint insert_tuple (a : itup) (l : list itup) : list itup :=
  match l with
  | [] => [a]
  | b :: l' => if le_tuple a b then a :: l else b :: insert_tuple a l'
  end.
Fixpoint sort_tuples (l : list itup) : list itup := match l with [] => [] | a :: l => insert_tuple a (sort_tuples l) end.

Definition fails (u : bool) (a b : itup) : bool :=
  match comparetup_index_btree rel u a b, comparetup_index_btree rel u b a with Some _, Some _ => false | _, _ => true end.
Fixpoint conflicts (u : bool) (l : list itup) : bool :=
  match l with [] => false | a :: l => existsb (fails u a) l || conflicts u l end.
Definition insertion_sort (u : bool) (l : list itup) : option (list itup) := if conflicts u l then None else Some (sort_tuples l).

Lemma conflicts_spec u l : conflicts u l = true <-> tuples_conflict rel u l.
Proof.
  assert (Hf : forall a b, fails u a b = true <-> comparetup_index_btree rel u a b = None \/ comparetup_index_btree rel u b a = None).
  { intros a b. unfold fails. destruct (comparetup_index_btree rel u a b), (comparetup_index_btree rel u b a); split; intros H; try done; auto; by destruct H. }
  induction l as [|a l IH]; cbn [conflicts].
  - split; [done|]. by intros (i & j & x & y & _ & Hi & _).
  - rewrite orb_true_iff, existsb_exists, IH. split.
    + intros [(b & [j Hj]%list_elem_of_In%list_elem_of_lookup_1 & Hc)|(i & j & x & y & Hij & Hi & Hj & Hc)].
      * exists 0%nat, (S j), a, b. split_and!; [lia|done|done|by apply Hf].
      * exists (S i), (S j), x, y. split_and!; [lia|done|done|done].
    + intros ([|i] & [|j] & x & y & Hij & Hi & Hj & Hc); try lia.
      * left. injection Hi as ->. exists y. split; [by eapply list_elem_of_In, list_elem_of_lookup_2|by apply Hf].
      * right. exists i, j, x, y. split_and!; [lia|done|done|done].
Qed.

Lemma insert_perm a l : insert_tuple a l ≡ₚ a :: l.
Proof. induction l as [|b l IH]; [done|]. cbn [insert_tuple]. destruct (le_tuple a b); [done|]. rewrite IH. constructor. Qed.
Lemma sort_perm l : sort_tuples l ≡ₚ l.
Proof. induction l as [|a l IH]; [done|]. cbn [sort_tuples]. by rewrite insert_perm, IH. Qed.

Context (Hrel : rel_ok rel).

(** The order of sortable tuples. *)
Lemma le_tuple_spec a b h k : sortable rel a -> sortable rel b -> it_tids a = [h] -> it_tids b = [k] -> le_tuple a b = true <->
  lexcmp (rd_cols rel) (it_key a) (it_key b) < 0 \/ (lexcmp (rd_cols rel) (it_key a) (it_key b) = 0 /\ ItemPointerCompare h k <= 0).
Proof.
  intros Ha Hb Eh Ek. pose proof (sortable_keys rel Hrel a b Ha Hb) as Hs. unfold le_tuple, comparetup_index_btree. rewrite Eh, Ek. cbn [head hd_error andb].
  destruct (Z.eqb_spec (compare_keys (rd_cols rel) (it_key a) (it_key b)) 0) as [E|E]; cbn [negb]; rewrite Z.leb_le; [|lia].
  unfold ItemPointerCompare. assert (lexcmp (rd_cols rel) (it_key a) (it_key b) = 0) as -> by lia. repeat if_case; cbn [negb]; lia.
Qed.

Lemma le_tuple_total a b : sortable rel a -> sortable rel b -> le_tuple a b = false -> le_tuple b a = true.
Proof.
  intros Ha Hb Hn. pose proof Ha as [_ [h Eh]]. pose proof Hb as [_ [k Ek]]. apply (le_tuple_spec b a k h Hb Ha Ek Eh). pose proof (le_tuple_spec a b h k Ha Hb Eh Ek) as Hab. rewrite Hn in Hab.
  pose proof (lexcmp_sym (rd_cols rel) (it_key a) (it_key b) (rel_cols rel Hrel)). pose proof (lexcmp_sym (rd_cols rel) (it_key b) (it_key a) (rel_cols rel Hrel)).
  assert (Ht : ItemPointerCompare h k <= 0 \/ ItemPointerCompare k h <= 0) by (unfold ItemPointerCompare; repeat if_case; lia).
  assert (~ (lexcmp (rd_cols rel) (it_key a) (it_key b) < 0 \/ lexcmp (rd_cols rel) (it_key a) (it_key b) = 0 /\ ItemPointerCompare h k <= 0)) by (by intros ?%Hab). lia.
Qed.

Lemma le_tuple_trans a b c : sortable rel a -> sortable rel b -> sortable rel c -> le_tuple a b = true -> le_tuple b c = true -> le_tuple a c = true.
Proof.
  intros Ha Hb Hc. pose proof Ha as [_ [h Eh]]. pose proof Hb as [_ [k Ek]]. pose proof Hc as [_ [m Em]].
  rewrite (le_tuple_spec a b h k), (le_tuple_spec b c k m), (le_tuple_spec a c h m) by done. pose proof (lexcmp_trans (rd_cols rel) (it_key a) (it_key b) (it_key c) (rel_cols rel Hrel)).
  assert (ItemPointerCompare h k <= 0 -> ItemPointerCompare k m <= 0 -> ItemPointerCompare h m <= 0) by (unfold ItemPointerCompare; repeat if_case; lia). lia.
Qed.

Lemma insert_sorted a l : sortable rel a -> Forall (sortable rel) l -> StronglySorted (fun x y => le_tuple x y = true) l -> StronglySorted (fun x y => le_tuple x y = true) (insert_tuple a l).
Proof.
  intros Ha Hl Hs. induction Hs as [|b l Hs IH Hb]; cbn [insert_tuple]; [by repeat constructor|]. apply Forall_cons in Hl as [Hsb Hl]. rewrite Forall_forall in Hl, Hb. destruct (le_tuple a b) eqn:E.
  - constructor; [constructor; [done|by apply Forall_forall]|]. constructor; [done|]. apply Forall_forall. intros c Hc. apply (le_tuple_trans a b c); auto.
  - constructor; [apply IH; by apply Forall_forall|]. rewrite insert_perm. constructor; [by apply le_tuple_total|by apply Forall_forall].
Qed.

Lemma sort_sorted l : Forall (sortable rel) l -> StronglySorted (fun x y => le_tuple x y = true) (sort_tuples l).
Proof. induction 1 as [|a l Ha Hl IH]; [constructor|]. cbn [sort_tuples]. apply insert_sorted; [done|by rewrite sort_perm|done]. Qed.

Lemma le_unique u a b : fails u a b = false -> le_tuple a b = true -> tuple_le rel u a b.
Proof.
  unfold fails, le_tuple, tuple_le. intros Hf Hle. destruct (comparetup_index_btree rel u a b) as [r|] eqn:E; [|done]. exists r. split; [done|]. unfold comparetup_index_btree in E, Hle.
  destruct (negb (compare_keys _ _ _ =? 0)); [injection E as <-; by apply Z.leb_le|]. destruct (u && _); [done|]. cbn [andb] in Hle. injection E as <-. by apply Z.leb_le.
Qed.

Lemma sorted_no_conflict u l : ~ tuples_conflict rel u l -> StronglySorted (fun x y => le_tuple x y = true) l -> StronglySorted (tuple_le rel u) l.
Proof.
  intros Hc Hs. induction Hs as [|a l Hs IH Ha]; [constructor|]. rewrite <- conflicts_spec in Hc. cbn [conflicts] in Hc. apply not_true_is_false, orb_false_iff in Hc as [Hf Hc].
  constructor; [apply IH; by rewrite <- conflicts_spec, Hc|]. rewrite Forall_forall in Ha |- *. intros b Hb. apply le_unique; [|by apply Ha]. destruct (fails u a b) eqn:E; [|done].
  rewrite <- Hf. symmetry. apply existsb_exists. exists b. split; [by apply list_elem_of_In|done].
Qed.

Lemma conflict_perm u l k : l ≡ₚ k -> tuples_conflict rel u l -> tuples_conflict rel u k.
Proof.
  intros Hp (i & j & a & b & Hij & Hi & Hj & Hc). apply conflicts_spec. assert (Hk : exists i j, i <> j /\ k !! i = Some a /\ k !! j = Some b).
  { apply Permutation_inj in Hp as (_ & f & Hinj & Hlk). exists (f i), (f j). split; [intros E; apply Hinj in E; lia|]. by rewrite <- !Hlk. }
  destruct Hk as (i' & j' & Hne & Hi' & Hj'). apply conflicts_spec. destruct (Nat.lt_total i' j') as [?|[?|?]]; [exists i', j', a, b|lia|exists j', i', b, a]; split_and!; try done. tauto.
Qed.

End Sort.

#[export] Instance insertion_sort_ok rel : TupleSort rel (insertion_sort rel).
Proof.
  split.
  - intros u l l' Hrel Hl. unfold insertion_sort. destruct (conflicts rel u l) eqn:E; [done|]. intros [= <-]. split; [apply sort_perm|].
    apply sorted_no_conflict; [|by apply sort_sorted]. intros Hc. apply (conflict_perm rel u _ l (sort_perm rel l)), conflicts_spec in Hc. by rewrite E in Hc.
  - intros u l Hrel Hl. rewrite <- conflicts_spec. unfold insertion_sort. by destruct (conflicts rel u l).
Qed.

End BuildSort.
