(* ===== verification/BuildIndex.v ===== *)
(** * A build makes an index of the heap

    abtbuild on a heap: the spools, the sort and the load, and what the file holds at the
    end, in terms of the invariants of searches, scans, draws and insertions. *)

From stdpp Require Import base numbers option sorting list.
From S2P Require Import Prelude Tuple Dedup Versions Page Search Truncate SplitLoc Btree Insert Sample Draw PathSums Scan ScanMatches Build BuildTree BuildOk BuildLoad BuildSort.

Module BuildIndex.
Import Tuple Dedup Versions Page Search Truncate Btree Insert PathSums Build BuildTree BuildOk BuildLoad BuildSort.

Section Index.
Context (rel : index_rel) (ai : agg_info) (index_form_size : list (option Z) -> Z).
Context (agg_map_val : Z) (agg_map_fn : itup -> Z).
Abbreviation spool := (spooled ai index_form_size).
Abbreviation entry_value := (entry_value ai agg_map_val agg_map_fn).

(** The entries on a leaf page. *)
Definition page_entries (pages : Z -> option page) (b : Z) : list (list (option Z) * tid * option Z * option Z) :=
  match pages b with
  | Some p => data_items p ≫= fun t => match t with LeafTup t => expand t | PivotTup _ => [] end
  | None => []
  end.

(** The entry of a heap tuple. *)
Definition heap_entry (h : heap_tuple) : list (option Z) * tid * option Z * option Z :=
  (ht_values h, ht_self h, if leaf_has_agg ai then Some (agg_map_fn (spool h)) else None, Some FrozenTransactionId).
Definition heap_value (h : heap_tuple) : Z := entry_value (spool h).

(** An index of the heap: a tree in order, whose leaves hold the entries of the heap's
    tuples and no others, with exact aggregates and an empty version store. *)
Record built_index (file : list block) (heap : list heap_tuple) (levels : list (list Z)) (root : Z) : Prop := {
  bi_meta : file !! 0%nat = Some (MetaBlock (mk_meta root (Z.of_nat (length levels - 1)) root (Z.of_nat (length levels - 1))));
  bi_tree : tree_ok rel (file_pages file) levels;
  bi_root c : c = None \/ c = Some (mk_meta root (Z.of_nat (length levels - 1)) root (Z.of_nat (length levels - 1))) ->
    root_ok (mk_meta root (Z.of_nat (length levels - 1)) root (Z.of_nat (length levels - 1))) (file_pages file) levels (length levels - 1) root c;
  bi_ends k bs kids : levels !! S k = Some bs -> levels !! k = Some kids -> ends_ok (file_pages file) bs kids;
  bi_leaves : exists blks, levels !! 0%nat = Some blks /\ blks ≫= page_entries (file_pages file) ≡ₚ heap_entry <$> heap /\
    (Z.of_nat (length file) < Scan.InvalidBlockNumber -> ScanMatches.leaf_chain rel (file_pages file) blks);
  bi_sums base Recent : TransactionIdIsNormal Recent = true ->
    shape rel ai (versioned ai agg_map_val base Recent (file_pages file) no_versions) (file_pages file) (length levels - 1) root None;
  bi_entries : tree_entries ai agg_map_val (file_pages file) (length levels - 1) root ≡ₚ (fun h => (FrozenTransactionId, heap_value h)) <$> heap;
  bi_blocks : mjoin levels ≡ₚ seqZ 1 (Z.of_nat (length file) - 1)
}.

Context (fillfactor : Z) (inskey : ABTScanInsertData).
Context (Hrel : rel_ok rel) (Hcols : rd_cols rel <> []) (Hkey : full_key rel inskey).
Context (ai0 : agg_info) (Hai : ai = _abt_compute_tuple_offsets ai0) (Htyp : agg_typlen ai = 2 \/ agg_typlen ai = 4 \/ agg_typlen ai = 8) (Hstride : 0 <= agg_stride ai).
Context (Hform : forall n k, index_form_size (take n k) <= index_form_size k) (Hform8 : forall k, 0 <= index_form_size k /\ index_form_size k mod 8 = 0).
Context (Hmap : 0 <= agg_map_val) (Hfn : forall t t', it_key t = it_key t' -> agg_map_fn t = agg_map_fn t').
Abbreviation heap_ok := (heap_ok rel ai index_form_size agg_map_fn).
Abbreviation group := (group rel ai index_form_size agg_map_fn).
Abbreviation group_tuple := (group_tuple ai).
Abbreviation set_leaf := (set_leaf ai agg_map_fn).

(** The versions of a group, one per tuple. *)
Lemma replicated_versions n v : 0 <= v < 2 ^ (8 * agg_typlen ai - 1) -> leaf_has_agg ai = true ->
  Draw.posting_versions ai agg_map_val (replicate n FrozenTransactionId) (replicate n v) = replicate n (FrozenTransactionId, v).
Proof.
  intros Hv Hl. induction n as [|n IH]; [done|]. cbn [replicate Draw.posting_versions tail]. rewrite IH. f_equal. f_equal. unfold Sample.entry_weight. rewrite Hl. by apply weight_small.
Qed.
Lemma constant_versions n aggs : agg_map_val < 2 ^ 64 -> leaf_has_agg ai = false ->
  Draw.posting_versions ai agg_map_val (replicate n FrozenTransactionId) aggs = replicate n (FrozenTransactionId, agg_map_val).
Proof.
  intros Hv Hl. revert aggs. induction n as [|n IH]; intros aggs; [done|]. cbn [replicate Draw.posting_versions]. rewrite IH. f_equal. f_equal. unfold Sample.entry_weight. rewrite Hl. by apply u64_small.
Qed.

Lemma const_replicate {A B} (f : A -> B) l v : Forall (fun a => f a = v) l -> f <$> l = replicate (length l) v.
Proof. induction 1 as [|a l Ha _ IH]; [done|]. cbn. by rewrite Ha, <- IH. Qed.

Lemma group_versions g : group g -> sumZ (entry_value <$> g) < 2 ^ (8 * agg_typlen ai - 1) ->
  Draw.tuple_versions ai agg_map_val (set_leaf (fst (group_tuple g))) = (fun t => (FrozenTransactionId, entry_value t)) <$> g.
Proof.
  intros Hg Hsum. destruct (group_tuple_shape rel ai index_form_size agg_map_fn ai0 Hai Htyp Hstride Hform8 g Hg) as (b & Hb & Hsb & [Hk Ht Hp _ _ _ _] & _).
  destruct Hg as [(b' & Hb' & Hkg & _) Hsp]. rewrite Hb in Hb'. injection Hb' as <-. pose proof (spool_tids rel ai index_form_size agg_map_fn g Hsp) as Hlen. set (t := fst (group_tuple g)) in *.
  destruct (spool_facts rel ai index_form_size agg_map_fn b Hsb) as (_ & _ & _ & Hv). rewrite (group_values ai agg_map_val agg_map_fn Hfn g b Hkg) in Hsum.
  assert (Hn : (if is_posting t then length (it_tids t) else 1%nat) = length g /\ (0 < length g)%nat).
  { rewrite Hp, Ht, Hlen. destruct g as [|? [|]]; [done|simpl; lia|]. rewrite (proj2 (Z.ltb_lt _ _)) by (simpl; lia). simpl. lia. }
  destruct Hn as [Hn Hpos]. assert (Hb64 : 2 ^ (8 * agg_typlen ai - 1) <= 2 ^ 64) by (apply Z.pow_le_mono_r; lia).
  rewrite (const_replicate _ g (FrozenTransactionId, entry_value b)); cycle 1.
  { eapply Forall_impl; [exact Hkg|]. intros x Hx. cbn beta. unfold BuildLoad.entry_value. by rewrite (Hfn x b Hx). }
  unfold Draw.tuple_versions, BuildLoad.set_leaf. rewrite Hn. unfold is_posting. cbn [it_postingoff it_xmins it_aggs]. fold (is_posting t).
  replace (if is_posting t then replicate (length g) FrozenTransactionId else take 1 (replicate (length g) FrozenTransactionId)) with (replicate (length g) FrozenTransactionId); cycle 1.
  { rewrite Hp. destruct (Z.ltb_spec 1 (Z.of_nat (length g))); [done|]. rewrite take_ge; [done|]. rewrite length_replicate. lia. }
  unfold BuildLoad.entry_value in *. destruct (leaf_has_agg ai) eqn:El.
  - rewrite (Hfn t b Hk). apply replicated_versions; [nia|done].
  - apply constant_versions; [nia|done].
Qed.

Lemma mjoin_bind {A B C} (f : A -> B) (h : B -> list C) (k : A -> list C) (l : list A) : (forall a, a ∈ l -> h (f a) = k a) -> (f <$> l) ≫= h = l ≫= k.
Proof. intros H. induction l as [|a l IH]; [done|]. cbn [fmap list_fmap]. rewrite !bind_cons, (H a) by (by left). f_equal. apply IH. intros x Hx. apply H. by right. Qed.

Lemma bind_mjoin {A B} (f : A -> list B) (gs : list (list A)) : mjoin gs ≫= f = gs ≫= fun g => g ≫= f.
Proof. induction gs as [|g gs IH]; [done|]. change (mjoin (g :: gs)) with (g ++ mjoin gs). by rewrite bind_app, bind_cons, IH. Qed.

Lemma level_blocks_join (levels : list (list seg)) : mjoin (level_blocks levels) = levels ≫= fmap fst.
Proof. induction levels as [|segs levels IH]; [done|]. rewrite bind_cons, <- IH. done. Qed.

Lemma group_sums gs B : Forall group gs -> sumZ (entry_value <$> mjoin gs) < B -> Forall (fun g => sumZ (entry_value <$> g) < B) gs.
Proof.
  intros Hg. assert (Hnn : forall g, group g -> 0 <= sumZ (entry_value <$> g)).
  { intros g [_ Hsp]. apply sumZ_nonneg, Forall_fmap. eapply Forall_impl; [exact Hsp|]. intros t Ht. destruct (spool_facts _ _ _ _ t Ht) as (_ & _ & _ & ?). cbn. unfold BuildLoad.entry_value. by destruct (leaf_has_agg ai). }
  assert (Hjn : forall gs, Forall group gs -> 0 <= sumZ (entry_value <$> mjoin gs)).
  { induction 1 as [|g gs0 Hg0 _ IH]; [done|]. change (mjoin (g :: gs0)) with (g ++ mjoin gs0). rewrite fmap_app, sumZ_app. pose proof (Hnn g Hg0). lia. }
  induction Hg as [|g gs Hg Hgs IH]; [constructor|]. change (mjoin (g :: gs)) with (g ++ mjoin gs). rewrite fmap_app, sumZ_app. intros Hsum.
  pose proof (Hnn g Hg). pose proof (Hjn gs Hgs). constructor; [lia|apply IH; lia].
Qed.

Lemma loaded_index l ws gs levels root heap : loaded rel ai index_form_size agg_map_val agg_map_fn inskey l ws gs levels root -> l ≡ₚ spool <$> heap ->
  sumZ (heap_value <$> heap) < 2 ^ (8 * agg_typlen ai - 1) -> built_index (btws_file ws) heap (level_blocks levels) root.
Proof.
  intros [Hg Hp Hs [Hb [cur Hroot] Hm Hbl]] Hl Hsum. set (items := leaf_input ai agg_map_fn ∘ fst <$> (group_tuple <$> gs)) in *.
  assert (Hval : sumZ (entry_value <$> mjoin gs) = sumZ (heap_value <$> heap)) by (rewrite Hp, Hl, <- list_fmap_compose; done).
  assert (Hin : inputs_ok rel ai index_form_size agg_map_val 0 items) by (apply (groups_inputs rel ai index_form_size agg_map_val agg_map_fn Hrel Hcols ai0 Hai Htyp Hstride Hform8 Hfn gs Hg Hs); by rewrite Hval).
  assert (Hpos : Forall (fun b => 0 < b) (levels ≫= fmap fst)) by (rewrite Hbl; apply Forall_forall; intros b Hb'%elem_of_seqZ; lia).
  assert (Hfz : Forall frozen_item items).
  { apply Forall_fmap, Forall_fmap, Forall_true. intros g. unfold frozen_item. cbn [compose BuildTree.leaf_input as_added snd set_values it_xmins]. by apply Forall_replicate. }
  assert (Hlen : length (level_blocks levels) = length levels) by (apply length_fmap).
  assert (Hlv : exists leaves, levels !! 0%nat = Some leaves) by (destruct levels as [|x ?]; [done|by exists x]). destruct Hlv as [leaves Hlv].
  assert (Hgv : Forall (fun g => sumZ (entry_value <$> g) < 2 ^ (8 * agg_typlen ai - 1)) gs) by (apply group_sums; [done|by rewrite Hval]).
  split; rewrite ?Hlen.
  - exact Hm.
  - by eapply built_tree_ok.
  - intros c Hc. by eapply built_root_ok.
  - intros k bs kids. unfold level_blocks. rewrite !list_lookup_fmap. destruct (levels !! S k) as [segs'|] eqn:E'; [|done]. destruct (levels !! k) as [segs|] eqn:E; [|done]. intros [= <-] [= <-]. by eapply built_ends_ok.
  - exists (fst <$> leaves). split; [unfold level_blocks; by rewrite list_lookup_fmap, Hlv|]. split.
    + unfold page_entries. rewrite (leaf_level_bind rel ai index_form_size agg_map_val inskey Hrel Hcols Hkey ai0 Hai Htyp Hform Hform8 Hmap (btws_file ws) levels items Hb Hin Hpos leaves Hlv).
      unfold items. rewrite (mjoin_bind _ _ (fun x => expand (set_leaf (fst x)))) by done.
      rewrite (mjoin_bind _ _ (fun g => g ≫= new_entries ai agg_map_fn)), <- bind_mjoin, Hp, Hl; cycle 1.
      { intros g Hg'. rewrite Forall_forall in Hg. by apply (group_expand rel ai index_form_size agg_map_fn ai0 Hai Htyp Hstride Hform8 Hfn g (Hg g Hg')). }
      clear. induction heap as [|h heap IH]; [done|]. cbn [fmap list_fmap]. rewrite bind_cons, IH. done.
    + intros Hsm. eapply built_leaf_chain; try done. apply Forall_forall. intros s Hs'. assert (Hi : fst s ∈ levels ≫= fmap fst) by (apply list_elem_of_bind; exists leaves; split; [by apply list_elem_of_fmap_2|by eapply list_elem_of_lookup_2]).
      rewrite Hbl in Hi. apply elem_of_seqZ in Hi. lia.
  - intros base Recent Hr. by eapply root_shape.
  - rewrite (root_entries rel ai index_form_size agg_map_val inskey Hrel Hcols Hkey ai0 Hai Htyp Hform Hform8 Hmap (btws_file ws) levels items Hb Hin Hpos root cur Hroot).
    unfold items. rewrite (mjoin_bind _ _ (fun x => Draw.tuple_versions ai agg_map_val (set_leaf (fst x)))) by done.
    rewrite (mjoin_bind _ _ (fun g => g ≫= fun t => [(FrozenTransactionId, entry_value t)])), <- bind_mjoin, Hp, Hl; cycle 1.
    { intros g Hg'. rewrite Forall_forall in Hg, Hgv. rewrite (group_versions g (Hg g Hg') (Hgv g Hg')). clear. induction g as [|t g IH]; [done|]. cbn [fmap list_fmap]. rewrite bind_cons, <- IH. done. }
    clear. induction heap as [|h heap IH]; [done|]. cbn [fmap list_fmap]. rewrite bind_cons, IH. done.
  - rewrite level_blocks_join. exact Hbl.
Qed.

(** ** The spools *)

Abbreviation live heap := (filter (fun h => ht_alive h = true) heap).
Abbreviation dead heap := (filter (fun h => ht_alive h = false) heap).

Lemma heapscan_plain heap : _abt_spools_heapscan ai index_form_size false heap = mk_build false (spool <$> heap) None (Z.of_nat (length heap)).
Proof.
  unfold _abt_spools_heapscan. assert (Hf : forall l n, fold_left (_abt_build_callback ai index_form_size) heap (mk_build false l None n) = mk_build false (l ++ (spool <$> heap)) None (n + Z.of_nat (length heap))).
  { induction heap as [|h heap IH]; intros l n; cbn [fold_left]; [by rewrite app_nil_r, Z.add_0_r|]. unfold _abt_build_callback at 2. cbn [bs_spool2 bs_spool havedead indtuples]. rewrite IH, <- app_assoc. f_equal. cbn [length]. lia. }
  rewrite Hf. done.
Qed.

Lemma heapscan_unique heap : _abt_spools_heapscan ai index_form_size true heap =
  mk_build (bool_decide (dead heap <> [])) (spool <$> live heap) (if decide (dead heap = []) then None else Some (spool <$> dead heap)) (Z.of_nat (length heap)).
Proof.
  unfold _abt_spools_heapscan. assert (Hf : forall d l k n, fold_left (_abt_build_callback ai index_form_size) heap (mk_build d l (Some k) n) =
    mk_build (d || bool_decide (dead heap <> [])) (l ++ (spool <$> live heap)) (Some (k ++ (spool <$> dead heap))) (n + Z.of_nat (length heap))).
  { induction heap as [|h heap IH]; intros d l k n; cbn [fold_left]; [by rewrite !app_nil_r, orb_false_r, Z.add_0_r|]. unfold _abt_build_callback at 2. cbn [bs_spool2 bs_spool havedead indtuples].
    destruct (ht_alive h) eqn:Ea; rewrite IH, <- app_assoc; rewrite !filter_cons, Ea; cbn [decide]; repeat (rewrite decide_True by done || rewrite decide_False by done); f_equal; cbn [length]; try lia.
    rewrite (bool_decide_eq_true_2 (h :: dead heap <> [])) by done. by rewrite orb_true_r. }
  rewrite Hf. cbn [app orb havedead bs_spool indtuples]. destruct (decide (dead heap = [])) as [->|Hd]; [done|]. by rewrite (bool_decide_eq_true_2 (dead heap <> [])).
Qed.

(** ** Unique indexes *)

(** Two tuples with the same key, without NULLs. *)
Definition same_values (a b : heap_tuple) : Prop :=
  lexcmp (rd_cols rel) (ht_values a) (ht_values b) = 0 /\ Forall (fun v => v <> None) (take (length (rd_cols rel)) (ht_values a)).
Definition duplicates (l : list heap_tuple) : Prop := exists i j a b, (i < j)%nat /\ l !! i = Some a /\ l !! j = Some b /\ same_values a b.

Lemma has_null_spec (l : list (option Z)) : existsb (fun a => match a with None => true | Some _ => false end) l = false <-> Forall (fun v => v <> None) l.
Proof.
  induction l as [|[v|] l IH]; cbn; [done|rewrite IH|].
  - split; [by constructor|by intros [_ ?]%Forall_cons].
  - split; [done|by intros [? _]%Forall_cons].
Qed.

Lemma heap_sortable h : heap_ok h -> sortable rel (spool h).
Proof. intros [Hk _ _]. split; [|by eexists]. cbn. pose proof (rel_natts rel Hrel) as Hn. unfold indnkeyatts in Hn. lia. Qed.

Lemma compare_conflict a b : heap_ok a -> heap_ok b -> comparetup_index_btree rel true (spool a) (spool b) = None <-> same_values a b.
Proof.
  intros Ha Hb. pose proof (sortable_keys rel Hrel _ _ (heap_sortable a Ha) (heap_sortable b Hb)) as Hs. cbn [spooled it_key] in Hs. unfold comparetup_index_btree, same_values. cbn [spooled it_key it_tids].
  rewrite <- has_null_spec. destruct (Z.eqb_spec (compare_keys (rd_cols rel) (ht_values a) (ht_values b)) 0) as [E|E]; cbn [negb].
  - assert (lexcmp (rd_cols rel) (ht_values a) (ht_values b) = 0) by lia. destruct (existsb _ _); cbn [negb andb]; split; [done|by intros [_ ?]|by intros _|done].
  - split; [done|lia].
Qed.

Lemma same_values_sym a b : heap_ok a -> heap_ok b -> same_values a b -> same_values b a.
Proof.
  intros [Ha _ _] [Hb _ _]. pose proof (rel_natts rel Hrel) as Hn. pose proof (rel_cols rel Hrel) as Ho. unfold same_values, indnkeyatts in *.
  assert (H1 : (length (rd_cols rel) <= length (ht_values a))%nat) by lia. assert (H2 : (length (rd_cols rel) <= length (ht_values b))%nat) by lia. clear -Ho H1 H2.
  revert H1 H2. generalize (ht_values a) as k1, (ht_values b) as k2. induction Ho as [|c cols Hc _ IH]; intros [|x k1] [|y k2] H1 H2; simpl in H1, H2; try lia; [done..|]. cbn [lexcmp take length].
  pose proof (col_compare_eq c x y) as Heq. intros [Hl [Hx Hf]%Forall_cons]. destruct (Z.eqb_spec (col_compare c x y) 0) as [E|]; [|lia]. rewrite (proj1 Heq E). cbn [Z.eqb].
  destruct (IH k1 k2 ltac:(lia) ltac:(lia) (conj Hl Hf)) as [Hl' Hf']. split; [done|]. constructor; [|done]. destruct x; [|done]. destruct y; [done|]. unfold col_compare, compare_attr in E. cbn in E. by destruct (col_nulls_first c).
Qed.

Lemma conflict_duplicates l : Forall heap_ok l -> tuples_conflict rel true (spool <$> l) <-> duplicates l.
Proof.
  intros Hl. rewrite Forall_forall in Hl. split.
  - intros (i & j & a & b & Hij & Hi & Hj & Hc). rewrite list_lookup_fmap in Hi, Hj. destruct (l !! i) as [x|] eqn:Ei; [|done]. destruct (l !! j) as [y|] eqn:Ej; [|done]. injection Hi as <-. injection Hj as <-.
    pose proof (Hl x (list_elem_of_lookup_2 _ _ _ Ei)) as Hx. pose proof (Hl y (list_elem_of_lookup_2 _ _ _ Ej)) as Hy. exists i, j, x, y. split_and!; try done.
    destruct Hc as [Hc|Hc]; apply compare_conflict in Hc; try done. by apply same_values_sym.
  - intros (i & j & x & y & Hij & Hi & Hj & Hs). exists i, j, (spool x), (spool y). rewrite !list_lookup_fmap, Hi, Hj. split_and!; try done. left. apply compare_conflict; [eapply Hl, list_elem_of_lookup_2, Hi|eapply Hl, list_elem_of_lookup_2, Hj|done].
Qed.

Lemma plain_conflict l : ~ tuples_conflict rel false l.
Proof. intros (i & j & a & b & _ & _ & _ & [H|H]); unfold comparetup_index_btree in H; by destruct (negb _). Qed.

(** ** The build *)

Context (performsort : bool -> list itup -> option (list itup)) `{!TupleSort rel performsort}.
Abbreviation abtbuild := (abtbuild rel ai index_form_size agg_map_val agg_map_fn fillfactor inskey performsort).

Lemma live_dead heap : live heap ++ dead heap ≡ₚ heap.
Proof.
  induction heap as [|h heap IH]; [done|]. rewrite !filter_cons. destruct (ht_alive h).
  - rewrite decide_True, decide_False by done. cbn [app]. by rewrite IH.
  - rewrite decide_False, decide_True by done. by rewrite <- Permutation_middle, IH.
Qed.

Lemma heap_spool_tuples hs : Forall heap_ok hs -> Forall (spool_tuple rel ai index_form_size agg_map_fn) (spool <$> hs).
Proof. intros H. apply Forall_fmap. eapply Forall_impl; [exact H|]. intros h Hh. by exists h. Qed.

Lemma heap_apart hs : NoDup (ht_self <$> hs) -> all_apart (spool <$> hs).
Proof. unfold all_apart. intros H. replace ((spool <$> hs) ≫= it_tids) with (ht_self <$> hs); [done|]. clear. induction hs as [|h hs IH]; [done|]. cbn [fmap list_fmap]. rewrite bind_cons, <- IH. done. Qed.

Lemma heap_loadable hs : Forall heap_ok hs -> Forall (loadable rel) (spool <$> hs).
Proof.
  intros H. apply Forall_fmap. eapply Forall_impl; [exact H|]. intros h Hh. split; [by apply heap_sortable|]. split; [apply Hh|]. exists (ht_self h), (ht_self h). split_and!; try done.
  unfold ItemPointerCompare. repeat if_case; lia.
Qed.

Lemma spool_sort_run u hs : Forall heap_ok hs -> NoDup (ht_self <$> hs) -> ~ tuples_conflict rel u (spool <$> hs) ->
  exists l, performsort u (spool <$> hs) = Some l /\ l ≡ₚ spool <$> hs /\ StronglySorted (before rel) l.
Proof.
  intros Hh Hnd Hc. pose proof (heap_loadable hs Hh) as Hld. assert (Hso : Forall (sortable rel) (spool <$> hs)) by (eapply Forall_impl; [exact Hld|]; by intros t [? _]).
  destruct (performsort u (spool <$> hs)) as [l|] eqn:E; [|by apply ts_error in E]. destruct (ts_sorted u _ l Hrel Hso E) as [Hp Hs]. exists l. split_and!; try done.
  apply (sorted_spool rel Hrel u); [by rewrite Hp|eapply all_apart_perm; [symmetry; exact Hp|by apply heap_apart]|done].
Qed.

Lemma leafbuild_run fuel u dd heap (hs : list heap_tuple) (hs2 : option (list heap_tuple)) n : (hs ++ default [] hs2 ≡ₚ heap) -> heap <> [] -> Forall heap_ok heap -> NoDup (ht_self <$> heap) -> ~ tuples_conflict rel u (spool <$> hs) ->
  (rd_allequalimage rel = true -> rd_natts rel = indnkeyatts rel) -> sumZ (heap_value <$> heap) < 2 ^ (8 * agg_typlen ai - 1) -> (length heap < fuel)%nat ->
  exists ws levels root, _abt_leafbuild rel ai index_form_size agg_map_val agg_map_fn fillfactor inskey performsort fuel u dd (mk_build n (spool <$> hs) ((fun l : list heap_tuple => spool <$> l) <$> hs2) (Z.of_nat (length heap))) = BOk ws /\
    built_index (btws_file ws) heap levels root.
Proof.
  intros Hp Hne Hh Hnd Hc Hinc Hsum Hfuel. rewrite <- Hp in Hh, Hnd. apply Forall_app in Hh as [Hh1 Hh2]. rewrite fmap_app in Hnd. apply NoDup_app in Hnd as (Hn1 & Hn12 & Hn2).
  destruct (spool_sort_run u hs Hh1 Hn1 Hc) as (l & El & Hpl & Hsl). destruct (spool_sort_run false (default [] hs2) Hh2 Hn2 (plain_conflict _)) as (l2 & El2 & Hpl2 & Hsl2).
  set (k := l ++ l2). assert (Hk : k ≡ₚ spool <$> heap) by (unfold k; rewrite Hpl, Hpl2, <- fmap_app; by rewrite Hp).
  assert (Hload : forall o2, default [] o2 = l2 -> exists ws levels root, _abt_load rel ai index_form_size agg_map_val agg_map_fn fillfactor inskey fuel (mk_ws (ABTREE_METAPAGE + 1) []) u dd l o2 = BOk ws /\
    built_index (btws_file ws) heap levels root).
  { intros o2 Ho. destruct (load_ok rel ai index_form_size agg_map_val agg_map_fn fillfactor inskey Hrel Hcols Hkey ai0 Hai Htyp Hstride Hform Hform8 Hmap Hfn fuel u dd l o2) as (ws & gs & levels & root & Hrun & Hld); rewrite ?Ho; fold k; try done.
    - rewrite Hk. apply heap_spool_tuples. rewrite <- Hp. by apply Forall_app.
    - eapply all_apart_perm; [symmetry; exact Hk|]. apply heap_apart. rewrite <- Hp, fmap_app. by apply NoDup_app.
    - intros E. rewrite E in Hk. apply Permutation_nil_l in Hk. symmetry in Hk. apply fmap_nil_inv in Hk. done.
    - rewrite Hk, <- list_fmap_compose. exact Hsum.
    - rewrite Hk, length_fmap. done.
    - exists ws, (level_blocks levels), root. split; [done|]. by apply (loaded_index (l ++ default [] o2) ws gs levels root heap Hld); [rewrite Ho|]. }
  unfold _abt_leafbuild. cbn [bs_spool bs_spool2]. rewrite El. cbn [bneed bbind]. destruct hs2 as [hs2|]; cbn [fmap option_fmap option_map default] in *.
  - unfold id in *. rewrite El2. cbn [bneed bbind]. by apply (Hload (Some l2)).
  - cbn [bbind]. apply (Hload None). cbn in Hpl2. by apply Permutation_nil_r in Hpl2.
Qed.

Lemma empty_run fuel u dd : performsort u [] = Some [] ->
  _abt_leafbuild rel ai index_form_size agg_map_val agg_map_fn fillfactor inskey performsort fuel u dd (mk_build false [] None 0) = BOk (mk_ws 1 [MetaBlock (mk_meta ABTP_NONE 0 ABTP_NONE 0)]).
Proof. intros E. unfold _abt_leafbuild. cbn [bs_spool bs_spool2]. rewrite E. cbn [bneed bbind]. unfold Build._abt_load. destruct (_ && _); cbn [load_plain bbind]; unfold _abt_uppershutdown; by destruct fuel. Qed.

Lemma heap_build_run fuel u dd heap : Forall heap_ok heap -> NoDup (ht_self <$> heap) -> (u = true -> ~ duplicates (live heap)) ->
  (rd_allequalimage rel = true -> rd_natts rel = indnkeyatts rel) -> sumZ (heap_value <$> heap) < 2 ^ (8 * agg_typlen ai - 1) -> (length heap < fuel)%nat ->
  exists ws, abtbuild fuel u dd heap = BOk (ws, Z.of_nat (length heap)) /\
    (heap = [] -> btws_file ws = [MetaBlock (mk_meta ABTP_NONE 0 ABTP_NONE 0)]) /\
    (heap <> [] -> exists levels root, built_index (btws_file ws) heap levels root).
Proof.
  intros Hh Hnd Hdup Hinc Hsum Hfuel. unfold Build.abtbuild. destruct (decide (heap = [])) as [->|Hne].
  - destruct (spool_sort_run u []) as (l & El & Hp & _); [done|constructor| |]. { intros (i & j & a & b & _ & Hi & _). done. } apply Permutation_nil_r in Hp as ->.
    exists (mk_ws 1 [MetaBlock (mk_meta ABTP_NONE 0 ABTP_NONE 0)]). replace (_abt_spools_heapscan ai index_form_size u []) with (mk_build false [] None 0) by (by destruct u). rewrite (empty_run fuel u dd El). done.
  - assert (Hrun : exists ws levels root, _abt_leafbuild rel ai index_form_size agg_map_val agg_map_fn fillfactor inskey performsort fuel u dd (_abt_spools_heapscan ai index_form_size u heap) = BOk ws /\
      built_index (btws_file ws) heap levels root).
    { destruct u.
      - rewrite heapscan_unique. pose proof (live_dead heap) as Hld. assert (Hl : Forall heap_ok (live heap)) by (rewrite <- Hld in Hh; by apply Forall_app in Hh as [? _]).
        destruct (decide (dead heap = [])) as [Hd|Hd].
        + apply (leafbuild_run fuel true dd heap (live heap) None); try done; [by rewrite <- Hd|]. rewrite conflict_duplicates by done. by apply Hdup.
        + apply (leafbuild_run fuel true dd heap (live heap) (Some (dead heap))); try done. rewrite conflict_duplicates by done. by apply Hdup.
      - rewrite heapscan_plain. apply (leafbuild_run fuel false dd heap heap None); try done; [by rewrite app_nil_r|apply plain_conflict]. }
    destruct Hrun as (ws & levels & root & Hrun & Hix). exists ws. rewrite Hrun. cbn [bbind]. split; [by destruct u; rewrite ?heapscan_unique, ?heapscan_plain|]. split; [done|]. intros _. by exists levels, root.
Qed.

Lemma build_duplicates fuel dd heap : Forall heap_ok heap -> duplicates (live heap) -> abtbuild fuel true dd heap = BError DuplicateKey.
Proof.
  intros Hh Hd. assert (Hl : Forall heap_ok (live heap)) by (rewrite <- (live_dead heap) in Hh; by apply Forall_app in Hh as [? _]).
  unfold Build.abtbuild. rewrite heapscan_unique. unfold _abt_leafbuild. cbn [bs_spool bs_spool2]. rewrite (proj2 (ts_error true (spool <$> live heap) Hrel ltac:(by apply Forall_fmap; eapply Forall_impl; [exact Hl|]; intros h; apply heap_sortable))); [done|]. by apply conflict_duplicates.
Qed.

(** ** Rows that are too large *)

Lemma buildadd_checks fuel ws s next it x ws' states' : buildadd rel ai index_form_size agg_map_val agg_map_fn fillfactor inskey fuel ws (s :: next) it x = BOk (ws', states') ->
  size_allowed ai (abtps_level s =? 0) (fst it) = true /\ exists s' next', states' = s' :: next' /\ abtps_level s' = abtps_level s.
Proof.
  destruct fuel as [|fuel]; [done|]. cbn [buildadd]. destruct (size_allowed ai (abtps_level s =? 0) (fst it)); [|done]. cbn [negb].
  intros ([[ws1 next1] [[[npage nblkno] last_off] lowkey]] & _ & H)%bbind_ok. apply bbind_ok in H as (agg & _ & H). apply bbind_ok in H as (page & _ & H). injection H as _ <-. split; [done|]. by do 2 eexists.
Qed.

Lemma load_plain_checks l : forall ws states r, (states = [] \/ exists s next, states = s :: next /\ abtps_level s = 0) ->
  load_plain rel ai index_form_size agg_map_val agg_map_fn fillfactor inskey ws states l = BOk r -> Forall (fun t => size_allowed ai true (it_size t) = true) l.
Proof.
  induction l as [|t l IH]; intros ws states r Hs; [constructor|]. cbn [load_plain]. destruct (first_page fillfactor ws states) as [ws1 states1] eqn:E1.
  assert (exists s next, states1 = s :: next /\ abtps_level s = 0) as (s & next & -> & Hl).
  { destruct Hs as [->|(s & next & -> & Hl)]; cbn in E1; injection E1 as _ <-; by do 2 eexists. }
  intros ([ws2 states2] & H1 & H2)%bbind_ok. apply buildadd_checks in H1 as (Hok & s' & next' & -> & Hl'). rewrite Hl in Hok, Hl'. constructor; [exact Hok|]. eapply (IH ws2); [|exact H2]. right. by do 2 eexists.
Qed.

Lemma merge_spools_perm l1 : forall l2 l, merge_spools rel l1 l2 = Some l -> l ≡ₚ l1 ++ l2.
Proof.
  induction l1 as [|a l1 IH1]; intros l2; [by intros l [= <-]|]. induction l2 as [|b l2 IH2]; intros l; cbn [merge_spools]; [intros [= <-]; by rewrite app_nil_r|].
  destruct (load1 rel a b) as [[]|]; cbn [mbind option_bind]; [..|done].
  - intros (k & Hk & ->)%fmap_Some. cbn [app]. by rewrite (IH1 _ _ Hk).
  - intros (k & Hk & ->)%fmap_Some. rewrite (IH2 k Hk). by rewrite <- Permutation_middle.
Qed.

(** A build that does not merge tuples into posting lists succeeds only if all tuples pass
    the size check. *)
Lemma build_checks_sizes fuel u dd heap r : Forall (fun h => Z.of_nat (length (ht_values h)) = rd_natts rel) heap ->
  rd_allequalimage rel && negb u && dd = false -> abtbuild fuel u dd heap = BOk r -> Forall (fun h => size_allowed ai true (it_size (spool h)) = true) heap.
Proof.
  intros Hkeys Hdd (ws & Hleaf & _)%bbind_ok.
  assert (Hso : forall hs, Forall (fun h => Z.of_nat (length (ht_values h)) = rd_natts rel) hs -> Forall (sortable rel) (spool <$> hs)).
  { intros hs H. apply Forall_fmap. eapply Forall_impl; [exact H|]. intros h Hh. split; [|by eexists]. cbn in *. pose proof (rel_natts rel Hrel) as Hn. unfold indnkeyatts in Hn. lia. }
  assert (Hgo : forall hs hs2 n m, hs ++ default [] hs2 ≡ₚ heap -> _abt_leafbuild rel ai index_form_size agg_map_val agg_map_fn fillfactor inskey performsort fuel u dd
      (mk_build n (spool <$> hs) ((fun l : list heap_tuple => spool <$> l) <$> hs2) m) = BOk ws -> Forall (fun h => size_allowed ai true (it_size (spool h)) = true) heap).
  { clear Hleaf. intros hs hs2 n m Hp Hleaf. rewrite <- Hp in Hkeys |- *. apply Forall_app in Hkeys as [Hk1 Hk2].
    unfold _abt_leafbuild in Hleaf. cbn [bs_spool bs_spool2] in Hleaf. apply bbind_ok in Hleaf as (l & Hl & Hleaf). destruct (performsort u (spool <$> hs)) as [l'|] eqn:El; [|done]. injection Hl as <-.
    destruct (ts_sorted u _ l' Hrel (Hso hs Hk1) El) as [Hpl _]. apply bbind_ok in Hleaf as (o2 & Ho2 & Hleaf). unfold Build._abt_load in Hleaf. rewrite Hdd in Hleaf.
    apply bbind_ok in Hleaf as (x & Hload & _). assert (Hall : Forall (fun t => size_allowed ai true (it_size t) = true) (spool <$> (hs ++ default [] hs2))).
    { destruct hs2 as [hs2|]; cbn [fmap option_fmap option_map default] in Ho2, Hk2 |- *.
      - apply bbind_ok in Ho2 as (l2 & Hl2 & [= <-]). destruct (performsort false (spool <$> hs2)) as [l2'|] eqn:El2; [|done]. injection Hl2 as <-. destruct (ts_sorted false _ l2' Hrel (Hso hs2 Hk2) El2) as [Hpl2 _].
        apply bbind_ok in Hload as (k & Hk & Hload). destruct (merge_spools rel l' l2') as [k'|] eqn:Em; [|done]. injection Hk as <-. apply merge_spools_perm in Em. unfold id.
        rewrite fmap_app, <- Hpl, <- Hpl2, <- Em. eapply load_plain_checks; [by left|exact Hload].
      - injection Ho2 as <-. rewrite app_nil_r, <- Hpl. eapply load_plain_checks; [by left|exact Hload]. }
    apply Forall_fmap in Hall. exact Hall. }
  destruct u.
  - rewrite heapscan_unique in Hleaf. destruct (decide (dead heap = [])) as [Hd|Hd].
    + apply (Hgo (live heap) None _ _) in Hleaf; [done|]. rewrite <- Hd. apply live_dead.
    + apply (Hgo (live heap) (Some (dead heap)) _ _) in Hleaf; [done|]. apply live_dead.
  - rewrite heapscan_plain in Hleaf. apply (Hgo heap None _ _) in Hleaf; [done|]. by rewrite app_nil_r.
Qed.

Lemma large_row h : 2688 < index_form_size (ht_values h) < 2 ^ 62 -> size_allowed ai true (it_size (spool h)) = false.
Proof.
  intros Hs. destruct (spaces ai ai0 Hai Htyp) as (_ & He & He8 & Hex). destruct (spaces8 ai ai0 Hai Htyp) as [H8 H16]. destruct (Hform8 (ht_values h)) as [_ Hf8].
  unfold size_allowed, _abt_check_third_page. cbn [negb spooled it_size]. rewrite (max_size ai ai0 Hai Htyp). rewrite (MAXALIGN_id (_ + _)) by (Z.div_mod_to_equations; lia).
  rewrite u64_small by lia. replace (index_form_size (ht_values h) + extra_space_for_nonpivot_tuple ai - extra_space_for_nonpivot_tuple ai) with (index_form_size (ht_values h)) by lia.
  rewrite (proj2 (Z.ltb_lt 2688 _)) by lia. cbn [negb orb]. apply Z.leb_gt.
  destruct (leaf_has_agg ai); [|lia]. pose proof (MAXALIGN_spec (index_form_size (ht_values h) + extra_space_for_nonpivot_tuple ai - extra_space_when_tid_missing ai)) as [? _]. lia.
Qed.

End Index.

(** What the build relies on: the order of the columns, the layout of the tuples, the size
    of a formed tuple, values that are not negative and depend on the key, and columns of
    equal images only without INCLUDE columns (_abt_allequalimage). *)
Record build_setting (rel : index_rel) (ai : agg_info) (index_form_size : list (option Z) -> Z) (agg_map_val : Z) (agg_map_fn : itup -> Z) (inskey : ABTScanInsertData) : Prop := {
  bs_rel : rel_ok rel;
  bs_cols : rd_cols rel <> [];
  bs_key : full_key rel inskey;
  bs_offsets : exists ai0, ai = _abt_compute_tuple_offsets ai0;
  bs_typlen : agg_typlen ai = 2 \/ agg_typlen ai = 4 \/ agg_typlen ai = 8;
  bs_stride : 0 <= agg_stride ai;
  bs_prefix n k : index_form_size (take n k) <= index_form_size k;
  bs_aligned k : 0 <= index_form_size k /\ index_form_size k mod 8 = 0;
  bs_constant : 0 <= agg_map_val;
  bs_function t t' : it_key t = it_key t' -> agg_map_fn t = agg_map_fn t';
  bs_include : rd_allequalimage rel = true -> rd_natts rel = indnkeyatts rel
}.

(** A heap whose rows are within the size limit (the code raises an error otherwise, see
    [build_rejects_large_rows]), whose values are not negative, and whose total value fits
    the type of the aggregate (the code's checked addition raises an error otherwise). *)
Record heap_fits (rel : index_rel) (ai : agg_info) (index_form_size : list (option Z) -> Z) (agg_map_val : Z) (agg_map_fn : itup -> Z) (heap : list heap_tuple) : Prop := {
  hf_tuples : Forall (heap_ok rel ai index_form_size agg_map_fn) heap;
  hf_tids : NoDup (ht_self <$> heap);
  hf_sum : sumZ (heap_value ai index_form_size agg_map_val agg_map_fn <$> heap) < 2 ^ (8 * agg_typlen ai - 1)
}.

(** C4: Building an index of a heap that fits (no row over the size limit, no negative value,
    a total within the type of the aggregate: the code raises errors otherwise) succeeds and
    gives an index of exactly the heap's tuples, unless the index is unique and two live
    tuples have the same key.  With the two spools of live and
    dead tuples merged or without, with equal tuples merged into posting lists or without,
    the file written bottom up is a tree in order (searches and scans find what belongs
    where they look), its leaves hold one entry per heap tuple, every downlink carries the
    exact sum of the values below it, the blocks of the levels are all blocks of the file
    but the meta page, which names the root; the result counts the heap's tuples.  An empty
    heap gives an index without a root. *)
Theorem build_makes_index rel ai index_form_size agg_map_val agg_map_fn fillfactor inskey performsort `{!TupleSort rel performsort} fuel isunique allow_dedup heap :
  build_setting rel ai index_form_size agg_map_val agg_map_fn inskey -> heap_fits rel ai index_form_size agg_map_val agg_map_fn heap ->
  (isunique = true -> ~ duplicates rel (filter (fun h => ht_alive h = true) heap)) -> (length heap < fuel)%nat ->
  exists ws, abtbuild rel ai index_form_size agg_map_val agg_map_fn fillfactor inskey performsort fuel isunique allow_dedup heap = BOk (ws, Z.of_nat (length heap)) /\
    (heap = [] -> btws_file ws = [MetaBlock (mk_meta ABTP_NONE 0 ABTP_NONE 0)]) /\
    (heap <> [] -> exists levels root, built_index rel ai index_form_size agg_map_val agg_map_fn (btws_file ws) heap levels root).
Proof. intros [? ? ? [ai0 ?] ? ? ? ? ? ? ?] [? ? ?] ? ?. by apply (heap_build_run rel ai index_form_size agg_map_val agg_map_fn fillfactor inskey) with ai0. Qed.

(** C22: The build of a unique index fails with the error for a duplicate key exactly if two
    live tuples of the heap have the same key and no NULL in it; dead tuples, which go to a
    second spool, are not compared. *)
Theorem build_rejects_duplicates rel ai index_form_size agg_map_val agg_map_fn fillfactor inskey performsort `{!TupleSort rel performsort} fuel allow_dedup heap :
  build_setting rel ai index_form_size agg_map_val agg_map_fn inskey -> heap_fits rel ai index_form_size agg_map_val agg_map_fn heap -> (length heap < fuel)%nat ->
  abtbuild rel ai index_form_size agg_map_val agg_map_fn fillfactor inskey performsort fuel true allow_dedup heap = BError DuplicateKey <->
  duplicates rel (filter (fun h => ht_alive h = true) heap).
Proof.
  intros [Hrel Hcols Hkey [ai0 Hai] ? ? ? ? ? ? ?] [Hh ? ?] ?. split; [|by eapply build_duplicates].
  intros Herr. set (live := filter (fun h => ht_alive h = true) heap). assert (Hl : Forall (heap_ok rel ai index_form_size agg_map_fn) live) by (rewrite <- (live_dead heap) in Hh; by apply Forall_app in Hh as [? _]).
  assert (Hso : Forall (sortable rel) (spooled ai index_form_size <$> live)) by (apply Forall_fmap; eapply Forall_impl; [exact Hl|]; intros h; by apply heap_sortable).
  apply (conflict_duplicates rel ai index_form_size agg_map_fn Hrel live Hl). destruct (performsort true (spooled ai index_form_size <$> live)) as [l|] eqn:E; [|by apply ts_error].
  destruct (heap_build_run rel ai index_form_size agg_map_val agg_map_fn fillfactor inskey) with (ai0 := ai0) (performsort := performsort) (fuel := fuel) (u := true) (dd := allow_dedup) (heap := heap) as (ws & Hok & _); try done.
  - intros _ Hd. apply (conflict_duplicates rel ai index_form_size agg_map_fn Hrel live Hl) in Hd. apply (ts_error true _ Hrel Hso) in Hd. by rewrite E in Hd.
  - by rewrite Herr in Hok.
Qed.

(** C37: A row larger than a third of a page (2688 bytes without the room for its value and
    xmin) is not indexed: a build that makes no posting lists (of a unique index, without
    equal images or with deduplication off) ends with an error when the heap has such a
    row, whatever the other rows are. *)
Theorem build_rejects_large_rows rel ai index_form_size agg_map_val agg_map_fn fillfactor inskey performsort `{!TupleSort rel performsort} fuel isunique allow_dedup heap h :
  build_setting rel ai index_form_size agg_map_val agg_map_fn inskey -> Forall (fun h => Z.of_nat (length (ht_values h)) = rd_natts rel) heap ->
  rd_allequalimage rel && negb isunique && allow_dedup = false -> h ∈ heap -> 2688 < index_form_size (ht_values h) < 2 ^ 62 ->
  exists e, abtbuild rel ai index_form_size agg_map_val agg_map_fn fillfactor inskey performsort fuel isunique allow_dedup heap = BError e.
Proof.
  intros [Hrel _ _ [ai0 Hai] Htyp _ _ H8 _ _ _] Hkeys Hdd Hin Hlarge.
  destruct (abtbuild rel ai index_form_size agg_map_val agg_map_fn fillfactor inskey performsort fuel isunique allow_dedup heap) as [r|e] eqn:E; [|by exists e]. exfalso.
  assert (Hok : Forall (fun h => size_allowed ai true (it_size (spooled ai index_form_size h)) = true) heap) by (by eapply build_checks_sizes).
  rewrite Forall_forall in Hok. specialize (Hok h Hin). cbv beta in Hok. by rewrite (large_row ai index_form_size ai0 Hai Htyp H8 h Hlarge) in Hok.
Qed.

(** ** Heaps with two tuples of each key, some of them dead *)

Definition demo_agg : agg_info := _abt_compute_tuple_offsets (mk_agg 8 8 true 0 0 0).
Definition demo_form_size (k : list (option Z)) : Z := 8 + 8 * Z.of_nat (length k).
Definition key_value (t : itup) : Z := match it_key t with Some v :: _ => v | _ => 0 end.
Definition demo_heap (n : Z) : list heap_tuple :=
  (fun i => mk_heap (mk_tid (i / 100) (1 + i mod 100)) [Some (100 - i / 2)] (negb (i mod 7 =? 3))) <$> seqZ 0 n.

Lemma demo_setting : build_setting demo_rel demo_agg demo_form_size 1 key_value (demo_key 0 None).
Proof.
  split; try done.
  - apply demo_rel_ok.
  - apply demo_full_key.
  - by exists (mk_agg 8 8 true 0 0 0).
  - by right; right.
  - intros n k. unfold demo_form_size. rewrite length_take. lia.
  - intros k. unfold demo_form_size. split; [lia|]. replace (8 + 8 * Z.of_nat (length k)) with ((1 + Z.of_nat (length k)) * 8) by lia. apply Z.mod_mul. lia.
  - intros t t' H. unfold key_value. by rewrite H.
Qed.

Lemma demo_heap_fits n : n <= 200 -> NoDup (ht_self <$> demo_heap n) -> sumZ (heap_value demo_agg demo_form_size 1 key_value <$> demo_heap n) < 2 ^ 63 ->
  heap_fits demo_rel demo_agg demo_form_size 1 key_value (demo_heap n).
Proof.
  intros Hn Hnd Hs. split; [|done|done]. apply Forall_fmap, Forall_forall. intros i [H0 H1]%elem_of_seqZ. split; [done|done|]. cbn. Z.div_mod_to_equations. lia.
Qed.

Lemma build_makes_index_witness : exists ws,
  abtbuild demo_rel demo_agg demo_form_size 1 key_value 90 (demo_key 0 None) (insertion_sort demo_rel) 201 false true (demo_heap 200) = BOk (ws, 200) /\
  exists levels root, built_index demo_rel demo_agg demo_form_size 1 key_value (btws_file ws) (demo_heap 200) levels root.
Proof.
  destruct (build_makes_index demo_rel demo_agg demo_form_size 1 key_value 90 (demo_key 0 None) (insertion_sort demo_rel) 201 false true (demo_heap 200)) as (ws & Hrun & _ & Hix).
  - apply demo_setting.
  - apply demo_heap_fits; [lia|apply (bool_decide_unpack _); vm_compute; exact I|vm_compute; reflexivity].
  - done.
  - vm_compute. lia.
  - exists ws. split; [exact Hrun|]. apply Hix. vm_compute. discriminate.
Defined.

(** A tuple of one column takes 3000 bytes. *)
Definition wide_form_size (k : list (option Z)) : Z := match k with [] => 8 | _ => 3000 end.

Lemma build_rejects_large_rows_witness : exists e,
  abtbuild demo_rel demo_agg wide_form_size 1 key_value 90 (demo_key 0 None) (insertion_sort demo_rel) 11 false false (demo_heap 2) = BError e.
Proof.
  apply (build_rejects_large_rows demo_rel demo_agg wide_form_size 1 key_value 90 (demo_key 0 None) (insertion_sort demo_rel) 11 false false (demo_heap 2) (mk_heap (mk_tid 0 1) [Some 100] true)).
  - destruct demo_setting. split; try done.
    + intros [|n] [|x k]; simpl; try lia.
    + intros [|x k]; simpl; [done|]. split; [lia|done].
  - vm_compute. repeat constructor.
  - reflexivity.
  - vm_compute. by left.
  - simpl. lia.
Defined.

Lemma build_rejects_duplicates_witness :
  abtbuild demo_rel demo_agg demo_form_size 1 key_value 90 (demo_key 0 None) (insertion_sort demo_rel) 11 true true (demo_heap 10) = BError DuplicateKey.
Proof.
  apply (build_rejects_duplicates demo_rel demo_agg demo_form_size 1 key_value 90 (demo_key 0 None) (insertion_sort demo_rel) 11 true (demo_heap 10)).
  - apply demo_setting.
  - apply demo_heap_fits; [lia|apply (bool_decide_unpack _); vm_compute; exact I|vm_compute; reflexivity].
  - vm_compute. lia.
  - eexists 0%nat, 1%nat, _, _. split; [lia|]. split; [vm_compute; reflexivity|]. split; [vm_compute; reflexivity|]. split; [vm_compute; reflexivity|]. by repeat constructor.
Defined.

End BuildIndex.
