(* ===== verification/BuildScan.v ===== *)
(** * Scanning a new index

    The end of the chain: what abtbuild writes is what abtgettuple reads. *)

From stdpp Require Import base numbers option sorting list.
From S2P Require Import Prelude Tuple Dedup Versions Page Search Truncate Btree ArrayKeys Quals Start Range Scan ScanMatches Build BuildTree BuildOk BuildLoad BuildSort BuildIndex.

Module BuildScan.
Import Tuple Dedup Versions Page Search Truncate Btree Quals Start Range Scan ScanMatches Build BuildTree BuildOk BuildLoad BuildSort BuildIndex.

(** ** Matches *)

Abbreviation entry := (list (option Z) * tid * option Z * option Z)%type.

(** The TID of an entry that satisfies the quals. *)
Definition match_entry (quals : list ScanKey) (e : entry) : list tid := let '(key, x, _, _) := e in if all_sat key quals then [x] else [].

Lemma imap_bind {A B C} (f : nat -> A -> B) (m : B -> list C) (g : A -> list C) l : (forall i x, m (f i x) = g x) -> imap f l ≫= m = l ≫= g.
Proof. intros H. revert f H. induction l as [|x l IH]; intros f H; [done|]. cbn [imap]. rewrite !bind_cons, H. f_equal. apply IH. intros i y. apply H. Qed.

Lemma expand_matches quals t : expand t ≫= match_entry quals = if all_sat (it_key t) quals then it_tids t else [].
Proof.
  unfold expand. rewrite (imap_bind _ _ (fun x => if all_sat (it_key t) quals then [x] else [])) by done. destruct (all_sat (it_key t) quals).
  - induction (it_tids t) as [|x l IH]; [done|]. rewrite bind_cons, IH. done.
  - induction (it_tids t) as [|x l IH]; [done|]. by rewrite bind_cons, IH.
Qed.

(** No line of a new page is dead. *)
Lemma file_pages_live file b p : file_pages file b = Some p -> Forall (fun l => fst l = false) (pg_lines p).
Proof.
  unfold file_pages. destruct (b <? 0); [done|]. destruct (file !! Z.to_nat b) as [[|q|m]|]; intros [= <-]; [constructor| |constructor]. apply Forall_fmap, Forall_true. done.
Qed.

Lemma live_hits ign quals (l : list (bool * index_tuple)) : Forall (fun l => fst l = false) l ->
  hits ign quals l = ((snd <$> l) ≫= fun t => match t with LeafTup t => expand t | PivotTup _ => [] end) ≫= match_entry quals.
Proof.
  induction 1 as [|[d t] l Hd _ IH]; [done|]. cbn [fst] in Hd. subst d. cbn [fmap list_fmap]. change (hits ign quals ((false, t) :: l)) with (hit ign quals (false, t) ++ hits ign quals l).
  rewrite IH, !bind_cons, bind_app. f_equal. unfold hit. cbn [snd fst]. destruct t as [t|]; [|done]. by rewrite andb_false_r, expand_matches.
Qed.

Lemma page_hits ign dir file quals b : hits ign quals (lines_of dir (file_pages file) b) ≡ₚ page_entries (file_pages file) b ≫= match_entry quals.
Proof.
  unfold lines_of, page_entries. destruct (file_pages file b) as [p|] eqn:Hp; [|done].
  assert (Hl : Forall (fun l => fst l = false) (data_lines p)) by (apply Forall_drop; by eapply file_pages_live).
  rewrite <- lines_items, <- (live_hits ign quals (data_lines p) Hl). unfold scan_lines, hits. destruct (ScanDirectionIsForward dir); [done|]. by rewrite reverse_Permutation.
Qed.

Lemma bind_permutation {A B} (f g : A -> list B) l : (forall a, f a ≡ₚ g a) -> l ≫= f ≡ₚ l ≫= g.
Proof. intros H. induction l as [|a l IH]; [done|]. by rewrite !bind_cons, H, IH. Qed.

Lemma scan_result_entries ign dir file blks quals : scan_result ign dir (file_pages file) blks quals ≡ₚ (blks ≫= page_entries (file_pages file)) ≫= match_entry quals.
Proof.
  unfold scan_result. rewrite (bind_permutation _ (fun b => page_entries (file_pages file) b ≫= match_entry quals)) by (intros b; apply page_hits).
  rewrite bind_bind. unfold scan_pages. destruct (ScanDirectionIsForward dir); [done|]. by rewrite reverse_Permutation.
Qed.

(** The TIDs of the heap tuples that satisfy the quals. *)
Definition heap_matches (quals : list ScanKey) (heap : list heap_tuple) : list tid := ht_self <$> filter (fun h => all_sat (ht_values h) quals = true) heap.

Lemma heap_matches_entries ai form fn quals heap : (heap_entry ai form fn <$> heap) ≫= match_entry quals = heap_matches quals heap.
Proof.
  unfold heap_matches. induction heap as [|h heap IH]; [done|]. cbn [fmap list_fmap]. rewrite bind_cons, IH, filter_cons. cbn [heap_entry match_entry]. unfold match_entry, heap_entry.
  destruct (all_sat (ht_values h) quals); [by rewrite decide_True|by rewrite decide_False].
Qed.

Lemma heap_matches_length quals heap : (length (heap_matches quals heap) <= length heap)%nat.
Proof. unfold heap_matches. rewrite length_fmap. apply length_filter. Qed.

(** ** The width and the height of the tree *)

Lemma join_length {A} (ls : list (list A)) l : l ∈ ls -> (length l <= length (mjoin ls))%nat.
Proof.
  induction ls as [|k ls IH]; [by intros ?%elem_of_nil|]. intros Hl. change (mjoin (k :: ls)) with (k ++ mjoin ls). rewrite length_app. apply elem_of_cons in Hl as [->|Hl]; [lia|]. specialize (IH Hl). lia.
Qed.
Lemma join_height {A} (ls : list (list A)) : Forall (fun l => l <> []) ls -> (length ls <= length (mjoin ls))%nat.
Proof. induction 1 as [|l ls Hl _ IH]; [done|]. change (mjoin (l :: ls)) with (l ++ mjoin ls). rewrite length_app. destruct l; [done|]. simpl. lia. Qed.

Section Scan.
Context (rel : index_rel) (indoption : list Z) (opcintype : Z -> Z) (opfamily : Z -> Z -> Z -> Z -> option (Z -> Z -> Z)).
Context (cmp : Z -> Z * Z -> Z * Z -> Z) `{!OpFamily opfamily cmp}.
Context (procinfo : Z -> Z -> Z -> Z) (opfamily_proc : Z -> Z -> option (Z -> Z -> Z)) `{!OrderProcs opcintype procinfo opfamily_proc cmp}.
Context (ai : agg_info) (index_form_size : list (option Z) -> Z) (agg_map_val : Z) (agg_map_fn : itup -> Z).

(** Quals with arguments of the columns' types, sorted by column. *)
Record quals_ok (quals : list ScanKey) : Prop := {
  qo_columns : columns_match rel indoption procinfo;
  qo_quals : Forall (raw_key indoption opcintype cmp) quals;
  qo_sorted : Sorted Z.le (attno_of <$> quals);
  qo_plain out : _abt_preprocess_keys indoption opcintype opfamily quals = Val (true, out) -> Forall (plain_key opcintype procinfo) out
}.

Lemma index_scan file heap levels root quals ign drop_pin dir so n fuel h : rel_ok rel ->
  built_index rel ai index_form_size agg_map_val agg_map_fn file heap levels root -> Z.of_nat (length file) < InvalidBlockNumber -> quals_ok quals ->
  ABTScanPosIsValid (so_currPos so) = false -> pos_buf (so_currPos so) = None -> Z.of_nat (length (items (so_currPos so))) = MaxTIDsPerABTreePage ->
  (2 * length file < fuel)%nat -> (length heap < n)%nat ->
  exists meta so' l c', file !! 0%nat = Some (MetaBlock meta) /\
    fetch_all rel indoption opcintype opfamily procinfo opfamily_proc meta (file_pages file) ign drop_pin dir n fuel quals so (mk_bs h None) = Ok (so', l) (mk_bs h c') /\
    l ≡ₚ heap_matches quals heap.
Proof.
  intros Hrel [Hm Ht Hr He (blks & Hb & Hent & Hch) _ _ Hbl] Hsm [Q1 Q2 Q3 Q4] Hval Hbuf Hits Hf Hn.
  assert (Hl0 : (0 < length file)%nat) by (apply lookup_lt_Some in Hm; lia). assert (Hjoin : length (mjoin levels) = (length file - 1)%nat) by (rewrite Hbl, length_seqZ; lia).
  pose proof (scan_result_entries ign dir file blks quals) as Hres. rewrite Hent, heap_matches_entries in Hres. pose proof (heap_matches_length quals heap) as Hlen.
  set (meta := mk_meta root (Z.of_nat (length levels - 1)) root (Z.of_nat (length levels - 1))) in *.
  destruct (fetch_matches rel indoption opcintype opfamily cmp procinfo opfamily_proc meta (file_pages file) ign drop_pin levels blks (length levels - 1) root (length file) quals dir so n fuel h None) as (so' & c' & Hrun & _); try done.
  - split; try done; [by apply Hr; left| |by apply Hch]. intros k bs Hk. apply list_elem_of_lookup_2, join_length in Hk. lia.
  - assert (length levels <= length (mjoin levels))%nat; [|lia]. apply join_height, Forall_forall. intros l [i Hi]%list_elem_of_lookup_1. by destruct (to_level _ _ _ Ht i l Hi).
  - rewrite Hres. lia.
  - exists meta, so', (scan_result ign dir (file_pages file) blks quals), c'. done.
Qed.

End Scan.

(** C6: What a build puts into an index, scans find there.  After abtbuild has written the
    index of a heap, fetching with abtgettuple until the end, in either direction, returns
    the TIDs of exactly the heap tuples that satisfy the quals, each once. *)
Theorem build_then_scan rel indoption opcintype opfamily cmp `{!OpFamily opfamily cmp} procinfo opfamily_proc `{!OrderProcs opcintype procinfo opfamily_proc cmp}
    ai index_form_size agg_map_val agg_map_fn fillfactor inskey performsort `{!TupleSort rel performsort} fuel isunique allow_dedup heap ws ntuples quals ign drop_pin dir so calls steps :
  build_setting rel ai index_form_size agg_map_val agg_map_fn inskey -> heap_fits rel ai index_form_size agg_map_val agg_map_fn heap -> heap <> [] -> (length heap < fuel)%nat ->
  abtbuild rel ai index_form_size agg_map_val agg_map_fn fillfactor inskey performsort fuel isunique allow_dedup heap = BOk (ws, ntuples) ->
  Z.of_nat (length (btws_file ws)) < InvalidBlockNumber -> quals_ok rel indoption opcintype opfamily cmp procinfo quals ->
  ABTScanPosIsValid (so_currPos so) = false -> pos_buf (so_currPos so) = None -> Z.of_nat (length (items (so_currPos so))) = MaxTIDsPerABTreePage ->
  (2 * length (btws_file ws) < steps)%nat -> (length heap < calls)%nat ->
  exists meta so' l c', btws_file ws !! 0%nat = Some (MetaBlock meta) /\
    fetch_all rel indoption opcintype opfamily procinfo opfamily_proc meta (file_pages (btws_file ws)) ign drop_pin dir calls steps quals so (mk_bs [] None) = Ok (so', l) (mk_bs [] c') /\
    l ≡ₚ heap_matches quals heap.
Proof.
  intros [Hrel Hcols Hkey [ai0 Hai] ? ? ? ? ? ? ?] [? ? ?] Hne Hfuel Hrun Hsm Hq Hval Hbuf Hits Hst Hca.
  destruct (heap_build_run rel ai index_form_size agg_map_val agg_map_fn fillfactor inskey) with (ai0 := ai0) (performsort := performsort) (fuel := fuel) (u := isunique) (dd := allow_dedup) (heap := heap) as (ws' & Hok & _ & Hix); try done.
  { intros -> Hd. by rewrite (build_duplicates rel ai index_form_size agg_map_val agg_map_fn fillfactor inskey) with (performsort := performsort) in Hrun. }
  rewrite Hrun in Hok. injection Hok as <- _. destruct (Hix Hne) as (levels & root & Hbi). by eapply index_scan.
Qed.

(** ** A scan of such an index *)

Definition demo_file : ABTWriteState :=
  match abtbuild demo_rel demo_agg demo_form_size 1 key_value 90 (demo_key 0 None) (insertion_sort demo_rel) 201 false true (demo_heap 200) with BOk (ws, _) => ws | BError _ => mk_ws 0 [] end.

Lemma build_then_scan_witness : exists meta so' l c', btws_file demo_file !! 0%nat = Some (MetaBlock meta) /\
  fetch_all demo_rel range_options demo_type demo_family demo_procinfo demo_proc meta (file_pages (btws_file demo_file)) true true Backward 201 20 scan_quals new_scan (mk_bs [] None) = Ok (so', l) (mk_bs [] c') /\
  l ≡ₚ heap_matches scan_quals (demo_heap 200).
Proof.
  apply (build_then_scan demo_rel range_options demo_type demo_family demo_cmp demo_procinfo demo_proc demo_agg demo_form_size 1 key_value 90 (demo_key 0 None) (insertion_sort demo_rel) 201 false true (demo_heap 200) demo_file 200).
  - apply demo_setting.
  - apply demo_heap_fits; [lia|apply (bool_decide_unpack _); vm_compute; exact I|vm_compute; reflexivity].
  - vm_compute. discriminate.
  - vm_compute. lia.
  - vm_compute. reflexivity.
  - vm_compute. reflexivity.
  - split.
    + split; [done|]. intros [|[|i]] c [= <-]. done.
    + do 2 (apply Forall_cons; split; [apply demo_raw_key; simpl; lia|]). constructor.
    + do 2 (apply Sorted_cons; [|first [apply HdRel_cons; done|apply HdRel_nil]]). apply Sorted_nil.
    + intros out H. vm_compute in H. injection H as <-. by repeat (apply Forall_cons; split; [split; [done|by right]|]).
  - reflexivity.
  - reflexivity.
  - vm_compute. reflexivity.
  - vm_compute. lia.
  - vm_compute. lia.
Defined.

End BuildScan.
