(* ===== verification/Float8.v ===== *)
(** * float8 arithmetic and sample statistics

    The approximate aggregates of src/aqp_pgext compute with C doubles.  Their code is
    modelled over the class [Float8] of the operations it uses.  The instance
    [double_float8] is the arithmetic of the C code, IEEE 754 binary64; the instance
    [exact_float8] is the same code on rational numbers, without rounding, on which the
    statistical theorems are stated.  [sum], [mean] and [sxx] are the quantities the
    code means to maintain: the sum, the mean and the sum of the squared distances to
    the mean. *)

From Stdlib Require Import SpecFloat Qcanon Field.
From stdpp Require Import base numbers list.
From S2P Require Import Prelude Double.

Declare Scope float8_scope.
Delimit Scope float8_scope with f8.

Module Float8.
Import Double.

Class Float8 (F : Type) := {
  f_of_Z : Z -> F;
  fadd : F -> F -> F;
  fsub : F -> F -> F;
  fmul : F -> F -> F;
  fdiv : F -> F -> F;
  fopp : F -> F;
  flt : F -> F -> bool;
  fle : F -> F -> bool;
  feq : F -> F -> bool;
  fisinf : F -> bool;
  fisnan : F -> bool;
  fnan : F;
  finf : F;
  f_literal : Z -> Z -> F
}.

Infix "+" := fadd : float8_scope.
Infix "-" := fsub : float8_scope.
Infix "*" := fmul : float8_scope.
Infix "/" := fdiv : float8_scope.

(** The literal m * 10^-e: the double nearest to it.  The quotient has at least 64 bits
    and a sticky bit, so that rounding it rounds the literal. *)
Definition double_literal (m e : Z) : double :=
  let k := Z.max 0 (64 + Z.log2 (10 ^ e) - Z.log2 (Z.abs m)) in
  let n := Z.abs m * 2 ^ k in
  let q := 2 * (n / 10 ^ e) + (if n mod 10 ^ e =? 0 then 0 else 1) in
  binary_normalize 53 1024 (if m <? 0 then - q else q) (- k - 1) (m <? 0).

(** The bits of a double (Float8GetDatum). *)
Definition Float8GetDatum (x : double) : Z :=
  let sign (s : bool) := if s then 2 ^ 63 else 0 in
  match x with
  | S754_zero s => sign s
  | S754_infinity s => sign s + 0x7ff * 2 ^ 52
  | S754_nan => 0x7ff8 * 2 ^ 48
  | S754_finite s m e => sign s + (if Z.pos m <? 2 ^ 52 then Z.pos m else (e + 1075) * 2 ^ 52 + (Z.pos m - 2 ^ 52))
  end.

Example literal_tenth : double_literal 1 1 = S754_finite false 7205759403792794 (-56) /\ double_literal (-25) 1 = S754_finite true 5629499534213120 (-51).
Proof. by vm_compute. Qed.

Example datum_one : Float8GetDatum (double_of_Z 1) = 0x3ff0000000000000 /\ Float8GetDatum (double_of_Z 100) = 0x4059000000000000.
Proof. by vm_compute. Qed.

(** The arithmetic of the machine. *)
#[export] Instance double_float8 : Float8 double := {
  f_of_Z := double_of_Z;
  fadd := dadd;
  fsub := dsub;
  fmul := dmul;
  fdiv := ddiv;
  fopp := SFopp;
  flt := SFltb;
  fle := SFleb;
  feq := SFeqb;
  fisinf x := match x with S754_infinity _ => true | _ => false end;
  fisnan x := match x with S754_nan => true | _ => false end;
  fnan := S754_nan;
  finf := get_float8_infinity;
  f_literal := double_literal
}.

Definition qc_leb (x y : Qc) : bool := bool_decide (x <= y)%Qc.
Definition qc_ltb (x y : Qc) : bool := bool_decide (x < y)%Qc.
Definition qc_eqb (x y : Qc) : bool := bool_decide (x = y).

(** Exact arithmetic: no rounding, no infinities. *)
#[export] Instance exact_float8 : Float8 Qc := {
  f_of_Z := Qc_of_Z;
  fadd := Qcplus;
  fsub := Qcminus;
  fmul := Qcmult;
  fdiv := Qcdiv;
  fopp := Qcopp;
  flt := qc_ltb;
  fle := qc_leb;
  feq := qc_eqb;
  fisinf _ := false;
  fisnan _ := false;
  fnan := 0%Qc;
  finf := 0%Qc;
  f_literal m e := (Qc_of_Z m / Qc_of_Z (10 ^ e))%Qc
}.

(** ** Exact statistics *)

Local Open Scope Qc_scope.

(** The number a finite double stands for. *)
Definition Qc_of_double (x : double) : Qc :=
  match x with
  | S754_finite s m e =>
      let m := if s then Z.neg m else Z.pos m in
      if (0 <=? e)%Z then Qc_of_Z (m * 2 ^ e) else Qc_of_Z m / Qc_of_Z (2 ^ (- e))
  | _ => 0
  end.

Abbreviation ofZ := Qc_of_Z.
Abbreviation len l := (ofZ (Z.of_nat (length l))).

Definition sum (l : list Qc) : Qc := foldr Qcplus 0 l.
Definition squares (l : list Qc) : Qc := sum ((fun x => x * x) <$> l).
Definition mean (l : list Qc) : Qc := sum l / len l.
(** The sum of the squared distances to the mean. *)
Definition sxx (l : list Qc) : Qc := sum ((fun x => (x - mean l) * (x - mean l)) <$> l).

Lemma sum_nil : sum [] = 0.
Proof. done. Qed.

Lemma sum_cons x l : sum (x :: l) = x + sum l.
Proof. done. Qed.

Lemma sum_app l1 l2 : sum (l1 ++ l2) = sum l1 + sum l2.
Proof. induction l1 as [|x l1 IH]; cbn [app]; [rewrite sum_nil; ring|]. rewrite !sum_cons, IH. ring. Qed.

Lemma sum_snoc l x : sum (l ++ [x]) = sum l + x.
Proof. rewrite sum_app, sum_cons, sum_nil. ring. Qed.

Lemma squares_snoc l x : squares (l ++ [x]) = squares l + x * x.
Proof. unfold squares. rewrite fmap_app. cbn [fmap list_fmap]. by rewrite sum_snoc. Qed.

Lemma ofZ_nonzero z : (z <> 0)%Z -> ofZ z <> 0.
Proof. intros Hz H. rewrite <- Z2Qc_inj_0 in H. by apply Z2Qc_inj in H. Qed.

(** Integers below 2^53 are doubles. *)
Lemma Qc_of_double_of_Z n : (0 < n < 2 ^ 53)%Z -> Qc_of_double (double_of_Z n) = ofZ n.
Proof.
  intros Hn. destruct (double_of_Z_small n Hn) as (ed & He & Hm & ->). cbn [Qc_of_double]. rewrite Z2Pos.id by lia. destruct (Z.leb_spec 0 ed) as [H|H].
  - assert (ed = 0)%Z as -> by lia. f_equal. change (2 ^ (- 0))%Z with 1%Z. change (2 ^ 0)%Z with 1%Z. lia.
  - rewrite Z2Qc_inj_mul. pose proof (ofZ_nonzero (2 ^ (- ed)) ltac:(apply Z.pow_nonzero; lia)). field. done.
Qed.

Lemma len_nonzero {A} (l : list A) : l <> [] -> len l <> 0.
Proof. intros H. apply ofZ_nonzero. destruct l; [done|cbn [length]; lia]. Qed.

Lemma len_snoc {A} (l : list A) x : len (l ++ [x]) = len l + 1.
Proof. rewrite length_app, Nat2Z.inj_add, Z2Qc_inj_add. by rewrite <- Z2Qc_inj_1. Qed.

Lemma sum_squares_about l m : sum ((fun x => (x - m) * (x - m)) <$> l) = squares l - (1 + 1) * m * sum l + len l * (m * m).
Proof.
  induction l as [|x l IH]; [cbn [fmap list_fmap length]; unfold squares; cbn [fmap list_fmap]; rewrite sum_nil; change (Z.of_nat 0) with 0%Z; rewrite Z2Qc_inj_0; ring|].
  rewrite fmap_cons, !sum_cons, IH. unfold squares. rewrite fmap_cons, sum_cons.
  cbn [length]. rewrite Nat2Z.inj_succ, <- Z.add_1_r, Z2Qc_inj_add, Z2Qc_inj_1. ring.
Qed.

Lemma sxx_squares l : l <> [] -> sxx l = squares l - sum l * sum l / len l.
Proof. intros Hl. unfold sxx. rewrite sum_squares_about. unfold mean. pose proof (len_nonzero l Hl). field. done. Qed.

Lemma mean_snoc l x : mean (l ++ [x]) = (len l * mean l + x) / len (l ++ [x]).
Proof.
  unfold mean. rewrite sum_snoc. destruct l as [|y l]; [cbn [app length]; change (Z.of_nat 0) with 0%Z; rewrite Z2Qc_inj_0, sum_nil; f_equal; ring|].
  pose proof (len_nonzero (y :: l) ltac:(done)). rewrite Qcmult_div_r by done. done.
Qed.

Lemma sxx_snoc l x : l <> [] -> sxx (l ++ [x]) = sxx l + len l / len (l ++ [x]) * ((x - mean l) * (x - mean l)).
Proof.
  intros Hl. rewrite !sxx_squares by (by destruct l). rewrite squares_snoc, sum_snoc. pose proof (len_nonzero l Hl). pose proof (len_nonzero (l ++ [x]) ltac:(by destruct l)) as H'.
  rewrite len_snoc in *. unfold mean. field. done.
Qed.

Lemma sxx_singleton x : sxx [x] = 0.
Proof.
  rewrite sxx_squares by done. unfold squares. rewrite fmap_cons, fmap_nil, !sum_cons, sum_nil. cbn [length]. change (Z.of_nat 1) with 1%Z. rewrite Z2Qc_inj_1. field. done.
Qed.

Lemma mean_nil : mean [] = 0.
Proof. unfold mean, Qcdiv. rewrite sum_nil. apply Qcmult_0_l. Qed.

Lemma sum_zeros k : sum (replicate k 0) = 0.
Proof. induction k as [|k IH]; [done|]. cbn [replicate]. rewrite sum_cons, IH. ring. Qed.

Lemma squares_zeros k : squares (replicate k 0) = 0.
Proof. unfold squares. rewrite fmap_replicate. replace (0 * 0) with 0 by ring. apply sum_zeros. Qed.

(** Zeros for [k] rejected values. *)
Lemma sxx_zeros l k : l <> [] -> (0 < k)%nat ->
  sxx (l ++ replicate k 0) = sxx l + len l * ofZ (Z.of_nat k) / len (l ++ replicate k 0) * (mean l * mean l).
Proof.
  intros Hl Hk. assert (Hne : l ++ replicate k 0 <> []) by (by destruct l). rewrite !sxx_squares by done. unfold squares. rewrite fmap_app, !sum_app. fold (squares l) (squares (replicate k 0)).
  rewrite squares_zeros, sum_zeros. pose proof (len_nonzero l Hl). pose proof (len_nonzero _ Hne) as H'. rewrite length_app, length_replicate, Nat2Z.inj_add, Z2Qc_inj_add in *. unfold mean. field. by split.
Qed.

(** The variance of the mean, as estimated from the sample. *)
Definition var_of_mean (l : list Qc) : Qc := sxx l / (len l * (len l - 1)).

Lemma var_snoc l x : (1 < length l)%nat ->
  var_of_mean (l ++ [x]) = (x - mean l) * (x - mean l) / (len (l ++ [x]) * len (l ++ [x])) + (len l - 1) / len (l ++ [x]) * var_of_mean l.
Proof.
  intros Hl. assert (Hne : l <> []) by (by intros ->; simpl in Hl; lia). unfold var_of_mean. rewrite sxx_snoc by done. pose proof (len_nonzero l Hne) as H0.
  pose proof (len_nonzero (l ++ [x]) ltac:(by destruct l)) as H1. rewrite len_snoc in *.
  assert (H2 : len l - 1 <> 0). { rewrite <- Z2Qc_inj_1, <- Z2Qc_inj_sub. apply ofZ_nonzero. lia. }
  assert (H3 : len l + 1 - 1 <> 0) by (by replace (len l + 1 - 1) with (len l) by ring). field. by repeat split.
Qed.

Lemma var_pair x y : var_of_mean [x; y] = (y - x) * (y - x) / (ofZ 2 * ofZ 2).
Proof.
  unfold var_of_mean. change [x; y] with ([x] ++ [y]). rewrite sxx_snoc, sxx_singleton by done. unfold mean. rewrite sum_cons, sum_nil. cbn [app length]. change (Z.of_nat 2) with 2%Z. change (Z.of_nat 1) with 1%Z.
  rewrite Z2Qc_inj_1, Z2Qc_inj_2. field. by vm_compute.
Qed.

End Float8.
