(* ===== verification/Pagg.v ===== *)
(** * Progressive aggregation (src/aqp_pgext/aqp_pagg.c, aqp_pagg.h, aqp_math.c)

    approx_sum and approx_count estimate an aggregate from samples.  A sampled value
    divided by its probability is accumulated into the mean and the variance of its
    partition ([aqp_approx_sum_internal_accum]); [aqp_approx_sum_transstate_finalize]
    adds the rejected samples as zeros when a partition is complete and combines the
    partitions of a phase and the phases.  In the first phase of a progressive scan the
    values are recorded with their keys instead, and the same function divides the sorted
    keys into intervals with the statistics of every prefix.
    [aqp_pswr_cap_allocation_to_remaining_budget] fits the sample sizes of the partitions
    into the sample budget.  The older implementation accumulates with PostgreSQL's
    float8_accum and computes the confidence interval in [aqp_clt_half_ci_finalfunc].

    The code is modelled over a [Float8] arithmetic.  Arrays are lists, [None] is an
    access outside an array or an elog(ERROR).  The fields of the C structs are grouped into records by
    the functions that use them; fields that only other code uses are left out. *)

From Stdlib Require Import SpecFloat Qcanon Field.
From stdpp Require Import base numbers option sorting list.
From S2P Require Import Prelude Double Float8.

Module Pagg.
Import Double Float8.
Local Open Scope Z_scope.

Definition aget {A} (l : list A) (i : Z) : option A := if 0 <=? i then l !! Z.to_nat i else None.
Definition aset {A} (l : list A) (i : Z) (x : A) : option (list A) :=
  if (0 <=? i) && (Z.to_nat i <? length l)%nat then Some (<[Z.to_nat i := x]> l) else None.

Definition AQP_APPROX_AGG_TRANSFLAG_WANT_STATISTICS : Z := 1.
Definition AQP_APPROX_AGG_TRANSFLAG_FINALIZED : Z := 2.
Definition AQP_INTERNAL_PAGE_STATISTICS : Z := 3.
Definition AQP_LEAF_PAGE_STATISTICS : Z := 4.
Definition AQP_OPTIMIZATION_STRATEGY_DP : Z := 1.
Definition AQP_OPTIMIZATION_STRATEGY_OPT_STRAT : Z := 2.
Definition AQP_OPTIMIZATION_STRATEGY_EQUAL_STRAT : Z := 3.

(** The settings the functions read. *)
Record settings := mk_settings {
  aqp_batch_sampling : bool;
  aqp_batch_sampling_dp : bool;
  aqp_pswr_tree : bool;
  aqp_optimization_strategy : Z;
  aqp_dp_intervals_count : Z
}.

(** ** Data *)

Record AQPPrefixStats (F : Type) := mk_ps { ps_key : Z; ps_m : Z; ps_mu : F; ps_var : F; ps_h : Z }.
Arguments mk_ps {F}.
Arguments ps_key {F}.
Arguments ps_m {F}.
Arguments ps_mu {F}.
Arguments ps_var {F}.
Arguments ps_h {F}.

Record AQPTableSamplerCtlData (F : Type) := mk_sampler { sc_inv_prob : F; sc_num_samples_fetched : Z }.
Arguments mk_sampler {F}.
Arguments sc_inv_prob {F}.
Arguments sc_num_samples_fetched {F}.

(** What the sampler and the aggregate share (AQPPSWRCtlInfoData); a recorded pair is
    the partition key of a sample and its value. *)
Record AQPPSWRCtlInfoData (F : Type) := mk_info {
  rejected : bool;
  inv_prob : F;
  sampler_ctl : option (list (AQPTableSamplerCtlData F));
  num_samples_fetched : Z;
  want_partition_key : bool;
  next_kv_idx : Z;
  recorded_kv_pairs : list (Z * F);
  samples_height : list Z
}.
Arguments mk_info {F}.
Arguments rejected {F}.
Arguments inv_prob {F}.
Arguments sampler_ctl {F}.
Arguments num_samples_fetched {F}.
Arguments want_partition_key {F}.
Arguments next_kv_idx {F}.
Arguments recorded_kv_pairs {F}.
Arguments samples_height {F}.

Record AQPPSWRControlState (F : Type) := mk_ctl {
  do_pswr : bool;
  ctl_grouped : bool;
  do_switch_to_uniform : bool;
  cur_phase : Z;
  cur_phase_n_partitions : Z;
  cur_partition : Z;
  cur_phase_sample_size : Z;
  initial_phase_sample_size : Z;
  initial_and_uniform_sample_size : Z;
  total_samples_fetched : Z;
  tree_level : Z;
  continue_descent : Z;
  nintvls : Z;
  prefix_stats : list (AQPPrefixStats F);
  prefix_keys : list Z
}.
Arguments mk_ctl {F}.
Arguments do_pswr {F}.
Arguments ctl_grouped {F}.
Arguments do_switch_to_uniform {F}.
Arguments cur_phase {F}.
Arguments cur_phase_n_partitions {F}.
Arguments cur_partition {F}.
Arguments cur_phase_sample_size {F}.
Arguments initial_phase_sample_size {F}.
Arguments initial_and_uniform_sample_size {F}.
Arguments total_samples_fetched {F}.
Arguments tree_level {F}.
Arguments continue_descent {F}.
Arguments nintvls {F}.
Arguments prefix_stats {F}.
Arguments prefix_keys {F}.

(** The per-partition arrays of a transition state. *)
Record parts (F : Type) := mk_parts { mu_part : list F; var_part : list F; n_part : list Z; height_part : list F; weights : list F }.
Arguments mk_parts {F}.
Arguments mu_part {F}.
Arguments var_part {F}.
Arguments n_part {F}.
Arguments height_part {F}.
Arguments weights {F}.

(** The estimates over phases. *)
Record totals (F : Type) := mk_totals { mu_phase : F; var_phase : F; mu_total : F; var_total : F; var_total_pre : F; height : F }.
Arguments mk_totals {F}.
Arguments mu_phase {F}.
Arguments var_phase {F}.
Arguments mu_total {F}.
Arguments var_total {F}.
Arguments var_total_pre {F}.
Arguments height {F}.

(** The recorded values of a group: value and whether it is set. *)
Record AQPApproxAggTransState (F : Type) := mk_ts {
  flags : Z;
  ts_grouped : bool;
  is_template : bool;
  grouped_kv : option (list (F * bool));
  ts_n : Z;
  ts_mu : F;
  ts_var : F;
  ts_parts : parts F;
  ts_tot : totals F;
  split_idx : Z
}.
Arguments mk_ts {F}.
Arguments flags {F}.
Arguments ts_grouped {F}.
Arguments is_template {F}.
Arguments grouped_kv {F}.
Arguments ts_n {F}.
Arguments ts_mu {F}.
Arguments ts_var {F}.
Arguments ts_parts {F}.
Arguments ts_tot {F}.
Arguments split_idx {F}.

Section Code.
Context {F : Type} `{!Float8 F} (g : settings).
Local Open Scope float8_scope.

Abbreviation TS := (AQPApproxAggTransState F).
Abbreviation Ctl := (AQPPSWRControlState F).
Abbreviation Info := (AQPPSWRCtlInfoData F).
Local Notation "# z" := (f_of_Z z) (at level 9, z at level 9).

Definition set_ts_parts (ts : TS) (p : parts F) : TS :=
  mk_ts (flags ts) (ts_grouped ts) (is_template ts) (grouped_kv ts) (ts_n ts) (ts_mu ts) (ts_var ts) p (ts_tot ts) (split_idx ts).
Definition set_ts_tot (ts : TS) (t : totals F) : TS :=
  mk_ts (flags ts) (ts_grouped ts) (is_template ts) (grouped_kv ts) (ts_n ts) (ts_mu ts) (ts_var ts) (ts_parts ts) t (split_idx ts).
Definition set_ts_stats (ts : TS) (fl n : Z) (mu var : F) (p : parts F) : TS :=
  mk_ts fl (ts_grouped ts) (is_template ts) (grouped_kv ts) n mu var p (ts_tot ts) (split_idx ts).

Definition set_intervals (c : Ctl) (j : Z) (ps : list (AQPPrefixStats F)) (pk : list Z) : Ctl :=
  mk_ctl (do_pswr c) (ctl_grouped c) (do_switch_to_uniform c) (cur_phase c) (cur_phase_n_partitions c) (cur_partition c) (cur_phase_sample_size c)
    (initial_phase_sample_size c) (initial_and_uniform_sample_size c) (total_samples_fetched c) (tree_level c) (continue_descent c) j ps pk.
Definition set_continue_descent (c : Ctl) (d : Z) : Ctl :=
  mk_ctl (do_pswr c) (ctl_grouped c) (do_switch_to_uniform c) (cur_phase c) (cur_phase_n_partitions c) (cur_partition c) (cur_phase_sample_size c)
    (initial_phase_sample_size c) (initial_and_uniform_sample_size c) (total_samples_fetched c) (tree_level c) d (nintvls c) (prefix_stats c) (prefix_keys c).
Definition set_kv (i : Info) (kv : list (Z * F)) : Info :=
  mk_info (rejected i) (inv_prob i) (sampler_ctl i) (num_samples_fetched i) (want_partition_key i) (next_kv_idx i) kv (samples_height i).

Definition zero_parts (k : nat) : parts F :=
  mk_parts (replicate k #0) (replicate k #0) (replicate k 0%Z) (if aqp_pswr_tree g then replicate k #0 else []) [].

(** ** Transition states *)

Definition aqp_approx_sum_transstate_init (c : Ctl) (ts : TS) : TS :=
  mk_ts 0 (ctl_grouped c) true (grouped_kv ts) (ts_n ts) (ts_mu ts) (ts_var ts) (ts_parts ts) (ts_tot ts) (split_idx ts).

Definition aqp_approx_sum_transstate_reset_partition (ts : TS) : TS := set_ts_stats ts (flags ts) 0 #0 #0 (ts_parts ts).

Definition aqp_approx_sum_transstate_reset_phase (ts : TS) : TS :=
  let t := ts_tot ts in set_ts_tot ts (mk_totals #0 #0 (mu_total t) (var_total t) (var_total_pre t) (height t)).

(** The entry of the partition arrays a sample goes to. *)
Definition part_index (c : Ctl) (i : Info) : Z :=
  if do_switch_to_uniform c && negb (want_partition_key i) then 0
  else if negb (do_pswr c) || want_partition_key i || aqp_batch_sampling g then cur_partition c
  else (cur_partition c + 1)%Z.

(** The product of the inverse probabilities of the samplers that drew a sample. *)
Definition joint_inv_prob (i : Info) : F :=
  match sampler_ctl i with
  | None => inv_prob i
  | Some l =>
      let drew := filter (fun s => sc_num_samples_fetched s <> 0) l in
      match drew with [] => inv_prob i | _ => foldl (fun p s => p * sc_inv_prob s) #1 drew end
  end.

(** A group's own copy of the template state. *)
Definition detach_template (c : Ctl) (i : Info) (ts : TS) : TS :=
  if is_template ts && ctl_grouped c then
    let nparts := if do_pswr c && negb (aqp_batch_sampling g) then Z.max 1 (cur_phase_n_partitions c + 1) else 1 in
    let kv := if do_pswr c && want_partition_key i then Some (replicate (Z.to_nat (initial_phase_sample_size c)) (#0, false)) else grouped_kv ts in
    let z := zero_parts (Z.to_nat nparts) in
    mk_ts (flags ts) (ts_grouped ts) false kv (ts_n ts) (ts_mu ts) (ts_var ts)
      (mk_parts (mu_part z) (var_part z) (n_part z) (if aqp_pswr_tree g then height_part z else height_part (ts_parts ts)) (weights (ts_parts ts))) (ts_tot ts) (split_idx ts)
  else ts.

(** One more value in the mean and variance of a partition; n_part is a uint32. *)
Definition add_value (c : Ctl) (leaf : bool) (index : Z) (x : F) (p : parts F) : option (parts F) :=
  n0 ← aget (n_part p) index; mu ← aget (mu_part p) index; var ← aget (var_part p) index;
  let n := u32 (n0 + 1) in
  let tmp := x - mu in
  let var' := if leaf then #0 else tmp * tmp / (#n * #n) + #(u32 (n - 2)) / #n * var in
  let mu' := (#(u32 (n - 1)) * mu + x) / #n in
  ns ← aset (n_part p) index n; mus ← aset (mu_part p) index mu'; vars ← aset (var_part p) index var';
  hs ← (if aqp_pswr_tree g then
      h ← aget (height_part p) index; aset (height_part p) index ((#(u32 (n - 1)) * h + #(tree_level c)) / #n)
    else Some (height_part p));
  Some (mk_parts mus vars ns hs (weights p)).

Definition wants_statistics : bool :=
  (aqp_optimization_strategy g =? AQP_OPTIMIZATION_STRATEGY_DP) || (aqp_optimization_strategy g =? AQP_OPTIMIZATION_STRATEGY_OPT_STRAT).

(** The value of a sample is recorded next to its key. *)
Definition record_value (i : Info) (x : F) (ts : TS) : option (TS * Info) :=
  let idx := u64 (next_kv_idx i - 1) in
  '(k, _) ← aget (recorded_kv_pairs i) idx; kv ← aset (recorded_kv_pairs i) idx (k, x);
  match grouped_kv ts with
  | Some vals =>
      if ts_grouped ts then
        vals ← aset vals idx (x, true);
        Some (mk_ts (flags ts) (ts_grouped ts) (is_template ts) (Some vals) (ts_n ts) (ts_mu ts) (ts_var ts) (ts_parts ts) (ts_tot ts) (split_idx ts), set_kv i kv)
      else Some (ts, set_kv i kv)
  | None => Some (ts, set_kv i kv)
  end.

Definition aqp_approx_sum_internal_accum (c : Ctl) (i : Info) (ts : TS) (arg : F) : option (TS * Info) :=
  let ts := detach_template c i ts in
  if rejected i then Some (ts, i) else
  let x := arg * joint_inv_prob i in
  if (flags ts =? AQP_APPROX_AGG_TRANSFLAG_WANT_STATISTICS) && wants_statistics then record_value i x ts else
  p ← add_value c (flags ts =? AQP_LEAF_PAGE_STATISTICS) (part_index c i) x (ts_parts ts);
  Some (set_ts_stats ts (flags ts) (u32 (ts_n ts + 1)) (ts_mu ts) (ts_var ts) p, i).

Definition aqp_approx_sum_internal_final (ts : TS) : F := mu_total (ts_tot ts).

(** The half width of the confidence interval; sqrt is the C library's. *)
Definition aqp_approx_sum_clt_half_ci_internal_final (erf_inv sqrt : F -> F) (ts : TS) (confidence : F) : F :=
  erf_inv confidence * sqrt (#2 * var_total (ts_tot ts)).

(** ** Statistics of the recorded samples *)

(** The comparison function of the partition key, and qsort with it. *)
Context (comparator : Z -> Z -> Z) (qsort_arg : list (Z * F) -> list (Z * F)).

(** The key-value pairs of a group: samples of other groups count as zeros. *)
Definition group_pairs (ts : TS) (kv : list (Z * F)) : list (Z * F) :=
  match grouped_kv ts with
  | Some vals => imap (fun i kv => (fst kv, match vals !! i with Some (v, true) => v | _ => #0 end)) kv
  | None => kv
  end.

Fixpoint distinct_keys (prev : Z) (kv : list (Z * F)) : Z :=
  match kv with [] => 1 | (k, _) :: kv => ((if (prev =? k)%Z then 0 else 1) + distinct_keys k kv)%Z end.

(** The [i]-th value (from 0) in the statistics of a prefix. *)
Definition add_to_prefix (i : Z) (x : F) (last_key : Z) (q : AQPPrefixStats F) : AQPPrefixStats F :=
  let tmp := x - ps_mu q in
  mk_ps last_key (ps_m q) ((#i * ps_mu q + x) / #(i + 1)%Z) (tmp * tmp / (#(i + 1)%Z * #(i + 1)%Z) + ps_var q * #(i - 1)%Z / #(i + 1)%Z) (ps_h q).

Definition set_ps_key (q : AQPPrefixStats F) (k : Z) : AQPPrefixStats F := mk_ps k (ps_m q) (ps_mu q) (ps_var q) (ps_h q).
Definition set_ps_m (q : AQPPrefixStats F) (m h : Z) : AQPPrefixStats F := mk_ps (ps_key q) m (ps_mu q) (ps_var q) (if aqp_pswr_tree g then h else ps_h q).

(** Close interval [j] before sample [i], whose key is [k]; the next one starts as its
    copy. *)
Definition close_interval (ps : list (AQPPrefixStats F)) (j i k h : Z) : option (list (AQPPrefixStats F)) :=
  q ← aget ps j; ps ← aset ps j (set_ps_key q k);
  ps ← aset ps (j + 1) (set_ps_key q k);
  aset ps j (set_ps_m (set_ps_key q k) i h).

Definition accumulate (ps : list (AQPPrefixStats F)) (j i : Z) (x : F) (last_key : Z) : option (list (AQPPrefixStats F)) :=
  q ← aget ps j; aset ps j (add_to_prefix i x last_key q).

(** The loop of OPT_STRAT: every distinct key is an interval. *)
Fixpoint opt_strat_loop (last_key i prev : Z) (kv : list (Z * F)) (ps : list (AQPPrefixStats F)) (j : Z) : option (list (AQPPrefixStats F) * Z) :=
  match kv with
  | [] => Some (ps, j)
  | (k, x) :: kv =>
      '(ps, j) ← (if (comparator prev k =? 0)%Z then Some (ps, j) else
        q ← aget ps j; ps ← aset ps j (set_ps_key q k); ps ← aset ps (j + 1) (set_ps_key q k);
        ps ← aset ps j (mk_ps k i (ps_mu q) (ps_var q) (ps_h q)); Some (ps, (j + 1)%Z));
      ps ← accumulate ps j i x last_key;
      opt_strat_loop last_key (i + 1) k kv ps j
  end.

(** The loop of EQUAL_STRAT: the bounds of the distinct keys. *)
Fixpoint equal_strat_loop (last_key prev : Z) (kv : list (Z * F)) (pse : list Z) (j : Z) : option (list Z * Z) :=
  match kv with
  | [] => Some (pse, j)
  | (k, _) :: kv =>
      '(pse, j) ← (if (comparator prev k =? 0)%Z then Some (pse, j) else pse ← aset pse j k; Some (pse, (j + 1)%Z));
      pse ← aset pse j last_key;
      equal_strat_loop last_key k kv pse j
  end.

(** The loop of the dynamic program's statistics: [d] distinct keys per interval, one
    more in the first [r], and at least two samples in each. *)
Fixpoint dp_loop (d r last_key i prev : Z) (kv : list (Z * F)) (heights : list Z) (ps : list (AQPPrefixStats F)) (j c tot_height : Z)
  : option (list (AQPPrefixStats F) * Z * Z) :=
  match kv with
  | [] => Some (ps, j, tot_height)
  | (k, x) :: kv =>
      '(ps, j, c) ← (if (comparator prev k =? 0)%Z then Some (ps, j, c) else
        let c := (c + 1)%Z in
        q ← aget ps (j - 1);
        if (1 <? u64 (i - ps_m q))%Z && (d + (if j <=? r then 1 else 0) <? c)%Z then
          ps ← close_interval ps j i k tot_height; Some (ps, (j + 1)%Z, 1)
        else Some (ps, j, c));
      ps ← accumulate ps j i x last_key;
      let tot_height := if aqp_pswr_tree g then u32 (tot_height + default 0 (head heights)) else tot_height in
      dp_loop d r last_key (i + 1) k kv (tail heights) ps j c tot_height
  end.

(** The first two entries before the loop. *)
Definition start_prefix (ps : list (AQPPrefixStats F)) (x0 : F) : option (list (AQPPrefixStats F)) :=
  ps ← aset ps 0 (mk_ps 0 0 #0 #0 0); q ← aget ps 1; aset ps 1 (mk_ps (ps_key q) (ps_m q) x0 #0 (ps_h q)).

(** The interval count and the prefix statistics of at least two sorted samples. *)
Definition opt_strat_stats (kv : list (Z * F)) (ps : list (AQPPrefixStats F)) : option (list (AQPPrefixStats F) * Z) :=
  '(k0, x0) ← head kv; '(last_key, _) ← last kv;
  ps ← start_prefix ps x0;
  '(ps, j) ← opt_strat_loop last_key 1 k0 (tail kv) ps 1;
  q ← aget ps j; ps ← aset ps j (mk_ps (ps_key q) (Z.of_nat (length kv)) (ps_mu q) (ps_var q) (ps_h q));
  Some (ps, j).

Definition equal_strat_keys (kv : list (Z * F)) (pse : list Z) : option (list Z * Z) :=
  '(k0, _) ← head kv; '(last_key, _) ← last kv;
  pse ← aset pse 0 0%Z; equal_strat_loop last_key k0 (tail kv) pse 1.

Definition dp_stats (kv : list (Z * F)) (heights : list Z) (ps : list (AQPPrefixStats F)) : option (list (AQPPrefixStats F) * Z) :=
  '(k0, x0) ← head kv; '(last_key, _) ← last kv;
  let m := distinct_keys k0 (tail kv) in
  let I := aqp_dp_intervals_count g in
  let '(d, r) := if (m <=? I)%Z then (1, 0)%Z else ((m / I), (m mod I))%Z in
  ps ← start_prefix ps x0;
  '(ps, j, h) ← dp_loop d r last_key 1 k0 (tail kv) (tail heights) ps 1 1 (if aqp_pswr_tree g then default 0 (head heights) else 0);
  q ← aget ps j; ps ← aset ps j (set_ps_m q (Z.of_nat (length kv)) h);
  q ← aget ps j; q1 ← aget ps (j - 1);
  if (u64 (ps_m q - ps_m q1) =? 1)%Z then ps ← aset ps (j - 1) q; Some (ps, (j - 1)%Z) else Some (ps, j).

(** The estimate of the first phase, from the statistics of all its samples. *)
Definition stats_to_part (ts : TS) (index n : Z) (q : AQPPrefixStats F) (hs : list F) : option TS :=
  let p := ts_parts ts in
  mus ← aset (mu_part p) index (ps_mu q); vars ← aset (var_part p) index (ps_var q); ns ← aset (n_part p) index (u32 n);
  Some (set_ts_stats ts (flags ts) (u32 n) (ps_mu q) (ps_var q) (mk_parts mus vars ns hs (weights p))).

(** The branch of the finalization on recorded samples.  [datum_value] is a float8 datum
    read as an integer. *)
Definition compute_statistics (datum_value : F -> Z) (c : Ctl) (i : Info) (ts : TS) (index : Z) : option (TS * Ctl * Info) :=
  let ts := set_ts_stats ts 0 (ts_n ts) (ts_mu ts) (ts_var ts) (ts_parts ts) in
  let n := next_kv_idx i in
  if (Z.of_nat (length (recorded_kv_pairs i)) <? n)%Z then None else
  let recorded := take (Z.to_nat n) (recorded_kv_pairs i) in
  let kv := if ctl_grouped c then group_pairs ts recorded else recorded in
  if (n <=? 1)%Z then
    let mu := match kv with (_, x) :: _ => #(datum_value x) | [] => ts_mu ts end in
    Some (set_ts_stats ts 0 (u32 n) mu #0 (ts_parts ts), set_intervals c 0 (prefix_stats c) (prefix_keys c), i)
  else
    let kv := qsort_arg kv in
    let i := if ctl_grouped c then i else set_kv i (kv ++ drop (Z.to_nat n) (recorded_kv_pairs i)) in
    if (aqp_optimization_strategy g =? AQP_OPTIMIZATION_STRATEGY_OPT_STRAT)%Z then
      '(ps, j) ← opt_strat_stats kv (prefix_stats c); q ← aget ps j;
      ts ← stats_to_part ts index n q (height_part (ts_parts ts));
      Some (ts, set_intervals c j ps (prefix_keys c), i)
    else if (aqp_optimization_strategy g =? AQP_OPTIMIZATION_STRATEGY_EQUAL_STRAT)%Z then
      '(pse, j) ← equal_strat_keys kv (prefix_keys c); Some (ts, set_intervals c j (prefix_stats c) pse, i)
    else
      '(ps, j) ← dp_stats kv (samples_height i) (prefix_stats c); q ← aget ps j;
      hs ← (if aqp_pswr_tree g then aset (height_part (ts_parts ts)) index (#(ps_h q) / #(ps_m q)) else Some (height_part (ts_parts ts)));
      ts ← stats_to_part ts index n q hs;
      Some (ts, set_intervals c j ps (prefix_keys c), i).

(** ** The end of a partition *)

(** The [i]-th rejected sample: one more zero. *)
Definition add_zero (leaf : bool) (index np i : Z) (p : parts F) : option (parts F) :=
  mu ← aget (mu_part p) index; var ← aget (var_part p) index; n ← aget (n_part p) index;
  let k := u64 (np + i) in
  let var' := if leaf then #0 else mu * mu / #(u64 (k * k)) + #(u64 (k - 2)) / #k * var in
  let mu' := #(u64 (k - 1)) / #k * mu in
  mus ← aset (mu_part p) index mu'; vars ← aset (var_part p) index var'; ns ← aset (n_part p) index (u32 (n + 1));
  hs ← (if aqp_pswr_tree g then h ← aget (height_part p) index; aset (height_part p) index (#(u64 (k - 1)) / #k * h) else Some (height_part p));
  Some (mk_parts mus vars ns hs (weights p)).

Fixpoint add_zeros (leaf : bool) (index np i : Z) (count : nat) (p : parts F) : option (parts F) :=
  match count with O => Some p | S count => p ← add_zero leaf index np i p; add_zeros leaf index np (i + 1) count p end.

(** The partition in the estimate of its phase. *)
Definition add_partition (c : Ctl) (index : Z) (ts : TS) : option (TS * Ctl) :=
  if do_switch_to_uniform c && (index =? 0)%Z then Some (ts, c) else
  let p := ts_parts ts in let t := ts_tot ts in
  mu ← aget (mu_part p) index; var ← aget (var_part p) index;
  if (continue_descent c =? 1)%Z || (continue_descent c =? 2)%Z then
    w ← aget (weights p) (split_idx ts); ws ← aset (weights p) index w;
    Some (set_ts_tot (set_ts_parts ts (mk_parts (mu_part p) (var_part p) (n_part p) (height_part p) ws))
            (mk_totals (mu_phase t + mu * w) (var_phase t + var * (#1 - w) * (#1 - w)) (mu_total t) (var_total t) (var_total_pre t) (height t)),
          set_continue_descent c 2)
  else
    Some (set_ts_tot ts (mk_totals (mu_phase t + mu) (var_phase t + var) (mu_total t) (var_total t) (var_total_pre t) (height t)), c).

(** Two estimators, weighted by [alpha] and [1 - alpha]. *)
Definition mix (t : totals F) (alpha mu0 var0 : F) : totals F :=
  mk_totals (mu_phase t) (var_phase t) (alpha * mu0 + (#1 - alpha) * mu_phase t)
    (alpha * alpha * var0 + (#1 - alpha) * (#1 - alpha) * var_phase t) (var_total_pre t) (height t).

Definition end_phase_plain (c : Ctl) (ts : TS) : option TS :=
  let p := ts_parts ts in let t := ts_tot ts in
  mu0 ← aget (mu_part p) 0; var0 ← aget (var_part p) 0;
  if (cur_phase c =? 0)%Z then
    h ← (if aqp_pswr_tree g then aget (height_part p) 0 else Some (height t));
    Some (set_ts_tot ts (mk_totals (mu_phase t) (var_phase t) mu0 var0 (var_total_pre t) h))
  else Some (set_ts_tot ts (mix t (#(initial_and_uniform_sample_size c) / #(total_samples_fetched c)) mu0 var0)).

Definition end_phase_batch (c : Ctl) (index : Z) (ts : TS) : option TS :=
  let p := ts_parts ts in let t := ts_tot ts in
  let pre := if aqp_batch_sampling_dp g then var_total_pre t else var_total t in
  if (continue_descent c =? 1)%Z || (continue_descent c =? 2)%Z then
    ms ← aget (mu_part p) (split_idx ts); w ← aget (weights p) index; var ← aget (var_part p) index;
    let mp := mu_phase t - ms * w in
    Some (set_ts_tot ts (mk_totals mp (var_phase t) mp (var_phase t + var) pre (height t)))
  else if (cur_phase c =? 0)%Z then
    Some (set_ts_tot ts (mk_totals (mu_phase t) (var_phase t) (mu_phase t) (var_phase t) (if aqp_batch_sampling_dp g then var_phase t else pre) (height t)))
  else
    mu0 ← aget (mu_part p) 0;
    let alpha := #(cur_phase_sample_size c) / #(total_samples_fetched c) in
    Some (set_ts_tot ts (mk_totals (mu_phase t) (var_phase t) ((#1 - alpha) * mu_total t + alpha * (mu_phase t + mu0))
      ((#1 - alpha) * (#1 - alpha) * var_total t + alpha * alpha * var_phase t) pre (height t))).

(** The partition's phase ends with its last partition. *)
Definition end_phase (c : Ctl) (i : Info) (index : Z) (ts : TS) : option TS :=
  if negb (cur_partition c + 1 =? cur_phase_n_partitions c)%Z then Some ts else
  if do_switch_to_uniform c && negb (want_partition_key i) && (index =? 0)%Z then
    mu0 ← aget (mu_part (ts_parts ts)) 0; var0 ← aget (var_part (ts_parts ts)) 0;
    Some (set_ts_tot ts (mix (ts_tot ts) (#(initial_and_uniform_sample_size c) / #(total_samples_fetched c)) mu0 var0))
  else if negb (aqp_batch_sampling g) then end_phase_plain c ts
  else end_phase_batch c index ts.

Definition aqp_approx_sum_transstate_finalize (datum_value : F -> Z) (c : Ctl) (i : Info) (ts : TS) : option (TS * Ctl * Info) :=
  let index := part_index c i in
  '(ts, c, i) ← (if (flags ts =? AQP_APPROX_AGG_TRANSFLAG_WANT_STATISTICS)%Z then compute_statistics datum_value c i ts index else Some (ts, c, i));
  np ← aget (n_part (ts_parts ts)) index;
  let rej := u64 (num_samples_fetched i - ts_n ts) in
  if (2 ^ 31 <=? rej)%Z then None else
  p ← add_zeros (flags ts =? AQP_LEAF_PAGE_STATISTICS)%Z index np 1 (Z.to_nat rej) (ts_parts ts);
  '(ts, c) ← add_partition c index (set_ts_parts ts p);
  ts ← end_phase c i index ts;
  Some (ts, c, i).

(** ** Combining statistics of disjoint sets of values *)

Definition combine_Sxx (n1 : Z) (Sx1 Sxx1 : F) (n2 : Z) (Sx2 Sxx2 : F) : F :=
  let tmp := Sx1 / #n1 - Sx2 / #n2 in
  Sxx1 + Sxx2 + #n1 * #n2 * tmp * tmp / #(u64 (n1 + n2)).

Definition remove_Sxx (n3 : Z) (Sx3 Sxx3 : F) (n1 : Z) (Sx1 Sxx1 : F) : F :=
  let n2 := #n3 - #n1 in
  let tmp := Sx1 / #n1 - (Sx3 - Sx1) / n2 in
  Sxx3 - Sxx1 - #n1 * n2 * tmp * tmp / #n3.

Definition remove_var (n3 : Z) (mu3 var3 : F) (n1 : Z) (mu1 var1 : F) : F :=
  let n2 := #n3 - #n1 in
  let tmp := mu1 - (mu3 * #n3 - mu1 * #n1) / n2 in
  let Sxx2 := var3 * #n3 * #(u64 (n3 - 1)) - var1 * #n1 * #(u64 (n1 - 1)) - #n1 * n2 * tmp * tmp / #n3 in
  Sxx2 / (n2 * (n2 - #1)).

(** ** The inverse error function (aqp_math.h) *)

(** The coefficients of the three polynomials as decimal literals m * 10^-e, highest
    power first. *)
Definition erf_inv_central : list (Z * Z) :=
  [((-36444120640178196996), 40); ((-1685059138182016589), 37); (12858480715256400167, 37); (1115787767802518096, 35); ((-1333171662854620906), 34); (20972767875968561637, 36); (66376381343583238325, 34); ((-40545662729752068639), 33); ((-81519341976054721522), 33); (26335093153082322977, 31); ((-12975133253453532498), 30); ((-54154120542946279317), 30); (1051212273321532285, 27); ((-41126339803469836976), 28); ((-29070369957882005086), 27); (42347877827932403518, 26); ((-13654692000834678645), 25); ((-13882523362786468719), 24); (1867342080340571352, 22); ((-74070253416626697512), 23); ((-60336708714301490533), 22); (24015818242558961693, 20); (16536545626831027356, 19)].
Definition erf_inv_middle : list (Z * Z) :=
  [(22137376921775787049, 28); (90756561938885390979, 27); ((-27517406297064545428), 26); (18239629214389227755, 27); (15027403968909827627, 25); ((-4013867526981545969), 24); (29234449089955446044, 25); (12475304481671778723, 24); ((-47318229009055733981), 24); (68284851459573175448, 24); (24031110387097893999, 24); ((-3550375203628474796), 22); (95328937973738049703, 23); ((-16882755560235047313), 22); (24914420961078508066, 22); ((-37512085075692412107), 22); (5370914553590063617, 21); (10052589676941592334, 19); (30838856104922207635, 19)].
Definition erf_inv_tail : list (Z * Z) :=
  [((-27109920616438573243), 30); ((-25556418169965252055), 29); (15076572693500548083, 28); ((-37894654401267369937), 28); (76157012080783393804, 28); ((-14960026627149240478), 27); (29147953450901080826, 27); ((-67711997758452339498), 27); (22900482228026654717, 26); ((-99298272942317002539), 26); (45260625972231537039, 25); ((-19681778105531670567), 24); (75995277030017761139, 24); ((-21503011930044477347), 23); ((-13871931833623122026), 23); (10103004648645343977, 19); (48499064014085844221, 19)].

Definition horner (cs : list (Z * Z)) (w : F) : F :=
  match cs with
  | [] => #0
  | (m, e) :: cs => foldl (fun p c => f_literal (fst c) (snd c) + p * w) (f_literal m e) cs
  end.

Definition aqp_erf_inv (log sqrt : F -> F) (x : F) : F :=
  let w := fopp (log ((#1 - x) * (#1 + x))) in
  let p :=
    if flt w (f_literal 625 2) then horner erf_inv_central (w - f_literal 3125 3)
    else if flt w (f_literal 160 1) then horner erf_inv_middle (sqrt w - f_literal 325 2)
    else if negb (fisinf w) then horner erf_inv_tail (sqrt w - f_literal 50 1)
    else finf in
  p * x.

(** ** The older aggregates (aqp_math.c, utils/adt/float.c) *)

(** The transition state of float8_accum: N, Sx, Sxx. *)
Record float8_state := mk_f8s { f8_N : F; f8_Sx : F; f8_Sxx : F }.

Definition float8_accum (t : float8_state) (newval : F) : option float8_state :=
  let N := f8_N t + #1 in
  let Sx := f8_Sx t + newval in
  if flt #0 (f8_N t) then
    let tmp := newval * N - Sx in
    let Sxx := f8_Sxx t + tmp * tmp / (N * f8_N t) in
    if fisinf Sx || fisinf Sxx then
      if negb (fisinf (f8_Sx t)) && negb (fisinf newval) then None else Some (mk_f8s N Sx fnan)
    else Some (mk_f8s N Sx Sxx)
  else Some (mk_f8s N Sx (if fisnan newval || fisinf newval then fnan else f8_Sxx t)).

(** [None] is float_overflow_error(), [Some None] the SQL null. *)
Definition aqp_clt_half_ci_finalfunc (erf_inv sqrt : F -> F) (t : float8_state) (confidence nsamples : F) : option (option F) :=
  Sxx ← (if feq (f8_N t) #0 then Some #0
    else if fle (nsamples - f8_N t) #0 then Some (f8_Sxx t)
    else
      let tmp := f8_Sx t / f8_N t in
      let Sxx := f8_Sxx t + f8_N t * (nsamples - f8_N t) / nsamples * tmp * tmp in
      if fisinf Sxx then None else Some Sxx);
  if fle nsamples #1 then Some None
  else Some (Some (erf_inv confidence * sqrt (#2 * Sxx / (nsamples * (nsamples - #1))))).

(** The transition state of the progressive count: Sx, bx, Sxx, nb, ns, nc. *)
Record progressive_state := mk_prog { pr_Sx : F; pr_bx : F; pr_Sxx : F; pr_nb : F; pr_ns : F; pr_nc : F }.

(** The last three arguments are read as integers (PG_GETARG_DATUM). *)
Definition aqp_progressive_float8_accum (t : progressive_state) (arg : option F) (nsamples nbudget ni : Z) : progressive_state :=
  let nsamples := #nsamples in let nbudget := #nbudget in let ni := #ni in
  let first := feq nsamples #1 in
  let Sxx := if first && negb (feq (pr_ns t) #0) then pr_Sxx t + pr_nb t * pr_nb t * pr_bx t / (pr_ns t * (pr_ns t - #1)) else pr_Sxx t in
  let Sx := if first then #0 else pr_Sx t in
  let bx := if first then #0 else pr_bx t in
  let nc := if first then #0 else pr_nc t in
  let nc := match arg with None => nc + #1 | Some _ => nc end in
  let newval := default #0 arg * (ni / nbudget) in
  let bx' := bx + (nsamples - #1) / nsamples * (newval - Sx) * (newval - Sx) in
  let Sx' := (nsamples - #1) / nsamples * Sx + #1 / nsamples * newval in
  mk_prog Sx' bx' Sxx nbudget nsamples nc.

Definition aqp_progressive_clt_half_ci_finalfunc (erf_inv sqrt : F -> F) (t : progressive_state) (confidence nsamples : F) : option F :=
  let Sxx := pr_Sxx t + pr_nb t * pr_nb t * pr_bx t / (pr_ns t * (pr_ns t - #1)) in
  if fle nsamples #1 then None
  else Some (erf_inv confidence * sqrt (#2 * Sxx / (nsamples * nsamples))).

End Code.

(** ** The estimate of a partition, exactly *)

Section Exact.
Context (g : settings).
Local Open Scope Qc_scope.

Abbreviation ofZ := Qc_of_Z.

Lemma aget_lookup {A} (l : list A) i x : aget l i = Some x <-> (0 <= i)%Z /\ l !! Z.to_nat i = Some x.
Proof. unfold aget. case_match; rewrite ?Z.leb_le, ?Z.leb_gt in *; [naive_solver|]. split; [done|lia]. Qed.

Lemma aset_run {A} (l : list A) i x y : aget l i = Some x -> aset l i y = Some (<[Z.to_nat i := y]> l).
Proof.
  intros [Hi Hx]%aget_lookup. unfold aset. rewrite (proj2 (Z.leb_le 0 i) Hi). apply lookup_lt_Some in Hx. by rewrite (proj2 (Nat.ltb_lt _ _) Hx).
Qed.

Lemma aget_aset {A} (l l' : list A) i j y : aset l i y = Some l' -> aget l' j = if decide (j = i) then Some y else aget l j.
Proof.
  unfold aset. case_match eqn:E; [|done]. apply andb_true_iff in E as [Hi Hl]. apply Z.leb_le in Hi. apply Nat.ltb_lt in Hl. intros [= <-].
  unfold aget. case_decide as Hj; [subst j; rewrite (proj2 (Z.leb_le 0 i) Hi); by apply list_lookup_insert_eq|].
  case_match eqn:E; [|done]. apply Z.leb_le in E. apply list_lookup_insert_ne. lia.
Qed.

(** Entry [i] of the partition arrays has the statistics of the values [xs]; a variance
    needs two values. *)
Record holds (p : parts Qc) (i : Z) (xs : list Qc) : Prop := {
  ho_n : aget (n_part p) i = Some (Z.of_nat (length xs));
  ho_mu : aget (mu_part p) i = Some (mean xs);
  ho_var : exists v, aget (var_part p) i = Some v /\ ((1 < length xs)%nat -> v = var_of_mean xs);
  ho_h : aqp_pswr_tree g = true -> is_Some (aget (height_part p) i)
}.

(** What the other entries keep. *)
Definition same_but (i : Z) (p p' : parts Qc) : Prop :=
  weights p' = weights p /\ forall j, j <> i -> aget (n_part p') j = aget (n_part p) j /\ aget (mu_part p') j = aget (mu_part p) j /\ aget (var_part p') j = aget (var_part p) j /\
    aget (height_part p') j = aget (height_part p) j.

Lemma next_mean xs x : (ofZ (Z.of_nat (length xs)) * mean xs + x) / ofZ (Z.of_nat (length xs) + 1) = mean (xs ++ [x]).
Proof. rewrite mean_snoc, len_snoc, Z2Qc_inj_add, Z2Qc_inj_1. done. Qed.

Lemma next_var xs x v : xs <> [] -> ((1 < length xs)%nat -> v = var_of_mean xs) ->
  (x - mean xs) * (x - mean xs) / (ofZ (Z.of_nat (length xs) + 1) * ofZ (Z.of_nat (length xs) + 1)) + ofZ (Z.of_nat (length xs) - 1) / ofZ (Z.of_nat (length xs) + 1) * v = var_of_mean (xs ++ [x]).
Proof.
  intros Hne Hv. destruct xs as [|y [|z xs]]; [done| |].
  - cbn [length]. change (Z.of_nat 1) with 1%Z. change ([y] ++ [x]) with [y; x]. rewrite var_pair. change (1 + 1)%Z with 2%Z. change (1 - 1)%Z with 0%Z. rewrite Z2Qc_inj_0.
    unfold mean. rewrite sum_cons, sum_nil. cbn [length]. change (Z.of_nat 1) with 1%Z. rewrite Z2Qc_inj_1, Z2Qc_inj_2. field. by split.
  - rewrite (Hv ltac:(simpl; lia)), var_snoc by (simpl; lia). rewrite len_snoc, Z2Qc_inj_add, Z2Qc_inj_sub, Z2Qc_inj_1. done.
Qed.

Ltac arrays := repeat (match goal with
  | H : aget ?l ?i = Some ?x |- context [aset ?l ?i ?y] => rewrite (aset_run l i x y H)
  | H : aget ?l ?i = Some _ |- context [aget ?l ?i] => rewrite H
  end; cbn [mbind option_bind]).

Ltac entry := match goal with
  | H : aget ?l ?i = Some ?x |- context [aget (<[Z.to_nat ?i := ?y]> ?l) ?j] => rewrite (aget_aset l _ i j y (aset_run l i x y H))
  end.

(** The height of a partition, when it is kept. *)
Lemma height_run (p : parts Qc) i f : (aqp_pswr_tree g = true -> is_Some (aget (height_part p) i)) ->
  exists hs, (if aqp_pswr_tree g then h ← aget (height_part p) i; aset (height_part p) i (f h) else Some (height_part p)) = Some hs /\
    (aqp_pswr_tree g = true -> is_Some (aget hs i)) /\ forall j, j <> i -> aget hs j = aget (height_part p) j.
Proof.
  intros Hh. destruct (aqp_pswr_tree g); [|by eexists]. destruct (Hh eq_refl) as [h Hh']. arrays. eexists. split; [done|]. split; [intros _; entry; by rewrite decide_True|].
  intros j Hj. entry. by rewrite decide_False.
Qed.

Lemma add_value_holds (c : AQPPSWRControlState Qc) p i xs x : holds p i xs -> (Z.of_nat (length xs) + 1 < 2 ^ 32)%Z ->
  exists p', add_value g c false i x p = Some p' /\ holds p' i (xs ++ [x]) /\ same_but i p p'.
Proof.
  intros [Hn Hmu (v & Hv & Hvar) Hh] Hlen. unfold add_value. arrays.
  rewrite (u32_small (Z.of_nat (length xs) + 1)) by lia. replace (Z.of_nat (length xs) + 1 - 1)%Z with (Z.of_nat (length xs)) by lia. rewrite (u32_small (Z.of_nat (length xs))) by lia.
  destruct (height_run p i (fun h => (f_of_Z (Z.of_nat (length xs)) * h + f_of_Z (tree_level c)) / f_of_Z (Z.of_nat (length xs) + 1))%f8 Hh) as (hs & -> & Hhs & Hho).
  cbn [mbind option_bind]. eexists. split; [done|]. split.
  - split; cbn [n_part mu_part var_part height_part].
    + entry. rewrite decide_True by done. by rewrite length_app, Nat2Z.inj_add.
    + entry. rewrite decide_True by done. f_equal. apply next_mean.
    + entry. rewrite decide_True by done. eexists. split; [done|]. intros Hl. rewrite length_app in Hl. cbn [length] in Hl. assert (Hne : xs <> []) by (intros ->; simpl in Hl; lia).
      rewrite u32_small by (destruct xs; [done|cbn [length] in *; lia]). replace (Z.of_nat (length xs) + 1 - 2)%Z with (Z.of_nat (length xs) - 1)%Z by lia. by apply next_var.
    + exact Hhs.
  - split; [done|]. intros j Hj. cbn [n_part mu_part var_part height_part]. do 3 (entry; rewrite decide_False by done). by rewrite Hho.
Qed.

Lemma same_but_refl i p : same_but i p p.
Proof. done. Qed.

Lemma same_but_trans i p1 p2 p3 : same_but i p1 p2 -> same_but i p2 p3 -> same_but i p1 p3.
Proof. intros [E1 H1] [E2 H2]. split; [congruence|]. intros j Hj. destruct (H1 j Hj) as (? & ? & ? & ?), (H2 j Hj) as (? & ? & ? & ?). repeat split; congruence. Qed.

Lemma zero_mean xs : ofZ (Z.of_nat (length xs)) / ofZ (Z.of_nat (length xs) + 1) * mean xs = mean (xs ++ [0]).
Proof. rewrite <- next_mean. unfold Qcdiv. ring. Qed.

Lemma add_zero_holds p i xs np k : holds p i xs -> (np + k = Z.of_nat (length xs) + 1)%Z -> (Z.of_nat (length xs) + 1 < 2 ^ 32)%Z ->
  exists p', add_zero g false i np k p = Some p' /\ holds p' i (xs ++ [0]) /\ same_but i p p'.
Proof.
  intros [Hn Hmu (v & Hv & Hvar) Hh] Hk Hlen. unfold add_zero. arrays. rewrite Hk.
  rewrite (u64_small (Z.of_nat (length xs) + 1)), (u64_small ((_ + 1) * _)) by nia. replace (Z.of_nat (length xs) + 1 - 1)%Z with (Z.of_nat (length xs)) by lia. rewrite (u64_small (Z.of_nat (length xs))) by lia.
  set (f := (f_of_Z (Z.of_nat (length xs)) / f_of_Z (Z.of_nat (length xs) + 1))%f8).
  destruct (height_run p i (fun h => f * h)%f8 Hh) as (hs & -> & Hhs & Hho).
  cbn [mbind option_bind]. eexists. split; [done|]. split.
  - split; cbn [n_part mu_part var_part height_part].
    + entry. rewrite decide_True by done. rewrite u32_small by lia. by rewrite length_app, Nat2Z.inj_add.
    + entry. rewrite decide_True by done. f_equal. apply zero_mean.
    + entry. rewrite decide_True by done. eexists. split; [done|]. intros Hl. rewrite length_app in Hl. cbn [length] in Hl. assert (Hne : xs <> []) by (intros ->; simpl in Hl; lia).
      rewrite u64_small by (destruct xs; [done|cbn [length] in *; lia]). replace (Z.of_nat (length xs) + 1 - 2)%Z with (Z.of_nat (length xs) - 1)%Z by lia.
      rewrite <- (next_var xs 0 v) by done. cbn. rewrite Z2Qc_inj_mul. f_equal. f_equal. ring.
    + exact Hhs.
  - split; [done|]. intros j Hj. cbn [n_part mu_part var_part height_part]. do 3 (entry; rewrite decide_False by done). by rewrite Hho.
Qed.

Lemma add_zeros_holds count : forall p i xs np k, holds p i xs -> (np + k = Z.of_nat (length xs) + 1)%Z -> (Z.of_nat (length xs + count) < 2 ^ 32)%Z ->
  exists p', add_zeros g false i np k count p = Some p' /\ holds p' i (xs ++ replicate count 0) /\ same_but i p p'.
Proof.
  induction count as [|count IH]; intros p i xs np k Hp Hk Hl; cbn [add_zeros replicate]; [exists p; rewrite app_nil_r; by split_and!|].
  destruct (add_zero_holds p i xs np k Hp Hk ltac:(lia)) as (p1 & -> & Hp1 & Hs1). cbn [mbind option_bind].
  destruct (IH p1 i (xs ++ [0]) np (k + 1)%Z Hp1) as (p2 & -> & Hp2 & Hs2); [rewrite length_app; cbn [length]; lia..|].
  exists p2. rewrite <- app_assoc in Hp2. split_and!; [done|done|by eapply same_but_trans].
Qed.

(** Accumulating the samples of a partition: the sampler's output and the value of the
    aggregate's argument, for each. *)
Fixpoint accumulate_samples (c : AQPPSWRControlState Qc) (l : list (AQPPSWRCtlInfoData Qc * Qc)) (ts : AQPApproxAggTransState Qc) : option (AQPApproxAggTransState Qc) :=
  match l with
  | [] => Some ts
  | (i, x) :: l => '(ts, _) ← aqp_approx_sum_internal_accum g c i ts x; accumulate_samples c l ts
  end.

(** The values the samples stand for: what was not rejected, over its probability. *)
Definition sample_values (l : list (AQPPSWRCtlInfoData Qc * Qc)) : list Qc :=
  (fun s => snd s * joint_inv_prob (fst s)) <$> filter (fun s => rejected (fst s) = false) l.

Definition plain_flags (ts : AQPApproxAggTransState Qc) : Prop := flags ts <> AQP_APPROX_AGG_TRANSFLAG_WANT_STATISTICS /\ flags ts <> AQP_LEAF_PAGE_STATISTICS.

Lemma sample_values_cons s l : sample_values (s :: l) = sample_values [s] ++ sample_values l.
Proof. unfold sample_values. rewrite <- fmap_app, <- filter_app. done. Qed.

Lemma sample_values_one s : (length (sample_values [s]) <= 1)%nat.
Proof. unfold sample_values. rewrite length_fmap, filter_cons, filter_nil. case_decide; simpl; lia. Qed.

Lemma sample_values_length l : (length (sample_values l) <= length l)%nat.
Proof. induction l as [|s l IH]; [done|]. rewrite sample_values_cons, length_app. pose proof (sample_values_one s). cbn [length]. lia. Qed.

Lemma accum_run (c : AQPPSWRControlState Qc) i ts x index xs m : is_template ts && ctl_grouped c = false -> plain_flags ts -> part_index g c i = index ->
  holds (ts_parts ts) index xs -> (Z.of_nat (length xs) + 1 < 2 ^ 32)%Z -> ts_n ts = Z.of_nat m -> (m <= length xs)%nat ->
  exists p, aqp_approx_sum_internal_accum g c i ts x = Some (set_ts_stats ts (flags ts) (Z.of_nat (m + length (sample_values [(i, x)]))) (ts_mu ts) (ts_var ts) p, i) /\
    holds p index (xs ++ sample_values [(i, x)]) /\ same_but index (ts_parts ts) p.
Proof.
  intros Ht [Hf1 Hf2] Hi Hp Hl Hn Hm. unfold aqp_approx_sum_internal_accum, detach_template. rewrite Ht. unfold sample_values. rewrite filter_cons. cbn [fst]. destruct (rejected i) eqn:Hr.
  - rewrite decide_False by done. rewrite filter_nil, fmap_nil, app_nil_r. cbn [length]. rewrite Nat.add_0_r, <- Hn. exists (ts_parts ts). split_and!; [|done|done]. by destruct ts.
  - rewrite decide_True by done. rewrite filter_nil, fmap_cons, fmap_nil. rewrite (proj2 (Z.eqb_neq _ _) Hf1), (proj2 (Z.eqb_neq _ _) Hf2). cbn [andb]. rewrite Hi.
    destruct (add_value_holds c (ts_parts ts) index xs (x * joint_inv_prob i) Hp Hl) as (p & Hadd & Hp' & Hs). exists p. split_and!; [|done|done].
    cbn [fsub fmul exact_float8] in *. rewrite Hadd. cbn [mbind option_bind snd length]. rewrite Hn, u32_small by lia. by rewrite Nat2Z.inj_add.
Qed.

Lemma accumulate_run (c : AQPPSWRControlState Qc) index l : forall ts xs m, is_template ts && ctl_grouped c = false -> plain_flags ts -> Forall (fun s => part_index g c (fst s) = index) l ->
  holds (ts_parts ts) index xs -> (Z.of_nat (length xs + length l) < 2 ^ 32)%Z -> ts_n ts = Z.of_nat m -> (m <= length xs)%nat ->
  exists p, accumulate_samples c l ts = Some (set_ts_stats ts (flags ts) (Z.of_nat (m + length (sample_values l))) (ts_mu ts) (ts_var ts) p) /\
    holds p index (xs ++ sample_values l) /\ same_but index (ts_parts ts) p.
Proof.
  induction l as [|[i x] l IH]; intros ts xs m Ht Hf Hi Hp Hl Hn Hm; cbn [accumulate_samples].
  - exists (ts_parts ts). unfold sample_values. rewrite filter_nil, fmap_nil, app_nil_r. cbn [length]. rewrite Nat.add_0_r, <- Hn. split_and!; [by destruct ts|done|done].
  - apply Forall_cons in Hi as [Hi His]. cbn [length] in Hl. destruct (accum_run c i ts x index xs m Ht Hf Hi Hp ltac:(lia) Hn Hm) as (p & -> & Hp' & Hs). cbn [mbind option_bind].
    set (ts1 := set_ts_stats _ _ _ _ _ p). pose proof (sample_values_one (i, x)) as Hlen.
    destruct (IH ts1 (xs ++ sample_values [(i, x)]) (m + length (sample_values [(i, x)]))%nat Ht Hf His Hp') as (p2 & -> & Hp2 & Hs2); [rewrite length_app; lia|done|rewrite length_app; lia|].
    rewrite (sample_values_cons (i, x) l), app_assoc, length_app, Nat.add_assoc. exists p2. split_and!; [done|done|by eapply same_but_trans].
Qed.

(** ** A sampled partition *)

(** The control node at partition [j] when its [n] samples have been fetched (a scan that has not
    switched to uniform sampling). *)
Definition count_fetched (c : AQPPSWRControlState Qc) (j : Z) (n : nat) : AQPPSWRControlState Qc :=
  mk_ctl (do_pswr c) (ctl_grouped c) (do_switch_to_uniform c) (cur_phase c) (cur_phase_n_partitions c) j (cur_phase_sample_size c)
    (initial_phase_sample_size c) (initial_and_uniform_sample_size c) (u64 (total_samples_fetched c + Z.of_nat n)) (tree_level c) (continue_descent c) (nintvls c) (prefix_stats c) (prefix_keys c).

(** The sampler's output after all samples of a partition were fetched. *)
Definition fetched_all (want : bool) (n : nat) : AQPPSWRCtlInfoData Qc := mk_info false 1 None (Z.of_nat n) want 0 [] [].

Section Partition.
Context (comparator : Z -> Z -> Z) (qsort_arg : list (Z * Qc) -> list (Z * Qc)) (datum_value : Qc -> Z).

Abbreviation finalize := (aqp_approx_sum_transstate_finalize g comparator qsort_arg datum_value).

(** One partition, as the control node runs it: reset, accumulate, finalize. *)
Definition sample_partition (c : AQPPSWRControlState Qc) (l : list (AQPPSWRCtlInfoData Qc * Qc)) (ts : AQPApproxAggTransState Qc) : option (AQPApproxAggTransState Qc) :=
  ts ← accumulate_samples c l (aqp_approx_sum_transstate_reset_partition ts);
  '(ts, _, _) ← finalize c (fetched_all false (length l)) ts; Some ts.

(** The values of a partition, the rejected samples as zeros. *)
Definition partition_values (l : list (AQPPSWRCtlInfoData Qc * Qc)) : list Qc :=
  sample_values l ++ replicate (length l - length (sample_values l)) 0.

Lemma partition_values_length l : length (partition_values l) = length l.
Proof. unfold partition_values. rewrite length_app, length_replicate. pose proof (sample_values_length l). lia. Qed.

(** The state before the phase is updated. *)
Definition completed (ts : AQPApproxAggTransState Qc) (n : nat) (p : parts Qc) : AQPApproxAggTransState Qc :=
  set_ts_stats ts (flags ts) (Z.of_nat n) (ofZ 0) (ofZ 0) p.

Lemma sample_partition_run c l ts index xs : is_template ts && ctl_grouped c = false -> plain_flags ts ->
  Forall (fun s => part_index g c (fst s) = index) l -> part_index g c (fetched_all false (length l)) = index ->
  holds (ts_parts ts) index xs -> (Z.of_nat (length xs + length l) < 2 ^ 31)%Z ->
  exists p n, holds p index (xs ++ partition_values l) /\ same_but index (ts_parts ts) p /\
    sample_partition c l ts = '(ts, c) ← add_partition c index (completed ts n p); end_phase g c (fetched_all false (length l)) index ts.
Proof.
  intros Ht Hf Hl Hi Hp Hlen. unfold sample_partition. set (ts0 := aqp_approx_sum_transstate_reset_partition ts).
  destruct (accumulate_run c index l ts0 xs 0 Ht Hf Hl Hp ltac:(lia) eq_refl ltac:(lia)) as (p & -> & Hp1 & Hs1). cbn [mbind option_bind].
  pose proof (sample_values_length l) as Hvl. set (ts1 := set_ts_stats ts0 _ _ _ _ p). unfold aqp_approx_sum_transstate_finalize. rewrite Hi. cbn [flags ts1 set_ts_stats].
  destruct Hf as [Hf1 Hf2]. change (flags ts0) with (flags ts). rewrite (proj2 (Z.eqb_neq _ _) Hf1). cbn [mbind option_bind ts_parts set_ts_stats ts1]. rewrite (ho_n _ _ _ Hp1). cbn [mbind option_bind].
  cbn [num_samples_fetched fetched_all ts_n set_ts_stats ts1]. rewrite (u64_small (Z.of_nat (length l) - _)) by lia. rewrite (proj2 (Z.leb_gt _ _)) by lia.
  cbn [flags ts1 set_ts_stats]. change (flags ts0) with (flags ts). rewrite (proj2 (Z.eqb_neq _ _) Hf2).
  replace (Z.to_nat (Z.of_nat (length l) - Z.of_nat (0 + length (sample_values l)))) with (length l - length (sample_values l))%nat by lia.
  destruct (add_zeros_holds (length l - length (sample_values l)) p index (xs ++ sample_values l) (Z.of_nat (length (xs ++ sample_values l))) 1 Hp1 eq_refl) as (p2 & -> & Hp2 & Hs2); [rewrite length_app; lia|].
  cbn [mbind option_bind]. rewrite <- app_assoc in Hp2. exists p2, (length (sample_values l)). split_and!; [done|by eapply same_but_trans|].
  change (set_ts_parts ts1 p2) with (completed ts (length (sample_values l)) p2). destruct (add_partition c index _) as [[ts2 c2]|]; [|done]. cbn [mbind option_bind].
  by destruct (end_phase g c2 _ index ts2).
Qed.

Lemma partition_mean l : mean (partition_values l) = sum (sample_values l) / ofZ (Z.of_nat (length l)).
Proof. unfold mean. rewrite partition_values_length. unfold partition_values. rewrite sum_app, sum_zeros, Qcplus_0_r. done. Qed.

(** *** Combining and removing *)

Abbreviation size l := (Z.of_nat (length l)).

Lemma combine_Sxx_app l1 l2 : l1 <> [] -> l2 <> [] -> (size l1 + size l2 < 2 ^ 64)%Z ->
  combine_Sxx (size l1) (sum l1) (sxx l1) (size l2) (sum l2) (sxx l2) = sxx (l1 ++ l2).
Proof.
  intros H1 H2 Hl. unfold combine_Sxx. cbn [fadd fsub fmul fdiv f_of_Z exact_float8]. rewrite u64_small by lia. rewrite !sxx_squares by (done || by destruct l1). unfold squares. rewrite fmap_app, !sum_app, length_app, Nat2Z.inj_add, !Z2Qc_inj_add.
  pose proof (len_nonzero l1 H1). pose proof (len_nonzero l2 H2). pose proof (len_nonzero (l1 ++ l2) ltac:(by destruct l1)) as H3. rewrite length_app, Nat2Z.inj_add, Z2Qc_inj_add in H3. field. by repeat split.
Qed.

Lemma remove_Sxx_app l1 l2 : l1 <> [] -> l2 <> [] ->
  remove_Sxx (size (l1 ++ l2)) (sum (l1 ++ l2)) (sxx (l1 ++ l2)) (size l1) (sum l1) (sxx l1) = sxx l2.
Proof.
  intros H1 H2. unfold remove_Sxx. cbn [fadd fsub fmul fdiv f_of_Z exact_float8]. rewrite !sxx_squares by (done || by destruct l1). unfold squares. rewrite fmap_app, !sum_app, length_app, Nat2Z.inj_add, !Z2Qc_inj_add.
  pose proof (len_nonzero l1 H1). pose proof (len_nonzero l2 H2) as Hn2. pose proof (len_nonzero (l1 ++ l2) ltac:(by destruct l1)) as H3. rewrite length_app, Nat2Z.inj_add, Z2Qc_inj_add in H3.
  assert (H4 : ofZ (size l1) + ofZ (size l2) - ofZ (size l1) <> 0) by (by replace (ofZ (size l1) + ofZ (size l2) - ofZ (size l1)) with (ofZ (size l2)) by ring). field. by repeat split.
Qed.

Lemma remove_var_app l1 l2 : l1 <> [] -> (1 < length l2)%nat -> (size (l1 ++ l2) < 2 ^ 64)%Z -> (1 < length l1)%nat ->
  remove_var (size (l1 ++ l2)) (mean (l1 ++ l2)) (var_of_mean (l1 ++ l2)) (size l1) (mean l1) (var_of_mean l1) = var_of_mean l2.
Proof.
  intros H1 H2 Hl H3. assert (Hne2 : l2 <> []) by (intros ->; simpl in H2; lia). pose proof (remove_Sxx_app l1 l2 H1 Hne2) as Hrem. unfold remove_Sxx in Hrem. unfold remove_var, var_of_mean. cbn [fadd fsub fmul fdiv f_of_Z exact_float8] in *.
  rewrite length_app in Hl. rewrite !u64_small by (rewrite ?length_app; lia). rewrite <- Hrem. unfold mean. rewrite !Z2Qc_inj_sub, Z2Qc_inj_1, !length_app, Nat2Z.inj_add, Z2Qc_inj_add.
  pose proof (len_nonzero l1 H1) as N1. pose proof (len_nonzero l2 Hne2) as N2. assert (N3 : ofZ (size l1) + ofZ (size l2) <> 0) by (rewrite <- Z2Qc_inj_add; apply ofZ_nonzero; lia).
  assert (N4 : ofZ (size l1) + ofZ (size l2) - ofZ (size l1) <> 0) by (by replace (ofZ (size l1) + ofZ (size l2) - ofZ (size l1)) with (ofZ (size l2)) by ring).
  assert (N5 : ofZ (size l1) - 1 <> 0) by (rewrite <- Z2Qc_inj_1, <- Z2Qc_inj_sub; apply ofZ_nonzero; lia). assert (N6 : ofZ (size l1) + ofZ (size l2) - 1 <> 0) by (rewrite <- Z2Qc_inj_1, <- Z2Qc_inj_add, <- Z2Qc_inj_sub; apply ofZ_nonzero; lia).
  assert (N7 : ofZ (size l2) - 1 <> 0) by (rewrite <- Z2Qc_inj_1, <- Z2Qc_inj_sub; apply ofZ_nonzero; lia).
  assert (N8 : ofZ (size l1) + ofZ (size l2) - ofZ (size l1) - 1 <> 0) by (by replace (ofZ (size l1) + ofZ (size l2) - ofZ (size l1) - 1) with (ofZ (size l2) - 1) by ring). field. by repeat split.
Qed.

(** *** A scan of one phase *)

(** The control node's state for TABLESAMPLE swr(). *)
Record swr_ctl (c : AQPPSWRControlState Qc) : Prop := {
  sw_pswr : do_pswr c = false;
  sw_uniform : do_switch_to_uniform c = false;
  sw_phase : cur_phase c = 0%Z;
  sw_parts : cur_phase_n_partitions c = 1%Z;
  sw_part : cur_partition c = 0%Z;
  sw_descent : continue_descent c = 0%Z
}.

Lemma zero_parts_holds k i : (0 <= i < Z.of_nat k)%Z -> holds (zero_parts g k) i [].
Proof.
  intros Hi. assert (Hr : forall A (x : A), aget (replicate k x) i = Some x) by (intros A x; apply aget_lookup; split; [lia|]; apply lookup_replicate_2; lia).
  split; cbn [zero_parts n_part mu_part var_part height_part].
  - apply Hr.
  - rewrite Hr, mean_nil. f_equal. apply Z2Qc_inj_0.
  - eexists. split; [apply Hr|]. simpl. lia.
  - intros ->. rewrite Hr. by eexists.
Qed.

Lemma swr_run c l ts : swr_ctl c -> aqp_batch_sampling g = false -> is_template ts && ctl_grouped c = false -> plain_flags ts -> ts_parts ts = zero_parts g 1 -> (Z.of_nat (length l) < 2 ^ 31)%Z ->
  exists ts', sample_partition c l ts = Some ts' /\ mu_total (ts_tot ts') = mean (partition_values l) /\
    ((1 < length l)%nat -> var_total (ts_tot ts') = var_of_mean (partition_values l)).
Proof.
  intros [Hp Hu Hph Hn Hpart Hd] Hb Ht Hf Hz Hl. assert (Hidx : forall i, part_index g c i = 0%Z) by (intros i; unfold part_index; by rewrite Hu, Hp).
  destruct (sample_partition_run c l ts 0 []) as (p & n & Hho & Hs & ->); try done; [by apply Forall_forall|rewrite Hz; by apply zero_parts_holds|].
  destruct Hho as [Hhn Hmu (v & Hv & Hvar) Hh]. unfold add_partition. rewrite Hu. cbn [andb completed set_ts_stats ts_parts ts_tot]. rewrite Hmu, Hv. cbn [mbind option_bind]. rewrite Hd. cbn [orb Z.eqb mbind option_bind].
  unfold end_phase. rewrite Hpart, Hn. cbn [negb Z.eqb Z.add Pos.add]. rewrite Hu, Hb. cbn [andb negb]. unfold end_phase_plain. cbn [set_ts_tot ts_parts completed set_ts_stats ts_tot height]. rewrite Hmu, Hv. cbn [mbind option_bind]. rewrite Hph. cbn [Z.eqb].
  assert (Hhh : exists h, (if aqp_pswr_tree g then aget (height_part p) 0 else Some (height (ts_tot ts))) = Some h).
  { destruct (aqp_pswr_tree g); [|by eexists]. destruct (Hh eq_refl) as [h Hh']. by exists h. }
  destruct Hhh as [h Hhh]. rewrite Hhh. cbn [mbind option_bind]. eexists. split; [reflexivity|]. split; [done|].
  intros Hlen. apply Hvar. cbn [app]. by rewrite partition_values_length.
Qed.

(** *** The older implementation *)

Fixpoint float8_accums (t : float8_state) (l : list Qc) : option float8_state :=
  match l with [] => Some t | x :: l => t ← float8_accum t x; float8_accums t l end.

Definition accumulated (l : list Qc) : float8_state := mk_f8s (ofZ (Z.of_nat (length l))) (sum l) (sxx l).

Lemma qc_ltb_len l : qc_ltb (ofZ 0) (ofZ (Z.of_nat (length l))) = negb (bool_decide (l = ([] : list Qc))).
Proof.
  unfold qc_ltb. destruct l as [|x l]; cbn [length]; [done|]. rewrite (bool_decide_true (ofZ 0 < _)); [done|]. rewrite <- Z2Qc_inj_lt. lia.
Qed.

Lemma float8_accum_run l x : float8_accum (accumulated l) x = Some (accumulated (l ++ [x])).
Proof.
  unfold float8_accum, accumulated. cbn [f8_N f8_Sx f8_Sxx flt exact_float8 fisinf fisnan orb fadd fsub fmul fdiv f_of_Z]. rewrite qc_ltb_len, sum_snoc, length_app. cbn [length]. rewrite Nat2Z.inj_add, Z2Qc_inj_add.
  change (Z.of_nat 1) with 1%Z. case_bool_decide as Hl; cbn [negb].
  - subst l. cbn [app]. rewrite sxx_singleton. done.
  - do 2 f_equal. rewrite sxx_snoc by done. pose proof (len_nonzero l Hl). pose proof (len_nonzero (l ++ [x]) ltac:(by destruct l)) as H'. rewrite len_snoc in *. rewrite Z2Qc_inj_1. unfold mean. field. by split.
Qed.

Lemma float8_accums_run l : forall l0, float8_accums (accumulated l0) l = Some (accumulated (l0 ++ l)).
Proof.
  induction l as [|x l IH]; intros l0; cbn [float8_accums]; [by rewrite app_nil_r|]. rewrite float8_accum_run. cbn [mbind option_bind]. by rewrite IH, <- app_assoc.
Qed.

(** The value the older rewriting adds up: the argument over sample_prob(), which the
    scan computes as 1.0 / inv_prob. *)
Definition estimator_values (l : list (AQPPSWRCtlInfoData Qc * Qc)) : list Qc :=
  (fun s => (snd s / (f_of_Z 1 / joint_inv_prob (fst s)))%f8) <$> filter (fun s => rejected (fst s) = false) l.

Lemma estimator_values_eq l : Forall (fun s => rejected (fst s) = false -> joint_inv_prob (fst s) <> 0) l -> estimator_values l = sample_values l.
Proof.
  unfold estimator_values, sample_values. induction 1 as [|[i x] l Hx Hl IH]; [done|]. rewrite filter_cons. case_decide as Hr; [|done]. rewrite !fmap_cons, IH. f_equal.
  cbn [fst snd fdiv f_of_Z exact_float8] in *. rewrite Z2Qc_inj_1. field. split; first [by apply Hx|done].
Qed.

Lemma clt_sxx (erf_inv sqrt : Qc -> Qc) conf xs k : (1 < length xs + k)%nat ->
  aqp_clt_half_ci_finalfunc erf_inv sqrt (accumulated xs) conf (ofZ (Z.of_nat (length xs + k))) =
  Some (Some (erf_inv conf * sqrt (ofZ 2 * var_of_mean (xs ++ replicate k 0)))).
Proof.
  intros Hlen. unfold aqp_clt_half_ci_finalfunc, accumulated. cbn [f8_N f8_Sx f8_Sxx feq fle exact_float8 fisinf fsub fmul fdiv f_of_Z fadd].
  assert (Hfin : qc_leb (ofZ (Z.of_nat (length xs + k))) (ofZ 1) = false). { apply bool_decide_eq_false. rewrite <- Z2Qc_inj_le. lia. }
  assert (Hvar : forall s, s = sxx (xs ++ replicate k 0) ->
    ofZ 2 * s / (ofZ (Z.of_nat (length xs + k)) * (ofZ (Z.of_nat (length xs + k)) - ofZ 1)) = ofZ 2 * var_of_mean (xs ++ replicate k 0)).
  { intros s ->. unfold var_of_mean. rewrite length_app, length_replicate, Z2Qc_inj_1. unfold Qcdiv. ring. }
  unfold qc_eqb. case_bool_decide as Hn.
  - apply Z2Qc_inj in Hn. destruct xs; [|simpl in Hn; lia]. cbn [mbind option_bind]. rewrite Hfin. do 2 f_equal. f_equal. f_equal. apply Hvar. cbn [app].
    rewrite sxx_squares by (destruct k; [simpl in Hlen; lia|done]). rewrite squares_zeros, sum_zeros, Z2Qc_inj_0. unfold Qcdiv. ring.
  - assert (Hne : xs <> []) by (intros ->; by apply Hn). rewrite <- (Z2Qc_inj_sub (Z.of_nat (length xs + k)) (Z.of_nat (length xs))).
    destruct (qc_leb (ofZ (Z.of_nat (length xs + k) - Z.of_nat (length xs))) (ofZ 0)) eqn:Hk.
    + apply bool_decide_eq_true in Hk. rewrite <- Z2Qc_inj_le in Hk. assert (k = 0)%nat as -> by lia. cbn [mbind option_bind]. rewrite Hfin. do 2 f_equal. f_equal. f_equal. apply Hvar. cbn [replicate]. by rewrite app_nil_r.
    + apply bool_decide_eq_false in Hk. rewrite <- Z2Qc_inj_le in Hk. cbn [mbind option_bind]. rewrite Hfin. do 2 f_equal. f_equal. f_equal. apply Hvar. rewrite sxx_zeros by (done || lia). rewrite length_app, length_replicate.
      replace (Z.of_nat (length xs + k) - Z.of_nat (length xs))%Z with (Z.of_nat k) by lia. unfold mean, Qcdiv. ring.
Qed.

(** *** A stratified phase *)

(** The control node's state in a later phase of a progressive scan. *)
Record pswr_ctl (c : AQPPSWRControlState Qc) : Prop := {
  ps_pswr : do_pswr c = true;
  ps_uniform : do_switch_to_uniform c = false;
  ps_phase : cur_phase c <> 0%Z;
  ps_descent : continue_descent c = 0%Z
}.

(** The partitions of a phase, from [j]; with the values each one got in earlier phases. *)
Fixpoint sample_phase (c : AQPPSWRControlState Qc) (j : Z) (ls : list (list Qc * list (AQPPSWRCtlInfoData Qc * Qc))) (ts : AQPApproxAggTransState Qc) : option (AQPApproxAggTransState Qc) :=
  match ls with
  | [] => Some ts
  | (_, l) :: ls => let c := count_fetched c j (length l) in ts ← sample_partition c l ts; sample_phase c (j + 1) ls ts
  end.

Definition stratum (s : list Qc * list (AQPPSWRCtlInfoData Qc * Qc)) : list Qc := fst s ++ partition_values (snd s).
Definition strata_mean ls : Qc := sum (mean ∘ stratum <$> ls).
Definition strata_var ls : Qc := sum (var_of_mean ∘ stratum <$> ls).

(** The samples of a phase. *)
Definition phase_samples (ls : list (list Qc * list (AQPPSWRCtlInfoData Qc * Qc))) : Z := sumZ ((fun s => Z.of_nat (length (snd s))) <$> ls).

Definition strata_hold (p : parts Qc) (j : Z) (ls : list (list Qc * list (AQPPSWRCtlInfoData Qc * Qc))) : Prop :=
  forall k s, ls !! k = Some s -> holds p (j + Z.of_nat k + 1) (fst s) /\ (Z.of_nat (length (stratum s)) < 2 ^ 31)%Z /\ Forall (fun s => want_partition_key (fst s) = false) (snd s).

Lemma same_but_holds i j p p' xs : i <> j -> same_but i p p' -> holds p j xs -> holds p' j xs.
Proof.
  intros Hij [_ Hs] [H1 H2 (v & H3 & H4) H5]. destruct (Hs j ltac:(done)) as (E1 & E2 & E3 & E4). split; [by rewrite E1|by rewrite E2|exists v; by rewrite E3|by rewrite E4].
Qed.

Lemma strata_index c j n i : pswr_ctl c -> aqp_batch_sampling g = false -> want_partition_key i = false -> part_index g (count_fetched c j n) i = (j + 1)%Z.
Proof. intros [Hp Hu _ _] Hb Hw. unfold part_index. cbn. by rewrite Hu, Hp, Hw, Hb. Qed.

(** One partition adds its mean and variance to the phase. *)
Lemma stratum_run c j s ts : pswr_ctl c -> aqp_batch_sampling g = false -> is_template ts && ctl_grouped c = false -> plain_flags ts ->
  holds (ts_parts ts) (j + 1) (fst s) -> (Z.of_nat (length (stratum s)) < 2 ^ 31)%Z -> Forall (fun s => want_partition_key (fst s) = false) (snd s) ->
  exists p n v, holds p (j + 1) (stratum s) /\ same_but (j + 1) (ts_parts ts) p /\ ((1 < length (stratum s))%nat -> v = var_of_mean (stratum s)) /\
    let t := ts_tot ts in
    sample_partition (count_fetched c j (length (snd s))) (snd s) ts = end_phase g (count_fetched c j (length (snd s))) (fetched_all false (length (snd s))) (j + 1)
      (set_ts_tot (completed ts n p) (mk_totals (mu_phase t + mean (stratum s)) (var_phase t + v) (mu_total t) (var_total t) (var_total_pre t) (height t))).
Proof.
  intros Hc Hb Ht Hf Hh Hl Hw. destruct (sample_partition_run (count_fetched c j (length (snd s))) (snd s) ts (j + 1) (fst s)) as (p & n & Hp & Hs & ->); try done.
  { eapply Forall_impl; [exact Hw|]. intros [i x] Hi. by apply strata_index. }
  { by apply strata_index. }
  { unfold stratum in Hl. rewrite length_app, partition_values_length in Hl. lia. }
  fold (stratum s) in Hp. destruct (ho_var _ _ _ Hp) as (v & Hv & Hvar). exists p, n, v. split_and!; [done|done|done|]. unfold add_partition. cbn [do_switch_to_uniform count_fetched].
  rewrite (ps_uniform c Hc). cbn [andb completed set_ts_stats ts_parts ts_tot]. rewrite (ho_mu _ _ _ Hp), Hv. cbn [mbind option_bind continue_descent count_fetched]. rewrite (ps_descent c Hc). done.
Qed.


Lemma strata_hold_tail p p' j s ls : same_but (j + 1) p p' -> (0 <= j)%Z -> strata_hold p j (s :: ls) -> strata_hold p' (j + 1) ls.
Proof.
  intros Hs Hj H k s' Hk. destruct (H (S k) s' Hk) as (H1 & H2 & H3). replace (j + 1 + Z.of_nat k + 1)%Z with (j + Z.of_nat (S k) + 1)%Z by lia. split; [|done]. eapply same_but_holds; [|exact Hs|done]. lia.
Qed.

Definition estimable (s : list Qc * list (AQPPSWRCtlInfoData Qc * Qc)) : Prop := (1 < length (stratum s))%nat.

Lemma phase_run xs0 ls : forall c j ts, pswr_ctl c -> aqp_batch_sampling g = false -> is_template ts && ctl_grouped c = false -> plain_flags ts ->
  holds (ts_parts ts) 0 xs0 -> strata_hold (ts_parts ts) j ls -> ls <> [] -> (0 <= j)%Z -> (j + Z.of_nat (length ls))%Z = cur_phase_n_partitions c ->
  (0 <= total_samples_fetched c)%Z -> (total_samples_fetched c + phase_samples ls < 2 ^ 64)%Z ->
  let alpha := ofZ (initial_and_uniform_sample_size c) / ofZ (total_samples_fetched c + phase_samples ls) in
  exists ts', sample_phase c j ls ts = Some ts' /\ mu_total (ts_tot ts') = alpha * mean xs0 + (1 - alpha) * (mu_phase (ts_tot ts) + strata_mean ls) /\
    ((1 < length xs0)%nat -> Forall estimable ls ->
     var_total (ts_tot ts') = alpha * alpha * var_of_mean xs0 + (1 - alpha) * (1 - alpha) * (var_phase (ts_tot ts) + strata_var ls)).
Proof.
  induction ls as [|[ys l] ls IH]; intros c j ts Hc Hb Ht Hf H0 Hls Hne Hj Hn Htot Htot' alpha; [done|]. cbn [sample_phase].
  assert (Hfetched : total_samples_fetched (count_fetched c j (length l)) = (total_samples_fetched c + Z.of_nat (length l))%Z).
  { unfold phase_samples in Htot'. rewrite fmap_cons in Htot'. cbn [sumZ snd] in Htot'. pose proof (sumZ_nonneg ((fun s => Z.of_nat (length (snd s))) <$> ls)) as Hs0. ospecialize (Hs0 _); [apply Forall_fmap, Forall_true; intros x; cbn; lia|]. cbn. apply u64_small. lia. }
  destruct (Hls 0%nat (ys, l) eq_refl) as (Hh & Hlen & Hw). rewrite Z.add_0_r in Hh.
  destruct (stratum_run c j (ys, l) ts Hc Hb Ht Hf Hh Hlen Hw) as (p & n & v & Hp & Hs & Hv & Hrun). cbn [snd] in Hrun. cbn zeta in Hrun. rewrite Hrun. clear Hrun.
  set (ts1 := set_ts_tot _ _). unfold end_phase. cbn [cur_partition cur_phase_n_partitions count_fetched do_switch_to_uniform]. cbn [length] in Hn.
  pose proof (same_but_holds (j + 1) 0 _ _ xs0 ltac:(lia) Hs H0) as H0'. destruct ls as [|s2 ls].
  - rewrite (proj2 (Z.eqb_eq _ _)) by (simpl in Hn; lia). cbn [negb]. rewrite (ps_uniform c Hc), Hb. cbn [andb negb]. unfold end_phase_plain. destruct (ho_var _ _ _ H0') as (v0 & Hv0 & Hvar0).
    cbn [ts1 set_ts_tot completed set_ts_stats ts_parts]. rewrite (ho_mu _ _ _ H0'), Hv0. cbn [mbind option_bind cur_phase count_fetched]. rewrite (proj2 (Z.eqb_neq _ _) (ps_phase c Hc)). cbn [mbind option_bind sample_phase].
    eexists. split; [reflexivity|]. cbn [set_ts_tot ts_tot mix mu_total var_total mu_phase var_phase initial_and_uniform_sample_size total_samples_fetched count_fetched].
    change (u64 (total_samples_fetched c + Z.of_nat (length l))) with (total_samples_fetched (count_fetched c j (length l))). rewrite Hfetched.
    assert (Ha : alpha = ofZ (initial_and_uniform_sample_size c) / ofZ (total_samples_fetched c + Z.of_nat (length l))) by (unfold alpha, phase_samples; rewrite fmap_cons, fmap_nil; cbn [sumZ snd]; do 2 f_equal; lia).
    cbn [fadd fsub fmul fdiv exact_float8 f_of_Z]. rewrite <- Ha. unfold strata_mean, strata_var. rewrite !fmap_cons, !fmap_nil, !sum_cons, !sum_nil, !Qcplus_0_r, Z2Qc_inj_1.
    cbn [ts1 set_ts_tot ts_tot mu_phase var_phase]. split; [done|]. intros Hl0 [Hl1 _]%Forall_cons. rewrite (Hvar0 Hl0), (Hv Hl1). done.
  - rewrite (proj2 (Z.eqb_neq _ _)) by (simpl in Hn; lia). cbn [negb mbind option_bind].
    assert (Hps : phase_samples ((ys, l) :: s2 :: ls) = (Z.of_nat (length l) + phase_samples (s2 :: ls))%Z) by done.
    destruct (IH (count_fetched c j (length l)) (j + 1)%Z ts1 ltac:(destruct Hc; by split) Hb Ht Hf H0' (strata_hold_tail _ _ _ _ _ Hs Hj Hls) ltac:(done) ltac:(lia) ltac:(cbn [length cur_phase_n_partitions count_fetched] in *; lia) ltac:(rewrite Hfetched; lia) ltac:(rewrite Hfetched; lia)) as (ts' & -> & Hmu & Hvar).
    exists ts'. split; [done|]. rewrite Hfetched, <- Z.add_assoc, <- Hps in Hmu, Hvar. change (initial_and_uniform_sample_size (count_fetched c j (length l))) with (initial_and_uniform_sample_size c) in Hmu, Hvar. fold alpha in Hmu, Hvar. unfold strata_mean, strata_var in *. rewrite (fmap_cons _ (ys, l)), sum_cons, (fmap_cons _ (ys, l)), sum_cons. cbn [ts1 set_ts_tot ts_tot mu_phase var_phase fadd exact_float8] in Hmu, Hvar. split.
    + rewrite Hmu. change ((mean ∘ stratum) (ys, l)) with (mean (stratum (ys, l))). ring.
    + intros Hl0 [Hl1 Hl2]%Forall_cons. rewrite (Hvar Hl0 Hl2), (Hv Hl1). change ((var_of_mean ∘ stratum) (ys, l)) with (var_of_mean (stratum (ys, l))). ring.
Qed.



End Partition.

End Exact.

(** The inverse error function is odd. *)
Lemma erf_inv_odd (log sqrt : Qc -> Qc) x : aqp_erf_inv log sqrt (- x)%Qc = (- aqp_erf_inv log sqrt x)%Qc.
Proof.
  unfold aqp_erf_inv. cbn [fadd fsub fmul f_of_Z exact_float8]. replace ((Qc_of_Z 1 - - x) * (Qc_of_Z 1 + - x))%Qc with ((Qc_of_Z 1 - x) * (Qc_of_Z 1 + x))%Qc by ring.
  set (p := if flt _ _ then _ else _). cbn. ring.
Qed.

(** The progressive count reads its float8 arguments as integers: the first sample of a
    partition, number 1.0, is not recognized. *)
Example first_sample_missed : feq (f_of_Z (Float8GetDatum (double_of_Z 1))) (f_of_Z (F := double) 1) = false.
Proof. vm_compute. reflexivity. Qed.

(** ** Concrete samples *)

Definition demo_settings : settings := mk_settings false false false AQP_OPTIMIZATION_STRATEGY_DP 10.
Definition demo_sample (rej : bool) (inv x : Z) : AQPPSWRCtlInfoData Qc * Qc := (mk_info rej (Qc_of_Z inv) None 0 false 0 [] [], Qc_of_Z x).
Definition demo_swr : AQPPSWRControlState Qc := mk_ctl false false false 0 1 0 3 3 3 3 0 0 0 [] [].
Definition demo_pswr : AQPPSWRControlState Qc := mk_ctl true false false 1 2 0 4 2 2 2 0 0 2 [] [].
Definition demo_state (p : parts Qc) : AQPApproxAggTransState Qc := mk_ts 0 false true None 0 0%Qc 0%Qc p (mk_totals 0 0 0 0 0 0)%Qc 0.
Definition demo_first : list Qc := [Qc_of_Z 2; Qc_of_Z 4].
Definition demo_parts : parts Qc := mk_parts [mean demo_first; 0%Qc; 0%Qc] [var_of_mean demo_first; 0%Qc; 0%Qc] [2; 0; 0] [] [].

(** On doubles the two implementations part when a sum overflows: float8_accum raises an
    error, the new transition function goes on with an infinite mean. *)
Definition demo_huge : double := S754_finite false 4503599627370496 971.

Example overflow_differs :
  float8_accum (mk_f8s (double_of_Z 1) demo_huge (double_of_Z 0)) demo_huge = None /\
  mu_part <$> add_value demo_settings (mk_ctl false false false 0 1 0 2 2 2 2 0 0 0 [] []) false 0 demo_huge
    (mk_parts [demo_huge] [double_of_Z 0] [1] [] []) = Some [S754_infinity false].
Proof. split; vm_compute; reflexivity. Qed.



End Pagg.
