(* ===== verification/Unbiased.v ===== *)
(** * The estimates are unbiased

    The composition of sampling and aggregation: a draw from the index chooses a visible
    entry with its weight as probability (Sample, Draw), the scan passes the value of the
    aggregate's argument on with the inverse probability, and the transition functions of
    aqp_pagg.c make an estimate and its variance of the values (Pagg).  The draws run on
    doubles, the aggregation in exact arithmetic.  Averaged over all equally likely sequences
    of cutoffs, the estimate is the sum of the values weighted with probability times
    reported inverse probability, the exact sum if the reported ones are exact, and the
    variance the functions compute is the mean square error of the estimate. *)

From Stdlib Require Import Qcanon Field.
From stdpp Require Import base numbers option list.
From S2P Require Import Prelude Tuple Dedup Versions Double Float8 Page Search Btree Quals Pagg Sample Draw Range.

Module Unbiased.
Import Tuple Dedup Versions Double Float8 Page Search Btree Quals Pagg Sample Draw Range.
Local Open Scope Qc_scope.

Lemma sum_ext {A} (f h : A -> Qc) l : (forall x, x ∈ l -> f x = h x) -> sum (f <$> l) = sum (h <$> l).
Proof. intros H. f_equal. apply Forall_fmap_ext_1, Forall_forall, H. Qed.

Lemma sum_add {A} (f h : A -> Qc) l : sum ((fun x => f x + h x) <$> l) = sum (f <$> l) + sum (h <$> l).
Proof. induction l as [|x l IH]; [rewrite !fmap_nil, sum_nil; ring|]. rewrite !fmap_cons, !sum_cons, IH. ring. Qed.

Lemma sum_scale {A} (f : A -> Qc) k l : sum ((fun x => k * f x) <$> l) = k * sum (f <$> l).
Proof. induction l as [|x l IH]; [rewrite !fmap_nil, sum_nil; ring|]. rewrite !fmap_cons, !sum_cons, IH. ring. Qed.

Lemma sum_const {A} (k : Qc) (l : list A) : sum ((fun _ => k) <$> l) = len l * k.
Proof.
  induction l as [|x l IH]; [rewrite fmap_nil, sum_nil; cbn [length]; change (Z.of_nat 0) with 0%Z; rewrite Z2Qc_inj_0; ring|].
  rewrite fmap_cons, sum_cons, IH. cbn [length]. rewrite Nat2Z.inj_succ, <- Z.add_1_r, Z2Qc_inj_add, Z2Qc_inj_1. ring.
Qed.

Lemma sum_bind {A B} (f : B -> Qc) (k : A -> list B) l : sum (f <$> (l ≫= k)) = sum ((fun x => sum (f <$> k x)) <$> l).
Proof. induction l as [|x l IH]; [done|]. rewrite bind_cons, fmap_app, sum_app, fmap_cons, sum_cons, IH. done. Qed.

(** ** Sums over sequences of draws *)

Section Draws.
Context {A : Type} (U : list A) (h : A -> Qc).
Hypothesis HU : U <> [].

(** All sequences of [n] outcomes. *)
Fixpoint sequences (n : nat) : list (list A) :=
  match n with O => [[]] | S n => c ← U; cs ← sequences n; [c :: cs] end.

Definition total (cs : list A) : Qc := sum (h <$> cs).
Definition H1 : Qc := sum (h <$> U).
Definition H2 : Qc := sum ((fun c => h c * h c) <$> U).

Lemma sum_sequences (f : list A -> Qc) n : sum (f <$> sequences (S n)) = sum ((fun c => sum ((fun cs => f (c :: cs)) <$> sequences n)) <$> U).
Proof.
  cbn [sequences]. rewrite sum_bind. apply sum_ext. intros c _. rewrite sum_bind. apply sum_ext. intros cs _. rewrite fmap_cons, fmap_nil, sum_cons, sum_nil. ring.
Qed.

Fixpoint power (n : nat) : Qc := match n with O => 1 | S n => len U * power n end.

Lemma power_nonzero n : power n <> 0.
Proof. induction n as [|n IH]; [done|]. cbn [power]. intros H. apply Qcmult_integral in H as [H|H]; [|done]. by apply (len_nonzero U). Qed.

Lemma sequences_count n : len (sequences n) = power n.
Proof.
  replace (len (sequences n)) with (sum ((fun _ => 1) <$> sequences n)) by (rewrite sum_const; ring).
  induction n as [|n IH]; [cbn [sequences]; rewrite fmap_cons, fmap_nil, sum_cons, sum_nil; cbn [power]; ring|].
  rewrite sum_sequences, IH, sum_const. done.
Qed.

Lemma total_cons c cs : total (c :: cs) = h c + total cs.
Proof. unfold total. by rewrite fmap_cons, sum_cons. Qed.

Lemma sequences_length n cs : cs ∈ sequences n -> length cs = n.
Proof.
  revert cs. induction n as [|n IH]; intros cs; cbn [sequences]; [by intros ->%list_elem_of_singleton|].
  intros (c & (cs' & ->%list_elem_of_singleton & Hcs)%list_elem_of_bind & _)%list_elem_of_bind. cbn [length]. by rewrite (IH cs').
Qed.

Lemma sequences_elem n cs : cs ∈ sequences n -> Forall (fun c => c ∈ U) cs.
Proof.
  revert cs. induction n as [|n IH]; intros cs; cbn [sequences]; [by intros ->%list_elem_of_singleton|].
  intros (c & (cs' & ->%list_elem_of_singleton & Hcs)%list_elem_of_bind & Hc)%list_elem_of_bind. constructor; [done|by apply IH].
Qed.

Lemma sum_total n : len U * sum (total <$> sequences n) = ofZ (Z.of_nat n) * power n * H1.
Proof.
  induction n as [|n IH]; [cbn [sequences power]; unfold total; rewrite !fmap_cons, !fmap_nil, sum_cons, sum_nil; change (Z.of_nat 0) with 0%Z; rewrite Z2Qc_inj_0; ring|].
  rewrite sum_sequences. rewrite (sum_ext _ (fun c => power n * h c + sum (total <$> sequences n))).
  2: { intros c _. rewrite <- sequences_count. rewrite (Qcmult_comm (len _)).
       rewrite (sum_ext _ (fun cs => h c + total cs)) by (intros cs _; apply total_cons). rewrite sum_add, sum_const. ring. }
  rewrite sum_add, sum_scale, sum_const, IH. fold H1. cbn [power]. rewrite Nat2Z.inj_succ, <- Z.add_1_r, Z2Qc_inj_add, Z2Qc_inj_1. ring.
Qed.

Lemma sum_total_square n :
  len U * len U * sum ((fun cs => total cs * total cs) <$> sequences n) =
  ofZ (Z.of_nat n) * power n * len U * H2 + ofZ (Z.of_nat n) * (ofZ (Z.of_nat n) - 1) * power n * (H1 * H1).
Proof.
  induction n as [|n IH]; [cbn [sequences power]; unfold total; rewrite !fmap_cons, !fmap_nil, sum_cons, !sum_nil; change (Z.of_nat 0) with 0%Z; rewrite Z2Qc_inj_0; ring|].
  rewrite sum_sequences. rewrite (sum_ext _ (fun c => (power n * (h c * h c) + (1 + 1) * sum (total <$> sequences n) * h c) + sum ((fun cs => total cs * total cs) <$> sequences n))).
  2: { intros c _. rewrite <- sequences_count.
       rewrite (sum_ext _ (fun cs => (h c * h c + (1 + 1) * h c * total cs) + total cs * total cs)) by (intros cs _; rewrite total_cons; ring).
       rewrite !sum_add, sum_const, sum_scale. ring. }
  rewrite !sum_add, !sum_scale, sum_const. fold H1 H2. pose proof (sum_total n) as HS. set (S := sum (total <$> sequences n)) in *. set (B := sum _) in *.
  transitivity (len U * len U * power n * H2 + (1 + 1) * len U * H1 * (len U * S) + len U * (len U * len U * B)); [ring|]. rewrite HS, IH. cbn [power].
  rewrite Nat2Z.inj_succ, <- Z.add_1_r, Z2Qc_inj_add, Z2Qc_inj_1. ring.
Qed.

End Draws.

(** The average of [f] over all sequences of [n] outcomes. *)
Definition average {A} (U : list A) (n : nat) (f : list A -> Qc) : Qc := mean (f <$> sequences U n).

Section Moments.
Context {A : Type} (U : list A) (h : A -> Qc) (n : nat).
Hypothesis HU : U <> [].
Hypothesis Hn : (0 < n)%nat.

Let Unz : len U <> 0 := len_nonzero U HU.
Let nnz : ofZ (Z.of_nat n) <> 0.
Proof. apply ofZ_nonzero. lia. Qed.
Let Pnz := power_nonzero U HU n.

Lemma average_sum f : average U n f = sum (f <$> sequences U n) / power U n.
Proof. unfold average, mean. by rewrite length_fmap, sequences_count. Qed.

Lemma average_ext f k : (forall cs, cs ∈ sequences U n -> f cs = k cs) -> average U n f = average U n k.
Proof. intros H. rewrite !average_sum. by rewrite (sum_ext f k). Qed.

(** The mean of the sample mean. *)
Lemma average_mean : average U n (fun cs => total h cs / ofZ (Z.of_nat n)) = H1 U h / len U.
Proof.
  rewrite average_sum, (sum_ext _ (fun cs => / ofZ (Z.of_nat n) * total h cs)) by (intros cs _; unfold Qcdiv; ring). rewrite sum_scale. pose proof (sum_total U h n) as H. set (S := sum _) in *.
  replace S with (ofZ (Z.of_nat n) * power U n * H1 U h / len U) by (rewrite <- H; field; done). field. by repeat split.
Qed.

(** The mean square error of the sample mean, and the mean of its estimated variance. *)
Lemma average_square_error : let mu := H1 U h / len U in
  average U n (fun cs => (total h cs / ofZ (Z.of_nat n) - mu) * (total h cs / ofZ (Z.of_nat n) - mu)) = (H2 U h / len U - mu * mu) / ofZ (Z.of_nat n).
Proof.
  intros mu. rewrite average_sum.
  rewrite (sum_ext _ (fun cs => (/ ofZ (Z.of_nat n) * / ofZ (Z.of_nat n) * (total h cs * total h cs) + - (1 + 1) * mu / ofZ (Z.of_nat n) * total h cs) + mu * mu)) by (intros cs _; unfold Qcdiv; ring).
  rewrite !sum_add, !sum_scale, sum_const, sequences_count by done. pose proof (sum_total U h n) as E1. pose proof (sum_total_square U h n) as E2. set (B := sum ((fun cs => total h cs * total h cs) <$> _)) in *. set (S := sum (total h <$> _)) in *.
  replace B with ((ofZ (Z.of_nat n) * power U n * len U * H2 U h + ofZ (Z.of_nat n) * (ofZ (Z.of_nat n) - 1) * power U n * (H1 U h * H1 U h)) / (len U * len U)) by (rewrite <- E2; field; done).
  replace S with (ofZ (Z.of_nat n) * power U n * H1 U h / len U) by (rewrite <- E1; field; done). unfold mu. field. by repeat split.
Qed.

Lemma average_variance : (1 < n)%nat -> let mu := H1 U h / len U in
  average U n (fun cs => var_of_mean (h <$> cs)) = (H2 U h / len U - mu * mu) / ofZ (Z.of_nat n).
Proof.
  intros Hn1 mu. assert (Hm : ofZ (Z.of_nat n) - 1 <> 0) by (rewrite <- Z2Qc_inj_1, <- Z2Qc_inj_sub; apply ofZ_nonzero; lia).
  set (k := ofZ (Z.of_nat n)) in *. rewrite (average_ext _ (fun cs => / (k * (k - 1)) * total (fun c => h c * h c) cs + - / (k * (k - 1) * k) * (total h cs * total h cs))).
  2: { intros cs Hcs. pose proof (sequences_length U n cs Hcs) as Hl. unfold var_of_mean. rewrite sxx_squares by (destruct cs; [simpl in Hl; lia|done]). rewrite length_fmap, Hl. fold k. unfold squares. rewrite <- list_fmap_compose. fold (total h cs).
       change (sum (_ <$> cs)) with (total (fun c => h c * h c) cs). field. by split. }
  rewrite average_sum, sum_add, !sum_scale. pose proof (sum_total U (fun c => h c * h c) n) as E1. pose proof (sum_total_square U h n) as E2.
  set (B := sum ((fun cs => total h cs * total h cs) <$> _)) in *. set (S := sum (total (fun c => h c * h c) <$> _)) in *. change (H1 U (fun c => h c * h c)) with (H2 U h) in E1. fold k in E1, E2.
  replace B with ((k * power U n * len U * H2 U h + k * (k - 1) * power U n * (H1 U h * H1 U h)) / (len U * len U)) by (rewrite <- E2; field; done).
  replace S with (k * power U n * H2 U h / len U) by (rewrite <- E1; field; done). unfold mu. field. by repeat split.
Qed.

End Moments.
(** ** Draws from the index *)

Lemma sum_perm l k : l ≡ₚ k -> sum l = sum k.
Proof. induction 1 as [|x l k _ IH|x y l|l k m _ IH1 _ IH2]; [done|by rewrite !sum_cons, IH|rewrite !sum_cons; ring|by rewrite IH1]. Qed.

Lemma var_perm l k : l ≡ₚ k -> var_of_mean l = var_of_mean k.
Proof.
  intros Hp. destruct l as [|x l]; [apply Permutation_nil_l in Hp; by subst k|]. unfold var_of_mean. rewrite !sxx_squares by (done || by intros ->; apply Permutation_nil_r in Hp).
  unfold squares. rewrite (sum_perm _ _ Hp). rewrite (sum_perm ((fun x => x * x) <$> x :: l) ((fun x => x * x) <$> k)) by (by rewrite Hp). by rewrite Hp.
Qed.

(** What a sample contributes. *)
Definition contribution (s : AQPPSWRCtlInfoData Qc * Qc) : Qc := if rejected (fst s) then 0 else snd s * joint_inv_prob (fst s).

Lemma sample_values_single i x : sample_values [(i, x)] = if rejected i then [] else [x * joint_inv_prob i].
Proof. unfold sample_values. rewrite filter_cons, filter_nil. cbn [fst]. by destruct (rejected i). Qed.

Lemma partition_values_perm l : partition_values l ≡ₚ contribution <$> l.
Proof.
  induction l as [|[i x] l IH]; [done|]. rewrite fmap_cons, <- IH. unfold partition_values. rewrite (sample_values_cons (i, x) l), sample_values_single. unfold contribution. cbn [fst snd].
  pose proof (sample_values_length l). destruct (rejected i); cbn [app length]; [|done].
  replace (S (length l) - length (sample_values l))%nat with (S (length l - length (sample_values l))) by lia. cbn [replicate]. apply Permutation_sym, Permutation_middle.
Qed.

Lemma seqZ_app (m a b : Z) : (0 <= a)%Z -> (0 <= b)%Z -> seqZ m (a + b) = seqZ m a ++ seqZ (m + a) b.
Proof.
  intros Ha Hb. unfold seqZ. rewrite Z2Nat.inj_add by done. rewrite seq_app, fmap_app. f_equal. rewrite Nat.add_0_l. rewrite <- (Nat.add_0_r (Z.to_nat a)), <- fmap_add_seq, <- list_fmap_compose.
  apply list_fmap_ext. intros _ k _. cbn. lia.
Qed.

Lemma sum_by_weight (f : entry -> Qc) l : nonneg l ->
  sum ((fun c => default 0 (f <$> pick c l)) <$> seqZ 0 (weight_of l)) = sum ((fun e => ofZ (en_weight e) * f e) <$> l).
Proof.
  induction 1 as [|e l He Hl IH]; [done|]. pose proof (nonneg_weight l Hl) as Hw. cbn in He. rewrite weight_of_cons, seqZ_app by lia.
  rewrite fmap_app, sum_app, fmap_cons, sum_cons. f_equal.
  - rewrite (sum_ext _ (fun _ => f e)); [rewrite sum_const, length_seqZ, Z2Nat.id by lia; done|]. intros c Hc%elem_of_seqZ. cbn [pick]. rewrite (proj2 (Z.ltb_lt _ _)) by lia. done.
  - rewrite <- IH, Z.add_0_l. rewrite <- (Z.add_0_r (en_weight e)) at 1. rewrite <- fmap_add_seqZ, <- list_fmap_compose. apply sum_ext. intros c Hc%elem_of_seqZ. cbn [compose pick].
    rewrite (proj2 (Z.ltb_ge _ _)) by lia. by replace (en_weight e + c - en_weight e)%Z with c by lia.
Qed.

Lemma sum_repeated (f : Z -> Qc) m l : sum (f <$> mjoin (replicate m l)) = ofZ (Z.of_nat m) * sum (f <$> l).
Proof.
  induction m as [|m IH]; [change (Z.of_nat 0) with 0%Z; rewrite Z2Qc_inj_0; cbn; ring|]. change (mjoin (replicate (S m) l)) with (l ++ mjoin (replicate m l)).
  rewrite fmap_app, sum_app, IH, Nat2Z.inj_succ, <- Z.add_1_r, Z2Qc_inj_add, Z2Qc_inj_1. ring.
Qed.

(** The random numbers [R] of a generator whose cutoffs in [0, W) are equally frequent. *)
Definition uniform (R : list double) (W : Z) : Prop :=
  Forall is_fraction R /\ exists m, (0 < m)%nat /\ omap (floor_mul_u64 W) R ≡ₚ mjoin (replicate m (seqZ 0 W)).

Lemma sum_uniform R W (f : Z -> Qc) : uniform R W -> (0 < W < 2 ^ 64)%Z ->
  R <> [] /\ sum ((fun r => default 0 (f <$> floor_mul_u64 W r)) <$> R) / len R = sum (f <$> seqZ 0 W) / ofZ W.
Proof.
  intros [Hr (m & Hm & Hp)] HW. assert (Hall : forall r, r ∈ R -> exists c, floor_mul_u64 W r = Some c).
  { intros r Hin. rewrite Forall_forall in Hr. destruct (floor_mul_range (2 ^ 64) W r HW ltac:(lia) (Hr r Hin)) as (c & Hc & _). by exists c. }
  assert (H : sum ((fun r => default 0 (f <$> floor_mul_u64 W r)) <$> R) = sum (f <$> omap (floor_mul_u64 W) R) /\ length (omap (floor_mul_u64 W) R) = length R).
  { clear Hp Hr. induction R as [|r R IH]; [done|]. destruct (Hall r ltac:(by left)) as [c Hc]. destruct IH as [IH1 IH2]; [intros r' Hr'; apply Hall; by right|].
    rewrite fmap_cons, sum_cons, IH1, Hc. cbn [omap list_omap]. rewrite Hc, fmap_cons, sum_cons. cbn [length]. by rewrite <- IH2. }
  destruct H as [-> Hlen]. assert (Hl : length R = (m * Z.to_nat W)%nat).
  { rewrite <- Hlen, Hp. clear. induction m as [|m IH]; [done|]. change (mjoin (replicate (S m) (seqZ 0 W))) with (seqZ 0 W ++ mjoin (replicate m (seqZ 0 W))). rewrite length_app, IH, length_seqZ. lia. }
  split; [intros ->; simpl in Hl; lia|]. rewrite Hl. rewrite (sum_perm _ (f <$> mjoin (replicate m (seqZ 0 W)))) by (by rewrite Hp). rewrite sum_repeated.
  rewrite Nat2Z.inj_mul, Z2Nat.id, Z2Qc_inj_mul by lia. pose proof (ofZ_nonzero W ltac:(lia)). pose proof (ofZ_nonzero (Z.of_nat m) ltac:(lia)). field. by split.
Qed.

(** ** The scan *)

Section Estimate.
Context (g : settings) (comparator : Z -> Z -> Z) (qsort_arg : list (Z * Qc) -> list (Z * Qc)) (datum_value : Qc -> Z).
Context (rel : index_rel) (meta : ABTMetaPageData) (pages : Z -> option page) (ai : agg_info) (agg_map_val : Z) (so : scan).
Context (base Recent : Z) (chain_of : Z -> list version) (fuel : nat).

(** The value of the aggregate's argument in the heap tuple with a TID, if the tuple is
    visible and satisfies the quals of the plan (index_fetch_heap and ExecQual). *)
Context (row : tid -> option Qc).

(** What the scan shares with the aggregate after its [n]-th draw. *)
Definition sample_info (rej : bool) (inv_prob : double) (n : Z) : AQPPSWRCtlInfoData Qc :=
  mk_info rej (Qc_of_double inv_prob) (Some [mk_sampler (Qc_of_double inv_prob) n]) n false 0 [] [].

(** The driver scan of a query on one table, without partition keys, after [n] draws, and
    with a finite warning threshold for rejections: draw, fetch the heap tuple, evaluate
    the quals. *)
Definition aqp_swr_scan_exec_new (n : Z) (r : double) : M (AQPPSWRCtlInfoData Qc * Qc) :=
  do sr <- _abt_sample_extended rel meta pages ai agg_map_val (store_read ai so chain_of) so fuel r None;
  let n := (n + 1)%Z in
  match sr_pos sr with
  | None => ret (sample_info true (sr_inv_prob sr) n, 0)
  | Some pos =>
      match row (sp_heapTid pos) with
      | None => ret (sample_info true (sr_inv_prob sr) n, 0)
      | Some v => ret (sample_info false (sr_inv_prob sr) n, v)
      end
  end.

Fixpoint scan_samples (n : Z) (rs : list double) : M (list (AQPPSWRCtlInfoData Qc * Qc)) :=
  match rs with
  | [] => ret []
  | r :: rs => do s <- aqp_swr_scan_exec_new n r; do l <- scan_samples (n + 1) rs; ret (s :: l)
  end.

(** The aggregate over the samples of the scan. *)
Definition run_estimate (c : AQPPSWRControlState Qc) (ts : AQPApproxAggTransState Qc) (rs : list double) : option (AQPApproxAggTransState Qc) :=
  match scan_samples 0 rs (mk_bs [] None) with
  | Ok l _ => sample_partition g comparator qsort_arg datum_value c l ts
  | Error _ => None
  end.
Definition estimate c ts rs : Qc := default 0 (aqp_approx_sum_internal_final <$> run_estimate c ts rs).
Definition estimated_variance c ts rs : Qc := default 0 (var_total ∘ ts_tot <$> run_estimate c ts rs).

(** *** What the candidates are worth *)

Context (k : nat) (root : Z) (l : list entry).
Abbreviation W := (weight_of l).

(** The inverse probability reported for an entry. *)
Definition inverse (e : entry) : Qc :=
  Qc_of_double (if leaf_has_agg ai then ddiv (double_of_Z W) (double_of_Z (en_weight e)) else double_of_Z W).

(** The value of an entry's row, 0 if the entry is hidden, killed or fails the scan's keys
    or the row is rejected. *)
Definition worth (e : entry) : Qc :=
  match pages (en_blk e) with
  | Some p =>
      match PageGetItem p (en_off e) with
      | Some (LeafTup t) => if accepted so e p t then default 0 (item_tid (LeafTup t) (en_post e) ≫= row) else 0
      | _ => 0
      end
  | None => 0
  end.

Definition drawn (r : double) : Qc := default 0 ((fun c => default 0 ((fun e => inverse e * worth e) <$> pick c l)) <$> floor_mul_u64 W r).

(** The number the estimates are scattered about. *)
Definition center : Qc := sum ((fun e => ofZ (en_weight e) / ofZ W * inverse e * worth e) <$> l).

Context (s : ABTSnapshot) (Hsnap : so_snapshot so = Some s) (Htyp : agg_typlen ai = 2%Z \/ agg_typlen ai = 4%Z \/ agg_typlen ai = 8%Z).
Context (Hs : snapshot_ok base s) (HR : xid_ok base Recent) (Hmin : TransactionIdPrecedes (sn_xmin s) Recent = false).
Hypothesis Hdraw : drawable rel pages ai agg_map_val so base Recent chain_of k root l.
Hypothesis Hroot : fast_root meta pages root None.
Hypothesis Hfuel : (S (S k) < fuel)%nat.
Hypothesis HW : (0 < W)%Z.

Lemma joint_sample rej inv n : (0 < n)%Z -> joint_inv_prob (sample_info rej inv n) = Qc_of_double inv.
Proof.
  intros Hn. unfold joint_inv_prob, sample_info. cbn [sampler_ctl]. rewrite filter_cons_True by (cbn; lia). rewrite filter_nil. cbn [foldl fmul exact_float8 f_of_Z sc_inv_prob]. rewrite Z2Qc_inj_1. ring.
Qed.

Lemma exec_run n r c : (0 <= n)%Z -> is_fraction r -> c = None \/ c = Some meta ->
  exists x c', aqp_swr_scan_exec_new n r (mk_bs [] c) = Ok x (mk_bs [] c') /\ (c' = None \/ c' = Some meta) /\ contribution x = drawn r.
Proof.
  intros Hn Hr Hc. assert (Hfr : fast_root meta pages root c) by (destruct Hroot; by split).
  destruct (draw_run rel meta pages ai agg_map_val so base Recent chain_of s Hsnap Htyp Hs HR Hmin k root fuel r l [] c Hdraw Hr Hfr Hfuel) as (c' & Hc' & Hres).
  unfold draw_result in Hres. rewrite (proj2 (Z.eqb_neq W 0)) in Hres by lia. destruct Hres as (cutoff & l1 & e & l2 & p & t & ht & Hcut & Hl & Hsh & [L1 L2 L3 L4 L5] & Hrun).
  assert (Hpick : pick cutoff l = Some e).
  { pose proof (candidates_nonneg _ _ _ _ _ _ _ _ (dr_candidates _ _ _ _ _ _ _ _ _ _ _ Hdraw)) as Hnn. rewrite Hl in Hnn |- *. by apply share_pick. }
  unfold aqp_swr_scan_exec_new. rewrite (bind_ok _ _ _ _ _ Hrun). unfold drawn. rewrite Hcut. cbn [fmap option_fmap option_map default]. rewrite Hpick. cbn [fmap option_fmap option_map default].
  unfold outcome, worth. rewrite L1, L2, L3. cbn [mbind option_bind sr_pos sr_inv_prob]. fold (inverse e).
  destruct (accepted so e p t); [cbn [sp_heapTid]; destruct (row ht) as [v|]|]; (eexists _, c'; split; [reflexivity|split; [done|]]); unfold contribution; cbn [fst snd rejected sample_info];
    rewrite ?joint_sample by lia; unfold inverse; cbn [default from_option id]; ring.
Qed.

Lemma scan_run rs : forall n c, (0 <= n)%Z -> Forall is_fraction rs -> c = None \/ c = Some meta ->
  exists xs c', scan_samples n rs (mk_bs [] c) = Ok xs (mk_bs [] c') /\ contribution <$> xs = drawn <$> rs.
Proof.
  induction rs as [|r rs IH]; intros n c Hn Hr Hc; [by exists [], c|]. apply Forall_cons in Hr as [Hr Hrs]. destruct (exec_run n r c Hn Hr Hc) as (x & c1 & Hx & Hc1 & Hw).
  destruct (IH (n + 1)%Z c1 ltac:(lia) Hrs Hc1) as (xs & c2 & Hxs & Hws). exists (x :: xs), c2. cbn [scan_samples]. rewrite (bind_ok _ _ _ _ _ Hx), (bind_ok _ _ _ _ _ Hxs). split; [done|]. by rewrite !fmap_cons, Hw, Hws.
Qed.

Lemma estimate_run c ts rs : swr_ctl c -> aqp_batch_sampling g = false -> is_template ts && ctl_grouped c = false -> plain_flags ts -> ts_parts ts = zero_parts g 1 -> (Z.of_nat (length rs) < 2 ^ 31)%Z ->
  Forall is_fraction rs -> is_Some (run_estimate c ts rs) /\ estimate c ts rs = total drawn rs / ofZ (Z.of_nat (length rs)) /\ ((1 < length rs)%nat -> estimated_variance c ts rs = var_of_mean (drawn <$> rs)).
Proof.
  intros Hc Hb Ht Hf Hz Hn Hrs. destruct (scan_run rs 0 None ltac:(lia) Hrs ltac:(by left)) as (xs & c' & Hrun & Hd). assert (Hlen : length xs = length rs) by (rewrite <- (length_fmap contribution), Hd; apply length_fmap).
  destruct (swr_run g comparator qsort_arg datum_value c xs ts Hc Hb Ht Hf Hz ltac:(lia)) as (ts' & Hagg & Hmu & Hvar). unfold estimate, estimated_variance, run_estimate. rewrite Hrun, Hagg. cbn [fmap option_fmap option_map default].
  split; [by eexists|]. rewrite Hlen in Hvar. pose proof (partition_values_perm xs) as Hp. rewrite Hd in Hp. split.
  - unfold aqp_approx_sum_internal_final. rewrite Hmu. unfold mean, total. rewrite (sum_perm _ _ Hp). by rewrite partition_values_length, Hlen.
  - intros Hn1. unfold compose. cbn. rewrite (Hvar Hn1). by apply var_perm.
Qed.

Lemma drawn_mean R : uniform R W -> R <> [] /\ H1 R drawn / len R = center.
Proof.
  intros Hu. pose proof (dr_weight _ _ _ _ _ _ _ _ _ _ _ Hdraw) as Hw64. destruct (sum_uniform R W (fun c => default 0 ((fun e => inverse e * worth e) <$> pick c l)) Hu ltac:(lia)) as [Hne Hsum]. split; [done|].
  unfold H1. change (fun r => default 0 (_ <$> floor_mul_u64 W r)) with drawn in Hsum. rewrite Hsum. rewrite sum_by_weight by apply (candidates_nonneg _ _ _ _ _ _ _ _ (dr_candidates _ _ _ _ _ _ _ _ _ _ _ Hdraw)).
  unfold center. pose proof (ofZ_nonzero W ltac:(lia)) as HWn. rewrite (sum_ext (fun e => ofZ (en_weight e) / ofZ W * inverse e * worth e) (fun e => / ofZ W * (ofZ (en_weight e) * (inverse e * worth e)))) by (intros e _; field; done).
  rewrite sum_scale. field. done.
Qed.

(** When the reported inverse probabilities are exact, the center is the exact sum. *)
Lemma center_exact : (forall e, e ∈ l -> worth e <> 0 -> inverse e * ofZ (en_weight e) = ofZ W) -> center = sum (worth <$> l).
Proof.
  intros He. apply sum_ext. intros e Hin. pose proof (ofZ_nonzero W ltac:(lia)) as HWn. destruct (decide (worth e = 0)) as [->|Hne]; [unfold Qcdiv; ring|].
  replace (ofZ (en_weight e) / ofZ W * inverse e * worth e) with (inverse e * ofZ (en_weight e) / ofZ W * worth e) by (unfold Qcdiv; ring). rewrite (He e Hin Hne). field. done.
Qed.

(** C1: Approximate sums are unbiased.  A query with an approximate sum over one table under
    TABLESAMPLE swr(n) draws from the index with random numbers whose cutoffs are equally
    frequent (the draws of C2, each with its heap fetch and quals), and the transition
    functions aggregate the samples, in exact arithmetic.  For every sequence of n random
    numbers the scan and the functions finish.  Over all sequences the average of the
    estimates is [center], the sum of the rows' values, each weighted with its probability
    times the inverse probability the index reported; for n > 1 the average of the computed
    variances is the mean square error of the estimates.  The center is the exact sum of
    the candidates' rows when the reported inverse probabilities are exact, as they are if
    the index stores no weights, every entry counts 1 and the total weight is below 2^53. *)
Theorem approx_sum_unbiased c ts R n : swr_ctl c -> aqp_batch_sampling g = false -> is_template ts && ctl_grouped c = false -> plain_flags ts -> ts_parts ts = zero_parts g 1 ->
  (0 < n)%nat -> (Z.of_nat n < 2 ^ 31)%Z -> uniform R W ->
  (forall rs, rs ∈ sequences R n -> is_Some (run_estimate c ts rs)) /\
  average R n (estimate c ts) = center /\
  ((1 < n)%nat -> average R n (estimated_variance c ts) = average R n (fun rs => (estimate c ts rs - center) * (estimate c ts rs - center))) /\
  ((forall e, e ∈ l -> worth e <> 0 -> inverse e * ofZ (en_weight e) = ofZ W) -> center = sum (worth <$> l)) /\
  (leaf_has_agg ai = false -> Forall (fun e => en_weight e = 1%Z) l -> (W < 2 ^ 53)%Z -> center = sum (worth <$> l)).
Proof.
  intros Hc Hb Ht Hf Hz Hn0 Hn Hu. destruct (drawn_mean R Hu) as [Hne Hmean].
  assert (Hrun : forall rs, rs ∈ sequences R n -> is_Some (run_estimate c ts rs) /\ estimate c ts rs = total drawn rs / ofZ (Z.of_nat n) /\ ((1 < n)%nat -> estimated_variance c ts rs = var_of_mean (drawn <$> rs))).
  { intros rs Hrs. pose proof (sequences_length R n rs Hrs) as Hlen. destruct (estimate_run c ts rs) as (H1 & H2 & H3); try done; [lia| |by rewrite Hlen in H2, H3].
    eapply Forall_impl; [by apply (sequences_elem R n)|]. intros r Hr. destruct Hu as [Hu _]. rewrite Forall_forall in Hu. by apply Hu. }
  split; [intros rs Hrs; by destruct (Hrun rs Hrs)|]. split; [|split; [|split; [apply center_exact|]]].
  - rewrite (average_ext R n _ (fun rs => total drawn rs / ofZ (Z.of_nat n))) by (intros rs Hrs; by destruct (Hrun rs Hrs) as (_ & ? & _)). rewrite average_mean by done. done.
  - intros Hn1. rewrite (average_ext R n (estimated_variance c ts) (fun rs => var_of_mean (drawn <$> rs))) by (intros rs Hrs; destruct (Hrun rs Hrs) as (_ & _ & H); by apply H).
    rewrite average_variance by done. rewrite <- Hmean. rewrite <- (average_square_error R drawn n Hne Hn0). apply average_ext. intros rs Hrs. by destruct (Hrun rs Hrs) as (_ & -> & _).
  - intros Ha Hone Hsmall. apply center_exact. intros e He _. unfold inverse. rewrite Ha. rewrite Forall_forall in Hone. rewrite (Hone e He), Qc_of_double_of_Z by lia. rewrite Z2Qc_inj_1. ring.
Qed.

End Estimate.

(** ** Two draws from the index of Draw *)

Definition demo_settings : settings := mk_settings false false false AQP_OPTIMIZATION_STRATEGY_DP 10.
Definition demo_ctl : AQPPSWRControlState Qc := mk_ctl false false false 0%Z 1%Z 0%Z 2%Z 2%Z 2%Z 2%Z 0%Z 0%Z 0%Z [] [].
Definition demo_state : AQPApproxAggTransState Qc := mk_ts 0%Z false true None 0%Z 0 0 (zero_parts demo_settings 1) (mk_totals 0 0 0 0 0 0) 0%Z.
Definition demo_row (ht : tid) : option Qc := Some (ofZ 7).

(** The middles of the 14 shares of [0, 1). *)
Definition demo_random : list double := (fun c => ddiv (double_of_Z (2 * c + 1)) (double_of_Z 28)) <$> seqZ 0 14.

Lemma demo_uniform : uniform demo_random 14.
Proof.
  split; [apply (bool_decide_unpack _); vm_compute; exact I|]. exists 1%nat. split; [lia|]. assert (omap (floor_mul_u64 14) demo_random = seqZ 0 14) as -> by (vm_compute; reflexivity). done.
Qed.

Lemma approx_sum_unbiased_witness :
  average demo_random 2 (estimate demo_settings Z.sub id (fun _ => 0%Z) demo_rel demo_meta Draw.demo_pages Draw.demo_ai 0 Draw.demo_scan Draw.demo_chain 5 demo_row demo_ctl demo_state) =
  center Draw.demo_pages Draw.demo_ai Draw.demo_scan demo_row Draw.demo_candidates.
Proof.
  destruct (approx_sum_unbiased demo_settings Z.sub id (fun _ => 0%Z) demo_rel demo_meta Draw.demo_pages Draw.demo_ai 0 Draw.demo_scan 50 102 Draw.demo_chain 5 demo_row 1 1 Draw.demo_candidates
    demo_abt_snapshot eq_refl ltac:(right; by right) demo_snapshot_ok (demo_xid_ok 102 ltac:(lia)) eq_refl
    Draw.demo_drawable ltac:(split; [done|done|by eexists|by eexists|by left]) ltac:(lia) ltac:(done) demo_ctl demo_state demo_random 2) as (_ & H & _).
  - by split.
  - done.
  - done.
  - by split.
  - done.
  - lia.
  - done.
  - apply demo_uniform.
  - exact H.
Defined.

End Unbiased.
