(* ===== verification/Budget.v ===== *)
(** * The sample budget of a progressive scan (aqp_pagg.c, aqp_pswrctl_node.c)

    A phase samples its partitions with the sizes the optimizer chose.
    [aqp_pswr_cap_allocation_to_remaining_budget] fits the sizes into what is left of the
    scan's sample budget: every partition gets its share, from the last to the first, at
    least 30 samples where the phase is large enough, and never more than is left. *)

From Stdlib Require Import SpecFloat.
From stdpp Require Import base numbers option list.
From S2P Require Import Prelude Double Float8 Pagg.

Module Budget.
Import Double Float8 Pagg.
Local Open Scope Z_scope.

(** The control node's fields. *)
Record allocation := mk_alloc {
  n_partitions : Z;
  phase_sample_size : Z;
  sample_budget : Z;
  samples_fetched : Z;
  discarded_probe_samples : Z;
  last_phase : bool;
  switch_to_uniform : bool;
  gpsa_opt_sample_size : list Z;
  gpsa_opt_sample_percent : option (list double)
}.

Definition aqp_pswr_budget_spent (a : allocation) : Z := u64 (samples_fetched a + discarded_probe_samples a).

Definition aqp_pswr_remaining_budget (a : allocation) : Z :=
  let spent := aqp_pswr_budget_spent a in if spent <? sample_budget a then sample_budget a - spent else 0.

Definition set_alloc (a : allocation) (size : Z) (last : bool) (sizes : list Z) (percents : option (list double)) : allocation :=
  mk_alloc (n_partitions a) size (sample_budget a) (samples_fetched a) (discarded_probe_samples a) last (switch_to_uniform a) sizes percents.

(** ceil of a double as a uint64. *)
Definition dceil_u64 (x : double) : option Z :=
  match dfloor (SFopp x) with
  | Some c => if (0 <=? - c) && (- c <? 2 ^ 64) then Some (- c) else None
  | None => None
  end.

(** [ceil(n * r)]. *)
Definition share_of (n : Z) (r : double) : option Z := dceil_u64 (dmul (double_of_Z n) r).

Definition active (sizes : list Z) : Z := Z.of_nat (length (filter (fun s => 0 < s) sizes)).

(** The size of one partition: [rem] is left of the phase, [before] partitions to come
    want at least 30. *)
Definition partition_size (enforce : bool) (rem before share : Z) : Z :=
  let s := if enforce && (share <? 30) then 30 else share in
  let s := if enforce && (30 * before <? rem) then Z.min s (rem - 30 * before) else s in
  Z.min s rem.

(** The loop, from partition [i - 1] down to [first]; [sizes] are those from [first] on. *)
Fixpoint allocate (enforce : bool) (size : Z) (percents : list double) (i : nat) (tot : Z) (sizes : list Z) : option (list Z * Z) :=
  match i with
  | O => Some (sizes, tot)
  | S idx =>
      s0 ← sizes !! idx;
      let rem := u64 (size - tot) in
      if (rem =? 0) || (s0 =? 0) then allocate enforce size percents idx tot (<[idx := 0]> sizes)
      else
        p ← percents !! idx; share ← share_of size p;
        let s := partition_size enforce rem (active (take idx sizes)) share in
        allocate enforce size percents idx (u64 (tot + s)) (<[idx := s]> sizes)
  end.

(** Under batch sampling the first partition is left out and the shares are recomputed. *)
Definition first_partition (batch : bool) (a : allocation) : nat := if batch && negb (switch_to_uniform a) then 1 else 0.

Definition drop_first (a : allocation) : option allocation :=
  let sizes := <[0%nat := 0]> (gpsa_opt_sample_size a) in
  let total := u64 (sumZ (take (Z.to_nat (n_partitions a) - 1) (drop 1 sizes))) in
  let zeroed := (fun p => <[0%nat := S754_zero false]> p) <$> gpsa_opt_sample_percent a in
  if total =? 0 then Some (set_alloc a total (last_phase a) sizes zeroed)
  else
    let percents := (fun p => imap (fun i q => if (1 <=? i)%nat && (Z.of_nat i <? n_partitions a) then
        match sizes !! i with Some s => ddiv (double_of_Z s) (double_of_Z total) | None => q end else q) p) <$> zeroed in
    Some (set_alloc a total (last_phase a) sizes percents).

(** The size of the phase within the remaining budget. *)
Definition capped_size (first : nat) (a : allocation) (remaining : Z) : Z :=
  let size := Z.min (phase_sample_size a) remaining in
  let size := if (first =? 0)%nat && (1 <? n_partitions a) && (size <? 30 * n_partitions a) then Z.min (30 * n_partitions a) remaining else size in
  if (n_partitions a =? 1) && (first =? 0)%nat && (size <? 30) then Z.min 30 remaining else size.

Definition enforces_minimum (first : nat) (a : allocation) (sizes : list Z) (size : Z) : bool :=
  let partitions := if (first =? 0)%nat then n_partitions a else active sizes in
  (0 <? partitions) && (30 * partitions <=? size).

Definition aqp_pswr_cap_allocation_to_remaining_budget (batch : bool) (a : allocation) : option allocation :=
  let k := n_partitions a in let first := first_partition batch a in
  if (k =? 0) || (phase_sample_size a =? 0) || (k <=? Z.of_nat first) then Some a else
  a ← (if (first =? 1)%nat then drop_first a else Some a);
  if (first =? 1)%nat && (phase_sample_size a =? 0) then Some a else
  let remaining := aqp_pswr_remaining_budget a in
  if remaining =? 0 then Some (set_alloc a 0 true (gpsa_opt_sample_size a) (gpsa_opt_sample_percent a)) else
  let size := capped_size first a remaining in
  let percents := default [] (gpsa_opt_sample_percent a) in
  if (k =? 1) && (first =? 0)%nat then
    percents ← aset percents 0 (double_of_Z 1); sizes ← aset (gpsa_opt_sample_size a) 0 size;
    Some (set_alloc a size (last_phase a) sizes (Some percents))
  else
    let n := (Z.to_nat k - first)%nat in
    let sizes := take n (drop first (gpsa_opt_sample_size a)) in
    '(sizes, tot) ← allocate (enforces_minimum first a sizes size) size (drop first percents) n 0 sizes;
    Some (set_alloc a tot (last_phase a) (take first (gpsa_opt_sample_size a) ++ sizes ++ drop (Z.to_nat k) (gpsa_opt_sample_size a)) (gpsa_opt_sample_percent a)).

(** ** Lemmas *)

Lemma share_range n r s : share_of n r = Some s -> 0 <= s < 2 ^ 64.
Proof. unfold share_of, dceil_u64. case_match; [|done]. case_match eqn:E; [|done]. intros [= <-]. lia. Qed.

Lemma partition_size_spec enforce rem before share : 0 < rem -> 0 <= share -> 0 <= before -> (enforce = true -> 30 * (before + 1) <= rem) ->
  let s := partition_size enforce rem before share in 0 <= s <= rem /\ (enforce = true -> 30 <= s /\ 30 * before <= rem - s).
Proof.
  intros Hr Hs Hb He. unfold partition_size. destruct enforce; cbn [andb]; [|lia]. specialize (He eq_refl).
  rewrite (proj2 (Z.ltb_lt _ _)) by lia. destruct (Z.ltb_spec share 30); lia.
Qed.

Lemma active_nonneg l : 0 <= active l.
Proof. unfold active. lia. Qed.

Lemma active_snoc l x : active (l ++ [x]) = active l + (if 0 <? x then 1 else 0).
Proof. unfold active. rewrite filter_app, length_app, filter_cons, filter_nil. destruct (Z.ltb_spec 0 x); [rewrite decide_True by lia|rewrite decide_False by lia]; simpl; lia. Qed.

(** What became of a partition's size. *)
Definition resized (enforce : bool) (s0 s : Z) : Prop := 0 <= s /\ (s0 = 0 -> s = 0) /\ (enforce = true -> 0 < s0 -> 30 <= s).

Lemma allocate_sizes enforce size percents i : forall tot sizes, (i <= length sizes)%nat -> (i <= length percents)%nat -> Forall (fun s => 0 <= s) sizes -> 0 <= tot <= size -> size < 2 ^ 64 ->
  Forall (fun p => is_Some (share_of size p)) percents -> (enforce = true -> 30 * active (take i sizes) <= size - tot) ->
  exists sizes' tot', allocate enforce size percents i tot sizes = Some (sizes', tot') /\ Forall2 (resized enforce) (take i sizes) (take i sizes') /\ drop i sizes' = drop i sizes /\
    tot' = tot + sumZ (take i sizes') /\ tot' <= size /\ length sizes' = length sizes.
Proof.
  induction i as [|i IH]; intros tot sizes Hi Hp Hnn Ht Hsz Hps He; cbn [allocate].
  { exists sizes, tot. split_and!; [done|constructor|done|rewrite take_0; simpl; lia|lia|done]. }
  destruct (lookup_lt_is_Some_2 sizes i ltac:(lia)) as [s0 Hs0]. rewrite Hs0. cbn [mbind option_bind]. rewrite (u64_small (size - tot)) by lia. rewrite (take_S_r _ _ _ Hs0), active_snoc in He.
  pose proof (proj1 (Forall_lookup _ _) Hnn i s0 Hs0) as Hs0n. cbn in Hs0n.
  assert (Hstep : forall s, 0 <= s <= size - tot -> resized enforce s0 s -> (enforce = true -> 30 * active (take i sizes) <= size - (tot + s)) ->
    exists sizes' tot', allocate enforce size percents i (tot + s) (<[i := s]> sizes) = Some (sizes', tot') /\ Forall2 (resized enforce) (take (S i) sizes) (take (S i) sizes') /\
      drop (S i) sizes' = drop (S i) sizes /\ tot' = tot + sumZ (take (S i) sizes') /\ tot' <= size /\ length sizes' = length sizes).
  { intros s Hs Hr Hs'. destruct (IH (tot + s) (<[i := s]> sizes)) as (sizes' & tot' & Hrun & Hf & Hd & Htot & Hle & Hlen); try done.
    { rewrite length_insert. lia. } { lia. } { apply Forall_insert; [done|lia]. } { lia. } { by rewrite take_insert_ge by lia. }
    assert (Hl : sizes' !! i = Some s). { rewrite <- (Nat.add_0_r i), <- lookup_drop, Hd, lookup_drop, Nat.add_0_r. apply list_lookup_insert_eq. lia. }
    exists sizes', tot'. split; [done|]. rewrite (take_S_r _ _ _ Hs0), (take_S_r _ _ _ Hl). rewrite take_insert_ge in Hf by lia. rewrite length_insert in Hlen. split; [apply Forall2_app; [done|by constructor]|]. split; [|split; [|done]].
    - rewrite <- (Nat.add_1_r i), <- !drop_drop, Hd. rewrite !drop_drop. apply drop_insert_lt. lia.
    - rewrite Htot, sumZ_app. simpl. lia. }
  destruct (Z.eqb_spec (size - tot) 0) as [H0|H0]; [|destruct (Z.eqb_spec s0 0) as [H1|H1]]; cbn [orb].
  - destruct (Hstep 0) as (? & ? & Hrun & ?); [lia| |intros E; specialize (He E); case_match; lia|rewrite Z.add_0_r in Hrun; by eauto].
    split_and!; [lia|done|]. intros -> Hpos. rewrite (proj2 (Z.ltb_lt _ _) Hpos) in He. specialize (He eq_refl). pose proof (active_nonneg (take i sizes)). lia.
  - destruct (Hstep 0) as (? & ? & Hrun & ?); [lia|split_and!; lia| |rewrite Z.add_0_r in Hrun; by eauto]. intros E. specialize (He E). case_match; lia.
  - destruct (lookup_lt_is_Some_2 percents i ltac:(lia)) as [q Hq]. rewrite Hq. cbn [mbind option_bind]. destruct (proj1 (Forall_lookup _ _) Hps i q Hq) as [share Hsh]. rewrite Hsh. cbn [mbind option_bind].
    destruct (partition_size_spec enforce (size - tot) (active (take i sizes)) share ltac:(lia) ltac:(apply share_range in Hsh; lia) (active_nonneg _)) as [Hps1 Hps2].
    { intros E. specialize (He E). rewrite (proj2 (Z.ltb_lt _ _)) in He by lia. lia. }
    set (s := partition_size _ _ _ _) in *. rewrite u64_small by lia. apply Hstep; [lia| |intros E; specialize (Hps2 E); lia]. split_and!; [lia|done|]. intros E _. by apply Hps2.
Qed.

Lemma capped_size_range first a remaining : 0 < remaining -> 0 < phase_sample_size a -> 0 < n_partitions a -> 0 < capped_size first a remaining <= remaining.
Proof. intros Hr Hs Hk. unfold capped_size. repeat case_match; lia. Qed.

(** The allocation the sizes of which are capped: without the first partition under batch
    sampling. *)
Definition prepared (batch : bool) (a : allocation) : option allocation := if (first_partition batch a =? 1)%nat then drop_first a else Some a.

Definition phase_sizes (batch : bool) (a a' : allocation) : list Z := take (Z.to_nat (n_partitions a) - first_partition batch a) (drop (first_partition batch a) (gpsa_opt_sample_size a')).

(** What the optimizer hands over. *)
Record allocatable (batch : bool) (a a1 : allocation) : Prop := {
  al_prep : prepared batch a = Some a1;
  al_parts : Z.of_nat (first_partition batch a) < n_partitions a;
  al_size : 0 < phase_sample_size a;
  al_size1 : 0 < phase_sample_size a1;
  al_lens : (Z.to_nat (n_partitions a) <= length (gpsa_opt_sample_size a1))%nat;
  al_lenp : (Z.to_nat (n_partitions a) <= length (default [] (gpsa_opt_sample_percent a1)))%nat;
  al_nonneg : Forall (fun s => 0 <= s) (gpsa_opt_sample_size a1);
  al_left : 0 < aqp_pswr_remaining_budget a1 < 2 ^ 64;
  al_share : Forall (fun p => is_Some (share_of (capped_size (first_partition batch a) a1 (aqp_pswr_remaining_budget a1)) p)) (default [] (gpsa_opt_sample_percent a1))
}.

Lemma prepared_same batch a a1 : prepared batch a = Some a1 -> n_partitions a1 = n_partitions a /\ (first_partition batch a = 0%nat -> a1 = a).
Proof.
  unfold prepared, first_partition, drop_first. destruct (batch && negb (switch_to_uniform a)); cbn [Nat.eqb]; [|intros [= ->]; done]. case_match; intros [= <-]; done.
Qed.

(** C20: The samples of a phase stay within the budget.  While some budget is left, capping
    an allocation succeeds without leaving the arrays; the phase then has exactly as many
    samples as its partitions together, at most what was left of the budget, and it is
    not made the last one.  With more than one partition, none that had no samples gets
    any, and if the phase can give 30 samples to each, every partition that had some
    keeps at least 30. *)
Theorem cap_respects_budget batch a a1 : allocatable batch a a1 ->
  exists a', aqp_pswr_cap_allocation_to_remaining_budget batch a = Some a' /\ phase_sample_size a' = sumZ (phase_sizes batch a a') /\
    phase_sample_size a' <= aqp_pswr_remaining_budget a1 /\ last_phase a' = last_phase a1 /\
    (n_partitions a <> 1 -> let sizes := phase_sizes batch a a1 in
     Forall2 (resized (enforces_minimum (first_partition batch a) a1 sizes (capped_size (first_partition batch a) a1 (aqp_pswr_remaining_budget a1)))) sizes (phase_sizes batch a a')).
Proof.
  intros [Hp Hk Hs Hs1 Hls Hlp Hnn Hleft Hsh]. destruct (prepared_same _ _ _ Hp) as [Hn1 _]. unfold aqp_pswr_cap_allocation_to_remaining_budget, phase_sizes. unfold prepared in Hp. set (first := first_partition batch a) in *.
  rewrite (proj2 (Z.eqb_neq (n_partitions a) 0)), (proj2 (Z.eqb_neq (phase_sample_size a) 0)), (proj2 (Z.leb_gt _ _)) by lia. cbn [orb]. rewrite Hp. cbn [mbind option_bind].
  rewrite (proj2 (Z.eqb_neq (phase_sample_size a1) 0)), andb_false_r by lia. rewrite (proj2 (Z.eqb_neq (aqp_pswr_remaining_budget a1) 0)) by lia.
  destruct (capped_size_range first a1 (aqp_pswr_remaining_budget a1) ltac:(lia) Hs1 ltac:(lia)) as [Hc1 Hc2]. set (size := capped_size first a1 _) in *. set (percents := default [] _) in *.
  destruct ((n_partitions a =? 1) && (first =? 0)%nat) eqn:E1.
  - apply andb_true_iff in E1 as [E1%Z.eqb_eq E2%Nat.eqb_eq]. rewrite E1, E2 in *. destruct (gpsa_opt_sample_size a1) as [|s0 ss] eqn:Ess; [simpl in Hls; lia|]. destruct percents as [|p0 pp] eqn:Epp; [simpl in Hlp; lia|].
    cbn [aset Z.leb Z.compare andb length Nat.ltb Nat.leb Z.to_nat mbind option_bind]. eexists. split; [reflexivity|].
    cbn [set_alloc phase_sample_size last_phase gpsa_opt_sample_size]. change (<[Z.to_nat 0 := size]> (s0 :: ss)) with (size :: ss). change (Z.to_nat 1 - 0)%nat with 1%nat. cbn [firstn skipn]. rewrite take_0. cbn [sumZ].
    split_and!; [lia|lia|done|lia].
  - assert (Hf1 : (first <= 1)%nat) by (unfold first, first_partition; destruct (batch && _); lia). set (sizes := take _ (drop first (gpsa_opt_sample_size a1))).
    assert (Hlen : length sizes = (Z.to_nat (n_partitions a) - first)%nat) by (unfold sizes; rewrite length_take, length_drop; lia).
    destruct (allocate_sizes (enforces_minimum first a1 sizes size) size (drop first percents) (Z.to_nat (n_partitions a) - first) 0 sizes) as (sizes' & tot' & -> & Hf & Hd & Htot & Hle & Hlen').
    { lia. } { rewrite length_drop. lia. } { by apply Forall_take, Forall_drop. } { lia. } { lia. } { by apply Forall_drop. }
    { intros (_ & He%Z.leb_le)%andb_true_iff. rewrite firstn_all2 by lia. rewrite Z.sub_0_r. etransitivity; [|exact He]. destruct (first =? 0)%nat; [|lia]. unfold active. pose proof (length_filter (fun s => 0 < s) sizes). lia. }
    rewrite (firstn_all2 sizes) in Hf by lia. rewrite (firstn_all2 sizes') in Hf, Htot by lia. cbn [mbind option_bind]. eexists. split; [reflexivity|]. cbn [set_alloc phase_sample_size gpsa_opt_sample_size last_phase].
    assert (Hx : take (Z.to_nat (n_partitions a) - first) (drop first (take first (gpsa_opt_sample_size a1) ++ sizes' ++ drop (Z.to_nat (n_partitions a)) (gpsa_opt_sample_size a1))) = sizes').
    { rewrite drop_app_length', take_app_length' by (rewrite ?length_take; lia). done. }
    rewrite Hx. split_and!; [lia|lia|done|intros _; exact Hf].
Qed.

(** ** A phase of three partitions *)

Definition demo_alloc : allocation :=
  mk_alloc 3 400 1000 800 50 false false [200; 0; 200] (Some [S754_finite false 4503599627370496 (-53); S754_zero false; S754_finite false 4503599627370496 (-53)]).

Example demo_capped : aqp_pswr_cap_allocation_to_remaining_budget false demo_alloc =
  Some (mk_alloc 3 150 1000 800 50 false false [75; 0; 75] (gpsa_opt_sample_percent demo_alloc)).
Proof. vm_compute. reflexivity. Qed.

Lemma demo_allocatable : allocatable false demo_alloc demo_alloc.
Proof.
  split; [done|done|done|done|cbn; lia|cbn; lia|by repeat constructor|by split|].
  repeat (apply Forall_cons; split); [by eexists; vm_compute..|constructor].
Qed.

Lemma cap_respects_budget_witness : exists a', aqp_pswr_cap_allocation_to_remaining_budget false demo_alloc = Some a' /\ phase_sample_size a' <= 150.
Proof. destruct (cap_respects_budget false demo_alloc demo_alloc demo_allocatable) as (a' & H1 & _ & H2 & _). exists a'. split; [exact H1|exact H2]. Defined.

End Budget.
