(* ===== verification/PaggStats.v ===== *)
(** * The intervals of the first phase (aqp_pagg.c)

    After the first phase of a progressive scan the recorded samples, sorted by the
    partition key, are divided into at most aqp_dp_intervals_count intervals, from which
    the optimizer chooses the partitions of the later phases.  Each interval has at least
    two samples, no key falls into two intervals, and each comes with the mean and the
    variance of all samples up to its end. *)

From Stdlib Require Import Qcanon Field.
From stdpp Require Import base numbers option list.
From S2P Require Import Prelude Float8 Pagg.

Module PaggStats.
Import Float8 Pagg.
Local Open Scope Z_scope.

Section Intervals.
Context (g : settings) (comparator : Z -> Z -> Z).
Hypothesis Hcmp : forall k, comparator k k = 0.

Abbreviation I := (aqp_dp_intervals_count g).
Abbreviation dp_loop := (dp_loop g comparator).

Definition values (kv : list (Z * Qc)) : list Qc := snd <$> kv.

(** The statistics of a prefix of [m] samples. *)
Definition prefix_of (kv : list (Z * Qc)) (m : nat) (q : AQPPrefixStats Qc) : Prop :=
  ps_mu q = mean (values (take m kv)) /\ ((1 < m)%nat -> ps_var q = var_of_mean (values (take m kv))).

(** The bounds of the intervals: from 0, two samples or more in each. *)
Definition bounds (ms : list nat) : Prop := head ms = Some 0%nat /\ forall p m m', ms !! p = Some m -> ms !! S p = Some m' -> (m + 2 <= m')%nat.

(** The entries of the closed intervals. *)
Definition closed (kv : list (Z * Qc)) (ps : list (AQPPrefixStats Qc)) (ms : list nat) : Prop :=
  forall p m, ms !! p = Some m -> exists q, aget ps (Z.of_nat p) = Some q /\ ps_m q = Z.of_nat m /\
    (p <> 0%nat -> prefix_of kv m q /\ exists k0 x0 k x, kv !! (m - 1)%nat = Some (k0, x0) /\ kv !! m = Some (k, x) /\ comparator k0 k <> 0 /\ ps_key q = k).

(** Changes of the key in the rest of the samples. *)
Fixpoint changes (prev : Z) (kv : list (Z * Qc)) : Z :=
  match kv with [] => 0 | (k, _) :: kv => (if comparator prev k =? 0 then 0 else 1) + changes k kv end.

Lemma changes_distinct kv : forall prev, changes prev kv + 1 <= distinct_keys prev kv.
Proof.
  induction kv as [|[k x] kv IH]; intros prev; cbn [changes distinct_keys]; [lia|]. specialize (IH k). destruct (Z.eqb_spec prev k) as [->|]; [rewrite Hcmp; simpl; lia|]. case_match; lia.
Qed.

Lemma changes_nonneg kv : forall prev, 0 <= changes prev kv.
Proof. induction kv as [|[k x] kv IH]; intros prev; cbn [changes]; [lia|]. specialize (IH k). case_match; lia. Qed.

(** The state of the loop before sample [i]. *)
Record loop_inv (kv : list (Z * Qc)) (d r : Z) (i : nat) (ps : list (AQPPrefixStats Qc)) (ms : list nat) (A c : Z) : Prop := {
  li_bounds : bounds ms;
  li_last : exists m, last ms = Some m /\ (m < i)%nat;
  li_closed : closed kv ps ms;
  li_cur : exists q, aget ps (Z.of_nat (length ms)) = Some q /\ prefix_of kv i q /\ ((1 < i)%nat -> fst <$> last kv = Some (ps_key q));
  li_room : Z.of_nat (length ms) <= I;
  li_len : I + 1 <= Z.of_nat (length ps);
  li_count : (Z.of_nat (length ms) - 1) * d + Z.min (Z.of_nat (length ms) - 1) r <= A
}.

Lemma prefix_next kv i k x q last_key : kv !! i = Some (k, x) -> (0 < i)%nat -> prefix_of kv i q ->
  prefix_of kv (S i) (add_to_prefix (Z.of_nat i) x last_key q).
Proof.
  intros Hk Hi [Hmu Hvar]. unfold prefix_of, add_to_prefix. cbn [ps_mu ps_var]. rewrite (take_S_r _ _ _ Hk). unfold values in *. rewrite fmap_app. cbn [fmap list_fmap snd].
  assert (Hlen : length (snd <$> take i kv) = i) by (rewrite length_fmap, length_take; apply lookup_lt_Some in Hk; lia).
  rewrite Hmu. cbn [fadd fsub fmul fdiv f_of_Z exact_float8]. rewrite <- Hlen at 1 3. split; [apply next_mean|]. intros _.
  rewrite <- (next_var _ x (ps_var q)); rewrite ?Hlen; [|intros E; rewrite E in Hlen; simpl in Hlen; lia|done].
  f_equal. unfold Qcdiv. ring.
Qed.

Lemma aget_some {A} (l : list A) i : 0 <= i < Z.of_nat (length l) -> is_Some (aget l i).
Proof. intros Hi. unfold aget. rewrite (proj2 (Z.leb_le _ _)) by lia. apply lookup_lt_is_Some_2. lia. Qed.

Lemma aset_length {A} (l l' : list A) i x : aset l i x = Some l' -> length l' = length l.
Proof. unfold aset. case_match; [|done]. intros [= <-]. apply length_insert. Qed.

(** Closing an interval leaves a copy of its entry after it. *)
Lemma close_run (ps : list (AQPPrefixStats Qc)) j i k h q : aget ps j = Some q -> 0 <= j -> j + 1 < Z.of_nat (length ps) ->
  exists ps', close_interval g ps j i k h = Some ps' /\ length ps' = length ps /\ aget ps' (j + 1) = Some (set_ps_key q k) /\
    aget ps' j = Some (set_ps_m g (set_ps_key q k) i h) /\ forall p, p <> j -> p <> j + 1 -> aget ps' p = aget ps p.
Proof.
  intros Hq Hj Hl. unfold close_interval. rewrite Hq. cbn [mbind option_bind]. rewrite (aset_run _ _ _ _ Hq). cbn [mbind option_bind].
  set (ps1 := <[Z.to_nat j := _]> ps). assert (E1 : aset ps j (set_ps_key q k) = Some ps1) by exact (aset_run _ _ _ _ Hq). pose proof (aset_length _ _ _ _ E1) as L1.
  destruct (aget_some ps1 (j + 1)) as [q1 Hq1]; [lia|]. rewrite (aset_run _ _ _ _ Hq1). cbn [mbind option_bind]. set (ps2 := <[Z.to_nat (j + 1) := _]> ps1).
  assert (E2 : aset ps1 (j + 1) (set_ps_key q k) = Some ps2) by exact (aset_run _ _ _ _ Hq1). pose proof (aset_length _ _ _ _ E2) as L2.
  destruct (aget_some ps2 j) as [q2 Hq2]; [lia|]. rewrite (aset_run _ _ _ _ Hq2). eexists. split; [done|]. pose proof (aset_run _ _ _ (set_ps_m g (set_ps_key q k) i h) Hq2) as E3.
  split; [rewrite (aset_length _ _ _ _ E3); lia|]. rewrite !(aget_aset _ _ _ _ _ E3), !(aget_aset _ _ _ _ _ E2).
  split; [by rewrite decide_False, decide_True by lia|]. split; [by rewrite decide_True|]. intros p H1 H2. by rewrite (aget_aset _ _ _ _ _ E3), (aget_aset _ _ _ _ _ E2), (aget_aset _ _ _ _ _ E1), !decide_False by done.
Qed.

Lemma prefix_accumulate (ps : list (AQPPrefixStats Qc)) j i (x : Qc) last_key q : aget ps j = Some q ->
  exists ps', accumulate ps j i x last_key = Some ps' /\ length ps' = length ps /\ aget ps' j = Some (add_to_prefix i x last_key q) /\ forall p, p <> j -> aget ps' p = aget ps p.
Proof.
  intros Hq. unfold accumulate. rewrite Hq. cbn [mbind option_bind]. rewrite (aset_run _ _ _ _ Hq). eexists. split; [done|]. pose proof (aset_run _ _ _ (add_to_prefix i x last_key q) Hq) as E.
  split; [by rewrite (aset_length _ _ _ _ E)|]. split; [by rewrite (aget_aset _ _ _ _ _ E), decide_True|]. intros p Hp. by rewrite (aget_aset _ _ _ _ _ E), decide_False.
Qed.

Lemma closed_keep kv ps ps' ms : (forall p, (p < length ms)%nat -> aget ps' (Z.of_nat p) = aget ps (Z.of_nat p)) -> closed kv ps ms -> closed kv ps' ms.
Proof. intros H Hc p m Hp. rewrite H by (by eapply lookup_lt_Some). by apply Hc. Qed.

Lemma bounds_snoc ms m i : bounds ms -> last ms = Some m -> (m + 2 <= i)%nat -> bounds (ms ++ [i]).
Proof.
  intros [Hh Hb] Hl Hi. split; [by destruct ms|]. intros p a b Ha Hb'. destruct (decide (S p < length ms)%nat).
  - rewrite lookup_app_l in Ha, Hb' by lia. by eapply Hb.
  - apply lookup_app_Some in Hb' as [Hb'|[Hp Hb']]; [apply lookup_lt_Some in Hb'; lia|]. apply list_lookup_singleton_Some in Hb' as [Hz <-].
    rewrite lookup_app_l in Ha by lia. rewrite last_lookup in Hl. replace (pred (length ms)) with p in Hl by lia. rewrite Hl in Ha. injection Ha as <-. done.
Qed.

(** Whether an interval ends before sample [i]. *)
Definition ends (d r j c i m : Z) : bool := (1 <? u64 (i - m)) && (d + (if j <=? r then 1 else 0) <? c).

Lemma close_inv kv d r i ps ms A c k x prev y h total : loop_inv kv d r i ps ms A c -> kv !! i = Some (k, x) -> kv !! (i - 1)%nat = Some (prev, y) -> comparator prev k <> 0 ->
  Z.of_nat (length kv) < 2 ^ 64 -> 0 <= d -> (total <= I * d + Z.min I r) -> A + (c + 1) + changes k (drop (S i) kv) <= total ->
  forall m, last ms = Some m -> ends d r (Z.of_nat (length ms)) (c + 1) (Z.of_nat i) (Z.of_nat m) = true ->
  exists ps', close_interval g ps (Z.of_nat (length ms)) (Z.of_nat i) k h = Some ps' /\ bounds (ms ++ [i]) /\ closed kv ps' (ms ++ [i]) /\
    (exists q, aget ps' (Z.of_nat (length (ms ++ [i]))) = Some q /\ prefix_of kv i q) /\ Z.of_nat (length (ms ++ [i])) <= I /\ length ps' = length ps /\
    (Z.of_nat (length (ms ++ [i])) - 1) * d + Z.min (Z.of_nat (length (ms ++ [i])) - 1) r <= A + c.
Proof.
  intros [Hb (m0 & Hm0 & Hmi) Hcl (q & Hq & Hpre & _) Hroom Hlen Hcount] Hk Hprev Hne Hkl Hd Htot Hch m Hm He. rewrite Hm0 in Hm. injection Hm as ->. apply andb_true_iff in He as [He1%Z.ltb_lt He2%Z.ltb_lt].
  apply lookup_lt_Some in Hk as Hil. rewrite u64_small in He1 by lia. assert (Hlm : length (ms ++ [i]) = S (length ms)) by (rewrite length_app; simpl; lia). rewrite Hlm.
  assert (Hcnt : Z.of_nat (length ms) * d + Z.min (Z.of_nat (length ms)) r <= A + c) by (destruct (Z.leb_spec (Z.of_nat (length ms)) r); nia).
  assert (Hlt : Z.of_nat (length ms) < I).
  { destruct (Z.lt_ge_cases (Z.of_nat (length ms)) I) as [|Hge]; [done|]. exfalso. pose proof (changes_nonneg (drop (S i) kv) k).
    assert (Z.of_nat (length ms) = I) by lia. nia. }
  destruct (close_run ps (Z.of_nat (length ms)) (Z.of_nat i) k h q Hq ltac:(lia) ltac:(lia)) as (ps' & Hrun & Hl' & Hnew & Hold & Hoth). exists ps'. split; [done|].
  split; [apply (bounds_snoc ms m i Hb Hm0); lia|]. split.
  - intros p mp Hp. apply lookup_app_Some in Hp as [Hp|[Hp1 Hp2]].
    + rewrite Hoth by (apply lookup_lt_Some in Hp; lia). by apply Hcl.
    + apply list_lookup_singleton_Some in Hp2 as [Hz <-]. replace p with (length ms) by lia. eexists. split; [exact Hold|]. split; [done|]. intros _. split; [exact Hpre|]. by exists prev, y, k, x.
  - split; [exists (set_ps_key q k); split; [by replace (Z.of_nat (S (length ms))) with (Z.of_nat (length ms) + 1) by lia|done]|]. split_and!; [lia|done|]. replace (Z.of_nat (S (length ms)) - 1) with (Z.of_nat (length ms)) by lia. done.
Qed.

Lemma head_last_lookup (ms : list nat) m : last ms = Some m -> ms !! (length ms - 1)%nat = Some m.
Proof. rewrite last_lookup. by replace (pred (length ms)) with (length ms - 1)%nat by lia. Qed.

(** The sample goes into the statistics of the current interval. *)
Lemma accumulate_inv kv d r i ps ms A c k x last_key : (0 < i)%nat -> kv !! i = Some (k, x) -> fst <$> last kv = Some last_key -> bounds ms -> (exists m, last ms = Some m /\ (m < S i)%nat) -> closed kv ps ms ->
  (exists q, aget ps (Z.of_nat (length ms)) = Some q /\ prefix_of kv i q) -> Z.of_nat (length ms) <= I -> I + 1 <= Z.of_nat (length ps) ->
  (Z.of_nat (length ms) - 1) * d + Z.min (Z.of_nat (length ms) - 1) r <= A ->
  exists ps', accumulate ps (Z.of_nat (length ms)) (Z.of_nat i) x last_key = Some ps' /\ loop_inv kv d r (S i) ps' ms A c.
Proof.
  intros Hi Hk Hlast Hb Hm Hcl (q & Hq & Hpre) Hr Hl Hc. destruct (prefix_accumulate ps (Z.of_nat (length ms)) (Z.of_nat i) x last_key q Hq) as (ps' & Hrun & Hl' & Hnew & Hoth). exists ps'. split; [done|].
  split; [done|done| | |done|lia|done].
  - eapply closed_keep; [|exact Hcl]. intros p Hp. apply Hoth. lia.
  - eexists. split; [exact Hnew|]. split; [by eapply prefix_next|]. intros _. exact Hlast.
Qed.

Lemma dp_loop_inv kv d r last_key total rest : forall i ps ms A c h heights prev y, drop i kv = rest -> (0 < i)%nat -> kv !! (i - 1)%nat = Some (prev, y) -> fst <$> last kv = Some last_key ->
  Z.of_nat (length kv) < 2 ^ 64 -> 0 <= d -> total <= I * d + Z.min I r -> loop_inv kv d r i ps ms A c -> A + c + changes prev rest <= total ->
  exists ps' ms' A' c' h', dp_loop d r last_key (Z.of_nat i) prev rest heights ps (Z.of_nat (length ms)) c h = Some (ps', Z.of_nat (length ms'), h') /\ loop_inv kv d r (i + length rest) ps' ms' A' c' /\ length ps' = length ps.
Proof.
  induction rest as [|[k x] rest IH]; intros i ps ms A c h heights prev y Hd Hi Hp Hlast Hkl Hd0 Htot Hinv Hch; cbn [Pagg.dp_loop].
  { exists ps, ms, A, c, h. split; [done|]. by rewrite Nat.add_0_r. }
  assert (Hk : kv !! i = Some (k, x)) by (rewrite <- (Nat.add_0_r i), <- lookup_drop, Hd; done). assert (Hd' : drop (S i) kv = rest) by (rewrite <- Nat.add_1_r, <- drop_drop, Hd; done).
  cbn [changes] in Hch. destruct (li_last _ _ _ _ _ _ _ _ Hinv) as (m & Hm & Hmi). set (h' := if aqp_pswr_tree g then _ else h).
  assert (Hgo : forall ps1 ms1 A1 c1, length ps1 = length ps -> (exists ps', accumulate ps1 (Z.of_nat (length ms1)) (Z.of_nat i) x last_key = Some ps' /\ loop_inv kv d r (S i) ps' ms1 A1 c1) -> A1 + c1 + changes k rest <= total ->
    exists ps' ms' A' c' hh, (ps2 ← accumulate ps1 (Z.of_nat (length ms1)) (Z.of_nat i) x last_key; dp_loop d r last_key (Z.of_nat i + 1) k rest (tail heights) ps2 (Z.of_nat (length ms1)) c1 h') = Some (ps', Z.of_nat (length ms'), hh) /\
      loop_inv kv d r (i + length ((k, x) :: rest)) ps' ms' A' c' /\ length ps' = length ps).
  { intros ps1 ms1 A1 c1 Hl1 (ps2 & Hacc & Hinv2) Hch1. assert (Hl2 : length ps2 = length ps1). { unfold accumulate in Hacc. destruct (aget ps1 _); [|done]. by eapply aset_length. }
    rewrite Hacc. cbn [mbind option_bind]. replace (Z.of_nat i + 1) with (Z.of_nat (S i)) by lia.
    destruct (IH (S i) ps2 ms1 A1 c1 h' (tail heights) k x Hd' ltac:(lia)) as (ps' & ms' & A' & c' & hh & -> & Hinv' & Hl'); [by replace (S i - 1)%nat with i by lia|done..|].
    exists ps', ms', A', c', hh. split; [done|]. cbn [length]. rewrite Nat.add_succ_r. split; [exact Hinv'|lia]. }
  pose proof Hinv as [Hb _ Hcl (q & Hq & Hpre & _) Hroom Hlen Hcount]. destruct (Z.eqb_spec (comparator prev k) 0) as [He|He]; cbn [mbind option_bind].
  - apply (Hgo ps ms A c); [done| |lia]. eapply accumulate_inv; try done; [exists m; split; [done|lia]|by exists q].
  - assert (Hms : (0 < length ms)%nat) by (by destruct ms; [|simpl; lia]). destruct (Hcl (length ms - 1)%nat m (head_last_lookup ms m Hm)) as (q1 & Hq1 & Hqm & _).
    replace (Z.of_nat (length ms) - 1) with (Z.of_nat (length ms - 1)) by lia. rewrite Hq1. cbn [mbind option_bind]. rewrite Hqm.
    change ((1 <? u64 (Z.of_nat i - Z.of_nat m)) && _) with (ends d r (Z.of_nat (length ms)) (c + 1) (Z.of_nat i) (Z.of_nat m)). destruct (ends d r _ _ _ _) eqn:Hends.
    + destruct (close_inv kv d r i ps ms A c k x prev y h total Hinv Hk Hp He Hkl Hd0 Htot ltac:(rewrite Hd'; lia) m Hm Hends) as (ps1 & -> & Hb1 & Hcl1 & Hcur1 & Hroom1 & Hl1 & Hcount1). cbn [mbind option_bind].
      replace (Z.of_nat (length ms) + 1) with (Z.of_nat (length (ms ++ [i]))) by (rewrite length_app; simpl; lia). apply (Hgo ps1 (ms ++ [i]) (A + c) 1); [done| |lia].
      eapply accumulate_inv; try done; [exists i; split; [apply last_snoc|lia]|lia].
    + cbn [mbind option_bind]. apply (Hgo ps ms A (c + 1)); [done| |lia]. eapply accumulate_inv; try done; [exists m; split; [done|lia]|by exists q].
Qed.

(** The start of the loop, after the first sample. *)
Lemma start_inv kv d r ps k0 x0 : kv !! 0%nat = Some (k0, x0) -> 1 <= I -> I + 1 <= Z.of_nat (length ps) ->
  exists ps', start_prefix ps x0 = Some ps' /\ loop_inv kv d r 1 ps' [0%nat] 0 1 /\ length ps' = length ps.
Proof.
  intros Hk HI Hl. unfold start_prefix. destruct (aget_some ps 0) as [q0 Hq0]; [lia|]. rewrite (aset_run _ _ _ _ Hq0). cbn [mbind option_bind]. set (ps1 := <[_ := _]> ps).
  assert (E1 : aset ps 0 (mk_ps 0 0 (f_of_Z 0) (f_of_Z 0) 0) = Some ps1) by exact (aset_run _ _ _ _ Hq0). pose proof (aset_length _ _ _ _ E1) as L1.
  destruct (aget_some ps1 1) as [q1 Hq1]; [lia|]. rewrite Hq1. cbn [mbind option_bind]. rewrite (aset_run _ _ _ _ Hq1). eexists. split; [done|].
  pose proof (aset_run _ _ _ (mk_ps (ps_key q1) (ps_m q1) x0 (f_of_Z 0) (ps_h q1)) Hq1) as E2. pose proof (aset_length _ _ _ _ E2) as L2. split; [|by rewrite L2]. split; cbn [length].
  - split; [done|]. intros p m m' _ Hm'. by destruct p.
  - exists 0%nat. split; [done|lia].
  - intros p m Hp. destruct p as [|p]; [|by destruct p]. injection Hp as <-. eexists. split; [rewrite (aget_aset _ _ _ _ _ E2), decide_False, (aget_aset _ _ _ _ _ E1), decide_True by done; done|]. done.
  - eexists. split; [rewrite (aget_aset _ _ _ _ _ E2), decide_True by done; done|]. split; [|lia]. split; [|lia]. cbn [ps_mu]. destruct kv as [|[k x] kv]; [done|]. injection Hk as -> ->. rewrite firstn_cons, take_0. unfold values. cbn [fmap list_fmap snd].
    unfold mean. rewrite sum_cons, sum_nil. cbn [length]. change (Z.of_nat 1) with 1. rewrite Z2Qc_inj_1. field. done.
  - lia.
  - lia.
  - lia.
Qed.

(** What the statistics promise: [ms] are the bounds of the intervals, entry [p] of the
    array describes the samples before the end of interval [p]. *)
Record intervals (kv : list (Z * Qc)) (ps : list (AQPPrefixStats Qc)) (ms : list nat) : Prop := {
  iv_bounds : bounds ms;
  iv_last : last ms = Some (length kv);
  iv_stats : forall p m, ms !! p = Some m -> exists q, aget ps (Z.of_nat p) = Some q /\ ps_m q = Z.of_nat m /\ (p <> 0%nat -> prefix_of kv m q);
  iv_keys : forall p m, ms !! p = Some m -> (m < length kv)%nat -> p <> 0%nat -> exists q k0 x0 x, aget ps (Z.of_nat p) = Some q /\
    kv !! (m - 1)%nat = Some (k0, x0) /\ kv !! m = Some (ps_key q, x) /\ comparator k0 (ps_key q) <> 0
}.

Lemma bounds_init ms m : bounds (ms ++ [m]) -> ms <> [] -> bounds ms.
Proof. intros [Hh Hb] Hne. split; [by destruct ms|]. intros p a b Ha Hb'. eapply (Hb p); by apply lookup_app_l_Some. Qed.

Lemma closed_intervals kv ps ps' ms q : closed kv ps ms -> bounds (ms ++ [length kv]) -> (forall p, (p < length ms)%nat -> aget ps' (Z.of_nat p) = aget ps (Z.of_nat p)) ->
  aget ps' (Z.of_nat (length ms)) = Some q -> ps_m q = Z.of_nat (length kv) -> prefix_of kv (length kv) q -> intervals kv ps' (ms ++ [length kv]).
Proof.
  intros Hcl Hb Hk Hq Hm Hpre. split; [done|apply last_snoc| |].
  - intros p m [Hp|[Hp1 Hp2]]%lookup_app_Some.
    + destruct (Hcl p m Hp) as (q' & Hq' & Hm' & Hs). exists q'. rewrite Hk by (by eapply lookup_lt_Some). split_and!; [done|done|]. intros Hp0. by apply Hs.
    + apply list_lookup_singleton_Some in Hp2 as [Hz <-]. replace p with (length ms) by lia. by exists q.
  - intros p m [Hp|[Hp1 Hp2]]%lookup_app_Some Hlt Hp0; [|apply list_lookup_singleton_Some in Hp2 as [_ <-]; lia].
    destruct (Hcl p m Hp) as (q' & Hq' & _ & Hs). destruct (Hs Hp0) as (_ & k0 & x0 & k & x & H1 & H2 & H3 & H4). exists q', k0, x0, x. rewrite Hk by (by eapply lookup_lt_Some). by rewrite H4.
Qed.

(** The end of the loop: the last interval ends with the last sample, and is merged with
    the one before if it has no other. *)
Definition finish_stats (n h : Z) (ps : list (AQPPrefixStats Qc)) (j : Z) : option (list (AQPPrefixStats Qc) * Z) :=
  q ← aget ps j; ps ← aset ps j (set_ps_m g q n h);
  q ← aget ps j; q1 ← aget ps (j - 1);
  if (u64 (ps_m q - ps_m q1) =? 1)%Z then ps ← aset ps (j - 1) q; Some (ps, (j - 1)%Z) else Some (ps, j).

Lemma finish_run kv d r ps ms A c h : loop_inv kv d r (length kv) ps ms A c -> (1 < length kv)%nat -> Z.of_nat (length kv) < 2 ^ 64 ->
  exists ps' ms', finish_stats (Z.of_nat (length kv)) h ps (Z.of_nat (length ms)) = Some (ps', Z.of_nat (length ms' - 1)) /\ intervals kv ps' ms' /\ (length ms' <= length ms + 1)%nat.
Proof.
  intros [Hb (m & Hm & Hmi) Hcl (q & Hq & Hpre & _) _ _ _] Hn Hn64. unfold finish_stats. rewrite Hq. cbn [mbind option_bind]. rewrite (aset_run _ _ _ _ Hq). cbn [mbind option_bind].
  set (q2 := set_ps_m g q _ h). set (ps1 := <[_ := _]> ps). assert (E1 : aset ps (Z.of_nat (length ms)) q2 = Some ps1) by exact (aset_run _ _ _ _ Hq).
  assert (Hpre2 : prefix_of kv (length kv) q2) by exact Hpre.
  assert (Hq2 : aget ps1 (Z.of_nat (length ms)) = Some q2) by (rewrite (aget_aset _ _ _ _ _ E1); by rewrite decide_True). rewrite Hq2. cbn [mbind option_bind].
  destruct ms as [|m' ms0 _] using rev_ind; [done|]. rewrite last_snoc in Hm. injection Hm as ->. rewrite length_app in *. cbn [length] in *. replace (Z.of_nat (length ms0 + 1) - 1) with (Z.of_nat (length ms0)) in * by lia.
  destruct (Hcl (length ms0) m) as (q1 & Hq1 & Hqm & _); [by apply list_lookup_middle|]. assert (Hq1' : aget ps1 (Z.of_nat (length ms0)) = Some q1) by (rewrite (aget_aset _ _ _ _ _ E1), decide_False by lia; done).
  rewrite Hq1'. cbn [mbind option_bind]. change (ps_m q2) with (Z.of_nat (length kv)). rewrite Hqm, u64_small by lia. destruct (Z.eqb_spec (Z.of_nat (length kv) - Z.of_nat m) 1) as [H1|H1].
  - rewrite (aset_run _ _ _ q2 Hq1'). cbn [mbind option_bind]. pose proof (aset_run _ _ _ q2 Hq1') as E2. destruct ms0 as [|b ms0 _] using rev_ind. { destruct Hb as [Hh _]. cbn in Hh. injection Hh as ->. lia. }
    assert (Hgap : (b + 2 <= m)%nat) by (apply (proj2 Hb (length ms0) b m); [rewrite <- app_assoc; by apply list_lookup_middle|apply list_lookup_middle; rewrite length_app; simpl; lia]).
    eexists _, ((ms0 ++ [b]) ++ [length kv]). split; [do 2 f_equal; rewrite !length_app; simpl; lia|]. split; [|rewrite !length_app; simpl; lia].
    eapply (closed_intervals kv ps _ _ q2).
    + intros p k Hp. apply Hcl. by apply lookup_app_l_Some.
    + eapply bounds_snoc; [eapply bounds_init; [exact Hb|by destruct ms0]|apply last_snoc|lia].
    + intros p Hp. by rewrite (aget_aset _ _ _ _ _ E2), decide_False, (aget_aset _ _ _ _ _ E1), decide_False by lia.
    + by rewrite (aget_aset _ _ _ _ _ E2), decide_True.
    + done.
    + done.
  - eexists _, ((ms0 ++ [m]) ++ [length kv]). split; [do 2 f_equal; rewrite !length_app; simpl; lia|]. split; [|rewrite !length_app; simpl; lia].
    eapply (closed_intervals kv ps _ _ q2); [done|eapply bounds_snoc; [done|apply last_snoc|lia]| | |done|done].
    + intros p Hp. rewrite (aget_aset _ _ _ _ _ E1), decide_False by (rewrite length_app in Hp; simpl in Hp; lia). done.
    + rewrite length_app. cbn [length]. by rewrite (aget_aset _ _ _ _ _ E1), decide_True.
Qed.

(** Keys per interval: all of them fit into the array. *)
Definition quota (m : Z) : Z * Z := if m <=? I then (1, 0) else (m / I, m mod I).

Lemma quota_enough m d r : 1 <= I -> 0 <= m -> quota m = (d, r) -> 0 <= d /\ m <= I * d + Z.min I r.
Proof.
  intros HI Hm. unfold quota. destruct (Z.leb_spec m I); intros [= <- <-]; [lia|]. pose proof (Z.div_mod m I ltac:(lia)). pose proof (Z.mod_pos_bound m I ltac:(lia)). pose proof (Z.div_pos m I). lia.
Qed.

(** C21: The intervals of the first phase.  For at least two samples sorted by key, and an
    array with one entry more than the allowed number of intervals, the statistics are
    computed without leaving the array; there is at least one interval and at most the
    allowed number.  The bounds start at 0, end with the number of samples and leave two
    samples or more in every interval; entry [p] has the mean and the variance of the
    samples before bound [p], and its key is the first one of the next interval, which
    the interval itself does not contain. *)
Theorem dp_stats_intervals kv heights ps : (1 < length kv)%nat -> Z.of_nat (length kv) < 2 ^ 64 -> 1 <= I -> I + 1 <= Z.of_nat (length ps) ->
  exists ps' ms, dp_stats g comparator kv heights ps = Some (ps', Z.of_nat (length ms - 1)) /\ intervals kv ps' ms /\ 1 <= Z.of_nat (length ms - 1) <= I.
Proof.
  intros Hn Hn64 HI Hps. destruct (lookup_lt_is_Some_2 kv 0 ltac:(lia)) as [[k0 x0] H0]. destruct (last kv) as [[last_key y]|] eqn:Hlast; [|apply last_None in Hlast; subst kv; simpl in Hn; lia].
  unfold dp_stats. rewrite (head_lookup kv), H0. cbn [mbind option_bind]. rewrite Hlast. cbn [mbind option_bind]. replace (tail kv) with (drop 1 kv) by (by destruct kv as [|? []]).
  fold (quota (distinct_keys k0 (drop 1 kv))). destruct (quota _) as [d r] eqn:Hquota. pose proof (changes_distinct (drop 1 kv) k0) as Hch. pose proof (changes_nonneg (drop 1 kv) k0).
  destruct (quota_enough (distinct_keys k0 (drop 1 kv)) d r HI ltac:(lia) Hquota) as [Hd Htot]. destruct (start_inv kv d r ps k0 x0 H0 HI Hps) as (ps1 & -> & Hinv & Hl1). cbn [mbind option_bind].
  destruct (dp_loop_inv kv d r last_key (distinct_keys k0 (drop 1 kv)) (drop 1 kv) 1 ps1 [0%nat] 0 1 (if aqp_pswr_tree g then default 0 (head heights) else 0) (tail heights) k0 x0) as (ps2 & ms & A & c & h & Hrun & Hinv2 & Hl2); try done.
  { lia. } { by rewrite Hlast. } { lia. }
  change (Z.of_nat (length [0%nat])) with 1 in Hrun. change (Z.of_nat 1) with 1 in Hrun. rewrite Hrun. cbn [mbind option_bind]. rewrite length_drop in Hinv2. replace (1 + (length kv - 1))%nat with (length kv) in Hinv2 by lia.
  destruct (finish_run kv d r ps2 ms A c h Hinv2 Hn Hn64) as (ps3 & ms3 & Hfin & Hiv & Hlen). exists ps3, ms3. split; [exact Hfin|]. split; [done|]. pose proof (li_room _ _ _ _ _ _ _ _ Hinv2).
  destruct Hiv as [[Hh _] Hil _ _]. destruct ms3 as [|a [|b ms3]]; [done| |cbn [length] in *; lia]. cbn in Hh, Hil. simplify_eq. lia.
Qed.

End Intervals.

(** Five samples with three keys, at most two intervals: the first has two keys. *)
Definition demo_settings : settings := mk_settings false false false AQP_OPTIMIZATION_STRATEGY_DP 2.
Definition demo_kv : list (Z * Qc) := [(1, Qc_of_Z 10); (1, Qc_of_Z 20); (2, Qc_of_Z 30); (3, Qc_of_Z 40); (3, Qc_of_Z 60)].
Definition demo_ps : list (AQPPrefixStats Qc) := replicate 3 (mk_ps 0 0 0%Qc 0%Qc 0).

Lemma dp_stats_intervals_witness :
  exists ps' ms, dp_stats demo_settings Z.sub demo_kv [] demo_ps = Some (ps', Z.of_nat (length ms - 1)) /\ intervals Z.sub demo_kv ps' ms.
Proof.
  destruct (dp_stats_intervals demo_settings Z.sub Z.sub_diag demo_kv [] demo_ps ltac:(cbn; lia) ltac:(done) ltac:(done) ltac:(done)) as (ps' & ms & H1 & H2 & _).
  by exists ps', ms.
Defined.

Example demo_intervals : option_map (fun r => (map ps_m (fst r), map ps_key (fst r), snd r)) (dp_stats demo_settings Z.sub demo_kv [] demo_ps) = Some ([0; 3; 5], [0; 3; 3], 2).
Proof. vm_compute. reflexivity. Qed.

(** ** The first phase with a single sample

    Its value is not put into the partition arrays, and the next phase, which starts
    without intervals and without new arrays, writes behind their only entry. *)

Lemma single_sample_dropped (g : settings) comparator qsort_arg datum_value (c : AQPPSWRControlState Qc) (i : AQPPSWRCtlInfoData Qc) ts index k x :
  recorded_kv_pairs i = [(k, x)] -> next_kv_idx i = 1 -> ctl_grouped c = false ->
  exists ts' c', compute_statistics g comparator qsort_arg datum_value c i ts index = Some (ts', c', i) /\ ts_parts ts' = ts_parts ts /\ nintvls c' = 0.
Proof. intros Hkv Hn Hg. unfold compute_statistics. rewrite Hkv, Hn, Hg. cbn. eexists _, _. done. Qed.

Lemma single_sample_overrun (g : settings) (c : AQPPSWRControlState Qc) (i : AQPPSWRCtlInfoData Qc) ts x :
  do_pswr c = true -> do_switch_to_uniform c = false -> want_partition_key i = false -> aqp_batch_sampling g = false -> cur_partition c = 0 -> ctl_grouped c = false ->
  rejected i = false -> flags ts = 0 -> length (n_part (ts_parts ts)) = 1%nat -> aqp_approx_sum_internal_accum g c i ts x = None.
Proof.
  intros Hp Hu Hw Hb Hc Hg Hr Hf Hl. unfold aqp_approx_sum_internal_accum, detach_template, part_index. rewrite Hg, andb_false_r, Hr, Hf, Hu, Hp, Hw, Hb, Hc. cbn [Z.eqb andb orb negb].
  unfold add_value. destruct (n_part (ts_parts ts)) as [|n [|]]; [done| |done]. done.
Qed.

End PaggStats.
